(* ===== verification/_CoqProject ===== *)
-Q . S2P
Prelude.v
Kre.v
Memory.v
Paging.v
PagingProps.v
Vmm.v
VmmProps.v
Slab.v
SlabProps.v
SlabCache.v
SlabHeap.v
SlabVmm.v
Scheduler.v
SchedulerFairness.v
Collections.v
HashMap.v
HashMapProps.v
Timer.v
CLib.v
KString.v
KStringProps.v
VfsPath.v
VfsPathProps.v
FatVolume.v
FatVolumeProps.v
FatFile.v
FatFileProps.v
FatWriteProps.v
FatTheorems.v
FatDirectory.v
FatDriver.v
FatDirectoryProps.v
FatCreateProps.v
FatDeleteProps.v
FatDirTheorems.v
VfsModule.v
VfsProps.v
VfsStream.v
SystemCalls.v
AcpiUtil.v
AcpiNames.v
Locks.v
AcpiSync.v
AcpiNamespace.v
AcpiNamespaceDelete.v
AcpiNamespacePath.v
Elf.v
ElfProps.v
ElfExample.v
Shell.v
ShellProps.v
