(* ===== verification/Prelude.v ===== *)
(** * runeOS verification development

    runeOS is an x86-64 hobby operating system in C++ with the ACPICA reference implementation in C.
    This library models its kernel's core and its shell as executable definitions, translated file by file from
    the sources under [src/Kernel] and [src/App/Crucible], and proves what makes each part correct.

    ** The program and how its parts interact

    The kernel runtime environment (KRE) supplies containers, bit arithmetic and memory regions.  At
    boot the bootloader's memory map goes through [MemoryMap::claim] and [merge]; the physical memory
    manager (PMM) puts its bitmap allocator over it; paging builds four-level page tables from page
    frames of the PMM, reading and writing them through the higher half direct map; the virtual memory
    manager (VMM) maps page frames to pages and creates and destroys address spaces; system calls map
    and unmap pages for applications and check and copy the buffers applications pass in.  The scheduler
    runs threads from a multi-level ready queue; mutexes and semaphores block and wake threads through
    it; the timer wakes sleepers from a delta queue and preempts.  ACPICA reaches the kernel through an
    OS services layer built on these locks and keeps the ACPI namespace.  The virtual file system routes paths to
    mounted drivers and counts open files; the FAT driver keeps files and directories on a mass storage device.
    The ELF loader reads an executable through an open node and builds its image in an address space of its own.
    The shell Crucible is an application: keys edit a line, the enter key hands it to the parser, and the syntax
    tree is evaluated to the command line of a built-in command or a program.

    ** Files

    - [Prelude]: machine integers with their wrap-around, option monad, [simp]-like tactics, hint
      database [word], the lemmas on lists, options and integers shared by the components.
    - [Kre]: [KRE/BitsAndBytes.h], [KRE/Math.h], [KRE/Utility.h].  Bits, division, sorting.
    - [Memory]: [KRE/Memory.cpp] ([Region], [MemMap]); [PhysicalMemoryManager.cpp] and
      [BitMapAllocator.cpp] ([Pmm]).
    - [Paging], [PagingProps]: [Arch/x86_64/Memory/Paging.cpp]; the class [FrameAllocator] is what paging
      needs of a PMM, its laws [FrameLaws] are discharged by the bitmap allocator.
    - [Vmm], [VmmProps]: [Memory/VirtualMemoryManager.cpp], against the same interface.
    - [Slab], [SlabProps], [SlabCache], [SlabHeap]: [Memory/SlabAllocator.cpp], the kernel heap: slabs, their
      lists, object caches, the hash map of off-slab objects, and the allocator over the caches.  The class
      [PageAllocator] is what the heap needs of a VMM, with the laws [PageLaws]; [SlabVmm] discharges
      them for the modelled VMM.
    - [Scheduler]: [CPU/Threading/MultiLevelQueue.cpp] and [Scheduler.cpp]; [SchedulerFairness]: repeated
      preemption.
    - [Collections]: [KRE/Collections/LinkedList.h] on a heap of nodes; [HashMap], [HashMapProps]:
      [KRE/Collections/HashMap.h] with the hashes of [KRE/Utility.h], against stdpp's finite maps.
    - [Timer]: [CPU/Time/DeltaQueue.cpp], [PIT.cpp], [Timer.cpp], on the scheduler model.
    - [CLib]: [KRE/CRL/CRL.cpp] and [ACPICA/CLibFunctions.cpp] on a byte memory.
    - [KString], [KStringProps]: [KRE/String.cpp], strings with their small buffer; [VfsPath], [VfsPathProps]:
      [VirtualFileSystem/Path.cpp], paths on these strings.
    - [FatVolume], [FatVolumeProps]: [VirtualFileSystem/FAT/FAT32Engine.cpp] and [VolumeManager.cpp].  The storage
      device is the class [MassStorage] with the laws [Disk], the kind of FAT the class [FATEngine] with the
      instance [FAT32Engine].
    - [FatFile], [FatFileProps], [FatWriteProps], [FatTheorems]: [FileEntryManager.cpp] and [FATNode.cpp], open files
      as chains of clusters.
    - [FatDirectory], [FatDriver]: [FATDirectoryIterator.cpp], long file names and the search of
      [FileEntryManager.cpp], and [FATDriver.cpp]; [FatDirectoryProps], [FatCreateProps], [FatDeleteProps] and
      [FatDirTheorems]: directories as lists of items on the disk and a tree of them.
    - [VfsModule], [VfsProps]: [VFSModule.cpp], [Resource.h], on the hash map; the class [Drivers] is the virtual
      functions of [Driver.h], with the FAT driver as the instance [fat_drivers].  [OpenFiles] is the abstract
      view: a map from handles to paths, the marked paths, and the disk.
    - [VfsStream]: [FileStream.cpp], the buffered stream over an open node; the class [StreamNode] is the virtual
      functions of [Node.h] it calls.  Nothing is assumed of them: the theorem is about the calls a node gets.
    - [Elf], [ElfProps], [ElfExample]: [App/ELFLoader.cpp] and [ELF.h].  The file is [StreamNode] with [SeekNode], the
      memory of the application the class [UserMemory] with the laws [MemoryLaws]; a file and a paged memory
      discharge them.
    - [SystemCalls]: [SystemCall/KernelGuardian.cpp] and [MemoryBundle.cpp].
    - [Locks]: [CPU/Threading/Mutex.cpp] and [Semaphore.cpp] as interleaved threads.
    - [AcpiUtil], [AcpiNames], [AcpiSync]: ACPICA number conversion, names, and synchronisation
      ([osl-to-rune-bridge.cpp], [utlock.c], [utmutex.c], [utownerid.c]); the class of OS mutexes has
      the layer runeOS provides as its instance.
    - [AcpiNamespace], [AcpiNamespaceDelete], [AcpiNamespacePath]: [nsalloc.c], [nsobject.c],
      [nssearch.c], [nswalk.c], [nsnames.c].
    - [Shell], [ShellProps]: [App/Crucible]: [Lexer.cpp], [Parser.cpp], [AST.cpp] and [exec] of [Interpreter.cpp];
      [Environment.cpp] and [Action.cpp], the input line and the history ([LineEditor]).

    ** Conventions

    A C or C++ function is a Rocq function with its state passed explicitly.  [None] is undefined
    behaviour of the source: a dereference of a null or dangling pointer, an access outside an array,
    a division by zero; theorems show that it does not happen under the stated invariant.  Failure the
    code reports is a value of the code's status type.  Where operations interleave (mutex, semaphore,
    scheduler) the operations are steps of an [Inductive] relation and the
    properties are invariants of the reachable states; the calls of the reader/writer lock are run one after the
    other until they return or block.  A precondition that the source declares ([pre(...)]) is checked, and a
    call against it has no result.  Integers are [Z] with the wrap-around written
    out; addresses that cannot wrap carry their bound as a hypothesis.  Pointers into mutable structures
    are keys of a finite map, so aliasing is explicit.

    ** Theorem groups

    - Allocation: first fit, exact effect, and round trip of the bitmap allocator; conservation of
      memory by [claim]; fresh page frames, atomic failure and exact release in paging and the VMM;
      isolation of address spaces and their teardown; objects of the kernel heap are fresh, released exactly
      (in the caches that keep their administration on the slab) and come from a cache of the right size class.
    - Scheduling and locks: no thread is lost, the choice follows the policies, wake-ups are not lost,
      repeated preemption is round robin;
      mutual exclusion; sleepers are woken exactly when due.
    - Data structures: the linked list refines lists within its preconditions; namespace deletion, lookup and traversal agree with the tree
      the pointers represent; the hash map refines finite maps as long as no key is put twice; strings are
      well formed and paths resolve to a normal form.
    - Files: FAT entries are written exactly, free clusters found in order, chains extended; a file read in
      pieces is the byte string its chain holds, and appending extends it; a directory stream lists exactly the
      files of a directory, a created file is found under its name and a deleted one is gone, nothing else
      changes, for the directory layouts on which the iterator works (the others are findings); open files are
      never deleted, and a marked file is deleted at its last close; a stream hands every byte it accepted to the
      node, once and in order.
    - Executables: loading builds the image of a well-formed file, and any other file is refused or its headers
      satisfy the checks; what is not checked is shown by examples.
    - Shell: a command line that is written out is parsed and evaluated to what was written; the parser returns;
      the line editor is a line with a cursor, and the terminal shows it.
    - Conversions: names, numbers, strings, each with its round trip.
    - User memory: what the system calls accept, copy and refuse.
    Theorems whose statement shows behaviour the code does not intend, such as [mutex_lost_wakeup],
    [rwlock_broken_on_rune], [directory_deletion_lost], [behind_file_dev_error] or [long_string_cut], are listed as
    findings of the manifest and are no properties.

    ** Fuel

    Loops that are not structural take fuel: the length of the list or queue they walk, the number of
    bits or digits of a machine integer, or the number of nodes of a heap.  Each such loop has a lemma
    that the fuel its caller passes is enough (the result is [Some]), and the theorems are stated
    on the callers, with the fuel fixed.  The recursion between object caches stops at depth 2
    ([CACHE_DEPTH]): the caches that supply administration objects keep theirs on the slab.  A write to a
    file of [n] bytes takes at most [n] turns and a read of [n] bytes at most [n]; the walk along a cluster
    chain takes its fuel as an argument that bounds the length of the chain, since the chain is on the disk.
    So do the walk through a directory (its entries), the deletion of a tree (its depth) and
    [is_valid_file_path] (whose loop need not end below a second mount point).  A loop of the shell's lexer turns at most
    twice for a character, and the parser's fuel, twice the length of the line and two, is more than the tokens
    of the line ([parser_returns]).  The loader's loops have the number of bytes or pages they
    copy as fuel; a file that ends too early exhausts it ([truncated_segment_hangs]).  [released] is what the iterator
    over a destroyed list reads in [FATDriver::exists].

    ** Not modelled

    The generated and third-party code (yaml-cpp under [App/Freya], limine headers), the build system
    [Brokk] and the tests; assembly and device input and output (context switch, TLB and port
    instructions, interrupt controllers, AHCI, PCI, PS/2, frame buffer); the boot sequence that only
    wires the parts together; log output.  Of the parts with logic of their own
    these are left out: the table of applications and the terminal, the system calls that only copy their
    arguments and forward them, the shell's completion, built-in commands and program search, string formatting,
    the other applications, and the ACPICA subsystems (interpreter, parser, tables, resources, hardware,
    disassembler, debugger), which are third-party code apart from the parts listed above; the components'
    statuses in the manifest say which.
    *)

From Stdlib Require Export ZArith Lia.
From stdpp Require Export gmap fin_maps option.
From stdpp Require Export base numbers list.

#[global] Open Scope Z_scope.
#[global] Set Default Proof Using "Type".

(** ** Machine integers

    A C integer of width [w] is the [Z] it denotes; every operation that can
    leave the range writes its wrap-around with one of these functions. *)

Definition wrap (w z : Z) : Z := z mod 2 ^ w.

Abbreviation u8 := (wrap 8).
Abbreviation u16 := (wrap 16).
Abbreviation u32 := (wrap 32).
Abbreviation u64 := (wrap 64).

Definition in_width (w z : Z) : Prop := 0 <= z < 2 ^ w.

Declare Scope word_scope.
Delimit Scope word_scope with word.
Notation "x 'of' 'width' w" := (in_width w x) (at level 70) : word_scope.

Create HintDb word.
Create Rewrite HintDb wrap.

Lemma pow2_pos w : 0 <= w -> 0 < 2 ^ w.
Proof. intros. apply Z.pow_pos_nonneg; lia. Qed.

Lemma wrap_range w z : 0 <= w -> in_width w (wrap w z).
Proof. intros. unfold in_width, wrap. apply Z.mod_pos_bound, pow2_pos; lia. Qed.

Lemma wrap_small w z : in_width w z -> wrap w z = z.
Proof. unfold in_width, wrap. intros. apply Z.mod_small; lia. Qed.

Lemma wrap_idem w z : 0 <= w -> wrap w (wrap w z) = wrap w z.
Proof. intros. apply wrap_small, wrap_range; lia. Qed.

Lemma wrap_add_l w a b : 0 <= w -> wrap w (wrap w a + b) = wrap w (a + b).
Proof. intros. unfold wrap. apply Z.add_mod_idemp_l. pose proof (pow2_pos w); lia. Qed.

Lemma wrap_add_r w a b : 0 <= w -> wrap w (a + wrap w b) = wrap w (a + b).
Proof. intros. unfold wrap. apply Z.add_mod_idemp_r. pose proof (pow2_pos w); lia. Qed.

Lemma wrap_sub_cancel w a b :
  0 <= w -> in_width w b -> wrap w (wrap w (a + b) - a) = b.
Proof.
  intros Hw Hb. unfold wrap. rewrite Zminus_mod_idemp_l.
  replace (a + b - a) with b by lia. by apply Z.mod_small.
Qed.

#[export] Hint Resolve wrap_range wrap_small : word.
#[export] Hint Rewrite wrap_idem wrap_add_l wrap_add_r using lia : wrap.

(** Discharges the side conditions the word lemmas leave: a closed power of two
    is evaluated and the rest is linear. *)
Ltac word_lia :=
  unfold in_width in *;
  repeat match goal with
    | |- context [2 ^ ?k] => let v := eval vm_compute in (2 ^ k) in change (2 ^ k) with v
    | H : context [2 ^ ?k] |- _ => let v := eval vm_compute in (2 ^ k) in change (2 ^ k) with v in H
    end; lia.

(** ** Bits *)

Lemma testbit_above w z i : in_width w z -> 0 <= w <= i -> Z.testbit z i = false.
Proof.
  intros [Hz1 Hz2] Hi. rewrite <- (Z.mod_small z (2 ^ w)) by done.
  apply Z.mod_pow2_bits_high. lia.
Qed.

Lemma width_of_testbit w z :
  0 <= w -> 0 <= z -> (forall i, w <= i -> Z.testbit z i = false) -> in_width w z.
Proof.
  intros Hw Hz Hb. assert (z = z mod 2 ^ w) as ->.
  { apply Z.bits_inj'. intros i Hi. destruct (Z.lt_ge_cases i w).
    - by rewrite Z.mod_pow2_bits_low.
    - rewrite Z.mod_pow2_bits_high by lia. by apply Hb. }
  by apply wrap_range.
Qed.

Lemma lor_width w a b : 0 <= w -> in_width w a -> in_width w b -> in_width w (Z.lor a b).
Proof.
  intros Hw Ha Hb. apply width_of_testbit; [done| |].
  - apply Z.lor_nonneg. unfold in_width in *; lia.
  - intros i Hi. rewrite Z.lor_spec, !(testbit_above w) by (done || lia). done.
Qed.

Lemma land_width w a b : 0 <= w -> in_width w a -> in_width w (Z.land a b).
Proof.
  intros Hw Ha. apply width_of_testbit; [done| |].
  - apply Z.land_nonneg. unfold in_width in *; lia.
  - intros i Hi. rewrite Z.land_spec, (testbit_above w a) by (done || lia). done.
Qed.

Lemma pow2_testbit i j : 0 <= i -> 0 <= j -> Z.testbit (2 ^ i) j = bool_decide (i = j).
Proof.
  intros. destruct (decide (i = j)) as [->|Hne].
  - rewrite Z.pow2_bits_true by lia. by rewrite bool_decide_true.
  - rewrite Z.pow2_bits_false by lia. by rewrite bool_decide_false.
Qed.

#[export] Hint Resolve lor_width land_width : word.
#[export] Hint Extern 1 (0 <= _)%Z => lia : word.

(** ** Arrays

    A C array is a list; an access carries its index as an integer and an index
    outside the array has no value ([None]): the code's behaviour is undefined
    there. *)

Definition aget {A} (l : list A) (i : Z) : option A :=
  if decide (0 <= i) then l !! Z.to_nat i else None.

Definition aset {A} (l : list A) (i : Z) (x : A) : option (list A) :=
  if decide (0 <= i < Z.of_nat (length l)) then Some (<[Z.to_nat i := x]> l) else None.

Definition zlen {A} (l : list A) : Z := Z.of_nat (length l).

Section arrays.
Context {A : Type}.
Implicit Types (l : list A) (x : A).

Lemma aget_Some l i x : aget l i = Some x -> 0 <= i < zlen l.
Proof.
  unfold aget, zlen. case_decide; [|done]. intros Hl%lookup_lt_Some. lia.
Qed.

Lemma aget_in l i : 0 <= i < zlen l -> exists x, aget l i = Some x.
Proof.
  unfold aget, zlen. intros. rewrite decide_True by lia.
  apply lookup_lt_is_Some. lia.
Qed.

Lemma aget_out l i : ~ (0 <= i < zlen l) -> aget l i = None.
Proof.
  unfold aget, zlen. intros. case_decide; [|done]. apply lookup_ge_None. lia.
Qed.

Lemma aset_Some l i x l' :
  aset l i x = Some l' -> 0 <= i < zlen l /\ l' = <[Z.to_nat i := x]> l.
Proof. unfold aset, zlen. case_decide; [|done]. intros [= <-]. split; [lia|done]. Qed.

Lemma aset_in l i x : 0 <= i < zlen l -> exists l', aset l i x = Some l'.
Proof. unfold aset, zlen. intros. rewrite decide_True by lia. eauto. Qed.

Lemma aset_len l i x l' : aset l i x = Some l' -> zlen l' = zlen l.
Proof. intros [_ ->]%aset_Some. unfold zlen. by rewrite length_insert. Qed.

Lemma aget_aset_eq l i x l' : aset l i x = Some l' -> aget l' i = Some x.
Proof.
  intros [Hi ->]%aset_Some. unfold aget, zlen in *. rewrite decide_True by lia.
  apply list_lookup_insert_eq. lia.
Qed.

Lemma aget_aset_ne l i j x l' : i <> j -> aset l i x = Some l' -> aget l' j = aget l j.
Proof.
  intros Hne [Hi ->]%aset_Some. unfold aget. case_decide; [|done].
  apply list_lookup_insert_ne. lia.
Qed.
End arrays.

Lemma zlen_nil {A} : zlen (@nil A) = 0.
Proof. done. Qed.

Lemma zlen_app {A} (l1 l2 : list A) : zlen (l1 ++ l2) = zlen l1 + zlen l2.
Proof. unfold zlen. rewrite length_app. lia. Qed.

Lemma zlen_cons {A} (x : A) l : zlen (x :: l) = 1 + zlen l.
Proof. unfold zlen. cbn. lia. Qed.

Lemma zlen_nonneg {A} (l : list A) : 0 <= zlen l.
Proof. unfold zlen. lia. Qed.

(** ** Counted loops

    [for (i = lo; i < lo + n; i++) body(i)] where the body can fail. *)

Fixpoint forM {S} (n : nat) (i : Z) (body : Z -> S -> option S) (s : S) : option S :=
  match n with
  | O => Some s
  | S n' => s' ← body i s; forM n' (i + 1) body s'
  end.

(** A loop invariant indexed by the loop counter. *)
Lemma forM_inv {St} (P : Z -> St -> Prop) body n i (s : St) :
  P i s ->
  (forall j st, i <= j < i + Z.of_nat n -> P j st ->
     exists st', body j st = Some st' /\ P (j + 1) st') ->
  exists st', forM n i body s = Some st' /\ P (i + Z.of_nat n) st'.
Proof.
  revert i s. induction n as [|n IH]; intros i s HP Hstep.
  - exists s. rewrite Z.add_0_r. done.
  - destruct (Hstep i s) as (s1 & Hs1 & HP1); [lia|done|].
    destruct (IH (i + 1) s1 HP1) as (s2 & Hs2 & HP2).
    { intros j st Hj. apply Hstep. lia. }
    exists s2. cbn. rewrite Hs1. cbn. split; [done|].
    by replace (i + Z.of_nat (S n)) with (i + 1 + Z.of_nat n) by lia.
Qed.

(** ** Tactics shared by the components *)

(** Splits on the scrutinee of the goal's outermost [match] or [if] and simplifies. *)
Ltac step_case :=
  match goal with
  | |- context [match ?x with _ => _ end] =>
      lazymatch x with
      | context [match _ with _ => _ end] => fail
      | _ => destruct x eqn:?; simplify_eq/=
      end
  end.

(** Closes a decidable goal on concrete values by evaluation. *)
Ltac by_compute := repeat split; vm_compute; first [reflexivity | discriminate | intros; discriminate | done].

(** Turns the boolean tests the code makes on integers into propositions. *)
Ltac bool_prop :=
  repeat match goal with
    | H : (_ && _)%bool = true |- _ => apply andb_true_iff in H; destruct H
    | H : (_ || _)%bool = false |- _ => apply orb_false_iff in H; destruct H
    | H : negb _ = true |- _ => apply negb_true_iff in H
    | H : negb _ = false |- _ => apply negb_false_iff in H
    | H : (_ =? _) = true |- _ => apply Z.eqb_eq in H
    | H : (_ =? _) = false |- _ => apply Z.eqb_neq in H
    | H : (_ <? _) = true |- _ => apply Z.ltb_lt in H
    | H : (_ <? _) = false |- _ => apply Z.ltb_ge in H
    | H : (_ <=? _) = true |- _ => apply Z.leb_le in H
    | H : (_ <=? _) = false |- _ => apply Z.leb_gt in H
    | H : bool_decide _ = true |- _ => apply bool_decide_eq_true in H
    | H : bool_decide _ = false |- _ => apply bool_decide_eq_false in H
    end.
