(* ===== verification/Kre.v ===== *)
(** * Kernel runtime environment (KRE): bits, arithmetic and array helpers

    Models [KRE/BitsAndBytes.h], [KRE/Math.h] and the array operations of
    [KRE/Utility.h]: the in-place quick sort the memory map relies on, and
    [array_delete].  Arrays are lists, an out-of-range access has no value. *)

From Stdlib Require Import Sorting.Sorted.
From S2P Require Import Prelude.

Module Bits.
  (** [bit_check], [bit_set] and [bit_clear] at an integer type of width [w].
      The literal [1] is a 32-bit [int]: [1 << offset] is defined for
      [offset < 31] only, and the result is converted to [T]. *)
Definition bit_check (num offset : Z) : bool :=
  negb (Z.land (Z.shiftr num offset) 1 =? 0).

Definition bit_set (w num offset : Z) : option Z :=
  if decide (0 <= offset < 31) then Some (wrap w (Z.lor num (Z.shiftl 1 offset))) else None.

Definition bit_clear (w num offset : Z) : option Z :=
  if decide (0 <= offset < 31)
  then Some (wrap w (Z.land num (Z.lnot (Z.shiftl 1 offset)))) else None.

Definition nibble_get (value offset : Z) : Z :=
  if 15 <? offset then 0 else Z.land (Z.shiftr value (4 * offset)) 15.

Definition byte_get (value offset : Z) : Z :=
  if 7 <? offset then 0 else Z.land (Z.shiftr value (8 * offset)) 255.

Definition word_get (value offset : Z) : Z :=
  if 3 <? offset then 0 else Z.land (Z.shiftr value (16 * offset)) 65535.

Definition dword_get (value offset : Z) : Z :=
  if 1 <? offset then 0 else Z.land (Z.shiftr value (32 * offset)) 4294967295.

Lemma bit_check_spec num offset :
  0 <= offset -> bit_check num offset = Z.testbit num offset.
Proof.
  intros. unfold bit_check. change 1 with (Z.ones 1). rewrite Z.land_ones by lia.
  change (2 ^ 1) with 2. rewrite Zmod_odd, <- Z.bit0_odd, Z.shiftr_spec by lia.
  rewrite Z.add_0_l. by destruct (Z.testbit num offset).
Qed.

Lemma shiftl_1_pow2 k : 0 <= k -> Z.shiftl 1 k = 2 ^ k.
Proof. intros. rewrite Z.shiftl_mul_pow2 by done. lia. Qed.

Lemma bit_set_spec w num offset r i :
  in_width w num -> offset < w -> bit_set w num offset = Some r -> 0 <= i ->
  Z.testbit r i = (bool_decide (i = offset) || Z.testbit num i)%bool.
Proof.
  unfold bit_set. intros Hn Hw Hr Hi. case_decide as Ho; simplify_eq.
  rewrite shiftl_1_pow2 by lia.
  rewrite wrap_small.
  - rewrite Z.lor_spec, pow2_testbit by lia.
    rewrite (bool_decide_ext (offset = i) (i = offset)) by done. apply orb_comm.
  - apply lor_width; [lia|done|]. split; [lia|]. apply Z.pow_lt_mono_r; lia.
Qed.

Lemma bit_clear_spec w num offset r i :
  in_width w num -> 0 <= w -> bit_clear w num offset = Some r -> 0 <= i ->
  Z.testbit r i = (negb (bool_decide (i = offset)) && Z.testbit num i)%bool.
Proof.
  unfold bit_clear. intros Hn Hw Hr Hi. case_decide as Ho; simplify_eq.
  rewrite shiftl_1_pow2 by lia.
  rewrite wrap_small by auto with word.
  rewrite Z.land_spec, Z.lnot_spec, pow2_testbit by lia.
  rewrite (bool_decide_ext (offset = i) (i = offset)) by done. apply andb_comm.
Qed.

(** The four [*_get] readers extract a [w]-bit chunk. *)
Lemma chunk_testbit w value offset i :
  0 < w -> 0 <= offset -> 0 <= i ->
  Z.testbit (Z.land (Z.shiftr value (w * offset)) (Z.ones w)) i =
  (bool_decide (i < w) && Z.testbit value (w * offset + i))%bool.
Proof.
  intros. rewrite Z.land_spec, Z.shiftr_spec by lia.
  rewrite andb_comm, Z.add_comm. f_equal. destruct (decide (i < w)).
  - by rewrite bool_decide_true, Z.ones_spec_low by lia.
  - by rewrite bool_decide_false, Z.ones_spec_high by lia.
Qed.

(** Reading the eight bytes of a 64-bit value loses nothing. *)
Lemma byte_get_complete a b :
  in_width 64 a -> in_width 64 b ->
  (forall o, 0 <= o <= 7 -> byte_get a o = byte_get b o) -> a = b.
Proof.
  intros Ha Hb Hall. apply Z.bits_inj'. intros i Hi.
  destruct (Z.lt_ge_cases i 64) as [Hlt|Hge].
  - assert (0 <= i / 8 <= 7) as Hq by (Z.to_euclidean_division_equations; lia).
    specialize (Hall _ Hq). unfold byte_get in Hall.
    destruct (7 <? i / 8) eqn:E; [bool_prop; lia|].
    apply (f_equal (fun z => Z.testbit z (i mod 8))) in Hall.
    pose proof (Z.mod_pos_bound i 8 ltac:(lia)).
    change 255 with (Z.ones 8) in Hall. rewrite !chunk_testbit in Hall by lia.
    rewrite !bool_decide_true in Hall by lia. cbn in Hall.
    by rewrite <- (Z.div_mod i 8) in Hall by lia.
  - by rewrite !(testbit_above 64) by (done || lia).
Qed.
End Bits.

Module Math.
  (** [Math.h] at an unsigned type of width [w]; [None] is division by zero. *)
Definition div_round_up (w num divisor : Z) : option Z :=
  if decide (divisor = 0) then None
  else Some (wrap w (num + divisor - 1) / divisor).

Definition min (num1 num2 : Z) : Z := if num1 <? num2 then num1 else num2.

Definition max (num1 num2 : Z) : Z := if num2 <? num1 then num1 else num2.

Lemma min_spec a b : min a b = Z.min a b.
Proof. unfold min. destruct (a <? b) eqn:E; bool_prop; lia. Qed.

Lemma max_spec a b : max a b = Z.max a b.
Proof. unfold max. destruct (b <? a) eqn:E; bool_prop; lia. Qed.

(** The rounded-up quotient is the least number of blocks that cover [num],
    as long as the intermediate sum does not leave the type. *)
Lemma div_round_up_least w num divisor q :
  0 < divisor -> 0 <= num -> num + divisor <= 2 ^ w ->
  div_round_up w num divisor = Some q ->
  num <= q * divisor < num + divisor.
Proof.
  intros Hd Hn Hb. unfold div_round_up. case_decide; [lia|]. intros [= <-].
  rewrite wrap_small by (unfold in_width; lia).
  pose proof (Z.div_mod (num + divisor - 1) divisor ltac:(lia)).
  pose proof (Z.mod_pos_bound (num + divisor - 1) divisor ltac:(lia)). nia.
Qed.
End Math.

(** ** Arrays: quick sort *)
Module Sort.
Section sort.
  Context {A : Type} (le : A -> A -> bool).
  Implicit Types (l m : list A).

  (** [swap(array[i], array[j])] *)
Definition swap l (i j : Z) : option (list A) :=
  a ← aget l i; b ← aget l j; l1 ← aset l i b; aset l1 j a.

  (** The loop body of [partition]; the state is [idx] and the array. *)
Definition partition_step (pivot : A) (j : Z) (st : Z * list A) : option (Z * list A) :=
  let '(idx, l) := st in
  x ← aget l j;
  if le x pivot then l' ← swap l (idx + 1) j; Some (idx + 1, l') else Some (idx, l).

Definition partition l (left high : Z) : option (Z * list A) :=
  pivot ← aget l high;
  '(idx, l1) ← forM (Z.to_nat (high - left)) left (partition_step pivot) (left - 1, l);
  l2 ← swap l1 (idx + 1) high;
  Some (idx + 1, l2).

  (** [quick_sort] with fuel for the recursion. *)
Fixpoint quick_sort (fuel : nat) l (low high : Z) : option (list A) :=
  match fuel with
  | O => None
  | S fuel' =>
      if low <? high then
        '(pivot, l1) ← partition l low high;
        l2 ← quick_sort fuel' l1 low (pivot - 1);
        quick_sort fuel' l2 (pivot + 1) high
      else Some l
  end.

  (** [sort(array, arr_size)]: [arr_size - 1] is passed as an [int]. *)
Definition sort l (arr_size : Z) : option (list A) :=
  quick_sort (S (length l)) l 0 (arr_size - 1).

  (** [array_delete(arr, idx, count)]: [memmove] of the tail, one element down;
      the last slot keeps its old content. *)
Definition array_delete l (idx count : Z) : option (list A * Z) :=
  if decide (0 <= idx < count /\ count <= zlen l) then
    Some (take (Z.to_nat idx) l ++ take (Z.to_nat (count - idx - 1)) (drop (Z.to_nat (idx + 1)) l)
          ++ drop (Z.to_nat (count - 1)) l, count - 1)
  else None.

  (** *** The swap of two elements, by the segments around them *)

Lemma aget_mid l1 x l2 i : i = zlen l1 -> aget (l1 ++ x :: l2) i = Some x.
Proof.
  intros ->. unfold aget, zlen. rewrite decide_True by lia.
  rewrite Nat2Z.id, lookup_app_r by lia. by rewrite Nat.sub_diag.
Qed.

Lemma aset_mid l1 x y l2 i : i = zlen l1 -> aset (l1 ++ x :: l2) i y = Some (l1 ++ y :: l2).
Proof.
  intros ->. unfold aset, zlen. rewrite decide_True by (rewrite length_app; cbn; lia).
  rewrite Nat2Z.id, insert_app_r_alt by lia. by rewrite Nat.sub_diag.
Qed.

Lemma swap_self l i : 0 <= i < zlen l -> swap l i i = Some l.
Proof.
  intros Hi. destruct (aget_in l i Hi) as [x Hx]. unfold swap. rewrite Hx. cbn.
  destruct (aset_in l i x Hi) as [l' Hl']. rewrite Hl'. cbn.
  pose proof (aset_Some _ _ _ _ Hl') as [_ ->].
  unfold aget in Hx. case_decide; [|done]. rewrite list_insert_id by done.
  unfold aset, zlen in *. rewrite decide_True by lia. by rewrite list_insert_id.
Qed.

Lemma swap_mid l1 x l2 y l3 i j :
  i = zlen l1 -> j = zlen l1 + 1 + zlen l2 ->
  swap (l1 ++ x :: l2 ++ y :: l3) i j = Some (l1 ++ y :: l2 ++ x :: l3).
Proof.
  intros Hi Hj. unfold swap. rewrite (aget_mid l1 _ _ i) by done. cbn.
  assert (forall z, l1 ++ z :: l2 ++ y :: l3 = (l1 ++ z :: l2) ++ y :: l3) as E
    by (intros; by rewrite <- app_assoc).
  assert (forall z, j = zlen (l1 ++ z :: l2)) as Ej
    by (intros; unfold zlen in *; rewrite length_app; cbn; lia).
  rewrite (E x), (aget_mid (l1 ++ x :: l2) _ _ j) by done. cbn. rewrite <- (E x).
  rewrite (aset_mid l1 _ _ _ i) by done. cbn. rewrite E, aset_mid by done. by rewrite <- app_assoc.
Qed.
  (** *** Partition *)

Lemma partition_step_eq p j idx l :
  partition_step p j (idx, l) =
  x ← aget l j;
  if le x p then l' ← swap l (idx + 1) j; Some (idx + 1, l') else Some (idx, l).
Proof. done. Qed.

  (** The loop of [partition]: [a] holds the elements not above the pivot, [b]
      those above it, [c] is still to be read. *)
Lemma partition_loop c : forall pre a b p post,
  Forall (fun x => le x p = true) a -> Forall (fun x => le x p = false) b ->
  exists a' b',
    forM (length c) (zlen pre + zlen a + zlen b) (partition_step p)
      (zlen pre + zlen a - 1, pre ++ a ++ b ++ c ++ p :: post)
    = Some (zlen pre + zlen a' - 1, pre ++ a' ++ b' ++ p :: post)
    /\ a' ++ b' ≡ₚ a ++ b ++ c
    /\ Forall (fun x => le x p = true) a' /\ Forall (fun x => le x p = false) b'.
Proof.
  induction c as [|x c IH]; intros pre a b p post Ha Hb.
  { exists a, b. cbn. rewrite app_nil_r. done. }
  cbn [length forM]. 
  replace (pre ++ a ++ b ++ (x :: c) ++ p :: post)
    with ((pre ++ a ++ b) ++ x :: c ++ p :: post) by (by rewrite <- !app_assoc).
  rewrite partition_step_eq, aget_mid by (rewrite !zlen_app; lia). cbn.
  destruct (le x p) eqn:Hx.
  - (* x is swapped behind the elements not above the pivot *)
    assert (exists b1, swap ((pre ++ a ++ b) ++ x :: c ++ p :: post)
              (zlen pre + zlen a - 1 + 1) (zlen pre + zlen a + zlen b)
            = Some (pre ++ (a ++ [x]) ++ b1 ++ c ++ p :: post) /\ b1 ≡ₚ b) as (b1 & Hsw & Hp).
    { destruct b as [|y b].
      - exists []. split; [|done]. rewrite app_nil_r. rewrite zlen_nil.
        replace (zlen pre + zlen a - 1 + 1) with (zlen pre + zlen a + 0) by lia.
        rewrite swap_self by (rewrite !zlen_app, zlen_cons; unfold zlen; lia).
        by rewrite <- !app_assoc.
      - exists (b ++ [y]). split; [|by rewrite Permutation_app_comm].
        replace ((pre ++ a ++ y :: b) ++ x :: c ++ p :: post)
          with ((pre ++ a) ++ y :: b ++ x :: c ++ p :: post) by (by rewrite <- !app_assoc).
        rewrite swap_mid by (rewrite ?zlen_app, ?zlen_cons; lia). by rewrite <- !app_assoc. }
    rewrite Hsw. cbn.
    destruct (IH pre (a ++ [x]) b1 p post) as (a' & b' & Hrun & Hperm & Ha' & Hb').
    { apply Forall_app. by split; [|constructor]. }
    { by rewrite Hp. }
    exists a', b'. split; [|split; [|done]].
    + rewrite <- Hrun. rewrite !zlen_app, zlen_cons. rewrite zlen_nil.
      assert (zlen b1 = zlen b) as -> by (unfold zlen; by rewrite Hp).
      f_equal; [lia|f_equal; lia].
    + rewrite Hperm, Hp. rewrite <- !app_assoc. cbn. f_equiv. apply Permutation_middle.
  - cbn. destruct (IH pre a (b ++ [x]) p post) as (a' & b' & Hrun & Hperm & Ha' & Hb').
    { done. } { apply Forall_app. by split; [|constructor]. }
    exists a', b'. split; [|split; [|done]].
    + rewrite <- Hrun. rewrite !zlen_app, zlen_cons. rewrite zlen_nil.
      f_equal; [lia|]. by rewrite <- !app_assoc.
    + rewrite Hperm. by rewrite <- !app_assoc.
Qed.

Lemma partition_spec pre m p post :
  exists a b,
    partition (pre ++ m ++ p :: post) (zlen pre) (zlen pre + zlen m)
    = Some (zlen pre + zlen a, pre ++ a ++ p :: b ++ post)
    /\ a ++ b ≡ₚ m
    /\ Forall (fun x => le x p = true) a /\ Forall (fun x => le x p = false) b.
Proof.
  unfold partition. rewrite (app_assoc pre), aget_mid by (rewrite zlen_app; lia).
  rewrite <- app_assoc. cbn.
  replace (Z.to_nat (zlen pre + zlen m - zlen pre)) with (length m) by (unfold zlen; lia).
  destruct (partition_loop m pre [] [] p post) as (a & b & Hrun & Hp & Ha & Hb); [done..|].
  rewrite zlen_nil in Hrun.
  rewrite !Z.add_0_r in Hrun. cbn in Hrun. rewrite Hrun. cbn.
  assert (zlen m = zlen a + zlen b) as Hlen.
  { rewrite <- zlen_app. unfold zlen. by rewrite Hp. }
  destruct b as [|y b].
  - exists a, []. split; [|done]. cbn in *.
    replace (zlen pre + zlen a - 1 + 1) with (zlen pre + zlen a) by lia.
    replace (zlen pre + zlen m) with (zlen pre + zlen a)
      by (rewrite zlen_nil in Hlen; lia).
    rewrite swap_self by (rewrite !zlen_app, zlen_cons; unfold zlen; lia). done.
  - exists a, (b ++ [y]).
    replace (pre ++ a ++ (y :: b) ++ p :: post) with ((pre ++ a) ++ y :: b ++ p :: post)
      by (by rewrite <- !app_assoc).
    rewrite swap_mid by (rewrite zlen_app; rewrite zlen_cons in Hlen; lia).
    cbn. split; [|split; [|split; [done|]]].
    + rewrite <- !app_assoc. cbn. f_equal. f_equal. lia.
    + rewrite <- Hp. f_equiv. by rewrite Permutation_app_comm.
    + apply list.Forall_cons in Hb as [Hy Hb]. apply Forall_app. by split; [|constructor].
Qed.

  (** *** Quick sort *)
  Context (le_trans : forall x y z, le x y = true -> le y z = true -> le x z = true)
          (le_total : forall x y, le x y = true \/ le y x = true).

Lemma StronglySorted_pivot a p b :
  StronglySorted (fun x y => le x y = true) a ->
  StronglySorted (fun x y => le x y = true) b ->
  Forall (fun x => le x p = true) a -> Forall (fun x => le x p = false) b ->
  StronglySorted (fun x y => le x y = true) (a ++ p :: b).
Proof using le_trans le_total.
  intros Hsa Hsb Ha Hb.
  assert (Forall (fun y => le p y = true) b) as Hpb.
  { eapply Forall_impl; [exact Hb|]. cbn. intros y Hy. destruct (le_total p y); congruence. }
  induction Hsa as [|x a Hsa IH Hx]; cbn.
  - by constructor.
  - apply list.Forall_cons in Ha as [Hxp Ha]. constructor; [by apply IH|].
    apply Forall_app. split; [done|]. constructor; [done|].
    eapply Forall_impl; [exact Hpb|]. cbn. eauto.
Qed.

Lemma quick_sort_segment fuel : forall pre m post,
  (length m < fuel)%nat ->
  exists m', quick_sort fuel (pre ++ m ++ post) (zlen pre) (zlen pre + zlen m - 1)
             = Some (pre ++ m' ++ post)
             /\ m' ≡ₚ m /\ StronglySorted (fun x y => le x y = true) m'.
Proof using le_trans le_total.
  induction fuel as [|fuel IH]; intros pre m post Hf; [lia|]. cbn [quick_sort].
  destruct (zlen pre <? zlen pre + zlen m - 1) eqn:Hlt; bool_prop.
  - destruct m as [|x m _] using rev_ind; [rewrite zlen_nil in Hlt; lia|].
    rewrite <- !app_assoc. cbn [app].
    destruct (partition_spec pre m x post) as (a & b & Hpart & Hp & Ha & Hb).
    rewrite zlen_app in *. change (zlen [x]) with 1 in *.
    replace (zlen pre + (zlen m + 1) - 1) with (zlen pre + zlen m) by lia.
    rewrite Hpart. cbn.
    assert (length a + length b = length m)%nat as Hlen by (by rewrite <- Hp, length_app).
    rewrite length_app in Hf; cbn in Hf.
    destruct (IH pre a (x :: b ++ post)) as (a' & Hqa & Hpa & Hsa); [lia|].
    rewrite Hqa. cbn.
    destruct (IH (pre ++ a' ++ [x]) b post) as (b' & Hqb & Hpb & Hsb); [lia|].
    assert (zlen a' = zlen a) as Hla by (unfold zlen; by rewrite Hpa).
    rewrite <- !app_assoc in Hqb. cbn in Hqb.
    exists (a' ++ x :: b'). split; [|split].
    + replace (pre ++ (a' ++ x :: b') ++ post) with (pre ++ a' ++ x :: b' ++ post)
        by (by rewrite <- !app_assoc).
      rewrite <- Hqb. f_equal; rewrite !zlen_app; change (zlen [x]) with 1; unfold zlen in *; lia.
    + rewrite Hpa, Hpb, <- Hp, <- Permutation_middle. apply Permutation_cons_append.
    + apply StronglySorted_pivot; [done|done|by rewrite Hpa|by rewrite Hpb].
  - exists m. split; [done|split; [done|]].
    destruct m as [|x [|y m]]; [constructor| |rewrite !zlen_cons in Hlt; unfold zlen in Hlt; lia].
    repeat constructor.
Qed.

(** [sort] leaves the elements behind the first [arr_size] alone and sorts the
    prefix in place; it never reads or writes out of range. *)
Lemma sort_correct l arr_size :
  0 <= arr_size <= zlen l ->
  exists m, sort l arr_size = Some (m ++ drop (Z.to_nat arr_size) l)
    /\ m ≡ₚ take (Z.to_nat arr_size) l
    /\ StronglySorted (fun x y => le x y = true) m.
Proof using le_trans le_total.
  intros Hs. unfold sort.
  destruct (quick_sort_segment (S (length l)) [] (take (Z.to_nat arr_size) l)
              (drop (Z.to_nat arr_size) l)) as (m & Hm & Hp & Hsorted).
  { rewrite length_take. lia. }
  exists m. split; [|done]. cbn [app] in Hm. rewrite take_drop in Hm.
  rewrite zlen_nil in Hm. rewrite <- Hm. f_equal. unfold zlen in *. rewrite length_take. lia.
Qed.

Lemma array_delete_spec l1 x l2 l3 :
  array_delete (l1 ++ x :: l2 ++ l3) (zlen l1) (zlen l1 + 1 + zlen l2)
  = Some (l1 ++ l2 ++ drop (length l1 + length l2) (l1 ++ x :: l2 ++ l3), zlen l1 + zlen l2).
Proof.
  unfold array_delete. rewrite decide_True
    by (rewrite zlen_app, zlen_cons, zlen_app; unfold zlen; lia).
  f_equal. f_equal; [|lia]. unfold zlen.
  replace (Z.to_nat (Z.of_nat (length l1))) with (length l1) by lia.
  rewrite take_app_length. f_equal.
  replace (Z.to_nat (Z.of_nat (length l1) + 1)) with (length (l1 ++ [x])) by (rewrite length_app; cbn; lia).
  replace (l1 ++ x :: l2 ++ l3) with ((l1 ++ [x]) ++ l2 ++ l3) at 1 by (by rewrite <- app_assoc).
  rewrite drop_app_length. f_equal; [|f_equal; lia].
  replace (Z.to_nat _) with (length l2) by lia. by rewrite take_app_length.
Qed.
End sort.
End Sort.

#[global] Arguments Sort.sort {A} le l arr_size : simpl never.
#[global] Arguments Sort.array_delete {A} l idx count : simpl never.
