(* ===== verification/Memory.v ===== *)
(** * Physical memory: the memory map and the bitmap page-frame allocator

    [Region] and [MemMap] model [KRE/Memory.cpp] (memory regions, the memory map
    with its [claim] and [merge]); [Pmm] models [PhysicalMemoryManager.cpp] and
    [BitMapAllocator.cpp].  [None] is undefined behaviour of the C++ code: a read
    or write outside an array or a division by zero. *)

From Stdlib Require Import Sorting.Sorted.
From S2P Require Import Prelude Kre.

Definition MAX64 : Z := 2 ^ 64 - 1.

(** Unsigned division; dividing by zero is undefined. *)
Definition cdiv (a b : Z) : option Z := if decide (b = 0) then None else Some (a / b).

Definition memory_is_aligned (mem_addr boundary : Z) : option bool :=
  if decide (boundary = 0) then None else Some (mem_addr mod boundary =? 0).

Definition memory_align (mem_addr page_boundary : Z) (round_up : bool) : option Z :=
  pages ← cdiv mem_addr page_boundary;
  let pages := if round_up then u64 (pages + 1) else pages in
  Some (u64 (pages * page_boundary)).

Module Region.
Inductive MemoryRegionType :=
  | NONE | USABLE | USED | RESERVED | USERSPACE | HHDM | PMM_RESERVED
  | KERNEL_HEAP | KERNEL_CODE | ACPI | BOOTLOADER_RECLAIMABLE.

#[export] Instance MemoryRegionType_eq_dec : EqDecision MemoryRegionType.
Proof. solve_decision. Defined.

Record MemoryRegion := mkRegion {
  start : Z;
  size : Z;
  memory_type : MemoryRegionType;
}.

#[export] Instance MemoryRegion_eq_dec : EqDecision MemoryRegion.
Proof. solve_decision. Defined.

Definition end_ (r : MemoryRegion) : Z :=
  if u64 (MAX64 - size r) <? start r then MAX64 else u64 (start r + size r).

Definition contains (r other : MemoryRegion) : bool :=
  (start r <? end_ other) && (start other <? end_ r).

(** [operator<=], the order the map is sorted by. *)
Definition le (r other : MemoryRegion) : bool :=
  if start r =? start other then size r <=? size other else start r <? start other.

Definition region_wf (r : MemoryRegion) : Prop :=
  in_width 64 (start r) /\ in_width 64 (size r).

(** [end] saturates instead of wrapping around. *)
Lemma end_min r : region_wf r -> end_ r = Z.min MAX64 (start r + size r).
Proof.
  intros [Hs Hz]. unfold end_, MAX64 in *.
  rewrite wrap_small by word_lia. destruct (_ <? _) eqn:E; bool_prop; [word_lia|].
  rewrite wrap_small; word_lia.
Qed.

Lemma le_total x y : le x y = true \/ le y x = true.
Proof.
  unfold le. destruct (start x =? start y) eqn:E, (start y =? start x) eqn:F; bool_prop; lia.
Qed.

Lemma le_trans x y z : le x y = true -> le y z = true -> le x z = true.
Proof.
  unfold le. destruct (start x =? start y) eqn:E, (start y =? start z) eqn:F,
    (start x =? start z) eqn:G; bool_prop; lia.
Qed.

(** [contains] is the overlap of two regions, not containment. *)
Lemma contains_overlap r o :
  region_wf r -> region_wf o -> start r + size r < MAX64 -> start o + size o < MAX64 ->
  contains r o = true <->
  (start r < start o + size o /\ start o < start r + size r).
Proof.
  intros Hr Ho ??. unfold contains. rewrite !end_min, !Z.min_r by (done || lia).
  rewrite andb_true_iff, !Z.ltb_lt. done.
Qed.
End Region.

Module MemMap.
Import Region.

Definition LIMIT : Z := 64.

Record MemoryMap := mkMap {
  map : list MemoryRegion;        (* _map, LIMIT entries *)
  free_mem : Z;
  reserved_mem : Z;
  num_regions : Z;
}.

Definition EMPTY_REGION : MemoryRegion := mkRegion 0 0 NONE.

(** The constructor's loop: copies regions up to the first NONE. *)
Fixpoint ctor_loop (i : Z) (regions : list MemoryRegion) (m : MemoryMap) : option MemoryMap :=
  match regions with
  | [] => Some m
  | r :: rest =>
      if decide (memory_type r <> NONE) then
        map' ← aset (map m) i r;
        ctor_loop (i + 1) rest
          (if decide (memory_type r = USABLE)
           then mkMap map' (u64 (free_mem m + size r)) (reserved_mem m) (u64 (num_regions m + 1))
           else mkMap map' (free_mem m) (u64 (reserved_mem m + size r)) (u64 (num_regions m + 1)))
      else Some (mkMap (map m) (free_mem m) (reserved_mem m) i)
  end.

Definition MemoryMap_ctor (regions : list MemoryRegion) : option MemoryMap :=
  ctor_loop 0 regions (mkMap (replicate 64 EMPTY_REGION) 0 0 0).

(** The regions an iteration over the map visits: [begin() .. end()]. *)
Definition regions (m : MemoryMap) : list MemoryRegion := take (Z.to_nat (num_regions m)) (map m).

(** The first entry of the whole array that encloses the claimant. *)
Definition encloses (c r : MemoryRegion) : bool :=
  (start r <=? start c) && (end_ c <=? end_ r).

Fixpoint find_enclosing (c : MemoryRegion) (i : Z) (l : list MemoryRegion) : option (Z * MemoryRegion) :=
  match l with
  | [] => None
  | r :: l' => if encloses c r then Some (i, r) else find_enclosing c (i + 1) l'
  end.

(** What [claim] returns: its result, the claimant (passed by reference) and the map. *)
Definition claim_result : Type := bool * MemoryRegion * MemoryMap.

(** The bookkeeping after the loop. *)
Definition claim_finish (before : Z) (c : MemoryRegion) (m : MemoryMap) : option claim_result :=
  let '(f, r) :=
    if decide (memory_type c = USABLE)
    then (u64 (free_mem m + size c), u64 (reserved_mem m - size c))
    else (u64 (free_mem m - size c), u64 (reserved_mem m + size c)) in
  map' ← if decide (num_regions m = before) then Some (map m)
         else Sort.sort le (map m) (num_regions m);
  Some (true, c, mkMap map' f r (num_regions m)).

Definition set_map (m : MemoryMap) (l : list MemoryRegion) (n : Z) : MemoryMap :=
  mkMap l (free_mem m) (reserved_mem m) n.

(** Splitting the enclosing region [r] at index [i]. *)
Definition claim_split (i : Z) (r c : MemoryRegion) (boundary : Z) (m : MemoryMap)
    : option claim_result :=
  let before := num_regions m in
  if LIMIT <=? before + 1 then Some (false, c, m) else
  al ← memory_is_aligned (size c) boundary;
  csize ← (if al : bool then Some (size c) else memory_align (size c) boundary true);
  let c := mkRegion (start c) csize (memory_type c) in
  if start r =? start c then
    l ← aset (map m) i (mkRegion (u64 (start r + size c)) (u64 (size r - size c)) (memory_type r));
    l ← aset l before c;
    claim_finish before c (set_map m l (before + 1))
  else if end_ r =? end_ c then
    l ← aset (map m) i (mkRegion (start r) (u64 (size r - size c)) (memory_type r));
    l ← aset l before c;
    claim_finish before c (set_map m l (before + 1))
  else if LIMIT <=? before + 2 then Some (false, c, m) else
    al ← memory_is_aligned (start c) boundary;
    cstart ← (if al : bool then Some (start c) else memory_align (start c) boundary false);
    let c := mkRegion cstart (size c) (memory_type c) in
    let right_part_size := u64 (u64 (size r - size c) - u64 (start c - start r)) in
    l ← aset (map m) i (mkRegion (start r) (u64 (size r - u64 (size c + right_part_size))) (memory_type r));
    l ← aset l before (mkRegion (end_ c) right_part_size USABLE);
    l ← aset l (before + 1) c;
    claim_finish before c (set_map m l (before + 2)).

Definition claim (m : MemoryMap) (c : MemoryRegion) (boundary : Z) : option claim_result :=
  match find_enclosing c 0 (map m) with
  | None => Some (false, c, m)
  | Some (i, r) =>
      if (start r =? start c) && (size r =? size c) then
        l ← aset (map m) i (mkRegion (start r) (size r) (memory_type c));
        claim_finish (num_regions m) c (set_map m l (num_regions m))
      else claim_split i r c boundary m
  end.

(** One step of [merge] at index [i]: merges [i + 1] into [i] when it can; the
    result is the next index. *)
Definition merge_step (i : Z) (m : MemoryMap) : option (Z * MemoryMap) :=
  curr ← aget (map m) i;
  next ← aget (map m) (i + 1);
  if bool_decide (memory_type curr = memory_type next) && (end_ curr =? start next) then
    l ← aset (map m) i (mkRegion (start curr) (u64 (size curr + size next)) (memory_type curr));
    '(l, n) ← Sort.array_delete l (i + 1) (num_regions m);
    Some (i, set_map m l n)
  else Some (i + 1, m).

Fixpoint merge_loop (fuel : nat) (i : Z) (m : MemoryMap) : option MemoryMap :=
  match fuel with
  | O => None
  | S fuel' =>
      if i <? u64 (num_regions m - 1)
      then '(i', m') ← merge_step i m; merge_loop fuel' i' m'
      else Some m
  end.

Definition merge (m : MemoryMap) : option MemoryMap :=
  m' ← merge_loop (S (length (map m) + length (map m))) 0 m;
  Some (set_map m' (take (Z.to_nat (num_regions m')) (map m')
                      ++ replicate (Z.to_nat (LIMIT - num_regions m')) EMPTY_REGION)
          (num_regions m')).

(** [find_type_of] asks every entry whether it contains itself. *)
Fixpoint find_type_loop (l : list MemoryRegion) : MemoryRegionType :=
  match l with
  | [] => NONE
  | reg :: l' => if contains reg reg then memory_type reg else find_type_loop l'
  end.

Definition find_type_of (m : MemoryMap) (region : MemoryRegion) : MemoryRegionType :=
  find_type_loop (map m).

(** ** Lemmas on [claim] *)

Lemma find_enclosing_Some c l : forall i j r,
  find_enclosing c i l = Some (j, r) ->
  i <= j < i + zlen l /\ l !! Z.to_nat (j - i) = Some r /\ encloses c r = true.
Proof.
  induction l as [|x l IH]; intros i j r; cbn; [done|].
  rewrite zlen_cons. pose proof (zlen_nonneg l).
  destruct (encloses c x) eqn:E.
  - intros [= <- <-]. rewrite Z.sub_diag. split; [lia|done].
  - intros H'%IH. destruct H' as (H1 & H2 & H3). split; [lia|split; [|done]].
    replace (Z.to_nat (j - i)) with (S (Z.to_nat (j - (i + 1)))) by lia. done.
Qed.

(** [claim_finish] keeps the sum of free and reserved memory. *)
Lemma claim_finish_total n c m ok c' m' :
  claim_finish n c m = Some (ok, c', m') ->
  ok = true /\ c' = c /\ u64 (free_mem m' + reserved_mem m') = u64 (free_mem m + reserved_mem m).
Proof.
  unfold claim_finish. intros Hc.
  destruct (decide (memory_type c = USABLE)), (if decide _ then _ else _) as [l|]; cbn in Hc;
    simplify_eq/=; split; [done|split; [done|]|done|split; [done|]];
    rewrite wrap_add_l, wrap_add_r by lia; f_equal; lia.
Qed.

Lemma claim_split_total i r c b m ok c' m' :
  claim_split i r c b m = Some (ok, c', m') ->
  if ok then u64 (free_mem m' + reserved_mem m') = u64 (free_mem m + reserved_mem m) else m' = m.
Proof.
  unfold claim_split. intros Hc. destruct (LIMIT <=? _); [by simplify_eq|].
  apply bind_Some in Hc as (al & _ & Hc). apply bind_Some in Hc as (cs & _ & Hc). cbn in Hc.
  destruct (start r =? start c); [|destruct (_ =? end_ _); [|destruct (LIMIT <=? _); [by simplify_eq|]]].
  1,2: apply bind_Some in Hc as (l & _ & Hc); apply bind_Some in Hc as (l' & _ & Hc);
       by apply claim_finish_total in Hc as (-> & _ & ->).
  apply bind_Some in Hc as (al' & _ & Hc). apply bind_Some in Hc as (cs' & _ & Hc).
  apply bind_Some in Hc as (l & _ & Hc). apply bind_Some in Hc as (l' & _ & Hc).
  apply bind_Some in Hc as (l'' & _ & Hc). by apply claim_finish_total in Hc as (-> & _ & ->).
Qed.

(** The claimant takes the front of the enclosing region: the visited regions are
    the old ones with that region cut in two, in order. *)
Lemma claim_front_regions m c b i r :
  zlen (map m) = LIMIT -> 0 < num_regions m -> num_regions m + 1 < LIMIT ->
  find_enclosing c 0 (map m) = Some (i, r) -> i < num_regions m ->
  start r = start c -> 0 <= size c < size r -> region_wf r ->
  memory_is_aligned (size c) b = Some true ->
  exists m', claim m c b = Some (true, c, m')
    /\ num_regions m' = num_regions m + 1
    /\ regions m' ≡ₚ c :: <[Z.to_nat i := mkRegion (u64 (start r + size c)) (size r - size c) (memory_type r)]>
                        (regions m)
    /\ StronglySorted (fun x y => le x y = true) (regions m').
Proof.
  intros Hlen Hn0 Hn Hfind Hi Hstart Hsz [_ Hrw] Hal. unfold claim. rewrite Hfind.
  pose proof (find_enclosing_Some _ _ _ _ _ Hfind) as ((Hi0 & Hi1) & _ & _).
  destruct (_ && (size r =? size c))%bool eqn:E; [bool_prop; lia|]. clear E.
  unfold claim_split. destruct (LIMIT <=? _) eqn:E; bool_prop; [lia|].
  rewrite Hal. cbn. rewrite Hstart, Z.eqb_refl. rewrite <- Hstart.
  rewrite (wrap_small 64 (size r - size c)) by word_lia.
  set (r' := mkRegion _ _ (memory_type r)).
  destruct (aset_in (map m) i r') as [l Hl]; [lia|]. rewrite Hl. cbn.
  destruct (aset_in l (num_regions m) c) as [l2 Hl2]; [rewrite (aset_len _ _ _ _ Hl); lia|].
  replace (mkRegion (start r) (size c) (memory_type c)) with c by (rewrite Hstart; by destruct c).
  rewrite Hl2. cbn. unfold claim_finish, set_map. cbn.
  set (fr := if decide _ then _ else _). destruct fr as [f rs].
  rewrite decide_False by lia.
  destruct (Sort.sort_correct le le_trans le_total l2 (num_regions m + 1)) as (s & Hs & Hp & Hsort).
  { rewrite (aset_len _ _ _ _ Hl2), (aset_len _ _ _ _ Hl). lia. }
  rewrite Hs. cbn.
  assert (length s = Z.to_nat (num_regions m + 1)) as Hsl.
  { rewrite Hp, length_take. pose proof (aset_len _ _ _ _ Hl2). pose proof (aset_len _ _ _ _ Hl).
    unfold zlen, LIMIT in *. lia. }
  eexists. split; [done|]. split; [done|].
  unfold regions at 1 3. cbn. rewrite <- Hsl, take_app_length. split; [|done].
  rewrite Hp. apply aset_Some in Hl as [_ ->]. apply aset_Some in Hl2 as [_ ->].
  unfold regions.
  replace (Z.to_nat (num_regions m + 1)) with (S (Z.to_nat (num_regions m))) by lia.
  erewrite take_S_r by (apply list_lookup_insert_eq; rewrite length_insert; unfold zlen, LIMIT in *; lia).
  rewrite take_insert_ge by lia. rewrite take_insert_lt by lia.
  by rewrite Permutation_app_comm.
Qed.

(** ** Properties of the memory map *)

(** claiming moves memory between the free and the reserved account: on every
    branch of [claim] the sum of the two is unchanged (modulo the 64-bit width), and a
    claim that reports failure leaves the map as it was. *)
Theorem claim_conserves_total m c b ok c' m' :
  claim m c b = Some (ok, c', m') ->
  if ok then u64 (free_mem m' + reserved_mem m') = u64 (free_mem m + reserved_mem m) else m' = m.
Proof.
  unfold claim. intros Hc. destruct (find_enclosing c 0 (map m)) as [[i r]|]; [|by simplify_eq].
  destruct (_ && _)%bool; [|by apply claim_split_total in Hc].
  apply bind_Some in Hc as (l & _ & Hc). by apply claim_finish_total in Hc as (-> & _ & ->).
Qed.

Definition map0 : MemoryMap :=
  mkMap (mkRegion 0 8192 USABLE :: mkRegion 8192 4096 RESERVED :: replicate 62 EMPTY_REGION) 8192 4096 2.

Lemma claim_conserves_total_witness :
  exists m', claim map0 (mkRegion 0 4096 RESERVED) 4096 = Some (true, mkRegion 0 4096 RESERVED, m')
    /\ u64 (free_mem m' + reserved_mem m') = u64 (free_mem map0 + reserved_mem map0).
Proof.
  eexists. split; [vm_compute; reflexivity|].
  exact (claim_conserves_total map0 (mkRegion 0 4096 RESERVED) 4096 true _ _ eq_refl).
Defined.

(** claiming the aligned front of a larger region cuts that region in two and keeps
    every other one: the regions an iteration visits afterwards are a sorted
    permutation of the claimant, the shortened region and the untouched regions. *)
Theorem claim_front_carves m c b i r :
  zlen (map m) = LIMIT -> 0 < num_regions m -> num_regions m + 1 < LIMIT ->
  find_enclosing c 0 (map m) = Some (i, r) -> i < num_regions m ->
  start r = start c -> 0 <= size c < size r -> region_wf r ->
  memory_is_aligned (size c) b = Some true ->
  exists m', claim m c b = Some (true, c, m')
    /\ regions m' ≡ₚ c :: <[Z.to_nat i := mkRegion (u64 (start r + size c)) (size r - size c) (memory_type r)]>
                        (regions m)
    /\ StronglySorted (fun x y => le x y = true) (regions m').
Proof.
  intros. destruct (claim_front_regions m c b i r) as (m' & ? & _ & ? & ?); [done..|]. eauto.
Qed.

Lemma claim_front_carves_witness :
  exists m', claim map0 (mkRegion 0 4096 RESERVED) 4096 = Some (true, mkRegion 0 4096 RESERVED, m')
    /\ regions m' ≡ₚ [mkRegion 0 4096 RESERVED; mkRegion 4096 4096 USABLE; mkRegion 8192 4096 RESERVED].
Proof.
  destruct (claim_front_carves map0 (mkRegion 0 4096 RESERVED) 4096 0 (mkRegion 0 8192 USABLE))
    as (m' & Hc & Hp & _); [by_compute..|].
  exists m'. split; [exact Hc|]. exact Hp.
Defined.

(** [find_type_of] ignores its argument: it tests each entry against itself, so it
    answers with the type of the first entry that contains itself, whatever region was asked for. *)
Theorem find_type_of_first m region r rest :
  map m = r :: rest -> region_wf r -> 0 < size r -> start r < MAX64 ->
  find_type_of m region = memory_type r.
Proof.
  intros Hm Hwf Hsz Hst. unfold find_type_of. rewrite Hm. cbn. unfold contains.
  rewrite end_min by done. destruct Hwf as [Hs Hz]. unfold MAX64 in *.
  destruct (start r <? _) eqn:E; [done|]. bool_prop. word_lia.
Qed.

(** The second region of [map0] is reserved, and reported as usable. *)
Lemma find_type_of_first_witness : find_type_of map0 (mkRegion 8192 4096 RESERVED) = USABLE.
Proof.
  apply (find_type_of_first map0 (mkRegion 8192 4096 RESERVED) (mkRegion 0 8192 USABLE)
    (mkRegion 8192 4096 RESERVED :: replicate 62 EMPTY_REGION));
    by_compute.
Defined.
End MemMap.

Module Pmm.
Import Region MemMap.

Definition INVALID_PAGE : Z := u32 (-1).
Definition BIT_COUNT_BYTE : Z := 8.
Definition MASK_BYTE : Z := 255.

Inductive PMMStartFailure :=
  | START_NONE | MEMORY_RANGE_DETECTION_FAILED | OUT_OF_MEMORY | MEMORY_INDEX_INIT_FAILED.

(** The allocator object: the fields of [PhysicalMemoryManager] and of
    [BitMapAllocator].  [bitmap] is the byte array [_bitmap] points to. *)
Record BitMapAllocator := mkPmm {
  page_size : Z;
  mem_base : Z;
  mem_size : Z;                 (* U32, in page frames *)
  mem_map : MemoryMap;
  init : bool;
  start_fail : PMMStartFailure;
  largest_free_block : Z;
  bitmap : list Z;
  v_bitmap : Z;                 (* where the bitmap is accessed *)
  p_bitmap : Z;                 (* where the bitmap is stored *)
  bitmap_size : Z;              (* U32, in bytes *)
}.

Definition with_bitmap (s : BitMapAllocator) (b : list Z) : BitMapAllocator :=
  mkPmm (page_size s) (mem_base s) (mem_size s) (mem_map s) (init s) (start_fail s)
    (largest_free_block s) b (v_bitmap s) (p_bitmap s) (bitmap_size s).

Definition with_map (s : BitMapAllocator) (m : MemoryMap) : BitMapAllocator :=
  mkPmm (page_size s) (mem_base s) (mem_size s) m (init s) (start_fail s)
    (largest_free_block s) (bitmap s) (v_bitmap s) (p_bitmap s) (bitmap_size s).

(** ** PhysicalMemoryManager *)

(** The loop of [detect_memory_range]; the state is [_mem_base] and [mem_end]. *)
Fixpoint detect_loop (regs : list MemoryRegion) (base mem_end : Z) : Z * Z :=
  match regs with
  | [] => (base, mem_end)
  | reg :: rest =>
      if decide (memory_type reg = NONE) then detect_loop rest base mem_end
      else detect_loop rest (Math.min base (start reg)) (Math.max mem_end (end_ reg))
  end.

Definition detect_memory_range (s : BitMapAllocator) : option (bool * BitMapAllocator) :=
  let '(base, mem_end) := detect_loop (regions (mem_map s)) MAX64 0 in
  let mk n := mkPmm (page_size s) base n (mem_map s) (init s) (start_fail s)
                (largest_free_block s) (bitmap s) (v_bitmap s) (p_bitmap s) (bitmap_size s) in
  if mem_end =? 0 then Some (false, mk (mem_size s))
  else n ← cdiv (u64 (mem_end - base)) (page_size s); Some (true, mk (u32 n)).

Definition to_page_frame (s : BitMapAllocator) (addr : Z) : option Z :=
  n ← cdiv (u64 (addr - mem_base s)) (page_size s); Some (u32 n).

Definition to_page_frame_round_up (s : BitMapAllocator) (addr : Z) : option Z :=
  n ← Math.div_round_up 64 (u64 (addr - mem_base s)) (page_size s); Some (u32 n).

Definition to_address (s : BitMapAllocator) (page_frame : Z) : Z :=
  u64 (mem_base s + u64 (page_frame * page_size s)).

Definition get_managed_memory (s : BitMapAllocator) : MemoryRegion :=
  mkRegion (mem_base s) (u64 (mem_base s - 1 + u64 (mem_size s * page_size s))) RESERVED.

(** ** BitMapAllocator: single page frames *)

Definition is_free (s : BitMapAllocator) (page_frame : Z) : option bool :=
  if mem_size s <? page_frame then Some true
  else
    let byte := page_frame / BIT_COUNT_BYTE in
    let bit := page_frame mod BIT_COUNT_BYTE in
    b ← aget (bitmap s) byte;
    Some (Z.land b (Z.shiftl 1 bit) =? 0).

Definition mark (s : BitMapAllocator) (page_frame : Z) (in_use : bool) : option BitMapAllocator :=
  let byte := page_frame / BIT_COUNT_BYTE in
  let bit := page_frame mod BIT_COUNT_BYTE in
  b ← aget (bitmap s) byte;
  l ← aset (bitmap s) byte
        (if in_use then u8 (Z.lor b (Z.shiftl 1 bit))
         else u8 (Z.land b (Z.lnot (Z.shiftl 1 bit))));
  Some (with_bitmap s l).

(** ** Blocks of page frames *)

Definition mark_memory_block (s : BitMapAllocator) (base size : Z) (in_use : bool)
    : option (bool * BitMapAllocator) :=
  lo ← to_page_frame s (mem_base s);
  if (base <? lo) || (u32 (lo + mem_size s) <? u32 (base + size)) then Some (false, s)
  else
    s' ← forM (Z.to_nat (u32 (base + size) - base)) base (fun i s => mark s i in_use) s;
    Some (true, s').

Definition mark_memory_region (s : BitMapAllocator) (base_bytes size_bytes : Z) (in_use : bool)
    : option (bool * BitMapAllocator) :=
  '(base, size) ←
    (if in_use then
       base ← to_page_frame s base_bytes;
       size ← Math.div_round_up 64 size_bytes (page_size s);
       Some (base, u32 size)
     else
       base ← to_page_frame_round_up s base_bytes;
       size ← cdiv size_bytes (page_size s);
       Some (base, u32 size));
  mark_memory_block s base size in_use.

(** The loop of [find_free_region] from page frame [i] on, [n] frames left. *)
Fixpoint find_loop (s : BitMapAllocator) (frames : Z) (n : nat)
    (i region_start region_size : Z) : option Z :=
  match n with
  | O => Some INVALID_PAGE
  | S n' =>
      free ← is_free s (u32 i);
      if free : bool then
        let region_size := u64 (region_size + 1) in
        if frames <=? region_size then Some (u32 region_start)
        else find_loop s frames n' (i + 1) region_start region_size
      else find_loop s frames n' (i + 1) (u64 (i + 1)) 0
  end.

Definition find_free_region (s : BitMapAllocator) (frames : Z) : option Z :=
  find_loop s frames (Z.to_nat (mem_size s)) 0 0 0.

(** [0]: neither, [-1]: overlaps the bitmap, [-2]: overlaps a reserved region. *)
Definition is_reserved_or_bit_map_address (s : BitMapAllocator) (p_addr frames : Z) : option Z :=
  let end_ := u64 (p_addr + u64 (frames * page_size s)) in
  in_bitmap ←
    (if init s && (p_bitmap s <? end_) then
       aligned ← memory_align (u64 (p_bitmap s + bitmap_size s)) (page_size s) false;
       Some (p_addr <? aligned)
     else Some false);
  if in_bitmap : bool then Some (-1)
  else if existsb (fun region => bool_decide (memory_type region <> USABLE)
                     && contains region (mkRegion p_addr (u64 (u32 frames * page_size s)) NONE))
            (regions (mem_map s))
  then Some (-2) else Some 0.

(** ** Start *)

Definition compute_memory_index_size (s : BitMapAllocator) : option (Z * BitMapAllocator) :=
  n ← Math.div_round_up 32 (mem_size s) BIT_COUNT_BYTE;
  Some (n, mkPmm (page_size s) (mem_base s) (mem_size s) (mem_map s) (init s) (start_fail s)
             (largest_free_block s) (bitmap s) (v_bitmap s) (p_bitmap s) n).

(** Marks the usable regions of the map as free; [false] on the first failure. *)
Fixpoint init_usable (s : BitMapAllocator) (regs : list MemoryRegion) : option (bool * BitMapAllocator) :=
  match regs with
  | [] => Some (true, s)
  | r :: rest =>
      if decide (memory_type r = USABLE) then
        '(ok, s') ← mark_memory_region s (start r) (size r) false;
        if ok : bool then init_usable s' rest else Some (false, s')
      else init_usable s rest
  end.

Definition init0 (s : BitMapAllocator) (memory_index p_memory_index : Z)
    : option (bool * BitMapAllocator) :=
  let s := mkPmm (page_size s) (mem_base s) (mem_size s) (mem_map s) (init s) (start_fail s)
             (largest_free_block s) (replicate (Z.to_nat (bitmap_size s)) MASK_BYTE)
             memory_index p_memory_index (bitmap_size s) in
  '(ok, s) ← init_usable s (regions (mem_map s));
  if negb ok then Some (false, s) else
  let mi_reg := mkRegion p_memory_index (bitmap_size s) RESERVED in
  '(init_good, s) ← mark_memory_region s p_memory_index (bitmap_size s) true;
  if negb init_good then Some (false, s) else
  '(claimed, _, m) ← claim (mem_map s) mi_reg (u32 (page_size s));
  let s := with_map s m in
  Some (claimed, mkPmm (page_size s) (mem_base s) (mem_size s) m
                   (if claimed : bool then true else init s) (start_fail s)
                   (largest_free_block s) (bitmap s) (v_bitmap s) (p_bitmap s) (bitmap_size s)).

(** The search for the first usable region that can hold the memory index; the
    second component is [_largest_free_block]. *)
Fixpoint find_index_region (regs : list MemoryRegion) (req largest : Z) : Z * Z :=
  match regs with
  | [] => (MAX64, largest)
  | reg :: rest =>
      if bool_decide (memory_type reg = USABLE) && (req <=? size reg) then (start reg, largest)
      else find_index_region rest req (Math.max largest (size reg))
  end.

Definition fail (s : BitMapAllocator) (f : PMMStartFailure) : PMMStartFailure * BitMapAllocator :=
  (f, mkPmm (page_size s) (mem_base s) (mem_size s) (mem_map s) (init s) f
        (largest_free_block s) (bitmap s) (v_bitmap s) (p_bitmap s) (bitmap_size s)).

Definition start_pmm (s : BitMapAllocator) (map : MemoryMap) (psize memory_index_offset : Z)
    : option (PMMStartFailure * BitMapAllocator) :=
  let s := mkPmm psize (mem_base s) (mem_size s) map (init s) (start_fail s)
             (largest_free_block s) (bitmap s) (v_bitmap s) (p_bitmap s) (bitmap_size s) in
  '(ok, s) ← detect_memory_range s;
  if negb ok then Some (fail s MEMORY_RANGE_DETECTION_FAILED) else
  '(req, s) ← compute_memory_index_size s;
  let '(data_start, largest) := find_index_region (regions (mem_map s)) req (largest_free_block s) in
  let s := mkPmm (page_size s) (mem_base s) (mem_size s) (mem_map s) (init s) (start_fail s)
             largest (bitmap s) (v_bitmap s) (p_bitmap s) (bitmap_size s) in
  if data_start =? MAX64 then Some (fail s OUT_OF_MEMORY) else
  '(ok, s) ← init0 s (u64 (data_start + memory_index_offset)) data_start;
  if negb ok then Some (fail s MEMORY_INDEX_INIT_FAILED) else Some (START_NONE, s).

(** ** Allocation *)

(** [allocate(p_addr, frames)]: the result, the address when it was set, the state. *)
Definition allocate (s : BitMapAllocator) (frames : Z) : option (option Z * BitMapAllocator) :=
  base ← find_free_region s frames;
  if base =? INVALID_PAGE then Some (None, s)
  else
    '(_, s') ← mark_memory_block s base (u32 frames) true;
    Some (Some (to_address s' base), s').

(** The loop of [allocate_explicit]: are [n] page frames from [i] on free? *)
Fixpoint all_free (s : BitMapAllocator) (n : nat) (i : Z) : option bool :=
  match n with
  | O => Some true
  | S n' => free ← is_free s (u32 i); if free : bool then all_free s n' (u64 (i + 1)) else Some false
  end.

Definition allocate_explicit (s : BitMapAllocator) (p_addr frames : Z)
    : option (bool * BitMapAllocator) :=
  errCode ← is_reserved_or_bit_map_address s p_addr frames;
  if errCode <? 0 then Some (false, s) else
  base ← to_page_frame s p_addr;
  free ← all_free s (Z.to_nat (u64 (base + frames) - base)) base;
  if negb free then Some (false, s) else mark_memory_block s base (u32 frames) true.

Definition free (s : BitMapAllocator) (p_addr frames : Z) : option (bool * BitMapAllocator) :=
  errCode ← is_reserved_or_bit_map_address s p_addr frames;
  if errCode <? 0 then Some (false, s) else
  mark_memory_region s p_addr (u64 (frames * page_size s)) false.

(** [claim_boot_loader_reclaimable_memory]: visits the entries by index, because
    [claim] rewrites the array the loop's references point into. *)
Fixpoint reclaim_loop (s : BitMapAllocator) (n : nat) (i : Z) (success : bool)
    : option (bool * BitMapAllocator) :=
  match n with
  | O => Some (success, s)
  | S n' =>
      r ← aget (map (mem_map s)) i;
      if decide (memory_type r = BOOTLOADER_RECLAIMABLE) then
        '(claimed, _, m) ← claim (mem_map s) (mkRegion (start r) (size r) USABLE) (u32 (page_size s));
        let s := with_map s m in
        r' ← aget (map m) i;
        '(marked, s) ← mark_memory_region s (start r') (size r') false;
        reclaim_loop s n' (i + 1) (success && claimed && marked)
      else reclaim_loop s n' (i + 1) success
  end.

Definition claim_boot_loader_reclaimable_memory (s : BitMapAllocator) : option (bool * BitMapAllocator) :=
  reclaim_loop s (Z.to_nat (num_regions (mem_map s))) 0 true.

Definition relocate_memory_index (s : BitMapAllocator) (memory_index : Z) : BitMapAllocator :=
  mkPmm (page_size s) (mem_base s) (mem_size s) (mem_map s) (init s) (start_fail s)
    (largest_free_block s) (bitmap s) memory_index (p_bitmap s) (bitmap_size s).

Definition get_memory_index_region (s : BitMapAllocator) : MemoryRegion :=
  mkRegion (p_bitmap s) (bitmap_size s) RESERVED.

Definition frame_type (free : bool) : MemoryRegionType := if free then USABLE else USED.

(** The loop of [read_page_frame_states]: writes the finished regions to [buf]
    (in order) and returns them with the region in progress. *)
Fixpoint states_loop (s : BitMapAllocator) (buf_size : Z) (n : nat) (i : Z)
    (buf : list MemoryRegion) (cur : MemoryRegion) : option (list MemoryRegion * MemoryRegion) :=
  match n with
  | O => Some (buf, cur)
  | S n' =>
      if buf_size <=? zlen buf then Some (buf, cur) else
      free ← is_free s (u32 i);
      if decide (memory_type cur = frame_type free)
      then states_loop s buf_size n' (i + 1) buf
             (mkRegion (start cur) (u64 (size cur + page_size s)) (memory_type cur))
      else states_loop s buf_size n' (i + 1) (buf ++ [cur])
             (mkRegion (to_address s (u32 i)) (page_size s) (frame_type free))
  end.

(** The regions written to the buffer; the code returns their number. *)
Definition read_page_frame_states (s : BitMapAllocator) (buf_size start end_ : Z)
    : option (list MemoryRegion) :=
  let top := u64 (mem_base s + u64 (mem_size s * page_size s)) in
  if (start <? mem_base s) || (top <? end_) then Some [] else
  a1 ← memory_is_aligned start (page_size s);
  start ← (if a1 : bool then Some start else memory_align start (page_size s) false);
  a2 ← memory_is_aligned end_ (page_size s);
  end_ ← (if a2 : bool then Some end_
          else e ← memory_align end_ (page_size s) true; Some (Math.min e top));
  first ← to_page_frame s start;
  last ← to_page_frame s end_;
  free ← is_free s first;
  '(buf, cur) ← states_loop s buf_size (Z.to_nat (last - u32 (first + 1))) (u32 (first + 1)) []
                  (mkRegion start (page_size s) (frame_type free));
  Some (if zlen buf <? buf_size then buf ++ [cur] else buf).

(** ** Well-formed allocators *)

(** The state [start_pmm] establishes: a non-empty managed range that fits the
    address space and a bitmap with one bit per page frame. *)
Record wf (s : BitMapAllocator) : Prop := {
  wf_page : 0 < page_size s < 2 ^ 64;
  wf_base : 0 <= mem_base s;
  wf_size : 0 < mem_size s <= 2 ^ 32 - 8;
  wf_top : mem_base s + mem_size s * page_size s < 2 ^ 64;
  wf_len : zlen (bitmap s) = (mem_size s + 7) / 8;
  wf_bytes : forall i b, aget (bitmap s) i = Some b -> in_width 8 b;
}.

(** The state of page frame [i] according to the bitmap. *)
Definition page_used (s : BitMapAllocator) (i : Z) : bool :=
  match aget (bitmap s) (i / 8) with Some b => Z.testbit b (i mod 8) | None => false end.

(** [s'] is [s] with the page frames of [[base, base + n)] set to [u]. *)
Record marked (s s' : BitMapAllocator) (base n : Z) (u : bool) : Prop := {
  marked_rest : s' = with_bitmap s (bitmap s');
  marked_wf : wf s';
  marked_used : forall j, 0 <= j ->
    page_used s' j = if decide (base <= j < base + n) then u else page_used s j;
}.

Lemma frame_byte_in s i : wf s -> 0 <= i < mem_size s -> 0 <= i / 8 < zlen (bitmap s).
Proof. intros Hwf Hi. rewrite wf_len by done. Z.to_euclidean_division_equations; lia. Qed.

Lemma mod8_range i : 0 <= i -> 0 <= i mod 8 < 8.
Proof. intros. apply Z.mod_pos_bound. lia. Qed.

Lemma land_pow2_zero b k : 0 <= k -> (Z.land b (Z.shiftl 1 k) =? 0) = negb (Z.testbit b k).
Proof.
  intros Hk. rewrite Bits.shiftl_1_pow2 by done.
  destruct (Z.testbit b k) eqn:Hb; cbn.
  - apply Z.eqb_neq. intros E. apply (f_equal (fun z => Z.testbit z k)) in E.
    rewrite Z.land_spec, Hb, Z.pow2_bits_true, Z.bits_0 in E by done. done.
  - apply Z.eqb_eq, Z.bits_inj'. intros j Hj.
    rewrite Z.land_spec, pow2_testbit, Z.bits_0 by done.
    case_bool_decide; subst; rewrite ?Hb; by rewrite ?andb_false_r.
Qed.

Lemma is_free_spec s i : wf s -> 0 <= i < mem_size s -> is_free s i = Some (negb (page_used s i)).
Proof.
  intros Hwf Hi. unfold is_free, page_used, BIT_COUNT_BYTE.
  destruct (mem_size s <? i) eqn:E; bool_prop; [lia|].
  destruct (aget_in _ _ (frame_byte_in s i Hwf Hi)) as [b Hb]. rewrite Hb. cbn.
  by rewrite land_pow2_zero by (pose proof (mod8_range i); lia).
Qed.

Lemma marked_refl s base u : wf s -> marked s s base 0 u.
Proof.
  intros. split; [by destruct s|done|]. intros. by rewrite decide_False by lia.
Qed.

Lemma marked_extend s s1 s2 base n u :
  0 <= n -> marked s s1 base n u -> marked s1 s2 (base + n) 1 u -> marked s s2 base (n + 1) u.
Proof.
  intros Hn [E1 W1 U1] [E2 W2 U2]. split; [|done|].
  - rewrite E2, E1. done.
  - intros j Hj. rewrite U2, U1 by done. repeat case_decide; lia || done.
Qed.

Lemma mark_spec s i u :
  wf s -> 0 <= i < mem_size s -> exists s', mark s i u = Some s' /\ marked s s' i 1 u.
Proof.
  intros Hwf Hi. unfold mark, BIT_COUNT_BYTE.
  pose proof (frame_byte_in s i Hwf Hi) as Hbyte. pose proof (mod8_range i ltac:(lia)) as Hbit.
  destruct (aget_in _ _ Hbyte) as [b Hb]. rewrite Hb. cbn.
  pose proof (wf_bytes s Hwf _ _ Hb) as Hw.
  rewrite Bits.shiftl_1_pow2 by lia.
  assert (in_width 8 (2 ^ (i mod 8))) as Hp
    by (split; [lia|]; apply Z.pow_lt_mono_r; lia).
  rewrite !wrap_small by auto with word.
  set (b' := if u then _ else _).
  assert (in_width 8 b') as Hb' by (subst b'; destruct u; auto with word).
  destruct (aset_in (bitmap s) (i / 8) b' Hbyte) as [l Hl]. rewrite Hl. cbn.
  eexists. split; [done|]. split; [by destruct s| |].
  - destruct Hwf. split; cbn; [done..|by rewrite (aset_len _ _ _ _ Hl)|].
    intros k c Hc. destruct (decide (k = i / 8)) as [->|Hne].
    + rewrite (aget_aset_eq _ _ _ _ Hl) in Hc. by simplify_eq.
    + rewrite (aget_aset_ne _ _ k _ _ (not_eq_sym Hne) Hl) in Hc. eauto.
  - intros j Hj. unfold page_used. cbn.
    destruct (decide (j / 8 = i / 8)) as [Hq|Hne].
    + rewrite Hq, (aget_aset_eq _ _ _ _ Hl), Hb.
      pose proof (mod8_range j Hj). pose proof (Z.div_mod j 8). pose proof (Z.div_mod i 8).
      subst b'. destruct u.
      * rewrite Z.lor_spec, pow2_testbit by lia.
        case_decide; case_bool_decide; try lia; by rewrite ?orb_true_r, ?orb_false_r.
      * rewrite Z.land_spec, Z.lnot_spec, pow2_testbit by lia.
        case_decide; case_bool_decide; try lia; by rewrite ?andb_true_r, ?andb_false_r.
    + rewrite (aget_aset_ne _ _ _ _ _ (not_eq_sym Hne) Hl).
      rewrite decide_False; [done|]. intros ?. assert (j = i) by lia. congruence.
Qed.

(** ** Blocks *)

Lemma to_page_frame_base s : wf s -> to_page_frame s (mem_base s) = Some 0.
Proof.
  intros Hwf. pose proof (wf_page s Hwf). unfold to_page_frame, cdiv.
  rewrite decide_False by lia. cbn. by rewrite Z.sub_diag.
Qed.

Lemma mark_loop_spec s base n u :
  wf s -> 0 <= base -> base + Z.of_nat n <= mem_size s ->
  exists s', forM n base (fun i s => mark s i u) s = Some s' /\ marked s s' base (Z.of_nat n) u.
Proof.
  intros Hwf Hb Hn.
  destruct (forM_inv (fun i st => marked s st base (i - base) u)
              (fun i s => mark s i u) n base s) as (s' & Hrun & Hm).
  - rewrite Z.sub_diag. by apply marked_refl.
  - intros j st Hj Hm. pose proof (marked_rest _ _ _ _ _ Hm) as E.
    destruct (mark_spec st j u) as (st' & Hst & Hm').
    { apply Hm. } { rewrite E. cbn. lia. }
    exists st'. split; [done|]. replace (j + 1 - base) with (j - base + 1) by lia.
    eapply marked_extend; [lia|done|]. by replace (base + (j - base)) with j by lia.
  - exists s'. split; [done|]. by replace (base + Z.of_nat n - base) with (Z.of_nat n) in Hm by lia.
Qed.

Lemma mark_memory_block_in s base n u :
  wf s -> 0 <= base -> 0 <= n -> base + n <= mem_size s ->
  exists s', mark_memory_block s base n u = Some (true, s') /\ marked s s' base n u.
Proof.
  intros Hwf Hb Hn Hle. unfold mark_memory_block.
  pose proof (wf_size s Hwf). rewrite to_page_frame_base by done. cbn.
  rewrite Z.add_0_l, !(wrap_small 32) by word_lia.
  destruct (_ || _)%bool eqn:E; [apply orb_true_iff in E as [E|E]; bool_prop; lia|].
  destruct (mark_loop_spec s base (Z.to_nat n) u) as (s' & Hrun & Hm); [done|done|lia|].
  replace (base + n - base) with n by lia. rewrite Hrun. cbn.
  rewrite Z2Nat.id in Hm by lia. eauto.
Qed.

Lemma mark_memory_block_out s base n u :
  wf s -> in_width 32 base -> base + n < 2 ^ 32 -> 0 <= n -> mem_size s < base + n ->
  mark_memory_block s base n u = Some (false, s).
Proof.
  intros Hwf Hb Hn1 Hn Hle. unfold mark_memory_block.
  pose proof (wf_size s Hwf). rewrite to_page_frame_base by done. cbn.
  rewrite Z.add_0_l, !(wrap_small 32) by word_lia.
  destruct (mem_size s <? base + n) eqn:E; bool_prop; [by rewrite orb_true_r|lia].
Qed.

(** ** The search *)

(** Some page frame of [[base, base + n)] is in use. *)
Definition blocked (s : BitMapAllocator) (base n : Z) : Prop :=
  exists j, base <= j < base + n /\ page_used s j = true.

Definition free_run (s : BitMapAllocator) (base n : Z) : Prop :=
  forall j, base <= j < base + n -> page_used s j = false.

Lemma find_loop_spec s frames n : forall i rstart,
  wf s -> 1 <= frames -> i + Z.of_nat n = mem_size s ->
  0 <= rstart <= i -> i - rstart < frames -> free_run s rstart (i - rstart) ->
  (forall b, 0 <= b < rstart -> blocked s b frames) ->
  exists r, find_loop s frames n i rstart (i - rstart) = Some r /\
    ((0 <= r /\ r + frames <= mem_size s /\ free_run s r frames /\
      forall b, 0 <= b < r -> blocked s b frames)
     \/ (r = INVALID_PAGE /\ forall b, 0 <= b -> b + frames <= mem_size s -> blocked s b frames)).
Proof.
  induction n as [|n IH]; intros i rstart Hwf Hf Hi Hr Hlt Hfree Hbl; cbn [find_loop].
  { eexists. split; [done|]. right. split; [done|]. intros b Hb Hb2.
    apply Hbl. lia. }
  pose proof (wf_size s Hwf).
  rewrite (wrap_small 32 i), is_free_spec by (done || word_lia). cbn.
  destruct (page_used s i) eqn:Hu; cbn.
  - rewrite (wrap_small 64) by word_lia.
    destruct (IH (i + 1) (i + 1)) as (r & Hrun & Hres); [done|done|lia|lia|lia| | |].
    { intros j Hj. lia. }
    { intros b Hb. destruct (Z.lt_ge_cases b rstart); [apply Hbl; lia|]. exists i. split; [lia|done]. }
    rewrite Z.sub_diag in Hrun. eauto.
  - rewrite (wrap_small 64) by word_lia.
    destruct (frames <=? i - rstart + 1) eqn:E; bool_prop.
    + rewrite (wrap_small 32) by word_lia. eexists. split; [done|]. left.
      split; [lia|split; [lia|split; [|done]]].
      intros j Hj. destruct (decide (j = i)) as [->|]; [done|]. apply Hfree. lia.
    + replace (i - rstart + 1) with (i + 1 - rstart) in * by lia.
      apply IH; [done|done|lia|lia|lia| |done].
      intros j Hj. destruct (decide (j = i)) as [->|]; [done|]. apply Hfree. lia.
Qed.

Lemma find_free_region_spec s frames :
  wf s -> 1 <= frames ->
  exists r, find_free_region s frames = Some r /\
    ((0 <= r /\ r + frames <= mem_size s /\ free_run s r frames /\
      forall b, 0 <= b < r -> blocked s b frames)
     \/ (r = INVALID_PAGE /\ forall b, 0 <= b -> b + frames <= mem_size s -> blocked s b frames)).
Proof.
  intros Hwf Hf. pose proof (wf_size s Hwf). unfold find_free_region.
  apply (find_loop_spec s frames (Z.to_nat (mem_size s)) 0 0); try done; try lia.
  intros j Hj. lia.
Qed.

(** ** Allocation *)

Lemma to_address_in s i :
  wf s -> 0 <= i <= mem_size s -> to_address s i = mem_base s + i * page_size s.
Proof.
  intros Hwf Hi. destruct Hwf as [Hp Hb Hs Ht _ _]. unfold to_address.
  assert (i * page_size s <= mem_size s * page_size s) by nia.
  rewrite (wrap_small 64 (i * page_size s)) by (split; [nia|lia]).
  apply wrap_small. split; nia.
Qed.

(** [allocate] never runs into undefined behaviour; it hands out the lowest run
    of [frames] free page frames and marks exactly those, or fails and changes
    nothing when no such run exists. *)
Lemma allocate_spec s frames :
  wf s -> 1 <= frames ->
  (exists base s', allocate s frames = Some (Some (mem_base s + base * page_size s), s')
     /\ 0 <= base /\ base + frames <= mem_size s
     /\ free_run s base frames /\ marked s s' base frames true
     /\ forall b, 0 <= b < base -> blocked s b frames)
  \/ (allocate s frames = Some (None, s)
      /\ forall b, 0 <= b -> b + frames <= mem_size s -> blocked s b frames).
Proof.
  intros Hwf Hf. pose proof (wf_size s Hwf) as Hsz. unfold allocate.
  destruct (find_free_region_spec s frames Hwf Hf) as (r & -> & [(H0 & H1 & H2 & H3)|[-> Hb]]); cbn.
  - left. exists r. destruct (r =? INVALID_PAGE) eqn:E; bool_prop.
    { rewrite E in H1. change INVALID_PAGE with (2 ^ 32 - 1) in H1. lia. }
    rewrite wrap_small by word_lia.
    destruct (mark_memory_block_in s r frames true) as (s' & Hm & Hmark); [done|lia..|].
    rewrite Hm. cbn. exists s'. split; [|done]. do 3 f_equal.
    pose proof (marked_rest _ _ _ _ _ Hmark) as E'.
    rewrite to_address_in; [by rewrite E'|by apply Hmark|]. rewrite E'. cbn. lia.
  - right. split; [|done]. destruct (INVALID_PAGE =? INVALID_PAGE) eqn:E; bool_prop; done.
Qed.

(** ** Freeing *)

(** What [is_reserved_or_bit_map_address] protects, without the wrap-around of
    the machine arithmetic. *)
Definition protects (s : BitMapAllocator) (p_addr frames : Z) : bool :=
  (init s && (p_bitmap s <? p_addr + frames * page_size s)
   && (p_addr <? (p_bitmap s + bitmap_size s) / page_size s * page_size s))
  || existsb (fun region => bool_decide (memory_type region <> USABLE)
        && contains region (mkRegion p_addr (frames * page_size s) NONE)) (regions (mem_map s)).

Lemma reserved_spec s p_addr frames :
  wf s -> in_width 64 (p_bitmap s + bitmap_size s) -> 0 <= p_bitmap s -> 0 <= frames < 2 ^ 32 ->
  0 <= p_addr -> p_addr + frames * page_size s < 2 ^ 64 ->
  exists e, is_reserved_or_bit_map_address s p_addr frames = Some e /\
    (e <? 0) = protects s p_addr frames.
Proof.
  intros Hwf Hbm Hpb Hf Ha Hend. destruct Hwf as [Hp _ _ _ _ _].
  unfold is_reserved_or_bit_map_address, protects, memory_align, cdiv.
  assert (0 <= frames * page_size s) by nia.
  rewrite (wrap_small 32) by word_lia.
  rewrite !(wrap_small 64 (frames * page_size s)) by word_lia.
  rewrite (wrap_small 64 (p_addr + _)) by word_lia.
  rewrite (wrap_small 64 (p_bitmap s + _)) by done.
  assert (in_width 64 ((p_bitmap s + bitmap_size s) / page_size s * page_size s)) as Hal.
  { unfold in_width in *.
    pose proof (Z.div_mod (p_bitmap s + bitmap_size s) (page_size s)).
    pose proof (Z.mod_pos_bound (p_bitmap s + bitmap_size s) (page_size s)).
    pose proof (Z.div_pos (p_bitmap s + bitmap_size s) (page_size s)). nia. }
  destruct (init s && _) eqn:E1; cbn.
  - rewrite decide_False by lia. cbn. rewrite wrap_small by done.
    destruct (p_addr <? _); cbn; [eauto|]. destruct (existsb _ _); eauto.
  - destruct (existsb _ _); eauto.
Qed.

(** [free] refuses protected addresses and addresses outside the managed range
    without a change; otherwise it frees exactly the given page frames. *)
Lemma free_spec s base frames :
  wf s -> in_width 64 (p_bitmap s + bitmap_size s) -> 0 <= p_bitmap s ->
  0 <= base -> 1 <= frames -> base + frames <= mem_size s ->
  exists s', free s (mem_base s + base * page_size s) frames
             = Some (negb (protects s (mem_base s + base * page_size s) frames), s')
    /\ (if protects s (mem_base s + base * page_size s) frames
        then s' = s else marked s s' base frames false).
Proof.
  intros Hwf Hbm Hpb Hb Hf Hle. pose proof (wf_size s Hwf) as Hsz.
  pose proof (wf_page s Hwf) as Hp. pose proof (wf_top s Hwf) as Ht. pose proof (wf_base s Hwf) as H0.
  assert ((base + frames) * page_size s <= mem_size s * page_size s)
    by (apply Z.mul_le_mono_nonneg_r; lia).
  assert (0 <= base * page_size s) by (apply Z.mul_nonneg_nonneg; lia).
  assert (0 <= frames * page_size s) by (apply Z.mul_nonneg_nonneg; lia).
  unfold free.
  destruct (reserved_spec s (mem_base s + base * page_size s) frames)
    as (e & -> & He); [done|done|done|word_lia|lia|lia|]. cbn.
  rewrite He. destruct (protects s _ frames); cbn; [eauto|].
  unfold mark_memory_region, to_page_frame_round_up, Math.div_round_up, cdiv.
  rewrite !decide_False by lia. cbn.
  replace (mem_base s + base * page_size s - mem_base s) with (base * page_size s) by lia.
  rewrite !(wrap_small 64 (_ * page_size s)) by word_lia.
  rewrite Z.div_mul by lia. rewrite (wrap_small 32 frames) by word_lia.
  assert ((base + 1) * page_size s <= mem_size s * page_size s)
    by (apply Z.mul_le_mono_nonneg_r; lia).
  rewrite (wrap_small 64) by word_lia.
  assert ((base * page_size s + page_size s - 1) / page_size s = base) as ->.
  { symmetry. apply (Z.div_unique_pos _ _ _ (page_size s - 1)); lia. }
  rewrite (wrap_small 32) by word_lia.
  apply mark_memory_block_in; done || lia.
Qed.

(** ** Properties of the allocator *)

(** C3: from a well-formed state and for at least one page frame, [allocate] always
    returns, without an access outside the bitmap.  It hands out the lowest run of free page
    frames that is long enough and marks exactly that run, or it reports failure, changes
    nothing, and there is no such run. *)
Theorem allocate_first_fit s frames :
  wf s -> 1 <= frames ->
  (exists base s', allocate s frames = Some (Some (mem_base s + base * page_size s), s')
     /\ 0 <= base /\ base + frames <= mem_size s
     /\ free_run s base frames /\ marked s s' base frames true
     /\ forall b, 0 <= b < base -> blocked s b frames)
  \/ (allocate s frames = Some (None, s)
      /\ forall b, 0 <= b -> b + frames <= mem_size s -> blocked s b frames).
Proof. apply allocate_spec. Qed.

(** What a successful allocation tells. *)
Lemma allocate_Some_inv s frames p s' :
  wf s -> 1 <= frames -> allocate s frames = Some (Some p, s') ->
  exists base, p = mem_base s + base * page_size s /\ 0 <= base /\ base + frames <= mem_size s
    /\ free_run s base frames /\ marked s s' base frames true.
Proof.
  intros Hwf Hf Ha. destruct (allocate_spec s frames Hwf Hf) as [(b & t & E & H)|(E & _)];
    rewrite Ha in E; simplify_eq.
  exists b. destruct H as (? & ? & ? & ? & _). done.
Qed.

(** two allocations in a row never overlap. *)
Theorem allocations_disjoint s n m p q s1 s2 :
  wf s -> 1 <= n -> 1 <= m ->
  allocate s n = Some (Some p, s1) -> allocate s1 m = Some (Some q, s2) ->
  p + n * page_size s <= q \/ q + m * page_size s <= p.
Proof.
  intros Hwf Hn Hm H1 H2.
  apply allocate_Some_inv in H1 as (a & -> & Ha & Hla & Hfa & [E1 W1 U1]); [|done..].
  apply allocate_Some_inv in H2 as (b & -> & Hb & Hlb & Hfb & _); [|done..].
  assert (page_size s1 = page_size s /\ mem_base s1 = mem_base s) as [-> ->] by (by rewrite E1).
  pose proof (wf_page s Hwf).
  destruct (Z.le_gt_cases (a + n) b); [left; nia|].
  destruct (Z.le_gt_cases (b + m) a); [right; nia|]. exfalso.
  specialize (Hfb (Z.max a b) ltac:(lia)). rewrite U1, decide_True in Hfb by lia. done.
Qed.

(** freeing what was just allocated restores the state of every page frame, unless the
    range is protected, and then [free] refuses and changes nothing. *)
Theorem allocate_free_roundtrip s n p s1 :
  wf s -> 1 <= n -> in_width 64 (p_bitmap s + bitmap_size s) -> 0 <= p_bitmap s ->
  allocate s n = Some (Some p, s1) ->
  exists s2, free s1 p n = Some (negb (protects s1 p n), s2)
    /\ if protects s1 p n then s2 = s1
       else forall j, 0 <= j -> page_used s2 j = page_used s j.
Proof.
  intros Hwf Hn Hb1 Hb2 Ha.
  apply allocate_Some_inv in Ha as (a & -> & Ha & Hla & Hfa & [E1 W1 U1]); [|done..].
  assert (page_size s1 = page_size s /\ mem_base s1 = mem_base s /\ mem_size s1 = mem_size s
    /\ p_bitmap s1 = p_bitmap s /\ bitmap_size s1 = bitmap_size s) as (Ep & Eb & Es & Epb & Ebs)
    by (by rewrite E1).
  rewrite <- Ep, <- Eb.
  destruct (free_spec s1 a n) as (s2 & Hfree & Hres); rewrite ?Epb, ?Ebs, ?Es; [done..|].
  exists s2. split; [done|]. destruct (protects s1 _ n); [done|].
  intros j Hj. destruct Hres as [_ _ U2]. rewrite U2, U1 by done.
  case_decide; [|done]. symmetry. by apply Hfa.
Qed.

(** a page frame that overlaps the allocator's own bitmap, or a region of the map that is
    not usable, is never freed: [free] answers false and the state is unchanged. *)
Theorem free_protected_refused s base n :
  wf s -> in_width 64 (p_bitmap s + bitmap_size s) -> 0 <= p_bitmap s ->
  0 <= base -> 1 <= n -> base + n <= mem_size s ->
  protects s (mem_base s + base * page_size s) n = true ->
  free s (mem_base s + base * page_size s) n = Some (false, s).
Proof.
  intros Hwf H1 H2 H3 H4 H5 Hp. destruct (free_spec s base n) as (s' & Hf & Hr); [done..|].
  rewrite Hp in Hf, Hr. by subst s'.
Qed.

(** [is_free] answers for page frame [_mem_size] by reading the bitmap, because it compares
    with [>]; when the bitmap has no spare bits, [allocate_explicit] of the address right
    behind the managed memory reads one byte past the bitmap instead of failing. *)
Theorem allocate_explicit_reads_past_bitmap s frames :
  wf s -> mem_size s mod 8 = 0 -> 1 <= frames < 2 ^ 31 ->
  is_reserved_or_bit_map_address s (mem_base s + mem_size s * page_size s) frames = Some 0 ->
  allocate_explicit s (mem_base s + mem_size s * page_size s) frames = None.
Proof.
  intros Hwf Hmod Hf Hres. unfold allocate_explicit. rewrite Hres. cbn.
  pose proof (wf_size s Hwf) as Hs. pose proof (wf_page s Hwf) as Hp.
  pose proof (wf_base s Hwf). pose proof (wf_top s Hwf).
  assert (0 <= mem_size s * page_size s) by (apply Z.mul_nonneg_nonneg; lia).
  unfold to_page_frame, cdiv. rewrite decide_False by lia. cbn.
  replace (mem_base s + mem_size s * page_size s - mem_base s) with (mem_size s * page_size s) by lia.
  rewrite (wrap_small 64) by word_lia. rewrite Z.div_mul, (wrap_small 32) by (lia || word_lia).
  rewrite (wrap_small 64) by word_lia.
  replace (Z.to_nat _) with (S (Z.to_nat (frames - 1))) by lia. cbn [all_free].
  rewrite (wrap_small 32 (mem_size s)) by word_lia. unfold is_free, BIT_COUNT_BYTE.
  rewrite Z.ltb_irrefl. rewrite aget_out; [done|]. rewrite wf_len by done.
  Z.to_euclidean_division_equations. lia.
Qed.

(** *** A small machine: 16 page frames, the first three in use. *)
Definition pmm0 : BitMapAllocator :=
  mkPmm 4096 0 16 (mkMap [mkRegion 0 65536 USABLE] 65536 0 1) true START_NONE 0 [7; 0] 0 0 2.

Lemma wf_bytes_list l :
  Forall (fun b => 0 <= b < 256) l -> forall i b, aget l i = Some b -> in_width 8 b.
Proof.
  intros Hl i b Hb. unfold aget in Hb. case_decide; [|done].
  exact (Forall_lookup_1 _ _ _ _ Hl Hb).
Qed.

Lemma pmm0_wf : wf pmm0.
Proof.
  split; [by_compute..|].
  apply wf_bytes_list. repeat constructor; done.
Qed.

Lemma allocate_first_fit_witness :
  wf pmm0 /\ 1 <= 2 /\ exists s', allocate pmm0 2 = Some (Some (3 * 4096), s').
Proof.
  split; [exact pmm0_wf|]. split; [done|].
  destruct (allocate_first_fit pmm0 2 pmm0_wf ltac:(done)) as [H|[H _]].
  - eexists. vm_compute. reflexivity.
  - vm_compute in H. discriminate H.
Defined.

Lemma allocations_disjoint_witness :
  exists s1 s2, allocate pmm0 2 = Some (Some 12288, s1) /\ allocate s1 1 = Some (Some 20480, s2)
    /\ (12288 + 2 * 4096 <= 20480 \/ 20480 + 1 * 4096 <= 12288).
Proof.
  eexists _, _. split; [vm_compute; reflexivity|]. split; [vm_compute; reflexivity|].
  exact (allocations_disjoint pmm0 2 1 12288 20480 _ _ pmm0_wf ltac:(done) ltac:(done) eq_refl eq_refl).
Defined.

Lemma allocate_free_roundtrip_witness :
  exists s1, allocate pmm0 2 = Some (Some 12288, s1)
    /\ protects s1 12288 2 = false
    /\ exists s2, free s1 12288 2 = Some (true, s2) /\ bitmap s2 = bitmap pmm0.
Proof.
  eexists. split; [vm_compute; reflexivity|]. split; [vm_compute; reflexivity|].
  destruct (allocate_free_roundtrip pmm0 2 12288 _ pmm0_wf ltac:(done) ltac:(split; done)
    ltac:(done) eq_refl) as (s2 & H & _).
  eexists. split; [exact H|]. vm_compute in H. by simplify_eq.
Defined.

(** The bitmap of [pmm0] lies in the first page frame when that page is reserved. *)
Definition pmm1 : BitMapAllocator :=
  with_map pmm0 (mkMap [mkRegion 0 4096 RESERVED; mkRegion 4096 61440 USABLE] 61440 4096 2).

Lemma free_protected_refused_witness :
  protects pmm1 0 1 = true /\ free pmm1 0 1 = Some (false, pmm1).
Proof.
  split; [vm_compute; reflexivity|].
  apply (free_protected_refused pmm1 0 1); try by_compute.
  destruct pmm0_wf. split; done.
Defined.

Lemma allocate_explicit_reads_past_bitmap_witness :
  is_reserved_or_bit_map_address pmm0 65536 1 = Some 0 /\ allocate_explicit pmm0 65536 1 = None.
Proof.
  split; [vm_compute; reflexivity|].
  apply (allocate_explicit_reads_past_bitmap pmm0 1 pmm0_wf); by_compute.
Defined.
End Pmm.
