(* ===== verification/Paging.v ===== *)
(** * Four-level paging

    Models [Arch/x86_64/Memory/Paging.cpp]: page table entries, the walk through the page tables, and
    the allocation, release and modification of the mapping of one page.  Page tables are read and
    written through the higher half direct map: [words] maps the virtual address of an entry to its
    64 bits, and an access to an address that is not mapped has no result.  The physical memory manager
    is an interface ([FrameAllocator]) that Memory.v implements. *)

From S2P Require Import Prelude Kre Memory.

(** ** The physical memory manager, as paging uses it

    [fa_allocate] hands out one page frame, [fa_free] takes one back. *)
Class FrameAllocator (A : Type) := {
  fa_allocate : A -> option (option Z * A);
  fa_free : A -> Z -> option (bool * A);
}.

(** ** Constants and state *)
Module Pg.

Definition PT_MAX_SIZE : Z := 512.
Definition MAX_PT_LEVEL : Z := 4.
Definition PT_IDX_MASK : Z := 0x1FF.
Definition PAGE_FRAME_OFFSET_MASK : Z := 0xFFF.
Definition VIRTUAL_ADDR_SIZE : Z := 48.
Definition PTTE_BIT_SIZE : Z := 12.
Definition MASK_ADDR_PREFIX : Z := 0xFFFFF00000000000.
Definition MASK_ADDRESS : Z := 0x0000FFFFFFFFFFFF.
Definition PHYSICAL_PAGE_OFFSET : Z := 12.
Definition PAGE_TRANSLATION_OFFSET_DIFF : Z := 9.
Definition IS_PRESENT_BIT : Z := 0.
Definition IS_WRITE_ALLOWED_BIT : Z := 1.
Definition IS_USER_MODE_ACCESS_BIT : Z := 2.
Definition IS_ACCESSED_BIT : Z := 5.
Definition IS_DIRTY_BIT : Z := 6.
Definition PML4_OFFSET : Z := 39.
Definition BAD_LEVEL : Z := 0xFF.
Definition HHDM_BEGIN : Z := 0xFFFF800000000000.

Definition get_page_size : Z := 4 * 1024.

Record PageTableEntry := mkPte { native_entry : Z; pte_level : Z }.

Definition empty_pte : PageTableEntry := mkPte 0 BAD_LEVEL.

(** A page table: its native entry, the address of its first entry and its level. *)
Record PageTable := mkPt { npte : Z; pt_addr : Z; pt_level : Z }.

Inductive PageTableAccessStatus := PTA_NONE | OKAY | ALLOC_ERROR | FREE_ERROR | PAGE_TABLE_ENTRY_MISSING.

#[export] Instance status_eq_dec : EqDecision PageTableAccessStatus.
Proof. solve_decision. Defined.

Record PageTableAccess := mkPta {
  status : PageTableAccessStatus;
  pta_path : list PageTableEntry;
  level : Z;
  pt_leak_map : list bool;
  physical_address : Z;
  pte_after : PageTableEntry;
}.

Definition new_pta : PageTableAccess :=
  mkPta PTA_NONE (replicate 5 empty_pte) 0 (replicate 5 false) 0 empty_pte.

Definition set_path (a : PageTableAccess) (p : list PageTableEntry) : PageTableAccess :=
  mkPta (status a) p (level a) (pt_leak_map a) (physical_address a) (pte_after a).

Definition set_status (a : PageTableAccess) (s : PageTableAccessStatus) (l : Z) : PageTableAccess :=
  mkPta s (pta_path a) l (pt_leak_map a) (physical_address a) (pte_after a).

Definition set_leak (a : PageTableAccess) (m : list bool) : PageTableAccess :=
  mkPta (status a) (pta_path a) (level a) m (physical_address a) (pte_after a).

Definition set_after (a : PageTableAccess) (e : PageTableEntry) : PageTableAccess :=
  mkPta (status a) (pta_path a) (level a) (pt_leak_map a) (physical_address a) e.

(** The memory the page tables are in, and the physical memory manager. *)
Record machine {A : Type} := mkMachine { words : gmap Z Z; pmm : A }.

End Pg.
Import Pg.

Arguments machine : clear implicits.

(** ** Addresses *)
Module Addr.

Definition to_canonical_form (v_addr : Z) : Z :=
  if Z.land (Z.shiftr v_addr (VIRTUAL_ADDR_SIZE - 1)) 1 =? 1
  then Z.lor (u64 (Z.shiftl (Z.shiftr (2 ^ 64 - 1) VIRTUAL_ADDR_SIZE) VIRTUAL_ADDR_SIZE)) v_addr
  else Z.land v_addr MASK_ADDRESS.

Definition physical_to_virtual_address (p_addr : Z) : Z := to_canonical_form (u64 (p_addr + HHDM_BEGIN)).

Definition addr_prefix (v_addr : Z) : Z := Z.land v_addr MASK_ADDR_PREFIX.

Definition get_page_offset (v_addr : Z) : Z := Z.land v_addr PAGE_FRAME_OFFSET_MASK.
End Addr.
Import Addr.

(** ** Entries and tables *)
Module Table.
Section table.
(** PHYSICAL_ADDRESS_WIDTH *)
Context (width : Z).

Definition is_present (e : PageTableEntry) : bool := Bits.bit_check (native_entry e) IS_PRESENT_BIT.

Definition is_write_allowed (e : PageTableEntry) : bool := Bits.bit_check (native_entry e) IS_WRITE_ALLOWED_BIT.

Definition is_user_mode_access_allowed (e : PageTableEntry) : bool :=
  Bits.bit_check (native_entry e) IS_USER_MODE_ACCESS_BIT.

Definition is_accessed (e : PageTableEntry) : bool := Bits.bit_check (native_entry e) IS_ACCESSED_BIT.

Definition is_dirty (e : PageTableEntry) : bool := Bits.bit_check (native_entry e) IS_DIRTY_BIT.

Definition is_pointing_to_page_frame (e : PageTableEntry) : bool := pte_level e =? 1.

Definition get_address (e : PageTableEntry) : Z :=
  let mask := Z.shiftr (2 ^ 64 - 1) (64 - width + PTTE_BIT_SIZE) in
  u64 (Z.shiftl (Z.land (Z.shiftr (native_entry e) PTTE_BIT_SIZE) mask) PTTE_BIT_SIZE).

Definition get_flags (e : PageTableEntry) : Z := Z.land (native_entry e) PAGE_FRAME_OFFSET_MASK.

Definition is_base_page_table (pt : PageTable) : bool := pt_level pt =? MAX_PT_LEVEL.

Definition to_page_table_entry (pt : PageTable) : PageTableEntry := mkPte (npte pt) (pt_level pt).

(** [operator[]] *)
Definition entry (m : gmap Z Z) (pt : PageTable) (idx : Z) : option PageTableEntry :=
  if PT_MAX_SIZE <=? idx then Some (mkPte 0 BAD_LEVEL)
  else w ← m !! (pt_addr pt + 8 * idx); Some (mkPte w (u8 (pt_level pt - 1))).

Definition entry_as_page_table (m : gmap Z Z) (pt : PageTable) (idx : Z) : option PageTable :=
  if PT_MAX_SIZE <=? idx then Some (mkPt 0 0 BAD_LEVEL)
  else
    pte ← entry m pt idx;
    Some (mkPt (native_entry pte) (physical_to_virtual_address (get_address pte)) (u8 (pt_level pt - 1))).

Definition update (m : gmap Z Z) (pt : PageTable) (idx n_pte : Z) : option (gmap Z Z) :=
  match m !! (pt_addr pt + 8 * idx) with
  | Some _ => Some (<[pt_addr pt + 8 * idx := n_pte]> m)
  | None => None
  end.

Definition interp_as_base_page_table (p_addr : Z) : PageTable :=
  mkPt p_addr (physical_to_virtual_address p_addr) MAX_PT_LEVEL.

(** The table an entry of the path refers to, one level below [l]. *)
Definition table_of (e : PageTableEntry) (l : Z) : PageTable :=
  mkPt (get_address e) (physical_to_virtual_address (get_address e)) l.

Definition table_index (v_addr shift : Z) : Z := Z.land (Z.shiftr v_addr shift) PT_IDX_MASK.

(** ** The walk *)

(** The loop of [access_page_hierarchy]; [pte] is the entry read last. *)
Fixpoint access_loop (fuel : nat) (m : gmap Z Z) (v_addr shift : Z) (pta : PageTableAccess) (pt : PageTable)
    (pte : PageTableEntry) : option PageTableAccess :=
  match fuel with
  | O => None
  | S fuel' =>
      if PHYSICAL_PAGE_OFFSET <=? shift then
        let pt_idx := table_index v_addr shift in
        pte ← entry m pt pt_idx;
        path ← aset (pta_path pta) (pte_level pte) pte;
        let pta := set_path pta path in
        if negb (is_present pte) then Some (set_status pta PAGE_TABLE_ENTRY_MISSING (pte_level pte))
        else
          pt ← entry_as_page_table m pt pt_idx;
          access_loop fuel' m v_addr (shift - PAGE_TRANSLATION_OFFSET_DIFF) pta pt pte
      else
        path ← aset (pta_path pta) 0 pte;
        Some (mkPta OKAY path (pt_level pt) (pt_leak_map pta)
                (u64 (get_address pte + Z.land v_addr PAGE_FRAME_OFFSET_MASK)) (pte_after pta))
  end.

(** The shift passes 39, 30, 21, 12 and ends at 3. *)
Definition access_page_hierarchy (m : gmap Z Z) (base_pt : PageTable) (v_addr : Z) : option PageTableAccess :=
  path ← aset (pta_path new_pta) 4 (to_page_table_entry base_pt);
  access_loop 5 m v_addr PML4_OFFSET (set_path new_pta path) base_pt empty_pte.

Definition find_page := access_page_hierarchy.

(** [cr3] is the address of the loaded base page table. *)
Definition virtual_to_physical_address (m : gmap Z Z) (cr3 v_addr : Z) : option (option Z) :=
  if addr_prefix v_addr =? HHDM_BEGIN then Some (Some (u64 (v_addr - HHDM_BEGIN)))
  else
    pta ← access_page_hierarchy m (interp_as_base_page_table cr3) v_addr;
    Some (if decide (status pta = OKAY) then Some (physical_address pta) else None).

(** ** Manipulation *)
Context {A : Type} `{FrameAllocator A}.

Definition to_x86_64_flags (flags : Z) : Z := flags.

(** memset of [n] words with zero *)
Fixpoint zero_words (n : nat) (m : gmap Z Z) (p : Z) : option (gmap Z Z) :=
  match n with
  | O => Some m
  | S n' => match m !! p with Some _ => zero_words n' (<[p := 0]> m) (p + 8) | None => None end
  end.

Definition zero_page (m : gmap Z Z) (p_addr : Z) : option (gmap Z Z) :=
  zero_words 512 m (physical_to_virtual_address p_addr).

Definition page_shift (i : Z) : Z := PHYSICAL_PAGE_OFFSET + PAGE_TRANSLATION_OFFSET_DIFF * i.

(** The inner loop of [allocate_page]: the tables of the levels [j], [j + 1], ... ([n] of them) that were
    allocated before are freed again. *)
Fixpoint rollback (n : nat) (s : machine A) (v_addr j : Z) (pta : PageTableAccess)
    : option (PageTableAccess * machine A) :=
  match n with
  | O => Some (pta, s)
  | S n' =>
      parent ← aget (pta_path pta) (j + 1);
      let parent_pt := table_of parent (j + 1) in
      let plz_free_idx := table_index v_addr (page_shift j) in
      plz_free ← entry (words s) parent_pt plz_free_idx;
      '(freed, p) ← fa_free (pmm s) (get_address plz_free);
      leak ← (if freed : bool then Some (pt_leak_map pta) else aset (pt_leak_map pta) j true);
      m ← update (words s) parent_pt plz_free_idx 0;
      rollback n' (mkMachine A m p) v_addr (j + 1) (set_leak pta leak)
  end.

(** The loop of [allocate_page] from level [i] down to 0. *)
Fixpoint allocate_loop (fuel : nat) (s : machine A) (v_addr page_frame flags i : Z) (pta : PageTableAccess)
    : option (PageTableAccess * machine A) :=
  match fuel with
  | O => None
  | S fuel' =>
      if i <? 0 then Some (pta, s)
      else
        parent ← aget (pta_path pta) (i + 1);
        let parent_pt := table_of parent (i + 1) in
        '(alloc, p) ← (if i =? 0 then Some (Some page_frame, pmm s) else fa_allocate (pmm s));
        match alloc with
        | None =>
            '(pta, s) ← rollback (Z.to_nat (level pta - i)) (mkMachine A (words s) p) v_addr (i + 1) pta;
            Some (set_status pta ALLOC_ERROR i, s)
        | Some pt_page_frame =>
            m ← (if 0 <? i then zero_page (words s) pt_page_frame else Some (words s));
            let n_pte := Z.lor pt_page_frame (to_x86_64_flags flags) in
            m ← update m parent_pt (table_index v_addr (page_shift i)) n_pte;
            path ← aset (pta_path pta) i (mkPte n_pte i);
            let pta := set_path pta path in
            let pta := if i =? 0 then set_after pta (mkPte n_pte i) else pta in
            allocate_loop fuel' (mkMachine A m p) v_addr page_frame flags (i - 1) pta
        end
  end.

Definition allocate_page (s : machine A) (base_pt : PageTable) (v_addr page_frame flags : Z)
    : option (PageTableAccess * machine A) :=
  pta ← access_page_hierarchy (words s) base_pt v_addr;
  if decide (status pta = OKAY) then Some (set_status pta ALLOC_ERROR 0, s)
  else
    '(pta, s) ← allocate_loop 6 s v_addr page_frame flags (level pta) pta;
    Some (if decide (status pta = PAGE_TABLE_ENTRY_MISSING) then set_status pta OKAY (level pta) else pta, s).

(** The number of present entries from index [j] on ([n] of them). *)
Fixpoint count_present (n : nat) (m : gmap Z Z) (pt : PageTable) (j : Z) : option Z :=
  match n with
  | O => Some 0
  | S n' => e ← entry m pt j; c ← count_present n' m pt (j + 1); Some ((if is_present e then 1 else 0) + c)
  end.

(** The loop of [free_page] over the levels [i], [i + 1], ... ([n] of them). *)
Fixpoint free_loop (n : nat) (s : machine A) (v_addr i : Z) (pta : PageTableAccess)
    : option (PageTableAccess * machine A) :=
  match n with
  | O => Some (pta, s)
  | S n' =>
      parent ← aget (pta_path pta) (i + 1);
      let parent_pt := table_of parent (i + 1) in
      let idx := table_index v_addr (page_shift i) in
      pte ← aget (pta_path pta) i;
      if i =? 0 then
        m ← update (words s) parent_pt idx 0;
        after ← entry m parent_pt idx;
        free_loop n' (mkMachine A m (pmm s)) v_addr (i + 1) (set_after pta after)
      else
        pte_count ← count_present 512 (words s) (table_of pte i) 0;
        if pte_count =? 0 then
          '(freed, p) ← fa_free (pmm s) (get_address pte);
          if negb freed then Some (set_status pta FREE_ERROR i, mkMachine A (words s) p)
          else m ← update (words s) parent_pt idx 0; free_loop n' (mkMachine A m p) v_addr (i + 1) pta
        else free_loop n' s v_addr (i + 1) pta
  end.

Definition free_page (s : machine A) (base_pt : PageTable) (v_addr : Z) : option (PageTableAccess * machine A) :=
  pta ← access_page_hierarchy (words s) base_pt v_addr;
  if decide (status pta <> OKAY) then Some (pta, s) else free_loop 4 s v_addr 0 pta.

(** The flags are a U16; the complement is taken in [int] and sign-extended. *)
Definition modify_page_flags (s : machine A) (base_pt : PageTable) (v_addr flags : Z) (set : bool)
    : option (PageTableAccess * machine A) :=
  pta ← access_page_hierarchy (words s) base_pt v_addr;
  if decide (status pta <> OKAY) then Some (pta, s)
  else
    e ← aget (pta_path pta) 0;
    let updated_entry := if set then Z.lor (native_entry e) (to_x86_64_flags flags)
                         else Z.land (native_entry e) (u64 (Z.lnot (to_x86_64_flags flags))) in
    parent ← aget (pta_path pta) 1;
    let pt := table_of parent 1 in
    let pt_idx := table_index v_addr PHYSICAL_PAGE_OFFSET in
    m ← update (words s) pt pt_idx updated_entry;
    after ← entry m pt pt_idx;
    Some (set_after pta after, mkMachine A m (pmm s)).
End table.
End Table.
