(* ===== verification/PagingProps.v ===== *)
(** * Properties of four-level paging

    The page tables as an abstract hierarchy: every table has a depth (0 for the base page table) and the
    address bits that lead to it.  Mapping a page adds exactly that page and undoes everything when
    memory runs out; unmapping removes exactly that page and gives back the tables that became empty. *)

From S2P Require Import Prelude Kre Memory Paging.
Import Pg Addr Table.

(** ** Bit arithmetic *)
Module PgBits.

Lemma lor_add a b k : 0 <= k -> 0 <= b < 2 ^ k -> Z.lor (a * 2 ^ k) b = a * 2 ^ k + b.
Proof.
  intros Hk Hb. assert (Z.land (a * 2 ^ k) b = 0) as Hz.
  { apply Z.bits_inj'. intros i Hi. rewrite Z.land_spec, Z.bits_0. destruct (Z.ltb_spec i k).
    - by rewrite Z.mul_pow2_bits_low.
    - rewrite (testbit_above k b i), andb_false_r; [done|done|lia]. }
  by rewrite Z.add_nocarry_lxor, Z.lxor_lor.
Qed.

(** The direct map is an offset. *)
Lemma p2v p : 0 <= p < 2 ^ 47 -> physical_to_virtual_address p = HHDM_BEGIN + p.
Proof.
  intros Hp. unfold physical_to_virtual_address, HHDM_BEGIN.
  rewrite wrap_small by (unfold in_width; lia). unfold to_canonical_form.
  change VIRTUAL_ADDR_SIZE with 48. rewrite Z.shiftr_div_pow2 by done.
  replace ((p + 0xFFFF800000000000) / 2 ^ (48 - 1)) with (2 ^ 17 - 1)
    by (apply (Z.div_unique_pos _ _ _ p); lia).
  change (Z.land (2 ^ 17 - 1) 1 =? 1) with true. cbn [negb].
  change (u64 (Z.shiftl (Z.shiftr (2 ^ 64 - 1) 48) 48)) with (65535 * 2 ^ 48).
  replace (p + 0xFFFF800000000000) with (65535 * 2 ^ 48 + (2 ^ 47 + p)) by lia.
  rewrite <- (lor_add 65535 (2 ^ 47 + p) 48) by lia.
  rewrite Z.lor_assoc, Z.lor_diag, lor_add by lia. lia.
Qed.

(** Addresses of the direct map below 2^44 are translated back by subtraction, whatever page tables are loaded. *)
Lemma direct_map_roundtrip width m cr3 p : 0 <= p < 2 ^ 44 ->
  virtual_to_physical_address width m cr3 (physical_to_virtual_address p) = Some (Some p).
Proof.
  intros Hp. rewrite p2v by lia. unfold virtual_to_physical_address, addr_prefix, HHDM_BEGIN, MASK_ADDR_PREFIX.
  replace (0xFFFF800000000000 + p) with (0xFFFF8 * 2 ^ 44 + p) by lia. rewrite <- (lor_add 0xFFFF8 p 44) by lia.
  rewrite Z.land_lor_distr_l. change (Z.land (0xFFFF8 * 2 ^ 44) 0xFFFFF00000000000) with 0xFFFF800000000000.
  assert (Z.land p 0xFFFFF00000000000 = 0) as ->.
  { apply Z.bits_inj'. intros i Hi. rewrite Z.land_spec, Z.bits_0. destruct (Z.ltb_spec i 44).
    - change 0xFFFFF00000000000 with (0xFFFFF * 2 ^ 44). by rewrite Z.mul_pow2_bits_low, andb_false_r.
    - by rewrite (testbit_above 44 p i). }
  rewrite Z.lor_0_r. change (0xFFFF800000000000 =? 0xFFFF800000000000) with true. cbv iota.
  rewrite lor_add by lia. do 2 f_equal. rewrite wrap_small by (unfold in_width; lia). lia.
Qed.

(** Canonical addresses are a fixed point. *)
Lemma canonical_idem v : 0 <= v < 2 ^ 64 -> to_canonical_form (to_canonical_form v) = to_canonical_form v.
Proof.
  intros Hv. unfold to_canonical_form at 2 3. change VIRTUAL_ADDR_SIZE with 48.
  change (u64 (Z.shiftl (Z.shiftr (2 ^ 64 - 1) 48) 48)) with (65535 * 2 ^ 48).
  destruct (_ =? 1) eqn:E; unfold to_canonical_form; change VIRTUAL_ADDR_SIZE with 48;
    change (u64 (Z.shiftl (Z.shiftr (2 ^ 64 - 1) 48) 48)) with (65535 * 2 ^ 48).
  - apply Z.eqb_eq in E. rewrite Z.shiftr_lor, Z.land_lor_distr_l, E.
    change (Z.lor (Z.land (Z.shiftr (65535 * 2 ^ 48) (48 - 1)) 1) 1 =? 1) with true. cbv iota.
    by rewrite Z.lor_assoc, Z.lor_diag.
  - assert (Z.land (Z.shiftr (Z.land v MASK_ADDRESS) (48 - 1)) 1 = Z.land (Z.shiftr v (48 - 1)) 1) as ->.
    { rewrite Z.shiftr_land. rewrite <- Z.land_assoc. f_equal. }
    rewrite E. by rewrite <- Z.land_assoc.
Qed.

Lemma index_div v s : 0 <= s -> table_index v s = (v / 2 ^ s) mod 512.
Proof.
  intros Hs. unfold table_index. rewrite Z.shiftr_div_pow2 by done. change PT_IDX_MASK with (Z.ones 9).
  by rewrite Z.land_ones.
Qed.

(** An address a page frame can have. *)
Definition frame_ok (width p : Z) : Prop := 0 <= p < 2 ^ width /\ p mod 4096 = 0.

Section address.
Context (width : Z) (Hwidth : 12 <= width <= 47).

Lemma address_div e : get_address width e = (native_entry e / 4096) mod 2 ^ (width - 12) * 4096.
Proof using Hwidth.
  unfold get_address. change PTTE_BIT_SIZE with 12.
  assert (Z.shiftr (2 ^ 64 - 1) (64 - width + 12) = Z.ones (width - 12)) as ->.
  { change (2 ^ 64 - 1) with (Z.ones 64). rewrite Z.ones_div_pow2 || rewrite Z.shiftr_div_pow2, Z.ones_div_pow2 by lia.
    f_equal. lia. }
  rewrite Z.land_ones, Z.shiftr_div_pow2, Z.shiftl_mul_pow2 by lia. change (2 ^ 12) with 4096.
  apply wrap_small. unfold in_width.
  pose proof (Z.mod_pos_bound (native_entry e / 4096) (2 ^ (width - 12)) ltac:(apply pow2_pos; lia)).
  assert (2 ^ (width - 12) <= 2 ^ 35) by (apply Z.pow_le_mono_r; lia). lia.
Qed.

Lemma address_ok e : frame_ok width (get_address width e).
Proof using Hwidth.
  rewrite address_div. unfold frame_ok.
  pose proof (Z.mod_pos_bound (native_entry e / 4096) (2 ^ (width - 12)) ltac:(apply pow2_pos; lia)).
  replace (2 ^ width) with (2 ^ (width - 12) * 4096) by (change 4096 with (2 ^ 12); rewrite <- Z.pow_add_r by lia; f_equal; lia).
  split; [lia|]. by rewrite Z.mod_mul.
Qed.

Lemma frame_mul p : frame_ok width p -> exists a, p = a * 4096 /\ 0 <= a < 2 ^ (width - 12).
Proof using Hwidth.
  intros [Hp Hm]. exists (p / 4096). pose proof (Z.div_mod p 4096 ltac:(done)). split; [lia|].
  replace (2 ^ width) with (2 ^ (width - 12) * 4096) in Hp by (change 4096 with (2 ^ 12); rewrite <- Z.pow_add_r by lia; f_equal; lia).
  lia.
Qed.

Lemma frame_small p : frame_ok width p -> 0 <= p < 2 ^ 47.
Proof using Hwidth.
  intros [Hp _]. assert (2 ^ width <= 2 ^ 47) by (apply Z.pow_le_mono_r; lia). lia.
Qed.

(** An entry made of a frame and flags. *)
Lemma entry_address p flags l : frame_ok width p -> 0 <= flags < 4096 ->
  get_address width (mkPte (Z.lor p flags) l) = p.
Proof using Hwidth.
  intros Hp Hf. rewrite address_div. cbn [native_entry]. destruct (frame_mul p Hp) as (a & -> & Ha).
  change 4096 with (2 ^ 12) at 1. rewrite lor_add by done. change (2 ^ 12) with 4096.
  rewrite Z.div_add_l, (Z.div_small flags), Z.add_0_r, Z.mod_small by lia. done.
Qed.

Lemma entry_present p flags l : frame_ok width p -> 0 <= flags < 4096 ->
  is_present (mkPte (Z.lor p flags) l) = Z.testbit flags 0.
Proof using Hwidth.
  intros Hp Hf. unfold is_present. rewrite Bits.bit_check_spec by done. cbn [native_entry].
  rewrite Z.lor_spec. destruct (frame_mul p Hp) as (a & -> & Ha). change 4096 with (2 ^ 12).
  rewrite Z.mul_pow2_bits_low by done. done.
Qed.

(** The base page table is an entry with its own address. *)
Lemma base_address p l : frame_ok width p -> get_address width (mkPte p l) = p.
Proof using Hwidth. intros Hp. rewrite <- (Z.lor_0_r p) at 1. by apply entry_address. Qed.
End address.
End PgBits.
Import PgBits.

(** ** The hierarchy of page tables *)
Module Hier.

(** The page number of a virtual address; the bits above bit 47 do not take part in the walk. *)
Definition page (v : Z) : Z := (v / 4096) mod 2 ^ 36.

(** The address bits above the index of level [n], and the index at level [n]. *)
Definition pre (V : Z) (n : nat) : Z := V / 512 ^ (Z.of_nat n + 1).
Definition index (V : Z) (n : nat) : Z := (V / 512 ^ Z.of_nat n) mod 512.

Lemma pow512 n : 0 <= n -> 512 ^ n = 2 ^ (9 * n).
Proof. intros. change 512 with (2 ^ 9). by rewrite <- Z.pow_mul_r by lia. Qed.

Lemma page_shift_index v (n : nat) : (n <= 3)%nat ->
  table_index v (page_shift (Z.of_nat n)) = index (page v) n.
Proof.
  intros Hn. unfold index, page, page_shift. change PHYSICAL_PAGE_OFFSET with 12.
  change PAGE_TRANSLATION_OFFSET_DIFF with 9. rewrite index_div, pow512 by lia.
  change 4096 with (2 ^ 12). change 512 with (2 ^ 9).
  apply Z.bits_inj'. intros i Hi. destruct (Z.ltb_spec i 9).
  - rewrite !Z.mod_pow2_bits_low, !Z.div_pow2_bits by lia.
    rewrite Z.mod_pow2_bits_low, Z.div_pow2_bits by lia. f_equal. lia.
  - by rewrite !Z.mod_pow2_bits_high by lia.
Qed.

Lemma index_range V n : 0 <= index V n < 512.
Proof. by apply Z.mod_pos_bound. Qed.

Lemma pre_step V (n : nat) : pre V n = pre V (S n) * 512 + index V (S n).
Proof.
  unfold pre, index. replace (Z.of_nat (S n) + 1) with (Z.of_nat n + 1 + 1) by lia.
  replace (Z.of_nat (S n)) with (Z.of_nat n + 1) by lia. set (k := Z.of_nat n + 1).
  rewrite (Z.pow_add_r 512 k 1), <- Z.div_div by lia. change (512 ^ 1) with 512.
  rewrite Z.mul_comm. by apply Z.div_mod.
Qed.

Lemma pre_split V n : pre V (S n) = pre V n / 512 /\ index V (S n) = pre V n mod 512.
Proof.
  rewrite (pre_step V n). pose proof (index_range V (S n)). rewrite Z.div_add_l, Z.div_small, Z.add_0_r by lia.
  split; [done|]. by rewrite Z.add_comm, Z_mod_plus_full, Z.mod_small by lia.
Qed.

Lemma page_range v : 0 <= page v < 512 ^ 4.
Proof. by apply Z.mod_pos_bound. Qed.

Lemma pre_top V : 0 <= V < 512 ^ 4 -> pre V 3 = 0.
Proof. intros. unfold pre. apply Z.div_small. exact H. Qed.

(** The prefix and the index of the lowest level make up the page number. *)
Lemma page_number V : V = pre V 0 * 512 + index V 0.
Proof.
  unfold pre, index. change (512 ^ (Z.of_nat 0 + 1)) with 512. change (512 ^ Z.of_nat 0) with 1.
  rewrite Z.div_1_r, Z.mul_comm. by apply Z.div_mod.
Qed.

Lemma page_eq V V' : pre V 0 = pre V' 0 -> index V 0 = index V' 0 -> V = V'.
Proof. intros H1 H2. by rewrite (page_number V), (page_number V'), H1, H2. Qed.

(** Equal prefixes at a level are equal prefixes above it. *)
Lemma pre_up V V' n k : (n <= k)%nat -> pre V n = pre V' n -> pre V k = pre V' k.
Proof.
  induction 1 as [|k Hk IH]; [done|]. intros H. destruct (pre_split V k) as [-> _], (pre_split V' k) as [-> _].
  by rewrite IH.
Qed.

(** *** Table words *)
Definition waddr (p idx : Z) : Z := HHDM_BEGIN + p + 8 * idx.
Definition rd (m : gmap Z Z) (p idx : Z) : option Z := m !! waddr p idx.
Definition present (w : Z) : bool := Z.testbit w 0.
#[global] Arguments present : simpl never.
#[global] Arguments rd : simpl never.
#[global] Arguments index : simpl never.
#[global] Arguments pre : simpl never.

Lemma waddr_inj p q i j : p mod 4096 = 0 -> q mod 4096 = 0 -> 0 <= i < 512 -> 0 <= j < 512 ->
  waddr p i = waddr q j -> p = q /\ i = j.
Proof. unfold waddr. intros. Z.to_euclidean_division_equations. lia. Qed.

Section hier.
Context (width : Z) (Hwidth : 12 <= width <= 47).

Definition addr (w : Z) : Z := get_address width (mkPte w 0).

#[local] Arguments addr : simpl never.

Lemma addr_level w l : get_address width (mkPte w l) = addr w.
Proof using. done. Qed.

Lemma pointer_addr p flags : frame_ok width p -> 0 <= flags < 4096 -> addr (Z.lor p flags) = p.
Proof using Hwidth. apply entry_address, Hwidth. Qed.

Lemma pointer_present p flags : frame_ok width p -> 0 <= flags < 4096 ->
  present (Z.lor p flags) = Z.testbit flags 0.
Proof using Hwidth.
  intros. rewrite <- (entry_present width Hwidth p flags 0) by done. unfold is_present.
  by rewrite Bits.bit_check_spec.
Qed.

(** The leaf entry a walk reaches from the table [p] of level [n]. *)
Fixpoint lookup_from (n : nat) (m : gmap Z Z) (p V : Z) : option Z :=
  w ← rd m p (index V n);
  if present w then match n with O => Some w | S n' => lookup_from n' m (addr w) V end else None.

(** What the virtual page [V] is mapped to. *)
Definition translate (m : gmap Z Z) (base V : Z) : option Z := lookup_from 3 m base V.

(** [T] holds the tables that hang from [base], each with its level and the address bits that lead to
    it.  Every table is reached through exactly one entry. *)
Record hier (m : gmap Z Z) (base : Z) (T : gmap Z (nat * Z)) : Prop := {
  hier_base : T !! base = Some (3%nat, 0);
  hier_frame : forall p e, T !! p = Some e -> frame_ok width p;
  hier_level : forall p n q, T !! p = Some (n, q) -> (n <= 3)%nat;
  hier_words : forall p e i, T !! p = Some e -> 0 <= i < 512 -> is_Some (rd m p i);
  hier_child : forall p n q i w, T !! p = Some (S n, q) -> 0 <= i < 512 -> rd m p i = Some w ->
    present w = true -> T !! addr w = Some (n, q * 512 + i);
  hier_parent : forall p n q, T !! p = Some (n, q) -> p <> base ->
    exists pp w, T !! pp = Some (S n, q / 512) /\ rd m pp (q mod 512) = Some w
      /\ present w = true /\ addr w = p;
  hier_inj : forall p p' e, T !! p = Some e -> T !! p' = Some e -> p = p';
}.

Section reading.
Context {m : gmap Z Z} {base : Z} {T : gmap Z (nat * Z)} (H : hier m base T).

(** A walk from a table on the path stays on the path. *)
Lemma walk_child p n V w : T !! p = Some (S n, pre V (S n)) -> rd m p (index V (S n)) = Some w ->
  present w = true -> T !! addr w = Some (n, pre V n).
Proof using H.
  intros HT Hw Hp. rewrite (pre_step V n). eapply (hier_child _ _ _ H); eauto using index_range.
Qed.

Lemma hier_not_base p n q : T !! p = Some (n, q) -> (n <= 2)%nat -> p <> base.
Proof using H. intros HT Hn ->. pose proof (hier_base _ _ _ H). simplify_eq. lia. Qed.

(** The walk can start at any table of the path. *)
Lemma lookup_via V k p : T !! p = Some (k, pre V k) -> forall n pn, (k <= n)%nat ->
  T !! pn = Some (n, pre V n) -> lookup_from n m pn V = lookup_from k m p V.
Proof using H.
  intros Hp n pn Hkn Hpn. remember (n - k)%nat as d eqn:Ed.
  replace n with (d + k)%nat in * by lia. clear Ed Hkn n.
  revert p k pn Hp Hpn. induction d as [|d IH]; intros p k pn Hp Hpn.
  - by rewrite (hier_inj _ _ _ H _ _ _ Hp Hpn).
  - pose proof (hier_level _ _ _ H _ _ _ Hpn).
    destruct (hier_parent _ _ _ H p k _ Hp) as (pp & w & Hpp & Hw & Hpr & Ha).
    { eapply hier_not_base; [done|lia]. }
    destruct (pre_split V k) as [E1 E2]. rewrite <- E1 in Hpp. rewrite <- E2 in Hw.
    replace (S d + k)%nat with (d + S k)%nat in * by lia.
    rewrite (IH pp (S k) pn Hpp Hpn). cbn [lookup_from]. rewrite Hw. cbn. by rewrite Hpr, Ha.
Qed.

Lemma translate_via V k p : 0 <= V < 512 ^ 4 -> T !! p = Some (k, pre V k) ->
  translate m base V = lookup_from k m p V.
Proof using H.
  intros HV Hp. eapply (lookup_via V k p Hp 3 base); [by eapply (hier_level _ _ _ H)|].
  rewrite pre_top by done. apply H.
Qed.

(** Distinct entries of the hierarchy have distinct addresses. *)
Lemma waddr_tables p q e f i j : T !! p = Some e -> T !! q = Some f -> 0 <= i < 512 -> 0 <= j < 512 ->
  waddr p i = waddr q j -> p = q /\ i = j.
Proof using H.
  intros Hp Hq Hi Hj. apply waddr_inj; [| |done|done].
  - by destruct (hier_frame _ _ _ H _ _ Hp).
  - by destruct (hier_frame _ _ _ H _ _ Hq).
Qed.

(** A change of one entry, and of memory outside the tables, only affects the pages behind the entry. *)
Lemma lookup_local m' p0 n0 q0 i0 V : T !! p0 = Some (n0, q0) -> 0 <= i0 < 512 ->
  (forall p e i, T !! p = Some e -> 0 <= i < 512 -> (p, i) <> (p0, i0) -> rd m' p i = rd m p i) ->
  ~ (pre V n0 = q0 /\ index V n0 = i0) ->
  forall n p, T !! p = Some (n, pre V n) -> lookup_from n m' p V = lookup_from n m p V.
Proof using H.
  intros H0 Hi0 Hm' Hnot. induction n as [|n IH]; intros p Hp; cbn [lookup_from];
    rewrite (Hm' p _ (index V _) Hp (index_range _ _)) by (intros [= -> ?]; simplify_eq; eauto); [done|].
  destruct (rd m p (index V (S n))) as [w|] eqn:Hw; [|done]. cbn.
  destruct (present w) eqn:Hpr; [|done]. apply IH. by eapply walk_child.
Qed.

Lemma translate_local m' p0 n0 q0 i0 V : 0 <= V < 512 ^ 4 -> T !! p0 = Some (n0, q0) -> 0 <= i0 < 512 ->
  (forall p e i, T !! p = Some e -> 0 <= i < 512 -> (p, i) <> (p0, i0) -> rd m' p i = rd m p i) ->
  ~ (pre V n0 = q0 /\ index V n0 = i0) -> translate m' base V = translate m base V.
Proof using H.
  intros HV H0 Hi0 Hm' Hnot. eapply lookup_local; try done. rewrite pre_top by done. apply H.
Qed.
End reading.

(** *** Writing an entry *)
Definition write (m : gmap Z Z) (p i w : Z) : gmap Z Z := <[waddr p i := w]> m.

Lemma rd_write_eq m p i w : rd (write m p i w) p i = Some w.
Proof using. apply lookup_insert_eq. Qed.

Lemma rd_write_ne m p i w q j : p mod 4096 = 0 -> q mod 4096 = 0 -> 0 <= i < 512 -> 0 <= j < 512 ->
  (q, j) <> (p, i) -> rd (write m p i w) q j = rd m q j.
Proof using.
  intros Hp Hq Hi Hj Hne. apply lookup_insert_ne. intros E. apply Hne.
  destruct (waddr_inj p q i j) as [-> ->]; done.
Qed.

Lemma index_split q i : 0 <= i < 512 -> (q * 512 + i) / 512 = q /\ (q * 512 + i) mod 512 = i.
Proof using. intros. Z.to_euclidean_division_equations. lia. Qed.

Section writing.
Context {m : gmap Z Z} {base : Z} {T : gmap Z (nat * Z)} (H : hier m base T).

Lemma table_mod p e : T !! p = Some e -> p mod 4096 = 0.
Proof using H. intros Hp. apply (hier_frame _ _ _ H _ _ Hp). Qed.

Lemma rd_write_table p e i w q f j : T !! p = Some e -> T !! q = Some f -> 0 <= i < 512 -> 0 <= j < 512 ->
  (q, j) <> (p, i) -> rd (write m p i w) q j = rd m q j.
Proof using H. intros Hp Hq ? ? ?. apply rd_write_ne; eauto using table_mod. Qed.

Lemma rd_write_Some p e i w q f j : T !! p = Some e -> T !! q = Some f -> 0 <= i < 512 -> 0 <= j < 512 ->
  is_Some (rd (write m p i w) q j).
Proof using H.
  intros Hp Hq Hi Hj. destruct (decide ((q, j) = (p, i))) as [[= -> ->]|Hne].
  - rewrite rd_write_eq. eauto.
  - rewrite (rd_write_table p e i w q f j) by done. eapply (hier_words _ _ _ H); eauto.
Qed.

(** Memory outside the tables does not matter. *)
Lemma hier_outside m' : (forall p e i, T !! p = Some e -> 0 <= i < 512 -> rd m' p i = rd m p i) ->
  hier m' base T /\ forall V, 0 <= V < 512 ^ 4 -> translate m' base V = translate m base V.
Proof using H.
  intros Hm'. split.
  - destruct H as [Hb Hf Hl Hw Hc Hp Hi]. split; [done..| | | |done].
    + intros p e i HT Hr. rewrite (Hm' p e i) by done. eauto.
    + intros p n q i w HT Hr. rewrite (Hm' p _ i HT Hr). eauto.
    + intros p n q HT Hne. destruct (Hp p n q HT Hne) as (pp & w & HT' & Hr & ?). exists pp, w.
      rewrite (Hm' pp _ _ HT') by (apply Z.mod_pos_bound; done). done.
  - intros V HV. apply (translate_local H m' base 3 0 (if decide (index V 3 = 0) then 1 else 0)).
    + done.
    + apply H.
    + by case_decide.
    + eauto.
    + intros [_ Hi]. case_decide; lia.
Qed.

(** An entry of the lowest level maps or unmaps one page. *)
Lemma hier_leaf p q i w : T !! p = Some (0%nat, q) -> 0 <= i < 512 ->
  hier (write m p i w) base T /\ forall V, 0 <= V < 512 ^ 4 -> translate (write m p i w) base V =
    if decide (V = q * 512 + i) then (if present w then Some w else None) else translate m base V.
Proof using H.
  intros Hp Hi.
  assert (hier (write m p i w) base T) as H'.
  { destruct H as [Hb Hf Hl Hw Hc Hpa Hin]. split; [done..| | | |done].
    - intros. by eapply rd_write_Some.
    - intros p' n q' i' w' HT Hr. rewrite (rd_write_table p _ i w p' _ i' Hp HT Hi Hr) by congruence. eauto.
    - intros p' n q' HT Hne. destruct (Hpa p' n q' HT Hne) as (pp & w' & HT' & Hr & ?). exists pp, w'.
      by rewrite (rd_write_table p _ i w pp _ _ Hp HT' Hi) by (congruence || apply Z.mod_pos_bound; done). }
  split; [done|]. intros V HV. case_decide as HE.
  - destruct (index_split q i Hi) as [Hq1 Hq2]. rewrite <- HE in Hq1, Hq2.
    assert (pre V 0 = q) as Hpre by (unfold pre; by change (512 ^ (Z.of_nat 0 + 1)) with 512).
    assert (index V 0 = i) as Hix by (unfold index; change (512 ^ Z.of_nat 0) with 1; by rewrite Z.div_1_r).
    rewrite (translate_via H' V 0 p HV) by (by rewrite Hpre). cbn [lookup_from].
    by rewrite Hix, rd_write_eq.
  - apply (translate_local H _ p 0 q i); [done..| |].
    + intros p' e i' HT Hr Hne. by eapply rd_write_table.
    + intros [E1 E2]. apply HE. by rewrite (page_number V), E1, E2.
Qed.
End writing.

Section linking.
Context {m : gmap Z Z} {base : Z} {T : gmap Z (nat * Z)} (H : hier m base T).

(** No table hangs from an entry that is not present. *)
Lemma no_table_below p n q i w c : T !! p = Some (S n, q) -> 0 <= i < 512 -> rd m p i = Some w ->
  present w = false -> T !! c <> Some (n, q * 512 + i).
Proof using H.
  intros Hp Hi Hw Hpr Hc.
  assert (c <> base) as Hne.
  { intros ->. rewrite (hier_base _ _ _ H) in Hc. injection Hc as <- _.
    pose proof (hier_level _ _ _ H _ _ _ Hp). lia. }
  destruct (hier_parent _ _ _ H c n _ Hc Hne) as (pp & w' & HT & Hr & Hpr' & _).
  destruct (index_split q i Hi) as [E1 E2]. rewrite E1 in HT. rewrite E2 in Hr.
  rewrite (hier_inj _ _ _ H _ _ _ HT Hp) in Hr. congruence.
Qed.

(** A translation through an entry without a table, or with an empty one, fails. *)
Lemma translate_absent p n q i w V : T !! p = Some (S n, q) -> rd m p i = Some w -> 0 <= V < 512 ^ 4 ->
  pre V (S n) = q -> index V (S n) = i ->
  (present w = true -> forall j, 0 <= j < 512 -> exists x, rd m (addr w) j = Some x /\ present x = false) ->
  translate m base V = None.
Proof using H.
  intros Hp Hw HV E1 E2 Hempty. rewrite (translate_via H V (S n) p HV) by (by rewrite E1).
  cbn [lookup_from]. rewrite E2, Hw. cbn. destruct (present w) eqn:Hpr; [|done].
  destruct (Hempty eq_refl _ (index_range V n)) as (x & Hx & Hxp).
  destruct n; cbn [lookup_from]; rewrite Hx; cbn; by rewrite Hxp.
Qed.

(** An empty table [f] is hung into a free entry: no translation changes. *)
Lemma hier_link p n q i w0 f w : T !! p = Some (S n, q) -> 0 <= i < 512 ->
  rd m p i = Some w0 -> present w0 = false ->
  frame_ok width f -> T !! f = None -> (forall j, 0 <= j < 512 -> rd m f j = Some 0) ->
  present w = true -> addr w = f ->
  hier (write m p i w) base (<[f := (n, q * 512 + i)]> T)
  /\ forall V, 0 <= V < 512 ^ 4 -> translate (write m p i w) base V = translate m base V.
Proof using H.
  intros Hp Hi Hw0 Hp0 Hf HTf Hz Hpw Haw.
  assert (forall j, 0 <= j < 512 -> rd (write m p i w) f j = Some 0) as Hz'.
  { intros j Hj. rewrite rd_write_ne; [by apply Hz| | |done|done|intros [= -> ->]; congruence].
    - eapply table_mod, Hp. done. - apply Hf. }
  assert (hier (write m p i w) base (<[f := (n, q * 512 + i)]> T)) as H'.
  { pose proof (no_table_below p n q i w0) as Hno.
    destruct H as [Hb Hfr Hl Hws Hc Hpa Hin]. split.
    - rewrite lookup_insert_ne by congruence. done.
    - intros p' e [[<- _]|[_ ?]]%lookup_insert_Some; eauto.
    - intros p' n' q' [[_ [= <- _]]|[_ ?]]%lookup_insert_Some; [pose proof (Hl _ _ _ Hp); lia|eauto].
    - intros p' e j [[<- _]|[_ HT]]%lookup_insert_Some Hj; [rewrite Hz' by done; eauto|].
      by eapply (rd_write_Some H).
    - intros p' n' q' j w' [[<- [= -> <-]]|[_ HT]]%lookup_insert_Some Hj Hr Hpr.
      { rewrite Hz' in Hr by done. by simplify_eq. }
      destruct (decide ((p', j) = (p, i))) as [[= -> ->]|Hne].
      + rewrite rd_write_eq in Hr. simplify_eq. apply lookup_insert_eq.
      + rewrite (rd_write_table H p _ i w p' _ j Hp HT Hi Hj Hne) in Hr.
        pose proof (Hc _ _ _ _ _ HT Hj Hr Hpr) as Hch. rewrite lookup_insert_ne; [done|congruence].
    - intros p' n' q' [[<- [= <- <-]]|[Hne HT]]%lookup_insert_Some Hnb.
      + destruct (index_split q i Hi) as [E1 E2]. exists p, w. rewrite E1, E2.
        rewrite lookup_insert_ne by congruence. by rewrite rd_write_eq.
      + destruct (Hpa _ _ _ HT Hnb) as (pp & w' & HT' & Hr & Hpr & Ha). exists pp, w'.
        rewrite lookup_insert_ne by congruence. split; [done|]. split; [|done].
        rewrite (rd_write_table H p _ i w pp _ _ Hp HT' Hi); [done|by apply Z.mod_pos_bound|].
        intros [= -> E2]. rewrite E2 in Hr. congruence.
    - intros p' p'' e [[<- <-]|[? HT]]%lookup_insert_Some [[<- ?]|[? HT']]%lookup_insert_Some;
        [done|by destruct (Hno p'')| |eauto]. subst. by destruct (Hno p'). }
  split; [done|]. intros V HV.
  destruct (decide (pre V (S n) = q /\ index V (S n) = i)) as [[E1 E2]|Hnot].
  - rewrite (translate_absent p n q i w0 V) by (done || congruence).
    assert (f <> p) by congruence. subst f.
    rewrite (translate_via H' V (S n) p HV) by (rewrite lookup_insert_ne by done; by rewrite E1).
    cbn [lookup_from]. rewrite E2, rd_write_eq. cbn. rewrite Hpw.
    destruct n; cbn [lookup_from]; by rewrite (Hz' _ (index_range V _)).
  - apply (translate_local H _ p (S n) q i); [done..| |done].
    intros p' e j HT Hj Hne. by eapply (rd_write_table H).
Qed.

(** An empty table is taken out of the hierarchy: no translation changes. *)
Lemma hier_unlink p n q i w w' : T !! p = Some (S n, q) -> 0 <= i < 512 ->
  rd m p i = Some w -> present w = true ->
  (forall j, 0 <= j < 512 -> exists x, rd m (addr w) j = Some x /\ present x = false) -> present w' = false ->
  hier (write m p i w') base (delete (addr w) T)
  /\ forall V, 0 <= V < 512 ^ 4 -> translate (write m p i w') base V = translate m base V.
Proof using H.
  intros Hp Hi Hw Hpw Hempty Hpw'.
  assert (hier (write m p i w') base (delete (addr w) T)) as H'.
  { pose proof (hier_child _ _ _ H _ _ _ _ _ Hp Hi Hw Hpw) as HTc.
    assert (addr w <> base) as Hcb.
    { eapply (hier_not_base H); [done|]. pose proof (hier_level _ _ _ H _ _ _ Hp). lia. }
    assert (addr w <> p) as Hcp by (intros E; rewrite E in HTc; simplify_eq; lia).
    destruct H as [Hb Hfr Hl Hws Hc Hpa Hin]. split.
    - by rewrite lookup_delete_ne.
    - intros p' e [_ ?]%lookup_delete_Some. eauto.
    - intros p' n' q' [_ ?]%lookup_delete_Some. eauto.
    - intros p' e j [_ HT]%lookup_delete_Some Hj. by eapply (rd_write_Some H).
    - intros p' n' q' j x [Hne HT]%lookup_delete_Some Hj Hr Hpr.
      destruct (decide ((p', j) = (p, i))) as [[= -> ->]|Hne'].
      { rewrite rd_write_eq in Hr. simplify_eq. congruence. }
      rewrite (rd_write_table H p _ i w' p' _ j Hp HT Hi Hj Hne') in Hr.
      pose proof (Hc _ _ _ _ _ HT Hj Hr Hpr) as Hch.
      rewrite lookup_delete_ne; [done|]. intros E. rewrite <- E, HTc in Hch. injection Hch as E1 E2.
      subst n'. apply Hne'. assert (q' = q /\ j = i) as [-> ->] by lia.
      by rewrite (Hin _ _ _ HT Hp).
    - intros p' n' q' [Hne HT]%lookup_delete_Some Hnb.
      destruct (Hpa _ _ _ HT Hnb) as (pp & x & HT' & Hr & Hpr & Ha). exists pp, x.
      assert (pp <> addr w).
      { intros ->. destruct (Hempty (q' mod 512)) as (y & Hy & Hyp); [by apply Z.mod_pos_bound|congruence]. }
      rewrite lookup_delete_ne by done. split; [done|]. split; [|done].
      rewrite (rd_write_table H p _ i w' pp _ _ Hp HT' Hi); [done|by apply Z.mod_pos_bound|].
      intros [= -> E2]. rewrite E2 in Hr. congruence.
    - intros p' p'' e [_ ?]%lookup_delete_Some [_ ?]%lookup_delete_Some. eauto. }
  split; [done|]. intros V HV.
  destruct (decide (pre V (S n) = q /\ index V (S n) = i)) as [[E1 E2]|Hnot].
  - rewrite (translate_absent p n q i w V) by (done || congruence).
    assert (addr w <> p) as Hcp.
    { intros E. pose proof (hier_child _ _ _ H _ _ _ _ _ Hp Hi Hw Hpw) as HTc.
      rewrite E in HTc. simplify_eq. lia. }
    rewrite (translate_via H' V (S n) p HV) by (rewrite lookup_delete_ne by done; by rewrite E1).
    cbn [lookup_from]. rewrite E2, rd_write_eq. cbn. by rewrite Hpw'.
  - apply (translate_local H _ p (S n) q i); [done..| |done].
    intros p' e j HT Hj Hne. by eapply (rd_write_table H).
Qed.
End linking.

(** *** The walk of the code *)

(** The entries of [path] above level [k] point to the tables of the path of [V]. *)
Definition path_ok (T : gmap Z (nat * Z)) (V : Z) (path : list PageTableEntry) (k : nat) : Prop :=
  zlen path = 5 /\ forall j : nat, (k <= j <= 3)%nat ->
    exists e, aget path (Z.of_nat j + 1) = Some e /\ T !! get_address width e = Some (j, pre V j).

Lemma path_set T V path path' k e : path_ok T V path k -> aset path (Z.of_nat k) e = Some path' ->
  path_ok T V path' k.
Proof using.
  intros [Hlen Hp] Hset. split; [by rewrite (aset_len _ _ _ _ Hset)|].
  intros j Hj. destruct (Hp j Hj) as (e' & He' & HT). exists e'. split; [|done].
  rewrite <- He'. eapply aget_aset_ne, Hset. lia.
Qed.

Lemma path_extend T V path path' k e : path_ok T V path (S k) -> aset path (Z.of_nat (S k)) e = Some path' ->
  T !! get_address width e = Some (k, pre V k) -> path_ok T V path' k.
Proof using.
  intros Hok Hset HT. pose proof (path_set _ _ _ _ _ _ Hok Hset) as [Hlen Hp]. split; [done|].
  intros j Hj. destruct (decide (j = k)) as [->|]; [|apply Hp; lia].
  exists e. split; [|done]. replace (Z.of_nat k + 1) with (Z.of_nat (S k)) by lia.
  by apply (aget_aset_eq _ _ _ _ Hset).
Qed.

Lemma entry_rd m npte p n i : frame_ok width p -> 0 <= i < 512 -> (n <= 3)%nat ->
  entry m (mkPt npte (physical_to_virtual_address p) (Z.of_nat n + 1)) i
  = w ← rd m p i; Some (mkPte w (Z.of_nat n)).
Proof using Hwidth.
  intros Hp Hi Hn. unfold entry. change PT_MAX_SIZE with 512.
  destruct (512 <=? i) eqn:E; bool_prop; [lia|]. cbn [pt_addr pt_level].
  rewrite p2v by (eapply frame_small; eauto). fold (waddr p i). fold (rd m p i).
  rewrite wrap_small by word_lia. by replace (Z.of_nat n + 1 - 1) with (Z.of_nat n) by lia.
Qed.

Lemma table_rd m npte p n i w : frame_ok width p -> 0 <= i < 512 -> (S n <= 3)%nat -> rd m p i = Some w ->
  entry_as_page_table width m (mkPt npte (physical_to_virtual_address p) (Z.of_nat (S n) + 1)) i
  = Some (mkPt w (physical_to_virtual_address (addr w)) (Z.of_nat n + 1)).
Proof using Hwidth.
  intros Hp Hi Hn Hw. unfold entry_as_page_table. change PT_MAX_SIZE with 512.
  destruct (512 <=? i) eqn:E; bool_prop; [lia|]. rewrite entry_rd by done. rewrite Hw. cbn [mbind option_bind pt_level native_entry].
  rewrite wrap_small by word_lia. do 2 f_equal. lia.
Qed.

Lemma present_bit w l : is_present (mkPte w l) = present w.
Proof using. unfold is_present. by rewrite Bits.bit_check_spec. Qed.

(** What the walk finds: it stops at the entry [w] of level [k]. *)
Record found (m : gmap Z Z) (T : gmap Z (nat * Z)) (V off : Z) (k : nat) (w : Z)
    (r0 r : PageTableAccess) : Prop := {
  found_path : path_ok T V (pta_path r) k;
  found_word : exists p, T !! p = Some (k, pre V k) /\ rd m p (index V k) = Some w;
  found_entry : aget (pta_path r) (Z.of_nat k) = Some (mkPte w (Z.of_nat k));
  found_result : r = mkPta (if present w then OKAY else PAGE_TABLE_ENTRY_MISSING) (pta_path r) (Z.of_nat k)
    (pt_leak_map r0) (if present w then u64 (addr w + off) else physical_address r0) (pte_after r0);
  found_leaf : present w = true -> k = 0%nat;
}.

Lemma access_loop_step fuel m v (n : nat) pta pt pte : (n <= 3)%nat ->
  access_loop width (S fuel) m v (page_shift (Z.of_nat n)) pta pt pte =
    pte ← entry m pt (index (page v) n);
    path ← aset (pta_path pta) (pte_level pte) pte;
    let pta := set_path pta path in
    if negb (is_present pte) then Some (set_status pta PAGE_TABLE_ENTRY_MISSING (pte_level pte))
    else
      pt ← entry_as_page_table width m pt (index (page v) n);
      access_loop width fuel m v (page_shift (Z.of_nat n) - PAGE_TRANSLATION_OFFSET_DIFF) pta pt pte.
Proof using.
  intros Hn. cbn [access_loop]. rewrite page_shift_index by done.
  destruct (_ <=? _) eqn:E; [done|]. bool_prop. unfold page_shift in E.
  change PAGE_TRANSLATION_OFFSET_DIFF with 9 in E. lia.
Qed.

Lemma access_loop_spec m base T v : hier m base T -> forall n p npte pta pte,
  T !! p = Some (n, pre (page v) n) -> path_ok T (page v) (pta_path pta) n ->
  exists r k w, access_loop width (S (S n)) m v (page_shift (Z.of_nat n)) pta
       (mkPt npte (physical_to_virtual_address p) (Z.of_nat n + 1)) pte = Some r
    /\ (k <= n)%nat /\ found m T (page v) (get_page_offset v) k w pta r
    /\ lookup_from n m p (page v) = (if present w then Some w else None).
Proof using Hwidth.
  intros H. induction n as [|n IH]; intros p npte pta pte HT Hpath;
    pose proof (hier_frame _ _ _ H _ _ HT) as Hf; pose proof (hier_level _ _ _ H _ _ _ HT) as Hl;
    rewrite access_loop_step by done; cbn [lookup_from];
    match type of HT with _ = Some (?l, _) =>
      destruct (hier_words _ _ _ H _ _ (index (page v) l) HT (index_range _ _)) as [w Hw] end;
    rewrite entry_rd by (done || apply index_range); rewrite Hw; cbn [mbind option_bind pte_level].
  all: match goal with |- context [aset ?a ?l ?e] =>
    destruct (aset_in a l e) as [path Hset]; [rewrite (proj1 Hpath); lia|] end.
  all: rewrite Hset; cbn [mbind option_bind]; pose proof (path_set _ _ _ _ _ _ Hpath Hset) as Hpath';
    pose proof (aget_aset_eq _ _ _ _ Hset) as Hget; rewrite present_bit.
  all: destruct (present w) eqn:Hpr; cbn [negb];
    [|eexists _, _, w; split; [done|]; split; [reflexivity|]; rewrite Hpr; split; [|done];
      split; rewrite ?Hpr; cbn; done || eauto].
  - unfold entry_as_page_table. change PT_MAX_SIZE with 512.
    destruct (512 <=? _) eqn:E; [bool_prop; pose proof (index_range (page v) 0); lia|].
    rewrite entry_rd by (done || apply index_range). rewrite Hw. cbn [mbind option_bind pt_level].
    change (access_loop width 1 m v (page_shift (Z.of_nat 0) - PAGE_TRANSLATION_OFFSET_DIFF)) with
      (access_loop width 1 m v 3). cbn [access_loop]. change (PHYSICAL_PAGE_OFFSET <=? 3) with false. cbv iota.
    destruct (aset_in path 0 (mkPte w (Z.of_nat 0))) as [path2 Hset2]; [rewrite (proj1 Hpath'); lia|].
    cbn [pta_path set_path]. rewrite Hset2. cbn [mbind option_bind].
    eexists _, 0%nat, w. split; [done|]. split; [done|]. rewrite Hpr. split; [|done].
    split; rewrite ?Hpr; cbn [pta_path].
    + by eapply path_set.
    + eauto.
    + by apply (aget_aset_eq _ _ _ _ Hset2).
    + done.
    + done.
  - rewrite (table_rd _ _ _ _ _ w) by (done || apply index_range). cbn [mbind option_bind].
    replace (page_shift (Z.of_nat (S n)) - PAGE_TRANSLATION_OFFSET_DIFF) with (page_shift (Z.of_nat n))
      by (unfold page_shift; change PAGE_TRANSLATION_OFFSET_DIFF with 9; lia).
    pose proof (walk_child H _ _ _ _ HT Hw Hpr) as HT'.
    destruct (IH (addr w) w (set_path pta path) (mkPte w (Z.of_nat (S n))) HT') as (r & k & w' & Hr & Hk & Hfound & Hl').
    { eapply path_extend; [exact Hpath|exact Hset|exact HT']. }
    exists r, k, w'. split; [exact Hr|]. split; [lia|]. split; [|done].
    destruct Hfound as [F1 F2 F3 F4 F5]. by split.
Qed.

(** The walk agrees with the translation. *)
Lemma access_spec m base T v : hier m base T -> exists r k w,
  access_page_hierarchy width m (interp_as_base_page_table base) v = Some r
  /\ (k <= 3)%nat /\ found m T (page v) (get_page_offset v) k w new_pta r
  /\ translate m base (page v) = if present w then Some w else None.
Proof using Hwidth.
  intros H. unfold access_page_hierarchy.
  destruct (aset_in (pta_path new_pta) 4 (to_page_table_entry (interp_as_base_page_table base)))
    as [path Hset]; [done|]. rewrite Hset. cbn [mbind option_bind].
  pose proof (hier_base _ _ _ H) as Hb. pose proof (hier_frame _ _ _ H _ _ Hb) as Hf.
  destruct (access_loop_spec m base T v H 3 base base (set_path new_pta path) empty_pte)
    as (r & k & w & Hr & Hk & Hfound & Hl).
  - rewrite pre_top by apply page_range. done.
  - split; [by apply (aset_len _ _ _ _ Hset)|]. intros j Hj. assert (j = 3)%nat as -> by lia.
    eexists. split; [exact (aget_aset_eq _ _ _ _ Hset)|].
    unfold to_page_table_entry, interp_as_base_page_table. cbn [npte pt_level].
    rewrite base_address by done. rewrite pre_top by apply page_range. done.
  - exists r, k, w. split; [exact Hr|]. split; [done|]. split; [|done].
    destruct Hfound as [F1 F2 F3 F4 F5]. by split.
Qed.
End hier.
#[global] Arguments addr : simpl never.
End Hier.
Import Hier.

(** ** What paging expects of the physical memory manager

    [managed] are the page frames the manager hands out; [fa_taken] those it regards as in use. *)
Class FrameLaws (A : Type) `{FrameAllocator A} (managed : Z -> Prop) := {
  fa_ok : A -> Prop;
  fa_taken : A -> Z -> Prop;
  fa_allocate_law : forall a, fa_ok a -> exists r a', fa_allocate a = Some (r, a') /\ fa_ok a' /\
    match r with
    | Some p => managed p /\ ~ fa_taken a p /\ forall q, managed q -> fa_taken a' q <-> q = p \/ fa_taken a q
    | None => forall q, managed q -> fa_taken a q /\ fa_taken a' q
    end;
  fa_free_law : forall a p, fa_ok a -> managed p -> fa_taken a p -> exists a', fa_free a p = Some (true, a')
    /\ fa_ok a' /\ forall q, managed q -> fa_taken a' q <-> q <> p /\ fa_taken a q;
}.

(** ** The operations *)
Module PageOps.
Section ops.
Context (width : Z) (Hwidth : 12 <= width <= 47).
Context {A : Type} `{FrameLaws A managed} (Hmanaged : forall p, managed p -> frame_ok width p).

(** A consistent machine: the tables [T] hang from [base], every one but the base table is a page frame
    of the physical memory manager that it regards as in use, and all page frames are mapped. *)
Record sys (s : machine A) (base : Z) (T : gmap Z (nat * Z)) : Prop := {
  sys_hier : hier width (words s) base T;
  sys_pmm : fa_ok (pmm s);
  sys_managed : forall p e, T !! p = Some e -> p <> base -> managed p /\ fa_taken (pmm s) p;
  sys_base : managed base -> fa_taken (pmm s) base;
  sys_mapped : forall p i, managed p -> 0 <= i < 512 -> is_Some (rd (words s) p i);
}.

Lemma zero_words_spec n m q : (forall i, 0 <= i < Z.of_nat n -> is_Some (m !! (q + 8 * i))) ->
  exists m', zero_words n m q = Some m' /\ (forall i, 0 <= i < Z.of_nat n -> m' !! (q + 8 * i) = Some 0)
    /\ forall a, (forall i, 0 <= i < Z.of_nat n -> a <> q + 8 * i) -> m' !! a = m !! a.
Proof using.
  revert m q. induction n as [|n IH]; intros m q Hm; cbn [zero_words].
  - exists m. split; [done|]. split; [lia|done].
  - destruct (Hm 0) as [w Hw]; [lia|]. rewrite Z.mul_0_r, Z.add_0_r in Hw. rewrite Hw.
    destruct (IH (<[q := 0]> m) (q + 8)) as (m' & E & Hz & Hr).
    { intros i Hi. rewrite lookup_insert_ne by lia. replace (q + 8 + 8 * i) with (q + 8 * (i + 1)) by lia.
      apply Hm. lia. }
    exists m'. split; [done|]. split.
    + intros i Hi. destruct (decide (i = 0)) as [->|].
      * rewrite Hr by lia. rewrite Z.mul_0_r, Z.add_0_r. apply lookup_insert_eq.
      * replace (q + 8 * i) with (q + 8 + 8 * (i - 1)) by lia. apply Hz. lia.
    + intros a Ha. rewrite Hr by (intros i Hi; specialize (Ha (i + 1)); lia).
      apply lookup_insert_ne. specialize (Ha 0). lia.
Qed.

Lemma zero_page_spec m p : frame_ok width p -> (forall i, 0 <= i < 512 -> is_Some (rd m p i)) ->
  exists m', zero_page m p = Some m' /\ (forall i, 0 <= i < 512 -> rd m' p i = Some 0)
    /\ forall q i, frame_ok width q -> q <> p -> 0 <= i < 512 -> rd m' q i = rd m q i.
Proof using Hwidth.
  intros Hp Hm. unfold zero_page. rewrite p2v by (eapply frame_small; eauto).
  destruct (zero_words_spec 512 m (HHDM_BEGIN + p) Hm) as (m' & E & Hz & Hr).
  exists m'. split; [done|]. split; [done|]. intros q i Hq Hne Hi. apply Hr.
  intros j Hj E'. apply Hne, (waddr_inj q p i j); [apply Hq|apply Hp|done|done|done].
Qed.

(** At most [n] of the managed page frames are free. *)
Definition exhausted (s : machine A) (n : nat) : Prop :=
  exists L : list Z, (length L <= n)%nat /\ forall q, managed q -> fa_taken (pmm s) q \/ q ∈ L.

Lemma exhausted_taken s s1 f n : exhausted s1 n ->
  (forall q, managed q -> fa_taken (pmm s1) q <-> q = f \/ fa_taken (pmm s) q) -> exhausted s (S n).
Proof using.
  intros (L & HL & Hall) Htk. exists (f :: L). split; [cbn; lia|]. intros q Hq.
  destruct (Hall q Hq) as [Hx|Hx]; [apply Htk in Hx as [->|]; [right; left|by left|done]|right; by right].
Qed.

Lemma exhausted_le s n n' : exhausted s n -> (n <= n')%nat -> exhausted s n'.
Proof using. intros (L & HL & Hall) Hle. exists L. split; [lia|done]. Qed.

(** Distinct free page frames bound the number. *)
Lemma not_exhausted s n F : NoDup F -> (n < length F)%nat ->
  (forall q, q ∈ F -> managed q /\ ~ fa_taken (pmm s) q) -> ~ exhausted s n.
Proof using.
  intros Hnd Hlen HF (L & HL & Hall).
  assert (F ⊆+ L) as Hsub%submseteq_length; [|lia].
  apply NoDup_submseteq; [done|]. intros q Hq. destruct (HF q Hq) as [Hm Hn]. by destruct (Hall q Hm).
Qed.

(** Writing an entry of a table on the path. *)
Lemma update_path m T base path V k j w : hier width m base T -> path_ok width T V path k ->
  (k <= j <= 3)%nat -> exists e p, aget path (Z.of_nat j + 1) = Some e /\ T !! p = Some (j, pre V j)
    /\ get_address width e = p
    /\ update m (table_of width e (Z.of_nat j + 1)) (index V j) w = Some (write m p (index V j) w).
Proof using Hwidth.
  intros H' [_ Hp] Hj. destruct (Hp j Hj) as (e & He & HT). exists e, (get_address width e).
  split; [done|]. split; [done|]. split; [done|].
  unfold update, table_of. cbn [pt_addr]. pose proof (hier_frame _ _ _ _ H' _ _ HT).
  rewrite p2v by (eapply frame_small; eauto). fold (waddr (get_address width e) (index V j)).
  destruct (hier_words _ _ _ _ H' _ _ (index V j) HT (index_range _ _)) as [x Hx]. unfold rd in Hx.
  by rewrite Hx.
Qed.

(** Reading an entry of a table on the path. *)
Lemma entry_path m T base e p j V i : hier width m base T -> T !! p = Some (j, pre V j) ->
  get_address width e = p -> 0 <= i < 512 ->
  entry m (table_of width e (Z.of_nat j + 1)) i = w ← rd m p i; Some (mkPte w (Z.of_nat j)).
Proof using Hwidth.
  intros H' HT <- Hi. apply (entry_rd width Hwidth).
  - by eapply hier_frame.
  - done.
  - by eapply hier_level.
Qed.

Lemma path_mono T T' V path k : T ⊆ T' -> path_ok width T V path k -> path_ok width T' V path k.
Proof using.
  intros Hsub [Hl Hp]. split; [done|]. intros j Hj. destruct (Hp j Hj) as (e & He & HT).
  exists e. split; [done|]. by eapply lookup_weaken.
Qed.

(** A table in use is never handed out. *)
Lemma sys_fresh s base T f : sys s base T -> managed f -> ~ fa_taken (pmm s) f -> T !! f = None.
Proof using.
  intros Hs Hf Hn. apply eq_None_not_Some. intros [e He]. apply Hn.
  destruct (decide (f = base)) as [->|]; [by apply (sys_base _ _ _ Hs)|].
  by eapply (sys_managed _ _ _ Hs).
Qed.

(** *** Giving back the new tables *)

(** [T] is [T0] with the new tables [L] of the path of [V], from level [i] up to below level [K]; apart from
    the entry on the path, a new table is empty. *)
Inductive grown (T0 : gmap Z (nat * Z)) (V : Z) (K : nat) (m : gmap Z Z) :
    nat -> gmap Z (nat * Z) -> list Z -> Prop :=
  | grown_none : grown T0 V K m K T0 []
  | grown_cons i T L f : grown T0 V K m (S i) T L -> T !! f = None -> managed f ->
      (forall j, 0 <= j < 512 -> j <> index V i -> exists x, rd m f j = Some x /\ present x = false) ->
      grown T0 V K m i (<[f := (i, pre V i)]> T) (f :: L).

Lemma grown_length T0 V K m i T L : grown T0 V K m i T L -> (K = length L + i)%nat.
Proof using. induction 1; cbn; lia. Qed.

Lemma grown_ext T0 V K m m' i T L : grown T0 V K m i T L ->
  (forall f j, f ∈ L -> 0 <= j < 512 -> rd m' f j = rd m f j) -> grown T0 V K m' i T L.
Proof using.
  induction 1 as [|i T L f Hg IH Hf Hm He]; intros Hext; constructor; [|done|done|].
  - apply IH. intros. apply Hext; [by right|done].
  - intros j Hj Hne. rewrite Hext by (done || left). eauto.
Qed.

Lemma grown_in T0 V K m i T L f : grown T0 V K m i T L -> f ∈ L -> managed f /\ is_Some (T !! f).
Proof using.
  induction 1 as [|i T L g Hg IH Hf Hm He]; [by intros []%not_elem_of_nil|].
  intros [->|[Hmf HT]%IH]%elem_of_cons; [by rewrite lookup_insert_eq; eauto|].
  split; [done|]. destruct (decide (f = g)) as [->|]; [by rewrite lookup_insert_eq|by rewrite lookup_insert_ne].
Qed.

(** Writing the entry on the path keeps this. *)
Lemma grown_write T0 V K m i T L p k w : grown T0 V K m i T L -> p mod 4096 = 0 ->
  (forall e, T !! p = Some e -> e.1 = k) -> grown T0 V K (write m p (index V k) w) i T L.
Proof using Hmanaged.
  intros Hg Hp. induction Hg as [|i T L f Hg IH Hf Hm He]; intros Hk; constructor; [|done|done|].
  - apply IH. intros e HT. apply Hk. rewrite lookup_insert_ne; [done|congruence].
  - intros j Hj Hne. rewrite rd_write_ne; [by apply He|done| |apply index_range|done|].
    { apply (Hmanaged f Hm). }
    intros [= -> E]. specialize (Hk (i, pre V i)). rewrite lookup_insert_eq in Hk. cbn in Hk.
    rewrite <- (Hk eq_refl) in E. done.
Qed.

Lemma set_leak_same pta : set_leak pta (pt_leak_map pta) = pta.
Proof using. by destruct pta. Qed.

(** The effect of taking an empty table out of the hierarchy and freeing its frame. *)
Lemma sys_unlink s base T p n q i w a : sys s base T -> T !! p = Some (S n, q) -> 0 <= i < 512 ->
  rd (words s) p i = Some w -> present w = true ->
  (forall j, 0 <= j < 512 -> exists x, rd (words s) (addr width w) j = Some x /\ present x = false) ->
  fa_ok a -> (forall x, managed x -> fa_taken a x <-> x <> addr width w /\ fa_taken (pmm s) x) ->
  sys (mkMachine A (write (words s) p i 0) a) base (delete (addr width w) T)
  /\ forall V, 0 <= V < 512 ^ 4 ->
       translate width (write (words s) p i 0) base V = translate width (words s) base V.
Proof using Hwidth.
  intros Hs Hp Hi Hw Hpr Hempty Hok Ht. pose proof (sys_hier _ _ _ Hs) as Hh.
  destruct (hier_unlink width Hh p n q i w 0 Hp Hi Hw Hpr Hempty eq_refl) as [Hh' Htr].
  split; [|done]. split; cbn [words pmm]; [done|done| | |].
  - intros c e [Hne HT]%lookup_delete_Some Hb. destruct (sys_managed _ _ _ Hs c e HT Hb) as [Hm Htk].
    split; [done|]. apply Ht; done.
  - intros Hb. apply Ht; [done|]. split; [|by apply Hs].
    eapply not_eq_sym, (hier_not_base width Hh).
    + eapply (hier_child _ _ _ _ Hh); eauto.
    + pose proof (hier_level _ _ _ _ Hh _ _ _ Hp). lia.
  - intros c j Hc Hj. destruct (decide ((c, j) = (p, i))) as [[= -> ->]|Hne].
    + rewrite rd_write_eq. eauto.
    + destruct (decide (waddr c j = waddr p i)) as [E|E].
      * unfold rd, write. rewrite E, lookup_insert_eq. eauto.
      * unfold rd, write. rewrite lookup_insert_ne by done. by apply Hs.
Qed.

(** The entry that refers to a table on the path. *)
Lemma entry_above m T base V i c p : hier width m base T -> T !! c = Some (i, pre V i) -> c <> base ->
  T !! p = Some (S i, pre V (S i)) ->
  exists w, rd m p (index V (S i)) = Some w /\ present w = true /\ addr width w = c.
Proof using.
  intros Hh HT Hne Hp. destruct (hier_parent _ _ _ _ Hh c i _ HT Hne) as (pp & w & Hpp & Hw & Hpr & Ha).
  destruct (pre_split V i) as [E1 E2]. rewrite <- E1 in Hpp. rewrite <- E2 in Hw.
  rewrite (hier_inj _ _ _ _ Hh _ _ _ Hpp Hp) in Hw. eauto.
Qed.

(** All words of the lowest new table are free. *)
Definition top_free (T : gmap Z (nat * Z)) (V : Z) (m : gmap Z Z) (i : nat) : Prop :=
  forall p, T !! p = Some (i, pre V i) -> exists x, rd m p (index V i) = Some x /\ present x = false.

Lemma grown_top T0 V K m base i T L f : grown T0 V K m i T (f :: L) -> hier width m base T ->
  top_free T V m i ->
  exists T1, T = <[f := (i, pre V i)]> T1 /\ grown T0 V K m (S i) T1 L /\ T1 !! f = None /\ managed f
    /\ forall j, 0 <= j < 512 -> exists x, rd m f j = Some x /\ present x = false.
Proof using.
  intros Hg Hh Htop. inversion Hg as [|i' T1 L' f' Hg1 Hf Hm He]; subst.
  exists T1. split; [done|]. split; [done|]. split; [done|]. split; [done|].
  intros j Hj. destruct (decide (j = index V i)) as [->|]; [|by apply He].
  apply Htop. apply lookup_insert_eq.
Qed.

Lemma rollback_spec base T0 v K : (K <= 3)%nat -> forall L i T s pta,
  grown T0 (page v) K (words s) i T L -> sys s base T -> path_ok width T (page v) (pta_path pta) i ->
  (L <> [] -> top_free T (page v) (words s) i) -> is_Some (T0 !! base) ->
  exists s', rollback width (length L) s v (Z.of_nat i + 1) pta = Some (pta, s') /\ sys s' base T0
    /\ (forall V, 0 <= V < 512 ^ 4 -> translate width (words s') base V = translate width (words s) base V)
    /\ forall q, managed q -> fa_taken (pmm s') q <-> fa_taken (pmm s) q /\ q ∉ L.
Proof using Hwidth Hmanaged.
  intros HK. set (V := page v). induction L as [|f L IH]; intros i T s pta Hg Hs Hpath Htop Hbase.
  { inversion Hg; subst. exists s. split; [done|]. split; [done|]. split; [done|].
    intros q _. split; [intros; split; [done|apply not_elem_of_nil]|by intros []]. }
  pose proof (sys_hier _ _ _ Hs) as Hh. pose proof (grown_length _ _ _ _ _ _ _ Hg) as Hlen. cbn in Hlen.
  destruct (grown_top _ _ _ _ _ _ _ _ _ Hg Hh (Htop ltac:(done))) as (T1 & -> & Hg1 & HT1 & Hm & Hempty).
  set (T := <[f := (i, pre V i)]> T1) in *.
  assert (T !! f = Some (i, pre V i)) as HTf by apply lookup_insert_eq.
  assert (f <> base) as Hfb by (eapply (hier_not_base width Hh); [done|lia]).
  destruct (update_path (words s) T base (pta_path pta) V i (S i) 0 Hh Hpath ltac:(lia))
    as (e & p & He & Hp & Hep & Hup).
  destruct (entry_above _ _ _ _ _ _ _ Hh HTf Hfb Hp) as (w & Hw & Hpr & Ha).
  destruct (fa_free_law (pmm s) f (sys_pmm _ _ _ Hs) Hm (proj2 (sys_managed _ _ _ Hs _ _ HTf Hfb)))
    as (a & Hfree & Hok & Htk).
  subst f. destruct (sys_unlink s base T p i _ _ w a Hs Hp (index_range V (S i)) Hw Hpr Hempty Hok Htk) as [Hs1 Htr1].
  replace (delete (addr width w) T) with T1 in Hs1 by (unfold T; by rewrite delete_insert_id || rewrite delete_insert_eq, delete_id).
  set (s1 := mkMachine A _ _) in Hs1.
  destruct (IH (S i) T1 s1 pta) as (s' & Hrun & Hs' & Htr & Htk').
  - apply grown_write; [done|by eapply (table_mod width Hh)|]. intros e' He'.
    assert (T !! p = Some e') as E by (unfold T; rewrite lookup_insert_ne; [done|congruence]).
    rewrite Hp in E. by simplify_eq.
  - done.
  - split; [apply Hpath|]. intros j Hj. destruct (proj2 Hpath j ltac:(lia)) as (e' & He' & HT').
    exists e'. split; [done|]. unfold T in HT'. rewrite lookup_insert_ne in HT'; [done|].
    intros E. rewrite <- E in HT'. unfold T in HTf. rewrite HTf in HT'. injection HT' as ?. lia.
  - intros _ p' Hp'. assert (p' = p) as ->.
    { eapply (hier_inj _ _ _ _ Hh); [|done]. unfold T. rewrite lookup_insert_ne; [done|congruence]. }
    exists 0. split; [apply rd_write_eq|done].
  - done.
  - exists s'. split.
    + cbn [length rollback]. replace (Z.of_nat i + 1) with (Z.of_nat (S i)) by lia.
      rewrite He. cbn [mbind option_bind]. rewrite page_shift_index by lia. fold V.
      rewrite (entry_path _ T base e p (S i) V) by (done || apply index_range). rewrite Hw. cbn [mbind option_bind].
      rewrite addr_level, Hfree. cbn [mbind option_bind]. rewrite Hup. cbn [mbind option_bind].
      rewrite set_leak_same. replace (Z.of_nat (S i) + 1) with (Z.of_nat (S i) + 1) by lia. exact Hrun.
    + split; [done|]. split; [intros V' HV'; rewrite Htr by done; by apply Htr1|]. intros q Hq. rewrite Htk' by done. cbn [pmm].
      pose proof (Htk q Hq) as E. unfold s1. cbn [pmm]. rewrite E, elem_of_cons. tauto.
Qed.

(** *** Adding tables *)

(** The effect of hanging a fresh, zeroed page frame into the hierarchy. *)
Lemma sys_link s base T p n q i w0 f flags a m1 : sys s base T -> T !! p = Some (S n, q) -> 0 <= i < 512 ->
  rd (words s) p i = Some w0 -> present w0 = false -> 0 <= flags < 4096 -> Z.testbit flags 0 = true ->
  managed f -> ~ fa_taken (pmm s) f ->
  fa_ok a -> (forall x, managed x -> fa_taken a x <-> x = f \/ fa_taken (pmm s) x) ->
  (forall j, 0 <= j < 512 -> rd m1 f j = Some 0) ->
  (forall x j, frame_ok width x -> x <> f -> 0 <= j < 512 -> rd m1 x j = rd (words s) x j) ->
  let m2 := write m1 p i (Z.lor f flags) in
  sys (mkMachine A m2 a) base (<[f := (n, q * 512 + i)]> T)
  /\ (forall V, 0 <= V < 512 ^ 4 -> translate width m2 base V = translate width (words s) base V)
  /\ (forall j, 0 <= j < 512 -> rd m2 f j = Some 0).
Proof using Hwidth Hmanaged.
  intros Hs Hp Hi Hw0 Hpr0 Hfl Hflp Hmf Hnt Hok Htk Hz Hrest m2.
  pose proof (sys_hier _ _ _ Hs) as Hh. pose proof (sys_fresh _ _ _ _ Hs Hmf Hnt) as HTf.
  pose proof (Hmanaged f Hmf) as Hf. assert (p <> f) as Hpf by congruence.
  destruct (hier_outside width Hh m1) as [Hh1 Htr1].
  { intros x e j HT Hj. apply Hrest; [by eapply hier_frame|congruence|done]. }
  assert (rd m1 p i = Some w0) as Hw1.
  { rewrite <- Hw0. apply Hrest; [by eapply hier_frame|done|done]. }
  destruct (hier_link width Hh1 p n q i w0 f (Z.lor f flags)) as [Hh2 Htr2]; try done.
  { by rewrite (pointer_present width). }
  { by apply (pointer_addr width). }
  assert (forall j, 0 <= j < 512 -> rd m2 f j = Some 0) as Hz2.
  { intros j Hj. unfold m2. rewrite rd_write_ne; [by apply Hz| | |done|done|congruence].
    - by eapply (table_mod width Hh). - apply Hf. }
  split; [|split; [intros V HV; unfold m2; by rewrite Htr2, Htr1|done]].
  split; cbn [words pmm]; [exact Hh2|done| | |].
  - intros c e [[<- _]|[_ HT]]%lookup_insert_Some Hb.
    + split; [done|]. apply Htk; auto.
    + destruct (sys_managed _ _ _ Hs c e HT Hb) as [Hmc Htc]. split; [done|]. apply Htk; auto.
  - intros Hb. apply Htk; [done|]. right. by apply Hs.
  - intros c j Hc Hj. unfold m2. destruct (decide (waddr c j = waddr p i)) as [E|E].
    { unfold rd, write. rewrite E, lookup_insert_eq. eauto. }
    unfold write, rd. rewrite lookup_insert_ne by done. fold (rd m1 c j).
    destruct (decide (c = f)) as [->|]; [rewrite Hz by done; eauto|].
    rewrite Hrest by auto. by apply Hs.
Qed.

(** The result of mapping [V] to [w] in the state [s]. *)
Definition mapped (s s' : machine A) (base V w : Z) : Prop :=
  forall V', 0 <= V' < 512 ^ 4 -> translate width (words s') base V' =
    if decide (V' = V) then Some w else translate width (words s) base V'.

(** An entry of the lowest table is written. *)
Lemma sys_leaf s base T p V w : sys s base T -> T !! p = Some (0%nat, pre V 0) ->
  let s' := mkMachine A (write (words s) p (index V 0) w) (pmm s) in
  sys s' base T /\ forall V', 0 <= V' < 512 ^ 4 -> translate width (words s') base V' =
    if decide (V' = V) then (if present w then Some w else None) else translate width (words s) base V'.
Proof using Hwidth.
  intros Hs Hp s'. pose proof (sys_hier _ _ _ Hs) as Hh.
  destruct (hier_leaf width Hh p _ _ w Hp (index_range V 0)) as [Hh' Htr]. split.
  - destruct Hs as [? Hok Hm Hb Hmap]. split; cbn [words pmm s']; [done..|].
    intros c j Hc Hj. unfold rd, write. destruct (decide (waddr c j = waddr p (index V 0))) as [->|].
    + rewrite lookup_insert_eq. eauto.
    + rewrite lookup_insert_ne by done. by apply Hmap.
  - intros V' HV'. cbn [words s']. by rewrite Htr, <- page_number by done.
Qed.

Lemma sys_map s base T p V w : sys s base T -> T !! p = Some (0%nat, pre V 0) -> present w = true ->
  sys (mkMachine A (write (words s) p (index V 0) w) (pmm s)) base T
  /\ mapped s (mkMachine A (write (words s) p (index V 0) w) (pmm s)) base V w.
Proof using Hwidth.
  intros Hs Hp Hpr. destruct (sys_leaf s base T p V w Hs Hp) as [Hs' Htr]. split; [done|].
  intros V' HV'. by rewrite Htr, Hpr.
Qed.

(** What [allocate_loop] can answer at level [i] when the tables [T] are there and [L] of them are new. *)
Definition allocated (i : nat) (base V w : Z) (T0 T : gmap Z (nat * Z)) (L : list Z) (s s' : machine A)
    (pta r : PageTableAccess) : Prop :=
  (status r = status pta /\ level r = level pta /\ mapped s s' base V w /\ exists T', T ⊆ T' /\ sys s' base T'
     /\ (forall q, is_Some (T' !! q) -> is_Some (T !! q) \/ (managed q /\ ~ fa_taken (pmm s) q))
     /\ forall q, managed q -> fa_taken (pmm s') q <-> fa_taken (pmm s) q \/ is_Some (T' !! q))
  \/ (status r = ALLOC_ERROR /\ exhausted s i /\ sys s' base T0
     /\ (forall V', 0 <= V' < 512 ^ 4 -> translate width (words s') base V' = translate width (words s) base V')
     /\ forall q, managed q -> fa_taken (pmm s') q <-> fa_taken (pmm s) q /\ q ∉ L).

Lemma path_taken s base T q : sys s base T -> managed q -> is_Some (T !! q) -> fa_taken (pmm s) q.
Proof using.
  intros Hs Hq [e He]. destruct (decide (q = base)) as [->|]; [by apply (sys_base _ _ _ Hs)|].
  by eapply (sys_managed _ _ _ Hs).
Qed.

Section allocate.
Context (base v page_frame flags : Z) (T0 : gmap Z (nat * Z)) (K : nat) (HK : (K <= 3)%nat).
Context (Hfl : 0 <= flags < 4096) (Hflp : Z.testbit flags 0 = true) (Hbase : is_Some (T0 !! base)).
Let V := page v.

(** What holds before the entry of level [i] is written. *)
Record allocating (i : nat) (s : machine A) (T : gmap Z (nat * Z)) (L : list Z) (pta : PageTableAccess) : Prop := {
  ag_grown : grown T0 V K (words s) i T L;
  ag_sys : sys s base T;
  ag_path : path_ok width T V (pta_path pta) i;
  ag_top : top_free T V (words s) i;
  ag_level : level pta = Z.of_nat K;
}.

Lemma allocate_loop_0 s T L pta fuel : allocating 0 s T L pta ->
  exists r s', allocate_loop width (S (S fuel)) s v page_frame flags 0 pta = Some (r, s')
    /\ allocated 0 base V (Z.lor page_frame flags) T0 T L s s' pta r.
Proof using Hwidth HK Hfl Hflp Hbase.
  intros [Hg Hs Hpath Htop Hlev]. pose proof (sys_hier _ _ _ Hs) as Hh.
  destruct (update_path (words s) T base (pta_path pta) V 0 0 (Z.lor page_frame flags) Hh Hpath ltac:(lia))
    as (e & p & He & Hp & Hep & Hup).
  assert (present (Z.lor page_frame flags) = true) as Hpr.
  { unfold present. by rewrite Z.lor_spec, Hflp, orb_true_r. }
  destruct (sys_map s base T p V _ Hs Hp Hpr) as [Hs' Hmap].
  destruct (aset_in (pta_path pta) 0 (mkPte (Z.lor page_frame flags) 0)) as [path' Hset];
    [rewrite (proj1 Hpath); lia|].
  eexists _, _. split.
  - cbn [allocate_loop]. change (0 <? 0) with false. cbv iota.
    change (Z.of_nat 0) with 0 in *. rewrite He. cbn [mbind option_bind]. change (0 =? 0) with true. cbv iota.
    cbn [mbind option_bind]. pose proof (page_shift_index v 0 ltac:(lia)) as Ei.
    change (Z.of_nat 0) with 0 in Ei. rewrite Ei. unfold to_x86_64_flags. fold V. rewrite Hup.
    cbn [mbind option_bind]. rewrite Hset. cbn [mbind option_bind]. change (0 - 1 <? 0) with true. cbv iota. reflexivity.
  - left. split; [done|]. split; [done|]. split; [exact Hmap|]. exists T. split; [done|]. split; [done|]. split; [auto|].
    intros q Hq. cbn [pmm]. split; [auto|intros [|HT]; [done|by eapply path_taken]].
Qed.

Lemma allocate_step i s T L pta e p f a m1 path' : allocating (S i) s T L pta ->
  T !! p = Some (S i, pre V (S i)) -> get_address width e = p ->
  fa_ok a -> managed f -> ~ fa_taken (pmm s) f ->
  (forall q, managed q -> fa_taken a q <-> q = f \/ fa_taken (pmm s) q) ->
  (forall j, 0 <= j < 512 -> rd m1 f j = Some 0) ->
  (forall x j, frame_ok width x -> x <> f -> 0 <= j < 512 -> rd m1 x j = rd (words s) x j) ->
  aset (pta_path pta) (Z.of_nat (S i)) (mkPte (Z.lor f flags) (Z.of_nat (S i))) = Some path' ->
  let s' := mkMachine A (write m1 p (index V (S i)) (Z.lor f flags)) a in
  allocating i s' (<[f := (i, pre V i)]> T) (f :: L) (set_path pta path')
  /\ (forall V', 0 <= V' < 512 ^ 4 -> translate width (words s') base V' = translate width (words s) base V').
Proof using Hwidth Hmanaged HK Hfl Hflp Hbase.
  intros [Hg Hs Hpath Htop Hlev] Hp Hep Hok Hmf Hnt Htk Hz Hrest Hset s'.
  pose proof (sys_hier _ _ _ Hs) as Hh. destruct (Htop p Hp) as (w0 & Hw0 & Hpr0).
  pose proof (sys_fresh _ _ _ _ Hs Hmf Hnt) as HTf.
  destruct (sys_link s base T p i _ _ w0 f flags a m1 Hs Hp (index_range V (S i)) Hw0 Hpr0 Hfl Hflp Hmf Hnt Hok Htk Hz Hrest)
    as (Hs' & Htr & Hz').
  rewrite <- (pre_step V i) in Hs'. fold s' in Hs'. split; [|exact Htr].
  assert (<[f := (i, pre V i)]> T !! f = Some (i, pre V i)) as HTf' by apply lookup_insert_eq.
  split; [|exact Hs'| | |done].
  - apply grown_cons; [|done|done|intros j Hj _; exists 0; by rewrite Hz'].
    apply grown_write; [|by eapply (table_mod width Hh)|intros x Hx; rewrite Hp in Hx; by simplify_eq].
    eapply grown_ext; [done|]. intros g j Hin Hj. destruct (grown_in _ _ _ _ _ _ _ _ Hg Hin) as [Hmg [x Hx]].
    apply Hrest; [by apply Hmanaged|congruence|done].
  - cbn [pta_path set_path]. eapply path_extend; [|exact Hset|].
    + eapply path_mono; [|done]. by apply insert_subseteq.
    + rewrite addr_level, (pointer_addr width); auto.
  - intros p' Hp'. rewrite (hier_inj _ _ _ _ (sys_hier _ _ _ Hs') _ _ _ Hp' HTf'). exists 0.
    split; [apply Hz', index_range|done].
Qed.

Lemma allocate_loop_S fuel i s pta :
  allocate_loop width (S fuel) s v page_frame flags (Z.of_nat (S i)) pta =
    parent ← aget (pta_path pta) (Z.of_nat (S i) + 1);
    '(alloc, p) ← fa_allocate (pmm s);
    match alloc with
    | None =>
        '(pta, s) ← rollback width (Z.to_nat (level pta - Z.of_nat (S i))) (mkMachine A (words s) p) v
                      (Z.of_nat (S i) + 1) pta;
        Some (set_status pta ALLOC_ERROR (Z.of_nat (S i)), s)
    | Some f =>
        m ← zero_page (words s) f;
        m ← update m (table_of width parent (Z.of_nat (S i) + 1))
              (table_index v (page_shift (Z.of_nat (S i)))) (Z.lor f flags);
        path ← aset (pta_path pta) (Z.of_nat (S i)) (mkPte (Z.lor f flags) (Z.of_nat (S i)));
        allocate_loop width fuel (mkMachine A m p) v page_frame flags (Z.of_nat i) (set_path pta path)
    end.
Proof using HK.
  cbn [allocate_loop]. destruct (Z.of_nat (S i) <? 0) eqn:E; [bool_prop; lia|]. clear E.
  destruct (Z.of_nat (S i) =? 0) eqn:E; [bool_prop; lia|]. clear E.
  destruct (0 <? Z.of_nat (S i)) eqn:E; [|bool_prop; lia]. clear E.
  by replace (Z.of_nat (S i) - 1) with (Z.of_nat i) by lia.
Qed.

Lemma allocate_loop_spec extra i : forall s T L pta, allocating i s T L pta ->
  exists r s', allocate_loop width (S (S (i + extra))) s v page_frame flags (Z.of_nat i) pta = Some (r, s')
    /\ allocated i base V (Z.lor page_frame flags) T0 T L s s' pta r.
Proof using Hwidth Hmanaged HK Hfl Hflp Hbase.
  induction i as [|i IH]; intros s T L pta Hag; [by apply allocate_loop_0|].
  pose proof Hag as [Hg Hs Hpath Htop Hlev]. pose proof (sys_hier _ _ _ Hs) as Hh.
  pose proof (grown_length _ _ _ _ _ _ _ Hg) as HL. rewrite allocate_loop_S.
  destruct (proj2 Hpath (S i) ltac:(lia)) as (e & He & Hp). set (p := get_address width e) in *.
  rewrite He. cbn [mbind option_bind].
  destruct (fa_allocate_law (pmm s) (sys_pmm _ _ _ Hs)) as (r & a & Hal & Hok & Hr).
  rewrite Hal. cbn [mbind option_bind]. destruct r as [f|].
  - destruct Hr as (Hmf & Hnt & Htk). pose proof (Hmanaged f Hmf) as Hf.
    destruct (zero_page_spec (words s) f Hf (fun j => sys_mapped _ _ _ Hs f j Hmf)) as (m1 & Hzp & Hz & Hrest).
    rewrite Hzp. cbn [mbind option_bind].
    pose proof (sys_fresh _ _ _ _ Hs Hmf Hnt) as HTf.
    destruct (hier_outside width Hh m1) as [Hh1 _].
    { intros x e' j HT Hj. apply Hrest; [by eapply hier_frame|congruence|done]. }
    destruct (update_path m1 T base (pta_path pta) V (S i) (S i) (Z.lor f flags) Hh1 Hpath ltac:(lia))
      as (e2 & p2 & He2 & Hp2 & Hep2 & Hup). rewrite He in He2. injection He2 as <-. fold p in Hep2. subst p2.
    rewrite page_shift_index by lia. fold V. rewrite Hup. cbn [mbind option_bind].
    destruct (aset_in (pta_path pta) (Z.of_nat (S i)) (mkPte (Z.lor f flags) (Z.of_nat (S i)))) as [path' Hset];
      [rewrite (proj1 Hpath); lia|]. rewrite Hset. cbn [mbind option_bind].
    destruct (allocate_step i s T L pta e p f a m1 path' Hag Hp eq_refl Hok Hmf Hnt Htk Hz Hrest Hset) as [Hag' Htr].
    destruct (IH _ _ _ _ Hag') as (r & s' & Hrun & Hres). exists r, s'. split; [exact Hrun|].
    destruct Hres as [(E1 & E2 & Hmap & T' & Hsub & Hs' & Hfr & Htk')|(E1 & Hex & Hs' & Htr' & Htk')].
    + left. split; [done|]. split; [done|]. split.
      { intros V' HV'. rewrite (Hmap V' HV'). case_decide; [done|]. by apply Htr. }
      exists T'. split; [etransitivity; [by apply (insert_subseteq T f (i, pre V i))|done]|]. split; [done|]. split.
      { intros q [Hq|[Hmq Hq]]%Hfr; [|right; split; [done|]; cbn [pmm] in Hq; rewrite (Htk q Hmq) in Hq; tauto].
        destruct (decide (q = f)) as [->|]; [by right|]. left. by rewrite lookup_insert_ne in Hq. }
      intros q Hq. rewrite Htk' by done. cbn [pmm]. rewrite (Htk q Hq). split; [|tauto].
      intros [[->|]|]; [right|tauto..]. eapply lookup_weaken_is_Some; [|done]. rewrite lookup_insert_eq. eauto.
    + right. split; [done|]. split; [by eapply exhausted_taken|]. split; [done|]. split; [intros V' HV'; rewrite Htr' by done; by apply Htr|].
      intros q Hq. rewrite Htk' by done. cbn [pmm]. rewrite (Htk q Hq), elem_of_cons.
      split; [tauto|]. intros [Hq1 Hq2]. split; [tauto|]. intros [->|]; done.
  - set (s0 := mkMachine A (words s) a).
    assert (sys s0 base T) as Hs0.
    { destruct Hs as [? ? Hm Hb ?]. split; cbn [words pmm s0]; try done.
      - intros x e' HT Hne. destruct (Hm x e' HT Hne). split; [done|]. by apply Hr.
      - intros. apply Hr; auto. }
    destruct (rollback_spec base T0 v K HK L (S i) T s0 pta Hg Hs0 Hpath (fun _ => Htop) Hbase)
      as (s' & Hrun & Hs' & Htr & Htk).
    replace (Z.to_nat (level pta - Z.of_nat (S i))) with (length L) by lia.
    fold s0. rewrite Hrun. cbn [mbind option_bind]. eexists _, s'. split; [reflexivity|].
    right. split; [done|]. split; [exists []; split; [cbn; lia|intros q Hq; left; by apply Hr]|].
    split; [done|]. split; [done|]. intros q Hq. rewrite Htk by done.
    cbn [pmm s0]. destruct (Hr q Hq). tauto.
Qed.
End allocate.

(** *** Taking tables away *)

Lemma count_present_spec m T base e c V j n : hier width m base T -> T !! c = Some (j, pre V j) ->
  get_address width e = c -> forall i, 0 <= i -> i + Z.of_nat n <= 512 ->
  exists k, count_present n m (table_of width e (Z.of_nat j + 1)) i = Some k /\ 0 <= k
    /\ if decide (k = 0) then forall x, i <= x < i + Z.of_nat n -> exists w, rd m c x = Some w /\ present w = false
       else exists x w, 0 <= x < 512 /\ rd m c x = Some w /\ present w = true.
Proof using Hwidth.
  intros Hh Hc He. induction n as [|n IH]; intros i Hi Hn; cbn [count_present].
  { exists 0. split; [done|]. split; [done|]. rewrite decide_True by done. lia. }
  rewrite (entry_path m T base e c j V) by (done || lia).
  destruct (hier_words _ _ _ _ Hh c _ i Hc ltac:(lia)) as [w Hw]. rewrite Hw. cbn [mbind option_bind].
  destruct (IH (i + 1)) as (k & Hk & Hk0 & Hres); [lia|lia|]. rewrite Hk. cbn [mbind option_bind].
  rewrite present_bit. eexists. split; [reflexivity|]. destruct (present w) eqn:Hpr.
  - split; [lia|]. rewrite decide_False by lia. exists i, w. split; [lia|done].
  - split; [lia|]. rewrite Z.add_0_l. case_decide; [|done].
    intros x Hx. destruct (decide (x = i)) as [->|]; [eauto|]. apply Hres. lia.
Qed.

(** The tables of the path of [V] below level [i] are in use. *)
Definition pruned (T : gmap Z (nat * Z)) (m : gmap Z Z) (V : Z) (i : nat) : Prop :=
  forall p n, T !! p = Some (n, pre V n) -> (n < i)%nat ->
    exists x w, 0 <= x < 512 /\ rd m p x = Some w /\ present w = true.

(** What freeing tables leaves: the tables [T'], and the page frames of the others are free again. *)
Definition released (base V : Z) (i : nat) (T T' : gmap Z (nat * Z)) (s s' : machine A) : Prop :=
  T' ⊆ T /\ sys s' base T' /\ pruned T' (words s') V i
  /\ (forall V', 0 <= V' < 512 ^ 4 -> translate width (words s') base V' = translate width (words s) base V')
  /\ forall q, managed q -> fa_taken (pmm s') q <-> fa_taken (pmm s) q /\ (is_Some (T !! q) -> is_Some (T' !! q)).

(** One step of [free_loop] above level 0. *)
Lemma free_step base v T s pta n (i : nat) : (i < 3)%nat -> sys s base T ->
  path_ok width T (page v) (pta_path pta) i -> pruned T (words s) (page v) i ->
  exists s' T', free_loop width (S n) s v (Z.of_nat i + 1) pta = free_loop width n s' v (Z.of_nat i + 2) pta
    /\ path_ok width T' (page v) (pta_path pta) (S i) /\ released base (page v) (S i) T T' s s'.
Proof using Hwidth.
  intros Hi Hs Hpath Hpru. set (V := page v) in *. pose proof (sys_hier _ _ _ Hs) as Hh.
  destruct (proj2 Hpath i ltac:(lia)) as (ec & Hec & Hc). set (c := get_address width ec) in *.
  destruct (update_path (words s) T base (pta_path pta) V i (S i) 0 Hh Hpath ltac:(lia))
    as (e & p & He & Hp & Hep & Hup).
  replace (Z.of_nat (S i) + 1) with (Z.of_nat i + 1 + 1) in * by lia.
  assert (c <> base) as Hcb by (eapply (hier_not_base width Hh); [done|lia]).
  destruct (count_present_spec (words s) T base ec c V i 512 Hh Hc eq_refl 0) as (k & Hk & Hk0 & Hres); [lia|lia|].
  cbn [free_loop]. rewrite He, Hec. cbn [mbind option_bind].
  destruct (Z.of_nat i + 1 =? 0) eqn:E; [bool_prop; lia|]. clear E. rewrite Hk. cbn [mbind option_bind].
  replace (Z.of_nat i + 1 + 1) with (Z.of_nat i + 2) in * by lia.
  assert (path_ok width T V (pta_path pta) (S i)) as Hpath1
    by (split; [apply Hpath|intros j Hj; apply (proj2 Hpath); lia]).
  case_decide as Hk'.
  - subst k. change (0 =? 0) with true. cbv iota. fold c.
    destruct (sys_managed _ _ _ Hs _ _ Hc Hcb) as [Hmc Htc].
    destruct (fa_free_law (pmm s) c (sys_pmm _ _ _ Hs) Hmc Htc) as (a & Hfree & Hok & Htk).
    rewrite Hfree. cbn [mbind option_bind negb].
    replace (page_shift (Z.of_nat i + 1)) with (page_shift (Z.of_nat (S i))) by (f_equal; lia).
    rewrite page_shift_index by lia. fold V. rewrite Hup. cbn [mbind option_bind].
    destruct (entry_above _ _ _ _ _ _ _ Hh Hc Hcb Hp) as (w & Hw & Hpr & Ha). rewrite <- Ha in Htk.
    destruct (sys_unlink s base T p i _ _ w a Hs Hp (index_range V (S i)) Hw Hpr) as [Hs1 Htr1]; [|done|done|].
    { intros x Hx. rewrite Ha. by apply Hres. }
    rewrite Ha in Hs1, Htk. eexists _, (delete c T). split; [reflexivity|]. split.
    { split; [apply Hpath|]. intros j Hj. destruct (proj2 Hpath j ltac:(lia)) as (e' & He' & HT').
      exists e'. split; [done|]. rewrite lookup_delete_ne; [done|]. intros E. rewrite <- E, Hc in HT'.
      injection HT' as ?. lia. }
    split; [apply delete_subseteq|]. split; [exact Hs1|]. split; [|split; [exact Htr1|]].
    + intros p' n' [Hne HT]%lookup_delete_Some Hn'. destruct (decide (n' = i)) as [->|].
      { destruct Hne. eapply (hier_inj _ _ _ _ Hh); eauto. }
      destruct (Hpru p' n' HT ltac:(lia)) as (x & w' & Hx & Hw' & Hpr'). exists x, w'.
      split; [done|]. split; [|done]. cbn [words]. rewrite (rd_write_table width Hh p _ _ _ p' _ x Hp HT); [done|apply index_range|done|].
      intros [= -> _]. rewrite Hp in HT. injection HT as ?. lia.
    + intros q Hq. cbn [pmm]. rewrite (Htk q Hq). destruct (decide (q = c)) as [->|].
      * rewrite lookup_delete_eq. split; [tauto|]. intros [_ Hx]. destruct (Hx ltac:(eauto)) as [? [=]].
      * rewrite lookup_delete_ne by done. tauto.
  - destruct (k =? 0) eqn:E; [bool_prop; lia|]. clear E. replace (Z.of_nat i + 2) with (Z.of_nat i + 1 + 1) by lia.
    exists s, T. split; [done|]. split; [done|]. split; [done|]. split; [done|]. split; [|split; [done|tauto]].
    intros p' n' HT Hn'. destruct (decide (n' = i)) as [->|]; [|apply (Hpru p' n' HT); lia].
    by rewrite (hier_inj _ _ _ _ Hh _ _ _ HT Hc).
Qed.

Lemma released_trans base V i j T T1 T2 s s1 s2 :
  released base V i T T1 s s1 -> released base V j T1 T2 s1 s2 -> released base V j T T2 s s2.
Proof using Hwidth.
  intros (S1 & _ & _ & Tr1 & Tk1) (S2 & Hs2 & P2 & Tr2 & Tk2).
  split; [by etransitivity|]. split; [done|]. split; [done|].
  split; [intros V' HV'; by rewrite Tr2, Tr1|]. intros q Hq. rewrite Tk2, Tk1 by done. split; [tauto|].
  intros [H1 H2]. split; [split; [done|]|]; intros HT; eauto using lookup_weaken_is_Some.
Qed.

Lemma free_loop_spec base v n : forall (i : nat) T s pta, (i + n = 3)%nat -> sys s base T ->
  path_ok width T (page v) (pta_path pta) i -> pruned T (words s) (page v) i ->
  exists s' T', free_loop width n s v (Z.of_nat i + 1) pta = Some (pta, s') /\ released base (page v) 3 T T' s s'.
Proof using Hwidth.
  induction n as [|n IH]; intros i T s pta Hi Hs Hpath Hpru.
  - exists s, T. replace i with 3%nat in * by lia. split; [done|].
    split; [done|]. split; [done|]. split; [done|]. split; [done|tauto].
  - destruct (free_step base v T s pta n i ltac:(lia) Hs Hpath Hpru) as (s1 & T1 & Hrun & Hpath1 & Hrel).
    rewrite Hrun. pose proof Hrel as (_ & Hs1 & Hpru1 & _).
    destruct (IH (S i) T1 s1 pta ltac:(lia) Hs1 Hpath1 Hpru1) as (s' & T' & Hrun' & Hrel').
    exists s', T'. split; [|by eapply released_trans].
    rewrite <- Hrun'. f_equal. lia.
Qed.

(** ** Properties *)

Lemma found_status m T V off k w r : found width m T V off k w new_pta r ->
  status r = (if present w then OKAY else PAGE_TABLE_ENTRY_MISSING) /\ level r = Z.of_nat k.
Proof using. intros F. rewrite (found_result _ _ _ _ _ _ _ _ _ F). done. Qed.

Lemma find_page_result s base T v : sys s base T ->
  exists r, find_page width (words s) (interp_as_base_page_table base) v = Some r
    /\ match translate width (words s) base (page v) with
       | Some w => status r = OKAY /\ level r = 0
           /\ physical_address r = get_address width (mkPte w 0) + get_page_offset v
       | None => status r = PAGE_TABLE_ENTRY_MISSING /\ 0 <= level r <= 3
       end.
Proof using Hwidth.
  intros Hs. destruct (access_spec width Hwidth _ _ _ v (sys_hier _ _ _ Hs)) as (r & k & w & Hr & Hk & F & ->).
  exists r. split; [exact Hr|]. destruct (found_status _ _ _ _ _ _ _ F) as [E1 E2].
  pose proof (found_leaf _ _ _ _ _ _ _ _ _ F) as Hleaf. rewrite E1, E2.
  pose proof (f_equal physical_address (found_result _ _ _ _ _ _ _ _ _ F)) as Ep. cbn [physical_address] in Ep.
  destruct (present w); [|split; [done|lia]]. rewrite Hleaf by done. split; [done|]. split; [done|].
  rewrite Ep. apply wrap_small. destruct (address_ok width Hwidth (mkPte w 0)) as [Ha _].
  assert (2 ^ width <= 2 ^ 47) by (apply Z.pow_le_mono_r; lia).
  assert (0 <= get_page_offset v < 4096).
  { unfold get_page_offset. change PAGE_FRAME_OFFSET_MASK with (Z.ones 12). rewrite Z.land_ones by done.
    by apply Z.mod_pos_bound. }
  unfold addr, in_width. lia.
Qed.

(** finding a page answers the entry the page is mapped to: [find_page] never reads outside the page
    tables, and it reports OKAY with the address of the page frame plus the offset in the page, or that an
    entry is missing. *)
Theorem find_page_translates s base T v : sys s base T ->
  exists r, find_page width (words s) (interp_as_base_page_table base) v = Some r
    /\ match translate width (words s) base (page v) with
       | Some w => status r = OKAY /\ level r = 0
           /\ physical_address r = get_address width (mkPte w 0) + get_page_offset v
       | None => status r = PAGE_TABLE_ENTRY_MISSING /\ 0 <= level r <= 3
       end.
Proof using Hwidth. apply find_page_result. Qed.

Lemma allocate_page_result s base T v page_frame flags : sys s base T -> 0 <= flags < 4096 ->
  Z.testbit flags 0 = true ->
  exists r s', allocate_page width s (interp_as_base_page_table base) v page_frame flags = Some (r, s')
    /\ match translate width (words s) base (page v) with
       | Some _ => status r = ALLOC_ERROR /\ level r = 0 /\ s' = s
       | None =>
           (status r = OKAY /\ mapped s s' base (page v) (Z.lor page_frame flags)
              /\ exists T', T ⊆ T' /\ sys s' base T'
                 /\ (forall q, is_Some (T' !! q) -> is_Some (T !! q) \/ (managed q /\ ~ fa_taken (pmm s) q))
                 /\ forall q, managed q -> fa_taken (pmm s') q <-> fa_taken (pmm s) q \/ is_Some (T' !! q))
           \/ (status r = ALLOC_ERROR /\ exhausted s 3 /\ sys s' base T
              /\ (forall V, 0 <= V < 512 ^ 4 -> translate width (words s') base V = translate width (words s) base V)
              /\ forall q, managed q -> fa_taken (pmm s') q <-> fa_taken (pmm s) q)
       end.
Proof using Hwidth Hmanaged.
  intros Hs Hfl Hflp. pose proof (sys_hier _ _ _ Hs) as Hh. unfold allocate_page.
  destruct (access_spec width Hwidth _ _ _ v Hh) as (r0 & k & w & Hr & Hk & F & ->).
  rewrite Hr. cbn [mbind option_bind]. destruct (found_status _ _ _ _ _ _ _ F) as [E1 E2]. rewrite E1.
  destruct (present w) eqn:Hpr; [by eexists _, _|]. rewrite decide_False by done. rewrite E2.
  destruct (allocate_loop_spec base v page_frame flags T k Hk Hfl Hflp ltac:(rewrite (hier_base _ _ _ _ Hh); eauto)
    (4 - k) k s T [] r0) as (r & s' & Hrun & Hres).
  { split; [constructor|done|apply F| |done]. intros p Hp.
    destruct (found_word _ _ _ _ _ _ _ _ _ F) as (p' & Hp' & Hw).
    rewrite (hier_inj _ _ _ _ Hh _ _ _ Hp Hp'). eauto. }
  replace (S (S (k + (4 - k)))) with 6%nat in Hrun by lia. rewrite Hrun. cbn [mbind option_bind].
  eexists _, s'. split; [reflexivity|]. destruct Hres as [(Es & El & Hmap & HT)|(Es & Hex & Hs' & Htr & Htk)].
  - left. rewrite Es, E1. rewrite decide_True by done. done.
  - right. rewrite Es, decide_False by done. split; [done|]. split; [by eapply exhausted_le|].
    split; [done|]. split; [done|].
    intros q Hq. rewrite Htk by done. split; [tauto|]. intros; split; [done|apply not_elem_of_nil].
Qed.

(** C2: allocating a page is all or nothing.  A page that is mapped already is refused without a
    change.  Otherwise the page, and no other, is mapped to the page frame, and the new tables are page frames
    that were free and are in use from then on; or the memory ran out, at most three
    page frames having been free, and then no translation has changed and every page
    frame that was taken for a table is free again. *)
Theorem allocate_page_atomic s base T v page_frame flags : sys s base T -> 0 <= flags < 4096 ->
  Z.testbit flags 0 = true ->
  exists r s', allocate_page width s (interp_as_base_page_table base) v page_frame flags = Some (r, s')
    /\ match translate width (words s) base (page v) with
       | Some _ => status r = ALLOC_ERROR /\ level r = 0 /\ s' = s
       | None =>
           (status r = OKAY /\ mapped s s' base (page v) (Z.lor page_frame flags)
              /\ exists T', T ⊆ T' /\ sys s' base T'
                 /\ (forall q, is_Some (T' !! q) -> is_Some (T !! q) \/ (managed q /\ ~ fa_taken (pmm s) q))
                 /\ forall q, managed q -> fa_taken (pmm s') q <-> fa_taken (pmm s) q \/ is_Some (T' !! q))
           \/ (status r = ALLOC_ERROR /\ exhausted s 3 /\ sys s' base T
              /\ (forall V, 0 <= V < 512 ^ 4 -> translate width (words s') base V = translate width (words s) base V)
              /\ forall q, managed q -> fa_taken (pmm s') q <-> fa_taken (pmm s) q)
       end.
Proof using Hwidth Hmanaged. apply allocate_page_result. Qed.

Lemma free_page_result s base T v : sys s base T ->
  exists r s', free_page width s (interp_as_base_page_table base) v = Some (r, s')
    /\ match translate width (words s) base (page v) with
       | None => status r = PAGE_TABLE_ENTRY_MISSING /\ s' = s
       | Some _ => status r = OKAY /\ exists T', T' ⊆ T /\ sys s' base T' /\ pruned T' (words s') (page v) 3
           /\ (forall V, 0 <= V < 512 ^ 4 -> translate width (words s') base V =
                 if decide (V = page v) then None else translate width (words s) base V)
           /\ forall q, managed q -> fa_taken (pmm s') q <-> fa_taken (pmm s) q /\ (is_Some (T !! q) -> is_Some (T' !! q))
       end.
Proof using Hwidth.
  intros Hs. pose proof (sys_hier _ _ _ Hs) as Hh. unfold free_page.
  destruct (access_spec width Hwidth _ _ _ v Hh) as (r0 & k & w & Hr & Hk & F & ->).
  rewrite Hr. cbn [mbind option_bind]. destruct (found_status _ _ _ _ _ _ _ F) as [E1 E2]. rewrite E1.
  destruct (present w) eqn:Hpr; [|rewrite decide_True by done; eauto]. rewrite decide_False by auto.
  pose proof (found_leaf _ _ _ _ _ _ _ _ _ F Hpr) as ->. pose proof (found_path _ _ _ _ _ _ _ _ _ F) as Hpath.
  destruct (update_path (words s) T base (pta_path r0) (page v) 0 0 0 Hh Hpath ltac:(lia)) as (e & p & He & Hp & Hep & Hup).
  destruct (sys_leaf s base T p (page v) 0 Hs Hp) as [Hs1 Htr1]. cbv zeta in Hs1, Htr1.
  set (s1 := mkMachine A _ _) in *. change (Z.of_nat 0) with 0 in *. rewrite Z.add_0_l in *.
  cbn [free_loop]. change (0 + 1) with 1. rewrite He. cbn [mbind option_bind].
  rewrite (found_entry _ _ _ _ _ _ _ _ _ F : aget (pta_path r0) 0 = _). cbn [mbind option_bind]. change (0 =? 0) with true. cbv iota.
  pose proof (page_shift_index v 0 ltac:(lia)) as Ei. change (Z.of_nat 0) with 0 in Ei. rewrite Ei, Hup. cbn [mbind option_bind].
  pose proof (entry_path (words s1) T base e p 0 (page v) (index (page v) 0) (sys_hier _ _ _ Hs1) Hp Hep (index_range _ _)) as Hen.
  change (Z.of_nat 0 + 1) with 1 in Hen. cbn [words s1] in Hen. rewrite Hen, rd_write_eq. cbn [mbind option_bind].
  set (pta' := set_after r0 _).
  destruct (free_loop_spec base v 3 0 T s1 pta' eq_refl Hs1) as (s' & T' & Hrun & Hsub & Hs' & Hpru & Htr & Htk).
  { done. } { intros ? ? ? Hn. lia. }
  exists pta', s'. split; [exact Hrun|]. split; [done|]. exists T'. split; [done|]. split; [done|]. split; [done|].
  split; [|done]. intros V HV. rewrite Htr, Htr1 by done. done.
Qed.

(** C26: freeing a page unmaps that page and no other; page tables that became empty are taken out and their
    page frames are free again, so that no table of the path but the base table is left empty; and a page that
    is not mapped is reported without a change. *)
Theorem free_page_exact s base T v : sys s base T ->
  exists r s', free_page width s (interp_as_base_page_table base) v = Some (r, s')
    /\ match translate width (words s) base (page v) with
       | None => status r = PAGE_TABLE_ENTRY_MISSING /\ s' = s
       | Some _ => status r = OKAY /\ exists T', T' ⊆ T /\ sys s' base T' /\ pruned T' (words s') (page v) 3
           /\ (forall V, 0 <= V < 512 ^ 4 -> translate width (words s') base V =
                 if decide (V = page v) then None else translate width (words s) base V)
           /\ forall q, managed q -> fa_taken (pmm s') q <-> fa_taken (pmm s) q /\ (is_Some (T !! q) -> is_Some (T' !! q))
       end.
Proof using Hwidth. apply free_page_result. Qed.

(** Changing the flags of a page changes the entry of that page and nothing else; clearing the present flag
    unmaps it. *)
Theorem modify_page_flags_exact s base T v flags set : sys s base T ->
  exists r s', modify_page_flags width s (interp_as_base_page_table base) v flags set = Some (r, s')
    /\ match translate width (words s) base (page v) with
       | None => status r = PAGE_TABLE_ENTRY_MISSING /\ s' = s
       | Some w =>
           let w' := if set : bool then Z.lor w flags else Z.land w (u64 (Z.lnot flags)) in
           status r = OKAY /\ sys s' base T
           /\ forall V, 0 <= V < 512 ^ 4 -> translate width (words s') base V =
                if decide (V = page v) then (if present w' then Some w' else None)
                else translate width (words s) base V
       end.
Proof using Hwidth.
  intros Hs. pose proof (sys_hier _ _ _ Hs) as Hh. unfold modify_page_flags.
  destruct (access_spec width Hwidth _ _ _ v Hh) as (r0 & k & w & Hr & Hk & F & ->).
  rewrite Hr. cbn [mbind option_bind]. destruct (found_status _ _ _ _ _ _ _ F) as [E1 E2]. rewrite E1.
  destruct (present w) eqn:Hpr; [|rewrite decide_True by done; eauto]. rewrite decide_False by auto.
  pose proof (found_leaf _ _ _ _ _ _ _ _ _ F Hpr) as ->. pose proof (found_path _ _ _ _ _ _ _ _ _ F) as Hpath.
  rewrite (found_entry _ _ _ _ _ _ _ _ _ F : aget (pta_path r0) 0 = _). cbn [mbind option_bind native_entry].
  unfold to_x86_64_flags. set (w' := if set then _ else _). cbv zeta.
  destruct (update_path (words s) T base (pta_path r0) (page v) 0 0 w' Hh Hpath ltac:(lia)) as (e & p & He & Hp & Hep & Hup).
  destruct (sys_leaf s base T p (page v) w' Hs Hp) as [Hs1 Htr1].
  change (Z.of_nat 0 + 1) with 1 in *. rewrite He. cbn [mbind option_bind].
  pose proof (page_shift_index v 0 ltac:(lia)) as Ei. change (page_shift (Z.of_nat 0)) with PHYSICAL_PAGE_OFFSET in Ei.
  rewrite Ei, Hup. cbn [mbind option_bind].
  pose proof (entry_path _ T base e p 0 (page v) (index (page v) 0) (sys_hier _ _ _ Hs1) Hp Hep (index_range _ _)) as Hen.
  cbn [words] in Hen. change (Z.of_nat 0 + 1) with 1 in Hen. rewrite Hen, rd_write_eq. cbn [mbind option_bind].
  eexists _, _. split; [reflexivity|]. split; [exact E1|]. split; [exact Hs1|exact Htr1].
Qed.
End ops.
End PageOps.

(** ** The bitmap allocator serves paging *)
Module PmmFrames.
Import Region MemMap Pmm.

(** [allocate(p_addr)] and [free(p_addr)] of one page frame *)
#[export] Instance pmm_frames : FrameAllocator BitMapAllocator := {
  fa_allocate s := allocate s 1;
  fa_free s p := free s p 1;
}.

Section pmm.
(** The started allocator. *)
Context (s0 : BitMapAllocator) (Hpage : page_size s0 = 4096).
Context (Hbm : in_width 64 (p_bitmap s0 + bitmap_size s0)) (Hpb : 0 <= p_bitmap s0).

(** The page frames that are not reserved. *)
Definition managed (p : Z) : Prop :=
  exists i, 0 <= i < mem_size s0 /\ p = mem_base s0 + i * 4096 /\ protects s0 p 1 = false.

Definition frame_used (s : BitMapAllocator) (p : Z) : Prop := page_used s ((p - mem_base s0) / 4096) = true.

(** Only the bitmap changes, and reserved page frames are in use. *)
Record pmm_ok (s : BitMapAllocator) : Prop := {
  pmm_wf : wf s;
  pmm_same : s = with_bitmap s0 (bitmap s);
  pmm_reserved : forall i, 0 <= i < mem_size s0 -> protects s0 (mem_base s0 + i * 4096) 1 = true ->
    page_used s i = true;
}.

Lemma frame_number i : (mem_base s0 + i * 4096 - mem_base s0) / 4096 = i.
Proof using. replace (mem_base s0 + i * 4096 - mem_base s0) with (i * 4096) by lia. by apply Z.div_mul. Qed.

Lemma pmm_ok_marked s s' i u : pmm_ok s -> marked s s' i 1 u ->
  (u = false -> protects s0 (mem_base s0 + i * 4096) 1 = false) -> pmm_ok s'.
Proof using.
  intros [Hwf Hsame Hres] [Hrest Hwf' Hu] Hfree. split; [done| |].
  - rewrite Hrest, Hsame. done.
  - intros j Hj Hp. rewrite Hu by lia. case_decide; [|by apply Hres].
    assert (j = i) as -> by lia. destruct u; [done|]. rewrite Hfree in Hp; done.
Qed.

#[export] Instance pmm_laws : FrameLaws BitMapAllocator managed.
Proof using Hpage Hbm Hpb.
  refine {| fa_ok := pmm_ok; fa_taken := frame_used |}.
  - intros s Hok. pose proof Hok as [Hwf Hsame Hres]. cbn [fa_allocate pmm_frames].
    assert (mem_base s = mem_base s0 /\ page_size s = 4096 /\ mem_size s = mem_size s0) as (E1 & E2 & E3)
      by (by rewrite Hsame).
    destruct (allocate_spec s 1 Hwf ltac:(lia)) as [(b & s' & Ha & Hb & Hle & Hrun & Hm & _)|[Ha Hfull]].
    + rewrite E1, E2 in Ha. eexists _, s'. split; [exact Ha|]. split; [by eapply pmm_ok_marked|].
      split; [|split].
      * exists b. split; [lia|]. split; [done|]. apply not_true_iff_false. intros Hp.
        assert (page_used s b = true) by (apply Hres; [lia|done]).
        rewrite Hrun in * by lia. done.
      * unfold frame_used. rewrite frame_number, Hrun by lia. done.
      * intros q (i & Hi & -> & _). unfold frame_used. rewrite frame_number.
        rewrite (marked_used _ _ _ _ _ Hm) by lia. case_decide.
        -- assert (i = b) as -> by lia. tauto.
        -- split; [tauto|]. intros [E|]; [lia|done].
    + exists None, s. split; [exact Ha|]. split; [done|].
      intros q (i & Hi & -> & _). unfold frame_used. rewrite frame_number.
      destruct (Hfull i) as (j & Hj & Hu); [lia|lia|]. by replace i with j by lia.
  - intros s p Hok (i & Hi & -> & Hpr) Htk. pose proof Hok as [Hwf Hsame Hres]. cbn [fa_free pmm_frames].
    assert (mem_base s = mem_base s0 /\ page_size s = 4096 /\ mem_size s = mem_size s0 /\ p_bitmap s = p_bitmap s0
      /\ bitmap_size s = bitmap_size s0) as (E1 & E2 & E3 & E4 & E5) by (by rewrite Hsame).
    assert (forall p, protects s p 1 = protects s0 p 1) as Hps by (intros; by rewrite Hsame).
    destruct (free_spec s i 1) as (s' & Hf & Hm); rewrite ?E3, ?E4, ?E5; try done; try lia.
    rewrite E1, E2, Hps, Hpr in Hf, Hm. exists s'. split; [exact Hf|]. split; [by eapply pmm_ok_marked|].
    intros q (j & Hj & -> & _). unfold frame_used. rewrite !frame_number, (marked_used _ _ _ _ _ Hm) by lia.
    case_decide.
    + assert (j = i) as -> by lia. split; [done|]. intros [? _]. done.
    + split; [|tauto]. intros. split; [lia|done].
Defined.
End pmm.
End PmmFrames.

(** ** A small machine

    The 16 page frames of [pmm0], the third of them the base page table of an empty address space. *)
Module PagingExample.
Import Pmm PmmFrames PageOps.

Definition flat_memory (n : Z) : gmap Z Z :=
  list_to_map ((fun k => (HHDM_BEGIN + 8 * k, 0)) <$> seqZ 0 n).

Lemma flat_memory_word n k : 0 <= k < n -> flat_memory n !! (HHDM_BEGIN + 8 * k) = Some 0.
Proof.
  intros Hk. apply elem_of_list_to_map.
  - rewrite <- list_fmap_compose. apply NoDup_fmap_2; [|apply NoDup_seqZ]. intros x y. cbn. lia.
  - apply list_elem_of_fmap. exists k. split; [done|]. apply elem_of_seqZ. lia.
Qed.

Lemma flat_memory_rd n p i : p mod 4096 = 0 -> 0 <= p -> p + 8 * i < 8 * n -> 0 <= i < 512 ->
  rd (flat_memory n) p i = Some 0.
Proof.
  intros Hp H0 Hn Hi. unfold rd, waddr. replace (HHDM_BEGIN + p + 8 * i) with (HHDM_BEGIN + 8 * (p / 8 + i)).
  - apply flat_memory_word. Z.to_euclidean_division_equations. lia.
  - Z.to_euclidean_division_equations. lia.
Qed.

(** A zeroed base table is an empty hierarchy. *)
Lemma hier_empty width m base : frame_ok width base -> (forall i, 0 <= i < 512 -> rd m base i = Some 0) ->
  hier width m base {[base := (3%nat, 0)]}.
Proof.
  intros Hb Hz. split; try (intros p *; rewrite lookup_singleton_Some).
  - apply lookup_singleton_eq.
  - by intros [<- _].
  - intros [_ [= <- _]]. done.
  - intros [<- _] Hi. rewrite Hz by done. eauto.
  - intros [<- [= <- <-]] Hi Hw Hpr. rewrite Hz in Hw by done. by simplify_eq.
  - intros [<- _]. done.
  - intros [<- _] [<- _]%lookup_singleton_Some. done.
Qed.

Definition machine0 : machine BitMapAllocator := mkMachine _ (flat_memory 8192) pmm0.
Definition base0 : Z := 8192.

#[local] Instance laws0 : FrameLaws BitMapAllocator (managed pmm0) :=
  pmm_laws pmm0 eq_refl ltac:(split; done) ltac:(done).

Lemma managed0 p : managed pmm0 p -> frame_ok 36 p.
Proof.
  intros (i & Hi & -> & _). change (mem_size pmm0) with 16 in Hi. change (mem_base pmm0) with 0.
  split; [change (2 ^ 36) with 68719476736; lia|]. by apply Z.mod_mul.
Qed.

Lemma reserved0 i : 0 <= i < 16 -> protects pmm0 (i * 4096) 1 = true -> page_used pmm0 i = true.
Proof.
  intros Hi.
  assert (Forall (fun i => protects pmm0 (i * 4096) 1 = true -> page_used pmm0 i = true) (seqZ 0 16)) as Hall.
  { apply (bool_decide_unpack _). vm_compute. exact I. }
  rewrite Forall_forall in Hall. apply Hall, elem_of_seqZ. lia.
Qed.

Lemma sys0 : sys 36 (managed := managed pmm0) machine0 base0 {[base0 := (3%nat, 0)]}.
Proof.
  split.
  - apply hier_empty; [split; [done|reflexivity]|]. intros i Hi. apply flat_memory_rd; [done..|change base0 with 8192; lia|done].
  - split; [exact pmm0_wf|reflexivity|]. intros i Hi. change (mem_base pmm0 + i * 4096) with (i * 4096).
    apply reserved0. exact Hi.
  - intros p e [<- _]%lookup_singleton_Some. done.
  - intros _. reflexivity.
  - intros p i (k & Hk & -> & _) Hi. change (mem_size pmm0) with 16 in Hk. change (mem_base pmm0 + k * 4096) with (k * 4096).
    exists 0. apply flat_memory_rd; [by apply Z.mod_mul|lia|lia|lia].
Qed.

(** Address 0x400123 of the empty address space is mapped to the page frame at 0x5000. *)
Definition v0 : Z := 0x400123.

Lemma flat_zero p i : p mod 4096 = 0 -> 0 <= p < 0x10000 -> 0 <= i < 512 -> rd (flat_memory 8192) p i = Some 0.
Proof. intros. apply flat_memory_rd; [done|lia|Z.to_euclidean_division_equations; lia|done]. Qed.

Lemma empty0 V : translate 36 (words machine0) base0 V = None.
Proof. unfold translate. cbn [lookup_from words machine0]. by rewrite flat_zero by (done || apply index_range). Qed.

(** The page frames from the fourth on are free. *)
Lemma frame_free0 k : 3 <= k < 16 -> managed pmm0 (0 + k * 4096) /\ ~ fa_taken (pmm machine0) (0 + k * 4096).
Proof.
  intros Hk. split.
  - exists k. split; [split; [lia|apply Hk]|]. split; [reflexivity|].
    assert (Forall (fun i => protects pmm0 (0 + i * 4096) 1 = false) (seqZ 3 13)) as Hall.
    { apply (bool_decide_unpack _). vm_compute. exact I. }
    rewrite Forall_forall in Hall. apply Hall, elem_of_seqZ. lia.
  - change (~ page_used pmm0 ((0 + k * 4096 - 0) / 4096) = true). rewrite Z.sub_0_r, Z.add_0_l, Z.div_mul by done.
    assert (Forall (fun i => page_used pmm0 i = false) (seqZ 3 13)) as Hall.
    { apply (bool_decide_unpack _). vm_compute. exact I. }
    rewrite Forall_forall in Hall. rewrite Hall; [done|]. apply elem_of_seqZ. lia.
Qed.

Lemma not_exhausted0 n : (n < 13)%nat -> ~ exhausted machine0 n (managed := managed pmm0).
Proof.
  intros Hn. apply (not_exhausted machine0 n ((fun k => 0 + k * 4096) <$> seqZ 3 13)).
  - apply NoDup_fmap_2; [intros x y; lia|apply NoDup_seqZ].
  - rewrite length_fmap, length_seqZ. exact Hn.
  - intros q (k & -> & Hk)%list_elem_of_fmap. apply frame_free0. apply elem_of_seqZ in Hk. lia.
Qed.

Lemma mapped0 : exists r s' T', 
  allocate_page 36 machine0 (interp_as_base_page_table base0) v0 0x5000 7 = Some (r, s')
  /\ translate 36 (words s') base0 (page v0) = Some 0x5007
  /\ sys 36 (managed := managed pmm0) s' base0 T'.
Proof.
  destruct (allocate_page_result 36 ltac:(lia) managed0 machine0 base0 _ v0 0x5000 7 sys0 ltac:(lia) eq_refl)
    as (r & s' & Hrun & Hres).
  rewrite empty0 in Hres. destruct Hres as [(E & Hmap & T' & _ & Hs' & _)|(_ & Hex & _)].
  - exists r, s', T'. split; [exact Hrun|]. split; [|exact Hs'].
    rewrite (Hmap (page v0)) by apply page_range. by rewrite decide_True.
  - destruct (not_exhausted0 3 ltac:(lia) Hex).
Qed.

Lemma allocate_page_atomic_witness : exists r s', 
  allocate_page 36 machine0 (interp_as_base_page_table base0) v0 0x5000 7 = Some (r, s') /\ status r = OKAY
  /\ translate 36 (words s') base0 (page v0) = Some 0x5007.
Proof.
  destruct (allocate_page_atomic 36 ltac:(lia) managed0 machine0 base0 _ v0 0x5000 7 sys0 ltac:(lia) eq_refl)
    as (r & s' & Hrun & Hres).
  exists r, s'. split; [exact Hrun|]. rewrite empty0 in Hres. destruct Hres as [(E & Hmap & _)|(_ & Hex & _)].
  - split; [exact E|]. rewrite (Hmap (page v0)) by (apply page_range). by rewrite decide_True.
  - destruct (not_exhausted0 3 ltac:(lia) Hex).
Defined.

Lemma find_page_translates_witness : exists (s : machine BitMapAllocator) r,
  find_page 36 (words s) (interp_as_base_page_table base0) v0 = Some r
  /\ status r = OKAY /\ physical_address r = 0x5123.
Proof.
  destruct mapped0 as (_ & s & T & _ & Htr & Hs). exists s.
  destruct (find_page_translates 36 ltac:(lia) s base0 T v0 Hs) as (r & Hrun & Hres).
  rewrite Htr in Hres. destruct Hres as (E1 & _ & E2). exists r. split; [exact Hrun|]. split; [exact E1|].
  rewrite E2. reflexivity.
Defined.

Lemma free_page_exact_witness : exists (s : machine BitMapAllocator) r s',
  free_page 36 s (interp_as_base_page_table base0) v0 = Some (r, s')
  /\ status r = OKAY /\ translate 36 (words s') base0 (page v0) = None.
Proof.
  destruct mapped0 as (_ & s & T & _ & Htr & Hs). exists s.
  destruct (free_page_exact 36 ltac:(lia) s base0 T v0 Hs) as (r & s' & Hrun & Hres).
  rewrite Htr in Hres. destruct Hres as (E1 & T' & _ & _ & _ & Htr' & _).
  exists r, s'. split; [exact Hrun|]. split; [exact E1|].
  rewrite (Htr' (page v0)) by (apply page_range). by rewrite decide_True.
Defined.
End PagingExample.
