(* ===== verification/Vmm.v ===== *)
(** * The virtual memory manager

    Models [Memory/VirtualMemoryManager.cpp] on top of Paging.v: mapping and unmapping of pages together with
    their page frames, creation, loading and destruction of virtual address spaces, and the construction of
    the kernel's address space in [start].  Log output is left out. *)

From stdpp Require Import strings.
From S2P Require Import Prelude Kre Memory Paging PagingProps.
Import Pg Addr Table Hier.
#[local] Existing Instance Region.MemoryRegionType_eq_dec.

Module Vmm.

(** ** State *)
Inductive VMMStartFailure :=
  | VMM_NONE | BASE_PT_ALLOC_FAIL | HHDM_MAPPING_FAIL | KERNEL_CODE_MAPPING_FAIL | PMM_MAPPING_FAIL
  | KERNEL_HEAP_MAPPING_FAIL.

Record KernelSpaceEntryAllocResult := mkKsear {
  region : string;
  has_error : bool;
  alloc_pta : PageTableAccess;
  free_pta : PageTableAccess;
  claim_error : bool;
}.

Definition new_ksear : KernelSpaceEntryAllocResult := mkKsear "" false new_pta new_pta false.

Record KernelSpaceLayout := mkLayout {
  higher_half_direct_map : Z;
  pmm_reserved : Z;
  kernel_heap : Z;
  acpi : Z;
  kernel_code : Z;
}.

Definition get_virtual_kernel_space_layout : KernelSpaceLayout :=
  mkLayout HHDM_BEGIN 0xFFFF900000000000 0xFFFFA00000000000 0xFFFFB00000000000 0xFFFFFFFF80000000.

Definition USER_SPACE_END : Z := 0x0000800000000000.

Definition create_virtual_memory_map : option MemMap.MemoryMap :=
  MemMap.MemoryMap_ctor
    [Region.mkRegion 0 USER_SPACE_END Region.USERSPACE;
     Region.mkRegion HHDM_BEGIN (2 ^ 64 - 1 - HHDM_BEGIN) Region.USABLE].

(** The manager with the machine it works on; [cr3] is the address of the loaded base page table. *)
Record vmm {A : Type} := mkVmm {
  vm : machine A;
  cr3 : Z;
  user_space_end : Z;
  start_fail : VMMStartFailure;
  ksear : KernelSpaceEntryAllocResult;
}.

#[global] Arguments vmm : clear implicits.

Section vmm.
(** PHYSICAL_ADDRESS_WIDTH *)
Context (width : Z) {A : Type} `{FrameAllocator A}.

(** ** Single pages *)

Definition allocate (s : machine A) (base_pt : PageTable) (v_addr flags : Z) : option (bool * machine A) :=
  '(pAddr, p) ← fa_allocate (pmm s);
  let s := mkMachine A (words s) p in
  match pAddr with
  | None => Some (false, s)
  | Some pAddr =>
      '(pta, s) ← allocate_page width s base_pt v_addr pAddr flags;
      if decide (status pta <> OKAY) then
        '(_, p) ← fa_free (pmm s) pAddr;
        Some (false, mkMachine A (words s) p)
      else Some (true, s)
  end.

(** [cr3] is the address of the loaded base page table. *)
Definition free (cr3 : Z) (s : machine A) (base_pt : PageTable) (v_addr : Z) : option (bool * machine A) :=
  r ← virtual_to_physical_address width (words s) cr3 v_addr;
  match r with
  | None => Some (false, s)
  | Some p_addr =>
      '(pta, s) ← free_page width s base_pt v_addr;
      if decide (status pta = FREE_ERROR) then Some (false, s)
      else
        '(ok, p) ← fa_free (pmm s) p_addr;
        Some (ok, mkMachine A (words s) p)
  end.

(** ** Runs of pages *)

Definition page_at (v_addr i : Z) : Z := u64 (v_addr + u64 (i * get_page_size)).

(** The loop of [free]: page [i] and the [n - 1] pages after it, whether or not one fails. *)
Fixpoint free_loop (n : nat) (cr3 : Z) (s : machine A) (base_pt : PageTable) (v_addr i : Z) (all_free : bool)
    : option (bool * machine A) :=
  match n with
  | O => Some (all_free, s)
  | S n' =>
      '(ok, s) ← free cr3 s base_pt (page_at v_addr i);
      free_loop n' cr3 s base_pt v_addr (i + 1) (if ok : bool then all_free else false)
  end.

Definition free_pages (cr3 : Z) (s : machine A) (base_pt : PageTable) (v_addr : Z) (pages : nat)
    : option (bool * machine A) := free_loop pages cr3 s base_pt v_addr 0 true.

(** The loop of [allocate]; the result is the index of the page that failed. *)
Fixpoint allocate_loop (n : nat) (s : machine A) (base_pt : PageTable) (v_addr flags i : Z)
    : option (option Z * machine A) :=
  match n with
  | O => Some (None, s)
  | S n' =>
      '(ok, s) ← allocate s base_pt (page_at v_addr i) flags;
      if ok : bool then allocate_loop n' s base_pt v_addr flags (i + 1) else Some (Some i, s)
  end.

(** The rollback frees the pages 0 to [alloc_fail_page_idx], the page that failed included. *)
Definition allocate_pages (cr3 : Z) (s : machine A) (base_pt : PageTable) (v_addr flags : Z) (pages : nat)
    : option (bool * machine A) :=
  '(alloc_fail_page_idx, s) ← allocate_loop pages s base_pt v_addr flags 0;
  match alloc_fail_page_idx with
  | None => Some (true, s)
  | Some idx =>
      '(_, s) ← free_loop (Z.to_nat (idx + 1)) cr3 s base_pt v_addr 0 true;
      Some (false, s)
  end.

(** ** Address spaces *)

(** The loop of [allocate_virtual_address_space]: the entries [i], [i + 1], ... ([n] of them). *)
Fixpoint share_loop (n : nat) (m : gmap Z Z) (new_base_pt loaded_base_pt : PageTable) (i : Z) : option (gmap Z Z) :=
  match n with
  | O => Some m
  | S n' =>
      b_pte ← (if PT_MAX_SIZE / 2 <=? i then
                 pte ← entry m loaded_base_pt i;
                 Some (if is_present pte then native_entry pte else 0)
               else Some 0);
      m ← update m new_base_pt i b_pte;
      share_loop n' m new_base_pt loaded_base_pt (i + 1)
  end.

Definition allocate_virtual_address_space (cr3 : Z) (s : machine A) : option (option Z * machine A) :=
  '(base_addr, p) ← fa_allocate (pmm s);
  match base_addr with
  | None => Some (None, mkMachine A (words s) p)
  | Some base_addr =>
      m ← share_loop 512 (words s) (interp_as_base_page_table base_addr) (interp_as_base_page_table cr3) 0;
      Some (Some base_addr, mkMachine A m p)
  end.

(** The loop of [free_virtual_address_space_rec] over the entries [i], [i + 1], ... ([n] of them). *)
Fixpoint free_entries (rec : machine A -> PageTableEntry -> option (bool * machine A)) (pt : PageTable)
    (n : nat) (s : machine A) (i : Z) : option (bool * machine A) :=
  match n with
  | O => Some (true, s)
  | S n' =>
      ptee ← entry (words s) pt i;
      if is_present ptee then
        '(ok, s) ← rec s ptee;
        if negb ok then Some (false, s)
        else m ← update (words s) pt i 0; free_entries rec pt n' (mkMachine A m (pmm s)) (i + 1)
      else free_entries rec pt n' s (i + 1)
  end.

(** The number of entries of a table that are freed. *)
Definition free_limit (pt : PageTable) : nat := if is_base_page_table pt then 256%nat else 512%nat.

Definition free_frame (s : machine A) (pte : PageTableEntry) : option (bool * machine A) :=
  '(ok, p) ← fa_free (pmm s) (get_address width pte);
  Some (ok, mkMachine A (words s) p).

(** [fuel] bounds the depth of the recursion, which is the level of the entry. *)
Fixpoint free_virtual_address_space_rec (fuel : nat) (s : machine A) (pte : PageTableEntry)
    : option (bool * machine A) :=
  match fuel with
  | O => None
  | S fuel' =>
      if 0 <? pte_level pte then
        let pt := mkPt (native_entry pte) (physical_to_virtual_address (get_address width pte)) (pte_level pte) in
        '(ok, s) ← free_entries (free_virtual_address_space_rec fuel') pt (free_limit pt) s 0;
        if negb ok then Some (false, s)
        else if is_base_page_table pt then Some (true, s) else free_frame s pte
      else free_frame s pte
  end.

Definition free_virtual_address_space (s : machine A) (base_pt_addr : Z) : option (bool * machine A) :=
  free_virtual_address_space_rec 5 s (to_page_table_entry (interp_as_base_page_table base_pt_addr)).

(** The loop of [load_virtual_address_space]. *)
Fixpoint load_loop (n : nat) (m : gmap Z Z) (new_base_pt loaded_base_pt : PageTable) (i : Z) : option (gmap Z Z) :=
  match n with
  | O => Some m
  | S n' =>
      pte ← entry m loaded_base_pt i;
      m ← update m new_base_pt i (native_entry pte);
      load_loop n' m new_base_pt loaded_base_pt (i + 1)
  end.

(** The words and the register that holds the base page table. *)
Definition load_virtual_address_space (cr3 : Z) (m : gmap Z Z) (base_pt_addr : Z) : option (Z * gmap Z Z) :=
  if base_pt_addr =? cr3 then Some (cr3, m)
  else
    m ← load_loop 256 m (interp_as_base_page_table base_pt_addr) (interp_as_base_page_table cr3) 256;
    Some (base_pt_addr, m).

(** ** The kernel's address space *)

(** The first loop of [allocate_kernel_space_entries]: the result is [alloc_limit] and the last access. *)
Fixpoint map_loop (fuel : nat) (s : machine A) (base_pt : PageTable) (v_start p_start size flags i : Z)
    (pta : PageTableAccess) : option (Z * PageTableAccess * machine A) :=
  match fuel with
  | O => None
  | S fuel' =>
      if i <? size then
        '(pta, s) ← allocate_page width s base_pt (u64 (v_start + i)) (u64 (p_start + i)) flags;
        if decide (status pta <> OKAY) then Some (i, pta, s)
        else map_loop fuel' s base_pt v_start p_start size flags (u64 (i + get_page_size)) pta
      else Some (0, pta, s)
  end.

(** The second loop: pages [i] up to [alloc_limit]. *)
Fixpoint unmap_loop (fuel : nat) (cr3 : Z) (s : machine A) (base_pt : PageTable) (v_start alloc_limit i : Z)
    (pta : PageTableAccess) : option (PageTableAccess * machine A) :=
  match fuel with
  | O => None
  | S fuel' =>
      if i <? alloc_limit then
        r ← virtual_to_physical_address width (words s) cr3 (u64 (v_start + i));
        match r with
        | None => unmap_loop fuel' cr3 s base_pt v_start alloc_limit (i + get_page_size) pta
        | Some p_addr =>
            '(pta, s) ← free_page width s base_pt (u64 (v_start + i));
            if decide (status pta <> OKAY)
            then unmap_loop fuel' cr3 s base_pt v_start alloc_limit (i + get_page_size) pta
            else
              '(_, p) ← fa_free (pmm s) p_addr;
              unmap_loop fuel' cr3 (mkMachine A (words s) p) base_pt v_start alloc_limit (i + get_page_size) pta
        end
      else Some (pta, s)
  end.

Definition page_fuel (size : Z) : nat := S (S (Z.to_nat (size / get_page_size))).

Definition allocate_kernel_space_entries (cr3 : Z) (s : machine A) (base_pt : PageTable) (v_start : Z)
    (p_reg : Region.MemoryRegion) (flags : Z) (claim_type : Region.MemoryRegionType) (v_map : MemMap.MemoryMap)
    (region_name : string) : option (KernelSpaceEntryAllocResult * machine A * MemMap.MemoryMap) :=
  '(alloc_limit, apta, s) ← map_loop (page_fuel (Region.size p_reg)) s base_pt v_start (Region.start p_reg)
                              (Region.size p_reg) flags 0 new_pta;
  let fpta := set_status new_pta OKAY 0 in
  if 0 <? alloc_limit then
    '(fpta, s) ← unmap_loop (page_fuel alloc_limit) cr3 s base_pt v_start alloc_limit 0 fpta;
    Some (mkKsear region_name true apta fpta false, s, v_map)
  else
    '(claimed, _, v_map) ← MemMap.claim v_map (Region.mkRegion v_start (Region.size p_reg) claim_type) get_page_size;
    Some (mkKsear region_name false apta fpta claimed, s, v_map).

(** The loop over the physical memory map: the kernel code region and the end of memory. *)
Fixpoint scan_p_map (regs : list Region.MemoryRegion) (kernel_code : Region.MemoryRegion) (hhdm_size : Z)
    : Region.MemoryRegion * Z :=
  match regs with
  | [] => (kernel_code, hhdm_size)
  | reg :: rest =>
      scan_p_map rest (if decide (Region.memory_type reg = Region.KERNEL_CODE) then reg else kernel_code)
        (Math.max (Region.end_ reg) hhdm_size)
  end.

Definition find_user_space_end (regs : list Region.MemoryRegion) (old : Z) : Z :=
  match List.find (fun reg => bool_decide (Region.memory_type reg = Region.USERSPACE)) regs with
  | Some reg => to_canonical_form (Region.end_ reg)
  | None => old
  end.

(** [memory_index_region] is the physical memory manager's [get_memory_index_region]. *)
Context (memory_index_region : A -> Region.MemoryRegion).

Definition failed (s : vmm A) (m : machine A) (f : VMMStartFailure) (k : KernelSpaceEntryAllocResult)
    : VMMStartFailure * vmm A := (f, mkVmm A m (cr3 s) (user_space_end s) f k).

Definition start (s : vmm A) (p_map v_map : MemMap.MemoryMap) (k_space_layout : KernelSpaceLayout) (heap_size : Z)
    : option (VMMStartFailure * vmm A * MemMap.MemoryMap) :=
  let p_flags := Z.lor 1 2 in
  '(base_pt_addr, p) ← fa_allocate (pmm (vm s));
  let m := mkMachine A (words (vm s)) p in
  match base_pt_addr with
  | None => Some (failed s m BASE_PT_ALLOC_FAIL (ksear s), v_map)
  | Some base_pt_addr =>
      w ← zero_page (words m) base_pt_addr;
      let m := mkMachine A w (pmm m) in
      let base_pt := interp_as_base_page_table base_pt_addr in
      let '(code, hhdm_size) := scan_p_map (MemMap.regions p_map) (Region.mkRegion 0 0 Region.NONE) 0 in
      '(k1, m, v_map) ← allocate_kernel_space_entries (cr3 s) m base_pt (higher_half_direct_map k_space_layout)
                          (Region.mkRegion 0 hhdm_size Region.NONE) p_flags Region.HHDM v_map "Higher Half Direct Map";
      if has_error k1 then Some (failed s m HHDM_MAPPING_FAIL k1, v_map) else
      '(k2, m, v_map) ← allocate_kernel_space_entries (cr3 s) m base_pt (pmm_reserved k_space_layout)
                          (memory_index_region (pmm m)) p_flags Region.PMM_RESERVED v_map "Physical Memory Manager";
      if has_error k2 then Some (failed s m PMM_MAPPING_FAIL k2, v_map) else
      '(claimed, _, v_map) ← MemMap.claim v_map
                               (Region.mkRegion (kernel_heap k_space_layout) heap_size Region.KERNEL_HEAP) get_page_size;
      if negb claimed then
        Some (failed s m KERNEL_HEAP_MAPPING_FAIL
                (mkKsear "Kernel Heap" true (set_status new_pta OKAY 0) (set_status new_pta OKAY 0) true), v_map)
      else
      '(k3, m, v_map) ← allocate_kernel_space_entries (cr3 s) m base_pt (kernel_code k_space_layout)
                          code p_flags Region.KERNEL_CODE v_map "Kernel Code";
      if has_error k3 then Some (failed s m KERNEL_CODE_MAPPING_FAIL k3, v_map) else
      Some (VMM_NONE, mkVmm A m base_pt_addr (find_user_space_end (MemMap.regions v_map) (user_space_end s))
              (start_fail s) (ksear s), v_map)
  end.
End vmm.
End Vmm.
