(* ===== verification/VmmProps.v ===== *)
(** * Properties of the virtual memory manager

    A page is mapped to a page frame that nothing else uses, and unmapping it gives the frame back; a new
    address space shares the kernel half and has an empty user half; tearing an address space down frees
    every page table and page frame of its user half and touches nothing else. *)

From stdpp Require Import strings.
From S2P Require Import Prelude Kre Memory Paging PagingProps Vmm.
Import Pg Addr Table PgBits Hier PageOps Vmm.

Module VmmOps.
Section ops.
Context (width : Z) (Hwidth : 12 <= width <= 47).
Context {A : Type} `{FrameLaws A managed} (Hmanaged : forall p, managed p -> frame_ok width p).

(** Taking a page frame keeps a machine consistent. *)
Lemma sys_allocate (s : machine A) base T a : sys width s base T (managed := managed) -> fa_ok a ->
  (forall q, managed q -> fa_taken (pmm s) q -> fa_taken a q) -> sys width (mkMachine A (words s) a) base T (managed := managed).
Proof using.
  intros [Hh Hok Hm Hb Hw] Hok' Hmono. split; cbn [words pmm]; [done|done| | |done].
  - intros p e HT Hne. destruct (Hm p e HT Hne). auto.
  - intros Hmb. auto.
Qed.

(** Giving back a page frame that is no table keeps a machine consistent. *)
Lemma sys_release (s : machine A) base T a f : sys width s base T (managed := managed) -> fa_ok a ->
  T !! f = None -> (forall q, managed q -> fa_taken a q <-> q <> f /\ fa_taken (pmm s) q) ->
  sys width (mkMachine A (words s) a) base T (managed := managed).
Proof using.
  intros [Hh Hok Hm Hb Hw] Hok' HTf Htk. split; cbn [words pmm]; [done|done| | |done].
  - intros p e HT Hne. destruct (Hm p e HT Hne) as [Hmp Htp]. split; [done|]. apply Htk; [done|].
    split; [congruence|done].
  - intros Hmb. apply Htk; [done|]. split; [|auto]. intros ->. by rewrite (hier_base _ _ _ _ Hh) in HTf.
Qed.

(** What mapping a page does: nothing, or a fresh page frame [f] and fresh tables are in use. *)
Lemma vmm_allocate_result (s : machine A) base T v flags :
  sys width s base T (managed := managed) -> 0 <= flags < 4096 -> Z.testbit flags 0 = true ->
  exists ok s', allocate width s (interp_as_base_page_table base) v flags = Some (ok, s')
    /\ if ok : bool then
         translate width (words s) base (page v) = None
         /\ exists f T', managed f /\ ~ fa_taken (pmm s) f /\ T' !! f = None /\ T ⊆ T'
            /\ mapped width s s' base (page v) (Z.lor f flags) /\ sys width s' base T' (managed := managed)
            /\ (forall q, managed q -> fa_taken (pmm s') q <-> fa_taken (pmm s) q \/ q = f \/ is_Some (T' !! q))
            /\ forall q, is_Some (T' !! q) -> is_Some (T !! q) \/ (managed q /\ ~ fa_taken (pmm s) q)
       else
         (translate width (words s) base (page v) = None -> exhausted s 4 (managed := managed))
         /\ sys width s' base T (managed := managed)
         /\ (forall V, 0 <= V < 512 ^ 4 -> translate width (words s') base V = translate width (words s) base V)
         /\ forall q, managed q -> fa_taken (pmm s') q <-> fa_taken (pmm s) q.
Proof using Hwidth Hmanaged.
  intros Hs Hfl Hflp. unfold allocate.
  destruct (fa_allocate_law (pmm s) (sys_pmm _ _ _ _ Hs)) as (r & a & Hal & Hok & Hr).
  rewrite Hal. cbn [mbind option_bind]. destruct r as [f|].
  2: { eexists false, _. split; [reflexivity|].
       split; [intros _; exists []; split; [cbn; lia|intros q Hq; left; by apply Hr]|].
       split; [apply sys_allocate; [done|done|]; intros; by apply Hr|]. split; [done|].
       intros q Hq. cbn [pmm]. destruct (Hr q Hq). done. }
  destruct Hr as (Hmf & Hnt & Htk). set (s1 := mkMachine A (words s) a).
  assert (sys width s1 base T (managed := managed)) as Hs1 by (apply sys_allocate; [done|done|]; intros; apply Htk; auto).
  destruct (allocate_page_result width Hwidth Hmanaged s1 base T v f flags Hs1 Hfl Hflp) as (r & s2 & Hrun & Hres).
  rewrite Hrun. cbn [mbind option_bind].
  assert (forall q, managed q -> fa_taken (pmm s1) q <-> q = f \/ fa_taken (pmm s) q) as Htk1 by exact Htk.
  assert (forall s3, status r = ALLOC_ERROR -> s2 = s3 -> sys width s3 base T (managed := managed) ->
    (forall V, 0 <= V < 512 ^ 4 -> translate width (words s3) base V = translate width (words s1) base V) ->
    (forall q, managed q -> fa_taken (pmm s3) q <-> fa_taken (pmm s1) q) ->
    exists p, fa_free (pmm s2) f = Some (true, p) /\ sys width (mkMachine A (words s2) p) base T (managed := managed)
      /\ forall q, managed q -> fa_taken p q <-> fa_taken (pmm s) q) as Hback.
  { intros s3 E <- Hs2 _ Htk2.
    destruct (fa_free_law (pmm s2) f (sys_pmm _ _ _ _ Hs2) Hmf) as (p & Hf & Hokp & Htkp).
    { apply Htk2, Htk1; auto. }
    exists p. split; [done|].
    assert (T !! f = None) as HTf by (exact (sys_fresh _ _ _ _ _ Hs Hmf Hnt)).
    split; [by eapply (sys_release s2)|]. intros q Hq. rewrite (Htkp q Hq), (Htk2 q Hq), (Htk1 q Hq).
    split; [tauto|]. intros Hq'. split; [|tauto]. intros ->. done. }
  change (translate width (words s1) base (page v)) with (translate width (words s) base (page v)) in Hres.
  destruct (translate width (words s) base (page v)) as [w|] eqn:Htr.
  - destruct Hres as (E & _ & E2). destruct (Hback s1 E E2 Hs1) as (p & Hf & Hsp & Htkp); [done|done|].
    rewrite E, decide_True by discriminate. rewrite Hf. cbn [mbind option_bind]. eexists false, _. split; [reflexivity|].
    split; [done|]. split; [done|]. split; [by rewrite E2|done].
  - destruct Hres as [(E & Hmap & T' & Hsub & Hs2 & Hfr & Htk2)|(E & Hex & Hs2 & Htr2 & Htk2)].
    + rewrite E, decide_False by (intros Hd; by apply Hd). eexists true, s2. split; [reflexivity|]. split; [done|]. exists f, T'.
      split; [done|]. split; [done|]. split.
      { apply eq_None_not_Some. intros HT'. destruct (Hfr f HT') as [[e He]|[_ Hn]].
        - assert (T !! f = None) by (exact (sys_fresh _ _ _ _ _ Hs Hmf Hnt)). congruence.
        - apply Hn, Htk1; auto. }
      split; [done|]. split; [exact Hmap|]. split; [done|]. split.
      * intros q Hq. rewrite (Htk2 q Hq), (Htk1 q Hq). tauto.
      * intros q HTq. destruct (Hfr q HTq) as [|[Hmq Hnq]]; [by left|right]. split; [done|]. intros Hq. apply Hnq, Htk1; auto.
    + destruct (Hback s2 E eq_refl Hs2 Htr2 Htk2) as (p & Hf & Hsp & Htkp).
      rewrite E, decide_True by discriminate. rewrite Hf. cbn [mbind option_bind]. eexists false, _. split; [reflexivity|].
      split; [intros _; by eapply exhausted_taken|]. split; [done|]. split; [exact Htr2|done].
Qed.

(** Unmapping a page of the loaded address space frees the page frame it was mapped to. *)
Lemma vmm_free_result (s : machine A) base T v :
  sys width s base T (managed := managed) -> v mod 4096 = 0 -> addr_prefix v <> HHDM_BEGIN ->
  match translate width (words s) base (page v) with
  | None => free width base s (interp_as_base_page_table base) v = Some (false, s)
  | Some w => forall f, addr width w = f -> managed f -> fa_taken (pmm s) f -> T !! f = None ->
      exists s' T', free width base s (interp_as_base_page_table base) v = Some (true, s')
        /\ T' ⊆ T /\ sys width s' base T' (managed := managed) /\ pruned T' (words s') (page v) 3
        /\ (forall V, 0 <= V < 512 ^ 4 -> translate width (words s') base V =
              if decide (V = page v) then None else translate width (words s) base V)
        /\ forall q, managed q -> fa_taken (pmm s') q <-> fa_taken (pmm s) q /\ q <> f /\ (is_Some (T !! q) -> is_Some (T' !! q))
  end.
Proof using Hwidth.
  intros Hs Hv Hpre. destruct (find_page_result width Hwidth s base T v Hs) as (r & Hrun & Hfound).
  unfold free, virtual_to_physical_address.
  destruct (addr_prefix v =? HHDM_BEGIN) eqn:E; [bool_prop; done|]. clear E.
  unfold find_page in Hrun. rewrite Hrun. cbn [mbind option_bind].
  destruct (translate width (words s) base (page v)) as [w|] eqn:Htr.
  2: { destruct Hfound as [E _]. rewrite E. by rewrite decide_False by discriminate. }
  intros f Hf Hmf Htf HTf. destruct Hfound as (E1 & _ & E2). rewrite E1, decide_True, E2 by done.
  cbn [mbind option_bind].
  assert (get_page_offset v = 0) as ->.
  { unfold get_page_offset. change PAGE_FRAME_OFFSET_MASK with (Z.ones 12). by rewrite Z.land_ones. }
  rewrite Z.add_0_r, addr_level, Hf.
  destruct (free_page_result width Hwidth s base T v Hs) as (r2 & s2 & Hrun2 & Hres).
  rewrite Htr in Hres. destruct Hres as (E3 & T' & Hsub & Hs2 & Hpru & Htr2 & Htk2).
  rewrite Hrun2. cbn [mbind option_bind]. rewrite E3, decide_False by discriminate.
  assert (T' !! f = None) as HTf' by (by eapply lookup_weaken_None).
  destruct (fa_free_law (pmm s2) f (sys_pmm _ _ _ _ Hs2) Hmf) as (p & Hfree & Hokp & Htkp).
  { apply Htk2; [done|]. split; [done|]. rewrite HTf. by intros []. }
  rewrite Hfree. cbn [mbind option_bind]. eexists _, T'. split; [reflexivity|]. split; [done|].
  split; [by eapply (sys_release s2)|]. split; [exact Hpru|]. split; [exact Htr2|].
  intros q Hq. cbn [pmm]. rewrite (Htkp q Hq), (Htk2 q Hq). tauto.
Qed.

(** C4: mapping a page that is not mapped succeeds as long as five page frames are free.  It either changes
    nothing, or maps exactly that page to a page frame that was free and
    is no page table, and takes no page frame besides that one and the new page tables. *)
Theorem allocate_maps_fresh_frame (s : machine A) base T v flags :
  sys width s base T (managed := managed) -> 0 <= flags < 4096 -> Z.testbit flags 0 = true ->
  exists ok s', allocate width s (interp_as_base_page_table base) v flags = Some (ok, s')
    /\ if ok : bool then
         translate width (words s) base (page v) = None
         /\ exists f T', managed f /\ ~ fa_taken (pmm s) f /\ T' !! f = None /\ T ⊆ T'
            /\ mapped width s s' base (page v) (Z.lor f flags) /\ sys width s' base T' (managed := managed)
            /\ (forall q, managed q -> fa_taken (pmm s') q <-> fa_taken (pmm s) q \/ q = f \/ is_Some (T' !! q))
            /\ forall q, is_Some (T' !! q) -> is_Some (T !! q) \/ (managed q /\ ~ fa_taken (pmm s) q)
       else
         (translate width (words s) base (page v) = None -> exhausted s 4 (managed := managed))
         /\ sys width s' base T (managed := managed)
         /\ (forall V, 0 <= V < 512 ^ 4 -> translate width (words s') base V = translate width (words s) base V)
         /\ forall q, managed q -> fa_taken (pmm s') q <-> fa_taken (pmm s) q.
Proof using Hwidth Hmanaged. apply vmm_allocate_result. Qed.

(** C32: what was mapped can be unmapped: after a successful mapping of a page, given by its aligned address, in the
    loaded address space and outside the direct map of physical memory (where nothing is released), unmapping it succeeds, every translation is the one from before, and the page frame is free again. *)
Theorem map_unmap_roundtrip (s : machine A) base T v flags s1 :
  sys width s base T (managed := managed) -> 0 <= flags < 4096 -> Z.testbit flags 0 = true ->
  v mod 4096 = 0 -> addr_prefix v <> HHDM_BEGIN ->
  allocate width s (interp_as_base_page_table base) v flags = Some (true, s1) ->
  exists f s2, translate width (words s1) base (page v) = Some (Z.lor f flags)
    /\ free width base s1 (interp_as_base_page_table base) v = Some (true, s2)
    /\ (forall V, 0 <= V < 512 ^ 4 -> translate width (words s2) base V = translate width (words s) base V)
    /\ fa_taken (pmm s1) f /\ ~ fa_taken (pmm s2) f.
Proof using Hwidth Hmanaged.
  intros Hs Hfl Hflp Hv Hpre Hal.
  destruct (vmm_allocate_result s base T v flags Hs Hfl Hflp) as (ok & s' & Hal' & Hres).
  rewrite Hal in Hal'. injection Hal' as <- <-.
  destruct Hres as (Hnone & f & T1 & Hmf & Hnt & HTf & _ & Hmap & Hs1 & Htk & _).
  pose proof (Hmap (page v) (page_range v)) as Htr. rewrite decide_True in Htr by done.
  pose proof (vmm_free_result s1 base T1 v Hs1 Hv Hpre) as Hfree. rewrite Htr in Hfree.
  destruct (Hfree f) as (s2 & T2 & Hf2 & _ & _ & _ & Htr2 & Htk2); [|done| |done|].
  { apply (pointer_addr width); auto. } { apply Htk; auto. }
  exists f, s2. split; [done|]. split; [done|]. split; [|split; [apply Htk; auto|]].
  - intros V HV. rewrite Htr2 by done. case_decide as E; [by rewrite E|].
    rewrite (Hmap V HV). by rewrite decide_False.
  - intros Hx. apply Htk2 in Hx as (_ & Hne & _); done.
Qed.

(** *** Address spaces *)

Lemma base_entry m p i : frame_ok width p -> 0 <= i < 512 ->
  entry m (interp_as_base_page_table p) i = w ← rd m p i; Some (mkPte w 3).
Proof using Hwidth. intros. by apply (entry_rd width Hwidth m p p 3 i). Qed.

Lemma base_update m p i w x : frame_ok width p -> 0 <= i < 512 -> rd m p i = Some x ->
  update m (interp_as_base_page_table p) i w = Some (write m p i w).
Proof using Hwidth.
  intros Hp Hi Hx. unfold update. cbn [pt_addr interp_as_base_page_table].
  rewrite p2v by (eapply frame_small; eauto). fold (waddr p i). unfold rd in Hx. by rewrite Hx.
Qed.

(** The entry a new base page table gets. *)
Definition shared_entry (i w : Z) : Z := if 256 <=? i then (if present w then w else 0) else 0.

Lemma share_loop_spec f base n : frame_ok width f -> frame_ok width base -> f <> base ->
  forall m i, 0 <= i -> i + Z.of_nat n <= 512 -> (forall j, 0 <= j < 512 -> is_Some (rd m f j)) ->
  (forall j, 0 <= j < 512 -> is_Some (rd m base j)) ->
  exists m', share_loop n m (interp_as_base_page_table f) (interp_as_base_page_table base) i = Some m'
    /\ (forall j, i <= j < i + Z.of_nat n -> exists w, rd m base j = Some w /\ rd m' f j = Some (shared_entry j w))
    /\ (forall q j, frame_ok width q -> 0 <= j < 512 -> q <> f \/ j < i -> rd m' q j = rd m q j).
Proof using Hwidth.
  intros Hf Hb Hne. induction n as [|n IH]; intros m i Hi Hn Hmf Hmb; cbn [share_loop].
  { exists m. split; [done|]. split; [lia|done]. }
  destruct (Hmb i ltac:(lia)) as [w Hw]. destruct (Hmf i ltac:(lia)) as [x Hx].
  assert ((if PT_MAX_SIZE / 2 <=? i then
             pte ← entry m (interp_as_base_page_table base) i; Some (if is_present pte then native_entry pte else 0)
           else Some 0) = Some (shared_entry i w)) as ->.
  { unfold shared_entry. change (PT_MAX_SIZE / 2) with 256. destruct (256 <=? i); [|done].
    rewrite base_entry by (done || lia). rewrite Hw. cbn [mbind option_bind]. by rewrite present_bit. }
  cbn [mbind option_bind]. rewrite (base_update m f i _ x) by (done || lia). cbn [mbind option_bind].
  assert (forall q j, frame_ok width q -> 0 <= j < 512 -> (q, j) <> (f, i) ->
    rd (write m f i (shared_entry i w)) q j = rd m q j) as Hrest.
  { intros q j Hq Hj Hd. apply rd_write_ne; [apply Hf|apply Hq|lia|done|done]. }
  destruct (IH (write m f i (shared_entry i w)) (i + 1)) as (m' & Hrun & Hnew & Hold); [lia|lia| | |].
  { intros j Hj. destruct (decide (j = i)) as [->|]; [rewrite rd_write_eq; eauto|].
    rewrite Hrest by (done || congruence). by apply Hmf. }
  { intros j Hj. rewrite Hrest by (done || congruence). by apply Hmb. }
  exists m'. split; [done|]. split.
  - intros j Hj. destruct (decide (j = i)) as [->|].
    + exists w. split; [done|]. rewrite Hold by (done || lia). apply rd_write_eq.
    + destruct (Hnew j) as (w' & Hw' & Hr'); [lia|]. exists w'. split; [|done].
      rewrite <- Hw'. symmetry. apply Hrest; [done|lia|congruence].
  - intros q j Hq Hj Hd. rewrite Hold by (done || lia). apply Hrest; [done|done|].
    intros [= -> ->]. lia.
Qed.

Lemma lookup_from_S n m p V : lookup_from width (S n) m p V =
  w ← rd m p (index V (S n)); if present w then lookup_from width n m (addr width w) V else None.
Proof using. done. Qed.

(** C33: a new address space shares the kernel half with the loaded one and has an empty user half; the
    loaded address space is unchanged, and only the new base page table is taken. *)
Theorem new_address_space_shares_kernel (s : machine A) base T :
  sys width s base T (managed := managed) ->
  exists r s', allocate_virtual_address_space base s = Some (r, s') /\ sys width s' base T (managed := managed)
    /\ (forall V, 0 <= V < 512 ^ 4 -> translate width (words s') base V = translate width (words s) base V)
    /\ match r with
       | None => exhausted s 0 (managed := managed)
       | Some f => ~ fa_taken (pmm s) f
           /\ (forall q, managed q -> fa_taken (pmm s') q <-> q = f \/ fa_taken (pmm s) q)
           /\ forall V, 0 <= V < 512 ^ 4 -> translate width (words s') f V =
                if 256 <=? index V 3 then translate width (words s) base V else None
       end.
Proof using Hwidth Hmanaged.
  intros Hs. pose proof (sys_hier _ _ _ _ Hs) as Hh. unfold allocate_virtual_address_space.
  destruct (fa_allocate_law (pmm s) (sys_pmm _ _ _ _ Hs)) as (r & a & Hal & Hok & Hr).
  rewrite Hal. cbn [mbind option_bind]. destruct r as [f|].
  2: { eexists None, _. split; [reflexivity|].
       split; [apply sys_allocate; [done|done|]; intros; by apply Hr|]. split; [done|].
       exists []. split; [cbn; lia|]. intros q Hq. left. by apply Hr. }
  destruct Hr as (Hmf & Hnt & Htk). pose proof (Hmanaged f Hmf) as Hf.
  pose proof (sys_fresh _ _ _ _ _ Hs Hmf Hnt) as HTf. pose proof (hier_base _ _ _ _ Hh) as HTb.
  assert (f <> base) as Hfb by congruence. pose proof (hier_frame _ _ _ _ Hh _ _ HTb) as Hb.
  destruct (share_loop_spec f base 512 Hf Hb Hfb (words s) 0) as (m' & Hrun & Hnew & Hold); [done|done| | |].
  { intros j Hj. by apply (sys_mapped _ _ _ _ Hs). }
  { intros j Hj. by apply (hier_words _ _ _ _ Hh _ _ j HTb). }
  rewrite Hrun. cbn [mbind option_bind].
  assert (forall p e i, T !! p = Some e -> 0 <= i < 512 -> rd m' p i = rd (words s) p i) as Hsame.
  { intros p e i HT Hi. apply Hold; [by eapply hier_frame|done|left; congruence]. }
  destruct (hier_outside width Hh m' Hsame) as [Hh' Htr].
  eexists (Some f), _. split; [reflexivity|]. split; [|split; [done|split; [done|split; [done|]]]].
  - destruct Hs as [_ _ Hm Hbt Hw]. split; cbn [words pmm]; [done|done| | |].
    + intros p e HT Hne. destruct (Hm p e HT Hne). split; [done|]. apply Htk; auto.
    + intros. apply Htk; auto.
    + intros p j Hp Hj. destruct (decide (p = f)) as [->|].
      * destruct (Hnew j) as (w & _ & Hr); [lia|]. eauto.
      * rewrite Hold by auto. by apply Hw.
  - intros V HV. cbn [words]. destruct (Hnew (index V 3) (index_range V 3)) as (w & Hw & Hr).
    unfold translate. rewrite !lookup_from_S, Hr, Hw. cbn [mbind option_bind]. unfold shared_entry.
    destruct (256 <=? index V 3); [|done]. destruct (present w) eqn:Hpr; [|done]. rewrite Hpr.
    assert (T !! addr width w = Some (2%nat, pre V 2)) as Hc.
    { eapply (walk_child width Hh); [|exact Hw|done]. by rewrite pre_top. }
    eapply (lookup_local width Hh m' base 3 0 (if decide (index V 3 = 0) then 1 else 0)); [done|by case_decide| | |done].
    + intros p e i HT Hi _. by eapply Hsame.
    + intros [_ E]. case_decide; lia.
Qed.

(** *** Tearing an address space down *)

Definition owned_entry (below : Z -> list Z) (m : gmap Z Z) (p i : Z) : list Z :=
  match rd m p i with Some x => if present x then below x else [] | None => [] end.

(** The frames behind an entry [w] of level [l], in the order they are freed. *)
Fixpoint owned (l : nat) (m : gmap Z Z) (w : Z) : list Z :=
  match l with
  | O => []
  | S l' => concat (owned_entry (owned l' m) m (addr width w) <$> seqZ 0 512)
  end ++ [addr width w].

(** The frames behind the entries [i], ..., [i + n - 1] of the table [p]. *)
Definition owned_range (l : nat) (m : gmap Z Z) (p i : Z) (n : nat) : list Z :=
  concat (owned_entry (owned l m) m p <$> seqZ i (Z.of_nat n)).

Lemma owned_range_S l m p i n :
  owned_range l m p i (S n) = owned_entry (owned l m) m p i ++ owned_range l m p (i + 1) n.
Proof using Hwidth.
  unfold owned_range. rewrite seqZ_cons by lia. cbn [fmap list_fmap concat].
  by replace (Z.pred (Z.of_nat (S n))) with (Z.of_nat n) by lia.
Qed.

Lemma owned_eq l m w : owned l m w =
  match l with O => [] | S l' => owned_range l' m (addr width w) 0 512 end ++ [addr width w].
Proof using Hwidth. by destruct l. Qed.

(** What is owned depends only on the owned tables. *)
Lemma owned_ext l m m' : forall w,
  (forall q j, q ∈ owned l m w -> 0 <= j < 512 -> rd m' q j = rd m q j) -> owned l m' w = owned l m w.
Proof using Hwidth.
  induction l as [|l IH]; intros w Hsame; [done|]. cbn [owned]. do 2 f_equal.
  apply list_fmap_ext. intros k i Hi. apply list_elem_of_lookup_2, elem_of_seqZ in Hi.
  unfold owned_entry. rewrite Hsame; [|rewrite owned_eq; apply elem_of_app; right; by left|lia].
  destruct (rd m (addr width w) i) as [x|] eqn:Hx; [|done]. destruct (present x) eqn:Hpr; [|done].
  apply IH. intros q j Hq Hj. apply Hsame; [|done]. cbn [owned]. apply elem_of_app. left.
  apply list_elem_of_In, in_concat. exists (owned l m x). split; [|by apply list_elem_of_In].
  apply list_elem_of_In, list_elem_of_fmap. exists i. split; [|by apply elem_of_seqZ].
  unfold owned_entry. by rewrite Hx, Hpr.
Qed.

Lemma owned_range_ext l m m' p n : forall i, 0 <= i -> i + Z.of_nat n <= 512 ->
  (forall j, i <= j < i + Z.of_nat n -> rd m' p j = rd m p j) ->
  (forall q j, q ∈ owned_range l m p i n -> 0 <= j < 512 -> rd m' q j = rd m q j) ->
  owned_range l m' p i n = owned_range l m p i n.
Proof using Hwidth.
  induction n as [|n IH]; intros i Hi Hn Hp Hsame; [done|]. rewrite !owned_range_S in *. f_equal.
  - unfold owned_entry in *. rewrite Hp by lia. destruct (rd m p i) as [x|]; [|done].
    destruct (present x); [|done]. apply owned_ext. intros q j Hq. apply Hsame, elem_of_app. by left.
  - apply IH; [lia|lia|intros; apply Hp; lia|]. intros q j Hq. apply Hsame, elem_of_app. by right.
Qed.

(** A machine whose page frames are all mapped, and that regards the frames of [l] as in use. *)
Record holds (s : machine A) (l : list Z) : Prop := {
  holds_ok : fa_ok (pmm s);
  holds_taken : forall q, q ∈ l -> managed q /\ fa_taken (pmm s) q;
  holds_mapped : forall q j, managed q -> 0 <= j < 512 -> is_Some (rd (words s) q j);
}.

(** The frames of [l] have been freed; besides their memory and the table [p], nothing has changed. *)
Record freed (s s' : machine A) (l : list Z) (p : Z -> Prop) : Prop := {
  freed_ok : fa_ok (pmm s');
  freed_taken : forall q, managed q -> fa_taken (pmm s') q <-> fa_taken (pmm s) q /\ q ∉ l;
  freed_same : forall q j, frame_ok width q -> 0 <= j < 512 -> q ∉ l -> ~ p q -> rd (words s') q j = rd (words s) q j;
  freed_mapped : forall q j, is_Some (rd (words s) q j) -> is_Some (rd (words s') q j);
}.

Lemma free_frame_spec s w lv : holds s [addr width w] ->
  exists s', free_frame width s (mkPte w lv) = Some (true, s') /\ freed s s' [addr width w] (fun _ => False).
Proof using Hwidth.
  intros [Hok Ht Hm]. destruct (Ht (addr width w)) as [Hmw Htw]; [by left|].
  destruct (fa_free_law (pmm s) _ Hok Hmw Htw) as (a & Hf & Hoka & Htka).
  unfold free_frame. rewrite addr_level, Hf. cbn [mbind option_bind]. eexists. split; [reflexivity|].
  split; [done| |done|done]. intros q Hq. cbn [pmm]. rewrite (Htka q Hq), list_elem_of_singleton. tauto.
Qed.

Lemma freed_trans s1 s2 s3 l1 l2 p : freed s1 s2 l1 p -> freed s2 s3 l2 p -> freed s1 s3 (l1 ++ l2) p.
Proof using Hwidth.
  intros [O1 T1 S1 M1] [O2 T2 S2 M2]. split; [done| | |auto].
  - intros q Hq. rewrite T2, T1, elem_of_app by done. tauto.
  - intros q j Hq Hj Hn Hp. rewrite elem_of_app in Hn. rewrite S2, S1 by tauto. done.
Qed.

Lemma freed_weaken s1 s2 l (p p' : Z -> Prop) : (forall q, p q -> p' q) -> freed s1 s2 l p -> freed s1 s2 l p'.
Proof using Hwidth. intros Hp [O1 T1 S1 M1]. split; [done..| |done]. intros. apply S1; auto. Qed.

Lemma holds_after s s' l l' p : holds s (l ++ l') -> NoDup (l ++ l') -> freed s s' l p -> holds s' l'.
Proof using Hwidth.
  intros [Hok Ht Hm] Hnd [O1 T1 S1 M1]. apply NoDup_app in Hnd as (_ & Hd & _). split; [done| |auto].
  intros q Hq. destruct (Ht q) as [Hmq Htq]; [apply elem_of_app; by right|]. split; [done|].
  apply T1; [done|]. split; [done|]. intros Hin. by apply (Hd q Hin).
Qed.

Lemma table_update m npte lv p i w x : frame_ok width p -> rd m p i = Some x ->
  update m (mkPt npte (physical_to_virtual_address p) lv) i w = Some (write m p i w).
Proof using Hwidth.
  intros Hp Hx. unfold update. cbn [pt_addr]. rewrite p2v by (eapply frame_small; eauto).
  fold (waddr p i). unfold rd in Hx. by rewrite Hx.
Qed.

(** Clearing an entry of the table [p]. *)
Lemma freed_write s s1 l p i : freed s s1 l (fun _ => False) -> frame_ok width p -> 0 <= i < 512 -> p ∉ l ->
  let s2 := mkMachine A (write (words s1) p i 0) (pmm s1) in
  freed s s2 l (fun q => q = p)
  /\ (forall j, 0 <= j < 512 -> j <> i -> rd (words s2) p j = rd (words s) p j) /\ rd (words s2) p i = Some 0.
Proof using Hwidth.
  intros [O1 T1 S1 M1] Hp Hi Hn s2. split; [split; [done|done| |]|split].
  - intros q j Hq Hj Hql Hqp. cbn [words s2]. rewrite rd_write_ne; [by apply S1; auto|apply Hp|apply Hq|done|done|congruence].
  - intros q j Hq. cbn [words s2]. unfold rd, write. destruct (decide (waddr q j = waddr p i)) as [->|].
    + rewrite lookup_insert_eq. eauto.
    + rewrite lookup_insert_ne by done. by apply M1.
  - intros j Hj Hne. cbn [words s2]. rewrite rd_write_ne; [by apply S1; auto|apply Hp|apply Hp|done|done|congruence].
  - apply rd_write_eq.
Qed.

(** How the recursive call is used. *)
Definition frees (rec : machine A -> PageTableEntry -> option (bool * machine A)) (l : nat) : Prop :=
  forall s w, holds s (owned l (words s) w) -> NoDup (owned l (words s) w) ->
    exists s', rec s (mkPte w (Z.of_nat l)) = Some (true, s') /\ freed s s' (owned l (words s) w) (fun _ => False).

(** The entries [i], ..., [i + n - 1] of the table [p] are not present. *)
Definition cleared (m : gmap Z Z) (p i : Z) (n : nat) : Prop :=
  forall j, i <= j < i + Z.of_nat n -> exists x, rd m p j = Some x /\ present x = false.

(** What is left to free after an entry was freed and cleared. *)
Lemma rest_unchanged s s2 l p i n before : 0 <= i -> i + Z.of_nat (S n) <= 512 ->
  freed s s2 before (fun q => q = p) ->
  (forall j, 0 <= j < 512 -> j <> i -> rd (words s2) p j = rd (words s) p j) ->
  holds s (before ++ owned_range l (words s) p (i + 1) n) -> NoDup (before ++ owned_range l (words s) p (i + 1) n) ->
  p ∉ before ++ owned_range l (words s) p (i + 1) n ->
  owned_range l (words s2) p (i + 1) n = owned_range l (words s) p (i + 1) n
  /\ holds s2 (owned_range l (words s) p (i + 1) n).
Proof using Hwidth Hmanaged.
  intros Hi Hn Hfr Hp Hholds Hnd Hpn. split; [|by eapply holds_after].
  apply owned_range_ext; [lia|lia|intros; apply Hp; lia|]. intros q j Hq Hj.
  assert (q ∈ before ++ owned_range l (words s) p (i + 1) n) as Hq' by (apply elem_of_app; by right).
  destruct (holds_taken _ _ Hholds q Hq') as [Hmq _]. apply (freed_same _ _ _ _ Hfr); [by apply Hmanaged|done| |].
  - apply NoDup_app in Hnd as (_ & Hd & _). intros Hin. by apply (Hd q Hin).
  - by intros ->.
Qed.

Lemma free_entries_spec rec l p npte : frees rec l -> (l <= 3)%nat -> frame_ok width p -> forall n s i,
  0 <= i -> i + Z.of_nat n <= 512 -> holds s (owned_range l (words s) p i n) ->
  NoDup (owned_range l (words s) p i n) -> p ∉ owned_range l (words s) p i n ->
  (forall j, 0 <= j < 512 -> is_Some (rd (words s) p j)) ->
  exists s', free_entries rec (mkPt npte (physical_to_virtual_address p) (Z.of_nat l + 1)) n s i = Some (true, s')
    /\ freed s s' (owned_range l (words s) p i n) (fun q => q = p) /\ cleared (words s') p i n
    /\ forall j, 0 <= j < 512 -> ~ (i <= j < i + Z.of_nat n) -> rd (words s') p j = rd (words s) p j.
Proof using Hwidth Hmanaged.
  intros Hrec Hl Hp. induction n as [|n IH]; intros s i Hi Hn Hholds Hnd Hpn Hm; cbn [free_entries].
  { exists s. split; [done|]. split; [|split; [intros j; lia|done]]. split; [apply Hholds| |done|done].
    intros q _. split; [intros; split; [done|apply not_elem_of_nil]|tauto]. }
  rewrite owned_range_S in *. destruct (Hm i ltac:(lia)) as [w Hw].
  rewrite (entry_rd width Hwidth) by (done || lia). rewrite Hw. cbn [mbind option_bind]. rewrite present_bit.
  unfold owned_entry in *. rewrite Hw in *. destruct (present w) eqn:Hpr.
  - assert (holds s (owned l (words s) w)) as Hhw.
    { destruct Hholds as [? Ht ?]. split; [done| |done]. intros q Hq. apply Ht, elem_of_app. by left. }
    destruct (Hrec s w Hhw) as (s1 & Hr1 & Hf1); [by apply NoDup_app in Hnd as (? & _)|].
    rewrite Hr1. cbn [mbind option_bind negb].
    assert (p ∉ owned l (words s) w) as Hpo by (intros Hin; apply Hpn, elem_of_app; by left).
    destruct (freed_write s s1 _ p i Hf1 Hp ltac:(lia) Hpo) as (Hf2 & Hold & Hnew).
    destruct (freed_mapped _ _ _ _ Hf1 p i ltac:(eauto)) as [x Hx].
    rewrite (table_update _ _ _ p i 0 x Hp Hx). cbn [mbind option_bind].
    set (s2 := mkMachine A _ _) in *. destruct (rest_unchanged s s2 l p i n _ Hi Hn Hf2 Hold Hholds Hnd Hpn) as [E Hh2].
    destruct (IH s2 (i + 1)) as (s' & Hrun & Hf3 & Hcl & Hrest); rewrite ?E; [lia|lia|done| | | |].
    { by apply NoDup_app in Hnd as (_ & _ & ?). }
    { intros Hin. apply Hpn, elem_of_app. by right. }
    { intros j Hj. apply (freed_mapped _ _ _ _ Hf2). by apply Hm. }
    rewrite E in Hf3. exists s'. split; [done|]. split; [by eapply freed_trans|]. split.
    + intros j Hj. destruct (decide (j = i)) as [->|]; [|apply Hcl; lia].
      exists 0. split; [|done]. rewrite Hrest by lia. exact Hnew.
    + intros j Hj Hnj. rewrite Hrest by lia. apply Hold; [done|lia].
  - destruct (IH s (i + 1)) as (s' & Hrun & Hf3 & Hcl & Hrest); [lia|lia|done|done|done|done|].
    exists s'. split; [done|]. split; [done|]. split.
    + intros j Hj. destruct (decide (j = i)) as [->|]; [|apply Hcl; lia].
      exists w. split; [|done]. by rewrite Hrest by lia.
    + intros j Hj Hnj. by rewrite Hrest by lia.
Qed.

Lemma rec_frees l : (l <= 3)%nat -> forall fuel, (l < fuel)%nat -> frees (free_virtual_address_space_rec width fuel) l.
Proof using Hwidth Hmanaged.
  induction l as [|l IH]; intros Hl fuel Hfuel s w Hholds Hnd; (destruct fuel as [|fuel]; [lia|]);
    cbn [free_virtual_address_space_rec pte_level native_entry].
  - change (0 <? Z.of_nat 0) with false. cbv iota. by apply free_frame_spec.
  - destruct (0 <? Z.of_nat (S l)) eqn:E; [|bool_prop; lia]. clear E.
    unfold free_limit, is_base_page_table. cbn [pt_level].
    destruct (Z.of_nat (S l) =? MAX_PT_LEVEL) eqn:E; [apply Z.eqb_eq in E; change MAX_PT_LEVEL with 4 in E; lia|]. clear E.
    rewrite owned_eq in *. rewrite addr_level. replace (Z.of_nat (S l)) with (Z.of_nat l + 1) by lia.
    assert (holds s (owned_range l (words s) (addr width w) 0 512)) as Hh1.
    { destruct Hholds as [? Ht ?]. split; [done| |done]. intros q Hq. apply Ht, elem_of_app. by left. }
    pose proof Hnd as (Hnd1 & Hd & _)%NoDup_app.
    destruct (free_entries_spec _ l (addr width w) w (IH ltac:(lia) fuel ltac:(lia)) ltac:(lia)
      (address_ok width Hwidth _) 512 s 0) as (s1 & Hrun & Hf1 & _); [done|done|done|done| | |].
    { intros Hin. apply (Hd _ Hin). by left. }
    { intros j Hj. apply Hholds; [|done]. apply (holds_taken _ _ Hholds), elem_of_app. right. by left. }
    rewrite Hrun. cbn [mbind option_bind negb].
    pose proof (holds_after _ _ _ _ _ Hholds Hnd Hf1) as Hh2.
    destruct (free_frame_spec s1 w (Z.of_nat l + 1) Hh2) as (s' & Hrun2 & Hf2).
    exists s'. split; [exact Hrun2|].
    pose proof (freed_trans _ _ _ _ _ _ Hf1 (freed_weaken _ _ _ (fun _ => False) (fun q => q = addr width w) (fun q F => match F with end) Hf2)) as [O3 T3 S3 M3].
    split; [done|done| |done]. intros q j Hq Hj Hn _. apply S3; [done|done|done|].
    intros ->. apply Hn, elem_of_app. right. by left.
Qed.

(** The page tables and page frames of the user half. *)
Definition user_frames (m : gmap Z Z) (base : Z) : list Z := owned_range 3 m base 0 256.

(** C13: tearing down an address space succeeds when the page tables and page frames of its user half are
    distinct page frames in use: exactly those are free afterwards, no user page is mapped any more, and no
    translation of the kernel half has changed, as its tables are not among them. *)
Theorem teardown_frees_user_half (s : machine A) base T :
  sys width s base T (managed := managed) ->
  (forall q, q ∈ user_frames (words s) base -> managed q /\ fa_taken (pmm s) q) ->
  NoDup (user_frames (words s) base) -> base ∉ user_frames (words s) base ->
  (forall V n p, 0 <= V < 512 ^ 4 -> 256 <= index V 3 -> T !! p = Some (n, pre V n) -> p ∉ user_frames (words s) base) ->
  exists s', free_virtual_address_space width s base = Some (true, s')
    /\ (forall q, managed q -> fa_taken (pmm s') q <-> fa_taken (pmm s) q /\ q ∉ user_frames (words s) base)
    /\ forall V, 0 <= V < 512 ^ 4 -> translate width (words s') base V =
         if index V 3 <? 256 then None else translate width (words s) base V.
Proof using Hwidth Hmanaged.
  intros Hs Ht Hnd Hbn Hapart. pose proof (sys_hier _ _ _ _ Hs) as Hh. pose proof (hier_base _ _ _ _ Hh) as HTb.
  pose proof (hier_frame _ _ _ _ Hh _ _ HTb) as Hb.
  destruct (free_entries_spec (free_virtual_address_space_rec width 4) 3 base base (rec_frees 3 ltac:(lia) 4 ltac:(lia))
    ltac:(lia) Hb 256 s 0) as (s' & Hrun & Hf & Hcl & Hrest); [done|done| |done|done| |].
  { split; [by apply Hs|done|by apply Hs]. }
  { intros j Hj. by apply (hier_words _ _ _ _ Hh _ _ _ HTb). }
  exists s'. split; [|split; [apply Hf|]].
  - unfold free_virtual_address_space.
    change (free_virtual_address_space_rec width 5 s (to_page_table_entry (interp_as_base_page_table base))) with
      ('(ok, s0) ← free_entries (free_virtual_address_space_rec width 4)
         (mkPt base (physical_to_virtual_address (get_address width (mkPte base 4))) (Z.of_nat 3 + 1)) 256 s 0;
       if negb ok then Some (false, s0) else Some (true, s0)).
    rewrite base_address by done. by rewrite Hrun.
  - intros V HV. unfold translate. rewrite !lookup_from_S. pose proof (index_range V 3).
    destruct (index V 3 <? 256) eqn:E; bool_prop.
    + destruct (Hcl (index V 3)) as (x & Hx & Hpr); [lia|]. rewrite Hx. cbn [mbind option_bind]. by rewrite Hpr.
    + rewrite Hrest by lia. destruct (rd (words s) base (index V 3)) as [w|] eqn:Hw; [|done].
      cbn [mbind option_bind]. destruct (present w) eqn:Hpr; [|done].
      assert (T !! addr width w = Some (2%nat, pre V 2)) as Hc.
      { eapply (walk_child width Hh); [|exact Hw|done]. by rewrite pre_top. }
      revert Hc. generalize (addr width w). clear w Hw Hpr.
      assert (forall n, (n <= 2)%nat -> forall p, T !! p = Some (n, pre V n) ->
        lookup_from width n (words s') p V = lookup_from width n (words s) p V) as Hind; [|by apply Hind].
      assert (forall n p, (n <= 2)%nat -> T !! p = Some (n, pre V n) ->
        rd (words s') p (index V n) = rd (words s) p (index V n)) as Hword.
      { intros n p Hn HT. apply (freed_same _ _ _ _ Hf); [by eapply hier_frame|apply index_range| |].
        - by eapply Hapart. - intros ->. rewrite HTb in HT. injection HT as ?. lia. }
      induction n as [|n IHn]; intros Hn p HT; cbn [lookup_from]; rewrite Hword by done; [done|].
      destruct (rd (words s) p (index V (S n))) as [w|] eqn:Hw; [|done]. cbn [mbind option_bind].
      destruct (present w) eqn:Hpr; [|done]. apply IHn; [lia|]. by eapply (walk_child width Hh).
Qed.

(** A kernel region whose first page cannot be mapped is reported as mapped: [alloc_limit] stays 0, which
    [allocate_kernel_space_entries] takes for success, and it goes on to claim the region. *)
Theorem first_page_failure_ignored cr3 (s : machine A) base T v_start p_reg flags ty v_map name claimed c v_map' w :
  sys width s base T (managed := managed) -> 0 < Region.size p_reg -> in_width 64 v_start ->
  0 <= flags < 4096 -> Z.testbit flags 0 = true ->
  translate width (words s) base (page v_start) = Some w ->
  MemMap.claim v_map (Region.mkRegion v_start (Region.size p_reg) ty) get_page_size = Some (claimed, c, v_map') ->
  exists r, allocate_kernel_space_entries width cr3 s (interp_as_base_page_table base) v_start p_reg flags ty v_map name
      = Some (r, s, v_map')
    /\ has_error r = false /\ status (alloc_pta r) = ALLOC_ERROR /\ claim_error r = claimed.
Proof using Hwidth Hmanaged.
  intros Hs Hsz Hv Hfl Hflp Htr Hcl. unfold allocate_kernel_space_entries, page_fuel. set (fuel := Z.to_nat _).
  cbn [map_loop]. destruct (0 <? Region.size p_reg) eqn:E; [|bool_prop; lia]. clear E.
  rewrite Z.add_0_r, (wrap_small 64 v_start) by done.
  destruct (allocate_page_result width Hwidth Hmanaged s base T v_start (u64 (Region.start p_reg + 0)) flags Hs Hfl Hflp)
    as (pta & s1 & Hrun & Hres).
  rewrite Htr in Hres. destruct Hres as (E & _ & ->). rewrite Hrun. cbn [mbind option_bind].
  rewrite E, decide_True by discriminate. cbn [mbind option_bind]. change (0 <? 0) with false. cbv iota.
  rewrite Hcl. cbn [mbind option_bind]. eexists. split; [reflexivity|]. done.
Qed.
End ops.
End VmmOps.

(** ** A small machine *)
Module VmmExample.
Import PmmFrames PagingExample VmmOps.
#[local] Existing Instance laws0.

(** The page at 0x400000 of the empty address space. *)
Definition v1 : Z := 0x400000.

Lemma allocate_maps_fresh_frame_witness : exists s' f,
  allocate 36 machine0 (interp_as_base_page_table base0) v1 7 = Some (true, s')
  /\ managed Pmm.pmm0 f /\ ~ frame_used Pmm.pmm0 Pmm.pmm0 f
  /\ translate 36 (words s') base0 (page v1) = Some (Z.lor f 7).
Proof.
  destruct (allocate_maps_fresh_frame 36 ltac:(lia) managed0 machine0 base0 _ v1 7 sys0 ltac:(lia) eq_refl)
    as (ok & s' & Hrun & Hres). destruct ok.
  - destruct Hres as (_ & f & T' & Hm & Hnt & _ & _ & Hmap & _). exists s', f.
    split; [exact Hrun|]. split; [exact Hm|]. split; [exact Hnt|].
    rewrite (Hmap (page v1)) by apply page_range. by rewrite decide_True.
  - destruct Hres as [Hex _]. destruct (not_exhausted0 4 ltac:(lia) (Hex (empty0 _))).
Defined.

Lemma allocated1 : exists s1, allocate 36 machine0 (interp_as_base_page_table base0) v1 7 = Some (true, s1).
Proof.
  destruct (vmm_allocate_result 36 ltac:(lia) managed0 machine0 base0 _ v1 7 sys0 ltac:(lia) eq_refl)
    as (ok & s' & Hrun & Hres). destruct ok; [eauto|].
  destruct Hres as [Hex _]. destruct (not_exhausted0 4 ltac:(lia) (Hex (empty0 _))).
Qed.

Lemma map_unmap_roundtrip_witness : exists s1 f s2,
  allocate 36 machine0 (interp_as_base_page_table base0) v1 7 = Some (true, s1)
  /\ translate 36 (words s1) base0 (page v1) = Some (Z.lor f 7)
  /\ free 36 base0 s1 (interp_as_base_page_table base0) v1 = Some (true, s2)
  /\ translate 36 (words s2) base0 (page v1) = None.
Proof.
  destruct allocated1 as (s1 & Hrun).
  destruct (map_unmap_roundtrip 36 ltac:(lia) managed0 machine0 base0 _ v1 7 s1 sys0 ltac:(lia) eq_refl eq_refl
    ltac:(by compute) Hrun) as (f & s2 & Htr & Hfree & Hback & _).
  exists s1, f, s2. split; [exact Hrun|]. split; [exact Htr|]. split; [exact Hfree|].
  rewrite (Hback (page v1)) by apply page_range. apply empty0.
Defined.

(** The new address space is made from the empty one. *)
Lemma new_address_space_shares_kernel_witness : exists f s',
  allocate_virtual_address_space base0 machine0 = Some (Some f, s')
  /\ translate 36 (words s') f (page v1) = None.
Proof.
  destruct (new_address_space_shares_kernel 36 ltac:(lia) managed0 machine0 base0 _ sys0) as (r & s' & Hrun & _ & _ & Hres).
  destruct r as [f|]; [|destruct (not_exhausted0 0 ltac:(lia) Hres)].
  destruct Hres as (_ & _ & Htr). exists f, s'. split; [exact Hrun|].
  rewrite (Htr (page v1)) by apply page_range. reflexivity.
Defined.

(** *** An address space with one user page

    The page at 0x400000 is mapped to the page frame at 0x6000 through the tables at 0x3000, 0x4000 and 0x5000. *)
Definition T1 : gmap Z (nat * Z) :=
  <[0x5000 := (0%nat, 2)]> (<[0x4000 := (1%nat, 0)]> (<[0x3000 := (2%nat, 0)]> {[base0 := (3%nat, 0)]})).

Definition m1 : gmap Z Z := write (flat_memory 8192) base0 0 0x3007.
Definition m2 : gmap Z Z := write m1 0x3000 0 0x4007.
Definition m3 : gmap Z Z := write m2 0x4000 2 0x5007.
Definition machine1 : machine Pmm.BitMapAllocator :=
  mkMachine _ (write m3 0x5000 0 0x6007) (Pmm.with_bitmap Pmm.pmm0 [127; 0]).

Lemma write_zero m p i w q j : p mod 4096 = 0 -> q mod 4096 = 0 -> 0 <= i < 512 -> 0 <= j < 512 ->
  q <> p \/ j <> i -> rd m q j = Some 0 -> rd (write m p i w) q j = Some 0.
Proof. intros. rewrite rd_write_ne; [done..|]. intros [= -> ->]. tauto. Qed.

Ltac table_zero :=
  repeat match goal with
    | |- rd (write _ _ _ _) _ _ = _ => apply write_zero; [reflexivity|done|lia|lia|left; compute; discriminate|]
    end; apply flat_zero; [done|lia|lia].

Lemma link_user p n q i f m T : hier 36 m base0 T -> T !! p = Some (S n, q) -> 0 <= i < 512 ->
  rd m p i = Some 0 -> frame_ok 36 f -> T !! f = None -> (forall j, 0 <= j < 512 -> rd m f j = Some 0) ->
  hier 36 (write m p i (Z.lor f 7)) base0 (<[f := (n, q * 512 + i)]> T).
Proof.
  intros Hh Hp Hi Hw Hf HTf Hz. eapply (hier_link 36 Hh p n q i 0 f); [done|done|done|done|done|done|done| |].
  - by rewrite (pointer_present 36 ltac:(lia)).
  - by apply (pointer_addr 36 ltac:(lia)).
Qed.

Lemma hier1 : hier 36 (words machine1) base0 T1.
Proof.
  assert (hier 36 (flat_memory 8192) base0 {[base0 := (3%nat, 0)]}) as H0.
  { apply hier_empty; [by split|]. intros i Hi. apply flat_zero; done. }
  assert (hier 36 m1 base0 (<[0x3000 := (2%nat, 0)]> {[base0 := (3%nat, 0)]})) as H1.
  { apply (link_user base0 2 0 0 0x3000 _ _ H0); [done|done|by apply flat_zero|by split|done|]. intros. table_zero. }
  assert (hier 36 m2 base0 (<[0x4000 := (1%nat, 0)]> (<[0x3000 := (2%nat, 0)]> {[base0 := (3%nat, 0)]}))) as H2.
  { apply (link_user 0x3000 1 0 0 0x4000 _ _ H1); [done|done| |by split|done|]; intros; unfold m1; table_zero. }
  assert (hier 36 m3 base0 T1) as H3.
  { apply (link_user 0x4000 0 0 2 0x5000 _ _ H2); [done|done| |by split|done|]; intros; unfold m2, m1; table_zero. }
  by apply (hier_leaf 36 H3 0x5000 2 0 0x6007).
Qed.

Lemma sys1 : sys 36 (managed := managed Pmm.pmm0) machine1 base0 T1.
Proof.
  split; [exact hier1| | | |].
  - split; [|done|].
    + destruct Pmm.pmm0_wf. split; try done. apply Pmm.wf_bytes_list. repeat constructor; done.
    + intros i Hi Hp. exfalso. revert Hp. apply not_true_iff_false.
      assert (Forall (fun i => Pmm.protects Pmm.pmm0 (0 + i * 4096) 1 = false) (seqZ 0 16)) as Hall.
      { apply (bool_decide_unpack _). vm_compute. exact I. }
      rewrite Forall_forall in Hall. apply Hall, elem_of_seqZ. exact Hi.
  - intros p e HT Hne. unfold T1 in HT. rewrite !lookup_insert_Some, lookup_singleton_Some in HT.
    destruct HT as [[<- _]|[_ [[<- _]|[_ [[<- _]|[_ [<- _]]]]]]]; [| | |done];
      (split; [|vm_compute; reflexivity]); [exists 5|exists 4|exists 3]; split; done.
  - intros _. reflexivity.
  - intros p i Hp Hi.
    assert (forall m q k w, is_Some (rd m p i) -> is_Some (rd (write m q k w) p i)) as Hmono.
    { intros m q k w Hm. unfold rd, write. destruct (decide (waddr p i = waddr q k)) as [->|].
      - rewrite lookup_insert_eq. eauto. - by rewrite lookup_insert_ne. }
    do 4 apply Hmono. exists 0. destruct Hp as (k & Hk & -> & _). change (Pmm.mem_size Pmm.pmm0) with 16 in Hk.
    change (Pmm.mem_base Pmm.pmm0 + k * 4096) with (k * 4096). apply flat_zero; [by apply Z.mod_mul|lia|done].
Qed.

(** The words of [machine1] that are not zero. *)
Lemma words1 :
  rd (words machine1) base0 0 = Some 0x3007 /\ rd (words machine1) 0x3000 0 = Some 0x4007
  /\ rd (words machine1) 0x4000 2 = Some 0x5007 /\ rd (words machine1) 0x5000 0 = Some 0x6007.
Proof.
  unfold words, machine1, m3, m2, m1.
  split; [|split; [|split]]; repeat (rewrite rd_write_ne; [|reflexivity..|done|done|compute; discriminate]); apply rd_write_eq.
Qed.

Lemma zero1 p i : p ∈ [base0; 0x3000; 0x4000; 0x5000] -> 0 <= i < 512 -> i <> 0 -> i <> 2 \/ p <> 0x4000 ->
  rd (words machine1) p i = Some 0.
Proof.
  intros Hp Hi Hi0 Hi2. unfold words, machine1, m3, m2, m1.
  assert (p mod 4096 = 0 /\ 0 <= p < 0x10000) as [Hm Hr].
  { rewrite !elem_of_cons in Hp. destruct Hp as [->|[->|[->|[->|Hp]]]]; [| | | |by apply not_elem_of_nil in Hp];
      (split; [reflexivity|compute; split; congruence]). }
  assert (base0 mod 4096 = 0) as Hb by reflexivity.
  rewrite rd_write_ne; [|reflexivity|done|lia|done|congruence].
  rewrite rd_write_ne; [|reflexivity|done|lia|done|intros [= -> ->]; lia].
  rewrite rd_write_ne; [|reflexivity|done|lia|done|congruence].
  rewrite rd_write_ne; [|done|done|lia|done|congruence]. by apply flat_zero.
Qed.

Lemma zero1_low i : i = 1 \/ i = 0 -> rd (words machine1) 0x4000 i = Some 0.
Proof.
  intros Hi. unfold words, machine1, m3, m2, m1.
  rewrite rd_write_ne; [|reflexivity|reflexivity|lia|lia|congruence].
  rewrite rd_write_ne; [|reflexivity|reflexivity|lia|lia|intros [= ->]; lia].
  rewrite rd_write_ne; [|reflexivity|reflexivity|lia|lia|congruence].
  rewrite rd_write_ne; [|reflexivity|reflexivity|lia|lia|compute; congruence]. apply flat_zero; [reflexivity|lia|lia].
Qed.

Lemma translate1 : translate 36 (words machine1) base0 (page v1) = Some 0x6007.
Proof.
  generalize words1. generalize (words machine1) as m. intros m (W3 & W2 & W1 & W0).
  unfold translate. rewrite lookup_from_S. change (index (page v1) 3) with 0. rewrite W3. cbn [mbind option_bind]. change (present 0x3007) with true. change (addr 36 0x3007) with 0x3000. cbv iota.
  rewrite lookup_from_S. change (index (page v1) 2) with 0. rewrite W2.
  cbn [mbind option_bind]. change (present 0x4007) with true. change (addr 36 0x4007) with 0x4000. cbv iota.
  rewrite lookup_from_S. change (index (page v1) 1) with 2. rewrite W1.
  cbn [mbind option_bind]. change (present 0x5007) with true. change (addr 36 0x5007) with 0x5000. cbv iota.
  cbn [lookup_from]. change (index (page v1) 0) with 0. rewrite W0. reflexivity.
Qed.

Lemma w36 : 12 <= 36 <= 47.
Proof. lia. Qed.

Lemma owned_range_zero l m p n : forall i, (forall j, i <= j < i + Z.of_nat n -> rd m p j = Some 0) ->
  owned_range 36 l m p i n = [].
Proof.
  induction n as [|n IH]; intros i Hz; [done|]. rewrite (owned_range_S 36 w36), IH by (intros; apply Hz; lia).
  unfold owned_entry. by rewrite Hz by lia.
Qed.

(** A table whose only entry in use is the first. *)
Lemma owned_range_first l m p n w : rd m p 0 = Some w -> present w = true ->
  (forall j, 1 <= j < 1 + Z.of_nat n -> rd m p j = Some 0) -> owned_range 36 l m p 0 (S n) = owned 36 l m w.
Proof.
  intros Hw Hpr Hz. rewrite (owned_range_S 36 w36), owned_range_zero by (intros; apply Hz; lia).
  unfold owned_entry. by rewrite Hw, Hpr, app_nil_r.
Qed.

Lemma user_frames1 : user_frames 36 (words machine1) base0 = [0x6000; 0x5000; 0x4000; 0x3000].
Proof.
  destruct words1 as (W3 & W2 & W1 & W0). unfold user_frames. pose proof zero1 as Hz. revert W3 W2 W1 W0 Hz.
  pose proof zero1_low as Hlow. revert Hlow. generalize (words machine1) as m. intros m Hlow W3 W2 W1 W0 Hz.
  pose proof (owned_range_first 3 m base0 255 0x3007 W3 eq_refl) as E3.
  pose proof (owned_range_first 2 m 0x3000 511 0x4007 W2 eq_refl) as E2.
  pose proof (owned_range_first 0 m 0x5000 511 0x6007 W0 eq_refl) as E0.
  rewrite E3; [|intros; apply Hz; [left|lia|lia|right; compute; discriminate]].
  rewrite (owned_eq 36 w36). change (addr 36 0x3007) with 0x3000.
  rewrite E2; [|intros; apply Hz; [right; left|lia|lia|right; discriminate]].
  rewrite (owned_eq 36 w36). change (addr 36 0x4007) with 0x4000.
  rewrite (owned_range_S 36 w36 1 m 0x4000 0 511), (owned_range_S 36 w36 1 m 0x4000 (0 + 1) 510),
    (owned_range_S 36 w36 1 m 0x4000 (0 + 1 + 1) 509).
  unfold owned_entry. rewrite !Hlow by auto. change (0 + 1 + 1) with 2. rewrite W1.
  change (present 0) with false. change (present 0x5007) with true. cbv iota.
  rewrite (owned_range_zero 1 m 0x4000 509); [|intros; apply Hz; [right; right; left|lia|lia|left; lia]].
  rewrite (owned_eq 36 w36). change (addr 36 0x5007) with 0x5000.
  rewrite E0; [reflexivity|intros; apply Hz; [right; right; right; left|lia|lia|right; discriminate]].
Qed.

Lemma managed1 k : 0 <= k < 16 -> managed Pmm.pmm0 (0 + k * 4096).
Proof.
  intros Hk. exists k. split; [exact Hk|]. split; [reflexivity|].
  assert (Forall (fun i => Pmm.protects Pmm.pmm0 (0 + i * 4096) 1 = false) (seqZ 0 16)) as Hall.
  { apply (bool_decide_unpack _). vm_compute. exact I. }
  rewrite Forall_forall in Hall. apply Hall, elem_of_seqZ. exact Hk.
Qed.

Lemma freed_0x5000 : 0x5000 ∈ [0x6000; 0x5000; 0x4000; 0x3000].
Proof. right. left. Qed.

Lemma base0_kept : base0 ∉ [0x6000; 0x5000; 0x4000; 0x3000].
Proof. apply (bool_decide_unpack _). vm_compute. exact I. Qed.

(** *** What goes wrong *)

(** One page, mapped to the page frame at 0x6000 through the tables at 0x3000, 0x4000 and 0x5000; of the base
    table only the entry in use is there. *)
Definition one_page (i3 i2 i1 i0 : Z) : machine Pmm.BitMapAllocator :=
  let m := list_to_map ((fun k => (HHDM_BEGIN + 8 * k, 0)) <$> seqZ (0x3000 / 8) 1536) in
  mkMachine _ (write (write (write (write m base0 i3 0x3007) 0x3000 i2 0x4007) 0x4000 i1 0x5007) 0x5000 i0 0x6007)
    (Pmm.with_bitmap Pmm.pmm0 [127; 0]).

(** What is left of a page and of the page frame at 0x6000. *)
Definition page_after (r : bool * machine Pmm.BitMapAllocator) (v : Z) : bool * option Z * bool :=
  (fst r, translate 36 (words (snd r)) base0 (page v), Pmm.page_used (pmm (snd r)) 6).

(** Mapping a run of two pages from 0x2000 on whose second page is mapped by someone else fails, and the
    rollback, which includes the page that failed, unmaps that page and frees its page frame. *)
Lemma rollback_unmaps_neighbour :
  page_after (true, one_page 0 0 0 3) 0x3000 = (true, Some 0x6007, true)
  /\ option_map (fun r => page_after r 0x3000)
       (allocate_pages 36 base0 (one_page 0 0 0 3) (interp_as_base_page_table base0) 0x2000 7 2)
     = Some (false, None, false).
Proof. split; vm_compute; reflexivity. Qed.

(** Unmapping an address inside a page frees the wrong page frame: the byte offset is part of the address that
    is freed, and it is rounded up, so the page frame at 0x6000 stays in use. *)
Lemma unaligned_free_leaks :
  option_map (fun r => page_after r 0x3000)
    (free 36 base0 (one_page 0 0 0 3) (interp_as_base_page_table base0) 0x3123) = Some (true, None, true).
Proof. vm_compute. reflexivity. Qed.

(** The end of the user space is taken for an address of the upper half when it is made canonical. *)
Lemma user_space_end_is_kernel :
  option_map (fun m => find_user_space_end (MemMap.regions m) 0) create_virtual_memory_map = Some HHDM_BEGIN.
Proof. vm_compute. reflexivity. Qed.

(** The page at 0x400000 of [machine1] is mapped, so mapping a region there fails on its first page. *)
Lemma first_page_failure_ignored_witness : exists r v_map',
  allocate_kernel_space_entries 36 base0 machine1 (interp_as_base_page_table base0) v1
    (Region.mkRegion 0 4096 Region.USABLE) 3 Region.KERNEL_CODE MemMap.map0 "Kernel Code" = Some (r, machine1, v_map')
  /\ has_error r = false.
Proof.
  destruct (first_page_failure_ignored 36 ltac:(lia) managed0 base0 machine1 base0 T1 v1 (Region.mkRegion 0 4096 Region.USABLE)
    3 Region.KERNEL_CODE MemMap.map0 "Kernel Code" false (Region.mkRegion v1 4096 Region.KERNEL_CODE) MemMap.map0 0x6007 sys1)
    as (r & Hrun & He & _); [reflexivity|split; done|lia|reflexivity|exact translate1|vm_compute; reflexivity|].
  exists r, MemMap.map0. split; [exact Hrun|exact He].
Defined.

Lemma teardown_frees_user_half_witness : exists s',
  free_virtual_address_space 36 machine1 base0 = Some (true, s')
  /\ ~ fa_taken (pmm s') 0x5000 /\ fa_taken (pmm s') base0
  /\ translate 36 (words s') base0 (page v1) = None.
Proof.
  destruct (teardown_frees_user_half 36 ltac:(lia) managed0 machine1 base0 T1 sys1) as (s' & Hrun & Htk & Htr).
  - rewrite user_frames1. intros q Hq. rewrite !elem_of_cons in Hq.
    destruct Hq as [->|[->|[->|[->|Hq]]]]; [| | | |by apply not_elem_of_nil in Hq];
      (split; [|vm_compute; reflexivity]); [exists 6|exists 5|exists 4|exists 3]; split; done.
  - rewrite user_frames1. apply (bool_decide_unpack _). vm_compute. exact I.
  - rewrite user_frames1. exact base0_kept.
  - intros V n p HV Hi HT. unfold T1 in HT. rewrite !lookup_insert_Some, lookup_singleton_Some in HT.
    assert (index V 3 = pre V 2) as E.
    { unfold index, pre. change (Z.of_nat 2 + 1) with 3. change (Z.of_nat 3) with 3. apply Z.mod_small.
      split; [apply Z.div_pos; lia|]. apply Z.div_lt_upper_bound; lia. }
    pose proof (pre_split V 1) as [E1 _]. pose proof (pre_split V 0) as [E0 _].
    destruct HT as [[<- [= <- Hq]]|[_ [[<- [= <- Hq]]|[_ [[<- [= <- Hq]]|[_ [<- _]]]]]]];
      [exfalso; rewrite E, E1, E0, <- Hq in Hi; by compute in Hi
      |exfalso; rewrite E, E1, <- Hq in Hi; by compute in Hi|lia|].
    rewrite user_frames1. exact base0_kept.
  - exists s'. split; [exact Hrun|]. rewrite user_frames1 in Htk. split; [|split].
    + assert (managed Pmm.pmm0 0x5000) as Hm by exact (managed1 5 ltac:(lia)).
      exact (fun Hu => proj2 (proj1 (Htk 0x5000 Hm) Hu) freed_0x5000).
    + assert (managed Pmm.pmm0 base0) as Hm by exact (managed1 2 ltac:(lia)).
      exact (proj2 (Htk base0 Hm) (conj (sys_base _ _ _ _ sys1 Hm) base0_kept)).
    + rewrite (Htr (page v1)) by apply page_range. reflexivity.
Defined.
End VmmExample.
