(* ===== verification/Slab.v ===== *)
(** * The kernel heap: object caches and the slab allocator

    Models [Memory/SlabAllocator.cpp].  The heap's structures (slabs, object caches, list and hash nodes)
    live at addresses in one finite map per type; the free list of a slab that keeps its own administration
    is raw bytes.  A structure keeps its value until it is written again.  Every access needs a mapped page, and an access
    to an address that is not mapped, or that holds no such structure, has no result.
    The virtual memory manager is an interface ([PageAllocator]). *)

From stdpp Require Import functions.
From S2P Require Import Prelude Kre Memory Paging.
Import Pg.
#[local] Existing Instance Region.MemoryRegionType_eq_dec.

(** ** The virtual memory manager, as the heap uses it

    Map one page with flags, unmap one page, and whether an address is mapped, all in the loaded address space. *)
Class PageAllocator (V : Type) := {
  vp_allocate : V -> Z -> Z -> option (bool * V);
  vp_free : V -> Z -> option (bool * V);
  vp_mapped : V -> Z -> bool;
}.

Module Slab.

(** ** Data *)

Inductive CacheType := CT_NONE | ON_SLAB | OFF_SLAB.

Inductive HeapStartFailureCode :=
  | HS_NONE | HEAP_NOT_MAPPED | BC_OBJECT_CACHE_ERROR | BC_SLAB_ERROR | BC_OBJECT_BUF_NODE_ERROR
  | BC_OBJECT_BUF_NODE_HASHMAP_ERROR | BC_HASHNODE_ERROR | BC_MEMORY_NODE_ERROR
  | ALLOC_GP_OR_DMA_CACHE_ERROR | GP_CACHE_ERROR | DMA_CACHE_ERROR.

#[export] Instance CacheType_eq_dec : EqDecision CacheType.
Proof. solve_decision. Defined.

Record ObjectBufNode := mkNode { n_next : Z; object : Z; owner : Z }.

(** The union of the two references to a free object; the code reads the member it wrote. *)
Inductive ObjectBuf := regular_object (p : Z) | free_object (i : Z).

Definition MAX_OBJECT_COUNT : Z := 255.

Record Slab := mkSlab {
  next : Z;
  prev : Z;
  free_buf : ObjectBuf;
  object_size : Z;
  object_count : Z;
  allocated_count : Z;
  page : Z;
  slab_size : Z;
}.

Record MemoryNode := mkMem { m_next : Z; mem_addr : Z }.

Record HashNode := mkHash { h_next : Z; key : Z; value : Z }.

Record ObjectCache := mkCache {
  c_vmm : Z;
  memory_node_cache : Z;
  managed : Region.MemoryRegion;
  limit : Z;
  page_flags : Z;
  free_page_list : Z;
  object_buf_node_cache : Z;
  object_buf_node_hash_map : Z;
  c_object_size : Z;
  align : Z;
  slab_cache : Z;
  full_list : Z;
  partial_list : Z;
  empty_list : Z;
  slab_count : Z;
  type : CacheType;
}.

Definition ON_OFF_SLAB_BOUNDARY_DIVIDER : Z := 8.

Definition BUCKET_COUNT : Z := 37.

Record ObjectBufNodeHashMap := mkMap { nodes : list Z; hash_node_cache : Z }.

(** The sizes of the structures on x86-64. *)
Definition sizeof_Slab : Z := 64.
Definition sizeof_ObjectBufNode : Z := 24.
Definition sizeof_MemoryNode : Z := 16.
Definition sizeof_HashNode : Z := 24.
Definition sizeof_ObjectCache : Z := 144.
Definition sizeof_ObjectBufNodeHashMap : Z := 304.

(** The heap's memory with the virtual memory manager. *)
Record heap {V : Type} := mkHeap {
  slabs : gmap Z Slab;
  buf_nodes : gmap Z ObjectBufNode;
  hash_nodes : gmap Z HashNode;
  mem_nodes : gmap Z MemoryNode;
  caches : gmap Z ObjectCache;
  hash_maps : gmap Z ObjectBufNodeHashMap;
  bytes : Z -> Z;
  vmm : V;
}.

#[global] Arguments heap : clear implicits.
#[global] Arguments mkHeap {V}.

Section slab.
Context {V : Type} `{PageAllocator V}.
Abbreviation heap := (heap V).

(** ** Access to memory *)

Definition set_slabs (h : heap) x := mkHeap x (buf_nodes h) (hash_nodes h) (mem_nodes h) (caches h) (hash_maps h) (bytes h) (vmm h).
Definition set_buf_nodes (h : heap) x := mkHeap (slabs h) x (hash_nodes h) (mem_nodes h) (caches h) (hash_maps h) (bytes h) (vmm h).
Definition set_hash_nodes (h : heap) x := mkHeap (slabs h) (buf_nodes h) x (mem_nodes h) (caches h) (hash_maps h) (bytes h) (vmm h).
Definition set_mem_nodes (h : heap) x := mkHeap (slabs h) (buf_nodes h) (hash_nodes h) x (caches h) (hash_maps h) (bytes h) (vmm h).
Definition set_caches (h : heap) x := mkHeap (slabs h) (buf_nodes h) (hash_nodes h) (mem_nodes h) x (hash_maps h) (bytes h) (vmm h).
Definition set_hash_maps (h : heap) x := mkHeap (slabs h) (buf_nodes h) (hash_nodes h) (mem_nodes h) (caches h) x (bytes h) (vmm h).
Definition set_bytes (h : heap) x := mkHeap (slabs h) (buf_nodes h) (hash_nodes h) (mem_nodes h) (caches h) (hash_maps h) x (vmm h).
Definition set_vmm (h : heap) (x : V) := mkHeap (slabs h) (buf_nodes h) (hash_nodes h) (mem_nodes h) (caches h) (hash_maps h) (bytes h) x.

(** A structure is read or written through a pointer to mapped memory that is not null. *)
Definition at_ (h : heap) (p : Z) : option unit :=
  if negb (p =? 0) && vp_mapped (vmm h) p then Some tt else None.

Definition get_slab (h : heap) (p : Z) : option Slab := at_ h p;; slabs h !! p.
Definition put_slab (h : heap) (p : Z) (s : Slab) : option heap := at_ h p;; Some (set_slabs h (<[p := s]> (slabs h))).

Definition upd_slab (h : heap) (p : Z) (f : Slab -> Slab) : option heap := s ← get_slab h p; put_slab h p (f s).

Definition get_node (h : heap) (p : Z) : option ObjectBufNode := at_ h p;; buf_nodes h !! p.
Definition put_node (h : heap) (p : Z) (n : ObjectBufNode) : option heap :=
  at_ h p;; Some (set_buf_nodes h (<[p := n]> (buf_nodes h))).

Definition get_hash_node (h : heap) (p : Z) : option HashNode := at_ h p;; hash_nodes h !! p.
Definition put_hash_node (h : heap) (p : Z) (n : HashNode) : option heap :=
  at_ h p;; Some (set_hash_nodes h (<[p := n]> (hash_nodes h))).

Definition get_mem_node (h : heap) (p : Z) : option MemoryNode := at_ h p;; mem_nodes h !! p.
Definition put_mem_node (h : heap) (p : Z) (n : MemoryNode) : option heap :=
  at_ h p;; Some (set_mem_nodes h (<[p := n]> (mem_nodes h))).

Definition get_hash_map (h : heap) (p : Z) : option ObjectBufNodeHashMap := at_ h p;; hash_maps h !! p.
Definition put_hash_map (h : heap) (p : Z) (m : ObjectBufNodeHashMap) : option heap :=
  at_ h p;; Some (set_hash_maps h (<[p := m]> (hash_maps h))).

Definition zero_cache : ObjectCache :=
  mkCache 0 0 (Region.mkRegion 0 0 Region.NONE) 0 0 0 0 0 0 0 0 0 0 0 0 CT_NONE.

Fixpoint all_zero (b : Z -> Z) (a : Z) (n : nat) : bool :=
  match n with O => true | S n' => (b a =? 0) && all_zero b (a + 1) n' end.

(** The allocator turns zeroed memory into a cache without running a constructor. *)
Definition get_cache (h : heap) (p : Z) : option ObjectCache :=
  at_ h p;;
  match caches h !! p with
  | Some c => Some c
  | None => if all_zero (bytes h) p (Z.to_nat sizeof_ObjectCache) then Some zero_cache else None
  end.

Definition put_cache (h : heap) (p : Z) (c : ObjectCache) : option heap :=
  at_ h p;; Some (set_caches h (<[p := c]> (caches h))).

Definition get_byte (h : heap) (a : Z) : option Z := at_ h a;; Some (bytes h a).
Definition put_byte (h : heap) (a x : Z) : option heap := at_ h a;; Some (set_bytes h (<[a := u8 x]> (bytes h))).

(** [memset(a, 0, n)]: every page it touches must be mapped. *)
Definition page_of (a : Z) : Z := a - a mod get_page_size.
Definition touched (a n : Z) : list Z :=
  (fun k => page_of a + get_page_size * Z.of_nat k) <$> seq 0 (Z.to_nat ((a mod get_page_size + n + get_page_size - 1) / get_page_size)).

Definition zero_memory (h : heap) (a n : Z) : option heap :=
  if (n <=? 0) || forallb (fun p => bool_decide (is_Some (at_ h p))) (touched a n) then
    Some (set_bytes h (fun x => if (a <=? x) && (x <? a + n) then 0 else bytes h x))
  else None.

(** Field updates. *)
Definition with_next (x : Z) (s : Slab) := mkSlab x (prev s) (free_buf s) (object_size s) (object_count s) (allocated_count s) (page s) (slab_size s).
Definition with_prev (x : Z) (s : Slab) := mkSlab (next s) x (free_buf s) (object_size s) (object_count s) (allocated_count s) (page s) (slab_size s).
Definition with_free (b : ObjectBuf) (n : Z) (s : Slab) := mkSlab (next s) (prev s) b (object_size s) (object_count s) n (page s) (slab_size s).

Definition with_lists (c : ObjectCache) (full partial empty : Z) : ObjectCache :=
  mkCache (c_vmm c) (memory_node_cache c) (managed c) (limit c) (page_flags c) (free_page_list c) (object_buf_node_cache c)
    (object_buf_node_hash_map c) (c_object_size c) (align c) (slab_cache c) full partial empty (slab_count c) (type c).

Definition with_pages (c : ObjectCache) (lim fpl : Z) : ObjectCache :=
  mkCache (c_vmm c) (memory_node_cache c) (managed c) lim (page_flags c) fpl (object_buf_node_cache c)
    (object_buf_node_hash_map c) (c_object_size c) (align c) (slab_cache c) (full_list c) (partial_list c) (empty_list c)
    (slab_count c) (type c).

Definition with_count (c : ObjectCache) (n : Z) : ObjectCache :=
  mkCache (c_vmm c) (memory_node_cache c) (managed c) (limit c) (page_flags c) (free_page_list c) (object_buf_node_cache c)
    (object_buf_node_hash_map c) (c_object_size c) (align c) (slab_cache c) (full_list c) (partial_list c) (empty_list c)
    n (type c).

(** ** Slabs *)

(** The objects on a slab that keeps its own administration, and the bytes for its free list. *)
Definition on_slab_objects (object_size : Z) : option Z :=
  objects ← cdiv (get_page_size - sizeof_Slab) object_size;
  let objects := Math.min objects MAX_OBJECT_COUNT in
  let free_list_size := objects in
  let wastage := u64 (get_page_size - sizeof_Slab - objects * object_size) in
  if wastage <? free_list_size then cdiv (u64 (get_page_size - sizeof_Slab - free_list_size)) object_size
  else Some objects.

Definition create_on_slab (h : heap) (object_size page : Z) : option (Z * heap) :=
  objects ← on_slab_objects object_size;
  let free_list_size := objects in
  let slab := u64 (page + get_page_size - sizeof_Slab) in
  h ← put_slab h slab (mkSlab 0 0 (free_object 0) object_size objects 0 page get_page_size);
  let free_list := u64 (page + get_page_size - sizeof_Slab - free_list_size) in
  h ← forM (Z.to_nat (u64 (objects - 1))) 0 (fun i h => put_byte h (u64 (free_list + i)) (i + 1)) h;
  h ← put_byte h (u64 (free_list + u64 (objects - 1))) MAX_OBJECT_COUNT;
  h ← zero_memory h page (u64 (get_page_size - sizeof_Slab - free_list_size));
  Some (slab, h).

Definition alloc_on_slab (h : heap) (this : Z) : option (Z * heap) :=
  s ← get_slab h this;
  if allocated_count s =? object_count s then Some (0, h)
  else match free_buf s with
    | regular_object _ => None
    | free_object i =>
        let obj := u64 (page s + i * object_size s) in
        nxt ← get_byte h (u64 (u64 (this - object_count s) + i));
        h ← put_slab h this (with_free (free_object nxt) (u64 (allocated_count s + 1)) s);
        Some (obj, h)
    end.

Definition alloc_off_slab (h : heap) (this : Z) : option (Z * heap) :=
  s ← get_slab h this;
  if allocated_count s =? object_count s then Some (0, h)
  else match free_buf s with
    | free_object _ => None
    | regular_object removed =>
        n ← get_node h removed;
        h ← put_slab h this (with_free (regular_object (n_next n)) (u64 (allocated_count s + 1)) s);
        h ← put_node h removed (mkNode 0 (object n) (owner n));
        Some (object n, h)
    end.

Definition free_on_slab (h : heap) (this obj : Z) : option (bool * heap) :=
  s ← get_slab h this;
  if allocated_count s =? 0 then Some (false, h)
  else match free_buf s with
    | regular_object _ => None
    | free_object i =>
        obj_idx ← cdiv (u64 (obj - page s)) (object_size s);
        h ← put_byte h (u64 (u64 (this - object_count s) + obj_idx)) i;
        h ← put_slab h this (with_free (free_object (u8 obj_idx)) (u64 (allocated_count s - 1)) s);
        Some (true, h)
    end.

Definition free_off_slab (h : heap) (this obj_buf : Z) : option (bool * heap) :=
  if obj_buf =? 0 then Some (false, h)
  else
    s ← get_slab h this;
    match free_buf s with
    | free_object _ => None
    | regular_object p =>
        n ← get_node h obj_buf;
        h ← put_node h obj_buf (mkNode p (object n) (owner n));
        h ← put_slab h this (with_free (regular_object obj_buf) (u64 (allocated_count s - 1)) s);
        Some (true, h)
    end.

(** ** Slab lists: circular, named by their first slab *)

Definition insert_last (h : heap) (list slab : Z) : option (Z * heap) :=
  if list =? 0 then
    h ← upd_slab h slab (with_prev slab);
    h ← upd_slab h slab (with_next slab);
    Some (slab, h)
  else
    s ← get_slab h list;
    let tail := prev s in
    h ← upd_slab h tail (with_next slab);
    h ← upd_slab h slab (with_next list);
    h ← upd_slab h slab (with_prev tail);
    h ← upd_slab h list (with_prev slab);
    Some (list, h).

Definition remove (h : heap) (list element : Z) : option (Z * heap) :=
  e ← get_slab h element;
  '(new_head, h) ←
    (if negb (element =? next e) then
       h ← upd_slab h (next e) (with_prev (prev e));
       e' ← get_slab h element;
       h ← upd_slab h (prev e') (with_next (next e'));
       Some (if list =? element then next e else list, h)
     else Some (0, h));
  h ← upd_slab h element (with_next 0);
  h ← upd_slab h element (with_prev 0);
  Some (new_head, h).

(** ** The hash map from objects to list nodes *)

Definition hash_of (key : Z) : Z := key mod BUCKET_COUNT.

Definition hm_init (h : heap) (m hash_node_cache : Z) : option heap :=
  put_hash_map h m (mkMap (replicate (Z.to_nat BUCKET_COUNT) 0) hash_node_cache).

(** The walk through a bucket. *)
Fixpoint hm_find (fuel : nat) (h : heap) (node key' : Z) : option Z :=
  match fuel with
  | O => None
  | S fuel' =>
      if node =? 0 then Some 0
      else n ← get_hash_node h node;
        if key n =? key' then Some (value n) else hm_find fuel' h (h_next n) key'
  end.

Definition bucket_fuel (h : heap) : nat := S (size (hash_nodes h)).

Definition hm_get (h : heap) (m key : Z) : option Z :=
  hm ← get_hash_map h m;
  node ← aget (nodes hm) (hash_of key);
  hm_find (bucket_fuel h) h node key.

(** ** Object caches: releasing an object *)

(** The slab's move to another list after a release; [old] is the number of objects it had handed out. *)
Definition relist_freed (h : heap) (this slab old : Z) : option heap :=
  s ← get_slab h slab;
  c ← get_cache h this;
  if allocated_count s =? 0 then
    '(full, partial, h) ←
      (if slab =? full_list c then
         '(l, h) ← remove h (full_list c) slab; Some (l, partial_list c, h)
       else
         '(l, h) ← remove h (partial_list c) slab; Some (full_list c, l, h));
    '(empty, h) ← insert_last h (empty_list c) slab;
    put_cache h this (with_lists c full partial empty)
  else if old =? object_count s then
    '(full, h) ← remove h (full_list c) slab;
    '(partial, h) ← insert_last h (partial_list c) slab;
    put_cache h this (with_lists c full partial (empty_list c))
  else Some h.

Definition cache_free (h : heap) (this obj : Z) : option heap :=
  c ← get_cache h this;
  if decide (type c = ON_SLAB) then
    let p := Z.shiftl (Z.shiftr obj 12) 12 in
    let slab := u64 (p + get_page_size - sizeof_Slab) in
    s ← get_slab h slab;
    if negb (page s =? p) then Some h
    else
      '(slab_has_changed, h) ← free_on_slab h slab obj;
      if negb slab_has_changed then Some h else relist_freed h this slab (allocated_count s)
  else
    node ← hm_get h (object_buf_node_hash_map c) obj;
    if node =? 0 then Some h
    else
      n ← get_node h node;
      let slab := owner n in
      if slab =? 0 then Some h
      else
        s ← get_slab h slab;
        '(slab_has_changed, h) ← free_off_slab h slab node;
        if negb slab_has_changed then Some h else relist_freed h this slab (allocated_count s).

Definition hm_set_bucket (h : heap) (m i node : Z) : option heap :=
  hm ← get_hash_map h m;
  l ← aset (nodes hm) i node;
  put_hash_map h m (mkMap l (hash_node_cache hm)).

(** The walk of [ObjectBufNodeHashMap::remove]; [last] is the node before. *)
Fixpoint hm_remove_loop (fuel : nat) (h : heap) (m key' node last : Z) : option heap :=
  match fuel with
  | O => None
  | S fuel' =>
      if node =? 0 then Some h
      else
        n ← get_hash_node h node;
        if key n =? key' then
          h ← (if negb (last =? 0) then
                 l ← get_hash_node h last; put_hash_node h last (mkHash (h_next n) (key l) (value l))
               else hm_set_bucket h m (hash_of key') (h_next n));
          hm ← get_hash_map h m;
          cache_free h (hash_node_cache hm) node
        else hm_remove_loop fuel' h m key' (h_next n) node
  end.

Definition hm_remove (h : heap) (m key : Z) : option heap :=
  hm ← get_hash_map h m;
  node ← aget (nodes hm) (hash_of key);
  hm_remove_loop (bucket_fuel h) h m key node 0.

(** ** Object caches: allocating an object *)

Section grow.
(** [ObjectCache::allocate] of the caches that supply slabs and nodes. *)
Context (cache_allocate : heap -> Z -> option (Z * heap)).

Definition hm_insert (h : heap) (m key value : Z) : option heap :=
  hm ← get_hash_map h m;
  '(node, h) ← cache_allocate h (hash_node_cache hm);
  h ← put_hash_node h node (mkHash 0 key value);
  hm ← get_hash_map h m;
  old_head ← aget (nodes hm) (hash_of key);
  h ← put_hash_node h node (mkHash old_head key value);
  hm_set_bucket h m (hash_of key) node.

(** A new list node for [object] of [slab], known to the hash map. *)
Definition new_buf_node (h : heap) (object_buf_node_cache m object slab : Z) : option (Z * heap) :=
  '(n, h) ← cache_allocate h object_buf_node_cache;
  h ← put_node h n (mkNode 0 object slab);
  h ← hm_insert h m object n;
  Some (n, h).

Definition create_off_slab (h : heap) (slab_cache object_buf_node_cache m object_size page slab_size : Z)
    : option (Z * heap) :=
  '(slab, h) ← cache_allocate h slab_cache;
  object_count ← cdiv slab_size object_size;
  h ← put_slab h slab (mkSlab 0 0 (regular_object 0) object_size object_count 0 page slab_size);
  h ← zero_memory h page slab_size;
  '(first, h) ← new_buf_node h object_buf_node_cache m page slab;
  h ← upd_slab h slab (with_free (regular_object first) 0);
  '(_, h) ← forM (Z.to_nat (object_count - 1)) 1 (fun i '(prev, h) =>
              '(n, h) ← new_buf_node h object_buf_node_cache m (u64 (page + u64 (i * object_size))) slab;
              p ← get_node h prev;
              h ← put_node h prev (mkNode n (object p) (owner p));
              Some (n, h)) (first, h);
  Some (slab, h).

(** The requests for the pages from [i] up to [stop]: the page that was refused, if any. *)
Fixpoint map_loop (fuel : nat) (h : heap) (flags i stop : Z) : option (option Z * heap) :=
  if i <? stop then
    match fuel with
    | O => None
    | S fuel' =>
        '(ok, v) ← vp_allocate (vmm h) i flags;
        if ok : bool then map_loop fuel' (set_vmm h v) flags (u64 (i + get_page_size)) stop
        else Some (Some i, set_vmm h v)
    end
  else Some (None, h).

(** The rollback stops at the first page that cannot be released. *)
Fixpoint unmap_loop (fuel : nat) (h : heap) (i stop : Z) : option heap :=
  if i <? stop then
    match fuel with
    | O => None
    | S fuel' =>
        '(ok, v) ← vp_free (vmm h) i;
        if ok : bool then unmap_loop fuel' (set_vmm h v) (u64 (i + get_page_size)) stop else Some (set_vmm h v)
    end
  else Some h.

Definition page_fuel (a b : Z) : nat := S (Z.to_nat ((b - a) / get_page_size)).

(** The object size rounded up to the alignment, and the slab size rounded up to whole pages. *)
Definition aligned_size (object_size align : Z) : Z :=
  if align =? 0 then object_size else u64 (align * u64 (u64 (object_size - 1) / align + 1)).

Definition slab_bytes (aligned : Z) : Z :=
  if aligned mod get_page_size =? 0 then aligned
  else u64 (u64 (aligned / get_page_size + 1) * get_page_size).

Definition grow (h : heap) (this : Z) : option (bool * heap) :=
  c ← get_cache h this;
  page ← (if negb (free_page_list c =? 0) then n ← get_mem_node h (free_page_list c); Some (mem_addr n)
          else Some (limit c));
  let aligned_size := aligned_size (c_object_size c) (align c) in
  let slab_size := slab_bytes aligned_size in
  if Region.end_ (managed c) <=? u64 (page + slab_size) then Some (false, h)
  else if c_vmm c =? 0 then None
  else
    '(refused, h) ← map_loop (page_fuel page (u64 (page + slab_size))) h (page_flags c) page (u64 (page + slab_size));
    match refused with
    | Some last_alloc => h ← unmap_loop (page_fuel page last_alloc) h page last_alloc; Some (false, h)
    | None =>
        h ← (if page <? limit c then
               let f := free_page_list c in
               n ← get_mem_node h f;
               h ← put_cache h this (with_pages c (limit c) (m_next n));
               h ← put_mem_node h f (mkMem 0 0);
               cache_free h (memory_node_cache c) f
             else put_cache h this (with_pages c (u64 (limit c + slab_size)) (free_page_list c)));
        '(slab, h) ← (if decide (type c = ON_SLAB) then create_on_slab h aligned_size page
                      else create_off_slab h (slab_cache c) (object_buf_node_cache c) (object_buf_node_hash_map c)
                             aligned_size page slab_size);
        c ← get_cache h this;
        '(empty, h) ← insert_last h (empty_list c) slab;
        h ← put_cache h this (with_count (with_lists c (full_list c) (partial_list c) empty) (u64 (slab_count c + 1)));
        Some (true, h)
    end.

(** The first partially full slab, or else the first empty one. *)
Definition pick (c : ObjectCache) : Z := if negb (partial_list c =? 0) then partial_list c else empty_list c.

Definition needs_slab (h : heap) (slab : Z) : option bool :=
  if slab =? 0 then Some true
  else s ← get_slab h slab; Some (allocated_count s =? object_count s).

(** The slab's move to another list after an allocation. *)
Definition relist_allocated (h : heap) (this slab : Z) : option heap :=
  s ← get_slab h slab;
  c ← get_cache h this;
  if allocated_count s =? object_count s then
    '(empty, partial, h) ←
      (if slab =? empty_list c then
         '(l, h) ← remove h (empty_list c) slab; Some (l, partial_list c, h)
       else
         '(l, h) ← remove h (partial_list c) slab; Some (empty_list c, l, h));
    '(full, h) ← insert_last h (full_list c) slab;
    put_cache h this (with_lists c full partial empty)
  else if slab =? empty_list c then
    '(empty, h) ← remove h (empty_list c) slab;
    '(partial, h) ← insert_last h (partial_list c) slab;
    put_cache h this (with_lists c (full_list c) partial empty)
  else Some h.

Definition allocate_from (h : heap) (this slab : Z) : option (Z * heap) :=
  c ← get_cache h this;
  '(obj, h) ← (if decide (type c = ON_SLAB) then alloc_on_slab h slab else alloc_off_slab h slab);
  h ← relist_allocated h this slab;
  Some (obj, h).

Definition allocate_step (h : heap) (this : Z) : option (Z * heap) :=
  c ← get_cache h this;
  full ← needs_slab h (pick c);
  if full : bool then
    '(ok, h) ← grow h this;
    if negb ok then Some (0, h)
    else c ← get_cache h this; allocate_from h this (pick c)
  else allocate_from h this (pick c).
End grow.

(** A cache whose slabs keep their own administration asks no other cache, so two levels are enough. *)
Fixpoint cache_allocate (depth : nat) (h : heap) (this : Z) : option (Z * heap) :=
  match depth with
  | O => None
  | S depth' => allocate_step (cache_allocate depth') h this
  end.

Definition CACHE_DEPTH : nat := 2.

Definition allocate (h : heap) (this : Z) : option (Z * heap) := cache_allocate CACHE_DEPTH h this.

(** ** Object caches: the other operations *)

(** The error codes are the results [-1] and [-2]. *)
Definition cache_init (h : heap) (this vmm memory_node_cache : Z) (managed : Region.MemoryRegion) (page_flags
    object_buf_node_cache object_buf_node_hash_map object_size align slab_cache : Z) : option (Z * heap) :=
  if object_size =? 0 then Some (-1, h)
  else if (0 <? align) && negb (Z.land align (u64 (align - 1)) =? 0) then Some (-2, h)
  else
    c ← get_cache h this;
    h ← put_cache h this
          (mkCache vmm memory_node_cache managed (Region.start managed) page_flags (free_page_list c)
             object_buf_node_cache object_buf_node_hash_map object_size align slab_cache (full_list c) (partial_list c)
             (empty_list c) (slab_count c)
             (if object_size <? get_page_size / ON_OFF_SLAB_BOUNDARY_DIVIDER then ON_SLAB else OFF_SLAB));
    Some (0, h).

(** [idx] is a byte. *)
Definition object_at (h : heap) (this idx : Z) : option Z :=
  c ← get_cache h this;
  if bool_decide (type c = OFF_SLAB) || (slab_count c =? 0) then Some 0
  else
    s ← get_slab h (if negb (empty_list c =? 0) then empty_list c
                    else if negb (partial_list c =? 0) then partial_list c else full_list c);
    q ← cdiv idx (object_count s);
    let page := u64 (Region.start (managed c) + q * get_page_size) in
    Some (u64 (page + (idx mod object_count s) * c_object_size c)).

(** [slab] is the slab to release, [head] the first one of the list. *)
Fixpoint destroy_loop (fuel : nat) (h : heap) (head slab slab_cache : Z) : option heap :=
  if slab =? 0 then Some h
  else match fuel with
    | O => None
    | S fuel' =>
        s ← get_slab h slab;
        h ← put_slab h slab (mkSlab 0 0 (regular_object 0) 0 0 0 0 (slab_size s));
        h ← cache_free h slab_cache slab;
        let slab' := if negb (slab =? next s) then next s else 0 in
        if slab' =? head then Some h else destroy_loop fuel' h head slab' slab_cache
    end.

Definition destroy_slab_list (h : heap) (list slab_cache : Z) : option heap :=
  destroy_loop (size (slabs h)) h list list slab_cache.

(** One bucket of [ObjectBufNodeHashMap::purge]. *)
Fixpoint hm_purge_bucket (fuel : nat) (h : heap) (hash_node_cache object_buf_cache node : Z) : option heap :=
  if node =? 0 then Some h
  else match fuel with
    | O => None
    | S fuel' =>
        n ← get_hash_node h node;
        _ ← get_node h (value n);
        h ← put_node h (value n) (mkNode 0 0 0);
        h ← cache_free h object_buf_cache (value n);
        h ← put_hash_node h node (mkHash 0 0 0);
        h ← cache_free h hash_node_cache node;
        hm_purge_bucket fuel' h hash_node_cache object_buf_cache (h_next n)
    end.

Definition hm_purge (h : heap) (m object_buf_cache : Z) : option heap :=
  forM (Z.to_nat BUCKET_COUNT) 0 (fun i h =>
    hm ← get_hash_map h m;
    node ← aget (nodes hm) i;
    h ← hm_purge_bucket (bucket_fuel h) h (hash_node_cache hm) object_buf_cache node;
    hm_set_bucket h m i 0) h.

Definition hm_destroy (h : heap) (m object_buf_cache : Z) : option heap :=
  h ← hm_purge h m object_buf_cache;
  hm ← get_hash_map h m;
  put_hash_map h m (mkMap (nodes hm) 0).

Fixpoint free_mem_nodes (fuel : nat) (h : heap) (memory_node_cache node : Z) : option heap :=
  if node =? 0 then Some h
  else match fuel with
    | O => None
    | S fuel' =>
        n ← get_mem_node h node;
        h ← cache_free h memory_node_cache node;
        free_mem_nodes fuel' h memory_node_cache (m_next n)
    end.

Definition purge (h : heap) (this : Z) : option heap :=
  c ← get_cache h this;
  h ← (if decide (type c = OFF_SLAB) then
         h ← destroy_slab_list h (full_list c) (slab_cache c);
         h ← destroy_slab_list h (partial_list c) (slab_cache c);
         h ← destroy_slab_list h (empty_list c) (slab_cache c);
         hm_purge h (object_buf_node_hash_map c) (object_buf_node_cache c)
       else Some h);
  h ← free_mem_nodes (size (mem_nodes h)) h (memory_node_cache c) (free_page_list c);
  put_cache h this (with_count (with_lists c 0 0 0) 0).

(** The release of the cache's virtual memory; a page that cannot be released is passed over. *)
Fixpoint release_loop (fuel : nat) (h : heap) (addr limit : Z) : option heap :=
  if addr <? limit then
    match fuel with
    | O => None
    | S fuel' => '(_, v) ← vp_free (vmm h) addr; release_loop fuel' (set_vmm h v) (u64 (addr + get_page_size)) limit
    end
  else Some h.

Definition destroy (h : heap) (this : Z) : option heap :=
  h ← purge h this;
  c ← get_cache h this;
  h ← (if decide (type c = OFF_SLAB) then hm_destroy h (object_buf_node_hash_map c) (object_buf_node_cache c) else Some h);
  h ← release_loop (page_fuel (Region.start (managed c)) (limit c)) h (Region.start (managed c)) (limit c);
  put_cache h this zero_cache.
End slab.
End Slab.

(** ** The slab allocator *)
Module SlabAllocator.
Import Slab.

Definition MIN_SIZE_POWER : Z := 4.

Definition STATIC_CACHE_COUNT : Z := 13.

Definition MIN_OBJ_SIZE : Z := 16.

Definition CACHE_SIZE : Z := 2 * 1048576.

Definition BOOTSTRAP_CACHE_COUNT : Z := 6.

(** The bootstrap caches are the first members of the object at [this]. *)
Record SlabAllocator := mkAllocator {
  this : Z;
  general_purpose_cache : list Z;
  dma_cache : list Z;
  a_vmm : Z;
  heap_memory : Region.MemoryRegion;
  a_limit : Z;
  free_list : Z;
  start_failure_code : HeapStartFailureCode;
}.

Definition new_allocator (this : Z) : SlabAllocator :=
  mkAllocator this (replicate 13 0) (replicate 13 0) 0 (Region.mkRegion 0 0 Region.NONE) 0 0 HS_NONE.

Definition bootstrap_cache (s : SlabAllocator) (i : Z) : Z := this s + i * sizeof_ObjectCache.
Definition object_cache_cache (s : SlabAllocator) : Z := bootstrap_cache s 0.
Definition a_slab_cache (s : SlabAllocator) : Z := bootstrap_cache s 1.
Definition a_object_buf_node_cache (s : SlabAllocator) : Z := bootstrap_cache s 2.
Definition object_buf_node_hash_map_cache (s : SlabAllocator) : Z := bootstrap_cache s 3.
Definition a_hash_node_cache (s : SlabAllocator) : Z := bootstrap_cache s 4.
Definition a_memory_node_cache (s : SlabAllocator) : Z := bootstrap_cache s 5.

Definition with_region (s : SlabAllocator) (lim fl : Z) : SlabAllocator :=
  mkAllocator (this s) (general_purpose_cache s) (dma_cache s) (a_vmm s) (heap_memory s) lim fl (start_failure_code s).

Definition with_static (s : SlabAllocator) (gpc dmac : list Z) : SlabAllocator :=
  mkAllocator (this s) gpc dmac (a_vmm s) (heap_memory s) (a_limit s) (free_list s) (start_failure_code s).

Definition fail (s : SlabAllocator) (f : HeapStartFailureCode) : SlabAllocator :=
  mkAllocator (this s) (general_purpose_cache s) (dma_cache s) (a_vmm s) (heap_memory s) (a_limit s) (free_list s) f.

Definition Log2Shit (n : Z) : Z :=
  match n with
  | 16 => 4 | 32 => 5 | 64 => 6 | 128 => 7 | 256 => 8 | 512 => 9 | 1024 => 10 | 2048 => 11 | 4096 => 12
  | 8192 => 13 | 16384 => 14 | 32768 => 15 | 65536 => 16 | _ => 0
  end.

(** The lower and the upper power of two around [size]. *)
Definition power_of_two_boundaries (size : Z) : Z * Z :=
  let size := u64 (size - 1) in
  let size := Z.lor size (Z.shiftr size 1) in
  let size := Z.lor size (Z.shiftr size 2) in
  let size := Z.lor size (Z.shiftr size 4) in
  let size := Z.lor size (Z.shiftr size 8) in
  let size := Z.lor size (Z.shiftr size 16) in
  let size := Z.lor size (Z.shiftr size 32) in
  let size := u64 (size + 1) in
  (Z.shiftr size 1, size).

Definition get_min_cache_size : Z := Z.shiftl 1 MIN_SIZE_POWER.

Definition get_max_cache_size : Z := Z.shiftl 1 (STATIC_CACHE_COUNT + MIN_SIZE_POWER - 1).

Section allocator.
Context {V : Type} `{PageAllocator V}.
Abbreviation heap := (Slab.heap V).

Definition init_cache (s : SlabAllocator) (h : heap) (cache obj_size align page_flags : Z) (force_off_slab : bool)
    (object_buf_node_hashmap : Z) : option (Z * SlabAllocator * heap) :=
  if Region.end_ (heap_memory s) <=? a_limit s then Some (-1, s, h)
  else if force_off_slab && (get_page_size / ON_OFF_SLAB_BOUNDARY_DIVIDER <=? obj_size) then Some (-2, s, h)
  else
    start ← (if negb (free_list s =? 0) then n ← get_mem_node h (free_list s); Some (mem_addr n) else Some (a_limit s));
    let region := Region.mkRegion start CACHE_SIZE Region.NONE in
    '(r_code, h) ←
      (if obj_size <? get_page_size / ON_OFF_SLAB_BOUNDARY_DIVIDER then
         cache_init h cache (a_vmm s) 0 region page_flags 0 0 obj_size align 0
       else
         cache_init h cache (a_vmm s) (a_memory_node_cache s) region page_flags (a_object_buf_node_cache s)
           object_buf_node_hashmap obj_size align (a_slab_cache s));
    if r_code <? 0 then Some (r_code, s, h)
    else if Region.start region =? a_limit s then Some (0, with_region s (u64 (a_limit s + CACHE_SIZE)) (free_list s), h)
    else
      let f := free_list s in
      n ← get_mem_node h f;
      h ← put_mem_node h f (mkMem 0 0);
      h ← cache_free h (a_memory_node_cache s) f;
      Some (0, with_region s (a_limit s) (m_next n), h).

(** The bootstrap caches: their sizes and what is reported when one cannot be created. *)
Definition bootstrap : list (Z * HeapStartFailureCode) :=
  [(sizeof_ObjectCache, BC_OBJECT_CACHE_ERROR); (sizeof_Slab, BC_SLAB_ERROR);
   (sizeof_ObjectBufNode, BC_OBJECT_BUF_NODE_ERROR); (sizeof_ObjectBufNodeHashMap, BC_OBJECT_BUF_NODE_HASHMAP_ERROR);
   (sizeof_HashNode, BC_HASHNODE_ERROR); (sizeof_MemoryNode, BC_MEMORY_NODE_ERROR)].

(** The caches from number [i] on, in order. *)
Fixpoint start_bootstrap (s : SlabAllocator) (h : heap) (page_flags i : Z) (l : list (Z * HeapStartFailureCode))
    : option (HeapStartFailureCode * SlabAllocator * heap) :=
  match l with
  | [] => Some (HS_NONE, s, h)
  | (size, code) :: l' =>
      '(r, s, h) ← init_cache s h (bootstrap_cache s i) size 0 page_flags true 0;
      if r <? 0 then Some (code, fail s code, h) else start_bootstrap s h page_flags (i + 1) l'
  end.

(** The general purpose and DMA caches from number [i] on; [n] of them are left. *)
Fixpoint start_static (n : nat) (s : SlabAllocator) (h : heap) (page_flags dma_page_flags i size : Z)
    : option (HeapStartFailureCode * SlabAllocator * heap) :=
  match n with
  | O => Some (HS_NONE, s, h)
  | S n' =>
      '(gpc, h) ← allocate h (object_cache_cache s);
      '(dmac, h) ← allocate h (object_cache_cache s);
      '(gpcMap, h) ← allocate h (object_buf_node_hash_map_cache s);
      '(dmaMap, h) ← allocate h (object_buf_node_hash_map_cache s);
      if (gpc =? 0) || (dmac =? 0) || (gpcMap =? 0) || (dmaMap =? 0) then
        Some (ALLOC_GP_OR_DMA_CACHE_ERROR, fail s ALLOC_GP_OR_DMA_CACHE_ERROR, h)
      else
        h ← hm_init h gpcMap (a_hash_node_cache s);
        h ← hm_init h dmaMap (a_hash_node_cache s);
        '(r, s, h) ← init_cache s h gpc size 0 page_flags false gpcMap;
        if r <? 0 then Some (GP_CACHE_ERROR, fail s GP_CACHE_ERROR, h)
        else
          '(r, s, h) ← init_cache s h dmac size 0 dma_page_flags false dmaMap;
          if r <? 0 then Some (DMA_CACHE_ERROR, fail s DMA_CACHE_ERROR, h)
          else
            gpcs ← aset (general_purpose_cache s) i gpc;
            dmacs ← aset (dma_cache s) i dmac;
            start_static n' (with_static s gpcs dmacs) h page_flags dma_page_flags (i + 1) (u64 (Z.shiftl size 1))
  end.

Definition PRESENT : Z := 1.
Definition WRITE_ALLOWED : Z := 2.
Definition WRITE_THROUGH : Z := 8.
Definition CACHE_DISABLE : Z := 16.

Definition heap_region (regs : list Region.MemoryRegion) (old : Region.MemoryRegion) : Region.MemoryRegion :=
  match List.find (fun reg => bool_decide (Region.memory_type reg = Region.KERNEL_HEAP)) regs with
  | Some reg => reg
  | None => old
  end.

Definition start (s : SlabAllocator) (h : heap) (v_map : MemMap.MemoryMap) (vmm : Z)
    : option (HeapStartFailureCode * SlabAllocator * heap) :=
  let reg := heap_region (MemMap.regions v_map) (heap_memory s) in
  let s := mkAllocator (this s) (general_purpose_cache s) (dma_cache s) (a_vmm s) reg (a_limit s) (free_list s)
             (start_failure_code s) in
  if decide (Region.memory_type reg = Region.NONE) then Some (HEAP_NOT_MAPPED, fail s HEAP_NOT_MAPPED, h)
  else
    let s := mkAllocator (this s) (general_purpose_cache s) (dma_cache s) vmm reg (Region.start reg) (free_list s)
               (start_failure_code s) in
    let page_flags := Z.lor PRESENT WRITE_ALLOWED in
    '(r, s, h) ← start_bootstrap s h page_flags 0 bootstrap;
    match r with
    | HS_NONE =>
        start_static (Z.to_nat STATIC_CACHE_COUNT) s h page_flags
          (Z.lor (Z.lor page_flags CACHE_DISABLE) WRITE_THROUGH) 0 MIN_OBJ_SIZE
    | _ => Some (r, s, h)
    end.

(** The place of the static cache for objects of [size] bytes; no place is outside the array. *)
Definition static_index (size : Z) : Z :=
  Log2Shit (snd (power_of_two_boundaries (Math.max size MIN_OBJ_SIZE))) - MIN_SIZE_POWER.

Definition allocate (s : SlabAllocator) (h : heap) (size : Z) : option (Z * heap) :=
  c ← aget (general_purpose_cache s) (static_index size);
  Slab.allocate h c.

Definition allocate_dma (s : SlabAllocator) (h : heap) (size : Z) : option (Z * heap) :=
  c ← aget (dma_cache s) (static_index size);
  Slab.allocate h c.

Definition free (s : SlabAllocator) (h : heap) (obj : Z) : option heap :=
  base ← memory_align obj CACHE_SIZE false;
  let cache_idx := u64 (base - Region.start (heap_memory s)) / CACHE_SIZE in
  c ← object_at h (object_cache_cache s) (u8 (cache_idx - BOOTSTRAP_CACHE_COUNT));
  if c =? 0 then Some h
  else
    cache ← get_cache h c;
    if decide (type cache = CT_NONE) then Some h else cache_free h c obj.

Definition create_new_cache (s : SlabAllocator) (h : heap) (object_size align : Z) (dma : bool)
    : option (Z * SlabAllocator * heap) :=
  '(cache, h) ← Slab.allocate h (object_cache_cache s);
  if cache =? 0 then Some (0, s, h)
  else
    '(obnhm, h) ← Slab.allocate h (object_buf_node_hash_map_cache s);
    if obnhm =? 0 then h ← cache_free h (object_cache_cache s) cache; Some (0, s, h)
    else
      h ← hm_init h obnhm (a_hash_node_cache s);
      let pageFlags := Z.lor PRESENT WRITE_ALLOWED in
      let pageFlags := if dma then Z.lor (Z.lor pageFlags CACHE_DISABLE) WRITE_THROUGH else pageFlags in
      '(r, s, h) ← init_cache s h cache object_size align pageFlags false obnhm;
      if r <? 0 then
        h ← cache_free h (object_cache_cache s) cache;
        h ← cache_free h (object_buf_node_hash_map_cache s) obnhm;
        Some (0, s, h)
      else Some (cache, s, h).

Definition destroy_cache (s : SlabAllocator) (h : heap) (cache : Z) : option (SlabAllocator * heap) :=
  c ← get_cache h cache;
  let m_start := Region.start (managed c) in
  '(mem_node, h) ← Slab.allocate h (a_memory_node_cache s);
  if mem_node =? 0 then Some (s, h)
  else
    h ← destroy h cache;
    h ← cache_free h (object_cache_cache s) cache;
    if m_start =? a_limit s then Some (with_region s (u64 (a_limit s - CACHE_SIZE)) (free_list s), h)
    else
      h ← put_mem_node h mem_node (mkMem (free_list s) m_start);
      Some (with_region s (a_limit s) mem_node, h).
End allocator.
End SlabAllocator.
