(* ===== verification/SlabProps.v ===== *)
(** * Properties of slabs

    The laws the virtual memory manager must satisfy, the circular lists of slabs, and slabs that keep their own
    administration: such a slab is a stack of free objects behind the objects themselves. *)

From Stdlib Require Import Permutation.
From stdpp Require Import functions.
From S2P Require Import Prelude Kre Memory Paging Slab.
Import Pg Slab.

(** ** What the heap expects of the virtual memory manager

    [vp_ok v O]: the manager is consistent, and the pages [O] are mapped and belong to the heap. *)
Class PageLaws (V : Type) `{PageAllocator V} (heap_page : Z -> Prop) (flags_ok : Z -> Prop) := {
  vp_ok : V -> gset Z -> Prop;
  vp_owned_law : forall v O p x, vp_ok v O -> p ∈ O -> p <= x < p + get_page_size -> vp_mapped v x = true;
  vp_allocate_law : forall v O p f, vp_ok v O -> heap_page p -> flags_ok f -> exists ok v',
    vp_allocate v p f = Some (ok, v')
    /\ (if ok : bool then p ∉ O /\ vp_ok v' ({[p]} ∪ O) else vp_ok v' O)
    /\ forall x, vp_mapped v x = true -> vp_mapped v' x = true;
  vp_free_law : forall v O p, vp_ok v O -> heap_page p -> p ∈ O -> exists v',
    vp_free v p = Some (true, v') /\ vp_ok v' (O ∖ {[p]})
    /\ forall x, ~ p <= x < p + get_page_size -> vp_mapped v x = true -> vp_mapped v' x = true;
}.

(** ** Rings of slabs *)
Module Ring.

Definition last_ (p : Z) (l : list Z) : Z := default p (last l).

(** The slabs of [l] are linked from predecessor [p] to successor [n]. *)
Fixpoint seg (m : gmap Z Slab) (p : Z) (l : list Z) (n : Z) : Prop :=
  match l with
  | [] => True
  | x :: l' => (exists s, m !! x = Some s /\ prev s = p /\ next s = hd n l') /\ seg m x l' n
  end.

Definition ring (m : gmap Z Slab) (l : list Z) : Prop := seg m (last_ 0 l) l (hd 0 l).

(** Only links may differ. *)
Definition relinked (m m' : gmap Z Slab) : Prop :=
  forall a, (with_next 0 ∘ with_prev 0) <$> m' !! a = (with_next 0 ∘ with_prev 0) <$> m !! a.

Lemma relinked_refl m : relinked m m.
Proof. done. Qed.

Lemma relinked_trans m1 m2 m3 : relinked m1 m2 -> relinked m2 m3 -> relinked m1 m3.
Proof. intros H1 H2 a. by rewrite H2, H1. Qed.

Lemma relinked_alter m f x :
  (forall s, with_next 0 (with_prev 0 (f s)) = with_next 0 (with_prev 0 s)) -> relinked m (alter f x m).
Proof.
  intros Hf a. destruct (decide (a = x)) as [->|]; [|by rewrite lookup_alter_ne].
  rewrite lookup_alter_eq. destruct (m !! x); cbn; [by rewrite Hf|done].
Qed.

Lemma relinked_dom m m' a : relinked m m' -> is_Some (m !! a) -> is_Some (m' !! a).
Proof. intros H [s Hs]. specialize (H a). rewrite Hs in H. destruct (m' !! a); [eauto|done]. Qed.

Lemma relinked_data m m' a s : relinked m m' -> m !! a = Some s -> exists s', m' !! a = Some s'
  /\ free_buf s' = free_buf s /\ object_size s' = object_size s /\ object_count s' = object_count s
  /\ allocated_count s' = allocated_count s /\ page s' = page s /\ slab_size s' = slab_size s.
Proof.
  intros H Hs. specialize (H a). rewrite Hs in H. destruct (m' !! a) as [s'|]; [|done].
  cbn in H. unfold with_next, with_prev in H. cbn in H. injection H as ? ? ? ? ? ?. eauto 10.
Qed.

#[export] Hint Resolve relinked_refl : ring.

Lemma last_app p l1 l2 : last_ p (l1 ++ l2) = last_ (last_ p l1) l2.
Proof. unfold last_. destruct l2 as [|y l2 _] using rev_ind; [by rewrite app_nil_r|]. by rewrite app_assoc, !last_snoc. Qed.

Lemma last_cons p x l : last_ p (x :: l) = last_ x l.
Proof. exact (last_app p [x] l). Qed.

Lemma ring_last_in p l : l <> [] -> last_ p l ∈ l.
Proof. destruct l as [|y l _] using rev_ind; [done|]. intros _. unfold last_. rewrite last_snoc. cbn. set_solver. Qed.

Lemma last_def p q l : l <> [] -> last_ p l = last_ q l.
Proof. destruct l as [|y l _] using rev_ind; [done|]. intros _. unfold last_. by rewrite last_snoc. Qed.

Lemma hd_app n (l1 l2 : list Z) : hd n (l1 ++ l2) = hd (hd n l2) l1.
Proof. by destruct l1. Qed.

Lemma hd_def (n n' : Z) l : l <> [] -> hd n l = hd n' l.
Proof. by destruct l. Qed.

Lemma hd_in n (l : list Z) : l <> [] -> hd n l ∈ l.
Proof. destruct l; [done|]. intros _. cbn. set_solver. Qed.

Lemma slab_seg_app m l1 : forall l2 p n, seg m p (l1 ++ l2) n <-> seg m p l1 (hd n l2) /\ seg m (last_ p l1) l2 n.
Proof.
  induction l1 as [|x l1 IH]; intros l2 p n; cbn; [naive_solver|].
  rewrite IH, hd_app, last_cons. naive_solver.
Qed.

Lemma slab_seg_frame m m' l : forall p n, (forall z, z ∈ l -> m' !! z = m !! z) -> seg m p l n -> seg m' p l n.
Proof.
  induction l as [|x l IH]; intros p n Hf; cbn; [done|]. intros [Hx Hs]. split.
  - rewrite Hf by set_solver. done.
  - apply IH; [|done]. intros z Hz. apply Hf. set_solver.
Qed.

Lemma slab_seg_dom m l : forall p n x, seg m p l n -> x ∈ l -> is_Some (m !! x).
Proof.
  induction l as [|y l IH]; intros p n x; cbn; [set_solver|].
  intros [(s & Hy & _) Hs] [->|Hx]%elem_of_cons; [eauto|by eapply IH].
Qed.

Lemma slab_seg_set_prev m p l n p' : l <> [] -> NoDup l -> seg m p l n -> seg (alter (with_prev p') (hd 0 l) m) p' l n.
Proof.
  destruct l as [|x l]; [done|]. intros _ [Hx _]%NoDup_cons. cbn. intros [(s & Hs & _ & Hn) Hl]. split.
  - exists (with_prev p' s). by rewrite lookup_alter_eq, Hs.
  - eapply slab_seg_frame; [|done]. intros z Hz. apply lookup_alter_ne. congruence.
Qed.

Lemma slab_seg_set_next m p l n n' : l <> [] -> NoDup l -> seg m p l n -> seg (alter (with_next n') (last_ 0 l) m) p l n'.
Proof.
  destruct l as [|x l _] using rev_ind; [done|]. intros _ (_ & Hx & _)%NoDup_app.
  rewrite !slab_seg_app, last_app. cbn. intros [Hl [(s & Hs & Hp & _) _]]. split; [|split; [|done]].
  - eapply slab_seg_frame; [|done]. intros z Hz. apply lookup_alter_ne. specialize (Hx z Hz). set_solver.
  - exists (with_next n' s). unfold last_; cbn. by rewrite lookup_alter_eq, Hs.
Qed.

Lemma ring_dom m l x : ring m l -> x ∈ l -> is_Some (m !! x).
Proof. apply slab_seg_dom. Qed.

Lemma ring_frame m m' l : (forall z, z ∈ l -> m' !! z = m !! z) -> ring m l -> ring m' l.
Proof. apply slab_seg_frame. Qed.

Lemma ring_split m l1 l2 : l1 <> [] -> l2 <> [] ->
  ring m (l1 ++ l2) <-> seg m (last_ 0 l2) l1 (hd 0 l2) /\ seg m (last_ 0 l1) l2 (hd 0 l1).
Proof.
  intros H1 H2. unfold ring. rewrite slab_seg_app, last_app, hd_app.
  by rewrite (last_def (last_ 0 l1) 0 l2), (hd_def (hd (hd 0 l2) l1) 0 l2), (last_def (last_ 0 l2) 0 l1),
    (hd_def (hd 0 l2) 0 l1).
Qed.

(** The first slab of a ring is a matter of choice. *)
Lemma ring_rotate m l1 l2 : ring m (l1 ++ l2) -> ring m (l2 ++ l1).
Proof.
  destruct (decide (l1 = [])) as [->|H1]; [by rewrite app_nil_r|].
  destruct (decide (l2 = [])) as [->|H2]; [by rewrite app_nil_r|].
  rewrite !ring_split by done. tauto.
Qed.

(** The pointer updates of [insert_last] and [remove] on the map of slabs. *)
Definition link (x : Z) (l : list Z) (m : gmap Z Slab) : gmap Z Slab :=
  alter (with_prev x) (hd 0 l) (alter (with_prev (last_ 0 l)) x (alter (with_next (hd 0 l)) x
    (alter (with_next x) (last_ 0 l) m))).

Definition unlink (x : Z) (l : list Z) (m : gmap Z Slab) : gmap Z Slab :=
  alter (with_next (hd 0 l)) (last_ 0 l) (alter (with_prev (last_ 0 l)) (hd 0 l) m).

Lemma ring_link m l x : l <> [] -> ring m l -> NoDup l -> x ∉ l -> is_Some (m !! x) -> ring (link x l m) (l ++ [x]).
Proof.
  intros Hl Hr Hnd Hx [s Hs]. apply ring_split; [done|done|].
  change (seg (link x l m) x l x /\ seg (link x l m) (last_ 0 l) [x] (hd 0 l)).
  assert (hd 0 l <> x /\ last_ 0 l <> x) as [Hh Ht] by (split; intros <-; apply Hx; [by apply hd_in|by apply ring_last_in]).
  split.
  - apply (slab_seg_set_prev _ (last_ 0 l)); [done|done|].
    apply (slab_seg_frame (alter (with_next x) (last_ 0 l) m)); [|by eapply slab_seg_set_next].
    intros z Hz. rewrite !lookup_alter_ne by congruence. done.
  - cbn. split; [|done]. eexists. unfold link.
    rewrite lookup_alter_ne, !lookup_alter_eq, lookup_alter_ne, Hs by done. cbn. done.
Qed.

Lemma ring_single m x s : m !! x = Some s -> ring (alter (with_next x) x (alter (with_prev x) x m)) [x].
Proof. intros Hs. unfold ring, last_. cbn. split; [|done]. eexists. by rewrite !lookup_alter_eq, Hs. Qed.

Lemma ring_unlink m x l : l <> [] -> NoDup (x :: l) -> ring m (x :: l) -> ring (unlink x l m) l.
Proof.
  intros Hl [Hx Hnd]%NoDup_cons Hr. apply (ring_split m [x] l) in Hr as [_ Hr]; [|done|done].
  change (last_ 0 [x]) with x in Hr. cbn in Hr. unfold ring, unlink.
  eapply slab_seg_set_next; [done|done|]. eapply slab_seg_set_prev; [done|done|]. exact Hr.
Qed.

Lemma ring_first m x l : l <> [] -> ring m (x :: l) -> exists s, m !! x = Some s /\ prev s = last_ 0 l /\ next s = hd 0 l.
Proof. intros Hl Hr. apply (ring_split m [x] l) in Hr as [[(s & ?) _] _]; [|done|done]. eauto. Qed.

Lemma ring_only m x : ring m [x] -> exists s, m !! x = Some s /\ prev s = x /\ next s = x.
Proof. unfold ring, last_. cbn. intros [(s & ?) _]. eauto. Qed.
End Ring.

(** ** The list operations *)
Module Lists.
Import Ring.
Section lists.
Context {V : Type} `{PageAllocator V}.
Implicit Types (h : heap V) (l : list Z).

Lemma get_slab_spec h p s : at_ h p = Some tt -> slabs h !! p = Some s -> get_slab h p = Some s.
Proof. intros Ha Hs. unfold get_slab. by rewrite Ha, Hs. Qed.

Lemma upd_slab_spec h p f : at_ h p = Some tt -> is_Some (slabs h !! p) ->
  upd_slab h p f = Some (set_slabs h (alter f p (slabs h))).
Proof.
  intros Ha [s Hs]. unfold upd_slab. rewrite (get_slab_spec _ _ _ Ha Hs). cbn. unfold put_slab. rewrite Ha. cbn.
  do 2 f_equal. rewrite alter_alt. by rewrite Hs.
Qed.
(** One [upd_slab] of a slab known to be there. *)
Ltac upd :=
  rewrite upd_slab_spec by (first [assumption | cbn [slabs set_slabs]; rewrite ?lookup_alter_is_Some; eauto]);
  cbn [mbind option_bind].

Lemma at_nonzero h p : at_ h p = Some tt -> p <> 0.
Proof. unfold at_. intros E ->. done. Qed.

Lemma link_relinked x l m : relinked m (link x l m).
Proof. unfold link. repeat (eapply relinked_trans; [|by apply relinked_alter]). done. Qed.

Lemma unlink_relinked x l m : relinked m (unlink x l m).
Proof. unfold unlink. repeat (eapply relinked_trans; [|by apply relinked_alter]). done. Qed.

Lemma insert_last_spec h l x : (forall z, z ∈ x :: l -> at_ h z = Some tt) -> NoDup (x :: l) ->
  ring (slabs h) l -> is_Some (slabs h !! x) ->
  exists m, insert_last h (hd 0 l) x = Some (hd 0 (l ++ [x]), set_slabs h m)
    /\ ring m (l ++ [x]) /\ relinked (slabs h) m /\ forall z, z ∉ x :: l -> m !! z = slabs h !! z.
Proof.
  intros Hat Hnd Hr Hx. apply NoDup_cons in Hnd as [Hxl Hnd]. unfold insert_last.
  assert (at_ h x = Some tt) as Hax by (apply Hat; set_solver).
  destruct (decide (l = [])) as [->|Hl].
  - cbn [hd]. rewrite Z.eqb_refl. do 2 upd.
    eexists. split; [reflexivity|]. destruct Hx as [s Hx]. split; [by eapply ring_single|]. cbn [slabs set_slabs]. split.
    + repeat (eapply relinked_trans; [|by apply relinked_alter]). done.
    + intros z Hz. rewrite !lookup_alter_ne; set_solver.
  - assert (at_ h (hd 0 l) = Some tt) as Hah by (apply Hat; right; by apply hd_in).
    assert (at_ h (last_ 0 l) = Some tt) as Hal by (apply Hat; right; by apply ring_last_in).
    rewrite (proj2 (Z.eqb_neq _ _)) by (by eapply at_nonzero).
    assert (exists s, slabs h !! hd 0 l = Some s /\ prev s = last_ 0 l) as (s & Hs & Hp).
    { destruct l as [|y l]; [done|]. destruct Hr as [(s & ? & ? & _) _]. eauto. }
    rewrite (get_slab_spec _ _ _ Hah Hs). cbn [mbind option_bind]. rewrite Hp.
    assert (is_Some (slabs h !! last_ 0 l)) by (eapply ring_dom; [done|by apply ring_last_in]).
    do 4 upd.
    exists (link x l (slabs h)). split; [by destruct l|]. split; [by apply ring_link|]. split; [apply link_relinked|].
    intros z Hz. unfold link. pose proof (hd_in 0 l Hl). pose proof (ring_last_in 0 l Hl).
    rewrite !lookup_alter_ne; set_solver.
Qed.

(** [remove] names the list by [g], which may be any slab; the slab leaves the ring it is in. *)
Lemma remove_any h g l1 x l2 : (forall z, z ∈ l1 ++ x :: l2 -> at_ h z = Some tt) -> NoDup (l1 ++ x :: l2) ->
  ring (slabs h) (l1 ++ x :: l2) ->
  exists m, remove h g x = Some (if decide (l1 ++ l2 = []) then 0 else if g =? x then hd 0 (l2 ++ l1) else g, set_slabs h m)
    /\ ring m (l1 ++ l2) /\ relinked (slabs h) m /\ forall z, z ∉ l1 ++ x :: l2 -> m !! z = slabs h !! z.
Proof.
  intros Hat Hnd Hr. pose proof (ring_rotate _ _ _ Hr) as Hr'. change (ring (slabs h) (x :: (l2 ++ l1))) in Hr'. set (r := l2 ++ l1) in *.
  assert (NoDup (x :: r)) as Hnd'.
  { unfold r. change (x :: (l2 ++ l1)) with ((x :: l2) ++ l1). by rewrite (Permutation_app_comm (x :: l2) l1). }
  assert (forall z, z ∈ x :: r <-> z ∈ l1 ++ x :: l2) as Hin by (intros z; unfold r; set_solver).
  assert (at_ h x = Some tt) as Hax by (apply Hat; set_solver). unfold remove.
  destruct (decide (r = [])) as [E|Hne].
  - rewrite E in Hr'. destruct (ring_only _ _ Hr') as (s & Hs & Hp & Hn).
    rewrite (get_slab_spec _ _ _ Hax Hs). cbn [mbind option_bind]. rewrite Hn, Z.eqb_refl. cbn [negb mbind option_bind].
    do 2 upd.
    apply app_nil in E as [-> ->]. eexists. split; [reflexivity|]. split; [done|]. cbn [slabs set_slabs]. split.
    + repeat (eapply relinked_trans; [|by apply relinked_alter]). done.
    + intros z Hz. rewrite !lookup_alter_ne; set_solver.
  - destruct (ring_first _ _ _ Hne Hr') as (s & Hs & Hp & Hn). apply NoDup_cons in Hnd' as Hnd''. destruct Hnd'' as [Hxr Hndr].
    pose proof (hd_in 0 r Hne) as Hhr. pose proof (ring_last_in 0 r Hne) as Hlr.
    rewrite (get_slab_spec _ _ _ Hax Hs). cbn [mbind option_bind]. rewrite Hn, Hp.
    rewrite (proj2 (Z.eqb_neq x (hd 0 r))) by congruence. cbn [negb].
    assert (forall z, z ∈ r -> is_Some (slabs h !! z)) as Hdom by (intros; eapply ring_dom; [exact Hr'|set_solver]).
    assert (forall z, z ∈ r -> at_ h z = Some tt) as Har by (intros; apply Hat, Hin; set_solver).
    pose proof (Har _ Hhr) as Hah. pose proof (Har _ Hlr) as Hal. pose proof (Hdom _ Hhr). pose proof (Hdom _ Hlr).
    upd.
    rewrite (get_slab_spec (set_slabs h _) x s Hax) by (cbn; rewrite lookup_alter_ne by congruence; done). cbn [mbind option_bind].
    rewrite Hn, Hp.
    upd.
    do 2 upd.
    cbn [slabs set_slabs]. change (alter (with_next (hd 0 r)) (last_ 0 r) (alter (with_prev (last_ 0 r)) (hd 0 r) (slabs h)))
      with (unlink x r (slabs h)).
    exists (alter (with_prev 0) x (alter (with_next 0) x (unlink x r (slabs h)))). split; [|split; [|split]].
    + rewrite decide_False; [done|]. intros [-> ->]%app_nil. by apply Hne.
    + apply (ring_frame (unlink x r (slabs h))); [|apply ring_rotate; by apply ring_unlink].
      intros z Hz. rewrite !lookup_alter_ne; [done|..]; intros <-; apply Hxr; unfold r; set_solver.
    + do 2 (eapply relinked_trans; [|by apply relinked_alter]). apply unlink_relinked.
    + intros z Hz. rewrite <- Hin in Hz. unfold unlink. rewrite !lookup_alter_ne; set_solver.
Qed.

Lemma ring_remove_spec h l1 x l2 : (forall z, z ∈ l1 ++ x :: l2 -> at_ h z = Some tt) -> NoDup (l1 ++ x :: l2) ->
  ring (slabs h) (l1 ++ x :: l2) ->
  exists m, remove h (hd 0 (l1 ++ x :: l2)) x = Some (hd 0 (l1 ++ l2), set_slabs h m)
    /\ ring m (l1 ++ l2) /\ relinked (slabs h) m /\ forall z, z ∉ l1 ++ x :: l2 -> m !! z = slabs h !! z.
Proof.
  intros Hat Hnd Hr. destruct (remove_any h (hd 0 (l1 ++ x :: l2)) l1 x l2 Hat Hnd Hr) as (m & E & Hm).
  exists m. split; [|exact Hm]. rewrite E. do 2 f_equal. destruct l1 as [|y l1]; cbn.
  - rewrite Z.eqb_refl, app_nil_r. by destruct l2.
  - rewrite (proj2 (Z.eqb_neq y x)); [done|]. intros ->. apply NoDup_cons in Hnd as []. set_solver.
Qed.

(** A slab leaves one list and becomes the last of another one. *)
Lemma move_spec h g l1 x l2 l' rest : (forall z, z ∈ (l1 ++ x :: l2) ++ l' -> at_ h z = Some tt) ->
  NoDup ((l1 ++ x :: l2) ++ l' ++ rest) -> ring (slabs h) (l1 ++ x :: l2) -> ring (slabs h) l' -> ring (slabs h) rest ->
  (l1 = [] -> g = x) -> (l1 <> [] -> g <> x) ->
  exists m1 m, remove h g x = Some (if decide (l1 = []) then hd 0 l2 else g, set_slabs h m1)
    /\ insert_last (set_slabs h m1) (hd 0 l') x = Some (hd 0 (l' ++ [x]), set_slabs h m)
    /\ ring m (l1 ++ l2) /\ ring m (l' ++ [x]) /\ ring m rest /\ relinked (slabs h) m
    /\ forall z, z ∉ (l1 ++ x :: l2) ++ l' -> m !! z = slabs h !! z.
Proof.
  intros Hat Hnd Hr Hr' Hrest Hg1 Hg2. apply NoDup_app in Hnd as (Hnd1 & Hd1 & (Hnd2 & Hd2 & _)%NoDup_app).
  destruct (remove_any h g l1 x l2) as (m1 & E1 & R1 & L1 & F1); [set_solver|done|done|].
  assert (x ∉ l' /\ x ∉ rest) as [Hx1 Hx2] by (split; intros ?; apply (Hd1 x); set_solver).
  destruct (insert_last_spec (set_slabs h m1) l' x) as (m & E2 & R2 & L2 & F2).
  - intros z Hz. apply (Hat z). set_solver.
  - by apply NoDup_cons.
  - apply (ring_frame (slabs h)); [|done]. intros z Hz. apply F1. intros Hz1. apply (Hd1 z); set_solver.
  - eapply relinked_dom; [exact L1|]. eapply ring_dom; [exact Hr|set_solver].
  - exists m1, m. rewrite E1, E2. split; [|split; [done|split; [|split; [done|split; [|split]]]]].
    + do 2 f_equal. destruct l1 as [|y l1].
      * rewrite Hg1, Z.eqb_refl, app_nil_r by done. cbn. by destruct l2.
      * rewrite !decide_False by done. by rewrite (proj2 (Z.eqb_neq g x)) by auto.
    + apply (ring_frame m1); [|done]. intros z Hz. apply F2. intros [->|Hz']%elem_of_cons.
      * apply NoDup_app in Hnd1 as (_ & Hd & [Hn _]%NoDup_cons). apply elem_of_app in Hz as [Hz|Hz]; [|done]. apply (Hd x Hz). set_solver.
      * apply (Hd1 z); set_solver.
    + apply (ring_frame (slabs h)); [|done]. intros z Hz. rewrite F2, F1; [done| |].
      * intros Hz1. apply (Hd1 z); set_solver.
      * intros [->|Hz']%elem_of_cons; [done|]. by apply (Hd2 z).
    + eapply relinked_trans; [exact L1|exact L2].
    + intros z Hz. rewrite F2, F1; set_solver.
Qed.
End lists.
End Lists.

(** ** Slabs that keep their own administration *)
Module OnSlab.
Import Ring Lists.
Section onslab.
Context {V : Type} `{PageAllocator V}.
Implicit Types (h : heap V).

(** [n] objects of [sz] bytes fit on a page together with the free list and the slab structure. *)
Record geometry (sz n : Z) : Prop := {
  geo_size : 1 <= sz;
  geo_count : 1 <= n <= MAX_OBJECT_COUNT;
  geo_fits : n * sz + n <= 4032;
}.

Lemma on_slab_objects_spec sz : 1 <= sz <= 4031 -> exists n, on_slab_objects sz = Some n /\ geometry sz n.
Proof.
  intros Hsz. unfold on_slab_objects, cdiv, sizeof_Slab, MAX_OBJECT_COUNT. change get_page_size with 4096.
  rewrite !decide_False by lia. cbn [mbind option_bind]. rewrite Math.min_spec.
  set (q := (4096 - 64) / sz). assert (q * sz <= 4032 /\ 1 <= q <= 4032) as [Hq1 Hq2] by (subst q; Z.to_euclidean_division_equations; nia).
  set (m := Z.min q 255). assert (m * sz <= 4032) by (subst m; nia).
  rewrite (wrap_small 64) by word_lia. destruct (_ <? m) eqn:E; bool_prop.
  - rewrite wrap_small, decide_False by word_lia. eexists. split; [reflexivity|].
    assert (2 <= m) by (subst m; nia).
    assert ((4096 - 64 - m) / sz < m) by (apply Z.div_lt_upper_bound; nia).
    assert (1 <= (4096 - 64 - m) / sz) by (apply Z.div_le_lower_bound; nia).
    pose proof (Z.mul_div_le (4096 - 64 - m) sz ltac:(lia)).
    split; [lia|unfold MAX_OBJECT_COUNT; lia|lia].
  - eexists. split; [reflexivity|]. split; [lia|unfold MAX_OBJECT_COUNT; lia|lia].
Qed.
(** The free list [fl] in the bytes at [base]: every free object names the next one, the last one the marker. *)
Fixpoint chain (b : Z -> Z) (base : Z) (fl : list Z) : Prop :=
  match fl with [] => True | i :: fl' => b (base + i) = hd MAX_OBJECT_COUNT fl' /\ chain b base fl' end.

(** The slab at [a], the end of its page, has [n] objects of [sz] bytes, of which those in [fl] are free. *)
Record on_slab h (sz n a : Z) (fl : list Z) : Prop := {
  os_slab : exists s, slabs h !! a = Some s /\ object_size s = sz /\ object_count s = n
    /\ allocated_count s = n - zlen fl /\ page s = a - 4032 /\ free_buf s = free_object (hd MAX_OBJECT_COUNT fl);
  os_chain : chain (bytes h) (a - n) fl;
  os_nodup : NoDup fl;
  os_range : forall i, i ∈ fl -> 0 <= i < n;
}.

(** An address of a slab structure: the last 64 bytes of a page that is not the first of the address space. *)
Definition slab_addr (a : Z) : Prop := a mod 4096 = 4032 /\ 4096 <= a /\ a + 64 < 2 ^ 64.

(** The page of the slab is mapped. *)
Definition slab_mapped h (a : Z) : Prop := forall x, a - 4032 <= x < a + 64 -> at_ h x = Some tt.

(** The links of the slabs are the same. *)
Definition same_links (m m' : gmap Z Slab) : Prop :=
  forall a, (fun s => (prev s, next s)) <$> m' !! a = (fun s => (prev s, next s)) <$> m !! a.

Lemma seg_links m m' l : forall p n, same_links m m' -> seg m p l n -> seg m' p l n.
Proof.
  induction l as [|x l IH]; intros p n Hs; cbn; [done|]. intros [(s & Hx & Hp & Hn) Hl]. split; [|by apply IH].
  specialize (Hs x). rewrite Hx in Hs. destruct (m' !! x) as [s'|]; [|done]. cbn in Hs. injection Hs as E1 E2.
  exists s'. rewrite E1, E2. done.
Qed.

Lemma ring_links m m' l : same_links m m' -> ring m l -> ring m' l.
Proof. apply seg_links. Qed.

Lemma same_links_insert m a s s' : m !! a = Some s -> prev s' = prev s -> next s' = next s -> same_links m (<[a := s']> m).
Proof.
  intros Hs Hp Hn x. destruct (decide (x = a)) as [->|]; [|by rewrite lookup_insert_ne].
  rewrite lookup_insert_eq, Hs. cbn. by rewrite Hp, Hn.
Qed.

Lemma chain_frame b b' base fl : (forall i, i ∈ fl -> b' (base + i) = b (base + i)) -> chain b base fl -> chain b' base fl.
Proof.
  induction fl as [|i fl IH]; intros Hf; cbn; [done|]. intros [Hi Hc]. split.
  - rewrite Hf by set_solver. done.
  - apply IH; [|done]. intros j Hj. apply Hf. set_solver.
Qed.

Lemma on_slab_frame h h' sz n a fl :
  (exists s s', slabs h !! a = Some s /\ slabs h' !! a = Some s' /\ free_buf s' = free_buf s /\ object_size s' = object_size s
     /\ object_count s' = object_count s /\ allocated_count s' = allocated_count s /\ page s' = page s) ->
  (forall x, a - n <= x < a -> bytes h' x = bytes h x) -> on_slab h sz n a fl -> on_slab h' sz n a fl.
Proof.
  intros (s & s' & Hs & Hs' & E1 & E2 & E3 & E4 & E5) Hb [(s0 & Hs0 & ?) Hc Hnd Hr]. split.
  - rewrite Hs in Hs0. injection Hs0 as <-. exists s'. rewrite E1, E2, E3, E4, E5. done.
  - eapply chain_frame; [|done]. intros i Hi. apply Hb. specialize (Hr i Hi). lia.
  - done.
  - done.
Qed.

Lemma on_slab_relinked h m sz n a fl : relinked (slabs h) m -> on_slab h sz n a fl -> on_slab (set_slabs h m) sz n a fl.
Proof.
  intros Hm Ho. destruct (os_slab _ _ _ _ _ Ho) as (s & Hs & _).
  destruct (relinked_data _ _ _ _ Hm Hs) as (s' & Hs' & ? & ? & ? & ? & ? & _).
  apply (on_slab_frame h); [|done|exact Ho]. exists s, s'. eauto 10.
Qed.

Lemma zlen_fl_bound fl n : NoDup fl -> (forall i, i ∈ fl -> 0 <= i < n) -> 0 <= n -> 0 <= zlen fl <= n.
Proof.
  intros Hnd Hr Hn. split; [apply zlen_nonneg|].
  assert (fl ⊆+ (Z.of_nat <$> seq 0 (Z.to_nat n))) as Hsub.
  { apply NoDup_submseteq; [done|]. intros i Hi. apply list_elem_of_fmap. exists (Z.to_nat i). rewrite elem_of_seq.
    specialize (Hr i Hi). lia. }
  apply submseteq_length in Hsub. rewrite length_fmap, length_seq in Hsub. unfold zlen. lia.
Qed.

Lemma on_slab_len h sz n a fl : geometry sz n -> on_slab h sz n a fl -> 0 <= zlen fl <= n.
Proof. intros Hg Ho. eapply zlen_fl_bound; [apply Ho|apply Ho|]. destruct Hg; lia. Qed.

Lemma get_byte_spec h x : at_ h x = Some tt -> get_byte h x = Some (bytes h x).
Proof. intros Ha. unfold get_byte. by rewrite Ha. Qed.

Lemma put_byte_spec h x v : at_ h x = Some tt -> put_byte h x v = Some (set_bytes h (<[x := u8 v]> (bytes h))).
Proof. intros Ha. unfold put_byte. by rewrite Ha. Qed.

Lemma put_slab_spec h a s : at_ h a = Some tt -> put_slab h a s = Some (set_slabs h (<[a := s]> (slabs h))).
Proof. intros Ha. unfold put_slab. by rewrite Ha. Qed.

(** The next free object is popped. *)
Lemma alloc_on_slab_spec h sz n a i fl : geometry sz n -> slab_addr a -> slab_mapped h a -> on_slab h sz n a (i :: fl) ->
  exists m, alloc_on_slab h a = Some (a - 4032 + i * sz, set_slabs h m) /\ on_slab (set_slabs h m) sz n a fl
    /\ same_links (slabs h) m /\ forall b, b <> a -> m !! b = slabs h !! b.
Proof.
  intros [Hsz Hn Hfit] (Ha1 & Ha2 & Ha3) Hmap Ho. pose proof (on_slab_len h sz n a _ ltac:(by split) Ho) as Hlen.
  destruct Ho as [(s & Hs & Es & En & Ec & Ep & Ef) Hc Hnd Hr]. rewrite zlen_cons in Ec, Hlen. cbn in Ef, Hc.
  pose proof (zlen_nonneg fl). assert (0 <= i < n) as Hi by (apply Hr; set_solver).
  unfold MAX_OBJECT_COUNT in Hn. unfold alloc_on_slab. rewrite (get_slab_spec _ _ s) by (apply Hmap || done; lia). cbn [mbind option_bind].
  rewrite En, Ec, Ef, Ep, Es. rewrite (proj2 (Z.eqb_neq _ _)) by lia.
  assert (in_width 64 (a - 4032 + i * sz)) by (change (2 ^ 64) with 18446744073709551616 in *; unfold in_width; nia).
  rewrite (wrap_small 64 (a - n)), (wrap_small 64 (a - n + i)), (wrap_small 64 (a - 4032 + i * sz)), (wrap_small 64 (_ + 1)) by word_lia.
  rewrite get_byte_spec by (apply Hmap; lia). cbn [mbind option_bind].
  rewrite put_slab_spec by (apply Hmap; lia). cbn [mbind option_bind]. destruct Hc as [Hci Hc]. rewrite Hci.
  eexists. split; [reflexivity|]. apply NoDup_cons in Hnd as [Hnd1 Hnd2]. split; [split|split].
  - eexists. cbn [slabs set_slabs]. rewrite lookup_insert_eq. split; [reflexivity|]. cbn. repeat split; try done. lia.
  - done.
  - done.
  - intros j Hj. apply Hr. set_solver.
  - eapply same_links_insert; [exact Hs|done|done].
  - intros b Hb. by rewrite lookup_insert_ne.
Qed.

(** The object is pushed. *)
Lemma free_on_slab_spec h sz n a i fl : geometry sz n -> slab_addr a -> slab_mapped h a -> on_slab h sz n a fl ->
  0 <= i < n -> i ∉ fl ->
  exists m, let h' := set_slabs (set_bytes h (<[a - n + i := hd MAX_OBJECT_COUNT fl]> (bytes h))) m in
    free_on_slab h a (a - 4032 + i * sz) = Some (true, h') /\ on_slab h' sz n a (i :: fl)
    /\ same_links (slabs h) m /\ forall b, b <> a -> m !! b = slabs h !! b.
Proof.
  intros Hg (Ha1 & Ha2 & Ha3) Hmap Ho Hi Hfl.
  assert (0 <= zlen fl < n) as Hlen.
  { assert (0 <= zlen (i :: fl) <= n); [|rewrite zlen_cons in *; pose proof (zlen_nonneg fl); lia].
    destruct Ho as [_ _ Hnd Hr]. apply zlen_fl_bound; [by apply NoDup_cons|intros j Hj; apply elem_of_cons in Hj as [->|]; auto|].
    destruct Hg. unfold MAX_OBJECT_COUNT in *. lia. }
  destruct Hg as [Hsz Hn Hfit]. destruct Ho as [(s & Hs & Es & En & Ec & Ep & Ef) Hc Hnd Hr].
  unfold MAX_OBJECT_COUNT in Hn. unfold free_on_slab. rewrite (get_slab_spec _ _ s) by (apply Hmap || done; lia). cbn [mbind option_bind].
  rewrite Ec, Ef, Ep, Es, En. rewrite (proj2 (Z.eqb_neq _ _)) by lia.
  replace (a - 4032 + i * sz - (a - 4032)) with (i * sz) by lia.
  unfold cdiv. rewrite decide_False by lia. cbn [mbind option_bind]. 
  rewrite (wrap_small 64 (i * sz)) by (unfold in_width; nia). rewrite Z.div_mul by lia.
  rewrite (wrap_small 64 (a - n)), (wrap_small 64 (a - n + i)) by word_lia.
  rewrite put_byte_spec by (apply Hmap; lia). cbn [mbind option_bind].
  assert (u8 (hd MAX_OBJECT_COUNT fl) = hd MAX_OBJECT_COUNT fl) as ->.
  { apply wrap_small. destruct fl as [|j fl]; [done|]. cbn. specialize (Hr j ltac:(set_solver)). word_lia. }
  rewrite put_slab_spec by (apply (Hmap a); lia). cbn [mbind option_bind].
  rewrite (wrap_small 8 i), (wrap_small 64) by word_lia. eexists. split; [reflexivity|]. split; [split|split].
  - eexists. cbn [slabs set_slabs]. rewrite lookup_insert_eq. split; [reflexivity|]. cbn. rewrite zlen_cons. repeat split; try done. lia.
  - cbn [bytes set_slabs set_bytes]. split; [apply fn_lookup_insert|]. eapply chain_frame; [|exact Hc].
    intros j Hj. apply fn_lookup_insert_ne. intros E. apply Hfl. by replace i with j by lia.
  - by apply NoDup_cons.
  - intros j [->|Hj]%elem_of_cons; auto.
  - eapply same_links_insert; [exact Hs|done|done].
  - intros b Hb. by rewrite lookup_insert_ne.
Qed.
Definition all_objects (n : Z) : list Z := Z.of_nat <$> seq 0 (Z.to_nat n).

Lemma elem_of_all_objects n i : i ∈ all_objects n <-> 0 <= i < n.
Proof.
  unfold all_objects. rewrite list_elem_of_fmap. split.
  - intros (k & -> & Hk%elem_of_seq). lia.
  - intros Hi. exists (Z.to_nat i). rewrite elem_of_seq. lia.
Qed.

Lemma all_objects_len n : 0 <= n -> zlen (all_objects n) = n.
Proof. intros. unfold zlen, all_objects. rewrite length_fmap, length_seq. lia. Qed.

Lemma all_objects_nodup n : NoDup (all_objects n).
Proof. unfold all_objects. apply (NoDup_fmap_2 _), NoDup_seq. Qed.

(** The initial free list names the objects in order. *)
Lemma chain_seq b base k : forall i, 0 <= i ->
  (forall j, i <= j < i + Z.of_nat k - 1 -> b (base + j) = j + 1) ->
  (k <> 0%nat -> b (base + (i + Z.of_nat k - 1)) = MAX_OBJECT_COUNT) ->
  chain b base (Z.of_nat <$> seq (Z.to_nat i) k).
Proof.
  induction k as [|k IH]; intros i Hi Hb Hl; cbn; [done|]. rewrite Z2Nat.id by done. split.
  - destruct k as [|k]; cbn.
    + rewrite <- Hl by done. f_equal. lia.
    + rewrite Hb by lia. lia.
  - replace (S (Z.to_nat i)) with (Z.to_nat (i + 1)) by lia. apply IH; [lia| |].
    + intros j Hj. apply Hb. lia.
    + intros _. rewrite <- Hl by done. f_equal. lia.
Qed.

Lemma zero_memory_page h p n : p mod 4096 = 0 -> 0 < n <= 4096 -> at_ h p = Some tt ->
  zero_memory h p n = Some (set_bytes h (fun x => if (p <=? x) && (x <? p + n) then 0 else bytes h x)).
Proof.
  intros Hp Hn Ha. unfold zero_memory, touched, page_of. change get_page_size with 4096. rewrite Hp.
  rewrite (proj2 (Z.leb_gt _ _)) by lia. cbn [orb].
  replace ((0 + n + 4096 - 1) / 4096) with 1 by (Z.to_euclidean_division_equations; lia). change (Z.to_nat 1) with 1%nat.
  cbn [seq fmap list_fmap forallb]. replace (p - 0 + 4096 * Z.of_nat 0) with p by lia. by rewrite Ha.
Qed.

(** The loop that writes the free list. *)
Lemma free_list_loop h base k : 0 <= k <= 254 -> 0 <= base -> base + k < 2 ^ 64 ->
  (forall j, 0 <= j < k -> at_ h (base + j) = Some tt) ->
  exists b, forM (Z.to_nat k) 0 (fun i h => put_byte h (u64 (base + i)) (i + 1)) h = Some (set_bytes h b)
    /\ (forall j, 0 <= j < k -> b (base + j) = j + 1) /\ forall x, ~ base <= x < base + k -> b x = bytes h x.
Proof.
  intros Hk Hb1 Hb2 Ha.
  destruct (forM_inv (fun j h' => exists b, h' = set_bytes h b /\ (forall i, 0 <= i < j -> b (base + i) = i + 1)
     /\ forall x, ~ base <= x < base + j -> b x = bytes h x)
     (fun i h => put_byte h (u64 (base + i)) (i + 1)) (Z.to_nat k) 0 h) as (h' & E & b & -> & Hb & Ho).
  - exists (bytes h). split; [by destruct h|]. split; [lia|done].
  - intros j h' Hj (b & -> & Hb & Ho). rewrite wrap_small by word_lia.
    rewrite put_byte_spec by (apply (Ha j); lia). eexists. split; [reflexivity|].
    rewrite (wrap_small 8) by word_lia. cbn [bytes set_bytes]. eexists. split; [reflexivity|]. split.
    + intros i Hi. destruct (decide (i = j)) as [->|]; [apply fn_lookup_insert|].
      rewrite fn_lookup_insert_ne by lia. apply Hb. lia.
    + intros x Hx. rewrite fn_lookup_insert_ne by lia. apply Ho. lia.
  - exists b. split; [exact E|]. rewrite Z2Nat.id in * by lia. split; [exact Hb|exact Ho].
Qed.

(** A new slab: every object is free. *)
Lemma create_on_slab_spec h sz n p : on_slab_objects sz = Some n -> geometry sz n -> p mod 4096 = 0 ->
  slab_addr (p + 4032) -> slab_mapped h (p + 4032) ->
  exists b s, let h' := set_bytes (set_slabs h (<[p + 4032 := s]> (slabs h))) b in
    create_on_slab h sz p = Some (p + 4032, h') /\ on_slab h' sz n (p + 4032) (all_objects n)
    /\ forall x, ~ p <= x < p + 4096 -> b x = bytes h x.
Proof.
  intros Hobj [Hsz Hn Hfit] Hp (Ha1 & Ha2 & Ha3) Hmap. unfold MAX_OBJECT_COUNT in Hn.
  assert (forall x, p <= x < p + 4096 -> at_ h x = Some tt) as Hat by (intros; apply Hmap; lia).
  unfold create_on_slab. rewrite Hobj. cbn [mbind option_bind]. change get_page_size with 4096. change sizeof_Slab with 64.
  rewrite (wrap_small 64 (p + 4096 - 64)), (wrap_small 64 (p + 4096 - 64 - n)), (wrap_small 64 (n - 1)),
    (wrap_small 64 (4096 - 64 - n)) by word_lia.
  replace (p + 4096 - 64) with (p + 4032) by lia.
  rewrite put_slab_spec by (apply Hat; lia). cbn [mbind option_bind].
  set (s := mkSlab 0 0 (free_object 0) sz n 0 p 4096). set (h1 := set_slabs h _).
  destruct (free_list_loop h1 (p + 4032 - n) (n - 1)) as (b & Eb & Hb & Ho); [lia|lia|lia|intros; apply Hat; lia|].
  rewrite Eb. cbn [mbind option_bind]. rewrite wrap_small by word_lia.
  rewrite put_byte_spec by (apply (Hat (p + 4032 - n + (n - 1))); lia). cbn [mbind option_bind].
  rewrite zero_memory_page by (done || lia || (apply (Hat p); lia)). cbn [mbind option_bind bytes set_bytes].
  change (u8 MAX_OBJECT_COUNT) with MAX_OBJECT_COUNT. eexists _, s. split; [reflexivity|].
  split; [split|].
  - exists s. cbn [slabs set_bytes set_slabs]. rewrite lookup_insert_eq. split; [done|]. cbn. rewrite all_objects_len by lia.
    repeat split; try done; try lia. f_equal. unfold all_objects. destruct (Z.to_nat n) eqn:En; [lia|done].
  - cbn [bytes set_bytes set_slabs]. apply (chain_seq _ _ (Z.to_nat n) 0); [done| |].
    + intros j Hj. rewrite (proj2 (Z.ltb_ge _ _)), andb_false_r by lia.
      rewrite fn_lookup_insert_ne by lia. apply Hb. lia.
    + intros _. rewrite (proj2 (Z.ltb_ge _ _)), andb_false_r by lia.
      replace (p + 4032 - n + (0 + Z.of_nat (Z.to_nat n) - 1)) with (p + 4032 - n + (n - 1)) by lia. apply fn_lookup_insert.
  - apply all_objects_nodup.
  - intros i. by rewrite elem_of_all_objects.
  - intros x Hx. cbv beta. destruct ((p <=? x) && _) eqn:E; [bool_prop; lia|].
    rewrite fn_lookup_insert_ne by lia. rewrite Ho by lia. done.
Qed.
End onslab.
End OnSlab.
