(* ===== verification/SlabCache.v ===== *)
(** * Properties of object caches

    The slabs of a cache are the pages of its region in use, sorted into full, partially full and empty ones.
    An allocation hands out an object that overlaps no live object and no administration, a release takes exactly
    one object back, and neither touches the contents of the other live objects or anything outside the region. *)

From Stdlib Require Import Permutation.
From stdpp Require Import functions.
From S2P Require Import Prelude Kre Memory Paging Slab SlabProps.
Import Pg Slab.

(** ** Object caches *)
Module Cache.
Import Ring Lists OnSlab.

(** A slab with its free objects. *)
Abbreviation slabl := (list (Z * list Z)).

Section cache.
Context {V : Type} `{PageAllocator V}.
Implicit Types (h : heap V) (c : ObjectCache) (F P E L : slabl).

(** The distance between two objects of a slab. *)
Definition stride c : Z := aligned_size (c_object_size c) (align c).

Definition first_page c : Z := Region.start (managed c).

(** What stays as [init] set it: the cache keeps its administration on its slabs, a slab is one page, and
    the pages in use are the first ones of the region. *)
Record cache_static c (n : Z) : Prop := {
  cs_type : type c = ON_SLAB;
  cs_vmm : c_vmm c <> 0;
  cs_pages : free_page_list c = 0;
  cs_size : 1 <= c_object_size c <= stride c;
  cs_objects : on_slab_objects (stride c) = Some n;
  cs_geometry : geometry (stride c) n;
  cs_start : first_page c mod 4096 = 0 /\ 4096 <= first_page c;
  cs_end : first_page c + Region.size (managed c) + 4096 < 2 ^ 64;
  cs_count : 0 <= slab_count c;
  cs_limit : limit c = first_page c + 4096 * slab_count c;
  cs_within : first_page c <= limit c <= first_page c + Region.size (managed c);
}.

Definition slab_at c (k : nat) : Z := first_page c + 4096 * Z.of_nat k + 4032.

Definition slab_addrs c : list Z := slab_at c <$> seq 0 (Z.to_nat (slab_count c)).

Record rings (m : gmap Z Slab) c F P E : Prop := {
  rg_full : ring m F.*1; rg_partial : ring m P.*1; rg_empty : ring m E.*1;
  rg_full_head : full_list c = hd 0 F.*1;
  rg_partial_head : partial_list c = hd 0 P.*1;
  rg_empty_head : empty_list c = hd 0 E.*1;
}.

(** The full slabs have no free object, the empty ones only free objects. *)
Record sorted (n : Z) F P E : Prop := {
  so_full : forall a fl, (a, fl) ∈ F -> fl = [];
  so_partial : forall a fl, (a, fl) ∈ P -> 0 < zlen fl < n;
  so_empty : forall a fl, (a, fl) ∈ E -> zlen fl = n;
}.

Record cache_ok h (this : Z) c (n : Z) F P E : Prop := {
  ck_static : cache_static c n;
  ck_cache : caches h !! this = Some c;
  ck_at : at_ h this = Some tt;
  ck_mapped : forall x, first_page c <= x < limit c -> at_ h x = Some tt;
  ck_addrs : (F ++ P ++ E).*1 ≡ₚ slab_addrs c;
  ck_slabs : forall a fl, (a, fl) ∈ F ++ P ++ E -> on_slab h (stride c) n a fl;
  ck_sorted : sorted n F P E;
  ck_rings : rings (slabs h) c F P E;
}.

(** The objects the cache has handed out. *)
Definition live c (n : Z) L (x : Z) : Prop :=
  exists a fl i, (a, fl) ∈ L /\ 0 <= i < n /\ i ∉ fl /\ x = a - 4032 + i * stride c.

Lemma elem_of_slab_addrs c n a : cache_static c n ->
  a ∈ slab_addrs c -> slab_addr a /\ first_page c <= a - 4032 /\ a + 64 <= limit c.
Proof.
  intros Hs (k & -> & Hk%elem_of_seq)%list_elem_of_fmap. unfold slab_at, slab_addr.
  destruct Hs as [_ _ _ _ _ _ [Hs1 Hs2] He Hc Hl Hw]. rewrite Hl in *.
  assert (Z.of_nat k < slab_count c) by lia. split; [|lia]. split; [|lia].
  Z.to_euclidean_division_equations. lia.
Qed.

Lemma slab_addrs_nodup c : NoDup (slab_addrs c).
Proof. unfold slab_addrs. apply NoDup_fmap_2; [|apply NoDup_seq]. intros i j. unfold slab_at. lia. Qed.

Lemma cache_slab h this c n F P E a fl : cache_ok h this c n F P E -> (a, fl) ∈ F ++ P ++ E ->
  slab_addr a /\ slab_mapped h a /\ on_slab h (stride c) n a fl.
Proof.
  intros Hk Hin. destruct (elem_of_slab_addrs c n a) as (Ha & H1 & H2); [apply Hk| |].
  { rewrite <- (ck_addrs _ _ _ _ _ _ _ Hk). apply list_elem_of_fmap. by exists (a, fl). }
  split; [done|]. split; [|by apply Hk]. intros x Hx. apply (ck_mapped _ _ _ _ _ _ _ Hk). lia.
Qed.

Lemma cache_nodup h this c n F P E : cache_ok h this c n F P E -> NoDup (F.*1 ++ P.*1 ++ E.*1).
Proof.
  intros Hk. rewrite <- !fmap_app, (ck_addrs _ _ _ _ _ _ _ Hk). apply slab_addrs_nodup.
Qed.

(** Slabs on different pages. *)
Lemma slab_apart a b : slab_addr a -> slab_addr b -> a <> b -> a + 4096 <= b \/ b + 4096 <= a.
Proof.
  intros (Ha & _) (Hb & _) Hne.
  pose proof (Z.div_mod a 4096 ltac:(lia)). pose proof (Z.div_mod b 4096 ltac:(lia)). lia.
Qed.

(** What an operation on the cache at [this] leaves alone: everything outside the pages of its region, the other
    caches, and mapped memory stays mapped. *)
Record local h h' (this lo hi : Z) : Prop := {
  lc_nodes : buf_nodes h' = buf_nodes h;
  lc_hash : hash_nodes h' = hash_nodes h;
  lc_mem : mem_nodes h' = mem_nodes h;
  lc_maps : hash_maps h' = hash_maps h;
  lc_caches : forall t, t <> this -> caches h' !! t = caches h !! t;
  lc_slabs : forall a, ~ lo <= a < hi -> slabs h' !! a = slabs h !! a;
  lc_bytes : forall x, ~ lo <= x < hi -> bytes h' x = bytes h x;
  lc_mapped : forall x, at_ h x = Some tt -> at_ h' x = Some tt;
}.

Lemma local_refl h this lo hi : local h h this lo hi.
Proof. by split. Qed.

Lemma local_trans h1 h2 h3 this lo hi : local h1 h2 this lo hi -> local h2 h3 this lo hi -> local h1 h3 this lo hi.
Proof.
  intros H1 H2. split.
  - rewrite (lc_nodes _ _ _ _ _ H2). apply H1.
  - rewrite (lc_hash _ _ _ _ _ H2). apply H1.
  - rewrite (lc_mem _ _ _ _ _ H2). apply H1.
  - rewrite (lc_maps _ _ _ _ _ H2). apply H1.
  - intros t Ht. rewrite (lc_caches _ _ _ _ _ H2) by done. by apply H1.
  - intros a Ha. rewrite (lc_slabs _ _ _ _ _ H2) by done. by apply H1.
  - intros x Hx. rewrite (lc_bytes _ _ _ _ _ H2) by done. by apply H1.
  - intros x Hx. apply (lc_mapped _ _ _ _ _ H2), H1, Hx.
Qed.

Lemma local_weaken h h' this lo hi lo' hi' : lo' <= lo -> hi <= hi' -> local h h' this lo hi -> local h h' this lo' hi'.
Proof. intros Hlo Hhi [? ? ? ? ? Hs Hb ?]. split; try done; intros x Hx; [apply Hs|apply Hb]; lia. Qed.

(** The other caches do not notice. *)
Lemma cache_ok_local h h' this lo hi t c n F P E : local h h' this lo hi -> t <> this ->
  (first_page c + Region.size (managed c) <= lo \/ hi <= first_page c) ->
  cache_ok h t c n F P E -> cache_ok h' t c n F P E.
Proof.
  intros Hl Ht Hd Hk. pose proof (cs_within _ _ (ck_static _ _ _ _ _ _ _ Hk)) as Hw.
  assert (forall a fl, (a, fl) ∈ F ++ P ++ E -> first_page c <= a - 4032 /\ a + 64 <= limit c) as Ha.
  { intros a fl Hin. apply (elem_of_slab_addrs c n a); [apply Hk|].
    rewrite <- (ck_addrs _ _ _ _ _ _ _ Hk). apply list_elem_of_fmap. by exists (a, fl). }
  assert (forall a, a ∈ F.*1 ++ P.*1 ++ E.*1 -> slabs h' !! a = slabs h !! a) as Hsl.
  { intros a Hin. rewrite <- !fmap_app in Hin. apply list_elem_of_fmap in Hin as ([b fl] & -> & Hin). specialize (Ha b fl Hin). cbn.
    apply (lc_slabs _ _ _ _ _ Hl). lia. }
  split.
  - apply Hk.
  - rewrite (lc_caches _ _ _ _ _ Hl) by done. apply Hk.
  - apply (lc_mapped _ _ _ _ _ Hl), Hk.
  - intros x Hx. apply (lc_mapped _ _ _ _ _ Hl), Hk, Hx.
  - apply Hk.
  - intros a fl Hin. pose proof (ck_slabs _ _ _ _ _ _ _ Hk a fl Hin) as Ho. specialize (Ha a fl Hin).
    destruct (os_slab _ _ _ _ _ Ho) as (s & Hs & _). apply (on_slab_frame h); [exists s, s|..|exact Ho].
    + rewrite Hsl, Hs; [done|]. rewrite <- !fmap_app. apply list_elem_of_fmap. by exists (a, fl).
    + intros x Hx. apply (lc_bytes _ _ _ _ _ Hl). destruct (cs_geometry _ _ (ck_static _ _ _ _ _ _ _ Hk)) as [? ? ?].
      unfold MAX_OBJECT_COUNT in *. nia.
  - apply Hk.
  - destruct (ck_rings _ _ _ _ _ _ _ Hk) as [R1 R2 R3 ? ? ?]. split; try done;
      eapply ring_frame; try eassumption; intros z Hz; apply Hsl; set_solver.
Qed.
(** *** One slab changes *)

(** The slab at [a] now has the free objects [fl']; the lists are as before. *)
Record mid h this c (n : Z) F P E (a : Z) (fl' : list Z) (rest : slabl) : Prop := {
  md_cache : caches h !! this = Some c;
  md_at : at_ h this = Some tt;
  md_mapped : forall x, first_page c <= x < limit c -> at_ h x = Some tt;
  md_slab : on_slab h (stride c) n a fl';
  md_rest : forall b gl, (b, gl) ∈ rest -> on_slab h (stride c) n b gl;
  md_rings : rings (slabs h) c F P E;
}.

Lemma mid_intro h h1 this c n F P E a fl fl' rest : cache_ok h this c n F P E ->
  F ++ P ++ E ≡ₚ (a, fl) :: rest -> caches h1 = caches h -> vmm h1 = vmm h ->
  on_slab h1 (stride c) n a fl' -> same_links (slabs h) (slabs h1) ->
  (forall b, b <> a -> slabs h1 !! b = slabs h !! b) -> (forall x, ~ a - n <= x < a -> bytes h1 x = bytes h x) ->
  mid h1 this c n F P E a fl' rest.
Proof.
  intros Hk Hp Hc Hv Ha Hl Hs Hb.
  assert (forall x, at_ h1 x = at_ h x) as Hat by (intros; unfold at_; by rewrite Hv).
  pose proof (cache_nodup _ _ _ _ _ _ _ Hk) as Hnd. rewrite <- !fmap_app, Hp in Hnd. apply NoDup_cons in Hnd as [Hnin _].
  assert (forall b gl, (b, gl) ∈ (a, fl) :: rest -> (b, gl) ∈ F ++ P ++ E) as Hin by (intros b gl; by rewrite Hp).
  split.
  - rewrite Hc. apply Hk.
  - rewrite Hat. apply Hk.
  - intros x Hx. rewrite Hat. by apply Hk.
  - done.
  - intros b gl Hbr. assert (b <> a) as Hne by (intros ->; apply Hnin, list_elem_of_fmap; by exists (a, gl)).
    destruct (cache_slab _ _ _ _ _ _ _ b gl Hk) as (Hba & _ & Ho); [apply Hin; by right|].
    destruct (cache_slab _ _ _ _ _ _ _ a fl Hk) as (Haa & _ & _); [apply Hin; by left|].
    destruct (os_slab _ _ _ _ _ Ho) as (s & Hsb & _). apply (on_slab_frame h); [exists s, s; rewrite Hs by done; done|..|done].
    intros x Hx. apply Hb. destruct (cs_geometry _ _ (ck_static _ _ _ _ _ _ _ Hk)) as [? [? ?] ?]. unfold MAX_OBJECT_COUNT in *.
    destruct (slab_apart a b Haa Hba ltac:(done)); lia.
  - destruct (ck_rings _ _ _ _ _ _ _ Hk). split; try done; by eapply ring_links.
Qed.

(** The slab was put into the right list. *)
Lemma mid_finish h h1 this c n F P E F' P' E' a fl fl' rest m full partial empty :
  cache_ok h this c n F P E -> F ++ P ++ E ≡ₚ (a, fl) :: rest -> F' ++ P' ++ E' ≡ₚ (a, fl') :: rest ->
  mid h1 this c n F P E a fl' rest -> relinked (slabs h1) m -> sorted n F' P' E' ->
  rings m (with_lists c full partial empty) F' P' E' ->
  cache_ok (set_caches (set_slabs h1 m) (<[this := with_lists c full partial empty]> (caches h1))) this
    (with_lists c full partial empty) n F' P' E'.
Proof.
  intros Hk Hp Hp' Hm Hr Hso Hrg. destruct (ck_static _ _ _ _ _ _ _ Hk). split; try done.
  - cbn. apply lookup_insert_eq.
  - apply Hm.
  - apply Hm.
  - rewrite Hp'. change (slab_addrs (with_lists c full partial empty)) with (slab_addrs c).
    rewrite <- (ck_addrs _ _ _ _ _ _ _ Hk), Hp. done.
  - intros b gl. rewrite Hp'. intros Hb. change (stride (with_lists c full partial empty)) with (stride c).
    assert (on_slab h1 (stride c) n b gl) as Ho.
    { apply elem_of_cons in Hb as [E0|Hb]; [injection E0 as -> ->; apply Hm|by apply Hm]. }
    destruct (on_slab_relinked h1 m _ _ _ _ Hr Ho) as [? ? ? ?]. by split.
Qed.

Lemma mid_nochange h h1 this c n F P E F' P' E' a fl fl' rest :
  cache_ok h this c n F P E -> F ++ P ++ E ≡ₚ (a, fl) :: rest -> F' ++ P' ++ E' ≡ₚ (a, fl') :: rest ->
  mid h1 this c n F P E a fl' rest -> sorted n F' P' E' -> rings (slabs h1) c F' P' E' ->
  cache_ok h1 this c n F' P' E'.
Proof.
  intros Hk Hp Hp' Hm Hso Hrg. split; try done; try apply Hm; try apply Hk.
  - rewrite Hp'. rewrite <- (ck_addrs _ _ _ _ _ _ _ Hk), Hp. done.
  - intros b gl. rewrite Hp'. intros [E0|Hb]%elem_of_cons; [injection E0 as -> ->; apply Hm|by apply Hm].
Qed.

Lemma get_cache_spec h this c : at_ h this = Some tt -> caches h !! this = Some c -> get_cache h this = Some c.
Proof. intros Ha Hc. unfold get_cache. by rewrite Ha, Hc. Qed.

Lemma put_cache_spec h this c : at_ h this = Some tt -> put_cache h this c = Some (set_caches h (<[this := c]> (caches h))).
Proof. intros Ha. unfold put_cache. by rewrite Ha. Qed.
(** *** Moving a slab between the lists *)

Lemma cache_addr_in h this c n F P E z : cache_ok h this c n F P E -> z ∈ F.*1 ++ P.*1 ++ E.*1 ->
  slab_addr z /\ first_page c <= z - 4032 /\ z + 64 <= limit c.
Proof.
  intros Hk Hz. apply (elem_of_slab_addrs c n); [apply Hk|].
  rewrite <- (ck_addrs _ _ _ _ _ _ _ Hk), !fmap_app. done.
Qed.

Lemma mid_at h h1 this c n F P E a fl' rest z : cache_ok h this c n F P E -> mid h1 this c n F P E a fl' rest ->
  z ∈ F.*1 ++ P.*1 ++ E.*1 -> at_ h1 z = Some tt.
Proof.
  intros Hk Hm Hz. destruct (cache_addr_in _ _ _ _ _ _ _ _ Hk Hz) as (_ & H1 & H2). apply Hm. lia.
Qed.

(** Only links and the list heads of the cache are written. *)
Definition relisted h1 h2 (this : Z) c c' : Prop :=
  exists m full partial empty, c' = with_lists c full partial empty
    /\ h2 = set_caches (set_slabs h1 m) (<[this := c']> (caches h1))
    /\ forall z, ~ first_page c <= z < limit c -> m !! z = slabs h1 !! z.

Lemma relisted_local h1 h2 this c c' lo hi : relisted h1 h2 this c c' -> lo <= first_page c -> limit c <= hi ->
  local h1 h2 this lo hi.
Proof.
  intros (m & full & partial & empty & -> & -> & Hm) Hlo Hhi. split; try done.
  - intros t Ht. cbn. by rewrite lookup_insert_ne.
  - intros z Hz. cbn. apply Hm. lia.
Qed.

(** The state after a slab was moved is consistent when the lists are. *)
Definition settled h1 (this : Z) c (n : Z) (l : slabl) h2 c' F' P' E' : Prop :=
  cache_ok h2 this c' n F' P' E' /\ F' ++ P' ++ E' ≡ₚ l /\ relisted h1 h2 this c c'.

Lemma settle h h1 this c n F P E a fl fl' rest m F' P' E' full partial empty :
  cache_ok h this c n F P E -> F ++ P ++ E ≡ₚ (a, fl) :: rest -> mid h1 this c n F P E a fl' rest ->
  relinked (slabs h1) m -> (forall z, z ∉ F.*1 ++ P.*1 ++ E.*1 -> m !! z = slabs h1 !! z) ->
  F' ++ P' ++ E' ≡ₚ (a, fl') :: rest -> sorted n F' P' E' -> rings m (with_lists c full partial empty) F' P' E' ->
  settled h1 this c n ((a, fl') :: rest)
    (set_caches (set_slabs h1 m) (<[this := with_lists c full partial empty]> (caches h1)))
    (with_lists c full partial empty) F' P' E'.
Proof.
  intros Hk Hp Hm Hr Ho Hp' Hso Hrg. split; [by eapply (mid_finish h h1)|]. split; [done|].
  exists m, full, partial, empty. split; [done|]. split; [done|]. intros z Hz. apply Ho. intros Hzi.
  destruct (cache_addr_in _ _ _ _ _ _ _ _ Hk Hzi) as (_ & ? & ?). lia.
Qed.

(** The slab at [a] leaves the list [A ++ (a, _) :: B] named by [g] and joins the list [X]; [Y] is the third one. *)
Lemma move_mid h h1 this c n F P E a fl fl' gl rest A B X Y g : cache_ok h this c n F P E ->
  F ++ P ++ E ≡ₚ (a, fl) :: rest -> mid h1 this c n F P E a fl' rest ->
  (A ++ (a, gl) :: B) ++ X ++ Y ≡ₚ F ++ P ++ E ->
  ring (slabs h1) (A ++ (a, gl) :: B).*1 -> ring (slabs h1) X.*1 -> ring (slabs h1) Y.*1 ->
  (A = [] -> g = a) -> (A <> [] -> g <> a) ->
  exists m1 m, remove h1 g a = Some (if decide (A = []) then hd 0 B.*1 else g, set_slabs h1 m1)
    /\ insert_last (set_slabs h1 m1) (hd 0 X.*1) a = Some (hd 0 (X ++ [(a, fl')]).*1, set_slabs h1 m)
    /\ ring m (A ++ B).*1 /\ ring m (X ++ [(a, fl')]).*1 /\ ring m Y.*1 /\ relinked (slabs h1) m
    /\ forall z, z ∉ F.*1 ++ P.*1 ++ E.*1 -> m !! z = slabs h1 !! z.
Proof.
  intros Hk Hp Hm Hperm R1 R2 R3 G1 G2. rewrite !fmap_app in R1. cbn in R1.
  assert (((A.*1 ++ a :: B.*1) ++ X.*1 ++ Y.*1) ≡ₚ F.*1 ++ P.*1 ++ E.*1) as Hperm'.
  { rewrite <- !fmap_app, <- Hperm, !fmap_app. done. }
  destruct (move_spec h1 g A.*1 a B.*1 X.*1 Y.*1) as (m1 & m & M1 & M2 & Q1 & Q2 & Q3 & Q4 & Q5); try done.
  - intros z Hz. eapply mid_at; [done|done|]. rewrite <- Hperm'. set_solver.
  - rewrite Hperm'. by eapply cache_nodup.
  - intros HA. apply G1. by destruct A.
  - intros HA. apply G2. by intros ->.
  - exists m1, m. rewrite M1, M2, !fmap_app. split; [|repeat (split; [done|])].
    + do 2 f_equal. destruct A as [|[]]; [by rewrite !decide_True|by rewrite !decide_False].
    + intros z Hz. apply Q5. rewrite <- Hperm' in Hz. set_solver.
Qed.

(** Every object of a slab that just lost its last free one is handed out. *)
Lemma none_free (n : Z) (fl : list Z) : n - zlen fl = n -> fl = [].
Proof. destruct fl; [done|]. rewrite zlen_cons. pose proof (zlen_nonneg fl). lia. Qed.

Lemma after_allocation h h1 this c n F P E a i fl rest : cache_ok h this c n F P E ->
  P ++ E = (a, i :: fl) :: rest -> mid h1 this c n F P E a fl (F ++ rest) ->
  exists h2 c' F' P' E', relist_allocated h1 this a = Some h2 /\ settled h1 this c n ((a, fl) :: F ++ rest) h2 c' F' P' E'.
Proof.
  intros Hk Hpe Hm. pose proof (cache_nodup _ _ _ _ _ _ _ Hk) as Hnd.
  assert (F ++ P ++ E ≡ₚ (a, i :: fl) :: F ++ rest) as Hp0 by (rewrite Hpe; solve_Permutation).
  assert (at_ h1 a = Some tt) as Haa by (eapply mid_at; [done|done|]; rewrite <- fmap_app, Hpe; set_solver).
  destruct (ck_sorted _ _ _ _ _ _ _ Hk) as [S1 S2 S3]. destruct (md_rings _ _ _ _ _ _ _ _ _ _ Hm) as [R1 R2 R3 H1 H2 H3].
  destruct (os_slab _ _ _ _ _ (md_slab _ _ _ _ _ _ _ _ _ _ Hm)) as (s & Hs & _ & En & Ec & _).
  unfold relist_allocated. rewrite (get_slab_spec _ _ _ Haa Hs). cbn [mbind option_bind].
  rewrite (get_cache_spec _ _ _ (md_at _ _ _ _ _ _ _ _ _ _ Hm) (md_cache _ _ _ _ _ _ _ _ _ _ Hm)). cbn [mbind option_bind].
  rewrite Ec, En. pose proof (zlen_nonneg fl). destruct P as [|[a' fl0] P0]; cbn in Hpe.
  - subst E. cbn in H3. pose proof (S3 a (i :: fl) ltac:(set_solver)) as Hlen. rewrite zlen_cons in Hlen.
    rewrite H3, Z.eqb_refl. destruct (n - zlen fl =? n) eqn:E1; bool_prop.
    + apply none_free in E1 as ->.
      destruct (move_mid h h1 this c n F [] ((a, [i]) :: rest) a [i] [] [i] (F ++ rest) [] rest F [] a)
        as (m1 & m & M1 & M2 & Q1 & Q2 & Q3 & Q4 & Q5); try done; [solve_Permutation|].
      rewrite M1. cbn [mbind option_bind]. rewrite H1, M2. cbn [mbind option_bind]. rewrite put_cache_spec by apply Hm.
      eexists _, _, (F ++ [(a, [])]), [], rest. split; [reflexivity|]. eapply (settle h h1); try done; [solve_Permutation|].
      split; [|set_solver|intros b gl Hb; apply (S3 b); set_solver].
      intros b gl [Hb|Hb%list_elem_of_singleton]%elem_of_app; [by apply (S1 b)|congruence].
    + destruct (move_mid h h1 this c n F [] ((a, i :: fl) :: rest) a (i :: fl) fl (i :: fl) (F ++ rest) [] rest [] F a)
        as (m1 & m & M1 & M2 & Q1 & Q2 & Q3 & Q4 & Q5); try done; [solve_Permutation|].
      rewrite M1. cbn [mbind option_bind]. rewrite H2, M2. cbn [mbind option_bind]. rewrite put_cache_spec by apply Hm.
      eexists _, _, F, [(a, fl)], rest. split; [reflexivity|]. eapply (settle h h1); try done; [solve_Permutation|].
      split; [done| |intros b gl Hb; apply (S3 b); set_solver]. intros b gl [= -> ->]%list_elem_of_singleton. lia.
  - injection Hpe as -> -> <-. cbn in H2. pose proof (S2 a (i :: fl) ltac:(set_solver)) as Hlen. rewrite zlen_cons in Hlen.
    assert (a =? empty_list c = false) as ->.
    { pose proof (at_nonzero _ _ Haa). apply Z.eqb_neq. intros ->. cbn in Hnd. rewrite H3 in *. destruct E as [|[b gl] E]; cbn in *; [done|].
      apply NoDup_app in Hnd as (_ & _ & [Hn _]%NoDup_cons). set_solver. }
    destruct (n - zlen fl =? n) eqn:E1; bool_prop.
    + apply none_free in E1 as ->.
      destruct (move_mid h h1 this c n F ((a, [i]) :: P0) E a [i] [] [i] (F ++ P0 ++ E) [] P0 F E a)
        as (m1 & m & M1 & M2 & Q1 & Q2 & Q3 & Q4 & Q5); try done; [solve_Permutation|].
      rewrite H2, M1. cbn [mbind option_bind]. rewrite H1, M2. cbn [mbind option_bind]. rewrite put_cache_spec by apply Hm.
      eexists _, _, (F ++ [(a, [])]), P0, E. split; [reflexivity|]. eapply (settle h h1); try done; [solve_Permutation|].
      split; [|intros b gl Hb; apply (S2 b); set_solver|done].
      intros b gl [Hb|Hb%list_elem_of_singleton]%elem_of_app; [by apply (S1 b)|congruence].
    + exists h1, c, F, ((a, fl) :: P0), E. split; [done|]. split; [|split; [solve_Permutation|]].
      * eapply (mid_nochange h h1); try done; [solve_Permutation|].
        split; [done| |done]. intros b gl [[= -> ->]|Hb]%elem_of_cons; [lia|apply (S2 b); set_solver].
      * exists (slabs h1), (full_list c), (partial_list c), (empty_list c). split; [by destruct c|]. split; [|done].
        rewrite insert_id by apply Hm. by destruct h1.
Qed.
Lemma hd_ne (a : Z) (A L : slabl) gl : A <> [] -> NoDup (A ++ (a, gl) :: L).*1 -> hd 0 (A ++ (a, gl) :: L).*1 <> a.
Proof.
  destruct A as [|[b g] A]; [done|]. intros _. cbn. intros [Hn _]%NoDup_cons ->. apply Hn.
  rewrite fmap_app. set_solver.
Qed.

Lemma hd_other (a : Z) (L L' : slabl) : a <> 0 -> a ∈ L.*1 -> NoDup (L.*1 ++ L'.*1) -> hd 0 L'.*1 <> a.
Proof.
  intros Ha Hin (_ & Hd & _)%NoDup_app. destruct L' as [|[b g] L']; [done|]. cbn. intros ->. apply (Hd a Hin). set_solver.
Qed.

(** A slab that had no free object gets one back. *)
Lemma after_free_full h h1 this c n P E a i A B : cache_ok h this c n (A ++ (a, []) :: B) P E ->
  0 <= i < n -> mid h1 this c n (A ++ (a, []) :: B) P E a [i] ((A ++ B) ++ P ++ E) ->
  exists h2 c' F' P' E', relist_freed h1 this a n = Some h2
    /\ settled h1 this c n ((a, [i]) :: (A ++ B) ++ P ++ E) h2 c' F' P' E'.
Proof.
  intros Hk Hi Hm. pose proof (cache_nodup _ _ _ _ _ _ _ Hk) as Hnd.
  assert ((A ++ (a, []) :: B) ++ P ++ E ≡ₚ (a, []) :: (A ++ B) ++ P ++ E) as Hp0 by solve_Permutation.
  assert (at_ h1 a = Some tt) as Haa by (eapply mid_at; [done|done|]; rewrite fmap_app; set_solver).
  pose proof (at_nonzero _ _ Haa) as Hnz.
  destruct (ck_sorted _ _ _ _ _ _ _ Hk) as [S1 S2 S3]. destruct (md_rings _ _ _ _ _ _ _ _ _ _ Hm) as [R1 R2 R3 H1 H2 H3].
  destruct (os_slab _ _ _ _ _ (md_slab _ _ _ _ _ _ _ _ _ _ Hm)) as (s & Hs & _ & En & Ec & _).
  unfold relist_freed. rewrite (get_slab_spec _ _ _ Haa Hs). cbn [mbind option_bind].
  rewrite (get_cache_spec _ _ _ (md_at _ _ _ _ _ _ _ _ _ _ Hm) (md_cache _ _ _ _ _ _ _ _ _ _ Hm)). cbn [mbind option_bind].
  rewrite Ec, En. change (zlen [i]) with 1. rewrite Z.eqb_refl.
  assert (NoDup (A ++ (a, []) :: B).*1) as HndF by (apply NoDup_app in Hnd as [Hnd _]; exact Hnd).
  destruct (n - 1 =? 0) eqn:E1; bool_prop.
  - destruct (move_mid h h1 this c n (A ++ (a, []) :: B) P E a [] [i] [] ((A ++ B) ++ P ++ E) A B E P
               (if decide (A = []) then full_list c else partial_list c))
      as (m1 & m & M1 & M2 & Q1 & Q2 & Q3 & Q4 & Q5); try done; [solve_Permutation| | |].
    { intros ->. by rewrite decide_True, H1. }
    { intros HA. rewrite decide_False, H2 by done. apply (hd_other a (A ++ (a, []) :: B) P); [done|rewrite fmap_app; set_solver|].
      rewrite app_assoc in Hnd. by apply NoDup_app in Hnd as [Hnd _]. }
    assert (sorted n (A ++ B) P (E ++ [(a, [i])])) as Hso.
    { split; [intros b gl Hb; apply (S1 b); set_solver|done|].
      intros b gl [Hb|[= -> ->]%list_elem_of_singleton]%elem_of_app; [by apply (S3 b)|change (zlen [i]) with 1; lia]. }
    destruct (decide (A = [])) as [->|HA].
    + rewrite H1 in *. cbn [app fmap list_fmap fst hd] in *. rewrite Z.eqb_refl, M1. cbn [mbind option_bind].
      rewrite H3, M2. cbn [mbind option_bind]. rewrite put_cache_spec by apply Hm.
      eexists _, _, B, P, (E ++ [(a, [i])]). split; [reflexivity|]. eapply (settle h h1); try done. solve_Permutation.
    + rewrite H1, (proj2 (Z.eqb_neq _ _)) by (symmetry; by apply hd_ne). rewrite M1. cbn [mbind option_bind].
      rewrite H3, M2. cbn [mbind option_bind]. rewrite put_cache_spec by apply Hm.
      eexists _, _, (A ++ B), P, (E ++ [(a, [i])]). split; [reflexivity|]. eapply (settle h h1); try done; [solve_Permutation|].
      split; try done. cbn. destruct A as [|[]]; done.
  - destruct (move_mid h h1 this c n (A ++ (a, []) :: B) P E a [] [i] [] ((A ++ B) ++ P ++ E) A B P E (full_list c))
      as (m1 & m & M1 & M2 & Q1 & Q2 & Q3 & Q4 & Q5); try done; [by intros ->; rewrite H1|..].
    { intros HA. rewrite H1. by apply hd_ne. }
    rewrite M1. cbn [mbind option_bind]. rewrite H2, M2. cbn [mbind option_bind]. rewrite put_cache_spec by apply Hm.
    eexists _, _, (A ++ B), (P ++ [(a, [i])]), E. split; [reflexivity|]. eapply (settle h h1); try done; [solve_Permutation| |].
    + split; [intros b gl Hb; apply (S1 b); set_solver| |done].
      intros b gl [Hb|[= -> ->]%list_elem_of_singleton]%elem_of_app; [by apply (S2 b)|change (zlen [i]) with 1; lia].
    + split; try done. cbn. rewrite H1. destruct A as [|[]]; cbn; [by rewrite decide_True|by rewrite decide_False].
Qed.

(** A slab that had free objects gets another one back. *)
Lemma after_free_partial h h1 this c n F E a i fl A B : cache_ok h this c n F (A ++ (a, fl) :: B) E ->
  mid h1 this c n F (A ++ (a, fl) :: B) E a (i :: fl) (F ++ (A ++ B) ++ E) ->
  exists h2 c' F' P' E', relist_freed h1 this a (n - zlen fl) = Some h2
    /\ settled h1 this c n ((a, i :: fl) :: F ++ (A ++ B) ++ E) h2 c' F' P' E'.
Proof.
  intros Hk Hm. pose proof (cache_nodup _ _ _ _ _ _ _ Hk) as Hnd.
  assert (F ++ (A ++ (a, fl) :: B) ++ E ≡ₚ (a, fl) :: F ++ (A ++ B) ++ E) as Hp0 by solve_Permutation.
  assert (at_ h1 a = Some tt) as Haa by (eapply mid_at; [done|done|]; rewrite fmap_app; set_solver).
  pose proof (at_nonzero _ _ Haa) as Hnz.
  destruct (ck_sorted _ _ _ _ _ _ _ Hk) as [S1 S2 S3]. destruct (md_rings _ _ _ _ _ _ _ _ _ _ Hm) as [R1 R2 R3 H1 H2 H3].
  destruct (os_slab _ _ _ _ _ (md_slab _ _ _ _ _ _ _ _ _ _ Hm)) as (s & Hs & _ & En & Ec & _).
  unfold relist_freed. rewrite (get_slab_spec _ _ _ Haa Hs). cbn [mbind option_bind].
  rewrite (get_cache_spec _ _ _ (md_at _ _ _ _ _ _ _ _ _ _ Hm) (md_cache _ _ _ _ _ _ _ _ _ _ Hm)). cbn [mbind option_bind].
  rewrite Ec, En, zlen_cons. pose proof (S2 a fl ltac:(set_solver)) as Hlen.
  assert (NoDup (A ++ (a, fl) :: B).*1) as HndP.
  { apply NoDup_app in Hnd as (_ & _ & Hnd). by apply NoDup_app in Hnd as [Hnd _]. }
  destruct (n - (1 + zlen fl) =? 0) eqn:E1; bool_prop.
  - destruct (move_mid h h1 this c n F (A ++ (a, fl) :: B) E a fl (i :: fl) fl (F ++ (A ++ B) ++ E) A B E F (partial_list c))
      as (m1 & m & M1 & M2 & Q1 & Q2 & Q3 & Q4 & Q5); try done; [solve_Permutation|by intros ->; rewrite H2|..].
    { intros HA. rewrite H2. by apply hd_ne. }
    rewrite (proj2 (Z.eqb_neq a (full_list c))).
    2: { rewrite H1. apply not_eq_sym, (hd_other a (A ++ (a, fl) :: B) F); [done|rewrite fmap_app; set_solver|].
         rewrite app_assoc in Hnd. apply NoDup_app in Hnd as [Hnd _]. by rewrite (Permutation_app_comm F.*1) in Hnd. }
    rewrite M1. cbn [mbind option_bind]. rewrite H3, M2. cbn [mbind option_bind]. rewrite put_cache_spec by apply Hm.
    eexists _, _, F, (A ++ B), (E ++ [(a, i :: fl)]). split; [reflexivity|]. eapply (settle h h1); try done; [solve_Permutation| |].
    + split; [done|intros b gl Hb; apply (S2 b); set_solver|].
      intros b gl [Hb|[= -> ->]%list_elem_of_singleton]%elem_of_app; [by apply (S3 b)|rewrite zlen_cons; lia].
    + split; try done. cbn. rewrite H2. destruct A as [|[]]; cbn; [by rewrite decide_True|by rewrite decide_False].
  - rewrite (proj2 (Z.eqb_neq (n - zlen fl) n)) by lia. exists h1, c, F, (A ++ (a, i :: fl) :: B), E.
    split; [done|]. split; [|split; [solve_Permutation|]].
    + eapply (mid_nochange h h1); try done; [solve_Permutation| |].
      * split; [done| |done]. intros b gl Hb. apply elem_of_app in Hb as [Hb|[[= -> ->]|Hb]%elem_of_cons];
          [apply (S2 b); set_solver|rewrite zlen_cons; lia|apply (S2 b); set_solver].
      * split; try done; rewrite fmap_app in *; done.
    + exists (slabs h1), (full_list c), (partial_list c), (empty_list c). split; [by destruct c|]. split; [|done].
      rewrite insert_id by apply Hm. by destruct h1.
Qed.
End cache.

(** ** Growing *)
Section grow.
Context {V : Type} `{PageLaws V heap_page flags_ok}.
Implicit Types (h : heap V) (c : ObjectCache) (F P E L : slabl).

(** The cache may use the pages of its region, with its flags. *)
Definition may_map c : Prop :=
  flags_ok (page_flags c) /\
  forall p, p mod 4096 = 0 -> first_page c <= p < first_page c + Region.size (managed c) -> heap_page p.

Lemma static_end c n : cache_static c n -> 
  Region.end_ (managed c) = first_page c + Region.size (managed c).
Proof.
  intros [_ _ _ _ _ _ [Hs1 Hs2] He _ _ Hw]. unfold first_page in *. rewrite Region.end_min; [unfold MAX64; lia|].
  split; unfold in_width; lia.
Qed.

Lemma static_stride c n : cache_static c n -> 1 <= stride c <= 4031.
Proof. intros Hs. destruct (cs_geometry _ _ Hs) as [? [? ?] ?]. nia. Qed.

Lemma slab_bytes_page sz : 1 <= sz <= 4031 -> slab_bytes sz = 4096.
Proof.
  intros Hsz. unfold slab_bytes. change get_page_size with 4096. rewrite Z.mod_small, (proj2 (Z.eqb_neq _ _)) by lia.
  by rewrite Z.div_small by lia.
Qed.

Lemma limit_aligned c n : cache_static c n -> limit c mod 4096 = 0.
Proof.
  intros [_ _ _ _ _ _ [Hs1 _] _ _ Hl _]. rewrite Hl, Z.add_comm, Z.mul_comm. by rewrite Z_mod_plus_full || (Z.to_euclidean_division_equations; lia).
Qed.

Lemma cache_ok_vmm h v this c n F P E : (forall x, vp_mapped (vmm h) x = true -> vp_mapped v x = true) ->
  cache_ok h this c n F P E -> cache_ok (set_vmm h v) this c n F P E.
Proof.
  intros Hv [? ? Ha Hm ? Hs ? ?].
  assert (forall x, at_ h x = Some tt -> at_ (set_vmm h v) x = Some tt) as Hat.
  { intros x. unfold at_. cbn. destruct (negb (x =? 0)); [|done]. cbn. destruct (vp_mapped (vmm h) x) eqn:E1; [|done]. by rewrite Hv. }
  split; try done; [by apply Hat|intros; by apply Hat, Hm|].
  intros a fl Hin. destruct (Hs a fl Hin). by split.
Qed.

Lemma local_vmm h v this lo hi : (forall x, vp_mapped (vmm h) x = true -> vp_mapped v x = true) ->
  local h (set_vmm h v) this lo hi.
Proof.
  intros Hv. split; try done. intros x. unfold at_. cbn. destruct (negb (x =? 0)); [|done]. cbn.
  destruct (vp_mapped (vmm h) x) eqn:E1; [|done]. by rewrite Hv.
Qed.

(** A new page becomes a slab of the cache. *)
Definition grown c (full partial empty : Z) : ObjectCache :=
  with_count (with_lists (with_pages c (limit c + 4096) (free_page_list c)) full partial empty) (slab_count c + 1).

Lemma grown_static c n full partial empty : cache_static c n ->
  limit c + 4096 <= first_page c + Region.size (managed c) -> cache_static (grown c full partial empty) n.
Proof. intros [? ? ? ? ? ? ? ? ? ? ?] Hl. split; try done; cbn; [lia| |]; change (first_page (grown c full partial empty)) with (first_page c); lia. Qed.

Lemma grown_addrs c full partial empty : 0 <= slab_count c ->
  slab_addrs (grown c full partial empty) = slab_addrs c ++ [slab_at c (Z.to_nat (slab_count c))].
Proof.
  intros Hc. unfold slab_addrs. cbn. replace (Z.to_nat (slab_count c + 1)) with (S (Z.to_nat (slab_count c))) by lia.
  rewrite seq_S, fmap_app. done.
Qed.

Lemma map_one h f p ok v : 0 <= p -> p + 4096 < 2 ^ 64 -> vp_allocate (vmm h) p f = Some (ok, v) ->
  map_loop (page_fuel p (p + 4096)) h f p (p + 4096) = Some (if ok then None else Some p, set_vmm h v).
Proof.
  intros Hp1 Hp2 Hv. unfold page_fuel. change get_page_size with 4096.
  replace ((p + 4096 - p) / 4096) with 1 by (Z.to_euclidean_division_equations; lia). change (S (Z.to_nat 1)) with 2%nat.
  cbn [map_loop]. rewrite (proj2 (Z.ltb_lt _ _)) by lia. rewrite Hv. cbn [mbind option_bind].
  destruct ok; [|done]. change get_page_size with 4096. rewrite wrap_small by word_lia.
  by rewrite (proj2 (Z.ltb_ge _ _)) by lia.
Qed.

Lemma unmap_none h p : unmap_loop (page_fuel p p) h p p = Some h.
Proof. unfold page_fuel. cbn [unmap_loop]. by rewrite Z.ltb_irrefl. Qed.

(** The state with the new slab before it is put into the list of empty slabs. *)
Lemma new_slab_ok h h1 this c n F P E b s lim : cache_ok h this c n F P E -> slab_addr (limit c + 4032) ->
  slabs h1 = <[limit c + 4032 := s]> (slabs h) -> bytes h1 = b ->
  (forall x, ~ limit c <= x < limit c + 4096 -> b x = bytes h x) ->
  rings (slabs h1) (with_pages c lim 0) F P E
  /\ forall a fl, (a, fl) ∈ F ++ P ++ E -> on_slab h1 (stride c) n a fl.
Proof.
  intros Hk Hla Hs1 <- Hb.
  assert (forall z, z ∈ F.*1 ++ P.*1 ++ E.*1 -> slab_addr z /\ z + 64 <= limit c) as Hold.
  { intros z Hz. destruct (cache_addr_in _ _ _ _ _ _ _ _ Hk Hz) as (? & _ & ?). done. }
  split.
  - destruct (ck_rings _ _ _ _ _ _ _ Hk). split; try done; rewrite Hs1;
      (eapply ring_frame; [|eassumption]); intros z Hz; rewrite lookup_insert_ne; try done; intros <-;
      (destruct (Hold (limit c + 4032)); [set_solver|lia]).
  - intros a fl Hin. destruct (cache_slab _ _ _ _ _ _ _ _ _ Hk Hin) as (Ha & _ & Ho).
    destruct (Hold a) as [_ Hal]. { rewrite <- !fmap_app. apply list_elem_of_fmap. by exists (a, fl). }
    destruct (os_slab _ _ _ _ _ Ho) as (s0 & Hs0 & _). apply (on_slab_frame h); [exists s0, s0|..|done].
    + rewrite Hs1, lookup_insert_ne by lia. done.
    + intros x Hx. apply Hb. lia.
Qed.

(** The new slab at the end of the pages in use joins the empty ones. *)
Lemma link_new_slab h h3 this c n F P E : cache_ok h this c n F P E ->
  limit c + 4096 <= first_page c + Region.size (managed c) -> at_ h3 this = Some tt ->
  (forall x, first_page c <= x < limit c + 4096 -> at_ h3 x = Some tt) -> rings (slabs h3) c F P E ->
  (forall a fl, (a, fl) ∈ F ++ P ++ E -> on_slab h3 (stride c) n a fl) ->
  on_slab h3 (stride c) n (limit c + 4032) (all_objects n) -> is_Some (slabs h3 !! (limit c + 4032)) ->
  let E' := E ++ [(limit c + 4032, all_objects n)] in
  let c' := grown c (full_list c) (partial_list c) (hd 0 E'.*1) in
  exists m, insert_last h3 (hd 0 E.*1) (limit c + 4032) = Some (hd 0 E'.*1, set_slabs h3 m)
    /\ cache_ok (set_caches (set_slabs h3 m) (<[this := c']> (caches h3))) this c' n F P E'
    /\ forall z, ~ first_page c <= z < limit c + 4096 -> m !! z = slabs h3 !! z.
Proof.
  intros Hk Hfit Hth Hat Hrg Hsl Hon Hs E' c'. pose proof (ck_static _ _ _ _ _ _ _ Hk) as Hst.
  assert (forall z, z ∈ F.*1 ++ P.*1 ++ E.*1 -> first_page c <= z - 4032 /\ z + 64 <= limit c) as Hin.
  { intros z Hz. destruct (cache_addr_in _ _ _ _ _ _ _ _ Hk Hz) as (_ & ? & ?). done. }
  pose proof (cache_nodup _ _ _ _ _ _ _ Hk) as Hnd. apply NoDup_app in Hnd as (HnF & HdF & (HnP & HdP & HnE)%NoDup_app).
  pose proof (cs_within _ _ Hst) as Hw. pose proof (cs_count _ _ Hst) as Hcnt.
  destruct (insert_last_spec h3 E.*1 (limit c + 4032)) as (m & Hi & Hrm & Hlm & Hfm).
  { intros z [->|Hz]%elem_of_cons; apply Hat; [lia|]. specialize (Hin z ltac:(set_solver)). lia. }
  { apply NoDup_cons. split; [|done]. intros Hz. specialize (Hin (limit c + 4032) ltac:(set_solver)). lia. }
  { apply Hrg. } { done. }
  exists m. unfold E' at 1. rewrite fmap_app. split; [exact Hi|]. split; [split|].
  - by apply grown_static.
  - apply lookup_insert_eq.
  - exact Hth.
  - intros x Hx. apply Hat. exact Hx.
  - unfold c'. rewrite grown_addrs by done. unfold E'. rewrite !app_assoc, fmap_app, <- app_assoc, (ck_addrs _ _ _ _ _ _ _ Hk).
    cbn. unfold slab_at. rewrite Z2Nat.id, (cs_limit _ _ Hst) by done. done.
  - intros a fl Hin'. change (stride c') with (stride c). unfold E' in Hin'. rewrite !app_assoc in Hin'.
    assert (on_slab h3 (stride c) n a fl) as Ho.
    { apply elem_of_app in Hin' as [Hin'|[= -> ->]%list_elem_of_singleton]; [|exact Hon]. apply Hsl. by rewrite <- app_assoc in Hin'. }
    destruct (on_slab_relinked h3 m _ _ _ _ Hlm Ho). by split.
  - destruct (ck_sorted _ _ _ _ _ _ _ Hk) as [S1 S2 S3]. split; [done|done|].
    intros a fl [Hin'|[= -> ->]%list_elem_of_singleton]%elem_of_app; [by apply (S3 a)|].
    apply all_objects_len. destruct (cs_geometry _ _ Hst). lia.
  - assert (forall z, z ∈ F.*1 ++ P.*1 -> m !! z = slabs h3 !! z) as Hsame.
    { intros z Hz. apply Hfm. intros [->|Hz']%elem_of_cons; [specialize (Hin (limit c + 4032) ltac:(set_solver)); lia|].
      apply elem_of_app in Hz as [Hz|Hz]; [apply (HdF z Hz); set_solver|by apply (HdP z Hz)]. }
    destruct Hrg as [R1 R2 R3 Q1 Q2 Q3]. split; try done; [..|unfold E'; by rewrite fmap_app];
      (eapply ring_frame; [|eassumption]); intros z Hz; apply Hsame; set_solver.
  - intros z Hz. apply Hfm. intros [->|Hz']%elem_of_cons; [|specialize (Hin z ltac:(set_solver))]; lia.
Qed.

Lemma grow_spec A h this c n F P E O : cache_ok h this c n F P E -> vp_ok (vmm h) O -> may_map c ->
  let E' := E ++ [(limit c + 4032, all_objects n)] in
  let c' := grown c (full_list c) (partial_list c) (hd 0 E'.*1) in
  exists ok h', grow A h this = Some (ok, h') /\
  if ok : bool then
    limit c + 4096 < first_page c + Region.size (managed c) /\ limit c ∉ O
    /\ cache_ok h' this c' n F P E' /\ vp_ok (vmm h') ({[limit c]} ∪ O)
    /\ local h h' this (first_page c) (limit c + 4096)
    /\ forall x, ~ limit c <= x < limit c + 4096 -> bytes h' x = bytes h x
  else
    (first_page c + Region.size (managed c) <= limit c + 4096
     \/ exists v, vp_allocate (vmm h) (limit c) (page_flags c) = Some (false, v))
    /\ cache_ok h' this c n F P E /\ vp_ok (vmm h') O /\ local h h' this (first_page c) (limit c) /\ bytes h' = bytes h.
Proof.
  intros Hk Hv [Hf Hpg] E' c'. pose proof (ck_static _ _ _ _ _ _ _ Hk) as Hst. pose proof (static_stride _ _ Hst) as Hsd.
  pose proof (limit_aligned _ _ Hst) as Hla. pose proof (static_end _ _ Hst) as Hend.
  pose proof (cs_within _ _ Hst) as Hw. pose proof (cs_end _ _ Hst) as He. destruct (cs_start _ _ Hst) as [Hs1 Hs2].
  unfold grow. rewrite (get_cache_spec _ _ _ (ck_at _ _ _ _ _ _ _ Hk) (ck_cache _ _ _ _ _ _ _ Hk)). cbn [mbind option_bind].
  rewrite (cs_pages _ _ Hst), Z.eqb_refl. cbn [negb mbind option_bind]. change (aligned_size _ _) with (stride c).
  rewrite slab_bytes_page, Hend, (wrap_small 64 (limit c + 4096)) by (done || word_lia). destruct (_ <=? limit c + 4096) eqn:Efull; bool_prop.
  { eexists false, h. split; [done|]. split; [by left|]. split; [done|]. split; [done|]. split; [apply local_refl|done]. }
  rewrite (proj2 (Z.eqb_neq _ _)) by apply Hst.
  destruct (vp_allocate_law (vmm h) O (limit c) (page_flags c) Hv) as (ok & v & Hal & Hok & Hmono); [apply Hpg; [done|lia]|done|].
  rewrite (map_one h (page_flags c) (limit c) ok v ltac:(lia) ltac:(lia) Hal). cbn [mbind option_bind]. destruct ok.
  2: { rewrite unmap_none. cbn [mbind option_bind]. eexists false, _. split; [done|]. split; [right; by exists v|].
       split; [by apply cache_ok_vmm|]. split; [done|]. split; [by apply local_vmm|done]. }
  destruct Hok as [HnO Hok]. pose proof (cache_ok_vmm h v _ _ _ _ _ _ Hmono Hk) as Hk1. set (h1 := set_vmm h v) in *.
  rewrite Z.ltb_irrefl, put_cache_spec by apply Hk1. cbn [mbind option_bind].
  rewrite decide_True by apply Hst. set (h2 := set_caches h1 _).
  assert (forall x, limit c <= x < limit c + 4096 -> at_ h2 x = Some tt) as Hnew.
  { intros x Hx. unfold at_. rewrite (proj2 (Z.eqb_neq _ _)) by lia. cbn [negb andb].
    change (vmm h2) with v. by rewrite (vp_owned_law v ({[limit c]} ∪ O) (limit c) x Hok) by (set_solver || done). }
  assert (slab_addr (limit c + 4032)) as Haddr.
  { split; [|lia]. Z.to_euclidean_division_equations. lia. }
  destruct (create_on_slab_spec h2 (stride c) n (limit c)) as (b & s & Hcr & Hon & Hb); [apply Hst|apply Hst|done|done| |].
  { intros x Hx. apply Hnew. lia. }
  rewrite Hcr. cbn [mbind option_bind]. set (h3 := set_bytes (set_slabs h2 _) b) in *.
  assert (at_ h3 this = Some tt) as Hth by apply Hk1.
  rewrite (get_cache_spec _ _ (with_pages c (limit c + 4096) 0) Hth).
  2: { apply lookup_insert_eq. }
  cbn [mbind option_bind].
  destruct (new_slab_ok h1 h3 this c n F P E b s (limit c + 4096) Hk1 Haddr) as [Hrg Hsl]; [done|done|exact Hb|].
  rewrite (rg_empty_head _ _ _ _ _ Hrg).
  destruct (link_new_slab h h3 this c n F P E Hk) as (m & Hi & Hk2 & Hm); [lia|exact Hth|..].
  { intros x Hx. destruct (decide (x < limit c)); [apply Hk1; lia|]. apply (Hnew x). lia. }
  { destruct Hrg. by split. } { exact Hsl. } { exact Hon. } { exists s. apply lookup_insert_eq. }
  rewrite Hi. cbn [mbind option_bind]. rewrite put_cache_spec by exact Hth. cbn [mbind option_bind].
  pose proof (cs_count _ _ Hst). pose proof (cs_limit _ _ Hst).
  assert (with_count (with_lists (with_pages c (limit c + 4096) 0) (full_list c) (partial_list c) (hd 0 E'.*1))
            (u64 (slab_count c + 1)) = c') as Hc'.
  { unfold c', grown. rewrite (cs_pages _ _ Hst), wrap_small by word_lia. done. }
  cbn [full_list partial_list slab_count with_pages]. fold E'. rewrite Hc'.
  eexists true, _. split; [reflexivity|]. split; [done|]. split; [done|]. split; [|split; [done|split]].
  - destruct Hk2 as [? _ ? ? ? Hs2' ? ?]. split; try done.
    cbn. rewrite insert_insert_eq. apply lookup_insert_eq.
  - split; try done; cbn.
    + intros t Ht. by rewrite !lookup_insert_ne.
    + intros z Hz. rewrite Hm by done. cbn. by rewrite lookup_insert_ne by lia.
    + intros x Hx. apply Hb. lia.
    + exact (lc_mapped _ _ _ _ _ (local_vmm h v this 0 0 Hmono)).
  - exact Hb.
Qed.
End grow.
End Cache.
