(* ===== verification/SlabHeap.v ===== *)
(** * Allocation and release in object caches, and the size classes of the slab allocator

    The operations of a cache whose slabs keep their own administration, on the invariant of SlabCache.v, and
    the choice of the cache by size and by address in the slab allocator. *)

From Stdlib Require Import Permutation.
From stdpp Require Import functions.
From S2P Require Import Prelude Kre Memory Paging Slab SlabProps SlabCache.
Import Pg Slab.

Module CacheOps.
Import Ring Lists OnSlab Cache.

Section live.
Context {V : Type} `{PageAllocator V}.
Implicit Types (h : heap V) (c : ObjectCache) (F P E L : slabl).

(** *** Objects *)

Lemma live_perm c n L L' x : L ≡ₚ L' -> live c n L x <-> live c n L' x.
Proof. intros Hp. unfold live. by setoid_rewrite Hp. Qed.

Lemma live_cons c n a fl L x :
  live c n ((a, fl) :: L) x <-> (exists i, 0 <= i < n /\ i ∉ fl /\ x = a - 4032 + i * stride c) \/ live c n L x.
Proof.
  unfold live. setoid_rewrite elem_of_cons. split.
  - intros (b & gl & i & [[= -> ->]|Hb] & Hi); [left; eauto|right; eauto 10].
  - intros [(i & Hi)|(b & gl & i & Hb & Hi)]; eauto 10.
Qed.

(** The slab an object lies on, and that it lies below the free list. *)
Lemma object_in_slab c n a i : cache_static c n -> slab_addr a -> 0 <= i < n ->
  a - 4032 <= a - 4032 + i * stride c /\ a - 4032 + i * stride c + stride c <= a - n.
Proof. intros Hs Ha Hi. destruct (cs_geometry _ _ Hs) as [? [? ?] ?]. nia. Qed.

(** Two objects of a cache are the same or do not overlap. *)
Lemma objects_apart c n a b i j : cache_static c n -> slab_addr a -> slab_addr b -> 0 <= i < n -> 0 <= j < n ->
  let x := a - 4032 + i * stride c in let y := b - 4032 + j * stride c in
  (a = b /\ i = j) \/ x + stride c <= y \/ y + stride c <= x.
Proof.
  intros Hs Ha Hb Hi Hj x y. pose proof (object_in_slab c n a i Hs Ha Hi). pose proof (object_in_slab c n b j Hs Hb Hj).
  destruct (cs_geometry _ _ Hs) as [? [? ?] ?]. destruct (decide (a = b)) as [->|Hne].
  - destruct (Z.lt_trichotomy i j) as [|[|]]; [right; left; subst x y; nia|left; auto|right; right; subst x y; nia].
  - right. destruct (slab_apart a b Ha Hb Hne); subst x y; unfold MAX_OBJECT_COUNT in *; lia.
Qed.

(** A live object belongs to one slab at one place. *)
Lemma live_in h this c n F P E x : cache_ok h this c n F P E -> live c n (F ++ P ++ E) x ->
  exists a fl i, (a, fl) ∈ F ++ P ++ E /\ slab_addr a /\ first_page c <= a - 4032 /\ a + 64 <= limit c
    /\ 0 <= i < n /\ i ∉ fl /\ x = a - 4032 + i * stride c.
Proof.
  intros Hk (a & fl & i & Hin & Hi). exists a, fl, i. destruct (elem_of_slab_addrs c n a) as (? & ? & ?); [apply Hk| |done].
  rewrite <- (ck_addrs _ _ _ _ _ _ _ Hk). apply list_elem_of_fmap. by exists (a, fl).
Qed.

Lemma live_apart h this c n F P E x y : cache_ok h this c n F P E ->
  live c n (F ++ P ++ E) x -> live c n (F ++ P ++ E) y -> x = y \/ x + stride c <= y \/ y + stride c <= x.
Proof.
  intros Hk Hx Hy. destruct (live_in _ _ _ _ _ _ _ _ Hk Hx) as (a & fl & i & _ & Ha & _ & _ & Hi & _ & ->).
  destruct (live_in _ _ _ _ _ _ _ _ Hk Hy) as (b & gl & j & _ & Hb & _ & _ & Hj & _ & ->).
  destruct (objects_apart c n a b i j (ck_static _ _ _ _ _ _ _ Hk) Ha Hb Hi Hj) as [[-> ->]|]; auto.
Qed.

Definition same_config c c' : Prop :=
  first_page c' = first_page c /\ Region.size (managed c') = Region.size (managed c) /\ stride c' = stride c
  /\ page_flags c' = page_flags c /\ align c' = align c /\ c_object_size c' = c_object_size c /\ limit c <= limit c'.

(** *** Allocation from a slab with a free object *)

Lemma allocate_from_spec h this c n F P E a i fl rest : cache_ok h this c n F P E -> P ++ E = (a, i :: fl) :: rest ->
  exists h' c' F' P' E', allocate_from h this (pick c) = Some (a - 4032 + i * stride c, h')
    /\ cache_ok h' this c' n F' P' E' /\ F' ++ P' ++ E' ≡ₚ (a, fl) :: F ++ rest /\ same_config c c'
    /\ local h h' this (first_page c) (limit c) /\ bytes h' = bytes h /\ vmm h' = vmm h.
Proof.
  intros Hk Hpe. assert (F ++ P ++ E ≡ₚ (a, i :: fl) :: F ++ rest) as Hp0 by (rewrite Hpe; solve_Permutation).
  destruct (cache_slab _ _ _ _ _ _ _ a (i :: fl) Hk) as (Ha & Hmap & Ho); [rewrite Hp0; set_solver|].
  pose proof (ck_static _ _ _ _ _ _ _ Hk) as Hst.
  assert (pick c = a) as ->.
  { destruct (ck_rings _ _ _ _ _ _ _ Hk) as [_ _ _ _ Hp He]. unfold pick. rewrite Hp, He. destruct Ha as (_ & ? & _).
    destruct P as [|[b gl] P]; cbn in *; [by rewrite Hpe|]. injection Hpe as -> -> _. by rewrite (proj2 (Z.eqb_neq _ _)) by lia. }
  unfold allocate_from. rewrite (get_cache_spec _ _ _ (ck_at _ _ _ _ _ _ _ Hk) (ck_cache _ _ _ _ _ _ _ Hk)). cbn [mbind option_bind].
  rewrite decide_True by apply Hst.
  destruct (alloc_on_slab_spec h (stride c) n a i fl (cs_geometry _ _ Hst) Ha Hmap Ho) as (m & Hal & Ho' & Hl & Hm).
  rewrite Hal. cbn [mbind option_bind].
  assert (mid (set_slabs h m) this c n F P E a fl (F ++ rest)) as Hmid by (by eapply mid_intro).
  destruct (after_allocation h (set_slabs h m) this c n F P E a i fl rest Hk Hpe Hmid) as (h2 & c' & F' & P' & E' & Hr & Hok & Hperm & Hrel).
  rewrite Hr. cbn [mbind option_bind]. exists h2, c', F', P', E'. split; [done|]. split; [done|]. split; [done|].
  assert (first_page c <= a - 4032 /\ a + 64 <= limit c) as [Hlo Hhi].
  { apply (elem_of_slab_addrs c n a); [done|]. rewrite <- (ck_addrs _ _ _ _ _ _ _ Hk), Hp0. set_solver. }
  assert (local h (set_slabs h m) this (first_page c) (limit c)) as Hl1.
  { split; try done. intros z Hz. apply Hm. destruct Ha as (? & ? & ?). lia. }
  split; [|split; [|split]].
  - destruct Hrel as (? & ? & ? & ? & -> & _). repeat split. cbn. lia.
  - eapply local_trans; [exact Hl1|]. by eapply relisted_local.
  - destruct Hrel as (? & ? & ? & ? & _ & -> & _). done.
  - destruct Hrel as (? & ? & ? & ? & _ & -> & _). done.
Qed.

(** The objects after one was taken from the free list. *)
Lemma live_taken c c' n a i fl F rest L x : same_config c c' -> NoDup (i :: fl) -> 0 <= i < n ->
  L ≡ₚ (a, fl) :: F ++ rest ->
  live c' n L x <-> live c n ((a, i :: fl) :: F ++ rest) x \/ x = a - 4032 + i * stride c.
Proof.
  intros (_ & _ & Es & _) [Hni _]%NoDup_cons Hi Hp. rewrite (live_perm _ _ _ _ _ Hp), !live_cons.
  assert (live c' n (F ++ rest) x <-> live c n (F ++ rest) x) as -> by (unfold live; by rewrite Es).
  rewrite Es. split.
  - intros [(j & Hj & Hnj & ->)|]; [|auto]. destruct (decide (j = i)) as [->|]; [auto|]. left; left. exists j. set_solver.
  - intros [[(j & Hj & Hnj & ->)|]| ->]; [left; exists j; set_solver|auto|left; exists i; auto].
Qed.
(** A slab that is not full has a free object. *)
Lemma first_free h this c n F P E : cache_ok h this c n F P E -> P ++ E <> [] ->
  exists a i fl rest, P ++ E = (a, i :: fl) :: rest /\ NoDup (i :: fl) /\ 0 <= i < n /\ slab_addr a
    /\ first_page c <= a - 4032 /\ a + 64 <= limit c /\ needs_slab h (pick c) = Some false.
Proof.
  intros Hk Hne. destruct (P ++ E) as [|[a fl] rest] eqn:Epe; [done|]. clear Hne.
  assert ((a, fl) ∈ F ++ P ++ E) as Hin by (rewrite Epe; set_solver).
  destruct (cache_slab _ _ _ _ _ _ _ a fl Hk Hin) as (Ha & Hmap & Ho). pose proof (ck_static _ _ _ _ _ _ _ Hk) as Hst.
  destruct (ck_sorted _ _ _ _ _ _ _ Hk) as [_ S2 S3]. destruct (cs_geometry _ _ Hst) as [? [? ?] ?].
  assert (0 < zlen fl <= n) as Hlen.
  { destruct P as [|[b gl] P]; cbn in Epe; [subst E; specialize (S3 a fl ltac:(set_solver)); lia|].
    injection Epe as -> -> _. specialize (S2 a fl ltac:(set_solver)). lia. }
  destruct fl as [|i fl]; [unfold zlen in Hlen; cbn in Hlen; lia|]. exists a, i, fl, rest. split; [done|]. split; [apply Ho|].
  split; [apply Ho; set_solver|]. split; [done|].
  destruct (elem_of_slab_addrs c n a Hst) as (_ & Hlo & Hhi).
  { rewrite <- (ck_addrs _ _ _ _ _ _ _ Hk). apply list_elem_of_fmap. by exists (a, i :: fl). }
  split; [done|]. split; [done|].
  assert (pick c = a) as ->.
  { destruct (ck_rings _ _ _ _ _ _ _ Hk) as [_ _ _ _ Hp He]. unfold pick. rewrite Hp, He.
    destruct P as [|[b gl] P]; cbn in *; [by rewrite Epe|]. injection Epe as -> -> _. rewrite (proj2 (Z.eqb_neq _ _)); [done|]. destruct Ha as (_ & ? & _). lia. }
  unfold needs_slab. destruct Ha as (_ & Ha & _). rewrite (proj2 (Z.eqb_neq _ _)) by lia.
  destruct (os_slab _ _ _ _ _ Ho) as (s & Hs & _ & En & Ec & _).
  rewrite (get_slab_spec _ _ s) by (done || (apply Hmap; lia)). cbn. by rewrite En, Ec, (proj2 (Z.eqb_neq _ _)) by lia.
Qed.

Lemma no_free h this c n F : cache_ok h this c n F [] [] -> needs_slab h (pick c) = Some true.
Proof.
  intros Hk. destruct (ck_rings _ _ _ _ _ _ _ Hk) as [_ _ _ _ Hp He]. unfold needs_slab, pick. rewrite Hp, He. done.
Qed.

(** *** Alignment *)

Lemma stride_aligned c n : cache_static c n -> 0 < align c < 2 ^ 64 -> stride c mod align c = 0.
Proof.
  intros Hs Ha. pose proof (cs_size _ _ Hs) as Hsz. pose proof (static_stride _ _ Hs) as Hst. revert Hsz Hst.
  unfold stride, aligned_size. rewrite (proj2 (Z.eqb_neq _ _)) by lia. intros Hsz Hst.
  set (q := u64 (u64 (c_object_size c - 1) / align c + 1)) in *. set (r := c_object_size c - 1) in *.
  assert (q = r / align c + 1) as Hq.
  { subst q. rewrite (wrap_small 64 r) by (subst r; word_lia). apply wrap_small.
    assert (0 <= r / align c <= r) by (split; [apply Z.div_pos; lia|apply Z.div_le_upper_bound; nia]). subst r. word_lia. }
  assert (align c * q = align c \/ align c * q < 8192) as Hm.
  { rewrite Hq. destruct (Z.lt_ge_cases r (align c)); [left; rewrite Z.div_small by lia; lia|right].
    pose proof (Z.mul_div_le r (align c) ltac:(lia)). lia. }
  rewrite (wrap_small 64) by (unfold in_width; rewrite Hq in *; assert (0 <= r / align c) by (apply Z.div_pos; lia); nia).
  rewrite Z.mul_comm. apply Z_mod_mult.
Qed.

Lemma object_aligned c n a i : cache_static c n -> slab_addr a -> 0 < align c < 2 ^ 64 -> 4096 mod align c = 0 ->
  (a - 4032 + i * stride c) mod align c = 0.
Proof.
  intros Hs (Ha & _) Hal Hd. pose proof (stride_aligned c n Hs Hal) as Hst.
  apply Z.mod_divide in Hd; [|lia]. apply Z.mod_divide in Hst; [|lia]. apply Z.mod_divide; [lia|].
  apply Z.divide_add_r; [|by apply Z.divide_mul_r]. eapply Z.divide_trans; [exact Hd|].
  exists (a / 4096). pose proof (Z.div_mod a 4096 ltac:(lia)). lia.
Qed.

(** What an allocation promises of the object it hands out, next to the objects [lv] that are live. *)
Record fresh_object c (lv : Z -> Prop) (x : Z) : Prop := {
  fo_dead : ~ lv x;
  fo_apart : forall y, lv y -> x + stride c <= y \/ y + stride c <= x;
  fo_within : first_page c <= x /\ x + stride c <= limit c;
  fo_aligned : 0 < align c < 2 ^ 64 -> 4096 mod align c = 0 -> x mod align c = 0;
}.

Lemma taken_fresh h this c n F P E a i fl rest : cache_ok h this c n F P E -> P ++ E = (a, i :: fl) :: rest ->
  NoDup (i :: fl) -> 0 <= i < n -> slab_addr a -> first_page c <= a - 4032 -> a + 64 <= limit c ->
  fresh_object c (live c n (F ++ P ++ E)) (a - 4032 + i * stride c).
Proof.
  intros Hk Hpe Hnd Hi Ha Hlo Hhi. pose proof (ck_static _ _ _ _ _ _ _ Hk) as Hst.
  assert (~ live c n (F ++ P ++ E) (a - 4032 + i * stride c)) as Hdead.
  { intros Hl. destruct (live_in _ _ _ _ _ _ _ _ Hk Hl) as (b & gl & j & Hin & Hb & _ & _ & Hj & Hnj & E0).
    destruct (objects_apart c n a b i j Hst Ha Hb Hi Hj) as [[-> ->]|Hap]; [|pose proof (static_stride _ _ Hst); lia].
    pose proof (cache_nodup _ _ _ _ _ _ _ Hk) as Hn. rewrite <- !fmap_app in Hn.
    assert ((b, j :: fl) ∈ F ++ P ++ E) as Hin2 by (rewrite Hpe; set_solver).
    apply list_elem_of_lookup in Hin as [k1 Hk1]. apply list_elem_of_lookup in Hin2 as [k2 Hk2].
    assert (k1 = k2) as ->.
    { eapply NoDup_lookup; [exact Hn| |]; rewrite list_lookup_fmap; [by rewrite Hk1|by rewrite Hk2]. }
    rewrite Hk1 in Hk2. injection Hk2 as ->. apply Hnj. set_solver. }
  destruct (object_in_slab c n a i Hst Ha Hi) as [H1 H2]. destruct (cs_geometry _ _ Hst) as [? [? ?] ?]. split.
  - done.
  - intros y Hy. destruct (live_in _ _ _ _ _ _ _ _ Hk Hy) as (b & gl & j & Hin & Hb & _ & _ & Hj & Hnj & ->).
    destruct (objects_apart c n a b i j Hst Ha Hb Hi Hj) as [[-> ->]|]; [|done]. by exfalso.
  - lia.
  - by apply (object_aligned c n).
Qed.
(** *** Release to a slab *)

Lemma page_of_object x : 0 <= x -> Z.shiftl (Z.shiftr x 12) 12 = x - x mod 4096.
Proof.
  intros Hx. rewrite Z.shiftl_mul_pow2, Z.shiftr_div_pow2 by lia. change (2 ^ 12) with 4096.
  pose proof (Z.div_mod x 4096 ltac:(lia)). lia.
Qed.

Lemma heap_free_spec h this c n F P E a fl i : cache_ok h this c n F P E -> (a, fl) ∈ F ++ P ++ E -> 0 <= i < n -> i ∉ fl ->
  exists h' c' F' P' E' rest, cache_free h this (a - 4032 + i * stride c) = Some h'
    /\ F ++ P ++ E ≡ₚ (a, fl) :: rest /\ cache_ok h' this c' n F' P' E' /\ F' ++ P' ++ E' ≡ₚ (a, i :: fl) :: rest
    /\ same_config c c' /\ local h h' this (first_page c) (limit c) /\ vmm h' = vmm h
    /\ forall x, ~ a - n <= x < a -> bytes h' x = bytes h x.
Proof.
  intros Hk Hin Hi Hni. destruct (cache_slab _ _ _ _ _ _ _ a fl Hk Hin) as (Ha & Hmap & Ho).
  pose proof (ck_static _ _ _ _ _ _ _ Hk) as Hst. destruct (object_in_slab c n a i Hst Ha Hi) as [Hx1 Hx2].
  destruct (cs_geometry _ _ Hst) as [Hg1 [Hg2 Hg3] Hg4]. unfold MAX_OBJECT_COUNT in Hg3. destruct (Ha) as (Ha1 & Ha2 & Ha3).
  destruct (elem_of_slab_addrs c n a Hst) as (_ & Hlo & Hhi).
  { rewrite <- (ck_addrs _ _ _ _ _ _ _ Hk). apply list_elem_of_fmap. by exists (a, fl). }
  set (x := a - 4032 + i * stride c) in *.
  assert (Z.shiftl (Z.shiftr x 12) 12 = a - 4032) as Hpg.
  { rewrite page_of_object by lia. pose proof (Z.div_mod a 4096 ltac:(lia)).
    assert (x mod 4096 = x - (a - 4032)) as ->; [|lia]. symmetry. apply (Z.mod_unique _ _ (a / 4096)); lia. }
  unfold cache_free. rewrite (get_cache_spec _ _ _ (ck_at _ _ _ _ _ _ _ Hk) (ck_cache _ _ _ _ _ _ _ Hk)). cbn [mbind option_bind].
  rewrite decide_True, Hpg by apply Hst. change get_page_size with 4096. change sizeof_Slab with 64.
  replace (a - 4032 + 4096 - 64) with a by lia. rewrite wrap_small by word_lia.
  destruct (os_slab _ _ _ _ _ Ho) as (s & Hs & _ & En & Ec & Ep & _).
  rewrite (get_slab_spec _ _ s) by (done || (apply Hmap; lia)). cbn [mbind option_bind]. rewrite Ep, Z.eqb_refl. cbn [negb].
  destruct (free_on_slab_spec h (stride c) n a i fl (cs_geometry _ _ Hst) Ha Hmap Ho Hi Hni) as (m & Hf & Ho' & Hl & Hm).
  fold x in Hf. rewrite Hf. cbn [mbind option_bind negb]. rewrite Ec. set (h1 := set_slabs _ m) in *.
  assert (forall y, ~ a - n <= y < a -> bytes h1 y = bytes h y) as Hb.
  { intros y Hy. cbn. apply fn_lookup_insert_ne. lia. }
  assert (local h h1 this (first_page c) (limit c)) as Hl1.
  { split; try done; [intros z Hz; apply Hm; lia|intros z Hz; apply Hb; lia]. }
  assert (exists rest, F ++ P ++ E ≡ₚ (a, fl) :: rest /\ exists h2 c' F' P' E',
    relist_freed h1 this a (n - zlen fl) = Some h2 /\ settled h1 this c n ((a, i :: fl) :: rest) h2 c' F' P' E') as
    (rest & Hp & h2 & c' & F' & P' & E' & Hr & Hok & Hperm & Hrel).
  { destruct (ck_sorted _ _ _ _ _ _ _ Hk) as [S1 S2 S3].
    apply elem_of_app in Hin as [Hin|[Hin|Hin]%elem_of_app].
    - pose proof (S1 a fl Hin) as ->. apply list_elem_of_split in Hin as (A & B & ->).
      exists ((A ++ B) ++ P ++ E). split; [solve_Permutation|]. replace (n - zlen []) with n by (unfold zlen; cbn; lia).
      apply (after_free_full h h1 this c n P E a i A B Hk Hi). eapply mid_intro; try done. solve_Permutation.
    - apply list_elem_of_split in Hin as (A & B & ->). exists (F ++ (A ++ B) ++ E). split; [solve_Permutation|].
      apply (after_free_partial h h1 this c n F E a i fl A B Hk). eapply mid_intro; try done. solve_Permutation.
    - exfalso. apply S3 in Hin. pose proof (zlen_fl_bound (i :: fl) n) as Hz. rewrite zlen_cons in Hz.
      destruct Ho as [_ _ Hnd Hrg]. assert (0 <= 1 + zlen fl <= n); [|lia]. apply Hz; [by apply NoDup_cons| |lia].
      intros j [->|Hj]%elem_of_cons; auto. }
  rewrite Hr. exists h2, c', F', P', E', rest. split; [done|]. split; [done|]. split; [done|]. split; [done|].
  assert (bytes h2 = bytes h1 /\ vmm h2 = vmm h1) as [-> ->] by (destruct Hrel as (? & ? & ? & ? & _ & -> & _); done).
  split; [destruct Hrel as (? & ? & ? & ? & -> & _); repeat split; cbn; lia|].
  split; [eapply local_trans; [exact Hl1|]; by eapply relisted_local|done].
Qed.
End live.

(** *** The operations *)
Section ops.
Context {V : Type} `{PageLaws V heap_page flags_ok}.
Implicit Types (h : heap V) (c : ObjectCache) (F P E L : slabl).

Lemma same_config_trans c1 c2 c3 : same_config c1 c2 -> same_config c2 c3 -> same_config c1 c3.
Proof. unfold same_config. intuition (try congruence; lia). Qed.

Lemma grown_config c full partial empty : same_config c (grown c full partial empty).
Proof. repeat split. cbn. lia. Qed.

(** The cache cannot grow: its region is used up, or the virtual memory manager refuses the next page. *)
Definition cannot_grow h c : Prop :=
  first_page c + Region.size (managed c) <= limit c + 4096
  \/ exists v, vp_allocate (vmm h) (limit c) (page_flags c) = Some (false, v).

(** The contents of the objects that were live are as before. *)
Definition contents_kept h h' c (lv : Z -> Prop) : Prop :=
  forall y k, lv y -> 0 <= k < stride c -> bytes h' (y + k) = bytes h (y + k).

Abbreviation may_map := (may_map (heap_page := heap_page) (flags_ok := flags_ok)).

Lemma fresh_config c c' lv x : same_config c c' -> fresh_object c lv x -> fresh_object c' lv x.
Proof.
  intros (E1 & _ & E2 & _ & E3 & _ & E4) [F1 F2 F3 F4].
  split; unfold contents_kept in *; rewrite ?E1, ?E2, ?E3; [done|done|lia|done].
Qed.

(** An object is taken from a slab that has one. *)
Lemma take_result h this c n F P E : cache_ok h this c n F P E -> P ++ E <> [] ->
  exists x h' c' F' P' E', allocate_from h this (pick c) = Some (x, h') /\ needs_slab h (pick c) = Some false
    /\ cache_ok h' this c' n F' P' E' /\ same_config c c' /\ local h h' this (first_page c) (limit c)
    /\ bytes h' = bytes h /\ vmm h' = vmm h /\ x <> 0 /\ fresh_object c (live c n (F ++ P ++ E)) x
    /\ forall y, live c' n (F' ++ P' ++ E') y <-> live c n (F ++ P ++ E) y \/ y = x.
Proof.
  intros Hk Hne. destruct (first_free h this c n F P E Hk Hne) as (a & i & fl & rest & Hpe & Hnd & Hi & Ha & Hlo & Hhi & Hns).
  destruct (allocate_from_spec h this c n F P E a i fl rest Hk Hpe) as (h' & c' & F' & P' & E' & Hal & Hk' & Hperm & Hc & Hl & Hb & Hv).
  exists (a - 4032 + i * stride c), h', c', F', P', E'. do 7 (split; [done|]). split; [|split].
  - destruct (object_in_slab c n a i (ck_static _ _ _ _ _ _ _ Hk) Ha Hi). destruct Ha as (_ & ? & _). lia.
  - by eapply taken_fresh.
  - intros y. rewrite (live_taken c c' n a i fl F rest _ y Hc Hnd Hi Hperm).
    assert (F ++ P ++ E ≡ₚ (a, i :: fl) :: F ++ rest) as Hp0 by (rewrite Hpe; solve_Permutation).
    by rewrite (live_perm _ _ _ _ _ Hp0).
Qed.

Lemma allocate_result d h this c n F P E O : cache_ok h this c n F P E -> vp_ok (vmm h) O -> may_map c ->
  exists x h' c' F' P' E' O', cache_allocate (S d) h this = Some (x, h')
    /\ cache_ok h' this c' n F' P' E' /\ vp_ok (vmm h') O' /\ same_config c c'
    /\ local h h' this (first_page c) (limit c') /\ contents_kept h h' c (live c n (F ++ P ++ E))
    /\ ((x = 0 /\ P ++ E = [] /\ cannot_grow h c /\ forall y, live c' n (F' ++ P' ++ E') y <-> live c n (F ++ P ++ E) y)
        \/ (x <> 0 /\ fresh_object c' (live c n (F ++ P ++ E)) x
            /\ forall y, live c' n (F' ++ P' ++ E') y <-> live c n (F ++ P ++ E) y \/ y = x)).
Proof.
  intros Hk Hv Hm. cbn [cache_allocate]. unfold allocate_step.
  rewrite (get_cache_spec _ _ _ (ck_at _ _ _ _ _ _ _ Hk) (ck_cache _ _ _ _ _ _ _ Hk)). cbn [mbind option_bind].
  destruct (decide (P ++ E = [])) as [[-> ->]%app_nil|Hne].
  2: { destruct (take_result h this c n F P E Hk Hne) as (x & h' & c' & F' & P' & E' & Hal & Hns & Hk' & Hc & Hl & Hb & Hv' & Hx & Hf & Hlv).
       rewrite Hns. cbn [mbind option_bind]. exists x, h', c', F', P', E', O. split; [done|]. split; [done|]. split; [by rewrite Hv'|].
       split; [done|]. split; [|split; [by intros y k _ _; rewrite Hb|right; split; [done|split; [by eapply fresh_config|done]]]].
       destruct Hc as (_ & _ & _ & _ & _ & _ & Hlim). by eapply local_weaken. }
  rewrite (no_free _ _ _ _ _ Hk). cbn [mbind option_bind].
  destruct (grow_spec (cache_allocate d) h this c n F [] [] O Hk Hv Hm) as (ok & h1 & Hg & Hres). rewrite Hg. cbn [mbind option_bind].
  destruct ok; cbn [negb].
  2: { destruct Hres as (Hw & Hk1 & Hv1 & Hl & Hb). exists 0, h1, c, F, [], [], O. do 3 (split; [done|]). split; [repeat split; lia|].
       split; [done|]. split; [by intros y k _ _; rewrite Hb|]. left. done. }
  destruct Hres as (Hfit & HnO & Hk1 & Hv1 & Hl1 & Hb1). set (c1 := grown _ _ _ _) in *.
  rewrite (get_cache_spec _ _ _ (ck_at _ _ _ _ _ _ _ Hk1) (ck_cache _ _ _ _ _ _ _ Hk1)). cbn [mbind option_bind].
  destruct (take_result h1 this c1 n F [] _ Hk1) as (x & h' & c' & F' & P' & E' & Hal & _ & Hk' & Hc & Hl & Hb & Hv' & Hx & Hf & Hlv); [done|].
  rewrite Hal. exists x, h', c', F', P', E', ({[limit c]} ∪ O). split; [done|]. split; [done|]. split; [by rewrite Hv'|].
  pose proof (grown_config c (full_list c) (partial_list c) (hd 0 [(limit c + 4032, all_objects n)].*1)) as Hc1. fold c1 in Hc1.
  split; [by eapply same_config_trans|]. pose proof Hc as (_ & _ & _ & _ & _ & _ & Hlim). cbn in Hlim.
  assert (forall y, live c1 n (F ++ [] ++ [] ++ [(limit c + 4032, all_objects n)]) y <-> live c n (F ++ [] ++ []) y) as Hsame.
  { intros y. change ([] ++ [] ++ ?l) with l. rewrite (live_perm c1 n _ ((limit c + 4032, all_objects n) :: F)) by solve_Permutation.
    rewrite live_cons, !app_nil_r. split; [|by right]. intros [(i & Hi & Hni & _)|Hy]; [|done]. by rewrite elem_of_all_objects in Hni. }
  split; [|split; [|right; split; [done|split]]].
  - eapply local_trans; [eapply local_weaken; [| |exact Hl1]|eapply local_weaken; [| |exact Hl]]; done || lia.
  - intros y k Hy Hk0. rewrite Hb. apply Hb1. destruct (live_in _ _ _ _ _ _ _ _ Hk Hy) as (a & fl & i & _ & Ha & _ & Hhi & Hi & _ & ->).
    destruct (object_in_slab c n a i (ck_static _ _ _ _ _ _ _ Hk) Ha Hi). destruct (cs_geometry _ _ (ck_static _ _ _ _ _ _ _ Hk)) as [? [? ?] ?]. lia.
  - apply (fresh_config c1); [done|]. destruct Hf as [F1 F2 F3 F4]. split; [intros Hy; by apply F1, Hsame|intros y Hy; by apply F2, Hsame|done|done].
  - intros y. rewrite Hlv. pose proof (Hsame y). tauto.
Qed.

Lemma free_result h this c n F P E O x : cache_ok h this c n F P E -> vp_ok (vmm h) O -> live c n (F ++ P ++ E) x ->
  exists h' c' F' P' E', cache_free h this x = Some h' /\ cache_ok h' this c' n F' P' E' /\ vp_ok (vmm h') O
    /\ same_config c c' /\ local h h' this (first_page c) (limit c)
    /\ contents_kept h h' c (live c n (F ++ P ++ E))
    /\ forall y, live c' n (F' ++ P' ++ E') y <-> live c n (F ++ P ++ E) y /\ y <> x.
Proof.
  intros Hk Hv Hx. pose proof (ck_static _ _ _ _ _ _ _ Hk) as Hst.
  destruct (live_in _ _ _ _ _ _ _ _ Hk Hx) as (a & fl & i & Hin & Ha & Hlo & Hhi & Hi & Hni & ->).
  destruct (heap_free_spec h this c n F P E a fl i Hk Hin Hi Hni) as (h' & c' & F' & P' & E' & rest & Hf & Hp & Hk' & Hp' & Hc & Hl & Hvm & Hb).
  exists h', c', F', P', E'. do 2 (split; [done|]). split; [by rewrite Hvm|]. do 2 (split; [done|]). split.
  - intros y k Hy Hk0. apply Hb. destruct (live_in _ _ _ _ _ _ _ _ Hk Hy) as (b & gl & j & _ & Hb' & _ & _ & Hj & _ & ->).
    destruct (object_in_slab c n b j Hst Hb' Hj). destruct (cs_geometry _ _ Hst) as [? [? ?] ?]. unfold MAX_OBJECT_COUNT in *.
    destruct (decide (b = a)) as [->|Hne]; [lia|]. destruct (slab_apart a b Ha Hb' ltac:(done)); lia.
  - intros y. destruct Hc as (_ & _ & Es & _). rewrite (live_perm _ _ _ _ _ Hp'), (live_perm _ _ _ _ _ Hp), !live_cons, Es.
    assert (live c' n rest y <-> live c n rest y) as -> by (unfold live; by rewrite Es).
    assert (live c n rest y -> y <> a - 4032 + i * stride c) as Hrest.
    { intros (b & gl & j & Hbr & Hj & Hnj & ->). pose proof (cache_nodup _ _ _ _ _ _ _ Hk) as Hnd. rewrite <- !fmap_app, Hp in Hnd.
      apply NoDup_cons in Hnd as [Hna _]. assert (b <> a) as Hne by (intros ->; apply Hna, list_elem_of_fmap; by exists (a, gl)).
      destruct (cache_slab _ _ _ _ _ _ _ b gl Hk) as (Hb' & _); [rewrite Hp; set_solver|].
      destruct (objects_apart c n b a j i Hst Hb' Ha Hj Hi) as [[-> _]|]; [done|]. pose proof (static_stride _ _ Hst). lia. }
    pose proof (static_stride _ _ Hst). split.
    + intros [(j & Hj & Hnj & ->)|Hr]; [|auto]. apply not_elem_of_cons in Hnj as [Hji Hnj]. split; [left; eauto|]. nia.
    + intros [[(j & Hj & Hnj & ->)|Hr] Hne]; [|auto]. left. exists j. split; [done|]. split; [|done].
      apply not_elem_of_cons. split; [|done]. by intros ->.
Qed.
(** C10: an object cache that keeps its administration on its slabs (the size classes up to 256 bytes; the larger ones
    keep it off their slabs and are not covered) hands out objects that overlap no live object, lie in the mapped part of
    its region and have the alignment asked for.  An allocation makes exactly the new object live, keeps the contents of the live ones
    and touches nothing outside the region; it fails only when no slab has a free object and the region is used up or
    no page can be mapped. *)
Theorem cache_allocate_fresh d h this c n F P E O : cache_ok h this c n F P E -> vp_ok (vmm h) O -> may_map c ->
  exists x h' c' F' P' E' O', cache_allocate (S d) h this = Some (x, h')
    /\ cache_ok h' this c' n F' P' E' /\ vp_ok (vmm h') O' /\ same_config c c'
    /\ local h h' this (first_page c) (limit c') /\ contents_kept h h' c (live c n (F ++ P ++ E))
    /\ ((x = 0 /\ P ++ E = [] /\ cannot_grow h c /\ forall y, live c' n (F' ++ P' ++ E') y <-> live c n (F ++ P ++ E) y)
        \/ (x <> 0 /\ fresh_object c' (live c n (F ++ P ++ E)) x
            /\ forall y, live c' n (F' ++ P' ++ E') y <-> live c n (F ++ P ++ E) y \/ y = x)).
Proof. apply allocate_result. Qed.

(** C25: in an object cache that keeps its administration on its slabs (the size classes up to 256 bytes),
    releasing a live object takes exactly that object back, whichever slab and list it is on, and
    keeps the contents of the other live objects and everything outside the region. *)
Theorem cache_free_exact h this c n F P E O x : cache_ok h this c n F P E -> vp_ok (vmm h) O -> live c n (F ++ P ++ E) x ->
  exists h' c' F' P' E', cache_free h this x = Some h' /\ cache_ok h' this c' n F' P' E' /\ vp_ok (vmm h') O
    /\ same_config c c' /\ local h h' this (first_page c) (limit c)
    /\ contents_kept h h' c (live c n (F ++ P ++ E))
    /\ forall y, live c' n (F' ++ P' ++ E') y <-> live c n (F ++ P ++ E) y /\ y <> x.
Proof. apply free_result. Qed.
End ops.
End CacheOps.

(** ** Size classes *)
Module SizeClass.
Import SlabAllocator.

(** All bits of [x] above [k] are clear, and the [j] bits from [k] downwards are set. *)
Definition smeared (k j x : Z) : Prop :=
  (forall i, k < i -> Z.testbit x i = false) /\ (forall i, 0 <= i -> k - j < i <= k -> Z.testbit x i = true).

Lemma smear_step k j x : 0 <= j -> smeared k j x -> smeared k (2 * j) (Z.lor x (Z.shiftr x j)).
Proof.
  intros Hj [Hhi Hlo]. split; intros i Hi.
  - destruct (Z.lt_ge_cases i 0); [by apply Z.testbit_neg_r|].
    rewrite Z.lor_spec, Z.shiftr_spec, !Hhi by lia. done.
  - intros Hr. rewrite Z.lor_spec, Z.shiftr_spec by lia. destruct (Z.lt_ge_cases (k - j) i).
    + by rewrite Hlo by lia.
    + rewrite (Hlo (i + j)) by lia. apply orb_true_r.
Qed.

Lemma smeared_ones k x : 0 <= k < 64 -> smeared k 64 x -> x = 2 ^ (k + 1) - 1.
Proof.
  intros Hk [Hhi Hlo]. rewrite Z.sub_1_r, <- Z.ones_equiv. apply Z.bits_inj'. intros i Hi.
  destruct (Z.lt_ge_cases i (k + 1)).
  - rewrite Z.ones_spec_low by lia. apply Hlo; lia.
  - rewrite Z.ones_spec_high by lia. apply Hhi. lia.
Qed.

Lemma smeared_start x : 0 < x -> smeared (Z.log2 x) 1 x.
Proof.
  intros Hx. split; intros i Hi.
  - by apply Z.bits_above_log2; lia.
  - intros Hr. replace i with (Z.log2 x) by lia. by apply Z.bit_log2.
Qed.

(** The upper boundary is the least power of two that is not below the size. *)
Lemma power_of_two_boundaries_spec size : 2 <= size <= 2 ^ 63 ->
  power_of_two_boundaries size = (2 ^ Z.log2 (size - 1), 2 ^ (Z.log2 (size - 1) + 1)).
Proof.
  intros Hs. unfold power_of_two_boundaries. rewrite (wrap_small 64 (size - 1)) by word_lia.
  set (k := Z.log2 (size - 1)). assert (0 <= k < 63) as Hk.
  { split; [apply Z.log2_nonneg|]. apply Z.log2_lt_pow2; lia. }
  pose proof (smear_step _ 32 _ ltac:(lia) (smear_step _ 16 _ ltac:(lia) (smear_step _ 8 _ ltac:(lia) (smear_step _ 4 _ ltac:(lia)
    (smear_step _ 2 _ ltac:(lia) (smear_step _ 1 _ ltac:(lia) (smeared_start (size - 1) ltac:(lia)))))))) as Hsm.
  cbv zeta. apply smeared_ones in Hsm; [|fold k; lia]. cbn [Z.mul Pos.mul] in Hsm. fold k in Hsm. rewrite Hsm.
  assert (2 ^ (k + 1) <= 2 ^ 63) by (apply Z.pow_le_mono_r; lia). assert (0 < 2 ^ (k + 1)) by (apply Z.pow_pos_nonneg; lia).
  rewrite wrap_small by word_lia. replace (2 ^ (k + 1) - 1 + 1) with (2 ^ (k + 1)) by lia. f_equal.
  rewrite Z.shiftr_div_pow2 by lia. rewrite Z.pow_add_r by lia. change (2 ^ 1) with 2. by rewrite Z.div_mul.
Qed.

(** The class of the objects of [16 * 2 ^ i] bytes. *)
Lemma static_index_result size : 0 <= size <= 2 ^ 63 ->
  (if decide (size <= 65536) then
     exists i, static_index size = i /\ 0 <= i < STATIC_CACHE_COUNT /\ size <= 16 * 2 ^ i
       /\ (16 < size -> 16 * 2 ^ i < 2 * size) /\ (size <= 16 -> i = 0)
   else static_index size = -4).
Proof.
  intros Hs. unfold static_index. rewrite Math.max_spec. change MIN_OBJ_SIZE with 16. change MIN_SIZE_POWER with 4.
  rewrite power_of_two_boundaries_spec by lia. cbn [snd]. set (m := Z.max size 16).
  pose proof (Z.log2_spec (m - 1) ltac:(lia)) as [Hl1 Hl2]. set (k := Z.log2 (m - 1)) in *.
  assert (3 <= k) by (apply Z.log2_le_pow2; lia). change (Z.succ k) with (k + 1) in Hl2. case_decide as Hd.
  - assert (k < 16). { apply Z.log2_lt_pow2; lia. }
    assert (k = 3 \/ k = 4 \/ k = 5 \/ k = 6 \/ k = 7 \/ k = 8 \/ k = 9 \/ k = 10 \/ k = 11 \/ k = 12 \/ k = 13 \/ k = 14 \/ k = 15) as Hk by lia.
    exists (k - 3). destruct Hk as [->|[->|[->|[->|[->|[->|[->|[->|[->|[->|[->|[->| ->]]]]]]]]]]]];
      (split; [reflexivity|]; split; [unfold STATIC_CACHE_COUNT; lia|]; cbn in Hl1, Hl2 |- *; lia).
  - assert (16 <= k) by (apply Z.log2_le_pow2; lia).
    assert (Log2Shit (2 ^ (k + 1)) = 0) as ->; [|done].
    assert (2 ^ 17 <= 2 ^ (k + 1)) as Hp by (apply Z.pow_le_mono_r; lia). change (2 ^ 17) with 131072 in Hp.
    revert Hp. generalize (2 ^ (k + 1)). intros z Hz. unfold Log2Shit.
    destruct z as [|p|p]; try done. do 17 (destruct p as [p|p|]; try done; try lia).
Qed.

(** Sizes beyond the largest class name a place outside the array. *)
Lemma too_large_result {V} `{PageAllocator V} s (h : heap V) size : 65536 < size <= 2 ^ 63 ->
  allocate s h size = None /\ allocate_dma s h size = None.
Proof.
  intros Hs. pose proof (static_index_result size ltac:(lia)) as Hi. rewrite decide_False in Hi by lia.
  unfold allocate, allocate_dma. by rewrite Hi.
Qed.
(** C35: the slab allocator serves a request of up to 64 KiB from the class of the least power of two that holds it, so
    less than half of the object is wasted; a larger request names a place outside the array of caches. *)
Theorem size_class_exact size : 0 <= size <= 2 ^ 63 ->
  if decide (size <= 65536) then
    exists i, static_index size = i /\ 0 <= i < STATIC_CACHE_COUNT /\ size <= 16 * 2 ^ i
      /\ (16 < size -> 16 * 2 ^ i < 2 * size) /\ (size <= 16 -> i = 0)
  else
    static_index size = -4
    /\ forall (V : Type) (PA : PageAllocator V) s (h : heap V), allocate s h size = None /\ allocate_dma s h size = None.
Proof.
  intros Hs. pose proof (static_index_result size Hs) as Hi. case_decide; [exact Hi|]. split; [exact Hi|].
  intros. apply too_large_result. lia.
Qed.

Lemma size_class_exact_witness : static_index 2000 = 7 /\ static_index 65537 = -4.
Proof.
  pose proof (size_class_exact 2000 ltac:(lia)) as H. rewrite decide_True in H by lia. destruct H as (i & E & _).
  split; [by vm_compute|].
  pose proof (size_class_exact 65537 ltac:(lia)) as H. rewrite decide_False in H by lia. apply H.
Defined.
End SizeClass.

(** ** Release by address *)
Module HeapFree.
Import Ring Lists OnSlab Cache CacheOps SlabAllocator.

Section free.
Context {V : Type} `{PageLaws V heap_page flags_ok}.
Implicit Types (h : heap V) (c : ObjectCache) (F P E L : slabl).

(** A cache is a dynamic array: the address of the object with a number. *)
Lemma object_at_result h this c n F P E idx : cache_ok h this c n F P E -> 0 < slab_count c -> 0 <= idx ->
  first_page c + (idx / n + 1) * 4096 + 4096 < 2 ^ 64 -> c_object_size c <= 4032 ->
  object_at h this idx = Some (first_page c + idx / n * 4096 + idx mod n * c_object_size c).
Proof.
  intros Hk Hc Hi Hb Hsz. pose proof (ck_static _ _ _ _ _ _ _ Hk) as Hst. unfold object_at.
  rewrite (get_cache_spec _ _ _ (ck_at _ _ _ _ _ _ _ Hk) (ck_cache _ _ _ _ _ _ _ Hk)). cbn [mbind option_bind].
  rewrite (cs_type _ _ Hst). rewrite (proj2 (Z.eqb_neq (slab_count c) 0)) by lia. rewrite bool_decide_false by done. cbn [orb].
  assert (exists a fl, (a, fl) ∈ F ++ P ++ E /\ (if negb (empty_list c =? 0) then empty_list c
            else if negb (partial_list c =? 0) then partial_list c else full_list c) = a) as (a & fl & Hin & ->).
  { destruct (ck_rings _ _ _ _ _ _ _ Hk) as [_ _ _ Q1 Q2 Q3]. rewrite Q1, Q2, Q3.
    assert (forall a fl, (a, fl) ∈ F ++ P ++ E -> a <> 0) as Hnz.
    { intros a fl Hin. destruct (cache_slab _ _ _ _ _ _ _ _ _ Hk Hin) as ((_ & ? & _) & _). lia. }
    destruct E as [|[a fl] E0]; cbn; [|exists a, fl; rewrite (proj2 (Z.eqb_neq a 0)) by (apply (Hnz a fl); set_solver); set_solver].
    destruct P as [|[a fl] P0]; cbn; [|exists a, fl; rewrite (proj2 (Z.eqb_neq a 0)) by (apply (Hnz a fl); set_solver); set_solver].
    destruct F as [|[a fl] F0]; cbn; [|exists a, fl; set_solver].
    pose proof (Permutation_length (ck_addrs _ _ _ _ _ _ _ Hk)) as Hl.
    assert (length (slab_addrs c) = Z.to_nat (slab_count c)) by (unfold slab_addrs; by rewrite length_fmap, length_seq). cbn in Hl. lia. }
  destruct (cache_slab _ _ _ _ _ _ _ _ _ Hk Hin) as (Ha & Hmap & Ho). destruct (os_slab _ _ _ _ _ Ho) as (s & Hs & _ & En & _).
  rewrite (get_slab_spec _ _ s) by (done || (apply Hmap; lia)). cbn [mbind option_bind]. rewrite En.
  destruct (cs_geometry _ _ Hst) as [? [? ?] ?]. unfold cdiv. rewrite decide_False by lia. cbn [mbind option_bind].
  change (Region.start (managed c)) with (first_page c). change get_page_size with 4096. destruct (cs_start _ _ Hst).
  pose proof (Z.div_pos idx n ltac:(lia) ltac:(lia)). pose proof (Z.mod_pos_bound idx n ltac:(lia)).
  rewrite (wrap_small 64 (first_page c + _)) by word_lia.
  assert (0 <= idx mod n * c_object_size c <= n * stride c).
  { pose proof (cs_size _ _ Hst). nia. }
  rewrite wrap_small by word_lia. done.
Qed.

(** The number of the cache an address belongs to is cut to a byte. *)
Lemma free_by_number s h obj idx : Region.start (heap_memory s) mod CACHE_SIZE = 0 -> 0 <= Region.start (heap_memory s) ->
  0 <= idx -> Region.start (heap_memory s) + (BOOTSTRAP_CACHE_COUNT + idx) * CACHE_SIZE <= obj
    < Region.start (heap_memory s) + (BOOTSTRAP_CACHE_COUNT + idx + 1) * CACHE_SIZE -> obj < 2 ^ 64 ->
  SlabAllocator.free s h obj =
    (c ← object_at h (object_cache_cache s) (idx mod 256);
     if c =? 0 then Some h
     else cache ← get_cache h c; if decide (type cache = CT_NONE) then Some h else cache_free h c obj).
Proof.
  intros Hal Hst Hidx Hr Hobj. unfold SlabAllocator.free, memory_align, cdiv. change BOOTSTRAP_CACHE_COUNT with 6 in *.
  assert (CACHE_SIZE = 2097152) as E by reflexivity. rewrite E in *. rewrite decide_False by lia. cbn [mbind option_bind].
  set (st := Region.start (heap_memory s)) in *.
  assert (obj / 2097152 = st / 2097152 + (6 + idx)) as ->.
  { pose proof (Z.div_mod st 2097152 ltac:(lia)). symmetry. apply (Z.div_unique _ _ _ (obj - st - (6 + idx) * 2097152)); lia. }
  pose proof (Z.div_mod st 2097152 ltac:(lia)). replace ((st / 2097152 + (6 + idx)) * 2097152) with (st + (6 + idx) * 2097152) by lia.
  rewrite (wrap_small 64 (st + _)) by word_lia. replace (st + (6 + idx) * 2097152 - st) with ((6 + idx) * 2097152) by lia.
  rewrite (wrap_small 64) by word_lia. rewrite Z.div_mul by lia. by replace (6 + idx - 6) with idx by lia.
Qed.

(** A live object is released by the cache that handed it out, when that cache has a number below 256. *)
Lemma heap_free_result s h idx t c n F P E O x : Region.start (heap_memory s) mod CACHE_SIZE = 0 ->
  0 <= Region.start (heap_memory s) -> 0 <= idx < 256 ->
  first_page c = Region.start (heap_memory s) + (BOOTSTRAP_CACHE_COUNT + idx) * CACHE_SIZE ->
  Region.size (managed c) = CACHE_SIZE -> object_at h (object_cache_cache s) idx = Some t ->
  cache_ok h t c n F P E -> vp_ok (vmm h) O -> live c n (F ++ P ++ E) x ->
  exists h' c' F' P' E', SlabAllocator.free s h x = Some h' /\ cache_ok h' t c' n F' P' E' /\ vp_ok (vmm h') O
    /\ same_config c c' /\ local h h' t (first_page c) (limit c)
    /\ contents_kept h h' c (live c n (F ++ P ++ E))
    /\ forall y, live c' n (F' ++ P' ++ E') y <-> live c n (F ++ P ++ E) y /\ y <> x.
Proof.
  intros Hal Hst0 Hidx Hfirst Hsize Hat Hk Hv Hx. pose proof (ck_static _ _ _ _ _ _ _ Hk) as Hst.
  destruct (free_result h t c n F P E O x Hk Hv Hx) as (h' & c' & F' & P' & E' & Hf & Hres).
  exists h', c', F', P', E'. split; [|exact Hres].
  destruct (live_in _ _ _ _ _ _ _ _ Hk Hx) as (a & fl & i & _ & Ha & Hlo & Hhi & Hi & _ & E1).
  destruct (object_in_slab c n a i Hst Ha Hi). pose proof (cs_within _ _ Hst). pose proof (cs_end _ _ Hst). pose proof (static_stride _ _ Hst).
  destruct (cs_geometry _ _ Hst) as [? [? ?] ?].
  rewrite (free_by_number s h x idx Hal Hst0) by lia. rewrite Z.mod_small, Hat by done. cbn [mbind option_bind].
  rewrite (proj2 (Z.eqb_neq _ _)) by exact (at_nonzero _ _ (ck_at _ _ _ _ _ _ _ Hk)).
  rewrite (get_cache_spec _ _ _ (ck_at _ _ _ _ _ _ _ Hk) (ck_cache _ _ _ _ _ _ _ Hk)). cbn [mbind option_bind].
  rewrite (cs_type _ _ Hst), decide_False by done. exact Hf.
Qed.
(** [free] of the slab allocator finds the cache that handed the object out from the object's address, and
    releases exactly that object, for the caches with a number below 256. *)
Theorem heap_free_reaches_cache s h idx t c n F P E O x : Region.start (heap_memory s) mod CACHE_SIZE = 0 ->
  0 <= Region.start (heap_memory s) -> 0 <= idx < 256 ->
  first_page c = Region.start (heap_memory s) + (BOOTSTRAP_CACHE_COUNT + idx) * CACHE_SIZE ->
  Region.size (managed c) = CACHE_SIZE -> object_at h (object_cache_cache s) idx = Some t ->
  cache_ok h t c n F P E -> vp_ok (vmm h) O -> live c n (F ++ P ++ E) x ->
  exists h' c' F' P' E', SlabAllocator.free s h x = Some h' /\ cache_ok h' t c' n F' P' E' /\ vp_ok (vmm h') O
    /\ same_config c c' /\ local h h' t (first_page c) (limit c)
    /\ contents_kept h h' c (live c n (F ++ P ++ E))
    /\ forall y, live c' n (F' ++ P' ++ E') y <-> live c n (F ++ P ++ E) y /\ y <> x.
Proof. apply heap_free_result. Qed.
End free.
End HeapFree.
