(* ===== verification/SlabVmm.v ===== *)
(** * The kernel heap on the virtual memory manager

    The virtual memory manager of Vmm.v is what the heap asks for in Slab.v: the laws of [PageLaws] hold for it, for
    every physical memory manager with [FrameLaws].  The heap's pages are mapped to page frames that are in use,
    pairwise different and no page tables. *)

From stdpp Require Import functions.
From S2P Require Import Prelude Kre Memory Paging PagingProps Vmm VmmProps Slab SlabProps SlabCache SlabHeap.
Import Pg Addr Table PgBits Hier PageOps Vmm VmmOps.

Module HeapVmm.
Section heap.
Context (width : Z) (Hwidth : 12 <= width <= 47).
Context {A : Type} `{FrameLaws A managed} (Hmanaged : forall p, managed p -> frame_ok width p).
(** The loaded base page table. *)
Context (base : Z).

(** The processor takes only addresses whose bits 47 to 63 agree. *)
Definition canonical (x : Z) : bool := ((0 <=? x) && (x <? 2 ^ 47)) || ((2 ^ 64 - 2 ^ 47 <=? x) && (x <? 2 ^ 64)).

#[export] Instance vmm_pages : PageAllocator (machine A) := {
  vp_allocate s v flags := allocate width s (interp_as_base_page_table base) v flags;
  vp_free s v := free width base s (interp_as_base_page_table base) v;
  vp_mapped s v :=
    canonical v && match virtual_to_physical_address width (words s) base v with Some (Some _) => true | _ => false end;
}.

(** The 16 TiB from the start of the kernel heap on. *)
Definition KERNEL_HEAP_START : Z := 0xFFFFA00000000000.

Definition vmm_heap_page (p : Z) : Prop :=
  p mod 4096 = 0 /\ KERNEL_HEAP_START <= p < KERNEL_HEAP_START + 2 ^ 44.

Definition vmm_flags (f : Z) : Prop := 0 <= f < 4096 /\ Z.testbit f 0 = true.

(** [fr] names the page frame of each page of the heap. *)
Record heap_frames (s : machine A) (T : gmap Z (nat * Z)) (O : gset Z) (fr : gmap Z Z) : Prop := {
  hf_dom : dom fr = O;
  hf_page : forall p f, fr !! p = Some f -> vmm_heap_page p;
  hf_frame : forall p f, fr !! p = Some f ->
    (exists w, translate width (words s) base (page p) = Some w /\ addr width w = f) /\ managed f /\ fa_taken (pmm s) f /\ T !! f = None;
  hf_inj : forall p q f, fr !! p = Some f -> fr !! q = Some f -> p = q;
}.

Definition vmm_ok (s : machine A) (O : gset Z) : Prop :=
  exists T fr, sys width s base T (managed := managed) /\ heap_frames s T O fr.

(** Addresses of the heap are not translated by the direct map. *)
Lemma heap_prefix x : KERNEL_HEAP_START <= x < KERNEL_HEAP_START + 2 ^ 44 -> addr_prefix x <> HHDM_BEGIN.
Proof.
  intros Hx E. unfold addr_prefix in E.
  assert (Z.testbit (Z.land x MASK_ADDR_PREFIX) 45 = Z.testbit HHDM_BEGIN 45) as Hb by (by rewrite E).
  rewrite Z.land_spec in Hb. change (Z.testbit MASK_ADDR_PREFIX 45) with true in Hb. change (Z.testbit HHDM_BEGIN 45) with false in Hb.
  rewrite andb_true_r in Hb. rewrite Z.testbit_false in Hb by lia. change (2 ^ 45) with 35184372088832 in Hb.
  change KERNEL_HEAP_START with 18446638520593285120 in Hx. change (2 ^ 44) with 17592186044416 in Hx.
  Z.to_euclidean_division_equations. lia.
Qed.

Lemma heap_page_inj p q : vmm_heap_page p -> vmm_heap_page q -> page p = page q -> p = q.
Proof.
  unfold vmm_heap_page, page. change KERNEL_HEAP_START with 18446638520593285120. change (2 ^ 44) with 17592186044416.
  change (2 ^ 36) with 68719476736. intros [Hp1 Hp2] [Hq1 Hq2] E. Z.to_euclidean_division_equations. lia.
Qed.

Lemma heap_canonical p x : vmm_heap_page p -> p <= x < p + 4096 -> canonical x = true.
Proof.
  unfold vmm_heap_page, canonical. change KERNEL_HEAP_START with 18446638520593285120. change (2 ^ 44) with 17592186044416.
  change (2 ^ 47) with 140737488355328. change (2 ^ 64) with 18446744073709551616. intros [_ Hp] Hx.
  apply orb_true_intro. right. apply andb_true_intro. split; [apply Z.leb_le|apply Z.ltb_lt]; lia.
Qed.

(** Only the addresses of a page of the heap have its number. *)
Lemma page_alias p x : vmm_heap_page p -> canonical x = true -> page x = page p -> p <= x < p + 4096.
Proof.
  unfold vmm_heap_page, canonical, page. change KERNEL_HEAP_START with 18446638520593285120. change (2 ^ 44) with 17592186044416.
  change (2 ^ 47) with 140737488355328. change (2 ^ 64) with 18446744073709551616. change (2 ^ 36) with 68719476736.
  intros [Hp1 Hp2] Hx%orb_true_iff E. rewrite !andb_true_iff, !Z.leb_le, !Z.ltb_lt in Hx. Z.to_euclidean_division_equations. lia.
Qed.

Lemma page_within p x : p mod 4096 = 0 -> p <= x < p + 4096 -> page x = page p.
Proof. intros Hp Hx. unfold page. f_equal. Z.to_euclidean_division_equations. lia. Qed.

(** An address is mapped when its page is translated or it lies in the direct map. *)
Lemma mapped_spec s T x : sys width s base T (managed := managed) ->
  vp_mapped s x = canonical x && ((addr_prefix x =? HHDM_BEGIN) || bool_decide (is_Some (translate width (words s) base (page x)))).
Proof using Hwidth.
  intros Hs. cbn [vp_mapped vmm_pages]. unfold virtual_to_physical_address. destruct (canonical x); [|done]. cbn [andb].
  destruct (_ =? HHDM_BEGIN); [done|]. cbn [orb].
  destruct (find_page_result width Hwidth s base T x Hs) as (r & Hrun & Hres). unfold find_page in Hrun. rewrite Hrun.
  cbn [mbind option_bind]. destruct (translate _ _ _ _) as [w|].
  - destruct Hres as (E & _). by rewrite decide_True by done.
  - destruct Hres as [E _]. by rewrite E, decide_False by done.
Qed.

Lemma vmm_owned s O p x : vmm_ok s O -> p ∈ O -> p <= x < p + get_page_size -> vp_mapped s x = true.
Proof using Hwidth.
  intros (T & fr & Hs & [Hd Hp Hf _]) Hin Hx. rewrite (mapped_spec s T) by done. rewrite <- Hd in Hin.
  apply elem_of_dom in Hin as [f Hfr]. destruct (Hf p f Hfr) as [(w & Hw & _) _].
  rewrite (page_within p x) by (done || apply (Hp p f Hfr)).
  rewrite (heap_canonical p x), Hw by (done || by eapply Hp). cbn. apply orb_true_r.
Qed.

Lemma vmm_allocate_law s O p f : vmm_ok s O -> vmm_heap_page p -> vmm_flags f -> exists ok s',
  vp_allocate s p f = Some (ok, s') /\ (if ok : bool then p ∉ O /\ vmm_ok s' ({[p]} ∪ O) else vmm_ok s' O)
  /\ forall x, vp_mapped s x = true -> vp_mapped s' x = true.
Proof using Hwidth Hmanaged.
  intros (T & fr & Hs & Hfr) Hp [Hf1 Hf2]. destruct Hfr as [Hd Hpg Hf Hi].
  destruct (vmm_allocate_result width Hwidth Hmanaged s base T p f Hs Hf1 Hf2) as (ok & s' & Hrun & Hres).
  exists ok, s'. split; [exact Hrun|]. destruct ok.
  - destruct Hres as (Hnone & g & T' & Hmg & Hng & HTg & Hsub & Hmap & Hs' & Htk & Hnew).
    assert (forall q h, fr !! q = Some h -> page q <> page p) as Hne.
    { intros q h Hq E. destruct (Hf q h Hq) as [(w & Hw & _) _]. rewrite E in Hw. congruence. }
    split; [split|].
    + rewrite <- Hd. rewrite elem_of_dom. intros [h Hh]. by apply (Hne p h Hh).
    + exists T', (<[p := g]> fr). split; [done|]. split.
      * rewrite dom_insert_L, Hd. done.
      * intros q h. rewrite lookup_insert_Some. intros [[<- _]|[_ Hq]]; [done|by eapply Hpg].
      * intros q h. rewrite lookup_insert_Some. intros [[<- <-]|[Hqp Hq]].
        { split; [|split; [done|split; [apply Htk; auto|done]]]. eexists. rewrite (Hmap (page p)) by apply page_range.
          rewrite decide_True by done. split; [done|]. by apply (pointer_addr width); auto. }
        { destruct (Hf q h Hq) as [(w & Hw & Ha) (Hmh & Hth & HTh)]. split; [|split; [done|split; [apply Htk; auto|]]].
          - exists w. rewrite (Hmap (page q)) by apply page_range. by rewrite decide_False by (by eapply Hne).
          - apply eq_None_not_Some. intros HT'. destruct (Hnew h HT') as [HT|[_ Hnt]]; [|done]. rewrite HTh in HT. by destruct HT. }
      * intros q r h. rewrite !lookup_insert_Some. intros [[<- <-]|[_ Hq]] [[<- E]|[_ Hr]]; [done| | |by eapply Hi].
        { exfalso. apply Hng. by apply (Hf r g Hr). } { subst h. exfalso. apply Hng. by apply (Hf q g Hq). }
    + intros x. rewrite (mapped_spec s T), (mapped_spec s' T') by done. rewrite (Hmap (page x)) by apply page_range.
      destruct (canonical x); [|done]. destruct (_ =? HHDM_BEGIN); [done|]. cbn [andb orb]. case_decide; [by intros _|done].
  - destruct Hres as (_ & Hs' & Htr & Htk). split.
    + exists T, fr. split; [done|]. split; try done. intros q h Hq. destruct (Hf q h Hq) as [(w & Hw & Ha) (Hmh & Hth & HTh)].
      split; [|split; [done|split; [by apply Htk|done]]]. exists w. by rewrite Htr by apply page_range.
    + intros x. rewrite (mapped_spec s T), (mapped_spec s' T) by done. by rewrite Htr by apply page_range.
Qed.

Lemma vmm_free_law s O p : vmm_ok s O -> vmm_heap_page p -> p ∈ O -> exists s',
  vp_free s p = Some (true, s') /\ vmm_ok s' (O ∖ {[p]})
  /\ forall x, ~ p <= x < p + get_page_size -> vp_mapped s x = true -> vp_mapped s' x = true.
Proof using Hwidth.
  intros (T & fr & Hs & [Hd Hpg Hf Hi]) Hp Hin. subst O. apply elem_of_dom in Hin as [g Hg].
  destruct (Hf p g Hg) as [(w & Hw & Ha) (Hmg & Htg & HTg)].
  pose proof (vmm_free_result width Hwidth s base T p Hs) as Hfree. rewrite Hw in Hfree.
  destruct (Hfree ltac:(apply Hp) ltac:(by apply heap_prefix, Hp) g Ha Hmg Htg HTg) as (s' & T' & Hrun & Hsub & Hs' & _ & Htr & Htk).
  exists s'. split; [exact Hrun|]. split.
  - exists T', (delete p fr). split; [done|]. split.
    + by rewrite dom_delete_L.
    + intros q h [_ Hq]%lookup_delete_Some. by eapply Hpg.
    + intros q h [Hne Hq]%lookup_delete_Some. destruct (Hf q h Hq) as [(w' & Hw' & Ha') (Hmh & Hth & HTh)].
      assert (page q <> page p) as Hpp by (intros E; apply Hne; symmetry; apply heap_page_inj; [by eapply Hpg|done|done]).
      split; [|split; [done|split]].
      * exists w'. rewrite Htr by apply page_range. by rewrite decide_False.
      * apply Htk; [done|]. split; [done|]. split; [intros ->; apply Hne; by eapply Hi|]. rewrite HTh. by intros [].
      * by eapply lookup_weaken_None.
    + intros q r h [_ Hq]%lookup_delete_Some [_ Hr]%lookup_delete_Some. by eapply Hi.
  - intros x Hx. rewrite (mapped_spec s T), (mapped_spec s' T') by done. rewrite Htr by apply page_range.
    destruct (canonical x) eqn:Ec; [|done]. destruct (addr_prefix x =? HHDM_BEGIN); [done|]. cbn [andb orb].
    case_decide as E; [|done]. exfalso. apply Hx. by apply page_alias.
Qed.

#[export] Instance vmm_page_laws : PageLaws (machine A) vmm_heap_page vmm_flags := {
  vp_ok := vmm_ok;
  vp_owned_law := vmm_owned;
  vp_allocate_law := vmm_allocate_law;
  vp_free_law := vmm_free_law;
}.
(** A cache that cannot grow has used up its region, or at most four page frames are free. *)
Lemma cannot_grow_exhausted (h : Slab.heap (machine A)) c T : sys width (Slab.vmm h) base T (managed := managed) ->
  vmm_flags (Slab.page_flags c) -> translate width (words (Slab.vmm h)) base (page (Slab.limit c)) = None ->
  CacheOps.cannot_grow h c ->
  Cache.first_page c + Region.size (Slab.managed c) <= Slab.limit c + 4096 \/ exhausted (Slab.vmm h) 4 (managed := managed).
Proof using Hwidth Hmanaged.
  intros Hs [Hf1 Hf2] Htr [Hu|[v Hv]]; [by left|right].
  destruct (vmm_allocate_result width Hwidth Hmanaged (Slab.vmm h) base T (Slab.limit c) (Slab.page_flags c) Hs Hf1 Hf2)
    as (ok & s' & Hrun & Hres). cbn [vp_allocate vmm_pages] in Hv. rewrite Hrun in Hv. injection Hv as -> _. by apply Hres.
Qed.
End heap.
End HeapVmm.

(** ** A heap on the empty address space *)
Module HeapExample.
Import HeapVmm PmmFrames PagingExample VmmExample Slab OnSlab Cache CacheOps HeapFree.
#[local] Existing Instance laws0.

Definition cache_at : Z := HHDM_BEGIN + 4096.

(** A cache of 60 byte objects with alignment 16 in the seventh region of the kernel heap. *)
Definition cache1 : ObjectCache :=
  mkCache 1 0 (Region.mkRegion (KERNEL_HEAP_START + 6 * SlabAllocator.CACHE_SIZE) SlabAllocator.CACHE_SIZE Region.NONE)
    (KERNEL_HEAP_START + 6 * SlabAllocator.CACHE_SIZE) 3 0 0 0 60 16 0 0 0 0 0 ON_SLAB.

(** The cache of caches: its first object is the cache above. *)
Definition cache_cache_at : Z := HHDM_BEGIN + 8192.

Definition cache0 : ObjectCache :=
  mkCache 1 0 (Region.mkRegion cache_at SlabAllocator.CACHE_SIZE Region.NONE)
    (cache_at + 4096) 3 0 0 0 144 0 0 0 (cache_at + 4032) 0 1 ON_SLAB.

Definition heap1 : heap (machine Pmm.BitMapAllocator) :=
  mkHeap {[cache_at + 4032 := mkSlab 0 0 (free_object 1) 144 27 1 cache_at 4096]} ∅ ∅ ∅
    {[cache_at := cache1; cache_cache_at := cache0]} ∅ (fun _ => 0) machine0.

Definition allocator1 : SlabAllocator.SlabAllocator :=
  SlabAllocator.mkAllocator cache_cache_at [] [] 1 (Region.mkRegion KERNEL_HEAP_START 0x8000000 Region.KERNEL_HEAP) 0 0 HS_NONE.

Abbreviation pages0 := (vmm_pages 36 base0).
Abbreviation plaws0 := (vmm_page_laws 36 ltac:(lia) managed0 base0).
#[local] Existing Instance vmm_pages.

Lemma at1 v x : canonical x = true -> x <> 0 -> addr_prefix x = HHDM_BEGIN -> 
  at_ (H := pages0) (set_vmm heap1 v) x = Some tt.
Proof.
  intros Hc Hx Hp. unfold at_. rewrite (proj2 (Z.eqb_neq _ _)) by done. cbn [negb andb vp_mapped vmm_pages].
  rewrite Hc. unfold virtual_to_physical_address. rewrite Hp, Z.eqb_refl. done.
Qed.

Lemma static1 : cache_static cache1 62.
Proof.
  split; try reflexivity; try (vm_compute; congruence); try (split; vm_compute; congruence).
  split; try (vm_compute; congruence); split; vm_compute; congruence.
Qed.

Lemma cache1_ok : cache_ok (H := pages0) heap1 cache_at cache1 62 [] [] [].
Proof.
  split.
  - apply static1.
  - reflexivity.
  - by apply (at1 machine0).
  - intros x Hx. exfalso. change (limit cache1) with (first_page cache1) in Hx. lia.
  - reflexivity.
  - intros a fl Hin. by apply not_elem_of_nil in Hin.
  - split; intros a fl Hin; by apply not_elem_of_nil in Hin.
  - done.
Qed.

Lemma pages1_ok : vp_ok (PageLaws := plaws0) (vmm heap1) ∅.
Proof.
  exists {[base0 := (3%nat, 0)]}, ∅. split; [exact sys0|]. split; [apply dom_empty_L|done..].
Qed.

Lemma may_map1 : may_map (heap_page := vmm_heap_page) (flags_ok := vmm_flags) cache1.
Proof.
  split; [split; [split; vm_compute; congruence|reflexivity]|]. intros p Hp Hr. split; [done|].
  change (first_page cache1) with (KERNEL_HEAP_START + 12582912) in Hr. change (Region.size (managed cache1)) with 2097152 in Hr.
  change (2 ^ 44) with 17592186044416. lia.
Qed.

Lemma can_grow1 : ~ cannot_grow (H := pages0) heap1 cache1.
Proof.
  intros Hno. destruct (cannot_grow_exhausted 36 ltac:(lia) managed0 base0 heap1 cache1 _ sys0
    ltac:(split; [split; vm_compute; congruence|reflexivity]) (empty0 _) Hno) as [Hu|Hex].
  - revert Hu. vm_compute. congruence.
  - destruct (not_exhausted0 4 ltac:(lia) Hex).
Qed.

Lemma cache_allocate_fresh_witness : exists x h',
  allocate (H := pages0) heap1 cache_at = Some (x, h') /\ x <> 0 /\ x mod 16 = 0.
Proof.
  destruct (cache_allocate_fresh (H0 := plaws0) 1 heap1 cache_at cache1 62 [] [] [] ∅ cache1_ok pages1_ok may_map1)
    as (x & h' & c' & F' & P' & E' & O' & Hal & _ & _ & Hc & _ & _ & Hres).
  exists x, h'. split; [exact Hal|]. destruct Hres as [(_ & _ & Hno & _)|(Hx & Hf & _)]; [by destruct (can_grow1 Hno)|].
  split; [exact Hx|]. destruct Hc as (_ & _ & _ & _ & E & _). change 16 with (align cache1). rewrite <- E.
  apply (fo_aligned _ _ _ Hf); rewrite E; [split; vm_compute; congruence|reflexivity].
Defined.
(** The heap after one allocation. *)
Lemma allocated : exists x h' c' F' P' E' O', x <> 0
  /\ cache_ok (H := pages0) h' cache_at c' 62 F' P' E' /\ vp_ok (PageLaws := plaws0) (Slab.vmm h') O'
  /\ same_config cache1 c' /\ live c' 62 (F' ++ P' ++ E') x
  /\ local (H := pages0) heap1 h' cache_at (first_page cache1) (limit c').
Proof.
  destruct (allocate_result (H0 := plaws0) 1 heap1 cache_at cache1 62 [] [] [] ∅ cache1_ok pages1_ok may_map1)
    as (x & h' & c' & F' & P' & E' & O' & _ & Hk & Hv & Hc & Hl & _ & Hres).
  exists x, h', c', F', P', E', O'. destruct Hres as [(_ & _ & Hno & _)|(Hx & _ & Hlv)]; [by destruct (can_grow1 Hno)|].
  do 4 (split; [done|]). split; [apply Hlv; by right|exact Hl].
Qed.

Lemma cache_free_exact_witness : exists x h h', cache_free (H := pages0) h cache_at x = Some h' /\ x <> 0.
Proof.
  destruct allocated as (x & h & c & F & P & E & O & Hx & Hk & Hv & _ & Hl & _).
  destruct (cache_free_exact (H0 := plaws0) h cache_at c 62 F P E O x Hk Hv Hl) as (h' & _ & _ & _ & _ & Hf & _).
  exists x, h, h'. split; [exact Hf|exact Hx].
Defined.

Lemma object_at1 h lo hi : local (H := pages0) heap1 h cache_at lo hi -> cache_at + 4096 <= lo ->
  object_at (H := pages0) h (SlabAllocator.object_cache_cache allocator1) 0 = Some cache_at.
Proof.
  intros Hl Hlo. change (SlabAllocator.object_cache_cache allocator1) with cache_cache_at. unfold object_at, get_cache, get_slab.
  rewrite (lc_mapped _ _ _ _ _ Hl cache_cache_at) by (by apply (at1 machine0)). cbn [mbind option_bind].
  rewrite (lc_caches _ _ _ _ _ Hl) by done. change (caches heap1 !! cache_cache_at) with (Some cache0).
  cbn [mbind option_bind type cache0 slab_count partial_list empty_list Z.eqb negb orb bool_decide decide CacheType_eq_dec].
  change (bool_decide (ON_SLAB = OFF_SLAB)) with false. cbn [orb]. change (cache_at + 4032 =? 0) with false. cbn [negb].
  rewrite (lc_mapped _ _ _ _ _ Hl (cache_at + 4032)) by (by apply (at1 machine0)). cbn [mbind option_bind].
  rewrite (lc_slabs _ _ _ _ _ Hl) by lia. reflexivity.
Qed.

Lemma heap_free_reaches_cache_witness : exists x h h', SlabAllocator.free (H := pages0) allocator1 h x = Some h' /\ x <> 0.
Proof.
  destruct allocated as (x & h & c & F & P & E & O & Hx & Hk & Hv & (E1 & E2 & _) & Hl & Hloc).
  assert (cache_at + 4096 <= first_page cache1) as Hlo by (vm_compute; congruence).
  destruct (heap_free_reaches_cache (H0 := plaws0) allocator1 h 0 cache_at c 62 F P E O x eq_refl ltac:(vm_compute; congruence)
    ltac:(lia) ltac:(rewrite E1; reflexivity) ltac:(rewrite E2; reflexivity) (object_at1 h _ _ Hloc Hlo) Hk Hv Hl)
    as (h' & _ & _ & _ & _ & Hf & _).
  exists x, h, h'. split; [exact Hf|exact Hx].
Defined.
End HeapExample.
