(* ===== verification/Scheduler.v ===== *)
(** * Threads: the multi-level ready queue and the scheduler

    Models [CPU/Threading/MultiLevelQueue.cpp] and [CPU/Threading/Scheduler.cpp].
    A [SharedPointer<Thread>] is the number of the thread object it points to
    (pointer equality is what the code compares); the thread objects themselves
    live in a store.  The scheduler's spin lock makes every public operation one
    atomic step; a context switch inside an operation hands the lock to the
    thread that is switched to, which releases it, so the state after the step is
    again unlocked.  [None] is a dereference of a pointer to no thread. *)

From S2P Require Import Prelude.

Definition tptr : Type := nat.

Module Thread.
Inductive ThreadState := NONE | CREATED | READY | RUNNING | BLOCK_PENDING | BLOCKED | STOPPED.

Inductive SchedulingPolicy := P_NONE | LOW_LATENCY | NORMAL | BACKGROUND.

#[export] Instance ThreadState_eq_dec : EqDecision ThreadState.
Proof. solve_decision. Defined.

#[export] Instance SchedulingPolicy_eq_dec : EqDecision SchedulingPolicy.
Proof. solve_decision. Defined.

(** The fields of [struct Thread] the scheduler uses; [kernel_stacks] counts the kernel
    stacks allocated for the thread and not freed again. *)
Record Thread := mkThread {
  handle : Z;
  state : ThreadState;
  policy : SchedulingPolicy;
  kernel_stacks : Z;
}.
End Thread.
Export Thread.

Module MultiLevelQueue.
(** The chain of queues from the highest to the lowest policy. *)
Definition queue : Type := list (SchedulingPolicy * list tptr).

Definition get_queued_threads (q : queue) : list tptr := concat (q.*2).

Fixpoint peek (q : queue) : option tptr :=
  match q with
  | [] => None
  | (_, t :: _) :: _ => Some t
  | (_, []) :: q' => peek q'
  end.

(** [enqueue] of a thread with policy [p]: into the first queue of that policy, unless
    it is already there. *)
Fixpoint enqueue (q : queue) (t : tptr) (p : SchedulingPolicy) : bool * queue :=
  match q with
  | [] => (false, [])
  | (p', ts) :: q' =>
      if decide (p' = p) then (true, (p', if decide (t ∈ ts) then ts else ts ++ [t]) :: q')
      else let '(ok, q'') := enqueue q' t p in (ok, (p', ts) :: q'')
  end.

Fixpoint dequeue (q : queue) : option tptr * queue :=
  match q with
  | [] => (None, [])
  | (p, t :: ts) :: q' => (Some t, (p, ts) :: q')
  | (p, []) :: q' => let '(r, q'') := dequeue q' in (r, (p, []) :: q'')
  end.

(** [LinkedList::remove]: the first occurrence. *)
Fixpoint remove_first (t : tptr) (ts : list tptr) : list tptr :=
  match ts with
  | [] => []
  | t' :: ts' => if decide (t' = t) then ts' else t' :: remove_first t ts'
  end.

(** [remove] searches each queue for the first thread with the handle. *)
Fixpoint remove (handle_of : tptr -> option Z) (q : queue) (thread_id : Z)
    : option tptr * queue :=
  match q with
  | [] => (None, [])
  | (p, ts) :: q' =>
      match list_find (fun t => handle_of t = Some thread_id) ts with
      | Some (_, t) => (Some t, (p, remove_first t ts) :: q')
      | None => let '(r, q'') := remove handle_of q' thread_id in (r, (p, ts) :: q'')
      end
  end.

(** ** The queue as one list: the levels concatenated, highest policy first *)

Definition in_level (q : queue) (p : SchedulingPolicy) (t : tptr) : Prop :=
  exists ts, (p, ts) ∈ q /\ t ∈ ts.

Lemma in_level_nil p t : ~ in_level [] p t.
Proof. intros (ts & H & _). by apply not_elem_of_nil in H. Qed.

Lemma in_level_cons p0 ts0 q p t : in_level ((p0, ts0) :: q) p t <-> (p = p0 /\ t ∈ ts0) \/ in_level q p t.
Proof.
  unfold in_level. split.
  - intros (ts & [E|H]%elem_of_cons & Ht); [left; by simplify_eq|right; eauto].
  - intros [[-> H]|(ts & H1 & H2)]; [exists ts0|exists ts]; (split; [|done]); rewrite elem_of_cons; auto.
Qed.

Lemma queued_cons p ts q : get_queued_threads ((p, ts) :: q) = ts ++ get_queued_threads q.
Proof. done. Qed.

Lemma elem_of_queued q t : t ∈ get_queued_threads q <-> exists p, in_level q p t.
Proof.
  induction q as [|[p ts] q IH].
  - split; [intros H; by apply not_elem_of_nil in H|intros [p H]; by apply in_level_nil in H].
  - rewrite queued_cons, elem_of_app, IH. setoid_rewrite in_level_cons. naive_solver.
Qed.

(** [peek] and [dequeue] see the head of the concatenation. *)
Lemma peek_spec q : peek q = head (get_queued_threads q).
Proof. induction q as [|[p [|t ts]] q IH]; cbn; done. Qed.

Lemma dequeue_spec q :
  match get_queued_threads q with
  | [] => dequeue q = (None, q)
  | t :: rest => exists q', dequeue q = (Some t, q') /\ get_queued_threads q' = rest
       /\ q'.*1 = q.*1 /\ forall p x, in_level q' p x -> in_level q p x
  end.
Proof.
  induction q as [|[p [|t ts]] q IH]; [done| |].
  - rewrite queued_cons. cbn [app dequeue]. destruct (get_queued_threads q) as [|t rest].
    + by rewrite IH.
    + destruct IH as (q' & -> & Hq & Hp & Hl). eexists. split; [done|].
      split; [by rewrite queued_cons|]. split; [cbn; by rewrite Hp|].
      intros p' x. rewrite !in_level_cons. naive_solver.
  - rewrite queued_cons. cbn [app dequeue]. eexists. split; [done|].
    split; [done|]. split; [done|]. intros p' x. rewrite !in_level_cons, elem_of_cons. naive_solver.
Qed.

Lemma enqueue_no_level q t p : p ∉ q.*1 -> enqueue q t p = (false, q).
Proof.
  induction q as [|[p' ts] q IH]; cbn; [done|]. rewrite not_elem_of_cons. intros [Hne Hq].
  rewrite decide_False by done. by rewrite IH.
Qed.

(** Where [enqueue] puts the thread: at the end of its level, once. *)
Lemma enqueue_spec q t p :
  p ∈ q.*1 -> (forall p', in_level q p' t -> p' = p) -> NoDup q.*1 -> NoDup (get_queued_threads q) ->
  exists q', enqueue q t p = (true, q') /\ q'.*1 = q.*1 /\ NoDup (get_queued_threads q')
    /\ forall p' x, in_level q' p' x <-> in_level q p' x \/ (p' = p /\ x = t).
Proof.
  induction q as [|[p0 ts] q IH]; cbn [enqueue fmap list_fmap fst]; intros Hp Hlev Hnp Hnd.
  { by apply not_elem_of_nil in Hp. }
  apply NoDup_cons in Hnp as [Hp0 Hnp]. rewrite queued_cons in Hnd.
  apply NoDup_app in Hnd as (Hts & Hdis & Hq).
  destruct (decide (p0 = p)) as [->|Hne].
  - eexists. split; [done|]. split; [done|]. split.
    + rewrite queued_cons. destruct (decide (t ∈ ts)); [by apply NoDup_app|].
      apply NoDup_app. split; [apply NoDup_app; split; [done|]; split; [|apply NoDup_singleton]|split; [|done]].
      * set_solver.
      * intros x [Hx|Hx%list_elem_of_singleton]%elem_of_app; [by apply Hdis|]. subst x.
        intros (p' & Hp')%elem_of_queued. assert (p' = p) as -> by (apply Hlev; rewrite in_level_cons; auto).
        destruct Hp' as (ts' & Hin & _). apply Hp0. apply list_elem_of_fmap. by exists (p, ts').
    + intros p' x. rewrite !in_level_cons. destruct (decide (t ∈ ts)); [naive_solver|].
      rewrite elem_of_app, list_elem_of_singleton. naive_solver.
  - apply elem_of_cons in Hp as [->|Hp]; [done|].
    destruct IH as (q' & -> & Hq1 & Hnd' & Hl); [done| |done|done|].
    { intros p' Hp'. apply Hlev. rewrite in_level_cons. auto. }
    eexists. split; [done|]. split; [cbn; by rewrite Hq1|]. split.
    + rewrite queued_cons. apply NoDup_app. split; [done|]. split; [|done].
      intros x Hx (p' & [Hp'|[-> ->]]%Hl)%elem_of_queued.
      * apply (Hdis x Hx). apply elem_of_queued. eauto.
      * apply Hne. symmetry. symmetry. apply Hlev. rewrite in_level_cons. auto.
    + intros p' x. rewrite !in_level_cons, Hl. naive_solver.
Qed.

Lemma remove_first_spec t ts :
  NoDup ts -> NoDup (remove_first t ts) /\ forall x, x ∈ remove_first t ts <-> x ∈ ts /\ x <> t.
Proof.
  induction 1 as [|t' ts Ht Hts [IH1 IH2]]; cbn.
  - split; [constructor|]. set_solver.
  - case_decide; subst.
    + split; [done|]. set_solver.
    + split; [constructor; [|done]; rewrite IH2; naive_solver|].
      intros x. rewrite !elem_of_cons, IH2. naive_solver.
Qed.

(** [remove] takes out the one queued thread with the handle. *)
Lemma remove_spec h q id :
  NoDup (get_queued_threads q) ->
  (forall a b, h a = Some id -> h b = Some id -> a = b) ->
  (exists t q', remove h q id = (Some t, q') /\ h t = Some id /\ t ∈ get_queued_threads q
     /\ q'.*1 = q.*1 /\ NoDup (get_queued_threads q')
     /\ forall p x, in_level q' p x <-> in_level q p x /\ x <> t)
  \/ (remove h q id = (None, q) /\ forall t, t ∈ get_queued_threads q -> h t <> Some id).
Proof.
  intros Hnd Hinj. induction q as [|[p ts] q IH]; cbn [remove].
  { right. split; [done|]. intros t H. by apply not_elem_of_nil in H. }
  rewrite queued_cons in *. apply NoDup_app in Hnd as (Hts & Hdis & Hq).
  destruct (list_find _ ts) as [[i t]|] eqn:Hf.
  - left. apply list_find_Some in Hf as (Hi & Ht & _).
    assert (t ∈ ts) as Hin by (apply list_elem_of_lookup; eauto).
    destruct (remove_first_spec t ts Hts) as [Hn Hm].
    exists t. eexists. split; [done|]. split; [done|]. split; [set_solver|]. split; [done|]. split.
    + rewrite queued_cons. apply NoDup_app. split; [done|]. split; [|done].
      intros x Hx. apply Hm in Hx as [Hx _]. by apply Hdis.
    + intros p' x. rewrite !in_level_cons, Hm. split.
      * intros [?|Hx]; [naive_solver|]. split; [by right|]. intros ->.
        apply (Hdis t Hin). apply elem_of_queued. eauto.
      * naive_solver.
  - apply list_find_None in Hf. rewrite Forall_forall in Hf.
    destruct (IH Hq) as [(t & q' & -> & Hh & Hin & Hq1 & Hn & Hl)|[-> Hno]].
    + left. exists t. eexists. split; [done|]. split; [done|]. split; [set_solver|].
      split; [cbn; by rewrite Hq1|]. split.
      * rewrite queued_cons. apply NoDup_app. split; [done|]. split; [|done].
        intros x Hx (p' & [Hp' _]%Hl)%elem_of_queued. apply (Hdis x Hx), elem_of_queued. eauto.
      * intros p' x. rewrite !in_level_cons, Hl. split; [|naive_solver].
        intros [[-> Hx]|Hx]; [|naive_solver]. split; [auto|]. intros ->. by apply (Hf t).
    + right. split; [done|]. intros t [Ht|Ht]%elem_of_app; [|by apply Hno]. by apply Hf.
Qed.
#[global] Arguments get_queued_threads q : simpl never.
End MultiLevelQueue.

Module Sched.
Import MultiLevelQueue.

Record Scheduler := mkSched {
  threads : gmap tptr Thread;           (* the thread objects *)
  ready_queue : queue;
  thread_garbage_bin : list tptr;
  running_thread : tptr;
  idle_thread : tptr;
  garbage_collector_thread : tptr;
  switches : list (tptr * tptr);        (* calls of switch_to_thread(old, new), latest first *)
}.

Definition with_threads (s : Scheduler) (ts : gmap tptr Thread) : Scheduler :=
  mkSched ts (ready_queue s) (thread_garbage_bin s) (running_thread s) (idle_thread s)
    (garbage_collector_thread s) (switches s).

Definition with_queue (s : Scheduler) (q : queue) : Scheduler :=
  mkSched (threads s) q (thread_garbage_bin s) (running_thread s) (idle_thread s)
    (garbage_collector_thread s) (switches s).

Definition with_garbage (s : Scheduler) (g : list tptr) : Scheduler :=
  mkSched (threads s) (ready_queue s) g (running_thread s) (idle_thread s)
    (garbage_collector_thread s) (switches s).

Definition switch_to (s : Scheduler) (next : tptr) : Scheduler :=
  mkSched (threads s) (ready_queue s) (thread_garbage_bin s) next (idle_thread s)
    (garbage_collector_thread s) ((running_thread s, next) :: switches s).

Definition set_thread_state (t : Thread) (st : ThreadState) : Thread :=
  mkThread (handle t) st (policy t) (kernel_stacks t).

Definition add_kernel_stacks (t : Thread) (n : Z) : Thread :=
  mkThread (handle t) (state t) (policy t) (kernel_stacks t + n).

(** [thread->state = st] *)
Definition set_state (s : Scheduler) (t : tptr) (st : ThreadState) : option Scheduler :=
  th ← threads s !! t;
  Some (with_threads s (<[t := set_thread_state th st]> (threads s))).

Definition setup_kernel_stack (s : Scheduler) (t : tptr) : option Scheduler :=
  th ← threads s !! t;
  Some (with_threads s (<[t := add_kernel_stacks th 1]> (threads s))).

Definition free_kernel_stack (s : Scheduler) (t : tptr) : option Scheduler :=
  th ← threads s !! t;
  Some (with_threads s (<[t := add_kernel_stacks th (-1)]> (threads s))).

Definition thread_state (s : Scheduler) (t : tptr) : option ThreadState :=
  state <$> threads s !! t.

(** [_ready_queue->enqueue(thread)] and [_ready_queue->remove(handle)] *)
Definition rq_enqueue (s : Scheduler) (t : tptr) : option (bool * Scheduler) :=
  th ← threads s !! t;
  let '(ok, q) := enqueue (ready_queue s) t (policy th) in Some (ok, with_queue s q).

Definition handle_of (s : Scheduler) (t : tptr) : option Z := handle <$> threads s !! t.

Definition rq_remove (s : Scheduler) (h : Z) : option tptr * Scheduler :=
  let '(r, q) := remove (handle_of s) (ready_queue s) h in (r, with_queue s q).

Definition next_scheduled_thread (s : Scheduler) : tptr * Scheduler :=
  match thread_garbage_bin s with
  | _ :: _ => (garbage_collector_thread s, s)
  | [] =>
      match dequeue (ready_queue s) with
      | (Some t, q) => (t, with_queue s q)
      | (None, q) => (idle_thread s, with_queue s q)
      end
  end.

(** What happens to the thread that is switched away from. *)
Definition retire_running (s : Scheduler) : option Scheduler :=
  if decide (running_thread s = idle_thread s) then set_state s (idle_thread s) BLOCKED
  else if decide (running_thread s = garbage_collector_thread s)
  then set_state s (garbage_collector_thread s) BLOCKED
  else
    st ← thread_state s (running_thread s);
    match st with
    | NONE | CREATED | READY => Some s
    | RUNNING | BLOCK_PENDING =>
        '(ok, s') ← rq_enqueue s (running_thread s);
        if (ok : bool) && bool_decide (st = RUNNING)
        then set_state s' (running_thread s') READY else Some s'
    | BLOCKED | STOPPED => Some s
    end.

Definition perform_context_switch (s0 : Scheduler) : option Scheduler :=
  let '(next, s) := next_scheduled_thread s0 in
  st ← thread_state s (running_thread s);
  if decide (next = idle_thread s /\ (running_thread s = idle_thread s \/ st = RUNNING))
  then Some s
  else if decide (running_thread s = garbage_collector_thread s /\ next = garbage_collector_thread s)
  then Some s
  else
    s ← retire_running s;
    let s := switch_to s next in
    st' ← thread_state s next;
    set_state s next (if decide (st' = BLOCK_PENDING) then BLOCK_PENDING else RUNNING).

(** ** The scheduling API *)

Definition init (s : Scheduler) (bootstrap idle terminator : tptr) : option Scheduler :=
  let s := mkSched (threads s) [(LOW_LATENCY, []); (NORMAL, []); (BACKGROUND, [])]
             (thread_garbage_bin s) bootstrap idle terminator (switches s) in
  s ← setup_kernel_stack s terminator;
  s ← set_state s terminator BLOCKED;
  s ← setup_kernel_stack s idle;
  set_state s idle BLOCKED.

(** [None] as the thread argument is the null pointer. *)
Definition schedule (s : Scheduler) (thread : option tptr) : option (bool * Scheduler) :=
  match thread with
  | None => Some (false, s)
  | Some t =>
      th ← threads s !! t;
      if decide (state th <> CREATED) then Some (false, s)
      else if decide (policy th = P_NONE) then Some (false, s)
      else
        s ← setup_kernel_stack s t;
        '(ok, s) ← rq_enqueue s t;
        if ok : bool then Some (true, s)
        else s ← free_kernel_stack s t; Some (false, s)
  end.

Definition preempt_running_thread (s : Scheduler) : option Scheduler := perform_context_switch s.

Definition mark_as_block_pending (s : Scheduler) : option Scheduler :=
  set_state s (running_thread s) BLOCK_PENDING.

(** Takes the thread off the processor or out of the ready queue. *)
Definition deschedule (s : Scheduler) (t : tptr) : option Scheduler :=
  if decide (t <> running_thread s) then
    th ← threads s !! t; Some (rq_remove s (handle th)).2
  else perform_context_switch s.

Definition block (s : Scheduler) (thread : option tptr) : option Scheduler :=
  match thread with
  | None => Some s
  | Some t =>
      st ← thread_state s t;
      if decide (st <> BLOCK_PENDING) then Some s
      else s ← set_state s t BLOCKED; deschedule s t
  end.

Definition block_running (s : Scheduler) : option Scheduler := block s (Some (running_thread s)).

Definition unblock (s : Scheduler) (thread : option tptr) : option Scheduler :=
  match thread with
  | None => Some s
  | Some t =>
      st ← thread_state s t;
      if decide (st <> BLOCKED /\ st <> BLOCK_PENDING) then Some s
      else if decide (t = running_thread s) then set_state s t RUNNING
      else
        '(ok, s) ← rq_enqueue s t;
        if ok : bool then set_state s t READY else Some s
  end.

Definition stop (s : Scheduler) (thread : option tptr) : option Scheduler :=
  match thread with
  | None => Some s
  | Some t =>
      s ← set_state s t STOPPED;
      deschedule (with_garbage s (thread_garbage_bin s ++ [t])) t
  end.

Definition stop_running (s : Scheduler) : option Scheduler := stop s (Some (running_thread s)).


(** ** The scheduler's invariant *)

Definition queued (s : Scheduler) : list tptr := get_queued_threads (ready_queue s).

(** The states a thread in the ready queue can have: [schedule] enqueues without leaving
    CREATED, a preempted BLOCK_PENDING thread keeps that state. *)
Definition queue_state (st : ThreadState) : Prop :=
  st = CREATED \/ st = READY \/ st = BLOCK_PENDING.

(** The states that promise a thread will run again. *)
Definition live_state (st : ThreadState) : Prop := st = READY \/ st = BLOCK_PENDING.

(** [inv lim s]: the thread objects and the ready queue agree, where [lim] are the
    threads in hand: on the processor or on their way to or from it. *)
Record inv (lim : tptr -> Prop) (s : Scheduler) : Prop := {
  inv_levels : (ready_queue s).*1 = [LOW_LATENCY; NORMAL; BACKGROUND];
  inv_nodup : NoDup (queued s);
  inv_queued : forall p t, in_level (ready_queue s) p t ->
    exists th, threads s !! t = Some th /\ policy th = p /\ queue_state (state th);
  inv_lim : forall t, lim t -> t ∉ queued s;
  inv_live : forall t th, threads s !! t = Some th -> live_state (state th) ->
    lim t \/ t ∈ queued s;
  inv_idle : exists th, threads s !! idle_thread s = Some th /\ policy th = P_NONE;
  inv_gct : exists th, threads s !! garbage_collector_thread s = Some th /\ policy th = P_NONE;
  inv_handles : forall a b ta tb, threads s !! a = Some ta -> threads s !! b = Some tb ->
    handle ta = handle tb -> a = b;
  inv_switches : Forall (fun '(old, new) => old <> new) (switches s);
}.

(** The invariant between two operations: exactly the running thread is in hand. *)
Record wf (s : Scheduler) : Prop := {
  wf_inv : inv (fun t => t = running_thread s) s;
  wf_running : exists th, threads s !! running_thread s = Some th /\ state th <> READY /\
    (running_thread s = idle_thread s \/ running_thread s = garbage_collector_thread s
     \/ policy th <> P_NONE);
}.

(** *** Changing the state of one thread *)

Definition put_state (s : Scheduler) (t : tptr) (th : Thread) (st : ThreadState) : Scheduler :=
  with_threads s (<[t := set_thread_state th st]> (threads s)).

Lemma set_state_eq s t st th :
  threads s !! t = Some th -> set_state s t st = Some (put_state s t th st).
Proof. intros H. unfold set_state. by rewrite H. Qed.

Lemma put_state_inv_l (ts : gmap tptr Thread) t th st t' th' :
  ts !! t = Some th -> <[t := set_thread_state th st]> ts !! t' = Some th' ->
  exists th0, ts !! t' = Some th0 /\ handle th' = handle th0 /\ policy th' = policy th0
    /\ (t' <> t -> th' = th0) /\ (t' = t -> state th' = st).
Proof.
  intros Ht. destruct (decide (t' = t)) as [->|Hne].
  - rewrite lookup_insert_eq. intros [= <-]. exists th. naive_solver.
  - rewrite lookup_insert_ne by done. intros H. exists th'. naive_solver.
Qed.

Lemma put_state_keep (ts : gmap tptr Thread) t th st t' th0 :
  ts !! t = Some th -> ts !! t' = Some th0 ->
  exists th', <[t := set_thread_state th st]> ts !! t' = Some th' /\ policy th' = policy th0
    /\ handle th' = handle th0 /\ (t' <> t -> th' = th0) /\ (t' = t -> state th' = st).
Proof.
  intros Ht H. destruct (decide (t' = t)) as [->|Hne].
  - rewrite lookup_insert_eq. eexists. naive_solver.
  - rewrite lookup_insert_ne by done. naive_solver.
Qed.

(** A thread that gets a live state has to be in hand or queued; a queued thread keeps
    a queue state. *)
Lemma put_state_inv lim s t st th :
  inv lim s -> threads s !! t = Some th ->
  (t ∈ queued s -> queue_state st) -> (live_state st -> lim t \/ t ∈ queued s) ->
  inv lim (put_state s t th st).
Proof.
  intros [] Ht Hq Hl. split; cbn; try done.
  - intros p x Hx. destruct (inv_queued0 p x Hx) as (thx & Hthx & Hpx & Hsx).
    destruct (put_state_keep _ _ _ st _ _ Ht Hthx) as (th' & ? & Hpol & _ & Hne & He).
    exists th'. split; [done|]. split; [by rewrite Hpol|].
    destruct (decide (x = t)) as [->|]; [|by rewrite Hne].
    rewrite He by done. apply Hq. apply elem_of_queued. eauto.
  - intros x thx Hx Hst. destruct (put_state_inv_l _ _ _ _ _ _ Ht Hx) as (th0 & H0 & _ & _ & Hne & He).
    destruct (decide (x = t)) as [->|Hn]; [apply Hl; rewrite <- He; done|].
    rewrite Hne in Hst by done. eauto.
  - destruct inv_idle0 as (thr & Hthr & Hc).
    destruct (put_state_keep _ _ _ st _ _ Ht Hthr) as (th' & ? & Hpol & _). exists th'.
    by rewrite Hpol.
  - destruct inv_gct0 as (thr & Hthr & Hc).
    destruct (put_state_keep _ _ _ st _ _ Ht Hthr) as (th' & ? & Hpol & _). exists th'.
    by rewrite Hpol.
  - intros a b ta tb Ha Hb.
    destruct (put_state_inv_l _ _ _ _ _ _ Ht Ha) as (ta0 & Ha0 & -> & _).
    destruct (put_state_inv_l _ _ _ _ _ _ Ht Hb) as (tb0 & Hb0 & -> & _). eauto.
Qed.

(** Threads leave the hand when their state promises nothing. *)
Lemma inv_release (lim lim' : tptr -> Prop) s :
  inv lim s -> (forall x, lim' x -> lim x) ->
  (forall x th, lim x -> threads s !! x = Some th -> live_state (state th) -> lim' x) ->
  inv lim' s.
Proof.
  intros [] Hsub Hrel. split; try done; [naive_solver|].
  intros t th Ht Hs. destruct (inv_live0 t th Ht Hs); [left|right]; eauto.
Qed.

(** *** The ready queue's operations *)

Lemma in_levels_policy lim s p : inv lim s -> p ∈ (ready_queue s).*1 <-> p <> P_NONE.
Proof. intros Hwf. rewrite (inv_levels lim s Hwf). destruct p; set_solver. Qed.

Lemma levels_nodup lim s : inv lim s -> NoDup (ready_queue s).*1.
Proof. intros Hwf. rewrite (inv_levels lim s Hwf). repeat constructor; set_solver. Qed.

(** Enqueueing moves a thread with a queue state from the hand into the queue; without
    a policy it is refused. *)
Lemma rq_enqueue_inv lim s t th :
  inv lim s -> threads s !! t = Some th -> queue_state (state th) ->
  if decide (policy th = P_NONE) then rq_enqueue s t = Some (false, s)
  else exists q', rq_enqueue s t = Some (true, with_queue s q')
       /\ (forall x, x ∈ get_queued_threads q' <-> x ∈ queued s \/ x = t)
       /\ inv (fun x => lim x /\ x <> t) (with_queue s q').
Proof.
  intros Hinv Ht Hst. unfold rq_enqueue. rewrite Ht. cbn. case_decide as Hp.
  - rewrite enqueue_no_level by (rewrite in_levels_policy by done; naive_solver).
    by destruct s.
  - destruct (enqueue_spec (ready_queue s) t (policy th)) as (q' & -> & Hq & Hn & Hl).
    { by eapply in_levels_policy. }
    { intros p' Hp'. destruct (inv_queued _ _ Hinv p' t Hp') as (th' & ? & <- & _). by simplify_eq. }
    { by eapply levels_nodup. } { apply Hinv. }
    assert (forall x, x ∈ get_queued_threads q' <-> x ∈ queued s \/ x = t) as Hmem.
    { intros x. unfold queued. rewrite !elem_of_queued. split.
      - intros (p & [?|[_ ->]]%Hl); eauto.
      - intros [[p Hx]|Hx]; [exists p|exists (policy th)]; apply Hl; auto. }
    exists q'. split; [done|]. split; [done|].
    destruct Hinv. split; cbn; try done.
    + by rewrite Hq.
    + intros p x [Hx|[-> ->]]%Hl; [eauto|]. eauto.
    + intros x [Hx Hne] [?|?]%Hmem; [|done]. by apply (inv_lim0 x Hx).
    + intros x thx Hx Hs. unfold queued. cbn. rewrite Hmem.
      destruct (decide (x = t)); [auto|]. destruct (inv_live0 x thx Hx Hs); auto.
Qed.

(** Dequeueing takes the first thread into the hand. *)
Lemma dequeue_inv lim s t rest :
  inv lim s -> queued s = t :: rest ->
  exists q', dequeue (ready_queue s) = (Some t, q') /\ get_queued_threads q' = rest
    /\ inv (fun x => lim x \/ x = t) (with_queue s q').
Proof.
  intros [] Hq. pose proof (dequeue_spec (ready_queue s)) as Hd. unfold queued in *. rewrite Hq in *.
  destruct Hd as (q' & Hd & Hq' & Hlev & Hl). exists q'. split; [done|]. split; [done|].
  apply NoDup_cons in inv_nodup0 as [Ht Hnd].
  split; cbn; try done.
  - by rewrite Hlev.
  - unfold queued. cbn. by rewrite Hq'.
  - intros p x Hx. by apply inv_queued0, Hl.
  - intros x [Hx|Hx]; unfold queued; cbn; rewrite Hq'; [|by subst x].
    intros Hr. apply (inv_lim0 x Hx). by right.
  - intros x thx Hx Hs. unfold queued. cbn. rewrite Hq'.
    destruct (inv_live0 x thx Hx Hs) as [|[->|]%elem_of_cons]; auto.
Qed.

(** [_ready_queue->remove] takes a thread into the hand; a thread that is not
    queued only joins it. *)
Lemma rq_remove_inv lim s t th :
  inv lim s -> threads s !! t = Some th ->
  exists q', (rq_remove s (handle th)).2 = with_queue s q'
    /\ inv (fun x => lim x \/ x = t) (with_queue s q').
Proof.
  intros Hinv Ht. unfold rq_remove.
  assert (handle_of s t = Some (handle th)) as Hh by (unfold handle_of; by rewrite Ht).
  destruct (remove_spec (handle_of s) (ready_queue s) (handle th))
    as [(x & q' & -> & Hx & Hin & Hlev & Hnd & Hl)|[-> Hno]]; cbn.
  { apply Hinv. }
  { intros a b. unfold handle_of. intros (ta & Ha & Ea)%fmap_Some (tb & Hb & Eb)%fmap_Some.
    apply (inv_handles _ s Hinv a b ta tb Ha Hb). congruence. }
  - assert (x = t) as ->.
    { unfold handle_of in Hx. apply fmap_Some in Hx as (tx & Hx & Ex).
      by apply (inv_handles _ s Hinv x t tx th Hx Ht). }
    assert (forall y, y ∈ get_queued_threads q' <-> y ∈ queued s /\ y <> t) as Hmem.
    { intros y. unfold queued. rewrite !elem_of_queued. setoid_rewrite Hl. naive_solver. }
    exists q'. split; [done|]. destruct Hinv. split; cbn; try done.
    + by rewrite Hlev.
    + intros p y Hy. apply Hl in Hy as [Hy _]. eauto.
    + intros y Hy [Hyq Hne]%Hmem. destruct Hy as [Hy|]; [|done]. by apply (inv_lim0 y Hy).
    + intros y thy Hy Hs. unfold queued. cbn. rewrite Hmem.
      destruct (decide (y = t)); [auto|]. destruct (inv_live0 y thy Hy Hs); auto.
  - exists (ready_queue s). split; [done|]. destruct s as [ts q g r i c sw]. cbn in *.
    destruct Hinv. split; cbn in *; try done.
    + intros y [Hy| ->]; [by apply inv_lim0|]. intros Hq. by apply (Hno t Hq).
    + intros y thy Hy Hs. destruct (inv_live0 y thy Hy Hs); auto.
Qed.

(** [remove] only looks at the handles, so it commutes with a change of state. *)
Lemma remove_ext h h' q id : (forall t, h t = h' t) -> remove h q id = remove h' q id.
Proof.
  intros Hh. induction q as [|[p ts] q IH]; cbn; [done|].
  assert (list_find (fun t => h t = Some id) ts = list_find (fun t => h' t = Some id) ts) as ->.
  { apply list_find_ext. intros t. by rewrite Hh. }
  by rewrite IH.
Qed.

Lemma rq_remove_put_state s t th st h :
  threads s !! t = Some th ->
  (rq_remove (put_state s t th st) h).2 = put_state (rq_remove s h).2 t th st.
Proof.
  intros Ht. unfold rq_remove. cbn.
  rewrite (remove_ext (handle_of (put_state s t th st)) (handle_of s)).
  - by destruct (remove _ _ _).
  - intros x. unfold handle_of, put_state. cbn. destruct (decide (x = t)) as [->|].
    + by rewrite lookup_insert_eq, Ht.
    + by rewrite lookup_insert_ne.
Qed.

(** ** The context switch *)

Lemma no_policy_not_queued lim s t th :
  inv lim s -> threads s !! t = Some th -> policy th = P_NONE -> t ∉ queued s.
Proof.
  intros Hinv Ht Hp (p & Hl)%elem_of_queued.
  destruct (inv_queued _ _ Hinv p t Hl) as (th' & Ht' & Hp' & _). simplify_eq.
  apply (in_levels_policy lim s (policy th)); [done| |done].
  destruct Hl as (ts & Hin & _). apply list_elem_of_fmap. by exists (policy th, ts).
Qed.

Lemma inv_extend lim s t : inv lim s -> t ∉ queued s -> inv (fun x => lim x \/ x = t) s.
Proof.
  intros [] Ht. split; try done; [intros x [?| ->]; auto|].
  intros x th Hx Hs. destruct (inv_live0 x th Hx Hs); auto.
Qed.

Lemma inv_iff (lim lim' : tptr -> Prop) s : (forall x, lim x <-> lim' x) -> inv lim s -> inv lim' s.
Proof.
  intros Hl Hi. apply (inv_release lim); [done|intros x; apply Hl|]. intros x th Hx _ _. by apply Hl.
Qed.

Lemma put_state_lookup s t th st x :
  threads (put_state s t th st) !! x = if decide (t = x) then Some (set_thread_state th st) else threads s !! x.
Proof.
  unfold put_state. cbn. rewrite lookup_insert. done.
Qed.

(** What a call of [retire_running] does to the thread it retires. *)
Record retired (s s1 : Scheduler) (st : ThreadState) : Prop := {
  ret_frame : running_thread s1 = running_thread s /\ idle_thread s1 = idle_thread s
    /\ garbage_collector_thread s1 = garbage_collector_thread s
    /\ thread_garbage_bin s1 = thread_garbage_bin s /\ switches s1 = switches s;
  ret_others : forall x, x <> running_thread s -> threads s1 !! x = threads s !! x;
  ret_live : running_thread s <> idle_thread s -> running_thread s <> garbage_collector_thread s ->
    st = RUNNING \/ st = BLOCK_PENDING ->
    thread_state s1 (running_thread s) = Some (if decide (st = RUNNING) then READY else st)
    /\ running_thread s ∈ queued s1;
  ret_dead : st = BLOCKED \/ st = STOPPED -> ready_queue s1 = ready_queue s;
}.

(** Blocking the idle or the collector thread takes it out of the hand. *)
Lemma retire_background lim s th :
  inv lim s -> threads s !! running_thread s = Some th -> lim (running_thread s) ->
  policy th = P_NONE ->
  inv (fun x => lim x /\ x <> running_thread s) (put_state s (running_thread s) th BLOCKED).
Proof.
  intros Hinv Ht Hlim Hp.
  apply (inv_release lim).
  - apply put_state_inv; [done|done| |intros [?|?]; done].
    intros Hq. exfalso. by apply (no_policy_not_queued lim s _ th Hinv Ht Hp).
  - naive_solver.
  - intros x thx Hx Hthx Hs. split; [done|]. intros ->. rewrite put_state_lookup, decide_True in Hthx by done.
    simplify_eq. by destruct Hs.
Qed.

(** Enqueueing a thread and giving it a queue state, in the order of the code: the
    queue first. *)
Lemma enqueue_as_inv lim s t th st :
  inv lim s -> threads s !! t = Some th -> queue_state st -> policy th <> P_NONE ->
  exists q', rq_enqueue s t = Some (true, with_queue s q')
    /\ (forall x, x ∈ get_queued_threads q' <-> x ∈ queued s \/ x = t)
    /\ inv (fun x => lim x /\ x <> t) (put_state (with_queue s q') t th st).
Proof.
  intros Hinv Ht Hst Hp.
  assert (inv (fun x => lim x \/ (x = t /\ t ∉ queued s)) s) as Hinv'.
  { destruct (decide (t ∈ queued s)) as [Hq|Hq].
    - eapply inv_iff; [|exact Hinv]. naive_solver.
    - eapply inv_iff; [|exact (inv_extend _ _ t Hinv Hq)]. naive_solver. }
  assert (inv (fun x => lim x \/ (x = t /\ t ∉ queued s)) (put_state s t th st)) as Hput.
  { apply put_state_inv; [done|done|done|]. intros _. destruct (decide (t ∈ queued s)); auto. }
  pose proof (rq_enqueue_inv _ _ t (set_thread_state th st) Hput) as He.
  rewrite put_state_lookup, decide_True in He by done. specialize (He eq_refl Hst).
  cbn in He. rewrite decide_False in He by done. destruct He as (q' & He & Hmem & Hq).
  exists q'. split; [|split; [exact Hmem|]].
  - unfold rq_enqueue in *. rewrite put_state_lookup, decide_True in He by done.
    rewrite Ht. cbn in *. destruct (enqueue _ _ _) as [ok q'']. by simplify_eq.
  - eapply inv_iff; [|exact Hq]. cbn. naive_solver.
Qed.

Lemma retire_running_spec lim s th :
  inv lim s -> lim (running_thread s) ->
  threads s !! running_thread s = Some th -> state th <> READY ->
  (running_thread s = idle_thread s \/ running_thread s = garbage_collector_thread s \/ policy th <> P_NONE) ->
  exists s1, retire_running s = Some s1 /\ retired s s1 (state th)
    /\ inv (fun x => lim x /\ x <> running_thread s) s1.
Proof.
  intros Hinv Hlim Ht Hst Hpol. unfold retire_running.
  destruct (inv_idle _ _ Hinv) as (thi & Hi & Hpi). destruct (inv_gct _ _ Hinv) as (thg & Hg & Hpg).
  case_decide as Hri; [|case_decide as Hrg].
  1,2: rewrite <- ?Hri, <- ?Hrg in *; simplify_eq; rewrite (set_state_eq s _ _ th) by done;
    eexists; (split; [done|]); (split; [|by apply retire_background]);
    split; cbn; [done| |congruence|done]; intros x Hx; by rewrite lookup_insert_ne.
  destruct Hpol as [?|[?|Hpol]]; [done|done|].
  unfold thread_state. rewrite Ht. cbn.
  assert (forall s', s' = s -> ~ live_state (state th) -> state th <> RUNNING ->
    exists s1, Some s' = Some s1 /\ retired s s1 (state th)
      /\ inv (fun x => lim x /\ x <> running_thread s) s1) as Hsame.
  { intros s' -> Hnl Hnr. exists s. split; [done|]. split.
    - split; [done|done| |done]. intros _ _ [?|Hs]; [done|]. exfalso. apply Hnl. by right.
    - apply (inv_release lim); [done|naive_solver|]. intros x thx Hx Hthx Hl. split; [done|].
      intros ->. by simplify_eq. }
  destruct (state th) eqn:Hs; try (apply Hsame; [done|intros [?|?]; done|done]).
  - destruct (enqueue_as_inv lim s _ th READY Hinv Ht) as (q' & -> & Hmem & Hinv').
    { right; by left. } { done. }
    cbn. rewrite (set_state_eq _ _ _ th) by done. eexists. split; [done|]. split; [|done].
    split; cbn; [done| | |intros [?|?]; done].
    + intros x Hx. by rewrite lookup_insert_ne.
    + intros _ _ _. unfold thread_state, put_state. cbn. rewrite lookup_insert_eq. split; [done|].
      apply Hmem. auto.
  - destruct (enqueue_as_inv lim s _ th BLOCK_PENDING Hinv Ht) as (q' & -> & Hmem & Hinv').
    { right; by right. } { done. }
    cbn. eexists. split; [done|].
    assert (put_state (with_queue s q') (running_thread s) th BLOCK_PENDING = with_queue s q') as E.
    { unfold put_state, with_threads, with_queue. cbn. f_equal. apply insert_id. rewrite Ht.
      destruct th. cbn in *. by subst. }
    split; [|by rewrite <- E].
    split; cbn; [done|done| |intros [?|?]; done].
    intros _ _ _. unfold thread_state. cbn. rewrite Ht. cbn. rewrite Hs. split; [done|].
    apply Hmem. auto.
Qed.

(** The thread [next_scheduled_thread] chooses. *)
Definition next_choice (s : Scheduler) : tptr :=
  match thread_garbage_bin s with
  | _ :: _ => garbage_collector_thread s
  | [] => match queued s with t :: _ => t | [] => idle_thread s end
  end.

(** A completed switch from the running thread, which had state [st], to [next]. *)
Record switched (s s' : Scheduler) (st : ThreadState) (next : tptr) : Prop := {
  sw_running : running_thread s' = next /\ next <> running_thread s;
  sw_trace : switches s' = (running_thread s, next) :: switches s;
  sw_state : thread_state s' next =
    Some (if decide (thread_state s next = Some BLOCK_PENDING) then BLOCK_PENDING else RUNNING);
  sw_others : forall x, x <> next -> x <> running_thread s -> threads s' !! x = threads s !! x;
  sw_live : running_thread s <> idle_thread s -> running_thread s <> garbage_collector_thread s ->
    st = RUNNING \/ st = BLOCK_PENDING ->
    thread_state s' (running_thread s) = Some (if decide (st = RUNNING) then READY else st)
    /\ running_thread s ∈ queued s';
  sw_dead : st = BLOCKED \/ st = STOPPED -> running_thread s ∉ queued s';
  sw_frame : idle_thread s' = idle_thread s /\ garbage_collector_thread s' = garbage_collector_thread s
    /\ thread_garbage_bin s' = thread_garbage_bin s;
}.

(** Choosing the next thread takes it into the hand. *)
Lemma next_scheduled_inv s :
  wf s -> next_choice s <> running_thread s ->
  exists s1, next_scheduled_thread s = (next_choice s, s1)
    /\ (s1 = s \/ exists q', s1 = with_queue s q')
    /\ (next_choice s = idle_thread s -> s1 = s)
    /\ inv (fun x => x = running_thread s \/ x = next_choice s) s1.
Proof.
  intros [Hinv _] Hne. unfold next_scheduled_thread, next_choice in *.
  destruct (inv_idle _ _ Hinv) as (thi & Hi & Hpi). destruct (inv_gct _ _ Hinv) as (thg & Hg & Hpg).
  destruct (thread_garbage_bin s) as [|g bin] eqn:Hb.
  - destruct (queued s) as [|t rest] eqn:Hq.
    + pose proof (dequeue_spec (ready_queue s)) as Hd. unfold queued in Hq. rewrite Hq in Hd.
      rewrite Hd. exists (with_queue s (ready_queue s)).
      assert (with_queue s (ready_queue s) = s) as E by (by destruct s). rewrite E.
      split; [done|]. split; [by left|]. split; [done|].
      apply inv_extend; [done|]. unfold queued. rewrite Hq. apply not_elem_of_nil.
    + destruct (dequeue_inv _ s t rest Hinv Hq) as (q' & -> & _ & Hinv'). eexists. split; [done|].
      split; [eauto|]. split; [|done]. intros ->.
      exfalso. apply (no_policy_not_queued _ s _ thi Hinv Hi Hpi). rewrite Hq. by left.
  - exists s. split; [done|]. split; [by left|]. split; [done|].
    apply inv_extend; [done|]. by eapply no_policy_not_queued.
Qed.

Lemma perform_context_switch_spec s th :
  wf s -> threads s !! running_thread s = Some th ->
  exists s', perform_context_switch s = Some s' /\ wf s' /\
    ((next_choice s = running_thread s \/ (next_choice s = idle_thread s /\ state th = RUNNING)) /\ s' = s
     \/ switched s s' (state th) (next_choice s)).
Proof.
  intros Hwf Ht. pose proof Hwf as [Hinv (th' & Ht' & Hst & Hpol)]. simplify_eq.
  unfold perform_context_switch.
  destruct (decide (next_choice s = running_thread s)) as [Hself|Hne].
  { (* idle to idle, or collector to collector *)
    assert (next_scheduled_thread s = (running_thread s, s)
      /\ (running_thread s = idle_thread s \/ running_thread s = garbage_collector_thread s)) as [-> Hr].
    { unfold next_scheduled_thread, next_choice in *.
      destruct (thread_garbage_bin s); [|by rewrite Hself; auto].
      pose proof (dequeue_spec (ready_queue s)) as Hd. unfold queued in *.
      destruct (get_queued_threads (ready_queue s)) as [|t rest] eqn:Hq.
      - rewrite Hd, <- Hself. split; [by destruct s|auto].
      - exfalso. apply (inv_lim _ _ Hinv t); [done|]. unfold queued. rewrite Hq. by left. }
    unfold thread_state. rewrite Ht. cbn.
    exists s. split; [|split; [done|left; auto]].
    destruct Hr as [Hr|Hr]; [rewrite decide_True by auto; done|].
    case_decide; [done|]. by rewrite decide_True. }
  destruct (next_scheduled_inv s Hwf Hne) as (s1 & -> & Hs1 & Hidle & Hinv1).
  assert (threads s1 = threads s /\ running_thread s1 = running_thread s /\ idle_thread s1 = idle_thread s
    /\ garbage_collector_thread s1 = garbage_collector_thread s /\ switches s1 = switches s
    /\ thread_garbage_bin s1 = thread_garbage_bin s)
    as (E1 & E2 & E3 & E4 & E5 & E6) by (destruct Hs1 as [->|(q' & ->)]; done).
  unfold thread_state. rewrite E1, E2, E3, E4, Ht. cbn.
  case_decide as Hkeep.
  { destruct Hkeep as [Hn [Hr|Hr]]; [congruence|].
    rewrite (Hidle Hn). exists s. split; [done|]. split; [done|]. left. auto. }
  rewrite decide_False by (intros [??]; congruence).
  destruct (retire_running_spec _ s1 th Hinv1) as (s2 & -> & [Rf Ro Rl Rd] & Hinv2).
  { rewrite E2. by left. } { by rewrite E1, E2. } { done. } { by rewrite E2, E3, E4. }
  cbn. destruct Rf as (F2 & F3 & F4 & F6 & F5).
  assert (exists thn, threads s2 !! next_choice s = Some thn /\ threads s !! next_choice s = Some thn
    /\ (next_choice s = idle_thread s \/ next_choice s = garbage_collector_thread s \/ policy thn <> P_NONE))
    as (thn & Hn2 & Hn & Hpn).
  { rewrite Ro, E1 by congruence. unfold next_choice.
    destruct (inv_idle _ _ Hinv) as (thi & Hi & Hpi). destruct (inv_gct _ _ Hinv) as (thg & Hg & Hpg).
    destruct (thread_garbage_bin s); [|exists thg; auto].
    destruct (queued s) as [|t rest] eqn:Hq; [exists thi; auto|].
    assert (t ∈ queued s) as (p & Hl)%elem_of_queued by (rewrite Hq; by left).
    destruct (inv_queued _ _ Hinv p t Hl) as (tht & Htt & <- & _). exists tht.
    split; [done|]. split; [done|]. right; right.
    apply (in_levels_policy _ s _ Hinv). destruct Hl as (ts & Hin & _).
    apply list_elem_of_fmap. by exists (policy tht, ts). }
  rewrite Hn2. cbn.
  rewrite (set_state_eq _ _ _ thn) by done.
  set (st' := if decide (state thn = BLOCK_PENDING) then _ else _).
  eexists. split; [done|]. split.
  - split; cbn.
    + apply (put_state_inv (fun x => x = next_choice s)); [|done| |].
      * assert (inv (fun x => x = next_choice s) s2) as Hi2
          by (eapply inv_iff; [|exact Hinv2]; cbn; intros x; rewrite E2; naive_solver).
        destruct Hi2. split; cbn; try done. constructor; [|done]. rewrite F2, E2. done.
      * intros Hq. exfalso. apply (inv_lim _ _ Hinv2 (next_choice s)); [|done].
        rewrite E2. auto.
      * auto.
    + exists (set_thread_state thn st'). unfold put_state. cbn. rewrite lookup_insert_eq.
      split; [done|].
      split; [unfold st'; destruct (decide (state thn = BLOCK_PENDING)); done|]. cbn. by rewrite F3, F4, E3, E4.
  - right. split; cbn.
    + done.
    + by rewrite F2, F5, E5, ?E2.
    + unfold thread_state, put_state. cbn. rewrite lookup_insert_eq, Hn. cbn. f_equal. unfold st'.
      destruct (decide (state thn = BLOCK_PENDING)) as [E|E];
        [rewrite decide_True by congruence|rewrite decide_False by congruence]; done.
    + intros x Hx1 Hx2. rewrite lookup_insert_ne by done. rewrite Ro, E1 by congruence. done.
    + intros H1 H2 H3. rewrite E2, E3, E4 in Rl. destruct (Rl H1 H2 H3) as [R1 R2]. split; [|done].
      unfold thread_state, put_state in *. cbn. by rewrite lookup_insert_ne.
    + intros Hd. specialize (Rd Hd). unfold queued. cbn. rewrite Rd.
      apply (inv_lim _ _ Hinv1). by left.
    + by rewrite F3, F4, F6, E3, E4, E6.
Qed.

(** ** The operations preserve the invariant *)

Definition core (th : Thread) : Z * SchedulingPolicy * ThreadState := (handle th, policy th, state th).

Definition same_threads (ts ts' : gmap tptr Thread) : Prop :=
  forall x, core <$> ts !! x = core <$> ts' !! x.

Lemma same_threads_l ts ts' x th' :
  same_threads ts ts' -> ts' !! x = Some th' ->
  exists th, ts !! x = Some th /\ handle th = handle th' /\ policy th = policy th' /\ state th = state th'.
Proof.
  intros Hs Hx. specialize (Hs x). rewrite Hx in Hs. cbn in Hs.
  apply fmap_Some in Hs as (th & Ht & E). exists th. unfold core in E. by simplify_eq.
Qed.

Lemma same_threads_sym ts ts' : same_threads ts ts' -> same_threads ts' ts.
Proof. intros H x. by rewrite H. Qed.

(** The invariant does not see the kernel stacks. *)
Lemma inv_same_threads lim s ts : same_threads (threads s) ts -> inv lim s -> inv lim (with_threads s ts).
Proof.
  intros Hs []. pose proof (same_threads_sym _ _ Hs) as Hs'. split; cbn; try done.
  - intros p t Ht. destruct (inv_queued0 p t Ht) as (th & Hth & Hp & Hst).
    destruct (same_threads_l _ _ _ _ Hs' Hth) as (th' & ? & _ & E1 & E2).
    exists th'. by rewrite E1, E2.
  - intros t th Ht Hl. destruct (same_threads_l _ _ _ _ Hs Ht) as (th' & ? & _ & _ & E).
    rewrite <- E in Hl. eauto.
  - destruct inv_idle0 as (th & Hth & Hp).
    destruct (same_threads_l _ _ _ _ Hs' Hth) as (th' & ? & _ & E & _). rewrite <- E in Hp. eauto.
  - destruct inv_gct0 as (th & Hth & Hp).
    destruct (same_threads_l _ _ _ _ Hs' Hth) as (th' & ? & _ & E & _). rewrite <- E in Hp. eauto.
  - intros a b ta tb Ha Hb.
    destruct (same_threads_l _ _ _ _ Hs Ha) as (ta' & ? & <- & _).
    destruct (same_threads_l _ _ _ _ Hs Hb) as (tb' & ? & <- & _). eauto.
Qed.

Lemma same_threads_stack (ts : gmap tptr Thread) t th n :
  ts !! t = Some th -> same_threads ts (<[t := add_kernel_stacks th n]> ts).
Proof.
  intros Ht x. rewrite lookup_insert. case_decide; [|done]. subst. by rewrite Ht.
Qed.

Lemma wf_same_threads s ts : same_threads (threads s) ts -> wf s -> wf (with_threads s ts).
Proof.
  intros Hs [Hi (th & Ht & Hst & Hp)]. split; cbn; [by apply inv_same_threads|].
  destruct (same_threads_l _ _ _ _ (same_threads_sym _ _ Hs) Ht) as (th' & ? & _ & E1 & E2).
  exists th'. by rewrite E1, E2.
Qed.

(** [schedule] of a new thread: one more kernel stack, and the thread waits at the end of
    its level, still in state CREATED. *)
Lemma schedule_spec s t th :
  wf s -> threads s !! t = Some th -> t <> running_thread s ->
  if decide (state th = CREATED /\ policy th <> P_NONE) then
    exists s', schedule s (Some t) = Some (true, s') /\ wf s' /\ t ∈ queued s'
      /\ threads s' !! t = Some (add_kernel_stacks th 1) /\ running_thread s' = running_thread s
  else schedule s (Some t) = Some (false, s).
Proof.
  intros Hwf Ht Hne. unfold schedule. rewrite Ht. cbn.
  destruct (decide (state th = CREATED /\ _)) as [[Hst Hp]|Hno].
  - rewrite decide_False by naive_solver. rewrite decide_False by done.
    unfold setup_kernel_stack. rewrite Ht. cbn.
    pose proof (same_threads_stack _ _ _ 1 Ht) as Hs.
    pose proof (wf_same_threads _ _ Hs Hwf) as Hwf1.
    set (s1 := with_threads s _) in *.
    assert (threads s1 !! t = Some (add_kernel_stacks th 1)) as Ht1 by (cbn; by rewrite lookup_insert_eq).
    pose proof (rq_enqueue_inv _ s1 t _ (wf_inv _ Hwf1) Ht1) as He. cbn in He.
    rewrite decide_False in He by done. destruct He as (q' & -> & Hmem & Hinv).
    { by left. }
    cbn. eexists. split; [done|]. split; [|split; [apply Hmem; auto|split; [|done]]].
    + split; [|exact (wf_running _ Hwf1)]. eapply inv_iff; [|exact Hinv]. cbn. naive_solver.
    + cbn. by rewrite lookup_insert_eq.
  - destruct (decide (state th <> CREATED)) as [|Hst%dec_stable]; [done|].
    rewrite decide_True; [done|]. destruct (decide (policy th = P_NONE)); [done|naive_solver].
Qed.

Lemma mark_as_block_pending_spec s :
  wf s -> exists s', mark_as_block_pending s = Some s' /\ wf s'
    /\ thread_state s' (running_thread s) = Some BLOCK_PENDING
    /\ running_thread s' = running_thread s /\ ready_queue s' = ready_queue s
    /\ forall x, x <> running_thread s -> threads s' !! x = threads s !! x.
Proof.
  intros [Hinv (th & Ht & Hst & Hp)]. unfold mark_as_block_pending. rewrite (set_state_eq _ _ _ th) by done.
  eexists. split; [done|]. split; [|split; [|split; [done|split; [done|]]]].
  - split; [apply put_state_inv; auto; by intros _; right; right|].
    cbn. rewrite lookup_insert_eq. eexists. split; [done|]. done.
  - unfold thread_state, put_state. cbn. by rewrite lookup_insert_eq.
  - intros x Hx. cbn. by rewrite lookup_insert_ne.
Qed.

(** Taking a thread that gets state BLOCKED or STOPPED off the processor or out of the queue. *)
Lemma deschedule_wf s t th st g :
  wf s -> threads s !! t = Some th -> st = BLOCKED \/ st = STOPPED ->
  exists s', deschedule (with_garbage (put_state s t th st) g) t = Some s' /\ wf s' /\ t ∉ queued s'
    /\ (t <> running_thread s -> running_thread s' = running_thread s
          /\ threads s' = threads (put_state s t th st))
    /\ (t = running_thread s -> wf (with_garbage (put_state s t th st) g) /\
          perform_context_switch (with_garbage (put_state s t th st) g) = Some s').
Proof.
  intros [Hinv (thr & Hr & Hst & Hp)] Ht Hd.
  assert (~ live_state st) as Hnl by (intros [?|?]; destruct Hd; congruence).
  assert (forall lim x, inv lim x -> inv lim (with_garbage x g)) as Hg by (intros lim x []; by split).
  unfold deschedule. case_decide as Hne; cbn in Hne.
  - cbn. rewrite lookup_insert_eq. cbn.
    change (rq_remove (with_garbage (put_state s t th st) g) (handle th))
      with (let '(r, q) := remove (handle_of (put_state s t th st)) (ready_queue s) (handle th) in
            (r, with_queue (with_garbage (put_state s t th st) g) q)).
    pose proof (rq_remove_put_state s t th st (handle th) Ht) as Hcomm.
    destruct (rq_remove_inv _ s t th Hinv Ht) as (q' & Hq & Hinv'). rewrite Hq in Hcomm.
    unfold rq_remove in Hcomm. cbn in Hcomm.
    destruct (remove (handle_of (put_state s t th st)) (ready_queue s) (handle th)) as [r q''].
    cbn in *. assert (q'' = q') as -> by (injection Hcomm; done).
    assert (inv (fun x => x = running_thread s) (put_state (with_queue s q') t th st)) as Hfin.
    { apply (inv_release (fun x => x = running_thread s \/ x = t)).
      - apply put_state_inv; [done|done| |done]. intros Hin. exfalso.
        by apply (inv_lim _ _ Hinv' t); [right|].
      - auto.
      - intros x thx [?| ->] Hx Hl; [done|]. rewrite put_state_lookup, decide_True in Hx by done.
        by simplify_eq. }
    eexists. split; [done|]. split; [split|].
    + by apply (Hg _ _ Hfin).
    + cbn. rewrite lookup_insert_ne by done. eauto.
    + split; [|split; [done|done]]. intros Hin. by apply (inv_lim _ _ Hinv' t); [right|].
  - subst t. simplify_eq.
    assert (wf (with_garbage (put_state s (running_thread s) thr st) g)) as Hwf'.
    { split; [|cbn; rewrite lookup_insert_eq; eexists; split; [done|]; split;
               [destruct Hd as [->| ->]; done|done]].
      apply Hg, put_state_inv; [done|done| |done]. intros Hq. exfalso. by apply (inv_lim _ _ Hinv _ eq_refl). }
    destruct (perform_context_switch_spec _ (set_thread_state thr st) Hwf') as (s' & Hs' & Hw & Hc).
    { cbn. by rewrite lookup_insert_eq. }
    exists s'. split; [done|]. split; [done|]. split; [|split; [done|done]].
    destruct Hc as [[_ ->]|Hsw].
    + intros Hq. by apply (inv_lim _ _ (wf_inv _ Hwf') (running_thread s)).
    + by apply (sw_dead _ _ _ _ Hsw).
Qed.

Lemma block_spec s t th :
  wf s -> threads s !! t = Some th ->
  if decide (state th = BLOCK_PENDING) then
    exists s', block s (Some t) = Some s' /\ wf s' /\ t ∉ queued s'
      /\ (t <> running_thread s -> running_thread s' = running_thread s
          /\ threads s' = threads (put_state s t th BLOCKED))
      /\ (t = running_thread s -> perform_context_switch (put_state s t th BLOCKED) = Some s')
  else block s (Some t) = Some s.
Proof.
  intros Hwf Ht. unfold block, thread_state. rewrite Ht. cbn. case_decide as Hs.
  - rewrite decide_False by naive_solver. rewrite (set_state_eq _ _ _ th) by done. cbn.
    destruct (deschedule_wf s t th BLOCKED (thread_garbage_bin s) Hwf Ht (or_introl eq_refl))
      as (s' & Hd & Hw & Hq & Hn & Hr).
    assert (with_garbage (put_state s t th BLOCKED) (thread_garbage_bin s) = put_state s t th BLOCKED)
      as E by done. rewrite E in *. exists s'. split; [done|]. split; [done|].
    split; [done|]. split; [done|]. intros Htr. by apply Hr.
  - by rewrite decide_True.
Qed.

Lemma stop_spec s t th :
  wf s -> threads s !! t = Some th ->
  exists s', stop s (Some t) = Some s' /\ wf s' /\ t ∉ queued s'
    /\ (t <> running_thread s -> running_thread s' = running_thread s
          /\ threads s' = threads (put_state s t th STOPPED))
    /\ (t = running_thread s -> perform_context_switch
          (with_garbage (put_state s t th STOPPED) (thread_garbage_bin s ++ [t])) = Some s').
Proof.
  intros Hwf Ht. unfold stop. rewrite (set_state_eq _ _ _ th) by done. cbn.
  destruct (deschedule_wf s t th STOPPED (thread_garbage_bin s ++ [t]) Hwf Ht (or_intror eq_refl))
    as (s' & Hd & Hw & Hq & Hn & Hr).
  exists s'. split; [done|]. split; [done|]. split; [done|]. split; [done|]. intros Htr. by apply Hr.
Qed.

(** [unblock] of a parked thread: it is READY at the end of its level, unless it is the
    running thread, which just keeps running. *)
Lemma unblock_spec s t th :
  wf s -> threads s !! t = Some th ->
  if decide (state th = BLOCKED \/ state th = BLOCK_PENDING) then
    exists s', unblock s (Some t) = Some s' /\ wf s' /\ running_thread s' = running_thread s
      /\ (t = running_thread s -> s' = put_state s t th RUNNING)
      /\ (t <> running_thread s -> policy th <> P_NONE ->
            thread_state s' t = Some READY /\ forall x, x ∈ queued s' <-> x ∈ queued s \/ x = t)
      /\ (t <> running_thread s -> policy th = P_NONE -> s' = s)
  else unblock s (Some t) = Some s.
Proof.
  intros Hwf Ht. pose proof Hwf as [Hinv (thr & Hr & Hst & Hp)].
  unfold unblock, thread_state. rewrite Ht. cbn.
  destruct (decide (state th = BLOCKED \/ state th = BLOCK_PENDING)) as [Hs|Hs];
    [|rewrite decide_True by tauto; done].
  rewrite decide_False by naive_solver. case_decide as Hrun.
  - rewrite (set_state_eq _ _ _ th) by done. eexists. split; [done|]. subst t. simplify_eq.
    split; [|done]. split.
    + apply put_state_inv; [done|done| |intros [?|?]; done].
      intros Hq. exfalso. by apply (inv_lim _ _ Hinv _ eq_refl).
    + cbn. rewrite lookup_insert_eq. by eexists.
  - destruct (decide (policy th = P_NONE)) as [Hpn|Hpn].
    + assert (rq_enqueue s t = Some (false, s)) as ->.
      { unfold rq_enqueue. rewrite Ht. cbn. rewrite enqueue_no_level; [by destruct s|].
        rewrite (in_levels_policy _ _ _ Hinv). naive_solver. }
      cbn. exists s. split; [done|]. split; [done|]. done.
    + destruct (enqueue_as_inv _ s t th READY Hinv Ht) as (q' & -> & Hmem & Hinv'); [by right; left|done|].
      cbn. rewrite (set_state_eq _ _ _ th) by done. eexists. split; [done|]. split; [|split; [done|]].
      * split.
        -- eapply inv_iff; [|exact Hinv']. cbn. naive_solver.
        -- cbn. rewrite lookup_insert_ne by done. eauto.
      * split; [done|]. split; [|done]. intros _ _. split; [|done].
        unfold thread_state, put_state. cbn. by rewrite lookup_insert_eq.
Qed.

(** ** Reachable schedulers *)

(** The steps of the system: threads are created, and any public operation is called.  A
    thread is only handed to [schedule] while it is not the one on the processor. *)
Inductive step (s : Scheduler) : Scheduler -> Prop :=
  | step_create t th :
      threads s !! t = None -> state th = CREATED ->
      (forall x thx, threads s !! x = Some thx -> handle thx <> handle th) ->
      step s (with_threads s (<[t := th]> (threads s)))
  | step_schedule t ok s' :
      t <> Some (running_thread s) -> schedule s t = Some (ok, s') -> step s s'
  | step_preempt s' : preempt_running_thread s = Some s' -> step s s'
  | step_mark s' : mark_as_block_pending s = Some s' -> step s s'
  | step_block t s' : block s t = Some s' -> step s s'
  | step_unblock t s' : unblock s t = Some s' -> step s s'
  | step_stop t s' : stop s t = Some s' -> step s s'.

Inductive reachable (s0 : Scheduler) : Scheduler -> Prop :=
  | reach_init : reachable s0 s0
  | reach_step s s' : reachable s0 s -> step s s' -> reachable s0 s'.

Lemma create_wf s t th :
  wf s -> threads s !! t = None -> state th = CREATED ->
  (forall x thx, threads s !! x = Some thx -> handle thx <> handle th) ->
  wf (with_threads s (<[t := th]> (threads s))).
Proof.
  intros [[] (thr & Hr & Hrest)] Ht Hs Hh.
  assert (forall x thx, threads s !! x = Some thx -> <[t := th]> (threads s) !! x = Some thx) as Hold.
  { intros x thx Hx. rewrite lookup_insert_ne; [done|]. intros ->. congruence. }
  split; [split|]; cbn; try done.
  - intros p x Hx. destruct (inv_queued0 p x Hx) as (thx & ? & ?). eauto.
  - intros x thx Hx Hl. rewrite lookup_insert in Hx. case_decide; [|eauto].
    simplify_eq. rewrite Hs in Hl. by destruct Hl.
  - destruct inv_idle0 as (? & ? & ?). eauto.
  - destruct inv_gct0 as (? & ? & ?). eauto.
  - intros a b ta tb. rewrite !lookup_insert. do 2 case_decide; intros; simplify_eq; try done; eauto.
    + exfalso. by eapply Hh.
    + exfalso. by eapply Hh.
  - eauto.
Qed.

Lemma step_wf s s' : wf s -> step s s' -> wf s'.
Proof.
  intros Hwf Hstep. pose proof (wf_running s Hwf) as (thr & Hr & _).
  inversion Hstep as [t th|t ok ? Hne Hop|? Hop|? Hop|t ? Hop|t ? Hop|t ? Hop]; subst.
  - by apply create_wf.
  - destruct t as [t|]; cbn in Hop; [|by simplify_eq].
    destruct (threads s !! t) as [th|] eqn:Ht; [|done].
    pose proof (schedule_spec s t th Hwf Ht) as Hs. unfold schedule in Hs. rewrite Ht in Hs.
    assert (t <> running_thread s) as Hn by congruence. specialize (Hs Hn).
    case_decide; [destruct Hs as (s1 & Hs & Hw & _)|]; cbn in *; simplify_eq; congruence.
  - destruct (perform_context_switch_spec s thr Hwf Hr) as (s1 & H1 & Hw & _).
    unfold preempt_running_thread in Hop. congruence.
  - destruct (mark_as_block_pending_spec s Hwf) as (s1 & H1 & Hw & _). congruence.
  - destruct t as [t|]; cbn in Hop; [|by simplify_eq].
    unfold thread_state in Hop. destruct (threads s !! t) as [th|] eqn:Ht; [|done].
    pose proof (block_spec s t th Hwf Ht) as Hs. unfold block, thread_state in Hs. rewrite Ht in Hs.
    destruct (decide (state th = BLOCK_PENDING)); [destruct Hs as (s1 & Hs & Hw & _)|]; congruence.
  - destruct t as [t|]; cbn in Hop; [|by simplify_eq].
    unfold thread_state in Hop. destruct (threads s !! t) as [th|] eqn:Ht; [|done].
    pose proof (unblock_spec s t th Hwf Ht) as Hs. unfold unblock, thread_state in Hs. rewrite Ht in Hs.
    destruct (decide (state th = BLOCKED \/ state th = BLOCK_PENDING));
      [destruct Hs as (s1 & Hs & Hw & _)|]; congruence.
  - destruct t as [t|]; [|cbn in Hop; by simplify_eq].
    destruct (threads s !! t) as [th|] eqn:Ht.
    + destruct (stop_spec s t th Hwf Ht) as (s1 & Hs & Hw & _). congruence.
    + cbn in Hop. unfold set_state in Hop. by rewrite Ht in Hop.
Qed.

Lemma reachable_wf_from s0 s : wf s0 -> reachable s0 s -> wf s.
Proof. intros Hwf. induction 1; [done|]. by eapply step_wf. Qed.

(** ** Start-up *)

(** The thread objects [CPUModule::load] hands to [Scheduler::init]. *)
Record boot_threads (ts : gmap tptr Thread) (b i g : tptr) : Prop := {
  boot_created : forall t th, ts !! t = Some th -> state th = CREATED;
  boot_handles : forall x y tx ty, ts !! x = Some tx -> ts !! y = Some ty -> handle tx = handle ty -> x = y;
  boot_policy : exists th, ts !! b = Some th /\ policy th <> P_NONE;
  boot_idle : exists th, ts !! i = Some th /\ policy th = P_NONE;
  boot_gct : exists th, ts !! g = Some th /\ policy th = P_NONE;
  boot_distinct : i <> g;
}.

Definition fresh_scheduler (ts : gmap tptr Thread) : Scheduler := mkSched ts [] [] 0%nat 0%nat 0%nat [].

Lemma init_spec ts b i g :
  boot_threads ts b i g -> exists s, init (fresh_scheduler ts) b i g = Some s /\ wf s.
Proof.
  intros [Hc Hh (thb & Hb & Hpb) (thi & Hi & Hpi) (thg & Hg & Hpg) Hd].
  assert (b <> i) as Hbi by congruence. assert (b <> g) as Hbg by congruence.
  unfold init, setup_kernel_stack, set_state, fresh_scheduler. cbn.
  rewrite Hg. cbn. rewrite lookup_insert_eq. cbn.
  rewrite !lookup_insert_ne by done. rewrite Hi. cbn. rewrite lookup_insert_eq. cbn.
  eexists. split; [done|].
  assert (forall x thx, <[i:=set_thread_state (add_kernel_stacks thi 1) BLOCKED]>
     (<[i:=add_kernel_stacks thi 1]> (<[g:=set_thread_state (add_kernel_stacks thg 1) BLOCKED]>
       (<[g:=add_kernel_stacks thg 1]> ts))) !! x = Some thx ->
     exists th, ts !! x = Some th /\ handle thx = handle th /\ ~ live_state (state thx)) as Hl.
  { intros x thx. rewrite !lookup_insert. repeat case_decide; intros E; simplify_eq.
    - exists thi. split; [done|]. split; [done|]. by intros [?|?].
    - exists thg. split; [done|]. split; [done|]. by intros [?|?].
    - exists thx. split; [done|]. split; [done|]. rewrite (Hc x thx E). by intros [?|?]. }
  split; [split|]; cbn; try done.
  - constructor.
  - intros p t (l & Hin & Ht). rewrite !elem_of_cons in Hin.
    destruct Hin as [?|[?|[?|Hin]]]; simplify_eq; by apply not_elem_of_nil in Ht || by apply not_elem_of_nil in Hin.
  - intros t Ht. unfold queued. cbn. apply not_elem_of_nil.
  - intros t th Ht Hs. by destruct (Hl t th Ht) as (_ & _ & _ & []).
  - rewrite lookup_insert_eq. eexists. split; [done|]. done.
  - rewrite !lookup_insert_ne, lookup_insert_eq by done. eexists. split; [done|]. done.
  - intros x y tx ty Hx Hy E. destruct (Hl x tx Hx) as (tx0 & Hx0 & Ex & _).
    destruct (Hl y ty Hy) as (ty0 & Hy0 & Ey & _). apply (Hh x y tx0 ty0 Hx0 Hy0). congruence.
  - rewrite !lookup_insert_ne by done. exists thb. split; [done|]. rewrite (Hc b thb Hb).
    split; [done|]. auto.
Qed.

(** ** Properties *)

(** C1: from start-up on, whatever sequence of scheduler operations runs: the ready queue holds
    every thread at most once, at the level of its policy; the running thread is not in it; every
    other READY or BLOCK_PENDING thread is in it, so that no runnable thread is lost. *)
Theorem reachable_no_thread_lost ts b i g s0 s :
  boot_threads ts b i g -> init (fresh_scheduler ts) b i g = Some s0 -> reachable s0 s ->
  NoDup (queued s) /\ running_thread s ∉ queued s
  /\ (forall p t, in_level (ready_queue s) p t -> policy <$> threads s !! t = Some p)
  /\ (forall t st, thread_state s t = Some st -> st = READY \/ st = BLOCK_PENDING ->
        t = running_thread s \/ t ∈ queued s).
Proof.
  intros Hboot Hinit Hreach. destruct (init_spec ts b i g Hboot) as (s1 & H1 & Hwf).
  assert (s1 = s0) as -> by congruence.
  pose proof (reachable_wf_from _ _ Hwf Hreach) as [Hinv _].
  split; [apply Hinv|]. split; [by apply (inv_lim _ _ Hinv)|]. split.
  - intros p t Hl. destruct (inv_queued _ _ Hinv p t Hl) as (th & -> & <- & _). done.
  - unfold thread_state. intros t st (th & Ht & ->)%fmap_Some Hs. by apply (inv_live _ _ Hinv t th).
Qed.

(** the processor is never switched from a thread to itself (which would corrupt its stack):
    every call of [switch_to_thread] any reachable scheduler has made has two different threads. *)
Theorem never_switch_to_self ts b i g s0 s old new :
  boot_threads ts b i g -> init (fresh_scheduler ts) b i g = Some s0 -> reachable s0 s ->
  (old, new) ∈ switches s -> old <> new.
Proof.
  intros Hboot Hinit Hreach Hin. destruct (init_spec ts b i g Hboot) as (s1 & H1 & Hwf).
  assert (s1 = s0) as -> by congruence.
  pose proof (reachable_wf_from _ _ Hwf Hreach) as [Hinv _].
  pose proof (inv_switches _ _ Hinv) as Hf. rewrite Forall_forall in Hf. exact (Hf (old, new) Hin).
Qed.

(** a preempted thread that was running or about to block stays schedulable: it waits in the
    ready queue, READY if it was RUNNING and still BLOCK_PENDING if it was BLOCK_PENDING, unless
    it simply keeps the processor; the thread switched to is the one at the head of the queue. *)
Theorem preempt_reschedules s th :
  wf s -> threads s !! running_thread s = Some th ->
  running_thread s <> idle_thread s -> running_thread s <> garbage_collector_thread s ->
  state th = RUNNING \/ state th = BLOCK_PENDING ->
  exists s', preempt_running_thread s = Some s' /\
    (s' = s \/
     (running_thread s' = next_choice s /\ running_thread s ∈ queued s'
      /\ thread_state s' (running_thread s)
         = Some (if decide (state th = RUNNING) then READY else BLOCK_PENDING))).
Proof.
  intros Hwf Ht Hi Hg Hs. unfold preempt_running_thread.
  destruct (perform_context_switch_spec s th Hwf Ht) as (s' & -> & _ & [[_ ->]|Hsw]); eauto.
  exists s'. split; [done|]. right. split; [apply Hsw|].
  destruct (sw_live _ _ _ _ Hsw Hi Hg Hs) as [H1 H2]. split; [done|]. rewrite H1.
  destruct Hs as [->| ->]; by case_decide.
Qed.

(** no wake-up is lost between announcing and performing a block: when the running thread has
    marked itself as block-pending and is unblocked before it blocks, its call of [block] does
    nothing and it is still running. *)
Theorem wakeup_before_block_not_lost s :
  wf s -> exists s1 s2, mark_as_block_pending s = Some s1
    /\ unblock s1 (Some (running_thread s)) = Some s2
    /\ block_running s2 = Some s2
    /\ running_thread s2 = running_thread s
    /\ thread_state s2 (running_thread s) = Some RUNNING.
Proof.
  intros Hwf. destruct (mark_as_block_pending_spec s Hwf) as (s1 & H1 & Hwf1 & Hst & Hr & _).
  unfold thread_state in Hst. apply fmap_Some in Hst as (th & Ht & Hs).
  pose proof (unblock_spec s1 _ th Hwf1 Ht) as Hu. rewrite decide_True in Hu by (rewrite Hs; auto).
  destruct Hu as (s2 & H2 & Hwf2 & Hr2 & E & _). specialize (E (eq_sym Hr)).
  exists s1, s2. split; [done|]. split; [done|].
  assert (threads s2 !! running_thread s2 = Some (set_thread_state th RUNNING)) as Ht2.
  { rewrite Hr2, Hr, E. cbn. by rewrite lookup_insert_eq. }
  unfold block_running. pose proof (block_spec s2 _ _ Hwf2 Ht2) as Hb. cbn in Hb.
  split; [exact Hb|]. split; [congruence|]. unfold thread_state. rewrite <- Hr, <- Hr2, Ht2. done.
Qed.

(** a thread that blocks leaves the ready queue, and a later [unblock] makes it READY and puts
    it back, so that blocking and waking are inverse for the thread. *)
Theorem block_unblock_roundtrip s t th :
  wf s -> threads s !! t = Some th -> t <> running_thread s ->
  state th = BLOCK_PENDING -> policy th <> P_NONE ->
  exists s1 s2, block s (Some t) = Some s1 /\ thread_state s1 t = Some BLOCKED /\ t ∉ queued s1
    /\ unblock s1 (Some t) = Some s2 /\ thread_state s2 t = Some READY /\ t ∈ queued s2.
Proof.
  intros Hwf Ht Hne Hs Hp. pose proof (block_spec s t th Hwf Ht) as Hb.
  rewrite decide_True in Hb by done. destruct Hb as (s1 & H1 & Hwf1 & Hq1 & Hrest & _).
  destruct (Hrest Hne) as [Hr1 Hth1].
  assert (threads s1 !! t = Some (set_thread_state th BLOCKED)) as Ht1
    by (rewrite Hth1; cbn; by rewrite lookup_insert_eq).
  pose proof (unblock_spec s1 t _ Hwf1 Ht1) as Hu. cbn in Hu.
  rewrite decide_True in Hu by auto. destruct Hu as (s2 & H2 & _ & _ & _ & Hu & _).
  destruct Hu as [Hu1 Hu2]; [congruence|done|].
  exists s1, s2. split; [done|]. split; [unfold thread_state; by rewrite Ht1|]. split; [done|].
  split; [done|]. split; [done|]. apply Hu2. auto.
Qed.

(** a thread that stops itself is never run again by the queue: it is in the garbage bin, not
    in the ready queue, and the processor goes to the collector thread at once. *)
Theorem stop_running_hands_to_collector s th :
  wf s -> threads s !! running_thread s = Some th -> running_thread s <> garbage_collector_thread s ->
  garbage_collector_thread s <> idle_thread s ->
  exists s', stop_running s = Some s' /\ running_thread s' = garbage_collector_thread s
    /\ running_thread s ∈ thread_garbage_bin s' /\ running_thread s ∉ queued s'.
Proof.
  intros Hwf Ht Hne Hgi. unfold stop_running.
  destruct (stop_spec s _ th Hwf Ht) as (s' & Hs & Hw & Hq & _ & Hr). specialize (Hr eq_refl).
  exists s'. split; [done|].
  set (s1 := with_garbage _ _) in Hr.
  assert (wf s1) as Hwf1.
  { destruct (deschedule_wf s _ th STOPPED (thread_garbage_bin s ++ [running_thread s]) Hwf Ht
      (or_intror eq_refl)) as (? & _ & _ & _ & _ & H). by apply H. }
  destruct (perform_context_switch_spec s1 (set_thread_state th STOPPED) Hwf1) as (s2 & H2 & _ & Hc).
  { subst s1. cbn. by rewrite lookup_insert_eq. }
  assert (s2 = s') as -> by congruence.
  assert (next_choice s1 = garbage_collector_thread s) as En.
  { unfold next_choice, s1. cbn. by destruct (thread_garbage_bin s). }
  destruct Hc as [[Hc ->]|Hsw].
  - exfalso. rewrite En in Hc. destruct Hc as [Hc|[Hc _]]; by cbn in Hc.
  - rewrite En in Hsw. split; [apply Hsw|]. split; [|done].
    destruct (sw_frame _ _ _ _ Hsw) as (_ & _ & ->). cbn. set_solver.
Qed.

(** [schedule] puts a new thread into the ready queue but leaves it in state CREATED until it
    first runs, so scheduling it a second time is accepted as well, and a second kernel stack is
    allocated for it. *)
Theorem schedule_twice_accepted s t th :
  wf s -> threads s !! t = Some th -> t <> running_thread s ->
  state th = CREATED -> policy th <> P_NONE ->
  exists s1 s2, schedule s (Some t) = Some (true, s1) /\ thread_state s1 t = Some CREATED /\ t ∈ queued s1
    /\ schedule s1 (Some t) = Some (true, s2)
    /\ threads s2 !! t = Some (add_kernel_stacks (add_kernel_stacks th 1) 1).
Proof.
  intros Hwf Ht Hne Hst Hp. pose proof (schedule_spec s t th Hwf Ht Hne) as H1.
  rewrite decide_True in H1 by done. destruct H1 as (s1 & H1 & Hwf1 & Hq & Ht1 & Hr1).
  pose proof (schedule_spec s1 t _ Hwf1 Ht1 ltac:(congruence)) as H2. cbn in H2.
  rewrite decide_True in H2 by done. destruct H2 as (s2 & H2 & _ & _ & Ht2 & _).
  exists s1, s2. split; [done|]. split; [unfold thread_state; rewrite Ht1; cbn; by rewrite Hst|].
  split; [done|]. split; done.
Qed.

(** the thread chosen next belongs to the highest policy that has a thread waiting, and among
    those it is the one that waited longest: the head of its level. *)
Theorem next_choice_highest_policy s t :
  wf s -> thread_garbage_bin s = [] -> t ∈ queued s ->
  exists a b c, ready_queue s = [(LOW_LATENCY, a); (NORMAL, b); (BACKGROUND, c)]
    /\ Some (next_choice s) = match a with
         | x :: _ => Some x
         | [] => match b with x :: _ => Some x | [] => head c end
         end.
Proof.
  intros [Hinv _] Hb Hq. pose proof (inv_levels _ _ Hinv) as Hl.
  unfold next_choice. rewrite Hb. unfold queued in *.
  destruct (ready_queue s) as [|[p1 a] [|[p2 b] [|[p3 c] [|]]]]; try done.
  cbn in Hl. simplify_eq. exists a, b, c. split; [done|].
  rewrite !queued_cons in *. destruct a as [|x a]; [|done]. destruct b as [|x b]; [|done].
  destruct c as [|x c]; [|done]. by apply not_elem_of_nil in Hq.
Qed.

(** ** A small machine: bootstrap thread 0, idle thread 1, collector 2, and threads 3 and 4. *)
Definition demo_threads : gmap tptr Thread :=
  list_to_map [(0%nat, mkThread 1 CREATED LOW_LATENCY 0); (1%nat, mkThread 2 CREATED P_NONE 0);
    (2%nat, mkThread 3 CREATED P_NONE 0); (3%nat, mkThread 4 CREATED NORMAL 0);
    (4%nat, mkThread 5 CREATED BACKGROUND 0)].

Definition run (ops : list (Scheduler -> option Scheduler)) : Scheduler :=
  default (fresh_scheduler demo_threads)
    (foldl (fun s op => s' ← s; op s') (init (fresh_scheduler demo_threads) 0%nat 1%nat 2%nat) ops).

Definition do_schedule (t : tptr) (s : Scheduler) : option Scheduler := snd <$> schedule s (Some t).

(** Threads 3 and 4 scheduled, thread 3 on the processor. *)
Definition demo_ops : list (Scheduler -> option Scheduler) :=
  [do_schedule 3%nat; do_schedule 4%nat; preempt_running_thread].

Definition demo_blocking_ops : list (Scheduler -> option Scheduler) :=
  demo_ops ++ [mark_as_block_pending; preempt_running_thread].

Lemma demo_boot : boot_threads demo_threads 0%nat 1%nat 2%nat.
Proof.
  assert (forall t th, demo_threads !! t = Some th ->
    (t, th) ∈ [(0%nat, mkThread 1 CREATED LOW_LATENCY 0); (1%nat, mkThread 2 CREATED P_NONE 0);
    (2%nat, mkThread 3 CREATED P_NONE 0); (3%nat, mkThread 4 CREATED NORMAL 0);
    (4%nat, mkThread 5 CREATED BACKGROUND 0)]) as Hin.
  { intros t th H. by apply elem_of_list_to_map_2 in H. }
  split.
  - intros t th H%Hin. rewrite !elem_of_cons in H.
    destruct H as [|[|[|[|[|H]]]]]; simplify_eq; [done..|]. by apply not_elem_of_nil in H.
  - intros x y tx ty Hx%Hin Hy%Hin. rewrite !elem_of_cons in Hx, Hy.
    destruct Hx as [|[|[|[|[|Hx]]]]]; [simplify_eq..|by apply not_elem_of_nil in Hx];
    (destruct Hy as [|[|[|[|[|Hy]]]]]; [simplify_eq; done..|by apply not_elem_of_nil in Hy]).
  - eexists. split; [reflexivity|done].
  - eexists. split; reflexivity.
  - eexists. split; reflexivity.
  - done.
Qed.

Lemma demo_init : init (fresh_scheduler demo_threads) 0%nat 1%nat 2%nat = Some (run []).
Proof. vm_compute. reflexivity. Qed.

Lemma demo_reachable : reachable (run []) (run demo_ops).
Proof.
  apply (reach_step _ (run [do_schedule 3%nat; do_schedule 4%nat])).
  - apply (reach_step _ (run [do_schedule 3%nat])).
    + apply (reach_step _ (run [])); [constructor|].
      apply (step_schedule _ (Some 3%nat) true); [by vm_compute|vm_compute; reflexivity].
    + apply (step_schedule _ (Some 4%nat) true); [by vm_compute|vm_compute; reflexivity].
  - apply step_preempt. vm_compute. reflexivity.
Qed.

Lemma demo_wf : wf (run []).
Proof.
  destruct (init_spec _ _ _ _ demo_boot) as (s & H & Hwf).
  rewrite demo_init in H. by simplify_eq.
Qed.

Lemma demo_running_wf : wf (run demo_ops).
Proof. exact (reachable_wf_from _ _ demo_wf demo_reachable). Qed.

Lemma demo_blocking_wf : wf (run demo_blocking_ops).
Proof.
  eapply reachable_wf_from; [exact demo_wf|].
  apply (reach_step _ (run (demo_ops ++ [mark_as_block_pending]))).
  - apply (reach_step _ (run demo_ops)); [exact demo_reachable|].
    apply step_mark. vm_compute. reflexivity.
  - apply step_preempt. vm_compute. reflexivity.
Qed.

Lemma reachable_no_thread_lost_witness :
  thread_state (run demo_ops) 4%nat = Some CREATED /\ NoDup (queued (run demo_ops))
  /\ running_thread (run demo_ops) = 3%nat /\ 3%nat ∉ queued (run demo_ops).
Proof.
  destruct (reachable_no_thread_lost _ _ _ _ _ _ demo_boot demo_init demo_reachable) as (H1 & H2 & _).
  split; [vm_compute; reflexivity|]. split; [exact H1|]. split; [vm_compute; reflexivity|exact H2].
Defined.

Lemma never_switch_to_self_witness :
  switches (run demo_ops) = [(0%nat, 3%nat)] /\ 0%nat <> 3%nat.
Proof.
  split; [vm_compute; reflexivity|].
  apply (never_switch_to_self _ _ _ _ _ _ 0%nat 3%nat demo_boot demo_init demo_reachable).
  left.
Defined.

Lemma preempt_reschedules_witness :
  exists s', preempt_running_thread (run demo_ops) = Some s' /\ running_thread s' = 4%nat
    /\ 3%nat ∈ queued s'.
Proof.
  destruct (preempt_reschedules (run demo_ops) (mkThread 4 RUNNING NORMAL 1) demo_running_wf)
    as (s' & H & [->|(H1 & H2 & _)]); try by vm_compute.
  - left. reflexivity.
  - exists s'. split; [exact H|]. split; [rewrite H1; vm_compute; reflexivity|exact H2].
Defined.

Lemma wakeup_before_block_not_lost_witness :
  exists s1 s2, mark_as_block_pending (run demo_ops) = Some s1
    /\ thread_state s1 3%nat = Some BLOCK_PENDING
    /\ unblock s1 (Some 3%nat) = Some s2 /\ block_running s2 = Some s2.
Proof.
  destruct (wakeup_before_block_not_lost (run demo_ops) demo_running_wf) as (s1 & s2 & H1 & H2 & H3 & _).
  exists s1, s2. split; [exact H1|]. split; [|split; [exact H2|exact H3]].
  vm_compute in H1. injection H1 as <-. vm_compute. reflexivity.
Defined.

Lemma block_unblock_roundtrip_witness :
  exists s1 s2, block (run demo_blocking_ops) (Some 3%nat) = Some s1
    /\ thread_state s1 3%nat = Some BLOCKED /\ unblock s1 (Some 3%nat) = Some s2
    /\ thread_state s2 3%nat = Some READY.
Proof.
  destruct (block_unblock_roundtrip (run demo_blocking_ops) 3%nat (mkThread 4 BLOCK_PENDING NORMAL 1)
    demo_blocking_wf) as (s1 & s2 & H1 & H2 & _ & H3 & H4 & _); [by vm_compute..|].
  exists s1, s2. split; [exact H1|]. split; [exact H2|]. split; [exact H3|exact H4].
Defined.

Lemma stop_running_hands_to_collector_witness :
  exists s', stop_running (run demo_ops) = Some s' /\ running_thread s' = 2%nat
    /\ 3%nat ∈ thread_garbage_bin s'.
Proof.
  destruct (stop_running_hands_to_collector (run demo_ops) (mkThread 4 RUNNING NORMAL 1) demo_running_wf)
    as (s' & H1 & H2 & H3 & _); [by vm_compute..|].
  exists s'. split; [exact H1|]. split; [exact H2|exact H3].
Defined.

Lemma schedule_twice_accepted_witness :
  exists s1 s2, schedule (run []) (Some 3%nat) = Some (true, s1)
    /\ schedule s1 (Some 3%nat) = Some (true, s2).
Proof.
  destruct (schedule_twice_accepted (run []) 3%nat (mkThread 4 CREATED NORMAL 0) demo_wf)
    as (s1 & s2 & H1 & _ & _ & H2 & _); [by vm_compute..|].
  exists s1, s2. split; [exact H1|exact H2].
Defined.

Lemma next_choice_highest_policy_witness :
  4%nat ∈ queued (run demo_ops) /\ next_choice (run demo_ops) = 4%nat.
Proof.
  assert (4%nat ∈ queued (run demo_ops)) as Hin by (constructor).
  split; [exact Hin|].
  destruct (next_choice_highest_policy (run demo_ops) 4%nat demo_running_wf eq_refl Hin)
    as (a & b & c & H & E).
  vm_compute in H. injection H as <- <- <-. exact (f_equal (default 0%nat) E).
Defined.
End Sched.
