(* ===== verification/SchedulerFairness.v ===== *)
(** * Fairness of the scheduler

    Repeated preemption as a liveness property: the threads of the highest policy that has work take turns in the
    order of their queue, and while there are two of them nothing else runs. *)

From S2P Require Import Prelude Scheduler.
Import MultiLevelQueue Sched.

Module Fairness.

(** [n] preemptions in a row. *)
Fixpoint preempts (n : nat) (s : Scheduler) : option Scheduler :=
  match n with O => Some s | S n' => s ← preempt_running_thread s; preempts n' s end.

(** ** Rotating a list *)

Fixpoint rot {A} (k : nat) (l : list A) : list A :=
  match k with O => l | S k' => rot k' (match l with [] => [] | x :: l' => l' ++ [x] end) end.

Lemma rot_add {A} (j k : nat) : forall l : list A, rot (k + j) l = rot j (rot k l).
Proof. induction k as [|k IH]; intros l; [done|]. apply IH. Qed.

Lemma rot_app {A} (l1 : list A) : forall l2, rot (length l1) (l1 ++ l2) = l2 ++ l1.
Proof.
  induction l1 as [|x l1 IH]; intros l2; cbn; [by rewrite app_nil_r|]. rewrite <- app_assoc, IH. by rewrite <- app_assoc.
Qed.

Lemma rot_perm {A} k : forall l : list A, rot k l ≡ₚ l.
Proof. induction k as [|k IH]; intros l; [done|]. cbn. rewrite IH. destruct l; [done|]. solve_Permutation. Qed.

(** Every element comes to the front within one round. *)
Lemma rot_front {A} (l : list A) x : x ∈ l -> exists j r, (j < length l)%nat /\ rot j l = x :: r.
Proof.
  intros (l1 & l2 & ->)%list_elem_of_split. exists (length l1), (l2 ++ l1). rewrite length_app. cbn. split; [lia|]. by rewrite rot_app.
Qed.

(** ** One turn *)

(** The running thread [r] and the threads [ts] behind it have policy [p], and no thread of a higher policy is ready. *)
Record turn (s : Scheduler) (p : SchedulingPolicy) (pre rest : queue) (r : tptr) (ts : list tptr) : Prop := {
  tn_queue : ready_queue s = pre ++ (p, ts) :: rest;
  tn_above : forall p' l, (p', l) ∈ pre -> l = [] /\ p' <> p;
  tn_policy : p <> P_NONE;
  tn_running : running_thread s = r;
  tn_garbage : thread_garbage_bin s = [];
  tn_state : exists th, threads s !! r = Some th /\ policy th = p /\ (state th = RUNNING \/ state th = BLOCK_PENDING);
  tn_ready : forall t, t ∈ ts -> exists th, threads s !! t = Some th /\ policy th = p /\ queue_state (state th);
  tn_nodup : NoDup (r :: ts);
  tn_idle : exists th, threads s !! idle_thread s = Some th /\ policy th = P_NONE;
  tn_gct : exists th, threads s !! garbage_collector_thread s = Some th /\ policy th = P_NONE;
}.

Lemma dequeue_level pre p t ts rest : (forall p' l, (p', l) ∈ pre -> l = [] /\ p' <> p) ->
  dequeue (pre ++ (p, t :: ts) :: rest) = (Some t, pre ++ (p, ts) :: rest).
Proof.
  induction pre as [|[p' l] pre IH]; intros Hpre; cbn; [done|].
  destruct (Hpre p' l) as [-> _]; [set_solver|]. rewrite IH; [done|]. intros. apply Hpre. set_solver.
Qed.

Lemma enqueue_level pre p t ts rest : (forall p' l, (p', l) ∈ pre -> l = [] /\ p' <> p) -> t ∉ ts ->
  enqueue (pre ++ (p, ts) :: rest) t p = (true, pre ++ (p, ts ++ [t]) :: rest).
Proof.
  intros Hpre Ht. induction pre as [|[p' l] pre IH]; cbn.
  - rewrite decide_True by done. by rewrite decide_False.
  - destruct (Hpre p' l) as [_ Hne]; [set_solver|]. rewrite decide_False by done. rewrite IH; [done|].
    intros. apply Hpre. set_solver.
Qed.

(** A thread with a policy is neither the idle thread nor the garbage collector. *)
Lemma turn_not_special s p pre rest r ts t : turn s p pre rest r ts -> t ∈ r :: ts ->
  t <> idle_thread s /\ t <> garbage_collector_thread s.
Proof.
  intros Ht Hin. assert (exists th, threads s !! t = Some th /\ policy th = p) as (th & Hth & Hp).
  { apply elem_of_cons in Hin as [->|Hin].
    - destruct (tn_state _ _ _ _ _ _ Ht) as (th & ? & ? & _). eauto.
    - destruct (tn_ready _ _ _ _ _ _ Ht t Hin) as (th & ? & ? & _). eauto. }
  pose proof (tn_policy _ _ _ _ _ _ Ht). destruct (tn_idle _ _ _ _ _ _ Ht) as (ti & Hti & Hpi), (tn_gct _ _ _ _ _ _ Ht) as (tg & Htg & Hpg).
  split; intros ->; congruence.
Qed.

(** The thread that is switched away from joins the end of its level. *)
Lemma retire_turn s p pre rest r ts th : running_thread s = r -> r <> idle_thread s -> r <> garbage_collector_thread s ->
  ready_queue s = pre ++ (p, ts) :: rest -> (forall p' l, (p', l) ∈ pre -> l = [] /\ p' <> p) -> r ∉ ts ->
  threads s !! r = Some th -> policy th = p -> state th = RUNNING \/ state th = BLOCK_PENDING ->
  exists st, queue_state st /\
    retire_running s = Some (mkSched (<[r := set_thread_state th st]> (threads s)) (pre ++ (p, ts ++ [r]) :: rest)
      (thread_garbage_bin s) r (idle_thread s) (garbage_collector_thread s) (switches s)).
Proof.
  intros Hr Hi Hg Hq Hpre Hnin Hth Hp Hst. unfold retire_running. rewrite Hr, !decide_False by done.
  unfold thread_state. rewrite Hth. cbn [fmap option_fmap option_map mbind option_bind].
  unfold rq_enqueue. rewrite Hth. cbn [mbind option_bind]. rewrite Hp, Hq, enqueue_level by done.
  destruct Hst as [E|E]; rewrite E; cbn [mbind option_bind andb].
  - rewrite bool_decide_true by done. unfold set_state. cbn [threads with_queue running_thread]. rewrite Hr, Hth. cbn [mbind option_bind].
    exists READY. split; [right; by left|]. unfold with_threads, with_queue. cbn. by rewrite Hr.
  - rewrite bool_decide_false by done. exists BLOCK_PENDING. split; [right; by right|]. unfold with_queue.
    rewrite Hr, insert_id; [done|]. rewrite Hth. f_equal. destruct th; cbn in E. by subst.
Qed.

Lemma turn_step s p pre rest r t ts : turn s p pre rest r (t :: ts) ->
  exists s', preempt_running_thread s = Some s' /\ turn s' p pre rest t (ts ++ [r]).
Proof.
  intros Ht. destruct (turn_not_special _ _ _ _ _ _ r Ht ltac:(set_solver)) as [Hri Hrg].
  destruct (turn_not_special _ _ _ _ _ _ t Ht ltac:(set_solver)) as [Hti Htg].
  destruct Ht as [Hq Hpre Hpol Hrun Hgb (th & Hth & Hp & Hst) Hready Hnd (ti & Hidle & Hpi) (tg & Hgct & Hpg)].
  apply NoDup_cons in Hnd as [Hr [Ht Hnd]%NoDup_cons]. destruct (Hready t) as (tt & Htt & Hpt & Hqt); [set_solver|].
  unfold preempt_running_thread, perform_context_switch, next_scheduled_thread. rewrite Hgb, Hq, dequeue_level by done.
  unfold thread_state. cbn [running_thread with_queue threads idle_thread garbage_collector_thread]. rewrite Hrun, Hth.
  cbn [fmap option_fmap option_map mbind option_bind]. rewrite !decide_False by naive_solver.
  destruct (retire_turn (with_queue s (pre ++ (p, ts) :: rest)) p pre rest r ts th) as (st & Hqs & ->); try done; [set_solver|].
  cbn [mbind option_bind threads with_queue thread_garbage_bin idle_thread garbage_collector_thread switches].
  unfold switch_to, thread_state, set_state. cbn [threads]. assert (t <> r) as Htr by set_solver.
  rewrite lookup_insert_ne, Htt by done. cbn [fmap option_fmap option_map mbind option_bind].
  eexists. split; [reflexivity|]. unfold with_threads. split; cbn [ready_queue running_thread thread_garbage_bin threads idle_thread garbage_collector_thread]; try done.
  - eexists. rewrite lookup_insert_eq. split; [done|]. cbn. split; [done|]. case_decide; auto.
  - intros x [Hx|Hx%list_elem_of_singleton]%elem_of_app.
    + rewrite !lookup_insert_ne by set_solver. apply Hready. set_solver.
    + subst x. rewrite lookup_insert_ne, lookup_insert_eq by done. eauto.
  - apply NoDup_cons. split; [set_solver|]. apply NoDup_app. split; [done|]. split; [set_solver|apply NoDup_singleton].
  - exists ti. rewrite !lookup_insert_ne by done. done.
  - exists tg. rewrite !lookup_insert_ne by done. done.
Qed.

(** [k] preemptions rotate the running thread and its level [k] times. *)
Lemma turns k : forall s p pre rest r ts, turn s p pre rest r ts -> ts <> [] ->
  exists s' r' ts', preempts k s = Some s' /\ rot k (r :: ts) = r' :: ts' /\ turn s' p pre rest r' ts'.
Proof.
  induction k as [|k IH]; intros s p pre rest r ts Ht Hne; cbn [preempts rot].
  - eauto 10.
  - destruct ts as [|t ts]; [done|]. destruct (turn_step _ _ _ _ _ _ _ Ht) as (s1 & -> & Ht1). cbn [mbind option_bind].
    apply (IH s1 p pre rest t (ts ++ [r])); [done|]. by destruct ts.
Qed.

Lemma round_robin_result s p pre rest r ts : turn s p pre rest r ts -> ts <> [] ->
  (forall n t, t ∈ r :: ts -> exists k s', (n <= k < n + length (r :: ts))%nat /\ preempts k s = Some s' /\ running_thread s' = t)
  /\ forall n, exists s', preempts n s = Some s' /\ running_thread s' ∈ r :: ts
       /\ exists ts', ready_queue s' = pre ++ (p, ts') :: rest /\ running_thread s' :: ts' ≡ₚ r :: ts.
Proof.
  intros Ht Hne. split.
  - intros n t Hin. rewrite <- (rot_perm n) in Hin. destruct (rot_front _ _ Hin) as (j & q & Hj & E).
    rewrite (Permutation_length (rot_perm n (r :: ts))) in Hj. destruct (turns (n + j) s p pre rest r ts Ht Hne) as (s' & r' & ts' & Hrun & Hrot & Ht').
    exists (n + j)%nat, s'. split; [lia|]. split; [done|]. rewrite rot_add, E in Hrot. injection Hrot as -> ->. apply Ht'.
  - intros n. destruct (turns n s p pre rest r ts Ht Hne) as (s' & r' & ts' & Hrun & Hrot & Ht'). exists s'. split; [done|].
    rewrite (tn_running _ _ _ _ _ _ Ht'). assert (r' :: ts' ≡ₚ r :: ts) as Hp by (rewrite <- Hrot; apply rot_perm).
    split; [rewrite <- Hp; set_solver|]. exists ts'. split; [apply Ht'|done].
Qed.

(** A well-formed scheduler whose running thread has the highest policy with work is in such a turn. *)
Lemma wf_turn s p pre rest ts th : wf s -> thread_garbage_bin s = [] -> ready_queue s = pre ++ (p, ts) :: rest ->
  (forall p' l, (p', l) ∈ pre -> l = []) -> threads s !! running_thread s = Some th -> policy th = p ->
  state th = RUNNING \/ state th = BLOCK_PENDING -> turn s p pre rest (running_thread s) ts.
Proof.
  intros [Hinv _] Hgb Hq Hpre Hth Hp Hst. pose proof (inv_levels _ _ Hinv) as Hlev. rewrite Hq, fmap_app in Hlev. cbn in Hlev.
  assert (p <> P_NONE /\ forall p' l, (p', l) ∈ pre -> p' <> p) as [Hpn Hpp].
  { pose proof (levels_nodup _ _ Hinv) as Hnd. rewrite Hq, fmap_app in Hnd. cbn in Hnd. apply NoDup_app in Hnd as (_ & Hd & _). split.
    - apply (in_levels_policy _ s p Hinv). rewrite Hq, fmap_app. set_solver.
    - intros p' l Hin ->. apply (Hd p); [|set_solver]. apply list_elem_of_fmap. by exists (p, l). }
  assert (forall t, t ∈ ts -> in_level (ready_queue s) p t) as Hts by (intros t Hin; exists ts; rewrite Hq; set_solver).
  split; try done; try apply Hinv.
  - intros p' l Hin. split; [by eapply Hpre|by eapply Hpp].
  - eauto.
  - intros t Hin. by apply Hinv, Hts.
  - apply NoDup_cons. split.
    + intros Hin. apply (inv_lim _ _ Hinv (running_thread s) eq_refl). apply elem_of_queued. exists p. by apply Hts.
    + pose proof (inv_nodup _ _ Hinv) as Hnd. unfold queued in Hnd. rewrite Hq in Hnd. unfold get_queued_threads in Hnd.
      rewrite fmap_app, concat_app in Hnd. cbn in Hnd. apply NoDup_app in Hnd as (_ & _ & Hnd). by apply NoDup_app in Hnd as [? _].
Qed.

(** C12: round robin.  When the running thread has the highest policy with ready threads and at least one thread waits
    behind it, then under repeated preemption every thread of that level runs again within one round, at any time, and
    the threads of lower policies never run. *)
Theorem round_robin_fair s p pre rest ts th : wf s -> thread_garbage_bin s = [] -> ready_queue s = pre ++ (p, ts) :: rest ->
  (forall p' l, (p', l) ∈ pre -> l = []) -> ts <> [] -> threads s !! running_thread s = Some th -> policy th = p ->
  state th = RUNNING \/ state th = BLOCK_PENDING ->
  (forall n t, t ∈ running_thread s :: ts -> exists k s',
     (n <= k < n + length (running_thread s :: ts))%nat /\ preempts k s = Some s' /\ running_thread s' = t)
  /\ forall n, exists s', preempts n s = Some s' /\ running_thread s' ∈ running_thread s :: ts
       /\ exists ts', ready_queue s' = pre ++ (p, ts') :: rest /\ running_thread s' :: ts' ≡ₚ running_thread s :: ts.
Proof. intros. apply round_robin_result; [by eapply wf_turn|done]. Qed.

(** ** Two threads of the same policy *)

Definition fair_threads : gmap tptr Thread :=
  list_to_map [(0%nat, mkThread 1 CREATED LOW_LATENCY 0); (1%nat, mkThread 2 CREATED P_NONE 0);
    (2%nat, mkThread 3 CREATED P_NONE 0); (3%nat, mkThread 4 CREATED NORMAL 0); (4%nat, mkThread 5 CREATED NORMAL 0)].

Lemma fair_boot : boot_threads fair_threads 0%nat 1%nat 2%nat.
Proof.
  assert (forall t th, fair_threads !! t = Some th -> (t, handle th, state th) ∈
    [(0%nat, 1, CREATED); (1%nat, 2, CREATED); (2%nat, 3, CREATED); (3%nat, 4, CREATED); (4%nat, 5, CREATED)]) as Hin.
  { intros t th Hl%elem_of_list_to_map_2. rewrite !elem_of_cons in Hl.
    destruct Hl as [[= -> ->]|[[= -> ->]|[[= -> ->]|[[= -> ->]|[[= -> ->]|Hl]]]]]; [cbn; set_solver..|by apply not_elem_of_nil in Hl]. }
  split; try (eexists; split; [reflexivity|done]).
  - intros t th Hl%Hin. rewrite !elem_of_cons in Hl. destruct Hl as [|[|[|[|[|Hl]]]]]; [congruence..|by apply not_elem_of_nil in Hl].
  - intros x y tx ty Hx%Hin Hy%Hin E. rewrite !elem_of_cons in Hx, Hy.
    destruct Hx as [Hx|[Hx|[Hx|[Hx|[Hx|Hx]]]]]; [injection Hx as ? ? ?..|by apply not_elem_of_nil in Hx];
    (destruct Hy as [Hy|[Hy|[Hy|[Hy|[Hy|Hy]]]]]; [injection Hy as ? ? ?; congruence..|by apply not_elem_of_nil in Hy]).
  - done.
Qed.

Definition fair_run (ops : list (Scheduler -> option Scheduler)) : Scheduler :=
  default (fresh_scheduler fair_threads)
    (foldl (fun s op => s' ← s; op s') (init (fresh_scheduler fair_threads) 0%nat 1%nat 2%nat) ops).

(** Both threads are scheduled, and the first one is on the processor. *)
Definition fair_ops : list (Scheduler -> option Scheduler) := [do_schedule 3%nat; do_schedule 4%nat; preempt_running_thread].

Lemma fair_wf : wf (fair_run fair_ops).
Proof.
  destruct (init_spec _ _ _ _ fair_boot) as (s & Hi & Hwf).
  assert (s = fair_run []) as -> by (unfold fair_run; cbn [foldl]; by rewrite Hi).
  eapply reachable_wf_from; [exact Hwf|].
  apply (reach_step _ (fair_run [do_schedule 3%nat; do_schedule 4%nat])).
  - apply (reach_step _ (fair_run [do_schedule 3%nat])).
    + apply (reach_step _ (fair_run [])); [constructor|].
      apply (step_schedule _ (Some 3%nat) true); [by vm_compute|vm_compute; reflexivity].
    + apply (step_schedule _ (Some 4%nat) true); [by vm_compute|vm_compute; reflexivity].
  - apply step_preempt. vm_compute. reflexivity.
Qed.

(** Thread 4 gets its turn after the threads were preempted seven times. *)
Lemma round_robin_fair_witness : exists k s', (7 <= k < 7 + 2)%nat /\ preempts k (fair_run fair_ops) = Some s' /\ running_thread s' = 4%nat.
Proof.
  destruct (round_robin_fair (fair_run fair_ops) NORMAL [(LOW_LATENCY, [])] [(BACKGROUND, [])] [4%nat]
    (mkThread 4 RUNNING NORMAL 1) fair_wf) as [Hall _]; try (vm_compute; reflexivity).
  - intros p l [= _ ->]%list_elem_of_singleton. done.
  - done.
  - by left.
  - apply (Hall 7%nat 4%nat). apply elem_of_cons. right. by apply list_elem_of_singleton.
Defined.
End Fairness.
