(* ===== verification/Collections.v ===== *)
(** * KRE collections: doubly linked nodes and [LinkedList]

    [Dll] is a heap of nodes with an element and two pointers, with the representation predicate
    that ties a chain of nodes to the list it stores; [LinkedList] models
    [Include/KRE/Collections/LinkedList.h] on it, pointer by pointer, and shows that it implements
    the list operations.  Dereferencing a null or dangling pointer has no result ([None]). *)

From S2P Require Import Prelude.

(** ** Chains of nodes *)
Module Dll.
Abbreviation loc := positive.

Record node (T : Type) := mkNode {
  elem : T;
  prev : option loc;
  next : option loc;
}.
Arguments mkNode {T}.
Arguments elem {T}.
Arguments prev {T}.
Arguments next {T}.

Section dll.
Context {T : Type}.

Abbreviation heap := (gmap positive (node T)).

(** [p->m_next = v], [p->m_previous = v] and an update of the element. *)
Definition set_next (p : loc) (v : option loc) (h : heap) : option heap :=
  n ← h !! p; Some (<[p := mkNode (elem n) (prev n) v]> h).

Definition set_prev (p : loc) (v : option loc) (h : heap) : option heap :=
  n ← h !! p; Some (<[p := mkNode (elem n) v (next n)]> h).

Definition set_elem (p : loc) (f : T -> T) (h : heap) : option heap :=
  n ← h !! p; Some (<[p := mkNode (f (elem n)) (prev n) (next n)]> h).

(** The same behind a test against the null pointer. *)
Definition if_not_null (p : option loc) (f : loc -> heap -> option heap) (h : heap) : option heap :=
  match p with Some p => f p h | None => Some h end.

Definition head_loc (l : list (loc * T)) (n : option loc) : option loc :=
  match l with [] => n | (x, _) :: _ => Some x end.

Fixpoint last_loc (l : list (loc * T)) (p : option loc) : option loc :=
  match l with [] => p | (x, _) :: l' => last_loc l' (Some x) end.

(** The nodes of [l] are chained from predecessor [p] to successor [n]. *)
Fixpoint seg (h : heap) (p : option loc) (l : list (loc * T)) (n : option loc) : Prop :=
  match l with
  | [] => True
  | (x, v) :: l' => h !! x = Some (mkNode v p (head_loc l' n)) /\ seg h (Some x) l' n
  end.

Lemma head_loc_app l1 l2 n : head_loc (l1 ++ l2) n = head_loc l1 (head_loc l2 n).
Proof. by destruct l1 as [|[]]. Qed.

Lemma last_loc_app l1 : forall l2 p, last_loc (l1 ++ l2) p = last_loc l2 (last_loc l1 p).
Proof. induction l1 as [|[x v] l1 IH]; intros; cbn; [done|apply IH]. Qed.

Lemma last_loc_snoc l x v p : last_loc (l ++ [(x, v)]) p = Some x.
Proof. by rewrite last_loc_app. Qed.

Lemma seg_app h l1 : forall l2 p n,
  seg h p (l1 ++ l2) n <-> seg h p l1 (head_loc l2 n) /\ seg h (last_loc l1 p) l2 n.
Proof.
  induction l1 as [|[x v] l1 IH]; intros l2 p n; cbn; [naive_solver|].
  rewrite IH, head_loc_app. naive_solver.
Qed.

Lemma seg_frame h h' l : forall p n,
  (forall z, z ∈ l.*1 -> h' !! z = h !! z) -> seg h p l n -> seg h' p l n.
Proof.
  induction l as [|[x v] l IH]; intros p n Hf; cbn; [done|]. intros [Hx Hs]. split.
  - by rewrite Hf by (cbn; apply elem_of_cons; by left).
  - apply IH; [|done]. intros z Hz. apply Hf. cbn. apply elem_of_cons. by right.
Qed.

Lemma seg_in h p l n x v : seg h p l n -> (x, v) ∈ l -> exists q m, h !! x = Some (mkNode v q m).
Proof.
  revert p. induction l as [|[y w] l IH]; intros p Hs Hin; cbn in Hs; [by apply not_elem_of_nil in Hin|].
  destruct Hs as [Hy Hs]. apply elem_of_cons in Hin as [E|Hin]; [simplify_eq; eauto|by eapply IH].
Qed.

Lemma seg_dom h p l n x : seg h p l n -> x ∈ l.*1 -> is_Some (h !! x).
Proof.
  intros Hs Hin. apply list_elem_of_fmap in Hin as ([y v] & -> & Hin).
  destruct (seg_in _ _ _ _ _ _ Hs Hin) as (q & m & E). by eexists.
Qed.

(** Redirecting the last node's successor and the first node's predecessor. *)
Lemma seg_set_next h p l x v n n' :
  seg h p (l ++ [(x, v)]) n -> NoDup (l ++ [(x, v)]).*1 ->
  exists h', set_next x n' h = Some h' /\ seg h' p (l ++ [(x, v)]) n'
    /\ forall z, z <> x -> h' !! z = h !! z.
Proof.
  rewrite fmap_app. intros [Hl Hx]%seg_app [Hnd [Hdis _]]%NoDup_app. destruct Hx as [Hx _]. unfold set_next. rewrite Hx. cbn.
  eexists. split; [done|]. split; [|intros; by apply lookup_insert_ne].
  apply seg_app. split.
  - eapply seg_frame; [|exact Hl]. intros z Hz. apply lookup_insert_ne. intros ->.
    apply (Hdis z Hz), list_elem_of_singleton. done.
  - cbn. split; [|done]. by rewrite lookup_insert_eq.
Qed.

Lemma seg_set_prev h p l x v n p' :
  seg h p ((x, v) :: l) n -> NoDup ((x, v) :: l).*1 ->
  exists h', set_prev x p' h = Some h' /\ seg h' p' ((x, v) :: l) n
    /\ forall z, z <> x -> h' !! z = h !! z.
Proof.
  cbn. intros [Hx Hl] [Hnin _]%NoDup_cons. unfold set_prev. rewrite Hx. cbn.
  eexists. split; [done|]. split; [|intros; by apply lookup_insert_ne]. split.
  - by rewrite lookup_insert_eq.
  - eapply seg_frame; [|exact Hl]. intros z Hz. apply lookup_insert_ne. intros ->. done.
Qed.

(** The same for the node before or after a gap, when there is one. *)
Lemma seg_link_next h l n n' :
  seg h None l n -> NoDup l.*1 ->
  exists h', if_not_null (last_loc l None) (fun y => set_next y n') h = Some h' /\ seg h' None l n'
    /\ forall z, z ∉ l.*1 -> h' !! z = h !! z.
Proof.
  intros Hs Hnd. destruct l as [|[x v] l _] using rev_ind; [by exists h|].
  rewrite last_loc_snoc. destruct (seg_set_next _ _ _ _ _ _ n' Hs Hnd) as (h' & E & Hs' & Hf).
  exists h'. split; [done|]. split; [done|]. intros z Hz. apply Hf. intros ->. apply Hz.
  rewrite fmap_app. apply elem_of_app. right. cbn. by apply list_elem_of_singleton.
Qed.

Lemma seg_link_prev h p l p' :
  seg h p l None -> NoDup l.*1 ->
  exists h', if_not_null (head_loc l None) (fun y => set_prev y p') h = Some h' /\ seg h' p' l None
    /\ forall z, z ∉ l.*1 -> h' !! z = h !! z.
Proof.
  intros Hs Hnd. destruct l as [|[x v] l]; [by exists h|].
  destruct (seg_set_prev _ _ _ _ _ _ p' Hs Hnd) as (h' & E & Hs' & Hf).
  exists h'. split; [done|]. split; [done|]. intros z Hz. apply Hf. intros ->. apply Hz.
  cbn. apply elem_of_cons. by left.
Qed.

(** A heap that is one whole chain. *)
Record chain (h : heap) (l : list (loc * T)) : Prop := {
  chain_seg : seg h None l None;
  chain_nodup : NoDup l.*1;
  chain_dom : forall x, is_Some (h !! x) <-> x ∈ l.*1;
}.

Lemma chain_size h l : chain h l -> size h = length l.
Proof.
  intros [_ Hnd Hdom]. rewrite <- (length_fmap fst l), <- (size_list_to_set (C := gset loc)) by done.
  rewrite <- size_dom. f_equal. apply set_eq. intros x. rewrite elem_of_dom, elem_of_list_to_set. apply Hdom.
Qed.

Lemma chain_mid h l1 x v l2 : chain h (l1 ++ (x, v) :: l2) ->
  seg h None l1 (Some x) /\ seg h (Some x) l2 None
  /\ h !! x = Some (mkNode v (last_loc l1 None) (head_loc l2 None))
  /\ NoDup l1.*1 /\ NoDup l2.*1 /\ x ∉ l1.*1 /\ x ∉ l2.*1 /\ (forall z, z ∈ l1.*1 -> z ∉ l2.*1).
Proof.
  intros [[H1 [Hx H2]]%seg_app Hnd _]. rewrite fmap_app in Hnd. apply NoDup_app in Hnd as (Hn1 & Hdis & Hn2).
  cbn in Hn2. apply NoDup_cons in Hn2 as [Hx2 Hn2]. repeat (split; [done|]).
  split; [intros Hin; apply (Hdis x Hin), elem_of_cons; by left|]. split; [done|].
  intros z Hz Hz2. apply (Hdis z Hz), elem_of_cons. by right.
Qed.

(** Unlinking the node between [l1] and [l2] and deleting it. *)
Lemma chain_unlink h l1 x v l2 : chain h (l1 ++ (x, v) :: l2) ->
  exists h1 h2,
    if_not_null (last_loc l1 None) (fun y => set_next y (head_loc l2 None)) h = Some h1
    /\ if_not_null (head_loc l2 None) (fun y => set_prev y (last_loc l1 None)) h1 = Some h2
    /\ h2 !! x = h !! x /\ chain (delete x h2) (l1 ++ l2).
Proof.
  intros Hc. pose proof (chain_mid _ _ _ _ _ Hc) as (H1 & H2 & Hx & Hn1 & Hn2 & Hx1 & Hx2 & Hdis).
  destruct (seg_link_next h l1 (Some x) (head_loc l2 None) H1 Hn1) as (h1 & E1 & S1 & F1).
  assert (seg h1 (Some x) l2 None) as H2'.
  { eapply seg_frame; [|exact H2]. intros z Hz. apply F1. intros Hz1. by apply (Hdis z). }
  destruct (seg_link_prev h1 (Some x) l2 (last_loc l1 None) H2' Hn2) as (h2 & E2 & S2 & F2).
  exists h1, h2. split; [done|]. split; [done|]. split; [by rewrite F2, F1|]. split.
  - apply seg_app. split.
    + eapply seg_frame; [|exact S1]. intros z Hz. rewrite lookup_delete_ne by congruence.
      apply F2. by apply Hdis.
    + eapply seg_frame; [|exact S2]. intros z Hz. apply lookup_delete_ne. congruence.
  - rewrite fmap_app. apply NoDup_app. split; [done|]. split; [by apply Hdis|done].
  - intros z. destruct (decide (z = x)) as [->|Hne].
    + rewrite lookup_delete_eq, fmap_app, elem_of_app. split; [by intros []|tauto].
    + rewrite lookup_delete_ne by congruence. rewrite fmap_app, elem_of_app.
      pose proof (chain_dom _ _ Hc z) as Hd. rewrite fmap_app, elem_of_app in Hd. cbn in Hd. rewrite elem_of_cons in Hd.
      destruct (decide (z ∈ l2.*1)) as [Hz2|Hz2].
      { split; [by right|]. intros _. exact (seg_dom _ _ _ _ _ S2 Hz2). }
      rewrite F2 by done. destruct (decide (z ∈ l1.*1)) as [Hz1|Hz1].
      { split; [by left|]. intros _. exact (seg_dom _ _ _ _ _ S1 Hz1). }
      rewrite F1 by done. tauto.
Qed.

(** Linking the fresh node [x] between [l1] and [l2]: the new node's own pointers and the pointers of its
    neighbours. *)
Lemma chain_link h l1 x v l2 : chain h (l1 ++ l2) -> h !! x = None ->
  exists h1 h2,
    if_not_null (last_loc l1 None) (fun y => set_next y (Some x))
      (<[x := mkNode v (last_loc l1 None) (head_loc l2 None)]> h) = Some h1
    /\ if_not_null (head_loc l2 None) (fun y => set_prev y (Some x)) h1 = Some h2
    /\ chain h2 (l1 ++ (x, v) :: l2).
Proof.
  intros [[H1 H2]%seg_app Hnd Hdom] Hfree. rewrite fmap_app in Hnd. apply NoDup_app in Hnd as (Hn1 & Hdis & Hn2).
  assert (x ∉ l1.*1 /\ x ∉ l2.*1) as [Hx1 Hx2].
  { rewrite <- not_elem_of_app, <- fmap_app, <- Hdom, Hfree. by intros []. }
  set (h0 := <[x := _]> h).
  assert (forall z, z <> x -> h0 !! z = h !! z) as F0 by (intros; by apply lookup_insert_ne).
  destruct (seg_link_next h0 l1 (head_loc l2 None) (Some x)) as (h1 & E1 & S1 & F1); [|done|].
  { eapply seg_frame; [|exact H1]. intros z Hz. apply F0. congruence. }
  destruct (seg_link_prev h1 (last_loc l1 None) l2 (Some x)) as (h2 & E2 & S2 & F2); [|done|].
  { eapply seg_frame; [|exact H2]. intros z Hz. rewrite F1, F0; [done|congruence|].
    intros Hz1. by apply (Hdis z). }
  exists h1, h2. split; [done|]. split; [done|]. split.
  - apply seg_app. split.
    + eapply seg_frame; [|exact S1]. intros z Hz. apply F2. by apply Hdis.
    + cbn. split; [|done]. rewrite F2, F1 by done. apply lookup_insert_eq.
  - rewrite fmap_app. apply NoDup_app. cbn. split; [done|]. split; [|by apply NoDup_cons].
    intros z Hz. rewrite elem_of_cons. intros [->|Hz2]; [done|]. by apply (Hdis z).
  - intros z. rewrite fmap_app, elem_of_app. cbn. rewrite elem_of_cons.
    destruct (decide (z ∈ l2.*1)) as [Hz2|Hz2].
    { split; [by right; right|]. intros _. exact (seg_dom _ _ _ _ _ S2 Hz2). }
    rewrite F2 by done. destruct (decide (z ∈ l1.*1)) as [Hz1|Hz1].
    { split; [by left|]. intros _. exact (seg_dom _ _ _ _ _ S1 Hz1). }
    rewrite F1 by done. destruct (decide (z = x)) as [->|Hne].
    { unfold h0. rewrite lookup_insert_eq. split; [by right; left|by eexists]. }
    rewrite F0 by done. rewrite Hdom, fmap_app, elem_of_app. naive_solver.
Qed.

Lemma chain_empty : chain (∅ : heap) [].
Proof.
  split; [done|constructor|]. intros x. rewrite lookup_empty. split; [by intros []|].
  intros Hx. by apply not_elem_of_nil in Hx.
Qed.

(** Redirections of different nodes commute. *)
Lemma links_comm (p y : option loc) a b h h1 h2 :
  (forall z, p = Some z -> y = Some z -> False) ->
  if_not_null p (fun z => set_next z a) h = Some h1 -> if_not_null y (fun z => set_prev z b) h1 = Some h2 ->
  exists h1', if_not_null y (fun z => set_prev z b) h = Some h1'
    /\ if_not_null p (fun z => set_next z a) h1' = Some h2.
Proof.
  intros Hne. destruct p as [p|], y as [y|]; cbn; intros E1 E2; simplify_eq; eauto.
  assert (p <> y) as Hpy by (intros ->; by apply (Hne y)).
  unfold set_next, set_prev in *. apply bind_Some in E1 as (n & Hn & E1). simplify_eq.
  apply bind_Some in E2 as (m & Hm & E2). simplify_eq. rewrite lookup_insert_ne in Hm by done.
  rewrite Hm. cbn. eexists. split; [done|]. rewrite lookup_insert_ne, Hn by done. cbn.
  by rewrite insert_insert_ne by done.
Qed.

Lemma head_in (l : list (loc * T)) z : head_loc l None = Some z -> z ∈ l.*1.
Proof. destruct l as [|[x v] l]; cbn; [done|]. intros [= ->]. apply elem_of_cons. by left. Qed.

Lemma last_in (l : list (loc * T)) z : last_loc l None = Some z -> z ∈ l.*1.
Proof.
  destruct l as [|[x v] l _] using rev_ind; [done|]. rewrite last_loc_snoc. intros [= ->].
  rewrite fmap_app. apply elem_of_app. right. cbn. by apply list_elem_of_singleton.
Qed.

(** Unlinking in the other order. *)
Lemma chain_unlink_rev h l1 x v l2 : chain h (l1 ++ (x, v) :: l2) ->
  exists h1 h2,
    if_not_null (head_loc l2 None) (fun y => set_prev y (last_loc l1 None)) h = Some h1
    /\ if_not_null (last_loc l1 None) (fun y => set_next y (head_loc l2 None)) h1 = Some h2
    /\ chain (delete x h2) (l1 ++ l2).
Proof.
  intros Hc. destruct (chain_unlink _ _ _ _ _ Hc) as (h1 & h2 & E1 & E2 & _ & Hc').
  apply chain_mid in Hc as (_ & _ & _ & _ & _ & _ & _ & Hdis).
  assert (forall z, last_loc l1 None = Some z -> head_loc l2 None = Some z -> False) as Hne.
  { intros z Hz Hz'. apply (Hdis z); [by apply last_in|by apply head_in]. }
  destruct (links_comm _ _ _ _ _ _ _ Hne E1 E2) as (h1' & E1' & E2'). eauto.
Qed.

(** Changing an element in place. *)
Lemma chain_set_elem h l1 x v l2 f : chain h (l1 ++ (x, v) :: l2) ->
  exists h', set_elem x f h = Some h' /\ chain h' (l1 ++ (x, f v) :: l2).
Proof.
  intros Hc. pose proof (chain_mid _ _ _ _ _ Hc) as (H1 & H2 & Hx & Hn1 & Hn2 & Hx1 & Hx2 & Hdis).
  unfold set_elem. rewrite Hx. cbn. eexists. split; [done|]. destruct Hc as [_ Hnd Hdom]. split.
  - apply seg_app. cbn. split; [|split].
    + eapply seg_frame; [|exact H1]. intros z Hz. apply lookup_insert_ne. congruence.
    + by rewrite lookup_insert_eq.
    + eapply seg_frame; [|exact H2]. intros z Hz. apply lookup_insert_ne. congruence.
  - by rewrite fmap_app in *.
  - intros z. rewrite lookup_insert_is_Some', Hdom, !fmap_app. cbn. rewrite !elem_of_app, !elem_of_cons. naive_solver.
Qed.
End dll.
End Dll.

(** ** LinkedList *)
Module LinkedList.
Export Dll.

Record LinkedList (T : Type) := mkList {
  nodes : gmap positive (node T);    (* the nodes it owns *)
  m_first : option loc;
  m_last : option loc;
  m_size : Z;
}.
Arguments mkList {T}.
Arguments nodes {T}.
Arguments m_first {T}.
Arguments m_last {T}.
Arguments m_size {T}.

Section ops.
Context {T : Type} `{!EqDecision T}.
Abbreviation heap := (gmap positive (node T)).

Definition empty_list : LinkedList T := mkList ∅ None None 0.

(** [add0]; [x] is the address of the new node. *)
Definition add0 (L : LinkedList T) (x : loc) (element : T) (front : bool) : option (LinkedList T) :=
  let h := <[x := mkNode element None None]> (nodes L) in
  match m_first L with
  | None => Some (mkList h (Some x) (Some x) (u64 (m_size L + 1)))
  | Some f =>
      if front then
        h ← set_next x (Some f) h;
        h ← set_prev f (Some x) h;
        Some (mkList h (Some x) (m_last L) (u64 (m_size L + 1)))
      else
        h ← set_prev x (m_last L) h;
        l ← m_last L;
        h ← set_next l (Some x) h;
        Some (mkList h (m_first L) (Some x) (u64 (m_size L + 1)))
  end.

Definition add_back (L : LinkedList T) (x : loc) (e : T) : option (LinkedList T) := add0 L x e false.

Definition add_front (L : LinkedList T) (x : loc) (e : T) : option (LinkedList T) := add0 L x e true.

(** [remove0]: the removed element, [None] for a null node. *)
Definition remove0 (L : LinkedList T) (p : option loc) : option (option T * LinkedList T) :=
  match p with
  | None => Some (None, L)
  | Some x =>
      n ← nodes L !! x;
      h ← if_not_null (prev n) (fun y => set_next y (next n)) (nodes L);
      let first := match prev n with Some _ => m_first L | None => next n end in
      h ← if_not_null (next n) (fun y => set_prev y (prev n)) h;
      let last := match next n with Some _ => m_last L | None => prev n end in
      let alone := bool_decide (next n = None /\ prev n = None) in
      Some (Some (elem n),
            mkList (delete x h) (if alone then None else first) (if alone then None else last) (u64 (m_size L - 1)))
  end.

Definition remove_front (L : LinkedList T) : option (option T * LinkedList T) := remove0 L (m_first L).

Definition remove_back (L : LinkedList T) : option (option T * LinkedList T) := remove0 L (m_last L).

(** The search of [remove]: the first node with the element; one unit of fuel per node. *)
Fixpoint find_node (fuel : nat) (h : heap) (p : option loc) (element : T) : option (option loc) :=
  match fuel with
  | O => None
  | S fuel' =>
      match p with
      | None => Some None
      | Some x =>
          n ← h !! x;
          if decide (elem n = element) then Some (Some x) else find_node fuel' h (next n) element
      end
  end.

Definition fuel_of (L : LinkedList T) : nat := S (size (nodes L)).

Definition remove (L : LinkedList T) (element : T) : option (option T * LinkedList T) :=
  p ← find_node (fuel_of L) (nodes L) (m_first L) element; remove0 L p.

(** The walk of [remove_at] and of the subscript operator over [index] nodes; the first stops for nothing
    (it dereferences), the second at the end of the list. *)
Fixpoint walk (index : nat) (h : heap) (p : option loc) : option (option loc) :=
  match index with
  | O => Some p
  | S index' => x ← p; n ← h !! x; walk index' h (next n)
  end.

(** A precondition of a declaration ([pre(...)]); the build checks them, a violated one ends the kernel. *)
Definition pre (condition : bool) : option unit := if condition then Some tt else None.

(** [first()] and [last()] *)
Definition first (L : LinkedList T) : option T :=
  pre (0 <? m_size L) ≫= fun _ => x ← m_first L; n ← nodes L !! x; Some (elem n).

Definition last (L : LinkedList T) : option T :=
  pre (0 <? m_size L) ≫= fun _ => x ← m_last L; n ← nodes L !! x; Some (elem n).

Definition remove_at (L : LinkedList T) (index : nat) : option (option T * LinkedList T) :=
  pre ((0 <? Z.of_nat index) && (Z.of_nat index <? m_size L)) ≫= fun _ =>
  p ← walk index (nodes L) (m_first L); remove0 L p.

Fixpoint walk_safe (index : nat) (h : heap) (p : option loc) : option (option loc) :=
  match index, p with
  | S index', Some x => n ← h !! x; walk_safe index' h (next n)
  | _, _ => Some p
  end.

Definition at_index (L : LinkedList T) (idx : nat) : option T :=
  pre (Z.of_nat idx <? m_size L) ≫= fun _ =>
  p ← walk_safe idx (nodes L) (m_first L); x ← p; n ← nodes L !! x; Some (elem n).

(** [index_of0]: the iterator's walk with an [int] counter; counting past its largest value is undefined. *)
Fixpoint index_loop (fuel : nat) (h : heap) (p : option loc) (idx : Z) (element : T) : option Z :=
  match fuel with
  | O => None
  | S fuel' =>
      match p with
      | None => Some (-1)
      | Some x =>
          n ← h !! x;
          if decide (elem n = element) then Some idx
          else if idx + 1 <? 2 ^ 31 then index_loop fuel' h (next n) (idx + 1) element
          else None
      end
  end.

Definition index_of (L : LinkedList T) (element : T) : option Z :=
  index_loop (fuel_of L) (nodes L) (m_first L) 0 element.

Definition contains (L : LinkedList T) (element : T) : option bool :=
  i ← index_of L element; Some (0 <=? i).

(** [free_nodes]: read the successor, delete the node. *)
Fixpoint free_nodes (fuel : nat) (h : heap) (curr : option loc) : option heap :=
  match fuel with
  | O => None
  | S fuel' =>
      match curr with
      | None => Some h
      | Some x => n ← h !! x; free_nodes fuel' (delete x h) (next n)
      end
  end.

Definition clear (L : LinkedList T) : option (LinkedList T) :=
  h ← free_nodes (fuel_of L) (nodes L) (m_first L); Some (mkList h None None 0).

(** [copy]: a new node for every node of [other], whose nodes are in their own heap; [new] gives the
    address of the next node. *)
Fixpoint copy_loop (fuel : nat) (new : heap -> loc) (other : LinkedList T) (o_curr t_prev : option loc)
    (L : LinkedList T) : option (LinkedList T) :=
  match fuel with
  | O => None
  | S fuel' =>
      match o_curr with
      | None => Some L
      | Some o =>
          n ← nodes other !! o;
          let t := new (nodes L) in
          let h := <[t := mkNode (elem n) None None]> (nodes L) in
          h ← match prev n with
              | Some _ => h ← set_prev t t_prev h; if_not_null t_prev (fun y => set_next y (Some t)) h
              | None => Some h
              end;
          let first := if decide (Some o = m_first other) then Some t else m_first L in
          let last := if decide (Some o = m_last other) then Some t else m_last L in
          copy_loop fuel' new other (next n) (Some t) (mkList h first last (m_size L))
      end
  end.

(** The copy constructor: copying into a list that has no nodes. *)
Definition copy (new : heap -> loc) (other : LinkedList T) : option (LinkedList T) :=
  if m_size other =? 0 then Some empty_list
  else
    L ← copy_loop (fuel_of other) new other (m_first other) None empty_list;
    Some (mkList (nodes L) (m_first L) (m_last L) (m_size other)).

(** [operator=(LinkedList&&)]: the pointers (and the nodes behind them) are exchanged, the size is
    taken over and the other list's size set to zero. *)
Definition move_assign (L other : LinkedList T) : LinkedList T * LinkedList T :=
  (mkList (nodes other) (m_first other) (m_last other) (m_size other),
   mkList (nodes L) (m_first L) (m_last L) 0).

Definition empty (L : LinkedList T) : bool := match m_first L with None => true | Some _ => false end.

Definition add_all_step (new : heap -> loc) (L : LinkedList T) (e : T) : option (LinkedList T) :=
  add_back L (new (nodes L)) e.
End ops.

(** *** Representation: the nodes [l], in order, are the whole list *)
Section proofs.
Context {T : Type} `{!EqDecision T}.
Implicit Types (L : LinkedList T) (l : list (loc * T)).

Record rep L l : Prop := {
  rep_chain : chain (nodes L) l;
  rep_first : m_first L = head_loc l None;
  rep_last : m_last L = last_loc l None;
  rep_size : m_size L = zlen l;
  rep_bound : zlen l < 2 ^ 64;
}.

Lemma rep_empty : rep empty_list [].
Proof. split; cbn; [apply chain_empty|done..]. Qed.

Lemma head_none l : head_loc l None = None -> l = [].
Proof. by destruct l as [|[]]. Qed.

Lemma last_none l : last_loc l None = None -> l = [].
Proof. destruct l as [|[x v] l _] using rev_ind; [done|]. by rewrite last_loc_snoc. Qed.

Lemma add0_spec L l x e (front : bool) :
  rep L l -> nodes L !! x = None -> zlen l + 1 < 2 ^ 64 ->
  exists L', add0 L x e front = Some L' /\ rep L' (if front then (x, e) :: l else l ++ [(x, e)]).
Proof.
  intros [Hc Hf Hl Hs _] Hx Hb. unfold add0. rewrite Hf, Hl.
  assert (u64 (m_size L + 1) = zlen l + 1) as ->.
  { rewrite Hs, wrap_small; [done|]. pose proof (zlen_nonneg l). split; lia. }
  destruct (head_loc l None) as [f|] eqn:Eh.
  - destruct front.
    + destruct (chain_link _ [] x e l Hc Hx) as (h1 & h2 & E1 & E2 & Hc'). cbn in E1. simplify_eq.
      unfold set_next at 1. rewrite lookup_insert_eq. cbn [mbind option_bind elem prev].
      rewrite insert_insert_eq. rewrite Eh in *. cbn in E2. rewrite E2. cbn. eexists. split; [done|].
      split; cbn; [done|done| |by rewrite zlen_cons; lia|rewrite zlen_cons; lia].
      by destruct l as [|[y w] l].
    + rewrite <- (app_nil_r l) in Hc.
      destruct (chain_link _ l x e [] Hc Hx) as (h1 & h2 & E1 & E2 & Hc'). cbn in E2. simplify_eq.
      unfold set_prev at 1. rewrite lookup_insert_eq. cbn [mbind option_bind elem next].
      rewrite insert_insert_eq. destruct (last_loc l None) as [y|] eqn:El.
      2: { apply last_none in El. subst l. done. }
      cbn in E1. cbn. rewrite E1. cbn. eexists. split; [done|].
      split; cbn; [done| |by rewrite last_loc_app|rewrite zlen_app, zlen_cons, zlen_nil; lia..].
      by destruct l as [|[]].
  - apply head_none in Eh as ->. eexists. split; [done|].
    destruct (chain_link _ [] x e [] Hc Hx) as (h1 & h2 & E1 & E2 & Hc'). cbn in E1, E2. simplify_eq.
    destruct front; split; done || (rewrite zlen_cons, zlen_nil; lia).
Qed.

Lemma remove0_spec L l1 x v l2 :
  rep L (l1 ++ (x, v) :: l2) ->
  exists L', remove0 L (Some x) = Some (Some v, L') /\ rep L' (l1 ++ l2).
Proof.
  intros [Hc Hf Hl Hs Hb]. unfold remove0.
  destruct (chain_unlink _ _ _ _ _ Hc) as (h1 & h2 & E1 & E2 & _ & Hc').
  apply chain_mid in Hc as (_ & _ & Hx & _). rewrite Hx. cbn [mbind option_bind prev next elem].
  rewrite E1. cbn [mbind option_bind]. rewrite E2. cbn [mbind option_bind].
  eexists. split; [done|]. rewrite zlen_app, zlen_cons in *. pose proof (zlen_nonneg l1). pose proof (zlen_nonneg l2).
  split; cbn [nodes m_first m_last m_size]; [done| | | |rewrite zlen_app; lia].
  - case_bool_decide as Ha; [destruct Ha as [->%head_none ->%last_none]; done|].
    rewrite Hf, !head_loc_app. cbn. destruct (last_loc l1 None) as [y|] eqn:El.
    + destruct l1 as [|[]]; done.
    + by apply last_none in El as ->.
  - case_bool_decide as Ha; [destruct Ha as [->%head_none ->%last_none]; done|].
    rewrite Hl, !last_loc_app. cbn. destruct (head_loc l2 None) as [y|] eqn:El.
    + destruct l2 as [|[]]; done.
    + by apply head_none in El as ->.
  - rewrite Hs, wrap_small, zlen_app; [lia|]. split; lia.
Qed.

(** *** Walks along a chain *)

Lemma find_node_spec h e l : forall fuel q, seg h q l None -> (length l < fuel)%nat ->
  find_node fuel h (head_loc l None) e = Some ((fun r => r.2.1) <$> list_find (fun xv => xv.2 = e) l).
Proof.
  induction l as [|[x v] l IH]; intros fuel q Hs Hf; (destruct fuel as [|fuel]; [cbn in Hf; lia|]); [done|].
  cbn in Hs, Hf. destruct Hs as [Hx Hs]. cbn [find_node head_loc list_find snd]. rewrite Hx. cbn.
  destruct (decide (v = e)) as [->|Hne].
  - done.
  - rewrite (IH fuel (Some x)) by (done || lia). by rewrite <- option_fmap_compose.
Qed.

Lemma index_loop_spec h e l : forall fuel q idx, seg h q l None -> (length l < fuel)%nat ->
  idx < 2 ^ 31 -> index_loop fuel h (head_loc l None) idx e
  = match list_find (fun xv => xv.2 = e) l with
    | Some (i, _) => if idx + Z.of_nat i <? 2 ^ 31 then Some (idx + Z.of_nat i) else None
    | None => if idx + zlen l <? 2 ^ 31 then Some (-1) else None
    end.
Proof.
  induction l as [|[x v] l IH]; intros fuel q idx Hs Hf Hi; (destruct fuel as [|fuel]; [cbn in Hf; lia|]).
  { cbn [list_find index_loop head_loc]. rewrite zlen_nil, Z.add_0_r. by rewrite (proj2 (Z.ltb_lt idx _)). }
  cbn [seg] in Hs. cbn [length] in Hf. destruct Hs as [Hx Hs]. cbn [index_loop head_loc list_find snd].
  rewrite Hx, zlen_cons. cbn [mbind option_bind elem next]. pose proof (zlen_nonneg l).
  destruct (decide (v = e)) as [->|Hne].
  - replace (idx + Z.of_nat 0) with idx by lia. by rewrite (proj2 (Z.ltb_lt idx _)).
  - destruct (idx + 1 <? 2 ^ 31) eqn:E1; bool_prop.
    + rewrite (IH fuel (Some x)) by (done || lia).
      destruct (list_find _ l) as [[i ?]|]; cbn [fmap option_fmap option_map prod_map fst snd];
        [replace (idx + Z.of_nat (S i)) with (idx + 1 + Z.of_nat i) by lia; reflexivity|].
      replace (idx + (1 + zlen l)) with (idx + 1 + zlen l) by lia. reflexivity.
    + destruct (list_find _ l) as [[i ?]|]; cbn [fmap option_fmap option_map prod_map fst snd].
      * by rewrite (proj2 (Z.ltb_ge (idx + Z.of_nat (S i)) _)) by lia.
      * by rewrite (proj2 (Z.ltb_ge (idx + (1 + zlen l)) _)) by lia.
Qed.

Lemma walk_spec h l : forall i q, seg h q l None -> (i <= length l)%nat ->
  walk i h (head_loc l None) = Some (head_loc (drop i l) None).
Proof.
  induction l as [|[x v] l IH]; intros i q Hs Hi; cbn in Hi.
  - assert (i = 0%nat) as -> by lia. done.
  - destruct i as [|i]; [done|]. cbn in Hs. destruct Hs as [Hx Hs]. cbn [walk head_loc drop mbind option_bind].
    rewrite Hx. cbn [mbind option_bind next]. apply (IH i (Some x)); [done|lia].
Qed.

Lemma walk_safe_spec h l : forall i q, seg h q l None ->
  walk_safe i h (head_loc l None) = Some (head_loc (drop i l) None).
Proof.
  induction l as [|[x v] l IH]; intros i q Hs; [by destruct i|].
  destruct i as [|i]; [done|]. cbn in Hs. destruct Hs as [Hx Hs]. cbn [walk_safe head_loc drop].
  rewrite Hx. cbn [mbind option_bind next]. by apply (IH i (Some x)).
Qed.

Lemma free_nodes_spec l : forall fuel h q, seg h q l None -> NoDup l.*1 -> (length l < fuel)%nat ->
  exists h', free_nodes fuel h (head_loc l None) = Some h' /\
    forall z, h' !! z = if decide (z ∈ l.*1) then None else h !! z.
Proof.
  induction l as [|[x v] l IH]; intros fuel h q Hs Hnd Hf; (destruct fuel as [|fuel]; [cbn in Hf; lia|]).
  - exists h. split; [done|]. intros z. cbn. by rewrite decide_False by apply not_elem_of_nil.
  - cbn in Hs, Hf, Hnd. destruct Hs as [Hx Hs]. apply NoDup_cons in Hnd as [Hnin Hnd].
    cbn [free_nodes head_loc]. rewrite Hx. cbn [mbind option_bind next].
    destruct (IH fuel (delete x h) (Some x)) as (h' & E & Hh'); [|done|lia|].
    { eapply seg_frame; [|exact Hs]. intros z Hz. apply lookup_delete_ne. congruence. }
    exists h'. split; [done|]. intros z. rewrite Hh'. cbn.
    destruct (decide (z = x)) as [->|Hne].
    + rewrite lookup_delete_eq. repeat case_decide; try done. set_solver.
    + rewrite lookup_delete_ne by congruence. repeat case_decide; set_solver.
Qed.

Lemma rep_fuel L l : rep L l -> (length l < fuel_of L)%nat.
Proof. intros [Hc _]. unfold fuel_of. rewrite (chain_size _ _ Hc). lia. Qed.

(** *** The operations implement the operations on lists *)

Lemma remove_front_spec L x v l : rep L ((x, v) :: l) ->
  exists L', remove_front L = Some (Some v, L') /\ rep L' l.
Proof.
  intros Hr. unfold remove_front. rewrite (rep_first _ _ Hr). by apply (remove0_spec L [] x v l).
Qed.

Lemma remove_back_spec L x v l : rep L (l ++ [(x, v)]) ->
  exists L', remove_back L = Some (Some v, L') /\ rep L' l.
Proof.
  intros Hr. unfold remove_back. rewrite (rep_last _ _ Hr), last_loc_snoc.
  destruct (remove0_spec L l x v [] Hr) as (L' & E & Hr'). rewrite app_nil_r in Hr'. eauto.
Qed.

Lemma list_find_split (P : loc * T -> Prop) `{!forall x, Decision (P x)} l i x v :
  list_find P l = Some (i, (x, v)) ->
  exists l1 l2, l = l1 ++ (x, v) :: l2 /\ length l1 = i /\ P (x, v) /\ Forall (fun y => ~ P y) l1.
Proof.
  revert i. induction l as [|y l IH]; intros i E; cbn in E; [done|].
  destruct (decide (P y)) as [Hp|Hp]; [simplify_eq; by exists [], l|].
  destruct (list_find P l) as [[j z]|]; [|done]. cbn in E. simplify_eq.
  destruct (IH j eq_refl) as (l1 & l2 & -> & <- & Hz & Hl1). exists (y :: l1), l2. by repeat split; [..|constructor].
Qed.

(** Removing the first occurrence from a list. *)
Fixpoint remove_one (e : T) (vs : list T) : option T * list T :=
  match vs with
  | [] => (None, [])
  | v :: vs' => if decide (v = e) then (Some v, vs') else let '(r, ws) := remove_one e vs' in (r, v :: ws)
  end.

Lemma remove_one_skip (e : T) vs ws : Forall (fun w => w <> e) vs ->
  remove_one e (vs ++ e :: ws) = (Some e, vs ++ ws).
Proof.
  induction 1 as [|w vs Hw _ IH]; cbn; [by rewrite decide_True|].
  rewrite decide_False by done. by rewrite IH.
Qed.

Lemma remove_one_none (e : T) vs : Forall (fun w => w <> e) vs -> remove_one e vs = (None, vs).
Proof.
  induction 1 as [|w vs Hw _ IH]; cbn; [done|]. rewrite decide_False by done. by rewrite IH.
Qed.

(** [index_of] on lists: the first position, -1 if there is none; undefined where an [int] cannot count. *)
Definition spec_index_of (e : T) (vs : list T) : option Z :=
  match list_find (fun v => v = e) vs with
  | Some (i, _) => if Z.of_nat i <? 2 ^ 31 then Some (Z.of_nat i) else None
  | None => if zlen vs <? 2 ^ 31 then Some (-1) else None
  end.

Lemma ll_remove_spec L l e : rep L l ->
  exists L' l', remove L e = Some ((remove_one e l.*2).1, L') /\ rep L' l' /\ l'.*2 = (remove_one e l.*2).2.
Proof.
  intros Hr. pose proof (rep_fuel _ _ Hr) as Hf. pose proof (rep_chain _ _ Hr) as Hc. unfold remove.
  rewrite (rep_first _ _ Hr), (find_node_spec _ e l (fuel_of L) None) by (done || apply Hc).
  destruct (list_find _ l) as [[i [x v]]|] eqn:E; cbn [fmap option_fmap option_map mbind option_bind snd fst].
  - apply list_find_split in E as (l1 & l2 & -> & _ & Ev & Hl1). cbn in Ev. subst v.
    destruct (remove0_spec L l1 x e l2 Hr) as (L' & E & Hr').
    exists L', (l1 ++ l2). rewrite E, fmap_app. cbn. rewrite remove_one_skip by (by apply Forall_fmap).
    by rewrite fmap_app.
  - apply list_find_None in E. exists L, l. rewrite remove_one_none by (by apply Forall_fmap). done.
Qed.

Lemma remove_at_spec L l i : rep L l -> (0 < i < length l)%nat ->
  exists L' l' v, remove_at L i = Some (Some v, L') /\ rep L' l' /\ l.*2 !! i = Some v
    /\ l'.*2 = take i l.*2 ++ drop (S i) l.*2.
Proof.
  intros Hr Hi. pose proof (rep_chain _ _ Hr) as Hc. unfold remove_at.
  rewrite (rep_size _ _ Hr), (proj2 (Z.ltb_lt 0 (Z.of_nat i))) by lia.
  rewrite (proj2 (Z.ltb_lt (Z.of_nat i) (zlen l))) by (unfold zlen; lia). cbn [andb pre mbind option_bind].
  rewrite (rep_first _ _ Hr), (walk_spec _ l i None) by (lia || apply Hc). cbn [mbind option_bind].
  destruct (lookup_lt_is_Some_2 l i (proj2 Hi)) as [[x v] Hx].
  pose proof (take_drop_middle _ _ _ Hx) as El. rewrite (drop_S _ _ _ Hx). cbn [head_loc].
  rewrite <- El in Hr. destruct (remove0_spec L _ x v _ Hr) as (L' & E & Hr').
  exists L', (take i l ++ drop (S i) l), v. split; [done|]. split; [done|].
  rewrite list_lookup_fmap, Hx. split; [done|]. by rewrite fmap_app, fmap_take, fmap_drop.
Qed.

(** [remove_at] refuses the first element. *)
Lemma remove_at_zero L : remove_at L 0 = None.
Proof. done. Qed.

Lemma at_index_spec L l i : rep L l -> at_index L i = l.*2 !! i.
Proof.
  intros Hr. pose proof (rep_chain _ _ Hr) as Hc. unfold at_index. rewrite (rep_size _ _ Hr).
  destruct (Z.of_nat i <? zlen l) eqn:Ei; bool_prop; unfold zlen in Ei; cbn [pre mbind option_bind].
  2: { by rewrite lookup_ge_None_2 by (rewrite length_fmap; lia). }
  rewrite (rep_first _ _ Hr), (walk_safe_spec _ l i None) by apply Hc. cbn [mbind option_bind].
  rewrite list_lookup_fmap. destruct (l !! i) as [[x v]|] eqn:Hx.
  - rewrite (drop_S _ _ _ Hx). cbn [head_loc mbind option_bind].
    destruct (seg_in _ _ _ _ x v (chain_seg _ _ Hc)) as (q & m & E).
    + by eapply list_elem_of_lookup_2.
    + by rewrite E.
  - apply lookup_ge_None in Hx. by rewrite drop_ge.
Qed.

Lemma index_of_spec L l e : rep L l ->
  index_of L e = spec_index_of e l.*2.
Proof.
  intros Hr. pose proof (rep_fuel _ _ Hr) as Hf. unfold index_of, spec_index_of.
  rewrite (rep_first _ _ Hr), (index_loop_spec _ e l (fuel_of L) None 0) by (done || apply (rep_chain _ _ Hr)).
  rewrite list_find_fmap. unfold zlen. rewrite length_fmap. by destruct (list_find _ l) as [[i ?]|].
Qed.

Lemma ll_first_spec L l : rep L l -> first L = head l.*2.
Proof.
  intros Hr. pose proof (rep_chain _ _ Hr) as Hc. unfold first. rewrite (rep_size _ _ Hr), (rep_first _ _ Hr).
  destruct l as [|[x v] l]; [done|]. pose proof (zlen_nonneg l).
  rewrite zlen_cons, (proj2 (Z.ltb_lt 0 _)) by lia. cbn [pre mbind option_bind head_loc].
  by rewrite (proj1 (chain_seg _ _ Hc)).
Qed.

Lemma ll_last_spec L l : rep L l -> last L = list.last l.*2.
Proof.
  intros Hr. pose proof (rep_chain _ _ Hr) as Hc. unfold last. rewrite (rep_size _ _ Hr), (rep_last _ _ Hr).
  destruct l as [|[x v] l _] using rev_ind; [done|]. pose proof (zlen_nonneg l).
  rewrite (proj2 (Z.ltb_lt 0 (zlen (l ++ [(x, v)])))) by (unfold zlen; rewrite length_app; cbn; lia). rewrite last_loc_snoc, fmap_app. cbn [pre mbind option_bind].
  destruct (seg_in _ _ _ _ x v (chain_seg _ _ Hc)) as (q & m & E); [apply elem_of_app; right; by left|].
  rewrite E. cbn. by rewrite list.last_snoc.
Qed.

Lemma clear_spec L l : rep L l -> exists L', clear L = Some L' /\ rep L' [].
Proof.
  intros Hr. pose proof (rep_fuel _ _ Hr) as Hf. pose proof (rep_chain _ _ Hr) as Hc. unfold clear.
  rewrite (rep_first _ _ Hr).
  destruct (free_nodes_spec l (fuel_of L) (nodes L) None) as (h & E & Hh); [apply Hc..|done|].
  rewrite E. cbn. eexists. split; [done|]. split; cbn; [|done..].
  assert (h = ∅) as ->; [|apply chain_empty]. apply map_eq. intros z. rewrite Hh, lookup_empty.
  case_decide as Hz; [done|]. apply eq_None_not_Some. by rewrite (chain_dom _ _ Hc).
Qed.

(** *** Copying *)

Lemma head_loc_inj l1 x v l2 : NoDup (l1 ++ (x, v) :: l2).*1 ->
  Some x = head_loc (l1 ++ (x, v) :: l2) None -> l1 = [].
Proof.
  destruct l1 as [|[y w] l1]; [done|]. cbn. intros [Hnin _]%NoDup_cons E. simplify_eq.
  exfalso. apply Hnin. rewrite fmap_app. apply elem_of_app. right. cbn. apply elem_of_cons. by left.
Qed.

Lemma last_loc_inj l1 x v l2 : NoDup (l1 ++ (x, v) :: l2).*1 ->
  Some x = last_loc (l1 ++ (x, v) :: l2) None -> l2 = [].
Proof.
  destruct l2 as [|[y w] l2 _] using rev_ind; [done|].
  rewrite app_comm_cons, app_assoc, last_loc_snoc, fmap_app. intros Hnd [= ->]. apply NoDup_app in Hnd as (_ & Hdis & _).
  exfalso. apply (Hdis y); [|cbn; by apply list_elem_of_singleton].
  rewrite fmap_app. apply elem_of_app. right. cbn. apply elem_of_cons. by left.
Qed.

Section copy.
Context (new : gmap positive (node T) -> loc) (new_fresh : forall h, h !! new h = None).

Lemma copy_loop_spec other l : rep other l -> forall l2 l1 fuel L ld,
  l = l1 ++ l2 -> ld.*2 = l1.*2 -> chain (nodes L) ld ->
  m_first L = head_loc ld None -> (l2 = [] -> m_last L = last_loc ld None) -> (length l2 < fuel)%nat ->
  exists L' l', copy_loop fuel new other (head_loc l2 None) (last_loc ld None) L = Some L'
    /\ chain (nodes L') l' /\ l'.*2 = l.*2 /\ m_first L' = head_loc l' None /\ m_last L' = last_loc l' None.
Proof using new_fresh.
  intros Hr. induction l2 as [|[o v] l2 IH]; intros l1 fuel L ld El Ed Hc Hf Hl Hfuel;
    (destruct fuel as [|fuel]; [cbn in Hfuel; lia|]).
  { exists L, ld. rewrite app_nil_r in El. subst l1. by rewrite <- Hl by done. }
  subst l. pose proof (chain_mid _ _ _ _ _ (rep_chain _ _ Hr)) as (_ & _ & Ho & _).
  pose proof (chain_nodup _ _ (rep_chain _ _ Hr)) as Hnd.
  cbn [copy_loop head_loc]. rewrite Ho. cbn [mbind option_bind prev elem next].
  set (t := new (nodes L)). pose proof (new_fresh (nodes L)) as Ht. fold t in Ht.
  rewrite <- (app_nil_r ld) in Hc. destruct (chain_link _ ld t v [] Hc Ht) as (h1 & h2 & E1 & E2 & Hc').
  cbn in E2. simplify_eq. cbn [head_loc] in E1.
  assert (exists h, match last_loc l1 None with
    | Some _ => h ← set_prev t (last_loc ld None) (<[t := mkNode v None None]> (nodes L));
                if_not_null (last_loc ld None) (fun y => set_next y (Some t)) h
    | None => Some (<[t := mkNode v None None]> (nodes L)) end = Some h /\ h = h2) as (h & -> & ->).
  { unfold set_prev. rewrite lookup_insert_eq. cbn [mbind option_bind elem next]. rewrite insert_insert_eq, E1.
    destruct (last_loc l1 None) as [y|] eqn:E; [eauto|]. apply last_none in E as ->.
    destruct ld; [|done]. cbn in E1. simplify_eq. eauto. }
  cbn [mbind option_bind].
  assert (last_loc (ld ++ [(t, v)]) None = Some t) as Hlt by apply last_loc_snoc.
  destruct (IH (l1 ++ [(o, v)]) fuel
    (mkList h2 (if decide (Some o = m_first other) then Some t else m_first L)
       (if decide (Some o = m_last other) then Some t else m_last L) (m_size L)) (ld ++ [(t, v)]))
    as (L' & l' & E & Hl'); cbn in *; [by rewrite <- app_assoc|by rewrite !fmap_app, Ed|done| | |lia|].
  - rewrite (rep_first _ _ Hr), Hf. destruct ld as [|[y w] ld].
    + destruct l1; [|done]. by rewrite decide_True.
    + rewrite decide_False; [done|]. intros ->%head_loc_inj; done.
  - intros ->. rewrite (rep_last _ _ Hr), Hlt, last_loc_snoc. by rewrite decide_True.
  - exists L', l'. rewrite Hlt in *. done.
Qed.

Lemma copy_spec other l : rep other l ->
  exists L' l', copy new other = Some L' /\ rep L' l' /\ l'.*2 = l.*2.
Proof using new_fresh.
  intros Hr. unfold copy. rewrite (rep_size _ _ Hr). destruct (zlen l =? 0) eqn:E; bool_prop.
  - exists empty_list, []. split; [done|]. split; [apply rep_empty|]. by destruct l.
  - destruct (copy_loop_spec other l Hr l [] (fuel_of other) empty_list []) as (L' & l' & E' & Hc & Hv & Hf & Hl);
      [done|done|apply chain_empty|done|done|by apply rep_fuel|].
    rewrite (rep_first _ _ Hr). cbn [last_loc] in E'. rewrite E'. cbn. eexists _, l'. split; [done|]. split; [|done].
    assert (zlen l' = zlen l) as Hz by (unfold zlen; rewrite <- (length_fmap snd l'), Hv, length_fmap; done).
    split; cbn; [done..| |]; rewrite Hz; [done|apply (rep_bound _ _ Hr)].
Qed.
End copy.
End proofs.

(** *** The class against its specification: sequences of calls *)
Section refinement.
Context {T : Type} `{!EqDecision T}.

Inductive op :=
  | Add_back (e : T) | Add_front (e : T) | Remove_front | Remove_back | Remove (e : T)
  | Remove_at (i : nat) | At (i : nat) | First | Last | Index_of (e : T) | Contains (e : T) | Empty | Size | Clear.

Inductive result := Unit | Element (v : option T) | Index (i : Z) | Flag (b : bool).

(** What a list does; a call against its precondition and a search past the range of [int] are undefined. *)
Definition spec_op (o : op) (vs : list T) : option (result * list T) :=
  match o with
  | Add_back e => Some (Unit, vs ++ [e])
  | Add_front e => Some (Unit, e :: vs)
  | Remove_front => Some (Element (head vs), tail vs)
  | Remove_back => Some (Element (list.last vs), take (pred (length vs)) vs)
  | Remove e => Some (Element (remove_one e vs).1, (remove_one e vs).2)
  | Remove_at 0 => None
  | Remove_at i => v ← vs !! i; Some (Element (Some v), take i vs ++ drop (S i) vs)
  | At i => v ← vs !! i; Some (Element (Some v), vs)
  | First => v ← head vs; Some (Element (Some v), vs)
  | Last => v ← list.last vs; Some (Element (Some v), vs)
  | Index_of e => i ← spec_index_of e vs; Some (Index i, vs)
  | Contains e => i ← spec_index_of e vs; Some (Flag (bool_decide (e ∈ vs)), vs)
  | Empty => Some (Flag (bool_decide (vs = [])), vs)
  | Size => Some (Index (zlen vs), vs)
  | Clear => Some (Unit, [])
  end.

Fixpoint spec_ops (os : list op) (vs : list T) : option (list result * list T) :=
  match os with
  | [] => Some ([], vs)
  | o :: os' => '(r, vs) ← spec_op o vs; '(rs, vs) ← spec_ops os' vs; Some (r :: rs, vs)
  end.

(** What the class does; [new] is the allocator. *)
Definition list_op (new : gmap positive (node T) -> loc) (o : op) (L : LinkedList T) : option (result * LinkedList T) :=
  match o with
  | Add_back e => L ← add_back L (new (nodes L)) e; Some (Unit, L)
  | Add_front e => L ← add_front L (new (nodes L)) e; Some (Unit, L)
  | Remove_front => '(v, L) ← remove_front L; Some (Element v, L)
  | Remove_back => '(v, L) ← remove_back L; Some (Element v, L)
  | Remove e => '(v, L) ← remove L e; Some (Element v, L)
  | Remove_at i => '(v, L) ← remove_at L i; Some (Element v, L)
  | At i => v ← at_index L i; Some (Element (Some v), L)
  | First => v ← first L; Some (Element (Some v), L)
  | Last => v ← last L; Some (Element (Some v), L)
  | Index_of e => i ← index_of L e; Some (Index i, L)
  | Contains e => b ← contains L e; Some (Flag b, L)
  | Empty => Some (Flag (empty L), L)
  | Size => Some (Index (m_size L), L)
  | Clear => L ← clear L; Some (Unit, L)
  end.

Fixpoint list_ops (new : gmap positive (node T) -> loc) (os : list op) (L : LinkedList T)
    : option (list result * LinkedList T) :=
  match os with
  | [] => Some ([], L)
  | o :: os' => '(r, L) ← list_op new o L; '(rs, L) ← list_ops new os' L; Some (r :: rs, L)
  end.

Lemma spec_index_of_sign e (vs : list T) i : spec_index_of e vs = Some i -> (0 <=? i) = bool_decide (e ∈ vs).
Proof.
  unfold spec_index_of. destruct (list_find _ vs) as [[j w]|] eqn:Ef; intros Ei; case_match; simplify_eq.
  - apply list_find_Some in Ef as (Hw & -> & _). rewrite bool_decide_true by (by eapply list_elem_of_lookup_2).
    by rewrite (proj2 (Z.leb_le _ _)) by lia.
  - apply list_find_None in Ef. rewrite bool_decide_false; [done|]. intros Hin.
    rewrite Forall_forall in Ef. by eapply Ef.
Qed.

Lemma spec_op_length o vs r ws : spec_op o vs = Some (r, ws) -> zlen ws <= zlen vs + 1.
Proof.
  assert (forall e, zlen (remove_one e vs).2 <= zlen vs) as Hrem.
  { intros e. induction vs as [|v vs IH]; cbn; [done|]. case_decide; cbn; [rewrite zlen_cons; lia|].
    destruct (remove_one e vs). cbn in *. rewrite !zlen_cons. lia. }
  destruct o as [e|e| | |e|[|i]|i| | |e|e| | |]; cbn -[Nat.add take drop]; intros E; simplify_option_eq; try lia; try (rewrite ?zlen_app, ?zlen_cons, ?zlen_nil; lia).
  - destruct vs; cbn; rewrite ?zlen_cons; lia.
  - unfold zlen. rewrite length_take. lia.
  - specialize (Hrem e). lia.
  - unfold zlen. rewrite length_app, length_take, length_drop. lia.
  - rewrite zlen_nil. pose proof (zlen_nonneg vs). lia.
Qed.

Context (new : gmap positive (node T) -> loc) (new_fresh : forall h, h !! new h = None).

Lemma op_refines o L l r ws :
  rep L l -> zlen l + 1 < 2 ^ 64 -> spec_op o l.*2 = Some (r, ws) ->
  exists L' l', list_op new o L = Some (r, L') /\ rep L' l' /\ l'.*2 = ws.
Proof using new_fresh.
  intros Hr Hb. destruct o; cbn [list_op spec_op]; intros E; simplify_eq.
  - destruct (add0_spec L l _ e false Hr (new_fresh _) Hb) as (L' & E & Hr').
    unfold add_back. rewrite E. cbn. eexists L', _. split; [done|]. split; [done|]. by rewrite fmap_app.
  - destruct (add0_spec L l _ e true Hr (new_fresh _) Hb) as (L' & E & Hr').
    unfold add_front. rewrite E. cbn. by eexists L', _.
  - destruct l as [|[x v] l].
    + exists L, []. unfold remove_front. by rewrite (rep_first _ _ Hr).
    + destruct (remove_front_spec _ _ _ _ Hr) as (L' & E & Hr'). rewrite E. by exists L', l.
  - destruct l as [|[x v] l _] using rev_ind.
    + exists L, []. unfold remove_back. by rewrite (rep_last _ _ Hr).
    + destruct (remove_back_spec _ _ _ _ Hr) as (L' & E & Hr'). rewrite E. exists L', l.
      rewrite fmap_app. cbn. rewrite list.last_snoc, length_app. cbn.
      by rewrite Nat.add_1_r, take_app_length' by done.
  - destruct (ll_remove_spec _ _ e Hr) as (L' & l' & E & Hr' & Hv). rewrite E. by exists L', l'.
  - destruct i as [|i]; [done|]. destruct (l.*2 !! S i) as [v|] eqn:Hi; [|done]. cbn in E. simplify_eq.
    destruct (remove_at_spec L l (S i) Hr) as (L' & l' & w & E & Hr' & Hw & Hv).
    { apply lookup_lt_Some in Hi. rewrite length_fmap in Hi. lia. }
    rewrite E. exists L', l'. rewrite Hi in Hw. by simplify_eq.
  - destruct (l.*2 !! i) as [v|] eqn:Hi; [|done]. cbn in E. simplify_eq.
    rewrite (at_index_spec _ _ _ Hr), Hi. by exists L, l.
  - rewrite (ll_first_spec _ _ Hr). destruct (head l.*2); [|done]. cbn in E. simplify_eq. by exists L, l.
  - rewrite (ll_last_spec _ _ Hr). destruct (list.last l.*2); [|done]. cbn in E. simplify_eq. by exists L, l.
  - rewrite (index_of_spec _ _ _ Hr). destruct (spec_index_of e l.*2); [|done]. cbn in E |- *. simplify_eq.
    by exists L, l.
  - unfold contains. rewrite (index_of_spec _ _ _ Hr). destruct (spec_index_of e l.*2) as [i|] eqn:Ei; [|done].
    cbn in E. simplify_eq. exists L, l. cbn [mbind option_bind]. split; [|done]. do 3 f_equal.
    apply spec_index_of_sign in Ei. by rewrite Ei.
  - exists L, l. split; [|done]. unfold empty. rewrite (rep_first _ _ Hr). by destruct l as [|[]].
  - exists L, l. split; [|done]. rewrite (rep_size _ _ Hr). unfold zlen. by rewrite length_fmap.
  - destruct (clear_spec _ _ Hr) as (L' & E & Hr'). rewrite E. by exists L', [].
Qed.

Lemma zlen_values (l : list (loc * T)) : zlen l.*2 = zlen l.
Proof. unfold zlen. by rewrite length_fmap. Qed.

Lemma ops_refine os : forall L l rs ws,
  rep L l -> zlen l + zlen os < 2 ^ 64 -> spec_ops os l.*2 = Some (rs, ws) ->
  exists L' l', list_ops new os L = Some (rs, L') /\ rep L' l' /\ l'.*2 = ws.
Proof using new_fresh.
  induction os as [|o os IH]; intros L l rs ws Hr Hb E; cbn in E; [simplify_eq; by exists L, l|].
  rewrite zlen_cons in Hb. pose proof (zlen_nonneg os).
  destruct (spec_op o l.*2) as [[r vs]|] eqn:Eo; [|done]. cbn in E.
  destruct (spec_ops os vs) as [[rs' ws']|] eqn:Es; [|done]. cbn in E. simplify_eq.
  destruct (op_refines o L l r vs Hr) as (L1 & l1 & E1 & Hr1 & Hv1); [lia|done|].
  subst vs. apply spec_op_length in Eo. rewrite !zlen_values in Eo.
  destruct (IH L1 l1 rs' ws Hr1) as (L2 & l2 & E2 & Hr2 & Hv2); [lia|done|].
  cbn. rewrite E1. cbn. rewrite E2. by exists L2, l2.
Qed.
End refinement.
Arguments op T : clear implicits.
Arguments result T : clear implicits.

(** C28: whatever calls are made on a new list, the linked nodes give the answers a list gives; no null
    or dangling pointer is followed, the size is right and exactly the nodes of the list are allocated. *)
Theorem linked_list_refines_list {T} `{!EqDecision T} (new : gmap positive (node T) -> loc) os rs ws :
  (forall h, h !! new h = None) -> zlen os < 2 ^ 64 -> spec_ops os [] = Some (rs, ws) ->
  exists L, list_ops new os empty_list = Some (rs, L)
    /\ m_size L = zlen ws /\ size (nodes L) = length ws /\ forall i, at_index L i = ws !! i.
Proof.
  intros Hnew Hb Hs.
  destruct (ops_refine new Hnew os empty_list [] rs ws) as (L & l & E & Hr & <-); [apply rep_empty|done..|].
  exists L. split; [done|]. rewrite zlen_values, (rep_size _ _ Hr), (chain_size _ _ (rep_chain _ _ Hr)), length_fmap.
  split; [done|]. split; [done|]. intros i. by apply at_index_spec.
Qed.

Definition some_address (h : gmap positive (node Z)) : loc := fresh (dom h).

Lemma linked_list_refines_list_witness :
  exists L, list_ops some_address [Add_back 7; Add_front 5; Add_back 9; Remove 7; Remove_at 1; Size] empty_list
    = Some ([Unit; Unit; Unit; Element (Some 7); Element (Some 9); Index 1], L) /\ m_size L = 1.
Proof.
  destruct (linked_list_refines_list some_address
    [Add_back 7; Add_front 5; Add_back 9; Remove 7; Remove_at 1; Size]
    [Unit; Unit; Unit; Element (Some 7); Element (Some 9); Index 1] [5]) as (L & E & H & _).
  - intros h. unfold some_address. apply not_elem_of_dom_1, is_fresh.
  - reflexivity.
  - reflexivity.
  - exists L. split; [exact E|exact H].
Defined.

(** The list that was moved from keeps the nodes of the target, but says its size is zero. *)
Lemma move_assign_inconsistent {T} (L other : LinkedList T) x v l :
  rep L ((x, v) :: l) -> m_size (move_assign L other).2 = 0 /\ empty (move_assign L other).2 = false.
Proof. intros Hr. split; [done|]. unfold empty. cbn. by rewrite (rep_first _ _ Hr). Qed.
End LinkedList.
