(* ===== verification/HashMap.v ===== *)
(** * The hash map of the KRE: KRE/Collections/HashMap.h and the hashes of KRE/Utility.h

    Buckets are singly linked chains of nodes, a chain is the list of its nodes.  An iterator holds the
    chain from its current node on.  The load factor is a number of quarters: 0.75 in every map that was
    not moved from, where the comparison of doubles is the comparison of integers for fewer than 2^50
    buckets. *)

From S2P Require Import Prelude.

(** ** FNV hashes *)
Module FNV.
Definition PRIME : Z := 0x01000193.
Definition OFFSET_BASIS : Z := 0x811c9dc5.

(** The hash of an unsigned integer. *)
Definition do_hash (value : Z) : Z := u64 (Z.lxor OFFSET_BASIS value * PRIME).

(** A [char] is signed and is extended to 64 bits. *)
Definition extend (c : Z) : Z := if c <? 128 then c else u64 (c - 256).

Definition do_hash_array (values : list Z) : Z :=
  foldl (fun hash c => u64 (Z.lxor hash (extend c) * PRIME)) OFFSET_BASIS values.

(** [Hash<const char*>]: the characters in front of the terminator. *)
Fixpoint before_zero (l : list Z) : list Z := match l with [] => [] | c :: l => if c =? 0 then [] else c :: before_zero l end.

Definition hash_cstr (l : list Z) : Z := do_hash_array (before_zero l).
End FNV.

Module HashMap.

(** [Hash<K>] *)
Class Hash (K : Type) := hash : K -> Z.

#[export] Instance hash_int : Hash Z := FNV.do_hash.
#[export] Instance hash_chars : Hash (list Z) := FNV.hash_cstr.

Definition DEFAULT_LOAD_FACTOR : Z := 3.
Definition DEFAULT_BUCKET_COUNT : Z := 4.

Section hash_map.
Context {K V : Type} `{EqDecision K} `{Hash K}.

(** [_bucket]: null before the first use, the array of chains, or a pointer to memory that was freed. *)
Inductive Buckets := Unallocated | Allocated (l : list (list (K * V))) | Released.

Record HashMap := mkHashMap { load_factor : Z; bucket_count : Z; bucket : Buckets; size : Z }.

Record HashMapIterator := mkIt { it_bucket : list (list (K * V)); it_pos : Z; it_current : list (K * V) }.

Implicit Types (m : HashMap) (it : HashMapIterator) (k : K) (v : V).

Definition empty_map : HashMap := mkHashMap DEFAULT_LOAD_FACTOR DEFAULT_BUCKET_COUNT Unallocated 0.

(** The result is converted to [int] before it is used as an index. *)
Definition calc_hash k (n : Z) : option nat :=
  if n =? 0 then None else
  let i := u32 (hash k mod n) in if i <? 2 ^ 31 then Some (Z.to_nat i) else None.

Definition new_buckets (n : Z) : list (list (K * V)) := replicate (Z.to_nat n) [].

(** The body of the loop of [rehash]: the node becomes the head of its new bucket. *)
Fixpoint move_nodes (n : Z) (nodes : list (K * V)) (new_bucket : list (list (K * V))) : option (list (list (K * V))) :=
  match nodes with
  | [] => Some new_bucket
  | node :: nodes =>
      new_hash ← calc_hash node.1 n;
      old_head ← new_bucket !! new_hash;
      move_nodes n nodes (<[new_hash := node :: old_head]> new_bucket)
  end.

Definition rehash m (new_bucket_count : Z) : option HashMap :=
  match bucket m with
  | Allocated l =>
      b ← move_nodes new_bucket_count (mjoin l) (new_buckets new_bucket_count);
      Some (mkHashMap (load_factor m) new_bucket_count (Allocated b) (size m))
  | _ => None
  end.

Definition over_load m : bool :=
  (bucket_count m =? 0) || (load_factor m * bucket_count m <? 4 * u64 (size m + 1)).

Definition put0 m k v : option (HashMap * HashMapIterator) :=
  m ← (if over_load m then rehash m (u64 (2 * bucket_count m)) else Some m);
  match bucket m with
  | Allocated l =>
      h ← calc_hash k (bucket_count m);
      old_head ← l !! h;
      let l := <[h := (k, v) :: old_head]> l in
      Some (mkHashMap (load_factor m) (bucket_count m) (Allocated l) (u64 (size m + 1)),
            mkIt l (Z.of_nat h) ((k, v) :: old_head))
  | _ => None
  end.

Fixpoint unlink k (c : list (K * V)) : option (list (K * V)) :=
  match c with
  | [] => None
  | x :: c => if decide (x.1 = k) then Some c else c' ← unlink k c; Some (x :: c')
  end.

Definition remove0 m k : option (bool * HashMap) :=
  match bucket m with
  | Allocated l =>
      h ← calc_hash k (bucket_count m);
      node ← l !! h;
      Some (match unlink k node with
            | Some c => (true, mkHashMap (load_factor m) (bucket_count m) (Allocated (<[h := c]> l)) (u64 (size m - 1)))
            | None => (false, m)
            end)
  | _ => None
  end.

(** The chain from the first node with the key on. *)
Fixpoint search k (c : list (K * V)) : list (K * V) :=
  match c with [] => [] | x :: c' => if decide (x.1 = k) then c else search k c' end.

Definition buckets_of m : list (list (K * V)) := match bucket m with Allocated l => l | _ => [] end.

Definition end_ m : HashMapIterator := mkIt (buckets_of m) (bucket_count m) [].

Definition find0 m k : option HashMapIterator :=
  match bucket m with
  | Allocated l =>
      h ← calc_hash k (bucket_count m);
      node ← l !! h;
      Some (match search k node with [] => end_ m | c => mkIt l (Z.of_nat h) c end)
  | _ => None
  end.

(** An assignment to the value of the iterator [find] gives: the first node with the key. *)
Fixpoint assign_chain (f : V -> V) k (c : list (K * V)) : list (K * V) :=
  match c with [] => [] | x :: c => if decide (x.1 = k) then (x.1, f x.2) :: c else x :: assign_chain f k c end.

Definition assign m k (f : V -> V) : option HashMap :=
  match bucket m with
  | Allocated l =>
      h ← calc_hash k (bucket_count m);
      node ← l !! h;
      Some (mkHashMap (load_factor m) (bucket_count m) (Allocated (<[h := assign_chain f k node]> l)) (size m))
  | _ => None
  end.

Definition perform_lazy_init m : HashMap :=
  match bucket m with
  | Unallocated => mkHashMap (load_factor m) (bucket_count m) (Allocated (new_buckets (bucket_count m))) (size m)
  | _ => m
  end.

Definition put m k v : option (HashMap * HashMapIterator) := put0 (perform_lazy_init m) k v.

Definition remove m k : option (bool * HashMap) :=
  match bucket m with Unallocated => Some (false, m) | _ => remove0 m k end.

Definition find m k : option HashMapIterator :=
  match bucket m with Unallocated => Some (end_ m) | _ => find0 m k end.

(** [it == end()] for an iterator of the map. *)
Definition is_end it : bool := match it_current it with [] => true | _ => false end.

Definition has_next it : bool := negb (is_end it).

(** [*it], [it->value] *)
Definition pair_of it : option (K * V) := head (it_current it).

(** The first bucket from the index [i] on that is not empty. *)
Fixpoint first_from (l : list (list (K * V))) (i : Z) : option (Z * list (K * V)) :=
  match l with [] => None | [] :: l => first_from l (i + 1) | c :: _ => Some (i, c) end.

Definition begin_ m : option HashMapIterator :=
  match bucket m with
  | Unallocated => Some (end_ m)
  | Allocated l => Some (match first_from l 0 with Some (i, c) => mkIt l i c | None => end_ m end)
  | Released => None
  end.

(** [operator++] *)
Definition next it : option HashMapIterator :=
  match it_current it with
  | [] => None
  | _ :: (x :: c) => Some (mkIt (it_bucket it) (it_pos it) (x :: c))
  | [_] =>
      Some (match first_from (drop (Z.to_nat (it_pos it + 1)) (it_bucket it)) (it_pos it + 1) with
            | Some (i, c) => mkIt (it_bucket it) i c
            | None => mkIt (it_bucket it) (zlen (it_bucket it)) []
            end)
  end.

(** [operator[]] for a key that is not in the map puts the default value. *)
Definition index_ (default : V) m k : option (HashMap * V) :=
  let m := perform_lazy_init m in
  maybe_value ← find m k;
  match pair_of maybe_value with
  | Some (_, v) => Some (m, v)
  | None => '(m, it) ← put0 m k default; '(_, v) ← pair_of it; Some (m, v)
  end.

(** [free_nodes]: the array is released, the pointer to it, the number of buckets and the size stay. *)
Definition free_nodes m : option HashMap :=
  match bucket m with
  | Allocated _ => Some (mkHashMap (load_factor m) (bucket_count m) Released (size m))
  | Unallocated => if bucket_count m =? 0 then Some m else None
  | Released => None
  end.

Definition clear m : option HashMap := free_nodes m.

Definition moved_from : HashMap := mkHashMap 0 0 Unallocated 0.

(** [HashMap(HashMap&&)]: the new map and the one it was made from. *)
Definition move_construct other : HashMap * HashMap := (other, moved_from).

Definition swap (fst sec : HashMap) : HashMap * HashMap := (sec, fst).

(** [operator=(HashMap&&)] for two different maps: [this] and [other] afterwards; the temporary is destroyed. *)
Definition move_assign (this other : HashMap) : option (HashMap * HashMap) :=
  let '(tmp, other) := move_construct other in
  let '(tmp, other) := swap tmp other in
  _ ← free_nodes tmp;
  Some (this, moved_from).

(** ** Running an iteration to its end *)
Fixpoint visit (fuel : nat) it : option (list (K * V)) :=
  match fuel with
  | O => None
  | S fuel => match pair_of it with None => Some [] | Some x => it ← next it; l ← visit fuel it; Some (x :: l) end
  end.
End hash_map.
Arguments Buckets : clear implicits.
Arguments HashMap : clear implicits.
Arguments HashMapIterator : clear implicits.
End HashMap.
