(* ===== verification/HashMapProps.v ===== *)
(** * The hash map refines a finite map

    With every key put at most once a hash map is a finite map, whatever its hash function; what happens to
    a key that is put twice depends on when the map grows. *)

From S2P Require Import Prelude HashMap.

Module MapProps.
Import HashMap.

(** ** Updating one list of a list of lists *)
Lemma join_at {A} (l : list (list A)) i c : l !! i = Some c -> mjoin l ≡ₚ c ++ mjoin (delete i l).
Proof.
  intros Hi. rewrite <- (take_drop_middle l i c Hi) at 1. rewrite delete_take_drop, !join_app. cbn [mjoin list_join].
  rewrite !app_assoc. apply Permutation_app_tail. apply Permutation_app_comm.
Qed.

Lemma delete_insert_at {A} (l : list A) i x : delete i (<[i := x]> l) = delete i l.
Proof. revert i. induction l as [|y l IH]; intros [|i]; [done..|]. change (y :: delete i (<[i := x]> l) = y :: delete i l). by rewrite IH. Qed.

Lemma join_insert {A} (l : list (list A)) i c c' : l !! i = Some c -> mjoin (<[i := c']> l) ≡ₚ c' ++ mjoin (delete i l).
Proof.
  intros Hi. rewrite (join_at (<[i := c']> l) i c'); [by rewrite delete_insert_at|].
  apply list_lookup_insert_eq. by apply lookup_lt_Some in Hi.
Qed.

Section refinement.
Context {K V : Type} `{Countable K} `{Hash K}.
Implicit Types (m : HashMap K V) (k : K) (v : V) (M : gmap K V).

(** Every node is in the bucket of its key. *)
Definition placed (n : Z) (l : list (list (K * V))) : Prop :=
  length l = Z.to_nat n /\ forall i c x, l !! i = Some c -> x ∈ c -> i = Z.to_nat (hash x.1 mod n).

Lemma calc_hash_some k n : 0 < n < 2 ^ 31 -> calc_hash k n = Some (Z.to_nat (hash k mod n)) /\ (Z.to_nat (hash k mod n) < Z.to_nat n)%nat.
Proof.
  intros Hn. pose proof (Z.mod_pos_bound (hash k) n ltac:(lia)). unfold calc_hash. rewrite (proj2 (Z.eqb_neq n 0)) by lia.
  rewrite (wrap_small 32) by (unfold in_width; word_lia). rewrite (proj2 (Z.ltb_lt _ _)) by lia. split; [done|lia].
Qed.

Lemma placed_new n : placed n (new_buckets n).
Proof.
  split; [apply length_replicate|]. intros i c x Hi Hx. apply lookup_replicate in Hi as [-> _]. by apply not_elem_of_nil in Hx.
Qed.

Lemma join_new n : mjoin (new_buckets n : list (list (K * V))) = [].
Proof. unfold new_buckets. by induction (Z.to_nat n). Qed.

Lemma placed_push n l x c : placed n l -> 0 < n < 2 ^ 31 -> l !! Z.to_nat (hash x.1 mod n) = Some c ->
  placed n (<[Z.to_nat (hash x.1 mod n) := x :: c]> l) /\ mjoin (<[Z.to_nat (hash x.1 mod n) := x :: c]> l) ≡ₚ x :: mjoin l.
Proof.
  intros [Hl Hp] Hn Hc. split.
  - split; [by rewrite length_insert|]. intros i c' y Hi Hy. apply list_lookup_insert_Some in Hi as [(<- & <- & _)|(_ & Hi)]; [|by apply (Hp i c')].
    apply elem_of_cons in Hy as [->|Hy]; [done|by apply (Hp _ c)].
  - rewrite (join_insert _ _ c) by done. cbn [app]. apply Permutation_skip. symmetry. by apply join_at.
Qed.

Lemma move_nodes_result n nodes : 0 < n < 2 ^ 31 -> forall l, placed n l ->
  exists l', move_nodes n nodes l = Some l' /\ placed n l' /\ mjoin l' ≡ₚ nodes ++ mjoin l.
Proof.
  intros Hn. induction nodes as [|x nodes IH]; intros l Hp; [by exists l|]. cbn [move_nodes].
  destruct (calc_hash_some x.1 n Hn) as [-> Hlt]. cbn [mbind option_bind]. pose proof (proj1 Hp) as Hlen.
  destruct (lookup_lt_is_Some_2 l (Z.to_nat (hash x.1 mod n))) as [c Hc]; [lia|]. rewrite Hc. cbn [mbind option_bind].
  destruct (placed_push n l x c Hp Hn Hc) as [Hp' Hj]. destruct (IH _ Hp') as (l' & -> & Hp2 & Hj2). exists l'. split_and!; try done.
  rewrite Hj2, Hj. cbn [app]. symmetry. apply Permutation_middle.
Qed.

(** ** The map a hash map stands for *)
Definition contents m : list (K * V) := mjoin (buckets_of m).

Record good m : Prop := {
  go_factor : load_factor m = DEFAULT_LOAD_FACTOR;
  go_count : 0 < bucket_count m < 2 ^ 31;
  go_bucket : match bucket m with Unallocated => True | Allocated l => placed (bucket_count m) l | Released => False end;
  go_size : size m = zlen (contents m);
  go_bound : size m <= 2 ^ 29 }.

Definition repr m M : Prop := good m /\ contents m ≡ₚ map_to_list M.

Lemma repr_empty : repr empty_map ∅.
Proof. split; [by constructor|]. by rewrite map_to_list_empty. Qed.

Lemma repr_size m M : repr m M -> size m = Z.of_nat (base.size M).
Proof. intros [G P]. rewrite (go_size _ G). unfold zlen. by rewrite P, length_map_to_list. Qed.

Lemma repr_elem m M k v : repr m M -> (k, v) ∈ contents m <-> M !! k = Some v.
Proof. intros [_ P]. rewrite P. apply elem_of_map_to_list. Qed.

Lemma repr_init m M : repr m M -> repr (perform_lazy_init m) M /\ exists l, bucket (perform_lazy_init m) = Allocated l.
Proof.
  intros [[Hf Hc Hb Hs Hbd] P]. unfold perform_lazy_init. destruct (bucket m) as [|l|] eqn:E; [| |done]; cycle 1.
  { split; [|by exists l]. split; [|done]. constructor; [done|done|by rewrite E|done|done]. }
  split; [|eauto]. unfold contents, buckets_of in *. rewrite E in Hs, P.
  split; [constructor; try done; [apply placed_new|]|]; unfold contents, buckets_of; cbn [bucket size]; by rewrite join_new.
Qed.

Lemma repr_perm m m' M : good m' -> contents m' ≡ₚ contents m -> repr m M -> repr m' M.
Proof. intros G P [_ P']. split; [done|]. by rewrite P. Qed.

(** ** Growing *)
Lemma rehash_result m n l : good m -> bucket m = Allocated l -> 0 < n < 2 ^ 31 ->
  exists m', rehash m n = Some m' /\ good m' /\ contents m' ≡ₚ contents m /\ bucket_count m' = n /\ size m' = size m /\ exists l', bucket m' = Allocated l'.
Proof.
  intros [Hf Hc Hb Hs Hbd] E Hn. unfold rehash. rewrite E in Hb |- *.
  destruct (move_nodes_result n (mjoin l) Hn (new_buckets n) (placed_new n)) as (l' & -> & Hp & Hj). cbn [mbind option_bind].
  rewrite join_new, app_nil_r in Hj. eexists. split; [done|]. unfold contents, buckets_of in *. rewrite E in *. cbn [bucket].
  split_and!; [constructor; try done; unfold contents, buckets_of; cbn [bucket size]|done|done|done|by eexists].
  unfold zlen in *. by rewrite Hj.
Qed.

(** The step of [put0] that makes room: the maps it gives hold the same nodes. *)
Lemma room_result m M : repr m M -> (exists l, bucket m = Allocated l) -> Z.of_nat (base.size M) < 2 ^ 29 ->
  exists m' l, (if over_load m then rehash m (u64 (2 * bucket_count m)) else Some m) = Some m' /\ repr m' M /\ bucket m' = Allocated l.
Proof.
  intros [G P] [l E] Hsz. pose proof (repr_size m M (conj G P)) as Hms. destruct (over_load m) eqn:Eo; [|by exists m, l].
  unfold over_load in Eo. pose proof (go_count _ G) as Hc. rewrite (go_factor _ G), Hms in Eo. rewrite (proj2 (Z.eqb_neq _ _)) in Eo by lia.
  cbn [orb] in Eo. apply Z.ltb_lt in Eo. rewrite (wrap_small 64) in Eo by (unfold in_width; word_lia). unfold DEFAULT_LOAD_FACTOR in Eo.
  assert (u64 (2 * bucket_count m) = 2 * bucket_count m) as -> by (apply wrap_small; unfold in_width; word_lia).
  destruct (rehash_result m (2 * bucket_count m) l G E) as (m' & Er & G' & P' & _ & _ & [l' E']); [word_lia|].
  exists m', l'. split_and!; try done. by apply (repr_perm m).
Qed.

Lemma bucket_at m l k : good m -> bucket m = Allocated l ->
  exists c, calc_hash k (bucket_count m) = Some (Z.to_nat (hash k mod bucket_count m)) /\ l !! Z.to_nat (hash k mod bucket_count m) = Some c
    /\ placed (bucket_count m) l.
Proof.
  intros [Hf Hc Hb Hs Hbd] E. rewrite E in Hb. destruct (calc_hash_some k _ Hc) as [-> Hlt].
  destruct (lookup_lt_is_Some_2 l (Z.to_nat (hash k mod bucket_count m))) as [c ->]; [destruct Hb; lia|]. by exists c.
Qed.

(** [put] of a key that is not there. *)
Lemma put_result m M k v : repr m M -> M !! k = None -> Z.of_nat (base.size M) < 2 ^ 29 ->
  exists m' it, put m k v = Some (m', it) /\ repr m' (<[k := v]> M) /\ pair_of it = Some (k, v).
Proof.
  intros R0 Hk Hsz. unfold put, put0. destruct (repr_init m M R0) as [R1 Hl].
  destruct (room_result _ M R1 Hl Hsz) as (m' & l & -> & R & E). cbn [mbind option_bind]. rewrite E. pose proof (repr_size m' M R) as Hms. destruct R as [G P].
  destruct (bucket_at m' l k G E) as (c & -> & Hc & Hp). cbn [mbind option_bind]. rewrite Hc. cbn [mbind option_bind].
  destruct (placed_push _ l (k, v) c Hp (go_count _ G) Hc) as [Hp' Hj]. cbn [fst] in Hp', Hj.
  assert (contents m' = mjoin l) as Em by (unfold contents, buckets_of; by rewrite E).
  eexists _, _. split; [reflexivity|]. split; [|done]. split.
  - constructor; unfold contents, buckets_of; cbn [load_factor bucket_count bucket size]; [by destruct G|by destruct G|done| |].
    + rewrite Hms. unfold zlen. rewrite Hj. cbn [length]. rewrite <- Em, P, length_map_to_list. rewrite (wrap_small 64); [lia|unfold in_width; word_lia].
    + rewrite Hms, (wrap_small 64); [lia|unfold in_width; word_lia].
  - unfold contents at 1, buckets_of. cbn [bucket]. rewrite Hj, <- Em, P. symmetry. by apply map_to_list_insert.
Qed.

(** ** Looking up and removing *)
Lemma search_spec k c : (search k c = [] /\ forall v, (k, v) ∉ c) \/ exists v rest, search k c = (k, v) :: rest /\ (k, v) ∈ c.
Proof.
  induction c as [|[k' v'] c IH]; [left; split; [done|]; intros v Hv; by apply not_elem_of_nil in Hv|]. cbn [search fst].
  destruct (decide (k' = k)) as [->|Hne]; [right; exists v', c; split; [done|by left]|].
  destruct IH as [[-> Hn]|(v & rest & -> & Hin)]; [left; split; [done|]|right; exists v, rest; split; [done|by right]].
  intros v [[= <- <-]|Hv]%elem_of_cons; [done|by apply (Hn v)].
Qed.

Lemma unlink_spec k c : (unlink k c = None /\ forall v, (k, v) ∉ c) \/ exists v c', unlink k c = Some c' /\ c ≡ₚ (k, v) :: c'.
Proof.
  induction c as [|[k' v'] c IH]; [left; split; [done|]; intros v Hv; by apply not_elem_of_nil in Hv|]. cbn [unlink fst].
  destruct (decide (k' = k)) as [->|Hne]; [right; by exists v', c|].
  destruct IH as [[-> Hn]|(v & c' & -> & Hp)].
  - left. split; [done|]. intros v [[= <- <-]|Hv]%elem_of_cons; [done|by apply (Hn v)].
  - right. exists v, ((k', v') :: c'). split; [done|]. rewrite Hp. constructor.
Qed.

(** A key is only ever in its bucket. *)
Lemma elem_bucket m l k v c : good m -> bucket m = Allocated l -> l !! Z.to_nat (hash k mod bucket_count m) = Some c ->
  (k, v) ∈ contents m <-> (k, v) ∈ c.
Proof.
  intros G E Hc. destruct (bucket_at m l k G E) as (_ & _ & _ & [_ Hp]). unfold contents, buckets_of. rewrite E. rewrite list_elem_of_join. split.
  - intros (c' & Hin & [i Hi]%list_elem_of_lookup). pose proof (Hp i c' (k, v) Hi Hin) as ->. cbn [fst] in Hi. congruence.
  - intros Hin. exists c. split; [done|]. by apply list_elem_of_lookup_2 in Hc.
Qed.

Lemma find_result m M k : repr m M -> exists it, find m k = Some it /\ pair_of it = (fun v => (k, v)) <$> M !! k.
Proof.
  intros R. pose proof R as [G _]. unfold find. pose proof (fun v => repr_elem m M k v R) as Hm. destruct (bucket m) as [|l|] eqn:E; [| |by destruct G as [_ _ Hb _ _]; rewrite E in Hb].
  - eexists. split; [done|]. unfold contents, buckets_of in *. rewrite E in *.
    destruct (M !! k) as [v|] eqn:Ek; [|done]. destruct (Hm v) as [_ Hv]. by apply not_elem_of_nil in Hv.
  - unfold find0. rewrite E. destruct (bucket_at m l k G E) as (c & -> & Hc & _). cbn [mbind option_bind]. rewrite Hc. cbn [mbind option_bind].
    eexists. split; [reflexivity|]. destruct (search_spec k c) as [[-> Hn]|(v & rest & -> & Hin)].
    + destruct (M !! k) as [v|] eqn:Ek; [|done]. destruct (Hm v) as [_ Hv]. specialize (Hv eq_refl). apply (elem_bucket m l k v c G E Hc) in Hv. by destruct (Hn v).
    + apply (elem_bucket m l k v c G E Hc), (Hm v) in Hin. by rewrite Hin.
Qed.

Lemma remove_result m M k : repr m M -> exists m', remove m k = Some (bool_decide (is_Some (M !! k)), m') /\ repr m' (delete k M).
Proof.
  intros R. pose proof R as [G P]. unfold remove. pose proof (fun v => repr_elem m M k v R) as Hm.
  destruct (bucket m) as [|l|] eqn:E; [| |by destruct G as [_ _ Hb _ _]; rewrite E in Hb].
  - assert (M !! k = None) as Hk.
    { destruct (M !! k) as [v|] eqn:Ek; [|done]. destruct (Hm v) as [_ Hv]. specialize (Hv eq_refl). unfold contents, buckets_of in Hv. rewrite E in Hv. by apply not_elem_of_nil in Hv. }
    exists m. rewrite Hk, bool_decide_false by (by intros [? ?]). split; [done|]. by rewrite delete_id.
  - unfold remove0. rewrite E. destruct (bucket_at m l k G E) as (c & -> & Hc & Hp). cbn [mbind option_bind]. rewrite Hc. cbn [mbind option_bind].
    destruct (unlink_spec k c) as [[-> Hn]|(v & c' & -> & Hcp)].
    + assert (M !! k = None) as Hk.
      { destruct (M !! k) as [v|] eqn:Ek; [|done]. destruct (Hm v) as [_ Hv]. specialize (Hv eq_refl). apply (elem_bucket m l k v c G E Hc) in Hv. by destruct (Hn v). }
      exists m. rewrite Hk, bool_decide_false by (by intros [? ?]). split; [done|]. by rewrite delete_id.
    + assert (M !! k = Some v) as Hk by (apply (Hm v); apply (elem_bucket m l k v c G E Hc); rewrite Hcp; by left).
      set (i := Z.to_nat (hash k mod bucket_count m)) in *.
      assert (mjoin l ≡ₚ (k, v) :: mjoin (<[i := c']> l)) as Hj by (rewrite (join_at l i c), (join_insert l i c c') by done; by rewrite Hcp).
      assert (contents m = mjoin l) as Em by (unfold contents, buckets_of; by rewrite E).
      assert (size m - 1 = zlen (mjoin (<[i:=c']> l)) /\ size m <= 2 ^ 29) as [Hsz Hbd] by (split; [rewrite (go_size _ G), Em; unfold zlen; rewrite Hj; cbn [length]; lia|apply (go_bound _ G)]).
      eexists. rewrite Hk, bool_decide_true by by eexists. split; [reflexivity|]. split.
      * constructor; unfold contents, buckets_of; cbn [load_factor bucket_count bucket size]; [by destruct G|by destruct G| | |].
        -- split; [rewrite length_insert; by destruct Hp|]. intros j d x Hj' Hx. destruct Hp as [_ Hp].
           apply list_lookup_insert_Some in Hj' as [(<- & <- & _)|(_ & Hj')]; [|by apply (Hp j d)]. apply (Hp i c x Hc). rewrite Hcp. by right.
        -- rewrite Hsz. apply wrap_small. unfold in_width. pose proof (zlen_nonneg (mjoin (<[i:=c']> l))). word_lia.
        -- rewrite (wrap_small 64) by (unfold in_width; pose proof (zlen_nonneg (mjoin (<[i:=c']> l))); word_lia). lia.
      * unfold contents at 1, buckets_of. cbn [bucket].
        assert ((k, v) :: mjoin (<[i := c']> l) ≡ₚ (k, v) :: map_to_list (delete k M)) as Hp2 by (rewrite <- Hj, <- Em, P; symmetry; by apply map_to_list_delete).
        by apply Permutation_cons_inv in Hp2.
Qed.

(** ** Changing a value in its place *)
Lemma assign_chain_spec f k c v : NoDup (c.*1) -> (k, v) ∈ c -> exists c', c ≡ₚ (k, v) :: c' /\ assign_chain f k c ≡ₚ (k, f v) :: c'.
Proof.
  induction c as [|[k' v'] c IH]; intros Hnd Hin; [by apply not_elem_of_nil in Hin|]. cbn [assign_chain fst snd].
  cbn [fmap list_fmap fst] in Hnd. apply NoDup_cons in Hnd as [Hn Hnd]. destruct (decide (k' = k)) as [->|Hne].
  - apply elem_of_cons in Hin as [[= ->]|Hin]; [by exists c|]. exfalso. apply Hn. by apply (list_elem_of_fmap_2 fst _ _ Hin).
  - apply elem_of_cons in Hin as [[= -> _]|Hin]; [done|]. destruct (IH Hnd Hin) as (c' & E1 & E2). exists ((k', v') :: c').
    split; [rewrite E1|rewrite E2]; constructor.
Qed.

Lemma assign_result m M k f v : repr m M -> M !! k = Some v -> exists m', assign m k f = Some m' /\ repr m' (<[k := f v]> M).
Proof.
  intros R Hk. pose proof R as [G P]. pose proof (proj2 (repr_elem m M k v R) Hk) as Hin. unfold assign.
  destruct (bucket m) as [|l|] eqn:E; [unfold contents, buckets_of in Hin; rewrite E in Hin; by apply not_elem_of_nil in Hin| |by destruct G as [_ _ Hb _ _]; rewrite E in Hb].
  destruct (bucket_at m l k G E) as (c & -> & Hc & Hp). cbn [mbind option_bind]. rewrite Hc. cbn [mbind option_bind].
  apply (elem_bucket m l k v c G E Hc) in Hin. set (i := Z.to_nat (hash k mod bucket_count m)) in *.
  assert (contents m = mjoin l) as Em by (unfold contents, buckets_of; by rewrite E).
  assert (NoDup (c.*1)) as Hnd.
  { assert (NoDup ((mjoin l).*1)) as Hall by (rewrite <- Em, P; apply NoDup_fst_map_to_list).
    rewrite (join_at l i c Hc), fmap_app in Hall. by apply NoDup_app in Hall as [Hall _]. }
  destruct (assign_chain_spec f k c v Hnd Hin) as (c' & E1 & E2).
  assert (mjoin (<[i := assign_chain f k c]> l) ≡ₚ (k, f v) :: c' ++ mjoin (delete i l)) as Hj by (rewrite (join_insert l i c) by done; by rewrite E2).
  assert (contents m ≡ₚ (k, v) :: c' ++ mjoin (delete i l)) as Hj0 by (rewrite Em, (join_at l i c) by done; by rewrite E1).
  eexists. split; [reflexivity|]. split.
  - constructor; unfold contents, buckets_of; cbn [load_factor bucket_count bucket size]; [by destruct G|by destruct G| | |by destruct G].
    + split; [rewrite length_insert; by destruct Hp|]. intros j d x Hj' Hx. destruct Hp as [_ Hp].
      apply list_lookup_insert_Some in Hj' as [(<- & <- & _)|(_ & Hj')]; [|by apply (Hp j d)]. rewrite E2 in Hx.
      apply elem_of_cons in Hx as [->|Hx]; [done|]. apply (Hp i c x Hc). rewrite E1. by right.
    + rewrite (go_size _ G). unfold zlen. by rewrite Hj0, Hj.
  - unfold contents at 1, buckets_of. cbn [bucket]. rewrite Hj.
    assert (c' ++ mjoin (delete i l) ≡ₚ map_to_list (delete k M)) as ->.
    { apply (Permutation_cons_inv (a := (k, v))). rewrite <- Hj0, P. symmetry. by apply map_to_list_delete. }
    rewrite <- (insert_delete_eq M). symmetry. apply map_to_list_insert. by rewrite lookup_delete_eq.
Qed.

(** ** Iterating *)
Lemma first_from_spec (l : list (list (K * V))) : forall i,
  match first_from l i with
  | None => mjoin l = []
  | Some (j, c) => c <> [] /\ exists n, j = i + Z.of_nat n /\ mjoin l = c ++ mjoin (drop (S n) l)
  end.
Proof.
  induction l as [|c l IH]; intros i; [done|]. cbn [first_from]. destruct c as [|x c].
  - specialize (IH (i + 1)). destruct (first_from l (i + 1)) as [[j c]|]; [|exact IH].
    destruct IH as (Hne & n & -> & Hj). split; [done|]. exists (S n). split; [lia|exact Hj].
  - split; [done|]. exists 0%nat. split; [lia|done].
Qed.

Lemma visit_result (l : list (list (K * V))) : forall fuel i c, 0 <= i -> (length (c ++ mjoin (drop (Z.to_nat (i + 1)) l)) < fuel)%nat ->
  (c = [] -> mjoin (drop (Z.to_nat (i + 1)) l) = []) -> visit fuel (mkIt l i c) = Some (c ++ mjoin (drop (Z.to_nat (i + 1)) l)).
Proof.
  induction fuel as [|fuel IH]; intros i c Hi Hf Hc; [lia|]. cbn [visit]. unfold pair_of. cbn [it_current]. destruct c as [|x c]; [by rewrite Hc|].
  cbn [head]. unfold next. cbn [it_current it_bucket it_pos]. destruct c as [|y c].
  - pose proof (first_from_spec (drop (Z.to_nat (i + 1)) l) (i + 1)) as Hff. destruct (first_from _ _) as [[j c]|]; cbn [mbind option_bind].
    + destruct Hff as (Hne & n & -> & Hj). rewrite drop_drop in Hj. cbn [app length] in Hf. rewrite Hj in Hf.
      replace (Z.to_nat (i + 1) + S n)%nat with (Z.to_nat (i + 1 + Z.of_nat n + 1)) in Hj, Hf by lia.
      rewrite IH by (lia || done). cbn [mbind option_bind app]. by rewrite Hj.
    + rewrite Hff in Hf |- *. destruct fuel as [|fuel]; [cbn in Hf; lia|]. done.
  - cbn [mbind option_bind app length] in *. rewrite IH by (done || cbn [app length] in *; lia). done.
Qed.

Lemma iterate_result m M fuel : repr m M -> (length (contents m) < fuel)%nat ->
  exists it l, begin_ m = Some it /\ visit fuel it = Some l /\ l = contents m /\ l ≡ₚ map_to_list M.
Proof.
  intros [G P] Hf. unfold begin_, contents, buckets_of in *. pose proof (go_bucket _ G) as Hb. destruct (bucket m) as [|l|]; [| |done].
  - exists (end_ m), []. destruct fuel as [|fuel]; [cbn in Hf; lia|]. by split_and!.
  - pose proof (first_from_spec l 0) as Hff. destruct (first_from l 0) as [[j c]|].
    + destruct Hff as (Hne & n & -> & Hj). exists (mkIt l (0 + Z.of_nat n) c), (mjoin l). split_and!; try done. rewrite Hj in Hf |- *.
      replace (S n) with (Z.to_nat (0 + Z.of_nat n + 1)) in Hf |- * by lia. apply visit_result; [lia|done|done].
    + exists (end_ m), []. rewrite Hff in Hf, P. destruct fuel as [|fuel]; [lia|]. split_and!; try done.
Qed.

(** ** A sequence of operations on both *)
Inductive op := Put (k : K) (v : V) | Remove (k : K) | Find (k : K) | Size.
Inductive result := RPut | RRemove (b : bool) | RFind (v : option V) | RSize (n : Z).

Definition step_impl m (o : op) : option (HashMap K V * result) :=
  match o with
  | Put k v => '(m, _) ← put m k v; Some (m, RPut)
  | Remove k => '(b, m) ← remove m k; Some (m, RRemove b)
  | Find k => it ← find m k; Some (m, RFind (snd <$> pair_of it))
  | Size => Some (m, RSize (size m))
  end.

(** A key is put only when it is not there. *)
Definition step_spec M (o : op) : option (gmap K V * result) :=
  match o with
  | Put k v => match M !! k with None => Some (<[k := v]> M, RPut) | Some _ => None end
  | Remove k => Some (delete k M, RRemove (bool_decide (is_Some (M !! k))))
  | Find k => Some (M, RFind (M !! k))
  | Size => Some (M, RSize (Z.of_nat (base.size M)))
  end.

Fixpoint run_impl m (os : list op) : option (HashMap K V * list result) :=
  match os with [] => Some (m, []) | o :: os => '(m, r) ← step_impl m o; '(m, rs) ← run_impl m os; Some (m, r :: rs) end.

Fixpoint run_spec M (os : list op) : option (gmap K V * list result) :=
  match os with [] => Some (M, []) | o :: os => '(M, r) ← step_spec M o; '(M, rs) ← run_spec M os; Some (M, r :: rs) end.

Lemma step_result m M o M' r : repr m M -> Z.of_nat (base.size M) < 2 ^ 29 -> step_spec M o = Some (M', r) ->
  exists m', step_impl m o = Some (m', r) /\ repr m' M' /\ Z.of_nat (base.size M') <= Z.of_nat (base.size M) + 1.
Proof.
  intros R Hsz E. destruct o as [k v|k|k|]; cbn [step_spec step_impl] in *.
  - destruct (M !! k) eqn:Ek; [done|]. injection E as <- <-. destruct (put_result m M k v R Ek Hsz) as (m' & it & -> & R' & _).
    exists m'. split_and!; try done. rewrite map_size_insert_None by done. lia.
  - injection E as <- <-. destruct (remove_result m M k R) as (m' & -> & R'). exists m'. split_and!; try done. rewrite map_size_delete. destruct (M !! k); cbn; lia.
  - injection E as <- <-. destruct (find_result m M k R) as (it & -> & Hp). exists m. cbn [mbind option_bind]. rewrite Hp. destruct (M !! k); cbn; split_and!; (done || lia).
  - injection E as <- <-. exists m. rewrite (repr_size m M R). split_and!; (done || lia).
Qed.

Lemma run_result os : forall m M M' rs, repr m M -> Z.of_nat (base.size M) + zlen os <= 2 ^ 29 -> run_spec M os = Some (M', rs) ->
  exists m', run_impl m os = Some (m', rs) /\ repr m' M'.
Proof.
  induction os as [|o os IH]; intros m M M' rs R Hsz E; cbn [run_spec run_impl] in *; [injection E as <- <-; by exists m|].
  rewrite zlen_cons in Hsz. pose proof (zlen_nonneg os).
  destruct (step_spec M o) as [[M1 r]|] eqn:E1; [|done]. cbn [mbind option_bind] in E. destruct (run_spec M1 os) as [[M2 rs2]|] eqn:E2; [|done].
  injection E as <- <-. destruct (step_result m M o M1 r R ltac:(lia) E1) as (m1 & -> & R1 & Hs1). cbn [mbind option_bind].
  destruct (IH m1 M1 M2 rs2 R1 ltac:(lia) E2) as (m2 & -> & R2). by exists m2.
Qed.

(** C17: A hash map that is given every key at most once refines a finite map, whatever the hash function.  From
    the empty map every sequence of put, remove, find and size runs without undefined behaviour, across
    any growth of the bucket array, and answers exactly what the finite map answers; iterating the
    result gives every mapping exactly once. *)
Theorem hash_map_refines_map os M rs : zlen os <= 2 ^ 29 -> run_spec ∅ os = Some (M, rs) ->
  exists m it l, run_impl empty_map os = Some (m, rs) /\ begin_ m = Some it /\ visit (S (Z.to_nat (size m))) it = Some l /\ l ≡ₚ map_to_list M.
Proof.
  intros Hos E. destruct (run_result os empty_map ∅ M rs repr_empty) as (m & Em & R); [rewrite map_size_empty; lia|done|].
  destruct (iterate_result m M (S (Z.to_nat (size m))) R) as (it & l & Hb & Hv & _ & Hp).
  - destruct R as [G _]. rewrite (go_size _ G). unfold zlen. lia.
  - by exists m, it, l.
Qed.
End refinement.

Lemma hash_map_refines_map_witness :
  exists m it l, run_impl (empty_map (K := Z) (V := Z)) [Put 1 10; Put 2 20; Put 3 30; Put 4 40; Find 2; Remove 2; Find 2; Size]
      = Some (m, [RPut; RPut; RPut; RPut; RFind (Some 20); RRemove true; RFind None; RSize 3])
    /\ begin_ m = Some it /\ visit (S (Z.to_nat (size m))) it = Some l
    /\ l ≡ₚ map_to_list (delete 2 (<[4 := 40]> (<[3 := 30]> (<[2 := 20]> (<[1 := 10]> (∅ : gmap Z Z)))))).
Proof.
  apply (hash_map_refines_map (K := Z) (V := Z) [Put 1 10; Put 2 20; Put 3 30; Put 4 40; Find 2; Remove 2; Find 2; Size]); [discriminate|reflexivity].
Defined.

(** Putting a key again hides its first value until the map grows, then the first value is back. *)
Example put_again_forgotten :
  snd <$> run_impl (empty_map (K := Z) (V := Z)) [Put 1 10; Put 1 11; Find 1; Put 2 20; Put 3 30; Find 1; Size]
    = Some [RPut; RPut; RFind (Some 11); RPut; RPut; RFind (Some 10); RSize 4].
Proof. vm_compute. reflexivity. Qed.

(** A map that was never used cannot be destroyed: its nodes are looked for behind a null pointer. *)
Lemma unused_map_free {K V} `{EqDecision K} : free_nodes (empty_map : HashMap K V) = None.
Proof. done. Qed.

(** A cleared map has a dangling bucket array. *)
Lemma cleared_map_unusable {K V} `{EqDecision K} `{Hash K} (m : HashMap K V) l k v : bucket m = Allocated l ->
  exists m', clear m = Some m' /\ size m' = size m /\ find m' k = None /\ put m' k v = None.
Proof.
  intros E. unfold clear, free_nodes. rewrite E. eexists. split; [done|]. split; [done|]. split; [done|].
  unfold put, perform_lazy_init, put0. cbn [bucket]. by destruct (over_load _).
Qed.

(** Move assignment loses the entries of the right hand side and keeps those of the left. *)
Lemma move_assign_keeps_left {K V} `{EqDecision K} (this other : HashMap K V) : move_assign this other = Some (this, moved_from).
Proof. done. Qed.
End MapProps.
