(* ===== verification/Timer.v ===== *)
(** * The sleep queue and the programmable interval timer

    [DeltaQueue] models [CPU/Time/DeltaQueue.cpp] on the linked nodes of [Collections] and shows what
    it keeps: the absolute wake-up times.  [PIT] models the timer driver that uses it
    ([CPU/Time/PIT.cpp], [CPU/Time/Timer.cpp]) on top of the scheduler.  The end-of-interrupt signal, the
    threads' [timer_handle] and tracing are left out: nothing modelled here reads them. *)

From Stdlib Require Import Sorted.
From S2P Require Import Prelude Scheduler Collections.

Module DeltaQueue.
Export Collections.Dll.
Import Scheduler.Thread.

(** A node's element: [m_sleeping_thread] and [m_wake_time], the time after the predecessor's wake-up. *)
Abbreviation sleeper := (tptr * Z)%type.
Abbreviation heap := (gmap positive (node sleeper)).

Record DeltaQueue := mkDQ {
  nodes : heap;
  m_first : option loc;
  m_last : option loc;
}.

Definition empty_queue : DeltaQueue := mkDQ ∅ None None.

Definition add_wake (d : Z) (s : sleeper) : sleeper := (s.1, u64 (s.2 + d)).

Definition sub_wake (d : Z) (s : sleeper) : sleeper := (s.1, u64 (s.2 - d)).

Definition remove (q : DeltaQueue) (p : option loc) : option (option tptr * DeltaQueue) :=
  match p with
  | None => Some (None, q)
  | Some x =>
      n ← nodes q !! x;
      h ← if_not_null (next n) (fun y h =>
            h ← (if 0 <? (elem n).2 then set_elem y (add_wake (elem n).2) h else Some h);
            set_prev y (prev n) h) (nodes q);
      h ← if_not_null (prev n) (fun y => set_next y (next n)) h;
      let first := if decide (Some x = m_first q) then next n else m_first q in
      let last := if decide (Some x = m_last q) then prev n else m_last q in
      Some (Some (elem n).1, mkDQ (delete x h) first last)
  end.

Definition update_wake_time (q : DeltaQueue) (time_decrement : Z) : option DeltaQueue :=
  h ← if_not_null (m_first q) (fun y => set_elem y (sub_wake time_decrement)) (nodes q);
  Some (mkDQ h (m_first q) (m_last q)).

(** The loop of [enqueue]: the node to insert before, if any, and what is left of the wake time. *)
Fixpoint find_place (fuel : nat) (h : heap) (c : option loc) (w : Z) : option (option loc * Z) :=
  match fuel with
  | O => None
  | S fuel' =>
      match c with
      | None => Some (None, w)
      | Some y =>
          n ← h !! y;
          if (elem n).2 <=? w then find_place fuel' h (next n) (u64 (w - (elem n).2)) else Some (Some y, w)
      end
  end.

(** [x] is the address of the new node, whose fields are written in one go: nothing points to it
    before it is linked. *)
Definition enqueue (q : DeltaQueue) (x : loc) (thread : option tptr) (wake_time : Z) : option DeltaQueue :=
  match thread with
  | None => Some q
  | Some t =>
      match m_first q with
      | None => Some (mkDQ (<[x := mkNode (t, wake_time) None None]> (nodes q)) (Some x) (Some x))
      | Some _ =>
          '(c, w) ← find_place (S (size (nodes q))) (nodes q) (m_first q) wake_time;
          match c with
          | Some y =>
              n ← nodes q !! y;
              h ← match prev n with
                  | None =>
                      set_prev y (Some x) (<[x := mkNode (t, w) None (m_first q)]> (nodes q))
                  | Some p =>
                      h ← set_next p (Some x) (<[x := mkNode (t, w) (prev n) (Some y)]> (nodes q));
                      set_prev y (Some x) h
                  end;
              let first := match prev n with None => Some x | Some _ => m_first q end in
              nx ← h !! x;
              h ← if_not_null (next nx) (fun z => set_elem z (sub_wake w)) h;
              Some (mkDQ h first (m_last q))
          | None =>
              l ← m_last q;
              h ← set_next l (Some x) (<[x := mkNode (t, w) (Some l) None]> (nodes q));
              Some (mkDQ h (m_first q) (Some x))
          end
      end
  end.

Definition dequeue (q : DeltaQueue) : option (option tptr * DeltaQueue) :=
  match m_first q with
  | None => Some (None, q)
  | Some f => n ← nodes q !! f; if (elem n).2 =? 0 then remove q (Some f) else Some (None, q)
  end.

Fixpoint find_thread (fuel : nat) (h : heap) (c : option loc) (t : tptr) : option (option loc) :=
  match fuel with
  | O => None
  | S fuel' =>
      match c with
      | None => Some None
      | Some y => n ← h !! y; if decide ((elem n).1 = t) then Some (Some y) else find_thread fuel' h (next n) t
      end
  end.

Definition remove_waiting_thread (q : DeltaQueue) (thread : tptr) : option (bool * DeltaQueue) :=
  match m_first q with
  | None => Some (false, q)
  | Some _ =>
      p ← find_thread (S (size (nodes q))) (nodes q) (m_first q) thread;
      '(r, q) ← remove q p;
      Some (bool_decide (is_Some r), q)
  end.

(** ** What the queue means: absolute wake-up times *)

(** The wake-up times, counted from [base], of the threads with these differences. *)
Fixpoint due (base : Z) (vs : list sleeper) : list sleeper :=
  match vs with [] => [] | (t, d) :: vs' => (t, base + d) :: due (base + d) vs' end.

Definition total (vs : list sleeper) : Z := foldr (fun s z => s.2 + z) 0 vs.

(** Insertion into the list of wake-up times: behind everything that is due at the same time. *)
Fixpoint insert_due (s : sleeper) (ds : list sleeper) : list sleeper :=
  match ds with
  | [] => [s]
  | d :: ds' => if d.2 <=? s.2 then d :: insert_due s ds' else s :: d :: ds'
  end.

Record rep (q : DeltaQueue) (l : list (loc * sleeper)) : Prop := {
  rep_chain : chain (nodes q) l;
  rep_first : m_first q = head_loc l None;
  rep_last : m_last q = last_loc l None;
  rep_wakes : Forall (fun s => 0 <= s.2) l.*2;
  rep_bound : Forall (fun s => s.2 < 2 ^ 64) (due 0 l.*2);
}.

Lemma due_app b vs ws : due b (vs ++ ws) = due b vs ++ due (b + total vs) ws.
Proof.
  revert b. induction vs as [|[t d] vs IH]; intros b; cbn; [by rewrite Z.add_0_r|].
  rewrite IH. unfold total. cbn. by rewrite Z.add_assoc.
Qed.

Lemma due_shift b c vs : due (b + c) vs = prod_map id (Z.add b) <$> due c vs.
Proof.
  revert c. induction vs as [|[t d] vs IH]; intros c; cbn; [done|].
  rewrite <- IH, Z.add_assoc. done.
Qed.

Lemma total_nonneg vs : Forall (fun s : sleeper => 0 <= s.2) vs -> 0 <= total vs.
Proof. induction 1 as [|[t d] vs Hd _ IH]; cbn in *; [done|]. unfold total in IH. lia. Qed.

Lemma due_lower b vs : Forall (fun s : sleeper => 0 <= s.2) vs -> Forall (fun s => b <= s.2) (due b vs).
Proof.
  intros H. revert b. induction H as [|[t d] vs Hd _ IH]; intros b; cbn in *; constructor; cbn; [lia|].
  eapply Forall_impl; [apply IH|]. cbn. lia.
Qed.


(** *** Removal *)

(** The time of a removed thread goes to its successor. *)
Definition bump (w : Z) (vs : list sleeper) : list sleeper :=
  match vs with [] => [] | (u, d) :: vs' => (u, d + w) :: vs' end.

Lemma due_bump b w vs : due b (bump w vs) = due (b + w) vs.
Proof. destruct vs as [|[u d] vs]; cbn; [done|]. by rewrite (Z.add_comm d w), Z.add_assoc. Qed.

Lemma due_mid b vs1 t w vs2 :
  due b (vs1 ++ (t, w) :: vs2) = due b vs1 ++ (t, b + total vs1 + w) :: due (b + total vs1 + w) vs2.
Proof. by rewrite due_app. Qed.

Lemma due_bumped b vs1 w vs2 : due b (vs1 ++ bump w vs2) = due b vs1 ++ due (b + total vs1 + w) vs2.
Proof. by rewrite due_app, due_bump. Qed.

Lemma bump_wakes w vs : 0 <= w -> Forall (fun s : sleeper => 0 <= s.2) vs -> Forall (fun s => 0 <= s.2) (bump w vs).
Proof. intros Hw. destruct 1 as [|[u d] vs Hd Hvs]; constructor; cbn in *; [lia|done]. Qed.

Lemma rep_middle q l1 x t w l2 : rep q (l1 ++ (x, (t, w)) :: l2) ->
  0 <= w /\ Forall (fun s => 0 <= s.2) l1.*2 /\ Forall (fun s => 0 <= s.2) l2.*2
  /\ Forall (fun s => s.2 < 2 ^ 64) (due 0 l1.*2) /\ Forall (fun s => s.2 < 2 ^ 64) (due (total l1.*2 + w) l2.*2).
Proof.
  intros [_ _ _ Hw Hb]. rewrite fmap_app in *. cbn in *. rewrite due_mid in Hb.
  apply Forall_app in Hw as [H1 [H2 H3]%Forall_cons]. apply Forall_app in Hb as [B1 [B2 B3]%Forall_cons]. done.
Qed.

Lemma dq_remove_spec q l1 x t w l2 : rep q (l1 ++ (x, (t, w)) :: l2) ->
  exists q' l', remove q (Some x) = Some (Some t, q') /\ rep q' l' /\ l'.*2 = l1.*2 ++ bump w l2.*2.
Proof.
  intros Hr. destruct (rep_middle _ _ _ _ _ _ Hr) as (Hw & Hw1 & Hw2 & Hb1 & Hb2).
  destruct Hr as [Hc Hf Hl _ _]. pose proof (chain_mid _ _ _ _ _ Hc) as (_ & _ & Hx & _).
  pose proof (chain_nodup _ _ Hc) as Hnd.
  set (l2' := match l2 with [] => [] | (y, (u, d)) :: l2' => (y, (u, d + w)) :: l2' end).
  assert (l2'.*2 = bump w l2.*2) as El2 by (by destruct l2 as [|[y [u d]] l2]).
  assert (head_loc l2' None = head_loc l2 None) as Eh by (by destruct l2 as [|[y [u d]] l2]).
  assert (forall p, last_loc l2' p = last_loc l2 p) as Ell by (by destruct l2 as [|[y [u d]] l2]).
  assert (exists h, if_not_null (head_loc l2 None) (fun y h =>
      h ← (if 0 <? w then set_elem y (add_wake w) h else Some h); set_prev y (last_loc l1 None) h) (nodes q)
      = if_not_null (head_loc l2' None) (fun y => set_prev y (last_loc l1 None)) h
      /\ chain h (l1 ++ (x, (t, w)) :: l2')) as (h & E0 & Hc').
  { destruct l2 as [|[y [u d]] l2]; [by exists (nodes q)|]. cbn. destruct (0 <? w) eqn:E; bool_prop.
    - rewrite cons_middle, app_assoc in Hc. destruct (chain_set_elem _ _ _ _ _ (add_wake w) Hc) as (h & E1 & Hc').
      exists h. rewrite E1. cbn. split; [done|]. rewrite <- app_assoc in Hc'. cbn in Hc'.
      unfold add_wake in Hc'. cbn in Hc', Hb2. rewrite wrap_small in Hc'; [done|].
      apply Forall_cons in Hb2 as [Hd _]. apply Forall_cons in Hw2 as [Hd0 _]. cbn in *.
      pose proof (total_nonneg _ Hw1). split; lia.
    - exists (nodes q). assert (w = 0) as -> by lia. unfold l2'. by rewrite Z.add_0_r. }
  destruct (chain_unlink_rev _ _ _ _ _ Hc') as (h1 & h2 & E1 & E2 & Hcd). rewrite Eh in E2.
  unfold remove. rewrite Hx. cbn [mbind option_bind next prev elem fst snd]. rewrite E0, E1.
  cbn [mbind option_bind]. rewrite E2. cbn [mbind option_bind]. eexists _, (l1 ++ l2').
  split; [done|]. split; [|by rewrite fmap_app, El2]. split; cbn [nodes m_first m_last]; [done| | | |].
  - rewrite Hf. destruct l1 as [|[y s] l1]; cbn.
    + by rewrite decide_True, Eh.
    + rewrite decide_False; [done|]. intros [= ->]. cbn in Hnd. apply NoDup_cons in Hnd as [Hnd _].
      apply Hnd. rewrite fmap_app. apply elem_of_app. right. cbn. apply elem_of_cons. by left.
  - rewrite Hl, !last_loc_app, Ell. cbn. destruct l2 as [|[y s] l2 _] using rev_ind; cbn.
    + by rewrite decide_True.
    + rewrite !last_loc_snoc. rewrite decide_False; [done|]. intros [= <-].
      rewrite fmap_app in Hnd. apply NoDup_app in Hnd as (_ & _ & Hnd). cbn in Hnd.
      apply NoDup_cons in Hnd as [Hnd _]. apply Hnd. rewrite fmap_app. apply elem_of_app. right. cbn.
      by apply list_elem_of_singleton.
  - rewrite fmap_app, El2. apply Forall_app. split; [done|]. by apply bump_wakes.
  - rewrite fmap_app, El2, due_bumped. by apply Forall_app.
Qed.

(** *** The queue refines a list of absolute wake-up times *)

Definition rep_due (q : DeltaQueue) (ds : list sleeper) : Prop := exists l, rep q l /\ due 0 l.*2 = ds.

Lemma rep_due_empty : rep_due empty_queue [].
Proof. exists []. split; [|done]. split; cbn; [apply chain_empty|done|done|constructor|constructor]. Qed.

Lemma dq_dequeue_spec q ds : rep_due q ds ->
  exists r q', dequeue q = Some (r, q') /\
    match ds with
    | (t, d) :: ds' => if d =? 0 then r = Some t /\ rep_due q' ds' else r = None /\ q' = q
    | [] => r = None /\ q' = q
    end.
Proof.
  intros (l & Hr & Hd). unfold dequeue. rewrite (rep_first _ _ Hr).
  destruct l as [|[x [t w]] l]; cbn in Hd; subst ds; [by exists None, q|].
  pose proof (chain_mid _ [] _ _ _ (rep_chain _ _ Hr)) as (_ & _ & Hx & _). cbn [head_loc].
  rewrite Hx. cbn [mbind option_bind elem snd]. rewrite Z.add_0_l. destruct (w =? 0) eqn:E; bool_prop.
  - destruct (dq_remove_spec q [] x t w l Hr) as (q' & l' & E1 & Hr' & El). subst w. exists (Some t), q'.
    split; [done|]. split; [done|]. exists l'. split; [done|]. rewrite El. by apply due_bump.
  - by exists None, q.
Qed.

(** *** Insertion *)

Definition unbump (w : Z) (vs : list sleeper) : list sleeper :=
  match vs with [] => [] | (u, d) :: vs' => (u, d - w) :: vs' end.

(** The next thread after the place is due strictly later than [w]. *)
Definition later (w : Z) (vs : list sleeper) : Prop :=
  match vs with [] => True | (_, d) :: _ => w < d end.

Lemma due_unbump b w vs : due (b + w) (unbump w vs) = due b vs.
Proof. destruct vs as [|[u d] vs]; cbn; [done|]. by replace (b + w + (d - w)) with (b + d) by lia. Qed.

Lemma find_place_spec h l : forall fuel q w, seg h q l None -> (length l < fuel)%nat ->
  Forall (fun s => 0 <= s.2) l.*2 -> in_width 64 w ->
  exists l1 l2, l = l1 ++ l2 /\ find_place fuel h (head_loc l None) w = Some (head_loc l2 None, w - total l1.*2)
    /\ 0 <= w - total l1.*2 /\ later (w - total l1.*2) l2.*2.
Proof.
  induction l as [|[x [t d]] l IH]; intros fuel q w Hs Hf Hw Hww; (destruct fuel as [|fuel]; [cbn in Hf; lia|]).
  - exists [], []. cbn. rewrite Z.sub_0_r. destruct Hww. done.
  - cbn in Hs, Hf, Hw. destruct Hs as [Hx Hs]. apply Forall_cons in Hw as [Hd Hw]. cbn in Hd.
    cbn [find_place head_loc]. rewrite Hx. cbn [mbind option_bind elem snd next].
    destruct (d <=? w) eqn:E; bool_prop.
    + assert (u64 (w - d) = w - d) as -> by (apply wrap_small; destruct Hww; split; lia).
      destruct (IH fuel (Some x) (w - d)) as (l1 & l2 & -> & E1 & H1 & H2); [done|lia|done|destruct Hww; split; lia|].
      exists ((x, (t, d)) :: l1), l2. cbn. fold (total l1.*2).
      replace (w - (d + total l1.*2)) with (w - d - total l1.*2) by lia. done.
    + exists [], ((x, (t, d)) :: l). cbn. rewrite Z.sub_0_r. destruct Hww. done.
Qed.

Lemma insert_due_split t w vs1 : forall b vs2,
  Forall (fun s : sleeper => 0 <= s.2) vs1 -> 0 <= w -> later w vs2 ->
  insert_due (t, b + total vs1 + w) (due b (vs1 ++ vs2))
  = due b vs1 ++ (t, b + total vs1 + w) :: due (b + total vs1) vs2.
Proof.
  induction vs1 as [|[u d] vs1 IH]; intros b vs2 Hw Hw0 Hl; cbn.
  - rewrite Z.add_0_r. destruct vs2 as [|[u d] vs2]; cbn; [done|]. cbn in Hl.
    by rewrite (proj2 (Z.leb_gt _ _)) by lia.
  - apply Forall_cons in Hw as [Hd Hw]. cbn in Hd. pose proof (total_nonneg _ Hw). fold (total vs1).
    rewrite (proj2 (Z.leb_le _ _)) by lia. rewrite Z.add_assoc. by rewrite IH.
Qed.

(** The nodes around the place are linked to the new node, and the next node's difference shrinks. *)
Lemma enqueue_link q l1 y u d l2 x t w :
  rep q (l1 ++ (y, (u, d)) :: l2) -> nodes q !! x = None -> 0 <= w < d ->
  exists h, (n ← nodes q !! y;
    h ← match prev n with
        | None => set_prev y (Some x) (<[x := mkNode (t, w) None (m_first q)]> (nodes q))
        | Some p =>
            h ← set_next p (Some x) (<[x := mkNode (t, w) (prev n) (Some y)]> (nodes q));
            set_prev y (Some x) h
        end;
    nx ← h !! x;
    h ← if_not_null (next nx) (fun z => set_elem z (sub_wake w)) h;
    Some (mkDQ h (match prev n with None => Some x | Some _ => m_first q end) (m_last q))) = Some (mkDQ h (head_loc (l1 ++ [(x, (t, w))]) None) (m_last q))
  /\ chain h (l1 ++ (x, (t, w)) :: (y, (u, d - w)) :: l2).
Proof.
  intros Hr Hx Hw. destruct (rep_middle _ _ _ _ _ _ Hr) as (_ & Hw1 & _ & _ & _). destruct Hr as [Hc Hf Hl _ Hb].
  assert (u64 (d - w) = d - w) as Ed.
  { apply wrap_small. rewrite fmap_app in Hb. cbn in Hb. rewrite due_mid in Hb.
    apply Forall_app in Hb as [_ [Hb _]%Forall_cons]. cbn in Hb. pose proof (total_nonneg _ Hw1). split; lia. }
  pose proof (chain_mid _ _ _ _ _ Hc) as (_ & _ & Hy & _). rewrite Hy. cbn [mbind option_bind prev].
  destruct (chain_link _ l1 x (t, w) _ Hc Hx) as (h1 & h2 & E1 & E2 & Hc'). cbn [head_loc if_not_null] in E1, E2.
  pose proof (chain_mid _ _ _ _ _ Hc') as (_ & _ & Hnx & _). cbn [head_loc] in Hnx.
  rewrite cons_middle, app_assoc in Hc'. destruct (chain_set_elem _ _ _ _ _ (sub_wake w) Hc') as (h3 & E3 & Hc3).
  exists h3. unfold sub_wake at 1 in Hc3. cbn in Hc3. rewrite Ed, <- app_assoc in Hc3. split; [|done].
  destruct (last_loc l1 None) as [p|] eqn:El.
  - cbn [if_not_null] in E1. rewrite E1. cbn [mbind option_bind]. rewrite E2. cbn [mbind option_bind].
    rewrite Hnx. cbn [mbind option_bind next if_not_null]. rewrite E3. cbn. do 2 f_equal.
    rewrite Hf. by destruct l1 as [|[]].
  - apply LinkedList.last_none in El as ->. cbn in E1. simplify_eq. rewrite Hf. cbn [app head_loc]. rewrite E2.
    cbn [mbind option_bind]. rewrite Hnx. cbn [mbind option_bind next if_not_null]. rewrite E3. done.
Qed.

Lemma due_inserted l1 t w l2 :
  Forall (fun s : sleeper => 0 <= s.2) l1 -> 0 <= w -> later w l2 ->
  due 0 (l1 ++ (t, w) :: unbump w l2) = insert_due (t, total l1 + w) (due 0 (l1 ++ l2)).
Proof.
  intros H1 H2 H3. rewrite due_mid, due_unbump.
  pose proof (insert_due_split t w l1 0 l2 H1 H2 H3) as E. rewrite Z.add_0_l in E. by rewrite E.
Qed.

Lemma insert_due_bound (B : Z) s ds : s.2 < B -> Forall (fun s : sleeper => s.2 < B) ds ->
  Forall (fun s => s.2 < B) (insert_due s ds).
Proof.
  intros Hs. induction 1 as [|d ds Hd Hds IH]; cbn; [by repeat constructor|]. destruct (_ <=? _); by repeat constructor.
Qed.

Lemma unbump_wakes w vs : later w vs -> Forall (fun s : sleeper => 0 <= s.2) vs -> Forall (fun s => 0 <= s.2) (unbump w vs).
Proof. intros Hl H. destruct H as [|[u d] vs Hd Hvs]; constructor; cbn in *; [lia|done]. Qed.

Lemma dq_enqueue_spec q ds x t w : rep_due q ds -> nodes q !! x = None -> in_width 64 w ->
  exists q', enqueue q x (Some t) w = Some q' /\ rep_due q' (insert_due (t, w) ds).
Proof.
  intros (l & Hr & <-) Hx Hw. unfold enqueue. destruct Hw as [Hw0 Hw64].
  destruct (m_first q) as [f|] eqn:Ef.
  - rewrite <- Ef, (rep_first _ _ Hr).
    destruct (find_place_spec (nodes q) l (S (size (nodes q))) None w) as (l1 & l2 & -> & E & Hge & Hlt);
      [apply (rep_chain _ _ Hr)|rewrite (chain_size _ _ (rep_chain _ _ Hr)); lia|apply (rep_wakes _ _ Hr)|done|].
    rewrite E. cbn [mbind option_bind]. set (w' := w - total l1.*2) in *.
    pose proof (rep_wakes _ _ Hr) as Hwk. rewrite fmap_app in Hwk. apply Forall_app in Hwk as [Hwk1 Hwk2].
    pose proof (due_inserted l1.*2 t w' l2.*2 Hwk1 Hge Hlt) as Edue.
    replace (total l1.*2 + w') with w in Edue by (unfold w'; lia).
    assert (forall q' l', chain (nodes q') l' -> m_first q' = head_loc l' None -> m_last q' = last_loc l' None ->
      l'.*2 = l1.*2 ++ (t, w') :: unbump w' l2.*2 -> rep_due q' (insert_due (t, w) (due 0 (l1 ++ l2).*2))) as Hdone.
    { intros q' l' Hc' Hf' Hl' Ev. exists l'. rewrite Ev, fmap_app. split; [|done]. split; [done..| |].
      - rewrite Ev. apply Forall_app. split; [done|]. constructor; [done|]. by apply unbump_wakes.
      - rewrite Ev, Edue. apply insert_due_bound; [done|]. rewrite <- fmap_app. apply (rep_bound _ _ Hr). }
    destruct l2 as [|[y [u d]] l2]; cbn [head_loc].
    + rewrite app_nil_r in Hr. rewrite (rep_last _ _ Hr).
      pose proof (rep_chain _ _ Hr) as Hc. rewrite <- (app_nil_r l1) in Hc.
      destruct (chain_link _ l1 x (t, w') [] Hc Hx) as (h1 & h2 & E1 & E2 & Hc'). cbn in E2. simplify_eq.
      destruct (last_loc l1 None) as [p|] eqn:El.
      2: { apply LinkedList.last_none in El as ->. rewrite (rep_first _ _ Hr) in Ef. done. }
      cbn in E1. cbn [mbind option_bind]. rewrite E1. cbn [mbind option_bind]. eexists. split; [done|].
      eapply Hdone; cbn [nodes m_first m_last]; [exact Hc'| |by rewrite last_loc_snoc|by rewrite fmap_app].
      rewrite (rep_first _ _ Hr) in *. by destruct l1 as [|[]].
    + destruct (enqueue_link q l1 y u d l2 x t w' Hr Hx) as (h & Eh & Hc'); [cbn in Hlt; lia|].
      rewrite <- (rep_first _ _ Hr).
      rewrite Eh. eexists. split; [done|]. eapply Hdone; cbn [nodes m_first m_last]; [exact Hc'| | |].
      * by rewrite !head_loc_app.
      * by rewrite (rep_last _ _ Hr), !last_loc_app.
      * by rewrite fmap_app.
  - rewrite (rep_first _ _ Hr) in Ef. apply LinkedList.head_none in Ef as ->.
    pose proof (rep_chain _ _ Hr) as Hc.
    destruct (chain_link _ [] x (t, w) [] Hc Hx) as (h1 & h2 & E1 & E2 & Hc'). cbn in E1, E2. simplify_eq.
    eexists. split; [done|]. exists [(x, (t, w))]. split; [|done].
    split; cbn; [done..| |]; repeat constructor; cbn; lia.
Qed.

(** *** The passing of time, and stopping a sleeping thread *)

Definition shift (c : Z) (ds : list sleeper) : list sleeper := prod_map id (Z.add c) <$> ds.

Lemma update_wake_time_spec q ds e : rep_due q ds -> 0 <= e -> Forall (fun s => e <= s.2) ds ->
  exists q', update_wake_time q e = Some q' /\ rep_due q' (shift (- e) ds).
Proof.
  intros (l & Hr & <-) He Hds. unfold update_wake_time. pose proof (rep_chain _ _ Hr) as Hc.
  pose proof (rep_bound _ _ Hr) as Hb. pose proof (rep_wakes _ _ Hr) as Hw.
  destruct l as [|[x [t w]] l].
  - rewrite (rep_first _ _ Hr). cbn. eexists. split; [done|]. exists []. split; [|done].
    split; cbn; [done|done|by rewrite (rep_last _ _ Hr)|constructor|constructor].
  - destruct (chain_set_elem _ [] x (t, w) l (sub_wake e) Hc) as (h & E & Hc').
    rewrite (rep_first _ _ Hr). cbn [head_loc if_not_null]. rewrite E. cbn [mbind option_bind].
    eexists. split; [done|]. cbn in Hds, Hb, Hw. apply Forall_cons in Hds as [Hds _]. cbn in Hds.
    apply Forall_cons in Hb as [Hb1 Hb]. apply Forall_cons in Hw as [Hw1 Hw]. cbn in Hb1, Hw1.
    unfold sub_wake in Hc'. cbn in Hc'. rewrite wrap_small in Hc' by (split; lia).
    exists ((x, (t, w - e)) :: l). cbn [fmap list_fmap snd].
    assert (due 0 ((t, w - e) :: l.*2) = shift (- e) (due 0 ((t, w) :: l.*2))) as Edue.
    { unfold shift. rewrite <- due_shift. cbn. rewrite Z.add_0_r. by replace (- e + w) with (w - e) by lia. }
    split; [|done]. split; cbn [nodes m_first m_last]; [done|done|by rewrite (rep_last _ _ Hr)| |].
    + cbn. constructor; [cbn; lia|done].
    + cbn [fmap list_fmap snd]. rewrite Edue. apply Forall_fmap. cbn. constructor; [cbn; lia|].
      eapply Forall_impl; [exact Hb|]. intros [u c]. cbn. lia.
Qed.

Lemma find_thread_spec h t l : forall fuel q, seg h q l None -> (length l < fuel)%nat ->
  find_thread fuel h (head_loc l None) t = Some ((fun r => r.2.1) <$> list_find (fun xs => xs.2.1 = t) l).
Proof.
  induction l as [|[x [u d]] l IH]; intros fuel q Hs Hf; (destruct fuel as [|fuel]; [cbn in Hf; lia|]); [done|].
  cbn in Hs, Hf. destruct Hs as [Hx Hs]. cbn [find_thread head_loc list_find]. rewrite Hx. cbn.
  destruct (decide (u = t)) as [->|Hne]; [done|].
  rewrite (IH fuel (Some x)) by (done || lia). by rewrite <- option_fmap_compose.
Qed.

(** The first wake-up of thread [t] is forgotten. *)
Fixpoint remove_due (t : tptr) (ds : list sleeper) : list sleeper :=
  match ds with [] => [] | d :: ds' => if decide (d.1 = t) then ds' else d :: remove_due t ds' end.

Lemma remove_due_skip t a ds1 ds2 : Forall (fun s : sleeper => s.1 <> t) ds1 ->
  remove_due t (ds1 ++ (t, a) :: ds2) = ds1 ++ ds2.
Proof.
  induction 1 as [|s ds1 Hs _ IH]; cbn; [by rewrite decide_True|]. by rewrite decide_False, IH by done.
Qed.

Lemma remove_due_none t ds : Forall (fun s : sleeper => s.1 <> t) ds -> remove_due t ds = ds.
Proof. induction 1 as [|s ds Hs _ IH]; cbn; [done|]. by rewrite decide_False, IH by done. Qed.

Lemma due_threads (P : tptr -> Prop) vs : forall b,
  Forall (fun s : sleeper => P s.1) vs -> Forall (fun s => P s.1) (due b vs).
Proof.
  induction vs as [|[t d] vs IH]; intros b H; [constructor|]. apply Forall_cons in H as [H1 H2].
  constructor; [done|]. by apply IH.
Qed.

Lemma remove_waiting_thread_spec q ds t : rep_due q ds ->
  exists q', remove_waiting_thread q t = Some (bool_decide (t ∈ ds.*1), q') /\ rep_due q' (remove_due t ds).
Proof.
  intros (l & Hr & <-). unfold remove_waiting_thread. pose proof (rep_chain _ _ Hr) as Hc.
  destruct (m_first q) as [f|] eqn:Ef.
  - rewrite <- Ef, (rep_first _ _ Hr), (find_thread_spec _ t l _ None) by (apply Hc || (rewrite (chain_size _ _ Hc); lia)).
    destruct (list_find _ l) as [[i [x [u w]]]|] eqn:E; cbn [fmap option_fmap option_map mbind option_bind snd fst].
    + apply LinkedList.list_find_split in E as (l1 & l2 & -> & _ & Ev & Hl1). cbn in Ev. subst u.
      destruct (dq_remove_spec q l1 x t w l2 Hr) as (q' & l' & E & Hr' & El). rewrite E. cbn.
      assert (Forall (fun s : sleeper => s.1 <> t) l1.*2) as Hne by (by apply Forall_fmap).
      exists q'. split.
      * do 2 f_equal. symmetry. apply bool_decide_eq_true_2. rewrite fmap_app. cbn. rewrite due_mid, fmap_app.
        apply elem_of_app. right. cbn. apply elem_of_cons. by left.
      * exists l'. split; [done|]. rewrite El, due_bumped, fmap_app. cbn. rewrite due_mid.
        by rewrite remove_due_skip by (by apply (due_threads (fun u => u <> t))).
    + apply list_find_None in E.
      assert (Forall (fun s : sleeper => s.1 <> t) (due 0 l.*2)) as Hne.
      { apply (due_threads (fun u => u <> t)). by apply Forall_fmap. }
      exists q. split; [|exists l; by rewrite remove_due_none]. cbn. do 2 f_equal. symmetry. apply bool_decide_eq_false_2.
      intros (s & -> & Hs)%list_elem_of_fmap. rewrite Forall_forall in Hne. by eapply Hne.
  - rewrite (rep_first _ _ Hr) in Ef. apply LinkedList.head_none in Ef as ->. exists q. split; [done|]. by exists [].
Qed.

(** What [first] points to. *)
Definition head_wake (q : DeltaQueue) : option Z := f ← m_first q; n ← nodes q !! f; Some (elem n).2.

Lemma update_head_wake q w d : head_wake q = Some w ->
  exists q', update_wake_time q d = Some q' /\ head_wake q' = Some (u64 (w - d)).
Proof.
  unfold head_wake, update_wake_time. destruct (m_first q) as [f|]; [|done]. cbn. unfold set_elem.
  destruct (nodes q !! f) as [n|]; [|done]. cbn. intros [= <-]. eexists. split; [done|]. cbn.
  by rewrite lookup_insert_eq.
Qed.

Lemma dequeue_early q w : head_wake q = Some w -> w <> 0 -> dequeue q = Some (None, q).
Proof.
  unfold head_wake, dequeue. destruct (m_first q) as [f|]; [|done]. cbn.
  destruct (nodes q !! f) as [n|]; [|done]. cbn. intros [= <-] Hw. by rewrite (proj2 (Z.eqb_neq _ _)).
Qed.
End DeltaQueue.

(** ** The timer driver *)
Module PIT.
Import DeltaQueue Scheduler.Thread Scheduler.Sched.

Definition QUARTZ_FREQUENCY_HZ : Z := 1193182.

Record PIT := mkPIT {
  count : Z;                       (* _count: interrupts since boot *)
  freq_hz : Z;
  quantum : Z;
  quantum_remaining : Z;           (* a U32 *)
  time_between_irq : Z;            (* in nanoseconds *)
  sleeping_threads : DeltaQueue;
}.

(** [start], up to the registration of the handler: the driver's fields and the two bytes of the
    frequency divider that are written to the timer; [None]: division by zero. *)
Definition start (p : PIT) (frequency q : Z) : option (PIT * (Z * Z)) :=
  let freq := if QUARTZ_FREQUENCY_HZ <? frequency then QUARTZ_FREQUENCY_HZ else frequency in
  if freq =? 0 then None
  else
    let pit_divider := QUARTZ_FREQUENCY_HZ / freq in
    Some (mkPIT (count p) freq q (u32 q) (1000000000 / freq) (sleeping_threads p),
          (Z.land pit_divider 255, Z.land (Z.shiftr pit_divider 8) 255)).

Definition get_time_since_start (p : PIT) : Z := u64 (count p * time_between_irq p).

(** The loop of the interrupt handler that wakes the threads whose time has come: the woken
    threads, the queue, the scheduler and whether one of them is next in the ready queue. *)
Fixpoint wake_loop (fuel : nat) (q : DeltaQueue) (s : Scheduler) (do_preempt : bool)
    : option (list tptr * DeltaQueue * Scheduler * bool) :=
  match fuel with
  | O => None
  | S fuel' =>
      '(c_t, q) ← dequeue q;
      match c_t with
      | None => Some ([], q, s, do_preempt)
      | Some t =>
          s ← unblock s (Some t);
          let pre := do_preempt || bool_decide (MultiLevelQueue.peek (ready_queue s) = Some t) in
          '(ts, q, s, pre) ← wake_loop fuel' q s pre;
          Some (t :: ts, q, s, pre)
      end
  end.

(** The interrupt handler.  The result starts with the threads it woke. *)
Definition irq (p : PIT) (s : Scheduler) : option (list tptr * PIT * Scheduler) :=
  q ← update_wake_time (sleeping_threads p) (time_between_irq p);
  '(ts, q, s, pre) ← wake_loop (S (size (nodes q))) q s false;
  let expired := quantum_remaining p <=? 0 in
  let remaining := if expired then u32 (quantum p) else u32 (quantum_remaining p - time_between_irq p) in
  s ← (if pre || expired then preempt_running_thread s else Some s);
  Some (ts, mkPIT (u64 (count p + 1)) (freq_hz p) (quantum p) remaining (time_between_irq p) q, s).

Definition remove_sleeping_thread (p : PIT) (t : tptr) : option (bool * PIT) :=
  '(b, q) ← remove_waiting_thread (sleeping_threads p) t;
  Some (b, mkPIT (count p) (freq_hz p) (quantum p) (quantum_remaining p) (time_between_irq p) q).

(** [x] is the address of the queue's new node. *)
Definition sleep_until (p : PIT) (s : Scheduler) (x : loc) (wake_time_nanos : Z) : option (PIT * Scheduler) :=
  let tsb := get_time_since_start p in
  if wake_time_nanos <=? tsb then Some (p, s)
  else
    let sleep_time_nanos := u64 (wake_time_nanos - tsb) in
    let calling_thread := running_thread s in
    s ← mark_as_block_pending s;
    q ← enqueue (sleeping_threads p) x (Some calling_thread) sleep_time_nanos;
    let p := mkPIT (count p) (freq_hz p) (quantum p) (u32 (quantum p)) (time_between_irq p) q in
    s ← block_running s;
    Some (p, s).

(** [Timer::sleep_nano] and its relatives: [k] nanoseconds per unit. *)
Definition sleep_units (k : Z) (p : PIT) (s : Scheduler) (x : loc) (time : Z) : option (PIT * Scheduler) :=
  sleep_until p s x (u64 (get_time_since_start p + u64 (time * k))).

Definition sleep_nano := sleep_units 1.
Definition sleep_micro := sleep_units 1000.
Definition sleep_milli := sleep_units 1000000.
Definition sleep_second := sleep_units 1000000000.

(** *** The abstract timer: the time and the sleeping threads with the times they asked for *)

Record sleepers (p : PIT) (A : list sleeper) : Prop := {
  sl_time : 0 <= count p /\ 0 < time_between_irq p /\ count p * time_between_irq p < 2 ^ 64;
  sl_queue : exists ds, rep_due (sleeping_threads p) ds /\ A = shift (count p * time_between_irq p) ds;
  sl_grid : Forall (fun a => count p * time_between_irq p < a.2 /\ (time_between_irq p | a.2)) A;
}.

(** *** Frames of the scheduler's operations *)

Lemma rq_enqueue_threads s t ok s' : rq_enqueue s t = Some (ok, s') -> threads s' = threads s.
Proof.
  unfold rq_enqueue. destruct (threads s !! t); [|done]. cbn. destruct (MultiLevelQueue.enqueue _ _ _).
  by intros [= <- <-].
Qed.

Lemma set_state_frame s t st s' u : set_state s t st = Some s' -> u <> t -> threads s' !! u = threads s !! u.
Proof.
  unfold set_state. destruct (threads s !! t); [|done]. cbn. intros [= <-] Hne. cbn. by apply lookup_insert_ne.
Qed.

Lemma unblock_frame s t s' u : unblock s (Some t) = Some s' -> u <> t -> threads s' !! u = threads s !! u.
Proof.
  cbn. destruct (thread_state s t) as [st|]; [|done]. cbn. case_decide; [by intros [= <-]|]. case_decide.
  - intros E Hne. by eapply set_state_frame.
  - destruct (rq_enqueue s t) as [[ok s1]|] eqn:E; [|done]. cbn. apply rq_enqueue_threads in E as <-.
    destruct ok; [|by intros [= <-]]. intros E Hne. by eapply set_state_frame.
Qed.

Lemma unblock_known s t th : wf s -> threads s !! t = Some th ->
  exists s', unblock s (Some t) = Some s' /\ wf s' /\ running_thread s' = running_thread s
    /\ (state th = BLOCKED -> t <> running_thread s -> policy th <> P_NONE -> thread_state s' t = Some READY).
Proof.
  intros Hwf Ht. pose proof (unblock_spec s t th Hwf Ht) as Hu. case_decide as Hs.
  - destruct Hu as (s' & E & Hwf' & Hr & _ & H & _). exists s'. repeat (split; [done|]). intros _ Hne Hp. by apply H.
  - exists s. split; [done|]. split; [done|]. split; [done|]. tauto.
Qed.

Lemma unblock_keeps s t s' u : unblock s (Some t) = Some s' -> is_Some (threads s !! u) -> is_Some (threads s' !! u).
Proof.
  intros E Hu. destruct (decide (u = t)) as [->|Hne]; [|by erewrite unblock_frame].
  assert (forall s0 st s1, set_state s0 t st = Some s1 -> is_Some (threads s1 !! t)) as Hset.
  { intros s0 st s1. unfold set_state. destruct (threads s0 !! t); [|done]. cbn. intros [= <-]. cbn.
    rewrite lookup_insert_eq. by eexists. }
  cbn in E. destruct (thread_state s t) as [st|]; [|done]. cbn in E. case_decide; [by simplify_eq|].
  case_decide; [by eapply Hset|].
  destruct (rq_enqueue s t) as [[ok s1]|] eqn:Er; [|done]. cbn in E. apply rq_enqueue_threads in Er.
  destruct ok; [by eapply Hset|]. simplify_eq. by rewrite Er.
Qed.

(** *** Sorted wake-up times *)

Abbreviation before := (fun a b : sleeper => a.2 <= b.2).

Lemma due_sorted vs : forall b, Forall (fun s : sleeper => 0 <= s.2) vs -> StronglySorted before (due b vs).
Proof.
  induction vs as [|[t d] vs IH]; intros b H; cbn; [constructor|]. apply Forall_cons in H as [Hd H].
  constructor; [by apply IH|]. by apply due_lower.
Qed.

Lemma rep_due_sorted q ds : rep_due q ds -> StronglySorted before ds /\ Forall (fun s => 0 <= s.2) ds.
Proof.
  intros (l & Hr & <-). pose proof (rep_wakes _ _ Hr). split; [by apply due_sorted|by apply due_lower].
Qed.

Lemma filter_none (P : sleeper -> Prop) `{!forall x, Decision (P x)} ds :
  Forall (fun s => ~ P s) ds -> filter P ds = [].
Proof. induction 1 as [|s ds Hs _ IH]; [done|]. by rewrite filter_cons_False. Qed.

Lemma filter_all (P : sleeper -> Prop) `{!forall x, Decision (P x)} ds : Forall P ds -> filter P ds = ds.
Proof. induction 1 as [|s ds Hs _ IH]; [done|]. by rewrite filter_cons_True, IH. Qed.

Definition woken (ds : list sleeper) : list tptr := (filter (fun s => s.2 = 0) ds).*1.

Lemma wake_loop_spec ds : forall fuel q s pre,
  rep_due q ds -> wf s -> Forall (fun a => is_Some (threads s !! a.1)) ds -> (length ds < fuel)%nat ->
  exists q' s' pre', wake_loop fuel q s pre = Some (woken ds, q', s', pre')
    /\ rep_due q' (filter (fun a => 0 < a.2) ds) /\ wf s' /\ running_thread s' = running_thread s
    /\ (forall u, u ∉ woken ds -> threads s' !! u = threads s !! u)
    /\ (NoDup (woken ds) -> forall t th, t ∈ woken ds -> threads s !! t = Some th -> state th = BLOCKED ->
          t <> running_thread s -> policy th <> P_NONE -> thread_state s' t = Some READY).
Proof.
  induction ds as [|[t d] ds IH]; intros fuel q s pre Hq Hwf Hk Hf; (destruct fuel as [|fuel]; [cbn in Hf; lia|]);
    cbn [wake_loop]; destruct (dq_dequeue_spec _ _ Hq) as (r & q1 & E & Hcase); rewrite E; cbn [mbind option_bind].
  - destruct Hcase as [-> ->]. exists q, s, pre. repeat (split; [done|]).
    intros _ t th Hin. by apply not_elem_of_nil in Hin.
  - destruct (rep_due_sorted _ _ Hq) as [Hsort Hpos]. apply Forall_cons in Hpos as [Hd Hpos]. cbn in Hd.
    destruct (d =? 0) eqn:Ed; bool_prop.
    + destruct Hcase as [-> Hq1]. subst d. apply Forall_cons in Hk as [[th Ht] Hk]. cbn in Ht.
      destruct (unblock_known s t th Hwf Ht) as (s1 & E1 & Hwf1 & Hr1 & Hready). rewrite E1. cbn [mbind option_bind].
      destruct (IH fuel q1 s1 (pre || bool_decide (MultiLevelQueue.peek (ready_queue s1) = Some t))%bool)
        as (q' & s' & pre' & E2 & Hq' & Hwf' & Hr' & Hframe & Hwoken); [done|done| |cbn in Hf; lia|].
      { eapply Forall_impl; [exact Hk|]. intros [u a] Hu. cbn in *. by eapply unblock_keeps. }
      rewrite E2. cbn [mbind option_bind]. exists q', s', pre'.
      assert (woken ((t, 0) :: ds) = t :: woken ds) as -> by (unfold woken; by rewrite filter_cons_True).
      rewrite filter_cons_False by (cbn; lia).
      split; [done|]. split; [done|]. split; [done|]. split; [congruence|]. split.
      * intros u Hu. rewrite not_elem_of_cons in Hu. destruct Hu as [Hne Hu]. rewrite Hframe by done.
        by eapply unblock_frame.
      * intros [Hnin Hnd]%NoDup_cons u thu Hin Hu Hb Hrun Hp. destruct (decide (u = t)) as [->|Hne].
        -- rewrite Ht in Hu. simplify_eq. unfold thread_state. rewrite Hframe by done. by apply Hready.
        -- apply elem_of_cons in Hin as [->|Hin]; [done|]. apply (Hwoken Hnd u thu); try done; [|congruence].
           rewrite <- Hu. by eapply unblock_frame.
    + destruct Hcase as [-> ->]. exists q, s, pre.
      apply StronglySorted_inv in Hsort as [_ Hall].
      assert (Forall (fun a : sleeper => 0 < a.2) ((t, d) :: ds)) as Hlt.
      { constructor; [cbn; lia|]. eapply Forall_impl; [exact Hall|]. cbn. lia. }
      assert (woken ((t, d) :: ds) = []) as ->.
      { unfold woken. rewrite filter_none; [done|]. eapply Forall_impl; [exact Hlt|]. cbn. lia. }
      rewrite (filter_all (fun a : sleeper => 0 < a.2)) by done. repeat (split; [done|]).
      intros _ u th Hin. by apply not_elem_of_nil in Hin.
Qed.

Lemma rep_due_length q ds : rep_due q ds -> length ds = size (nodes q).
Proof.
  intros (l & Hr & <-). rewrite (chain_size _ _ (rep_chain _ _ Hr)), <- (length_fmap snd l).
  generalize 0. induction (l.*2) as [|[t d] vs IH]; intros b; cbn; [done|by rewrite IH].
Qed.

(** One tick in absolute times. *)
Lemma tick_woken n e ds : Forall (fun a : sleeper => e <= a.2) ds ->
  woken (shift (- e) ds) = (filter (fun a => a.2 <= n + e) (shift n ds)).*1.
Proof.
  unfold woken. induction 1 as [|[t d] ds Hd _ IH]; [done|]. cbn [shift fmap list_fmap prod_map id fst snd] in *.
  cbn in Hd. destruct (decide (d = e)) as [->|Hne].
  - rewrite !filter_cons_True by (cbn; lia). cbn. by f_equal.
  - rewrite !filter_cons_False by (cbn; lia). done.
Qed.

Lemma tick_rest n e ds : Forall (fun a : sleeper => e <= a.2) ds ->
  shift (n + e) (filter (fun a => 0 < a.2) (shift (- e) ds)) = filter (fun a => n + e < a.2) (shift n ds).
Proof.
  induction 1 as [|[t d] ds Hd _ IH]; [done|]. cbn [shift fmap list_fmap prod_map id fst snd] in *. cbn in Hd.
  destruct (decide (d = e)) as [->|Hne].
  - rewrite !filter_cons_False by (cbn; lia). done.
  - rewrite !filter_cons_True by (cbn; lia). cbn. f_equal; [|done]. f_equal. lia.
Qed.

Lemma shift_known n ds (P : tptr -> Prop) : Forall (fun a => P a.1) (shift n ds) <-> Forall (fun a => P a.1) ds.
Proof. unfold shift. rewrite Forall_fmap. apply Forall_iff. by intros [t d]. Qed.

(** Every sleeper is at least one tick away. *)
Lemma grid_distance p ds : 0 < time_between_irq p ->
  Forall (fun a : sleeper => count p * time_between_irq p < a.2 /\ (time_between_irq p | a.2))
    (shift (count p * time_between_irq p) ds) ->
  Forall (fun a => time_between_irq p <= a.2) ds.
Proof.
  intros Ht. unfold shift. rewrite Forall_fmap. intros H. eapply Forall_impl; [exact H|].
  intros [t d] [Hlt [k Hk]]. cbn in *. assert (d = (k - count p) * time_between_irq p) as -> by lia.
  assert (0 < k - count p) by nia. nia.
Qed.

Lemma nodup_filter (P : sleeper -> Prop) `{!forall x, Decision (P x)} ds : NoDup ds.*1 -> NoDup (filter P ds).*1.
Proof.
  induction ds as [|a ds IH]; intros Hnd; [done|]. cbn in Hnd. apply NoDup_cons in Hnd as [Hnin Hnd].
  rewrite filter_cons. case_decide; cbn; [|by apply IH]. apply NoDup_cons. split; [|by apply IH].
  intros (b & Eb & Hb)%list_elem_of_fmap. apply Hnin, list_elem_of_fmap. exists b. split; [done|].
  by apply list_elem_of_filter in Hb as [_ Hb].
Qed.

(** A thread that is READY before a context switch runs or waits in the ready queue afterwards. *)
Lemma ready_after_preempt s s' t : wf s -> perform_context_switch s = Some s' ->
  thread_state s t = Some READY -> t <> running_thread s -> wf s' /\ (t = running_thread s' \/ t ∈ queued s').
Proof.
  intros Hwf E Ht Hne. pose proof Hwf as [_ (th & Hr & _)].
  destruct (perform_context_switch_spec s th Hwf Hr) as (s1 & E1 & Hwf' & Hcase). rewrite E in E1. simplify_eq.
  split; [done|]. pose proof (inv_live _ _ (wf_inv _ Hwf') t) as Hl. unfold thread_state in Ht.
  apply fmap_Some in Ht as (tht & Ht & Hst). destruct Hcase as [[_ ->]|Hsw].
  - apply (Hl tht); [done|by left].
  - destruct (decide (t = next_choice s)) as [->|Hnn]; [left; by destruct (sw_running _ _ _ _ Hsw)|].
    apply (Hl tht); [|by left]. by rewrite (sw_others _ _ _ _ Hsw).
Qed.

(** C36: when every thread asked for a multiple of the timer's period, an interrupt wakes exactly the
    threads whose wake-up time has come, in the order of their times, and keeps the others with their
    times; a woken thread that was blocked is running or in the ready queue afterwards. *)
Theorem irq_wakes_exactly_the_due p s A :
  sleepers p A -> wf s -> Forall (fun a => is_Some (threads s !! a.1)) A ->
  let now := (count p + 1) * time_between_irq p in
  now < 2 ^ 64 ->
  exists p' s', irq p s = Some ((filter (fun a => a.2 <= now) A).*1, p', s')
    /\ get_time_since_start p' = now /\ sleepers p' (filter (fun a => now < a.2) A) /\ wf s'
    /\ (NoDup A.*1 -> forall t th, t ∈ (filter (fun a => a.2 <= now) A).*1 -> threads s !! t = Some th ->
          state th = BLOCKED -> t <> running_thread s -> policy th <> P_NONE ->
          t = running_thread s' \/ t ∈ queued s').
Proof.
  intros [(Hc0 & Ht0 & Hb) (ds & Hq & ->) Hgrid] Hwf Hk now Hnow. set (n := count p * time_between_irq p) in *.
  assert (now = n + time_between_irq p) as En by (unfold now, n; lia).
  pose proof (grid_distance p ds Ht0 Hgrid) as Hdist.
  destruct (update_wake_time_spec _ ds (time_between_irq p) Hq) as (q & E1 & Hq1); [lia|done|].
  unfold irq. rewrite E1. cbn [mbind option_bind].
  destruct (wake_loop_spec _ (S (size (nodes q))) q s false Hq1 Hwf) as (q' & s1 & pre & E2 & Hq2 & Hwf1 & Hr1 & _ & Hready).
  { apply (shift_known (- time_between_irq p) ds (fun t => is_Some (threads s !! t))).
    by apply (shift_known n ds (fun t => is_Some (threads s !! t))) in Hk. }
  { rewrite (rep_due_length _ _ Hq1). lia. }
  rewrite E2. cbn [mbind option_bind]. rewrite (tick_woken n) in * by done. rewrite <- En in *.
  pose proof Hwf1 as [_ (thr & Hthr & _)].
  assert (exists s', (if (pre || (quantum_remaining p <=? 0))%bool then preempt_running_thread s1 else Some s1) = Some s'
      /\ wf s' /\ forall t, thread_state s1 t = Some READY -> t <> running_thread s1 -> t = running_thread s' \/ t ∈ queued s')
    as (s' & E3 & Hwf' & Hrun).
  { destruct (_ || _)%bool.
    - destruct (perform_context_switch_spec s1 thr Hwf1 Hthr) as (s' & E3 & Hwf' & _). exists s'.
      split; [done|]. split; [done|]. intros t Ht Hne. by apply (ready_after_preempt s1 s' t).
    - exists s1. split; [done|]. split; [done|]. intros t Ht Hne. unfold thread_state in Ht.
      apply fmap_Some in Ht as (tht & Ht & Hst). apply (inv_live _ _ (wf_inv _ Hwf1) t tht Ht). by left. }
  rewrite E3. cbn [mbind option_bind]. eexists _, s'. split; [done|].
  assert (u64 (count p + 1) = count p + 1) as Ecnt.
  { apply wrap_small. split; [lia|]. unfold now in Hnow. nia. }
  split; [|split; [|split; [done|]]].
  - unfold get_time_since_start. cbn. rewrite Ecnt. apply wrap_small. split; [|done]. unfold now. nia.
  - split; cbn; rewrite Ecnt.
    + fold now. split; [lia|]. split; done.
    + fold now. eexists. split; [exact Hq2|]. rewrite En. by rewrite <- tick_rest.
    + fold now. apply Forall_forall. intros a [Ha Hin]%list_elem_of_filter. split; [done|].
      rewrite Forall_forall in Hgrid. by apply Hgrid.
  - intros Hnd t th Hin Ht Hst Hne Hp. apply Hrun; [|congruence]. apply (fun H => Hready H t th); try done.
    by apply nodup_filter.
Qed.

(** *** Going to sleep *)

Lemma shift_insert n t w ds : shift n (insert_due (t, w) ds) = insert_due (t, n + w) (shift n ds).
Proof.
  unfold shift. induction ds as [|[u d] ds IH]; [done|]. cbn. destruct (d <=? w) eqn:E; bool_prop.
  - rewrite (proj2 (Z.leb_le _ _)) by lia. cbn. by rewrite IH.
  - rewrite (proj2 (Z.leb_gt _ _)) by lia. done.
Qed.

Lemma insert_due_forall (P : sleeper -> Prop) a ds : P a -> Forall P ds -> Forall P (insert_due a ds).
Proof. intros Ha. induction 1 as [|d ds Hd Hds IH]; cbn; [by repeat constructor|]. destruct (_ <=? _); by repeat constructor. Qed.

Lemma sleep_until_spec p s A x wake :
  sleepers p A -> wf s -> nodes (sleeping_threads p) !! x = None ->
  count p * time_between_irq p < wake < 2 ^ 64 -> (time_between_irq p | wake) ->
  exists p' s', sleep_until p s x wake = Some (p', s') /\ count p' = count p
    /\ time_between_irq p' = time_between_irq p
    /\ sleepers p' (insert_due (running_thread s, wake) A) /\ wf s' /\ running_thread s ∉ queued s'.
Proof.
  intros [(Hc0 & Ht0 & Hb) (ds & Hq & ->) Hgrid] Hwf Hx Hw Hdiv. set (n := count p * time_between_irq p) in *.
  assert (0 <= n) by (unfold n; nia).
  assert (get_time_since_start p = n) as En by (unfold get_time_since_start; apply wrap_small; split; lia).
  unfold sleep_until. rewrite En, (proj2 (Z.leb_gt _ _)) by lia.
  destruct (mark_as_block_pending_spec s Hwf) as (s1 & E1 & Hwf1 & Hst & Hr1 & _). rewrite E1.
  cbn [mbind option_bind]. rewrite (wrap_small 64 (wake - n)) by (split; lia).
  destruct (dq_enqueue_spec _ ds x (running_thread s) (wake - n) Hq Hx) as (q & E2 & Hq'); [split; lia|].
  rewrite E2. cbn [mbind option_bind]. unfold thread_state in Hst. apply fmap_Some in Hst as (th & Hth & Hst).
  pose proof (block_spec s1 _ th Hwf1 Hth) as Hblk. rewrite decide_True in Hblk by done.
  destruct Hblk as (s' & E3 & Hwf' & Hnq & _). unfold block_running. rewrite Hr1, E3. cbn [mbind option_bind].
  eexists _, s'. split; [done|]. split; [done|]. split; [done|]. split; [|done]. split; cbn.
  - done.
  - exists (insert_due (running_thread s, wake - n) ds). split; [done|]. fold n. rewrite shift_insert.
    by replace (n + (wake - n)) with wake by lia.
  - fold n. apply (insert_due_forall (fun a => n < a.2 /\ (time_between_irq p | a.2))); [|done].
    cbn. split; [lia|done].
Qed.

Lemma sleep_until_wf p s x wake p' s' : sleep_until p s x wake = Some (p', s') -> wf s -> wf s'.
Proof.
  unfold sleep_until. destruct (_ <=? _); [by intros [= <- <-]|]. intros E Hwf.
  destruct (mark_as_block_pending_spec s Hwf) as (s1 & E1 & Hwf1 & _). rewrite E1 in E. cbn [mbind option_bind] in E.
  destruct (enqueue _ _ _ _); [|done]. cbn [mbind option_bind] in E. unfold block_running in E.
  pose proof Hwf1 as [_ (th & Ht & _)]. pose proof (block_spec s1 _ th Hwf1 Ht) as Hb. case_decide.
  - destruct Hb as (s2 & Eb & Hwf2 & _). rewrite Eb in E. cbn in E. by simplify_eq.
  - rewrite Hb in E. cbn in E. by simplify_eq.
Qed.

(** a thread that sleeps until a later multiple of the period leaves the processor's queue and is
    kept with the very time it asked for, behind the threads that are due before or at that time; the
    times of the others do not change. *)
Theorem sleep_until_records_wake_time p s A x wake :
  sleepers p A -> wf s -> nodes (sleeping_threads p) !! x = None ->
  count p * time_between_irq p < wake < 2 ^ 64 -> (time_between_irq p | wake) ->
  exists p' s', sleep_until p s x wake = Some (p', s')
    /\ sleepers p' (insert_due (running_thread s, wake) A) /\ wf s' /\ running_thread s ∉ queued s'.
Proof.
  intros H1 H2 H3 H4 H5. destruct (sleep_until_spec p s A x wake H1 H2 H3 H4 H5) as (p' & s' & H). exists p', s'. tauto.
Qed.

(** *** Sleep times off the grid *)

(** [k] interrupts in a row and all the threads they wake. *)
Fixpoint irqs (k : nat) (p : PIT) (s : Scheduler) : option (list tptr * PIT * Scheduler) :=
  match k with
  | O => Some ([], p, s)
  | S k' => '(ts, p, s) ← irq p s; '(us, p, s) ← irqs k' p s; Some (ts ++ us, p, s)
  end.

Lemma irq_asleep p s w : head_wake (sleeping_threads p) = Some w -> u64 (w - time_between_irq p) <> 0 -> wf s ->
  exists p' s', irq p s = Some ([], p', s') /\ time_between_irq p' = time_between_irq p /\ wf s'
    /\ head_wake (sleeping_threads p') = Some (u64 (w - time_between_irq p)).
Proof.
  intros Hh Hne Hwf. unfold irq. destruct (update_head_wake _ w (time_between_irq p) Hh) as (q & E1 & Hq).
  rewrite E1. cbn [mbind option_bind wake_loop]. rewrite (dequeue_early _ _ Hq Hne). cbn [mbind option_bind].
  pose proof Hwf as [_ (th & Hr & _)]. destruct (_ || _)%bool.
  - destruct (perform_context_switch_spec s th Hwf Hr) as (s' & E3 & Hwf' & _). unfold preempt_running_thread.
    rewrite E3. cbn [mbind option_bind]. eexists _, s'. split; [done|]. split; [done|]. by split.
  - cbn [mbind option_bind]. eexists _, s. split; [done|]. split; [done|]. by split.
Qed.

Lemma off_grid_stalls k : forall p s w,
  head_wake (sleeping_threads p) = Some w -> 0 < time_between_irq p -> wf s ->
  (exists w0 j, 0 <= w0 < 2 ^ 64 /\ ~ (time_between_irq p | w0) /\ 0 <= j /\ w = u64 (w0 - j * time_between_irq p)
     /\ (j + Z.of_nat k) * time_between_irq p < 2 ^ 64) ->
  exists p' s', irqs k p s = Some ([], p', s').
Proof.
  induction k as [|k IH]; intros p s w Hh Ht Hwf (w0 & j & Hw0 & Hnd & Hj & -> & Hb); [by exists p, s|].
  assert (u64 (u64 (w0 - j * time_between_irq p) - time_between_irq p) = u64 (w0 - (j + 1) * time_between_irq p)) as E.
  { unfold wrap. rewrite Zminus_mod_idemp_l. f_equal. lia. }
  destruct (irq_asleep p s _ Hh) as (p1 & s1 & E1 & Et & Hwf1 & Hh1); [|done|].
  - rewrite E. unfold wrap. intros Hz. apply Z.mod_divide in Hz as [m Hm]; [|lia].
    apply Hnd. exists (j + 1). assert (m = 0) by nia. lia.
  - cbn [irqs]. rewrite E1. cbn [mbind option_bind].
    destruct (IH p1 s1 _ Hh1) as (p' & s' & E2); [lia|done| |rewrite E2; by exists p', s'].
    exists w0, (j + 1). rewrite Et. rewrite E. repeat split; try lia; done.
Qed.

(** a thread whose sleep is not a multiple of the timer's period is never woken, and neither is any
    thread behind it: for as long as the time in nanoseconds fits 64 bits no interrupt wakes anybody,
    because its remaining time is never exactly zero. *)
Theorem off_grid_sleeper_stalls p s w k :
  head_wake (sleeping_threads p) = Some w -> in_width 64 w -> ~ (time_between_irq p | w) ->
  0 < time_between_irq p -> Z.of_nat k * time_between_irq p < 2 ^ 64 -> wf s ->
  exists p' s', irqs k p s = Some ([], p', s').
Proof.
  intros Hh Hw Hnd Ht Hk Hwf. apply (off_grid_stalls k p s w Hh Ht Hwf). exists w, 0.
  rewrite Z.mul_0_l, Z.sub_0_r, (wrap_small 64 w Hw). split; [exact Hw|]. split; [done|]. split; [done|]. split; [done|lia].
Qed.

(** *** A small machine: a timer at 1 kHz and the threads of the scheduler's example, thread 3 running *)

Definition demo_timer : PIT := mkPIT 0 1000 50000000 50000000 1000000 empty_queue.

Lemma demo_sleepers : sleepers demo_timer [].
Proof. split; cbn; [lia| |constructor]. exists []. split; [apply rep_due_empty|done]. Qed.

Lemma demo_running : wf (Sched.run demo_ops) /\ running_thread (Sched.run demo_ops) = 3%nat.
Proof. split; [apply demo_running_wf|vm_compute; reflexivity]. Qed.

Lemma sleep_until_records_wake_time_witness :
  exists p' s', sleep_until demo_timer (Sched.run demo_ops) 1%positive 2000000 = Some (p', s')
    /\ sleepers p' [(3%nat, 2000000)] /\ 3%nat ∉ queued s'.
Proof.
  destruct demo_running as [Hwf Hr].
  destruct (sleep_until_records_wake_time demo_timer (Sched.run demo_ops) [] 1%positive 2000000)
    as (p' & s' & E & Hs & _ & Hq); [exact demo_sleepers|exact Hwf|reflexivity|cbn; lia|by exists 2|].
  rewrite Hr in Hs, Hq. exists p', s'. split; [exact E|]. split; [exact Hs|exact Hq].
Defined.

(** Thread 3 sleeps for one period; the next interrupt wakes it. *)
Lemma irq_wakes_exactly_the_due_witness :
  exists p' s' p'' s'', sleep_until demo_timer (Sched.run demo_ops) 1%positive 1000000 = Some (p', s')
    /\ irq p' s' = Some ([3%nat], p'', s'') /\ sleepers p'' [].
Proof.
  destruct demo_running as [Hwf Hr].
  destruct (sleep_until_spec demo_timer (Sched.run demo_ops) [] 1%positive 1000000)
    as (p' & s' & E & Ec & Et & Hs & Hwf' & _); [exact demo_sleepers|exact Hwf|reflexivity|cbn; lia|by exists 1|].
  rewrite Hr in Hs. cbn in Ec, Et, Hs.
  destruct (irq_wakes_exactly_the_due p' s' [(3%nat, 1000000)] Hs Hwf') as (p'' & s'' & E2 & _ & Hs2 & _).
  - repeat constructor. cbn. vm_compute in E. injection E as _ <-. by eexists.
  - rewrite Ec, Et. lia.
  - rewrite Ec, Et in E2, Hs2. exists p', s', p'', s''. split; [exact E|]. split; [exact E2|exact Hs2].
Defined.

(** A sleep of 1.5 periods: ten interrupts wake nobody. *)
Lemma off_grid_sleeper_stalls_witness :
  exists p' s' p'' s'', sleep_micro demo_timer (Sched.run demo_ops) 1%positive 1500 = Some (p', s')
    /\ irqs 10 p' s' = Some ([], p'', s'').
Proof.
  destruct demo_running as [Hwf Hr].
  destruct (sleep_micro demo_timer (Sched.run demo_ops) 1%positive 1500) as [[p' s']|] eqn:E;
    [|vm_compute in E; discriminate E].
  assert (time_between_irq p' = 1000000 /\ head_wake (sleeping_threads p') = Some 1500000) as [Et Eh].
  { vm_compute in E. injection E as <- _. split; reflexivity. }
  pose proof (sleep_until_wf _ _ _ _ _ _ E Hwf) as Hwf'.
  destruct (off_grid_sleeper_stalls p' s' 1500000 10 Eh) as (p'' & s'' & E2).
  - done.
  - rewrite Et. intros [m Hm]. lia.
  - rewrite Et. lia.
  - rewrite Et. lia.
  - exact Hwf'.
  - exists p', s', p'', s''. split; [reflexivity|exact E2].
Defined.
End PIT.
