(* ===== verification/CLib.v ===== *)
(** * The C library functions of the kernel

    Memory is a finite map from addresses to bytes; an access to an address that is not mapped has
    no result.  [Crl] models the memory functions of [KRE/CRL/CRL.cpp] and [Str] the string functions
    that ACPICA is linked against ([Device/ACPI/ACPICA/CLibFunctions.cpp]). *)

From S2P Require Import Prelude.

Abbreviation mem := (gmap Z Z).

(** [l] is stored at address [p]. *)
Fixpoint bytes_at (m : mem) (p : Z) (l : list Z) : Prop :=
  match l with [] => True | b :: l' => m !! p = Some b /\ bytes_at m (p + 1) l' end.

(** A C string: the characters and a terminator. *)
Definition cstr_at (m : mem) (p : Z) (s : list Z) : Prop :=
  bytes_at m p (s ++ [0]) /\ Forall (fun c => c <> 0) s.

Lemma bytes_at_app m l1 : forall p l2, bytes_at m p (l1 ++ l2) <-> bytes_at m p l1 /\ bytes_at m (p + zlen l1) l2.
Proof.
  induction l1 as [|b l1 IH]; intros p l2; cbn.
  - rewrite zlen_nil, Z.add_0_r. tauto.
  - rewrite IH, zlen_cons, Z.add_assoc. tauto.
Qed.

Lemma bytes_at_lookup m l : forall p i b, bytes_at m p l -> l !! i = Some b -> m !! (p + Z.of_nat i) = Some b.
Proof.
  induction l as [|c l IH]; intros p i b Hm Hi; [done|]. cbn in Hm. destruct Hm as [Hp Hm], i as [|i]; cbn in Hi.
  - simplify_eq. by rewrite Z.add_0_r.
  - apply (IH (p + 1)) in Hi; [|done]. rewrite <- Hi. f_equal. lia.
Qed.

Lemma bytes_at_intro m l : forall p, (forall i b, l !! i = Some b -> m !! (p + Z.of_nat i) = Some b) -> bytes_at m p l.
Proof.
  induction l as [|c l IH]; intros p H; cbn; [done|]. split; [rewrite <- (Z.add_0_r p); by apply (H 0%nat)|].
  apply IH. intros i b Hi. rewrite <- (H (S i) b Hi). f_equal. lia.
Qed.

Lemma bytes_at_frame m m' l : forall p,
  (forall q, p <= q < p + zlen l -> m' !! q = m !! q) -> bytes_at m p l -> bytes_at m' p l.
Proof.
  induction l as [|b l IH]; intros p Hf; cbn; [done|]. rewrite zlen_cons in Hf. pose proof (zlen_nonneg l).
  intros [Hp Hl]. split; [rewrite Hf; [done|lia]|]. apply IH; [|done]. intros q Hq. apply Hf. lia.
Qed.

(** ** CRL.cpp *)
Module Crl.
(** A store; writing to an unmapped address is a fault. *)
Definition store (m : mem) (p b : Z) : option mem :=
  match m !! p with Some _ => Some (<[p := b]> m) | None => None end.

Fixpoint memset (m : mem) (dest chr : Z) (count : nat) : option mem :=
  match count with
  | O => Some m
  | S n => m ← store m dest (u8 chr); memset m (dest + 1) chr n
  end.

Fixpoint memcpy (m : mem) (dest src : Z) (count : nat) : option mem :=
  match count with
  | O => Some m
  | S n => b ← m !! src; m ← store m dest b; memcpy m (dest + 1) (src + 1) n
  end.

(** The loop from the end. *)
Fixpoint copy_backward (m : mem) (dest src : Z) (count : nat) : option mem :=
  match count with
  | O => Some m
  | S n => b ← m !! (src + Z.of_nat n); m ← store m (dest + Z.of_nat n) b; copy_backward m dest src n
  end.

Definition memmove (m : mem) (dest src : Z) (count : nat) : option mem :=
  let sourceEnd := src + Z.of_nat count in
  if (dest <=? sourceEnd) && (sourceEnd <=? dest + Z.of_nat count)
  then copy_backward m dest src count
  else memcpy m dest src count.

Fixpoint memcmp (m : mem) (lhs rhs : Z) (count : nat) : option Z :=
  match count with
  | O => Some 0
  | S n =>
      a ← m !! lhs; b ← m !! rhs;
      if a <? b then Some (-1) else if b <? a then Some 1 else memcmp m (lhs + 1) (rhs + 1) n
  end.

(** The bytes of a range are mapped. *)
Definition mapped (m : mem) (p n : Z) : Prop := forall q, p <= q < p + n -> is_Some (m !! q).

(** [m'] is [m] with the [n] bytes at [dest] replaced by those [m] has at [src]. *)
Definition copied (m m' : mem) (dest src n : Z) : Prop :=
  forall q, m' !! q = if decide (dest <= q < dest + n) then m !! (src + (q - dest)) else m !! q.

Lemma store_mapped m p b n q : is_Some (m !! p) -> exists m', store m p b = Some m' /\ m' = <[p := b]> m
  /\ (mapped m q n -> mapped m' q n).
Proof.
  intros [a Ha]. unfold store. rewrite Ha. eexists. split; [done|]. split; [done|]. intros Hm r Hr.
  destruct (decide (r = p)) as [->|Hne]; [rewrite lookup_insert_eq; by eexists|].
  rewrite lookup_insert_ne by done. by apply Hm.
Qed.

(** Copying forward is right unless the source overlaps the destination from the left. *)
Lemma memcpy_spec n : forall m dest src,
  mapped m dest (Z.of_nat n) -> mapped m src (Z.of_nat n) -> dest <= src \/ src + Z.of_nat n <= dest ->
  exists m', memcpy m dest src n = Some m' /\ copied m m' dest src (Z.of_nat n).
Proof.
  induction n as [|n IH]; intros m dest src Hd Hs Hov.
  - exists m. split; [done|]. intros q. by rewrite decide_False by lia.
  - cbn [memcpy]. destruct (Hs src) as [b Hb]; [lia|]. rewrite Hb. cbn [mbind option_bind].
    destruct (store_mapped m dest b (Z.of_nat n) (dest + 1)) as (m1 & E1 & Em1 & Hd1); [apply Hd; lia|].
    rewrite E1. cbn [mbind option_bind].
    destruct (IH m1 (dest + 1) (src + 1)) as (m' & E & Hc).
    + apply Hd1. intros q Hq. apply Hd. lia.
    + intros q Hq. subst m1. destruct (decide (q = dest)) as [->|Hne]; [rewrite lookup_insert_eq; by eexists|].
      rewrite lookup_insert_ne by done. apply Hs. lia.
    + lia.
    + exists m'. split; [done|]. intros q. rewrite Hc. subst m1.
      destruct (decide (q = dest)) as [->|Hne].
      * rewrite decide_False, lookup_insert_eq, decide_True by lia. by rewrite Z.sub_diag, Z.add_0_r.
      * rewrite (lookup_insert_ne _ dest q) by done. destruct (decide (dest <= q < dest + Z.of_nat (S n))).
        -- rewrite decide_True by lia. rewrite lookup_insert_ne by lia. f_equal. lia.
        -- by rewrite decide_False by lia.
Qed.

Lemma copy_backward_spec n : forall m dest src,
  mapped m dest (Z.of_nat n) -> mapped m src (Z.of_nat n) -> src <= dest \/ dest + Z.of_nat n <= src ->
  exists m', copy_backward m dest src n = Some m' /\ copied m m' dest src (Z.of_nat n).
Proof.
  induction n as [|n IH]; intros m dest src Hd Hs Hov.
  - exists m. split; [done|]. intros q. by rewrite decide_False by lia.
  - cbn [copy_backward]. destruct (Hs (src + Z.of_nat n)) as [b Hb]; [lia|]. rewrite Hb. cbn [mbind option_bind].
    destruct (store_mapped m (dest + Z.of_nat n) b (Z.of_nat n) dest) as (m1 & E1 & Em1 & Hd1); [apply Hd; lia|].
    rewrite E1. cbn [mbind option_bind].
    destruct (IH m1 dest src) as (m' & E & Hc).
    + apply Hd1. intros q Hq. apply Hd. lia.
    + intros q Hq. subst m1. destruct (decide (q = dest + Z.of_nat n)) as [->|Hne]; [rewrite lookup_insert_eq; by eexists|].
      rewrite lookup_insert_ne by done. apply Hs. lia.
    + lia.
    + exists m'. split; [done|]. intros q. rewrite Hc. subst m1.
      destruct (decide (q = dest + Z.of_nat n)) as [->|Hne].
      * rewrite decide_False, lookup_insert_eq, decide_True by lia. rewrite <- Hb. f_equal. lia.
      * rewrite (lookup_insert_ne _ (dest + Z.of_nat n) q) by done.
        destruct (decide (dest <= q < dest + Z.of_nat (S n))).
        -- rewrite decide_True by lia. by rewrite lookup_insert_ne by lia.
        -- by rewrite decide_False by lia.
Qed.

(** [memmove] copies the original bytes of the source to the destination and changes nothing else,
    however the two ranges overlap, and accesses only the two ranges. *)
Theorem memmove_copies m dest src n :
  mapped m dest (Z.of_nat n) -> mapped m src (Z.of_nat n) ->
  exists m', memmove m dest src n = Some m' /\ copied m m' dest src (Z.of_nat n).
Proof.
  intros Hd Hs. unfold memmove. destruct (_ && _)%bool eqn:E; bool_prop.
  - apply copy_backward_spec; done || lia.
  - apply memcpy_spec; [done..|]. destruct (dest <=? src + Z.of_nat n) eqn:E1; bool_prop; [|lia].
    cbn in E. bool_prop. lia.
Qed.

Lemma memset_spec n : forall m dest c, mapped m dest (Z.of_nat n) ->
  exists m', memset m dest c n = Some m'
    /\ forall q, m' !! q = if decide (dest <= q < dest + Z.of_nat n) then Some (u8 c) else m !! q.
Proof.
  induction n as [|n IH]; intros m dest c Hd.
  - exists m. split; [done|]. intros q. by rewrite decide_False by lia.
  - cbn [memset]. destruct (store_mapped m dest (u8 c) (Z.of_nat n) (dest + 1)) as (m1 & E1 & Em1 & Hd1); [apply Hd; lia|].
    rewrite E1. cbn [mbind option_bind]. destruct (IH m1 (dest + 1) c) as (m' & E & Hm').
    + apply Hd1. intros q Hq. apply Hd. lia.
    + exists m'. split; [done|]. intros q. rewrite Hm'. subst m1. destruct (decide (q = dest)) as [->|Hne].
      * by rewrite decide_False, lookup_insert_eq, decide_True by lia.
      * rewrite lookup_insert_ne by done. destruct (decide (dest <= q < dest + Z.of_nat (S n))).
        -- by rewrite decide_True by lia.
        -- by rewrite decide_False by lia.
Qed.

Lemma memcmp_spec m a b : length a = length b -> forall p q, bytes_at m p a -> bytes_at m q b ->
  exists r, memcmp m p q (length a) = Some r /\ (r = 0 <-> a = b).
Proof.
  revert b. induction a as [|x a IH]; intros [|y b] Hl p q Ha Hb; try done; [by exists 0|].
  cbn in Ha, Hb, Hl. destruct Ha as [Hp Ha], Hb as [Hq Hb]. cbn [memcmp length]. rewrite Hp, Hq. cbn [mbind option_bind].
  destruct (x <? y) eqn:E1; bool_prop; [eexists; split; [done|]; split; [done|intros [= -> ->]; lia]|].
  destruct (y <? x) eqn:E2; bool_prop; [eexists; split; [done|]; split; [done|intros [= -> ->]; lia]|].
  assert (x = y) as -> by lia. destruct (IH b ltac:(lia) (p + 1) (q + 1) Ha Hb) as (r & E & Hr).
  exists r. split; [done|]. rewrite Hr. split; [by intros ->|by intros [= ->]].
Qed.

Lemma copied_bytes m m' dest src l : copied m m' dest src (zlen l) -> bytes_at m src l -> bytes_at m' dest l.
Proof.
  intros Hc Hl. apply bytes_at_intro. intros i b Hi. pose proof (lookup_lt_Some _ _ _ Hi).
  rewrite Hc, decide_True by (unfold zlen; lia). rewrite <- (bytes_at_lookup _ _ _ _ _ Hl Hi). f_equal. lia.
Qed.
End Crl.

(** ** CLibFunctions.cpp *)
Module Str.
Import Crl.

(** [strlen], through [String::get_cstr_size]: the scan for the terminator. *)
Fixpoint strlen (fuel : nat) (m : mem) (p : Z) : option nat :=
  match fuel with
  | O => None
  | S fuel' => c ← m !! p; if c =? 0 then Some O else n ← strlen fuel' m (p + 1); Some (S n)
  end.

(** One unit of fuel per mapped byte is enough for a string that is terminated. *)
Definition fuel_of (m : mem) : nat := S (size m).

Definition strcpy (m : mem) (destination source : Z) : option mem :=
  n ← strlen (fuel_of m) m source; memcpy m destination source n.

Definition strncpy (m : mem) (destination source : Z) (num : nat) : option mem :=
  memcpy m destination source num.

Definition strcat (m : mem) (destination source : Z) : option mem :=
  d ← strlen (fuel_of m) m destination;
  n ← strlen (fuel_of m) m source;
  memcpy m (destination + Z.of_nat d) source n.

Definition strncat (m : mem) (destination source : Z) (num : nat) : option mem :=
  d ← strlen (fuel_of m) m destination;
  memcpy m (destination + Z.of_nat d) source num.

(** The comparison of the two cursors that ends both comparison functions. *)
Definition compare_cursors (c1 c2 : Z) : Z :=
  if negb (c1 =? c2) then (if c1 <? c2 then -1 else 1) else 0.

Fixpoint strncmp (m : mem) (c1 c2 : Z) (num : nat) : option Z :=
  match num with
  | O => Some (compare_cursors c1 c2)
  | S n =>
      if negb (c1 =? 0) && negb (c2 =? 0) then
        a ← m !! c1; b ← m !! c2;
        if negb (a =? b) then Some (if c1 <? c2 then -1 else 1)
        else strncmp m (u64 (c1 + 1)) (u64 (c2 + 1)) n
      else Some (compare_cursors c1 c2)
  end.

(** [strcmp] has no bound but the cursors: [None] also when the fuel is used up. *)
Fixpoint strcmp (fuel : nat) (m : mem) (c1 c2 : Z) : option Z :=
  match fuel with
  | O => None
  | S fuel' =>
      if negb (c1 =? 0) && negb (c2 =? 0) then
        a ← m !! c1; b ← m !! c2;
        if negb (a =? b) then Some (if c1 <? c2 then -1 else 1)
        else strcmp fuel' m (u64 (c1 + 1)) (u64 (c2 + 1))
      else Some (compare_cursors c1 c2)
  end.

(** *** What holds *)

Lemma u64_succ_inj a b : in_width 64 a -> in_width 64 b -> u64 (a + 1) = u64 (b + 1) -> a = b.
Proof.
  intros [Ha Ha'] [Hb Hb'] E. unfold wrap in E.
  destruct (decide (a + 1 = 2 ^ 64)) as [Ea|Ea], (decide (b + 1 = 2 ^ 64)) as [Eb|Eb]; [lia|..].
  - rewrite Ea, Z.mod_same, (Z.mod_small (b + 1)) in E by lia. lia.
  - rewrite Eb, Z.mod_same, (Z.mod_small (a + 1)) in E by lia. lia.
  - rewrite !Z.mod_small in E by lia. lia.
Qed.

Lemma compare_cursors_nonzero a b : a <> b -> compare_cursors a b <> 0.
Proof. intros Hne. unfold compare_cursors. rewrite (proj2 (Z.eqb_neq a b) Hne). cbn. by destruct (a <? b). Qed.

Lemma strncmp_nonzero n : forall m a b r, in_width 64 a -> in_width 64 b -> a <> b ->
  strncmp m a b n = Some r -> r <> 0.
Proof.
  induction n as [|n IH]; intros m a b r Ha Hb Hne; cbn [strncmp].
  - intros [= <-]. by apply compare_cursors_nonzero.
  - destruct (_ && _)%bool; [|intros [= <-]; by apply compare_cursors_nonzero].
    destruct (m !! a) as [x|]; [|done]. destruct (m !! b) as [y|]; [|done]. cbn [mbind option_bind].
    destruct (negb _); [intros [= <-]; by destruct (a <? b)|]. apply IH; [by apply wrap_range..|].
    intros E. by apply Hne, u64_succ_inj.
Qed.

Lemma strcmp_nonzero n : forall m a b r, in_width 64 a -> in_width 64 b -> a <> b ->
  strcmp n m a b = Some r -> r <> 0.
Proof.
  induction n as [|n IH]; intros m a b r Ha Hb Hne; cbn [strcmp]; [done|].
  destruct (_ && _)%bool; [|intros [= <-]; by apply compare_cursors_nonzero].
  destruct (m !! a) as [x|]; [|done]. destruct (m !! b) as [y|]; [|done]. cbn [mbind option_bind].
  destruct (negb _); [intros [= <-]; by destruct (a <? b)|]. apply IH; [by apply wrap_range..|].
  intros E. by apply Hne, u64_succ_inj.
Qed.

(** the string comparisons never report equality of two strings at different addresses, whatever
    the strings are: the cursors are compared where the characters should be, and no terminator stops
    the loops. *)
Theorem comparisons_never_equal m a b :
  in_width 64 a -> in_width 64 b -> a <> b ->
  (forall n, strncmp m a b n <> Some 0) /\ (forall n, strcmp n m a b <> Some 0).
Proof.
  intros Ha Hb Hne. split; intros n E.
  - by apply strncmp_nonzero in E.
  - by apply strcmp_nonzero in E.
Qed.

Lemma strlen_spec m s : forall fuel p, cstr_at m p s -> (length s < fuel)%nat -> strlen fuel m p = Some (length s).
Proof.
  induction s as [|c s IH]; intros fuel p [Hm Hs] Hf; (destruct fuel as [|fuel]; [cbn in Hf; lia|]);
    cbn in Hm, Hf; destruct Hm as [Hp Hm]; cbn [strlen]; rewrite Hp; cbn [mbind option_bind]; [done|].
  apply Forall_cons in Hs as [Hc Hs]. rewrite (proj2 (Z.eqb_neq c 0) Hc).
  rewrite IH; [done|by split|lia].
Qed.

(** The bytes of a range are distinct addresses of the memory. *)
Lemma bytes_at_size m l : forall p, bytes_at m p l -> (length l <= size m)%nat.
Proof.
  intros p Hl. set (keys := (fun i => p + Z.of_nat i) <$> seq 0 (length l)).
  assert (NoDup keys) as Hnd by (apply NoDup_fmap_2; [intros i j; lia|apply NoDup_seq]).
  assert (list_to_set keys ⊆ (dom m : gset Z)) as Hsub.
  { intros q Hq. apply elem_of_list_to_set, list_elem_of_fmap in Hq as (i & -> & Hi).
    apply elem_of_seq in Hi as [_ Hi]. cbn in Hi. destruct (lookup_lt_is_Some_2 l i Hi) as [b Hb].
    apply elem_of_dom. rewrite (bytes_at_lookup _ _ _ _ _ Hl Hb). by eexists. }
  apply subseteq_size in Hsub. rewrite size_list_to_set, size_dom in Hsub by done.
  unfold keys in Hsub. by rewrite length_fmap, length_seq in Hsub.
Qed.

Lemma strlen_enough m p s : cstr_at m p s -> strlen (fuel_of m) m p = Some (length s).
Proof.
  intros Hs. apply strlen_spec; [done|]. destruct Hs as [Hs _]. apply bytes_at_size in Hs.
  rewrite length_app in Hs. cbn in Hs. unfold fuel_of. lia.
Qed.

Lemma cstr_mapped m p s : cstr_at m p s -> mapped m p (zlen s).
Proof.
  intros [Hs _] q Hq. assert (exists i, q = p + Z.of_nat i /\ (i < length (s ++ [0%Z]))%nat) as (i & -> & Hi).
  { exists (Z.to_nat (q - p)). rewrite length_app. cbn. unfold zlen in Hq. lia. }
  destruct (lookup_lt_is_Some_2 _ i Hi) as [b Hb]. rewrite (bytes_at_lookup _ _ _ _ _ Hs Hb). by eexists.
Qed.

(** [strcpy] copies the characters and not the terminator: what follows them in the destination
    stays as it was, so the destination holds the source string only if it had a zero there before. *)
Theorem strcpy_keeps_tail m dest src s b rest :
  cstr_at m src s -> mapped m dest (zlen s) -> bytes_at m (dest + zlen s) (b :: rest) ->
  src + zlen s < dest \/ dest + zlen s <= src ->
  exists m', strcpy m dest src = Some m' /\ bytes_at m' dest (s ++ b :: rest)
    /\ (cstr_at m' dest s <-> b = 0).
Proof.
  intros Hs Hd Hrest Hov. unfold strcpy. rewrite (strlen_enough _ _ _ Hs). cbn [mbind option_bind].
  destruct (memcpy_spec (length s) m dest src) as (m' & E & Hc); [done|by apply cstr_mapped|unfold zlen in *; lia|].
  exists m'. split; [done|]. fold (zlen s) in Hc. pose proof (proj1 Hs) as Hsb. apply bytes_at_app in Hsb as [Hsb _].
  assert (bytes_at m' dest (s ++ b :: rest)) as Hb.
  { apply bytes_at_app. split; [by eapply copied_bytes|]. eapply bytes_at_frame; [|exact Hrest].
    intros q Hq. rewrite Hc. by rewrite decide_False by lia. }
  split; [done|]. apply bytes_at_app in Hb as [Hb1 [Hb2 _]]. split.
  - intros [Hz _]. apply bytes_at_app in Hz as [_ [Hz _]]. rewrite Hb2 in Hz. by simplify_eq.
  - intros ->. split; [|apply Hs]. apply bytes_at_app. split; [done|]. by split.
Qed.

(** *** Five bytes at 100, the string AB at 200 and a byte behind it *)
Definition demo_mem : mem :=
  list_to_map [(100, 65); (101, 66); (102, 0); (103, 67); (104, 68); (200, 65); (201, 66); (202, 0);
    (203, 1)].

Lemma demo_mapped p n : 100 <= p -> p + n <= 105 -> mapped demo_mem p n.
Proof.
  intros Hp Hn q Hq. assert (q = 100 \/ q = 101 \/ q = 102 \/ q = 103 \/ q = 104) as Hc by lia.
  destruct Hc as [->|[->|[->|[->| ->]]]]; by eexists.
Qed.

Lemma memmove_copies_witness :
  exists m', memmove demo_mem 101 100 3 = Some m' /\ m' !! 103 = Some 0 /\ m' !! 102 = Some 66.
Proof.
  destruct (memmove_copies demo_mem 101 100 3) as (m' & E & Hc); [apply demo_mapped; lia..|].
  exists m'. split; [exact E|]. rewrite !Hc. split; reflexivity.
Defined.

(** The same string twice. *)
Lemma comparisons_never_equal_witness :
  cstr_at demo_mem 100 [65; 66] /\ cstr_at demo_mem 200 [65; 66] /\ strcmp 10 demo_mem 100 200 = Some (-1)
  /\ strncmp demo_mem 100 200 2 <> Some 0.
Proof.
  split; [split; [repeat split; reflexivity|repeat constructor; lia]|].
  split; [split; [repeat split; reflexivity|repeat constructor; lia]|].
  split; [vm_compute; reflexivity|]. apply (comparisons_never_equal demo_mem 100 200); [split; lia|split; lia|lia].
Defined.

(** Copying AB over bytes of which the third is not zero. *)
Lemma strcpy_keeps_tail_witness :
  exists m', strcpy demo_mem 101 200 = Some m' /\ bytes_at m' 101 [65; 66; 67; 68]
    /\ (cstr_at m' 101 [65; 66] <-> 67 = 0).
Proof.
  destruct (strcpy_keeps_tail demo_mem 101 200 [65; 66] 67 [68]) as (m' & E & Hb & Hc).
  - split; [repeat split; reflexivity|repeat constructor; lia].
  - apply demo_mapped; unfold zlen; cbn; lia.
  - repeat split; reflexivity.
  - right. unfold zlen. cbn. lia.
  - exists m'. split; [exact E|]. split; [exact Hb|exact Hc].
Defined.
End Str.
