(* ===== verification/KString.v ===== *)
(** * KRE/String.cpp: the string class

    A string shorter than [BUF_SIZE] lives in the object itself, a longer one in a heap buffer; both
    buffers are terminated by a zero character.  A buffer is the list of its characters; reading past its
    end, through a released heap buffer or through the wrong member of the union has no result.  Copies
    of a string are deep, so a string is a value. *)

From S2P Require Import Prelude.

Module KString.
(** ** Buffers *)

(** The [n] characters of a buffer from an offset, as [memcpy] and the index loops read them. *)
Definition slice (buf : list Z) (off n : Z) : option (list Z) :=
  if (0 <=? off) && (0 <=? n) && (off + n <=? zlen buf)
  then Some (take (Z.to_nat n) (drop (Z.to_nat off) buf)) else None.

Definition zeros (n : Z) : list Z := replicate (Z.to_nat n) 0.

Definition BUF_SIZE : Z := 24.

Inductive Storage := StackBuf (buf : list Z) | HeapBuf (buf : option (list Z)).

Record String := mkString { _storage : Storage; _size : Z; _capacity : Z }.

Fixpoint get_cstr_size (c_str : list Z) : option Z :=
  match c_str with
  | [] => None
  | c :: rest => if c =? 0 then Some 0 else n ← get_cstr_size rest; Some (1 + n)
  end.

Definition get_buf (s : String) : option (list Z) :=
  match _storage s with
  | StackBuf b => if _size s <? BUF_SIZE then Some b else None
  | HeapBuf b => if _size s <? BUF_SIZE then None else b
  end.

(** The characters [cs] in a fresh buffer for [size] characters, of which the stack buffer has the
    capacity [cap]; more characters than [size] overrun the buffer. *)
Definition fill (cs : list Z) (size cap : Z) : option String :=
  if size <? zlen cs then None
  else if size <? BUF_SIZE then Some (mkString (StackBuf (cs ++ zeros (BUF_SIZE - size))) size cap)
  else Some (mkString (HeapBuf (Some (cs ++ [0]))) size (size + 1)).

Definition init (c_str : list Z) (offset size : Z) : option String :=
  src ← slice c_str offset size; fill src size BUF_SIZE.

Definition clear (s : String) : String := mkString (HeapBuf None) (_size s) (_capacity s).

(** The private constructor behind [operator+]. *)
Definition join (arr_one arr_two : list Z) (size_one size_two : Z) : option String :=
  let size := u64 (size_one + size_two) in
  one ← slice arr_one 0 size_one;
  two ← slice arr_two 0 size_two;
  fill (one ++ two) size BUF_SIZE.

Definition concat (s : String) (o_buf : list Z) (o_size : Z) : option String :=
  let new_size := u64 (_size s + o_size) in
  buf ← get_buf s;
  one ← slice buf 0 (_size s);
  two ← slice o_buf 0 o_size;
  fill (one ++ two) new_size (_capacity s).

(** ** Constructors *)

Definition empty_string : option String := init [0] 0 0.

Definition of_char (ch : Z) : option String := if ch =? 0 then init [0] 0 0 else init [ch; 0] 0 1.

Definition of_list (il : list Z) : option String := init il 0 (zlen il).

Definition of_cstr (c_str : list Z) : option String := n ← get_cstr_size c_str; init c_str 0 n.

(** The copy constructor and the assignment: the old heap buffer is released first. *)
Definition copy (o : String) : option String := b ← get_buf o; init b 0 (_size o).

Definition assign (s o : String) : option String :=
  let s := if BUF_SIZE <=? _size s then clear s else s in copy o.

(** ** Queries and operations *)

Definition size (s : String) : Z := _size s.

Definition is_empty (s : String) : bool := _size s =? 0.

Definition char_at (s : String) (index : Z) : option Z := b ← get_buf s; aget b index.

(** [lower] and [upper]: a loop over the characters into a terminated buffer of its own. *)
Definition lower (s : String) : option String :=
  b ← get_buf s; cs ← slice b 0 (_size s);
  of_cstr (((fun c => if (65 <=? c) && (c <=? 90) then c + 32 else c) <$> cs) ++ [0]).

Definition upper (s : String) : option String :=
  b ← get_buf s; cs ← slice b 0 (_size s);
  of_cstr (((fun c => if (97 <=? c) && (c <=? 122) then c - 32 else c) <$> cs) ++ [0]).

(** The loop of [split] over the index [i]; [start] is where the current part begins. *)
Fixpoint split_loop (fuel : nat) (buf : list Z) (size separator i start : Z) (parts : list String)
  : option (list String * Z) :=
  match fuel with
  | O => Some (parts, start)
  | S fuel =>
      c ← aget buf i;
      if c =? separator then
        let part_len := i - start in
        parts ← (if 0 <? part_len then p ← init buf start part_len; Some (parts ++ [p]) else Some parts);
        split_loop fuel buf size separator (i + 1) (i + 1) parts
      else split_loop fuel buf size separator (i + 1) start parts
  end.

Definition split (s : String) (separator : Z) : option (list String) :=
  buf ← get_buf s;
  '(parts, start) ← split_loop (Z.to_nat (_size s)) buf (_size s) separator 0 0 [];
  if start <? _size s then p ← init buf start (_size s - start); Some (parts ++ [p]) else Some parts.

(** The new buffer has exactly [_size] characters: with the null character as the replacement its size
    is searched for inside it, although it is not terminated. *)
Definition replace (s : String) (c replacement : Z) : option String :=
  buf ← get_buf s; cs ← slice buf 0 (_size s);
  let new_buf := (fun x => if x =? c then replacement else x) <$> cs in
  n ← (if replacement =? 0 then get_cstr_size new_buf else Some (_size s));
  init new_buf 0 n.

Fixpoint last_index_loop (fuel : nat) (b : list Z) (ch i : Z) : option Z :=
  match fuel with
  | O => Some (-1)
  | S fuel => c ← aget b i; if c =? ch then Some i else last_index_loop fuel b ch (i - 1)
  end.

(** The size is converted to a 32-bit [int]. *)
Definition last_index_of (s : String) (ch : Z) : option Z :=
  b ← get_buf s;
  let last := if u32 (_size s) <? 2 ^ 31 then u32 (_size s) - 1 else u32 (_size s) - 2 ^ 32 - 1 in
  last_index_loop (Z.to_nat (last + 1)) b ch last.

Fixpoint same_from (fuel : nat) (t_b p_b : list Z) (i : Z) : option bool :=
  match fuel with
  | O => Some true
  | S fuel =>
      x ← aget t_b i; y ← aget p_b i;
      if x =? y then same_from fuel t_b p_b (i + 1) else Some false
  end.

Definition starts_with (s prefix : String) : option bool :=
  if is_empty prefix then Some true else
  if _size s <? _size prefix then Some false else
  t_b ← get_buf s; p_b ← get_buf prefix;
  same_from (Z.to_nat (_size prefix)) t_b p_b 0.

(** [size() - start_idx] wraps around when the index lies behind the string. *)
Definition substring (s : String) (start_idx : Z) : option String :=
  b ← get_buf s; init b start_idx (u64 (_size s - start_idx)).

Definition substring_len (s : String) (start_idx len : Z) : option String :=
  b ← get_buf s; init b start_idx len.

Definition is_blank (c : Z) : bool := (c =? 32) || (c =? 9) || (c =? 10) || (c =? 13).

Fixpoint trim_start (fuel : nat) (buf : list Z) (size start : Z) : option Z :=
  match fuel with
  | O => Some start
  | S fuel => if start <? size then c ← aget buf start;
                if is_blank c then trim_start fuel buf size (start + 1) else Some start
              else Some start
  end.

Fixpoint trim_end (fuel : nat) (buf : list Z) (start e : Z) : option Z :=
  match fuel with
  | O => Some e
  | S fuel => if start <? e then c ← aget buf (e - 1);
                if is_blank c then trim_end fuel buf start (e - 1) else Some e
              else Some e
  end.

Definition trim (s : String) : option String :=
  buf ← get_buf s;
  start ← trim_start (Z.to_nat (_size s)) buf (_size s) 0;
  e ← trim_end (Z.to_nat (_size s)) buf start (_size s);
  init buf start (e - start).

(** [operator+] on strings, on a C string and on a character. *)
Definition plus (s o : String) : option String :=
  b ← get_buf s;
  if _size o =? 0 then init b 0 (_size s) else
  ob ← get_buf o; join b ob (_size s) (_size o).

Definition plus_cstr (s : String) (o : list Z) : option String :=
  o_size ← get_cstr_size o; b ← get_buf s;
  if o_size =? 0 then init b 0 (_size s) else join b o (_size s) o_size.

Definition plus_char (s : String) (ch : Z) : option String :=
  b ← get_buf s; cs ← slice b 0 (_size s); of_cstr (cs ++ [ch; 0]).

Definition cstr_plus (c_string : list Z) (str : String) : option String :=
  o_size ← get_cstr_size c_string; b ← get_buf str; join c_string b o_size (_size str).

(** [operator+=] *)
Definition append (s o : String) : option String :=
  if _size o =? 0 then Some s else ob ← get_buf o; concat s ob (_size o).

Definition append_cstr (s : String) (o : list Z) : option String :=
  o_size ← get_cstr_size o; if o_size =? 0 then Some s else concat s o o_size.

Definition append_char (s : String) (ch : Z) : option String := append_cstr s [ch; 0].

(** [operator==]: the buffers are compared with [memcmp]. *)
Definition eqb (a b : String) : option bool :=
  if negb (_size a =? _size b) then Some false else
  ba ← get_buf a; bb ← get_buf b;
  same_from (Z.to_nat (_size a)) ba bb 0.
End KString.
