(* ===== verification/KStringProps.v ===== *)
(** * Theorems on KRE/String.cpp

    [of_chars l] is the one well-formed string object that holds the characters [l]: in the stack buffer
    padded with zeros, or in a terminated heap buffer.  Every operation maps well-formed strings to the
    well-formed string of the list operation it stands for. *)

From S2P Require Import Prelude KString.

Module StrProps.
Import KString.

Definition of_chars (l : list Z) : String :=
  if zlen l <? BUF_SIZE then mkString (StackBuf (l ++ zeros (BUF_SIZE - zlen l))) (zlen l) BUF_SIZE
  else mkString (HeapBuf (Some (l ++ [0]))) (zlen l) (zlen l + 1).

(** Shorter than the largest [int]. *)
Definition fits (l : list Z) : Prop := zlen l < 2 ^ 31.

(** ** Buffers *)

Lemma slice_mid l1 l2 l3 : slice (l1 ++ l2 ++ l3) (zlen l1) (zlen l2) = Some l2.
Proof.
  unfold slice. pose proof (zlen_nonneg l1). pose proof (zlen_nonneg l2). pose proof (zlen_nonneg l3).
  rewrite !zlen_app.
  replace (0 <=? zlen l1) with true by (symmetry; apply Z.leb_le; lia).
  replace (0 <=? zlen l2) with true by (symmetry; apply Z.leb_le; lia).
  replace (zlen l1 + zlen l2 <=? zlen l1 + (zlen l2 + zlen l3)) with true by (symmetry; apply Z.leb_le; lia).
  cbn. unfold zlen. rewrite !Nat2Z.id, drop_app_length, take_app_length. done.
Qed.

Lemma slice_front l rest : slice (l ++ rest) 0 (zlen l) = Some l.
Proof. exact (slice_mid [] l rest). Qed.

Lemma slice_Some buf off n l : slice buf off n = Some l ->
  exists l1 l3, buf = l1 ++ l ++ l3 /\ zlen l1 = off /\ zlen l = n.
Proof.
  unfold slice. destruct (_ && _) eqn:E; [|done]. bool_prop. intros [= <-].
  exists (take (Z.to_nat off) buf), (drop (Z.to_nat n) (drop (Z.to_nat off) buf)).
  rewrite (take_drop (Z.to_nat n)), (take_drop (Z.to_nat off)). unfold zlen in *.
  rewrite !length_take, length_drop. split; [done|lia].
Qed.

Lemma fill_chars l : fill l (zlen l) BUF_SIZE = Some (of_chars l).
Proof. unfold fill, of_chars. rewrite Z.ltb_irrefl. by destruct (zlen l <? BUF_SIZE). Qed.

Lemma get_buf_chars l : exists rest, get_buf (of_chars l) = Some (l ++ 0 :: rest).
Proof.
  unfold of_chars. destruct (zlen l <? BUF_SIZE) eqn:E; unfold get_buf; cbn; rewrite E; [|by exists []].
  unfold zeros. destruct (Z.to_nat (BUF_SIZE - zlen l)) eqn:En; [bool_prop; lia|]. cbn. eauto.
Qed.

Lemma size_chars l : _size (of_chars l) = zlen l.
Proof. unfold of_chars. by destruct (zlen l <? BUF_SIZE). Qed.

Lemma of_chars_inj l1 l2 : of_chars l1 = of_chars l2 -> l1 = l2.
Proof.
  intros H. destruct (get_buf_chars l1) as [r1 H1], (get_buf_chars l2) as [r2 H2].
  assert (length l1 = length l2) as Hlen.
  { pose proof (size_chars l1) as E1. pose proof (size_chars l2) as E2. unfold zlen in *. rewrite H in E1. lia. }
  rewrite H in H1. rewrite H1 in H2. injection H2 as H2. by apply app_inj_1 in H2 as [].
Qed.

Lemma init_mid l1 l2 l3 : init (l1 ++ l2 ++ l3) (zlen l1) (zlen l2) = Some (of_chars l2).
Proof. unfold init. rewrite slice_mid. cbn. apply fill_chars. Qed.

Lemma init_front l rest : init (l ++ rest) 0 (zlen l) = Some (of_chars l).
Proof. exact (init_mid [] l rest). Qed.

Lemma cstr_size l rest : Forall (fun c => c <> 0) l -> get_cstr_size (l ++ 0 :: rest) = Some (zlen l).
Proof.
  induction 1 as [|c l Hc Hl IH]; cbn; [done|]. rewrite (proj2 (Z.eqb_neq _ _) Hc), IH. cbn. by rewrite zlen_cons.
Qed.

Lemma of_cstr_chars l rest : Forall (fun c => c <> 0) l -> of_cstr (l ++ 0 :: rest) = Some (of_chars l).
Proof. intros Hl. unfold of_cstr. rewrite (cstr_size _ _ Hl). cbn. apply init_front. Qed.

Lemma empty_string_chars : empty_string = Some (of_chars []).
Proof. reflexivity. Qed.

Lemma of_char_chars ch : ch <> 0 -> of_char ch = Some (of_chars [ch]).
Proof. intros H. unfold of_char. rewrite (proj2 (Z.eqb_neq _ _) H). apply (init_front [ch] [0]). Qed.

Lemma of_list_chars l : of_list l = Some (of_chars l).
Proof. unfold of_list. rewrite <- (app_nil_r l) at 1. apply init_front. Qed.

Lemma copy_chars l : copy (of_chars l) = Some (of_chars l).
Proof. unfold copy. destruct (get_buf_chars l) as [r ->]. cbn. rewrite size_chars. apply init_front. Qed.

Lemma assign_chars s l : assign s (of_chars l) = Some (of_chars l).
Proof. apply copy_chars. Qed.

Lemma is_empty_chars l : is_empty (of_chars l) = bool_decide (l = []).
Proof.
  unfold is_empty. rewrite size_chars. destruct l; [done|]. rewrite bool_decide_false by done.
  rewrite zlen_cons. pose proof (zlen_nonneg l). apply Z.eqb_neq. lia.
Qed.

Lemma aget_app_l {A} (l1 l2 : list A) i : i < zlen l1 -> aget (l1 ++ l2) i = aget l1 i.
Proof. intros H. unfold aget, zlen in *. case_decide; [|done]. apply lookup_app_l. lia. Qed.

Lemma aget_chars_mid {A} (l1 l2 : list A) x : aget (l1 ++ x :: l2) (zlen l1) = Some x.
Proof. unfold aget, zlen. rewrite decide_True by lia. rewrite Nat2Z.id. by apply list_lookup_middle. Qed.

Lemma char_at_chars l i : 0 <= i < zlen l -> char_at (of_chars l) i = aget l i.
Proof. intros Hi. unfold char_at. destruct (get_buf_chars l) as [r ->]. cbn. apply aget_app_l. lia. Qed.

(** ** Concatenation *)

Lemma small_sum a b : fits a -> fits b -> u64 (zlen a + zlen b) = zlen (a ++ b).
Proof.
  unfold fits. intros. pose proof (zlen_nonneg a). pose proof (zlen_nonneg b). rewrite zlen_app.
  apply wrap_small. word_lia.
Qed.

Lemma join_buffers_chars a ra b rb : fits a -> fits b ->
  join (a ++ ra) (b ++ rb) (zlen a) (zlen b) = Some (of_chars (a ++ b)).
Proof.
  intros Ha Hb. unfold join. rewrite !slice_front. cbn. rewrite small_sum by done. apply fill_chars.
Qed.

Lemma plus_chars a b : fits a -> fits b -> plus (of_chars a) (of_chars b) = Some (of_chars (a ++ b)).
Proof.
  intros Ha Hb. unfold plus. destruct (get_buf_chars a) as [ra ->], (get_buf_chars b) as [rb ->]. cbn.
  rewrite !size_chars. destruct (zlen b =? 0) eqn:E; bool_prop.
  - destruct b; [|rewrite zlen_cons in E; pose proof (zlen_nonneg b); lia]. rewrite app_nil_r. apply init_front.
  - by apply join_buffers_chars.
Qed.

Lemma concat_chars a b rest : fits a -> fits b -> concat (of_chars a) (b ++ rest) (zlen b) = Some (of_chars (a ++ b)).
Proof.
  intros Ha Hb. unfold concat. destruct (get_buf_chars a) as [ra ->]. cbn. rewrite !size_chars, !slice_front. cbn.
  rewrite small_sum by done. rewrite <- fill_chars.
  unfold fill, of_chars. destruct (zlen a <? BUF_SIZE) eqn:Es; [done|].
  destruct (zlen (a ++ b) <? BUF_SIZE) eqn:El; [|done]. rewrite zlen_app in El. pose proof (zlen_nonneg b). bool_prop. lia.
Qed.

Lemma append_chars a b : fits a -> fits b -> append (of_chars a) (of_chars b) = Some (of_chars (a ++ b)).
Proof.
  intros Ha Hb. unfold append. rewrite size_chars. destruct (zlen b =? 0) eqn:E; bool_prop.
  - destruct b; [|rewrite zlen_cons in E; pose proof (zlen_nonneg b); lia]. by rewrite app_nil_r.
  - destruct (get_buf_chars b) as [rb ->]. by apply concat_chars.
Qed.

Lemma plus_cstr_chars a b rest : fits a -> fits b -> Forall (fun c => c <> 0) b ->
  plus_cstr (of_chars a) (b ++ 0 :: rest) = Some (of_chars (a ++ b)).
Proof.
  intros Ha Hb Hz. unfold plus_cstr. rewrite (cstr_size _ _ Hz). destruct (get_buf_chars a) as [ra ->]. cbn.
  rewrite !size_chars. destruct (zlen b =? 0) eqn:E; bool_prop.
  - destruct b; [|rewrite zlen_cons in E; pose proof (zlen_nonneg b); lia]. rewrite app_nil_r. apply init_front.
  - by apply join_buffers_chars.
Qed.

Lemma cstr_plus_chars a b rest : fits a -> fits b -> Forall (fun c => c <> 0) a ->
  cstr_plus (a ++ 0 :: rest) (of_chars b) = Some (of_chars (a ++ b)).
Proof.
  intros Ha Hb Hz. unfold cstr_plus. rewrite (cstr_size _ _ Hz). destruct (get_buf_chars b) as [rb ->].
  cbn [mbind option_bind]. rewrite size_chars. by apply join_buffers_chars.
Qed.

Lemma append_cstr_chars a b rest : fits a -> fits b -> Forall (fun c => c <> 0) b ->
  append_cstr (of_chars a) (b ++ 0 :: rest) = Some (of_chars (a ++ b)).
Proof.
  intros Ha Hb Hz. unfold append_cstr. rewrite (cstr_size _ _ Hz). cbn [mbind option_bind].
  destruct (zlen b =? 0) eqn:E; bool_prop.
  - destruct b; [by rewrite app_nil_r|rewrite zlen_cons in E; pose proof (zlen_nonneg b); lia].
  - by apply concat_chars.
Qed.

Lemma append_char_chars a ch : fits a -> ch <> 0 -> append_char (of_chars a) ch = Some (of_chars (a ++ [ch])).
Proof.
  intros Ha Hc. unfold append_char, append_cstr. cbn [get_cstr_size]. rewrite (proj2 (Z.eqb_neq _ _) Hc). cbn.
  by apply (concat_chars a [ch] [0]).
Qed.

Lemma plus_char_chars a ch : Forall (fun c => c <> 0) a -> ch <> 0 ->
  plus_char (of_chars a) ch = Some (of_chars (a ++ [ch])).
Proof.
  intros Ha Hc. unfold plus_char. destruct (get_buf_chars a) as [ra ->]. cbn. rewrite size_chars, slice_front. cbn.
  change (a ++ [ch; 0]) with (a ++ [ch] ++ [0]). rewrite (app_assoc a). apply of_cstr_chars.
  apply Forall_app. by split; [|constructor].
Qed.

(** ** Comparison *)

Lemma same_from_spec a b : forall ra rb pre, length a = length b ->
  same_from (length a) (pre ++ a ++ ra) (pre ++ b ++ rb) (zlen pre) = Some (bool_decide (a = b)).
Proof.
  revert b. induction a as [|x a IH]; intros [|y b] ra rb pre Hlen; try done.
  cbn [length app same_from]. rewrite !aget_chars_mid. cbn. destruct (x =? y) eqn:E; bool_prop.
  - subst y. replace (zlen pre + 1) with (zlen (pre ++ [x])) by (by rewrite zlen_app).
    change (x :: a ++ ra) with ([x] ++ a ++ ra). change (x :: b ++ rb) with ([x] ++ b ++ rb).
    rewrite !(app_assoc pre), IH by (cbn in Hlen; lia).
    f_equal. apply bool_decide_ext. split; [by intros ->|by intros [= ->]].
  - symmetry. f_equal. apply bool_decide_eq_false. by intros [= -> _].
Qed.

Lemma eqb_chars a b : eqb (of_chars a) (of_chars b) = Some (bool_decide (a = b)).
Proof.
  unfold eqb. rewrite !size_chars. destruct (zlen a =? zlen b) eqn:E; bool_prop; cbn.
  - destruct (get_buf_chars a) as [ra ->], (get_buf_chars b) as [rb ->]. cbn. unfold zlen in *. rewrite Nat2Z.id.
    apply (same_from_spec a b (0 :: ra) (0 :: rb) []). lia.
  - symmetry. f_equal. apply bool_decide_eq_false. by intros ->.
Qed.

Lemma starts_with_chars l p : starts_with (of_chars l) (of_chars p) = Some (bool_decide (p `prefix_of` l)).
Proof.
  unfold starts_with. rewrite is_empty_chars, !size_chars. case_bool_decide as Hp.
  { by subst p. }
  destruct (zlen l <? zlen p) eqn:E; bool_prop.
  - symmetry. f_equal. apply bool_decide_eq_false. intros Hpl%prefix_length. unfold zlen in E. lia.
  - destruct (get_buf_chars l) as [rl ->], (get_buf_chars p) as [rp ->]. cbn.
    rewrite <- (take_drop (length p) l) at 1. rewrite <- app_assoc.
    unfold zlen at 1. rewrite Nat2Z.id.
    assert (length (take (length p) l) = length p) as Hlen by (rewrite length_take; unfold zlen in E; lia).
    rewrite <- Hlen at 1.
    pose proof (same_from_spec (take (length p) l) p (drop (length p) l ++ 0 :: rl) (0 :: rp) [] Hlen) as Hs.
    cbn [app] in Hs. change (zlen []) with 0 in Hs. rewrite Hs. f_equal. apply bool_decide_ext. split.
    + intros H. rewrite <- H at 1. apply prefix_take.
    + intros [k ->]. by rewrite take_app_length.
Qed.

(** ** Parts of a string *)

Lemma substring_len_chars l1 l2 l3 :
  substring_len (of_chars (l1 ++ l2 ++ l3)) (zlen l1) (zlen l2) = Some (of_chars l2).
Proof.
  unfold substring_len. destruct (get_buf_chars (l1 ++ l2 ++ l3)) as [r ->]. cbn.
  rewrite <- !app_assoc. apply init_mid.
Qed.

Lemma substring_chars l1 l2 : fits (l1 ++ l2) -> substring (of_chars (l1 ++ l2)) (zlen l1) = Some (of_chars l2).
Proof.
  unfold fits. rewrite zlen_app. intros Hf. pose proof (zlen_nonneg l1). pose proof (zlen_nonneg l2).
  unfold substring. rewrite size_chars, zlen_app.
  replace (u64 (zlen l1 + zlen l2 - zlen l1)) with (zlen l2) by (replace (zlen l1 + zlen l2 - zlen l1) with (zlen l2) by lia; symmetry; apply wrap_small; word_lia).
  pose proof (substring_len_chars l1 l2 []) as Hs. rewrite app_nil_r in Hs. exact Hs.
Qed.

(** Behind the end the size wraps around and the buffer is overrun. *)
Lemma substring_past_end l i : fits l -> zlen l < i < 2 ^ 31 -> substring (of_chars l) i = None.
Proof.
  unfold fits. intros Hf Hi. pose proof (zlen_nonneg l). unfold substring. rewrite size_chars.
  destruct (get_buf (of_chars l)) as [buf|] eqn:E; [cbn|done].
  assert (u64 (zlen l - i) = zlen l - i + 2 ^ 64) as ->.
  { unfold wrap. symmetry. apply Z.mod_unique with (-1); [left|]; word_lia. }
  unfold init. assert (zlen buf < 2 ^ 32) as Hb.
  { revert E. unfold of_chars, get_buf. destruct (zlen l <? BUF_SIZE) eqn:Es; cbn; rewrite Es; intros [= <-]; bool_prop.
    - rewrite zlen_app. unfold zeros. unfold zlen at 2. rewrite length_replicate. unfold BUF_SIZE in *. word_lia.
    - rewrite zlen_app, zlen_cons, zlen_nil. word_lia. }
  unfold slice. replace (i + (zlen l - i + 2 ^ 64) <=? zlen buf) with false by (symmetry; apply Z.leb_gt; word_lia).
  by rewrite andb_false_r.
Qed.

Lemma last_index_loop_spec ch l : forall rest, last_index_loop (length l) (l ++ rest) ch (zlen l - 1) =
  Some (match list_find (fun c => c = ch) (reverse l) with Some (i, _) => zlen l - 1 - Z.of_nat i | None => -1 end).
Proof.
  induction l as [|c l IH] using rev_ind; intros rest; [done|].
  rewrite length_app, Nat.add_comm. cbn [length Nat.add last_index_loop]. rewrite zlen_app, zlen_cons, zlen_nil.
  replace (zlen l + (1 + 0) - 1) with (zlen l) by lia. rewrite <- app_assoc. cbn [app]. rewrite aget_chars_mid. cbn [mbind option_bind].
  rewrite reverse_snoc. cbn [list_find]. destruct (c =? ch) eqn:E; bool_prop.
  - rewrite decide_True by done. f_equal. lia.
  - rewrite decide_False by done. rewrite IH. f_equal. destruct (list_find _ (reverse l)) as [[i y]|]; cbn; lia.
Qed.

Lemma last_index_chars l ch : fits l -> last_index_of (of_chars l) ch =
  Some (match list_find (fun c => c = ch) (reverse l) with Some (i, _) => zlen l - 1 - Z.of_nat i | None => -1 end).
Proof.
  unfold fits. intros Hf. pose proof (zlen_nonneg l). unfold last_index_of. destruct (get_buf_chars l) as [r ->]. cbn.
  rewrite size_chars. rewrite (wrap_small 32) by word_lia.
  replace (zlen l <? 2 ^ 31) with true by (symmetry; apply Z.ltb_lt; lia).
  replace (zlen l - 1 + 1) with (zlen l) by lia. unfold zlen at 1. rewrite Nat2Z.id. apply last_index_loop_spec.
Qed.

Lemma last_index_none l ch : fits l -> ch ∉ l -> last_index_of (of_chars l) ch = Some (-1).
Proof.
  intros Hf Hn. rewrite last_index_chars by done. destruct (list_find _ (reverse l)) as [[i y]|] eqn:E; [|done].
  apply list_find_Some in E as (Hl & -> & _). apply list_elem_of_lookup_2 in Hl. rewrite elem_of_reverse in Hl. by destruct Hn.
Qed.

Lemma last_index_some l1 ch l2 : fits (l1 ++ ch :: l2) -> ch ∉ l2 -> last_index_of (of_chars (l1 ++ ch :: l2)) ch = Some (zlen l1).
Proof.
  intros Hf Hn. rewrite last_index_chars by done. rewrite reverse_app, reverse_cons.
  assert (list_find (fun c => c = ch) ((reverse l2 ++ [ch]) ++ reverse l1) = Some (length l2, ch)) as ->.
  { apply list_find_Some. rewrite <- app_assoc. split_and!; [|done|].
    - rewrite <- (length_reverse l2). by apply list_lookup_middle.
    - intros j y Hj Hlt ->. rewrite lookup_app_l in Hj by (rewrite length_reverse; lia).
      apply list_elem_of_lookup_2 in Hj. rewrite elem_of_reverse in Hj. by destruct Hn. }
  rewrite zlen_app, zlen_cons. unfold zlen. f_equal. lia.
Qed.

(** ** Splitting *)

(** One piece, unless it is empty. *)
Definition piece (cur : list Z) : list (list Z) := match cur with [] => [] | _ => [cur] end.

(** The non-empty pieces between separators; [cur] is the piece read so far. *)
Fixpoint pieces_from (sep : Z) (cur l : list Z) : list (list Z) :=
  match l with
  | [] => piece cur
  | c :: l => if c =? sep then piece cur ++ pieces_from sep [] l else pieces_from sep (cur ++ [c]) l
  end.

Definition pieces (sep : Z) (l : list Z) : list (list Z) := pieces_from sep [] l.

Lemma piece_init pre cur l rest (ps : list String) :
  (if 0 <? zlen cur then p ← init (pre ++ cur ++ l ++ rest) (zlen pre) (zlen cur); Some (ps ++ [p]) else Some ps)
  = Some (ps ++ (of_chars <$> piece cur)).
Proof.
  destruct cur as [|c cur]; [by rewrite app_nil_r|].
  replace (0 <? zlen (c :: cur)) with true by (symmetry; apply Z.ltb_lt; rewrite zlen_cons; pose proof (zlen_nonneg cur); lia).
  by rewrite init_mid.
Qed.

Lemma split_loop_spec sep sz l : forall pre cur rest ps,
  exists ps' pre' cur',
    split_loop (length l) (pre ++ cur ++ l ++ rest) sz sep (zlen (pre ++ cur)) (zlen pre) ps = Some (ps', zlen pre') /\
    pre ++ cur ++ l = pre' ++ cur' /\
    ps' ++ (of_chars <$> piece cur') = ps ++ (of_chars <$> pieces_from sep cur l).
Proof.
  induction l as [|c l IH]; intros pre cur rest ps.
  - exists ps, pre, cur. by rewrite app_nil_r.
  - cbn [length split_loop pieces_from app]. rewrite (app_assoc pre cur), aget_chars_mid, <- app_assoc. cbn [mbind option_bind].
    replace (zlen (pre ++ cur) + 1) with (zlen (pre ++ cur ++ [c])) by (rewrite !zlen_app; unfold zlen; cbn; lia).
    destruct (c =? sep) eqn:E.
    + replace (zlen (pre ++ cur) - zlen pre) with (zlen cur) by (rewrite zlen_app; lia).
      change (c :: l ++ rest) with ((c :: l) ++ rest) at 1. rewrite (piece_init pre cur (c :: l) rest). cbn [mbind option_bind].
      destruct (IH (pre ++ cur ++ [c]) [] rest (ps ++ (of_chars <$> piece cur))) as (ps' & pre' & cur' & E1 & E2 & E3).
      exists ps', pre', cur'. rewrite app_nil_r in E1. rewrite <- E1, <- E2, E3, fmap_app, !app_assoc.
      by rewrite <- !app_assoc.
    + destruct (IH pre (cur ++ [c]) rest ps) as (ps' & pre' & cur' & E1 & E2 & E3).
      exists ps', pre', cur'. rewrite <- E1, <- E2, E3. by rewrite <- !app_assoc.
Qed.

Lemma split_chars l sep : split (of_chars l) sep = Some (of_chars <$> pieces sep l).
Proof.
  unfold split. destruct (get_buf_chars l) as [r Er]. rewrite Er. cbn [mbind option_bind]. rewrite size_chars.
  destruct (split_loop_spec sep (zlen l) l [] [] (0 :: r) []) as (ps & pre & cur & E1 & E2 & E3).
  cbn [app] in E1, E2, E3. replace (Z.to_nat (zlen l)) with (length l) by (unfold zlen; lia).
  change (zlen []) with 0 in E1. rewrite E1. cbn [mbind option_bind].
  unfold pieces. rewrite <- E3. subst l. rewrite zlen_app.
  destruct cur as [|c cur].
  - replace (zlen pre <? zlen pre + zlen []) with false by (symmetry; apply Z.ltb_ge; rewrite zlen_nil; lia). by rewrite app_nil_r.
  - replace (zlen pre <? zlen pre + zlen (c :: cur)) with true
      by (symmetry; apply Z.ltb_lt; rewrite zlen_cons; pose proof (zlen_nonneg cur); lia).
    replace (zlen pre + zlen (c :: cur) - zlen pre) with (zlen (c :: cur)) by lia.
    rewrite <- app_assoc, init_mid. done.
Qed.

(** ** Character by character *)

Definition lower_char (c : Z) : Z := if (65 <=? c) && (c <=? 90) then c + 32 else c.

Definition upper_char (c : Z) : Z := if (97 <=? c) && (c <=? 122) then c - 32 else c.

Lemma lower_chars l : Forall (fun c => c <> 0) l -> lower (of_chars l) = Some (of_chars (lower_char <$> l)).
Proof.
  intros Hl. unfold lower. destruct (get_buf_chars l) as [r ->]. cbn. rewrite size_chars, slice_front. cbn.
  apply of_cstr_chars. apply Forall_fmap. eapply Forall_impl; [exact Hl|]. intros c Hc. cbn. unfold lower_char.
  destruct (_ && _) eqn:E; [bool_prop; lia|done].
Qed.

Lemma upper_chars l : Forall (fun c => c <> 0) l -> upper (of_chars l) = Some (of_chars (upper_char <$> l)).
Proof.
  intros Hl. unfold upper. destruct (get_buf_chars l) as [r ->]. cbn. rewrite size_chars, slice_front. cbn.
  apply of_cstr_chars. apply Forall_fmap. eapply Forall_impl; [exact Hl|]. intros c Hc. cbn. unfold upper_char.
  destruct (_ && _) eqn:E; [bool_prop; lia|done].
Qed.

Definition subst_char (c r x : Z) : Z := if x =? c then r else x.

Lemma replace_chars l c r : r <> 0 -> replace (of_chars l) c r = Some (of_chars (subst_char c r <$> l)).
Proof.
  intros Hr. unfold replace. destruct (get_buf_chars l) as [rest ->]. cbn. rewrite size_chars, slice_front. cbn.
  rewrite (proj2 (Z.eqb_neq _ _) Hr). cbn. fold (subst_char c r).
  replace (zlen l) with (zlen (subst_char c r <$> l)) by (unfold zlen; by rewrite length_fmap).
  rewrite <- (app_nil_r (subst_char c r <$> l)) at 1. apply init_front.
Qed.

(** Cutting a string at the first [c] by replacing it with the null character. *)
Lemma replace_cut l1 c l2 : Forall (fun x => x <> 0 /\ x <> c) l1 ->
  replace (of_chars (l1 ++ c :: l2)) c 0 = Some (of_chars l1).
Proof.
  intros Hl. unfold replace. destruct (get_buf_chars (l1 ++ c :: l2)) as [rest ->]. cbn.
  rewrite size_chars, slice_front. cbn. rewrite fmap_app. cbn. rewrite Z.eqb_refl.
  assert ((fun x => if x =? c then 0 else x) <$> l1 = l1) as ->.
  { induction Hl as [|x l [H0 Hc] Hl IH]; cbn; [done|]. by rewrite (proj2 (Z.eqb_neq _ _) Hc), IH. }
  rewrite cstr_size by (eapply Forall_impl; [exact Hl|]; by intros x []). cbn. apply init_front.
Qed.

(** When there is nothing to cut the size is searched for behind the end of the buffer. *)
Lemma replace_overrun l c : Forall (fun x => x <> 0 /\ x <> c) l -> replace (of_chars l) c 0 = None.
Proof.
  intros Hl. unfold replace. destruct (get_buf_chars l) as [rest ->]. cbn. rewrite size_chars, slice_front. cbn.
  assert (get_cstr_size ((fun x => if x =? c then 0 else x) <$> l) = None) as ->; [|done].
  induction Hl as [|x l [H0 Hc] Hl IH]; cbn; [done|].
  by rewrite (proj2 (Z.eqb_neq _ _) Hc), (proj2 (Z.eqb_neq _ _) H0), IH.
Qed.

(** ** Trimming *)

Lemma trim_start_spec sz a : forall pre c rest fuel, Forall (fun x => is_blank x = true) a -> is_blank c = false \/ zlen pre + zlen a = sz ->
  zlen pre + zlen a <= sz -> (length a < fuel)%nat \/ (length a <= fuel)%nat /\ zlen pre + zlen a = sz ->
  trim_start fuel (pre ++ a ++ c :: rest) sz (zlen pre) = Some (zlen pre + zlen a).
Proof.
  induction a as [|x a IH]; intros pre c rest fuel Ha Hc Hsz Hf.
  - cbn [app]. rewrite zlen_nil, Z.add_0_r in *. destruct fuel as [|fuel]; [done|]. cbn [trim_start].
    destruct (zlen pre <? sz) eqn:E; [|done]. bool_prop. destruct Hc as [Hc|Hc]; [|lia]. by rewrite aget_chars_mid; cbn; rewrite Hc.
  - rewrite zlen_cons in *. pose proof (zlen_nonneg a). destruct fuel as [|fuel]; [cbn in Hf; lia|]. cbn [trim_start app].
    replace (zlen pre <? sz) with true by (symmetry; apply Z.ltb_lt; lia). rewrite aget_chars_mid. cbn.
    inversion Ha as [|? ? Hx Ha']; subst. rewrite Hx.
    replace (zlen pre + 1) with (zlen (pre ++ [x])) by (by rewrite zlen_app).
    change (x :: a ++ c :: rest) with ([x] ++ a ++ c :: rest). rewrite app_assoc, IH; rewrite ?zlen_app; change (zlen [x]) with 1; try done.
    + f_equal. lia.
    + destruct Hc; [by left|right; lia].
    + lia.
    + cbn in Hf. lia.
Qed.

Lemma trim_end_spec start b : forall pre rest fuel, Forall (fun x => is_blank x = true) b ->
  (zlen pre = start \/ exists p c, pre = p ++ [c] /\ is_blank c = false) -> start <= zlen pre ->
  (length b < fuel)%nat \/ (length b <= fuel)%nat /\ zlen pre = start ->
  trim_end fuel (pre ++ b ++ rest) start (zlen pre + zlen b) = Some (zlen pre).
Proof.
  induction b as [|x b IH] using rev_ind; intros pre rest fuel Hb Hp Hs Hf.
  - rewrite zlen_nil, Z.add_0_r. destruct fuel as [|fuel]; [done|]. cbn [trim_end app].
    destruct (start <? zlen pre) eqn:E; [|done]. bool_prop. destruct Hp as [Hp|(p & c & -> & Hc)]; [lia|].
    rewrite zlen_app. change (zlen [c]) with 1. replace (zlen p + 1 - 1) with (zlen p) by lia.
    rewrite <- app_assoc. cbn [app]. rewrite aget_chars_mid. cbn. by rewrite Hc.
  - rewrite zlen_app in *. change (zlen [x]) with 1 in *. pose proof (zlen_nonneg b). apply Forall_app in Hb as [Hb Hx].
    rewrite length_app in Hf. cbn [length] in Hf. destruct fuel as [|fuel]; [lia|]. cbn [trim_end].
    replace (start <? zlen pre + (zlen b + 1)) with true by (symmetry; apply Z.ltb_lt; lia).
    replace (zlen pre + (zlen b + 1) - 1) with (zlen (pre ++ b)) by (rewrite zlen_app; lia).
    rewrite <- app_assoc, (app_assoc pre). cbn [app]. rewrite aget_chars_mid. cbn. inversion Hx as [|? ? Hx' _]; subst. rewrite Hx'.
    rewrite zlen_app, <- app_assoc. apply IH; try done. lia.
Qed.

(** What stays is the string without the blanks at its ends. *)
Lemma trim_chars a m b : Forall (fun x => is_blank x = true) a -> Forall (fun x => is_blank x = true) b ->
  (m = [] /\ b = [] \/ exists x y m1 m2, m = x :: m1 /\ m = m2 ++ [y] /\ is_blank x = false /\ is_blank y = false) ->
  trim (of_chars (a ++ m ++ b)) = Some (of_chars m).
Proof.
  intros Ha Hb Hm. unfold trim. destruct (get_buf_chars (a ++ m ++ b)) as [r ->]. cbn [mbind option_bind]. rewrite size_chars.
  pose proof (zlen_nonneg a). pose proof (zlen_nonneg m). pose proof (zlen_nonneg b).
  assert (trim_start (Z.to_nat (zlen (a ++ m ++ b))) ((a ++ m ++ b) ++ 0 :: r) (zlen (a ++ m ++ b)) 0 = Some (zlen a)) as ->.
  { destruct Hm as [[-> ->]|(x & y & m1 & m2 & -> & _ & Hx & _)].
    - rewrite !app_nil_r. apply (trim_start_spec (zlen a) a []); [done|right; done| |right]; rewrite ?zlen_nil; unfold zlen; lia.
    - rewrite <- !app_assoc. cbn [app]. apply (trim_start_spec _ a []); [done|by left| |left]; rewrite ?zlen_nil, !zlen_app, ?zlen_cons;
        pose proof (zlen_nonneg m1); unfold zlen in *; lia. }
  cbn [mbind option_bind].
  assert (trim_end (Z.to_nat (zlen (a ++ m ++ b))) ((a ++ m ++ b) ++ 0 :: r) (zlen a) (zlen (a ++ m ++ b)) = Some (zlen (a ++ m))) as ->.
  { rewrite (app_assoc a m b), <- (app_assoc (a ++ m)), (zlen_app (a ++ m) b). apply trim_end_spec; [done| | |].
    - destruct Hm as [[-> _]|(x & y & m1 & m2 & _ & -> & _ & Hy)]; [left; by rewrite app_nil_r|right].
      exists (a ++ m2), y. by rewrite app_assoc.
    - rewrite zlen_app. lia.
    - destruct Hm as [[-> ->]|(x & y & m1 & m2 & -> & _ & _)]; [right; rewrite !app_nil_r; cbn; split; [lia|done]|left].
      rewrite !zlen_app, zlen_cons in *. unfold zlen in *. lia. }
  cbn [mbind option_bind]. replace (zlen (a ++ m) - zlen a) with (zlen m) by (rewrite zlen_app; lia).
  rewrite <- !app_assoc. apply init_mid.
Qed.

Fixpoint drop_blanks (l : list Z) : list Z :=
  match l with c :: l' => if is_blank c then drop_blanks l' else l | [] => [] end.

(** The list without the blanks at both ends. *)
Definition strip (l : list Z) : list Z := reverse (drop_blanks (reverse (drop_blanks l))).

Lemma drop_blanks_split l : exists a, l = a ++ drop_blanks l /\ Forall (fun x => is_blank x = true) a
  /\ (drop_blanks l = [] \/ exists x m, drop_blanks l = x :: m /\ is_blank x = false).
Proof.
  induction l as [|c l (a & E & Ha & Hm)]; [exists []; auto|]. cbn [drop_blanks]. destruct (is_blank c) eqn:Ec.
  - exists (c :: a). cbn. rewrite <- E. auto.
  - exists []. split; [done|]. split; [done|]. right. eauto.
Qed.

Lemma trim_strip l : trim (of_chars l) = Some (of_chars (strip l)).
Proof.
  unfold strip. destruct (drop_blanks_split l) as (a & E & Ha & Hm). set (m := drop_blanks l) in *.
  destruct (drop_blanks_split (reverse m)) as (b & Er & Hb & Hn). set (n := drop_blanks (reverse m)) in *.
  assert (m = reverse n ++ reverse b) as Em by (rewrite <- reverse_app, <- Er; by rewrite reverse_involutive).
  rewrite E, Em. apply trim_chars; [done|by apply Forall_reverse|].
  destruct Hn as [Hn|(y & n' & Hn & Hy)].
  - left. rewrite Hn in *. split; [done|]. destruct Hm as [Hm|(x & m' & Hm & Hx)].
    + rewrite Hm in Em. by destruct (app_eq_nil _ _ (eq_sym Em)).
    + rewrite Hm in Em. cbn in Em. assert (x ∈ b) as Hin by (apply elem_of_reverse; rewrite <- Em; left).
      rewrite Forall_forall in Hb. rewrite (Hb x Hin) in Hx. done.
  - right. rewrite Hn, reverse_cons in *. destruct Hm as [Hm|(x & m' & Hm & Hx)].
    { rewrite Hm in Em. by destruct (reverse n'). }
    destruct (reverse n' ++ [y]) as [|x' r] eqn:Ex; [by destruct (reverse n')|].
    rewrite Hm in Em. injection Em as <- _. exists x, y, r, (reverse n'). done.
Qed.

(** ** Expressions

    Programs over strings and what they mean on lists of characters. [meaning] is undefined where the
    class does not promise anything: a part out of range, a null character in an operation that goes
    through a C string, a string of 2^31 characters, the null character for a character that is missing. *)
Inductive expr :=
  | Empty | Char (ch : Z) | Cstr (l : list Z) | Ilist (l : list Z) | Buffer (l : list Z) (offset size : nat)
  | Copy (e : expr) | Assign (a b : expr) | Plus (a b : expr) | AppendTo (a b : expr)
  | PlusCstr (e : expr) (l : list Z) | CstrPlus (l : list Z) (e : expr) | AppendCstr (e : expr) (l : list Z)
  | PlusChar (e : expr) (ch : Z) | AppendChar (e : expr) (ch : Z) | Sub (e : expr) (start len : nat) | From (e : expr) (start : nat)
  | Lower (e : expr) | Upper (e : expr) | Replace (e : expr) (c r : Z) | Trim (e : expr) | Part (e : expr) (sep : Z) (k : nat).

Fixpoint run (e : expr) : option String :=
  match e with
  | Empty => empty_string
  | Char ch => of_char ch
  | Cstr l => of_cstr (l ++ [0])
  | Buffer l offset size => init l (Z.of_nat offset) (Z.of_nat size)
  | Assign a b => s ← run a; t ← run b; assign s t
  | PlusCstr e l => s ← run e; plus_cstr s (l ++ [0])
  | CstrPlus l e => s ← run e; cstr_plus (l ++ [0]) s
  | AppendCstr e l => s ← run e; append_cstr s (l ++ [0])
  | Ilist l => of_list l
  | Copy e => s ← run e; copy s
  | Plus a b => s ← run a; t ← run b; plus s t
  | AppendTo a b => s ← run a; t ← run b; append s t
  | PlusChar e ch => s ← run e; plus_char s ch
  | AppendChar e ch => s ← run e; append_char s ch
  | Sub e start len => s ← run e; substring_len s (Z.of_nat start) (Z.of_nat len)
  | From e start => s ← run e; substring s (Z.of_nat start)
  | Lower e => s ← run e; lower s
  | Upper e => s ← run e; upper s
  | Replace e c r => s ← run e; replace s c r
  | Trim e => s ← run e; trim s
  | Part e sep k => s ← run e; ps ← split s sep; ps !! k
  end.

(** The characters before the first [c]. *)
Fixpoint before (c : Z) (l : list Z) : list Z :=
  match l with [] => [] | x :: l => if decide (x = c) then [] else x :: before c l end.

Lemma before_split c l : c ∈ l -> exists l2, l = before c l ++ c :: l2 /\ c ∉ before c l.
Proof.
  induction l as [|x l IH]; [by intros ?%not_elem_of_nil|]. cbn [before]. case_decide as E.
  - subst x. intros _. exists l. split; [done|]. apply not_elem_of_nil.
  - intros [->|Hin]%elem_of_cons; [done|]. destruct (IH Hin) as (l2 & El & Hn). exists l2.
    split; [cbn; by f_equal|]. by apply not_elem_of_cons.
Qed.

Definition checked (P : Prop) `{!Decision P} (l : list Z) : option (list Z) :=
  if decide P then if decide (fits l) then Some l else None else None.

#[export] Instance fits_dec l : Decision (fits l).
Proof. unfold fits. apply _. Defined.

Abbreviation no_null l := (Forall (fun c : Z => c <> 0) l).

Fixpoint meaning (e : expr) : option (list Z) :=
  match e with
  | Empty => Some []
  | Char ch => Some (if decide (ch = 0) then [] else [ch])
  | Cstr l => checked (no_null l) l
  | Buffer l offset size => checked (offset + size <= length l)%nat (take size (drop offset l))
  | Assign a b => _ ← meaning a; meaning b
  | PlusCstr e m => l ← meaning e; checked (no_null m /\ fits m) (l ++ m)
  | CstrPlus m e => l ← meaning e; checked (no_null m /\ fits m) (m ++ l)
  | AppendCstr e m => l ← meaning e; checked (no_null m /\ fits m) (l ++ m)
  | Ilist l => checked True l
  | Copy e => meaning e
  | Plus a b | AppendTo a b => l ← meaning a; m ← meaning b; checked True (l ++ m)
  | PlusChar e ch => l ← meaning e; checked (no_null l /\ ch <> 0) (l ++ [ch])
  | AppendChar e ch => l ← meaning e; checked (ch <> 0) (l ++ [ch])
  | Sub e start len => l ← meaning e; checked (start + len <= length l)%nat (take len (drop start l))
  | From e start => l ← meaning e; checked (start <= length l)%nat (drop start l)
  | Lower e => l ← meaning e; checked (no_null l) (lower_char <$> l)
  | Upper e => l ← meaning e; checked (no_null l) (upper_char <$> l)
  | Replace e c r => l ← meaning e;
      if decide (r = 0) then checked (no_null l /\ c ∈ l) (before c l) else checked True (subst_char c r <$> l)
  | Trim e => l ← meaning e; checked True (strip l)
  | Part e sep k => l ← meaning e; p ← pieces sep l !! k; checked True p
  end.

Lemma checked_Some (P : Prop) `{!Decision P} l m : checked P l = Some m -> P /\ fits m /\ m = l.
Proof. unfold checked. repeat case_decide; [|done|done]. by intros [= ->]. Qed.

Lemma meaning_fits e : forall l, meaning e = Some l -> fits l.
Proof.
  induction e; intros res; cbn [meaning]; repeat setoid_rewrite bind_Some; intros H;
    repeat match goal with H : exists _, _ |- _ => destruct H | H : _ /\ _ |- _ => destruct H end; eauto;
    try (injection H as <-; unfold fits; repeat case_decide; done); repeat case_decide;
    match goal with H : checked _ _ = Some _ |- _ => by apply checked_Some in H as (_ & ? & _) end.
Qed.

Ltac open_meaning :=
  repeat match goal with
    | H : _ ≫= _ = Some _ |- _ => apply bind_Some in H as (? & ? & H)
    | H : checked _ _ = Some _ |- _ => apply checked_Some in H as (? & ? & ->)
    | IH : forall l, meaning ?e = Some l -> run ?e = _, H : meaning ?e = Some ?l |- _ =>
        rewrite (IH l H); pose proof (meaning_fits e l H); clear IH; cbn [mbind option_bind]
    end.

Lemma run_meaning e : forall l, meaning e = Some l -> run e = Some (of_chars l).
Proof.
  induction e; intros res Hm; cbn [meaning run] in *; open_meaning.
  - simplify_eq. apply empty_string_chars.
  - simplify_eq. case_decide as E; [by subst|]. by apply of_char_chars.
  - by apply of_cstr_chars.
  - apply of_list_chars.
  - rewrite <- (take_drop offset l), <- (take_drop size0 (drop offset l)) at 1.
    replace (Z.of_nat offset) with (zlen (take offset l)) by (unfold zlen; rewrite length_take; lia).
    replace (Z.of_nat size0) with (zlen (take size0 (drop offset l))) by (unfold zlen; rewrite length_take, length_drop; lia).
    apply init_mid.
  - apply copy_chars.
  - apply assign_chars.
  - by apply plus_chars.
  - by apply append_chars.
  - destruct_and?. by apply plus_cstr_chars.
  - destruct_and?. by apply cstr_plus_chars.
  - destruct_and?. by apply append_cstr_chars.
  - by apply plus_char_chars; destruct_and?.
  - by apply append_char_chars.
  - rewrite <- (take_drop start x), <- (take_drop len (drop start x)) at 1.
    replace (Z.of_nat start) with (zlen (take start x)) by (unfold zlen; rewrite length_take; lia).
    replace (Z.of_nat len) with (zlen (take len (drop start x))) by (unfold zlen; rewrite length_take, length_drop; lia).
    apply substring_len_chars.
  - rewrite <- (take_drop start x) at 1.
    replace (Z.of_nat start) with (zlen (take start x)) by (unfold zlen; rewrite length_take; lia).
    apply substring_chars. by rewrite take_drop.
  - by apply lower_chars.
  - by apply upper_chars.
  - case_decide as Er; open_meaning; [|by apply replace_chars]. subst r. destruct_and?.
    destruct (before_split c x) as (l2 & E & Hn); [done|]. rewrite E at 1. apply replace_cut.
    apply Forall_forall. intros y Hy. split; [|by intros ->]. revert y Hy. apply Forall_forall.
    assert (Forall (fun c => c <> 0) (before c x ++ c :: l2)) as [? _]%Forall_app by (by rewrite <- E). done.
  - apply trim_strip.
  - rewrite split_chars. cbn [mbind option_bind]. by rewrite list_lookup_fmap, H0.
Qed.


End StrProps.
