(* ===== verification/VfsPath.v ===== *)
(** * VirtualFileSystem/Path.cpp: Unix paths over the kernel's strings *)

From S2P Require Import Prelude KString KStringProps.

Module Path.
Import KString.

Record Path := mkPath { _path : String }.

Definition UNIX_PATH_SEPARATOR : Z := 47.
Definition DOT : Z := 46.

Definition cstr (l : list Z) : option String := of_cstr (l ++ [0]).

Definition path_of (l : list Z) : option Path := s ← cstr l; Some (mkPath s).

Definition get_file_name (p : Path) : option String :=
  i ← last_index_of (_path p) UNIX_PATH_SEPARATOR; substring (_path p) (u64 (i + 1)).

Definition get_file_name_without_extension (p : Path) : option String :=
  name ← get_file_name p; name_and_ext ← split name DOT;
  match name_and_ext with first :: _ => Some first | [] => empty_string end.

Definition get_file_extension (p : Path) : option String :=
  name ← get_file_name p; name_and_ext ← split name DOT;
  match name_and_ext with _ :: _ :: _ => last name_and_ext | _ => empty_string end.

(** The comparison of a path with a string literal. *)
Definition is_literal (s : String) (l : list Z) : option bool := t ← cstr l; eqb s t.

Definition get_parent (p : Path) : option Path :=
  if is_empty (_path p) then path_of [DOT] else
  root ← is_literal (_path p) [UNIX_PATH_SEPARATOR];
  dot ← (if (root : bool) then Some true else is_literal (_path p) [DOT]);
  dotdot ← (if (dot : bool) then Some true else is_literal (_path p) [DOT; DOT]);
  if (dotdot : bool) then Some p else
  idx ← last_index_of (_path p) UNIX_PATH_SEPARATOR;
  if idx =? 0 then path_of [UNIX_PATH_SEPARATOR] else
  if idx =? -1 then path_of [DOT] else
  s ← substring_len (_path p) 0 idx; Some (mkPath s).

Definition is_root (p : Path) : option bool := is_literal (_path p) [UNIX_PATH_SEPARATOR].

Definition is_absolute (p : Path) : option bool :=
  if is_empty (_path p) then Some false else
  c ← char_at (_path p) 0; Some (c =? UNIX_PATH_SEPARATOR).

Definition split_path (p : Path) : option (list String) := split (_path p) UNIX_PATH_SEPARATOR.

Definition append_path (this : Path) (part : String) : option Path :=
  if (size (_path this) =? 0) && (size part =? 0) then s ← empty_string; Some (mkPath s) else
  if size (_path this) =? 0 then Some (mkPath part) else
  if size part =? 0 then Some this else
  let p := _path this in
  e ← char_at p (size p - 1); h ← char_at part 0;
  p ← (if negb (e =? UNIX_PATH_SEPARATOR) && negb (h =? UNIX_PATH_SEPARATOR) then append_char p UNIX_PATH_SEPARATOR
       else if (e =? UNIX_PATH_SEPARATOR) && (h =? UNIX_PATH_SEPARATOR) then substring_len p 0 (size p - 1)
       else Some p);
  r ← plus p part; Some (mkPath r).

(** The loop of [resolve] over the parts of the path. *)
Fixpoint resolve_loop (parts : list String) (out : Path) : option Path :=
  match parts with
  | [] => Some out
  | part :: parts =>
      dot ← is_literal part [DOT];
      if (dot : bool) then resolve_loop parts out else
      dotdot ← is_literal part [DOT; DOT];
      out ← (if (dotdot : bool) then get_parent out else append_path out part);
      resolve_loop parts out
  end.

Definition resolve (this working_dir : Path) : option Path :=
  parts ← split_path this; resolve_loop parts working_dir.

Definition path_eqb (first second : Path) : option bool := eqb (_path first) (_path second).

(** [relative_to]: walks both lists of parts while the shorter one lasts. *)
Fixpoint strip_common (o_split t_split : list String) : option (option (list String)) :=
  match o_split, t_split with
  | [], _ => Some (Some t_split)
  | o :: o_split, t :: t_split =>
      same ← eqb t o; if (same : bool) then strip_common o_split t_split else Some None
  | _ :: _, [] => None
  end.

Fixpoint append_all (parts : list String) (relative : Path) : option Path :=
  match parts with
  | [] => Some relative
  | part :: parts => relative ← append_path relative part; append_all parts relative
  end.

Definition relative_to (this path : Path) : option Path :=
  nothing ← empty_string; let nothing := mkPath nothing in
  if is_empty (_path path) then Some nothing else
  a ← is_absolute this; b ← is_absolute path;
  if negb (Bool.eqb a b) then Some nothing else
  same ← path_eqb this path;
  if (same : bool) then Some nothing else
  o_split ← split_path path; t_split ← split_path this;
  if (length t_split <=? length o_split)%nat then Some nothing else
  rest ← strip_common o_split t_split;
  match rest with None => Some nothing | Some rest => append_all rest nothing end.

(** [common_path] iterates over two lists that are temporaries of the statements that make the
    iterators: both lists are destroyed before the loop reads their first node. *)
Definition common_path (this path : Path) : option Path :=
  nothing ← empty_string; let nothing := mkPath nothing in
  if is_empty (_path path) then Some nothing else
  a ← is_absolute this; b ← is_absolute path;
  if negb (Bool.eqb a b) then Some nothing else
  same ← path_eqb this path;
  if (same : bool) then Some this else
  o_split ← split_path path; t_split ← split_path this;
  match t_split, o_split with
  | _ :: _, _ :: _ => None
  | _, _ => if (a : bool) then path_of [UNIX_PATH_SEPARATOR] else Some nothing
  end.
End Path.
