(* ===== verification/VfsPathProps.v ===== *)
(** * Theorems on VirtualFileSystem/Path.cpp

    A path is read through its parts: [render ws] is the absolute path with the parts [ws], [relative ws]
    the relative one. *)

From S2P Require Import Prelude KString KStringProps VfsPath.

Module PathProps.
Import KString StrProps Path.

Abbreviation SEP := UNIX_PATH_SEPARATOR.

(** A part of a path: not empty, without separators and null characters. *)
Definition part_ok (w : list Z) : Prop := w <> [] /\ Forall (fun c => c <> 0 /\ c <> SEP) w.

(** A part that is neither the dot nor the dotdot entry. *)
Definition ordinary (w : list Z) : Prop := part_ok w /\ w <> [DOT] /\ w <> [DOT; DOT].

Definition tail_of (ws : list (list Z)) : list Z := mjoin ((fun w => SEP :: w) <$> ws).

Definition render (ws : list (list Z)) : list Z := match ws with [] => [SEP] | _ => tail_of ws end.

Definition relative (ws : list (list Z)) : list Z := match ws with [] => [] | w :: ws => w ++ tail_of ws end.

Definition P (l : list Z) : Path := mkPath (of_chars l).

(** ** Pieces *)

Lemma pieces_from_app sep l1 : forall cur l2,
  pieces_from sep cur (l1 ++ sep :: l2) = pieces_from sep cur l1 ++ pieces sep l2.
Proof.
  induction l1 as [|c l1 IH]; intros cur l2; cbn.
  - by rewrite Z.eqb_refl.
  - destruct (c =? sep); rewrite IH; [by rewrite app_assoc|done].
Qed.

Lemma pieces_app sep l1 l2 : pieces sep (l1 ++ sep :: l2) = pieces sep l1 ++ pieces sep l2.
Proof. apply pieces_from_app. Qed.

Lemma pieces_from_word sep w : forall cur, Forall (fun c => c <> sep) w -> pieces_from sep cur w = piece (cur ++ w).
Proof.
  induction w as [|c w IH]; intros cur Hw; cbn; [by rewrite app_nil_r|].
  inversion Hw as [|? ? Hc Hw']; subst. rewrite (proj2 (Z.eqb_neq _ _) Hc), IH, <- app_assoc by done. done.
Qed.

Lemma part_no_sep w : part_ok w -> Forall (fun c => c <> SEP) w.
Proof. intros [_ Hw]. eapply Forall_impl; [exact Hw|]. by intros c []. Qed.

Lemma pieces_part w : part_ok w -> pieces SEP w = [w].
Proof.
  intros Hw. unfold pieces. rewrite pieces_from_word by (by apply part_no_sep). cbn. destruct Hw as [Hw _].
  by destruct w.
Qed.

Lemma pieces_tail ws : Forall part_ok ws -> forall l, pieces SEP (l ++ tail_of ws) = pieces SEP l ++ ws.
Proof.
  induction 1 as [|w ws Hw Hws IH]; intros l; cbn; [by rewrite !app_nil_r|].
  rewrite pieces_app. change (mjoin _) with (tail_of ws). by rewrite IH, (pieces_part w Hw).
Qed.

Lemma pieces_render ws : Forall part_ok ws -> pieces SEP (render ws) = ws.
Proof. intros Hws. destruct ws; [done|]. by apply (pieces_tail _ Hws []). Qed.

Lemma pieces_relative ws : Forall part_ok ws -> pieces SEP (relative ws) = ws.
Proof.
  intros Hws. destruct Hws as [|w ws Hw Hws]; [done|].
  cbn [relative]. by rewrite pieces_tail, (pieces_part w).
Qed.

Lemma tail_snoc ws w : tail_of (ws ++ [w]) = tail_of ws ++ SEP :: w.
Proof. unfold tail_of. rewrite fmap_app, join_app. cbn. by rewrite app_nil_r. Qed.

(** The pieces of a string are parts and take no more room than the string. *)
Lemma pieces_from_ok l : forall cur, Forall (fun c => c <> 0 /\ c <> SEP) cur -> Forall (fun c => c <> 0) l ->
  Forall part_ok (pieces_from SEP cur l) /\ zlen (tail_of (pieces_from SEP cur l)) <= zlen cur + zlen l + 1.
Proof.
  assert (forall cur, Forall (fun c => c <> 0 /\ c <> SEP) cur ->
    Forall part_ok (piece cur) /\ zlen (tail_of (piece cur)) <= zlen cur + 1) as Hpiece.
  { intros [|c cur] Hcur; [by split; [constructor|]|]. split; [by apply Forall_singleton|].
    cbn. rewrite app_nil_r, !zlen_cons. lia. }
  induction l as [|c l IH]; intros cur Hcur Hl; cbn [pieces_from].
  - rewrite zlen_nil, Z.add_0_r. by apply Hpiece.
  - inversion Hl as [|? ? Hc Hl']; subst. rewrite zlen_cons. destruct (c =? SEP) eqn:E; bool_prop.
    + destruct (Hpiece cur Hcur) as [H1 H2]. destruct (IH [] ltac:(constructor) Hl') as [H3 H4].
      rewrite Forall_app. split; [done|]. unfold tail_of in *. rewrite fmap_app, join_app, zlen_app. rewrite zlen_nil in H4. lia.
    + destruct (IH (cur ++ [c])) as [H1 H2]; [by apply Forall_app; split; [|constructor]|done|].
      split; [done|]. rewrite zlen_app in H2. change (zlen [c]) with 1 in H2. lia.
Qed.

Lemma pieces_ok l : Forall (fun c => c <> 0) l ->
  Forall part_ok (pieces SEP l) /\ zlen (tail_of (pieces SEP l)) <= zlen l + 1.
Proof. intros Hl. by apply (pieces_from_ok l []). Qed.

(** ** Operations on rendered paths *)

Lemma literal l w : Forall (fun c => c <> 0) w -> is_literal (of_chars l) w = Some (bool_decide (l = w)).
Proof. intros Hw. unfold is_literal, cstr. rewrite of_cstr_chars by done. cbn. apply eqb_chars. Qed.

Lemma path_of_chars w : Forall (fun c => c <> 0) w -> path_of w = Some (P w).
Proof. intros Hw. unfold path_of, cstr. by rewrite of_cstr_chars. Qed.

Lemma no_zero_lits : Forall (fun c => c <> 0) [SEP] /\ Forall (fun c => c <> 0) [DOT] /\ Forall (fun c => c <> 0) [DOT; DOT].
Proof. repeat split; repeat constructor; done. Qed.

Lemma split_P l : split_path (P l) = Some (of_chars <$> pieces SEP l).
Proof. apply split_chars. Qed.

(** What [append] makes of two strings. *)
Definition joined (a b : list Z) : list Z :=
  match a, b with
  | [], _ => b
  | _, [] => a
  | _, h :: _ =>
      match last a with
      | Some e => if (e =? SEP) && (h =? SEP) then removelast a ++ b
                  else if negb (e =? SEP) && negb (h =? SEP) then a ++ SEP :: b else a ++ b
      | None => b
      end
  end.

Lemma append_joined a b : fits a -> fits b -> zlen a + 1 < 2 ^ 31 -> append_path (P a) (of_chars b) = Some (P (joined a b)).
Proof.
  intros Ha Hb Ha1. unfold append_path, size. cbn [_path P]. rewrite !size_chars.
  destruct a as [|a0 a' _] using rev_ind; [destruct b as [|h b]; cbn; [done|]|].
  { replace (zlen (h :: b) =? 0) with false by (symmetry; apply Z.eqb_neq; rewrite zlen_cons; pose proof (zlen_nonneg b); lia). done. }
  assert (zlen (a' ++ [a0]) =? 0 = false) as ->.
  { apply Z.eqb_neq. rewrite zlen_app. change (zlen [a0]) with 1. pose proof (zlen_nonneg a'). lia. }
  assert (exists x y, a' ++ [a0] = x :: y) as (x & y & Exy) by (destruct a'; cbn; eauto).
  destruct b as [|h b]; cbn [andb].
  { change (zlen [] =? 0) with true. cbn. unfold joined. by rewrite Exy. }
  replace (zlen (h :: b) =? 0) with false by (symmetry; apply Z.eqb_neq; rewrite zlen_cons; pose proof (zlen_nonneg b); lia).
  pose proof (zlen_nonneg a'). pose proof (zlen_nonneg b).
  replace (zlen (a' ++ [a0]) - 1) with (zlen a') by (rewrite zlen_app; change (zlen [a0]) with 1; lia).
  rewrite (char_at_chars (a' ++ [a0])) by (rewrite zlen_app; change (zlen [a0]) with 1; lia).
  rewrite aget_chars_mid, (char_at_chars (h :: b)) by (rewrite zlen_cons; lia). change (aget (h :: b) 0) with (Some h). cbn [mbind option_bind].
  assert (joined (a' ++ [a0]) (h :: b) = if (a0 =? SEP) && (h =? SEP) then a' ++ h :: b
    else if negb (a0 =? SEP) && negb (h =? SEP) then (a' ++ [a0]) ++ SEP :: h :: b else (a' ++ [a0]) ++ h :: b) as ->.
  { unfold joined. rewrite last_snoc, removelast_last, Exy. done. }
  destruct (a0 =? SEP), (h =? SEP); cbn [andb negb].
  - pose proof (substring_len_chars [] a' [a0]) as Hsub. cbn [app] in Hsub. change (zlen []) with 0 in Hsub. rewrite Hsub.
    cbn [mbind option_bind]. rewrite plus_chars; [done| |done].
    unfold fits in *. rewrite zlen_app in Ha. change (zlen [a0]) with 1 in Ha. lia.
  - cbn [mbind option_bind]. by rewrite plus_chars.
  - cbn [mbind option_bind]. by rewrite plus_chars.
  - rewrite append_char_chars by done. cbn [mbind option_bind]. rewrite plus_chars; [by rewrite <- !app_assoc| |done].
    unfold fits. rewrite zlen_app. change (zlen [SEP]) with 1. lia.
Qed.

(** The parts of the new path are the parts of both, whatever separators meet. *)
Lemma pieces_joined a b : pieces SEP (joined a b) = pieces SEP a ++ pieces SEP b.
Proof.
  destruct a as [|a0 a' _] using rev_ind; [done|].
  assert (exists x y, a' ++ [a0] = x :: y) as (x & y & Exy) by (destruct a'; cbn; eauto).
  unfold joined. rewrite last_snoc, removelast_last, Exy. rewrite <- Exy. destruct b as [|h b]; [by rewrite app_nil_r|].
  destruct (a0 =? SEP) eqn:E0, (h =? SEP) eqn:Eh; bool_prop; subst; cbn [andb negb].
  - rewrite !pieces_app. change (pieces SEP []) with (@nil (list Z)). by rewrite app_nil_r.
  - rewrite <- app_assoc. cbn [app]. rewrite !pieces_app. change (pieces SEP []) with (@nil (list Z)). by rewrite app_nil_r.
  - by rewrite pieces_app.
  - by rewrite pieces_app.
Qed.

Lemma part_nonzero w : part_ok w -> Forall (fun c => c <> 0) w.
Proof. intros [_ Hw]. eapply Forall_impl; [exact Hw|]. by intros c []. Qed.

Lemma tail_last ws w : Forall part_ok (ws ++ [w]) -> exists l c, tail_of (ws ++ [w]) = l ++ [c] /\ c <> SEP.
Proof.
  intros [_ Hw]%Forall_app. apply Forall_singleton in Hw as [Hn Hw]. rewrite tail_snoc.
  destruct w as [|c w _] using rev_ind; [done|]. exists (tail_of ws ++ SEP :: w), c. rewrite <- app_assoc. split; [done|].
  apply Forall_app in Hw as [_ Hc]. by apply Forall_singleton in Hc as [_ Hc].
Qed.

(** Appending a part to a rendered path. *)
Lemma joined_render ws w : Forall part_ok ws -> part_ok w -> joined (render ws) w = render (ws ++ [w]).
Proof.
  intros Hws Hw. destruct Hw as [Hn Hw]. destruct w as [|h w]; [done|]. inversion Hw as [|? ? [_ Hh] _]; subst.
  destruct ws as [|w0 ws _] using rev_ind.
  - cbn. rewrite (proj2 (Z.eqb_neq h SEP) Hh). cbn. by rewrite app_nil_r.
  - assert (forall v, render ((ws ++ [w0]) ++ v) = tail_of ((ws ++ [w0]) ++ v)) as Hr by (intros v; by destruct ws).
    pose proof (Hr []) as Hr0. rewrite app_nil_r in Hr0. rewrite Hr0, Hr, (tail_snoc (ws ++ [w0])).
    destruct (tail_last ws w0 Hws) as (l & c & -> & Hc). unfold joined. rewrite last_snoc.
    rewrite (proj2 (Z.eqb_neq c SEP) Hc), (proj2 (Z.eqb_neq h SEP) Hh). cbn. by destruct l.
Qed.

Lemma joined_relative ws w : Forall part_ok ws -> part_ok w -> joined (relative ws) w = relative (ws ++ [w]).
Proof.
  intros Hws Hw. destruct Hw as [Hn Hw]. destruct w as [|h w]; [done|]. inversion Hw as [|? ? [_ Hh] _]; subst.
  destruct ws as [|v ws]; [cbn; by rewrite app_nil_r|]. cbn [relative app]. rewrite tail_snoc.
  assert (exists l c, v ++ tail_of ws = l ++ [c] /\ c <> SEP) as (l & c & El & Hc).
  { destruct ws as [|w0 ws _] using rev_ind.
    - inversion Hws as [|? ? [Hv Hvs] _]; subst. destruct v as [|c v _] using rev_ind; [done|]. exists v, c.
      cbn. rewrite app_nil_r. split; [done|]. apply Forall_app in Hvs as [_ Hc]. by apply Forall_singleton in Hc as [_ Hc].
    - inversion Hws as [|? ? _ Hws']; subst. destruct (tail_last ws w0 Hws') as (l & c & -> & Hc).
      exists (v ++ l), c. by rewrite app_assoc. }
  rewrite app_assoc, El. unfold joined. rewrite last_snoc.
  rewrite (proj2 (Z.eqb_neq c SEP) Hc), (proj2 (Z.eqb_neq h SEP) Hh). cbn. by destruct l.
Qed.

Lemma render_not_dots ws : render ws <> [DOT] /\ render ws <> [DOT; DOT].
Proof. by destruct ws. Qed.

Lemma render_root ws : Forall part_ok ws -> render ws = [SEP] <-> ws = [].
Proof.
  intros Hws. split; [|by intros ->]. intros H. pose proof (pieces_render ws Hws) as Hp. rewrite H in Hp. by symmetry in Hp.
Qed.

(** The parent of a rendered path drops its last part; the root is its own parent. *)
Lemma get_parent_render ws : Forall part_ok ws -> fits (render ws) -> get_parent (P (render ws)) = Some (P (render (removelast ws))).
Proof.
  intros Hws Hf. unfold get_parent. cbn [_path P]. destruct no_zero_lits as (L1 & L2 & L3).
  rewrite is_empty_chars, bool_decide_false by (by destruct ws). rewrite !literal by done. cbn [mbind option_bind].
  destruct ws as [|w ws _] using rev_ind; [done|].
  rewrite (bool_decide_false (render _ = [SEP])) by (rewrite render_root by done; by destruct ws). cbn [mbind option_bind].
  destruct (render_not_dots (ws ++ [w])) as [D1 D2].
  rewrite (bool_decide_false (render _ = [DOT])), (bool_decide_false (render _ = [DOT; DOT])) by done. cbn [mbind option_bind].
  assert (render (ws ++ [w]) = tail_of ws ++ SEP :: w) as E by (rewrite <- tail_snoc; by destruct ws).
  rewrite E in Hf |- *. apply Forall_app in Hws as [Hws Hw]. rewrite Forall_singleton in Hw.
  rewrite last_index_some; [|done|intros Hin; pose proof (part_no_sep w Hw) as Hn; rewrite Forall_forall in Hn; by apply (Hn _ Hin)].
  cbn [mbind option_bind]. rewrite removelast_last. destruct ws as [|w0 ws].
  - change (zlen (tail_of []) =? 0) with true. by rewrite path_of_chars.
  - pose proof (zlen_nonneg (w0 ++ tail_of ws)). change (tail_of (w0 :: ws)) with (SEP :: (w0 ++ tail_of ws)) in *.
    rewrite zlen_cons. replace (1 + zlen (w0 ++ tail_of ws) =? 0) with false by (symmetry; apply Z.eqb_neq; lia).
    replace (1 + zlen (w0 ++ tail_of ws) =? -1) with false by (symmetry; apply Z.eqb_neq; lia).
    rewrite <- zlen_cons with (x := SEP).
    pose proof (substring_len_chars [] (SEP :: (w0 ++ tail_of ws)) (SEP :: w)) as Hs. cbn [app] in Hs. change (zlen []) with 0 in Hs.
    cbn [app]. rewrite Hs. done.
Qed.

(** ** Resolving *)

(** What one part of a path does to the parts of the directory. *)
Definition visit (ws : list (list Z)) (part : list Z) : list (list Z) :=
  if bool_decide (part = [DOT]) then ws else
  if bool_decide (part = [DOT; DOT]) then removelast ws else ws ++ [part].

Lemma removelast_ok {A} (Q : A -> Prop) l : Forall Q l -> Forall Q (removelast l).
Proof. induction 1 as [|x l Hx Hl IH]; [constructor|]. destruct l; [constructor|]. by constructor. Qed.

Lemma removelast_tail ws : zlen (tail_of (removelast ws)) <= zlen (tail_of ws).
Proof.
  induction ws as [|w ws _] using rev_ind; [done|]. rewrite removelast_last, tail_snoc, zlen_app.
  pose proof (zlen_nonneg (SEP :: w)). lia.
Qed.

Lemma render_len ws : zlen (render ws) <= zlen (tail_of ws) + 1.
Proof. destruct ws; [done|]. cbn [render]. lia. Qed.

Lemma tail_cons w ws : zlen (tail_of (w :: ws)) = 1 + zlen w + zlen (tail_of ws).
Proof. change (tail_of (w :: ws)) with ((SEP :: w) ++ tail_of ws). rewrite zlen_app, zlen_cons. lia. Qed.

Lemma resolve_loop_visits parts : forall ws, Forall part_ok parts -> Forall part_ok ws ->
  zlen (tail_of ws) + zlen (tail_of parts) + 2 < 2 ^ 31 ->
  resolve_loop (of_chars <$> parts) (P (render ws)) = Some (P (render (foldl visit ws parts))).
Proof.
  destruct no_zero_lits as (_ & L2 & L3).
  induction parts as [|w parts IH]; intros ws Hp Hws Hf; [done|].
  inversion Hp as [|? ? Hw Hp']; subst. rewrite tail_cons in Hf. pose proof (zlen_nonneg w). pose proof (zlen_nonneg (tail_of parts)).
  pose proof (render_len ws). cbn [fmap list_fmap resolve_loop foldl]. rewrite !literal by done. cbn [mbind option_bind].
  unfold visit at 2. case_bool_decide; [apply IH; try done; lia|]. case_bool_decide.
  - rewrite get_parent_render; [|done|unfold fits; lia]. cbn [mbind option_bind]. apply IH; [done|by apply removelast_ok|].
    pose proof (removelast_tail ws). lia.
  - rewrite append_joined by (unfold fits; pose proof (zlen_nonneg (tail_of ws)); lia). cbn [mbind option_bind]. rewrite joined_render by done.
    apply IH; [done|by apply Forall_app; split; [|constructor]|]. rewrite tail_snoc, zlen_app, zlen_cons. lia.
Qed.

Lemma visit_ordinary parts : forall ws, Forall part_ok parts -> Forall ordinary ws -> Forall ordinary (foldl visit ws parts).
Proof.
  induction parts as [|w parts IH]; intros ws Hp Hws; [done|]. inversion Hp as [|? ? Hw Hp']; subst.
  apply IH; [done|]. unfold visit. case_bool_decide; [done|]. case_bool_decide; [by apply removelast_ok|].
  apply Forall_app. by split; [|constructor].
Qed.

Lemma ordinary_ok ws : Forall ordinary ws -> Forall part_ok ws.
Proof. intros H. eapply Forall_impl; [exact H|]. by intros w []. Qed.

Lemma visits_ordinary parts : forall ws, Forall ordinary parts -> foldl visit ws parts = ws ++ parts.
Proof.
  induction parts as [|w parts IH]; intros ws Hp; cbn; [by rewrite app_nil_r|]. inversion Hp as [|? ? (Hw & H1 & H2) Hp']; subst.
  unfold visit at 2. rewrite !bool_decide_false by done. rewrite IH, <- app_assoc by done. done.
Qed.

Lemma resolve_result l ws : Forall (fun c => c <> 0) l -> Forall part_ok ws -> zlen (tail_of ws) + zlen l + 3 < 2 ^ 31 ->
  resolve (P l) (P (render ws)) = Some (P (render (foldl visit ws (pieces SEP l)))).
Proof.
  intros Hl Hws Hf. unfold resolve. rewrite split_P. cbn [mbind option_bind]. destruct (pieces_ok l Hl).
  apply resolve_loop_visits; [done|done|lia].
Qed.

(** C14: Resolving any path against an absolute directory without dot entries succeeds and gives the
    absolute path in which every dot part of the path was dropped and every dotdot part took the part
    before it away (the root has no parent); the result has no dot entries left. *)
Theorem resolve_normalizes l ws :
  Forall (fun c => c <> 0) l -> Forall ordinary ws -> zlen (tail_of ws) + zlen l + 3 < 2 ^ 31 ->
  exists vs, resolve (P l) (P (render ws)) = Some (P (render vs)) /\ vs = foldl visit ws (pieces SEP l)
    /\ Forall ordinary vs /\ split_path (P (render vs)) = Some (of_chars <$> vs) /\ is_absolute (P (render vs)) = Some true.
Proof.
  intros Hl Hws Hf. exists (foldl visit ws (pieces SEP l)). pose proof (ordinary_ok ws Hws) as Hws'.
  destruct (pieces_ok l Hl) as [Hok _]. pose proof (visit_ordinary (pieces SEP l) ws Hok Hws) as Ho.
  split_and!; [by apply resolve_result|done|done| |].
  - by rewrite split_P, pieces_render by (by apply ordinary_ok).
  - unfold is_absolute. cbn [_path P]. rewrite is_empty_chars, bool_decide_false by (by destruct (foldl visit _ _)).
    rewrite char_at_chars; [by destruct (foldl visit _ _)|]. destruct (foldl visit _ _); [done|].
    change (render (_ :: _)) with (tail_of (l0 :: l1)). rewrite tail_cons. pose proof (zlen_nonneg l0). pose proof (zlen_nonneg (tail_of l1)). lia.
Qed.

(** Worked: ["../x/./y"] in ["/a/b"]. *)
Lemma resolve_normalizes_witness : exists vs,
  resolve (P [46; 46; 47; 120; 47; 46; 47; 121]) (P (render [[97]; [98]])) = Some (P (render vs))
  /\ vs = foldl visit [[97]; [98]] (pieces SEP [46; 46; 47; 120; 47; 46; 47; 121])
  /\ Forall ordinary vs /\ split_path (P (render vs)) = Some (of_chars <$> vs) /\ is_absolute (P (render vs)) = Some true.
Proof.
  apply (resolve_normalizes [46; 46; 47; 120; 47; 46; 47; 121] [[97]; [98]]).
  - repeat constructor; discriminate.
  - repeat constructor; discriminate.
  - vm_compute. reflexivity.
Defined.

Example resolve_example : resolve (P [46; 46; 47; 120; 47; 46; 47; 121]) (P (render [[97]; [98]])) = Some (P (render [[97]; [120]; [121]])).
Proof. reflexivity. Qed.

(** ** Appending, parents and relative paths *)

Lemma append_result a b : fits a -> fits b -> zlen a + 1 < 2 ^ 31 ->
  exists c, append_path (P a) (of_chars b) = Some (P c) /\ split_path (P c) = Some (of_chars <$> (pieces SEP a ++ pieces SEP b)).
Proof.
  intros Ha Hb Hf. exists (joined a b). rewrite append_joined by done. split; [done|]. by rewrite split_P, pieces_joined.
Qed.

(** The parts of an appended path are the parts of both, however many separators meet. *)
Theorem append_split_roundtrip a b : zlen a + 1 < 2 ^ 31 -> zlen b < 2 ^ 31 ->
  exists c, append_path (P a) (of_chars b) = Some (P c) /\ split_path (P c) = Some (of_chars <$> (pieces SEP a ++ pieces SEP b)).
Proof. intros Ha Hb. apply append_result; [unfold fits; lia|done|done]. Qed.

Lemma append_split_roundtrip_witness : exists c,
  append_path (P [47; 97; 47]) (of_chars [47; 98; 47; 47; 99]) = Some (P c)
  /\ split_path (P c) = Some (of_chars <$> (pieces SEP [47; 97; 47] ++ pieces SEP [47; 98; 47; 47; 99])).
Proof. apply (append_split_roundtrip [47; 97; 47] [47; 98; 47; 47; 99]); reflexivity. Defined.

Lemma strip_common_spec ws vs :
  strip_common (of_chars <$> ws) (of_chars <$> (ws ++ vs)) = Some (Some (of_chars <$> vs)).
Proof.
  induction ws as [|w ws IH]; [by destruct vs|]. cbn [fmap list_fmap app strip_common].
  rewrite eqb_chars, bool_decide_true by done. exact IH.
Qed.

Lemma relative_len w ws : zlen (relative (w :: ws)) = zlen w + zlen (tail_of ws).
Proof. cbn [relative]. apply zlen_app. Qed.

Lemma relative_le ws : zlen (relative ws) <= zlen (tail_of ws).
Proof. destruct ws as [|w ws]; [done|]. rewrite relative_len, tail_cons. lia. Qed.

Lemma tail_app ws vs : zlen (tail_of (ws ++ vs)) = zlen (tail_of ws) + zlen (tail_of vs).
Proof. unfold tail_of. by rewrite fmap_app, join_app, zlen_app. Qed.

Lemma append_all_relative vs : forall us, Forall part_ok us -> Forall part_ok vs -> zlen (tail_of us) + zlen (tail_of vs) + 2 < 2 ^ 31 ->
  append_all (of_chars <$> vs) (P (relative us)) = Some (P (relative (us ++ vs))).
Proof.
  induction vs as [|v vs IH]; intros us Hus Hvs Hf; [by rewrite app_nil_r|].
  inversion Hvs as [|? ? Hv Hvs']; subst. rewrite tail_cons in Hf. pose proof (zlen_nonneg v). pose proof (zlen_nonneg (tail_of vs)).
  pose proof (zlen_nonneg (tail_of us)). pose proof (relative_le us). cbn [fmap list_fmap append_all].
  rewrite append_joined by (unfold fits; lia). cbn [mbind option_bind]. rewrite joined_relative by done.
  rewrite IH; [by rewrite <- app_assoc|by apply Forall_app; split; [|constructor]|done|].
  rewrite tail_app, tail_cons. change (zlen (tail_of [])) with 0. lia.
Qed.

Lemma absolute_P l : is_absolute (P l) = Some (bool_decide (head l = Some SEP)).
Proof.
  unfold is_absolute. cbn [_path P]. rewrite is_empty_chars. destruct l as [|c l]; [done|]. rewrite bool_decide_false by done.
  rewrite char_at_chars by (rewrite zlen_cons; pose proof (zlen_nonneg l); lia).
  change (Some (c =? SEP) = Some (bool_decide (Some c = Some SEP))). f_equal.
  destruct (c =? SEP) eqn:E; bool_prop; [subst; by rewrite bool_decide_true|]. symmetry. apply bool_decide_eq_false. by intros [= ->].
Qed.

Lemma head_render ws : head (render ws) = Some SEP.
Proof. by destruct ws. Qed.

Lemma head_relative ws : Forall part_ok ws -> head (relative ws) <> Some SEP.
Proof.
  intros Hws. destruct Hws as [|w ws [Hn Hw] _]; [done|]. destruct w as [|c w]; [done|]. cbn.
  inversion Hw as [|? ? [_ Hc] _]; subst. by intros [= ->].
Qed.

Lemma render_inj ws vs : Forall part_ok ws -> Forall part_ok vs -> render ws = render vs -> ws = vs.
Proof. intros Hw Hv E. rewrite <- (pieces_render ws Hw), <- (pieces_render vs Hv). by rewrite E. Qed.

Lemma relative_to_result ws vs : Forall part_ok (ws ++ vs) -> vs <> [] -> zlen (tail_of (ws ++ vs)) + 2 < 2 ^ 31 ->
  relative_to (P (render (ws ++ vs))) (P (render ws)) = Some (P (relative vs)).
Proof.
  intros Hok Hvs Hf. pose proof Hok as [Hws Hvs']%Forall_app. unfold relative_to. rewrite empty_string_chars. cbn [mbind option_bind].
  cbn [_path P]. rewrite is_empty_chars, bool_decide_false by (by destruct ws).
  rewrite !absolute_P, !head_render, !bool_decide_true by done. cbn [mbind option_bind Bool.eqb negb].
  unfold path_eqb. cbn [_path P]. rewrite eqb_chars, bool_decide_false; cycle 1.
  { intros E%render_inj; [|done|done]. apply Hvs. rewrite <- (app_nil_r ws) in E at 2. by apply app_inv_head in E. }
  cbn [mbind option_bind]. rewrite !split_P, !pieces_render by done. cbn [mbind option_bind]. rewrite !length_fmap, length_app.
  destruct (length ws + length vs <=? length ws)%nat eqn:E.
  { apply Nat.leb_le in E. destruct vs; [done|cbn in E; lia]. }
  rewrite strip_common_spec. cbn [mbind option_bind]. rewrite tail_app in Hf. pose proof (zlen_nonneg (tail_of ws)).
  by apply (append_all_relative vs []); [constructor| |change (zlen (tail_of [])) with 0; lia].
Qed.

(** [relative_to] is undone by [resolve]: the part of a path below a directory is a relative path that
    resolves to the path again in that directory. *)
Theorem relative_resolve_roundtrip ws vs :
  Forall ordinary (ws ++ vs) -> vs <> [] -> zlen (tail_of (ws ++ vs)) + 3 < 2 ^ 31 ->
  exists r, relative_to (P (render (ws ++ vs))) (P (render ws)) = Some (P r) /\ is_absolute (P r) = Some false
    /\ resolve (P r) (P (render ws)) = Some (P (render (ws ++ vs))).
Proof.
  intros Ho Hvs Hf. pose proof (ordinary_ok _ Ho) as Hok. pose proof Hok as [Hws Hvs']%Forall_app. pose proof Ho as [_ Hvo]%Forall_app.
  exists (relative vs). split_and!; [apply relative_to_result; [done|done|lia]| |].
  - rewrite absolute_P, bool_decide_false; [done|by apply head_relative].
  - rewrite tail_app in Hf. pose proof (relative_le vs). rewrite resolve_result; [|clear -Hvs'|done|lia].
    + by rewrite pieces_relative, visits_ordinary.
    + assert (forall us, Forall part_ok us -> Forall (fun c => c <> 0) (tail_of us)) as Ht.
      { induction 1 as [|w us Hw Hus IH]; [constructor|]. change (Forall (fun c => c <> 0) (SEP :: w ++ tail_of us)).
        constructor; [done|]. apply Forall_app. split; [by apply part_nonzero|done]. }
      destruct Hvs' as [|w vs Hw Hvs]; [constructor|]. cbn [relative]. apply Forall_app. split; [by apply part_nonzero|by apply Ht].
Qed.

Lemma relative_resolve_roundtrip_witness : exists r,
  relative_to (P (render ([[97]; [98]] ++ [[99]; [100]]))) (P (render [[97]; [98]])) = Some (P r) /\ is_absolute (P r) = Some false
    /\ resolve (P r) (P (render [[97]; [98]])) = Some (P (render ([[97]; [98]] ++ [[99]; [100]]))).
Proof.
  apply (relative_resolve_roundtrip [[97]; [98]] [[99]; [100]]); [repeat constructor; discriminate|discriminate|reflexivity].
Defined.

(** The parent of a path with one more part is the path. *)
Lemma parent_of_append ws w : Forall part_ok ws -> part_ok w -> zlen (tail_of ws) + zlen w + 3 < 2 ^ 31 ->
  exists q, append_path (P (render ws)) (of_chars w) = Some q /\ get_parent q = Some (P (render ws)).
Proof.
  intros Hws Hw Hf. pose proof (zlen_nonneg w). pose proof (zlen_nonneg (tail_of ws)). pose proof (render_len ws).
  exists (P (render (ws ++ [w]))). rewrite append_joined, joined_render by (done || unfold fits; lia).
  split; [done|]. rewrite get_parent_render, removelast_last; [done|by apply Forall_app; split; [|constructor]|].
  unfold fits. pose proof (render_len (ws ++ [w])). rewrite tail_app, tail_cons in *. change (zlen (tail_of [])) with 0 in *. lia.
Qed.
End PathProps.
