(* ===== verification/FatVolume.v ===== *)
(** * FAT volumes: VirtualFileSystem/FAT/FAT.h, FAT32Engine.cpp, VolumeManager.cpp

    A storage device is a parameter: the class [MassStorage] is what the volume manager asks of
    [DeviceModule::control_device].  [FATEngine] is the abstract C++ class of the FAT variants, [FAT32] its
    implementation.  A buffer is the list of its bytes; reading or writing outside of it has no result. *)

From S2P Require Import Prelude Kre KString.

(** ** Little-endian fields of a byte buffer *)
Module Le.
Import KString.

Fixpoint decode (l : list Z) : Z := match l with [] => 0 | b :: l => b + 256 * decode l end.

Fixpoint encode (n : nat) (v : Z) : list Z :=
  match n with O => [] | S n => v mod 256 :: encode n (v / 256) end.

Definition get (n : nat) (buf : list Z) (off : Z) : option Z := l ← slice buf off (Z.of_nat n); Some (decode l).

Definition write_at (buf : list Z) (off : Z) (l : list Z) : option (list Z) :=
  if (0 <=? off) && (off + zlen l <=? zlen buf)
  then Some (take (Z.to_nat off) buf ++ l ++ drop (Z.to_nat (off + zlen l)) buf) else None.

Definition set (n : nat) (buf : list Z) (off v : Z) : option (list Z) := write_at buf off (encode n v).
End Le.

(** ** The storage device

    A request answers how many bytes were transferred, or nothing when the device did not handle it; a read
    request leaves the bytes in the buffer, a write request changes the device. *)
Class MassStorage (D : Type) := {
  msd_read : D -> Z -> Z -> option Z * list Z;
  msd_write : D -> Z -> list Z -> option Z * D;
}.

Module Fat.

Import KString.

(** ** FAT.h: the boot record of a FAT32 volume *)

Record BIOSParameterBlock := mkBPB {
  jmpboot : list Z; oemid : list Z;
  bytes_per_sector : Z; sectors_per_cluster : Z; reserved_sector_count : Z; fat_count : Z;
  root_entry_count : Z; total_sectors_16 : Z; media_descriptor_type : Z; fat_size_16 : Z;
  sectors_per_track : Z; head_count : Z; hidden_sector_count : Z; total_sectors_32 : Z }.

Record ExtendedBIOSParameterBlock32 := mkEBPB {
  fat_size_32 : Z; flags : Z; fat_version : Z; root_cluster : Z; fs_info : Z; backup_bs_sector : Z;
  reserved_0 : list Z; drive_number : Z; reserved_1 : Z; signature : Z; volume_id : Z;
  volume_label : list Z; system_id : list Z; boot_code : list Z; signature_word : Z }.

Record BootRecord32 := mkBootRecord { BPB : BIOSParameterBlock; EBPB : ExtendedBIOSParameterBlock32 }.

(** The packed layout. *)
Definition bpb_bytes (b : BIOSParameterBlock) : list Z :=
  jmpboot b ++ oemid b ++ Le.encode 2 (bytes_per_sector b) ++ Le.encode 1 (sectors_per_cluster b)
  ++ Le.encode 2 (reserved_sector_count b) ++ Le.encode 1 (fat_count b) ++ Le.encode 2 (root_entry_count b)
  ++ Le.encode 2 (total_sectors_16 b) ++ Le.encode 1 (media_descriptor_type b) ++ Le.encode 2 (fat_size_16 b)
  ++ Le.encode 2 (sectors_per_track b) ++ Le.encode 2 (head_count b) ++ Le.encode 4 (hidden_sector_count b)
  ++ Le.encode 4 (total_sectors_32 b).

Definition ebpb_bytes (e : ExtendedBIOSParameterBlock32) : list Z :=
  Le.encode 4 (fat_size_32 e) ++ Le.encode 2 (flags e) ++ Le.encode 2 (fat_version e) ++ Le.encode 4 (root_cluster e)
  ++ Le.encode 2 (fs_info e) ++ Le.encode 2 (backup_bs_sector e) ++ reserved_0 e ++ Le.encode 1 (drive_number e)
  ++ Le.encode 1 (reserved_1 e) ++ Le.encode 1 (signature e) ++ Le.encode 4 (volume_id e) ++ volume_label e
  ++ system_id e ++ boot_code e ++ Le.encode 2 (signature_word e).

Definition boot_record_bytes (r : BootRecord32) : list Z := bpb_bytes (BPB r) ++ ebpb_bytes (EBPB r).

Definition BOOT_RECORD_SIZE : Z := 512.

(** A boot record read back through the cast of the sector buffer. *)
Definition read_bpb (buf : list Z) : option BIOSParameterBlock :=
  j ← slice buf 0 3; o ← slice buf 3 8;
  bps ← Le.get 2 buf 11; spc ← Le.get 1 buf 13; rsv ← Le.get 2 buf 14; fc ← Le.get 1 buf 16; re ← Le.get 2 buf 17;
  ts ← Le.get 2 buf 19; md ← Le.get 1 buf 21; fs ← Le.get 2 buf 22; spt ← Le.get 2 buf 24; hc ← Le.get 2 buf 26;
  hs ← Le.get 4 buf 28; tt ← Le.get 4 buf 32;
  Some (mkBPB j o bps spc rsv fc re ts md fs spt hc hs tt).

Definition read_ebpb (buf : list Z) : option ExtendedBIOSParameterBlock32 :=
  fs ← Le.get 4 buf 36; fl ← Le.get 2 buf 40; fv ← Le.get 2 buf 42; rc ← Le.get 4 buf 44; fi ← Le.get 2 buf 48;
  bb ← Le.get 2 buf 50; r0 ← slice buf 52 12; dn ← Le.get 1 buf 64; r1 ← Le.get 1 buf 65; sg ← Le.get 1 buf 66;
  vi ← Le.get 4 buf 67; vl ← slice buf 71 11; si ← slice buf 82 8; bc ← slice buf 90 420; sw ← Le.get 2 buf 510;
  Some (mkEBPB fs fl fv rc fi bb r0 dn r1 sg vi vl si bc sw).

Definition read_boot_record (buf : list Z) : option BootRecord32 :=
  b ← read_bpb buf; e ← read_ebpb buf; Some (mkBootRecord b e).

(** ** FATEngine.h *)

Class FATEngine := {
  make_new_boot_record : list Z -> Z -> Z -> option (list Z);
  can_mount : Z -> bool;
  get_backup_boot_record_sector : BootRecord32 -> Z;
  get_root_directory_cluster : BootRecord32 -> Z;
  get_max_cluster_count : Z;
  fat_get_size : BootRecord32 -> Z;
  fat_get_eof_marker : Z;
  fat_offset : Z -> Z;
  fat_get_entry : list Z -> Z -> option Z;
  fat_set_entry : list Z -> Z -> Z -> option (list Z);
  fat_find_free_cluster : list Z -> Z -> option Z;
}.

(** ** FAT32Engine.cpp *)
Module FAT32.
Definition FAT_16_MAX_CLUSTERS : Z := 65525.
Definition EOF : Z := 0xFFFFFFFF.
Definition RESERVED_BITS_MASK : Z := 0xF0000000.
Definition ENTRY_MASK : Z := 0x0FFFFFFF.
Definition MAX_CLUSTER_COUNT : Z := 0x0FFFFFF0.
Definition CLUSTER_COUNT_PER_SECTOR : Z := 128.

Definition NO_NAME : list Z := [78; 79; 32; 78; 65; 77; 69; 32; 32; 32; 32].
Definition FAT32_ID : list Z := [70; 65; 84; 51; 50; 32; 32; 32].

(** The size of a FAT in sectors: one entry for every sector that is not reserved, less the room the
    FATs take themselves. *)
Definition new_fat_size (sector_size sector_count : Z) : option Z :=
  let non_reserved := u32 (sector_count - 32) in
  fat_size ← Math.div_round_up 32 (non_reserved / 1) (sector_size / 4);
  own ← Math.div_round_up 32 fat_size sector_size;
  Some (u32 (fat_size - u32 (u32 (own * 1) * 2))).

(** Fields that are not assigned keep what the buffer holds ([oemid] and [reserved_0]). *)
Definition make_new_boot_record (buf : list Z) (sector_size sector_count : Z) : option (list Z) :=
  old ← read_boot_record buf;
  fat_size ← new_fat_size sector_size sector_count;
  let r := mkBootRecord
    (mkBPB [0xEB; 0x5A; 0x90] (oemid (BPB old)) (u16 sector_size) 1 32 2 0 0 0xF8 0 0 0 0 sector_count)
    (mkEBPB fat_size 0 0 2 0 6 (reserved_0 (EBPB old)) 0x80 (reserved_1 (EBPB old)) 0 0 NO_NAME FAT32_ID
       (zeros 420) 0x55AA) in
  Le.write_at buf 0 (boot_record_bytes r).

Definition can_mount (total_clusters : Z) : bool := FAT_16_MAX_CLUSTERS <=? total_clusters.

Definition fat_get_entry (fat : list Z) (entry_offset : Z) : option Z :=
  e ← Le.get 4 fat entry_offset; Some (Z.land e ENTRY_MASK).

Definition fat_set_entry (fat : list Z) (entry_offset new_entry : Z) : option (list Z) :=
  e ← Le.get 4 fat entry_offset;
  Le.set 4 fat entry_offset (Z.lor (Z.land e RESERVED_BITS_MASK) (Z.land new_entry ENTRY_MASK)).

(** The scan over the entries from [i]; [n] entries are left. *)
Fixpoint find_free (n : nat) (fat : list Z) (fat_sector_idx i : Z) : option Z :=
  match n with
  | O => Some (MAX_CLUSTER_COUNT + 1)
  | S n =>
      e ← Le.get 4 fat (4 * i);
      if e =? 0 then Some (u32 (u32 (fat_sector_idx * CLUSTER_COUNT_PER_SECTOR) + i))
      else find_free n fat fat_sector_idx (i + 1)
  end.

Definition fat_find_free_cluster (fat : list Z) (fat_sector_idx : Z) : option Z :=
  let first := if fat_sector_idx =? 0 then 2 else 0 in
  find_free (Z.to_nat (2 * CLUSTER_COUNT_PER_SECTOR - first)) fat fat_sector_idx first.
End FAT32.

#[export] Instance FAT32Engine : FATEngine := {
  make_new_boot_record := FAT32.make_new_boot_record;
  can_mount := FAT32.can_mount;
  get_backup_boot_record_sector r := backup_bs_sector (EBPB r);
  get_root_directory_cluster r := root_cluster (EBPB r);
  get_max_cluster_count := FAT32.MAX_CLUSTER_COUNT;
  fat_get_size r := fat_size_32 (EBPB r);
  fat_get_eof_marker := FAT32.EOF;
  fat_offset cluster := u32 (cluster * 4);
  fat_get_entry := FAT32.fat_get_entry;
  fat_set_entry := FAT32.fat_set_entry;
  fat_find_free_cluster := FAT32.fat_find_free_cluster;
}.

(** ** VolumeManager.cpp *)
Section volume.
Context {D : Type} `{MassStorage D} `{FATEngine}.
Implicit Types (d : D) (bpb : BootRecord32).

(** The number of bytes read, zero when the device did not handle the request. *)
Definition vm_mass_storage_device_read d (buf_size lba : Z) : Z * list Z :=
  let '(r, buf) := msd_read d (u32 lba) buf_size in (default 0 r, buf).

Definition vm_mass_storage_device_write d (buf : list Z) (lba : Z) : Z * D :=
  let '(r, d) := msd_write d (u32 lba) buf in (default 0 r, d).

Definition data_cluster_to_lba bpb (cluster : Z) : Z :=
  let b := BPB bpb in
  u64 (u32 (reserved_sector_count b + u32 (fat_count b * fat_get_size bpb))
       + u64 (u64 (cluster - 2) * sectors_per_cluster b)).

Definition fat_sector bpb (cluster : Z) : option Z :=
  let b := BPB bpb in
  if bytes_per_sector b =? 0 then None
  else Some (u32 (reserved_sector_count b + fat_offset (u32 cluster) / bytes_per_sector b)).

Definition fat_read d bpb (cluster : Z) : option Z :=
  let bps := bytes_per_sector (BPB bpb) in
  let two_sector_size := bps * 2 in
  fat_sector_number ← fat_sector bpb cluster;
  let '(n, fat) := vm_mass_storage_device_read d two_sector_size fat_sector_number in
  if n <? two_sector_size then Some fat_get_eof_marker
  else fat_get_entry fat (fat_offset (u32 cluster) mod bps).

(** One copy of the FAT: two sectors are read, the entry is set and they are written back; the number of
    bytes written, zero when they could not be read. *)
Definition fat_write_copy d bpb (cluster fat_value sector : Z) : option (Z * D) :=
  let bps := bytes_per_sector (BPB bpb) in
  let two_sector_size := bps * 2 in
  let '(n, fat) := vm_mass_storage_device_read d two_sector_size sector in
  if n <? two_sector_size then Some (0, d) else
  fat ← fat_set_entry fat (fat_offset (u32 cluster) mod bps) fat_value;
  Some (vm_mass_storage_device_write d fat sector).

Definition fat_write d bpb (cluster fat_value : Z) : option (bool * D) :=
  let two_sector_size := bytes_per_sector (BPB bpb) * 2 in
  fat_sector_number ← fat_sector bpb cluster;
  '(n, d) ← fat_write_copy d bpb cluster fat_value fat_sector_number;
  if n <? two_sector_size then Some (false, d) else
  '(n, d) ← fat_write_copy d bpb cluster fat_value (u32 (fat_sector_number + fat_get_size bpb));
  Some (n =? two_sector_size, d).

Definition cluster_size bpb : Z := bytes_per_sector (BPB bpb) * sectors_per_cluster (BPB bpb).

(** The scan of the FAT, two sectors at a time; [fuel] bounds the number of turns. *)
Fixpoint find_next_free (fuel : nat) d bpb (i : Z) : option Z :=
  match fuel with
  | O => None
  | S fuel =>
      if i <? fat_get_size bpb then
        let '(n, fat) := vm_mass_storage_device_read d (2 * cluster_size bpb) (reserved_sector_count (BPB bpb) + i) in
        if n <? 2 * cluster_size bpb then Some 0 else
        free_cluster ← fat_find_free_cluster fat i;
        if (1 <? free_cluster) && (free_cluster <=? get_max_cluster_count) then Some free_cluster
        else find_next_free fuel d bpb (u32 (i + 2))
      else Some 0
  end.

Definition scan_fuel bpb : nat := S (Z.to_nat (fat_get_size bpb)).

Definition fat_find_next_free_cluster d bpb : option Z := find_next_free (scan_fuel bpb) d bpb 0.

Definition data_cluster_read d bpb (cluster : Z) : bool * list Z :=
  let '(n, buf) := vm_mass_storage_device_read d (cluster_size bpb) (data_cluster_to_lba bpb cluster) in
  (n =? cluster_size bpb, buf).

Definition data_cluster_write d bpb (buf : list Z) (cluster : Z) : bool * D :=
  let '(n, d) := vm_mass_storage_device_write d buf (data_cluster_to_lba bpb cluster) in
  (n =? cluster_size bpb, d).
End volume.
End Fat.
