(* ===== verification/FatVolumeProps.v ===== *)
(** * Theorems on FAT volumes

    [Disk] states what a storage device promises: a request that reports all its bytes transferred moved
    exactly these bytes, a write touches nothing outside its sectors, and a working device serves every
    request inside its capacity.  The volume manager is proved against it. *)

From S2P Require Import Prelude Kre KString KStringProps FatVolume.

Class Disk (D : Type) `{MassStorage D} := {
  sector_size : Z;
  capacity : Z;
  byte : D -> Z -> Z;
  working : D -> Prop;
  sector_size_pos : 0 < sector_size;
  byte_range : forall d a, in_width 8 (byte d a);
  read_law : forall d lba n buf, 0 <= n -> msd_read d lba n = (Some n, buf) ->
    buf = (fun i => byte d (lba * sector_size + i)) <$> seqZ 0 n;
  read_bound : forall d lba n k buf, msd_read d lba n = (Some k, buf) -> k <= n;
  write_law : forall d lba buf k d', msd_write d lba buf = (k, d') -> Forall (in_width 8) buf ->
    (forall a, ~ lba * sector_size <= a < lba * sector_size + zlen buf -> byte d' a = byte d a)
    /\ (k = Some (zlen buf) -> forall i x, buf !! i = Some x -> byte d' (lba * sector_size + Z.of_nat i) = x);
  write_bound : forall d lba buf k d', msd_write d lba buf = (Some k, d') -> k <= zlen buf;
  working_read : forall d lba n, working d -> 0 <= lba -> 0 <= n -> lba * sector_size + n <= capacity ->
    (msd_read d lba n).1 = Some n;
  working_write : forall d lba buf, working d -> 0 <= lba -> lba * sector_size + zlen buf <= capacity ->
    (msd_write d lba buf).1 = Some (zlen buf) /\ working (msd_write d lba buf).2;
}.

(** ** Fields *)
Module LeProps.
Import KString StrProps Le.

Lemma encode_length n : forall v, length (encode n v) = n.
Proof. induction n; intros v; cbn; auto. Qed.

Lemma encode_bytes n : forall v, Forall (in_width 8) (encode n v).
Proof. induction n; intros v; cbn; constructor; [|done]. unfold in_width. change (2 ^ 8) with 256. apply Z.mod_pos_bound. lia. Qed.

Lemma pow256_succ n : 256 ^ Z.of_nat (S n) = 256 * 256 ^ Z.of_nat n.
Proof. rewrite Nat2Z.inj_succ, Z.pow_succ_r by lia. done. Qed.

Lemma decode_encode n : forall v, decode (encode n v) = v mod 256 ^ Z.of_nat n.
Proof.
  induction n as [|n IH]; intros v; [cbn; by rewrite Z.mod_1_r|].
  rewrite pow256_succ. cbn [encode decode]. rewrite IH.
  rewrite Z.rem_mul_r by (try apply Z.pow_pos_nonneg; lia). done.
Qed.

Lemma decode_range l : Forall (in_width 8) l -> 0 <= decode l < 256 ^ zlen l.
Proof.
  induction 1 as [|b l Hb Hl IH]; [by split|]. unfold zlen in *. cbn [length decode]. rewrite pow256_succ.
  unfold in_width in Hb. change (2 ^ 8) with 256 in Hb. lia.
Qed.

Lemma encode_decode l : Forall (in_width 8) l -> encode (length l) (decode l) = l.
Proof.
  induction 1 as [|b l Hb Hl IH]; [done|]. cbn [length decode encode].
  unfold in_width in Hb. change (2 ^ 8) with 256 in Hb.
  rewrite (Z.mul_comm 256), Z_mod_plus_full, Z.div_add, Z.mod_small, Z.div_small by lia. by rewrite Z.add_0_l, IH.
Qed.

Lemma write_at_mid l1 l l' l3 : zlen l = zlen l' -> write_at (l1 ++ l ++ l3) (zlen l1) l' = Some (l1 ++ l' ++ l3).
Proof.
  intros E. unfold write_at. pose proof (zlen_nonneg l1). pose proof (zlen_nonneg l3). rewrite !zlen_app.
  replace (0 <=? zlen l1) with true by (symmetry; apply Z.leb_le; lia).
  replace (zlen l1 + zlen l' <=? zlen l1 + (zlen l + zlen l3)) with true by (symmetry; apply Z.leb_le; lia). cbn.
  unfold zlen in *. rewrite Nat2Z.id, take_app_length. do 2 f_equal.
  replace (Z.to_nat (Z.of_nat (length l1) + Z.of_nat (length l'))) with (length (l1 ++ l)) by (rewrite length_app; lia).
  by rewrite app_assoc, drop_app_length.
Qed.

Lemma get_mid n l1 l l3 : length l = n -> get n (l1 ++ l ++ l3) (zlen l1) = Some (decode l).
Proof. intros E. unfold get. replace (Z.of_nat n) with (zlen l) by (unfold zlen; lia). by rewrite slice_mid. Qed.
End LeProps.

Module VolumeProps.
Import KString StrProps Le LeProps Fat.

Section disk.
Context {D : Type} `{MD : MassStorage D} `{!Disk D}.
Implicit Types (d : D) (bpb : BootRecord32).

(** ** Bytes of the device *)

Definition bytes_of d (a n : Z) : list Z := (fun i => byte d (a + i)) <$> seqZ 0 n.

Lemma bytes_of_len d a n : 0 <= n -> zlen (bytes_of d a n) = n.
Proof. intros. unfold bytes_of, zlen. rewrite length_fmap, length_seqZ. lia. Qed.

Lemma bytes_of_app d a m n : 0 <= m -> 0 <= n -> bytes_of d a (m + n) = bytes_of d a m ++ bytes_of d (a + m) n.
Proof.
  intros. unfold bytes_of. rewrite seqZ_app, fmap_app by lia. f_equal. rewrite Z.add_0_l.
  replace (seqZ m n) with (Z.add m <$> seqZ 0 n) by (rewrite fmap_add_seqZ; f_equal; lia).
  rewrite <- list_fmap_compose. apply list_fmap_ext. intros i x _. cbn. f_equal. lia.
Qed.

Lemma bytes_of_width d a n : Forall (in_width 8) (bytes_of d a n).
Proof. unfold bytes_of. apply Forall_fmap, Forall_true. intros x. apply byte_range. Qed.

Lemma bytes_of_ext d d' a n : (forall x, a <= x < a + n -> byte d' x = byte d x) -> bytes_of d' a n = bytes_of d a n.
Proof.
  intros He. unfold bytes_of. apply list_fmap_ext. intros i x [-> Hx]%lookup_seqZ. apply He. lia.
Qed.

Lemma bytes_of_point d d' a q x : bytes_of d' a q = bytes_of d a q -> a <= x < a + q -> byte d' x = byte d x.
Proof.
  unfold bytes_of. intros Eq Hr. apply (f_equal (fun l => l !! Z.to_nat (x - a))) in Eq.
  rewrite !list_lookup_fmap, lookup_seqZ_lt in Eq by lia. cbn in Eq.
  replace (a + (0 + Z.of_nat (Z.to_nat (x - a)))) with x in Eq by lia. congruence.
Qed.

Lemma bytes_of_split d a n off k : 0 <= off -> 0 <= k -> off + k <= n ->
  bytes_of d a n = bytes_of d a off ++ bytes_of d (a + off) k ++ bytes_of d (a + off + k) (n - off - k).
Proof. intros. rewrite <- bytes_of_app, <- bytes_of_app by lia. f_equal. lia. Qed.

(** The little-endian word at an address. *)
Definition word d (a : Z) : Z := decode (bytes_of d a 4).

Lemma word_range d a : in_width 32 (word d a).
Proof.
  pose proof (decode_range _ (bytes_of_width d a 4)) as Hr. rewrite bytes_of_len in Hr by lia. exact Hr.
Qed.

Lemma get_word d a n off : 0 <= off -> off + 4 <= n -> Le.get 4 (bytes_of d a n) off = Some (word d (a + off)).
Proof.
  intros. rewrite (bytes_of_split d a n off 4) by lia.
  pose proof (get_mid 4 (bytes_of d a off) (bytes_of d (a + off) 4) (bytes_of d (a + off + 4) (n - off - 4))) as Hg.
  rewrite bytes_of_len in Hg by lia. apply Hg. done.
Qed.

(** ** Requests *)

Lemma vm_read_ok d n lba m buf : 0 < n -> in_width 32 lba -> vm_mass_storage_device_read d n lba = (m, buf) -> n <= m ->
  buf = bytes_of d (lba * sector_size) n /\ m = n.
Proof.
  intros Hn Hl. unfold vm_mass_storage_device_read. rewrite (wrap_small 32) by done.
  destruct (msd_read d lba n) as [[k|] b] eqn:E; intros [= <- <-] Hm; cbn in Hm |- *; [|lia].
  pose proof (read_bound _ _ _ _ _ E). assert (k = n) as -> by lia. split; [apply read_law; [lia|done]|done].
Qed.

Lemma vm_read_working d n lba : working d -> in_width 32 lba -> 0 < n -> lba * sector_size + n <= capacity ->
  vm_mass_storage_device_read d n lba = (n, bytes_of d (lba * sector_size) n).
Proof.
  intros Hw Hl Hn Hc. unfold vm_mass_storage_device_read. rewrite (wrap_small 32) by done.
  pose proof (working_read d lba n Hw ltac:(unfold in_width in Hl; lia) ltac:(lia) Hc) as Hr.
  destruct (msd_read d lba n) as [r b] eqn:E. cbn in Hr. subst r. cbn. f_equal. apply read_law; [lia|done].
Qed.

(** What a write leaves: nothing changes outside the sectors; a complete one stores the buffer. *)
Lemma vm_write_frame d buf lba m d' : in_width 32 lba -> Forall (in_width 8) buf -> vm_mass_storage_device_write d buf lba = (m, d') ->
  forall a, ~ lba * sector_size <= a < lba * sector_size + zlen buf -> byte d' a = byte d a.
Proof.
  intros Hl Hb. unfold vm_mass_storage_device_write. rewrite (wrap_small 32) by done.
  destruct (msd_write d lba buf) as [k d1] eqn:E. intros [= _ <-]. by apply (write_law _ _ _ _ _ E).
Qed.

Lemma vm_write_ok d buf lba m d' : in_width 32 lba -> Forall (in_width 8) buf -> vm_mass_storage_device_write d buf lba = (m, d') ->
  zlen buf <= m -> 0 < zlen buf -> bytes_of d' (lba * sector_size) (zlen buf) = buf.
Proof.
  intros Hl Hb. unfold vm_mass_storage_device_write. rewrite (wrap_small 32) by done.
  destruct (msd_write d lba buf) as [[k|] d1] eqn:E; intros [= <- <-] Hm Hp; cbn in Hm; [|lia].
  pose proof (write_bound _ _ _ _ _ E). assert (k = zlen buf) as -> by lia.
  destruct (write_law _ _ _ _ _ E Hb) as [_ Hd]. specialize (Hd eq_refl).
  apply list_eq. intros i. unfold bytes_of. rewrite list_lookup_fmap. destruct (buf !! i) as [x|] eqn:Ei.
  - pose proof (lookup_lt_Some _ _ _ Ei). rewrite lookup_seqZ_lt by (unfold zlen; lia). cbn. f_equal.
    rewrite Z.add_0_l. by apply Hd.
  - apply lookup_ge_None in Ei. rewrite lookup_seqZ_ge by (unfold zlen; lia). done.
Qed.

Lemma vm_write_bound d buf lba m d' : vm_mass_storage_device_write d buf lba = (m, d') -> m <= zlen buf.
Proof using Disk0.
  unfold vm_mass_storage_device_write. destruct (msd_write d (u32 lba) buf) as [[q|] dd] eqn:Eq; intros [= <- _]; cbn.
  - by apply write_bound in Eq.
  - apply zlen_nonneg.
Qed.

Lemma vm_write_working d buf lba : working d -> in_width 32 lba -> lba * sector_size + zlen buf <= capacity ->
  exists d', vm_mass_storage_device_write d buf lba = (zlen buf, d') /\ working d'.
Proof.
  intros Hw Hl Hc. unfold vm_mass_storage_device_write. rewrite (wrap_small 32) by done.
  destruct (working_write d lba buf Hw ltac:(unfold in_width in Hl; lia) Hc) as [H1 H2].
  destruct (msd_write d lba buf) as [r d'] eqn:E. cbn in H1, H2. subst r. eauto.
Qed.

(** ** The layout of a volume

    [n] data clusters; the FATs hold an entry for each, the volume fits on the device and no address in it
    leaves 32 bits. *)
Record geometry bpb (n : Z) : Prop := {
  g_sector : bytes_per_sector (BPB bpb) = sector_size;
  g_words : sector_size mod 4 = 0;
  g_types : bytes_per_sector (BPB bpb) < 2 ^ 16 /\ sectors_per_cluster (BPB bpb) < 2 ^ 8;
  g_cluster : 1 <= sectors_per_cluster (BPB bpb);
  g_reserved : 0 <= reserved_sector_count (BPB bpb);
  g_copies : fat_count (BPB bpb) = 2;
  g_fat : 1 <= fat_size_32 (EBPB bpb);
  g_count : 1 <= n;
  g_entries : (n + 2) * 4 <= fat_size_32 (EBPB bpb) * sector_size;
  g_max : n + 2 <= FAT32.MAX_CLUSTER_COUNT;
  g_fits : (reserved_sector_count (BPB bpb) + 2 * fat_size_32 (EBPB bpb) + n * sectors_per_cluster (BPB bpb)) * sector_size <= capacity;
  g_width : reserved_sector_count (BPB bpb) + 2 * fat_size_32 (EBPB bpb) + n * sectors_per_cluster (BPB bpb) < 2 ^ 32;
}.

(** Where copy [k] of the FAT keeps the entry of a cluster, and what that entry means. *)
Definition entry_addr bpb (k c : Z) : Z :=
  (reserved_sector_count (BPB bpb) + k * fat_size_32 (EBPB bpb)) * sector_size + 4 * c.

Definition entry d bpb (k c : Z) : Z := Z.land (word d (entry_addr bpb k c)) FAT32.ENTRY_MASK.

Section volume.
Context (bpb : BootRecord32) (n : Z) (G : geometry bpb n).
#[local] Abbreviation B := (BPB bpb).
#[local] Abbreviation FS := (fat_size_32 (EBPB bpb)).
#[local] Abbreviation RSV := (reserved_sector_count (BPB bpb)).

Lemma offset_small c : 0 <= c < n + 2 -> fat_offset (u32 c) = 4 * c.
Proof using G.
  destruct G. intros Hc. cbn. unfold FAT32.MAX_CLUSTER_COUNT in *. rewrite (wrap_small 32 c) by word_lia.
  rewrite Z.mul_comm. apply wrap_small. word_lia.
Qed.

(** The sector of an entry, and the entry's place in it. *)
Lemma sector_facts c : 0 <= c < n + 2 ->
  fat_sector bpb c = Some (RSV + 4 * c / sector_size) /\ 0 <= 4 * c / sector_size < FS
  /\ 0 <= 4 * c mod sector_size /\ 4 * c mod sector_size + 4 <= sector_size
  /\ 4 * c = sector_size * (4 * c / sector_size) + 4 * c mod sector_size.
Proof using G.
  intros Hc. pose proof (offset_small c Hc) as Ho. destruct G. pose proof sector_size_pos as Hs.
  pose proof (Z.mod_pos_bound (4 * c) sector_size Hs). pose proof (Z_div_mod_eq_full (4 * c) sector_size).
  assert (4 * c / sector_size < FS) by (apply Z.div_lt_upper_bound; lia).
  assert (0 <= 4 * c / sector_size) by (apply Z.div_pos; lia).
  assert (4 * c mod sector_size + 4 <= sector_size) as Hfit.
  { apply Z.mod_divide in g_words0 as [q Hq]; [|lia]. rewrite Hq in *.
    rewrite (Z.mul_comm q 4), Z.mul_mod_distr_l in * by lia. lia. }
  split_and!; try lia. unfold fat_sector. rewrite Ho, g_sector0.
  replace (sector_size =? 0) with false by (symmetry; apply Z.eqb_neq; lia). f_equal. apply wrap_small. word_lia.
Qed.

(** Two sectors from any sector of a FAT are on the device. *)
Lemma fat_pair_fits k s : 0 <= k <= 1 -> 0 <= s < FS ->
  in_width 32 (RSV + k * FS + s) /\ (RSV + k * FS + s) * sector_size + sector_size * 2 <= capacity.
Proof using G.
  intros Hk Hs. destruct G. pose proof sector_size_pos. split; [unfold in_width; split; nia|].
  assert (RSV + k * FS + s + 2 <= RSV + 2 * FS + n * sectors_per_cluster B) by nia. nia.
Qed.

Lemma get_entry_of d (a off : Z) : 0 <= off -> off + 4 <= sector_size * 2 ->
  fat_get_entry (bytes_of d a (sector_size * 2)) off = Some (Z.land (word d (a + off)) FAT32.ENTRY_MASK).
Proof using. intros. cbn. unfold FAT32.fat_get_entry. by rewrite get_word by lia. Qed.

(** Reading an entry gives the entry of the first copy, or the end marker when the device fails. *)
Lemma fat_read_result d c : 0 <= c < n + 2 ->
  exists v, fat_read d bpb c = Some v /\ (v = entry d bpb 0 c \/ v = FAT32.EOF) /\ (working d -> v = entry d bpb 0 c).
Proof using G.
  intros Hc. destruct (sector_facts c Hc) as (Es & Hs & Ho & Hof & Hdm). pose proof (offset_small c Hc) as Hoff.
  destruct (fat_pair_fits 0 (4 * c / sector_size)) as [Hw Hcap]; [lia|lia|]. rewrite Z.mul_0_l, Z.add_0_r in *.
  pose proof sector_size_pos as Hp. assert (0 < sector_size * 2) as H2 by lia. unfold fat_read. rewrite Es, Hoff. cbn [mbind option_bind].
  rewrite (g_sector _ _ G).
  assert ((RSV + 4 * c / sector_size) * sector_size + 4 * c mod sector_size = entry_addr bpb 0 c) as Ea by (unfold entry_addr; nia).
  destruct (vm_mass_storage_device_read d (sector_size * 2) _) as [m buf] eqn:E.
  destruct (m <? sector_size * 2) eqn:Em; bool_prop.
  - exists FAT32.EOF. split; [done|]. split; [by right|]. intros Hd.
    rewrite vm_read_working in E by (done || lia). injection E as <- _. lia.
  - destruct (vm_read_ok d (sector_size * 2) _ m buf H2 Hw E Em) as [-> _].
    rewrite get_entry_of by lia. rewrite Ea. eexists. split; [done|]. split; [by left|done].
Qed.

(** The entry a write leaves: the low 28 bits are new, the others are kept. *)
Definition merged (old v : Z) : Z := Z.lor (Z.land old FAT32.RESERVED_BITS_MASK) (Z.land v FAT32.ENTRY_MASK).

Lemma land_mask_range v m w : in_width w m -> 0 <= w -> in_width w (Z.land v m).
Proof using. intros Hm Hw. rewrite Z.land_comm. by apply land_width. Qed.

Lemma merged_range old v : in_width 32 (merged old v).
Proof using. apply lor_width; [lia| |]; apply land_mask_range; (lia || (split; reflexivity || discriminate)). Qed.

Lemma merged_entry old v : Z.land (merged old v) FAT32.ENTRY_MASK = Z.land v FAT32.ENTRY_MASK
  /\ Z.land (merged old v) FAT32.RESERVED_BITS_MASK = Z.land old FAT32.RESERVED_BITS_MASK.
Proof using.
  unfold merged. rewrite !Z.land_lor_distr_l, <- !Z.land_assoc.
  change (Z.land FAT32.RESERVED_BITS_MASK FAT32.ENTRY_MASK) with 0.
  change (Z.land FAT32.ENTRY_MASK FAT32.RESERVED_BITS_MASK) with 0. rewrite !Z.land_0_r, !Z.land_diag.
  by rewrite Z.lor_0_l, Z.lor_0_r.
Qed.

(** One copy: two sectors change in the four bytes of the entry. *)
Lemma write_copy_result d c v sector a : in_width 32 sector -> 0 <= c < n + 2 ->
  a = sector * sector_size + 4 * c mod sector_size ->
  exists m d', fat_write_copy d bpb c v sector = Some (m, d')
    /\ (forall x, ~ sector * sector_size <= x < sector * sector_size + sector_size * 2 -> byte d' x = byte d x)
    /\ (sector_size * 2 <= m -> word d' a = merged (word d a) v /\ (forall x, ~ a <= x < a + 4 -> byte d' x = byte d x) /\ m = sector_size * 2)
    /\ (working d -> sector * sector_size + sector_size * 2 <= capacity -> m = sector_size * 2 /\ working d').
Proof using G.
  intros Hsec Hc ->. destruct (sector_facts c Hc) as (_ & _ & Ho & Hof & _). pose proof (offset_small c Hc) as Hoff.
  pose proof sector_size_pos as Hp. assert (0 < sector_size * 2) as H2 by lia. set (s := sector * sector_size). set (o := 4 * c mod sector_size) in *.
  unfold fat_write_copy. rewrite Hoff, (g_sector _ _ G). fold o.
  destruct (vm_mass_storage_device_read d (sector_size * 2) sector) as [m buf] eqn:E.
  destruct (m <? sector_size * 2) eqn:Em; bool_prop.
  { exists 0, d. split_and!; [done|done|lia|]. intros Hw Hcap. rewrite vm_read_working in E by (done || lia). injection E as <- _. lia. }
  destruct (vm_read_ok d _ sector m buf H2 Hsec E Em) as [-> ->]. fold s.
  cbn [fat_set_entry FAT32Engine]. unfold FAT32.fat_set_entry. rewrite get_word by lia. cbn [mbind option_bind].
  fold (merged (word d (s + o)) v). set (w := merged _ v).
  assert (bytes_of d s (sector_size * 2) = bytes_of d s o ++ bytes_of d (s + o) 4 ++ bytes_of d (s + o + 4) (sector_size * 2 - o - 4)) as Esp
    by (apply bytes_of_split; lia).
  set (l1 := bytes_of d s o) in *. set (l3 := bytes_of d (s + o + 4) _) in *.
  assert (zlen l1 = o) as El1 by (apply bytes_of_len; lia).
  assert (zlen (encode 4 w) = 4) as Elw by (unfold zlen; by rewrite encode_length).
  pose proof (write_at_mid l1 (bytes_of d (s + o) 4) (encode 4 w) l3) as Hwm. rewrite El1, <- Esp, Elw, bytes_of_len in Hwm by lia.
  unfold Le.set. rewrite (Hwm eq_refl). cbn [mbind option_bind]. set (buf' := l1 ++ encode 4 w ++ l3).
  assert (zlen l3 = sector_size * 2 - o - 4) as El3 by (apply bytes_of_len; lia).
  assert (zlen buf' = sector_size * 2) as Elb by (unfold buf'; rewrite !zlen_app; lia).
  assert (Forall (in_width 8) buf') as Hb by (unfold buf'; rewrite !Forall_app; repeat split; [apply bytes_of_width|apply encode_bytes|apply bytes_of_width]).
  destruct (vm_mass_storage_device_write d buf' sector) as [k d'] eqn:Ew. exists k, d'. split; [done|]. split.
  { intros x Hx. apply (vm_write_frame d buf' sector k d' Hsec Hb Ew). by rewrite Elb. }
  split.
  - intros Hk. assert (bytes_of d' (sector * sector_size) (zlen buf') = buf') as Eb by (apply (vm_write_ok d buf' sector k d' Hsec Hb Ew); lia). fold s in Eb. rewrite Elb in Eb.
    rewrite (bytes_of_split d' s (sector_size * 2) o 4) in Eb by lia. unfold buf' in Eb.
    apply app_inj_1 in Eb as [E1 Eb]; [|unfold zlen in El1; rewrite <- (Nat2Z.id (length l1)), El1; unfold bytes_of; rewrite length_fmap, length_seqZ; lia].
    apply app_inj_1 in Eb as [E2 E3]; [|rewrite encode_length; unfold bytes_of; by rewrite length_fmap, length_seqZ].
    split_and!.
    + unfold word. rewrite E2, decode_encode. apply Z.mod_small. exact (merged_range _ v).
    + intros x Hx. destruct (decide (s <= x < s + sector_size * 2)) as [Hin|Hout].
      * destruct (decide (x < s + o)); [by apply (bytes_of_point d d' s o); [|lia]|].
        by apply (bytes_of_point d d' (s + o + 4) (sector_size * 2 - o - 4)); [|lia].
      * apply (vm_write_frame d buf' sector k d' Hsec Hb Ew). by rewrite Elb.
    + pose proof (vm_write_bound d buf' sector k d' Ew). lia.
  - intros Hw Hcap. destruct (vm_write_working d buf' sector Hw Hsec) as (d2 & E2 & Hw2); [fold s; lia|].
    rewrite E2 in Ew. injection Ew as <- <-. by split.
Qed.

(** Both copies of an entry are set and nothing else changes. *)
Definition sets d d' (c v : Z) : Prop :=
  (forall k, 0 <= k <= 1 -> word d' (entry_addr bpb k c) = merged (word d (entry_addr bpb k c)) v)
  /\ (forall x, (forall k, 0 <= k <= 1 -> ~ entry_addr bpb k c <= x < entry_addr bpb k c + 4) -> byte d' x = byte d x).

(** The sectors a write of the entry goes through. *)
Definition in_sectors (c x : Z) : Prop :=
  exists k, 0 <= k <= 1 /\ (RSV + k * FS + 4 * c / sector_size) * sector_size <= x < (RSV + k * FS + 4 * c / sector_size) * sector_size + sector_size * 2.

Lemma entry_sector k c : 0 <= c < n + 2 ->
  entry_addr bpb k c = (RSV + k * FS + 4 * c / sector_size) * sector_size + 4 * c mod sector_size.
Proof using G. intros Hc. destruct (sector_facts c Hc) as (_ & _ & _ & _ & Hd). unfold entry_addr. nia. Qed.

Lemma copies_apart c : entry_addr bpb 0 c + 4 <= entry_addr bpb 1 c.
Proof using G.
  pose proof sector_size_pos. destruct G. unfold entry_addr. apply Z.mod_divide in g_words0 as [q Hq]; [|lia].
  assert (sector_size * 1 <= sector_size * FS) by nia. nia.
Qed.

Lemma word_ext d d' a : (forall x, a <= x < a + 4 -> byte d' x = byte d x) -> word d' a = word d a.
Proof using. intros Hx. unfold word. by rewrite (bytes_of_ext d d'). Qed.

Lemma fat_write_result d c v : 0 <= c < n + 2 ->
  exists ok d', fat_write d bpb c v = Some (ok, d')
    /\ (forall x, ~ in_sectors c x -> byte d' x = byte d x)
    /\ (ok = true -> sets d d' c v) /\ (working d -> ok = true /\ working d').
Proof using G.
  intros Hc. destruct (sector_facts c Hc) as (Es & Hs & Ho & Hof & Hdm). pose proof (copies_apart c) as Hap.
  pose proof (entry_sector 0 c Hc) as E0. pose proof (entry_sector 1 c Hc) as E1. rewrite Z.mul_0_l, Z.add_0_r in E0. rewrite Z.mul_1_l in E1.
  destruct (fat_pair_fits 0 (4 * c / sector_size)) as [Hw0 Hc0]; [lia|lia|]. rewrite Z.mul_0_l, Z.add_0_r in Hw0, Hc0.
  destruct (fat_pair_fits 1 (4 * c / sector_size)) as [Hw1 Hc1]; [lia|lia|]. rewrite Z.mul_1_l in Hw1, Hc1.
  unfold fat_write. rewrite Es, (g_sector _ _ G). cbn [mbind option_bind].
  destruct (write_copy_result d c v _ _ Hw0 Hc E0) as (m & d1 & -> & Hf1 & Hok1 & Hwk1). cbn [mbind option_bind].
  destruct (m <? sector_size * 2) eqn:Em; bool_prop.
  { exists false, d1. split_and!; [done| |done|].
    - intros x Hx. apply Hf1. intros Hin. apply Hx. exists 0. split; [lia|]. by rewrite Z.mul_0_l, Z.add_0_r.
    - intros Hw. destruct (Hwk1 Hw Hc0). lia. }
  destruct (Hok1 Em) as (Hw1a & Hfr1 & _).
  replace (u32 (RSV + 4 * c / sector_size + fat_get_size bpb)) with (RSV + FS + 4 * c / sector_size)
    by (cbn; replace (RSV + 4 * c / sector_size + FS) with (RSV + FS + 4 * c / sector_size) by lia; symmetry; by apply wrap_small).
  destruct (write_copy_result d1 c v _ _ Hw1 Hc E1) as (m2 & d2 & -> & Hf2 & Hok2 & Hwk2). cbn [mbind option_bind].
  exists (m2 =? sector_size * 2), d2. split_and!; [done| | |].
  - intros x Hx. rewrite Hf2, Hf1; [done| |]; intros Hin; apply Hx.
    + exists 0. split; [lia|]. by rewrite Z.mul_0_l, Z.add_0_r.
    + exists 1. split; [lia|]. by rewrite Z.mul_1_l.
  - intros Hm2. bool_prop. destruct (Hok2 ltac:(lia)) as (Hw2a & Hfr2 & _). split.
    + intros k Hk. destruct (decide (k = 0)) as [->|]; [|replace k with 1 by lia].
      * rewrite (word_ext d1 d2); [done|]. intros x Hx. apply Hfr2. lia.
      * rewrite Hw2a. f_equal. apply word_ext. intros x Hx. apply Hfr1. lia.
    + intros x Hx. rewrite Hfr2, Hfr1; [done| |]; by apply Hx; lia.
  - intros Hw. destruct (Hwk1 Hw Hc0) as [_ Hwd1]. destruct (Hwk2 Hwd1 Hc1) as [-> Hwd2]. split; [apply Z.eqb_refl|done].
Qed.

(** Other entries and the data region are untouched. *)
Lemma sets_entry d d' c v : 0 <= c < n + 2 -> sets d d' c v -> forall k, 0 <= k <= 1 -> entry d' bpb k c = Z.land v FAT32.ENTRY_MASK.
Proof using. intros Hc [Hw _] k Hk. unfold entry. rewrite Hw by done. apply merged_entry. Qed.

Lemma entries_apart k k' c c' : 0 <= k <= 1 -> 0 <= k' <= 1 -> 0 <= c < n + 2 -> 0 <= c' < n + 2 -> c <> c' ->
  entry_addr bpb k c + 4 <= entry_addr bpb k' c' \/ entry_addr bpb k' c' + 4 <= entry_addr bpb k c.
Proof using G.
  intros Hk Hk' Hc Hc' Hne. pose proof sector_size_pos. destruct G. unfold entry_addr.
  assert (4 * c + 4 <= FS * sector_size) by lia. assert (4 * c' + 4 <= FS * sector_size) by lia.
  destruct (decide (k = k')) as [->|]; [nia|]. destruct (decide (k = 0)) as [->|]; [replace k' with 1 by lia|replace k with 1 by lia; replace k' with 0 by lia]; nia.
Qed.

Lemma sets_other d d' c v c' : 0 <= c < n + 2 -> 0 <= c' < n + 2 -> c' <> c -> sets d d' c v ->
  forall k, 0 <= k <= 1 -> entry d' bpb k c' = entry d bpb k c'.
Proof using G.
  intros Hc Hc' Hne [_ Hf] k Hk. unfold entry. f_equal. apply word_ext. intros x Hx. apply Hf. intros k' Hk'.
  destruct (entries_apart k' k c c'); try done; lia.
Qed.

(** The bytes of a data cluster. *)
Definition cluster_addr (c : Z) : Z := (RSV + 2 * FS + (c - 2) * sectors_per_cluster B) * sector_size.

Definition cluster_bytes d (c : Z) : list Z := bytes_of d (cluster_addr c) (cluster_size bpb).

Lemma entry_before_data k c : 0 <= k <= 1 -> 0 <= c < n + 2 -> entry_addr bpb k c + 4 <= cluster_addr 2.
Proof using G. intros Hk Hc. pose proof sector_size_pos. destruct G. unfold entry_addr, cluster_addr. assert (k * FS <= FS) by nia. nia. Qed.

Lemma cluster_addr_mono c c' : 2 <= c <= c' -> cluster_addr c <= cluster_addr c'.
Proof using G.
  intros. pose proof sector_size_pos. destruct G. unfold cluster_addr. apply Z.mul_le_mono_nonneg_r; [lia|]. nia.
Qed.

Lemma sets_data d d' c v c' : 0 <= c < n + 2 -> 2 <= c' -> sets d d' c v -> cluster_bytes d' c' = cluster_bytes d c'.
Proof using G.
  intros Hc Hc' [_ Hf]. apply bytes_of_ext. intros x Hx. apply Hf. intros k Hk Hin.
  pose proof (entry_before_data k c Hk Hc). pose proof (cluster_addr_mono 2 c'). lia.
Qed.

(** ** Data clusters *)

Lemma cluster_size_range : 1 <= cluster_size bpb.
Proof using G. pose proof sector_size_pos. destruct G. unfold cluster_size. rewrite g_sector0. nia. Qed.

Lemma lba_facts c : 2 <= c < n + 2 ->
  in_width 32 (data_cluster_to_lba bpb c) /\ data_cluster_to_lba bpb c * sector_size = cluster_addr c
  /\ cluster_addr c + cluster_size bpb <= capacity.
Proof using G.
  intros Hc. pose proof sector_size_pos as Hp. destruct G. unfold data_cluster_to_lba, cluster_addr, cluster_size.
  cbn [fat_get_size FAT32Engine]. rewrite g_copies0, g_sector0. set (spc := sectors_per_cluster B) in *.
  assert ((c - 2) * spc + spc <= n * spc) by nia. assert (0 <= (c - 2) * spc) by nia. assert (c - 2 <= (c - 2) * spc) by nia.
  assert (RSV + 2 * FS + (c - 2) * spc < 2 ^ 32) by lia.
  rewrite (wrap_small 32 (2 * FS)), (wrap_small 32 (RSV + 2 * FS)), (wrap_small 64 (c - 2)), (wrap_small 64 ((c - 2) * spc)), (wrap_small 64) by word_lia.
  split; [unfold in_width; lia|]. split; [done|]. nia.
Qed.

Lemma cluster_read_result d c : 2 <= c < n + 2 ->
  exists ok buf, data_cluster_read d bpb c = (ok, buf) /\ (ok = true -> buf = cluster_bytes d c) /\ (working d -> ok = true).
Proof using G.
  intros Hc. destruct (lba_facts c Hc) as (Hl & Ha & Hcap). pose proof cluster_size_range as Hs. unfold data_cluster_read.
  destruct (vm_mass_storage_device_read d _ _) as [m buf] eqn:E. exists (m =? cluster_size bpb), buf. split; [done|].
  assert (0 < cluster_size bpb) as Hs0 by lia. split.
  - intros Hm. bool_prop. subst m. destruct (vm_read_ok d _ _ _ _ Hs0 Hl E) as [-> _]; [lia|]. by rewrite Ha.
  - intros Hw. rewrite vm_read_working in E by (done || lia). injection E as <- _. apply Z.eqb_refl.
Qed.

Lemma cluster_write_result d buf c : 2 <= c < n + 2 -> zlen buf = cluster_size bpb -> Forall (in_width 8) buf ->
  exists ok d', data_cluster_write d bpb buf c = (ok, d') /\ (ok = true -> cluster_bytes d' c = buf)
    /\ (forall x, ~ cluster_addr c <= x < cluster_addr c + cluster_size bpb -> byte d' x = byte d x)
    /\ (working d -> ok = true /\ working d').
Proof using G.
  intros Hc Hlen Hb. destruct (lba_facts c Hc) as (Hl & Ha & Hcap). pose proof cluster_size_range as Hs. unfold data_cluster_write.
  destruct (vm_mass_storage_device_write d buf _) as [m d'] eqn:E. exists (m =? cluster_size bpb), d'. split; [done|]. split_and!.
  - intros Hm. bool_prop. unfold cluster_bytes. rewrite <- Ha, <- Hlen. apply (vm_write_ok d buf _ m d' Hl Hb E); lia.
  - intros x Hx. apply (vm_write_frame d buf _ m d' Hl Hb E). by rewrite Ha, Hlen.
  - intros Hw. destruct (vm_write_working d buf _ Hw Hl) as (d2 & E2 & Hw2); [by rewrite Ha, Hlen|].
    rewrite E2 in E. injection E as <- <-. rewrite Hlen. split; [apply Z.eqb_refl|done].
Qed.

(** Writing a cluster leaves the FATs and the other clusters alone. *)
Lemma clusters_apart c c' : 2 <= c -> 2 <= c' -> c <> c' ->
  cluster_addr c + cluster_size bpb <= cluster_addr c' \/ cluster_addr c' + cluster_size bpb <= cluster_addr c.
Proof using G.
  intros. pose proof sector_size_pos. destruct G. unfold cluster_addr, cluster_size. rewrite g_sector0.
  set (spc := sectors_per_cluster B) in *. destruct (decide (c < c')); [left|right].
  - assert ((c - 2) * spc + spc <= (c' - 2) * spc) by nia. nia.
  - assert ((c' - 2) * spc + spc <= (c - 2) * spc) by nia. nia.
Qed.

Lemma cluster_write_frame d d' c :
  2 <= c -> (forall x, ~ cluster_addr c <= x < cluster_addr c + cluster_size bpb -> byte d' x = byte d x) ->
  (forall k c', 0 <= k <= 1 -> 0 <= c' < n + 2 -> word d' (entry_addr bpb k c') = word d (entry_addr bpb k c'))
  /\ (forall c', 2 <= c' -> c' <> c -> cluster_bytes d' c' = cluster_bytes d c').
Proof using G.
  intros Hc Hf. split.
  - intros k c' Hk Hc'. apply word_ext. intros x Hx. apply Hf. pose proof (entry_before_data k c' Hk Hc').
    pose proof (cluster_addr_mono 2 c). lia.
  - intros c' Hc' Hne. apply bytes_of_ext. intros x Hx. apply Hf. destruct (clusters_apart c c'); try done; lia.
Qed.

(** ** Free clusters *)

(** The 32 bits of an entry in the first FAT. *)
Definition raw d (c : Z) : Z := word d (entry_addr bpb 0 c).

Lemma find_free_result d a len idx m : forall i, 0 <= i -> 4 * (i + Z.of_nat m) <= len ->
  exists r, FAT32.find_free m (bytes_of d a len) idx i = Some r /\
    ((exists j, i <= j < i + Z.of_nat m /\ word d (a + 4 * j) = 0 /\ (forall k, i <= k < j -> word d (a + 4 * k) <> 0)
        /\ r = u32 (u32 (idx * FAT32.CLUSTER_COUNT_PER_SECTOR) + j))
     \/ (forall k, i <= k < i + Z.of_nat m -> word d (a + 4 * k) <> 0) /\ r = FAT32.MAX_CLUSTER_COUNT + 1).
Proof using.
  induction m as [|m IH]; intros i Hi Hl; cbn [FAT32.find_free].
  - eexists. split; [done|]. right. split; [lia|done].
  - rewrite get_word by lia. cbn [mbind option_bind]. destruct (word d (a + 4 * i) =? 0) eqn:E; bool_prop.
    + eexists. split; [done|]. left. exists i. split_and!; [lia|lia|done|lia|done].
    + destruct (IH (i + 1)) as (r & -> & Hr); [lia|lia|]. exists r. split; [done|].
      destruct Hr as [(j & Hj & Hz & Hn & ->)|[Hn ->]]; [left; exists j; split_and!; try done; try lia|right; split; [|done]];
        intros k Hk; (destruct (decide (k = i)) as [->|]; [done|apply Hn; lia]).
Qed.
End volume.

Section scan.
Context (bpb : BootRecord32) (n : Z) (G : geometry bpb n).
Context (H512 : sector_size = 512) (Hmax : (fat_size_32 (EBPB bpb) + 1) * 128 <= FAT32.MAX_CLUSTER_COUNT) (H2 : 2 <= n).
#[local] Abbreviation FS := (fat_size_32 (EBPB bpb)).
#[local] Abbreviation RSV := (reserved_sector_count (BPB bpb)).

Lemma scan_read d i : working d -> 0 <= i < FS ->
  exists fat, vm_mass_storage_device_read d (2 * cluster_size bpb) (RSV + i) = (2 * cluster_size bpb, fat)
    /\ fat = bytes_of d ((RSV + i) * 512) (2 * cluster_size bpb) /\ 1024 <= 2 * cluster_size bpb.
Proof using All.
  intros Hw Hi. destruct G. unfold cluster_size. rewrite g_sector0, H512 in *. set (spc := sectors_per_cluster (BPB bpb)) in *.
  assert (2 * spc <= n * spc) by nia. eexists. split; [|split; [done|lia]]. rewrite vm_read_working; [by rewrite H512|done| | |].
  - split; [lia|]. assert (0 <= n * spc) by nia. lia.
  - lia.
  - rewrite H512. nia.
Qed.

(** One turn of the scan looks at the entries of two sectors. *)
Lemma find_free_pair d i : 0 <= i < FS -> i mod 2 = 0 ->
  exists r, fat_find_free_cluster (bytes_of d ((RSV + i) * 512) (2 * cluster_size bpb)) i = Some r /\
    let lo := Z.max 2 (i * 128) in
    ((lo <= r < i * 128 + 256 /\ raw bpb d r = 0 /\ (forall c, lo <= c < r -> raw bpb d c <> 0))
     \/ (forall c, lo <= c < i * 128 + 256 -> raw bpb d c <> 0) /\ r = FAT32.MAX_CLUSTER_COUNT + 1).
Proof using All.
  intros Hi Hev. assert (1024 <= 2 * cluster_size bpb) as Hcs by (destruct G; unfold cluster_size; rewrite g_sector0, H512; lia).
  cbn [fat_find_free_cluster FAT32Engine]. unfold FAT32.fat_find_free_cluster. change (2 * FAT32.CLUSTER_COUNT_PER_SECTOR) with 256.
  set (first := if i =? 0 then 2 else 0).
  assert (i * 128 + first = Z.max 2 (i * 128) /\ 0 <= first <= 2) as [Hlo Hfirst].
  { subst first. destruct (i =? 0) eqn:E; bool_prop; lia. }
  assert (forall j, word d ((RSV + i) * 512 + 4 * j) = raw bpb d (i * 128 + j)) as Hw.
  { intros j. unfold raw, entry_addr. f_equal. rewrite H512. lia. }
  destruct (find_free_result d ((RSV + i) * 512) (2 * cluster_size bpb) i (Z.to_nat (256 - first)) first) as (r & -> & Hr); [lia|lia|].
  exists r. split; [done|]. cbn zeta. rewrite <- Hlo.
  destruct Hr as [(j & Hj & Hz & Hn & ->)|[Hn ->]]; [left|right; split; [|done]].
  - change FAT32.CLUSTER_COUNT_PER_SECTOR with 128. unfold FAT32.MAX_CLUSTER_COUNT in Hmax.
    rewrite (wrap_small 32 (i * 128)), wrap_small by word_lia. rewrite Hw in Hz. split_and!; [lia|lia|done|].
    intros c Hc. specialize (Hn (c - i * 128)). rewrite Hw in Hn. replace (i * 128 + (c - i * 128)) with c in Hn by lia. apply Hn. lia.
  - intros c Hc. specialize (Hn (c - i * 128)). rewrite Hw in Hn. replace (i * 128 + (c - i * 128)) with c in Hn by lia. apply Hn. lia.
Qed.

(** The scan stops at the first entry that is zero. *)
Lemma find_next_free_loop d fuel : working d -> forall i, 0 <= i <= FS + 1 -> i mod 2 = 0 -> FS + 2 - i <= 2 * Z.of_nat fuel ->
  (forall c, 2 <= c < i * 128 -> raw bpb d c <> 0) ->
  exists r, find_next_free fuel d bpb i = Some r
    /\ (forall c, 2 <= c < FS * 128 -> c < r \/ r = 0 -> raw bpb d c <> 0)
    /\ (r = 0 \/ 2 <= r < (FS + 1) * 128 /\ raw bpb d r = 0).
Proof using All.
  intros Hw. induction fuel as [|fuel IH]; intros i Hi Hev Hf Hbelow; [lia|]. cbn [find_next_free].
  change (fat_get_size bpb) with FS. destruct (i <? FS) eqn:E; bool_prop; cycle 1.
  { exists 0. split; [done|]. split; [|by left]. intros c Hc _. apply Hbelow. lia. }
  destruct (scan_read d i Hw ltac:(lia)) as (fat & -> & -> & Hcs). rewrite Z.ltb_irrefl.
  destruct (find_free_pair d i ltac:(lia) Hev) as (r & -> & Hr). cbn [mbind option_bind]. cbn zeta in Hr.
  change get_max_cluster_count with FAT32.MAX_CLUSTER_COUNT.
  assert (i + 1 <= FS) as HiFS by lia.
  destruct Hr as [(Hr & Hz & Hn)|[Hn ->]].
  - replace (1 <? r) with true by (symmetry; apply Z.ltb_lt; lia). replace (r <=? FAT32.MAX_CLUSTER_COUNT) with true by (symmetry; apply Z.leb_le; lia).
    cbn [andb]. exists r. split; [done|]. split; [|right; split; [lia|done]].
    intros c Hc Hcr. destruct (decide (c < i * 128)); [apply Hbelow; lia|apply Hn; lia].
  - replace (FAT32.MAX_CLUSTER_COUNT + 1 <=? FAT32.MAX_CLUSTER_COUNT) with false by reflexivity. rewrite andb_false_r.
    unfold FAT32.MAX_CLUSTER_COUNT in Hmax. rewrite (wrap_small 32) by word_lia. apply IH; [| |lia|].
    + split; [lia|]. lia.
    + rewrite Z.add_mod, Hev by lia. done.
    + intros c Hc. destruct (decide (c < i * 128)); [apply Hbelow; lia|apply Hn; lia].
Qed.

Lemma find_free_cluster_result d : working d ->
  exists r, fat_find_next_free_cluster d bpb = Some r
    /\ (forall c, 2 <= c < FS * 128 -> c < r \/ r = 0 -> raw bpb d c <> 0)
    /\ (r = 0 \/ 2 <= r < (FS + 1) * 128 /\ raw bpb d r = 0).
Proof using All.
  intros Hw. destruct G. apply find_next_free_loop; [done|lia|done| |lia].
  unfold scan_fuel. change (fat_get_size bpb) with FS. lia.
Qed.
End scan.
End disk.
End VolumeProps.

(** ** The theorems on the volume manager *)
Module FatTheorems.
Import Fat VolumeProps.

(** C38: Writing a FAT entry sets it in both copies of the FAT, keeps its four reserved bits and every byte
    of the disk besides the two entries, and is read back; a write that fails leaves every byte outside
    the sectors of the two entries; on a working disk it does not fail. *)
Theorem fat_write_exact {D} `{MD : MassStorage D} `{!Disk D} (bpb : BootRecord32) (n : Z) (d : D) (c v : Z) :
  geometry bpb n -> 0 <= c < n + 2 ->
  exists ok d', fat_write d bpb c v = Some (ok, d')
    /\ (ok = true -> (forall k, 0 <= k <= 1 -> entry d' bpb k c = Z.land v FAT32.ENTRY_MASK
                        /\ Z.land (word d' (entry_addr bpb k c)) FAT32.RESERVED_BITS_MASK
                           = Z.land (word d (entry_addr bpb k c)) FAT32.RESERVED_BITS_MASK)
                     /\ (forall x, (forall k, 0 <= k <= 1 -> ~ entry_addr bpb k c <= x < entry_addr bpb k c + 4) -> byte d' x = byte d x))
    /\ (forall x, ~ in_sectors bpb c x -> byte d' x = byte d x)
    /\ (working d -> ok = true /\ working d' /\ fat_read d' bpb c = Some (Z.land v FAT32.ENTRY_MASK)).
Proof.
  intros G Hc. destruct (fat_write_result bpb n G d c v Hc) as (ok & d' & E & Hf & Hok & Hw). exists ok, d'.
  split_and!; [done| |done|].
  - intros ->. destruct (Hok eq_refl) as [Hs Hx]. split; [|done]. intros k Hk. unfold entry. rewrite (Hs k Hk).
    destruct (merged_entry (word d (entry_addr bpb k c)) v). done.
  - intros Hd. destruct (Hw Hd) as [-> Hd']. split_and!; [done|done|].
    destruct (fat_read_result bpb n G d' c Hc) as (r & -> & _ & Hr). rewrite (Hr Hd').
    by rewrite (sets_entry bpb n d d' c v Hc (Hok eq_refl) 0).
Qed.

(** On a working disk with sectors of 512 bytes the search for a free cluster answers the first cluster
    whose entry is zero, if a data cluster is free at all; otherwise it answers zero or a number behind
    the data clusters (the search does not know how many there are). *)
Theorem find_free_first {D} `{MD : MassStorage D} `{!Disk D} (bpb : BootRecord32) (n : Z) (d : D) :
  geometry bpb n -> sector_size = 512 -> (fat_size_32 (EBPB bpb) + 1) * 128 <= FAT32.MAX_CLUSTER_COUNT -> 2 <= n -> working d ->
  exists r, fat_find_next_free_cluster d bpb = Some r
    /\ ((exists c, 2 <= c < n + 2 /\ raw bpb d c = 0) ->
          2 <= r < n + 2 /\ raw bpb d r = 0 /\ forall c, 2 <= c < r -> raw bpb d c <> 0)
    /\ ((forall c, 2 <= c < n + 2 -> raw bpb d c <> 0) -> r = 0 \/ n + 2 <= r).
Proof.
  intros G H512 Hmax H2 Hw. destruct (find_free_cluster_result bpb n G H512 Hmax H2 d Hw) as (r & E & Hlow & Hr).
  pose proof (g_entries _ _ G) as He. rewrite H512 in He. exists r. split_and!; [done| |].
  - intros (c & Hc & Hz). destruct Hr as [->|[Hr Hzr]]; [by destruct (Hlow c ltac:(lia) ltac:(by right))|].
    assert (r <= c) by (destruct (Z.le_gt_cases r c) as [|Hlt]; [done|by destruct (Hlow c ltac:(lia) ltac:(left; lia))]).
    split_and!; [lia|lia|done|]. intros c' Hc'. apply Hlow; lia.
  - intros Hn. destruct Hr as [->|[Hr Hz]]; [by left|]. right. destruct (Z.le_gt_cases (n + 2) r); [done|]. by destruct (Hn r ltac:(lia)).
Qed.
End FatTheorems.

(** ** A disk in memory *)
Module RamDisk.
Import Fat VolumeProps FatTheorems.

Record ram (cap : Z) := mkRam { cell : Z -> Z }.
Arguments mkRam {cap}.
Arguments cell {cap}.

Definition in_range (cap lba n : Z) : bool := (0 <=? lba) && (0 <=? n) && (lba * 512 + n <=? cap).

Definition store {cap} (d : ram cap) (a : Z) (buf : list Z) : ram cap :=
  mkRam (fun x => if (a <=? x) && (x <? a + zlen buf) then default 0 (buf !! Z.to_nat (x - a)) else cell d x).

#[export] Instance ram_storage cap : MassStorage (ram cap) := {
  msd_read d lba n := if in_range cap lba n then (Some n, (fun i => cell d (lba * 512 + i) mod 256) <$> seqZ 0 n) else (None, []);
  msd_write d lba buf := if in_range cap lba (zlen buf) then (Some (zlen buf), store d (lba * 512) buf) else (None, d);
}.

Lemma in_range_true cap lba n : in_range cap lba n = true <-> 0 <= lba /\ 0 <= n /\ lba * 512 + n <= cap.
Proof. unfold in_range. rewrite !andb_true_iff, !Z.leb_le. tauto. Qed.

#[export] Program Instance ram_disk cap : Disk (ram cap) := {
  sector_size := 512; capacity := cap; byte d a := cell d a mod 256; working _ := True;
}.
Next Obligation. done. Qed.
Next Obligation. intros cap d a. unfold in_width. change (2 ^ 8) with 256. apply Z.mod_pos_bound. lia. Qed.
Next Obligation. intros cap d lba n buf Hn. cbn. destruct (in_range cap lba n); [|done]. by intros [= <-]. Qed.
Next Obligation. intros cap d lba n k buf. cbn. destruct (in_range cap lba n); [|done]. intros [= -> _]. lia. Qed.
Next Obligation.
  intros cap d lba buf k d'. cbn. destruct (in_range cap lba (zlen buf)); intros [= <- <-] Hb; [|done]. cbn. split.
  - intros a Ha. destruct (_ && _) eqn:E; [|done]. rewrite andb_true_iff, Z.leb_le, Z.ltb_lt in E. lia.
  - intros _ i x Hx. pose proof (lookup_lt_Some _ _ _ Hx). unfold zlen.
    replace (lba * 512 <=? lba * 512 + Z.of_nat i) with true by (symmetry; apply Z.leb_le; lia).
    replace (lba * 512 + Z.of_nat i <? lba * 512 + Z.of_nat (length buf)) with true by (symmetry; apply Z.ltb_lt; lia). cbn.
    replace (Z.to_nat (lba * 512 + Z.of_nat i - lba * 512)) with i by lia. rewrite Hx. cbn.
    rewrite Forall_forall in Hb. apply list_elem_of_lookup_2, Hb in Hx. unfold in_width in Hx. change (2 ^ 8) with 256 in Hx.
    by apply Z.mod_small.
Qed.
Next Obligation. intros cap d lba buf k d'. cbn. destruct (in_range _ _ _); [|done]. intros [= -> _]. lia. Qed.
Next Obligation. intros cap d lba n _ ???. cbn. by rewrite (proj2 (in_range_true _ _ _)). Qed.
Next Obligation. intros cap d lba buf _ ??. cbn. rewrite (proj2 (in_range_true _ _ _)); [done|]. pose proof (zlen_nonneg buf). lia. Qed.

(** A volume of two clusters: one reserved sector, two FATs of one sector. *)
Definition tiny_bpb : BootRecord32 :=
  mkBootRecord (mkBPB [] [] 512 1 1 2 0 0 0xF8 0 0 0 0 5) (mkEBPB 1 0 0 2 0 0 [] 0 0 0 0 [] [] [] 0x55AA).

Definition blank : ram 2560 := mkRam (fun _ => 0).

Lemma tiny_geometry : geometry (D := ram 2560) tiny_bpb 2.
Proof. by constructor. Qed.

Lemma fat_write_exact_witness :
  exists ok d', fat_write blank tiny_bpb 2 0x0FFFFFFF = Some (ok, d')
    /\ (ok = true -> (forall k, 0 <= k <= 1 -> entry d' tiny_bpb k 2 = Z.land 0x0FFFFFFF FAT32.ENTRY_MASK
                        /\ Z.land (word d' (entry_addr (D := ram 2560) tiny_bpb k 2)) FAT32.RESERVED_BITS_MASK
                           = Z.land (word blank (entry_addr (D := ram 2560) tiny_bpb k 2)) FAT32.RESERVED_BITS_MASK)
                     /\ (forall x, (forall k, 0 <= k <= 1 -> ~ entry_addr (D := ram 2560) tiny_bpb k 2 <= x < entry_addr (D := ram 2560) tiny_bpb k 2 + 4) -> byte d' x = byte blank x))
    /\ (forall x, ~ in_sectors (D := ram 2560) tiny_bpb 2 x -> byte d' x = byte blank x)
    /\ (working blank -> ok = true /\ working d' /\ fat_read d' tiny_bpb 2 = Some (Z.land 0x0FFFFFFF FAT32.ENTRY_MASK)).
Proof. apply (fat_write_exact tiny_bpb 2 blank 2 0x0FFFFFFF tiny_geometry). lia. Defined.

Lemma find_free_first_witness :
  exists r, fat_find_next_free_cluster blank tiny_bpb = Some r
    /\ ((exists c, 2 <= c < 2 + 2 /\ raw tiny_bpb blank c = 0) ->
          2 <= r < 2 + 2 /\ raw tiny_bpb blank r = 0 /\ forall c, 2 <= c < r -> raw tiny_bpb blank c <> 0)
    /\ ((forall c, 2 <= c < 2 + 2 -> raw tiny_bpb blank c <> 0) -> r = 0 \/ 2 + 2 <= r).
Proof. apply (find_free_first tiny_bpb 2 blank tiny_geometry); [reflexivity|discriminate|lia|exact I]. Defined.
End RamDisk.
