(* ===== verification/FatFile.v ===== *)
(** * FAT files: the file entries of FAT.cpp, FileEntryManager.cpp and FATNode.cpp

    A file is a chain of clusters in the FAT and a file entry in a directory cluster.  An open file (a
    [FATNode]) is a copy of the file entry and a cursor. *)

From S2P Require Import Prelude Kre KString FatVolume.

Module Entry.
Import KString.

(** ** FAT.h: file entries *)

Record FileEntry := mkFileEntry {
  short_name : list Z;          (* as_array: eight characters of the name, three of the extension *)
  attributes : Z; nt_reserved : Z; creation_time_millis : Z; creation_time : Z; creation_date : Z;
  last_accessed_date : Z; first_cluster_high : Z; last_modification_time : Z; last_modification_date : Z;
  first_cluster_low : Z; file_size : Z }.

Definition SHORT_NAME_SIZE : Z := 11.
Definition SHORT_NAME_MAIN_SIZE : Z := 8.
Definition SHORT_NAME_EXT_SIZE : Z := 3.
Definition MARK_EMPTY_END : Z := 0x00.
Definition MARK_EMPTY_MIDDLE : Z := 0xE5.
Definition TRAILING_SPACE : Z := 0x20.

(** [sizeof(FileEntry)] *)
Definition ENTRY_SIZE : Z := 32.

Definition empty_entry : FileEntry := mkFileEntry (zeros 11) 0 0 0 0 0 0 0 0 0 0 0.

Definition entry_bytes (e : FileEntry) : list Z :=
  short_name e ++ Le.encode 1 (attributes e) ++ Le.encode 1 (nt_reserved e) ++ Le.encode 1 (creation_time_millis e)
  ++ Le.encode 2 (creation_time e) ++ Le.encode 2 (creation_date e) ++ Le.encode 2 (last_accessed_date e)
  ++ Le.encode 2 (first_cluster_high e) ++ Le.encode 2 (last_modification_time e) ++ Le.encode 2 (last_modification_date e)
  ++ Le.encode 2 (first_cluster_low e) ++ Le.encode 4 (file_size e).

(** The entry at an index of a cluster seen as an array of entries. *)
Definition read_entry (buf : list Z) (idx : Z) : option FileEntry :=
  b ← slice buf (32 * idx) 32;
  n ← slice b 0 11; a ← Le.get 1 b 11; nt ← Le.get 1 b 12; ms ← Le.get 1 b 13; ct ← Le.get 2 b 14; cd ← Le.get 2 b 16;
  ad ← Le.get 2 b 18; hi ← Le.get 2 b 20; mt ← Le.get 2 b 22; md ← Le.get 2 b 24; lo ← Le.get 2 b 26; sz ← Le.get 4 b 28;
  Some (mkFileEntry n a nt ms ct cd ad hi mt md lo sz).

Definition write_entry (buf : list Z) (idx : Z) (e : FileEntry) : option (list Z) :=
  Le.write_at buf (32 * idx) (entry_bytes e).

(** The enumeration [FATFileAttribute]. *)
Inductive FATFileAttribute := ANONE | READONLY | HIDDEN | SYSTEM | VOLUME_ID | DIRECTORY | ARCHIVE | LONG_FILE_NAME.

Definition attr_value (a : FATFileAttribute) : Z :=
  match a with
  | ANONE => 0 | READONLY => 0x01 | HIDDEN => 0x02 | SYSTEM => 0x04 | VOLUME_ID => 0x08
  | DIRECTORY => 0x10 | ARCHIVE => 0x20 | LONG_FILE_NAME => 0x0F
  end.

Definition is_empty_end (e : FileEntry) : bool := nth 0 (short_name e) 0 =? MARK_EMPTY_END.

Definition is_empty_middle (e : FileEntry) : bool := nth 0 (short_name e) 0 =? MARK_EMPTY_MIDDLE.

Definition make_short_name (e : FileEntry) : option String :=
  n ← init (short_name e) 0 SHORT_NAME_MAIN_SIZE; file_name ← replace n 32 0;
  x ← init (drop 8 (short_name e)) 0 SHORT_NAME_EXT_SIZE; ext ← replace x 32 0;
  if 0 <? size ext then dot ← cstr_plus [46; 0] ext; append file_name dot else Some file_name.

Definition checksum_step (checksum i : Z) : Z :=
  u8 ((if Z.testbit checksum 0 then 0x80 else 0) + Z.shiftr checksum 1 + i).

Definition compute_short_name_checksum (e : FileEntry) : Z := foldl checksum_step 0 (short_name e).

Definition cluster (e : FileEntry) : Z := Z.lor (Z.shiftl (first_cluster_high e) 16) (first_cluster_low e).

Definition has_attribute (e : FileEntry) (attr : FATFileAttribute) : bool :=
  match attr with
  | READONLY => Bits.bit_check (attributes e) 0
  | HIDDEN => Bits.bit_check (attributes e) 1
  | SYSTEM => Bits.bit_check (attributes e) 2
  | VOLUME_ID => Bits.bit_check (attributes e) 3
  | DIRECTORY => Bits.bit_check (attributes e) 4
  | ARCHIVE => Bits.bit_check (attributes e) 5
  | LONG_FILE_NAME => Z.land (attributes e) (attr_value LONG_FILE_NAME) =? attr_value LONG_FILE_NAME
  | ANONE => false
  end.

Definition with_cluster (c : Z) (e : FileEntry) : FileEntry :=
  mkFileEntry (short_name e) (attributes e) (nt_reserved e) (creation_time_millis e) (creation_time e) (creation_date e)
    (last_accessed_date e) (Bits.word_get c 1) (last_modification_time e) (last_modification_date e) (Bits.word_get c 0) (file_size e).

Definition with_size (s : Z) (e : FileEntry) : FileEntry :=
  mkFileEntry (short_name e) (attributes e) (nt_reserved e) (creation_time_millis e) (creation_time e) (creation_date e)
    (last_accessed_date e) (first_cluster_high e) (last_modification_time e) (last_modification_date e) (first_cluster_low e) s.

Definition with_attributes (a : Z) (e : FileEntry) : FileEntry :=
  mkFileEntry (short_name e) a (nt_reserved e) (creation_time_millis e) (creation_time e) (creation_date e)
    (last_accessed_date e) (first_cluster_high e) (last_modification_time e) (last_modification_date e) (first_cluster_low e) (file_size e).

Record FileEntryLocation := mkLocation { lcluster : Z; entry_idx : Z }.

Record LocationAwareFileEntry := mkLaf {
  file_name : String; file : FileEntry; location : FileEntryLocation; first_lfn_entry : FileEntryLocation }.

Definition with_file (f : FileEntry -> FileEntry) (l : LocationAwareFileEntry) : LocationAwareFileEntry :=
  mkLaf (file_name l) (f (file l)) (location l) (first_lfn_entry l).
End Entry.

(** ** FileEntryManager.cpp: writing file entries and allocating clusters *)
Module Manager.
Import Fat Entry.

Section manager.
Context {D : Type} `{MassStorage D} `{FATEngine}.
Implicit Types (d : D) (bpb : BootRecord32).

Definition update d bpb (entry : LocationAwareFileEntry) : option (bool * D) :=
  let '(ok, buf) := data_cluster_read d bpb (lcluster (location entry)) in
  if (ok : bool) then
    buf ← write_entry buf (entry_idx (location entry)) (file entry);
    Some (data_cluster_write d bpb buf (lcluster (location entry)))
  else Some (false, d).

(** The new cluster, zero when there is none; the file entry is a reference and can change. *)
Definition allocate_cluster d bpb (f : LocationAwareFileEntry) (last_file_cluster : Z)
  : option (Z * LocationAwareFileEntry * D) :=
  free_cluster ← fat_find_next_free_cluster d bpb;
  if free_cluster =? 0 then Some (0, f, d) else
  if last_file_cluster =? 0 then
    let f := with_file (with_cluster free_cluster) f in
    '(ok, d) ← update d bpb f;
    if negb ok then Some (0, f, d) else
    '(ok, d) ← fat_write d bpb free_cluster fat_get_eof_marker;
    if (ok : bool) then Some (free_cluster, f, d) else
    let f := with_file (with_cluster 0) f in
    '(_, d) ← update d bpb f;
    Some (0, f, d)
  else
    '(ok, d) ← fat_write d bpb last_file_cluster free_cluster;
    if negb ok then Some (0, f, d) else
    '(ok, d) ← fat_write d bpb free_cluster fat_get_eof_marker;
    if (ok : bool) then Some (free_cluster, f, d) else
    '(_, d) ← fat_write d bpb last_file_cluster fat_get_eof_marker;
    Some (0, f, d).
End manager.
End Manager.

(** ** FATNode.cpp *)
Module Node.
Import KString Fat Entry Manager.

Inductive IOMode := READ | WRITE | APPEND.
Inductive SeekMode := BEGIN | CURSOR | END_.
Inductive NodeAttribute := NREADONLY | NHIDDEN | NSYSTEM | NDIRECTORY | NFILE.
Inductive NodeIOStatus := OKAY | BAD_ARGS | NOT_ALLOWED | NOT_SUPPORTED | DEV_ERROR | CLOSED.

Record FATNode := mkNode {
  _closed : bool; _node_io_mode : IOMode; _file_entry : LocationAwareFileEntry;
  _processed_clusters : Z; _current_cluster : Z; _cluster_offset : Z }.

Definition with_cursor (processed current offset : Z) (s : FATNode) : FATNode :=
  mkNode (_closed s) (_node_io_mode s) (_file_entry s) processed current offset.

Definition with_entry (e : LocationAwareFileEntry) (s : FATNode) : FATNode :=
  mkNode (_closed s) (_node_io_mode s) e (_processed_clusters s) (_current_cluster s) (_cluster_offset s).

Definition size_of (s : FATNode) : Z := file_size (file (_file_entry s)).

Definition to_fat_attribute (a : NodeAttribute) : FATFileAttribute :=
  match a with NREADONLY => READONLY | NHIDDEN => HIDDEN | NSYSTEM => SYSTEM | NDIRECTORY => DIRECTORY | NFILE => ARCHIVE end.

Definition node_attr_value (a : NodeAttribute) : Z :=
  match a with NREADONLY => 1 | NHIDDEN => 2 | NSYSTEM => 4 | NDIRECTORY => 8 | NFILE => 16 end.

Definition node_has_attribute (s : FATNode) (a : NodeAttribute) : bool :=
  if _closed s then false else has_attribute (file (_file_entry s)) (to_fat_attribute a).

(** [Node::close] *)
Definition close (s : FATNode) : FATNode :=
  mkNode true (_node_io_mode s) (_file_entry s) (_processed_clusters s) (_current_cluster s) (_cluster_offset s).

Section node.
Context {D : Type} `{MassStorage D} `{FATEngine}.
Implicit Types (d : D) (bpb : BootRecord32) (s : FATNode).

(** A value of the FAT that names a cluster. *)
Definition is_cluster (c : Z) : bool := negb (c =? 0) && (c <? get_max_cluster_count + 1).

(** The walk to the end of the chain: the last cluster and the number of clusters.  A chain with a cycle
    does not end. *)
Fixpoint walk_chain (fuel : nat) d bpb (cluster last i : Z) : option (Z * Z) :=
  match fuel with
  | O => None
  | S fuel =>
      if is_cluster cluster then
        next ← fat_read d bpb cluster; walk_chain fuel d bpb next cluster (u32 (i + 1))
      else Some (last, i)
  end.

Definition init_file_cursor (fuel : nat) d bpb s : option FATNode :=
  let first := cluster (file (_file_entry s)) in
  '(last_file_cluster, i) ← walk_chain fuel d bpb first first 0;
  match _node_io_mode s with
  | APPEND =>
      let cs := u32 (cluster_size bpb) in
      if cs =? 0 then None else
      let processed := if negb (size_of s mod cs =? 0) then u32 (i - 1) else i in
      Some (with_cursor processed last_file_cluster (u32 (size_of s - u32 (processed * cs))) s)
  | _ => Some (with_cursor 0 first 0 s)
  end.

Definition open (fuel : nat) d bpb (mode : IOMode) (e : LocationAwareFileEntry) : option FATNode :=
  init_file_cursor fuel d bpb (mkNode false mode e 0 0 0).

Definition processed_bytes bpb s : Z :=
  u32 (u32 (u32 (_processed_clusters s * bytes_per_sector (BPB bpb)) * sectors_per_cluster (BPB bpb)) + _cluster_offset s).

Definition has_more bpb s : bool :=
  if _closed s then false else if negb (node_has_attribute s NFILE) then false else processed_bytes bpb s <? size_of s.

(** The loop of [read]; [out] is what the buffer holds so far, [buf_size] how much it can hold.  The
    flag tells a device error. *)
Fixpoint read_loop (fuel : nat) d bpb s (out : list Z) (buf_size : Z) : option (bool * list Z * FATNode) :=
  match fuel with
  | O => None
  | S fuel =>
      if has_more bpb s && (zlen out <? buf_size) then
        let '(ok, tmp_buf) := data_cluster_read d bpb (_current_cluster s) in
        if negb ok then Some (false, out, s) else
        let b_to_copy := Math.min (Math.min (u64 (size_of s - processed_bytes bpb s)) (u64 (buf_size - zlen out)))
                                  (u64 (cluster_size bpb - _cluster_offset s)) in
        part ← slice tmp_buf (_cluster_offset s) b_to_copy;
        let s := with_cursor (_processed_clusters s) (_current_cluster s) (u32 (_cluster_offset s + b_to_copy)) s in
        let out := out ++ part in
        if cluster_size bpb <=? _cluster_offset s then
          next_cluster ← fat_read d bpb (_current_cluster s);
          if get_max_cluster_count + 1 <=? next_cluster then Some (true, out, s)
          else read_loop fuel d bpb (with_cursor (u32 (_processed_clusters s + 1)) next_cluster 0 s) out buf_size
        else read_loop fuel d bpb s out buf_size
      else Some (true, out, s)
  end.

(** [has_buf] tells that the buffer is not null. *)
Definition read d bpb s (has_buf : bool) (buf_size : Z) : option (NodeIOStatus * list Z * FATNode) :=
  if _closed s then Some (CLOSED, [], s) else
  if negb (node_has_attribute s NFILE) then Some (NOT_SUPPORTED, [], s) else
  if size_of s =? 0 then Some (OKAY, [], s) else
  if negb has_buf then Some (BAD_ARGS, [], s) else
  if buf_size =? 0 then Some (OKAY, [], s) else
  '(ok, out, s) ← read_loop (S (Z.to_nat buf_size)) d bpb s [] buf_size;
  Some (if (ok : bool) then OKAY else DEV_ERROR, out, s).

(** The new cluster of [write] when the end of the file is reached. *)
Definition grow d bpb s : option (FATNode * D) :=
  more ← (if _current_cluster s =? 0 then Some true else
          q ← Math.div_round_up 32 (size_of s) (u32 (cluster_size bpb)); Some (q <=? _processed_clusters s));
  if (more : bool) then
    '(c, e, d) ← allocate_cluster d bpb (_file_entry s) (_current_cluster s);
    Some (with_cursor (_processed_clusters s) c (_cluster_offset s) (with_entry e s), d)
  else Some (s, d).

(** The cluster buffer with the next part of the data. *)
Definition fill_cluster bpb s (wipe : bool) (w_buf part : list Z) : option (list Z) :=
  w_buf ← Le.write_at w_buf (_cluster_offset s) part;
  if wipe then Le.write_at w_buf (zlen part) (zeros (cluster_size bpb - zlen part)) else Some w_buf.

(** The cursor behind [b] bytes that were written at it. *)
Definition advance d bpb s (b : Z) : option FATNode :=
  let offset := u32 (_cluster_offset s + b) in
  if cluster_size bpb <=? offset then
    next_cluster ← fat_read d bpb (_current_cluster s);
    Some (with_cursor (u32 (_processed_clusters s + 1))
            (if next_cluster <? get_max_cluster_count + 1 then next_cluster else _current_cluster s) 0 s)
  else Some (with_cursor (_processed_clusters s) (_current_cluster s) offset s).

(** The loop of [write] from position [pos]; a device error is given with the byte count it reports. *)
Fixpoint write_loop (fuel : nat) d bpb s (wipe : bool) (buf : list Z) (pos : Z) : option (option Z * Z * FATNode * D) :=
  match fuel with
  | O => None
  | S fuel =>
      if pos <? zlen buf then
        '(s, d) ← grow d bpb s;
        if _current_cluster s =? 0 then Some (Some 0, pos, s, d) else
        let '(ok, w_buf) := data_cluster_read d bpb (_current_cluster s) in
        if negb ok then Some (Some pos, pos, s, d) else
        let b_to_copy := Math.min (u64 (zlen buf - pos)) (u64 (cluster_size bpb - _cluster_offset s)) in
        part ← slice buf pos b_to_copy;
        w_buf ← fill_cluster bpb s wipe w_buf part;
        let '(ok, d) := data_cluster_write d bpb w_buf (_current_cluster s) in
        if negb ok then Some (Some 0, pos, s, d) else
        s ← advance d bpb s b_to_copy;
        write_loop fuel d bpb s wipe buf (pos + b_to_copy)
      else Some (None, pos, s, d)
  end.

(** The walk that frees the clusters behind the new end; the cluster that becomes the last is returned. *)
Fixpoint free_excess (fuel : nat) d bpb (total_clusters cluster eof_cluster i : Z) : option (Z * D) :=
  match fuel with
  | O => None
  | S fuel =>
      if is_cluster cluster then
        next_cluster ← fat_read d bpb cluster;
        let lastc := u32 (total_clusters - 1) in
        '(eof_cluster, d) ← (if i =? lastc then Some (cluster, d)
                             else if lastc <? i then '(_, d) ← fat_write d bpb cluster 0; Some (eof_cluster, d)
                             else Some (eof_cluster, d));
        free_excess fuel d bpb total_clusters next_cluster eof_cluster (u32 (i + 1))
      else Some (eof_cluster, d)
  end.

(** The end of [write]: the new size, the excess clusters when the file shrank, and the file entry. *)
Definition shrink (fuel : nat) d bpb s (old_size : Z) : option D :=
  if size_of s <? old_size then
    total_clusters ← Math.div_round_up 32 (size_of s) (u32 (cluster_size bpb));
    '(eof_cluster, d) ← free_excess fuel d bpb total_clusters (cluster (file (_file_entry s))) 0 0;
    if 0 <? eof_cluster then '(_, d) ← fat_write d bpb eof_cluster fat_get_eof_marker; Some d else Some d
  else Some d.

Definition finish_write (fuel : nat) d bpb s (wipe : bool) (pos : Z) : option (NodeIOStatus * Z * FATNode * D) :=
  let old_size := size_of s in
  let s := with_entry (with_file (with_size (u32 (if wipe then pos else old_size + pos))) (_file_entry s)) s in
  d ← shrink fuel d bpb s old_size;
  '(ok, d) ← update d bpb (_file_entry s);
  Some (if (ok : bool) then (OKAY, pos, s, d) else (DEV_ERROR, 0, s, d)).

(** The first write to a file opened for writing replaces its contents. *)
Definition is_first_write s : bool := (_processed_clusters s =? 0) && (_cluster_offset s =? 0).

Definition wipes s : bool := match _node_io_mode s with WRITE => is_first_write s | _ => false end.

(** [buf] is [None] for a null pointer; [chain_fuel] bounds the walk along the chain. *)
Definition write (chain_fuel : nat) d bpb s (buf : option (list Z)) : option (NodeIOStatus * Z * FATNode * D) :=
  if _closed s then Some (CLOSED, 0, s, d) else
  if negb (node_has_attribute s NFILE) then Some (NOT_SUPPORTED, 0, s, d) else
  match _node_io_mode s, buf with
  | READ, _ => Some (NOT_ALLOWED, 0, s, d)
  | _, None => Some (BAD_ARGS, 0, s, d)
  | _, Some [] => Some (OKAY, 0, s, d)
  | _, Some buf =>
      let wipe := wipes s in
      '(err, pos, s, d) ← write_loop (S (length buf)) d bpb s wipe buf 0;
      match err with
      | Some count => Some (DEV_ERROR, count, s, d)
      | None => finish_write chain_fuel d bpb s wipe pos
      end
  end.

Fixpoint seek_loop (fuel : nat) d bpb s (cluster to_seek : Z) : option FATNode :=
  match fuel with
  | O => None
  | S fuel =>
      if 0 <? to_seek then
        if to_seek <? cluster_size bpb
        then seek_loop fuel d bpb (with_cursor (_processed_clusters s) (_current_cluster s) (u32 to_seek) s) cluster 0
        else
          cluster ← fat_read d bpb cluster;
          (* the test for the end of the chain asks for a number that is both zero and too large *)
          seek_loop fuel d bpb (with_cursor (u32 (_processed_clusters s + 1)) cluster 0 s) cluster (to_seek - cluster_size bpb)
      else Some s
  end.

Definition bad_offset bpb s (mode : SeekMode) (offset : Z) : bool :=
  let file_cursor := u64 (u64 (_processed_clusters s * cluster_size bpb) + _cluster_offset s) in
  match mode with
  | BEGIN => (offset <? 0) || (size_of s <=? u32 offset)
  | CURSOR => size_of s <=? u64 (file_cursor + offset)
  | END_ => (0 <? offset) || (size_of s <? u32 (Z.abs offset))
  end.

Definition seek_target bpb s (mode : SeekMode) (offset : Z) : Z :=
  match mode with
  | BEGIN => u64 offset
  | CURSOR => u64 (u64 (u64 (_processed_clusters s * cluster_size bpb) + _cluster_offset s) + offset)
  | END_ => u32 (size_of s + offset)
  end.

Definition seek (fuel : nat) d bpb s (mode : SeekMode) (offset : Z) : option (NodeIOStatus * Z * FATNode) :=
  if _closed s then Some (CLOSED, 0, s) else
  if negb (node_has_attribute s NFILE) then Some (NOT_SUPPORTED, 0, s) else
  if bad_offset bpb s mode offset then Some (BAD_ARGS, 0, s) else
  let to_seek := seek_target bpb s mode offset in
  let first := cluster (file (_file_entry s)) in
  s ← seek_loop fuel d bpb (with_cursor 0 first 0 s) first to_seek;
  Some (OKAY, u64 (Z.abs offset), s).

Definition set_attribute d bpb s (n_attr : NodeAttribute) (val : bool) : option (bool * FATNode * D) :=
  if _closed s then Some (false, s, d) else
  match n_attr with
  | NFILE | NDIRECTORY => Some (false, s, d)
  | _ =>
      let a := attributes (file (_file_entry s)) in
      let a := if val then Z.lor a (node_attr_value n_attr) else Z.land a (Z.lnot (node_attr_value n_attr)) in
      let s := with_entry (with_file (with_attributes a) (_file_entry s)) s in
      '(ok, d) ← update d bpb (_file_entry s); Some (ok, s, d)
  end.
End node.
End Node.
