(* ===== verification/FatFileProps.v ===== *)
(** * Theorems on FAT files

    Chains of clusters, their extension by allocation, and reading a file through the cursor. *)

From S2P Require Import Prelude Kre KString KStringProps FatVolume FatVolumeProps FatFile.

Module FileProps.
Import KString StrProps LeProps Fat VolumeProps Entry Manager Node.

(** ** File entries on the disk *)

Record entry_ok (e : FileEntry) : Prop := {
  eo_name : length (short_name e) = 11%nat /\ Forall (in_width 8) (short_name e);
  eo_bytes : Forall (in_width 8) [attributes e; nt_reserved e; creation_time_millis e];
  eo_words : Forall (in_width 16) [creation_time e; creation_date e; last_accessed_date e; first_cluster_high e;
    last_modification_time e; last_modification_date e; first_cluster_low e];
  eo_size : in_width 32 (file_size e) }.

Lemma entry_bytes_len e : length (short_name e) = 11%nat -> zlen (entry_bytes e) = 32.
Proof. intros H. unfold entry_bytes, zlen. rewrite !length_app, !encode_length, H. done. Qed.

Lemma entry_bytes_width e : entry_ok e -> Forall (in_width 8) (entry_bytes e).
Proof. intros [[_ H] _ _ _]. unfold entry_bytes. rewrite !Forall_app. repeat split; try done; apply encode_bytes. Qed.

Lemma decode_1 v : in_width 8 v -> Le.decode (Le.encode 1 v) = v.
Proof. intros H. rewrite decode_encode. by apply Z.mod_small. Qed.

Lemma decode_2 v : in_width 16 v -> Le.decode (Le.encode 2 v) = v.
Proof. intros H. rewrite decode_encode. by apply Z.mod_small. Qed.

Lemma decode_4 v : in_width 32 v -> Le.decode (Le.encode 4 v) = v.
Proof. intros H. rewrite decode_encode. by apply Z.mod_small. Qed.

(** The fields of an entry lie where [read_entry] looks for them. *)
Lemma read_entry_bytes l1 e l3 i : entry_ok e -> zlen l1 = 32 * i -> read_entry (l1 ++ entry_bytes e ++ l3) i = Some e.
Proof.
  intros [[Hn _] Hb Hw Hs] Hi. unfold read_entry.
  pose proof (slice_mid l1 (entry_bytes e) l3) as Hsl. rewrite Hi, (entry_bytes_len e Hn) in Hsl. rewrite Hsl. cbn [mbind option_bind].
  repeat match goal with H : Forall _ (_ :: _) |- _ => apply Forall_cons_1 in H as [? H] end.
  destruct e as [n a nt ms ct cd ad hi mt md lo sz]. cbn in *.
  do 11 (destruct n as [|? n]; [done|]). destruct n; [|done].
  change (Some (mkFileEntry [z; z0; z1; z2; z3; z4; z5; z6; z7; z8; z9] (Le.decode (Le.encode 1 a)) (Le.decode (Le.encode 1 nt))
    (Le.decode (Le.encode 1 ms)) (Le.decode (Le.encode 2 ct)) (Le.decode (Le.encode 2 cd)) (Le.decode (Le.encode 2 ad))
    (Le.decode (Le.encode 2 hi)) (Le.decode (Le.encode 2 mt)) (Le.decode (Le.encode 2 md)) (Le.decode (Le.encode 2 lo))
    (Le.decode (Le.encode 4 sz))) = Some (mkFileEntry [z; z0; z1; z2; z3; z4; z5; z6; z7; z8; z9] a nt ms ct cd ad hi mt md lo sz)).
  by rewrite !decode_1, !decode_2, decode_4.
Qed.

Lemma word_get_width c k : 0 <= k -> in_width 16 (Bits.word_get c k).
Proof.
  intros Hk. unfold Bits.word_get. destruct (3 <? k); [by split|]. change 65535 with (Z.ones 16). rewrite Z.land_ones by lia.
  by apply wrap_range.
Qed.

Lemma cluster_with c e : in_width 32 c -> cluster (with_cluster c e) = c.
Proof.
  intros Hc. unfold cluster, with_cluster, Bits.word_get. cbn [first_cluster_high first_cluster_low].
  change (3 <? 1) with false. change (3 <? 0) with false. cbn [Z.mul]. change 65535 with (Z.ones 16). rewrite !Z.land_ones by lia.
  rewrite Z.shiftr_0_r. apply Z.bits_inj'. intros i Hi. rewrite Z.lor_spec. destruct (decide (i < 16)).
  - rewrite Z.shiftl_spec_low by lia. rewrite Z.mod_pow2_bits_low by lia. done.
  - rewrite Z.shiftl_spec by lia. rewrite (Z.mod_pow2_bits_high c 16) by lia. rewrite orb_false_r. destruct (decide (i < 32)).
    + rewrite Z.mod_pow2_bits_low by lia. rewrite Z.shiftr_spec by lia. f_equal. lia.
    + rewrite Z.mod_pow2_bits_high by lia. symmetry. apply (testbit_above 32); [done|lia].
Qed.

Lemma entry_ok_cluster c e : entry_ok e -> entry_ok (with_cluster c e).
Proof.
  intros [Hn Hb Hw Hs]. constructor; [done|done| |done]. cbn [with_cluster creation_time creation_date last_accessed_date
    first_cluster_high last_modification_time last_modification_date first_cluster_low].
  repeat match goal with H : Forall _ (_ :: _) |- _ => apply Forall_cons_1 in H as [? H] end.
  repeat (apply Forall_cons_2; [first [done | apply word_get_width; lia]|]). apply Forall_nil_2.
Qed.

Lemma entry_ok_size sz e : in_width 32 sz -> entry_ok e -> entry_ok (with_size sz e).
Proof. intros Hz [Hn Hb Hw Hs]. by constructor. Qed.

Section disk.
Context {D : Type} `{MD : MassStorage D} `{!Disk D}.
Context (bpb : BootRecord32) (n : Z) (G : geometry bpb n).
Implicit Types (d : D) (l : list Z).
#[local] Abbreviation cs := (cluster_size bpb).
#[local] Abbreviation MAXC := FAT32.MAX_CLUSTER_COUNT.

Definition valid (c : Z) : Prop := 2 <= c < n + 2.

(** A place for a file entry. *)
Definition place_ok (loc : FileEntryLocation) : Prop := valid (lcluster loc) /\ 0 <= entry_idx loc /\ 32 * entry_idx loc + 32 <= cs.

Definition entry_at d (loc : FileEntryLocation) : option FileEntry := read_entry (cluster_bytes bpb d (lcluster loc)) (entry_idx loc).

(** Writing a file entry changes the 32 bytes of its place. *)
Lemma update_result d (e : LocationAwareFileEntry) : place_ok (location e) -> entry_ok (file e) ->
  exists ok d', update d bpb e = Some (ok, d')
    /\ (forall x, ~ cluster_addr bpb (lcluster (location e)) <= x < cluster_addr bpb (lcluster (location e)) + cs -> byte d' x = byte d x)
    /\ (ok = true -> entry_at d' (location e) = Some (file e)
         /\ forall i, 0 <= i -> 32 * i + 32 <= cs -> i <> entry_idx (location e) ->
              entry_at d' (mkLocation (lcluster (location e)) i) = entry_at d (mkLocation (lcluster (location e)) i))
    /\ (working d -> ok = true /\ working d').
Proof using G.
  destruct e as [nm f [c idx] lfn]. unfold place_ok, update. cbn [location lcluster entry_idx file]. intros (Hc & Hi & Hfit) He.
  pose proof (cluster_size_range bpb n G) as Hcs.
  destruct (cluster_read_result bpb n G d c Hc) as (ok & buf & -> & Hbuf & Hwk). destruct ok; cycle 1.
  { exists false, d. split_and!; [done|done|done|]. intros Hw. by specialize (Hwk Hw). }
  specialize (Hbuf eq_refl). subst buf. set (a := cluster_addr bpb c).
  unfold cluster_bytes. pose proof (bytes_of_split d a cs (32 * idx) 32 ltac:(lia) ltac:(lia) ltac:(lia)) as Esp.
  set (l1 := bytes_of d a (32 * idx)) in *. set (l3 := bytes_of d (a + 32 * idx + 32) _) in *. set (lo := bytes_of d (a + 32 * idx) 32) in *.
  assert (zlen l1 = 32 * idx) as E1 by (apply bytes_of_len; lia). assert (zlen lo = 32) as Elo by (apply bytes_of_len; lia).
  pose proof (entry_bytes_len f (proj1 (eo_name _ He))) as Ef.
  unfold write_entry. fold a. rewrite Esp. rewrite <- E1. rewrite write_at_mid by lia. cbn [mbind option_bind].
  set (buf' := l1 ++ entry_bytes f ++ l3).
  assert (zlen l3 = cs - 32 * idx - 32) as E3 by (apply bytes_of_len; lia).
  destruct (cluster_write_result bpb n G d buf' c Hc) as (ok & d' & -> & Hst & Hfr & Hw').
  { unfold buf'. rewrite !zlen_app. lia. }
  { unfold buf'. rewrite !Forall_app. repeat split; [apply bytes_of_width|by apply entry_bytes_width|apply bytes_of_width]. }
  exists ok, d'. split_and!; [done|done| |intros Hw; by apply Hw'].
  intros ->. specialize (Hst eq_refl). unfold entry_at. cbn [lcluster entry_idx]. rewrite Hst. split; [by apply read_entry_bytes|].
  intros i Hi0 Hif Hne. unfold read_entry. f_equal. unfold cluster_bytes. fold a. rewrite Esp. unfold buf', slice.
  rewrite !zlen_app, Ef, Elo. destruct (_ && _); [|done]. f_equal.
  destruct (decide (i < idx)).
  - rewrite !drop_app_le, !take_app_le by (rewrite ?length_drop; unfold zlen in *; lia). done.
  - rewrite !(drop_app_ge l1) by (unfold zlen in *; lia). rewrite !drop_app_ge by (unfold zlen in *; lia).
    unfold zlen in *. by replace (length (entry_bytes f)) with (length lo) by lia.
Qed.

(** ** Chains *)

(** The clusters [l] in the order the FAT links them, the last one with an end mark. *)
Definition chain d l : Prop :=
  forall i c, l !! i = Some c -> valid c
    /\ match l !! S i with Some c' => entry d bpb 0 c = c' | None => MAXC < entry d bpb 0 c end.

Lemma valid_max c : valid c -> c < MAXC.
Proof using G. unfold valid. pose proof (g_max _ _ G). lia. Qed.

Lemma chain_next d l i c c' : chain d l -> l !! i = Some c -> l !! S i = Some c' -> entry d bpb 0 c = c'.
Proof using. intros H Hi Hs. destruct (H i c Hi) as [_ Hm]. by rewrite Hs in Hm. Qed.

Lemma chain_valid d l c : chain d l -> c ∈ l -> valid c.
Proof using. intros H [i Hi]%list_elem_of_lookup. by apply (H i c). Qed.

Lemma chain_nonzero d l c : chain d l -> c ∈ l -> raw bpb d c <> 0.
Proof using G.
  intros H [i Hi]%list_elem_of_lookup Hz. destruct (H i c Hi) as [_ Hm]. unfold entry, raw in *. rewrite Hz in Hm.
  destruct (l !! S i) as [c'|] eqn:Es; [|by unfold FAT32.MAX_CLUSTER_COUNT in Hm].
  rewrite Z.land_0_l in Hm. subst c'. destruct (H (S i) 0 Es) as [Hv _]. unfold valid in Hv. lia.
Qed.

(** A chain visits no cluster twice: from a repeated cluster on it would never end. *)
Lemma clusters_nodup d l : chain d l -> NoDup l.
Proof using G.
  intros H. apply NoDup_alt. intros i j c Hi Hj.
  assert (forall i j, (i < j)%nat -> l !! i = Some c -> l !! j = Some c -> False) as Hlt.
  { clear i j Hi Hj. intros i j Hij Hi Hj.
    assert (forall k, (j + k < length l)%nat -> l !! (i + k)%nat = l !! (j + k)%nat) as Hk.
    { induction k as [|k IH]; intros Hk; [rewrite !Nat.add_0_r; congruence|].
      destruct (lookup_lt_is_Some_2 l (j + k)%nat ltac:(lia)) as [x Hx].
      destruct (lookup_lt_is_Some_2 l (S (j + k)) ltac:(lia)) as [y Hy].
      destruct (lookup_lt_is_Some_2 l (S (i + k)) ltac:(lia)) as [y' Hy'].
      specialize (IH ltac:(lia)). rewrite Hx in IH. rewrite !Nat.add_succ_r, Hy, Hy'. f_equal.
      by rewrite <- (chain_next d l (i + k) x y'), <- (chain_next d l (j + k) x y). }
    pose proof (lookup_lt_Some _ _ _ Hj) as Hlen. set (k := (length l - 1 - j)%nat).
    specialize (Hk k ltac:(lia)). destruct (lookup_lt_is_Some_2 l (j + k)%nat ltac:(lia)) as [x Hx]. rewrite Hx in Hk.
    destruct (H _ _ Hx) as [_ Hend]. rewrite (lookup_ge_None_2 l (S (j + k))) in Hend by lia.
    destruct (lookup_lt_is_Some_2 l (S (i + k)) ltac:(lia)) as [y Hy].
    rewrite (chain_next d l (i + k) x y H Hk Hy) in Hend. destruct (H _ _ Hy) as [Hv _]. pose proof (valid_max y Hv). lia. }
  destruct (Nat.lt_trichotomy i j) as [Hl|[He|Hl]]; [exfalso; eauto|done|exfalso; eauto].
Qed.

(** A chain stays a chain when its entries stay. *)
Lemma clusters_frame d d' l : chain d l -> (forall c, c ∈ l -> entry d' bpb 0 c = entry d bpb 0 c) -> chain d' l.
Proof using.
  intros H Hf i c Hi. destruct (H i c Hi) as [Hv Hm]. split; [done|]. rewrite (Hf c); [done|by apply list_elem_of_lookup_2 in Hi].
Qed.

(** A new last cluster. *)
Lemma chain_snoc d d' l x c : chain d (l ++ [x]) -> valid c ->
  (forall y, y ∈ l -> entry d' bpb 0 y = entry d bpb 0 y) -> entry d' bpb 0 x = c -> MAXC < entry d' bpb 0 c ->
  chain d' (l ++ [x; c]).
Proof using.
  intros H Hv Hf Hx Hc i y Hi. destruct (Nat.lt_ge_cases i (length l)) as [Hlt|Hge].
  - rewrite lookup_app_l in Hi by done. assert ((l ++ [x]) !! i = Some y) as Hi' by (by apply lookup_app_l_Some).
    destruct (H i y Hi') as [Hvy Hm]. split; [done|]. rewrite (Hf y) by (by apply list_elem_of_lookup_2 in Hi).
    destruct (Nat.lt_ge_cases (S i) (length l)) as [Hs|Hs].
    + by rewrite !lookup_app_l in * by done.
    + rewrite !lookup_app_r in * by done. replace (S i - length l)%nat with 0%nat in * by lia. done.
  - rewrite lookup_app_r in Hi by done. rewrite lookup_app_r by lia. destruct (i - length l)%nat as [|[|k]] eqn:E; cbn in Hi; simplify_eq.
    + replace (S i - length l)%nat with 1%nat by lia. split; [|done].
      apply (chain_valid d (l ++ [y]) y H). apply elem_of_app. right. by apply list_elem_of_singleton.
    + replace (S i - length l)%nat with 2%nat by lia. by split.
Qed.

(** ** Allocation *)

Definition free_clusters d : list Z := filter (fun c => raw bpb d c = 0) (seqZ 2 n).

Lemma elem_of_free d c : c ∈ free_clusters d <-> valid c /\ raw bpb d c = 0.
Proof using. unfold free_clusters, valid. rewrite list_elem_of_filter, elem_of_seqZ. split; intros []; split; (done || lia). Qed.

Definition scan_ok : Prop := sector_size = 512 /\ (fat_size_32 (EBPB bpb) + 1) * 128 <= MAXC /\ 2 <= n.

Lemma find_free_valid d : scan_ok -> working d -> free_clusters d <> [] ->
  exists c, fat_find_next_free_cluster d bpb = Some c /\ c ∈ free_clusters d.
Proof using G.
  intros (H512 & Hmax & H2) Hw Hne. destruct (find_free_cluster_result bpb n G H512 Hmax H2 d Hw) as (r & E & Hlow & Hr).
  pose proof (g_entries _ _ G) as He. rewrite H512 in He. exists r. split; [done|].
  destruct (free_clusters d) as [|c0 rest] eqn:Ef; [done|]. assert (c0 ∈ free_clusters d) as Hc0 by (rewrite Ef; left).
  rewrite <- Ef. apply elem_of_free in Hc0 as [Hv Hz]. unfold valid in Hv. apply elem_of_free.
  destruct Hr as [->|[Hr Hzr]]; [by destruct (Hlow c0 ltac:(lia) ltac:(by right))|]. split; [|done].
  assert (r <= c0); [|unfold valid; lia]. destruct (Z.le_gt_cases r c0) as [|Hlt]; [done|]. by destruct (Hlow c0 ltac:(lia) ltac:(left; lia)).
Qed.

(** What an operation keeps: the FAT entries outside [S] and the data clusters outside [T]. *)
Definition keeps d d' (S T : Z -> Prop) : Prop :=
  (forall c, 0 <= c < n + 2 -> ~ S c -> raw bpb d' c = raw bpb d c)
  /\ (forall c, 2 <= c -> ~ T c -> cluster_bytes bpb d' c = cluster_bytes bpb d c).

Lemma keeps_trans d1 d2 d3 (S1 S2 T1 T2 : Z -> Prop) : keeps d1 d2 S1 T1 -> keeps d2 d3 S2 T2 ->
  keeps d1 d3 (fun c => S1 c \/ S2 c) (fun c => T1 c \/ T2 c).
Proof using. intros [H1 H2] [H3 H4]. split; intros c Hc Hn; [rewrite H3, H1|rewrite H4, H2]; tauto. Qed.

Lemma keeps_weaken d d' (S S' T T' : Z -> Prop) : keeps d d' S T -> (forall c, S c -> S' c) -> (forall c, T c -> T' c) -> keeps d d' S' T'.
Proof using. intros [H1 H2] HS HT. split; intros c Hc Hn; [apply H1|apply H2]; auto. Qed.

Lemma keeps_entry d d' S T c : keeps d d' S T -> 0 <= c < n + 2 -> ~ S c -> entry d' bpb 0 c = entry d bpb 0 c.
Proof using. intros [H _] Hc Hn. specialize (H c Hc Hn). unfold entry, raw in *. congruence. Qed.

Lemma keeps_refl d S T : keeps d d S T.
Proof using. by split. Qed.

Lemma sets_keeps d d' c v : 0 <= c < n + 2 -> sets bpb d d' c v -> keeps d d' (fun x => x = c) (fun _ => False).
Proof using G.
  intros Hc Hs. split.
  - intros x Hx Hne. unfold raw. apply word_ext. intros y Hy. destruct Hs as [_ Hf]. apply Hf. intros k Hk.
    destruct (entries_apart bpb n G k 0 c x); (done || lia).
  - intros x Hx _. by apply (sets_data bpb n G d d' c v).
Qed.

Lemma data_keeps d d' c : 2 <= c ->
  (forall x, ~ cluster_addr bpb c <= x < cluster_addr bpb c + cs -> byte d' x = byte d x) -> keeps d d' (fun _ => False) (fun x => x = c).
Proof using G.
  intros Hc Hf. destruct (cluster_write_frame bpb n G d d' c Hc Hf) as [H1 H2]. split; intros x Hx Hn; [|by apply H2].
  apply H1; [lia|done].
Qed.

Lemma fat_write_working d c v : 0 <= c < n + 2 -> working d ->
  exists d', fat_write d bpb c v = Some (true, d') /\ working d' /\ sets bpb d d' c v /\ entry d' bpb 0 c = Z.land v FAT32.ENTRY_MASK
    /\ keeps d d' (fun x => x = c) (fun _ => False).
Proof using G.
  intros Hc Hw. destruct (fat_write_result bpb n G d c v Hc) as (ok & d' & E & _ & Hok & Hwk). destruct (Hwk Hw) as [-> Hw'].
  specialize (Hok eq_refl). exists d'. split_and!; try done; [by apply (sets_entry bpb n d d' c v)|by apply (sets_keeps d d' c v)].
Qed.

Lemma mask_small c : in_width 28 c -> Z.land c FAT32.ENTRY_MASK = c.
Proof using. intros H. unfold FAT32.ENTRY_MASK. change 268435455 with (Z.ones 28). rewrite Z.land_ones by lia. by apply wrap_small. Qed.

Lemma valid_mask c : valid c -> Z.land c FAT32.ENTRY_MASK = c.
Proof using G. intros Hv. apply mask_small. pose proof (valid_max c Hv). unfold valid, in_width, FAT32.MAX_CLUSTER_COUNT in *. change (2 ^ 28) with 268435456. lia. Qed.

Lemma entry_range d c : in_width 28 (entry d bpb 0 c).
Proof using. unfold entry. rewrite Z.land_comm. apply land_width; [lia|]. by split. Qed.

(** What allocating a cluster [c] behind [last] did. *)
Record allocated d d' (f f' : LocationAwareFileEntry) (last c : Z) : Prop := {
  al_free : c ∈ free_clusters d;
  al_end : MAXC < entry d' bpb 0 c;
  al_link : last <> 0 -> entry d' bpb 0 last = c /\ f' = f;
  al_first : last = 0 -> f' = with_file (with_cluster c) f /\ entry_at d' (location f) = Some (file f')
    /\ forall i, 0 <= i -> 32 * i + 32 <= cs -> i <> entry_idx (location f) ->
         entry_at d' (mkLocation (lcluster (location f)) i) = entry_at d (mkLocation (lcluster (location f)) i);
  al_keeps : keeps d d' (fun x => x = c \/ last <> 0 /\ x = last) (fun x => last = 0 /\ x = lcluster (location f)) }.

Lemma eof_entry d c : entry d bpb 0 c = Z.land FAT32.EOF FAT32.ENTRY_MASK -> MAXC < entry d bpb 0 c.
Proof using. by intros ->. Qed.

Lemma entry_at_keeps d d' S T loc : keeps d d' S T -> valid (lcluster loc) -> ~ T (lcluster loc) -> entry_at d' loc = entry_at d loc.
Proof using. intros [_ H] Hv Hn. unfold entry_at. rewrite H; [done|unfold valid in Hv; lia|done]. Qed.

(** On a working disk with a free cluster allocation takes a free cluster and makes it the end of the
    chain behind [last], or the first cluster of an empty file. *)
Lemma allocate_cluster_result d f last : scan_ok -> working d -> free_clusters d <> [] -> place_ok (location f) -> entry_ok (file f) ->
  last = 0 \/ valid last /\ raw bpb d last <> 0 ->
  exists c f' d', allocate_cluster d bpb f last = Some (c, f', d') /\ working d' /\ allocated d d' f f' last c.
Proof using G.
  intros Hsc Hw Hfr Hpl He Hlast. destruct (find_free_valid d Hsc Hw Hfr) as (c & Ec & Hc). pose proof Hc as [Hv Hz]%elem_of_free.
  assert (0 <= c < n + 2) as Hcr by (unfold valid in Hv; lia). pose proof (valid_max c Hv) as Hcm.
  unfold allocate_cluster. rewrite Ec. cbn [mbind option_bind].
  replace (c =? 0) with false by (symmetry; apply Z.eqb_neq; unfold valid in Hv; lia).
  destruct Hlast as [->|[Hvl Hzl]].
  - cbn [Z.eqb]. set (f1 := with_file (with_cluster c) f).
    destruct (update_result d f1) as (ok & d1 & E1 & Hf1 & Hok1 & Hw1); [done|by apply entry_ok_cluster|].
    destruct (Hw1 Hw) as [-> Hwd1]. destruct (Hok1 eq_refl) as [Hat Hoth]. rewrite E1. cbn [mbind option_bind negb].
    destruct (fat_write_working d1 c fat_get_eof_marker Hcr Hwd1) as (d2 & E2 & Hwd2 & _ & Hent & Hk2).
    rewrite E2. cbn [mbind option_bind]. exists c, f1, d2. split; [done|]. split; [done|].
    destruct Hpl as (Hvp & _). pose proof (data_keeps d d1 (lcluster (location f)) ltac:(unfold valid in Hvp; lia) Hf1) as Hk1.
    constructor; [done|by apply eof_entry|done| |].
    + intros _. split; [done|]. change (location f) with (location f1). rewrite (entry_at_keeps d1 d2 _ _ _ Hk2) by (done || tauto).
      split; [done|]. intros i H1 H2 H3. rewrite (entry_at_keeps d1 d2 _ _ _ Hk2) by (done || tauto). by apply Hoth.
    + eapply keeps_weaken; [by eapply keeps_trans|tauto|tauto].
  - replace (last =? 0) with false by (symmetry; apply Z.eqb_neq; unfold valid in Hvl; lia).
    assert (0 <= last < n + 2) as Hlr by (unfold valid in Hvl; lia). assert (c <> last) as Hne by congruence.
    destruct (fat_write_working d last c Hlr Hw) as (d1 & E1 & Hwd1 & _ & Hent1 & Hk1). rewrite E1. cbn [mbind option_bind negb].
    destruct (fat_write_working d1 c fat_get_eof_marker Hcr Hwd1) as (d2 & E2 & Hwd2 & _ & Hent2 & Hk2). rewrite E2. cbn [mbind option_bind].
    exists c, f, d2. split; [done|]. split; [done|]. constructor; [done|by apply eof_entry| | |].
    + intros _. split; [|done]. rewrite (keeps_entry d1 d2 _ _ last Hk2 Hlr) by congruence. by rewrite Hent1, valid_mask.
    + intros ->. unfold valid in Hvl. lia.
    + eapply keeps_weaken; [by eapply keeps_trans| |]; cbn; unfold valid in Hvl; intros x [?|?]; try tauto. right. split; [lia|done].
Qed.

(** ** Contents and the cursor *)

Definition contents d l : list Z := mjoin (cluster_bytes bpb d <$> l).

Lemma cs_bounds : 1 <= cs < 2 ^ 24.
Proof using G.
  pose proof (cluster_size_range bpb n G). destruct (g_types _ _ G) as [H1 H2]. pose proof (g_cluster _ _ G).
  unfold cluster_size in *. change (2 ^ 16) with 65536 in *. change (2 ^ 8) with 256 in *. change (2 ^ 24) with 16777216.
  split; [done|]. nia.
Qed.

Lemma contents_length d l : length (contents d l) = (length l * Z.to_nat cs)%nat.
Proof using G.
  pose proof cs_bounds. induction l as [|c l IH]; [done|]. change (contents d (c :: l)) with (cluster_bytes bpb d c ++ contents d l).
  cbn [length]. rewrite length_app, IH. unfold cluster_bytes, bytes_of. rewrite length_fmap, length_seqZ. lia.
Qed.

Lemma contents_app d l1 l2 : contents d (l1 ++ l2) = contents d l1 ++ contents d l2.
Proof using. unfold contents. by rewrite fmap_app, join_app. Qed.

(** A range inside one cluster. *)
Lemma contents_segment d l q c off k : l !! q = Some c -> (off + k <= Z.to_nat cs)%nat ->
  take k (drop (q * Z.to_nat cs + off) (contents d l)) = take k (drop off (cluster_bytes bpb d c)).
Proof using G.
  pose proof cs_bounds. intros Hq Hk. rewrite <- (take_drop_middle l q c Hq) at 1. rewrite contents_app.
  pose proof (lookup_lt_Some _ _ _ Hq) as Hlt. pose proof (contents_length d (take q l)) as Hl. rewrite length_take, Nat.min_l in Hl by lia.
  rewrite drop_app_ge by lia. rewrite Hl. change (contents d (c :: drop (S q) l)) with (cluster_bytes bpb d c ++ contents d (drop (S q) l)).
  replace (q * Z.to_nat cs + off - q * Z.to_nat cs)%nat with off by lia.
  assert (length (cluster_bytes bpb d c) = Z.to_nat cs) as Hc by (unfold cluster_bytes, bytes_of; rewrite length_fmap, length_seqZ; lia).
  rewrite drop_app_le, take_app_le by (rewrite ?length_drop; lia). done.
Qed.

(** The cursor of an open file at position [p]: inside a cluster of the chain, or behind the last one. *)
Record cursor (l : list Z) (s : FATNode) (p : Z) : Prop := {
  cu_open : _closed s = false;
  cu_file : node_has_attribute s NFILE = true;
  cu_size : in_width 32 (size_of s) /\ size_of s <= zlen l * cs;
  cu_current : aget l (_processed_clusters s) = Some (_current_cluster s);
  cu_offset : 0 <= _cluster_offset s <= cs;
  cu_last : _cluster_offset s = cs -> _processed_clusters s + 1 = zlen l;
  cu_pos : p = _processed_clusters s * cs + _cluster_offset s;
  cu_range : p <= size_of s }.

Lemma processed_bytes_pos l s p : cursor l s p -> processed_bytes bpb s = p /\ 0 <= p.
Proof using G.
  intros C. destruct C. pose proof cs_bounds as Hcs. apply aget_Some in cu_current0.
  assert (0 <= _processed_clusters s * cs) by nia. pose proof (g_cluster _ _ G). pose proof sector_size_pos. pose proof (g_sector _ _ G) as Hss.
  assert (0 <= _processed_clusters s * bytes_per_sector (BPB bpb) <= _processed_clusters s * cs) by (unfold cluster_size; nia).
  unfold in_width in *. split; [|lia]. unfold processed_bytes.
  rewrite (wrap_small 32 (_ * bytes_per_sector _)) by (unfold in_width; lia).
  replace (_processed_clusters s * bytes_per_sector (BPB bpb) * sectors_per_cluster (BPB bpb)) with (_processed_clusters s * cs) by (unfold cluster_size; lia).
  rewrite (wrap_small 32 (_ * cs)) by (unfold in_width; lia). rewrite wrap_small by (unfold in_width; lia). lia.
Qed.

Lemma has_more_pos l s p : cursor l s p -> has_more bpb s = (p <? size_of s).
Proof using G.
  intros C. unfold has_more. rewrite (cu_open _ _ _ C), (cu_file _ _ _ C). cbn. by rewrite (proj1 (processed_bytes_pos l s p C)).
Qed.

(** Not at the end: the cursor points into its cluster. *)
Lemma cursor_inside l s p : cursor l s p -> p < size_of s -> _cluster_offset s < cs.
Proof using G.
  intros C Hp. destruct C. pose proof cs_bounds. destruct (decide (_cluster_offset s = cs)) as [E|]; [|lia].
  specialize (cu_last0 E). nia.
Qed.

Lemma cursor_step l s p q c off : cursor l s p -> aget l q = Some c -> 0 <= off <= cs -> (off = cs -> q + 1 = zlen l) ->
  p <= q * cs + off <= size_of s -> cursor l (with_cursor q c off s) (q * cs + off).
Proof using. intros [] Hq Ho Hl Hp. constructor; try done. cbn. unfold size_of in *. cbn. lia. Qed.

(** What is copied in one turn. *)
Definition turn (s : FATNode) (p room : Z) : Z := Math.min (Math.min (size_of s - p) room) (cs - _cluster_offset s).

Lemma turn_bounds s p room : p < size_of s -> 0 < room -> _cluster_offset s < cs -> 0 < turn s p room
  /\ turn s p room <= size_of s - p /\ turn s p room <= room /\ _cluster_offset s + turn s p room <= cs
  /\ (_cluster_offset s + turn s p room < cs -> turn s p room = size_of s - p \/ turn s p room = room).
Proof using. intros. unfold turn, Math.min. repeat case_match; bool_prop; lia. Qed.

Lemma slice_nat (buf : list Z) off k : 0 <= off -> 0 <= k -> off + k <= zlen buf ->
  slice buf off k = Some (take (Z.to_nat k) (drop (Z.to_nat off) buf)).
Proof using.
  intros. unfold slice. replace (0 <=? off) with true by (symmetry; apply Z.leb_le; lia).
  replace (0 <=? k) with true by (symmetry; apply Z.leb_le; lia). by replace (off + k <=? zlen buf) with true by (symmetry; apply Z.leb_le; lia).
Qed.

(** Bytes [p] to [p + k] of a list. *)
Definition part (l : list Z) (p k : Z) : list Z := take (Z.to_nat k) (drop (Z.to_nat p) l).

Lemma part_app (l : list Z) p j k : 0 <= p -> 0 <= j -> 0 <= k -> part l p (j + k) = part l p j ++ part l (p + j) k.
Proof using.
  intros. unfold part. rewrite Z2Nat.inj_add by lia. rewrite (Z2Nat.inj_add p j) by lia.
  rewrite <- drop_drop. by rewrite take_take_drop.
Qed.

Lemma read_loop_result d l fuel : working d -> chain d l -> forall s p out room,
  cursor l s p -> zlen out <= room < 2 ^ 63 -> (Z.to_nat (room - zlen out) < fuel)%nat ->
  exists s', read_loop fuel d bpb s out room = Some (true, out ++ part (contents d l) p (Z.min (room - zlen out) (size_of s - p)), s')
    /\ cursor l s' (p + Z.min (room - zlen out) (size_of s - p)) /\ size_of s' = size_of s.
Proof using G.
  intros Hw Hch. induction fuel as [|fuel IH]; intros s p out room C Hroom Hf; [lia|]. cbn [read_loop].
  destruct (processed_bytes_pos l s p C) as [Hpb Hp0]. rewrite (has_more_pos l s p C). pose proof (cu_range _ _ _ C) as Hrange.
  destruct (p <? size_of s) eqn:Em; bool_prop; cycle 1.
  { exists s. cbn. replace (Z.min (room - zlen out) (size_of s - p)) with 0 by lia. rewrite Z.add_0_r. unfold part. cbn. by rewrite app_nil_r. }
  destruct (zlen out <? room) eqn:Er; bool_prop; cycle 1.
  { exists s. cbn. replace (Z.min (room - zlen out) (size_of s - p)) with 0 by lia. rewrite Z.add_0_r. unfold part. cbn. by rewrite app_nil_r. }
  cbn [andb]. pose proof cs_bounds as Hcs. pose proof (zlen_nonneg out) as Hout0. pose proof (cursor_inside l s p C Em) as Hin.
  pose proof (cu_current _ _ _ C) as Hcur. pose proof (aget_Some _ _ _ Hcur) as Hq. destruct (cu_offset _ _ _ C) as [Ho0 _].
  pose proof (cu_pos _ _ _ C) as Hpos. destruct (cu_size _ _ _ C) as [Hsw Hsl]. unfold in_width in Hsw.
  assert (l !! Z.to_nat (_processed_clusters s) = Some (_current_cluster s)) as Hnth by (unfold aget in Hcur; by rewrite decide_True in Hcur by lia).
  destruct (Hch _ _ Hnth) as [Hv Hnext].
  destruct (cluster_read_result bpb n G d (_current_cluster s) Hv) as (ok & buf & -> & Hbuf & Hok). specialize (Hok Hw). subst ok. specialize (Hbuf eq_refl). subst buf.
  cbn [negb]. rewrite Hpb. rewrite (wrap_small 64 (size_of s - p)), (wrap_small 64 (room - zlen out)), (wrap_small 64 (cs - _)) by (unfold in_width; word_lia).
  fold (turn s p (room - zlen out)). set (b := turn _ _ _).
  destruct (turn_bounds s p (room - zlen out)) as (Hb0 & Hb1 & Hb2 & Hb3 & Hb4); [done|lia|done|]. fold b in Hb0, Hb1, Hb2, Hb3, Hb4.
  assert (zlen (cluster_bytes bpb d (_current_cluster s)) = cs) as Hlen by (apply bytes_of_len; lia).
  rewrite slice_nat by lia. cbn [mbind option_bind].
  assert (take (Z.to_nat b) (drop (Z.to_nat (_cluster_offset s)) (cluster_bytes bpb d (_current_cluster s))) = part (contents d l) p b) as ->.
  { unfold part. rewrite <- (contents_segment d l (Z.to_nat (_processed_clusters s))) by (done || lia). f_equal. f_equal. rewrite Hpos. lia. }
  rewrite (wrap_small 32 (_cluster_offset s + b)) by word_lia.
  assert (zlen (out ++ part (contents d l) p b) = zlen out + b) as Hout.
  { rewrite zlen_app. f_equal. unfold part, zlen. rewrite length_take, length_drop, contents_length. unfold zlen in Hsl. nia. }
  set (out' := out ++ part _ p b) in *.
  assert (forall s', size_of s' = size_of s -> cursor l s' (p + b) ->
    exists s2, read_loop fuel d bpb s' out' room = Some (true, out ++ part (contents d l) p (Z.min (room - zlen out) (size_of s - p)), s2)
      /\ cursor l s2 (p + Z.min (room - zlen out) (size_of s - p)) /\ size_of s2 = size_of s) as Hgo.
  { intros s' Hs' C'. destruct (IH s' (p + b) out' room C') as (s2 & -> & C2 & Hs2); [lia|lia|]. exists s2. rewrite Hout, Hs' in *.
    replace (Z.min (room - zlen out) (size_of s - p)) with (b + Z.min (room - (zlen out + b)) (size_of s - (p + b))) by lia.
    rewrite part_app by lia. unfold out'. rewrite <- app_assoc. rewrite Z.add_assoc. done. }
  cbn [_cluster_offset with_cursor]. destruct (cs <=? _cluster_offset s + b) eqn:Ee; bool_prop.
  - cbn [_current_cluster with_cursor]. unfold valid in Hv. destruct (fat_read_result bpb n G d (_current_cluster s)) as (v & -> & _ & Hr); [lia|].
    rewrite (Hr Hw). cbn [mbind option_bind]. change (get_max_cluster_count) with MAXC.
    destruct (l !! S (Z.to_nat (_processed_clusters s))) as [c'|] eqn:En.
    + rewrite Hnext. pose proof (lookup_lt_Some _ _ _ En) as Hlt. destruct (Hch _ _ En) as [Hv' _]. pose proof (valid_max c' Hv').
      replace (MAXC + 1 <=? c') with false by (symmetry; apply Z.leb_gt; lia). cbn [_processed_clusters with_cursor].
      assert (_processed_clusters s + 1 < 2 ^ 32) as Hqs by (unfold zlen in *; nia).
      rewrite (wrap_small 32) by (unfold in_width; lia). apply Hgo; [done|].
      replace (p + b) with ((_processed_clusters s + 1) * cs + 0) by lia.
      apply (cursor_step l s p); [done| |lia|lia|lia]. unfold aget. rewrite decide_True by lia.
      by replace (Z.to_nat (_processed_clusters s + 1)) with (S (Z.to_nat (_processed_clusters s))) by lia.
    + replace (MAXC + 1 <=? _) with true by (symmetry; apply Z.leb_le; lia). apply lookup_ge_None in En.
      assert (_processed_clusters s + 1 = zlen l) as Hlast by (unfold zlen in *; lia).
      assert (b = size_of s - p) as Hb by nia. exists (with_cursor (_processed_clusters s) (_current_cluster s) (_cluster_offset s + b) s).
      replace (Z.min (room - zlen out) (size_of s - p)) with b by lia. split; [done|]. split; [|done].
      replace (p + b) with (_processed_clusters s * cs + (_cluster_offset s + b)) by lia. apply (cursor_step l s p); try done; lia.
  - apply Hgo; [done|]. replace (p + b) with (_processed_clusters s * cs + (_cluster_offset s + b)) by lia.
    apply (cursor_step l s p); try done; lia.
Qed.

Lemma read_result d l s p room : working d -> chain d l -> cursor l s p -> 0 < size_of s -> 0 < room < 2 ^ 63 ->
  exists s', read d bpb s true room = Some (OKAY, part (contents d l) p (Z.min room (size_of s - p)), s')
    /\ cursor l s' (p + Z.min room (size_of s - p)) /\ size_of s' = size_of s.
Proof using G.
  intros Hw Hch C Hsz Hr. unfold read. rewrite (cu_open _ _ _ C), (cu_file _ _ _ C).
  replace (size_of s =? 0) with false by (symmetry; apply Z.eqb_neq; lia). replace (room =? 0) with false by (symmetry; apply Z.eqb_neq; lia).
  cbn [negb]. destruct (read_loop_result d l (S (Z.to_nat room)) Hw Hch s p [] room C) as (s' & E & C' & Hs').
  - change (zlen []) with 0. lia.
  - change (zlen []) with 0. lia.
  - change (zlen []) with 0 in *. rewrite Z.sub_0_r in *. rewrite E. exists s'. done.
Qed.

(** ** Opening and seeking *)

(** A regular file: its entry names the first cluster of the chain, which holds all its bytes. *)
Record file_on (l : list Z) (e : LocationAwareFileEntry) : Prop := {
  fo_attr : has_attribute (file e) ARCHIVE = true;
  fo_size : in_width 32 (file_size (file e)) /\ file_size (file e) <= zlen l * cs;
  fo_first : head l = Some (cluster (file e)) }.

Lemma valid_is_cluster c : valid c -> is_cluster c = true.
Proof using G.
  intros Hv. pose proof (valid_max c Hv). unfold is_cluster. change get_max_cluster_count with MAXC. unfold valid in Hv.
  replace (c =? 0) with false by (symmetry; apply Z.eqb_neq; lia). replace (c <? MAXC + 1) with true by (symmetry; apply Z.ltb_lt; lia). done.
Qed.

Lemma end_not_cluster c : MAXC < c -> is_cluster c = false.
Proof using.
  intros Hc. unfold is_cluster. change get_max_cluster_count with MAXC.
  replace (c <? MAXC + 1) with false by (symmetry; apply Z.ltb_ge; lia). by rewrite andb_false_r.
Qed.

Lemma fat_read_working d c : working d -> valid c -> fat_read d bpb c = Some (entry d bpb 0 c).
Proof using G.
  intros Hw Hv. destruct (fat_read_result bpb n G d c) as (v & -> & _ & Hr); [unfold valid in Hv; lia|]. by rewrite (Hr Hw).
Qed.

(** The walk over a chain finds its last cluster and its length. *)
Lemma walk_chain_result d l : working d -> chain d l -> forall k i c x, l !! k = Some c -> i = Z.of_nat k -> zlen l < 2 ^ 32 ->
  forall fuel, (length l - k < fuel)%nat -> last l = Some x -> forall y, walk_chain fuel d bpb c y i = Some (x, zlen l).
Proof using G.
  intros Hw Hch k. remember (length l - k)%nat as m eqn:Em. revert k Em. induction m as [|m IH]; intros k Em i c x Hk Hi Hlen fuel Hf Hx y.
  { pose proof (lookup_lt_Some _ _ _ Hk). lia. }
  destruct fuel as [|fuel]; [lia|]. cbn [walk_chain]. destruct (Hch k c Hk) as [Hv Hn]. rewrite (valid_is_cluster c Hv).
  rewrite (fat_read_working d c Hw Hv). cbn [mbind option_bind]. pose proof (lookup_lt_Some _ _ _ Hk) as Hlt.
  rewrite (wrap_small 32) by (unfold in_width, zlen in *; lia). destruct (l !! S k) as [c'|] eqn:En.
  - rewrite Hn. apply (IH (S k)); try done; lia.
  - apply lookup_ge_None in En. destruct fuel as [|fuel]; [lia|]. cbn [walk_chain]. rewrite end_not_cluster by done.
    assert (k = pred (length l)) as -> by lia. rewrite last_lookup in Hx. rewrite Hk in Hx. simplify_eq. do 2 f_equal. unfold zlen. lia.
Qed.

Lemma open_result d l e mode : working d -> chain d l -> file_on l e -> zlen l < 2 ^ 32 -> mode <> APPEND ->
  exists s, open (S (length l)) d bpb mode e = Some s /\ cursor l s 0 /\ size_of s = file_size (file e) /\ _node_io_mode s = mode.
Proof using G.
  intros Hw Hch F Hlen Hm. destruct F as [Fa [Fs1 Fs2] Ff]. destruct l as [|c l]; [done|]. cbn in Ff. injection Ff as ->.
  unfold open, init_file_cursor. cbn [_file_entry _node_io_mode].
  destruct (last (cluster (file e) :: l)) as [x|] eqn:Ex; [|by apply last_None in Ex].
  rewrite (walk_chain_result d (cluster (file e) :: l) Hw Hch 0 0 _ x) by (done || cbn; lia). cbn [mbind option_bind].
  exists (with_cursor 0 (cluster (file e)) 0 (mkNode false mode e 0 0 0)). split; [by destruct mode|]. split; [|done].
  pose proof cs_bounds. unfold in_width in Fs1. constructor; unfold size_of; cbn; try done; lia.
Qed.

Lemma seek_loop_result d l : working d -> chain d l -> forall fuel q c r s p, cursor l s p ->
  l !! q = Some c -> _processed_clusters s = Z.of_nat q -> _current_cluster s = c -> _cluster_offset s = 0 ->
  0 <= r -> Z.of_nat q * cs + r < size_of s -> (Z.to_nat (r / cs) + 1 < fuel)%nat ->
  exists s', seek_loop fuel d bpb s c r = Some s' /\ cursor l s' (Z.of_nat q * cs + r) /\ size_of s' = size_of s.
Proof using G.
  intros Hw Hch fuel. induction fuel as [|fuel IH]; intros q c r s p C Hq Hp Hc Ho Hr Hlt Hf; [lia|]. cbn [seek_loop].
  pose proof cs_bounds as Hcs. pose proof (lookup_lt_Some _ _ _ Hq) as Hql. destruct (cu_size _ _ _ C) as [Hsw Hsl]. unfold in_width in Hsw.
  assert (aget l (Z.of_nat q) = Some c) as Haq by (unfold aget; rewrite decide_True by lia; by rewrite Nat2Z.id).
  destruct (0 <? r) eqn:E0; bool_prop; cycle 1.
  { exists s. replace (Z.of_nat q * cs + r) with p by (rewrite (cu_pos _ _ _ C), Hp, Ho; lia). done. }
  destruct (r <? cs) eqn:Er; bool_prop.
  - rewrite (wrap_small 32 r) by (unfold in_width; word_lia). destruct fuel as [|fuel]; [lia|]. cbn [seek_loop].
    rewrite Hp, Hc. eexists. split; [done|]. split; [|done].
    destruct C as [Co Cf Cs _ _ _ _ _]. constructor; cbn [with_cursor _closed _processed_clusters _current_cluster _cluster_offset]; try done; unfold size_of in *; cbn; lia.
  - destruct (Hch q c Hq) as [Hv Hn]. rewrite (fat_read_working d c Hw Hv). cbn [mbind option_bind].
    destruct (l !! S q) as [c'|] eqn:En; cycle 1.
    { apply lookup_ge_None in En. unfold zlen in Hsl. nia. }
    rewrite Hn. rewrite Hp. assert (Z.of_nat q + 1 < 2 ^ 32) as Hqb by nia. rewrite (wrap_small 32) by (unfold in_width; lia).
    assert (aget l (Z.of_nat q + 1) = Some c') as Haq' by (unfold aget; rewrite decide_True by lia; by replace (Z.to_nat (Z.of_nat q + 1)) with (S q) by lia).
    destruct (IH (S q) c' (r - cs) (with_cursor (Z.of_nat q + 1) c' 0 s) ((Z.of_nat q + 1) * cs + 0)) as (s' & -> & C' & Hs'); try done.
    + destruct C as [Co Cf Cs _ _ _ _ _]. constructor; cbn [with_cursor _closed _processed_clusters _current_cluster _cluster_offset]; try done; unfold size_of in *; cbn in *; lia.
    + cbn [with_cursor _processed_clusters]. lia.
    + lia.
    + unfold size_of in *. cbn. lia.
    + replace ((r - cs) / cs) with (r / cs - 1) by (replace (r - cs) with (r + (-1) * cs) by lia; rewrite Z.div_add; lia).
      assert (1 <= r / cs) by (apply Z.div_le_lower_bound; lia). lia.
    + exists s'. split; [done|]. split; [|done]. by replace (Z.of_nat q * cs + r) with (Z.of_nat (S q) * cs + (r - cs)) by lia.
Qed.
End disk.
End FileProps.
