(* ===== verification/FatWriteProps.v ===== *)
(** * Writing to the end of a FAT file

    The loop of [FATNode::write] at the end of a file: the chain grows by the clusters the data needs, the
    bytes behind the old contents are the data, and nothing of the rest of the volume changes. *)

From S2P Require Import Prelude Kre KString KStringProps FatVolume FatVolumeProps FatFile FatFileProps.

Module WriteProps.
Import KString StrProps LeProps Fat VolumeProps Entry Manager Node FileProps.

Section disk.
Context {D : Type} `{MD : MassStorage D} `{!Disk D}.
Context (bpb : BootRecord32) (n : Z) (G : geometry bpb n) (SC : scan_ok bpb n).
Implicit Types (d : D) (l : list Z).
#[local] Abbreviation cs := (cluster_size bpb).
#[local] Abbreviation MAXC := FAT32.MAX_CLUSTER_COUNT.

(** The number of clusters that hold [w] bytes. *)
Definition clusters_for (w : Z) : Z := (w + cs - 1) / cs.

Lemma clusters_for_bounds w : 0 <= w -> 0 <= clusters_for w /\ w <= clusters_for w * cs < w + cs.
Proof using G.
  intros Hw. pose proof (cs_bounds bpb n G) as Hcs. unfold clusters_for.
  pose proof (Z.div_mod (w + cs - 1) cs ltac:(lia)). pose proof (Z.mod_pos_bound (w + cs - 1) cs ltac:(lia)).
  assert (0 <= (w + cs - 1) / cs) by (apply Z.div_pos; lia). split; [done|]. nia.
Qed.

Lemma clusters_for_unique w k : 0 <= w -> w <= k * cs < w + cs -> clusters_for w = k.
Proof using G.
  intros Hw Hk. pose proof (cs_bounds bpb n G). symmetry. unfold clusters_for. apply (Z.div_unique_pos _ _ _ (w + cs - 1 - k * cs)); lia.
Qed.

(** The cursor of a file whose chain [l] holds exactly [w] bytes. *)
Record tail (l : list Z) (s : FATNode) (w : Z) : Prop := {
  tl_len : zlen l = clusters_for w;
  tl_processed : _processed_clusters s = w / cs;
  tl_offset : _cluster_offset s = w mod cs;
  tl_current : _current_cluster s = default 0 (last l) }.

(** The file entry of an open file: its place is in a directory cluster that is not part of the file. *)
Record entry_of (d : D) (l : list Z) (f : LocationAwareFileEntry) : Prop := {
  en_place : place_ok bpb n (location f);
  en_entry : entry_ok (file f);
  en_dir : raw bpb d (lcluster (location f)) <> 0 /\ lcluster (location f) ∉ l;
  en_first : cluster (file f) = default 0 (head l) }.

(** What a write to the file [l] keeps of the volume: the FAT entries and contents of the clusters other
    files use, and the other file entries in the directory. *)
Definition frame d d' l (loc : FileEntryLocation) : Prop :=
  (forall c, valid n c -> raw bpb d c <> 0 -> c ∉ l ->
     raw bpb d' c = raw bpb d c /\ (c <> lcluster loc -> cluster_bytes bpb d' c = cluster_bytes bpb d c))
  /\ (forall i, 0 <= i -> 32 * i + 32 <= cs -> i <> entry_idx loc ->
        entry_at bpb d' (mkLocation (lcluster loc) i) = entry_at bpb d (mkLocation (lcluster loc) i)).

(** The clusters [l'] of a grown file were its own or free. *)
Definition grown d l l' : Prop := forall c, c ∈ l' -> c ∈ l \/ raw bpb d c = 0.

Lemma frame_refl d l loc : frame d d l loc.
Proof using. by split. Qed.

Lemma frame_trans d1 d2 d3 l l' loc : frame d1 d2 l loc -> grown d1 l l' -> frame d2 d3 l' loc -> frame d1 d3 l loc.
Proof using.
  intros [H1 H2] Hg [H3 H4]. split.
  - intros c Hv Hz Hn. destruct (H1 c Hv Hz Hn) as [Hr Hb]. destruct (H3 c Hv) as [Hr' Hb'].
    + by rewrite Hr.
    + intros Hin. by destruct (Hg c Hin).
    + split; [by rewrite Hr'|]. intros Hne. by rewrite Hb', Hb.
  - intros i H5 H6 H7. by rewrite H4, H2.
Qed.


(** The parts of an open file a cursor move does not touch. *)
Definition same_file (s s' : FATNode) : Prop :=
  _closed s' = _closed s /\ _node_io_mode s' = _node_io_mode s /\ size_of s' = size_of s
  /\ attributes (file (_file_entry s')) = attributes (file (_file_entry s)) /\ location (_file_entry s') = location (_file_entry s).

Lemma same_file_trans s1 s2 s3 : same_file s1 s2 -> same_file s2 s3 -> same_file s1 s3.
Proof using. intros (?&?&?&?&?) (?&?&?&?&?). split_and!; congruence. Qed.

Lemma zlen_nat {A} (l : list A) k : zlen l = k -> length l = Z.to_nat k.
Proof using. unfold zlen. lia. Qed.

Lemma contents_zlen d l : zlen (contents bpb d l) = zlen l * cs.
Proof using G. pose proof (cs_bounds bpb n G). unfold zlen. rewrite (contents_length bpb n G). lia. Qed.

Lemma contents_same d d' l : (forall c, c ∈ l -> cluster_bytes bpb d' c = cluster_bytes bpb d c) -> contents bpb d' l = contents bpb d l.
Proof using.
  intros H. unfold contents. f_equal. apply list_fmap_ext. intros i c Hc. apply H. by apply list_elem_of_lookup_2 in Hc.
Qed.

(** Taking a free cluster costs at most one. *)
Lemma free_after d d' c (S T : Z -> Prop) : keeps bpb n d d' S T -> (forall x, S x -> x = c \/ raw bpb d x <> 0) ->
  zlen (free_clusters bpb n d) <= zlen (free_clusters bpb n d') + 1.
Proof using.
  intros [Hk _] HS. assert (free_clusters bpb n d ⊆+ c :: free_clusters bpb n d') as Hsub.
  { apply NoDup_submseteq; [apply NoDup_filter, NoDup_seqZ|]. intros x Hx. apply elem_of_free in Hx as [Hv Hz].
    destruct (decide (x = c)) as [->|Hne]; [left|]. right. apply elem_of_free. split; [done|]. rewrite Hk; [done|unfold valid in Hv; lia|].
    intros Hs. destruct (HS x Hs); congruence. }
  apply submseteq_length in Hsub. unfold zlen. cbn in Hsub. lia.
Qed.

Lemma head_snoc (l : list Z) c : head (l ++ [c]) = Some (default c (head l)).
Proof using. by destruct l. Qed.

Lemma grow_test s w l : tail l s w -> 0 <= size_of s <= w -> size_of s + cs <= 2 ^ 32 -> w mod cs = 0 \/ w = size_of s ->
  (forall c, c ∈ l -> c <> 0) ->
  (if _current_cluster s =? 0 then Some true else q ← Math.div_round_up 32 (size_of s) (u32 cs); Some (q <=? _processed_clusters s))
  = Some (bool_decide (w mod cs = 0)).
Proof using G.
  intros [Hlen Hp Ho Hc] Hsz Hcap Hw Hnz. pose proof (cs_bounds bpb n G) as Hcs.
  pose proof (Z.div_mod w cs ltac:(lia)) as Hdm. pose proof (Z.mod_pos_bound w cs ltac:(lia)) as Hmb.
  destruct (clusters_for_bounds w ltac:(lia)) as [Hk0 Hk].
  destruct (_current_cluster s =? 0) eqn:E; bool_prop.
  - destruct (last l) as [x|] eqn:El; cbn in Hc.
    + exfalso. apply (Hnz x); [|congruence]. rewrite last_lookup in El. by apply list_elem_of_lookup_2 in El.
    + apply last_None in El. subst l. change (zlen []) with 0 in Hlen. rewrite bool_decide_true; [done|].
      assert (w = 0) as -> by nia. apply Z.mod_0_l. lia.
  - rewrite (wrap_small 32 cs) by (unfold in_width; word_lia). unfold Math.div_round_up. rewrite decide_False by lia. cbn [mbind option_bind].
    rewrite wrap_small by (unfold in_width; lia). fold (clusters_for (size_of s)). rewrite Hp. f_equal.
    destruct (clusters_for_bounds (size_of s) ltac:(lia)) as [Hj0 Hj]. apply eq_true_iff_eq. rewrite Z.leb_le, bool_decide_eq_true. split.
    + intros Hle. destruct Hw as [|Hw]; [done|]. subst w. assert (clusters_for (size_of s) * cs <= size_of s / cs * cs) by nia. nia.
    + intros Hz. assert (clusters_for (size_of s) * cs < w / cs * cs + cs) by nia. nia.
Qed.

(** After [grow] the cursor points into the last cluster of the chain. *)
Record grown_to d d' l l' (s s' : FATNode) (w : Z) : Prop := {
  gt_working : working d';
  gt_chain : chain bpb n d' l';
  gt_entry : entry_of d' l' (_file_entry s');
  gt_last : last l' = Some (_current_cluster s');
  gt_contents : take (Z.to_nat w) (contents bpb d' l') = take (Z.to_nat w) (contents bpb d l);
  gt_len : zlen l' = w / cs + 1;
  gt_cursor : _processed_clusters s' = w / cs /\ _cluster_offset s' = w mod cs;
  gt_same : same_file s s';
  gt_frame : frame d d' l (location (_file_entry s));
  gt_grown : grown d l l';
  gt_free : zlen (free_clusters bpb n d) + zlen l <= zlen (free_clusters bpb n d') + zlen l' }.

Lemma grow_keep d l s w : working d -> chain bpb n d l -> entry_of d l (_file_entry s) -> tail l s w -> 0 <= w -> w mod cs <> 0 ->
  grown_to d d l l s s w.
Proof using G.
  intros Hw Hch He [Hlen Hp Ho Hc] Hw0 Hm. pose proof (cs_bounds bpb n G) as Hcs.
  pose proof (Z.div_mod w cs ltac:(lia)) as Hdm. pose proof (Z.mod_pos_bound w cs ltac:(lia)) as Hmb.
  assert (clusters_for w = w / cs + 1) as Hcf by (apply clusters_for_unique; [done|nia]).
  assert (last l = Some (_current_cluster s)) as Hl.
  { destruct (last l) eqn:E; cbn in Hc; [congruence|]. apply last_None in E. subst l. change (zlen []) with 0 in Hlen.
    assert (0 <= w / cs) by (apply Z.div_pos; lia). lia. }
  constructor; try done; [lia|intros x Hx; by left].
Qed.

Lemma grow_new d l s w c f' d' : working d -> chain bpb n d l -> entry_of d l (_file_entry s) -> tail l s w -> 0 <= w -> w mod cs = 0 ->
  working d' -> allocated bpb n d d' (_file_entry s) f' (_current_cluster s) c ->
  grown_to d d' l (l ++ [c]) s (with_cursor (_processed_clusters s) c (_cluster_offset s) (with_entry f' s)) w.
Proof using G.
  intros Hw Hch He [Hlen Hp Ho Hc] Hw0 Hm Hw' [Hfree Hend Hlink Hfirst Hk].
  destruct He as [Hpl Hen [Hdz Hdl] Hhd]. pose proof Hpl as (Hvd & _). pose proof Hfree as [Hv Hz]%elem_of_free.
  pose proof (cs_bounds bpb n G) as Hcs. pose proof (Z.div_mod w cs ltac:(lia)) as Hdm.
  assert (clusters_for w = w / cs) as Hcf by (apply clusters_for_unique; [done|nia]).
  assert (c ∉ l) as Hcl by (intros Hin; by apply (chain_nonzero bpb n G d l c Hch)).
  assert (lcluster (location (_file_entry s)) <> c) as Hdc by congruence.
  assert (l = [] /\ _current_cluster s = 0 \/ exists l0, l = l0 ++ [_current_cluster s] /\ _current_cluster s <> 0 /\ valid n (_current_cluster s)
    /\ raw bpb d (_current_cluster s) <> 0) as Hcase.
  { destruct l as [|x l0 _] using rev_ind; [left; split; [done|exact Hc]|right]. rewrite last_snoc in Hc. cbn in Hc. subst x.
    assert (_current_cluster s ∈ l0 ++ [_current_cluster s]) as Hin by (apply elem_of_app; right; by left).
    pose proof (chain_valid bpb n d _ _ Hch Hin) as Hvc. exists l0. split; [done|]. split; [unfold valid in Hvc; lia|]. split; [done|].
    by apply (chain_nonzero bpb n G d _ _ Hch). }
  assert (chain bpb n d' (l ++ [c])) as Hch'.
  { destruct Hcase as [[-> _]|(l0 & El & Hnz & Hvc & _)].
    - intros [|i] x Hx; [|by destruct i]. cbn in Hx. injection Hx as <-. by split.
    - rewrite El, <- app_assoc. destruct (Hlink Hnz) as [Hl _]. apply (chain_snoc bpb n d); [by rewrite <- El|done| |done|by rewrite Hl in *].
      intros y Hy. assert (y ∈ l) as Hyl by (rewrite El; apply elem_of_app; by left).
      pose proof (chain_valid bpb n d l y Hch Hyl) as Hvy.
      apply (keeps_entry bpb n d d' _ _ y Hk); [unfold valid in Hvy; lia|].
      pose proof (clusters_nodup bpb n G d l Hch) as Hnd. rewrite El in Hnd. apply NoDup_app in Hnd as (_ & Hnd & _).
      intros [->|[_ ->]]; [done|]. apply (Hnd _ Hy). by left. }
  assert (forall x, x ∈ l -> cluster_bytes bpb d' x = cluster_bytes bpb d x) as Hdata.
  { intros x Hx. destruct Hk as [_ Hk]. pose proof (chain_valid bpb n d l x Hch Hx) as Hvx. apply Hk; [unfold valid in Hvx; lia|].
    intros [_ ->]. by apply Hdl. }
  assert (in_width 32 c) as Hc32 by (pose proof (valid_max bpb n G c Hv); unfold valid, in_width, FAT32.MAX_CLUSTER_COUNT in *; change (2 ^ 32) with 4294967296; lia).
  assert (f' = _file_entry s \/ f' = with_file (with_cluster c) (_file_entry s)) as Hf'.
  { destruct (decide (_current_cluster s = 0)) as [E|E]; [right; by apply Hfirst|left; by apply Hlink]. }
  assert (location f' = location (_file_entry s) /\ file_size (file f') = file_size (file (_file_entry s))
    /\ attributes (file f') = attributes (file (_file_entry s)) /\ entry_ok (file f')) as (Hloc & Hsz & Hat & Hok).
  { destruct Hf' as [->| ->]; [done|]. split_and!; try done. by apply entry_ok_cluster. }
  constructor; cbn [with_cursor with_entry _file_entry _current_cluster _processed_clusters _cluster_offset]; try done.
  - constructor; [by rewrite Hloc|done| |].
    + rewrite Hloc. split.
      * destruct Hk as [Hk _]. rewrite Hk; [done|unfold valid in Hvd; lia|].
        intros [E1|[Hn E1]]; [done|]. destruct Hcase as [[_ E]|(l0 & El & _)]; [congruence|]. apply Hdl. rewrite E1, El. apply elem_of_app. right. by left.
      * intros [Hin|Hin]%elem_of_app; [done|]. by apply list_elem_of_singleton in Hin.
    + rewrite head_snoc. cbn. destruct Hcase as [[-> E]|(l0 & El & Hnz & _)]; cbn.
      * destruct (Hfirst E) as (-> & _). by apply cluster_with.
      * destruct (Hlink Hnz) as [_ ->]. rewrite Hhd. by destruct l; [destruct l0|].
  - by rewrite last_snoc.
  - rewrite contents_app, (contents_same d d' l Hdata), take_app_le; [done|].
    pose proof (contents_zlen d l) as Hz'. unfold zlen in Hz'. unfold zlen in Hlen. nia.
  - rewrite zlen_app. change (zlen [c]) with 1. lia.
  - split.
    + intros x Hvx Hzx Hnx. destruct Hk as [Hk1 Hk2]. split.
      * apply Hk1; [unfold valid in Hvx; lia|]. intros [E1|[Hn E1]]; [congruence|]. destruct Hcase as [[_ E]|(l0 & El & _)]; [congruence|].
        apply Hnx. rewrite E1, El. apply elem_of_app. right. by left.
      * intros Hne. apply Hk2; [unfold valid in Hvx; lia|]. by intros [_ ->].
    + intros i H1 H2 H3. destruct (decide (_current_cluster s = 0)) as [E|E]; [by apply Hfirst|].
      apply (entry_at_keeps bpb n d d' _ _ _ Hk); [done|]. by intros [? _].
  - intros x [Hx|Hx]%elem_of_app; [by left|]. apply list_elem_of_singleton in Hx. subst x. by right.
  - rewrite zlen_app. change (zlen [c]) with 1. pose proof (free_after d d' c _ _ Hk) as Hfa.
    assert (zlen (free_clusters bpb n d) <= zlen (free_clusters bpb n d') + 1); [|lia]. apply Hfa.
    intros x [->|[Hn ->]]; [by left|right]. by destruct Hcase as [[_ E]|(l0 & _ & _ & _ & Hr)].
Qed.

Lemma grow_result d l s w : working d -> chain bpb n d l -> entry_of d l (_file_entry s) -> tail l s w ->
  0 <= size_of s <= w -> size_of s + cs <= 2 ^ 32 -> w mod cs = 0 \/ w = size_of s -> free_clusters bpb n d <> [] \/ w mod cs <> 0 ->
  exists l' s' d', grow d bpb s = Some (s', d') /\ grown_to d d' l l' s s' w.
Proof using G SC.
  intros Hw Hch He Ht Hsz Hcap Hor Hfr. unfold grow.
  rewrite (grow_test s w l Ht Hsz Hcap Hor) by (intros c Hc ->; pose proof (chain_valid bpb n d l 0 Hch Hc) as Hv; unfold valid in Hv; lia).
  cbn [mbind option_bind]. case_bool_decide as Hm; cycle 1.
  { exists l, s, d. split; [done|]. apply grow_keep; try done. lia. }
  destruct Hfr as [Hfr|]; [|done]. pose proof He as [Hpl Hen _ _].
  destruct (allocate_cluster_result bpb n G d (_file_entry s) (_current_cluster s) SC Hw Hfr Hpl Hen) as (c & f' & d' & -> & Hw' & Hal).
  { destruct Ht as [_ _ _ Hc]. destruct (last l) as [x|] eqn:E; cbn in Hc; [right|by left]. rewrite Hc.
    rewrite last_lookup in E. apply list_elem_of_lookup_2 in E. split; [by apply (chain_valid bpb n d l)|by apply (chain_nonzero bpb n G d l)]. }
  cbn [mbind option_bind]. eexists _, _, d'. split; [done|]. apply grow_new; try done. lia.
Qed.

(** ** Storing data in the last cluster *)

Lemma free_kept d d' (T : Z -> Prop) : keeps bpb n d d' (fun _ => False) T -> zlen (free_clusters bpb n d) <= zlen (free_clusters bpb n d').
Proof using.
  intros [Hk _]. assert (free_clusters bpb n d ⊆+ free_clusters bpb n d') as Hsub.
  { apply NoDup_submseteq; [apply NoDup_filter, NoDup_seqZ|]. intros x Hx. apply elem_of_free in Hx as [Hv Hz]. apply elem_of_free.
    split; [done|]. rewrite Hk; [done|unfold valid in Hv; lia|tauto]. }
  apply submseteq_length in Hsub. unfold zlen. lia.
Qed.

Lemma zlen_zeros k : 0 <= k -> zlen (zeros k) = k.
Proof using. intros. unfold zeros, zlen. rewrite length_replicate. lia. Qed.

Lemma fill_result d s (wipe : bool) c (data : list Z) : 0 <= _cluster_offset s -> _cluster_offset s + zlen data <= cs ->
  (wipe = true -> _cluster_offset s = 0) -> Forall (in_width 8) data ->
  exists rest, fill_cluster bpb s wipe (cluster_bytes bpb d c) data
      = Some (take (Z.to_nat (_cluster_offset s)) (cluster_bytes bpb d c) ++ data ++ rest)
    /\ zlen (take (Z.to_nat (_cluster_offset s)) (cluster_bytes bpb d c)) = _cluster_offset s
    /\ _cluster_offset s + zlen data + zlen rest = cs /\ Forall (in_width 8) rest.
Proof using G.
  intros Ho Hfit Hwipe Hb. pose proof (cs_bounds bpb n G) as Hcs. pose proof (zlen_nonneg data) as Hd0.
  unfold cluster_bytes, fill_cluster. set (a := cluster_addr bpb c). set (off := _cluster_offset s) in *.
  rewrite (bytes_of_split d a cs off (zlen data)) by lia.
  set (l1 := bytes_of d a off). set (l2 := bytes_of d (a + off) (zlen data)). set (l3 := bytes_of d (a + off + zlen data) _).
  assert (zlen l1 = off) as E1 by (apply bytes_of_len; lia). assert (zlen l2 = zlen data) as E2 by (apply bytes_of_len; lia).
  assert (zlen l3 = cs - off - zlen data) as E3 by (apply bytes_of_len; lia).
  assert (take (Z.to_nat off) (l1 ++ l2 ++ l3) = l1) as Et by (rewrite <- E1; unfold zlen; by rewrite Nat2Z.id, take_app_length).
  pose proof (write_at_mid l1 l2 data l3 E2) as Hw. rewrite E1 in Hw. rewrite Hw. cbn [mbind option_bind]. rewrite Et.
  destruct wipe.
  - specialize (Hwipe eq_refl). assert (l1 = []) as -> by (destruct l1; [done|unfold zlen in E1; cbn in E1; lia]). cbn [app].
    exists (zeros (cs - zlen data)). pose proof (write_at_mid data l3 (zeros (cs - zlen data)) []) as Hz. rewrite !app_nil_r in Hz.
    rewrite Hz by (rewrite zlen_zeros; lia). split; [done|]. rewrite zlen_zeros by lia. split; [done|]. split; [lia|].
    unfold zeros. apply Forall_replicate. by split.
  - exists l3. split; [done|]. split; [done|]. split; [lia|]. apply bytes_of_width.
Qed.

(** What storing [data] at position [w] does. *)
Record stored d d' l (f : LocationAwareFileEntry) (w : Z) (data : list Z) : Prop := {
  st_working : working d';
  st_chain : chain bpb n d' l;
  st_entry : entry_of d' l f;
  st_contents : take (Z.to_nat (w + zlen data)) (contents bpb d' l) = take (Z.to_nat w) (contents bpb d l) ++ data;
  st_frame : frame d d' l (location f);
  st_free : zlen (free_clusters bpb n d) <= zlen (free_clusters bpb n d') }.

Lemma store_result d l s w (wipe : bool) (data : list Z) :
  working d -> chain bpb n d l -> entry_of d l (_file_entry s) -> last l = Some (_current_cluster s) -> zlen l = w / cs + 1 ->
  _cluster_offset s = w mod cs -> 0 <= w -> w mod cs + zlen data <= cs -> (wipe = true -> w mod cs = 0) -> Forall (in_width 8) data ->
  exists w_buf d', fill_cluster bpb s wipe (cluster_bytes bpb d (_current_cluster s)) data = Some w_buf
    /\ data_cluster_write d bpb w_buf (_current_cluster s) = (true, d') /\ stored d d' l (_file_entry s) w data.
Proof using G.
  intros Hw Hch He Hlast Hlen Ho Hw0 Hfit Hwipe Hb. pose proof (cs_bounds bpb n G) as Hcs. pose proof (zlen_nonneg data) as Hd0.
  pose proof (Z.div_mod w cs ltac:(lia)) as Hdm. pose proof (Z.mod_pos_bound w cs ltac:(lia)) as Hmb.
  set (c := _current_cluster s) in *.
  destruct (fill_result d s wipe c data) as (rest & Ef & Et & El & Hrest); [lia|lia|by rewrite Ho|done|].
  set (l1 := take _ (cluster_bytes bpb d c)) in *. eexists. assert (l <> []) as Hne by (by intros ->).
  destruct (exists_last Hne) as (l0 & x & ->). rewrite last_snoc in Hlast. injection Hlast as ->.
  assert (c ∈ l0 ++ [c]) as Hcin by (apply elem_of_app; right; by left).
  pose proof (chain_valid bpb n d _ c Hch Hcin) as Hv. assert (c ∉ l0) as Hcl0.
  { pose proof (clusters_nodup bpb n G d _ Hch) as Hnd. apply NoDup_app in Hnd as (_ & Hnd & _). intros Hin. apply (Hnd c Hin). by left. }
  assert (Forall (in_width 8) (l1 ++ data ++ rest)) as Hbytes.
  { rewrite !Forall_app. split; [|done]. apply Forall_take. apply bytes_of_width. }
  destruct (cluster_write_result bpb n G d (l1 ++ data ++ rest) c Hv) as (ok & d' & Ew & Hst & Hfr & Hwk); [rewrite !zlen_app; lia|done|].
  destruct (Hwk Hw) as [-> Hw']. specialize (Hst eq_refl). exists d'. split; [exact Ef|]. split; [exact Ew|].
  assert (2 <= c) as Hc2 by (unfold valid in Hv; lia). pose proof (data_keeps bpb n G d d' c Hc2 Hfr) as Hk.
  assert (forall y, y ∈ l0 -> cluster_bytes bpb d' y = cluster_bytes bpb d y) as Hsame.
  { intros y Hy. destruct Hk as [_ Hk]. assert (y ∈ l0 ++ [c]) as Hyl by (apply elem_of_app; by left).
    pose proof (chain_valid bpb n d _ y Hch Hyl) as Hvy. apply Hk; [unfold valid in Hvy; lia|]. by intros ->. }
  rewrite zlen_app in Hlen. change (zlen [c]) with 1 in Hlen.
  pose proof (contents_zlen d l0) as HX. set (X := contents bpb d l0) in *. replace (zlen l0) with (w / cs) in HX by lia.
  assert (take (Z.to_nat w) (contents bpb d (l0 ++ [c])) = X ++ l1) as Eold.
  { rewrite contents_app. fold X. replace (Z.to_nat w) with (length X + Z.to_nat (_cluster_offset s))%nat by (unfold zlen in HX; lia).
    rewrite take_app_add. change (contents bpb d [c]) with (cluster_bytes bpb d c ++ []). by rewrite app_nil_r. }
  destruct He as [Hpl Hen [Hdz Hdl] Hhd]. pose proof Hpl as (Hvd & _).
  constructor; try done.
  - apply (clusters_frame bpb n d d'); [done|]. intros y Hy. apply (keeps_entry bpb n d d' _ _ y Hk); [|tauto].
    pose proof (chain_valid bpb n d _ y Hch Hy) as Hvy. unfold valid in Hvy. lia.
  - constructor; try done. split; [|done]. destruct Hk as [Hk _]. rewrite Hk; [done|unfold valid in Hvd; lia|tauto].
  - rewrite Eold. rewrite contents_app, (contents_same d d' l0 Hsame). fold X. change (contents bpb d' [c]) with (cluster_bytes bpb d' c ++ []).
    rewrite app_nil_r, Hst. replace (Z.to_nat (w + zlen data)) with (length (X ++ l1 ++ data)) by (rewrite !length_app; unfold zlen in HX, Et |- *; lia).
    replace (X ++ l1 ++ data ++ rest) with ((X ++ l1 ++ data) ++ rest) by (by rewrite <- !app_assoc).
    rewrite take_app_length. by rewrite app_assoc.
  - split.
    + intros y Hvy Hzy Hny. destruct Hk as [Hk1 Hk2]. split; [apply Hk1; [unfold valid in Hvy; lia|tauto]|].
      intros _. apply Hk2; [unfold valid in Hvy; lia|]. intros ->. done.
    + intros i H1 H2 H3. apply (entry_at_keeps bpb n d d' _ _ _ Hk); [done|]. cbn. intros E. apply Hdl. by rewrite E.
  - by apply (free_kept d d' _ Hk).
Qed.

(** ** The loop *)

Lemma advance_result d l s w b : working d -> chain bpb n d l -> last l = Some (_current_cluster s) -> zlen l = w / cs + 1 ->
  _processed_clusters s = w / cs -> _cluster_offset s = w mod cs -> 0 <= w -> w + b < 2 ^ 32 -> 0 < b -> w mod cs + b <= cs ->
  exists s', advance d bpb s b = Some s' /\ tail l s' (w + b) /\ same_file s s' /\ _file_entry s' = _file_entry s.
Proof using G.
  intros Hw Hch Hlast Hlen Hp Ho Hw0 Hw32 Hb Hfit. pose proof (cs_bounds bpb n G) as Hcs.
  pose proof (Z.div_mod w cs ltac:(lia)) as Hdm. pose proof (Z.mod_pos_bound w cs ltac:(lia)) as Hmb.
  assert (0 <= w / cs <= w) as Hq by (split; [apply Z.div_pos; lia|nia]).
  assert (clusters_for (w + b) = w / cs + 1) as Hcf.
  { replace w with (cs * (w / cs) + w mod cs) in Hb |- * at 1 by lia. apply clusters_for_unique; lia. }
  unfold advance. rewrite Ho, (wrap_small 32 (w mod cs + b)) by (unfold in_width; word_lia). destruct (cs <=? w mod cs + b) eqn:E; bool_prop.
  - assert (_current_cluster s ∈ l) as Hin by (rewrite last_lookup in Hlast; by apply list_elem_of_lookup_2 in Hlast).
    rewrite (fat_read_working bpb n G d _ Hw (chain_valid bpb n d l _ Hch Hin)). cbn [mbind option_bind].
    rewrite last_lookup in Hlast. destruct (Hch _ _ Hlast) as [_ Hend].
    rewrite (lookup_ge_None_2 l (S (pred (length l)))) in Hend by lia. change get_max_cluster_count with MAXC.
    replace (_ <? MAXC + 1) with false by (symmetry; apply Z.ltb_ge; lia). eexists. split; [done|]. split; [|done].
    constructor; cbn [with_cursor _processed_clusters _cluster_offset _current_cluster].
    + lia.
    + rewrite Hp, wrap_small by (unfold in_width; lia). apply (Z.div_unique_pos _ _ _ 0); lia.
    + apply (Z.mod_unique_pos _ _ (w / cs + 1)); lia.
    + rewrite last_lookup, Hlast. done.
  - eexists. split; [done|]. split; [|done]. constructor; cbn [with_cursor _processed_clusters _cluster_offset _current_cluster].
    + lia.
    + rewrite Hp. apply (Z.div_unique_pos _ _ _ (w mod cs + b)); lia.
    + apply (Z.mod_unique_pos _ _ (w / cs)); lia.
    + by rewrite Hlast.
Qed.

Lemma grown_trans d1 d2 l1 l2 l3 loc d3 : grown d1 l1 l2 -> frame d1 d2 l1 loc -> grown d2 l2 l3 -> chain bpb n d3 l3 -> grown d1 l1 l3.
Proof using.
  intros H1 [Hf _] H2 Hch c Hc. destruct (H2 c Hc) as [Hin|Hz]; [by apply H1|].
  destruct (decide (c ∈ l1)) as [|Hn]; [by left|]. right. destruct (decide (raw bpb d1 c = 0)) as [|Hnz]; [done|].
  destruct (Hf c (chain_valid bpb n d3 l3 c Hch Hc) Hnz Hn) as [Hr _]. congruence.
Qed.

(** What writing [data] at the end of a file of [w] bytes does. *)
Record appended d d' l l' (s s' : FATNode) (w : Z) (data : list Z) : Prop := {
  ap_working : working d';
  ap_chain : chain bpb n d' l';
  ap_entry : entry_of d' l' (_file_entry s');
  ap_tail : tail l' s' (w + zlen data);
  ap_contents : take (Z.to_nat (w + zlen data)) (contents bpb d' l') = take (Z.to_nat w) (contents bpb d l) ++ data;
  ap_same : same_file s s';
  ap_frame : frame d d' l (location (_file_entry s));
  ap_grown : grown d l l' }.

(** One turn followed by the rest. *)
Lemma appended_turn d d1 d2 d3 l l1 l3 s s1 s2 s3 w part rest :
  grown_to d d1 l l1 s s1 w -> stored d1 d2 l1 (_file_entry s1) w part -> same_file s1 s2 -> _file_entry s2 = _file_entry s1 ->
  appended d2 d3 l1 l3 s2 s3 (w + zlen part) rest -> appended d d3 l l3 s s3 w (part ++ rest).
Proof using.
  intros Hg Hst Hs2 Hf2 Ha. destruct Hg, Hst, Ha.
  assert (location (_file_entry s1) = location (_file_entry s)) as Hl1 by (by destruct gt_same0 as (_ & _ & _ & _ & ?)).
  assert (frame d d2 l (location (_file_entry s))) as Hfr by (apply (frame_trans d d1 d2 l l1); [done|done|by rewrite <- Hl1]).
  constructor; rewrite ?zlen_app, ?Z.add_assoc; try done.
  - rewrite ap_contents0, st_contents0, gt_contents0. by rewrite app_assoc.
  - eapply same_file_trans; [exact gt_same0|]. by eapply same_file_trans.
  - apply (frame_trans d d2 d3 l l1); [done|done|]. by rewrite <- Hl1, <- Hf2.
  - by apply (grown_trans d d2 l l1 l3 (location (_file_entry s)) d3).
Qed.

Lemma write_loop_result (wipe : bool) (buf : list Z) : Forall (in_width 8) buf -> forall fuel d l s w pos,
  working d -> chain bpb n d l -> entry_of d l (_file_entry s) -> tail l s w -> 0 <= size_of s <= w ->
  0 <= pos <= zlen buf -> w + (zlen buf - pos) + cs <= 2 ^ 32 ->
  (pos < zlen buf -> w mod cs = 0 \/ w = size_of s /\ wipe = false) ->
  clusters_for (w + (zlen buf - pos)) <= zlen l + zlen (free_clusters bpb n d) -> (Z.to_nat (zlen buf - pos) < fuel)%nat ->
  exists l' s' d', write_loop fuel d bpb s wipe buf pos = Some (None, zlen buf, s', d')
    /\ appended d d' l l' s s' w (drop (Z.to_nat pos) buf).
Proof using G SC.
  intros Hbytes fuel. pose proof (cs_bounds bpb n G) as Hcs.
  induction fuel as [|fuel IH]; intros d l s w pos Hw Hch He Ht Hsz Hpos Hcap Hmode Hfree Hfuel; [lia|]. cbn [write_loop].
  destruct (pos <? zlen buf) eqn:Ep; bool_prop; cycle 1.
  { exists l, s, d. replace pos with (zlen buf) by lia. split; [done|]. unfold zlen. rewrite Nat2Z.id, drop_all.
    assert (w + zlen (@nil Z) = w) as Ew by (rewrite zlen_nil; lia).
    constructor; rewrite ?Ew, ?app_nil_r; try done. intros c Hc. by left. }
  pose proof (Z.div_mod w cs ltac:(lia)) as Hdm. pose proof (Z.mod_pos_bound w cs ltac:(lia)) as Hmb.
  destruct (grow_result d l s w Hw Hch He Ht Hsz) as (l1 & s1 & d1 & Eg & Hg); [lia|destruct (Hmode Ep) as [|[]]; auto| |].
  { destruct (decide (w mod cs = 0)) as [Hm|]; [left|by right]. intros E0. rewrite E0 in Hfree. change (zlen []) with 0 in Hfree.
    rewrite (tl_len _ _ _ Ht) in Hfree. destruct (clusters_for_bounds (w + (zlen buf - pos))) as [_ Hb1]; [lia|].
    destruct (clusters_for_bounds w) as [_ Hb2]; [lia|].
    assert (clusters_for w = w / cs) as Hcf by (apply clusters_for_unique; nia). nia. }
  pose proof Hg as []. destruct gt_cursor0 as [Hp1 Ho1].
  assert (_current_cluster s1 ∈ l1) as Hcin by (rewrite last_lookup in gt_last0; by apply list_elem_of_lookup_2 in gt_last0).
  pose proof (chain_valid bpb n d1 l1 _ gt_chain0 Hcin) as Hcv.
  rewrite Eg. cbn [mbind option_bind]. replace (_current_cluster s1 =? 0) with false by (symmetry; apply Z.eqb_neq; unfold valid in Hcv; lia).
  destruct (cluster_read_result bpb n G d1 _ Hcv) as (ok & wb & Er & Hwb & Hok). specialize (Hok gt_working0). subst ok. rewrite Er.
  specialize (Hwb eq_refl). subst wb. cbn [negb]. rewrite Ho1.
  rewrite (wrap_small 64 (zlen buf - pos)), (wrap_small 64 (cs - _)) by (unfold in_width; word_lia).
  rewrite Math.min_spec. set (b := Z.min _ _). assert (0 < b /\ b <= zlen buf - pos /\ w mod cs + b <= cs) as (Hb0 & Hb1 & Hb2) by lia.
  rewrite slice_nat by lia. cbn [mbind option_bind]. set (data := take (Z.to_nat b) (drop (Z.to_nat pos) buf)).
  assert (zlen data = b) as Hdl by (unfold data, zlen in *; rewrite length_take, length_drop; lia).
  assert (Forall (in_width 8) data) as Hdb by (unfold data; by apply Forall_take, Forall_drop).
  destruct (store_result d1 l1 s1 w wipe data gt_working0 gt_chain0 gt_entry0 gt_last0 gt_len0 Ho1) as (wbuf & d2 & Ef & Ewr & Hst); [lia|lia| |done|].
  { intros ->. destruct (Hmode Ep) as [|[_ ?]]; done. }
  rewrite Ef. cbn [mbind option_bind]. rewrite Ewr. cbn [negb]. pose proof Hst as [].
  assert (0 <= w) as Hw0 by lia. assert (w + b < 2 ^ 32) as Hw32 by lia.
  destruct (advance_result d2 l1 s1 w b st_working0 st_chain0 gt_last0 gt_len0 Hp1 Ho1 Hw0 Hw32 Hb0 Hb2) as (s2 & Ea & Ht2 & Hs2 & Hf2).
  rewrite Ea. cbn [mbind option_bind].
  assert (size_of s2 = size_of s) as Hsz2 by (destruct Hs2 as (_ & _ & -> & _); by destruct gt_same0 as (_ & _ & -> & _)).
  destruct (IH d2 l1 s2 (w + b) (pos + b) st_working0 st_chain0) as (l3 & s3 & d3 & E3 & Ha3).
  - by rewrite Hf2.
  - done.
  - lia.
  - lia.
  - lia.
  - intros Hlt. left. assert (b = cs - w mod cs) as -> by lia. replace (w + (cs - w mod cs)) with ((w / cs + 1) * cs) by lia. apply Z.mod_mul. lia.
  - replace (w + b + (zlen buf - (pos + b))) with (w + (zlen buf - pos)) by lia. lia.
  - lia.
  - exists l3, s3, d3. split; [done|].
    replace (drop (Z.to_nat pos) buf) with (data ++ drop (Z.to_nat (pos + b)) buf).
    + apply (appended_turn d d1 d2 d3 l l1 l3 s s1 s2 s3); try done. by rewrite Hdl.
    + unfold data. rewrite Z2Nat.inj_add by lia. rewrite <- drop_drop. apply take_drop.
Qed.

(** ** Writing at the end of an open file *)

(** An open file whose cursor is at its end. *)
Record at_end d l (s : FATNode) : Prop := {
  ae_open : _closed s = false;
  ae_file : node_has_attribute s NFILE = true;
  ae_mode : _node_io_mode s <> READ;
  ae_entry : entry_of d l (_file_entry s);
  ae_tail : tail l s (size_of s) }.

Definition file_bytes d l (s : FATNode) : list Z := take (Z.to_nat (size_of s)) (contents bpb d l).

Lemma wipes_empty l s w : tail l s w -> 0 <= w -> wipes s = true -> w = 0.
Proof using G.
  intros [_ Hp Ho _] Hw. pose proof (cs_bounds bpb n G) as Hcs. unfold wipes, is_first_write. destruct (_node_io_mode s); try done.
  intros E. bool_prop. pose proof (Z.div_mod w cs ltac:(lia)). rewrite <- Hp, <- Ho in *. lia.
Qed.

Lemma entry_of_size d l f sz : in_width 32 sz -> entry_of d l f -> entry_of d l (with_file (with_size sz) f).
Proof using. intros Hz [Hp He Hd Hf]. constructor; try done. by apply entry_ok_size. Qed.

Lemma finish_result fuel d l s w (wipe : bool) pos : working d -> chain bpb n d l -> entry_of d l (_file_entry s) ->
  size_of s + pos = w -> 0 <= size_of s -> 0 <= pos -> w < 2 ^ 32 -> (wipe = true -> size_of s = 0) ->
  exists d', finish_write fuel d bpb s wipe pos = Some (OKAY, pos, with_entry (with_file (with_size w) (_file_entry s)) s, d')
    /\ working d' /\ chain bpb n d' l /\ contents bpb d' l = contents bpb d l
    /\ entry_of d' l (with_file (with_size w) (_file_entry s))
    /\ entry_at bpb d' (location (_file_entry s)) = Some (with_size w (file (_file_entry s)))
    /\ frame d d' l (location (_file_entry s)).
Proof using G.
  intros Hw Hch He Hsz H0 Hp Hlt Hwipe. unfold finish_write.
  replace (u32 (if wipe then pos else size_of s + pos)) with w by (destruct wipe; [specialize (Hwipe eq_refl)|]; rewrite wrap_small by (unfold in_width; lia); lia).
  unfold shrink. unfold size_of at 1. cbn [with_entry _file_entry with_file file with_size file_size].
  replace (w <? size_of s) with false by (symmetry; apply Z.ltb_ge; lia). cbn [mbind option_bind].
  assert (in_width 32 w) as Hw32 by (unfold in_width; lia). pose proof (entry_of_size d l _ w Hw32 He) as He'.
  destruct He' as [Hpl Hen [Hdz Hdl] Hhd]. pose proof Hpl as (Hvd & _).
  destruct (update_result bpb n G d (with_file (with_size w) (_file_entry s)) Hpl Hen) as (ok & d' & -> & Hf & Hok & Hwk).
  destruct (Hwk Hw) as [-> Hw']. destruct (Hok eq_refl) as [Hat Hoth]. cbn [mbind option_bind].
  assert (2 <= lcluster (location (_file_entry s))) as Hd2 by (unfold valid in Hvd; exact (proj1 Hvd)).
  pose proof (data_keeps bpb n G d d' _ Hd2 Hf) as Hk. pose proof Hk as [Hk1 Hk2].
  exists d'. split; [done|]. split; [done|]. split_and!.
  - apply (clusters_frame bpb n d d'); [done|]. intros y Hy. pose proof (chain_valid bpb n d l y Hch Hy) as Hvy.
    apply (keeps_entry bpb n d d' _ _ y Hk); [unfold valid in Hvy; lia|tauto].
  - apply contents_same. intros y Hy. pose proof (chain_valid bpb n d l y Hch Hy) as Hvy. apply Hk2; [unfold valid in Hvy; lia|]. intros ->. by apply Hdl.
  - constructor; try done. split; [|done]. rewrite Hk1; [done|unfold valid in Hvd; lia|tauto].
  - done.
  - split.
    + intros y Hvy Hzy Hny. split; [apply Hk1; [unfold valid in Hvy; lia|tauto]|]. intros Hne. apply Hk2; [unfold valid in Hvy; lia|done].
    + intros i H1 H2 H3. by apply Hoth.
Qed.

Lemma write_result fuel d l s data : working d -> chain bpb n d l -> at_end d l s -> 0 <= size_of s -> data <> [] -> Forall (in_width 8) data ->
  size_of s + zlen data + cs <= 2 ^ 32 -> clusters_for (size_of s + zlen data) <= zlen l + zlen (free_clusters bpb n d) ->
  exists l' s' d', write fuel d bpb s (Some data) = Some (OKAY, zlen data, s', d')
    /\ working d' /\ chain bpb n d' l' /\ at_end d' l' s'
    /\ file_bytes d' l' s' = file_bytes d l s ++ data /\ size_of s' = size_of s + zlen data
    /\ entry_at bpb d' (location (_file_entry s)) = Some (file (_file_entry s'))
    /\ frame d d' l (location (_file_entry s)) /\ grown d l l'.
Proof using G SC.
  intros Hw Hch [Ho Hf Hm He Ht] Hsz Hne Hb Hcap Hfree. pose proof (cs_bounds bpb n G) as Hcs. pose proof (zlen_nonneg data) as Hd0.
  pose proof (wipes_empty l s _ Ht Hsz) as Hwp.
  assert (forall x : option (NodeIOStatus * Z * FATNode * D),
    ('(err, pos, s1, d1) ← write_loop (S (length data)) d bpb s (wipes s) data 0;
      match err with Some count => Some (DEV_ERROR, count, s1, d1) | None => finish_write fuel d1 bpb s1 (wipes s) pos end) = x ->
    write fuel d bpb s (Some data) = x) as Hgo.
  { intros x <-. unfold write. rewrite Ho, Hf. cbn [negb]. destruct (_node_io_mode s) eqn:Em; [congruence| |]; by destruct data. }
  destruct (write_loop_result (wipes s) data Hb (S (length data)) d l s (size_of s) 0 Hw Hch He Ht) as (l1 & s1 & d1 & E1 & Ha); try lia.
  { intros _. destruct (wipes s) eqn:E; [left; rewrite (Hwp eq_refl); apply Z.mod_0_l; lia|by right]. }
  { by rewrite Z.sub_0_r. }
  { unfold zlen. lia. }
  destruct Ha. cbn [Z.to_nat drop] in ap_contents0, ap_tail0. destruct ap_same0 as (S1 & S2 & S3 & S4 & S5).
  destruct (finish_result fuel d1 l1 s1 (size_of s + zlen data) (wipes s) (zlen data) ap_working0 ap_chain0 ap_entry0) as (d2 & E2 & Hw2 & Hch2 & Hco2 & He2 & Hat2 & Hfr2); try lia.
  { intros E. rewrite S3. by apply Hwp. }
  eexists l1, _, d2. split; [apply Hgo; rewrite E1; cbn [mbind option_bind]; exact E2|].
  assert (size_of (with_entry (with_file (with_size (size_of s + zlen data)) (_file_entry s1)) s1) = size_of s + zlen data) as Hsz2 by done.
  split; [done|]. split; [done|]. split_and!; try done.
  - constructor; cbn [with_entry _closed _node_io_mode _file_entry]; [by rewrite S1| |by rewrite S2|done|].
    + revert Hf. unfold node_has_attribute. cbn [with_entry _closed _file_entry with_file file]. rewrite S1. destruct (_closed s); [done|].
      cbn [to_fat_attribute has_attribute with_size attributes]. by rewrite S4.
    + rewrite Hsz2. by destruct ap_tail0.
  - unfold file_bytes. by rewrite Hsz2, Hco2.
  - by rewrite <- S5.
  - apply (frame_trans d d1 d2 l l1); [done|done|by rewrite <- S5].
Qed.
End disk.
End WriteProps.
