(* ===== verification/FatTheorems.v ===== *)
(** * The theorems on FAT files *)

From S2P Require Import Prelude Kre KString KStringProps FatVolume FatVolumeProps FatFile FatFileProps FatWriteProps.

Module FileTheorems.
Import Fat VolumeProps Entry Manager Node FileProps WriteProps.

Section disk.
Context {D : Type} `{MD : MassStorage D} `{!Disk D}.
Implicit Types (d : D) (bpb : BootRecord32) (l : list Z).

(** Reads one after the other from an open file. *)
Fixpoint reads d bpb (s : FATNode) (sizes : list Z) : option (list (NodeIOStatus * list Z) * FATNode) :=
  match sizes with
  | [] => Some ([], s)
  | k :: sizes =>
      '(st, out, s) ← read d bpb s true k;
      '(rest, s) ← reads d bpb s sizes;
      Some ((st, out) :: rest, s)
  end.

Lemma reads_result bpb n (G : geometry bpb n) d l : working d -> chain bpb n d l -> forall sizes s p,
  cursor bpb l s p -> 0 < size_of s -> Forall (fun k => 0 < k < 2 ^ 63) sizes ->
  exists outs s', reads d bpb s sizes = Some (outs, s') /\ Forall (fun o => o.1 = OKAY) outs
    /\ mjoin (outs.*2) = part (contents bpb d l) p (Z.min (foldr Z.add 0 sizes) (size_of s - p)).
Proof.
  intros Hw Hch sizes. induction sizes as [|k sizes IH]; intros s p C Hsz Hs.
  - exists [], s. split; [done|]. split; [constructor|]. cbn. pose proof (cu_range _ _ _ _ C).
    replace (Z.min 0 (size_of s - p)) with 0 by lia. done.
  - apply Forall_cons_1 in Hs as [Hk Hs]. destruct (read_result bpb n G d l s p k Hw Hch C Hsz Hk) as (s1 & E & C1 & Hs1).
    cbn [reads]. rewrite E. cbn [mbind option_bind]. destruct (IH s1 _ C1 ltac:(lia) Hs) as (outs & s2 & E2 & Hok & Hj).
    rewrite E2. cbn [mbind option_bind]. exists ((OKAY, part (contents bpb d l) p (Z.min k (size_of s - p))) :: outs), s2.
    split; [done|]. split; [by constructor|]. cbn [foldr].
    match goal with |- mjoin (snd <$> (_, ?x) :: outs) = _ => change (mjoin (((OKAY, x) :: outs).*2)) with (x ++ mjoin (outs.*2)) end. rewrite Hj, Hs1.
    pose proof (cu_range _ _ _ _ C). destruct (processed_bytes_pos bpb n G l s p C) as [_ Hp0].
    assert (0 <= foldr Z.add 0 sizes) as Hf0 by (clear -Hs; induction Hs as [|x xs Hx Hxs IHs]; cbn; lia).
    rewrite <- part_app by lia. f_equal. lia.
Qed.

Lemma chain_count bpb n (G : geometry bpb n) d l : chain bpb n d l -> zlen l < 2 ^ 32.
Proof.
  intros Hch. assert (l ⊆+ seqZ 2 n) as Hsub.
  { apply NoDup_submseteq; [by apply (clusters_nodup bpb n G d)|]. intros c Hc. apply elem_of_seqZ.
    pose proof (chain_valid bpb n d l c Hch Hc) as Hv. unfold valid in Hv. lia. }
  apply submseteq_length in Hsub. rewrite length_seqZ in Hsub. pose proof (g_max _ _ G). pose proof (g_count _ _ G).
  unfold zlen, FAT32.MAX_CLUSTER_COUNT in *. change (2 ^ 32) with 4294967296. lia.
Qed.

(** C18: Reading refines a byte string with a position.  A regular file opened for reading on a working
    disk hands out, in pieces of any sizes, exactly its bytes in order up to its size, each read
    answering OKAY; and after a seek to any position inside the file the reads go on from there. *)
Theorem file_reads_content bpb n d l e sizes off :
  geometry bpb n -> working d -> chain bpb n d l -> file_on bpb l e -> 0 < file_size (file e) ->
  Forall (fun k => 0 < k < 2 ^ 63) sizes -> 0 <= off < file_size (file e) -> off < 2 ^ 31 ->
  exists s, open (S (length l)) d bpb READ e = Some s
    /\ (exists outs s', reads d bpb s sizes = Some (outs, s') /\ Forall (fun o => o.1 = OKAY) outs
         /\ mjoin (outs.*2) = part (contents bpb d l) 0 (Z.min (foldr Z.add 0 sizes) (file_size (file e))))
    /\ (exists s1 outs s', seek (S (S (Z.to_nat off))) d bpb s BEGIN off = Some (OKAY, off, s1)
         /\ reads d bpb s1 sizes = Some (outs, s') /\ Forall (fun o => o.1 = OKAY) outs
         /\ mjoin (outs.*2) = part (contents bpb d l) off (Z.min (foldr Z.add 0 sizes) (file_size (file e) - off))).
Proof.
  intros G Hw Hch F Hsz Hs Ho Ho31. destruct (open_result bpb n G d l e READ Hw Hch F (chain_count bpb n G d l Hch)) as (s & E & C & Hsz' & _); [done|].
  exists s. split; [done|]. split.
  - destruct (reads_result bpb n G d l Hw Hch sizes s 0 C ltac:(lia) Hs) as (outs & s' & H1 & H2 & H3). exists outs, s'.
    rewrite Hsz', Z.sub_0_r in H3. done.
  - pose proof (cs_bounds bpb n G) as Hcs. pose proof (cu_size _ _ _ _ C) as [Hsw _]. rewrite Hsz' in Hsw. unfold in_width in Hsw.
    pose proof (fo_first _ _ _ F) as Hhd. destruct l as [|c l]; [done|]. cbn in Hhd. injection Hhd as Hhd.
    unfold seek. rewrite (cu_open _ _ _ _ C), (cu_file _ _ _ _ C). cbn [negb]. unfold bad_offset, seek_target. rewrite Hsz'.
    rewrite (wrap_small 32 off), (wrap_small 64 off) by (unfold in_width; word_lia).
    replace (off <? 0) with false by (symmetry; apply Z.ltb_ge; lia). replace (file_size (file e) <=? off) with false by (symmetry; apply Z.leb_gt; lia). cbn [orb].
    assert (cluster (file (_file_entry s)) = c) as Hfc.
    { revert E. unfold open, init_file_cursor. cbn [_file_entry _node_io_mode]. destruct (walk_chain _ _ _ _ _ _) as [[? ?]|]; [|done]. cbn. by intros [= <-]. }
    destruct (seek_loop_result bpb n G d (c :: l) Hw Hch (S (S (Z.to_nat off))) 0 c off (with_cursor 0 c 0 s) 0) as (s1 & E1 & C1 & Hs1); try done.
    + replace 0 with (0 * cluster_size bpb + 0) at 2 by lia. apply (cursor_step bpb (c :: l) s 0); try done; try lia.
    + lia.
    + unfold size_of in *. cbn in *. lia.
    + assert (off / cluster_size bpb <= off) by (apply Z.div_le_upper_bound; nia). assert (0 <= off / cluster_size bpb) by (apply Z.div_pos; lia). lia.
    + rewrite Hfc, E1. cbn [mbind option_bind]. rewrite Z.abs_eq, (wrap_small 64 off) by (unfold in_width; word_lia).
      change (Z.of_nat 0 * cluster_size bpb + off) with off in C1. assert (size_of s1 = file_size (file e)) as Hs1' by (rewrite Hs1; unfold size_of in *; cbn in *; lia).
      destruct (reads_result bpb n G d (c :: l) Hw Hch sizes s1 off C1 ltac:(lia) Hs) as (outs & s' & H1 & H2 & H3).
      exists s1, outs, s'. by rewrite Hs1' in H3.
Qed.

(** Allocating a cluster for a file on a working disk takes a free one and appends it to the chain of
    the file; every other chain and the contents of every cluster stay as they were. *)
Theorem allocate_extends_chain bpb n d l last f :
  geometry bpb n -> scan_ok bpb n -> working d -> chain bpb n d (l ++ [last]) -> free_clusters bpb n d <> [] ->
  place_ok bpb n (location f) -> entry_ok (file f) ->
  exists c d', allocate_cluster d bpb f last = Some (c, f, d') /\ working d' /\ c ∈ free_clusters bpb n d
    /\ chain bpb n d' (l ++ [last; c])
    /\ (forall k, chain bpb n d k -> last ∉ k -> chain bpb n d' k /\ c ∉ k)
    /\ (forall x, 2 <= x -> cluster_bytes bpb d' x = cluster_bytes bpb d x).
Proof.
  intros G Hsc Hw Hch Hfr Hpl He. assert (last ∈ l ++ [last]) as Hin by (apply elem_of_app; right; by left).
  pose proof (chain_valid bpb n d _ last Hch Hin) as Hv. assert (last <> 0) as Hnz by (unfold valid in Hv; lia).
  destruct (allocate_cluster_result bpb n G d f last Hsc Hw Hfr Hpl He) as (c & f' & d' & E & Hw' & Ha).
  { right. split; [done|]. by apply (chain_nonzero bpb n G d _ _ Hch). }
  destruct Ha as [Hfree Hend Hlink _ Hk]. destruct (Hlink Hnz) as [Hl ->]. exists c, d'. pose proof Hfree as [Hvc Hzc]%elem_of_free.
  assert (forall k, chain bpb n d k -> c ∉ k) as Hck by (intros k Hck Hink; by apply (chain_nonzero bpb n G d k c Hck)).
  split_and!; try done.
  - apply (chain_snoc bpb n d); try done. intros y Hy. assert (y ∈ l ++ [last]) as Hyl by (apply elem_of_app; by left).
    pose proof (chain_valid bpb n d _ y Hch Hyl) as Hvy. apply (keeps_entry bpb n d d' _ _ y Hk); [unfold valid in Hvy; lia|].
    pose proof (clusters_nodup bpb n G d _ Hch) as Hnd. apply NoDup_app in Hnd as (_ & Hnd & _).
    intros [->|[_ ->]]; [by apply (Hck _ Hch)|]. apply (Hnd _ Hy). by left.
  - intros k Hk' Hn. split; [|by apply Hck]. apply (clusters_frame bpb n d d'); [done|]. intros y Hy.
    pose proof (chain_valid bpb n d k y Hk' Hy) as Hvy. apply (keeps_entry bpb n d d' _ _ y Hk); [unfold valid in Hvy; lia|].
    intros [->|[_ ->]]; [by apply (Hck _ Hk')|done].
  - intros x Hx. apply Hk; [done|]. by intros [? _].
Qed.

(** C6: Writing at the end of an open file extends its contents by exactly the data.  On a working disk with
    enough free clusters the write succeeds, the chain grows by formerly free clusters only, the file
    entry on the disk has the new size and first cluster, the cursor is at the new end, and the clusters
    of other files, their contents and the other file entries of the directory are what they were. *)
Theorem file_append_extends bpb n d l s data fuel :
  geometry bpb n -> scan_ok bpb n -> working d -> chain bpb n d l -> at_end bpb n d l s -> 0 <= size_of s ->
  data <> [] -> Forall (in_width 8) data -> size_of s + zlen data + cluster_size bpb <= 2 ^ 32 ->
  clusters_for bpb (size_of s + zlen data) <= zlen l + zlen (free_clusters bpb n d) ->
  exists l' s' d', write fuel d bpb s (Some data) = Some (OKAY, zlen data, s', d')
    /\ working d' /\ chain bpb n d' l' /\ at_end bpb n d' l' s'
    /\ file_bytes bpb d' l' s' = file_bytes bpb d l s ++ data /\ size_of s' = size_of s + zlen data
    /\ entry_at bpb d' (location (_file_entry s)) = Some (file (_file_entry s'))
    /\ frame bpb n d d' l (location (_file_entry s)) /\ grown bpb d l l'.
Proof. intros G Hsc Hw Hch Hs Hsz Hne Hb Hcap Hfree. by apply (write_result bpb n G Hsc fuel d l s data). Qed.

(** A file that was written to its end, opened again. *)
Lemma at_end_file_on bpb n (G : geometry bpb n) d l s : at_end bpb n d l s -> 0 < size_of s -> in_width 32 (size_of s) -> file_on bpb l (_file_entry s).
Proof.
  intros [Ho Hf _ He Ht] Hsz Hw. destruct (clusters_for_bounds bpb n G (size_of s) ltac:(lia)) as [_ Hb]. pose proof (tl_len _ _ _ _ Ht) as Hl.
  constructor.
  - revert Hf. unfold node_has_attribute. by rewrite Ho.
  - split; [done|]. fold (size_of s). lia.
  - rewrite (en_first _ _ _ _ _ He). destruct l; [|done]. change (zlen []) with 0 in Hl. rewrite <- Hl in Hb. lia.
Qed.

(** C30: What was written is read back: after a successful write at the end of a file, opening the file from
    its entry on the disk and reading it gives the old bytes followed by the data. *)
Theorem write_read_roundtrip bpb n d l s data fuel :
  geometry bpb n -> scan_ok bpb n -> working d -> chain bpb n d l -> at_end bpb n d l s -> 0 <= size_of s ->
  data <> [] -> Forall (in_width 8) data -> size_of s + zlen data + cluster_size bpb <= 2 ^ 32 ->
  clusters_for bpb (size_of s + zlen data) <= zlen l + zlen (free_clusters bpb n d) ->
  exists s' d' f l' s1 s2, write fuel d bpb s (Some data) = Some (OKAY, zlen data, s', d')
    /\ entry_at bpb d' (location (_file_entry s)) = Some f
    /\ open (S (length l')) d' bpb READ (mkLaf (file_name (_file_entry s)) f (location (_file_entry s)) (first_lfn_entry (_file_entry s))) = Some s1
    /\ read d' bpb s1 true (size_of s + zlen data) = Some (OKAY, file_bytes bpb d l s ++ data, s2).
Proof.
  intros G Hsc Hw Hch Hs Hsz Hne Hb Hcap Hfree. pose proof (cs_bounds bpb n G) as Hcs.
  destruct (write_result bpb n G Hsc fuel d l s data Hw Hch Hs Hsz Hne Hb Hcap Hfree) as (l' & s' & d' & E & Hw' & Hch' & Hs' & Hbytes & Hsz' & Hat & _).
  assert (0 < zlen data) as Hd0 by (destruct data; [done|rewrite zlen_cons; pose proof (zlen_nonneg data); lia]).
  pose proof (at_end_file_on bpb n G d' l' s' Hs' ltac:(lia) ltac:(unfold in_width; lia)) as F.
  set (e := mkLaf (file_name (_file_entry s)) (file (_file_entry s')) (location (_file_entry s)) (first_lfn_entry (_file_entry s))).
  assert (file_on bpb l' e) as Fe by (destruct F; by constructor).
  destruct (open_result bpb n G d' l' e READ Hw' Hch' Fe (chain_count bpb n G d' l' Hch')) as (s1 & E1 & C1 & Hs1 & _); [done|].
  assert (size_of s1 = size_of s + zlen data) as Hs1' by (rewrite Hs1; exact Hsz').
  destruct (read_result bpb n G d' l' s1 0 (size_of s + zlen data) Hw' Hch' C1) as (s2 & E2 & _); [lia|unfold Z.pow in *; lia|].
  exists s', d', (file (_file_entry s')), l', s1, s2. split_and!; try done.
  rewrite E2, Hs1', Z.sub_0_r, Z.min_id. do 3 f_equal. rewrite <- Hbytes. unfold part, file_bytes. by rewrite Hsz'.
Qed.
End disk.
End FileTheorems.

(** ** The theorems on a small disk *)
Module FileExample.
Import KString Fat VolumeProps Entry Manager Node FileProps WriteProps RamDisk FileTheorems.

(** A volume of two clusters: cluster 2 is the root directory; cluster 3 is free or holds a file. *)
Definition fat_cell (a : Z) : bool := (520 <=? a) && (a <? 524) || (1032 <=? a) && (a <? 1036).

Definition fat_cell_3 (a : Z) : bool := (524 <=? a) && (a <? 528) || (1036 <=? a) && (a <? 1040).

Definition one_free : ram 2560 := mkRam (fun a => if fat_cell a then 0xFF else 0).

Definition one_file : ram 2560 :=
  mkRam (fun a => if fat_cell a || fat_cell_3 a then 0xFF else if (2048 <=? a) && (a <? 2051) then 7 else 0).

Definition name_a : list Z := [65; 32; 32; 32; 32; 32; 32; 32; 32; 32; 32].

Definition file_a (c size : Z) : LocationAwareFileEntry :=
  mkLaf (mkString (StackBuf (zeros 24)) 0 24) (mkFileEntry name_a 0x20 0 0 0 0 0 0 0 0 c size) (mkLocation 2 0) (mkLocation 0 0).

Definition empty_open : FATNode := mkNode false WRITE (file_a 0 0) 0 0 0.

Lemma tiny_scan : scan_ok (D := ram 2560) tiny_bpb 2.
Proof. repeat split; discriminate. Qed.

Lemma one_free_free : free_clusters tiny_bpb 2 one_free = [3].
Proof. vm_compute. reflexivity. Qed.

Lemma file_a_ok c size : 0 <= c < 65536 -> in_width 32 size -> entry_ok (file (file_a c size)).
Proof.
  intros Hc Hs. constructor; [split; [done|]| | |done]; cbn; repeat (apply Forall_cons_2; [unfold in_width; change (2 ^ 8) with 256; change (2 ^ 16) with 65536; lia|]); apply Forall_nil_2.
Qed.

Lemma empty_at_end : at_end tiny_bpb 2 one_free [] empty_open.
Proof.
  constructor; [done|done|done| |by constructor]. constructor; [by repeat split| |split; [by vm_compute|by intros ?%elem_of_nil]|done].
  apply file_a_ok; [lia|by split].
Qed.

Lemma no_chain : chain tiny_bpb 2 one_free [].
Proof. by intros i c. Qed.

Lemma demo_bytes : Forall (in_width 8) [7; 8; 9].
Proof. repeat (apply Forall_cons_2; [by split|]). apply Forall_nil_2. Qed.

Lemma file_append_extends_witness :
  exists l' s' d', write 5 one_free tiny_bpb empty_open (Some [7; 8; 9]) = Some (OKAY, zlen [7; 8; 9], s', d')
    /\ working d' /\ chain tiny_bpb 2 d' l' /\ at_end tiny_bpb 2 d' l' s'
    /\ file_bytes tiny_bpb d' l' s' = file_bytes tiny_bpb one_free [] empty_open ++ [7; 8; 9]
    /\ size_of s' = size_of empty_open + zlen [7; 8; 9]
    /\ entry_at tiny_bpb d' (location (_file_entry empty_open)) = Some (file (_file_entry s'))
    /\ frame tiny_bpb 2 one_free d' [] (location (_file_entry empty_open)) /\ grown tiny_bpb one_free [] l'.
Proof.
  apply (file_append_extends tiny_bpb 2 one_free [] empty_open [7; 8; 9] 5 tiny_geometry tiny_scan I no_chain empty_at_end);
    [reflexivity|discriminate|exact demo_bytes|discriminate|]. rewrite one_free_free. discriminate.
Defined.

Lemma write_read_roundtrip_witness :
  exists s' d' f (l' : list Z) s1 s2, write 5 one_free tiny_bpb empty_open (Some [7; 8; 9]) = Some (OKAY, zlen [7; 8; 9], s', d')
    /\ entry_at tiny_bpb d' (location (_file_entry empty_open)) = Some f
    /\ open (S (length l')) d' tiny_bpb READ (mkLaf (file_name (_file_entry empty_open)) f (location (_file_entry empty_open)) (first_lfn_entry (_file_entry empty_open))) = Some s1
    /\ read d' tiny_bpb s1 true (size_of empty_open + zlen [7; 8; 9]) = Some (OKAY, file_bytes tiny_bpb one_free [] empty_open ++ [7; 8; 9], s2).
Proof.
  apply (write_read_roundtrip tiny_bpb 2 one_free [] empty_open [7; 8; 9] 5 tiny_geometry tiny_scan I no_chain empty_at_end);
    [reflexivity|discriminate|exact demo_bytes|discriminate|]. rewrite one_free_free. discriminate.
Defined.

Lemma chain_2 : chain tiny_bpb 2 one_free ([] ++ [2]).
Proof. intros [|[|i]] c [= <-]. split; [by split|]. vm_compute. reflexivity. Qed.

Lemma allocate_extends_chain_witness :
  exists c d', allocate_cluster one_free tiny_bpb (file_a 0 0) 2 = Some (c, file_a 0 0, d') /\ working d' /\ c ∈ free_clusters tiny_bpb 2 one_free
    /\ chain tiny_bpb 2 d' ([] ++ [2; c])
    /\ (forall k, chain tiny_bpb 2 one_free k -> 2 ∉ k -> chain tiny_bpb 2 d' k /\ c ∉ k)
    /\ (forall x, 2 <= x -> cluster_bytes tiny_bpb d' x = cluster_bytes tiny_bpb one_free x).
Proof.
  apply (allocate_extends_chain tiny_bpb 2 one_free [] 2 (file_a 0 0) tiny_geometry tiny_scan I chain_2).
  - rewrite one_free_free. discriminate.
  - by repeat split.
  - apply file_a_ok; [lia|by split].
Defined.

Lemma chain_3 : chain tiny_bpb 2 one_file [3].
Proof. intros [|[|i]] c [= <-]. split; [by split|]. vm_compute. reflexivity. Qed.

Lemma file_reads_content_witness :
  exists s, open (S (length [3])) one_file tiny_bpb READ (file_a 3 3) = Some s
    /\ (exists outs s', reads one_file tiny_bpb s [2; 5] = Some (outs, s') /\ Forall (fun o => o.1 = OKAY) outs
         /\ mjoin (outs.*2) = part (contents tiny_bpb one_file [3]) 0 (Z.min (foldr Z.add 0 [2; 5]) 3))
    /\ (exists s1 outs s', seek (S (S (Z.to_nat 1))) one_file tiny_bpb s BEGIN 1 = Some (OKAY, 1, s1)
         /\ reads one_file tiny_bpb s1 [2; 5] = Some (outs, s') /\ Forall (fun o => o.1 = OKAY) outs
         /\ mjoin (outs.*2) = part (contents tiny_bpb one_file [3]) 1 (Z.min (foldr Z.add 0 [2; 5]) (3 - 1))).
Proof.
  apply (file_reads_content tiny_bpb 2 one_file [3] (file_a 3 3) [2; 5] 1 tiny_geometry I chain_3).
  - constructor; [done|by split|done].
  - reflexivity.
  - repeat (apply Forall_cons_2; [by split|]). apply Forall_nil_2.
  - by split.
  - reflexivity.
Defined.
End FileExample.
