(* ===== verification/FatDirectory.v ===== *)
(** * FAT directories: FAT.cpp names, FATDirectoryIterator.cpp, the searches of FileEntryManager.cpp

    A directory is a chain of clusters that hold file entries of 32 bytes.  A long file name is stored in
    entries in front of the file entry, thirteen characters each, the last part first. *)

From S2P Require Import Prelude Kre KString VfsPath FatVolume FatFile.

Module Lfn.
Import KString Entry.

Definition MASK_LAST_LFN_ENTRY : Z := 0xF0.
Definition FN1_SIZE : Z := 5.
Definition FN2_SIZE : Z := 6.
Definition FN3_SIZE : Z := 2.
Definition MAX_FILE_NAME_SIZE : Z := 255.
Definition MAX_CHAR_PER_ENTRY : Z := 13.
Definition LAST_LFN_ENTRY : Z := 0x40.

Record LongFileNameEntry := mkLfn {
  order : Z; file_name_1 : list Z; l_attributes : Z; long_entry_type : Z; short_file_name_checksum : Z;
  file_name_2 : list Z; reserved : Z; file_name_3 : list Z }.

(** The packed layout, and an entry of a cluster seen as a long file name entry. *)
Definition lfn_bytes (e : LongFileNameEntry) : list Z :=
  Le.encode 1 (order e) ++ mjoin (Le.encode 2 <$> file_name_1 e) ++ Le.encode 1 (l_attributes e)
  ++ Le.encode 1 (long_entry_type e) ++ Le.encode 1 (short_file_name_checksum e) ++ mjoin (Le.encode 2 <$> file_name_2 e)
  ++ Le.encode 2 (reserved e) ++ mjoin (Le.encode 2 <$> file_name_3 e).

Definition get_words (n : nat) (b : list Z) (off : Z) : option (list Z) :=
  mapM (fun i => Le.get 2 b (off + 2 * Z.of_nat i)) (seq 0 n).

Definition read_lfn (buf : list Z) (idx : Z) : option LongFileNameEntry :=
  b ← slice buf (32 * idx) 32;
  o ← Le.get 1 b 0; n1 ← get_words 5 b 1; a ← Le.get 1 b 11; t ← Le.get 1 b 12; k ← Le.get 1 b 13;
  n2 ← get_words 6 b 14; r ← Le.get 2 b 26; n3 ← get_words 2 b 28;
  Some (mkLfn o n1 a t k n2 r n3).

(** The low byte of the thirteen characters. *)
Definition lfn_chars (e : LongFileNameEntry) : list Z :=
  (fun w => Bits.byte_get w 0) <$> file_name_1 e ++ file_name_2 e ++ file_name_3 e.

(** ** Valid names *)
Definition is_digit (c : Z) : bool := (0x30 <=? c) && (c <=? 0x39).
Definition is_big_letter (c : Z) : bool := (0x41 <=? c) && (c <=? 0x5A).
Definition is_small_letter (c : Z) : bool := (0x61 <=? c) && (c <=? 0x7A).
Definition short_special (c : Z) : bool :=
  existsb (Z.eqb c) [0x24; 0x25; 0x27; 0x2D; 0x5F; 0x40; 0x7E; 0x60; 0x21; 0x28; 0x29; 0x7B; 0x7D; 0x5E; 0x23; 0x26].
Definition long_special (c : Z) : bool := short_special c || existsb (Z.eqb c) [0x2E; 0x2B; 0x2C; 0x3B; 0x3D; 0x5B; 0x5D].

Definition short_char (c : Z) : bool := (c =? 0) || is_digit c || is_big_letter c || is_small_letter c || short_special c.
Definition long_char (c : Z) : bool := (c =? 0) || is_digit c || is_big_letter c || is_small_letter c || long_special c.

(** [FileEntry::validate_name] *)
Fixpoint validate_short_loop (n : nat) (name : String) (i : Z) : option bool :=
  match n with
  | O => Some true
  | S n => c ← char_at name i; if short_char c then validate_short_loop n name (i + 1) else Some false
  end.

Definition validate_short_name (name : String) (allowed_length : Z) : option bool :=
  if allowed_length <? size name then Some false else
  c ← char_at name 0;
  if c =? 32 then Some false else validate_short_loop (Z.to_nat allowed_length) name 0.

(** [LongFileNameEntry::validate_name] *)
Definition validate_name (name : String) : option bool :=
  if MAX_FILE_NAME_SIZE <? size name then Some false else
  c ← char_at name 0;
  if c =? 32 then Some false else
  b ← get_buf name; cs ← slice b 0 (size name); Some (forallb long_char cs).
End Lfn.

(** ** FATDirectoryIterator.cpp *)
Module Directory.
Import KString Fat Entry Lfn.

Inductive DirectoryIteratorState := ITERATING | END_OF_DIRECTORY | CORRUPT_LFN_ENTRY | IT_DEV_ERROR.
Inductive DirectoryIterationMode := NO_MODE | LIST_DIRECTORY | LIST_ALL | ATOMIC.
Inductive NavigationStatus := NAV_NONE | NAV_FOUND | NAV_NOT_FOUND | NAV_BAD_PATH | NAV_DEV_ERROR.

#[export] Instance state_eq_dec : EqDecision DirectoryIteratorState.
Proof. solve_decision. Defined.
#[export] Instance mode_eq_dec : EqDecision DirectoryIterationMode.
Proof. solve_decision. Defined.

(** [_current_entry] is the index of the entry of the buffer the pointer names, [None] the null pointer. *)
Record FATDirectoryIterator := mkIt {
  _current_cluster : Z; _cluster_buf : list Z; _max_entries_per_cluster : Z; _current_entry : option Z;
  _entry_index : Z; _current_entry_as_laf : LocationAwareFileEntry; _state : DirectoryIteratorState;
  _it_mode : DirectoryIterationMode }.

Definition with_state (st : DirectoryIteratorState) (it : FATDirectoryIterator) : FATDirectoryIterator :=
  mkIt (_current_cluster it) (_cluster_buf it) (_max_entries_per_cluster it) (_current_entry it) (_entry_index it)
    (_current_entry_as_laf it) st (_it_mode it).

Definition with_position (p : option Z) (i : Z) (it : FATDirectoryIterator) : FATDirectoryIterator :=
  mkIt (_current_cluster it) (_cluster_buf it) (_max_entries_per_cluster it) p i
    (_current_entry_as_laf it) (_state it) (_it_mode it).

Definition with_laf (l : LocationAwareFileEntry) (it : FATDirectoryIterator) : FATDirectoryIterator :=
  mkIt (_current_cluster it) (_cluster_buf it) (_max_entries_per_cluster it) (_current_entry it) (_entry_index it)
    l (_state it) (_it_mode it).

(** The cluster the buffer holds and what it holds. *)
Definition with_cluster_buf (c : Z) (buf : list Z) (it : FATDirectoryIterator) : FATDirectoryIterator :=
  mkIt c buf (_max_entries_per_cluster it) (_current_entry it) (_entry_index it) (_current_entry_as_laf it) (_state it) (_it_mode it).

Definition no_location : FileEntryLocation := mkLocation 0 0.

(** A default [LocationAwareFileEntry]. *)
Definition default_laf : option LocationAwareFileEntry :=
  n ← empty_string; Some (mkLaf n empty_entry no_location no_location).

Definition here (it : FATDirectoryIterator) : FileEntryLocation := mkLocation (_current_cluster it) (u16 (_entry_index it)).

Definition current (it : FATDirectoryIterator) : option FileEntry := p ← _current_entry it; read_entry (_cluster_buf it) p.

(** The end of an entry's name: the fill bytes and terminators behind it are left out. *)
Fixpoint skip_trailing (n : nat) (tmp : list Z) : option Z :=
  match n with
  | O => None
  | S m => c ← tmp !! m; if (c =? 0xFF) || (c =? 0) then skip_trailing m tmp else Some (Z.of_nat n)
  end.

Fixpoint skip_leading (fuel : nat) (tmp : list Z) (i : nat) : option Z :=
  match fuel with
  | O => None
  | S fuel => c ← tmp !! i; if c =? 32 then skip_leading fuel tmp (S i) else Some (Z.of_nat i)
  end.

(** The part of the name an entry holds. *)
Definition lfn_part (tmp : list Z) (c_order lfne_count : Z) : option String :=
  '(pStart, pEnd) ← (if c_order =? lfne_count then e ← skip_trailing 13 tmp; Some (0, e)
                     else if c_order =? 1 then s ← skip_leading 14 tmp 0; Some (s, 13)
                     else Some (0, 13));
  init tmp pStart pEnd.

Section directory.
Context {D : Type} `{MassStorage D} `{FATEngine}.
Implicit Types (d : D) (bpb : BootRecord32) (it : FATDirectoryIterator).

Definition get_next_cluster d bpb it : option FATDirectoryIterator :=
  next_cluster ← (match _current_entry it with
                  | Some _ => fat_read d bpb (_current_cluster it)
                  | None => Some (_current_cluster it)
                  end);
  if get_max_cluster_count <? next_cluster then Some (with_state END_OF_DIRECTORY it) else
  let '(ok, buf) := data_cluster_read d bpb next_cluster in
  if negb ok then Some (with_state IT_DEV_ERROR (with_cluster_buf (_current_cluster it) buf it)) else
  Some (with_position (Some 0) 0 (with_cluster_buf next_cluster buf it)).

Definition advance it : option FATDirectoryIterator :=
  let i := _entry_index it + 1 in
  let it := with_position (Some i) i it in
  e ← current it;
  if bool_decide (_it_mode it = LIST_DIRECTORY) && is_empty_end e then Some (with_state END_OF_DIRECTORY it) else
  n ← empty_string;
  Some (with_laf (mkLaf n e (here it) no_location) it).

(** The loop over the long file name entries, [n] of [lfne_count] are left; no name when the iteration stopped. *)
Fixpoint lfn_loop (n : nat) d bpb (lfne_count : Z) it (file_name : String) : option (FATDirectoryIterator * option String) :=
  match n with
  | O => Some (it, Some file_name)
  | S m =>
      p ← _current_entry it;
      e ← read_lfn (_cluster_buf it) p;
      if negb (Bits.nibble_get (order e) 0 =? Z.of_nat n) then Some (with_state CORRUPT_LFN_ENTRY it, None) else
      part ← lfn_part (lfn_chars e) (Z.of_nat n) lfne_count;
      file_name ← plus part file_name;
      let it := with_position (Some (p + 1)) (_entry_index it + 1) it in
      if _max_entries_per_cluster it <=? _entry_index it then
        it ← get_next_cluster d bpb it;
        if decide (_state it = ITERATING) then lfn_loop m d bpb lfne_count it file_name else Some (it, None)
      else lfn_loop m d bpb lfne_count it file_name
  end.

Definition parse_used_file_entry d bpb it : option FATDirectoryIterator :=
  e ← current it;
  let first := nth 0 (short_name e) 0 in
  '(it, name, lfn) ←
    (if attributes e =? attr_value LONG_FILE_NAME then
       if negb (Z.land first MASK_LAST_LFN_ENTRY =? LAST_LFN_ENTRY) then Some (with_state CORRUPT_LFN_ENTRY it, None, no_location) else
       let lfne_count := Bits.nibble_get first 0 in
       n ← empty_string;
       '(it', name) ← lfn_loop (Z.to_nat lfne_count) d bpb lfne_count it n;
       Some (it', name, here it)
     else n ← make_short_name e; Some (it, Some n, no_location));
  match name with
  | None => Some it
  | Some n => e ← current it; Some (with_laf (mkLaf n e (here it) lfn) it)
  end.

(** [while (_current_entry->is_empty_middle()) advance()]; the loop does not look for the end of the cluster. *)
Fixpoint skip_empty (fuel : nat) it : option FATDirectoryIterator :=
  match fuel with
  | O => None
  | S fuel =>
      e ← current it;
      if is_empty_middle e then
        it ← advance it;
        if decide (_state it = ITERATING) then skip_empty fuel it else Some it
      else Some it
  end.

(** [operator++] *)
Definition increment d bpb it : option FATDirectoryIterator :=
  if decide (_state it = ITERATING) then
    it ← (if _max_entries_per_cluster it - 1 <=? _entry_index it then get_next_cluster d bpb it else advance it);
    if decide (_state it = ITERATING) then
      match _it_mode it with
      | LIST_DIRECTORY =>
          it ← skip_empty (S (length (_cluster_buf it))) it;
          if decide (_state it = ITERATING) then parse_used_file_entry d bpb it else Some it
      | LIST_ALL =>
          e ← current it;
          if negb (is_empty_middle e) && negb (is_empty_end e) then parse_used_file_entry d bpb it else Some it
      | ATOMIC | NO_MODE => Some it
      end
    else Some it
  else Some it.

(** The constructor. *)
Definition begin d bpb (start_cluster : Z) (mode : DirectoryIterationMode) : option FATDirectoryIterator :=
  laf ← default_laf;
  match mode with
  | NO_MODE => Some (mkIt 0 [] 0 None 0 laf END_OF_DIRECTORY mode)
  | _ =>
      it ← get_next_cluster d bpb (mkIt start_cluster [] (cluster_size bpb / ENTRY_SIZE) None 0 laf ITERATING mode);
      if decide (_state it = IT_DEV_ERROR) then Some it else
      increment d bpb (with_position (_current_entry it) (-1) it)
  end.

Definition has_next it : bool := bool_decide (_state it = ITERATING).

(** The loop of [navigate_to]: the entry of the name, or the iterator that came to its end. *)
Fixpoint find_entry (fuel : nat) d bpb it (wanted : String) : option (LocationAwareFileEntry + FATDirectoryIterator) :=
  match fuel with
  | O => None
  | S fuel =>
      if has_next it then
        same ← eqb (file_name (_current_entry_as_laf it)) wanted;
        if (same : bool) then Some (inl (_current_entry_as_laf it))
        else it ← increment d bpb it; find_entry fuel d bpb it wanted
      else Some (inr it)
  end.

(** [path] is what the iterator over the parts has left; [fuel] bounds the entries of a directory. *)
Fixpoint navigate_to (fuel : nat) d bpb (start_cluster : Z) (path : list String) : option (NavigationStatus * LocationAwareFileEntry) :=
  match path with
  | [] => None
  | wanted_file_entry :: path =>
      nothing ← default_laf;
      it ← begin d bpb start_cluster LIST_DIRECTORY;
      r ← find_entry fuel d bpb it wanted_file_entry;
      match r with
      | inl c_entry =>
          match path with
          | [] => Some (NAV_FOUND, c_entry)
          | _ =>
              if Z.land (attributes (file c_entry)) (attr_value DIRECTORY) =? attr_value DIRECTORY
              then navigate_to fuel d bpb (cluster (file c_entry)) path
              else Some (NAV_BAD_PATH, nothing)
          end
      | inr it => Some (if decide (_state it = END_OF_DIRECTORY) then NAV_NOT_FOUND else NAV_DEV_ERROR, nothing)
      end
  end.
End directory.
End Directory.

(** ** FileEntryManager.cpp: searching *)
Module Search.
Import KString Fat Entry Lfn Directory.

Inductive VolumeAccessStatus := V_OKAY | V_NOT_FOUND | V_BAD_PATH | V_DEV_ERROR.

Section search.
Context {D : Type} `{MassStorage D} `{FATEngine}.
Implicit Types (d : D) (bpb : BootRecord32).

(** The entry that stands for the root directory. *)
Definition root_dummy bpb : FileEntry :=
  Entry.with_cluster (get_root_directory_cluster bpb) (with_attributes (attr_value DIRECTORY) empty_entry).

Definition root_laf bpb : option LocationAwareFileEntry :=
  n ← empty_string; Some (mkLaf n (root_dummy bpb) (mkLocation (get_root_directory_cluster bpb) 0) no_location).

(** [p_split.size() == 1 && (p_split.first() == "." || p_split.first() == "..")] *)
Definition is_dot_path (parts : list String) : option bool :=
  match parts with
  | [part] =>
      dot ← Path.is_literal part [Path.DOT];
      if (dot : bool) then Some true else Path.is_literal part [Path.DOT; Path.DOT]
  | _ => Some false
  end.

Definition search (fuel : nat) d bpb (path : Path.Path) : option (VolumeAccessStatus * LocationAwareFileEntry) :=
  p_split ← Path.split_path path;
  dot ← is_dot_path p_split;
  match p_split with
  | [] => r ← root_laf bpb; Some (V_OKAY, r)
  | _ =>
      if (dot : bool) then r ← root_laf bpb; Some (V_OKAY, r) else
      '(st, file) ← navigate_to fuel d bpb (cluster (root_dummy bpb)) p_split;
      Some (match st with NAV_FOUND => V_OKAY | NAV_NOT_FOUND => V_NOT_FOUND | _ => V_DEV_ERROR end, file)
  end.

(** The first loop of [find_empty_file_entries]: the iterator, the number of entries and the entries so far. *)
Fixpoint gather (fuel : nat) d bpb it (range range_found : Z) (out : list LocationAwareFileEntry)
  : option (FATDirectoryIterator * Z * list LocationAwareFileEntry) :=
  match fuel with
  | O => None
  | S fuel =>
      if has_next it && (range_found <? range) then
        let cEntry := _current_entry_as_laf it in
        it ← increment d bpb it;
        if negb (is_empty_end (file cEntry)) && negb (is_empty_middle (file cEntry)) then gather fuel d bpb it range 0 []
        else gather fuel d bpb it range (u16 (range_found + 1)) (out ++ [cEntry])
      else Some (it, range_found, out)
  end.

(** The loop that extends the directory: its file entry, the first new cluster and the disk; no cluster when
    the number of the new cluster is out of range. *)
Fixpoint extend (fuel : nat) d bpb (dir : LocationAwareFileEntry) (per_cluster required_space first_new_cluster current_cluster : Z)
  : option (option Z * D) :=
  match fuel with
  | O => None
  | S fuel =>
      if 0 <? required_space then
        '(next_cluster, dir, d) ← Manager.allocate_cluster d bpb dir current_cluster;
        if get_max_cluster_count <=? next_cluster then Some (None, d) else
        extend fuel d bpb dir per_cluster (if required_space <? per_cluster then 0 else u64 (required_space - per_cluster))
          (if first_new_cluster =? 0 then next_cluster else first_new_cluster) next_cluster
      else Some (Some first_new_cluster, d)
  end.

(** The last loop: entries behind the old end of the directory. *)
Fixpoint gather_new (fuel : nat) d bpb it (range range_found : Z) (out : list LocationAwareFileEntry) : option (list LocationAwareFileEntry) :=
  match fuel with
  | O => None
  | S fuel =>
      if has_next it && (range_found <? range) then
        let e := _current_entry_as_laf it in
        it ← increment d bpb it; gather_new fuel d bpb it range (u16 (range_found + 1)) (out ++ [e])
      else Some out
  end.

Definition find_empty_file_entries (fuel : nat) d bpb (path : Path.Path) (range : Z) (out : list LocationAwareFileEntry)
  : option (VolumeAccessStatus * list LocationAwareFileEntry * D) :=
  p_split ← Path.split_path path;
  '(st, dir) ← (match p_split with
                | [] => r ← root_laf bpb; Some (NAV_FOUND, r)
                | _ => navigate_to fuel d bpb (cluster (root_dummy bpb)) p_split
                end);
  match st with
  | NAV_FOUND =>
      it ← begin d bpb (cluster (file dir)) LIST_ALL;
      '(it, range_found, out) ← gather fuel d bpb it range 0 out;
      if range_found <? range then
        '(first, d) ← extend (S (Z.to_nat range)) d bpb dir (cluster_size bpb / ENTRY_SIZE) (u64 (range - range_found)) 0 (_current_cluster it);
        match first with
        | None => Some (V_DEV_ERROR, out, d)
        | Some first_new_cluster =>
            after_end ← begin d bpb first_new_cluster LIST_ALL;
            out ← gather_new (S (Z.to_nat range)) d bpb after_end range range_found out;
            Some (V_OKAY, out, d)
        end
      else Some (V_OKAY, out, d)
  | NAV_NOT_FOUND => Some (V_NOT_FOUND, out, d)
  | _ => Some (V_DEV_ERROR, out, d)
  end.
End search.
End Search.
