(* ===== verification/FatDriver.v ===== *)
(** * The FAT driver: VirtualFileSystem/FAT/FATDriver.cpp

    The operations of the driver on one storage device: [d] is the device that the handle names, and a
    mounted device is its handle with the boot record read when it was mounted. *)

From S2P Require Import Prelude Kre KString VfsPath FatVolume FatFile FatDirectory.

Module Driver.
Import KString Fat Entry Lfn Directory Search.

Inductive IOStatus := IO_NONE | CREATED | OPENED | DELETED | FOUND | NOT_FOUND | BAD_PATH | BAD_NAME | BAD_ATTRIBUTE
  | BAD_NODE_IO_MODE | OUT_OF_HANDLES | IO_DEV_ERROR | DEV_UNKNOWN | DEV_OUT_OF_MEMORY | ACCESS_DENIED.
Inductive FormatStatus := FORMATTED | FORMAT_ERROR | UNKNOWN_DRIVER | F_DEV_ERROR.
Inductive MountStatus := MOUNTED | UNMOUNTED | NOT_MOUNTED | ALREADY_MOUNTED | NOT_SUPPORTED | MOUNT_ERROR | M_BAD_PATH | M_DEV_ERROR.
Inductive DirectoryStreamStatus := DS_END_OF_DIRECTORY | DS_IO_ERROR.

#[export] Instance io_status_eq_dec : EqDecision IOStatus.
Proof. solve_decision. Defined.

(** [NodeInfo] *)
Record NodeInfo := mkInfo { node_path : String; info_size : Z; info_attributes : Z }.

(** ** Attributes *)

Definition attribute_pairs : list (Node.NodeAttribute * FATFileAttribute) :=
  [(Node.NREADONLY, READONLY); (Node.NHIDDEN, HIDDEN); (Node.NSYSTEM, SYSTEM); (Node.NDIRECTORY, DIRECTORY); (Node.NFILE, ARCHIVE)].

Definition node_attributes_to_fat_file_attributes (node_attr : Z) : Z :=
  foldl (fun a '(n, f) => if negb (Z.land node_attr (Node.node_attr_value n) =? 0) then Z.lor a (attr_value f) else a)
    0 attribute_pairs.

(** The node attributes of a file entry, as [find_node] and the directory stream compute them. *)
Definition entry_node_attributes (e : FileEntry) : Z :=
  foldl (fun a '(n, f) => if has_attribute e f then Z.lor a (Node.node_attr_value n) else a) 0 attribute_pairs.

Definition with_short_name (n : list Z) (e : FileEntry) : FileEntry :=
  mkFileEntry n (attributes e) (nt_reserved e) (creation_time_millis e) (creation_time e) (creation_date e)
    (last_accessed_date e) (first_cluster_high e) (last_modification_time e) (last_modification_date e) (first_cluster_low e) (file_size e).

(** An entry marked as deleted: [delete_file] and [delete_directory]. *)
Definition deleted_entry (e : FileEntry) : FileEntry :=
  with_size 0 (with_cluster 0 (with_short_name (<[0%nat := MARK_EMPTY_MIDDLE]> (short_name e)) e)).

(** ** Long file name entries of a new node *)

(** A [char] assigned to a 16-bit character: it is signed. *)
Definition widen (c : Z) : Z := if c <? 128 then c else 0xFF00 + c.

Definition make_lfn (chars : list Z) (ord checksum : Z) : LongFileNameEntry :=
  mkLfn ord (widen <$> take 5 chars) (attr_value LONG_FILE_NAME) 0 checksum (widen <$> take 6 (drop 5 chars)) 0 (widen <$> drop 11 chars).

(** The loop that fills the entries from the index [n - 1] down to 0. *)
Fixpoint fill_entries (n : nat) (tmp : list Z) (checksum ordinal tmp_pos : Z) (out : list LocationAwareFileEntry)
  : option (list LocationAwareFileEntry) :=
  match n with
  | O => Some out
  | S i =>
      chars ← slice tmp tmp_pos 13;
      laf ← out !! i;
      f ← read_entry (lfn_bytes (make_lfn chars (if decide (i = 0%nat) then Z.lor LAST_LFN_ENTRY ordinal else ordinal) checksum)) 0;
      fill_entries i tmp checksum (u8 (ordinal + 1)) (tmp_pos + 13) (<[i := with_file (fun _ => f) laf]> out)
  end.

(** The name with its terminator and the fill bytes; a name whose length is a multiple of thirteen
    leaves no room for the terminator. *)
Definition name_buffer (name : list Z) (n : Z) : option (list Z) :=
  if n <? zlen name + 1 then None else Some (name ++ [0] ++ replicate (Z.to_nat (n - (zlen name + 1))) 0xFF).

(** The upper-case short name in the last of the entries, behind the long file name entries. *)
Definition set_short_name (tmp : list Z) (out : list LocationAwareFileEntry) : option (Z * list LocationAwareFileEntry) :=
  e_file ← last out;
  short ← init tmp 0 SHORT_NAME_MAIN_SIZE; short ← upper short; b ← get_buf short; s ← slice b 0 SHORT_NAME_MAIN_SIZE;
  let e_file := with_file (with_short_name (s ++ replicate 3 TRAILING_SPACE)) e_file in
  Some (compute_short_name_checksum (file e_file), <[pred (length out) := e_file]> out).

Section driver.
Context {D : Type} `{MassStorage D} `{FATEngine}.
Implicit Types (d : D) (bpb : BootRecord32).

Definition make_long_file_name_entries (fuel : nat) d bpb (path : Path.Path)
  : option (IOStatus * list LocationAwareFileEntry * D) :=
  name ← Path.get_file_name path;
  valid ← validate_name name;
  if negb valid then Some (BAD_NAME, [], d) else
  q ← Math.div_round_up 64 (size name) MAX_CHAR_PER_ENTRY;
  let entry_range := u16 (1 + q) in
  parent ← Path.get_parent path; nothing ← Path.cstr []; dir ← Path.resolve parent (Path.mkPath nothing);
  '(st, out, d) ← find_empty_file_entries fuel d bpb dir entry_range [];
  match st with
  | V_OKAY =>
      b ← get_buf name; cs ← slice b 0 (size name);
      tmp ← name_buffer cs ((entry_range - 1) * MAX_CHAR_PER_ENTRY);
      '(checksum, out) ← set_short_name tmp out;
      out ← fill_entries (Z.to_nat (entry_range - 1)) tmp checksum 1 0 out;
      Some (IO_NONE, out, d)
  | _ => Some (IO_DEV_ERROR, out, d)
  end.

(** [for (auto& entry : file_entries) if (!update(entry)) return DEV_ERROR] *)
Fixpoint update_all d bpb (l : list LocationAwareFileEntry) : option (bool * D) :=
  match l with
  | [] => Some (true, d)
  | e :: l => '(ok, d) ← Manager.update d bpb e; if (ok : bool) then update_all d bpb l else Some (false, d)
  end.

Definition map_last (f : LocationAwareFileEntry -> LocationAwareFileEntry) (l : list LocationAwareFileEntry) : option (list LocationAwareFileEntry) :=
  e ← last l; Some (<[pred (length l) := f e]> l).

Definition create_file (fuel : nat) d bpb (path : Path.Path) (attributes : Z) : option (IOStatus * D) :=
  let dummy := with_attributes attributes empty_entry in
  if has_attribute dummy VOLUME_ID || has_attribute dummy DIRECTORY then Some (BAD_ATTRIBUTE, d) else
  '(as_, file_entries, d) ← make_long_file_name_entries fuel d bpb path;
  if decide (as_ <> IO_NONE) then Some (as_, d) else
  file_entries ← map_last (with_file (fun e => with_attributes attributes (Entry.with_cluster 0 e))) file_entries;
  '(ok, d) ← update_all d bpb file_entries;
  Some (if (ok : bool) then CREATED else IO_DEV_ERROR, d).

(** The name of the entry of a directory itself and of its parent. *)
Definition dot_name (n : nat) : list Z := replicate n 46 ++ zeros (11 - Z.of_nat n).

(** The contents of a new directory: the entries of itself and of its parent. *)
Definition directory_cluster bpb (cl : Z) (p_dir : FileEntry) : option (list Z) :=
  let dot := with_attributes (attr_value DIRECTORY) (with_short_name (dot_name 1) (Entry.with_cluster cl empty_entry)) in
  let dotdot := with_size (file_size p_dir) (with_attributes (attr_value DIRECTORY) (with_short_name (dot_name 2)
                  (Entry.with_cluster (first_cluster_low p_dir) empty_entry))) in
  b ← write_entry (zeros (cluster_size bpb)) 0 dot; write_entry b 1 dotdot.

Definition create_directory (fuel : nat) d bpb (path : Path.Path) (attributes : Z) : option (IOStatus * D) :=
  let dummy := with_attributes attributes empty_entry in
  if has_attribute dummy VOLUME_ID || has_attribute dummy ARCHIVE then Some (BAD_ATTRIBUTE, d) else
  parent ← Path.get_parent path; nothing ← Path.cstr []; dir ← Path.resolve parent (Path.mkPath nothing);
  '(st, p_dir) ← search fuel d bpb dir;
  match st with
  | V_OKAY =>
      '(as_, file_entries, d) ← make_long_file_name_entries fuel d bpb path;
      if decide (as_ <> IO_NONE) then Some (as_, d) else
      new_cluster ← fat_find_next_free_cluster d bpb;
      if new_cluster =? 0 then Some (DEV_OUT_OF_MEMORY, d) else
      file_entries ← map_last (with_file (fun e => Entry.with_cluster new_cluster (with_attributes attributes (with_size 0 e)))) file_entries;
      dir_cluster ← directory_cluster bpb new_cluster (file p_dir);
      let '(ok, d) := data_cluster_write d bpb dir_cluster new_cluster in
      if negb ok then Some (IO_DEV_ERROR, d) else
      '(ok, d) ← update_all d bpb file_entries;
      if negb ok then Some (IO_DEV_ERROR, d) else
      '(ok, d) ← fat_write d bpb new_cluster fat_get_eof_marker;
      if (ok : bool) then Some (CREATED, d) else
      e_file ← last file_entries;
      '(_, d) ← Manager.update d bpb (with_file (Entry.with_cluster 0) e_file);
      Some (IO_DEV_ERROR, d)
  | _ => Some (IO_DEV_ERROR, d)
  end.

(** ** Deleting *)

Definition same_location (a b : FileEntryLocation) : bool := (lcluster a =? lcluster b) && (entry_idx a =? entry_idx b).

(** The loop of [delete_file] over the directory; the flag tells that no write failed. *)
Fixpoint delete_entries (fuel : nat) d bpb it (file : LocationAwareFileEntry) : option (bool * D) :=
  match fuel with
  | O => None
  | S fuel =>
      if has_next it then
        let c_entry := _current_entry_as_laf it in
        if (lcluster (location c_entry) =? lcluster (first_lfn_entry file))
           && (entry_idx (location c_entry) <? entry_idx (first_lfn_entry file))
        then it ← increment d bpb it; delete_entries fuel d bpb it file
        else
          '(ok, d) ← Manager.update d bpb (with_file deleted_entry c_entry);
          if negb ok then Some (false, d) else
          if same_location (location c_entry) (location file) then Some (true, d)
          else it ← increment d bpb it; delete_entries fuel d bpb it file
      else Some (true, d)
  end.

(** The loop that frees the clusters of the file. *)
Fixpoint free_chain (fuel : nat) d bpb (c : Z) : option D :=
  match fuel with
  | O => None
  | S fuel =>
      if negb (c =? 0) && (c <? get_max_cluster_count) then
        next_cluster ← fat_read d bpb c; '(_, d) ← fat_write d bpb c 0; free_chain fuel d bpb next_cluster
      else Some d
  end.

Definition delete_file (fuel : nat) d bpb (f : LocationAwareFileEntry) : option (IOStatus * D) :=
  it ← begin d bpb (lcluster (first_lfn_entry f)) ATOMIC;
  '(ok, d) ← delete_entries fuel d bpb it f;
  if negb ok then Some (IO_DEV_ERROR, d) else
  d ← free_chain fuel d bpb (cluster (file f));
  Some (DELETED, d).

(** The loop of [delete_directory] over the entries; [del] deletes a subdirectory. *)
Fixpoint delete_contents (fuel : nat) (del : D -> LocationAwareFileEntry -> option (IOStatus * D)) (chain_fuel : nat) d bpb it
  : option (FATDirectoryIterator * D) :=
  match fuel with
  | O => None
  | S fuel =>
      if has_next it then
        let c_entry := _current_entry_as_laf it in
        '(_, d) ← (if has_attribute (file c_entry) DIRECTORY then del d c_entry else delete_file chain_fuel d bpb c_entry);
        it ← increment d bpb it;
        delete_contents fuel del chain_fuel d bpb it
      else Some (it, d)
  end.

(** [depth] bounds the nesting of the directories, [fuel] the entries of one and the length of a chain. *)
Fixpoint delete_directory (depth fuel : nat) d bpb (dir : LocationAwareFileEntry) : option (IOStatus * D) :=
  match depth with
  | O => None
  | S depth =>
      name ← make_short_name (file dir);
      dot ← Path.is_literal name [Path.DOT];
      dots ← (if (dot : bool) then Some true else Path.is_literal name [Path.DOT; Path.DOT]);
      if (dots : bool) then
        '(ok, d) ← Manager.update d bpb (with_file deleted_entry dir);
        Some (if (ok : bool) then DELETED else IO_DEV_ERROR, d)
      else
        it ← begin d bpb (cluster (file dir)) LIST_DIRECTORY;
        '(it, d) ← delete_contents fuel (fun d c => delete_directory depth fuel d bpb c) fuel d bpb it;
        if decide (_state it = END_OF_DIRECTORY) then delete_file fuel d bpb dir else Some (IO_DEV_ERROR, d)
  end.

(** ** The interface of the driver *)

Definition table : Type := list (Z * BootRecord32).

Definition find_storage_dev_ref (t : table) (handle : Z) : option BootRecord32 :=
  snd <$> List.find (fun m => fst m =? handle) t.

(** [exists]: the iterator over the parts of the path outlives the list it was made from; [released] is what
    its nodes hold when they are read, nothing when the memory was reused. *)
Definition exists_ (released : list String -> option (list String)) (fuel : nat) d bpb (path : Path.Path) : option IOStatus :=
  parts ← Path.split_path path; parts ← released parts;
  '(st, _) ← navigate_to fuel d bpb (get_root_directory_cluster bpb) parts;
  Some (match st with NAV_NOT_FOUND => NOT_FOUND | NAV_FOUND => FOUND | _ => IO_DEV_ERROR end).

(** The zeroing of the FATs. *)
Fixpoint zero_sectors (fuel : nat) d (sector_size i limit : Z) : option (bool * D) :=
  match fuel with
  | O => None
  | S fuel =>
      if i <? limit then
        let '(n, d) := vm_mass_storage_device_write d (zeros sector_size) i in
        if n =? 0 then Some (false, d) else zero_sectors fuel d sector_size (i + 1) limit
      else Some (true, d)
  end.

(** The number of data clusters, as [format] and [mount] compute it. *)
Definition total_clusters bpb : option Z :=
  let b := BPB bpb in
  root_dir_sectors ← Math.div_round_up 32 (u16 (root_entry_count b * 32)) (bytes_per_sector b);
  let total_sectors := if total_sectors_16 b =? 0 then total_sectors_32 b else total_sectors_16 b in
  let data_sectors := u32 (total_sectors - u32 (reserved_sector_count b + u32 (fat_count b * fat_get_size bpb) + u16 root_dir_sectors)) in
  if sectors_per_cluster b =? 0 then None else Some (data_sectors / sectors_per_cluster b).

Definition format d (sector_size sector_count : Z) : option (FormatStatus * D) :=
  boot_record_buf ← make_new_boot_record (zeros sector_size) sector_size (u32 sector_count);
  bpb ← read_boot_record boot_record_buf;
  let '(n, d) := vm_mass_storage_device_write d boot_record_buf 0 in
  if n <? sector_size then Some (F_DEV_ERROR, d) else
  let backup := get_backup_boot_record_sector bpb in
  let '(ok, d) := (if 0 <? backup then let '(n, d) := vm_mass_storage_device_write d boot_record_buf backup in (negb (n <? sector_size), d)
                   else (true, d)) in
  if negb ok then Some (F_DEV_ERROR, d) else
  let limit := u32 (fat_get_size bpb * fat_count (BPB bpb)) in
  '(ok, d) ← zero_sectors (S (Z.to_nat limit)) d sector_size (reserved_sector_count (BPB bpb)) limit;
  if negb ok then Some (F_DEV_ERROR, d) else
  '(ok, d) ← fat_write d bpb 0 (Z.lor 0xFFFFFFFF (media_descriptor_type (BPB bpb)));
  if negb ok then Some (F_DEV_ERROR, d) else
  clusters ← total_clusters bpb;
  '(ok, d) ← fat_write d bpb 1 (u32 (clusters + 1));
  if negb ok then Some (F_DEV_ERROR, d) else
  '(ok, d) ← fat_write d bpb (get_root_directory_cluster bpb) fat_get_eof_marker;
  if negb ok then Some (F_DEV_ERROR, d) else
  zeroes ← slice (zeros sector_size) 0 (cluster_size bpb);
  let '(ok, d) := data_cluster_write d bpb zeroes (get_root_directory_cluster bpb) in
  Some (if (ok : bool) then FORMATTED else F_DEV_ERROR, d).

Definition mount (t : table) d (handle sector_size : Z) : option (MountStatus * table) :=
  match find_storage_dev_ref t handle with
  | Some _ => Some (ALREADY_MOUNTED, t)
  | None =>
      let '(n, boot_record_buf) := vm_mass_storage_device_read d sector_size 0 in
      if negb (n =? sector_size) then Some (M_DEV_ERROR, t) else
      bpb ← read_boot_record boot_record_buf;
      clusters ← total_clusters bpb;
      if can_mount clusters then Some (MOUNTED, t ++ [(handle, bpb)]) else Some (NOT_SUPPORTED, t)
  end.

(** The first reference to the device is taken out of the table. *)
Fixpoint remove_ref (t : table) (handle : Z) : table :=
  match t with [] => [] | m :: t => if fst m =? handle then t else m :: remove_ref t handle end.

Definition unmount (t : table) (handle : Z) : MountStatus * table :=
  match find_storage_dev_ref t handle with
  | None => (NOT_MOUNTED, t)
  | Some _ => (UNMOUNTED, remove_ref t handle)
  end.

Fixpoint all_valid (parts : list String) : option bool :=
  match parts with
  | [] => Some true
  | str :: parts => ok ← validate_name str; if (ok : bool) then all_valid parts else Some false
  end.

Definition is_valid_file_path (path : Path.Path) : option bool := parts ← Path.split_path path; all_valid parts.

Definition create (released : list String -> option (list String)) (fuel : nat) (t : table) d (handle : Z) (path : Path.Path) (attributes : Z) : option (IOStatus * D) :=
  match find_storage_dev_ref t handle with
  | None => Some (DEV_UNKNOWN, d)
  | Some bpb =>
      parts ← Path.split_path path;
      match parts with
      | [] => Some (BAD_PATH, d)
      | _ =>
          st ← exists_ released fuel d bpb path;
          if decide (st <> NOT_FOUND) then Some (st, d) else
          let fat_attributes := node_attributes_to_fat_file_attributes attributes in
          if negb (Z.land fat_attributes (attr_value DIRECTORY) =? 0) then create_directory fuel d bpb path fat_attributes
          else create_file fuel d bpb path fat_attributes
      end
  end.

Definition open (fuel : nat) (t : table) d (handle : Z) (path : Path.Path) (mode : Node.IOMode) : option (IOStatus * option Node.FATNode) :=
  match find_storage_dev_ref t handle with
  | None => Some (DEV_UNKNOWN, None)
  | Some bpb =>
      '(st, entry) ← search fuel d bpb path;
      match st with
      | V_OKAY => n ← Node.open fuel d bpb mode entry; Some (OPENED, Some n)
      | V_NOT_FOUND => Some (NOT_FOUND, None)
      | V_BAD_PATH => Some (BAD_PATH, None)
      | V_DEV_ERROR => Some (IO_DEV_ERROR, None)
      end
  end.

(** What [search] answers to the operations that need an entry. *)
Definition access_status (st : VolumeAccessStatus) : option IOStatus :=
  match st with
  | V_BAD_PATH => Some BAD_PATH | V_NOT_FOUND => Some NOT_FOUND | V_DEV_ERROR => Some IO_DEV_ERROR | V_OKAY => None
  end.

Definition entry_info (e : LocationAwareFileEntry) : NodeInfo :=
  mkInfo (file_name e) (file_size (file e)) (entry_node_attributes (file e)).

Definition find_node (fuel : nat) (t : table) d (handle : Z) (path : Path.Path) : option (IOStatus * option NodeInfo) :=
  match find_storage_dev_ref t handle with
  | None => Some (DEV_UNKNOWN, None)
  | Some bpb =>
      '(st, node) ← search fuel d bpb path;
      match access_status st with
      | Some err => Some (err, None)
      | None => Some (FOUND, Some (entry_info node))
      end
  end.

Definition delete_node (depth fuel : nat) (t : table) d (handle : Z) (path : Path.Path) : option (IOStatus * D) :=
  match find_storage_dev_ref t handle with
  | None => Some (DEV_UNKNOWN, d)
  | Some bpb =>
      parts ← Path.split_path path;
      match parts with
      | [] => Some (BAD_PATH, d)
      | _ =>
          '(st, to_delete) ← search fuel d bpb path;
          match access_status st with
          | Some err => Some (err, d)
          | None => if has_attribute (file to_delete) DIRECTORY then delete_directory depth fuel d bpb to_delete
                    else delete_file fuel d bpb to_delete
          end
      end
  end.

Definition open_directory_stream (fuel : nat) (t : table) d (handle : Z) (path : Path.Path) : option (IOStatus * option FATDirectoryIterator) :=
  match find_storage_dev_ref t handle with
  | None => Some (DEV_UNKNOWN, None)
  | Some bpb =>
      '(st, file_entry) ← search fuel d bpb path;
      match access_status st with
      | Some err => Some (err, None)
      | None =>
          if negb (has_attribute (file file_entry) DIRECTORY) then Some (BAD_PATH, None) else
          it ← begin d bpb (cluster (file file_entry)) LIST_DIRECTORY; Some (OPENED, Some it)
      end
  end.

(** [FATDirectoryStream::next] *)
Definition stream_next d bpb it : option ((NodeInfo + DirectoryStreamStatus) * FATDirectoryIterator) :=
  match _state it with
  | END_OF_DIRECTORY => Some (inr DS_END_OF_DIRECTORY, it)
  | CORRUPT_LFN_ENTRY | IT_DEV_ERROR => Some (inr DS_IO_ERROR, it)
  | ITERATING => it' ← increment d bpb it; Some (inl (entry_info (_current_entry_as_laf it)), it')
  end.
End driver.
End Driver.
