(* ===== verification/FatDirectoryProps.v ===== *)
(** * Theorems on FAT directories

    Long file name entries, and the iteration over a directory: the places of its entries in order, the
    step of the iterator from one place to the next, and what the iteration lists. *)

From S2P Require Import Prelude Kre KString KStringProps VfsPath VfsPathProps FatVolume FatVolumeProps FatFile FatFileProps FatDirectory FatDriver.

(** ** Long file name entries *)
Module LfnProps.
Import KString StrProps LeProps Entry FileProps Lfn Directory Driver.

Lemma encode2 v : Le.encode 2 v = [v mod 256; v / 256 mod 256].
Proof. reflexivity. Qed.

Lemma decode2 v : in_width 16 v -> v mod 256 + 256 * (v / 256 mod 256 + 256 * 0) = v.
Proof. intros H. exact (decode_2 v H). Qed.

Lemma decode1 v : in_width 8 v -> v mod 256 + 256 * 0 = v.
Proof. intros H. exact (decode_1 v H). Qed.

Lemma mod_byte v : in_width 8 (v mod 256).
Proof. unfold in_width. change (2 ^ 8) with 256. apply Z.mod_pos_bound. lia. Qed.

Record lfn_ok (e : LongFileNameEntry) : Prop := {
  lo_bytes : Forall (in_width 8) [order e; l_attributes e; long_entry_type e; short_file_name_checksum e];
  lo_sizes : length (file_name_1 e) = 5%nat /\ length (file_name_2 e) = 6%nat /\ length (file_name_3 e) = 2%nat;
  lo_words : Forall (in_width 16) (reserved e :: file_name_1 e ++ file_name_2 e ++ file_name_3 e) }.

Lemma lfn_bytes_len e : lfn_ok e -> zlen (lfn_bytes e) = 32 /\ Forall (in_width 8) (lfn_bytes e).
Proof.
  intros [_ (H1 & H2 & H3) _]. destruct e as [o n1 a t k n2 r n3]. cbn in *.
  do 5 (destruct n1 as [|? n1]; [done|]). destruct n1; [|done]. do 6 (destruct n2 as [|? n2]; [done|]). destruct n2; [|done].
  do 2 (destruct n3 as [|? n3]; [done|]). destruct n3; [|done]. split; [done|].
  unfold lfn_bytes. cbn [order file_name_1 l_attributes long_entry_type short_file_name_checksum file_name_2 reserved file_name_3
    fmap list_fmap mjoin list_join Le.encode app]. repeat first [apply Forall_nil_2 | apply Forall_cons_2; [apply mod_byte|]].
Qed.

Lemma read_lfn_bytes e : lfn_ok e -> read_lfn (lfn_bytes e) 0 = Some e.
Proof.
  intros [Hb (H1 & H2 & H3) Hw]. destruct e as [o n1 a t k n2 r n3]. cbn in *.
  do 5 (destruct n1 as [|? n1]; [done|]). destruct n1; [|done]. do 6 (destruct n2 as [|? n2]; [done|]). destruct n2; [|done].
  do 2 (destruct n3 as [|? n3]; [done|]). destruct n3; [|done].
  cbn [app] in Hw. repeat match goal with H : Forall _ (_ :: _) |- _ => apply Forall_cons_1 in H as [? H] end.
  transitivity (Some (mkLfn (o mod 256 + 256 * 0)
    ((fun v => v mod 256 + 256 * (v / 256 mod 256 + 256 * 0)) <$> [z; z0; z1; z2; z3]) (a mod 256 + 256 * 0) (t mod 256 + 256 * 0) (k mod 256 + 256 * 0)
    ((fun v => v mod 256 + 256 * (v / 256 mod 256 + 256 * 0)) <$> [z4; z5; z6; z7; z8; z9]) (r mod 256 + 256 * (r / 256 mod 256 + 256 * 0))
    ((fun v => v mod 256 + 256 * (v / 256 mod 256 + 256 * 0)) <$> [z10; z11]))); [reflexivity|].
  cbn [fmap list_fmap]. rewrite !decode2 by done. by rewrite !decode1 by done.
Qed.

(** An entry of a cluster as the 32 bytes it consists of. *)
Lemma entry_of_bytes b : zlen b = 32 -> Forall (in_width 8) b ->
  exists e, read_entry b 0 = Some e /\ entry_ok e /\ entry_bytes e = b.
Proof.
  intros Hl Hb. unfold zlen in Hl. do 32 (destruct b as [|? b]; [done|]). destruct b; [|cbn in Hl; lia]. clear Hl.
  eexists. split; [reflexivity|]. repeat match goal with H : Forall _ (_ :: _) |- _ => apply Forall_cons_1 in H as [? H] end.
  assert (forall x y, in_width 8 x -> in_width 8 y -> in_width 16 (x + 256 * (y + 256 * 0))
    /\ Le.encode 2 (x + 256 * (y + 256 * 0)) = [x; y]) as Hw.
  { intros x y Hx Hy. split; [unfold in_width in *; change (2 ^ 8) with 256 in *; change (2 ^ 16) with 65536; lia|].
    apply (encode_decode [x; y]). by repeat (apply Forall_cons_2; [done|]). }
  assert (forall x, in_width 8 x -> in_width 8 (x + 256 * 0) /\ Le.encode 1 (x + 256 * 0) = [x]) as Hs.
  { intros x Hx. split; [unfold in_width in *; lia|]. apply (encode_decode [x]). by apply Forall_cons_2. }
  split.
  - constructor; cbn.
    + split; [done|]. by repeat (apply Forall_cons_2; [done|]).
    + repeat (apply Forall_cons_2; [by apply Hs|]). apply Forall_nil_2.
    + repeat (apply Forall_cons_2; [by apply Hw|]). apply Forall_nil_2.
    + match goal with |- in_width 32 ?v => pose proof (decode_range [z27; z28; z29; z30] ltac:(by repeat (apply Forall_cons_2; [done|]))) end. done.
  - transitivity ([z; z0; z1; z2; z3; z4; z5; z6; z7; z8; z9] ++ Le.encode 1 (Le.decode [z10]) ++ Le.encode 1 (Le.decode [z11]) ++ Le.encode 1 (Le.decode [z12])
      ++ Le.encode 2 (Le.decode [z13; z14]) ++ Le.encode 2 (Le.decode [z15; z16]) ++ Le.encode 2 (Le.decode [z17; z18]) ++ Le.encode 2 (Le.decode [z19; z20])
      ++ Le.encode 2 (Le.decode [z21; z22]) ++ Le.encode 2 (Le.decode [z23; z24]) ++ Le.encode 2 (Le.decode [z25; z26]) ++ Le.encode 4 (Le.decode [z27; z28; z29; z30])); [reflexivity|].
    assert (Le.encode 4 (Le.decode [z27; z28; z29; z30]) = [z27; z28; z29; z30]) as ->.
    { apply (encode_decode [z27; z28; z29; z30]). by repeat (apply Forall_cons_2; [done|]). }
    assert (forall x, in_width 8 x -> Le.encode 1 (Le.decode [x]) = [x]) as E1 by (intros; by apply Hs).
    assert (forall x y, in_width 8 x -> in_width 8 y -> Le.encode 2 (Le.decode [x; y]) = [x; y]) as E2 by (intros; by apply Hw).
    by rewrite !E1, !E2 by done.
Qed.

(** ** The name that long file name entries spell *)

(** [count] entries in all; the entries at these places, the last part of the name first. *)
Inductive lfn_run (look : FileEntryLocation -> option LongFileNameEntry) (count : Z) : list FileEntryLocation -> list Z -> Prop :=
  | run_nil : lfn_run look count [] []
  | run_cons loc locs e p name :
      look loc = Some e -> Bits.nibble_get (order e) 0 = zlen (loc :: locs) ->
      lfn_part (lfn_chars e) (zlen (loc :: locs)) count = Some (of_chars p) -> fits p ->
      lfn_run look count locs name -> fits (name ++ p) -> lfn_run look count (loc :: locs) (name ++ p).

Lemma run_fits look count locs name : lfn_run look count locs name -> fits name.
Proof. by destruct 1. Qed.

Lemma run_ext look look' count locs name : (forall loc, loc ∈ locs -> look' loc = look loc) ->
  lfn_run look count locs name -> lfn_run look' count locs name.
Proof.
  intros He H. induction H as [|loc locs e p name Hl Hn Hp Hf Hr IH Hfit]; [constructor|].
  econstructor; try done; [|apply IH; set_solver]. rewrite He; [done|set_solver].
Qed.

Lemma widen_byte c : in_width 8 c -> Bits.byte_get (widen c) 0 = c /\ in_width 16 (widen c).
Proof.
  unfold in_width, widen. change (2 ^ 8) with 256. change (2 ^ 16) with 65536. intros H. unfold Bits.byte_get. change (7 <? 0) with false.
  cbn [Z.mul]. rewrite Z.shiftr_0_r. change 255 with (Z.ones 8). rewrite Z.land_ones by lia. change (2 ^ 8) with 256.
  destruct (c <? 128); bool_prop; [rewrite Z.mod_small by lia; split; [done|lia]|]. replace (0xFF00 + c) with (c + 255 * 256) by lia.
  rewrite Z_mod_plus_full, Z.mod_small by lia. split; [done|lia].
Qed.

Lemma make_lfn_chars chars o k : length chars = 13%nat -> Forall (in_width 8) chars -> lfn_chars (make_lfn chars o k) = chars.
Proof.
  intros Hl Hc. unfold lfn_chars, make_lfn. cbn [file_name_1 file_name_2 file_name_3]. rewrite <- !fmap_app.
  replace (take 5 chars ++ take 6 (drop 5 chars) ++ drop 11 chars) with chars.
  - rewrite <- list_fmap_compose. rewrite <- (list_fmap_id chars) at 2. apply list_fmap_ext. intros i c Hi. cbn.
    apply widen_byte. by eapply Forall_lookup_1 in Hc.
  - rewrite <- (take_drop 5 chars) at 1. f_equal. rewrite <- (take_drop 6 (drop 5 chars)) at 1. by rewrite drop_drop.
Qed.

Lemma make_lfn_ok chars o k : length chars = 13%nat -> Forall (in_width 8) chars -> in_width 8 o -> in_width 8 k -> lfn_ok (make_lfn chars o k).
Proof.
  intros Hl Hc Ho Hk. constructor; cbn [order l_attributes long_entry_type short_file_name_checksum file_name_1 file_name_2 file_name_3 reserved make_lfn].
  - repeat (apply Forall_cons_2; [done|]). apply Forall_nil_2.
  - rewrite !length_fmap, !length_take, !length_drop. lia.
  - apply Forall_cons_2; [done|]. rewrite !Forall_app, !Forall_fmap.
    assert (forall l, Forall (in_width 8) l -> Forall (in_width 16 ∘ widen) l) as Hw.
    { intros l H. eapply Forall_impl; [exact H|]. intros c Hcc. by apply widen_byte. }
    repeat split; apply Hw; [by apply Forall_take|by apply Forall_take, Forall_drop|by apply Forall_drop].
Qed.

(** The characters of a valid name. *)
Definition name_char (c : Z) : Prop := long_char c = true /\ c <> 0.

Lemma name_char_range c : name_char c -> 33 <= c < 127.
Proof.
  intros [H Hz]. unfold long_char, is_digit, is_big_letter, is_small_letter, long_special, short_special in H.
  cbn [existsb] in H. repeat (rewrite ?orb_true_iff, ?andb_true_iff, ?Z.eqb_eq, ?Z.leb_le in H). 
  repeat match goal with H : _ \/ _ |- _ => destruct H as [H|H] end; try lia; done.
Qed.

Lemma skip_trailing_spec p q : p <> [] -> Forall name_char p -> Forall (fun c => c = 0xFF \/ c = 0) q ->
  skip_trailing (length (p ++ q)) (p ++ q) = Some (zlen p).
Proof.
  intros Hp Hpc. induction q as [|x q IH] using rev_ind; intros Hq.
  - rewrite app_nil_r. destruct p as [|x p _] using rev_ind; [done|]. apply Forall_app in Hpc as [_ Hx]. rewrite Forall_singleton in Hx. apply name_char_range in Hx.
    rewrite length_app, Nat.add_1_r. cbn [skip_trailing]. rewrite list_lookup_middle by done. cbn [mbind option_bind].
    replace (x =? 255) with false by (symmetry; apply Z.eqb_neq; lia). replace (x =? 0) with false by (symmetry; apply Z.eqb_neq; lia). cbn [orb].
    unfold zlen. by rewrite length_app, Nat.add_1_r.
  - apply Forall_app in Hq as [Hq Hx]. rewrite Forall_singleton in Hx. rewrite app_assoc, (length_app (p ++ q)), Nat.add_1_r. cbn [skip_trailing].
    rewrite list_lookup_middle by done. cbn [mbind option_bind].
    replace ((x =? 255) || (x =? 0)) with true by (symmetry; destruct Hx as [->| ->]; done).
    assert (forall l n y, (n <= length l)%nat -> skip_trailing n (l ++ [y]) = skip_trailing n l) as Hs.
    { intros l n y. induction n as [|n IHn]; intros Hn; [done|]. cbn [skip_trailing]. rewrite lookup_app_l by lia. rewrite IHn by lia. done. }
    rewrite Hs by done. by apply IH.
Qed.

(** The part of the name in the entry with number [k] of [count]. *)
Lemma part_full chars k count : length chars = 13%nat -> Forall name_char chars -> k <> count -> lfn_part chars k count = Some (of_chars chars).
Proof.
  intros Hl Hc Hk. unfold lfn_part. replace (k =? count) with false by (symmetry; by apply Z.eqb_neq).
  assert (init chars 0 13 = Some (of_chars chars)) as Hi.
  { pose proof (init_front chars []) as Hi. rewrite app_nil_r in Hi. unfold zlen in Hi. by rewrite Hl in Hi. }
  destruct (k =? 1); [|done]. destruct chars as [|x chars]; [done|]. apply Forall_cons_1 in Hc as [Hx%name_char_range _].
  cbn [skip_leading]. change ((x :: chars) !! 0%nat) with (Some x). cbn [mbind option_bind].
  replace (x =? 32) with false by (symmetry; apply Z.eqb_neq; lia). exact Hi.
Qed.

Lemma part_last p q count : p <> [] -> length (p ++ q) = 13%nat -> Forall name_char p -> Forall (fun c => c = 0xFF \/ c = 0) q ->
  lfn_part (p ++ q) count count = Some (of_chars p).
Proof.
  intros Hp Hl Hc Hq. unfold lfn_part. rewrite Z.eqb_refl. pose proof (skip_trailing_spec p q Hp Hc Hq) as Hs. rewrite Hl in Hs. rewrite Hs.
  apply init_front.
Qed.

(** ** The entries that [fill_entries] makes *)
Section entries.
Context (name pad : list Z) (N : nat) (checksum : Z).
Context (Hname : Forall name_char name) (Hpad : Forall (fun c => c = 0xFF \/ c = 0) pad).
Context (Hlen : length (name ++ pad) = (13 * N)%nat) (HN : (N <= 15)%nat) (Hlast : (13 * (N - 1) < length name)%nat) (Hpos : (1 <= N)%nat).

Definition chunk (k : nat) : list Z := take 13 (drop (13 * k) (name ++ pad)).

(** The order field of the entry with number [k]. *)
Definition ord (k : nat) : Z := if decide (k = N) then Z.lor LAST_LFN_ENTRY (Z.of_nat k) else Z.of_nat k.

Lemma chunk_inner k : (k + 1 < N)%nat -> chunk k = take 13 (drop (13 * k) name) /\ length (chunk k) = 13%nat.
Proof using All.
  intros Hk. unfold chunk. split.
  - rewrite drop_app_le, take_app_le by (rewrite ?length_drop; lia). done.
  - rewrite length_take, length_drop. lia.
Qed.

Lemma chunk_last : chunk (N - 1) = drop (13 * (N - 1)) name ++ pad /\ length (chunk (N - 1)) = 13%nat.
Proof using All.
  unfold chunk. split; [|rewrite length_take, length_drop; lia].
  rewrite take_ge by (rewrite length_drop; lia). by rewrite drop_app_le by lia.
Qed.

Lemma chunk_width k : (k < N)%nat -> length (chunk k) = 13%nat /\ Forall (in_width 8) (chunk k).
Proof using All.
  intros Hk. unfold chunk. split; [rewrite length_take, length_drop; lia|]. apply Forall_take, Forall_drop, Forall_app. split.
  - eapply Forall_impl; [exact Hname|]. intros c Hc%name_char_range. unfold in_width. change (2 ^ 8) with 256. lia.
  - eapply Forall_impl; [exact Hpad|]. intros c [->| ->]; by split.
Qed.

Lemma ord_spec k : (1 <= k <= N)%nat -> Bits.nibble_get (ord k) 0 = Z.of_nat k /\ in_width 8 (ord k).
Proof using All.
  intros Hk. unfold ord. assert (exists j, (j < 15)%nat /\ k = S j) as (j & Hj & ->) by (exists (pred k); lia).
  destruct (decide _); do 15 (destruct j as [|j]; [by split|]); lia.
Qed.

Lemma chunk_part k : (1 <= k <= N)%nat ->
  exists p, lfn_part (chunk (k - 1)) (Z.of_nat k) (Z.of_nat N) = Some (of_chars p) /\ take (13 * k) name = take (13 * (k - 1)) name ++ p
    /\ (length p <= 13)%nat.
Proof using All.
  intros Hk. destruct (decide (k = N)) as [->|Hne].
  - destruct chunk_last as [E El]. exists (drop (13 * (N - 1)) name). rewrite E in El. rewrite E. split_and!.
    + apply part_last; try done; [|by apply Forall_drop]. intros En. apply (f_equal length) in En. rewrite length_drop in En. cbn in En. lia.
    + rewrite take_drop. apply take_ge. rewrite length_app in Hlen. lia.
    + rewrite length_app in El. lia.
  - destruct (chunk_inner (k - 1)) as [E El]; [lia|]. exists (take 13 (drop (13 * (k - 1)) name)). rewrite E in El. rewrite E. split_and!.
    + apply part_full; [done|by apply Forall_take, Forall_drop|lia].
    + rewrite take_take_drop. f_equal. lia.
    + lia.
Qed.

(** The entries spell the name. *)
Lemma run_of_entries look m : forall locs, length locs = m -> (m <= N)%nat ->
  (forall i loc, locs !! i = Some loc -> look loc = Some (make_lfn (chunk (m - 1 - i)) (ord (m - i)) checksum)) ->
  lfn_run look (Z.of_nat N) locs (take (13 * m) name).
Proof using All.
  induction m as [|m IH]; intros locs Hl Hm Hlook.
  - destruct locs; [|done]. change (13 * 0)%nat with 0%nat. rewrite take_0. constructor.
  - destruct locs as [|loc locs]; [done|]. cbn in Hl.
    destruct (chunk_part (S m)) as (p & Hp & Et & Hpl); [lia|]. replace (S m - 1)%nat with m in * by lia. rewrite Et.
    pose proof (Hlook 0%nat loc eq_refl) as Hl0. rewrite !Nat.sub_0_r in Hl0. replace (S m - 1)%nat with m in Hl0 by lia.
    destruct (chunk_width m) as [Hc Hw]; [lia|].
    assert (zlen (loc :: locs) = Z.of_nat (S m)) as Ez by (unfold zlen; cbn; lia).
    apply (run_cons _ _ _ _ _ _ _ Hl0).
    + rewrite Ez. apply ord_spec. lia.
    + rewrite make_lfn_chars by done. rewrite Ez. exact Hp.
    + unfold fits, zlen. change (2 ^ 31) with 2147483648. lia.
    + apply IH; [lia|lia|]. intros i x Hi. rewrite (Hlook (S i) x Hi). do 2 f_equal; f_equal; lia.
    + unfold fits, zlen. rewrite length_app, length_take. change (2 ^ 31) with 2147483648. lia.
Qed.
End entries.
End LfnProps.

(** ** The iterator *)
Module DirProps.
Import KString StrProps LeProps Fat VolumeProps Entry Manager FileProps Lfn Directory Driver LfnProps.

#[export] Instance storage_eq_dec : EqDecision Storage.
Proof. solve_decision. Defined.

#[export] Instance string_eq_dec : EqDecision KString.String.
Proof. solve_decision. Defined.

Section dir.
Context {D : Type} `{MD : MassStorage D} `{!Disk D}.
Context (bpb : BootRecord32) (n : Z) (G : geometry bpb n).
Implicit Types (d : D) (l : list Z) (it : FATDirectoryIterator).
#[local] Abbreviation cs := (cluster_size bpb).
#[local] Abbreviation entry_at := (FileProps.entry_at bpb).
#[local] Abbreviation chain := (FileProps.chain bpb n).

(** The number of entries of a cluster; their index has 16 bits. *)
Definition per : Z := cs / ENTRY_SIZE.
Context (Hper : 1 <= per <= 65536).

Definition lfn_at d (loc : FileEntryLocation) : option LongFileNameEntry := read_lfn (cluster_bytes bpb d (lcluster loc)) (entry_idx loc).

(** The places of a directory with these clusters, and those of a cluster behind an index. *)
Definition places (c : Z) : list FileEntryLocation := mkLocation c <$> seqZ 0 per.

Definition locs l : list FileEntryLocation := mjoin (places <$> l).

Definition behind (c i : Z) : list FileEntryLocation := mkLocation c <$> seqZ (i + 1) (per - 1 - i).

Lemma behind_start c : places c = behind c (-1).
Proof using. unfold places, behind. do 2 f_equal; lia. Qed.

Lemma behind_cons c i : i + 1 < per -> behind c i = mkLocation c (i + 1) :: behind c (i + 1).
Proof using. intros Hi. unfold behind. rewrite seqZ_cons by lia. cbn [fmap list_fmap]. do 3 f_equal; lia. Qed.

Lemma behind_end c i : per - 1 <= i -> behind c i = [].
Proof using. intros Hi. unfold behind. by rewrite seqZ_nil by lia. Qed.

Lemma places_cons c : places c = mkLocation c 0 :: behind c 0.
Proof using Hper. rewrite behind_start. by rewrite behind_cons by lia. Qed.

(** The next place. *)
Lemma todo_cons c i l2 x xs : i < per -> behind c i ++ locs l2 = x :: xs ->
  (i + 1 < per /\ x = mkLocation c (i + 1) /\ xs = behind c (i + 1) ++ locs l2)
  \/ (i = per - 1 /\ exists c' l3, l2 = c' :: l3 /\ x = mkLocation c' 0 /\ xs = behind c' 0 ++ locs l3).
Proof using Hper.
  intros Hi E. destruct (decide (i + 1 < per)) as [Hlt|Hge].
  - rewrite behind_cons in E by done. injection E as <- <-. by left.
  - right. split; [lia|]. rewrite behind_end in E by lia. destruct l2 as [|c' l3]; [done|].
    change (locs (c' :: l3)) with (places c' ++ locs l3) in E. rewrite places_cons in E. injection E as <- <-. eauto.
Qed.

Lemma todo_nil c i l2 : i < per -> behind c i ++ locs l2 = [] -> i = per - 1 /\ l2 = [].
Proof using Hper.
  intros Hi E. destruct (decide (i + 1 < per)) as [Hlt|Hge]; [by rewrite behind_cons in E|]. split; [lia|].
  rewrite behind_end in E by lia. destruct l2 as [|c' l3]; [done|]. change (locs (c' :: l3)) with (places c' ++ locs l3) in E.
  by rewrite places_cons in E.
Qed.

Lemma cluster_len d c : zlen (cluster_bytes bpb d c) = cs.
Proof using G. pose proof (cluster_size_range bpb n G). apply bytes_of_len. lia. Qed.

Lemma slice_some (buf : list Z) off k : 0 <= off -> 0 <= k -> off + k <= zlen buf -> exists s, slice buf off k = Some s /\ zlen s = k.
Proof using.
  intros. rewrite slice_nat by done. eexists. split; [done|]. unfold zlen in *. rewrite length_take, length_drop. lia.
Qed.

Lemma entry_at_some d c i : 0 <= i < per -> exists e, entry_at d (mkLocation c i) = Some e.
Proof using G.
  intros Hi. unfold FileProps.entry_at. cbn [lcluster entry_idx]. pose proof (cluster_len d c) as Hl.
  assert (32 * i + 32 <= cs) as Hf by (unfold per, ENTRY_SIZE in Hi; Z.to_euclidean_division_equations; lia).
  destruct (slice_some (cluster_bytes bpb d c) (32 * i) 32) as (s & Es & Hs); [lia|lia|lia|].
  unfold read_entry. rewrite Es. cbn [mbind option_bind]. assert (length s = 32%nat) as Hn by (unfold zlen in Hs; lia). clear Hs.
  do 32 (destruct s as [|? s]; [done|]). destruct s; [|done]. eexists. reflexivity.
Qed.

(** ** Standing on a place *)

Record on_cluster d it c l2 : Prop := {
  oc_cluster : _current_cluster it = c;
  oc_buf : _cluster_buf it = cluster_bytes bpb d c;
  oc_max : _max_entries_per_cluster it = per;
  oc_state : _state it = ITERATING;
  oc_chain : chain d (c :: l2) }.

(** The iterator is on the entry with index [i]; [-1] is in front of the first one. *)
Record standing d it c i l2 : Prop := {
  sd_on : on_cluster d it c l2;
  sd_range : -1 <= i < per;
  sd_index : _entry_index it = i;
  sd_entry : _current_entry it = Some (Z.max 0 i) }.

Lemma chain_tail d c l2 : chain d (c :: l2) -> chain d l2.
Proof using. intros H i x Hi. apply (H (S i) x Hi). Qed.

Lemma next_cluster_result d it c l2 : working d -> on_cluster d it c l2 -> is_Some (_current_entry it) ->
  match l2 with
  | [] => get_next_cluster d bpb it = Some (with_state END_OF_DIRECTORY it)
  | c' :: l3 => exists it', get_next_cluster d bpb it = Some it' /\ standing d it' c' 0 l3
      /\ _it_mode it' = _it_mode it /\ _current_entry_as_laf it' = _current_entry_as_laf it
  end.
Proof using G Hper.
  intros Hw [Ec Eb Em Es Hch] [p Hp]. unfold get_next_cluster. rewrite Hp, Ec.
  destruct (Hch 0%nat c eq_refl) as [Hv Hn]. rewrite (fat_read_working bpb n G d c Hw Hv). cbn [mbind option_bind].
  change get_max_cluster_count with FAT32.MAX_CLUSTER_COUNT. destruct l2 as [|c' l3]; cbn in Hn.
  - replace (FAT32.MAX_CLUSTER_COUNT <? _) with true by (symmetry; apply Z.ltb_lt; lia). done.
  - rewrite Hn. destruct (Hch 1%nat c' eq_refl) as [Hv' _]. pose proof (valid_max bpb n G c' Hv') as Hm.
    replace (FAT32.MAX_CLUSTER_COUNT <? c') with false by (symmetry; apply Z.ltb_ge; lia).
    destruct (cluster_read_result bpb n G d c' Hv') as (ok & buf & -> & Hb & Hok). rewrite (Hok Hw) in Hb |- *. cbn [negb].
    eexists. split; [done|]. split; [|done]. constructor; [constructor|lia|done|done]; cbn; try done; [by apply Hb|by apply chain_tail in Hch].
Qed.

(** ** What is at a place *)
Definition first_byte (e : FileEntry) : Z := nth 0 (short_name e) 0.

Lemma current_standing d it c i l2 : standing d it c i l2 -> 0 <= i -> current it = entry_at d (mkLocation c i).
Proof using. intros [[Ec Eb _ _ _] _ _ Ep] Hi. unfold current. rewrite Ep, Eb. cbn [mbind option_bind]. by rewrite Z.max_r by lia. Qed.

Lemma here_standing d it c i l2 : standing d it c i l2 -> 0 <= i -> here it = mkLocation c i.
Proof using Hper.
  intros [[Ec _ _ _ _] Hr Ei _] Hi. unfold here. rewrite Ec, Ei. f_equal. apply wrap_small. unfold in_width. change (2 ^ 16) with 65536. lia.
Qed.

Lemma advance_entry d it c i l2 : standing d it c i l2 -> i + 1 < per ->
  exists e it', entry_at d (mkLocation c (i + 1)) = Some e /\ _it_mode it' = _it_mode it
    /\ (if bool_decide (_it_mode it = LIST_DIRECTORY) && is_empty_end e
        then advance it = Some (with_state END_OF_DIRECTORY it')
        else advance it = Some (with_laf (mkLaf (of_chars []) e (mkLocation c (i + 1)) no_location) it')
             /\ standing d it' c (i + 1) l2).
Proof using G Hper.
  intros S Hi. destruct S as [[Ec Eb Em Es Hch] Hr Ei Ep]. destruct (entry_at_some d c (i + 1)) as [e He]; [lia|].
  exists e, (with_position (Some (i + 1)) (i + 1) it). split; [done|]. split; [done|]. unfold advance. rewrite Ei.
  assert (standing d (with_position (Some (i + 1)) (i + 1) it) c (i + 1) l2) as S'.
  { constructor; [by constructor|lia|done|]. cbn. by rewrite Z.max_r by lia. }
  rewrite (current_standing _ _ _ _ _ S') by lia. rewrite He. cbn [mbind option_bind]. cbn [_it_mode with_position].
  destruct (_ && _); [done|]. rewrite empty_string_chars. cbn [mbind option_bind].
  by rewrite (here_standing _ _ _ _ _ S') by lia.
Qed.

Lemma standing_laf d it c i l2 laf : standing d it c i l2 -> standing d (with_laf laf it) c i l2.
Proof using. intros [[] ? ? ?]. by constructor. Qed.

(** The first step of [operator++]. *)
Definition first_step d it : option FATDirectoryIterator :=
  if _max_entries_per_cluster it - 1 <=? _entry_index it then get_next_cluster d bpb it else advance it.

Lemma first_step_cons d it c i l2 x xs : working d -> standing d it c i l2 -> behind c i ++ locs l2 = x :: xs ->
  (forall e, entry_at d x = Some e -> is_empty_end e = true -> entry_idx x = 0 /\ 0 <= i) \/ _it_mode it <> LIST_DIRECTORY ->
  exists it' c' i' l3, first_step d it = Some it' /\ x = mkLocation c' i' /\ 0 <= i' /\ standing d it' c' i' l3
    /\ xs = behind c' i' ++ locs l3 /\ _it_mode it' = _it_mode it.
Proof using G Hper.
  intros Hw S E Hx. pose proof (sd_range _ _ _ _ _ S) as Hr. unfold first_step.
  rewrite (oc_max _ _ _ _ (sd_on _ _ _ _ _ S)), (sd_index _ _ _ _ _ S).
  destruct (todo_cons _ _ _ _ _ (proj2 Hr) E) as [(Hi & -> & ->)|(-> & c' & l3 & -> & -> & ->)].
  - replace (per - 1 <=? i) with false by (symmetry; apply Z.leb_gt; lia).
    destruct (advance_entry _ _ _ _ _ S Hi) as (e & it' & He & Hm & Hadv).
    destruct (bool_decide (_it_mode it = LIST_DIRECTORY) && is_empty_end e) eqn:Eb.
    { exfalso. apply andb_true_iff in Eb as [Eb1%bool_decide_eq_true Eb2]. destruct Hx as [Hx|Hx]; [|done].
      specialize (Hx e He Eb2). cbn [entry_idx] in Hx. lia. }
    destruct Hadv as [-> S']. eexists _, c, (i + 1), l2. split; [done|]. split; [done|]. split; [lia|]. split; [by apply standing_laf|]. done.
  - replace (per - 1 <=? per - 1) with true by (symmetry; apply Z.leb_le; lia).
    destruct (next_cluster_result d it c (c' :: l3) Hw (sd_on _ _ _ _ _ S)) as (it' & -> & S' & Hm & _); [by rewrite (sd_entry _ _ _ _ _ S)|].
    eexists _, c', 0, l3. by split_and!.
Qed.

Lemma first_step_end d it c i l2 x xs e : working d -> standing d it c i l2 -> behind c i ++ locs l2 = x :: xs ->
  entry_at d x = Some e -> is_empty_end e = true -> (entry_idx x = 0 -> i < 0) -> _it_mode it = LIST_DIRECTORY ->
  exists it', first_step d it = Some it' /\ _state it' = END_OF_DIRECTORY.
Proof using G Hper.
  intros Hw S E He Hend Hx Hm. pose proof (sd_range _ _ _ _ _ S) as Hr. unfold first_step.
  rewrite (oc_max _ _ _ _ (sd_on _ _ _ _ _ S)), (sd_index _ _ _ _ _ S).
  destruct (todo_cons _ _ _ _ _ (proj2 Hr) E) as [(Hi & -> & ->)|(-> & c' & l3 & -> & -> & ->)].
  - replace (per - 1 <=? i) with false by (symmetry; apply Z.leb_gt; lia).
    destruct (advance_entry _ _ _ _ _ S Hi) as (e' & it' & He' & _ & Hadv). assert (e' = e) as -> by congruence.
    rewrite Hm, bool_decide_true, Hend in Hadv by done. rewrite Hadv. eauto.
  - cbn [entry_idx] in Hx. specialize (Hx eq_refl). lia.
Qed.

Lemma first_step_nil d it c i l2 : working d -> standing d it c i l2 -> behind c i ++ locs l2 = [] ->
  first_step d it = Some (with_state END_OF_DIRECTORY it).
Proof using G Hper.
  intros Hw S E. pose proof (sd_range _ _ _ _ _ S) as Hr. unfold first_step.
  rewrite (oc_max _ _ _ _ (sd_on _ _ _ _ _ S)), (sd_index _ _ _ _ _ S).
  destruct (todo_nil _ _ _ (proj2 Hr) E) as [-> ->]. replace (per - 1 <=? per - 1) with true by (symmetry; apply Z.leb_le; lia).
  pose proof (next_cluster_result d it c [] Hw (sd_on _ _ _ _ _ S)) as Hn. cbn in Hn. apply Hn. by rewrite (sd_entry _ _ _ _ _ S).
Qed.

(** ** The contents of a directory *)

(** An unused entry, or a file with its long file name entries and its name. *)
Inductive item := Free (loc : FileEntryLocation) | Named (lfns : list FileEntryLocation) (loc : FileEntryLocation) (name : list Z).

Definition item_places (x : item) : list FileEntryLocation := match x with Free loc => [loc] | Named lfns loc _ => lfns ++ [loc] end.

Definition end_mark d (loc : FileEntryLocation) : Prop := exists e, entry_at d loc = Some e /\ is_empty_end e = true.

Definition hole d (loc : FileEntryLocation) : Prop := exists e, entry_at d loc = Some e /\ is_empty_middle e = true.

(** The first entry of a file with a long name. *)
Definition first_lfn d (lfns : list FileEntryLocation) (loc : FileEntryLocation) : Prop :=
  exists e, entry_at d loc = Some e /\ attributes e = attr_value LONG_FILE_NAME
    /\ Z.land (first_byte e) MASK_LAST_LFN_ENTRY = LAST_LFN_ENTRY /\ Bits.nibble_get (first_byte e) 0 = zlen lfns.

Definition in_use d (loc : FileEntryLocation) : Prop :=
  exists e, entry_at d loc = Some e /\ is_empty_end e = false /\ is_empty_middle e = false.

Definition named d (lfns : list FileEntryLocation) (loc : FileEntryLocation) (name : list Z) : Prop :=
  in_use d loc /\
  match lfns with
  | [] => exists e, entry_at d loc = Some e /\ attributes e <> attr_value LONG_FILE_NAME /\ make_short_name e = Some (of_chars name)
  | l0 :: _ => first_lfn d lfns l0 /\ lfn_run (lfn_at d) (zlen lfns) lfns name
  end.

Definition item_ok d (x : item) : Prop :=
  match x with Free loc => hole d loc \/ end_mark d loc | Named lfns loc name => named d lfns loc name end.

(** What the iterator gives for a file. *)
Definition laf_of d (lfns : list FileEntryLocation) (loc : FileEntryLocation) (name : list Z) : LocationAwareFileEntry :=
  mkLaf (of_chars name) (default empty_entry (entry_at d loc)) loc (default no_location (head lfns)).

Definition lafs d (us : list item) : list LocationAwareFileEntry :=
  omap (fun x => match x with Free _ => None | Named lfns loc name => Some (laf_of d lfns loc name) end) us.

Lemma not_both (e : FileEntry) : is_empty_middle e = true -> is_empty_end e = false.
Proof using. unfold is_empty_middle, is_empty_end, MARK_EMPTY_MIDDLE, MARK_EMPTY_END. intros H. bool_prop. apply Z.eqb_neq. lia. Qed.

(** The first entry of a file is neither unused nor an end mark. *)
Lemma named_first d lfns loc name e x xs : named d lfns loc name -> lfns ++ [loc] = x :: xs -> entry_at d x = Some e ->
  is_empty_end e = false /\ is_empty_middle e = false.
Proof using.
  destruct lfns as [|l0 lfns]; intros H E He.
  - injection E as -> <-. destruct H as ((e' & He' & H1 & H2) & _). assert (e' = e) as -> by congruence. done.
  - injection E as -> <-. destruct H as (_ & (e' & He' & _ & Hm & _) & _). assert (e' = e) as -> by congruence.
    unfold is_empty_end, is_empty_middle. fold (first_byte e). split; apply Z.eqb_neq; intros Ef; rewrite Ef in Hm; done.
Qed.

(** ** Parsing *)

Lemma lfn_here d it c i l2 : standing d it c i l2 -> 0 <= i ->
  _current_entry it = Some i /\ read_lfn (_cluster_buf it) i = lfn_at d (mkLocation c i).
Proof using. intros [[Ec Eb _ _ _] _ _ Ep] Hi. rewrite Ep, Eb. split; [by rewrite Z.max_r by lia|done]. Qed.

(** From one entry of a file to the next one. *)
Lemma to_next d it c i l2 x xs : working d -> standing d it c i l2 -> 0 <= i -> behind c i ++ locs l2 = x :: xs ->
  let it1 := with_position (Some (i + 1)) (_entry_index it + 1) it in
  exists it' c' i' l3, (if _max_entries_per_cluster it1 <=? _entry_index it1 then get_next_cluster d bpb it1 else Some it1) = Some it'
    /\ x = mkLocation c' i' /\ 0 <= i' /\ standing d it' c' i' l3 /\ xs = behind c' i' ++ locs l3 /\ _it_mode it' = _it_mode it.
Proof using G Hper.
  intros Hw S Hi E it1. pose proof (sd_range _ _ _ _ _ S) as Hr. destruct S as [[Ec Eb Em Es Hch] _ Ei Ep].
  change (_max_entries_per_cluster it1) with (_max_entries_per_cluster it). change (_entry_index it1) with (_entry_index it + 1). rewrite Em, Ei.
  destruct (todo_cons _ _ _ _ _ (proj2 Hr) E) as [(Hlt & -> & ->)|(-> & c' & l3 & -> & -> & ->)].
  - replace (per <=? i + 1) with false by (symmetry; apply Z.leb_gt; lia). exists it1, c, (i + 1), l2. split_and!; try done; [lia|].
    constructor; [by constructor|lia|cbn; lia|]. cbn. by rewrite Z.max_r by lia.
  - replace (per <=? per - 1 + 1) with true by (symmetry; apply Z.leb_le; lia).
    destruct (next_cluster_result d it1 c (c' :: l3) Hw) as (it' & -> & S' & Hm & _); [by constructor|by eexists|].
    exists it', c', 0, l3. by split_and!.
Qed.

Lemma lfn_loop_result d count : working d -> forall lfns it c i l2 loc xs name acc, standing d it c i l2 -> 0 <= i ->
  mkLocation c i :: behind c i ++ locs l2 = lfns ++ loc :: xs -> lfn_run (lfn_at d) count lfns name -> fits (name ++ acc) ->
  exists it' c' i' l3, lfn_loop (length lfns) d bpb count it (of_chars acc) = Some (it', Some (of_chars (name ++ acc)))
    /\ loc = mkLocation c' i' /\ 0 <= i' /\ standing d it' c' i' l3 /\ xs = behind c' i' ++ locs l3 /\ _it_mode it' = _it_mode it.
Proof using G Hper.
  intros Hw lfns. induction lfns as [|l0 lfns IH]; intros it c i l2 loc xs name acc S Hi E Hrun Hfit.
  - inversion Hrun; subst. injection E as <- <-. cbn [app length lfn_loop]. by exists it, c, i, l2.
  - inversion Hrun as [|? ? e p nm Hl Hn Hp Hfp Hr Hf]; subst. injection E as <- E. cbn [length lfn_loop].
    destruct (lfn_here _ _ _ _ _ S Hi) as [-> Hlfn]. cbn [mbind option_bind]. rewrite Hlfn, Hl. cbn [mbind option_bind].
    unfold zlen in Hn, Hp. cbn [length] in Hn, Hp. rewrite Hn, Z.eqb_refl. cbn [negb]. rewrite Hp. cbn [mbind option_bind].
    assert (fits acc) as Ha by (unfold fits in *; rewrite !zlen_app in Hfit; pose proof (zlen_nonneg nm); pose proof (zlen_nonneg p); lia).
    rewrite plus_chars by done. cbn [mbind option_bind]. rewrite <- app_assoc in Hfit |- *.
    destruct (lfns ++ loc :: xs) as [|y ys] eqn:Ey; [by destruct lfns|].
    destruct (to_next _ _ _ _ _ _ _ Hw S Hi E) as (it' & c' & i' & l3 & Hstep & -> & Hi' & S' & -> & Hm').
    specialize (IH it' c' i' l3 loc xs nm (p ++ acc) S' Hi' (eq_sym Ey) Hr Hfit) as (it2 & c2 & i2 & l4 & Hloop & -> & Hi2 & S2 & -> & Hm2).
    exists it2, c2, i2, l4. split; [|split_and!; try done; congruence].
    destruct (_ <=? _); [|by injection Hstep as ->]. rewrite Hstep. cbn [mbind option_bind].
    rewrite (oc_state _ _ _ _ (sd_on _ _ _ _ _ S')), decide_True by done. exact Hloop.
Qed.

(** [parse_used_file_entry] on the first entry of a file. *)
Lemma parse_result d it c i l2 lfns loc name xs : working d -> standing d it c i l2 -> 0 <= i ->
  mkLocation c i :: behind c i ++ locs l2 = lfns ++ loc :: xs -> named d lfns loc name ->
  exists it' c' i' l3, parse_used_file_entry d bpb it = Some it' /\ _current_entry_as_laf it' = laf_of d lfns loc name
    /\ 0 <= i' /\ standing d it' c' i' l3 /\ loc = mkLocation c' i' /\ xs = behind c' i' ++ locs l3 /\ _it_mode it' = _it_mode it.
Proof using G Hper.
  intros Hw S Hi E Hnm. unfold parse_used_file_entry. rewrite (current_standing _ _ _ _ _ S Hi).
  destruct lfns as [|l0 lfns].
  - destruct Hnm as (_ & e & He & Ha & Hn). injection E as E1 E2. subst loc xs. rewrite He. cbn [mbind option_bind].
    replace (attributes e =? _) with false by (symmetry; by apply Z.eqb_neq). rewrite Hn. cbn [mbind option_bind].
    rewrite (current_standing _ _ _ _ _ S Hi), He. cbn [mbind option_bind]. rewrite (here_standing _ _ _ _ _ S Hi).
    eexists _, c, i, l2. split; [done|]. split; [unfold laf_of; cbn; by rewrite He|]. split; [done|]. split; [by apply standing_laf|done].
  - destruct Hnm as (_ & (e & He & Ha & Hmask & Hcount) & Hrun). pose proof E as E0. injection E as El E. subst l0. rewrite He. cbn [mbind option_bind].
    fold (first_byte e). rewrite Ha, Z.eqb_refl, Hmask, Z.eqb_refl. cbn [negb]. rewrite empty_string_chars. cbn [mbind option_bind].
    rewrite Hcount. replace (Z.to_nat (zlen (mkLocation c i :: lfns))) with (length (mkLocation c i :: lfns)) by (unfold zlen; lia).
    destruct (lfn_loop_result d (zlen (mkLocation c i :: lfns)) Hw (mkLocation c i :: lfns) it c i l2 loc xs name [] S Hi E0 Hrun)
      as (it' & c' & i' & l3 & Hloop & -> & Hi' & S' & -> & Hm'); [rewrite app_nil_r; by apply run_fits in Hrun|].
    rewrite Hloop. cbn [mbind option_bind]. rewrite app_nil_r. destruct S' as [O' R' I' P']. pose proof (oc_cluster _ _ _ _ O') as Ec'.
    assert (standing d it' c' i' l3) as S' by by constructor. rewrite (current_standing _ _ _ _ _ S' Hi').
    destruct (entry_at_some d c' i') as [e' He']; [lia|]. rewrite He'. cbn [mbind option_bind].
    rewrite (here_standing _ _ _ _ _ S' Hi'), (here_standing _ _ _ _ _ S Hi). eexists _, c', i', l3. split; [done|].
    split; [unfold laf_of; cbn; by rewrite He'|]. split; [done|]. split; [by apply standing_laf|done].
Qed.

(** ** Listing a directory *)

Definition places_of (us : list item) : list FileEntryLocation := mjoin (item_places <$> us).

(** An item the iteration over the used entries comes past; a deleted entry at the end of a cluster is not. *)
Definition listed d (x : item) : Prop :=
  match x with Free loc => hole d loc /\ entry_idx loc <> per - 1 | Named lfns loc name => named d lfns loc name end.

(** Behind the items nothing or an end mark; at the start of a cluster it is seen only in front of all items. *)
Definition ends d (started : Prop) (us : list item) (tail : list FileEntryLocation) : Prop :=
  match tail with [] => True | t :: _ => end_mark d t /\ (entry_idx t = 0 -> us = [] /\ ~ started) end.

Lemma item_places_cons x : exists p ps, item_places x = p :: ps.
Proof using. destruct x as [loc|[|l0 lfns] loc name]; cbn; eauto. Qed.

Lemma listed_first d x p ps e : listed d x -> item_places x = p :: ps -> entry_at d p = Some e ->
  is_empty_end e = false /\ (is_empty_middle e = true <-> exists loc, x = Free loc).
Proof using.
  destruct x as [loc|lfns loc name]; intros H E He.
  - injection E as <- <-. destruct H as [(e' & He' & Hm) _]. assert (e' = e) as -> by congruence. split; [by apply not_both|]. split; [eauto|done].
  - destruct (named_first d lfns loc name e p ps H E He) as [H1 H2]. split; [done|]. rewrite H2. split; [done|]. by intros [? ?].
Qed.

Lemma places_cons_eq x us tail : places_of (x :: us) ++ tail = item_places x ++ places_of us ++ tail.
Proof using. unfold places_of. cbn [fmap list_fmap mjoin list_join]. by rewrite app_assoc. Qed.

(** What [operator++] finds among the items [us]. *)
Definition found d it us tail : Prop :=
  lafs d us = [] /\ _state it = END_OF_DIRECTORY
  \/ exists lfns loc name us2 c i l2, lafs d us = laf_of d lfns loc name :: lafs d us2 /\ (length us2 < length us)%nat
       /\ _current_entry_as_laf it = laf_of d lfns loc name /\ 0 <= i /\ standing d it c i l2 /\ _it_mode it = LIST_DIRECTORY
       /\ behind c i ++ locs l2 = places_of us2 ++ tail /\ Forall (listed d) us2 /\ ends d True us2 tail.

Lemma ends_tail d (P : Prop) x us tail : ends d P (x :: us) tail -> ends d True us tail.
Proof using. destruct tail as [|t tl]; [done|]. intros [H1 H2]. split; [done|]. intros Hi. by destruct (H2 Hi). Qed.

Lemma skip_result d tail : working d -> forall us fuel it c i l2, standing d it c i l2 -> 0 <= i -> _it_mode it = LIST_DIRECTORY ->
  mkLocation c i :: behind c i ++ locs l2 = places_of us ++ tail -> us <> [] -> Forall (listed d) us -> ends d True us tail ->
  per - i < Z.of_nat fuel ->
  exists it1 it2, skip_empty fuel it = Some it1 /\ (if decide (_state it1 = ITERATING) then parse_used_file_entry d bpb it1 else Some it1) = Some it2
    /\ found d it2 us tail.
Proof using G Hper.
  intros Hw us. induction us as [|x us IH]; intros fuel it c i l2 S Hi Hm E Hne Hok Hends Hf; [done|].
  destruct fuel as [|fuel]; [pose proof (sd_range _ _ _ _ _ S); lia|]. apply Forall_cons_1 in Hok as [Hx Hok]. rewrite places_cons_eq in E.
  cbn [skip_empty]. rewrite (current_standing _ _ _ _ _ S Hi). pose proof (sd_range _ _ _ _ _ S) as Hr.
  destruct (entry_at_some d c i) as [e He]; [lia|]. rewrite He. cbn [mbind option_bind].
  destruct x as [loc|lfns loc name].
  - injection E as E1 E2. subst loc. destruct Hx as [(e' & He' & Hmid) Hidx]. assert (e' = e) as -> by congruence. rewrite Hmid. cbn [entry_idx] in Hidx.
    destruct (advance_entry _ _ _ _ _ S ltac:(lia)) as (e2 & it2 & He2 & Hm2 & Hadv). rewrite behind_cons in E2 by lia. cbn [app] in E2.
    destruct us as [|x2 us].
    + cbn [places_of fmap list_fmap mjoin list_join app] in E2. destruct tail as [|t tl]; [done|]. injection E2 as Et _. subst t.
      destruct Hends as [(e3 & He3 & Hend) _]. assert (e3 = e2) as -> by congruence. rewrite Hm, bool_decide_true, Hend in Hadv by done. rewrite Hadv.
      cbn [mbind option_bind]. rewrite decide_False by done. eexists _, _. split; [done|]. rewrite decide_False by done. split; [done|]. by left.
    + destruct (item_places_cons x2) as (p & ps & Ep). pose proof Hok as [Hx2 _]%Forall_cons_1. pose proof E2 as E3.
      rewrite places_cons_eq, Ep in E2. injection E2 as <- _. destruct (listed_first _ _ _ _ _ Hx2 Ep He2) as [Hne2 _].
      rewrite Hne2, andb_false_r in Hadv. destruct Hadv as [-> S2]. cbn [mbind option_bind].
      pose proof (standing_laf _ _ _ _ _ (mkLaf (of_chars []) e2 (mkLocation c (i + 1)) no_location) S2) as S3.
      rewrite (oc_state _ _ _ _ (sd_on _ _ _ _ _ S3)), decide_True by done.
      destruct (IH fuel _ c (i + 1) l2 S3) as (it3 & it4 & H3 & H4 & H5); [lia|cbn [_it_mode with_laf]; congruence|exact E3|done|done| |lia|].
      * destruct tail as [|t tl]; [done|]. destruct Hends as [H1 H2]. split; [done|]. intros Hi0. by destruct (H2 Hi0).
      * exists it3, it4. split_and!; try done. destruct H5 as [[H5 H6]|(lf & lo & nm & u2 & c2 & i2 & l4 & H5 & H6 & H7)]; [left; done|].
        right. exists lf, lo, nm, u2, c2, i2, l4. split; [done|]. split; [cbn [length] in *; lia|done].
  - destruct (item_places_cons (Named lfns loc name)) as (p & ps & Ep). pose proof E as E0. rewrite Ep in E. injection E as <- E.
    destruct (listed_first _ (Named lfns loc name) _ _ _ Hx Ep He) as [_ Hmid].
    assert (is_empty_middle e = false) as -> by (apply not_true_iff_false; intros Hmm; by apply Hmid in Hmm as [? ?]).
    exists it. cbn [item_places] in E0. rewrite <- app_assoc in E0. cbn [app] in E0.
    destruct (parse_result _ _ _ _ _ _ _ _ _ Hw S Hi E0 Hx) as (it2 & c2 & i2 & l3 & Hp & Hlaf & Hi2 & S2 & _ & E2 & Hm2).
    exists it2. split; [done|]. rewrite (oc_state _ _ _ _ (sd_on _ _ _ _ _ S)), decide_True by done. split; [done|]. right.
    exists lfns, loc, name, us, c2, i2, l3. split_and!; try done; [cbn; lia|congruence|by apply ends_tail in Hends].
Qed.

Lemma increment_found d it c i l2 us tail : working d -> standing d it c i l2 -> _it_mode it = LIST_DIRECTORY ->
  behind c i ++ locs l2 = places_of us ++ tail -> Forall (listed d) us -> ends d (0 <= i) us tail ->
  exists it', increment d bpb it = Some it' /\ found d it' us tail.
Proof using G Hper.
  intros Hw S Hm E Hok Hends. unfold increment. rewrite (oc_state _ _ _ _ (sd_on _ _ _ _ _ S)), decide_True by done.
  fold (first_step d it). destruct us as [|x us].
  - cbn [places_of fmap list_fmap mjoin list_join app] in E. destruct tail as [|t tl].
    + rewrite (first_step_nil _ _ _ _ _ Hw S E). cbn [mbind option_bind]. rewrite decide_False by done. eexists. split; [done|]. by left.
    + destruct Hends as [(e & He & Hend) Hi]. destruct (first_step_end _ _ _ _ _ _ _ e Hw S E He Hend) as (it' & -> & Hst); [|done|].
      { intros Ht. destruct (Hi Ht). lia. }
      cbn [mbind option_bind]. rewrite decide_False by (rewrite Hst; done). eexists. split; [done|]. by left.
  - destruct (item_places_cons x) as (p & ps & Ep). pose proof Hok as [Hx _]%Forall_cons_1. pose proof E as E0.
    rewrite places_cons_eq, Ep in E. cbn [app] in E.
    destruct (first_step_cons _ _ _ _ _ _ _ Hw S E) as (it1 & c1 & i1 & l3 & -> & -> & Hi1 & S1 & Exs & Hm1).
    { left. intros e He Hend. destruct (listed_first _ _ _ _ _ Hx Ep He). congruence. }
    cbn [mbind option_bind]. rewrite (oc_state _ _ _ _ (sd_on _ _ _ _ _ S1)), decide_True by done. rewrite Hm1, Hm.
    destruct (skip_result d tail Hw (x :: us) (Datatypes.S (length (_cluster_buf it1))) it1 c1 i1 l3 S1 Hi1) as (it2 & it3 & -> & H3 & H4); try done.
    + congruence.
    + rewrite <- Exs, places_cons_eq, Ep. done.
    + destruct tail as [|t tl]; [done|]. destruct Hends as [H1 H2]. split; [done|]. intros Ht. by destruct (H2 Ht).
    + rewrite (oc_buf _ _ _ _ (sd_on _ _ _ _ _ S1)). pose proof (cluster_len d c1) as Hcl. unfold zlen in Hcl. unfold per, ENTRY_SIZE in *.
      Z.to_euclidean_division_equations. lia.
    + cbn [mbind option_bind]. eexists. by split.
Qed.

(** A directory that can be listed: its items in the places of its clusters, and what comes behind them. *)
Record directory d l (us : list item) (tail : list FileEntryLocation) : Prop := {
  dr_chain : chain d l;
  dr_places : locs l = places_of us ++ tail;
  dr_items : Forall (listed d) us;
  dr_ends : ends d False us tail }.

Lemma begin_standing d mode c l : working d -> chain d (c :: l) -> mode <> NO_MODE ->
  exists it, begin d bpb c mode = increment d bpb it /\ standing d it c (-1) l /\ _it_mode it = mode.
Proof using G Hper.
  intros Hw Hch Hm. unfold begin, default_laf. rewrite empty_string_chars. cbn [mbind option_bind].
  destruct (Hch 0%nat c eq_refl) as [Hv _]. pose proof (valid_max bpb n G c Hv) as Hmax. unfold get_next_cluster. cbn [_current_entry _current_cluster mbind option_bind].
  change get_max_cluster_count with FAT32.MAX_CLUSTER_COUNT.
  replace (FAT32.MAX_CLUSTER_COUNT <? c) with false by (symmetry; apply Z.ltb_ge; lia).
  destruct (cluster_read_result bpb n G d c Hv) as (ok & buf & -> & Hb & Hok). rewrite (Hok Hw) in Hb |- *. cbn [negb].
  destruct mode; [done| | |]; cbn [mbind option_bind]; (rewrite decide_False by done); (eexists; split; [reflexivity|]); (split; [|done]);
    (constructor; [constructor|lia|done|done]); cbn; try done; by apply Hb.
Qed.

Lemma begin_found d c l us tail : working d -> directory d (c :: l) us tail ->
  exists it, begin d bpb c LIST_DIRECTORY = Some it /\ found d it us tail.
Proof using G Hper.
  intros Hw [Hch Hpl Hok Hends]. destruct (begin_standing d LIST_DIRECTORY c l Hw Hch) as (it & -> & S & Hm); [done|].
  apply (increment_found d it c (-1) l us tail Hw S Hm); [|done|].
  - rewrite <- behind_start. exact Hpl.
  - destruct tail as [|t tl]; [done|]. destruct Hends as [H1 H2]. split; [done|]. intros Ht. destruct (H2 Ht) as [-> _]. split; [done|lia].
Qed.

(** All entries the iterator gives, and the state it ends in. *)
Fixpoint listing (fuel : nat) d it : option (list LocationAwareFileEntry * DirectoryIteratorState) :=
  match fuel with
  | O => None
  | S fuel =>
      if has_next it then
        it' ← increment d bpb it; '(l, st) ← listing fuel d it'; Some (_current_entry_as_laf it :: l, st)
      else Some ([], _state it)
  end.

Lemma found_more d it us2 tail c i l2 : working d -> 0 <= i -> standing d it c i l2 -> _it_mode it = LIST_DIRECTORY ->
  behind c i ++ locs l2 = places_of us2 ++ tail -> Forall (listed d) us2 -> ends d True us2 tail ->
  exists it', increment d bpb it = Some it' /\ found d it' us2 tail.
Proof using G Hper.
  intros Hw Hi S Hm E Hok Hends. apply (increment_found d it c i l2 us2 tail Hw S Hm E Hok).
  destruct tail as [|t tl]; [done|]. destruct Hends as [H1 H2]. split; [done|]. intros Ht. by destruct (H2 Ht) as [-> []].
Qed.

Lemma listing_result d tail : working d -> forall fuel us it, (length us < fuel)%nat -> found d it us tail ->
  listing fuel d it = Some (lafs d us, END_OF_DIRECTORY).
Proof using G Hper.
  intros Hw fuel. induction fuel as [|fuel IH]; intros us it Hf [[-> Hst]|(lfns & loc & name & us2 & c & i & l2 & -> & Hlen & Hlaf & Hi & S & Hm & E & Hok & Hends)]; [lia|lia|..]; cbn [listing].
  - unfold has_next. by rewrite bool_decide_false, Hst by (rewrite Hst; done).
  - unfold has_next. rewrite bool_decide_true by apply (oc_state _ _ _ _ (sd_on _ _ _ _ _ S)).
    destruct (found_more d it us2 tail c i l2 Hw Hi S Hm E Hok Hends) as (it' & -> & Hfd).
    cbn [mbind option_bind]. rewrite (IH us2 it') by (done || lia). cbn [mbind option_bind]. by rewrite Hlaf.
Qed.

(** The first file with a name. *)
Fixpoint lookup_name d (us : list item) (name : list Z) : option LocationAwareFileEntry :=
  match us with
  | [] => None
  | Free _ :: us => lookup_name d us name
  | Named lfns loc nm :: us => if decide (nm = name) then Some (laf_of d lfns loc nm) else lookup_name d us name
  end.

Lemma lookup_name_lafs d us name : lookup_name d us name = List.find (fun e => bool_decide (file_name e = of_chars name)) (lafs d us).
Proof using.
  induction us as [|[loc|lfns loc nm] us IH]; [done|done|]. cbn [lookup_name lafs omap list_omap List.find].
  change (file_name (laf_of d lfns loc nm)) with (of_chars nm).
  case_decide as Hd; [subst nm; by rewrite bool_decide_true|]. rewrite bool_decide_false by (by intros ?%of_chars_inj). exact IH.
Qed.

Lemma find_entry_result d tail name : working d -> forall fuel us it, (length us < fuel)%nat -> found d it us tail ->
  exists r, find_entry fuel d bpb it (of_chars name) = Some r /\
    match lookup_name d us name with
    | Some e => r = inl e
    | None => exists it', r = inr it' /\ _state it' = END_OF_DIRECTORY
    end.
Proof using G Hper.
  intros Hw fuel. induction fuel as [|fuel IH]; intros us it Hf [[Hl Hst]|(lfns & loc & nm & us2 & c & i & l2 & Hl & Hlen & Hlaf & Hi & S & Hm & E & Hok & Hends)]; [lia|lia|..]; cbn [find_entry];
    rewrite lookup_name_lafs, Hl; unfold has_next.
  - rewrite bool_decide_false by (rewrite Hst; done). eexists. split; [done|]. cbn. eauto.
  - rewrite bool_decide_true by apply (oc_state _ _ _ _ (sd_on _ _ _ _ _ S)). rewrite Hlaf. cbn [file_name laf_of List.find].
    rewrite eqb_chars. cbn [mbind option_bind]. case_bool_decide as Hd.
    + subst nm. rewrite bool_decide_true by done. eexists. split; [done|]. done.
    + rewrite bool_decide_false by (by intros ?%of_chars_inj). rewrite <- lookup_name_lafs.
      destruct (found_more d it us2 tail c i l2 Hw Hi S Hm E Hok Hends) as (it' & -> & Hfd).
      cbn [mbind option_bind]. apply (IH us2 it'); [lia|done].
Qed.

(** Looking for a name in one directory. *)
Lemma navigate_last d c l us tail name fuel : working d -> directory d (c :: l) us tail -> (length us < fuel)%nat ->
  exists nothing, navigate_to fuel d bpb c [of_chars name] =
    Some (match lookup_name d us name with Some e => (NAV_FOUND, e) | None => (NAV_NOT_FOUND, nothing) end).
Proof using G Hper.
  intros Hw Hd Hf. destruct (begin_found d c l us tail Hw Hd) as (it & Eb & Hfd).
  destruct (find_entry_result d tail name Hw fuel us it Hf Hfd) as (r & Er & Hr).
  exists (mkLaf (of_chars []) empty_entry no_location no_location). cbn [navigate_to]. unfold default_laf. rewrite empty_string_chars.
  cbn [mbind option_bind]. rewrite Eb. cbn [mbind option_bind]. rewrite Er. cbn [mbind option_bind].
  destruct (lookup_name d us name) as [e|]; [by subst r|]. destruct Hr as (it' & -> & Hst). by rewrite decide_True by done.
Qed.

(** A name that no file has, with more of the path behind it or not. *)
Lemma navigate_missing d c l us tail name path fuel : working d -> directory d (c :: l) us tail -> (length us < fuel)%nat ->
  lookup_name d us name = None ->
  exists nothing, navigate_to fuel d bpb c (of_chars name :: path) = Some (NAV_NOT_FOUND, nothing).
Proof using G Hper.
  intros Hw Hd Hf Hl. destruct (begin_found d c l us tail Hw Hd) as (it & Eb & Hfd).
  destruct (find_entry_result d tail name Hw fuel us it Hf Hfd) as (r & Er & Hr). rewrite Hl in Hr. destruct Hr as (it' & -> & Hst).
  exists (mkLaf (of_chars []) empty_entry no_location no_location). cbn [navigate_to]. unfold default_laf. rewrite empty_string_chars.
  cbn [mbind option_bind]. rewrite Eb. cbn [mbind option_bind]. rewrite Er. cbn [mbind option_bind]. by rewrite decide_True by done.
Qed.

(** One step down a path. *)
Lemma navigate_step d c l us tail name part path fuel e : working d -> directory d (c :: l) us tail -> (length us < fuel)%nat ->
  lookup_name d us name = Some e ->
  navigate_to fuel d bpb c (of_chars name :: part :: path) =
    if Z.land (attributes (file e)) (attr_value DIRECTORY) =? attr_value DIRECTORY
    then navigate_to fuel d bpb (cluster (file e)) (part :: path)
    else n ← default_laf; Some (NAV_BAD_PATH, n).
Proof using G Hper.
  intros Hw Hd Hf Hl. destruct (begin_found d c l us tail Hw Hd) as (it & Eb & Hfd).
  destruct (find_entry_result d tail name Hw fuel us it Hf Hfd) as (r & Er & Hr). rewrite Hl in Hr. subst r.
  remember (part :: path) as rest eqn:Erest. cbn [navigate_to]. unfold default_laf. rewrite empty_string_chars. cbn [mbind option_bind]. rewrite Eb.
  cbn [mbind option_bind]. rewrite Er. cbn [mbind option_bind]. by subst rest.
Qed.
End dir.
End DirProps.
