(* ===== verification/FatCreateProps.v ===== *)
(** * Creating and deleting files of a FAT directory

    The entries a new file gets, and how the directory looks after they were written. *)

From S2P Require Import Prelude Kre KString KStringProps VfsPath VfsPathProps FatVolume FatVolumeProps FatFile FatFileProps FatDirectory FatDriver FatDirectoryProps.

Module CreateProps.
Import KString StrProps PathProps LeProps Fat VolumeProps Entry Manager FileProps Lfn Directory Search Driver LfnProps DirProps.

(** A long file name entry as a file entry. *)
Lemma entry_of_lfn e : lfn_ok e -> exists f, read_entry (lfn_bytes e) 0 = Some f /\ entry_ok f /\ entry_bytes f = lfn_bytes e
  /\ attributes f = l_attributes e /\ first_byte f = order e.
Proof.
  intros Hok. destruct (lfn_bytes_len e Hok) as [Hl Hb]. destruct (entry_of_bytes _ Hl Hb) as (f & Hf & Hfo & Hfb). exists f.
  split_and!; try done; destruct Hok as [Hbs (H1 & H2 & H3) _]; destruct e as [o n1 a t k n2 r n3]; cbn in H1, H2, H3, Hbs;
    (do 5 (destruct n1 as [|? n1]; [done|])); (destruct n1; [|done]); (do 6 (destruct n2 as [|? n2]; [done|])); (destruct n2; [|done]);
    (do 2 (destruct n3 as [|? n3]; [done|])); (destruct n3; [|done]).
  - transitivity (a mod 256 + 256 * 0); [|repeat match goal with H : Forall _ (_ :: _) |- _ => apply Forall_cons_1 in H as [? H] end; by apply decode1].
    injection Hf as <-. reflexivity.
  - transitivity (o mod 256); [injection Hf as <-; reflexivity|]. apply Forall_cons_1 in Hbs as [Ho _]. by apply Z.mod_small.
Qed.

(** ** The loop that fills the entries *)
Section fill.
Context (name pad : list Z) (N : nat) (checksum : Z).
Context (Hname : Forall name_char name) (Hpad : Forall (fun c => c = 0xFF \/ c = 0) pad).
Context (Hlen : length (name ++ pad) = (13 * N)%nat) (HN : (N <= 15)%nat) (Hlast : (13 * (N - 1) < length name)%nat) (Hpos : (1 <= N)%nat).
Context (Hck : in_width 8 checksum).

(** The entry with index [i] for a place. *)
Definition lfn_entry_at (i : nat) (f : FileEntry) : Prop :=
  entry_ok f /\ entry_bytes f = lfn_bytes (make_lfn (chunk name pad (N - 1 - i)) (ord N (N - i)) checksum).

Lemma slice_chunk k : (k < N)%nat -> slice (name ++ pad) (13 * Z.of_nat k) 13 = Some (chunk name pad k).
Proof using All.
  intros Hk. rewrite slice_nat by (unfold zlen; lia). unfold chunk. do 3 f_equal. lia.
Qed.

Lemma fill_entries_result n : forall out, (n <= N)%nat -> (n <= length out)%nat ->
  exists out', fill_entries n (name ++ pad) checksum (Z.of_nat (N - n + 1)) (13 * Z.of_nat (N - n)) out = Some out'
    /\ length out' = length out
    /\ (forall i, (n <= i)%nat -> out' !! i = out !! i)
    /\ (forall i laf, (i < n)%nat -> out !! i = Some laf -> exists f, out' !! i = Some (with_file (fun _ => f) laf) /\ lfn_entry_at i f).
Proof using All.
  induction n as [|i IH]; intros out Hn Hlo; [exists out; split_and!; try done; intros; lia|].
  cbn [fill_entries]. rewrite slice_chunk by lia. cbn [mbind option_bind].
  destruct (lookup_lt_is_Some_2 out i ltac:(lia)) as [laf Hlaf]. rewrite Hlaf. cbn [mbind option_bind].
  set (o := if decide (i = 0%nat) then _ else _).
  assert (o = ord N (N - i)) as Eo.
  { unfold o, ord. replace (Z.of_nat (N - S i + 1)) with (Z.of_nat (N - i)) by lia. destruct (decide (i = 0%nat)); [rewrite decide_True by lia|rewrite decide_False by lia]; done. }
  replace (N - S i)%nat with (N - 1 - i)%nat by lia. rewrite Eo.
  destruct (chunk_width name pad N checksum Hname Hpad Hlen HN Hlast Hpos (N - 1 - i)) as [Hcl Hcw]; [lia|].
  destruct (ord_spec name pad N checksum Hname Hpad Hlen HN Hlast Hpos (N - i)) as [_ Ho]; [lia|].
  destruct (entry_of_lfn _ (make_lfn_ok _ _ _ Hcl Hcw Ho Hck)) as (f & -> & Hfo & Hfb & _). cbn [mbind option_bind].
  destruct (IH (<[i := with_file (fun _ => f) laf]> out)) as (out' & E & El & Hge & Hlt); [lia|rewrite length_insert; lia|].
  exists out'. split_and!.
  - replace (u8 (Z.of_nat (N - 1 - i + 1) + 1)) with (Z.of_nat (N - i + 1)); [|symmetry].
    + replace (13 * Z.of_nat (N - 1 - i) + 13) with (13 * Z.of_nat (N - i)) by lia. exact E.
    + rewrite (wrap_small 8) by (unfold in_width; change (2 ^ 8) with 256; lia). lia.
  - by rewrite El, length_insert.
  - intros j Hj. rewrite Hge by lia. by apply list_lookup_insert_ne; lia.
  - intros j x Hj Hx. destruct (decide (j = i)) as [->|Hne].
    + rewrite Hlaf in Hx. injection Hx as <-. exists f. split; [|done]. rewrite Hge by lia. apply list_lookup_insert_eq. lia.
    + apply Hlt; [lia|]. rewrite list_lookup_insert_ne by lia. done.
Qed.
End fill.

Section create.
Context {D : Type} `{MD : MassStorage D} `{!Disk D}.
Context (bpb : BootRecord32) (n : Z) (G : geometry bpb n).
Context (Hper : 1 <= per bpb <= 65536).
Implicit Types (d : D) (it : FATDirectoryIterator) (us : list item).
#[local] Abbreviation cs := (cluster_size bpb).
#[local] Abbreviation per := (per bpb).
#[local] Abbreviation entry_at := (FileProps.entry_at bpb).
#[local] Abbreviation lfn_at := (DirProps.lfn_at bpb).
#[local] Abbreviation chain := (FileProps.chain bpb n).
#[local] Abbreviation places := (DirProps.places bpb).
#[local] Abbreviation behind := (DirProps.behind bpb).

(** A place of a cluster: the bytes there. *)
Lemma at_place d c i : 0 <= i < per -> exists s e, zlen s = 32 /\ Forall (in_width 8) s /\ slice (cluster_bytes bpb d c) (32 * i) 32 = Some s
  /\ entry_at d (mkLocation c i) = Some e /\ entry_ok e /\ entry_bytes e = s /\ lfn_at d (mkLocation c i) = read_lfn s 0.
Proof using G.
  intros Hi. pose proof (cluster_len bpb n G d c) as Hl.
  assert (32 * i + 32 <= cs) as Hf by (unfold DirProps.per, ENTRY_SIZE in Hi; Z.to_euclidean_division_equations; lia).
  destruct (slice_some (cluster_bytes bpb d c) (32 * i) 32) as (s & Es & Hs); [lia|lia|lia|].
  assert (Forall (in_width 8) s) as Hw.
  { apply slice_Some in Es as (l1 & l3 & E & _). pose proof (bytes_of_width d (cluster_addr bpb c) cs) as H. unfold cluster_bytes in E. rewrite E in H.
    apply Forall_app in H as [_ H]. by apply Forall_app in H as [H _]. }
  destruct (entry_of_bytes s Hs Hw) as (e & He & Heo & Heb). exists s, e.
  assert (slice s (32 * 0) 32 = Some s) as Ess.
  { pose proof (slice_front s []) as Hfr. by rewrite app_nil_r, Hs in Hfr. }
  split_and!; try done.
  - unfold FileProps.entry_at. cbn [lcluster entry_idx]. unfold read_entry in He |- *. rewrite Ess in He. by rewrite Es.
  - unfold DirProps.lfn_at. cbn [lcluster entry_idx]. unfold read_lfn. by rewrite Es, Ess.
Qed.

Lemma lfn_at_entry d c i e : 0 <= i < per -> entry_at d (mkLocation c i) = Some e ->
  lfn_at d (mkLocation c i) = read_lfn (entry_bytes e) 0 /\ entry_ok e.
Proof using G.
  intros Hi He. destruct (at_place d c i Hi) as (s & e' & _ & _ & _ & He' & Heo & Heb & Hl). assert (e' = e) as -> by congruence.
  by rewrite Hl, Heb.
Qed.

Lemma places_lookup c k loc : places c !! k = Some loc <-> loc = mkLocation c (Z.of_nat k) /\ Z.of_nat k < per.
Proof using.
  unfold DirProps.places. rewrite list_lookup_fmap. split.
  - intros (x & Hx & ->)%fmap_Some. apply lookup_seqZ in Hx as [-> Hx]. rewrite Z.add_0_l. split; [done|lia].
  - intros [-> Hk]. assert (seqZ 0 per !! k = Some (Z.of_nat k)) as -> by (apply lookup_seqZ; lia). done.
Qed.

Lemma places_nodup c : NoDup (places c).
Proof using. unfold DirProps.places. apply NoDup_fmap_2; [|apply NoDup_seqZ]. by intros x y [= ->]. Qed.

Lemma elem_places c loc : loc ∈ places c -> exists i, loc = mkLocation c i /\ 0 <= i < per.
Proof using. intros [k Hk]%list_elem_of_lookup. apply places_lookup in Hk as [-> Hk]. exists (Z.of_nat k). split; [done|lia]. Qed.

(** ** Writing entries *)

(** Writing entries to different places of a cluster. *)
Lemma update_all_result c : valid n c -> forall l d, working d -> NoDup (location <$> l) ->
  Forall (fun e => location e ∈ places c /\ entry_ok (file e)) l ->
  exists d', update_all d bpb l = Some (true, d') /\ working d' /\ keeps bpb n d d' (fun _ => False) (fun x => x = c)
    /\ (forall e, e ∈ l -> entry_at d' (location e) = Some (file e))
    /\ (forall loc, loc ∈ places c -> loc ∉ (location <$> l) -> entry_at d' loc = entry_at d loc).
Proof using G.
  intros Hv l. induction l as [|e l IH]; intros d Hw Hnd Hl.
  - exists d. split_and!; try done. intros e He. by apply not_elem_of_nil in He.
  - apply Forall_cons_1 in Hl as [[Hp He] Hl]. cbn [fmap list_fmap] in Hnd. apply NoDup_cons in Hnd as [Hni Hnd].
    destruct (elem_places c _ Hp) as (i & Ei & Hi).
    assert (32 * i + 32 <= cs) as Hf by (unfold DirProps.per, ENTRY_SIZE in Hi; Z.to_euclidean_division_equations; lia).
    destruct (update_result bpb n G d e) as (ok & d1 & E & Hfr & Hok & Hwk); [rewrite Ei; split; [done|]; cbn; lia|done|].
    destruct (Hwk Hw) as [-> Hw1]. destruct (Hok eq_refl) as [Hat Hoth]. rewrite Ei in Hfr, Hoth. cbn [lcluster entry_idx] in Hfr, Hoth.
    pose proof (data_keeps bpb n G d d1 c ltac:(unfold valid in Hv; lia) Hfr) as Hk1.
    destruct (IH d1 Hw1 Hnd Hl) as (d2 & E2 & Hw2 & Hk2 & Hin & Hout). exists d2. cbn [update_all]. rewrite E. cbn [mbind option_bind].
    split_and!; [done|done| | |].
    + eapply keeps_weaken; [exact (keeps_trans bpb n _ _ _ _ _ _ _ Hk1 Hk2)|intros x [[]|[]]|intros x [H|H]; done].
    + intros e' He'. apply elem_of_cons in He' as [->|He']; [|by apply Hin]. rewrite Hout by done. exact Hat.
    + intros loc Hloc Hn2. cbn [fmap list_fmap] in Hn2. apply not_elem_of_cons in Hn2 as [Hne Hn2]. rewrite Hout by done.
      destruct (elem_places c _ Hloc) as (j & -> & Hj). apply Hoth; [lia| |].
      * unfold DirProps.per, ENTRY_SIZE in Hj; Z.to_euclidean_division_equations; lia.
      * intros ->. by rewrite Ei in Hne.
Qed.

(** ** The search for unused entries in a directory of one cluster *)

Definition free_laf d (loc : FileEntryLocation) : LocationAwareFileEntry :=
  mkLaf (of_chars []) (default empty_entry (entry_at d loc)) loc no_location.

(** What the iterator gives for an item when it lists all entries. *)
Definition item_laf d (x : item) : LocationAwareFileEntry :=
  match x with Free loc => free_laf d loc | Named lfns loc name => laf_of bpb d lfns loc name end.

(** The iterator is on the first of the items. *)
Definition seen d it us : Prop :=
  match us with
  | [] => _state it = END_OF_DIRECTORY
  | x :: us' => exists c i, standing bpb n d it c i [] /\ 0 <= i /\ _it_mode it = LIST_ALL /\ _current_entry_as_laf it = item_laf d x
      /\ behind c i = places_of us'
  end.

Lemma behind_lookup c i k loc : behind c i !! k = Some loc -> loc = mkLocation c (i + 1 + Z.of_nat k).
Proof using. unfold DirProps.behind. rewrite list_lookup_fmap. intros (x & Hx & ->)%fmap_Some. by apply lookup_seqZ in Hx as [-> _]. Qed.

Lemma behind_length c i : length (behind c i) = Z.to_nat (per - 1 - i).
Proof using. unfold DirProps.behind. by rewrite length_fmap, length_seqZ. Qed.

Lemma locs_length l : length (locs bpb l) = (length l * Z.to_nat per)%nat.
Proof using.
  induction l as [|c l IH]; [done|]. change (locs bpb (c :: l)) with (places c ++ locs bpb l). rewrite length_app, IH.
  unfold DirProps.places. rewrite length_fmap, length_seqZ. cbn [length]. lia.
Qed.

(** The places behind one of them stay in the cluster. *)
Lemma behind_split c i l1 loc c2 i2 l3 : behind c i = l1 ++ loc :: behind c2 i2 ++ locs bpb l3 -> loc = mkLocation c2 i2 -> -1 <= i2 < per ->
  l3 = [] /\ c2 = c.
Proof using Hper.
  intros E -> Hr. pose proof (behind_lookup c i (length l1) (mkLocation c2 i2)) as Hl. rewrite E, list_lookup_middle in Hl by done.
  injection (Hl eq_refl) as -> Ei. split; [|done]. pose proof (behind_length c i) as Hlen. rewrite E in Hlen.
  rewrite length_app in Hlen. cbn [length] in Hlen. rewrite length_app, behind_length, locs_length in Hlen.
  destruct l3; [done|]. cbn [length] in Hlen. lia.
Qed.

Lemma increment_seen d it c i us : working d -> standing bpb n d it c i [] -> _it_mode it = LIST_ALL -> behind c i = places_of us ->
  Forall (item_ok bpb d) us -> exists it', increment d bpb it = Some it' /\ seen d it' us.
Proof using G Hper.
  intros Hw S Hm E Hok. unfold increment. rewrite (oc_state _ _ _ _ _ _ (sd_on _ _ _ _ _ _ _ S)), decide_True by done.
  fold (first_step bpb d it). destruct us as [|x us].
  - rewrite (first_step_nil bpb n G Hper d it c i [] Hw S) by (rewrite E; done). cbn [mbind option_bind]. rewrite decide_False by done. by eexists.
  - destruct (item_places_cons x) as (p & ps & Ep). apply Forall_cons_1 in Hok as [Hx _].
    pose proof (sd_range _ _ _ _ _ _ _ S) as Hr.
    assert (behind c i ++ locs bpb [] = item_places x ++ places_of us) as E0 by (rewrite app_nil_r, E; done). rewrite Ep in E0. cbn [app] in E0.
    destruct (todo_cons bpb Hper c i [] p (ps ++ places_of us) ltac:(lia) E0) as [(Hlt & -> & Exs)|(_ & ? & ? & ? & _)]; [|done].
    rewrite app_nil_r in Exs. destruct (advance_entry bpb n G Hper d it c i [] S Hlt) as (e & it1 & He & Hm1 & Hadv).
    rewrite Hm in Hadv. change (bool_decide (LIST_ALL = LIST_DIRECTORY)) with false in Hadv. cbn [andb] in Hadv. destruct Hadv as [Hadv S1].
    unfold first_step. rewrite (oc_max _ _ _ _ _ _ (sd_on _ _ _ _ _ _ _ S)), (sd_index _ _ _ _ _ _ _ S).
    replace (per - 1 <=? i) with false by (symmetry; apply Z.leb_gt; lia). rewrite Hadv. cbn [mbind option_bind].
    pose proof (standing_laf bpb n d it1 c (i + 1) [] (mkLaf (of_chars []) e (mkLocation c (i + 1)) no_location) S1) as S2.
    rewrite (oc_state _ _ _ _ _ _ (sd_on _ _ _ _ _ _ _ S2)), decide_True by done. cbn [_it_mode with_laf]. rewrite Hm1, Hm.
    rewrite (current_standing bpb n d _ c (i + 1) [] S2), He by lia. cbn [mbind option_bind].
    destruct x as [loc|lfns loc name].
    + injection Ep as -> <-. destruct Hx as [(e' & He' & Hmid)|(e' & He' & Hend)]; assert (e' = e) as -> by congruence;
        [rewrite Hmid|rewrite Hend, andb_false_r]; cbn [negb andb]; (eexists; split; [reflexivity|]);
        exists c, (i + 1); (split_and!; [done|lia|cbn; congruence| |done]); unfold item_laf, free_laf; cbn; by rewrite He.
    + destruct (named_first bpb d lfns loc name e _ _ Hx Ep He) as [-> ->]. cbn [negb andb].
      destruct (parse_result bpb n G Hper d _ c (i + 1) [] lfns loc name (places_of us) Hw S2 ltac:(lia)) as (it2 & c2 & i2 & l3 & Hp & Hlaf & Hi2 & S3 & Hloc & E2 & Hm2); [|exact Hx|].
      * rewrite app_nil_r, <- Exs. cbn [item_places] in Ep. change (mkLocation c (i + 1) :: ps ++ places_of us) with ((mkLocation c (i + 1) :: ps) ++ places_of us).
        rewrite <- Ep, <- app_assoc. done.
      * exists it2. split; [done|]. assert (E3 : behind c i = lfns ++ loc :: (behind c2 i2 ++ locs bpb l3)).
        { rewrite E, <- E2. unfold places_of. cbn. by rewrite <- app_assoc. }
        destruct (behind_split c i lfns loc _ _ _ E3 Hloc) as [-> ->]; [apply (sd_range _ _ _ _ _ _ _ S3)|].
        exists c, i2. split_and!; try done; [cbn in Hm2; congruence|]. by rewrite E2, app_nil_r.
Qed.

Lemma begin_seen d c us : working d -> chain d [c] -> places c = places_of us -> Forall (item_ok bpb d) us ->
  exists it, begin d bpb c LIST_ALL = Some it /\ seen d it us.
Proof using G Hper.
  intros Hw Hch E Hok. destruct (begin_standing bpb n G Hper d LIST_ALL c [] Hw Hch) as (it & -> & S & Hm); [done|].
  apply (increment_seen d it c (-1) us Hw S Hm); [|done]. by rewrite <- behind_start.
Qed.

(** Named items are not among the unused ones at the end. *)
Lemma suffix_free (l1 : list FileEntryLocation) x us us0 tl : (forall loc, x <> Free loc) -> (Free <$> l1) ++ x :: us = us0 ++ (Free <$> tl) ->
  exists us0', us = us0' ++ (Free <$> tl).
Proof using.
  intros Hx E. destruct (Nat.le_gt_cases (length us0) (length l1)) as [Hle|Hgt].
  - exfalso. pose proof (f_equal (fun l => l !! length l1) E) as El. cbn beta in El.
    rewrite list_lookup_middle in El by (by rewrite length_fmap). rewrite lookup_app_r in El by lia. rewrite list_lookup_fmap in El.
    destruct (tl !! _) as [t|]; [|done]. injection El as El. by destruct (Hx t).
  - exists (drop (S (length l1)) us0). apply (f_equal (drop (S (length l1)))) in E. rewrite (drop_app_ge (Free <$> l1)) in E by (rewrite length_fmap; lia).
    rewrite (drop_app_le us0) in E by lia. rewrite length_fmap in E. replace (S (length l1) - length l1)%nat with 1%nat in E by lia. exact E.
Qed.

Lemma free_laf_file d loc : item_ok bpb d (Free loc) -> is_empty_end (file (free_laf d loc)) = true \/ is_empty_middle (file (free_laf d loc)) = true.
Proof using. intros [(e & He & Hm)|(e & He & Hm)]; unfold free_laf; cbn [file]; rewrite He; [by right|by left]. Qed.

(** The first items [us1] end with a file; the places found are the unused ones behind it. *)
Definition run_found us (us1 : list item) (fl : list FileEntryLocation) (us2 : list item) (range : Z) : Prop :=
  us = us1 ++ (Free <$> fl) ++ us2 /\ zlen fl = range /\ (us1 = [] \/ exists z lfns loc name, us1 = z ++ [Named lfns loc name]).

Lemma gather_result d range : working d -> 0 <= range < 65536 -> forall us fuel it prev, Forall (item_ok bpb d) us -> seen d it us ->
  (length us < fuel)%nat -> zlen prev <= range -> (exists us0 tl, (Free <$> prev) ++ us = us0 ++ (Free <$> tl) /\ range <= zlen tl) ->
  exists it' us1 fl us2, gather fuel d bpb it range (zlen prev) (free_laf d <$> prev) = Some (it', range, free_laf d <$> fl)
    /\ run_found ((Free <$> prev) ++ us) us1 fl us2 range.
Proof using G Hper.
  intros Hw Hr us. induction us as [|x us IH]; intros fuel it prev Hok Hs Hf Hp (us0 & tl & E & Htl); (destruct fuel as [|fuel]; [cbn in Hf; lia|]); cbn [gather].
  - assert (zlen prev = range) as Epr.
    { apply (f_equal length) in E. rewrite app_nil_r, length_app, !length_fmap in E. unfold zlen in *. lia. }
    unfold has_next. rewrite bool_decide_false by (cbn in Hs; rewrite Hs; done). cbn [andb]. exists it, [], prev, []. rewrite Epr.
    split; [done|]. split; [done|]. split; [done|by left].
  - destruct Hs as (c & i & S & Hi & Hm & Hlaf & Eb). apply Forall_cons_1 in Hok as [Hx Hok]. unfold has_next.
    rewrite bool_decide_true by apply (oc_state _ _ _ _ _ _ (sd_on _ _ _ _ _ _ _ S)). cbn [andb].
    destruct (zlen prev <? range) eqn:Elt; bool_prop.
    + destruct (increment_seen d it c i us Hw S Hm Eb Hok) as (it1 & -> & Hs1). cbn [mbind option_bind]. rewrite Hlaf.
      destruct x as [loc|lfns loc name]; cbn [item_laf].
      * assert (negb (is_empty_end (file (free_laf d loc))) && negb (is_empty_middle (file (free_laf d loc))) = false) as ->.
        { destruct (free_laf_file d loc Hx) as [-> | ->]; [done|]. by rewrite andb_false_r. }
        assert (u16 (zlen prev + 1) = zlen (prev ++ [loc])) as ->.
        { pose proof (zlen_nonneg prev). rewrite zlen_app. apply (wrap_small 16). unfold in_width. change (2 ^ 16) with 65536. change (zlen [loc]) with 1. lia. }
        replace ((free_laf d <$> prev) ++ [free_laf d loc]) with (free_laf d <$> (prev ++ [loc])) by (by rewrite fmap_app).
        assert ((Free <$> prev) ++ Free loc :: us = (Free <$> (prev ++ [loc])) ++ us) as Eu by (by rewrite fmap_app, <- app_assoc).
        rewrite Eu in E |- *. apply (IH fuel it1 (prev ++ [loc])); try done; [cbn in Hf; lia| |by exists us0, tl].
        rewrite zlen_app. change (zlen [loc]) with 1. lia.
      * destruct Hx as [(e & He & H1 & H2) _]. assert (file (laf_of bpb d lfns loc name) = e) as -> by (unfold laf_of; cbn [file]; by rewrite He).
        rewrite H1, H2. cbn [negb andb]. destruct (suffix_free prev (Named lfns loc name) us us0 tl ltac:(done) E) as [us0' E'].
        destruct (IH fuel it1 [] Hok Hs1) as (it' & us1 & fl & us2 & Hg & Eu & Hz & Hl); [cbn in Hf; lia|exact (proj1 Hr)|by exists us0', tl|].
        exists it', ((Free <$> prev) ++ Named lfns loc name :: us1), fl, us2. split; [exact Hg|]. cbn [fmap list_fmap app] in Eu. split; [|split; [done|]].
        -- rewrite Eu, <- app_assoc. done.
        -- right. destruct Hl as [->|(z & lf & lo & nm & ->)]; [by exists (Free <$> prev), lfns, loc, name|].
           exists ((Free <$> prev) ++ Named lfns loc name :: z), lf, lo, nm. by rewrite <- app_assoc.
    + assert (zlen prev = range) as Epr by lia. exists it, [], prev, (x :: us). rewrite Epr. split; [done|]. split; [done|]. split; [done|by left].
Qed.

(** ** A directory of one cluster *)
Record table d c us (tail : list FileEntryLocation) : Prop := {
  tb_chain : chain d [c];
  tb_places : places c = places_of us ++ tail;
  tb_items : Forall (listed bpb d) us;
  tb_tail : Forall (end_mark bpb d) tail }.

Lemma table_directory d c us tail : table d c us tail -> directory bpb n d [c] us tail.
Proof using Hper.
  intros [Hch Hpl Hok Ht]. constructor; [done| |done|].
  - change (locs bpb [c]) with (places c ++ []). by rewrite app_nil_r.
  - destruct tail as [|t tl]; [done|]. apply Forall_cons_1 in Ht as [Ht _]. split; [done|]. intros Hi.
    destruct us as [|x us]; [by split; [done|intros []]|]. exfalso.
    pose proof (list_lookup_middle (places_of (x :: us)) tl t (length (places_of (x :: us))) eq_refl) as Hl.
    rewrite <- Hpl in Hl. apply places_lookup in Hl as [-> _]. cbn [entry_idx] in Hi.
    destruct (item_places_cons x) as (p & ps & Ep). unfold places_of in Hi. cbn [fmap list_fmap mjoin list_join] in Hi. rewrite Ep in Hi. cbn in Hi. lia.
Qed.

(** The items with the unused entries at the end. *)
Definition items us (tail : list FileEntryLocation) : list item := us ++ (Free <$> tail).

Lemma places_of_app us1 us2 : places_of (us1 ++ us2) = places_of us1 ++ places_of us2.
Proof using. unfold places_of. by rewrite fmap_app, join_app. Qed.

Lemma places_of_free fl : places_of (Free <$> fl) = fl.
Proof using. unfold places_of. induction fl as [|loc fl IH]; [done|]. cbn. by f_equal. Qed.

Lemma items_ok d c us tail : table d c us tail -> Forall (item_ok bpb d) (items us tail) /\ places c = places_of (items us tail).
Proof using.
  intros [_ Hpl Hok Ht]. split; [|unfold items; by rewrite places_of_app, places_of_free]. apply Forall_app. split.
  - eapply Forall_impl; [exact Hok|]. intros [loc|lfns loc name]; [|done]. intros [H _]. by left.
  - apply Forall_fmap. eapply Forall_impl; [exact Ht|]. intros loc H. by right.
Qed.

(** ** A name and its entries *)
Record good_name (name : list Z) : Prop := {
  gn_chars : Forall name_char name;
  gn_len : 0 < zlen name < 195;
  gn_mod : zlen name mod 13 <> 0 }.

(** The number of long file name entries. *)
Definition lfn_count (name : list Z) : nat := Z.to_nat (zlen name / 13 + 1).

Definition fill_bytes (name : list Z) : list Z := 0 :: replicate (13 * lfn_count name - length name - 1) 0xFF.

Lemma good_name_facts name : good_name name ->
  Forall (fun c => c = 0xFF \/ c = 0) (fill_bytes name) /\ length (name ++ fill_bytes name) = (13 * lfn_count name)%nat
  /\ (lfn_count name <= 15)%nat /\ (13 * (lfn_count name - 1) < length name)%nat /\ (1 <= lfn_count name)%nat.
Proof using.
  intros [Hc Hl Hm]. unfold fill_bytes, lfn_count. assert (0 <= zlen name / 13 <= 14) as Hq by (Z.to_euclidean_division_equations; lia).
  assert (13 * (zlen name / 13) < zlen name < 13 * (zlen name / 13) + 13) as Hb by (Z.to_euclidean_division_equations; lia).
  unfold zlen in *. split_and!; [|rewrite length_app; cbn [length]; rewrite length_replicate; lia|lia|lia|lia].
  apply Forall_cons_2; [by right|]. apply Forall_replicate. by left.
Qed.

Definition short_of (name : list Z) : list Z := (upper_char <$> take 8 name) ++ zeros (8 - zlen (take 8 name)) ++ replicate 3 TRAILING_SPACE.

Lemma upper_range c : name_char c -> in_width 8 (upper_char c) /\ upper_char c <> 0 /\ upper_char c <> 0xE5.
Proof using. intros Hc%name_char_range. unfold upper_char, in_width. change (2 ^ 8) with 256. destruct (_ && _) eqn:E; bool_prop; lia. Qed.

Lemma upper_zero_tail l r : Forall name_char l -> upper (of_chars (l ++ 0 :: r)) = Some (of_chars (upper_char <$> l)).
Proof using.
  intros Hl. unfold upper. destruct (get_buf_chars (l ++ 0 :: r)) as [rest ->]. cbn [mbind option_bind]. rewrite size_chars, slice_front. cbn [mbind option_bind].
  rewrite fmap_app. cbn [fmap list_fmap]. change (if (97 <=? 0) && (0 <=? 122) then 0 - 32 else 0) with 0. rewrite <- app_assoc. apply of_cstr_chars.
  apply Forall_fmap. eapply Forall_impl; [exact Hl|]. intros c Hc. by apply upper_range.
Qed.

(** The eight characters of the short name. *)
Lemma short_result name : good_name name ->
  exists s b, init (name ++ fill_bytes name) 0 SHORT_NAME_MAIN_SIZE = Some s /\ upper s = Some b
    /\ exists buf, get_buf b = Some buf /\ slice buf 0 SHORT_NAME_MAIN_SIZE = Some ((upper_char <$> take 8 name) ++ zeros (8 - zlen (take 8 name))).
Proof using.
  intros Hg. destruct (good_name_facts name Hg) as (_ & Hlen & _ & _ & _). destruct Hg as [Hc Hl Hm].
  set (l := take 8 name). assert (zlen l <= 8) as Hl8 by (unfold zlen, l; rewrite length_take; lia). assert (Forall name_char l) as Hlc by by apply Forall_take.
  assert (exists s r, init (name ++ fill_bytes name) 0 8 = Some s /\ (s = of_chars l \/ s = of_chars (l ++ 0 :: r))) as (s & r & Es & Hs).
  { destruct (decide (8 <= length name)%nat).
    - exists (of_chars l), []. split; [|by left]. pose proof (init_front l (drop 8 name ++ fill_bytes name)) as Hi.
      unfold l in Hi. rewrite app_assoc, take_drop in Hi. replace (zlen (take 8 name)) with 8 in Hi by (unfold zlen; rewrite length_take; lia). exact Hi.
    - assert (l = name) as El by (apply take_ge; lia).
      exists (of_chars (name ++ 0 :: take (7 - length name) (drop 1 (fill_bytes name)))), (take (7 - length name) (drop 1 (fill_bytes name))). split; [|right; by rewrite El].
      pose proof (init_front (name ++ 0 :: take (7 - length name) (drop 1 (fill_bytes name))) (drop (7 - length name) (drop 1 (fill_bytes name)))) as Hi.
      rewrite <- app_assoc in Hi. cbn [app] in Hi. rewrite take_drop in Hi. change (0 :: drop 1 (fill_bytes name)) with (fill_bytes name) in Hi.
      replace (zlen (name ++ 0 :: take (7 - length name) (drop 1 (fill_bytes name)))) with 8 in Hi; [exact Hi|].
      rewrite length_app in Hlen. pose proof (f_equal (@length Z) (eq_refl (fill_bytes name))) as _. unfold zlen. rewrite length_app. cbn [length]. rewrite length_take, length_drop.
      unfold zlen in Hl. unfold lfn_count in Hlen. unfold zlen in Hlen. Z.to_euclidean_division_equations. lia. }
  assert (upper s = Some (of_chars (upper_char <$> l))) as Hup.
  { destruct Hs as [-> | ->]; [|by apply upper_zero_tail]. apply upper_chars. eapply Forall_impl; [exact Hlc|]. intros c [_ Hz]. done. }
  exists s, (of_chars (upper_char <$> l)). split; [exact Es|]. split; [done|].
  assert (zlen (upper_char <$> l) = zlen l) as Ez by (unfold zlen; by rewrite length_fmap). pose proof (zlen_nonneg l).
  assert (get_buf (of_chars (upper_char <$> l)) = Some ((upper_char <$> l) ++ zeros (24 - zlen l))) as Hb.
  { unfold of_chars. rewrite Ez. replace (zlen l <? BUF_SIZE) with true by (symmetry; apply Z.ltb_lt; unfold BUF_SIZE; lia).
    unfold get_buf. cbn. by replace (zlen l <? BUF_SIZE) with true by (symmetry; apply Z.ltb_lt; unfold BUF_SIZE; lia). }
  eexists. split; [exact Hb|]. pose proof (slice_front ((upper_char <$> l) ++ zeros (8 - zlen l)) (zeros 16)) as Hsl.
  rewrite <- app_assoc in Hsl. replace (zeros (8 - zlen l) ++ zeros 16) with (zeros (24 - zlen l)) in Hsl.
  - rewrite zlen_app, Ez in Hsl. replace (zlen l + zlen (zeros (8 - zlen l))) with 8 in Hsl; [exact Hsl|]. unfold zeros, zlen at 2. rewrite length_replicate. lia.
  - unfold zeros. rewrite <- replicate_add. f_equal. lia.
Qed.

Lemma valid_good name : good_name name -> validate_name (of_chars name) = Some true.
Proof using.
  intros [Hc Hl _]. unfold validate_name, size. rewrite size_chars. replace (MAX_FILE_NAME_SIZE <? zlen name) with false by (symmetry; apply Z.ltb_ge; unfold MAX_FILE_NAME_SIZE; lia).
  destruct name as [|c name]; [by destruct Hl|]. rewrite char_at_chars by lia. change (aget (c :: name) 0) with (Some c). cbn [mbind option_bind].
  pose proof Hc as [Hc0%name_char_range _]%Forall_cons_1. replace (c =? 32) with false by (symmetry; apply Z.eqb_neq; lia).
  destruct (get_buf_chars (c :: name)) as [r ->]. cbn [mbind option_bind]. rewrite slice_front. cbn [mbind option_bind]. f_equal.
  apply forallb_forall. intros x Hx%list_elem_of_In. rewrite Forall_forall in Hc. by apply Hc in Hx as [-> _].
Qed.

(** The directory that the path of a new file names, and the name of the file. *)
Definition parent_is (fuel : nat) d (path : Path.Path) (c : Z) (name : list Z) : Prop :=
  Path.get_file_name path = Some (of_chars name) /\
  exists q r ps, Path.get_parent path = Some q /\ Path.resolve q (P []) = Some r /\ Path.split_path r = Some ps /\
    match ps with
    | [] => get_root_directory_cluster bpb = c
    | _ => exists dir, navigate_to fuel d bpb (get_root_directory_cluster bpb) ps = Some (NAV_FOUND, dir) /\ cluster (file dir) = c
    end.

Lemma root_cluster_id : in_width 32 (get_root_directory_cluster bpb) -> cluster (root_dummy bpb) = get_root_directory_cluster bpb.
Proof using. intros H. by apply cluster_with. Qed.

Lemma find_empty_result fuel d c us tail path name range : working d -> table d c us tail -> parent_is fuel d path c name ->
  in_width 32 (get_root_directory_cluster bpb) -> 0 <= range < 65536 -> range <= zlen tail -> (length (items us tail) < fuel)%nat ->
  exists dir q us1 fl us2, Path.get_parent path = Some q /\ Path.resolve q (P []) = Some dir
    /\ find_empty_file_entries fuel d bpb dir range [] = Some (V_OKAY, free_laf d <$> fl, d)
    /\ run_found (items us tail) us1 fl us2 range.
Proof using G Hper.
  intros Hw Ht (_ & q & r & ps & Hq & Hr & Hps & Hdir) Hroot Hrange Htl Hf. destruct (items_ok d c us tail Ht) as [Hok Hpl].
  destruct (begin_seen d c (items us tail) Hw (tb_chain _ _ _ _ Ht) Hpl Hok) as (it & Hb & Hs).
  destruct (gather_result d range Hw Hrange (items us tail) fuel it [] Hok Hs Hf (proj1 Hrange)) as (it' & us1 & fl & us2 & Hg & Hrun); [by exists us, tail|].
  cbn [fmap list_fmap app] in Hg, Hrun. change (zlen []) with 0 in Hg.
  exists r, q, us1, fl, us2. split_and!; try done. unfold find_empty_file_entries. rewrite Hps. cbn [mbind option_bind].
  assert (exists dirf, (match ps with [] => r ← root_laf bpb; Some (NAV_FOUND, r) | _ => navigate_to fuel d bpb (cluster (root_dummy bpb)) ps end)
    = Some (NAV_FOUND, dirf) /\ cluster (file dirf) = c) as (dirf & -> & Hc).
  { destruct ps as [|p ps].
    - eexists. split; [unfold root_laf; rewrite empty_string_chars; reflexivity|]. cbn [file]. by rewrite root_cluster_id.
    - rewrite root_cluster_id by done. exact Hdir. }
  cbn [mbind option_bind]. rewrite Hc, Hb. cbn [mbind option_bind]. rewrite Hg. cbn [mbind option_bind]. by rewrite Z.ltb_irrefl.
Qed.

(** The entries made for a new file, before they are written. *)
Record new_entries d (name : list Z) (checksum : Z) (fl : list FileEntryLocation) (out : list LocationAwareFileEntry) : Prop := {
  ne_length : length out = length fl;
  ne_lfns : forall i loc, (i < lfn_count name)%nat -> fl !! i = Some loc ->
    exists f, out !! i = Some (mkLaf (of_chars []) f loc no_location) /\ lfn_entry_at name (fill_bytes name) (lfn_count name) checksum i f;
  ne_file : forall loc, fl !! lfn_count name = Some loc ->
    out !! lfn_count name = Some (mkLaf (of_chars []) (with_short_name (short_of name) (default empty_entry (entry_at d loc))) loc no_location) }.

Lemma checksum_range e : in_width 8 (compute_short_name_checksum e).
Proof using.
  unfold compute_short_name_checksum. assert (forall l x, in_width 8 x -> in_width 8 (foldl checksum_step x l)) as H; [|by apply H].
  induction l as [|y l IH]; intros x Hx; [done|]. apply IH. unfold checksum_step. by apply wrap_range.
Qed.

Lemma make_entries_result fuel d c us tail path name : working d -> table d c us tail -> parent_is fuel d path c name ->
  in_width 32 (get_root_directory_cluster bpb) -> good_name name -> Z.of_nat (lfn_count name) + 1 <= zlen tail -> (length (items us tail) < fuel)%nat ->
  exists checksum us1 fl us2 out, make_long_file_name_entries fuel d bpb path = Some (IO_NONE, out, d)
    /\ run_found (items us tail) us1 fl us2 (Z.of_nat (lfn_count name) + 1) /\ in_width 8 checksum /\ new_entries d name checksum fl out.
Proof using G Hper.
  intros Hw Ht Hpar Hroot Hg Htl Hf. destruct (good_name_facts name Hg) as (Hpad & Hlen & HN & Hlast & Hpos). set (N := lfn_count name) in *.
  destruct (find_empty_result fuel d c us tail path name (Z.of_nat N + 1) Hw Ht Hpar Hroot ltac:(lia) Htl Hf) as (dir & q & us1 & fl & us2 & Hq & Hdir & Hfind & Hrun).
  pose proof Hrun as (_ & Hzl & _). unfold zlen in Hzl. destruct Hpar as [Hname _].
  destruct (lookup_lt_is_Some_2 fl N ltac:(lia)) as [loc0 Hloc0].
  set (short := with_short_name (short_of name) (default empty_entry (entry_at d loc0))).
  set (ck := compute_short_name_checksum short). pose proof (checksum_range short) as Hck. fold ck in Hck.
  set (out1 := <[N := mkLaf (of_chars []) short loc0 no_location]> (free_laf d <$> fl)).
  assert (length out1 = S N) as Hl1 by (unfold out1; rewrite length_insert, length_fmap; lia).
  destruct (fill_entries_result name (fill_bytes name) N ck (gn_chars _ Hg) Hpad Hlen HN Hlast Hpos Hck N out1 ltac:(lia) ltac:(lia)) as (out & Efill & Elen & Hge & Hlt).
  exists ck, us1, fl, us2, out. split; [|split; [done|split; [done|]]].
  - unfold make_long_file_name_entries. rewrite Hname. cbn [mbind option_bind]. rewrite (valid_good name Hg). cbn [mbind option_bind negb]. unfold size. rewrite size_chars.
    pose proof (gn_len _ Hg) as Hgl.
    assert (Math.div_round_up 64 (zlen name) MAX_CHAR_PER_ENTRY = Some (Z.of_nat N)) as ->.
    { unfold Math.div_round_up, MAX_CHAR_PER_ENTRY. rewrite decide_False by done. f_equal. rewrite (wrap_small 64) by (unfold in_width; change (2 ^ 64) with 18446744073709551616; lia).
      unfold N, lfn_count. pose proof (gn_mod _ Hg). Z.to_euclidean_division_equations. lia. }
    cbn [mbind option_bind]. replace (u16 (1 + Z.of_nat N)) with (Z.of_nat N + 1) by (symmetry; rewrite (wrap_small 16); [lia|unfold in_width; change (2 ^ 16) with 65536; lia]).
    rewrite Hq. cbn [mbind option_bind]. change (Path.cstr []) with (Some (of_chars [])). cbn [mbind option_bind]. fold (P []). rewrite Hdir. cbn [mbind option_bind]. rewrite Hfind. cbn [mbind option_bind].
    destruct (get_buf_chars name) as [r ->]. cbn [mbind option_bind]. rewrite slice_front. cbn [mbind option_bind].
    assert (name_buffer name ((Z.of_nat N + 1 - 1) * MAX_CHAR_PER_ENTRY) = Some (name ++ fill_bytes name)) as ->.
    { unfold name_buffer, MAX_CHAR_PER_ENTRY. rewrite length_app in Hlen. unfold fill_bytes in Hlen at 1. cbn [length] in Hlen.
      replace ((Z.of_nat N + 1 - 1) * 13 <? zlen name + 1) with false by (symmetry; apply Z.ltb_ge; unfold zlen; lia).
      do 2 f_equal. unfold fill_bytes. cbn [app]. do 2 f_equal. fold N. unfold zlen. lia. }
    cbn [mbind option_bind]. unfold set_short_name.
    assert (last (free_laf d <$> fl) = Some (free_laf d loc0)) as ->.
    { rewrite last_lookup, length_fmap, list_lookup_fmap. replace (pred (length fl)) with N by lia. by rewrite Hloc0. }
    cbn [mbind option_bind]. destruct (short_result name Hg) as (s & b & -> & Hup & buf & Hbuf & Hsl). cbn [mbind option_bind]. rewrite Hup. cbn [mbind option_bind].
    rewrite Hbuf. cbn [mbind option_bind]. rewrite Hsl. cbn [mbind option_bind]. rewrite <- app_assoc. fold (short_of name).
    change (with_file (with_short_name (short_of name)) (free_laf d loc0)) with (mkLaf (of_chars []) short loc0 no_location). cbn [file]. fold ck.
    rewrite length_fmap. replace (pred (length fl)) with N by lia. fold out1. replace (Z.to_nat (Z.of_nat N + 1 - 1)) with N by lia.
    replace (N - N + 1)%nat with 1%nat in Efill by lia. rewrite Nat.sub_diag in Efill. change (Z.of_nat 1) with 1 in Efill. change (13 * Z.of_nat 0) with 0 in Efill. rewrite Efill. done.
  - constructor.
    + lia.
    + intros i loc Hi Hloc. fold N in Hi. destruct (Hlt i (free_laf d loc) Hi) as (f & Hf1 & Hf2).
      { unfold out1. rewrite list_lookup_insert_ne by lia. by rewrite list_lookup_fmap, Hloc. }
      exists f. split; [exact Hf1|exact Hf2].
    + intros loc Hloc. fold N in Hloc |- *. rewrite Hloc0 in Hloc. injection Hloc as <-. rewrite Hge by lia. unfold out1. rewrite list_lookup_insert_eq; [done|rewrite length_fmap; lia].
Qed.

(** ** The directory afterwards *)

Lemma lfn_at_ext d d' c x : x ∈ places c -> entry_at d' x = entry_at d x -> lfn_at d' x = lfn_at d x.
Proof using G.
  intros (i & -> & Hi)%elem_places He. destruct (at_place d c i Hi) as (s & e & _ & _ & _ & Hat & _ & Hs & ->).
  destruct (lfn_at_entry d' c i e Hi) as [-> _]; [congruence|]. by rewrite Hs.
Qed.

Lemma listed_ext d d' c x : (forall y, y ∈ item_places x -> y ∈ places c /\ entry_at d' y = entry_at d y) -> listed bpb d x -> listed bpb d' x.
Proof using G Hper.
  intros He. destruct x as [loc|lfns loc name]; cbn [item_places] in He.
  - intros [(e & H1 & H2) Hi]. split; [|done]. exists e. split; [|done]. rewrite (proj2 (He loc ltac:(set_solver))). done.
  - intros [(e & H1 & H2) Hn]. split.
    + exists e. split; [|done]. rewrite (proj2 (He loc ltac:(set_solver))). done.
    + destruct lfns as [|l0 lfns].
      * destruct Hn as (e' & H3 & H4). exists e'. split; [|done]. rewrite (proj2 (He loc ltac:(set_solver))). done.
      * destruct Hn as [(e' & H3 & H4) Hrun]. split.
        -- exists e'. split; [|done]. rewrite (proj2 (He l0 ltac:(set_solver))). done.
        -- apply (run_ext (lfn_at d)); [|done]. intros y Hy. destruct (He y ltac:(set_solver)) as [Hp Heq]. by apply (lfn_at_ext d d' c).
Qed.

Lemma lafs_ext d d' us : (forall y, y ∈ places_of us -> entry_at d' y = entry_at d y) -> lafs bpb d' us = lafs bpb d us.
Proof using.
  induction us as [|x us IH]; intros He; [done|]. unfold places_of in He. cbn [fmap list_fmap mjoin list_join] in He.
  assert (lafs bpb d' us = lafs bpb d us) as IH' by (apply IH; intros y Hy; apply He; apply elem_of_app; by right).
  destruct x as [loc|lfns loc name]; [exact IH'|]. change (lafs bpb d' (Named lfns loc name :: us)) with (laf_of bpb d' lfns loc name :: lafs bpb d' us).
  change (lafs bpb d (Named lfns loc name :: us)) with (laf_of bpb d lfns loc name :: lafs bpb d us). rewrite IH'. f_equal. unfold laf_of.
  rewrite He; [done|]. apply elem_of_app. left. cbn [item_places]. apply elem_of_app. right. by apply list_elem_of_singleton.
Qed.

Lemma lafs_app d us1 us2 : lafs bpb d (us1 ++ us2) = lafs bpb d us1 ++ lafs bpb d us2.
Proof using. unfold lafs. apply omap_app. Qed.

Lemma lafs_free d fs : lafs bpb d (Free <$> fs) = [].
Proof using. by induction fs. Qed.

(** The unused entries that were found, inside the items and in the tail. *)
Lemma split_items us tail us1 fl us2 range : run_found (items us tail) us1 fl us2 range ->
  exists fs us3 k, us = us1 ++ (Free <$> fs) ++ us3 /\ us2 = items us3 (drop k tail).
Proof using.
  intros (E & _ & Hl). unfold items in E. assert (exists us4, us = us1 ++ us4) as [us4 ->].
  { destruct Hl as [->|(z & lf & lo & nm & ->)]; [by exists us|]. destruct (decide (length z < length us)%nat).
    - exists (drop (S (length z)) us). rewrite <- (take_drop (S (length z)) us) at 1. f_equal. apply (f_equal (take (S (length z)))) in E.
      rewrite take_app_le in E by lia. rewrite E, take_app_ge by (rewrite length_app; cbn; lia). rewrite length_app. cbn [length].
      replace (S (length z) - (length z + 1))%nat with 0%nat by lia. by rewrite take_0, app_nil_r.
    - exfalso. apply (f_equal (fun l => l !! length z)) in E. cbn beta in E. rewrite <- app_assoc in E. cbn [app] in E. rewrite list_lookup_middle in E by done.
      rewrite lookup_app_r, list_lookup_fmap in E by lia. by destruct (tail !! _). }
  rewrite <- app_assoc in E. apply app_inv_head in E. destruct (Nat.le_gt_cases (length us4) (length fl)) as [Hle|Hgt].
  - exists (take (length us4) fl), [], (length fl - length us4)%nat.
    pose proof (f_equal (take (length us4)) E) as E1. rewrite take_app_length in E1. rewrite take_app_le in E1 by (rewrite length_fmap; lia). rewrite <- fmap_take in E1.
    split; [by rewrite app_nil_r, <- E1|]. apply (f_equal (drop (length fl))) in E. rewrite drop_app_ge in E by lia.
    rewrite (drop_app_ge (Free <$> fl)) in E by (rewrite length_fmap; lia). rewrite length_fmap, Nat.sub_diag in E. rewrite <- fmap_drop in E. by symmetry.
  - exists fl, (drop (length fl) us4), 0%nat.
    pose proof (f_equal (take (length fl)) E) as E1. rewrite take_app_le in E1 by lia. rewrite take_app_ge in E1 by (rewrite length_fmap; lia). rewrite length_fmap, Nat.sub_diag, take_0, app_nil_r in E1.
    split; [by rewrite <- E1, take_drop|]. apply (f_equal (drop (length fl))) in E. rewrite drop_app_le in E by lia.
    rewrite (drop_app_ge (Free <$> fl)) in E by (rewrite length_fmap; lia). rewrite length_fmap, Nat.sub_diag in E. by symmetry.
Qed.

Lemma short_name_ok name e : good_name name -> entry_ok e -> entry_ok (with_short_name (short_of name) e).
Proof using.
  intros Hg [_ Hb Hw Hs]. constructor; try done. cbn [short_name with_short_name]. unfold short_of. split.
  - rewrite !length_app, length_fmap, length_replicate. unfold zeros. rewrite length_replicate. unfold zlen. rewrite length_take. lia.
  - rewrite !Forall_app, Forall_fmap. split_and!; [|apply Forall_replicate; by split|apply Forall_replicate; by split].
    apply Forall_take. eapply Forall_impl; [exact (gn_chars _ Hg)|]. intros c Hc. by apply upper_range.
Qed.

Lemma short_first name e : good_name name -> is_empty_end (with_short_name (short_of name) e) = false /\ is_empty_middle (with_short_name (short_of name) e) = false.
Proof using.
  intros [Hc Hl _]. destruct name as [|c name]; [by destruct Hl|]. apply Forall_cons_1 in Hc as [Hc _]. destruct (upper_range c Hc) as (_ & H1 & H2).
  unfold is_empty_end, is_empty_middle. change (nth 0 (short_name (with_short_name (short_of (c :: name)) e)) 0) with (upper_char c).
  split; apply Z.eqb_neq; done.
Qed.

Lemma entry_ok_attributes a e : in_width 8 a -> entry_ok e -> entry_ok (with_attributes a e).
Proof using.
  intros Ha [Hn Hb Hw Hs]. constructor; try done. cbn. repeat match goal with H : Forall _ (_ :: _) |- _ => apply Forall_cons_1 in H as [? H] end.
  by repeat (apply Forall_cons_2; [done|]).
Qed.

(** What [create_file] puts on the disk for each place. *)
Definition final_entries (attr : Z) (out : list LocationAwareFileEntry) : option (list LocationAwareFileEntry) :=
  map_last (with_file (fun e => with_attributes attr (Entry.with_cluster 0 e))) out.

Lemma final_result d c name ck fl out attr : new_entries d name ck fl out -> length fl = S (lfn_count name) -> (forall x, x ∈ fl -> x ∈ places c) ->
  good_name name -> in_width 8 attr ->
  exists out' loc e, final_entries attr out = Some out' /\ fl = take (lfn_count name) fl ++ [loc] /\ location <$> out' = fl
    /\ Forall (fun x => location x ∈ places c /\ entry_ok (file x)) out'
    /\ (forall i x, (i < lfn_count name)%nat -> fl !! i = Some x ->
          exists f, mkLaf (of_chars []) f x no_location ∈ out' /\ lfn_entry_at name (fill_bytes name) (lfn_count name) ck i f)
    /\ mkLaf (of_chars []) e loc no_location ∈ out' /\ attributes e = attr /\ cluster e = 0 /\ short_name e = short_of name
    /\ is_empty_end e = false /\ is_empty_middle e = false.
Proof using G.
  intros [Hl Hlf Hf] Hfl Hpl Hg Ha. set (N := lfn_count name) in *. destruct (lookup_lt_is_Some_2 fl N ltac:(lia)) as [loc Hloc].
  specialize (Hf loc Hloc). destruct (elem_places c loc) as (il & El & Hil); [apply Hpl; by apply list_elem_of_lookup_2 in Hloc|].
  destruct (at_place d c il Hil) as (s & e0 & _ & _ & _ & He0 & Heo & _ & _). rewrite <- El in He0. rewrite He0 in Hf. change (default empty_entry (Some e0)) with e0 in Hf.
  set (g := with_file (fun e => with_attributes attr (Entry.with_cluster 0 e))).
  set (e := with_attributes attr (Entry.with_cluster 0 (with_short_name (short_of name) e0))).
  assert (last out = Some (mkLaf (of_chars []) (with_short_name (short_of name) e0) loc no_location)) as Elast by (rewrite last_lookup, Hl, Hfl; exact Hf).
  exists (<[N := mkLaf (of_chars []) e loc no_location]> out), loc, e.
  assert (forall i x, (i < N)%nat -> fl !! i = Some x -> exists f, (<[N := mkLaf (of_chars []) e loc no_location]> out) !! i = Some (mkLaf (of_chars []) f x no_location)
    /\ lfn_entry_at name (fill_bytes name) N ck i f) as Hlow.
  { intros i x Hi Hx. destruct (Hlf i x Hi Hx) as (f & Hof & Hff). exists f. split; [|done]. by rewrite list_lookup_insert_ne by lia. }
  assert ((<[N := mkLaf (of_chars []) e loc no_location]> out) !! N = Some (mkLaf (of_chars []) e loc no_location)) as Htop by (apply list_lookup_insert_eq; lia).
  assert (forall i y, (<[N := mkLaf (of_chars []) e loc no_location]> out) !! i = Some y -> exists x, fl !! i = Some x /\ location y = x /\ entry_ok (file y)) as Hall.
  { intros i y Hy. pose proof (lookup_lt_Some _ _ _ Hy) as Hi. rewrite length_insert in Hi. destruct (decide (i = N)) as [->|Hne].
    - rewrite Htop in Hy. injection Hy as <-. exists loc. split_and!; try done. apply entry_ok_attributes, entry_ok_cluster, short_name_ok; done.
    - destruct (lookup_lt_is_Some_2 fl i ltac:(lia)) as [x Hx]. destruct (Hlow i x ltac:(lia) Hx) as (f & Hof & Hff). rewrite Hof in Hy. injection Hy as <-.
      exists x. split_and!; try done. apply Hff. }
  split_and!.
  - unfold final_entries, map_last. rewrite Elast. cbn [mbind option_bind]. rewrite Hl, Hfl. done.
  - apply take_drop_middle in Hloc as E. rewrite <- E at 1. rewrite drop_ge by lia. done.
  - apply list_eq. intros i. rewrite list_lookup_fmap. destruct (_ !! i) as [y|] eqn:Ey; cbn.
    + destruct (Hall i y Ey) as (x & -> & <- & _). done.
    + symmetry. apply lookup_ge_None. apply lookup_ge_None in Ey. rewrite length_insert in Ey. lia.
  - apply Forall_lookup_2. intros i y Hy. destruct (Hall i y Hy) as (x & Hx & <- & Ho). split; [|done]. apply Hpl; by apply list_elem_of_lookup_2 in Hx.
  - intros i x Hi Hx. destruct (Hlow i x Hi Hx) as (f & Hof & Hff). exists f. split; [by apply list_elem_of_lookup_2 in Hof|done].
  - by apply list_elem_of_lookup_2 in Htop.
  - done.
  - apply (cluster_with 0 (with_short_name (short_of name) e0)). by split.
  - done.
  - apply short_first. done.
  - apply (short_first name (Entry.with_cluster 0 (with_short_name (short_of name) e0)) Hg).
Qed.

(** The written entries are a file with the name. *)
Lemma new_named d' c name ck fl lfl loc (out' : list LocationAwareFileEntry) e : good_name name -> in_width 8 ck -> fl = lfl ++ [loc] -> length lfl = lfn_count name -> (forall x, x ∈ fl -> x ∈ places c) ->
  (forall i x, (i < lfn_count name)%nat -> fl !! i = Some x ->
     exists f, mkLaf (of_chars []) f x no_location ∈ out' /\ lfn_entry_at name (fill_bytes name) (lfn_count name) ck i f) ->
  (forall x, x ∈ out' -> entry_at d' (location x) = Some (file x)) ->
  mkLaf (of_chars []) e loc no_location ∈ out' -> is_empty_end e = false -> is_empty_middle e = false ->
  named bpb d' lfl loc name /\ entry_at d' loc = Some e.
Proof using G.
  intros Hg Hck -> Hll Hpl Hlf Hat He Hend Hmid. destruct (good_name_facts name Hg) as (Hpad & Hlen & HN & Hlast & Hpos). set (N := lfn_count name) in *.
  assert (entry_at d' loc = Some e) as Hloc by apply (Hat _ He). split; [|done]. split; [by exists e|].
  assert (forall i x, (i < N)%nat -> lfl !! i = Some x -> exists f, entry_at d' x = Some f /\ lfn_entry_at name (fill_bytes name) N ck i f) as Hl.
  { intros i x Hi Hx. destruct (Hlf i x Hi) as (f & Hin & Hff); [by apply lookup_app_l_Some|]. exists f. split; [|done]. apply (Hat _ Hin). }
  assert (forall i x, (i < N)%nat -> lfl !! i = Some x -> exists m, m = make_lfn (chunk name (fill_bytes name) (N - 1 - i)) (ord N (N - i)) ck
    /\ lfn_ok m /\ lfn_at d' x = Some m /\ exists f, entry_at d' x = Some f /\ attributes f = l_attributes m /\ first_byte f = order m) as Hm.
  { intros i x Hi Hx. destruct (Hl i x Hi Hx) as (f & Hf & Hfo & Hfb). eexists. split; [done|].
    destruct (chunk_width name (fill_bytes name) N ck (gn_chars _ Hg) Hpad Hlen HN Hlast Hpos (N - 1 - i)) as [Hcl Hcw]; [lia|].
    destruct (ord_spec name (fill_bytes name) N ck (gn_chars _ Hg) Hpad Hlen HN Hlast Hpos (N - i)) as [_ Ho]; [lia|].
    pose proof (make_lfn_ok _ _ ck Hcl Hcw Ho Hck) as Hmok. split; [done|].
    destruct (elem_places c x) as (j & -> & Hj); [apply Hpl, elem_of_app; left; by apply list_elem_of_lookup_2 in Hx|].
    destruct (lfn_at_entry d' c j f Hj Hf) as [Hlx _]. rewrite Hlx, Hfb. split; [by apply read_lfn_bytes|].
    exists f. split; [done|]. destruct (entry_of_lfn _ Hmok) as (f' & Hf' & _ & Hfb' & Ha' & Hb').
    pose proof (read_entry_bytes [] f [] 0 Hfo eq_refl) as H0. rewrite app_nil_r in H0. cbn [app] in H0. rewrite Hfb in H0. assert (f' = f) as -> by congruence. done. }
  destruct lfl as [|l0 lfl]; [cbn in Hll; lia|]. split.
  - destruct (Hm 0%nat l0 ltac:(lia) eq_refl) as (m & -> & Hmok & _ & f & Hf & Hfa & Hfb). exists f. split; [done|]. split; [by rewrite Hfa|].
    rewrite Hfb. cbn [order make_lfn]. unfold ord.
    rewrite !Nat.sub_0_r, decide_True by done.
    assert (zlen (l0 :: lfl) = Z.of_nat N) as -> by (unfold zlen; lia).
    clear -HN Hpos. assert (exists j, (j < 15)%nat /\ N = S j) as (j & Hj & ->) by (exists (pred N); lia). do 15 (destruct j as [|j]; [by split|]). lia.
  - assert (zlen (l0 :: lfl) = Z.of_nat N) as -> by (unfold zlen; lia). rewrite <- (take_ge name (13 * N)) by (rewrite length_app in Hlen; lia).
    apply (run_of_entries name (fill_bytes name) N ck (gn_chars _ Hg) Hpad Hlen HN Hlast Hpos); [done|lia|].
    intros i x Hx. pose proof (lookup_lt_Some _ _ _ Hx) as Hi. destruct (Hm i x ltac:(lia) Hx) as (m & -> & _ & Hlx & _). exact Hlx.
Qed.
(** The places of the items left of the new file, of the new file, and behind it. *)
Lemma run_places d c us tail us1 fl us2 range : table d c us tail -> run_found (items us tail) us1 fl us2 range ->
  places c = places_of us1 ++ fl ++ places_of us2 /\ (forall x, x ∈ places_of us1 \/ x ∈ places_of us2 -> x ∈ places c /\ x ∉ fl).
Proof using Hper.
  intros Ht (E & _). destruct (items_ok d c us tail Ht) as [_ Hpl]. rewrite E, !places_of_app, places_of_free in Hpl. split; [done|].
  pose proof (places_nodup c) as Hnd. rewrite Hpl in Hnd. apply NoDup_app in Hnd as (_ & H1 & Hnd). apply NoDup_app in Hnd as (_ & H2 & _).
  intros x [Hx|Hx]; (split; [rewrite Hpl, !elem_of_app; tauto|]); intros Hf; [apply (H1 x Hx); rewrite elem_of_app; tauto|by apply (H2 x Hf)].
Qed.

Lemma elem_places_of x us y : x ∈ us -> y ∈ item_places x -> y ∈ places_of us.
Proof using. intros Hx Hy. unfold places_of. apply list_elem_of_join. exists (item_places x). split; [done|]. by apply list_elem_of_fmap_2. Qed.

(** The directory with the new file, when the entries around it are what they were. *)
Lemma table_created d d' c us tail us1 fs us3 k lfl loc name : table d c us tail -> us = us1 ++ (Free <$> fs) ++ us3 ->
  keeps bpb n d d' (fun _ => False) (fun x => x = c) -> valid n c ->
  places c = places_of us1 ++ (lfl ++ [loc]) ++ places_of (items us3 (drop k tail)) ->
  (forall x, x ∈ places_of us1 \/ x ∈ places_of (items us3 (drop k tail)) -> x ∈ places c /\ entry_at d' x = entry_at d x) ->
  named bpb d' lfl loc name -> table d' c (us1 ++ Named lfl loc name :: us3) (drop k tail).
Proof using G Hper.
  intros [Hch Hpl Hok Ht] -> Hk Hv E Hsame Hnm. apply Forall_app in Hok as [Hok1 Hok3]. apply Forall_app in Hok3 as [_ Hok3].
  unfold items in E, Hsame. rewrite places_of_app, places_of_free in E, Hsame.
  assert (forall x l, x ∈ l -> (forall y, y ∈ places_of l -> y ∈ places c /\ entry_at d' y = entry_at d y) -> listed bpb d x -> listed bpb d' x) as Hext.
  { intros x l Hx Hl. apply (listed_ext d d' c). intros y Hy. apply Hl. by apply (elem_places_of x). }
  constructor.
  - apply (clusters_frame bpb n d d' [c] Hch). intros x Hx. apply list_elem_of_singleton in Hx as ->.
    apply (keeps_entry bpb n d d' _ _ c Hk); [unfold valid in Hv; lia|tauto].
  - rewrite E, places_of_app. rewrite <- !app_assoc. f_equal. change (places_of (Named lfl loc name :: us3)) with ((lfl ++ [loc]) ++ places_of us3). by rewrite <- !app_assoc.
  - apply Forall_app. split; [|apply Forall_cons_2; [exact Hnm|]]; apply Forall_forall; intros x Hx.
    + rewrite Forall_forall in Hok1. apply (Hext x us1 Hx); [|by apply Hok1]. intros y Hy. apply Hsame. by left.
    + rewrite Forall_forall in Hok3. apply (Hext x us3 Hx); [|by apply Hok3]. intros y Hy. apply Hsame. right. apply elem_of_app. by left.
  - apply Forall_forall. intros y Hy. destruct (Hsame y) as [_ He]; [right; apply elem_of_app; by right|].
    rewrite Forall_forall in Ht. destruct (Ht y) as (e & He0 & Hend); [apply (subseteq_drop k tail); done|]. exists e. by rewrite He.
Qed.
(** The directory after a file with the name was put into it, and what its entry says. *)
Record created d d' c us us1 us3 (lfl : list FileEntryLocation) (loc : FileEntryLocation) name (attr : Z) tail' : Prop := {
  cr_keeps : keeps bpb n d d' (fun _ => False) (fun x => x = c);
  cr_table : table d' c (us1 ++ Named lfl loc name :: us3) tail';
  cr_old : exists fs, us = us1 ++ (Free <$> fs) ++ us3;
  cr_before : lafs bpb d' us1 = lafs bpb d us1;
  cr_behind : lafs bpb d' us3 = lafs bpb d us3;
  cr_entry : exists e, entry_at d' loc = Some e /\ attributes e = attr /\ cluster e = 0 /\ short_name e = short_of name }.

Lemma create_file_result fuel d c us tail path name attr : working d -> table d c us tail -> parent_is fuel d path c name ->
  in_width 32 (get_root_directory_cluster bpb) -> good_name name -> Z.of_nat (lfn_count name) + 1 <= zlen tail -> (length (items us tail) < fuel)%nat ->
  in_width 8 attr -> Z.testbit attr 3 = false -> Z.testbit attr 4 = false ->
  exists d' us1 us3 lfl loc tail', create_file fuel d bpb path attr = Some (CREATED, d') /\ working d'
    /\ created d d' c us us1 us3 lfl loc name attr tail'.
Proof using G Hper.
  intros Hw Ht Hpar Hroot Hg Htl Hf Ha Hvol Hdir.
  destruct (make_entries_result fuel d c us tail path name Hw Ht Hpar Hroot Hg Htl Hf) as (ck & us1 & fl & us2 & out & Hmake & Hrun & Hck & Hnew).
  destruct (run_places d c us tail us1 fl us2 _ Ht Hrun) as [Hpl Hother].
  pose proof Hrun as (_ & Hzl & _). unfold zlen in Hzl.
  assert (forall x, x ∈ fl -> x ∈ places c) as Hfl by (intros x Hx; rewrite Hpl, !elem_of_app; tauto).
  destruct (final_result d c name ck fl out attr Hnew ltac:(lia) Hfl Hg Ha) as (out' & loc & e & Efin & Efl & Eloc & Hokl & Hlfn & Hin & Hea & Hec & Hes & He1 & He2).
  pose proof (places_nodup c) as Hnd. rewrite Hpl in Hnd. apply NoDup_app in Hnd as (_ & _ & Hnd). apply NoDup_app in Hnd as (Hnd & _ & _).
  assert (valid n c) as Hv by (destruct (tb_chain _ _ _ _ Ht 0%nat c eq_refl); done).
  destruct (update_all_result c Hv out' d Hw) as (d' & Eupd & Hw' & Hk & Hat & Hsame); [by rewrite Eloc|done|].
  destruct (split_items us tail us1 fl us2 _ Hrun) as (fs & us3 & k & Eus & Eus2). subst us2.
  assert (forall x, x ∈ places_of us1 \/ x ∈ places_of (items us3 (drop k tail)) -> x ∈ places c /\ entry_at d' x = entry_at d x) as Hs.
  { intros x Hx. destruct (Hother x Hx) as [Hp Hn]. split; [done|]. apply Hsame; [done|]. by rewrite Eloc. }
  destruct (new_named d' c name ck fl (take (lfn_count name) fl) loc out' e Hg Hck Efl) as [Hnm Hent]; try done; [rewrite length_take; lia|].
  exists d', us1, us3, (take (lfn_count name) fl), loc, (drop k tail). split_and!; [|done|constructor].
  - unfold create_file. assert (has_attribute (with_attributes attr empty_entry) VOLUME_ID = false /\ has_attribute (with_attributes attr empty_entry) DIRECTORY = false) as [-> ->].
    { unfold has_attribute. cbn [attributes with_attributes]. by rewrite !Bits.bit_check_spec, Hvol, Hdir by lia. }
    cbn [orb]. rewrite Hmake. cbn [mbind option_bind]. rewrite decide_False by tauto.
    fold (final_entries attr out). rewrite Efin. cbn [mbind option_bind]. by rewrite Eupd.
  - done.
  - apply (table_created d d' c us tail us1 fs us3 k _ loc name Ht Eus Hk Hv); [by rewrite <- Efl|exact Hs|exact Hnm].
  - by exists fs.
  - apply lafs_ext. intros y Hy. apply Hs. by left.
  - apply lafs_ext. intros y Hy. apply Hs. right. unfold items. rewrite places_of_app. apply elem_of_app. by left.
  - by exists e.
Qed.

(** The files of a directory with a file more. *)
Lemma created_lafs d d' c us us1 us3 lfl loc name attr tail' : created d d' c us us1 us3 lfl loc name attr tail' ->
  lafs bpb d us = lafs bpb d us1 ++ lafs bpb d us3
  /\ lafs bpb d' (us1 ++ Named lfl loc name :: us3) = lafs bpb d us1 ++ laf_of bpb d' lfl loc name :: lafs bpb d us3.
Proof using.
  intros [_ _ [fs ->] E1 E3 _]. rewrite !lafs_app, lafs_free. split; [done|].
  change (lafs bpb d' (Named lfl loc name :: us3)) with (laf_of bpb d' lfl loc name :: lafs bpb d' us3). by rewrite E1, E3.
Qed.

(** A name that no file had is now found, every other name as before. *)
Lemma created_lookup d d' c us us1 us3 lfl loc name attr tail' nm : created d d' c us us1 us3 lfl loc name attr tail' ->
  lookup_name bpb d us name = None ->
  lookup_name bpb d' (us1 ++ Named lfl loc name :: us3) nm = if decide (nm = name) then Some (laf_of bpb d' lfl loc name) else lookup_name bpb d us nm.
Proof using.
  intros Hcr Hnone. destruct (created_lafs _ _ _ _ _ _ _ _ _ _ _ Hcr) as [E1 E2]. rewrite !lookup_name_lafs, E2, E1 in *.
  clear -Hnone. induction (lafs bpb d us1) as [|x l IH]; cbn [app List.find] in *.
  - change (file_name (laf_of bpb d' lfl loc name)) with (of_chars name). case_decide as Hd.
    + subst nm. by rewrite bool_decide_true.
    + rewrite bool_decide_false by (intros E%of_chars_inj; by symmetry in E). done.
  - case_bool_decide as Hx; [done|]. specialize (IH Hnone). case_decide as Hd.
    + subst nm. by rewrite bool_decide_false by done.
    + case_bool_decide; [done|exact IH].
Qed.
End create.
End CreateProps.
