(* ===== verification/FatDeleteProps.v ===== *)
(** * Deleting a file of a FAT directory

    The entries that [delete_file] marks, the chain it frees, and the directory afterwards. *)

From S2P Require Import Prelude Kre KString KStringProps FatVolume FatVolumeProps FatFile FatFileProps FatDirectory FatDriver FatDirectoryProps FatCreateProps.

Module DeleteProps.
Import KString StrProps Fat VolumeProps Entry Manager FileProps Lfn Directory Search Driver LfnProps DirProps CreateProps.

Section delete.
Context {D : Type} `{MD : MassStorage D} `{!Disk D}.
Context (bpb : BootRecord32) (n : Z) (G : geometry bpb n).
Context (Hper : 1 <= per bpb <= 65536).
Implicit Types (d : D) (it : FATDirectoryIterator) (us : list item).
#[local] Abbreviation cs := (cluster_size bpb).
#[local] Abbreviation per := (per bpb).
#[local] Abbreviation entry_at := (FileProps.entry_at bpb).
#[local] Abbreviation chain := (FileProps.chain bpb n).
#[local] Abbreviation places := (DirProps.places bpb).

Lemma deleted_ok e : entry_ok e -> entry_ok (deleted_entry e) /\ is_empty_middle (deleted_entry e) = true.
Proof using.
  intros [[Hl Hn] Hb Hw Hs]. split; [constructor|].
  - cbn [short_name deleted_entry with_size with_cluster with_short_name]. split; [by rewrite length_insert|]. apply Forall_insert; [done|by split].
  - cbn. repeat match goal with H : Forall _ (_ :: _) |- _ => apply Forall_cons_1 in H as [? H] end. by repeat (apply Forall_cons_2; [done|]).
  - cbn. repeat match goal with H : Forall _ (_ :: _) |- _ => apply Forall_cons_1 in H as [? H] end. by repeat (apply Forall_cons_2; [done|]).
  - by split.
  - unfold is_empty_middle. cbn [short_name deleted_entry with_size with_cluster with_short_name]. by destruct (short_name e).
Qed.

(** ** The iterator over single entries: it reads nothing within a cluster. *)
Definition atomic_on d0 it c i : Prop :=
  standing bpb n d0 it c i [] /\ _it_mode it = ATOMIC
  /\ (0 <= i -> exists e, entry_at d0 (mkLocation c i) = Some e /\ _current_entry_as_laf it = mkLaf (of_chars []) e (mkLocation c i) no_location).

Lemma atomic_step d0 d it c i : atomic_on d0 it c i -> i + 1 < per ->
  exists it', increment d bpb it = Some it' /\ atomic_on d0 it' c (i + 1).
Proof using G Hper.
  intros (S & Hm & _) Hi. unfold increment. rewrite (oc_state _ _ _ _ _ _ (sd_on _ _ _ _ _ _ _ S)), decide_True by done.
  rewrite (oc_max _ _ _ _ _ _ (sd_on _ _ _ _ _ _ _ S)), (sd_index _ _ _ _ _ _ _ S).
  replace (per - 1 <=? i) with false by (symmetry; apply Z.leb_gt; lia).
  destruct (advance_entry bpb n G Hper d0 it c i [] S Hi) as (e & it1 & He & Hm1 & Hadv).
  rewrite Hm in Hadv. change (bool_decide (ATOMIC = LIST_DIRECTORY)) with false in Hadv. cbn [andb] in Hadv. destruct Hadv as [-> S1].
  cbn [mbind option_bind].
  pose proof (standing_laf bpb n d0 it1 c (i + 1) [] (mkLaf (of_chars []) e (mkLocation c (i + 1)) no_location) S1) as S2.
  rewrite (oc_state _ _ _ _ _ _ (sd_on _ _ _ _ _ _ _ S2)), decide_True by done. cbn [_it_mode with_laf]. rewrite Hm1, Hm.
  eexists. split; [done|]. split; [done|]. split; [cbn; congruence|]. intros _. by exists e.
Qed.

Lemma begin_atomic d c : working d -> chain d [c] -> exists it, begin d bpb c ATOMIC = Some it /\ atomic_on d it c 0.
Proof using G Hper.
  intros Hw Hch. destruct (begin_standing bpb n G Hper d ATOMIC c [] Hw Hch) as (it & -> & S & Hm); [done|].
  apply (atomic_step d d it c (-1)); [|lia]. split; [done|]. split; [done|]. lia.
Qed.

(** ** Marking the entries with the indices [a] to [b] *)
Lemma delete_entries_result d0 c a b f : valid n c -> first_lfn_entry f = mkLocation c a -> location f = mkLocation c b ->
  0 <= a <= b -> b < per -> forall fuel d it i, working d -> atomic_on d0 it c i -> 0 <= i <= b -> b - i < Z.of_nat fuel ->
  exists d', delete_entries fuel d bpb it f = Some (true, d') /\ working d' /\ keeps bpb n d d' (fun _ => False) (fun x => x = c)
    /\ (forall j e, a <= j <= b -> i <= j -> entry_at d0 (mkLocation c j) = Some e -> entry_at d' (mkLocation c j) = Some (deleted_entry e))
    /\ (forall j, 0 <= j < per -> ~ (a <= j <= b /\ i <= j) -> entry_at d' (mkLocation c j) = entry_at d (mkLocation c j)).
Proof using G Hper.
  intros Hv Hfirst Hloc Hab Hb fuel. induction fuel as [|fuel IH]; intros d it i Hw Hit Hi Hf; [lia|]. cbn [delete_entries].
  pose proof Hit as (S & _ & Hlaf). destruct (Hlaf ltac:(lia)) as (e & He & El). unfold has_next.
  rewrite bool_decide_true by apply (oc_state _ _ _ _ _ _ (sd_on _ _ _ _ _ _ _ S)). rewrite El. cbn [location].
  rewrite Hfirst, Hloc. cbn [lcluster entry_idx]. rewrite Z.eqb_refl. cbn [andb].
  destruct (i <? a) eqn:Ea; bool_prop.
  - destruct (atomic_step d0 d it c i Hit ltac:(lia)) as (it1 & -> & Hit1). cbn [mbind option_bind].
    destruct (IH d it1 (i + 1) Hw Hit1) as (d' & E & Hw' & Hk & H1 & H2); [lia|lia|]. exists d'. split_and!; try done.
    + intros j x Hj Hji. apply H1; lia.
    + intros j Hj Hn. apply H2; [done|lia].
  - destruct (lfn_at_entry bpb n G d0 c i e ltac:(lia) He) as [_ Heo]. destruct (deleted_ok e Heo) as [Hdo _].
    assert (32 * i + 32 <= cs) as Hfit by (unfold DirProps.per, ENTRY_SIZE in Hb; Z.to_euclidean_division_equations; lia).
    destruct (update_result bpb n G d (with_file deleted_entry (mkLaf (of_chars []) e (mkLocation c i) no_location))) as (ok & d1 & E & Hfr & Hok & Hwk);
      [split; [done|]; cbn; lia|done|].
    rewrite E. cbn [mbind option_bind]. destruct (Hwk Hw) as [-> Hw1]. cbn [negb]. destruct (Hok eq_refl) as [Hat Hoth].
    cbn [location with_file lcluster entry_idx file] in Hfr, Hat, Hoth.
    pose proof (data_keeps bpb n G d d1 c ltac:(unfold valid in Hv; lia) Hfr) as Hk1. unfold same_location. cbn [lcluster entry_idx]. rewrite Z.eqb_refl. cbn [andb].
    assert (forall j, 0 <= j < per -> j <> i -> entry_at d1 (mkLocation c j) = entry_at d (mkLocation c j)) as Hone.
    { intros j Hj Hne. apply Hoth; [lia| |done]. unfold DirProps.per, ENTRY_SIZE in Hj; Z.to_euclidean_division_equations; lia. }
    destruct (i =? b) eqn:Eb; bool_prop.
    + subst i. exists d1. split_and!; try done.
      * intros j x Hj Hji Hx. assert (j = b) as -> by lia. assert (x = e) as -> by congruence. exact Hat.
      * intros j Hj Hn. apply Hone; [done|lia].
    + destruct (atomic_step d0 d1 it c i Hit ltac:(lia)) as (it1 & -> & Hit1). cbn [mbind option_bind].
      destruct (IH d1 it1 (i + 1) Hw1 Hit1) as (d' & E2 & Hw' & Hk & H1 & H2); [lia|lia|]. exists d'. split_and!; try done.
      * eapply keeps_weaken; [exact (keeps_trans bpb n _ _ _ _ _ _ _ Hk1 Hk)|intros x [[]|[]]|intros x [H|H]; done].
      * intros j x Hj Hji Hx. destruct (decide (j = i)) as [->|Hne]; [|apply H1; (done || lia)].
        assert (x = e) as -> by congruence. rewrite H2 by lia. exact Hat.
      * intros j Hj Hn. rewrite H2 by lia. apply Hone; [done|]. intros ->. lia.
Qed.

(** ** Freeing the chain *)
Lemma free_chain_result l : forall fuel d, working d -> chain d l -> (length l < fuel)%nat ->
  forall c, match l with [] => c = 0 \/ FAT32.MAX_CLUSTER_COUNT < c | x :: _ => c = x end ->
  exists d', free_chain fuel d bpb c = Some d' /\ working d' /\ (forall x, x ∈ l -> entry d' bpb 0 x = 0)
    /\ keeps bpb n d d' (fun x => x ∈ l) (fun _ => False).
Proof using G.
  induction l as [|x l IH]; intros fuel d Hw Hch Hf c Hc; (destruct fuel as [|fuel]; [cbn in Hf; lia|]); cbn [free_chain].
  - assert (negb (c =? 0) && (c <? get_max_cluster_count) = false) as ->.
    { change get_max_cluster_count with FAT32.MAX_CLUSTER_COUNT. destruct Hc as [->|Hc]; [done|]. apply andb_false_iff. right. apply Z.ltb_ge. lia. }
    exists d. split_and!; [done|done| |by split]. intros y Hy. by apply not_elem_of_nil in Hy.
  - subst c. destruct (Hch 0%nat x eq_refl) as [Hv Hn]. pose proof (valid_max bpb n G x Hv) as Hmax.
    assert (negb (x =? 0) && (x <? get_max_cluster_count) = true) as ->.
    { change get_max_cluster_count with FAT32.MAX_CLUSTER_COUNT. apply andb_true_iff. split; [apply negb_true_iff, Z.eqb_neq; unfold valid in Hv; lia|apply Z.ltb_lt; lia]. }
    rewrite (fat_read_working bpb n G d x Hw Hv). cbn [mbind option_bind].
    destruct (fat_write_working bpb n G d x 0 ltac:(unfold valid in Hv; lia) Hw) as (d1 & -> & Hw1 & _ & Hz & Hk1). cbn [mbind option_bind].
    pose proof (clusters_nodup bpb n G d _ Hch) as [Hni Hnd]%NoDup_cons.
    assert (chain d1 l) as Hch1.
    { apply (clusters_frame bpb n d d1 l); [intros i y Hi; apply (Hch (S i) y Hi)|]. intros y Hy.
      assert (y ∈ x :: l) as Hyl by (by right). pose proof (chain_valid bpb n d _ y Hch Hyl) as Hvy.
      apply (keeps_entry bpb n d d1 _ _ y Hk1); [unfold valid in Hvy; lia|]. by intros ->. }
    destruct (IH fuel d1 Hw1 Hch1 ltac:(cbn in Hf; lia) (entry d bpb 0 x)) as (d2 & -> & Hw2 & Hz2 & Hk2).
    { cbn in Hn. destruct l; [by right|done]. }
    exists d2. split_and!; [done|done| |].
    + intros y Hy. apply elem_of_cons in Hy as [->|Hy]; [|by apply Hz2].
      rewrite (keeps_entry bpb n d1 d2 _ _ x Hk2) by (done || unfold valid in Hv; lia). exact Hz.
    + eapply keeps_weaken; [exact (keeps_trans bpb n _ _ _ _ _ _ _ Hk1 Hk2)| |intros y [[]|[]]].
      intros y [->|Hy]; [by left|by right].
Qed.

(** ** The directory with some of its items replaced *)
Lemma table_replaced d d' S T c us1 mid mid' us3 tail : table bpb n d c (us1 ++ mid ++ us3) tail -> keeps bpb n d d' S T -> ~ S c ->
  places_of mid' = places_of mid -> Forall (listed bpb d') mid' ->
  (forall x, x ∈ places c -> x ∉ places_of mid -> entry_at d' x = entry_at d x) ->
  table bpb n d' c (us1 ++ mid' ++ us3) tail /\ lafs bpb d' us1 = lafs bpb d us1 /\ lafs bpb d' us3 = lafs bpb d us3.
Proof using G Hper.
  intros [Hch Hpl Hok Ht] Hk Hc Emid Hmid Hsame. pose proof Hok as [Hok1 [_ Hok3]%Forall_app]%Forall_app.
  pose proof (places_nodup bpb c) as Hnd. rewrite Hpl, !places_of_app, <- !app_assoc in Hnd.
  assert (Hin : forall x, x ∈ places_of us1 \/ x ∈ places_of us3 \/ x ∈ tail -> x ∈ places c /\ entry_at d' x = entry_at d x).
  { intros x Hx. assert (x ∈ places c) as Hp by (rewrite Hpl, !places_of_app, !elem_of_app; tauto). split; [done|]. apply Hsame; [done|].
    apply NoDup_app in Hnd as (_ & H1 & Hnd). apply NoDup_app in Hnd as (_ & H2 & _). intros Hm. destruct Hx as [Hx|Hx].
    - apply (H1 x Hx). rewrite !elem_of_app. tauto.
    - apply (H2 x Hm). rewrite elem_of_app. tauto. }
  assert (Hext : forall l, Forall (listed bpb d) l -> (forall y, y ∈ places_of l -> y ∈ places c /\ entry_at d' y = entry_at d y) -> Forall (listed bpb d') l).
  { intros l Hl Hy. rewrite Forall_forall in Hl |- *. intros x Hx. apply (listed_ext bpb n G Hper d d' c); [|by apply Hl].
    intros y Hyx. apply Hy. by apply (elem_places_of x). }
  split_and!; [constructor| |].
  - apply (clusters_frame bpb n d d' [c] Hch). intros x Hx. apply list_elem_of_singleton in Hx as ->.
    destruct (Hch 0%nat c eq_refl) as [Hv _]. apply (keeps_entry bpb n d d' _ _ c Hk); [unfold valid in Hv; lia|done].
  - rewrite Hpl, !places_of_app. by rewrite Emid.
  - rewrite !Forall_app. split_and!; [apply (Hext us1 Hok1)|done|apply (Hext us3 Hok3)]; intros y Hy; apply Hin; tauto.
  - rewrite Forall_forall in Ht |- *. intros x Hx. destruct (Ht x Hx) as (e & He & Hend). exists e. split; [|done]. rewrite <- He. apply Hin. tauto.
  - apply lafs_ext. intros y Hy. apply Hin. tauto.
  - apply lafs_ext. intros y Hy. apply Hin. tauto.
Qed.

(** The places of a file with a long name: consecutive indices. *)
Lemma named_places d c us1 lfns loc name us3 tail : table bpb n d c (us1 ++ [Named lfns loc name] ++ us3) tail ->
  let a := Z.of_nat (length (places_of us1)) in
  let b := a + zlen lfns in
  0 <= a <= b /\ b < per /\ loc = mkLocation c b /\ head (lfns ++ [loc]) = Some (mkLocation c a)
  /\ (forall j, mkLocation c j ∈ lfns ++ [loc] <-> a <= j <= b) /\ (forall x, x ∈ lfns ++ [loc] -> lcluster x = c).
Proof using.
  intros [_ Hpl _ _] a b. unfold places_of in Hpl. rewrite !fmap_app, !join_app in Hpl. fold (places_of us1) in Hpl. fold (places_of us3) in Hpl.
  cbn [fmap list_fmap item_places mjoin list_join] in Hpl. rewrite app_nil_r in Hpl.
  assert (Hat : forall k x, (lfns ++ [loc]) !! k = Some x -> x = mkLocation c (a + Z.of_nat k) /\ a + Z.of_nat k < per).
  { intros k x Hk. assert (places c !! (length (places_of us1) + k)%nat = Some x) as H.
    { rewrite Hpl, <- !app_assoc. rewrite lookup_app_r by lia. replace (length (places_of us1) + k - length (places_of us1))%nat with k by lia.
      rewrite app_assoc. by apply lookup_app_l_Some. }
    apply places_lookup in H as [-> H]. unfold a. split; [f_equal; lia|lia]. }
  assert ((lfns ++ [loc]) !! length lfns = Some loc) as Hlast by by apply list_lookup_middle.
  pose proof (Hat _ _ Hlast) as [El Hb]. change (Z.of_nat (length lfns)) with (zlen lfns) in El, Hb. pose proof (zlen_nonneg lfns) as Hz.
  split_and!; try done; try (unfold a, b in *; lia).
  - destruct lfns as [|l0 lfns]; cbn [app head]; [change (zlen (@nil FileEntryLocation)) with 0 in El; by rewrite El, Z.add_0_r|].
    destruct (Hat 0%nat l0 eq_refl) as [-> _]. by rewrite Z.add_0_r.
  - intros j. split.
    + intros (k & Hk)%list_elem_of_lookup. pose proof (lookup_lt_Some _ _ _ Hk) as Hl. rewrite length_app in Hl. cbn [length] in Hl.
      destruct (Hat k _ Hk) as [[= ->] _]. unfold b, zlen. lia.
    + intros Hj. destruct (lookup_lt_is_Some_2 (lfns ++ [loc]) (Z.to_nat (j - a))) as [x Hx]; [rewrite length_app; cbn [length]; unfold b, zlen in Hj; lia|].
      destruct (Hat _ _ Hx) as [-> _]. apply list_elem_of_lookup_2 in Hx. by replace (a + Z.of_nat (Z.to_nat (j - a))) with j in Hx by lia.
  - intros x (k & Hk)%list_elem_of_lookup. by destruct (Hat k x Hk) as [-> _].
Qed.

(** Deleting a file with a long name: its entries are unused afterwards and its clusters free. *)
Lemma delete_file_result fuel d c us1 l0 lfns loc name us3 tail l : working d ->
  table bpb n d c (us1 ++ [Named (l0 :: lfns) loc name] ++ us3) tail -> entry_idx loc <> per - 1 ->
  chain d l -> c ∉ l -> cluster (file (laf_of bpb d (l0 :: lfns) loc name)) = default 0 (head l) ->
  per < Z.of_nat fuel -> (length l < fuel)%nat ->
  exists d', delete_file fuel d bpb (laf_of bpb d (l0 :: lfns) loc name) = Some (DELETED, d') /\ working d'
    /\ keeps bpb n d d' (fun x => x ∈ l) (fun x => x = c) /\ (forall x, x ∈ l -> entry d' bpb 0 x = 0)
    /\ table bpb n d' c (us1 ++ (Free <$> ((l0 :: lfns) ++ [loc])) ++ us3) tail
    /\ lafs bpb d' us1 = lafs bpb d us1 /\ lafs bpb d' us3 = lafs bpb d us3.
Proof using G Hper.
  intros Hw Ht Hlast Hch Hcl Hhd Hf1 Hf2. set (f := laf_of bpb d (l0 :: lfns) loc name) in *.
  destruct (named_places d c us1 (l0 :: lfns) loc name us3 tail Ht) as (Ha & Hb & Eloc & Hhead & Hmem & Hlc).
  set (a := Z.of_nat (length (places_of us1))) in *. set (b := a + zlen (l0 :: lfns)) in *. injection Hhead as El0.
  assert (first_lfn_entry f = mkLocation c a) as Efirst by (unfold f; cbn; by rewrite El0).
  destruct (tb_chain _ _ _ _ _ _ Ht 0%nat c eq_refl) as [Hv _].
  destruct (begin_atomic d c Hw (tb_chain _ _ _ _ _ _ Ht)) as (it & Eb & Hit).
  destruct (delete_entries_result d c a b f Hv) with (fuel := fuel) (d := d) (it := it) (i := 0) as (d1 & E1 & Hw1 & Hk1 & Hdel & Hrest);
    [exact Efirst|exact Eloc|done|done|done|done|lia|lia|].
  assert (chain d1 l) as Hch1.
  { apply (clusters_frame bpb n d d1 l Hch). intros y Hy. pose proof (chain_valid bpb n d _ y Hch Hy) as Hvy.
    apply (keeps_entry bpb n d d1 _ _ y Hk1); [unfold valid in Hvy; lia|tauto]. }
  destruct (free_chain_result l fuel d1 Hw1 Hch1 Hf2 (cluster (file f))) as (d2 & E2 & Hw2 & Hz & Hk2); [rewrite Hhd; destruct l; [by left|done]|].
  pose proof (keeps_trans bpb n _ _ _ _ _ _ _ Hk1 Hk2) as Hk.
  assert (keeps bpb n d d2 (fun x => x ∈ l) (fun x => x = c)) as Hk' by (eapply keeps_weaken; [exact Hk|intros x [[]|Hx]; done|intros x [Hx|[]]; done]).
  assert (Hsame : forall x, x ∈ places c -> x ∉ places_of [Named (l0 :: lfns) loc name] -> entry_at d2 x = entry_at d x).
  { intros x Hx Hn. destruct (elem_places bpb c x Hx) as (j & -> & Hj).
    rewrite (entry_at_keeps bpb n d1 d2 _ _ (mkLocation c j) Hk2) by (done || tauto). apply Hrest; [lia|]. intros [Hj2 _]. apply Hn.
    unfold places_of. cbn [fmap list_fmap item_places mjoin list_join]. rewrite app_nil_r. by apply Hmem. }
  exists d2. split; [|split; [done|split; [done|split; [done|]]]].
  - unfold delete_file. rewrite Efirst. cbn [lcluster]. rewrite Eb. cbn [mbind option_bind].
    rewrite E1. cbn [mbind option_bind negb]. rewrite E2. done.
  - apply (table_replaced d d2 _ _ c us1 _ _ us3 tail Ht Hk' Hcl).
    + rewrite places_of_free. unfold places_of. cbn [fmap list_fmap item_places mjoin list_join]. by rewrite app_nil_r.
    + apply Forall_fmap, Forall_forall. intros x Hx. pose proof (Hlc x Hx) as Ec. destruct x as [c' j]. cbn in Ec. subst c'. pose proof Hx as Hj%Hmem.
      destruct (at_place bpb n G d c j ltac:(lia)) as (s0 & e & _ & _ & _ & He & Heo & _). split.
      * exists (deleted_entry e). split; [|by apply deleted_ok]. rewrite (entry_at_keeps bpb n d1 d2 _ _ (mkLocation c j) Hk2) by (done || tauto).
        apply Hdel; [done|lia|done].
      * cbn [entry_idx]. rewrite Eloc in Hlast. cbn in Hlast. lia.
    + exact Hsame.
Qed.
End delete.
End DeleteProps.
