(* ===== verification/FatDirTheorems.v ===== *)
(** * The theorems on FAT directories

    A directory refines the list of its files: what listing, looking a name up, following a path and
    creating a file do, with the same statements on a small disk. *)

From S2P Require Import Prelude Kre KString KStringProps VfsPath VfsPathProps FatVolume FatVolumeProps FatFile FatFileProps FatTheorems FatDirectory FatDriver FatDirectoryProps FatCreateProps FatDeleteProps.

Module TreeProps.
Import KString StrProps Path PathProps Fat VolumeProps Entry Manager FileProps Lfn Directory Search Driver LfnProps DirProps CreateProps.

(** ** Paths *)

Lemma resolve_appends parts : Forall ordinary parts -> forall out,
  resolve_loop (of_chars <$> parts) out = append_all (of_chars <$> parts) out.
Proof.
  destruct no_zero_lits as (L1 & L2 & L3).
  induction 1 as [|w parts (_ & H1 & H2) _ IH]; intros out; [done|]. cbn [fmap list_fmap resolve_loop append_all].
  rewrite !literal by done. rewrite !bool_decide_false by done. cbn [mbind option_bind].
  destruct (append_path out (of_chars w)); cbn [mbind option_bind]; [apply IH|done].
Qed.

(** An absolute path resolved against nothing: the same parts. *)
Lemma resolve_alone ws : Forall ordinary ws -> zlen (tail_of ws) + 2 < 2 ^ 31 ->
  resolve (P (render ws)) (P []) = Some (P (relative ws)) /\ split_path (P (relative ws)) = Some (of_chars <$> ws).
Proof.
  intros Hws Hf. pose proof (ordinary_ok ws Hws) as Hok. unfold resolve. rewrite !split_P, pieces_render, pieces_relative by done.
  cbn [mbind option_bind]. split; [|done]. rewrite resolve_appends by done.
  apply (append_all_relative ws []); [constructor|done|exact Hf].
Qed.

Lemma file_name_render ws w : Forall part_ok ws -> part_ok w -> fits (render (ws ++ [w])) -> get_file_name (P (render (ws ++ [w]))) = Some (of_chars w).
Proof.
  intros Hws Hw Hf. unfold get_file_name. cbn [_path P].
  assert (render (ws ++ [w]) = tail_of ws ++ SEP :: w) as E by (rewrite <- tail_snoc; by destruct ws). rewrite E in Hf |- *.
  rewrite last_index_some; [|done|intros Hin; pose proof (part_no_sep w Hw) as Hn; rewrite Forall_forall in Hn; by apply (Hn _ Hin)].
  cbn [mbind option_bind]. pose proof (zlen_nonneg (tail_of ws)) as Hz. unfold fits in Hf. rewrite zlen_app, zlen_cons in Hf. pose proof (zlen_nonneg w).
  rewrite (wrap_small 64) by (unfold in_width; word_lia). replace (zlen (tail_of ws) + 1) with (zlen (tail_of ws ++ [SEP])) by (rewrite zlen_app; done).
  replace (tail_of ws ++ SEP :: w) with ((tail_of ws ++ [SEP]) ++ w) by (by rewrite <- app_assoc). apply substring_chars.
  unfold fits. rewrite !zlen_app. change (zlen [SEP]) with 1. lia.
Qed.

(** ** Following a path *)
Section tree.
Context {D : Type} `{MD : MassStorage D} `{!Disk D}.
Context (bpb : BootRecord32) (n : Z) (G : geometry bpb n).
Context (Hper : 1 <= per bpb <= 65536).
Implicit Types (d : D) (us : list item).

Lemma entry_of_keeps d d' c0 c l us tail x y : keeps bpb n d d' (fun _ => False) (fun x => x = c0) -> c0 ∉ c :: l ->
  directory bpb n d (c :: l) us tail -> x ∈ us -> y ∈ item_places x ->
  entry_at bpb d' y = entry_at bpb d y /\ lfn_at bpb d' y = lfn_at bpb d y.
Proof using.
  intros Hk Hn [Hch Hpl _ _] Hx Hy. assert (y ∈ locs bpb (c :: l)) as Hin.
  { rewrite Hpl. apply elem_of_app. left. by apply (elem_places_of x). }
  unfold locs in Hin. apply list_elem_of_join in Hin as (ps & Hy2 & Hps). apply list_elem_of_fmap in Hps as (c2 & -> & Hc2).
  destruct (elem_places bpb c2 y Hy2) as (i & -> & Hi). pose proof (chain_valid bpb n d _ c2 Hch Hc2) as Hv.
  assert (c2 <> c0) as Hne by (by intros ->). split; [by apply (entry_at_keeps bpb n d d' _ _ _ Hk)|].
  unfold lfn_at. cbn [lcluster]. destruct Hk as [_ Hk]. rewrite Hk; [done|unfold valid in Hv; lia|done].
Qed.

(** A directory whose clusters were not written is as it was. *)
Lemma directory_keeps d d' c0 c l us tail : keeps bpb n d d' (fun _ => False) (fun x => x = c0) -> c0 ∉ c :: l ->
  directory bpb n d (c :: l) us tail -> directory bpb n d' (c :: l) us tail /\ lafs bpb d' us = lafs bpb d us.
Proof using G Hper.
  intros Hk Hn Hd. pose proof (entry_of_keeps d d' c0 c l us tail) as He. pose proof Hd as [Hch Hpl Hok Hends].
  assert (forall t, t ∈ tail -> entry_at bpb d' t = entry_at bpb d t) as Ht.
  { intros t Hin. assert (t ∈ locs bpb (c :: l)) as Hin2 by (rewrite Hpl; apply elem_of_app; by right).
    unfold locs in Hin2. apply list_elem_of_join in Hin2 as (ps & Hy2 & Hps). apply list_elem_of_fmap in Hps as (c2 & -> & Hc2).
    destruct (elem_places bpb c2 t Hy2) as (i & -> & Hi). pose proof (chain_valid bpb n d _ c2 Hch Hc2) as Hv.
    apply (entry_at_keeps bpb n d d' _ _ _ Hk); [done|]. cbn [lcluster]. by intros ->. }
  split; [constructor|].
  - apply (clusters_frame bpb n d d' _ Hch). intros x Hx. pose proof (chain_valid bpb n d _ x Hch Hx) as Hv.
    apply (keeps_entry bpb n d d' _ _ x Hk); [unfold valid in Hv; lia|tauto].
  - done.
  - apply Forall_forall. intros x Hx. rewrite Forall_forall in Hok. specialize (Hok x Hx). specialize (He x).
    destruct x as [loc|lfns loc name]; cbn [item_places] in He.
    + destruct Hok as [(e & H1 & H2) Hi]. split; [|done]. exists e. split; [|done]. by rewrite (proj1 (He loc Hk Hn Hd Hx ltac:(set_solver))).
    + destruct Hok as [(e & H1 & H2) Hnm]. split.
      * exists e. split; [|done]. by rewrite (proj1 (He loc Hk Hn Hd Hx ltac:(set_solver))).
      * destruct lfns as [|l0 lfns].
        -- destruct Hnm as (e' & H3 & H4). exists e'. split; [|done]. by rewrite (proj1 (He loc Hk Hn Hd Hx ltac:(set_solver))).
        -- destruct Hnm as [(e' & H3 & H4) Hrun]. split.
           ++ exists e'. split; [|done]. by rewrite (proj1 (He l0 Hk Hn Hd Hx ltac:(set_solver))).
           ++ apply (run_ext (lfn_at bpb d)); [|done]. intros y Hy. by apply (He y Hk Hn Hd Hx ltac:(set_solver)).
  - destruct tail as [|t tl]; [done|]. destruct Hends as [(e & H1 & H2) H3]. split; [|done]. exists e. split; [|done]. rewrite Ht; [done|by left].
  - apply lafs_ext. intros y Hy. unfold places_of in Hy. apply list_elem_of_join in Hy as (ps & Hy & Hps). apply list_elem_of_fmap in Hps as (x & -> & Hx).
    by apply (He x y).
Qed.

(** ** Directory trees *)

Definition is_directory (e : LocationAwareFileEntry) : bool := Z.land (attributes (file e)) (attr_value DIRECTORY) =? attr_value DIRECTORY.

(** [dirs] gives the files of the directories below one with first cluster [c].  A [directory] may span clusters,
    but has no deleted entry in the last place of one, and an end mark in the first place of one only if it is empty:
    elsewhere the iterator goes wrong. *)
Definition tree (fuel : nat) d (dirs : Z -> option (list item)) : Prop :=
  forall c us, dirs c = Some us -> (length us < fuel)%nat /\ (exists l tail, directory bpb n d (c :: l) us tail)
    /\ forall e, e ∈ lafs bpb d us -> is_directory e = true -> is_Some (dirs (cluster (file e))).

(** What a path names: the specification of [navigate_to]. *)
Fixpoint named_by d (dirs : Z -> option (list item)) (c : Z) (path : list (list Z)) : NavigationStatus * option LocationAwareFileEntry :=
  match path with
  | [] => (NAV_NOT_FOUND, None)
  | name :: path =>
      match List.find (fun e => bool_decide (file_name e = of_chars name)) (lafs bpb d (default [] (dirs c))) with
      | None => (NAV_NOT_FOUND, None)
      | Some e =>
          match path with
          | [] => (NAV_FOUND, Some e)
          | _ => if is_directory e then named_by d dirs (cluster (file e)) path else (NAV_BAD_PATH, None)
          end
      end
  end.

Lemma named_found d dirs path : forall c, (named_by d dirs c path).1 = NAV_FOUND -> is_Some (named_by d dirs c path).2.
Proof using.
  induction path as [|name path IH]; intros c; [done|]. cbn [named_by]. destruct (List.find _ _) as [e|]; [|done].
  destruct path; [by eexists|]. destruct (is_directory e); [apply IH|done].
Qed.

Lemma named_status d dirs path : forall c, (named_by d dirs c path).1 = NAV_FOUND \/ (named_by d dirs c path).1 = NAV_NOT_FOUND \/ (named_by d dirs c path).1 = NAV_BAD_PATH.
Proof using.
  induction path as [|name path IH]; intros c; [by right; left|]. cbn [named_by]. destruct (List.find _ _) as [e|]; [|by right; left].
  destruct path; [by left|]. destruct (is_directory e); [apply IH|by right; right].
Qed.

Lemma navigate_tree fuel d dirs : working d -> tree fuel d dirs -> forall path c, path <> [] -> is_Some (dirs c) ->
  exists nothing, navigate_to fuel d bpb c (of_chars <$> path) = Some ((named_by d dirs c path).1, default nothing (named_by d dirs c path).2).
Proof using G Hper.
  intros Hw Ht path. induction path as [|name path IH]; intros c Hne [us Hc]; [done|].
  destruct (Ht c us Hc) as (Hlen & (l & tail & Hd) & Hsub). cbn [named_by]. rewrite Hc. change (default [] (Some us)) with us. rewrite <- lookup_name_lafs.
  destruct path as [|name2 path].
  - destruct (navigate_last bpb n G Hper d c l us tail name fuel Hw Hd Hlen) as [nothing E]. exists nothing. cbn [fmap list_fmap]. rewrite E.
    by destruct (lookup_name bpb d us name).
  - destruct (lookup_name bpb d us name) as [e|] eqn:El.
    + cbn [fmap list_fmap]. rewrite (navigate_step bpb n G Hper d c l us tail name _ _ fuel e Hw Hd Hlen El). fold (is_directory e).
      destruct (is_directory e) eqn:Edir.
      * assert (e ∈ lafs bpb d us) as Hin. { rewrite lookup_name_lafs in El. apply List.find_some in El as [El _]. by apply list_elem_of_In. }
        apply (IH (cluster (file e))); [done|by apply Hsub].
      * unfold default_laf. rewrite empty_string_chars. cbn [mbind option_bind]. by eexists.
    + destruct (navigate_missing bpb n G Hper d c l us tail name (of_chars <$> (name2 :: path)) fuel Hw Hd Hlen El) as [nothing E].
      exists nothing. exact E.
Qed.

(** ** The driver on a path *)

Lemma one_part w : ordinary w -> is_dot_path [of_chars w] = Some false.
Proof using.
  intros (_ & H1 & H2). destruct no_zero_lits as (L1 & L2 & L3). unfold is_dot_path. rewrite !literal by done.
  rewrite !bool_decide_false by done. done.
Qed.

Lemma dot_path_ordinary ws : Forall ordinary ws -> is_dot_path (of_chars <$> ws) = Some false.
Proof using. intros H. destruct H as [|w ws Hw H]; [done|]. destruct H as [|w2 ws]; [by apply one_part|done]. Qed.

Lemma split_render ws : Forall ordinary ws -> split_path (P (render ws)) = Some (of_chars <$> ws).
Proof using. intros H%ordinary_ok. by rewrite split_P, pieces_render. Qed.

(** What the driver makes of the answers of [navigate_to]. *)
Definition volume_status (st : NavigationStatus) : VolumeAccessStatus :=
  match st with NAV_FOUND => V_OKAY | NAV_NOT_FOUND => V_NOT_FOUND | _ => V_DEV_ERROR end.

Lemma search_tree fuel d dirs ws : working d -> tree fuel d dirs -> is_Some (dirs (get_root_directory_cluster bpb)) ->
  in_width 32 (get_root_directory_cluster bpb) -> Forall ordinary ws -> ws <> [] ->
  exists nothing, search fuel d bpb (P (render ws)) =
    Some (volume_status (named_by d dirs (get_root_directory_cluster bpb) ws).1, default nothing (named_by d dirs (get_root_directory_cluster bpb) ws).2).
Proof using G Hper.
  intros Hw Ht Hroot Hr Hws Hne. destruct (navigate_tree fuel d dirs Hw Ht ws _ Hne Hroot) as [nothing E]. exists nothing.
  unfold search. rewrite split_render by done. cbn [mbind option_bind]. rewrite dot_path_ordinary by done. cbn [mbind option_bind].
  rewrite root_cluster_id by done. destruct ws as [|w ws]; [done|]. cbn [fmap list_fmap] in *. by rewrite E.
Qed.

(** What the driver answers to a query. *)
Definition answer (r : NavigationStatus * option LocationAwareFileEntry) : IOStatus * option NodeInfo :=
  match r with
  | (NAV_FOUND, Some e) => (FOUND, Some (entry_info e))
  | _ => (NOT_FOUND, None)
  end.

(** All that a directory stream hands out, and how it ends. *)
Fixpoint drain (fuel : nat) d (it : FATDirectoryIterator) : option (list NodeInfo * DirectoryStreamStatus) :=
  match fuel with
  | O => None
  | S fuel =>
      '(r, it) ← stream_next d bpb it;
      match r with inl info => '(l, st) ← drain fuel d it; Some (info :: l, st) | inr st => Some ([], st) end
  end.

Lemma drain_listing d : forall fuel it l st, listing bpb fuel d it = Some (l, st) ->
  drain fuel d it = Some (entry_info <$> l, match st with END_OF_DIRECTORY => DS_END_OF_DIRECTORY | _ => DS_IO_ERROR end).
Proof using.
  induction fuel as [|fuel IH]; intros it l st; [done|]. cbn [listing drain]. unfold has_next, stream_next.
  destruct (decide (_state it = ITERATING)) as [E|E].
  - rewrite bool_decide_true, E by done. destruct (increment d bpb it) as [it'|]; [|done]. cbn [mbind option_bind].
    destruct (listing bpb fuel d it') as [[l2 st2]|] eqn:El; [|done]. cbn [mbind option_bind]. intros [= <- <-]. by rewrite (IH it' l2 st2 El).
  - rewrite bool_decide_false by done. intros [= <- <-]. by destruct (_state it).
Qed.

(** The directory with first cluster [c] is reached from [c0] by the parts of a path, through directories
    that do not have [c] among their clusters. *)
Inductive descends (fuel : nat) d (c : Z) : Z -> list (list Z) -> Prop :=
| de_here : descends fuel d c c []
| de_down c0 l us tail w ws e : directory bpb n d (c0 :: l) us tail -> c ∉ c0 :: l -> (length us < fuel)%nat ->
    lookup_name bpb d us w = Some e -> is_directory e = true -> descends fuel d c (cluster (file e)) ws -> descends fuel d c c0 (w :: ws).

Lemma descends_keeps fuel d d' c : keeps bpb n d d' (fun _ => False) (fun x => x = c) -> forall c0 ws, descends fuel d c c0 ws -> descends fuel d' c c0 ws.
Proof using G Hper.
  intros Hk c0 ws H. induction H as [|c0 l us tail w ws e Hd Hn Hf Hl Hdir _ IH]; [constructor|].
  destruct (directory_keeps d d' c c0 l us tail Hk Hn Hd) as [Hd' El]. apply (de_down fuel d' c c0 l us tail w ws e); try done.
  by rewrite lookup_name_lafs, El, <- lookup_name_lafs.
Qed.

(** Following the parts to the directory and on. *)
Lemma descends_navigate fuel d c rest : working d -> rest <> [] -> forall c0 ws, descends fuel d c c0 ws ->
  navigate_to fuel d bpb c0 (of_chars <$> (ws ++ rest)) = navigate_to fuel d bpb c (of_chars <$> rest).
Proof using G Hper.
  intros Hw Hne c0 ws H. induction H as [|c0 l us tail w ws e Hd Hn Hf Hl Hdir _ IH]; [done|]. cbn [app fmap list_fmap].
  destruct (of_chars <$> (ws ++ rest)) as [|p ps] eqn:E; [by destruct ws, rest|].
  rewrite (navigate_step bpb n G Hper d c0 l us tail w p ps fuel e Hw Hd Hf Hl). unfold is_directory in Hdir. rewrite Hdir. exact IH.
Qed.

Lemma descends_found fuel d c : working d -> forall c0 ws, descends fuel d c c0 ws -> ws <> [] ->
  exists e, navigate_to fuel d bpb c0 (of_chars <$> ws) = Some (NAV_FOUND, e) /\ cluster (file e) = c.
Proof using G Hper.
  intros Hw c0 ws H. induction H as [|c0 l us tail w ws e Hd Hn Hf Hl Hdir Hde IH]; intros Hne; [done|]. destruct ws as [|w2 ws].
  - destruct (navigate_last bpb n G Hper d c0 l us tail w fuel Hw Hd Hf) as [nothing E]. rewrite Hl in E. exists e. split; [exact E|].
    by inversion Hde.
  - destruct (IH ltac:(done)) as (e2 & E & Hc). exists e2. split; [|done]. cbn [fmap list_fmap] in E |- *.
    rewrite (navigate_step bpb n G Hper d c0 l us tail w _ _ fuel e Hw Hd Hf Hl). unfold is_directory in Hdir. by rewrite Hdir.
Qed.

Lemma parent_is_render fuel d c ws name : working d -> descends fuel d c (get_root_directory_cluster bpb) ws ->
  Forall ordinary (ws ++ [name]) -> zlen (tail_of ws) + zlen name + 3 < 2 ^ 31 -> parent_is bpb fuel d (P (render (ws ++ [name]))) c name.
Proof using G Hper.
  intros Hw Hde Hok Hf. pose proof (zlen_nonneg name). pose proof (zlen_nonneg (tail_of ws)).
  assert (fits (render (ws ++ [name]))) as Hfit.
  { unfold fits. pose proof (render_len (ws ++ [name])). rewrite tail_app, tail_cons in *. change (zlen (tail_of [])) with 0 in *. lia. }
  pose proof Hok as [Hws Hn]%Forall_app. rewrite Forall_singleton in Hn.
  destruct (resolve_alone ws Hws) as [Hr Hs]; [lia|]. split; [apply file_name_render; [by apply ordinary_ok|by destruct Hn|done]|].
  exists (P (render ws)), (P (relative ws)), (of_chars <$> ws). split_and!; try done.
  - rewrite get_parent_render, removelast_last by (done || by apply ordinary_ok). done.
  - destruct ws as [|w ws]; [by inversion Hde|]. apply (descends_found fuel d c Hw _ _ Hde). done.
Qed.

Lemma search_descends fuel d c ws name : working d -> descends fuel d c (get_root_directory_cluster bpb) ws ->
  in_width 32 (get_root_directory_cluster bpb) -> Forall ordinary (ws ++ [name]) ->
  search fuel d bpb (P (render (ws ++ [name]))) = '(st, e) ← navigate_to fuel d bpb c [of_chars name]; Some (volume_status st, e).
Proof using G Hper.
  intros Hw Hde Hr Hok. unfold search. rewrite split_render by done. cbn [mbind option_bind]. rewrite dot_path_ordinary by done. cbn [mbind option_bind].
  rewrite root_cluster_id by done. pose proof (descends_navigate fuel d c [name] Hw ltac:(done) _ _ Hde) as E. cbn [fmap list_fmap] in E.
  destruct (of_chars <$> (ws ++ [name])) as [|p ps] eqn:Ep; [by destruct ws|]. rewrite E. done.
Qed.
End tree.
End TreeProps.

Module DirTheorems.
Import KString StrProps Path PathProps Fat VolumeProps Entry Manager FileProps Lfn Directory Search Driver LfnProps DirProps CreateProps DeleteProps TreeProps.

Lemma is_directory_bit e : is_directory e = has_attribute (file e) DIRECTORY.
Proof.
  unfold is_directory, has_attribute. rewrite Bits.bit_check_spec by lia. change (attr_value DIRECTORY) with (2 ^ 4). apply eq_true_iff_eq.
  rewrite Z.eqb_eq. split.
  - intros H. apply (f_equal (fun x => Z.testbit x 4)) in H. rewrite Z.land_spec, Z.pow2_bits_true in H by lia. by rewrite andb_true_r in H.
  - intros H. apply Z.bits_inj'. intros k Hk. rewrite Z.land_spec, Z.pow2_bits_eqb by lia. destruct (4 =? k) eqn:E; bool_prop; [subst k; by rewrite H|by rewrite andb_false_r].
Qed.

Section theorems.
Context {D : Type} `{MD : MassStorage D} `{!Disk D}.
Implicit Types (d : D) (bpb : BootRecord32) (us : list item).

(** C24: The driver answers a query for a path by what the path names in the directory tree, for paths that do not
    go on behind a regular file.  On a working disk whose directories hold the files [dirs] says (directories as
    in [tree], without the layouts on which the iterator goes wrong), [find_node] on a mounted device gives the entry
    the path names, with its long name, size and attributes, and NOT_FOUND if some part of it is the name of no file
    of its directory; then [delete_node] gives NOT_FOUND, too, and leaves the disk as it is; a device that is not
    mounted is unknown. *)
Theorem path_queries bpb n fuel depth (t : Driver.table) handle other d dirs ws : geometry bpb n -> 1 <= per bpb <= 65536 -> working d ->
  tree bpb n fuel d dirs -> is_Some (dirs (get_root_directory_cluster bpb)) -> in_width 32 (get_root_directory_cluster bpb) ->
  Forall ordinary ws -> ws <> [] -> find_storage_dev_ref t handle = Some bpb -> find_storage_dev_ref t other = None ->
  (named_by bpb d dirs (get_root_directory_cluster bpb) ws).1 <> NAV_BAD_PATH ->
  find_node fuel t d handle (P (render ws)) = Some (answer (named_by bpb d dirs (get_root_directory_cluster bpb) ws))
  /\ ((answer (named_by bpb d dirs (get_root_directory_cluster bpb) ws)).1 = NOT_FOUND ->
       delete_node depth fuel t d handle (P (render ws)) = Some (NOT_FOUND, d))
  /\ find_node fuel t d other (P (render ws)) = Some (DEV_UNKNOWN, None)
  /\ delete_node depth fuel t d other (P (render ws)) = Some (DEV_UNKNOWN, d).
Proof.
  intros G Hper Hw Ht Hroot Hr Hws Hne Hm Ho Hbad. unfold find_node, delete_node. rewrite Hm, Ho.
  destruct (search_tree bpb n G Hper fuel d dirs ws Hw Ht Hroot Hr Hws Hne) as [nothing E]. rewrite E, split_render by done.
  cbn [mbind option_bind]. destruct ws as [|w ws]; [done|]. cbn [fmap list_fmap].
  pose proof (named_found bpb d dirs (w :: ws) (get_root_directory_cluster bpb)) as Hf.
  pose proof (named_status bpb d dirs (w :: ws) (get_root_directory_cluster bpb)) as Hn.
  destruct (named_by _ _ _ _ _) as [[] [e|]]; cbn [fst snd volume_status access_status answer default] in *; try done; try (by destruct Hf); by destruct Hn as [|[|]].
Qed.

(** Behind a regular file the answer is the one for a device error. *)
Lemma behind_file_dev_error bpb n fuel (t : Driver.table) handle d dirs ws : geometry bpb n -> 1 <= per bpb <= 65536 -> working d ->
  tree bpb n fuel d dirs -> is_Some (dirs (get_root_directory_cluster bpb)) -> in_width 32 (get_root_directory_cluster bpb) ->
  Forall ordinary ws -> ws <> [] -> find_storage_dev_ref t handle = Some bpb ->
  (named_by bpb d dirs (get_root_directory_cluster bpb) ws).1 = NAV_BAD_PATH ->
  find_node fuel t d handle (P (render ws)) = Some (IO_DEV_ERROR, None).
Proof.
  intros G Hper Hw Ht Hroot Hr Hws Hne Hm Hbad. unfold find_node. rewrite Hm.
  destruct (search_tree bpb n G Hper fuel d dirs ws Hw Ht Hroot Hr Hws Hne) as [nothing E]. by rewrite E, Hbad.
Qed.

(** C7: Creating a file is seen by every later look at the directory.  For an absolute path whose parent is a
    directory of one cluster with room for the entries, and a name of less than 195 characters, their number not
    a multiple of 13, that no file there has, [create_file] succeeds on a
    working disk; where the path named nothing before it now names a file with exactly this (long) name,
    the attributes asked for and no cluster; listing the directory gives the old files in their order with
    the new one added; the FATs and every other cluster stay as they were. *)
Theorem create_then_found bpb n fuel d c us tail ws name attr : geometry bpb n -> 1 <= per bpb <= 65536 -> working d ->
  descends bpb n fuel d c (get_root_directory_cluster bpb) ws -> in_width 32 (get_root_directory_cluster bpb) ->
  table bpb n d c us tail -> (length us + length tail < fuel)%nat -> lookup_name bpb d us name = None ->
  good_name name -> Forall ordinary (ws ++ [name]) -> zlen (tail_of ws) + zlen name + 3 < 2 ^ 31 ->
  Z.of_nat (lfn_count name) + 1 <= zlen tail -> in_width 8 attr -> Z.testbit attr 3 = false -> Z.testbit attr 4 = false ->
  exists d' e l1 l2 it, create_file fuel d bpb (P (render (ws ++ [name]))) attr = Some (CREATED, d') /\ working d'
    /\ (exists r, search fuel d bpb (P (render (ws ++ [name]))) = Some (V_NOT_FOUND, r))
    /\ search fuel d' bpb (P (render (ws ++ [name]))) = Some (V_OKAY, e)
    /\ file_name e = of_chars name /\ attributes (file e) = attr /\ cluster (file e) = 0
    /\ lafs bpb d us = l1 ++ l2 /\ begin d' bpb c LIST_DIRECTORY = Some it /\ listing bpb fuel d' it = Some (l1 ++ e :: l2, END_OF_DIRECTORY)
    /\ keeps bpb n d d' (fun _ => False) (fun x => x = c).
Proof.
  intros G Hper Hw Hde Hroot Ht Hf Hnone Hg Hok Hsz Htl Ha H3 H4.
  assert (length (items us tail) < fuel)%nat as Hf2 by (unfold items; rewrite length_app, length_fmap; lia).
  destruct (create_file_result bpb n G Hper fuel d c us tail _ name attr Hw Ht (parent_is_render bpb n G Hper fuel d c ws name Hw Hde Hok Hsz) Hroot Hg Htl Hf2 Ha H3 H4)
    as (d' & us1 & us3 & lfl & loc & tail' & E & Hw' & Hcr).
  destruct (created_lafs _ _ _ _ _ _ _ _ _ _ _ _ _ Hcr) as [E1 E2]. pose proof (created_lookup _ _ _ _ _ _ _ _ _ _ _ _ _ name Hcr Hnone) as El.
  rewrite decide_True in El by done. set (e := laf_of bpb d' lfl loc name) in *. pose proof Hcr as [Hk Ht' [fs Eus] _ _ (f & Hfe & Hfa & Hfc & _)].
  assert (length (us1 ++ Named lfl loc name :: us3) < fuel)%nat as Hf3.
  { rewrite length_app. cbn [length]. rewrite Eus, !length_app, length_fmap in Hf. unfold zlen in Htl. lia. }
  pose proof (table_directory bpb n Hper _ _ _ _ Ht) as Hd. pose proof (table_directory bpb n Hper _ _ _ _ Ht') as Hd'.
  destruct (begin_found bpb n G Hper d' c [] _ _ Hw' Hd') as (it & Hit & Hfound).
  exists d', e, (lafs bpb d us1), (lafs bpb d us3), it. split_and!; try done.
  - rewrite (search_descends bpb n G Hper fuel d c ws name Hw Hde Hroot Hok).
    destruct (navigate_last bpb n G Hper d c [] us tail name fuel Hw Hd ltac:(lia)) as [nothing ->]. rewrite Hnone. by eexists.
  - rewrite (search_descends bpb n G Hper fuel d' c ws name Hw' (descends_keeps bpb n G Hper fuel d d' c Hk _ _ Hde) Hroot Hok).
    destruct (navigate_last bpb n G Hper d' c [] _ tail' name fuel Hw' Hd' Hf3) as [nothing ->]. by rewrite El.
  - unfold e, laf_of. cbn [file]. rewrite Hfe. exact Hfa.
  - unfold e, laf_of. cbn [file]. rewrite Hfe. exact Hfc.
  - rewrite (listing_result bpb n G Hper d' tail' Hw' fuel _ it Hf3 Hfound). by rewrite E2.
Qed.

(** C15: A directory stream refines the list of the files of the directory: opened on a path that names a
    directory of a tree on a working disk (without a deleted entry in the last place of a cluster, and with an
    end mark in the first place of a cluster only if the directory is empty: elsewhere the iterator goes wrong) it hands out every file, with its name, size and attributes, in
    order and exactly once, skipping deleted entries and taking long names together, and then reports the
    end of the directory; on a path that names a regular file opening is refused with BAD_PATH. *)
Theorem stream_lists_directory bpb n fuel (t : Driver.table) handle d dirs ws e : geometry bpb n -> 1 <= per bpb <= 65536 -> working d ->
  tree bpb n fuel d dirs -> is_Some (dirs (get_root_directory_cluster bpb)) -> in_width 32 (get_root_directory_cluster bpb) ->
  Forall ordinary ws -> ws <> [] -> find_storage_dev_ref t handle = Some bpb ->
  named_by bpb d dirs (get_root_directory_cluster bpb) ws = (NAV_FOUND, Some e) ->
  (is_directory e = false -> open_directory_stream fuel t d handle (P (render ws)) = Some (BAD_PATH, None))
  /\ (forall us, is_directory e = true -> dirs (cluster (file e)) = Some us ->
       exists it, open_directory_stream fuel t d handle (P (render ws)) = Some (OPENED, Some it)
         /\ drain bpb fuel d it = Some (entry_info <$> lafs bpb d us, DS_END_OF_DIRECTORY)).
Proof.
  intros G Hper Hw Ht Hroot Hr Hws Hne Hm He. unfold open_directory_stream. rewrite Hm.
  destruct (search_tree bpb n G Hper fuel d dirs ws Hw Ht Hroot Hr Hws Hne) as [nothing E]. rewrite E, He. cbn [mbind option_bind fst snd volume_status access_status].
  change (default nothing (Some e)) with e. rewrite <- is_directory_bit. split; [by intros ->|]. intros us -> Hus. cbn [negb].
  destruct (Ht _ us Hus) as (Hlen & (l & tail & Hd) & _).
  destruct (begin_found bpb n G Hper d _ l us tail Hw Hd) as (it & -> & Hfd). exists it. split; [done|].
  by rewrite (drain_listing bpb d fuel it _ _ (listing_result bpb n G Hper d tail Hw fuel us it Hlen Hfd)).
Qed.

(** C20: Deleting a regular file takes exactly that file away.  For an absolute path of a file with a long name
    in a directory of one cluster, whose entry is not the last one of the cluster, [delete_node] succeeds on a working disk; the entries of the file are
    unused and listing the directory gives the other files as before; every cluster of the chain of the
    file is free in the FAT, all other FAT entries and all other clusters stay as they were. *)
Theorem delete_exact bpb n fuel depth (t : Driver.table) handle d c us1 l0 lfns loc us3 tail ws name l : geometry bpb n -> 1 <= per bpb <= 65536 -> working d ->
  descends bpb n fuel d c (get_root_directory_cluster bpb) ws -> in_width 32 (get_root_directory_cluster bpb) -> Forall ordinary (ws ++ [name]) ->
  find_storage_dev_ref t handle = Some bpb -> table bpb n d c (us1 ++ [Named (l0 :: lfns) loc name] ++ us3) tail -> entry_idx loc <> per bpb - 1 ->
  lookup_name bpb d us1 name = None -> is_directory (laf_of bpb d (l0 :: lfns) loc name) = false ->
  chain bpb n d l -> c ∉ l -> cluster (file (laf_of bpb d (l0 :: lfns) loc name)) = default 0 (head l) ->
  per bpb < Z.of_nat fuel -> (length l < fuel)%nat -> (length us1 + length us3 + length (l0 :: lfns) + 1 < fuel)%nat ->
  exists d' it it', delete_node depth fuel t d handle (P (render (ws ++ [name]))) = Some (DELETED, d') /\ working d'
    /\ begin d bpb c LIST_DIRECTORY = Some it
    /\ listing bpb fuel d it = Some (lafs bpb d us1 ++ laf_of bpb d (l0 :: lfns) loc name :: lafs bpb d us3, END_OF_DIRECTORY)
    /\ begin d' bpb c LIST_DIRECTORY = Some it' /\ listing bpb fuel d' it' = Some (lafs bpb d us1 ++ lafs bpb d us3, END_OF_DIRECTORY)
    /\ (forall x, x ∈ l -> entry d' bpb 0 x = 0) /\ keeps bpb n d d' (fun x => x ∈ l) (fun x => x = c).
Proof.
  intros G Hper Hw Hde Hroot Hok Hm Ht Hlast Hnone Hreg Hch Hcl Hhd Hf1 Hf2 Hf3. set (f := laf_of bpb d (l0 :: lfns) loc name) in *.
  destruct (delete_file_result bpb n G Hper fuel d c us1 l0 lfns loc name us3 tail l Hw Ht Hlast Hch Hcl Hhd Hf1 Hf2) as (d' & E & Hw' & Hk & Hz & Ht' & E1 & E3).
  fold f in E. set (us := us1 ++ [Named (l0 :: lfns) loc name] ++ us3) in *. set (us' := us1 ++ (Free <$> ((l0 :: lfns) ++ [loc])) ++ us3) in *.
  assert (length us < fuel)%nat as Hl by (unfold us; rewrite !length_app; cbn [length]; lia).
  assert (length us' < fuel)%nat as Hl' by (unfold us'; rewrite !length_app, length_fmap, length_app; cbn [length] in *; lia).
  assert (lafs bpb d us = lafs bpb d us1 ++ f :: lafs bpb d us3) as El by (unfold us; by rewrite !lafs_app).
  assert (lookup_name bpb d us name = Some f) as Hlook.
  { rewrite lookup_name_lafs, El. rewrite lookup_name_lafs in Hnone. clear -Hnone. induction (lafs bpb d us1) as [|x xs IH]; cbn [app List.find] in *.
    - change (file_name f) with (of_chars name). by rewrite bool_decide_true.
    - case_bool_decide; [done|by apply IH]. }
  pose proof (table_directory bpb n Hper _ _ _ _ Ht) as Hd. pose proof (table_directory bpb n Hper _ _ _ _ Ht') as Hd'.
  destruct (begin_found bpb n G Hper d c [] _ _ Hw Hd) as (it & Hit & Hfound). destruct (begin_found bpb n G Hper d' c [] _ _ Hw' Hd') as (it' & Hit' & Hfound').
  exists d', it, it'. split_and!; try done.
  - unfold delete_node. rewrite Hm, split_render by done. cbn [mbind option_bind].
    rewrite (search_descends bpb n G Hper fuel d c ws name Hw Hde Hroot Hok).
    destruct (navigate_last bpb n G Hper d c [] us tail name fuel Hw Hd Hl) as [nothing ->]. rewrite Hlook. cbn [mbind option_bind volume_status access_status].
    rewrite <- is_directory_bit, Hreg. destruct (of_chars <$> (ws ++ [name])) eqn:Ep; [by destruct ws|]. exact E.
  - rewrite (listing_result bpb n G Hper d tail Hw fuel us it Hl Hfound). by rewrite El.
  - rewrite (listing_result bpb n G Hper d' tail Hw' fuel us' it' Hl' Hfound'). unfold us'. by rewrite !lafs_app, lafs_free, E1, E3.
Qed.
End theorems.
End DirTheorems.

(** ** The theorems on small disks *)
Module DirExample.
Import KString StrProps Path PathProps Fat VolumeProps Entry Manager FileProps Lfn Directory Search Driver LfnProps DirProps CreateProps DeleteProps
  RamDisk FileExample TreeProps DirTheorems.

(** A volume of two used clusters with these bytes at their start. *)
Definition two_clusters (root sub : list Z) : ram 2560 :=
  mkRam (fun a => if fat_cell a || fat_cell_3 a then 0xFF
                  else if a <? 2048 then default 0 (root !! Z.to_nat (a - 1536)) else default 0 (sub !! Z.to_nat (a - 2048))).

(** Entries with the short name of one letter, and the entry with the long name "ab". *)
Definition letter (c attr cl : Z) : FileEntry := mkFileEntry (c :: replicate 10 32) attr 0 0 0 0 0 0 0 0 cl 0.

Definition ab_lfn : list Z := lfn_bytes (make_lfn ([97; 98; 0] ++ replicate 10 0xFF) 0x41 41).

(** The root directory holds "ab" and the directory "D", which holds the file "F". *)
Definition shelf : ram 2560 := two_clusters (ab_lfn ++ entry_bytes (letter 65 0x20 0) ++ entry_bytes (letter 68 0x10 3)) (entry_bytes (letter 70 0x20 0)).

Definition ab : item := Named [mkLocation 2 0] (mkLocation 2 1) [97; 98].

Definition shelf_dirs (c : Z) : option (list item) :=
  if c =? 2 then Some [ab; Named [] (mkLocation 2 2) [68]] else if c =? 3 then Some [Named [] (mkLocation 3 0) [70]] else None.

Definition mounted : Driver.table := [(7, tiny_bpb)].

Lemma tiny_per : 1 <= per tiny_bpb <= 65536.
Proof. by split. Qed.

Lemma two_chain root sub c : 2 <= c < 4 -> chain tiny_bpb 2 (two_clusters root sub) [c].
Proof. intros Hc [|[|i]] x [= <-]. split; [done|]. assert (c = 2 \/ c = 3) as [-> | ->] by lia; vm_compute; reflexivity. Qed.

Lemma ab_named cl : cl = 0 \/ cl = 3 -> forall rest sub, named tiny_bpb (two_clusters (ab_lfn ++ entry_bytes (letter 65 0x20 cl) ++ rest) sub) [mkLocation 2 0] (mkLocation 2 1) [97; 98].
Proof.
  intros Hcl rest sub. split; [|split].
  - destruct Hcl as [-> | ->]; (eexists; split; [vm_compute; reflexivity|by split]).
  - eexists. split; [vm_compute; reflexivity|by split].
  - apply (run_cons _ _ (mkLocation 2 0) [] (make_lfn ([97; 98; 0] ++ replicate 10 0xFF) 0x41 41) [97; 98] []); [vm_compute; reflexivity|done|done|done|constructor|done].
Qed.

Lemma short_named (d : ram 2560) c i e name : entry_at tiny_bpb d (mkLocation c i) = Some e -> is_empty_end e = false -> is_empty_middle e = false ->
  attributes e <> attr_value LONG_FILE_NAME -> make_short_name e = Some (of_chars name) -> named tiny_bpb d [] (mkLocation c i) name.
Proof. intros He H1 H2 H3 H4. split; by exists e. Qed.

Lemma shelf_tree : tree tiny_bpb 2 10 shelf shelf_dirs.
Proof.
  intros c us. unfold shelf_dirs. destruct (c =? 2) eqn:E2; [|destruct (c =? 3) eqn:E3; [|done]]; bool_prop; subst c; intros [= <-].
  - split; [cbn; lia|]. split.
    + exists [], (drop 3 (places tiny_bpb 2)). constructor.
      * by apply two_chain.
      * reflexivity.
      * apply Forall_cons_2; [apply ab_named; by left|]. apply Forall_cons_2; [|constructor].
        apply (short_named _ _ _ (letter 68 0x10 3)); [vm_compute; reflexivity|done|done|done|vm_compute; reflexivity].
      * split; [eexists; split; [vm_compute; reflexivity|done]|done].
    + intros e He. apply elem_of_cons in He as [->|He]; [intros Hd; exfalso; revert Hd; vm_compute; discriminate|].
      apply list_elem_of_singleton in He as ->. intros _. eexists. vm_compute. reflexivity.
  - split; [cbn; lia|]. split.
    + exists [], (drop 1 (places tiny_bpb 3)). constructor.
      * by apply two_chain.
      * reflexivity.
      * apply Forall_cons_2; [|constructor]. apply (short_named _ _ _ (letter 70 0x20 0)); [vm_compute; reflexivity|done|done|done|vm_compute; reflexivity].
      * split; [eexists; split; [vm_compute; reflexivity|done]|done].
    + intros e He. apply list_elem_of_singleton in He as ->. intros Hd. exfalso. revert Hd. vm_compute. discriminate.
Qed.

Lemma letters_ordinary ws : Forall (fun w => exists c, w = [c] /\ c <> 0 /\ c <> SEP /\ c <> DOT) ws -> Forall ordinary ws.
Proof.
  intros H. eapply Forall_impl; [exact H|]. intros w (c & -> & H0 & H1 & H2). split; [split; [done|by apply Forall_singleton]|].
  split; [by intros [= ->]|done].
Qed.

Lemma d_f_ordinary : Forall ordinary [[68]; [70]].
Proof. apply letters_ordinary. repeat (apply Forall_cons_2; [eexists; split; [done|done]|]). apply Forall_nil_2. Qed.

Lemma path_queries_witness :
  find_node 10 mounted shelf 7 (P (render [[68]; [70]])) = Some (answer (named_by tiny_bpb shelf shelf_dirs 2 [[68]; [70]]))
  /\ (answer (named_by tiny_bpb shelf shelf_dirs 2 [[68]; [70]])).1 = FOUND
  /\ delete_node 3 10 mounted shelf 7 (P (render [[68]; [71]])) = Some (NOT_FOUND, shelf)
  /\ find_node 10 mounted shelf 8 (P (render [[68]; [70]])) = Some (DEV_UNKNOWN, None).
Proof.
  pose proof d_f_ordinary as Hdf.
  assert (Forall ordinary [[68]; [71]]) as Hdg by (apply letters_ordinary; repeat (apply Forall_cons_2; [eexists; split; [done|done]|]); apply Forall_nil_2).
  destruct (path_queries tiny_bpb 2 10 3 mounted 7 8 shelf shelf_dirs [[68]; [70]] tiny_geometry tiny_per I shelf_tree) as (H1 & _ & H3 & _);
    [by eexists|by split|exact Hdf|discriminate|reflexivity|reflexivity|vm_compute; discriminate|].
  destruct (path_queries tiny_bpb 2 10 3 mounted 7 8 shelf shelf_dirs [[68]; [71]] tiny_geometry tiny_per I shelf_tree) as (_ & H2 & _);
    [by eexists|by split|exact Hdg|discriminate|reflexivity|reflexivity|vm_compute; discriminate|].
  split; [exact H1|]. split; [vm_compute; reflexivity|]. split; [|exact H3]. apply H2. vm_compute. reflexivity.
Defined.

(** The file "F" in the directory "D" is found, and nothing is behind it. *)
Example shelf_found : (answer (named_by tiny_bpb shelf shelf_dirs 2 [[68]; [70]])).1 = FOUND /\ (named_by tiny_bpb shelf shelf_dirs 2 [[68]; [70]; [71]]).1 = NAV_BAD_PATH
  /\ (answer (named_by tiny_bpb shelf shelf_dirs 2 [[68]; [71]])).1 = NOT_FOUND.
Proof. vm_compute. done. Qed.

Definition shelf_d : LocationAwareFileEntry := laf_of tiny_bpb shelf [] (mkLocation 2 2) [68].

Lemma stream_lists_directory_witness :
  (is_directory shelf_d = false -> open_directory_stream 10 mounted shelf 7 (P (render [[68]])) = Some (BAD_PATH, None))
  /\ (forall us, is_directory shelf_d = true -> shelf_dirs (cluster (file shelf_d)) = Some us ->
       exists it, open_directory_stream 10 mounted shelf 7 (P (render [[68]])) = Some (OPENED, Some it)
         /\ drain tiny_bpb 10 shelf it = Some (entry_info <$> lafs tiny_bpb shelf us, DS_END_OF_DIRECTORY)).
Proof.
  apply (stream_lists_directory tiny_bpb 2 10 mounted 7 shelf shelf_dirs [[68]] shelf_d tiny_geometry tiny_per I shelf_tree);
    [by eexists|by split| |discriminate|reflexivity|vm_compute; reflexivity].
  pose proof d_f_ordinary as H. apply Forall_cons_1 in H as [H _]. by apply Forall_cons_2; [|apply Forall_nil_2].
Defined.

(** An empty root directory gets the file "ab". *)
Lemma unused_places (d : ram 2560) l :
  forallb (fun x => match entry_at tiny_bpb d x with Some e => is_empty_end e | None => false end) l = true -> Forall (end_mark tiny_bpb d) l.
Proof.
  intros H. rewrite forallb_forall in H. apply Forall_forall. intros loc Hloc. specialize (H loc (proj1 (list_elem_of_In _ _) Hloc)). cbv beta in H.
  destruct (entry_at tiny_bpb d loc) as [e|] eqn:E; [|discriminate H]. exists e. by split.
Qed.

Lemma empty_table : table tiny_bpb 2 one_free 2 [] (places tiny_bpb 2).
Proof. constructor; [exact chain_2|reflexivity|constructor|apply unused_places; vm_compute; reflexivity]. Qed.

Lemma ab_ordinary : Forall ordinary [[97; 98]].
Proof. apply Forall_cons_2; [|apply Forall_nil_2]. split; [split; [done|repeat constructor; discriminate]|by split]. Qed.

Lemma ab_good : good_name [97; 98].
Proof. constructor; [|by split|discriminate]. repeat (apply Forall_cons_2; [split; [reflexivity|discriminate]|]). apply Forall_nil_2. Qed.

Lemma create_then_found_witness :
  exists d' e l1 l2 it, create_file 20 one_free tiny_bpb (P (render ([] ++ [[97; 98]]))) 0x20 = Some (CREATED, d') /\ working d'
    /\ (exists r, search 20 one_free tiny_bpb (P (render ([] ++ [[97; 98]]))) = Some (V_NOT_FOUND, r))
    /\ search 20 d' tiny_bpb (P (render ([] ++ [[97; 98]]))) = Some (V_OKAY, e)
    /\ file_name e = of_chars [97; 98] /\ attributes (file e) = 0x20 /\ cluster (file e) = 0
    /\ lafs tiny_bpb one_free [] = l1 ++ l2 /\ begin d' tiny_bpb 2 LIST_DIRECTORY = Some it
    /\ listing tiny_bpb 20 d' it = Some (l1 ++ e :: l2, END_OF_DIRECTORY)
    /\ keeps tiny_bpb 2 one_free d' (fun _ => False) (fun x => x = 2).
Proof.
  apply (create_then_found tiny_bpb 2 20 one_free 2 [] (places tiny_bpb 2) [] [97; 98] 0x20 tiny_geometry tiny_per I);
    [apply de_here|by split|exact empty_table|apply Nat.ltb_lt; vm_compute; reflexivity|reflexivity|exact ab_good|exact ab_ordinary|reflexivity|discriminate|by split|reflexivity|reflexivity].
Defined.

(** The file "ab" with the cluster 3 is deleted. *)
Definition stored : ram 2560 := two_clusters (ab_lfn ++ entry_bytes (letter 65 0x20 3) ++ []) [7; 7; 7].

Lemma stored_table : table tiny_bpb 2 stored 2 ([] ++ [ab] ++ []) (drop 2 (places tiny_bpb 2)).
Proof.
  constructor; [by apply two_chain|reflexivity|apply Forall_singleton, ab_named; by right|apply unused_places; vm_compute; reflexivity].
Qed.

Lemma delete_exact_witness :
  exists d' it it', delete_node 3 20 mounted stored 7 (P (render ([] ++ [[97; 98]]))) = Some (DELETED, d') /\ working d'
    /\ begin stored tiny_bpb 2 LIST_DIRECTORY = Some it
    /\ listing tiny_bpb 20 stored it = Some (lafs tiny_bpb stored [] ++ laf_of tiny_bpb stored [mkLocation 2 0] (mkLocation 2 1) [97; 98] :: lafs tiny_bpb stored [], END_OF_DIRECTORY)
    /\ begin d' tiny_bpb 2 LIST_DIRECTORY = Some it' /\ listing tiny_bpb 20 d' it' = Some (lafs tiny_bpb stored [] ++ lafs tiny_bpb stored [], END_OF_DIRECTORY)
    /\ (forall x, x ∈ [3] -> entry d' tiny_bpb 0 x = 0) /\ keeps tiny_bpb 2 stored d' (fun x => x ∈ [3]) (fun x => x = 2).
Proof.
  apply (delete_exact tiny_bpb 2 20 3 mounted 7 stored 2 [] (mkLocation 2 0) [] (mkLocation 2 1) [] (drop 2 (places tiny_bpb 2)) [] [97; 98] [3] tiny_geometry tiny_per I);
    [apply de_here|by split|exact ab_ordinary|reflexivity|exact stored_table|discriminate|reflexivity|vm_compute; reflexivity|by apply two_chain
    |by intros ?%list_elem_of_singleton|vm_compute; reflexivity|reflexivity|cbn; lia|cbn; lia].
Defined.
End DirExample.
