(* ===== verification/VfsModule.v ===== *)
(** * The virtual file system: VirtualFileSystem/VFSModule.cpp

    Mount points, drivers, open nodes and their reference counts.  A path that is a key of a table is the
    text of the path: hashing and comparing paths looks at nothing else.  The drivers and the devices below
    them are the state [W] of the class [Drivers], the virtual functions of [Driver].  Event handlers are
    other code; what is fired is recorded. *)

From S2P Require Import Prelude KString VfsPath HashMap FatVolume FatFile FatDirectory FatDriver.

(** ** KRE/System/Resource.h: [HandleCounter<U16>] *)
Module HandleCounter.
(** [_counter < _counter + 1]: the sum is an [int] and cannot wrap. *)
Definition has_more (counter : Z) : bool := counter <? counter + 1.
Definition acquire (counter : Z) : Z * Z := let c := u16 (counter + 1) in (c, c).
Definition release_last_acquired (counter : Z) : Z := if 0 <? counter then counter - 1 else counter.
End HandleCounter.

Module Vfs.
Import KString Path HashMap Driver.

Inductive EventHook := NODE_OPENED | NODE_CLOSED | DIRECTORY_STREAM_OPENED | DIRECTORY_STREAM_CLOSED.

(** The virtual functions of [Driver] and of the nodes and directory streams a driver makes. *)
Class Drivers (W drv N S : Type) := {
  get_name : drv -> list Z;
  d_format : W -> drv -> Z -> option (FormatStatus * W);
  d_mount : W -> drv -> Z -> option (MountStatus * W);
  d_unmount : W -> drv -> Z -> option (MountStatus * W);
  d_is_valid_file_path : W -> drv -> Path -> option bool;
  d_create : W -> drv -> Z -> Path -> Z -> option (IOStatus * W);
  d_open : W -> drv -> Z -> Path -> Path -> Node.IOMode -> option (IOStatus * option N * W);
  d_find_node : W -> drv -> Z -> Path -> option (IOStatus * option NodeInfo);
  d_delete_node : W -> drv -> Z -> Path -> option (IOStatus * W);
  d_open_directory_stream : W -> drv -> Z -> Path -> option (IOStatus * option S);
  get_node_path : N -> option Path;
  get_size : N -> Z;
  n_has_attribute : N -> Node.NodeAttribute -> bool }.

Record MountPointInfo := mkMountPoint { m_mount_point : Path; m_driver_name : list Z; m_mass_storage_device_handle : Z }.
Record NodeRefCount := mkRefCount { m_node_path : Path; m_ref_count : Z; m_delete_this : bool }.

(** The characters of a path. *)
Definition text (p : Path) : option (list Z) := b ← get_buf (_path p); slice b 0 (KString.size (_path p)).

Section vfs.
Context {W drv N S : Type} `{Drivers W drv N S}.

(** A node or directory stream with the fields of its base class; [captured] is the path its closure holds. *)
Record OpenNode := mkOpenNode { n_handle : Z; n_name : String; n_captured : Path; n_io : N }.
Record OpenStream := mkOpenStream { s_handle : Z; s_name : String; s_io : S }.

Record VFSModule := mkVFS {
  world : W;
  driver_table : HashMap (list Z) drv;
  mount_point_table : HashMap (list Z) MountPointInfo;
  node_ref_table : HashMap (list Z) NodeRefCount;
  node_table : HashMap Z OpenNode;
  node_handle_counter : Z;
  dir_stream_table : HashMap Z OpenStream;
  dir_stream_handle_counter : Z;
  events : list (EventHook * Z) }.

Implicit Types (s : VFSModule) (path : Path) (handle : Z).

Definition with_world w s := mkVFS w (driver_table s) (mount_point_table s) (node_ref_table s) (node_table s) (node_handle_counter s) (dir_stream_table s) (dir_stream_handle_counter s) (events s).
Definition with_drivers t s := mkVFS (world s) t (mount_point_table s) (node_ref_table s) (node_table s) (node_handle_counter s) (dir_stream_table s) (dir_stream_handle_counter s) (events s).
Definition with_mounts t s := mkVFS (world s) (driver_table s) t (node_ref_table s) (node_table s) (node_handle_counter s) (dir_stream_table s) (dir_stream_handle_counter s) (events s).
Definition with_refs t s := mkVFS (world s) (driver_table s) (mount_point_table s) t (node_table s) (node_handle_counter s) (dir_stream_table s) (dir_stream_handle_counter s) (events s).
Definition with_nodes t s := mkVFS (world s) (driver_table s) (mount_point_table s) (node_ref_table s) t (node_handle_counter s) (dir_stream_table s) (dir_stream_handle_counter s) (events s).
Definition with_node_counter c s := mkVFS (world s) (driver_table s) (mount_point_table s) (node_ref_table s) (node_table s) c (dir_stream_table s) (dir_stream_handle_counter s) (events s).
Definition with_streams t s := mkVFS (world s) (driver_table s) (mount_point_table s) (node_ref_table s) (node_table s) (node_handle_counter s) t (dir_stream_handle_counter s) (events s).
Definition with_stream_counter c s := mkVFS (world s) (driver_table s) (mount_point_table s) (node_ref_table s) (node_table s) (node_handle_counter s) (dir_stream_table s) c (events s).

Definition fire (e : EventHook) handle s := mkVFS (world s) (driver_table s) (mount_point_table s) (node_ref_table s) (node_table s) (node_handle_counter s) (dir_stream_table s) (dir_stream_handle_counter s) (events s ++ [(e, handle)]).

Definition new_vfs (w : W) : VFSModule := mkVFS w empty_map empty_map empty_map empty_map 0 empty_map 0 [].

(** The pairs of a table in the order a range-based for loop visits them. *)
Definition pairs_of {K V} `{EqDecision K} `{Hash K} (m : HashMap K V) : option (list (K * V)) :=
  it ← begin_ m; visit (Datatypes.S (length (mjoin (buckets_of m)))) it.

(** [_driver_table.find(name)->value]: dereferences a null pointer when there is no such driver. *)
Definition driver_named s (name : list Z) : option drv := it ← find (driver_table s) name; snd <$> pair_of it.

Definition lookup {K V} `{EqDecision K} `{Hash K} (m : HashMap K V) (k : K) : option (option V) := it ← find m k; Some (snd <$> pair_of it).

(** ** Mount points *)

Fixpoint resolve_loop (mps : list (list Z * MountPointInfo)) path (best_fit_len : Z) (best_fit : MountPointInfo) : option MountPointInfo :=
  match mps with
  | [] => Some best_fit
  | mp_pair :: mps =>
      mp ← path_of mp_pair.1;
      parts ← split_path mp;
      let mp_len := zlen parts in
      common ← common_path path mp;
      same ← path_eqb common mp;
      if (same : bool) && (best_fit_len <=? mp_len) then resolve_loop mps path mp_len mp_pair.2
      else resolve_loop mps path best_fit_len best_fit
  end.

Definition resolve s path : option MountPointInfo :=
  mps ← pairs_of (mount_point_table s);
  nothing ← path_of [];
  resolve_loop mps path 0 (mkMountPoint nothing [] 0).

(** The mount point of a path and its driver. *)
Definition route s path : option (MountPointInfo * drv) :=
  mpi ← resolve s path; d ← driver_named s (m_driver_name mpi); Some (mpi, d).

Definition create s path (attributes : Z) : option (IOStatus * VFSModule) :=
  absolute ← is_absolute path;
  if negb absolute then Some (BAD_PATH, s) else
  key ← text path;
  mounted ← lookup (mount_point_table s) key;
  match mounted with
  | Some _ => Some (FOUND, s)
  | None =>
      '(mpi, d) ← route s path;
      rel ← relative_to path (m_mount_point mpi);
      '(st, w) ← d_create (world s) d (m_mass_storage_device_handle mpi) rel attributes;
      Some (st, with_world w s)
  end.

Definition create_system_directory s path : option (bool * VFSModule) :=
  '(st, s) ← create s path (Z.lor (Node.node_attr_value Node.NDIRECTORY) (Node.node_attr_value Node.NSYSTEM));
  Some (match st with CREATED | FOUND => true | _ => false end, s).

Definition get_driver_table s : option (list (list Z)) := mps ← pairs_of (mount_point_table s); Some (m_driver_name <$> mps.*2).

Definition install_driver s (driver : option drv) : option (bool * VFSModule) :=
  match driver with
  | None => Some (false, s)
  | Some d =>
      known ← lookup (driver_table s) (get_name d);
      match known with
      | None => '(t, it) ← put (driver_table s) (get_name d) d; Some (has_next it, with_drivers t s)
      | Some _ => Some (false, s)
      end
  end.

Definition uninstall_driver s (driver : option drv) : option (bool * VFSModule) :=
  match driver with
  | None => Some (false, s)
  | Some d => '(success, t) ← remove (driver_table s) (get_name d); Some (success, with_drivers t s)
  end.

Definition get_node_table s : option (list OpenNode) := ps ← pairs_of (node_table s); Some (ps.*2).
Definition find_node s handle : option (option OpenNode) := lookup (node_table s) handle.
Definition get_directory_stream_table s : option (list OpenStream) := ps ← pairs_of (dir_stream_table s); Some (ps.*2).
Definition find_directory_stream s handle : option (option OpenStream) := lookup (dir_stream_table s) handle.
Definition get_mount_point_table s : option (list MountPointInfo) := ps ← pairs_of (mount_point_table s); Some (ps.*2).

(** The result of [find] is dereferenced before it is compared with a null pointer. *)
Definition format s (driver_name : list Z) handle : option (FormatStatus * VFSModule) :=
  d ← driver_named s driver_name;
  '(st, w) ← d_format (world s) d handle;
  Some (st, with_world w s).

(** The loop over the drivers: the first one that serves the device. *)
Fixpoint mount_loop (ds : list (list Z * drv)) s mount_point (key : list Z) handle : option (MountStatus * VFSModule) :=
  match ds with
  | [] => Some (NOT_SUPPORTED, s)
  | dp :: ds =>
      '(ms, w) ← d_mount (world s) dp.2 handle;
      let s := with_world w s in
      let ms := match ms with ALREADY_MOUNTED => MOUNTED | _ => ms end in
      match ms with
      | MOUNTED =>
          '(t, _) ← put (mount_point_table s) key (mkMountPoint mount_point (get_name dp.2) handle);
          Some (MOUNTED, with_mounts t s)
      | _ => mount_loop ds s mount_point key handle
      end
  end.

Definition mount s mount_point handle : option (MountStatus * VFSModule) :=
  absolute ← is_absolute mount_point;
  if negb absolute then Some (M_BAD_PATH, s) else
  root ← is_root mount_point;
  let no_mounts := HashMap.size (mount_point_table s) =? 0 in
  if no_mounts && negb root then Some (MOUNT_ERROR, s) else
  key ← text mount_point;
  known ← lookup (mount_point_table s) key;
  match known with
  | Some _ => Some (ALREADY_MOUNTED, s)
  | None =>
      there ← (if no_mounts then Some true else
                 '(mpi, d) ← route s mount_point;
                 rel ← relative_to mount_point (m_mount_point mpi);
                 '(as_, _) ← d_find_node (world s) d (m_mass_storage_device_handle mpi) rel;
                 Some (bool_decide (as_ = FOUND)));
      if negb there then Some (MOUNT_ERROR, s) else
      ds ← pairs_of (driver_table s);
      mount_loop ds s mount_point key handle
  end.

Definition unmount s mount_point : option (MountStatus * VFSModule) :=
  absolute ← is_absolute mount_point;
  if negb absolute then Some (M_BAD_PATH, s) else
  root ← is_root mount_point;
  if (root : bool) then Some (M_BAD_PATH, s) else
  key ← text mount_point;
  known ← lookup (mount_point_table s) key;
  match known with
  | None => Some (NOT_MOUNTED, s)
  | Some _ =>
      '(mpi, d) ← route s mount_point;
      '(mst, w) ← d_unmount (world s) d (m_mass_storage_device_handle mpi);
      let s := with_world w s in
      match mst with
      | UNMOUNTED =>
          '(success, t) ← remove (mount_point_table s) key;
          Some (if (success : bool) then UNMOUNTED else MOUNT_ERROR, with_mounts t s)
      | _ => Some (mst, s)
      end
  end.

(** [load]: mounts the first partition at the root and makes the system directories; the mass storage devices
    are given by their handles and whether they are partitions. *)
Definition load s (msd_list : list (Z * bool)) : option (bool * VFSModule) :=
  match List.find snd msd_list with
  | None => Some (false, s)
  | Some (msd_handle, _) =>
      if msd_handle =? 0 then Some (false, s) else
      root ← path_of [UNIX_PATH_SEPARATOR];
      '(ms, s) ← mount s root msd_handle;
      match ms with
      | MOUNTED =>
          system ← cstr [83; 121; 115; 116; 101; 109]; sys_dir ← append_path root system;
          '(ok, s) ← create_system_directory s sys_dir;
          if negb ok then Some (false, s) else
          log ← cstr [76; 111; 103]; sys_dir ← append_path sys_dir log;
          '(ok, s) ← create_system_directory s sys_dir;
          if negb ok then Some (false, s) else
          let '(_, c) := HandleCounter.acquire (node_handle_counter s) in
          let '(_, c) := HandleCounter.acquire c in
          Some (true, with_node_counter c s)
      | _ => Some (false, s)
      end
  end.

(** ** Nodes *)

(** [while (!remaining.is_root())]; nothing bounds the number of turns. *)
Fixpoint valid_loop (fuel : nat) s path remaining : option bool :=
  match fuel with
  | O => None
  | Datatypes.S fuel =>
      root ← is_root remaining;
      if (root : bool) then Some true else
      '(mpi, d) ← route s path;
      relative ← relative_to remaining (m_mount_point mpi);
      ok ← d_is_valid_file_path (world s) d relative;
      if negb ok then Some false else
      remaining ← common_path remaining (m_mount_point mpi);
      valid_loop fuel s path remaining
  end.

Definition is_valid_file_path (fuel : nat) s path : option bool :=
  absolute ← is_absolute path;
  if negb absolute then Some false else valid_loop fuel s path path.

(** The loop of [delete_node] over the node reference table: whether a node below the path is open. *)
Fixpoint any_below (frts : list (list Z * NodeRefCount)) path : option bool :=
  match frts with
  | [] => Some false
  | frte :: frts =>
      key ← path_of frte.1; rel ← relative_to key path;
      if 0 <? KString.size (_path rel) then Some true else any_below frts path
  end.

Definition delete_node s path : option (IOStatus * VFSModule) :=
  absolute ← is_absolute path;
  if negb absolute then Some (BAD_PATH, s) else
  key ← text path;
  mounted ← lookup (mount_point_table s) key;
  match mounted with
  | Some _ => Some (ACCESS_DENIED, s)
  | None =>
      '(mpi, d) ← route s path;
      it ← lookup (node_ref_table s) key;
      let delete_now := match it with None => true | Some rc => m_ref_count rc =? 0 end in
      if (delete_now : bool) then
        frts ← pairs_of (node_ref_table s);
        open_below ← any_below frts path;
        if (open_below : bool) then Some (ACCESS_DENIED, s) else
        rel ← relative_to path (m_mount_point mpi);
        '(st, w) ← d_delete_node (world s) d (m_mass_storage_device_handle mpi) rel;
        Some (st, with_world w s)
      else
        t ← assign (node_ref_table s) key (fun rc => mkRefCount (m_node_path rc) (m_ref_count rc) true);
        Some (DELETED, with_refs t s)
  end.

(** The closure that [open] gives to the node. *)
Definition on_close s path (node_handle : Z) : option VFSModule :=
  '(_, t) ← remove (node_table s) node_handle;
  let s := fire NODE_CLOSED node_handle (with_nodes t s) in
  key ← text path;
  it ← lookup (node_ref_table s) key;
  match it with
  | None => Some s
  | Some rc =>
      t ← assign (node_ref_table s) key (fun rc => mkRefCount (m_node_path rc) (u16 (m_ref_count rc - 1)) (m_delete_this rc));
      let s := with_refs t s in
      if u16 (m_ref_count rc - 1) =? 0 then
        '(_, t) ← remove (node_ref_table s) key;
        let s := with_refs t s in
        if m_delete_this rc then '(_, s) ← delete_node s path; Some s else Some s
      else Some s
  end.

(** [Node::close] of a node with this handle. *)
Definition close_node s handle : option VFSModule :=
  n ← find_node s handle;
  match n with
  | None => Some s
  | Some node => on_close s (n_captured node) (n_handle node)
  end.

Definition open s path (node_io_mode : Node.IOMode) : option (IOStatus * option OpenNode * VFSModule) :=
  absolute ← is_absolute path;
  if negb absolute then Some (BAD_PATH, None, s) else
  if negb (HandleCounter.has_more (node_handle_counter s)) then Some (OUT_OF_HANDLES, None, s) else
  '(mpi, d) ← route s path;
  let '(node_handle, c) := HandleCounter.acquire (node_handle_counter s) in
  let s := with_node_counter c s in
  p ← relative_to path (m_mount_point mpi);
  '(open_status, out, w) ← d_open (world s) d (m_mass_storage_device_handle mpi) (m_mount_point mpi) p node_io_mode;
  let s := with_world w s in
  match open_status with
  | OPENED =>
      io ← out;
      name ← get_file_name path;
      let node := mkOpenNode node_handle name path io in
      '(t, _) ← put (node_table s) node_handle node;
      let s := fire NODE_OPENED node_handle (with_nodes t s) in
      key ← text path;
      it ← lookup (node_ref_table s) key;
      t ← match it with
          | None => '(t, _) ← put (node_ref_table s) key (mkRefCount path 1 false); Some t
          | Some _ => assign (node_ref_table s) key (fun rc => mkRefCount (m_node_path rc) (u16 (m_ref_count rc + 1)) (m_delete_this rc))
          end;
      Some (open_status, Some node, with_refs t s)
  | _ => Some (open_status, None, with_node_counter (HandleCounter.release_last_acquired (node_handle_counter s)) s)
  end.

Definition get_node_info s path : option (IOStatus * option NodeInfo) :=
  absolute ← is_absolute path;
  if negb absolute then Some (BAD_PATH, None) else
  '(mpi, d) ← route s path;
  rel ← relative_to path (m_mount_point mpi);
  d_find_node (world s) d (m_mass_storage_device_handle mpi) rel.

Definition open_node_attributes (n : N) : Z :=
  foldl (fun a x => if n_has_attribute n x then Z.lor a (Node.node_attr_value x) else a) 0
    [Node.NREADONLY; Node.NHIDDEN; Node.NSYSTEM; Node.NDIRECTORY; Node.NFILE].

Definition get_open_node_info s handle : option (IOStatus * option NodeInfo) :=
  maybe_node ← lookup (node_table s) handle;
  match maybe_node with
  | None => Some (NOT_FOUND, None)
  | Some node =>
      p ← get_node_path (n_io node);
      Some (FOUND, Some (mkInfo (_path p) (get_size (n_io node)) (open_node_attributes (n_io node))))
  end.

(** ** Directory streams *)
Definition open_directory_stream s path : option (IOStatus * option OpenStream * VFSModule) :=
  absolute ← is_absolute path;
  if negb absolute then Some (BAD_PATH, None, s) else
  if negb (HandleCounter.has_more (dir_stream_handle_counter s)) then Some (OUT_OF_HANDLES, None, s) else
  let '(dir_stream_handle, c) := HandleCounter.acquire (dir_stream_handle_counter s) in
  let s := with_stream_counter c s in
  '(mpi, d) ← route s path;
  rel ← relative_to path (m_mount_point mpi);
  '(io_st, out) ← d_open_directory_stream (world s) d (m_mass_storage_device_handle mpi) rel;
  match io_st with
  | OPENED =>
      io ← out;
      let st := mkOpenStream dir_stream_handle (_path path) io in
      '(t, _) ← put (dir_stream_table s) dir_stream_handle st;
      Some (io_st, Some st, fire DIRECTORY_STREAM_OPENED dir_stream_handle (with_streams t s))
  | _ => Some (io_st, None, with_stream_counter (HandleCounter.release_last_acquired (dir_stream_handle_counter s)) s)
  end.

Definition close_directory_stream s handle : option VFSModule :=
  n ← find_directory_stream s handle;
  match n with
  | None => Some s
  | Some _ => '(_, t) ← remove (dir_stream_table s) handle; Some (fire DIRECTORY_STREAM_CLOSED handle (with_streams t s))
  end.
End vfs.
End Vfs.

(** ** The FAT driver as a driver of the virtual file system

    One device [d] with its handles in the table of the driver. *)
Module FatVfs.
Import KString Fat Directory Driver Vfs.

Section fat.
Context {D : Type} `{MassStorage D} `{FATEngine}.
Context (released : list String -> option (list String)) (depth fuel : nat) (sector_size sector_count : Z).

#[export] Instance fat_drivers : Drivers (Driver.table * D) unit (Path.Path * Node.FATNode) FATDirectoryIterator := {
  get_name _ := [70; 65; 84; 51; 50];
  d_format w _ handle := '(st, d) ← Driver.format w.2 sector_size sector_count; Some (st, (w.1, d));
  d_mount w _ handle := '(st, t) ← Driver.mount w.1 w.2 handle sector_size; Some (st, (t, w.2));
  d_unmount w _ handle := let '(st, t) := Driver.unmount w.1 handle in Some (st, (t, w.2));
  d_is_valid_file_path _ _ path := Driver.is_valid_file_path path;
  d_create w _ handle path attributes := '(st, d) ← Driver.create released fuel w.1 w.2 handle path attributes; Some (st, (w.1, d));
  d_open w _ handle mount_point path mode :=
    '(st, n) ← Driver.open fuel w.1 w.2 handle path mode;
    p ← Path.append_path mount_point (Path._path path);
    Some (st, (n ← n; Some (p, n)), w);
  d_find_node w _ handle path := Driver.find_node fuel w.1 w.2 handle path;
  d_delete_node w _ handle path := '(st, d) ← Driver.delete_node depth fuel w.1 w.2 handle path; Some (st, (w.1, d));
  d_open_directory_stream w _ handle path := Driver.open_directory_stream fuel w.1 w.2 handle path;
  get_node_path n := Some n.1;
  get_size n := Node.size_of n.2;
  n_has_attribute n a := Node.node_has_attribute n.2 a }.
End fat.
End FatVfs.
