(* ===== verification/VfsProps.v ===== *)
(** * The virtual file system keeps open files

    An abstract view of the module: which handle is open on which path, which paths wait for their last
    close, and the disk.  Any sequence of calls on the mounted system answers as the abstract view does. *)

From S2P Require Import Prelude KString KStringProps VfsPath VfsPathProps HashMap HashMapProps FatVolume FatVolumeProps FatFile FatTheorems FatDirectory FatDriver FatDirTheorems VfsModule.

(** ** Paths below paths *)
Module PathFacts.
Import KString Path StrProps PathProps.

Definition path_ok (ws : list (list Z)) : Prop := Forall part_ok ws /\ zlen (tail_of ws) + 2 < 2 ^ 31.

(** The absolute path with these parts. *)
Definition path_at (ws : list (list Z)) : Path := P (render ws).

(** Strictly inside the directory [ws]. *)
Definition inside (ws us : list (list Z)) : Prop := ws `prefix_of` us /\ ws <> us.

#[export] Instance inside_dec ws us : Decision (inside ws us).
Proof. unfold inside. apply _. Defined.

Lemma text_chars l : Vfs.text (P l) = Some l.
Proof. unfold Vfs.text, size. cbn [_path P]. destruct (get_buf_chars l) as [r ->]. cbn [mbind option_bind]. rewrite size_chars. apply slice_front. Qed.

Lemma text_at ws : Vfs.text (path_at ws) = Some (render ws).
Proof. apply text_chars. Qed.

Lemma absolute_at ws : is_absolute (path_at ws) = Some true.
Proof. unfold path_at. by rewrite absolute_P, head_render. Qed.

Lemma path_at_inj ws us : path_ok ws -> path_ok us -> path_at ws = path_at us -> ws = us.
Proof. intros [Hw _] [Hu _] E. injection E as E. by apply of_chars_inj, render_inj in E. Qed.

Lemma root_at ws : path_ok ws -> is_root (path_at ws) = Some (bool_decide (ws = [])).
Proof.
  intros [Hok _]. unfold is_root, path_at. cbn [_path P]. rewrite literal by apply no_zero_lits. f_equal.
  apply bool_decide_ext. by apply render_root.
Qed.

Lemma strip_common_miss ws : forall us, (length ws < length us)%nat -> ~ ws `prefix_of` us ->
  strip_common (of_chars <$> ws) (of_chars <$> us) = Some None.
Proof.
  induction ws as [|w ws IH]; intros us Hl Hp; [by destruct Hp; apply prefix_nil|]. destruct us as [|u us]; [cbn in Hl; lia|].
  cbn [fmap list_fmap strip_common]. rewrite eqb_chars. cbn [mbind option_bind]. case_bool_decide as E; [|done]. subst u.
  apply IH; [cbn in Hl; lia|]. intros Hp'. apply Hp. by apply prefix_cons.
Qed.

(** [relative_to] is empty unless the first path lies inside the second. *)
Lemma relative_inside us ws : path_ok us -> path_ok ws ->
  relative_to (path_at us) (path_at ws) = Some (P (if decide (inside ws us) then relative (drop (length ws) us) else [])).
Proof.
  intros [Hu Hul] [Hw Hwl]. unfold path_at. destruct (decide (inside ws us)) as [[[vs ->] Hne]|Hn].
  { rewrite drop_app_length. apply relative_to_result; [done| |done]. intros ->. by rewrite app_nil_r in Hne. }
  unfold relative_to. rewrite empty_string_chars. cbn [mbind option_bind _path P]. rewrite is_empty_chars, bool_decide_false by (by destruct ws).
  rewrite !absolute_P, !head_render, !bool_decide_true by done. cbn [mbind option_bind Bool.eqb negb]. unfold path_eqb. cbn [_path P].
  rewrite eqb_chars. cbn [mbind option_bind]. case_bool_decide as E; [done|]. rewrite !split_P, !pieces_render by done. cbn [mbind option_bind].
  rewrite !length_fmap. destruct (length us <=? length ws)%nat eqn:El; [done|]. apply Nat.leb_gt in El.
  rewrite strip_common_miss; [done|done|]. intros Hp. apply Hn. split; [done|]. by intros ->.
Qed.

Lemma relative_size us ws : path_ok us -> inside ws us -> 0 < size (_path (P (relative (drop (length ws) us)))).
Proof.
  intros [Hu _] [[vs ->] Hne]. rewrite drop_app_length. unfold size. cbn [_path P]. rewrite size_chars. apply Forall_app in Hu as [_ Hv].
  destruct vs as [|v vs]; [by rewrite app_nil_r in Hne|]. rewrite relative_len. inversion Hv as [|? ? [Hne' _] _]; subst.
  destruct v; [done|]. rewrite zlen_cons. pose proof (zlen_nonneg v). pose proof (zlen_nonneg (tail_of vs)). lia.
Qed.

Lemma relative_root ws : path_ok ws -> relative_to (path_at ws) (P [SEP]) = Some (P (relative ws)).
Proof.
  intros Hok. change (P [SEP]) with (path_at []). rewrite relative_inside by (try done; by split; [constructor|]). f_equal. f_equal.
  destruct (decide (inside [] ws)) as [_|Hn]; [done|]. destruct ws; [done|]. destruct Hn. split; [apply prefix_nil|done].
Qed.

Lemma file_name_at ws : path_ok ws -> exists name, get_file_name (path_at ws) = Some name.
Proof.
  intros [Hok Hl]. unfold get_file_name, path_at. cbn [_path P]. assert (exists l1 l2, render ws = l1 ++ SEP :: l2 /\ SEP ∉ l2) as (l1 & l2 & E & Hn).
  { destruct ws as [|w ws _] using rev_ind; [exists [], []; split; [done|apply not_elem_of_nil]|].
    exists (tail_of ws), w. apply Forall_app in Hok as [_ [Hw _]%Forall_cons]. split; [rewrite <- tail_snoc; by destruct ws|].
    intros Hin. pose proof (proj1 (Forall_forall _ _) (part_no_sep w Hw) _ Hin). done. }
  assert (fits (render ws)) as Hf by (unfold fits; pose proof (render_len ws); lia). rewrite E in Hf |- *.
  rewrite last_index_some by done. cbn [mbind option_bind]. unfold fits in Hf. rewrite zlen_app, zlen_cons in Hf.
  pose proof (zlen_nonneg l1). pose proof (zlen_nonneg l2). rewrite (wrap_small 64) by (unfold in_width; word_lia).
  exists (of_chars l2). replace (l1 ++ SEP :: l2) with ((l1 ++ [SEP]) ++ l2) by (by rewrite <- app_assoc).
  replace (zlen l1 + 1) with (zlen (l1 ++ [SEP])) by (rewrite zlen_app; done). apply substring_chars. unfold fits. rewrite !zlen_app. change (zlen [SEP]) with 1. lia.
Qed.

Lemma render_nonzero ws : path_ok ws -> Forall (fun c => c <> 0) (render ws).
Proof.
  intros [Hok _]. destruct ws as [|w ws]; [by repeat constructor|]. cbn [render]. induction Hok as [|v vs Hv Hvs IH]; [constructor|].
  change (tail_of (v :: vs)) with ((SEP :: v) ++ tail_of vs). apply Forall_app. split; [|done]. constructor; [done|]. by apply part_nonzero.
Qed.

(** The loop over the open paths of [delete_node]. *)
Lemma any_below_result ws (l : list (list Z * Vfs.NodeRefCount)) : path_ok ws -> (forall x, x ∈ l -> exists us, path_ok us /\ x.1 = render us) ->
  exists b, Vfs.any_below l (path_at ws) = Some b /\ (b = true <-> exists us rc, path_ok us /\ (render us, rc) ∈ l /\ inside ws us).
Proof.
  intros Hw. induction l as [|[k rc] l IH]; intros Hl.
  { exists false. split; [done|]. split; [done|]. intros (us & rc & _ & Hin & _). by apply not_elem_of_nil in Hin. }
  destruct IH as (b & Eb & Hb); [intros x Hx; apply Hl; by right|]. destruct (Hl (k, rc) ltac:(by left)) as (us & Hu & Ek). cbn [fst] in Ek. subst k.
  cbn [Vfs.any_below fst]. rewrite path_of_chars by (by apply render_nonzero).
  cbn [mbind option_bind]. change (P (render us)) with (path_at us). rewrite (relative_inside us ws Hu Hw). cbn [mbind option_bind].
  destruct (decide (inside ws us)) as [Hi|Hi].
  - rewrite (proj2 (Z.ltb_lt _ _)) by (by apply relative_size). exists true. split; [done|]. split; [|done]. intros _. exists us, rc. split; [done|]. split; [by left|done].
  - exists b. split; [exact Eb|]. rewrite Hb. split; intros (vs & rc' & Hv & Hin & Hi'); exists vs, rc'; split_and!; try done; [by right|].
    apply elem_of_cons in Hin as [[= E _]|Hin]; [|done]. destruct Hi. pose proof (render_inj vs us (proj1 Hv) (proj1 Hu) E) as ->. done.
Qed.
End PathFacts.

(** ** What the hash tables answer *)
Module Tables.
Import HashMapProps.MapProps.

Section tables.
Context {K V : Type} `{Countable K} `{HashMap.Hash K}.

Lemma lookup_result (m : HashMap.HashMap K V) M k : repr m M -> Vfs.lookup m k = Some (M !! k).
Proof.
  intros R. unfold Vfs.lookup. destruct (find_result m M k R) as (it & -> & Hp). cbn [mbind option_bind]. rewrite Hp. by destruct (M !! k).
Qed.

Lemma pairs_of_result (m : HashMap.HashMap K V) M : repr m M -> exists l, Vfs.pairs_of m = Some l /\ l ≡ₚ map_to_list M.
Proof.
  intros R. unfold Vfs.pairs_of. destruct (iterate_result m M (S (length (mjoin (HashMap.buckets_of m)))) R) as (it & l & -> & Hv & _ & Hp); [unfold contents; lia|].
  cbn [mbind option_bind]. by exists l.
Qed.
End tables.
End Tables.

(** ** The abstract view *)
Module OpenFiles.
Import HashMap StrProps Path PathProps PathFacts Driver Vfs.

(** How many handles are open on a path. *)
Definition times (M : gmap Z (list (list Z))) (ws : list (list Z)) : nat := base.size (filter (fun x => x.2 = ws) M).

Definition inside_open (M : gmap Z (list (list Z))) (ws : list (list Z)) : bool := bool_decide (map_Exists (fun _ us => inside ws us) M).

Lemma times_fresh M h ws us : M !! h = None -> times (<[h := us]> M) ws = ((if decide (us = ws) then 1 else 0) + times M ws)%nat.
Proof.
  intros Hh. unfold times. destruct (decide (us = ws)) as [->|Hne].
  - rewrite map_filter_insert_True by done. apply map_size_insert_None. by apply map_lookup_filter_None_2; left.
  - by rewrite map_filter_insert_False, delete_id.
Qed.

Lemma times_delete M h ws us : M !! h = Some us -> times M ws = ((if decide (us = ws) then 1 else 0) + times (delete h M) ws)%nat.
Proof. intros Hh. rewrite <- (times_fresh _ h) by apply lookup_delete_eq. by rewrite insert_delete_eq, insert_id. Qed.

Lemma times_le M ws : (times M ws <= base.size M)%nat.
Proof. apply map_subseteq_size, map_filter_subseteq. Qed.

Lemma times_zero M ws : times M ws = 0%nat <-> forall h, M !! h <> Some ws.
Proof.
  unfold times. rewrite map_size_empty_iff, map_empty. split; intros Hm h; specialize (Hm h).
  - rewrite map_lookup_filter_None in Hm. intros E. destruct Hm as [Hm|Hm]; [congruence|]. by apply (Hm ws E).
  - apply map_lookup_filter_None_2. destruct (M !! h) as [us|] eqn:E; [right|by left]. intros vs [= <-]. cbn. congruence.
Qed.

Lemma times_open M ws : times M ws <> 0%nat -> exists h, M !! h = Some ws.
Proof.
  intros Ht. destruct (map_choose (filter (fun x => x.2 = ws) M)) as (h & us & E).
  - intros E. apply Ht. unfold times. by rewrite E, map_size_empty.
  - apply map_lookup_filter_Some in E as [E <-]. by exists h.
Qed.

Lemma times_length M ws l : NoDup l -> (forall h, h ∈ l -> M !! h = Some ws) -> (length l <= times M ws)%nat.
Proof.
  revert M. induction l as [|h l IH]; intros M Hnd Hl; [cbn; lia|]. apply NoDup_cons in Hnd as [Hh Hnd].
  rewrite (times_delete M h ws ws) by (apply Hl; by left). rewrite decide_True by done. cbn [length]. apply le_n_S, IH; [done|].
  intros h' Hh'. rewrite lookup_delete_ne by congruence. apply Hl. by right.
Qed.

Lemma times_pos M h ws : M !! h = Some ws -> (0 < times M ws)%nat.
Proof. intros E. destruct (times M ws) eqn:Et; [|lia]. by destruct (proj1 (times_zero M ws) Et h). Qed.

Section files.
Context {W drv N S : Type} `{Drivers W drv N S}.
Variables (d : drv) (dev : Z).

Record Files := mkFiles {
  f_world : W;
  f_open : gmap Z (list (list Z));
  f_marked : gset (list (list Z));
  f_next : Z;
  f_events : list (EventHook * Z) }.

Implicit Types (F : Files) (ws : list (list Z)) (h : Z) (s : VFSModule (W := W) (drv := drv) (N := N) (S := S)).

Definition on_disk w F := mkFiles w (f_open F) (f_marked F) (f_next F) (f_events F).

Definition create_at F ws (attributes : Z) : option (IOStatus * Files) :=
  if decide (ws = []) then Some (FOUND, F) else
  '(st, w) ← d_create (f_world F) d dev (P (relative ws)) attributes; Some (st, on_disk w F).

Definition open_at F ws mode : option (IOStatus * option Z * Files) :=
  '(st, out, w) ← d_open (f_world F) d dev (P [SEP]) (P (relative ws)) mode;
  match st with
  | OPENED =>
      _ ← out; let h := f_next F + 1 in
      Some (OPENED, Some h, mkFiles w (<[h := ws]> (f_open F)) (f_marked F) h (f_events F ++ [(NODE_OPENED, h)]))
  | _ => Some (st, None, on_disk w F)
  end.

(** An open file is marked, a directory with open files is refused, anything else is for the driver. *)
Definition delete_at F ws : option (IOStatus * Files) :=
  if decide (ws = []) then Some (ACCESS_DENIED, F) else
  if (0 <? times (f_open F) ws)%nat then Some (DELETED, mkFiles (f_world F) (f_open F) ({[ws]} ∪ f_marked F) (f_next F) (f_events F)) else
  if inside_open (f_open F) ws then Some (ACCESS_DENIED, F) else
  '(st, w) ← d_delete_node (f_world F) d dev (P (relative ws)); Some (st, on_disk w F).

(** The last close of a marked file deletes it. *)
Definition close_at F h : option Files :=
  match f_open F !! h with
  | None => Some F
  | Some ws =>
      let M := delete h (f_open F) in
      let es := f_events F ++ [(NODE_CLOSED, h)] in
      if decide (times M ws = 0%nat) then
        let F' := mkFiles (f_world F) M (f_marked F ∖ {[ws]}) (f_next F) es in
        if decide (ws ∈ f_marked F) then '(_, F') ← delete_at F' ws; Some F' else Some F'
      else Some (mkFiles (f_world F) M (f_marked F) (f_next F) es)
  end.

(** ** The module and its abstract view *)
Definition ref_entry F ws : option NodeRefCount :=
  match times (f_open F) ws with
  | O => None
  | n => Some (mkRefCount (path_at ws) (Z.of_nat n) (bool_decide (ws ∈ f_marked F)))
  end.

Record inv (s : VFSModule (W := W) (drv := drv) (N := N) (S := S)) F : Prop := {
  i_world : world s = f_world F;
  i_events : events s = f_events F;
  i_counter : node_handle_counter s = f_next F;
  i_next : 0 <= f_next F < 2 ^ 16;
  i_driver : exists nm, MapProps.repr (mount_point_table s) {[ [SEP] := mkMountPoint (P [SEP]) nm dev ]}
    /\ exists DT : gmap (list Z) drv, MapProps.repr (driver_table s) DT /\ DT !! nm = Some d;
  i_nodes : exists NT : gmap Z (OpenNode (N := N)), MapProps.repr (node_table s) NT /\ Z.of_nat (base.size NT) <= f_next F /\ forall h,
    match f_open F !! h with
    | Some ws => exists n, NT !! h = Some n /\ n_handle n = h /\ n_captured n = path_at ws
    | None => NT !! h = None
    end;
  i_refs : exists RT : gmap (list Z) NodeRefCount, MapProps.repr (node_ref_table s) RT /\ (forall ws, path_ok ws -> RT !! render ws = ref_entry F ws)
    /\ (forall l rc, RT !! l = Some rc -> exists ws, path_ok ws /\ l = render ws) /\ Z.of_nat (base.size RT) <= f_next F;
  i_open : forall h ws, f_open F !! h = Some ws -> 1 <= h <= f_next F /\ path_ok ws;
  i_size : Z.of_nat (base.size (f_open F)) <= f_next F;
  i_marked : forall ws, ws ∈ f_marked F -> (0 < times (f_open F) ws)%nat }.
Lemma common_root ws : path_ok ws -> common_path (path_at ws) (P [SEP]) = Some (P [SEP]).
Proof using.
  intros [Hok _]. unfold common_path, path_at. rewrite empty_string_chars. cbn [mbind option_bind _path P]. rewrite is_empty_chars, bool_decide_false by done.
  rewrite !absolute_P, head_render, bool_decide_true by done. cbn [mbind option_bind head]. rewrite bool_decide_true by done. cbn [Bool.eqb negb].
  unfold path_eqb. cbn [_path P]. rewrite eqb_chars. cbn [mbind option_bind]. case_bool_decide as E; [by rewrite E|].
  rewrite !split_P, pieces_render by done. cbn [mbind option_bind]. by destruct ws.
Qed.

Lemma route_result s F ws : inv s F -> path_ok ws -> exists nm, route s (path_at ws) = Some (mkMountPoint (P [SEP]) nm dev, d).
Proof using.
  intros I Hok. destruct (i_driver s F I) as (nm & Rm & DT & Rd & Hd). exists nm. unfold route, resolve.
  destruct (Tables.pairs_of_result _ _ Rm) as (l & -> & Hl). rewrite map_to_list_singleton in Hl. apply Permutation_singleton_r in Hl as ->.
  cbn [mbind option_bind resolve_loop fst snd]. rewrite (path_of_chars [SEP]), (path_of_chars []) by (by repeat constructor). cbn [mbind option_bind].
  rewrite split_P. cbn [mbind option_bind]. rewrite common_root by done. cbn [mbind option_bind]. unfold path_eqb. cbn [_path P]. rewrite eqb_chars.
  rewrite bool_decide_true by done. cbn [mbind option_bind andb]. change (0 <=? zlen _) with true. unfold driver_named. cbn [mbind option_bind m_driver_name].
  destruct (MapProps.find_result _ _ nm Rd) as (it & -> & Hp). cbn [mbind option_bind]. by rewrite Hp, Hd.
Qed.

Lemma mounted_result s F ws : inv s F -> path_ok ws -> exists r, lookup (mount_point_table s) (render ws) = Some r /\ (is_Some r <-> ws = []).
Proof using.
  intros I [Hok _]. destruct (i_driver s F I) as (nm & Rm & _). eexists. split; [by apply Tables.lookup_result|].
  rewrite <- (render_root ws Hok). destruct (decide (render ws = [SEP])) as [->|Hne].
  - rewrite lookup_singleton_eq. split; eauto.
  - rewrite lookup_singleton_ne by done. split; [by intros [? ?]|done].
Qed.

(** A change of the disk alone. *)
Lemma inv_on_disk s F w : inv s F -> inv (with_world w s) (on_disk w F).
Proof using. intros []. by constructor. Qed.

Lemma create_result s F ws attributes : inv s F -> path_ok ws ->
  match create_at F ws attributes with
  | Some (st, F') => exists s', create s (path_at ws) attributes = Some (st, s') /\ inv s' F'
  | None => create s (path_at ws) attributes = None
  end.
Proof using.
  intros I Hok. unfold create_at, create. rewrite absolute_at, text_at. cbn [mbind option_bind negb]. destruct (mounted_result s F ws I Hok) as (r & -> & Hr).
  cbn [mbind option_bind]. destruct (decide (ws = [])) as [E|E].
  { destruct r; [by exists s|]. by apply Hr in E as [? ?]. }
  destruct r as [m|]; [by destruct E; apply Hr|]. destruct (route_result s F ws I Hok) as (nm & ->). cbn [mbind option_bind m_mount_point m_mass_storage_device_handle].
  rewrite relative_root by done. cbn [mbind option_bind]. rewrite (i_world s F I). destruct (d_create _ _ _ _ _) as [[st w]|]; [|done].
  cbn [mbind option_bind]. eexists. split; [done|]. by apply inv_on_disk.
Qed.
Lemma ref_entry_none F ws : ref_entry F ws = None <-> times (f_open F) ws = 0%nat.
Proof using. unfold ref_entry. by destruct (times (f_open F) ws). Qed.

Lemma refs_at s F ws RT : path_ok ws -> MapProps.repr (node_ref_table s) RT -> (forall ws, path_ok ws -> RT !! render ws = ref_entry F ws) ->
  lookup (node_ref_table s) (render ws) = Some (ref_entry F ws).
Proof using. intros Hok R HR. rewrite (Tables.lookup_result _ _ _ R). by rewrite HR. Qed.

(** Writing the entry of one path in the reference table. *)
Lemma refs_insert F F' (RT : gmap (list Z) NodeRefCount) ws rc : path_ok ws -> (forall ws, path_ok ws -> RT !! render ws = ref_entry F ws) ->
  ref_entry F' ws = Some rc -> (forall us, path_ok us -> us <> ws -> ref_entry F' us = ref_entry F us) ->
  forall us, path_ok us -> <[render ws := rc]> RT !! render us = ref_entry F' us.
Proof using.
  intros Hok HR Hrc Hne us Hu. destruct (decide (us = ws)) as [->|Hu']; [by rewrite lookup_insert_eq|].
  rewrite lookup_insert_ne, HR, Hne; [done..|]. intros E. by apply Hu', render_inj; [apply Hu|apply Hok|].
Qed.

Lemma refs_delete F F' (RT : gmap (list Z) NodeRefCount) ws : path_ok ws -> (forall ws, path_ok ws -> RT !! render ws = ref_entry F ws) ->
  ref_entry F' ws = None -> (forall us, path_ok us -> us <> ws -> ref_entry F' us = ref_entry F us) ->
  forall us, path_ok us -> delete (render ws) RT !! render us = ref_entry F' us.
Proof using.
  intros Hok HR Hrc Hne us Hu. destruct (decide (us = ws)) as [->|Hu']; [by rewrite lookup_delete_eq|].
  rewrite lookup_delete_ne, HR, Hne; [done..|]. intros E. by apply Hu', render_inj; [apply Hu|apply Hok|].
Qed.

Lemma open_below_result s F ws : inv s F -> path_ok ws ->
  exists frts, pairs_of (node_ref_table s) = Some frts /\ any_below frts (path_at ws) = Some (inside_open (f_open F) ws).
Proof using.
  intros I Hok. destruct (i_refs s F I) as (RT & R & HR & Hk & _). destruct (Tables.pairs_of_result _ _ R) as (l & El & Hl). exists l. split; [done|].
  assert (forall x, x ∈ l -> RT !! x.1 = Some x.2) as Hin by (intros [k rc] Hx; rewrite Hl in Hx; by apply elem_of_map_to_list).
  destruct (any_below_result ws l Hok) as (b & -> & Hb); [intros x Hx; by apply (Hk x.1 x.2), Hin|]. f_equal.
  apply eq_bool_prop_intro. rewrite Is_true_true, Hb. unfold inside_open. rewrite bool_decide_spec. unfold map_Exists. split.
  - intros (us & rc & Hu & Hx & Hi). apply Hin in Hx. cbn [fst snd] in Hx. rewrite HR in Hx by done.
    assert (times (f_open F) us <> 0%nat) as Ht by (intros E; apply ref_entry_none in E; congruence).
    apply times_open in Ht as [h Eh]. by exists h, us.
  - intros (h & us & Eh & Hi). pose proof (proj2 (i_open s F I h us Eh)) as Hu. destruct (ref_entry F us) as [rc|] eqn:Er.
    + exists us, rc. split; [done|]. split; [|done]. rewrite Hl. apply elem_of_map_to_list. by rewrite HR.
    + apply ref_entry_none in Er. by destruct (proj1 (times_zero _ _) Er h).
Qed.

(** Deleting an open path sets the mark of its entry, and nothing else. *)
Definition marked_at F ws := mkFiles (f_world F) (f_open F) ({[ws]} ∪ f_marked F) (f_next F) (f_events F).

Lemma delete_open s F ws : inv s F -> path_ok ws -> ws <> [] -> (0 < times (f_open F) ws)%nat ->
  exists t, delete_node s (path_at ws) = Some (DELETED, with_refs t s) /\ inv (with_refs t s) (marked_at F ws).
Proof using.
  intros I Hok Hne Et. unfold delete_node. rewrite absolute_at, text_at. cbn [mbind option_bind negb].
  destruct (mounted_result s F ws I Hok) as (r & -> & Hr). cbn [mbind option_bind]. destruct r as [m|]; [by destruct Hne; apply Hr|].
  destruct (route_result s F ws I Hok) as (nm & ->). cbn [mbind option_bind].
  destruct (i_refs s F I) as (RT & R & HR & Hk & Hsz). rewrite (refs_at s F ws RT Hok R HR). cbn [mbind option_bind].
  assert (exists rc, ref_entry F ws = Some rc /\ (m_ref_count rc =? 0) = false /\ rc = mkRefCount (path_at ws) (Z.of_nat (times (f_open F) ws)) (bool_decide (ws ∈ f_marked F))) as (rc & Er & Ec & Erc).
  { unfold ref_entry. destruct (times (f_open F) ws) eqn:E2; [lia|]. eexists. split; [done|]. split; [|done]. apply Z.eqb_neq. cbn [m_ref_count]. lia. }
  rewrite Er, Ec. destruct (MapProps.assign_result _ _ (render ws) (fun rc => mkRefCount (m_node_path rc) (m_ref_count rc) true) rc R) as (t & -> & R'); [by rewrite HR|].
  cbn [mbind option_bind]. exists t. split; [done|]. destruct I. constructor; try done; cbn [f_open f_marked f_next marked_at].
  - eexists. split; [exact R'|]. split_and!.
    + apply (refs_insert F); [done|done|..].
      * subst rc. unfold ref_entry. cbn [f_open f_marked m_node_path m_ref_count marked_at]. destruct (times (f_open F) ws) eqn:E2; [lia|]. rewrite bool_decide_true by set_solver. done.
      * intros us _ Hu. unfold ref_entry. cbn [f_open f_marked marked_at]. destruct (times _ us); [done|]. do 2 f_equal. apply bool_decide_ext. set_solver.
    + intros l rc'. destruct (decide (l = render ws)) as [->|Hl]; [by exists ws|]. rewrite lookup_insert_ne by done. apply Hk.
    + erewrite map_size_insert_Some; [done|]. rewrite HR by done. by exists rc.
  - intros us [->%elem_of_singleton|Hu]%elem_of_union; [done|]. auto.
Qed.

(** The mount point and a closed directory with something open inside are refused, and nothing changes. *)
Lemma delete_refused s F ws : inv s F -> path_ok ws -> ws = [] \/ times (f_open F) ws = 0%nat /\ inside_open (f_open F) ws = true ->
  delete_node s (path_at ws) = Some (ACCESS_DENIED, s).
Proof using.
  intros I Hok Hc. unfold delete_node. rewrite absolute_at, text_at. cbn [mbind option_bind negb].
  destruct (mounted_result s F ws I Hok) as (r & -> & Hr). cbn [mbind option_bind]. destruct r as [m|]; [done|].
  destruct Hc as [->|[Et Ei]]; [by destruct (proj2 Hr eq_refl)|]. destruct (route_result s F ws I Hok) as (nm & ->). cbn [mbind option_bind].
  destruct (i_refs s F I) as (RT & R & HR & _). rewrite (refs_at s F ws RT Hok R HR), (proj2 (ref_entry_none F ws) Et). cbn [mbind option_bind].
  destruct (open_below_result s F ws I Hok) as (frts & -> & Eb). cbn [mbind option_bind]. rewrite Eb, Ei. done.
Qed.

Lemma delete_result s F ws : inv s F -> path_ok ws ->
  match delete_at F ws with
  | Some (st, F') => exists s', delete_node s (path_at ws) = Some (st, s') /\ inv s' F'
  | None => delete_node s (path_at ws) = None
  end.
Proof using.
  intros I Hok. unfold delete_at. destruct (decide (ws = [])) as [E|E]; [exists s; split; [|done]; apply (delete_refused s F ws I Hok); by left|].
  destruct (0 <? times (f_open F) ws)%nat eqn:Et; [apply Nat.ltb_lt in Et|apply Nat.ltb_ge in Et; assert (times (f_open F) ws = 0%nat) as Et0 by lia].
  { destruct (delete_open s F ws I Hok E Et) as (t & Ed & I'). by exists (with_refs t s). }
  destruct (inside_open (f_open F) ws) eqn:Ei; [exists s; split; [|done]; apply (delete_refused s F ws I Hok); by right|].
  unfold delete_node. rewrite absolute_at, text_at. cbn [mbind option_bind negb].
  destruct (mounted_result s F ws I Hok) as (r & -> & Hr). cbn [mbind option_bind]. destruct r as [m|]; [by destruct E; apply Hr|].
  destruct (route_result s F ws I Hok) as (nm & ->). cbn [mbind option_bind m_mount_point m_mass_storage_device_handle].
  destruct (i_refs s F I) as (RT & R & HR & _). rewrite (refs_at s F ws RT Hok R HR), (proj2 (ref_entry_none F ws) Et0). cbn [mbind option_bind].
  destruct (open_below_result s F ws I Hok) as (frts & -> & Eb). cbn [mbind option_bind]. rewrite Eb, Ei. cbn [mbind option_bind].
  rewrite relative_root by done. cbn [mbind option_bind]. rewrite (i_world s F I).
  destruct (d_delete_node _ _ _ _) as [[st w]|]; [|done]. cbn [mbind option_bind]. eexists. split; [done|]. by apply inv_on_disk.
Qed.
Lemma ref_entry_same F F' us : times (f_open F') us = times (f_open F) us -> (us ∈ f_marked F' <-> us ∈ f_marked F) -> ref_entry F' us = ref_entry F us.
Proof using.
  intros Et Em. unfold ref_entry. rewrite Et. destruct (times (f_open F) us) as [|n]; [reflexivity|]. do 2 f_equal. by apply bool_decide_ext.
Qed.

Lemma ref_entry_some F ws n : times (f_open F) ws = Datatypes.S n ->
  ref_entry F ws = Some (mkRefCount (path_at ws) (Z.of_nat (Datatypes.S n)) (bool_decide (ws ∈ f_marked F))).
Proof using. intros E. unfold ref_entry. by rewrite E. Qed.

(** The reference table after one more handle was opened on a path. *)
Lemma count_open s F ws h RT : inv s F -> path_ok ws -> f_open F !! h = None -> MapProps.repr (node_ref_table s) RT ->
  (forall ws, path_ok ws -> RT !! render ws = ref_entry F ws) -> (forall l rc, RT !! l = Some rc -> exists ws, path_ok ws /\ l = render ws) ->
  Z.of_nat (base.size RT) <= f_next F -> f_next F + 1 < 2 ^ 16 -> forall F', f_open F' = <[h := ws]> (f_open F) -> f_marked F' = f_marked F -> f_next F' = f_next F + 1 ->
  exists t RT', match ref_entry F ws with
    | None => '(t, _) ← put (node_ref_table s) (render ws) (mkRefCount (path_at ws) 1 false); Some t
    | Some _ => assign (node_ref_table s) (render ws) (fun rc => mkRefCount (m_node_path rc) (u16 (m_ref_count rc + 1)) (m_delete_this rc))
    end = Some t /\ MapProps.repr t RT' /\ (forall ws, path_ok ws -> RT' !! render ws = ref_entry F' ws)
    /\ (forall l rc, RT' !! l = Some rc -> exists ws, path_ok ws /\ l = render ws) /\ Z.of_nat (base.size RT') <= f_next F'.
Proof using.
  intros I Hok Hh R HR Hk Hsz Hn F' Eo Em En. pose proof (times_le (f_open F) ws) as Hle. pose proof (i_size s F I) as Hs. pose proof (i_next s F I) as Hx.
  assert (forall us, path_ok us -> us <> ws -> ref_entry F' us = ref_entry F us) as Hne.
  { intros us _ Hu. apply ref_entry_same; [|by rewrite Em]. rewrite Eo, times_fresh by done. by rewrite decide_False by congruence. }
  assert (times (f_open F') ws = Datatypes.S (times (f_open F) ws)) as Et' by (rewrite Eo, times_fresh, decide_True by done; done).
  destruct (times (f_open F) ws) as [|n] eqn:Et.
  - pose proof (proj2 (ref_entry_none F ws) Et) as Er. rewrite Er.
    destruct (MapProps.put_result _ _ (render ws) (mkRefCount (path_at ws) 1 false) R) as (t & it & -> & R' & _); [by rewrite HR|lia|].
    cbn [mbind option_bind]. exists t. eexists. split; [done|]. split; [exact R'|]. split_and!.
    + apply (refs_insert F); [done|done| |done]. rewrite (ref_entry_some F' ws 0 Et'). do 2 f_equal. rewrite Em. apply bool_decide_eq_false.
      intros Hm. pose proof (i_marked s F I ws Hm). lia.
    + intros l rc. destruct (decide (l = render ws)) as [->|Hl]; [by exists ws|]. rewrite lookup_insert_ne by done. apply Hk.
    + rewrite map_size_insert_None by (by rewrite HR). lia.
  - pose proof (ref_entry_some F ws n Et) as Er. rewrite Er.
    destruct (MapProps.assign_result _ _ (render ws) (fun rc => mkRefCount (m_node_path rc) (u16 (m_ref_count rc + 1)) (m_delete_this rc)) _ R ltac:(rewrite HR by done; exact Er)) as (t & -> & R').
    exists t. eexists. split; [done|]. split; [exact R'|]. cbn [m_node_path m_ref_count m_delete_this]. split_and!.
    + apply (refs_insert F); [done|done| |done]. rewrite (ref_entry_some F' ws _ Et'), Em. do 2 f_equal. rewrite (wrap_small 16) by (unfold in_width; word_lia). lia.
    + intros l rc. destruct (decide (l = render ws)) as [->|Hl]; [by exists ws|]. rewrite lookup_insert_ne by done. apply Hk.
    + erewrite map_size_insert_Some; [lia|]. rewrite HR by done. eauto.
Qed.

Lemma vfs_open_result s F ws mode : inv s F -> path_ok ws -> f_next F + 1 < 2 ^ 16 ->
  match open_at F ws mode with
  | Some (st, h, F') => exists n s', open s (path_at ws) mode = Some (st, n, s') /\ n_handle <$> n = h /\ inv s' F'
  | None => open s (path_at ws) mode = None
  end.
Proof using.
  intros I Hok Hnext. unfold open_at, open. rewrite absolute_at. cbn [mbind option_bind negb].
  assert (HandleCounter.has_more (node_handle_counter s) = true) as -> by (unfold HandleCounter.has_more; apply Z.ltb_lt; lia). cbn [negb].
  destruct (route_result s F ws I Hok) as (nm & ->). cbn [mbind option_bind m_mount_point m_mass_storage_device_handle].
  pose proof (i_next s F I) as Hn0. unfold HandleCounter.acquire. rewrite (i_counter s F I), (wrap_small 16) by (unfold in_width; word_lia).
  rewrite relative_root by done. cbn [mbind option_bind world with_node_counter]. rewrite (i_world s F I).
  destruct (d_open _ _ _ _ _ _) as [[[st out] w]|]; [|done]. cbn [mbind option_bind].
  destruct (decide (st = OPENED)) as [->|Hst]; cycle 1.
  { assert (forall A (a b : A), match st with OPENED => a | _ => b end = b) as Hm by (by destruct st). rewrite !Hm. eexists _, _. split; [done|]. split; [done|].
    destruct I. constructor; try done. cbn. unfold HandleCounter.release_last_acquired. rewrite (proj2 (Z.ltb_lt _ _)) by lia. lia. }
  destruct out as [io|]; [|done]. cbn [mbind option_bind]. destruct (file_name_at ws Hok) as (name & ->). cbn [mbind option_bind].
  set (h := f_next F + 1) in *. assert (f_open F !! h = None) as Hh by (destruct (f_open F !! h) as [us|] eqn:E; [pose proof (i_open s F I h us E); lia|done]).
  destruct (i_nodes s F I) as (NT & RN & Hsn & HN). destruct (i_refs s F I) as (RT & R & HR & Hk & Hsz). pose proof (HN h) as HNh. rewrite Hh in HNh.
  destruct (MapProps.put_result _ _ h (mkOpenNode (N := N) h name (path_at ws) io) RN HNh ltac:(lia)) as (t & it & Ep & RN' & _). cbn [node_table with_world with_node_counter].
  rewrite Ep. cbn [mbind option_bind]. rewrite text_at. cbn [mbind option_bind node_ref_table fire with_nodes with_world with_node_counter].
  rewrite (refs_at s F ws RT Hok R HR). cbn [mbind option_bind].
  destruct (count_open s F ws h RT I Hok Hh R HR Hk Hsz Hnext (mkFiles w (<[h := ws]> (f_open F)) (f_marked F) h (f_events F ++ [(NODE_OPENED, h)])) eq_refl eq_refl eq_refl)
    as (t' & RT' & -> & R' & HR' & Hk' & Hsz'). cbn [mbind option_bind]. eexists _, _. split; [done|]. split; [done|].
  destruct I. constructor; cbn [f_world f_open f_marked f_next f_events]; try done.
  - cbn. by rewrite i_events0.
  - lia.
  - eexists. split; [exact RN'|]. split; [rewrite map_size_insert_None by done; lia|]. intros h'. destruct (decide (h' = h)) as [->|Hne].
    + rewrite !lookup_insert_eq. by eexists.
    + rewrite !lookup_insert_ne by done. apply HN.
  - by exists RT'.
  - intros h' us. destruct (decide (h' = h)) as [->|Hne]; [rewrite lookup_insert_eq; intros [= <-]; split; [lia|done]|].
    rewrite lookup_insert_ne by done. intros E. destruct (i_open0 h' us E). split; [lia|done].
  - rewrite map_size_insert_None by done. lia.
  - intros us Hu. rewrite times_fresh by done. pose proof (i_marked0 us Hu). lia.
Qed.
(** The table of nodes after a handle was closed. *)
Lemma nodes_delete F (NT : gmap Z (OpenNode (N := N))) t h : MapProps.repr t (delete h NT) -> Z.of_nat (base.size NT) <= f_next F ->
  (forall h, match f_open F !! h with
    | Some ws => exists n, NT !! h = Some n /\ n_handle n = h /\ n_captured n = path_at ws
    | None => NT !! h = None end) ->
  exists NT : gmap Z (OpenNode (N := N)), MapProps.repr t NT /\ Z.of_nat (base.size NT) <= f_next F /\ forall h',
    match delete h (f_open F) !! h' with
    | Some ws => exists n, NT !! h' = Some n /\ n_handle n = h' /\ n_captured n = path_at ws
    | None => NT !! h' = None end.
Proof using.
  intros R Hs HN. eexists. split; [exact R|]. split; [rewrite map_size_delete; destruct (NT !! h); cbn; lia|].
  intros h'. destruct (decide (h' = h)) as [->|Hne]; [by rewrite !lookup_delete_eq|]. rewrite !lookup_delete_ne by done. apply HN.
Qed.

(** What closing a handle leaves, whatever happens to the reference table. *)
Lemma inv_closed s F h ws t RT' t' marked : inv s F -> f_open F !! h = Some ws -> MapProps.repr t' RT' ->
  (forall NT, MapProps.repr (node_table s) NT -> MapProps.repr t (delete h NT)) ->
  (forall us, path_ok us -> RT' !! render us = ref_entry (mkFiles (f_world F) (delete h (f_open F)) marked (f_next F) (f_events F)) us) ->
  (forall l rc, RT' !! l = Some rc -> exists us, path_ok us /\ l = render us) -> Z.of_nat (base.size RT') <= f_next F ->
  (forall us, us ∈ marked -> us ∈ f_marked F /\ (us = ws -> (0 < times (delete h (f_open F)) ws)%nat)) ->
  inv (with_refs t' (fire NODE_CLOSED h (with_nodes t s))) (mkFiles (f_world F) (delete h (f_open F)) marked (f_next F) (f_events F ++ [(NODE_CLOSED, h)])).
Proof using.
  intros I Eh R' Ht HR' Hk' Hsz' Hm. destruct I. constructor; cbn [f_world f_open f_marked f_next f_events]; try done.
  - cbn. by rewrite i_events0.
  - destruct i_nodes0 as (NT & RN & Hsn & HN). exact (nodes_delete F NT t h (Ht NT RN) Hsn HN).
  - by exists RT'.
  - intros h' us Hl. apply lookup_delete_Some in Hl as [_ Hl]. by apply i_open0.
  - rewrite map_size_delete, Eh. cbn. lia.
  - intros us Hu. destruct (Hm us Hu) as [Hu' Hw]. destruct (decide (us = ws)) as [->|Hne]; [by apply Hw|].
    pose proof (i_marked0 us Hu') as Hp. rewrite (times_delete (f_open F) h us ws Eh), decide_False in Hp by congruence. done.
Qed.

Lemma close_result s F h : inv s F ->
  match close_at F h with
  | Some F' => exists s', close_node s h = Some s' /\ inv s' F'
  | None => close_node s h = None
  end.
Proof using.
  intros I. unfold close_at, close_node, find_node. destruct (i_nodes s F I) as (NT & RN & Hsn & HN). pose proof (HN h) as HNh.
  rewrite (Tables.lookup_result _ _ _ RN). cbn [mbind option_bind]. destruct (f_open F !! h) as [ws|] eqn:Eh; [|by rewrite HNh; exists s].
  destruct HNh as (n & -> & Hnh & Hcap). rewrite Hnh, Hcap. unfold on_close. pose proof (proj2 (i_open s F I h ws Eh)) as Hok.
  destruct (MapProps.remove_result _ _ h RN) as (t & Et0 & RN'). rewrite Et0. cbn [mbind option_bind]. rewrite text_at. cbn [mbind option_bind node_ref_table fire with_nodes].
  assert (forall NT', MapProps.repr (node_table s) NT' -> MapProps.repr t (delete h NT')) as Ht.
  { intros NT' R'. destruct (MapProps.remove_result _ _ h R') as (t' & Et' & R2). by simplify_eq. }
  destruct (i_refs s F I) as (RT & R & HR & Hk & Hsz). rewrite (refs_at s F ws RT Hok R HR). cbn [mbind option_bind].
  pose proof (times_delete (f_open F) h ws ws Eh) as Et. rewrite decide_True in Et by done. set (M := delete h (f_open F)) in *.
  pose proof (times_le (f_open F) ws) as Hle. pose proof (i_size s F I) as Hs. pose proof (i_next s F I) as Hx.
  pose proof (ref_entry_some F ws _ Et) as Er. rewrite Er. cbn [m_node_path m_ref_count m_delete_this].
  destruct (MapProps.assign_result _ _ (render ws) (fun rc => mkRefCount (m_node_path rc) (u16 (m_ref_count rc - 1)) (m_delete_this rc)) _ R ltac:(rewrite HR by done; exact Er)) as (t1 & -> & R1).
  cbn [mbind option_bind m_node_path m_ref_count m_delete_this] in R1 |- *.
  replace (Z.of_nat (Datatypes.S (times M ws)) - 1) with (Z.of_nat (times M ws)) in * by lia. rewrite (wrap_small 16) in * by (unfold in_width; word_lia).
  assert (forall us, us <> ws -> times M us = times (f_open F) us) as Hother.
  { intros us Hu. rewrite (times_delete (f_open F) h us ws Eh). by rewrite decide_False by congruence. }
  destruct (decide (times M ws = 0%nat)) as [E0|E0]; [rewrite E0; change (Z.of_nat 0 =? 0) with true|rewrite (proj2 (Z.eqb_neq _ _)) by lia]; cbn [node_ref_table with_refs].
  - destruct (MapProps.remove_result _ _ (render ws) R1) as (t2 & -> & R2). cbn [mbind option_bind]. rewrite delete_insert_eq in R2.
    set (F' := mkFiles (f_world F) M (f_marked F ∖ {[ws]}) (f_next F) (f_events F ++ [(NODE_CLOSED, h)])).
    assert (inv (with_refs t2 (fire NODE_CLOSED h (with_nodes t s))) F') as I'.
    { apply (inv_closed s F h ws t _ t2 _ I Eh R2 Ht).
      - apply (refs_delete F); [done|done|by apply ref_entry_none|]. intros us _ Hne. apply ref_entry_same; [by apply Hother|set_solver].
      - intros l rc Hl. apply lookup_delete_Some in Hl as [_ Hl]. by apply (Hk l rc).
      - rewrite map_size_delete. destruct (RT !! render ws); cbn; lia.
      - set_solver. }
    case_bool_decide as Em; [rewrite decide_True by done|rewrite decide_False by done; by eexists].
    pose proof (delete_result _ F' ws I' Hok) as Hd. destruct (delete_at F' ws) as [[st F2]|]; [destruct Hd as (s3 & Hd & I3); exists s3|];
      split_and?; try done; exact (f_equal (fun r => '(_, s) ← r; Some s) Hd).
  - eexists. split; [done|]. apply (inv_closed s F h ws t _ t1 _ I Eh R1 Ht).
    + apply (refs_insert F); [done|done| |].
      * destruct (times M ws) as [|m] eqn:Em; [done|]. exact (ref_entry_some (mkFiles _ M _ _ _) ws m Em).
      * intros us _ Hne. apply ref_entry_same; [by apply Hother|done].
    + intros l rc. destruct (decide (l = render ws)) as [->|Hl]; [by exists ws|]. rewrite lookup_insert_ne by done. apply Hk.
    + erewrite map_size_insert_Some; [done|]. rewrite HR by done. rewrite Er. eauto.
    + intros us Hu. split; [done|]. intros ->. fold M. lia.
Qed.
(** ** Sequences of calls *)
Inductive Op := Create ws (attributes : Z) | Open ws (mode : Node.IOMode) | Close h | Delete ws | IsOpen h.

Inductive Answer := AStatus (st : IOStatus) | AOpen (st : IOStatus) (handle : option Z) | AClosed | AIsOpen (b : bool).

Definition vfs_step s (o : Op) : option (VFSModule * Answer) :=
  match o with
  | Create ws a => '(st, s) ← create s (path_at ws) a; Some (s, AStatus st)
  | Open ws mode => '(st, n, s) ← open s (path_at ws) mode; Some (s, AOpen st (n_handle <$> n))
  | Close h => s ← close_node s h; Some (s, AClosed)
  | Delete ws => '(st, s) ← delete_node s (path_at ws); Some (s, AStatus st)
  | IsOpen h => n ← find_node s h; Some (s, AIsOpen (bool_decide (is_Some n)))
  end.

Definition files_step F (o : Op) : option (Files * Answer) :=
  match o with
  | Create ws a => '(st, F) ← create_at F ws a; Some (F, AStatus st)
  | Open ws mode => '(st, h, F) ← open_at F ws mode; Some (F, AOpen st h)
  | Close h => F ← close_at F h; Some (F, AClosed)
  | Delete ws => '(st, F) ← delete_at F ws; Some (F, AStatus st)
  | IsOpen h => Some (F, AIsOpen (bool_decide (is_Some (f_open F !! h))))
  end.

Fixpoint run {A B : Type} (step : A -> Op -> option (A * B)) (a : A) (os : list Op) : option (A * list B) :=
  match os with [] => Some (a, []) | o :: os => '(a, r) ← step a o; '(a, rs) ← run step a os; Some (a, r :: rs) end.

Definition op_ok (o : Op) : Prop := match o with Create ws _ | Open ws _ | Delete ws => path_ok ws | _ => True end.

Definition opens (os : list Op) : Z := zlen (filter (fun o => match o with Open _ _ => true | _ => false end = true) os).

Lemma opens_cons o os : opens (o :: os) = (match o with Open _ _ => 1 | _ => 0 end) + opens os.
Proof using. unfold opens. rewrite filter_cons. destruct o; cbn [decide]; try (rewrite decide_False by done; lia). rewrite decide_True by done. by rewrite zlen_cons. Qed.

Lemma delete_next F ws st F' : delete_at F ws = Some (st, F') -> f_next F' = f_next F.
Proof using.
  unfold delete_at. destruct (decide _); [by intros [= _ <-]|]. destruct (_ <? _)%nat; [by intros [= _ <-]|]. destruct (inside_open _ _); [by intros [= _ <-]|].
  destruct (d_delete_node _ _ _ _) as [[? ?]|]; [|done]. by intros [= _ <-].
Qed.

Lemma step_next F o F' r : files_step F o = Some (F', r) -> f_next F' <= f_next F + match o with Open _ _ => 1 | _ => 0 end.
Proof using.
  destruct o as [ws a|ws mode|h|ws|h]; cbn [files_step].
  - unfold create_at. destruct (decide _); [intros [= <- _]; lia|]. destruct (d_create _ _ _ _ _) as [[? ?]|]; [|done]. intros [= <- _]. cbn. lia.
  - unfold open_at. destruct (d_open _ _ _ _ _ _) as [[[st [out|]] w]|]; [| |done]; cbn [mbind option_bind]; destruct st; intros [= <- _]; cbn; lia.
  - unfold close_at. destruct (f_open F !! h); [|intros [= <- _]; lia]. destruct (decide _); [|intros [= <- _]; cbn; lia].
    destruct (decide _); [|intros [= <- _]; cbn; lia]. destruct (delete_at _ _) as [[st F2]|] eqn:E; [|done]. apply delete_next in E. intros [= <- _]. rewrite E. cbn. lia.
  - destruct (delete_at F ws) as [[st F2]|] eqn:E; [|done]. apply delete_next in E. intros [= <- _]. lia.
  - intros [= <- _]. lia.
Qed.

Lemma vfs_step_result s F o : inv s F -> op_ok o -> f_next F + match o with Open _ _ => 1 | _ => 0 end < 2 ^ 16 ->
  match files_step F o with
  | Some (F', r) => exists s', vfs_step s o = Some (s', r) /\ inv s' F'
  | None => vfs_step s o = None
  end.
Proof using.
  intros I Hok Hn. destruct o as [ws a|ws mode|h|ws|h]; cbn [files_step vfs_step op_ok] in *.
  - pose proof (create_result s F ws a I Hok) as Hc. destruct (create_at F ws a) as [[st F']|]; cbn [mbind option_bind]; [|by rewrite Hc].
    destruct Hc as (s' & -> & I'). by exists s'.
  - pose proof (vfs_open_result s F ws mode I Hok Hn) as Hc. destruct (open_at F ws mode) as [[[st h] F']|]; cbn [mbind option_bind]; [|by rewrite Hc].
    destruct Hc as (n & s' & -> & <- & I'). by exists s'.
  - pose proof (close_result s F h I) as Hc. destruct (close_at F h) as [F'|]; cbn [mbind option_bind]; [|by rewrite Hc].
    destruct Hc as (s' & -> & I'). by exists s'.
  - pose proof (delete_result s F ws I Hok) as Hc. destruct (delete_at F ws) as [[st F']|]; cbn [mbind option_bind]; [|by rewrite Hc].
    destruct Hc as (s' & -> & I'). by exists s'.
  - unfold find_node. destruct (i_nodes s F I) as (NT & RN & _ & HN). rewrite (Tables.lookup_result _ _ _ RN). cbn [mbind option_bind]. exists s. split; [|done].
    specialize (HN h). destruct (f_open F !! h) as [ws|]; [destruct HN as (n & -> & _)|rewrite HN]; [|done]. by rewrite !bool_decide_true by eauto.
Qed.

Lemma vfs_run_result os : forall s F, inv s F -> Forall op_ok os -> f_next F + opens os < 2 ^ 16 ->
  match run files_step F os with
  | Some (F', rs) => exists s', run vfs_step s os = Some (s', rs) /\ inv s' F'
  | None => run vfs_step s os = None
  end.
Proof using.
  induction os as [|o os IH]; intros s F I Hok Hn; cbn [run]; [by exists s|]. inversion Hok as [|? ? Ho Hos]; subst. rewrite opens_cons in Hn.
  assert (0 <= opens os) by (unfold opens; apply zlen_nonneg). pose proof (vfs_step_result s F o I Ho ltac:(destruct o; lia)) as Hs.
  destruct (files_step F o) as [[F1 r]|] eqn:E1; cbn [mbind option_bind]; [|by rewrite Hs]. destruct Hs as (s1 & -> & I1). cbn [mbind option_bind].
  apply step_next in E1. specialize (IH s1 F1 I1 Hos ltac:(lia)). destruct (run files_step F1 os) as [[F2 rs]|]; cbn [mbind option_bind]; [|by rewrite IH].
  destruct IH as (s2 & -> & I2). by exists s2.
Qed.
End files.
Arguments Files : clear implicits.
(** ** Starting the module *)
Section boot.
Context {W drv N S : Type} `{Drivers W drv N S}.
Implicit Types (s : VFSModule (W := W) (drv := drv) (N := N) (S := S)).

(** One driver is installed and the module is loaded. *)
Definition boot (w : W) (d : drv) (msd_list : list (Z * bool)) : option (bool * VFSModule (W := W) (drv := drv) (N := N) (S := S)) :=
  '(ok, s) ← install_driver (new_vfs w) (Some d); if (ok : bool) then load s msd_list else Some (false, s).

Definition nothing_open (w : W) (counter : Z) : Files W := mkFiles w ∅ ∅ counter [].

Lemma install_result w d : exists s, install_driver (new_vfs (N := N) (S := S) w) (Some d) = Some (true, s)
  /\ exists t, s = with_drivers t (new_vfs w) /\ MapProps.repr t {[ get_name d := d ]}.
Proof using.
  unfold install_driver. cbn [driver_table new_vfs]. rewrite (Tables.lookup_result _ _ _ MapProps.repr_empty). cbn [mbind option_bind driver_table new_vfs].
  rewrite lookup_empty. destruct (MapProps.put_result (K := list Z) (empty_map (V := drv)) ∅ (get_name d) d MapProps.repr_empty (lookup_empty _)) as (t & it & Ep & R & Hp); [by rewrite map_size_empty|].
  rewrite Ep. cbn [mbind option_bind]. unfold has_next, is_end. unfold pair_of in Hp. destruct (it_current it); [done|]. eexists. split; [done|].
  exists t. split; [done|]. by rewrite insert_empty in R.
Qed.

Lemma mount_root_result w d dev t s : MapProps.repr t {[ get_name d := d ]} -> mount (with_drivers t (new_vfs w)) (P [SEP]) dev = Some (MOUNTED, s) ->
  inv d dev s (nothing_open (world s) 0).
Proof using.
  intros Rt. unfold mount. change (P [SEP]) with (path_at []). rewrite absolute_at, root_at, text_at by (split; [constructor|done]).
  cbn [mbind option_bind negb mount_point_table with_drivers new_vfs driver_table]. change (HashMap.size empty_map =? 0) with true. cbn [andb negb].
  rewrite bool_decide_true by done. cbn [negb]. rewrite (Tables.lookup_result _ _ _ MapProps.repr_empty). cbn [mbind option_bind]. rewrite lookup_empty. cbn [negb].
  destruct (Tables.pairs_of_result _ _ Rt) as (l & -> & Hl). rewrite map_to_list_singleton in Hl. apply Permutation_singleton_r in Hl as ->.
  cbn [mbind option_bind mount_loop snd]. destruct (d_mount _ _ _) as [[ms w1]|]; [|done]. cbn [mbind option_bind].
  destruct (MapProps.put_result (K := list Z) (empty_map (V := MountPointInfo)) ∅ [SEP] (mkMountPoint (P [SEP]) (get_name d) dev) MapProps.repr_empty (lookup_empty _))
    as (m & it & Ep & R & _); [by rewrite map_size_empty|]. rewrite insert_empty in R.
  assert (forall s', ('(t, _) ← put (empty_map (K := list Z) (V := MountPointInfo)) (render []) (mkMountPoint (path_at []) (get_name d) dev); Some (MOUNTED, with_mounts t s')) = Some (MOUNTED, with_mounts m s')) as Em.
  { intros s'. exact (f_equal (fun r => '(t, _) ← r; Some (MOUNTED, with_mounts t s')) Ep). }
  intros E. assert (with_mounts m (with_world w1 (with_drivers t (new_vfs w))) = s) as <- by (destruct ms; try done; cbn in Em; rewrite Em in E; congruence).
  constructor; try done; cbn.
  - exists (get_name d). split; [done|]. exists {[get_name d := d]}. split; [done|]. apply lookup_singleton_eq.
  - exists ∅. split; [apply MapProps.repr_empty|]. split; [done|]. intros h. by rewrite lookup_empty.
  - exists ∅. split; [apply MapProps.repr_empty|]. split_and!; [intros ws _; by rewrite lookup_empty|intros l rc; by rewrite lookup_empty|done].
Qed.

Lemma create_keeps d dev s ws w attributes st s' : inv d dev s (nothing_open w 0) -> path_ok ws -> create s (path_at ws) attributes = Some (st, s') ->
  inv d dev s' (nothing_open (world s') 0).
Proof using.
  intros I Hok E. pose proof (create_result d dev s _ ws attributes I Hok) as Hc. destruct (create_at _ _ _ _ _) as [[st' F']|] eqn:Ec; [|congruence].
  destruct Hc as (s2 & Es & I2). assert (s2 = s') as -> by congruence. rewrite (i_world _ _ _ _ I2). unfold create_at in Ec.
  destruct (decide _); [by injection Ec as _ <-|]. destruct (d_create _ _ _ _ _) as [[? ?]|]; [|done]. by injection Ec as _ <-.
Qed.

Lemma boot_result w d msd_list s : boot w d msd_list = Some (true, s) -> exists dev, List.find snd msd_list = Some (dev, true) /\ inv d dev s (nothing_open (world s) 2).
Proof using.
  unfold boot. destruct (install_result w d) as (s0 & -> & t & -> & Rt). cbn [mbind option_bind]. unfold load.
  destruct (List.find snd msd_list) as [[dev b]|] eqn:Ef; [|done]. apply find_some in Ef as Ef'. destruct Ef' as [_ Hb]. cbn in Hb. subst b. destruct (dev =? 0); [done|].
  rewrite path_of_chars by (by repeat constructor). cbn [mbind option_bind]. destruct (mount _ _ dev) as [[ms s1]|] eqn:Em; [|done]. cbn [mbind option_bind].
  destruct ms; try done. pose proof (mount_root_result w d dev t s1 Rt Em) as I1. unfold create_system_directory.
  change (cstr [83; 121; 115; 116; 101; 109]) with (Some (KStringProps.StrProps.of_chars [83; 121; 115; 116; 101; 109])).
  change (cstr [76; 111; 103]) with (Some (KStringProps.StrProps.of_chars [76; 111; 103])). cbn [mbind option_bind].
  set (sys := [83; 121; 115; 116; 101; 109]). set (log := [76; 111; 103]).
  assert (append_path (P [SEP]) (of_chars sys) = Some (path_at [sys])) as -> by (vm_compute; reflexivity).
  assert (append_path (path_at [sys]) (of_chars log) = Some (path_at [sys; log])) as Elog by (vm_compute; reflexivity).
  assert (path_ok [sys] /\ path_ok [sys; log]) as [Hok1 Hok2] by (split; (split; [repeat constructor; discriminate|reflexivity])).
  cbn [mbind option_bind]. destruct (create s1 (path_at [sys]) _) as [[st2 s2]|] eqn:E2; [|done]. cbn [mbind option_bind].
  pose proof (create_keeps d dev s1 _ _ _ _ _ I1 Hok1 E2) as I2.
  destruct (negb _); [done|]. rewrite Elog. cbn [mbind option_bind]. destruct (create s2 (path_at [sys; log]) _) as [[st3 s3]|] eqn:E3; [|done]. cbn [mbind option_bind].
  pose proof (create_keeps d dev s2 _ _ _ _ _ I2 Hok2 E3) as I3. destruct (negb _); [done|]. intros Es. exists dev. split; [done|].
  cbn [HandleCounter.acquire] in Es. injection Es as <-. destruct I3. constructor; try done; cbn in *.
  - by rewrite i_counter0.
  - destruct i_nodes0 as (NT & RN & Hs & HN). exists NT. split; [done|]. split; [lia|done].
  - destruct i_refs0 as (RT & R & HR & Hk & Hs). exists RT. split_and!; [done|done|done|lia].
Qed.
End boot.
End OpenFiles.

(** ** What callers may rely on *)
Module VfsTheorems.
Import HashMap Path PathProps PathFacts Driver Vfs OpenFiles.

Section theorems.
Context {W drv N S : Type} `{Drivers W drv N S}.
Variables (w : W) (d : drv) (msd_list : list (Z * bool)) (dev : Z) (s0 : VFSModule (W := W) (drv := drv) (N := N) (S := S)).
Implicit Types (s : VFSModule (W := W) (drv := drv) (N := N) (S := S)).
Hypotheses (Hboot : boot w d msd_list = Some (true, s0)) (Hdev : List.find snd msd_list = Some (dev, true)).

Lemma boot_inv : inv d dev s0 (nothing_open (world s0) 2).
Proof using Hboot Hdev. destruct (boot_result _ _ _ _ Hboot) as (dev' & E & I). congruence. Qed.

(** A state reached by a sequence of calls has an abstract view. *)
Lemma reached os s rs : Forall op_ok os -> 2 + opens os < 2 ^ 16 -> run vfs_step s0 os = Some (s, rs) ->
  exists F, inv d dev s F /\ f_next F <= 2 + opens os.
Proof using Hboot Hdev.
  intros Hok Hn E. pose proof (vfs_run_result d dev os s0 _ boot_inv Hok Hn) as Hr.
  assert (forall os F F' rs, run (files_step d dev) F os = Some (F', rs) -> f_next F' <= f_next F + opens os) as Hnext.
  { clear. induction os as [|o os IH]; intros F F' rs E; cbn [run] in E; [injection E as <- _; change (opens []) with 0; lia|]. rewrite opens_cons.
    destruct (files_step d dev F o) as [[F1 r]|] eqn:E1; [|done]. cbn [mbind option_bind] in E. destruct (run _ F1 os) as [[F2 rs2]|] eqn:E2; [|done].
    cbn [mbind option_bind] in E. injection E as <- _. apply step_next in E1. specialize (IH F1 F2 rs2 E2). lia. }
  destruct (run (files_step d dev) _ os) as [[F rs']|] eqn:EF; [|congruence]. destruct Hr as (s' & Es & I). assert (s' = s) as -> by congruence.
  exists F. split; [done|]. exact (Hnext _ _ _ _ EF).
Qed.


(** The path of an open node. *)
Lemma open_path s F h n : inv d dev s F -> find_node s h = Some (Some n) -> exists us, f_open F !! h = Some us /\ n_captured n = path_at us /\ path_ok us.
Proof using.
  intros I E. destruct (i_nodes _ _ _ _ I) as (NT & RN & _ & HN). unfold find_node in E. rewrite (Tables.lookup_result _ _ _ RN) in E. injection E as E.
  specialize (HN h). destruct (f_open F !! h) as [us|] eqn:Eo; [|congruence]. destruct HN as (n' & E' & _ & Ec). exists us.
  split; [done|]. split; [congruence|]. exact (proj2 (i_open _ _ _ _ I h us Eo)).
Qed.

(** A handle of an open node on a path. *)
Definition handle_of s h ws : Prop := exists n, find_node s h = Some (Some n) /\ n_captured n = path_at ws.

Lemma handle_of_open s F h ws : inv d dev s F -> path_ok ws -> handle_of s h ws <-> f_open F !! h = Some ws.
Proof using.
  intros I Hok. split.
  - intros (n & E & Ec). destruct (open_path s F h n I E) as (us & Eo & Ec' & Hu).
    assert (ws = us) as ->; [|done]. apply path_at_inj; [done|done|congruence].
  - intros E. destruct (i_nodes _ _ _ _ I) as (NT & RN & _ & HN). specialize (HN h). rewrite E in HN. destruct HN as (n & En & _ & Ec).
    exists n. split; [|done]. unfold find_node. by rewrite (Tables.lookup_result _ _ _ RN), En.
Qed.

(** The entry of a path in the reference table. *)
Lemma refs_of s F ws : inv d dev s F -> path_ok ws -> lookup (node_ref_table s) (render ws) = Some (ref_entry F ws).
Proof using. intros I Hok. destruct (i_refs _ _ _ _ I) as (RT & R & HR & _). by apply (refs_at s F ws RT). Qed.

(** Nothing is open inside of the path. *)
Definition nothing_inside s ws : Prop := forall h us, path_ok us -> handle_of s h us -> ~ inside ws us.

(** C8: Whatever was called before, while a node is open its file stays on the disk. Deleting the path of the
    node, when nothing is open inside it, marks exactly its entry in the reference table, answers DELETED and
    changes nothing else (in particular the driver is not called); deleting a directory above it, other than the
    root, that is not open itself is refused with ACCESS_DENIED and changes nothing. *)
Theorem open_files_survive os s rs h n : Forall op_ok os -> 2 + opens os < 2 ^ 16 -> run vfs_step s0 os = Some (s, rs) ->
  find_node s h = Some (Some n) -> exists us, n_captured n = path_at us /\ path_ok us
    /\ (us <> [] -> nothing_inside s us -> exists t rc, delete_node s (path_at us) = Some (DELETED, with_refs t s)
          /\ lookup (node_ref_table s) (render us) = Some (Some rc) /\ 0 < m_ref_count rc
          /\ lookup t (render us) = Some (Some (mkRefCount (m_node_path rc) (m_ref_count rc) true))
          /\ forall vs, path_ok vs -> vs <> us -> lookup t (render vs) = lookup (node_ref_table s) (render vs))
    /\ forall ws, path_ok ws -> ws <> [] -> inside ws us -> (forall h', ~ handle_of s h' ws) ->
          delete_node s (path_at ws) = Some (ACCESS_DENIED, s).
Proof using Hboot Hdev.
  intros Hok Hn E Ef. destruct (reached os s rs Hok Hn E) as (F & I & _). destruct (open_path s F h n I Ef) as (us & Eo & Ec & Hu).
  exists us. split; [done|]. split; [done|]. pose proof (times_pos _ _ _ Eo) as Ht. split.
  - intros Hne _. destruct (delete_open d dev s F us I Hu Hne Ht) as (t & Ed & I'). destruct (times (f_open F) us) as [|m] eqn:Em; [lia|].
    exists t, (mkRefCount (path_at us) (Z.of_nat (Datatypes.S m)) (bool_decide (us ∈ f_marked F))). split; [done|].
    rewrite (refs_of s F us I Hu), (ref_entry_some _ _ _ Em). split; [done|]. split; [cbn; lia|].
    change t with (node_ref_table (with_refs t s)). rewrite (refs_of _ _ us I' Hu), (ref_entry_some _ _ m) by done.
    split; [cbn [f_marked marked_at]; by rewrite bool_decide_true by set_solver|].
    intros vs Hv Hvu. rewrite (refs_of _ _ vs I' Hv), (refs_of _ _ vs I Hv). f_equal. apply ref_entry_same; [done|]. cbn [f_marked marked_at]. set_solver.
  - intros ws Hw _ Hp Hnone. apply (delete_refused d dev s F ws I Hw). right. split.
    + apply times_zero. intros h' E'. by apply (Hnone h'), (handle_of_open s F h' ws I Hw).
    + unfold inside_open. apply bool_decide_true. by exists h, us.
Qed.

(** The last close of a marked path in which nothing is open. *)
Lemma last_close s F ws h st w' : inv d dev s F -> f_open F !! h = Some ws -> ws <> [] -> ws ∈ f_marked F ->
  (forall h' us, f_open F !! h' = Some us -> us = ws -> h' = h) -> (forall h' us, f_open F !! h' = Some us -> ~ inside ws us) ->
  d_delete_node (world s) d dev (P (relative ws)) = Some (st, w') ->
  exists s2 F2, close_node s h = Some s2 /\ inv d dev s2 F2 /\ world s2 = w' /\ f_open F2 = delete h (f_open F).
Proof using.
  intros I Eh Hne Hm Hlast Hin Ed. pose proof (close_result d dev s F h I) as Hc. unfold close_at in Hc. rewrite Eh in Hc.
  assert (times (delete h (f_open F)) ws = 0%nat) as E0.
  { apply times_zero. intros h' E. apply lookup_delete_Some in E as [Hh E]. by destruct Hh; symmetry; apply (Hlast h' ws). }
  rewrite decide_True in Hc by done. rewrite decide_True in Hc by done. unfold delete_at in Hc. rewrite decide_False in Hc by done.
  cbn [f_open f_world] in Hc. rewrite E0 in Hc. cbn [Nat.ltb Nat.leb] in Hc. unfold inside_open in Hc.
  rewrite bool_decide_false in Hc by (intros (h' & us & E & Hi); apply lookup_delete_Some in E as [_ E]; by apply (Hin h' us)).
  rewrite <- (i_world _ _ _ _ I), Ed in Hc. cbn [mbind option_bind] in Hc. destruct Hc as (s2 & Es & I2). exists s2. eexists. split; [done|]. split; [exact I2|].
  split; [|done]. by rewrite (i_world _ _ _ _ I2).
Qed.

(** Some handle is open on the path, now and after every one of the calls. *)
Fixpoint stays_open ws s (os : list Op) : Prop :=
  (exists h, handle_of s h ws) /\
  match os with
  | [] => True
  | o :: os => match vfs_step s o with Some (s, _) => stays_open ws s os | None => True end
  end.

(** A mark goes with the last close only. *)
Lemma mark_kept F o F' r ws : files_step d dev F o = Some (F', r) -> ws ∈ f_marked F -> times (f_open F') ws <> 0%nat -> ws ∈ f_marked F'.
Proof using.
  clear Hboot Hdev. intros E Hm Ht. destruct o as [us a|us mode|h|us|h]; cbn [files_step] in E.
  - unfold create_at in E. destruct (decide _); [by injection E as <- _|]. destruct (d_create _ _ _ _ _) as [[? ?]|]; [|done]. by injection E as <- _.
  - unfold open_at in E. destruct (d_open _ _ _ _ _ _) as [[[st [out|]] w']|]; [| |done]; cbn [mbind option_bind] in E; destruct st; first [done|by injection E as <- _].
  - unfold close_at in E. destruct (f_open F !! h) as [us|] eqn:Eh; [|by injection E as <- _].
    destruct (decide (times (delete h (f_open F)) us = 0%nat)) as [E0|E0]; [|by injection E as <- _].
    assert (forall F' : Files W, f_open F' = delete h (f_open F) -> f_marked F' = f_marked F ∖ {[us]} -> times (f_open F') ws <> 0%nat -> ws ∈ f_marked F') as Hkeep.
    { intros G -> -> Hg. apply elem_of_difference. split; [done|]. intros ->%elem_of_singleton. exact (Hg E0). }
    destruct (decide (us ∈ f_marked F)); [|injection E as <- _; by apply Hkeep]. unfold delete_at in E.
    destruct (decide (us = [])); [injection E as <- _; by apply Hkeep|]. cbn [f_open] in E. rewrite E0 in E. cbn [Nat.ltb Nat.leb] in E.
    destruct (inside_open _ _); [injection E as <- _; by apply Hkeep|]. destruct (d_delete_node _ _ _ _) as [[? ?]|]; [|done]. injection E as <- _. by apply Hkeep.
  - unfold delete_at in E. destruct (decide _); [by injection E as <- _|]. destruct (_ <? _)%nat; [injection E as <- _; cbn; set_solver|].
    destruct (inside_open _ _); [by injection E as <- _|]. destruct (d_delete_node _ _ _ _) as [[? ?]|]; [|done]. by injection E as <- _.
  - by injection E as <- _.
Qed.

Lemma opens_nonneg os : 0 <= opens os.
Proof using. unfold opens. apply zlen_nonneg. Qed.

(** The path stays marked as long as it stays open. *)
Lemma run_keeps_mark ws os : path_ok ws -> forall s F s' rs, inv d dev s F -> Forall op_ok os -> f_next F + opens os < 2 ^ 16 -> ws ∈ f_marked F ->
  stays_open ws s os -> run vfs_step s os = Some (s', rs) -> exists F', inv d dev s' F' /\ ws ∈ f_marked F'.
Proof using.
  intros Hws. induction os as [|o os IH]; intros s F s' rs I Hok Hn Hm Hs E; [injection E as <- _; by exists F|].
  apply Forall_cons in Hok as [Ho Hok]. rewrite opens_cons in Hn. pose proof (opens_nonneg os). cbn [run] in E. destruct Hs as [_ Hs].
  pose proof (vfs_step_result d dev s F o I Ho ltac:(destruct o; lia)) as Hstep.
  destruct (files_step d dev F o) as [[F1 r]|] eqn:E1; [|by rewrite Hstep in E]. destruct Hstep as (s1 & Es & I1). rewrite Es in E, Hs. cbn [mbind option_bind] in E.
  destruct (run vfs_step s1 os) as [[s2 rs2]|] eqn:E2; [|done]. cbn [mbind option_bind] in E. injection E as <- _.
  pose proof (step_next _ _ _ _ _ _ E1) as Hx. apply (IH s1 F1 s2 rs2 I1 Hok); [lia| |done|done]. apply (mark_kept F o F1 r ws E1 Hm).
  destruct os; destruct Hs as [[h' Hh] _]; apply (handle_of_open s1 F1 h' ws I1 Hws), times_pos in Hh; lia.
Qed.

(** A close that is not the last one of its path leaves the disk alone. *)
Lemma not_last_close s F ws h h' : inv d dev s F -> path_ok ws -> handle_of s h ws -> handle_of s h' ws -> h <> h' ->
  exists s', close_node s h = Some s' /\ world s' = world s.
Proof using.
  intros I Hok Hh Hh' Hne. apply (handle_of_open s F h ws I Hok) in Hh. apply (handle_of_open s F h' ws I Hok) in Hh'.
  pose proof (close_result d dev s F h I) as Hc. unfold close_at in Hc. rewrite Hh in Hc.
  rewrite decide_False in Hc by (intros E0; apply (proj1 (times_zero _ _) E0 h'); by rewrite lookup_delete_ne).
  destruct Hc as (s' & Es & I'). exists s'. split; [done|]. by rewrite (i_world _ _ _ _ I'), (i_world _ _ _ _ I).
Qed.

Lemma run_app (s : VFSModule (W := W) (drv := drv) (N := N) (S := S)) os1 os2 s1 rs1 s2 rs2 : run vfs_step s os1 = Some (s1, rs1) -> run vfs_step s1 os2 = Some (s2, rs2) ->
  run vfs_step s (os1 ++ os2) = Some (s2, rs1 ++ rs2).
Proof using.
  revert s rs1. induction os1 as [|o os1 IH]; intros s rs1 E1 E2; cbn [run app] in *; [by injection E1 as -> <-|].
  destruct (vfs_step s o) as [[s' r]|]; [|done]. cbn [mbind option_bind] in *. destruct (run vfs_step s' os1) as [[s'' rs']|] eqn:E; [|done].
  cbn [mbind option_bind] in E1. injection E1 as -> <-. by rewrite (IH s' rs' E E2).
Qed.

Lemma opens_app os1 os2 : opens (os1 ++ os2) = opens os1 + opens os2.
Proof using. unfold opens. by rewrite filter_app, zlen_app. Qed.

(** C16: A path that is deleted while it is open is deleted by the driver at the close of its last handle and
    not before. Between the two any calls may be made (opening it again, closing and deleting it and other
    paths), as long as a handle of the path stays open; nothing may be open inside it at the deletion and at the last
    close: a
    close that is not the last one leaves the disk as it is, the last one makes the call to the driver, and
    then no handle of the path is left. *)
Theorem marked_deleted_at_last_close os s rs ws os2 s1 rs1 h st w' : Forall op_ok (os ++ Delete ws :: os2) -> 2 + opens (os ++ Delete ws :: os2) < 2 ^ 16 ->
  run vfs_step s0 os = Some (s, rs) -> ws <> [] -> nothing_inside s ws -> stays_open ws s (Delete ws :: os2) -> run vfs_step s (Delete ws :: os2) = Some (s1, rs1) ->
  (forall h', handle_of s1 h' ws <-> h' = h) -> nothing_inside s1 ws ->
  d_delete_node (world s1) d dev (P (relative ws)) = Some (st, w') ->
  head rs1 = Some (AStatus DELETED)
    /\ (forall os' s' rs' h1 h2, os' `prefix_of` os2 -> run vfs_step s (Delete ws :: os') = Some (s', rs') -> handle_of s' h1 ws -> handle_of s' h2 ws -> h1 <> h2 ->
         exists s'', close_node s' h1 = Some s'' /\ world s'' = world s')
    /\ exists s2, close_node s1 h = Some s2 /\ world s2 = w' /\ forall h', ~ handle_of s2 h' ws.
Proof using Hboot Hdev.
  intros Hok Hn E Hne _ Hs E1 Hlast Hin Ed. pose proof Hok as [Hok1 [Hws Hok2]%Forall_cons]%Forall_app. cbn [op_ok] in Hws.
  rewrite opens_app, opens_cons in Hn. pose proof (opens_nonneg os2). pose proof (opens_nonneg os).
  destruct (reached os s rs Hok1 ltac:(lia) E) as (F & I & Hx).
  destruct Hs as [[h0 Hh0] Hs]. pose proof (proj1 (handle_of_open s F h0 ws I Hws) Hh0) as Ho0.
  destruct (delete_open d dev s F ws I Hws Hne (times_pos _ _ _ Ho0)) as (t & Edel & I').
  cbn [run vfs_step] in E1, Hs. rewrite Edel in E1, Hs. cbn [mbind option_bind] in E1, Hs.
  destruct (run vfs_step (with_refs t s) os2) as [[s1' rs1']|] eqn:E2; [|done]. cbn [mbind option_bind] in E1. injection E1 as -> <-.
  destruct (run_keeps_mark ws os2 Hws _ _ s1 rs1' I' Hok2 ltac:(cbn [f_next marked_at]; lia) ltac:(cbn [f_marked marked_at]; set_solver) Hs E2) as (F1 & I1 & Hm1).
  split; [done|]. split.
  - intros os' s' rs' h1 h2 [os3 ->] E' H1' H2' Hd. apply Forall_app in Hok2 as [Hok' _]. rewrite opens_app in Hn. pose proof (opens_nonneg os3).
    destruct (reached (os ++ Delete ws :: os') s' (rs ++ rs')) as (F' & I2 & _); [apply Forall_app; split; [exact Hok1|constructor; [exact Hws|exact Hok']]| |exact (run_app s0 os _ s rs s' rs' E E')|].
    { rewrite opens_app, opens_cons. lia. }
    by apply (not_last_close s' F' ws h1 h2).
  - destruct (last_close s1 F1 ws h st w' I1) as (s2 & F2 & Es2 & I2 & Ew2 & Eo2); [|done|done|..|done|].
    + by apply (handle_of_open s1 F1 h ws I1 Hws), Hlast.
    + intros h' us Eh ->. by apply Hlast, (handle_of_open s1 F1 h' ws I1 Hws).
    + intros h' us Eh. pose proof (proj2 (i_open _ _ _ _ I1 h' us Eh)) as Hu. by apply (Hin h' us Hu), (handle_of_open s1 F1 h' us I1 Hu).
    + exists s2. split; [done|]. split; [done|]. intros h' Hh. apply (handle_of_open s2 F2 h' ws I2 Hws) in Hh. rewrite Eo2 in Hh.
      apply lookup_delete_Some in Hh as [Hd Hh]. by apply Hd; symmetry; apply Hlast, (handle_of_open s1 F1 h' ws I1 Hws).
Qed.
End theorems.
End VfsTheorems.

(** ** A driver in memory

    The files are a list of paths. *)
Module VfsExample.
Import HashMap Path PathProps PathFacts Driver Vfs OpenFiles VfsTheorems.

#[export] Instance ram : Drivers (list (list Z)) unit unit unit := {
  get_name _ := [82; 65; 77];
  d_format _ _ _ := Some (FORMATTED, []);
  d_mount w _ _ := Some (MOUNTED, w);
  d_unmount w _ _ := Some (UNMOUNTED, w);
  d_is_valid_file_path _ _ _ := Some true;
  d_create w _ _ p _ := key ← text p; Some (if decide (key ∈ w) then (FOUND, w) else (CREATED, w ++ [key]));
  d_open w _ _ _ p _ := key ← text p; Some (if decide (key ∈ w) then (OPENED, Some tt, w) else (NOT_FOUND, None, w));
  d_find_node w _ _ p := key ← text p; Some (if decide (key ∈ w) then FOUND else NOT_FOUND, None);
  d_delete_node w _ _ p := key ← text p; Some (if decide (key ∈ w) then (DELETED, filter (fun k => k <> key) w) else (NOT_FOUND, w));
  d_open_directory_stream _ _ _ _ := Some (OPENED, Some tt);
  get_node_path _ := path_of [];
  get_size _ := 0;
  n_has_attribute _ _ := false }.

(** The second device is the first partition. *)
Definition devices : list (Z * bool) := [(3, false); (5, true)].

Definition started : VFSModule (W := list (list Z)) (drv := unit) (N := unit) (S := unit) :=
  match boot [] tt devices with Some (_, s) => s | None => new_vfs [] end.

Definition a : list (list Z) := [[97]].
Definition ab : list (list Z) := [[97]; [98]].

(** Two handles are opened on "/a/b"; deleting it and its directory, and closing both. *)
Definition calls : list Op :=
  [Create a 16; Create ab 0; Open ab Node.READ; Delete a; Open ab Node.READ; Delete ab; Close 3; IsOpen 4; Close 4; Open ab Node.READ; Delete a].

Definition answers : list Answer :=
  [AStatus CREATED; AStatus CREATED; AOpen OPENED (Some 3); AStatus ACCESS_DENIED; AOpen OPENED (Some 4); AStatus DELETED; AClosed; AIsOpen true; AClosed;
   AOpen NOT_FOUND None; AStatus DELETED].

Lemma a_ok : path_ok a.
Proof. split; [repeat constructor; discriminate|reflexivity]. Qed.

Lemma ab_ok : path_ok ab.
Proof. split; [repeat constructor; discriminate|reflexivity]. Qed.

Lemma calls_ok : Forall op_ok calls.
Proof. repeat constructor; first [exact a_ok|exact ab_ok|done]. Qed.

Lemma started_boot : boot [] tt devices = Some (true, started).
Proof. vm_compute. reflexivity. Qed.


(** Two handles on "/a/b". *)
Definition open_calls : list Op := [Create a 16; Create ab 0; Open ab Node.READ; Open ab Node.READ].

Definition opened : VFSModule (W := list (list Z)) (drv := unit) (N := unit) (S := unit) :=
  match run vfs_step started open_calls with Some (s, _) => s | None => started end.

Definition open_answers : list Answer :=
  [AStatus CREATED; AStatus CREATED; AOpen OPENED (Some 3); AOpen OPENED (Some 4)].

Lemma open_calls_ok : Forall op_ok open_calls.
Proof. repeat (constructor; [first [exact a_ok|exact ab_ok]|]). constructor. Qed.

Lemma opened_run : run vfs_step started open_calls = Some (opened, open_answers).
Proof. vm_compute. reflexivity. Qed.

Definition node_3 : OpenNode (N := unit) :=
  match find_node opened 3 with Some (Some n) => n | _ => mkOpenNode 0 (_path (path_at a)) (path_at a) tt end.

Lemma open_files_survive_witness : exists us, path_at ab = path_at us /\ path_ok us
  /\ (us <> [] -> nothing_inside opened us -> exists t rc, delete_node opened (path_at us) = Some (DELETED, with_refs t opened)
        /\ lookup (node_ref_table opened) (render us) = Some (Some rc) /\ 0 < m_ref_count rc
        /\ lookup t (render us) = Some (Some (mkRefCount (m_node_path rc) (m_ref_count rc) true))
        /\ forall vs, path_ok vs -> vs <> us -> lookup t (render vs) = lookup (node_ref_table opened) (render vs))
  /\ forall ws, path_ok ws -> ws <> [] -> inside ws us -> (forall h', ~ handle_of opened h' ws) ->
        delete_node opened (path_at ws) = Some (ACCESS_DENIED, opened).
Proof.
  apply (open_files_survive [] tt devices 5 started started_boot eq_refl open_calls opened open_answers 3 node_3 open_calls_ok eq_refl opened_run).
  vm_compute. reflexivity.
Defined.

(** What is open after some calls, for any handle. *)
Lemma handles_after os s rs M h ws : Forall op_ok os -> 2 + opens os < 2 ^ 16 -> run vfs_step started os = Some (s, rs) ->
  (fun x => f_open x.1) <$> run (files_step tt 5) (nothing_open (world started) 2) os = Some M -> path_ok ws -> handle_of s h ws <-> M !! h = Some ws.
Proof.
  intros Hok Hn Es E Hws. pose proof (vfs_run_result tt 5 os started _ (boot_inv [] tt devices 5 started started_boot eq_refl) Hok Hn) as Hr.
  destruct (run (files_step tt 5) _ os) as [[F rs']|]; [|discriminate E]. injection E as <-. destruct Hr as (s' & Es' & I).
  rewrite Es in Es'. apply (inj Some), pair_equal_spec in Es' as [<- _]. by apply (handle_of_open tt 5 s F).
Qed.

(** The path is deleted, one handle is closed, the path is opened and deleted again and the first handle is closed. *)
Definition while_open : list Op := [Close 4; Open ab Node.READ; Delete ab; Close 3].

Definition still_open : VFSModule (W := list (list Z)) (drv := unit) (N := unit) (S := unit) :=
  match run vfs_step opened (Delete ab :: while_open) with Some (s, _) => s | None => started end.

Lemma all_calls_ok : Forall op_ok (open_calls ++ Delete ab :: while_open).
Proof. repeat (constructor; [first [exact a_ok|exact ab_ok|exact I]|]). constructor. Qed.

Lemma still_open_handles h ws : path_ok ws -> handle_of still_open h ws <-> ({[5 := ab]} : gmap Z (list (list Z))) !! h = Some ws.
Proof.
  apply (handles_after (open_calls ++ Delete ab :: while_open) still_open
    (open_answers ++ [AStatus DELETED; AClosed; AOpen OPENED (Some 5); AStatus DELETED; AClosed]) _ h ws all_calls_ok).
  - reflexivity.
  - vm_compute. reflexivity.
  - vm_compute. reflexivity.
Qed.

Lemma opened_handles h ws : path_ok ws -> handle_of opened h ws <-> (<[3 := ab]> (<[4 := ab]> ∅) : gmap Z (list (list Z))) !! h = Some ws.
Proof.
  apply (handles_after open_calls opened open_answers _ h ws open_calls_ok); [reflexivity|exact opened_run|]. vm_compute. reflexivity.
Qed.

Lemma ab_stays_open : stays_open ab opened (Delete ab :: while_open).
Proof.
  split; [exists 3; eexists; split; [vm_compute; reflexivity|vm_compute; reflexivity]|]. unfold while_open.
  repeat (cbn [stays_open]; match goal with |- context [vfs_step ?s ?o] => let r := eval vm_compute in (vfs_step s o) in replace (vfs_step s o) with r by (vm_compute; reflexivity) end;
    split; [first [exists 5; eexists; split; [vm_compute; reflexivity|vm_compute; reflexivity]|exists 3; eexists; split; [vm_compute; reflexivity|vm_compute; reflexivity]]|]).
  exact I.
Qed.

Lemma marked_deleted_at_last_close_witness : exists s2, close_node still_open 5 = Some s2
  /\ world still_open = [[83; 121; 115; 116; 101; 109]; [83; 121; 115; 116; 101; 109; 47; 76; 111; 103]; [97]; [97; 47; 98]]
  /\ world s2 = [[83; 121; 115; 116; 101; 109]; [83; 121; 115; 116; 101; 109; 47; 76; 111; 103]; [97]].
Proof.
  destruct (marked_deleted_at_last_close [] tt devices 5 started started_boot eq_refl open_calls opened open_answers ab while_open still_open
    [AStatus DELETED; AClosed; AOpen OPENED (Some 5); AStatus DELETED; AClosed] 5 DELETED
    [[83; 121; 115; 116; 101; 109]; [83; 121; 115; 116; 101; 109; 47; 76; 111; 103]; [97]]) as (_ & _ & s2 & E & Ew & _).
  - exact all_calls_ok.
  - reflexivity.
  - exact opened_run.
  - discriminate.
  - intros h' us Hu Hh. apply (opened_handles h' us Hu) in Hh.
    repeat (apply lookup_insert_Some in Hh as [[_ <-]|[_ Hh]]; [by intros [_ Hn]|]). by rewrite lookup_empty in Hh.
  - exact ab_stays_open.
  - vm_compute. reflexivity.
  - intros h'. rewrite (still_open_handles h' ab ab_ok), lookup_singleton_Some. split; [by intros [-> _]|by intros ->].
  - intros h' us Hu Hh. apply (still_open_handles h' us Hu), lookup_singleton_Some in Hh as [_ <-]. intros [_ Hn]. exact (Hn eq_refl).
  - vm_compute. reflexivity.
  - exists s2. split; [exact E|]. split; [vm_compute; reflexivity|exact Ew].
Defined.

(** A directory is deleted while it and a file in it are open: the directory is closed before the file, the
    delayed deletion is refused, its mark is gone, and the directory, reported as deleted, stays. *)
Example directory_deletion_lost : (fun x => (x.2, bool_decide ([97] ∈ world x.1)))
    <$> run vfs_step started [Create a 16; Create ab 0; Open a Node.READ; Open ab Node.READ; Delete a; Close 3; Close 4; Open a Node.READ]
  = Some ([AStatus CREATED; AStatus CREATED; AOpen OPENED (Some 3); AOpen OPENED (Some 4); AStatus DELETED; AClosed; AClosed; AOpen OPENED (Some 5)], true).
Proof. vm_compute. reflexivity. Qed.

(** With a second mount point no path can be resolved any more: [common_path] reads lists that are gone. *)
Example second_mount_undefined : (r ← run vfs_step started [Create a 16]; '(st, s) ← mount r.1 (path_at a) 3; Some (st, bool_decide (is_Some (resolve s (path_at ab)))))
  = Some (MOUNTED, false).
Proof. vm_compute. reflexivity. Qed.

(** The last handle and the one after it: the counter wraps around to the handle of nothing and starts again. *)
Example handles_wrap : HandleCounter.has_more 65535 = true /\ HandleCounter.acquire 65535 = (0, 0) /\ HandleCounter.acquire 0 = (1, 1).
Proof. done. Qed.
End VfsExample.

(** ** The module on the FAT driver *)
Module VfsOnFat.
Import HashMap Path PathProps PathFacts Fat FAT32 RamDisk FileExample Directory Driver Vfs OpenFiles DirExample FatVfs.

(** The volume of the directory theorems: "/D" holds "F", and the root holds "ab". *)
Definition fat : Drivers (Driver.table * ram 2560) unit (Path * Node.FATNode) FATDirectoryIterator := fat_drivers (fun _ => None) 10 40 512 5.

Definition shelf_calls : list Op :=
  let f := [[68]; [70]] in let ab := [[97; 98]] in
  [Open f Node.READ; Delete [[68]]; Open ab Node.READ; Delete ab; Open ab Node.READ; Close 2; Close 3; Open ab Node.READ; Open f Node.READ].

(** A directory with an open file is kept; an open file is marked and the last close deletes it on the volume. *)
Example open_file_on_fat : (let _ := fat in '(_, s) ← install_driver (new_vfs (mounted, shelf)) (Some tt); '(st, s) ← mount s (path_at []) 7; '(_, rs) ← run vfs_step s shelf_calls; Some (st, rs))
  = Some (MOUNTED, [AOpen OPENED (Some 1); AStatus ACCESS_DENIED; AOpen OPENED (Some 2); AStatus DELETED; AOpen OPENED (Some 3); AClosed; AClosed;
      AOpen NOT_FOUND None; AOpen OPENED (Some 4)]).
Proof. vm_compute. reflexivity. Qed.
End VfsOnFat.
