(* ===== verification/VfsStream.v ===== *)
(** * VirtualFileSystem/FileStream.cpp: the buffered stream over an open node

    The node below is the class [StreamNode], the virtual functions of Node.h the stream calls; what a node
    reads is given as bytes.  A stream without a node holds a null pointer. *)

From S2P Require Import Prelude FatVolume FatFile.

Module FileStream.
Import Node.

Class StreamNode (N : Type) := {
  is_file : N -> bool;
  get_io_mode : N -> IOMode;
  is_closed : N -> bool;
  node_read : N -> Z -> NodeIOStatus * list Z * N;
  node_write : N -> list Z -> NodeIOStatus * Z * N;
  node_close : N -> N }.

Definition BUF_SIZE : Z := 512.

Section stream.
Context {N : Type} `{StreamNode N}.

Record FileStream := mkStream {
  _node : option N;
  _can_read : bool;
  _read_buf : list Z;
  _read_buf_size : Z;
  _read_buf_cursor : Z;
  _can_write : bool;
  _write_buf : list Z;
  _write_buf_size : Z }.

Implicit Types (s : FileStream).

Definition zero_buf : list Z := replicate (Z.to_nat BUF_SIZE) 0.

Definition new_stream (node : option N) : FileStream :=
  match node with
  | Some n =>
      if is_file n then
        mkStream node (match get_io_mode n with READ => true | _ => false end) zero_buf 0 0 (match get_io_mode n with READ => false | _ => true end) zero_buf 0
      else mkStream node false zero_buf 0 0 false zero_buf 0
  | None => mkStream None false zero_buf 0 0 false zero_buf 0
  end.

Definition is_read_supported s : bool := _can_read s.
Definition is_write_supported s : bool := _can_write s.

(** A [char] read is sign extended. *)
Definition as_int (c : Z) : Z := if c <? 128 then c else c - 256.

Definition next_char s : option (Z * FileStream) :=
  c ← aget (_read_buf s) (_read_buf_cursor s);
  Some (as_int c, mkStream (_node s) (_can_read s) (_read_buf s) (_read_buf_size s) (u64 (_read_buf_cursor s + 1)) (_can_write s) (_write_buf s) (_write_buf_size s)).

Definition read s : option (Z * FileStream) :=
  if negb (_can_read s) then Some (-1, s) else
  n ← _node s;
  if is_closed n then Some (-1, s) else
  if (_read_buf_size s =? 0) || (_read_buf_size s <=? _read_buf_cursor s) then
    if _read_buf_size s <? BUF_SIZE then Some (-1, s) else
    let '(st, bytes, n) := node_read n BUF_SIZE in
    let buf := bytes ++ drop (length bytes) zero_buf in
    let with_buf size cursor := mkStream (Some n) (_can_read s) buf size cursor (_can_write s) (_write_buf s) (_write_buf_size s) in
    match st with
    | OKAY => next_char (with_buf (zlen bytes) 0)
    | _ => Some (-1, with_buf (_read_buf_size s) (_read_buf_cursor s))
    end
  else next_char s.

Definition with_write (n : option N) (buf : list Z) (size : Z) s : FileStream :=
  mkStream n (_can_read s) (_read_buf s) (_read_buf_size s) (_read_buf_cursor s) (_can_write s) buf size.

(** The buffered bytes go to the node; how many it took is not looked at. *)
Definition buffered s : list Z := take (Z.to_nat (_write_buf_size s)) (_write_buf s).

Definition cleared s : list Z := replicate (Z.to_nat (_write_buf_size s)) 0 ++ drop (Z.to_nat (_write_buf_size s)) (_write_buf s).

Definition write s (value : Z) : option (bool * FileStream) :=
  if negb (_can_write s) then Some (false, s) else
  n ← _node s;
  if is_closed n then Some (false, s) else
  let put s := b ← aset (_write_buf s) (_write_buf_size s) value; Some (true, with_write (_node s) b (u64 (_write_buf_size s + 1)) s) in
  if BUF_SIZE <=? _write_buf_size s then
    let '(st, _, n) := node_write n (buffered s) in
    match st with
    | OKAY => put (with_write (Some n) (cleared s) 0 s)
    | _ => Some (false, with_write (Some n) (_write_buf s) (_write_buf_size s) s)
    end
  else put s.

Definition flush s : option FileStream :=
  n ← _node s;
  if is_closed n then Some s else
  let '(_, _, n) := node_write n (buffered s) in Some (with_write (Some n) (cleared s) 0 s).

Definition close s : option FileStream :=
  n ← _node s;
  if is_closed n then Some s else
  s ← flush s;
  n ← _node s; Some (with_write (Some (node_close n)) (_write_buf s) (_write_buf_size s) s).

(** Writing byte after byte, whatever the stream answers. *)
Fixpoint write_each s (values : list Z) : option (list bool * FileStream) :=
  match values with [] => Some ([], s) | v :: values => '(ok, s) ← write s v; '(oks, s) ← write_each s values; Some (ok :: oks, s) end.
End stream.
Arguments FileStream : clear implicits.
End FileStream.

Module StreamProps.
Import Node FileStream.

(** Any node, with the calls of [write] it got and what it answered. *)
Record logged (N : Type) := mkLogged { inner : N; calls : list (list Z * NodeIOStatus) }.
Arguments mkLogged {N}.
Arguments inner {N}.
Arguments calls {N}.

#[export] Instance logged_node {N} `{StreamNode N} : StreamNode (logged N) := {
  is_file l := is_file (inner l);
  get_io_mode l := get_io_mode (inner l);
  is_closed l := is_closed (inner l);
  node_read l size := let '(st, bytes, n) := node_read (inner l) size in (st, bytes, mkLogged n (calls l));
  node_write l bytes := let '(st, k, n) := node_write (inner l) bytes in (st, k, mkLogged n (calls l ++ [(bytes, st)]));
  node_close l := mkLogged (node_close (inner l)) (calls l) }.

(** The bytes of the calls that were answered OKAY. *)
Definition delivered (log : list (list Z * NodeIOStatus)) : list Z :=
  mjoin ((fun c => match c.2 with OKAY => c.1 | _ => [] end) <$> log).

Lemma delivered_snoc log bytes st : delivered (log ++ [(bytes, st)]) = delivered log ++ match st with OKAY => bytes | _ => [] end.
Proof. unfold delivered. rewrite fmap_app, join_app. cbn. by rewrite app_nil_r. Qed.

(** The bytes whose [write] answered true. *)
Fixpoint accepted (oks : list bool) (vs : list Z) : list Z :=
  match oks, vs with ok :: oks, v :: vs => (if ok then [v] else []) ++ accepted oks vs | _, _ => [] end.

Section props.
Context {N : Type} `{StreamNode N}.
Implicit Types (s : FileStream (logged N)) (l : logged N).

(** The delivered and the buffered bytes together are the accepted ones; only full buffers are delivered. *)
Record writing s (bytes : list Z) : Prop := {
  wr_can : _can_write s = true;
  wr_node : exists l, _node s = Some l /\ delivered (calls l) ++ buffered s = bytes /\ Forall (fun c => zlen c.1 = BUF_SIZE) (calls l);
  wr_buf : zlen (_write_buf s) = BUF_SIZE;
  wr_size : 0 <= _write_buf_size s <= BUF_SIZE }.

(** The node is open and has taken whatever it was given. *)
Definition untroubled s : Prop := exists l, _node s = Some l /\ is_closed l = false /\ Forall (fun c => c.2 = OKAY) (calls l).

Lemma buffered_put (b b' : list Z) size v : 0 <= size -> aset b size v = Some b' -> take (Z.to_nat (size + 1)) b' = take (Z.to_nat size) b ++ [v].
Proof using.
  intros Hs E. apply aset_Some in E as [Hi ->]. replace (Z.to_nat (size + 1)) with (S (Z.to_nat size)) by lia. unfold zlen in Hi.
  rewrite (take_S_r _ _ v) by (apply list_lookup_insert_eq; lia). by rewrite take_insert_ge.
Qed.

Lemma cleared_len s : zlen (_write_buf s) = BUF_SIZE -> 0 <= _write_buf_size s <= BUF_SIZE -> zlen (cleared s) = BUF_SIZE.
Proof using. intros Hb Hs. unfold cleared, zlen in *. rewrite length_app, length_replicate, length_drop. unfold BUF_SIZE in *. lia. Qed.

Lemma full_buffer s : zlen (_write_buf s) = BUF_SIZE -> _write_buf_size s = BUF_SIZE -> zlen (buffered s) = BUF_SIZE.
Proof using. intros Hb Hs. unfold buffered, zlen in *. rewrite length_take, Hs. unfold BUF_SIZE in *. lia. Qed.

(** One more byte into a buffer with room, over a node that has been given [log]. *)
Lemma stream_put_result s l b size v bytes : _can_write s = true -> 0 <= size < BUF_SIZE -> zlen b = BUF_SIZE ->
  delivered (calls l) ++ take (Z.to_nat size) b = bytes -> Forall (fun c => zlen c.1 = BUF_SIZE) (calls l) ->
  exists b', aset b size v = Some b' /\ writing (with_write (Some l) b' (u64 (size + 1)) s) (bytes ++ [v]).
Proof using.
  intros Hc Hs Hb <- Hl. unfold BUF_SIZE in *. destruct (aset_in b size v) as [b' Eb]; [lia|]. exists b'. split; [done|].
  rewrite (wrap_small 64) by (unfold in_width; word_lia). constructor; cbn [_can_write with_write _write_buf _write_buf_size _node]; unfold BUF_SIZE; [done| |by rewrite (aset_len _ _ _ _ Eb)|lia].
  exists l. split; [done|]. split; [|done]. unfold buffered. cbn [_write_buf _write_buf_size with_write].
  rewrite (buffered_put _ _ size v (proj1 Hs) Eb). by rewrite app_assoc.
Qed.

Lemma stream_write_result s bytes v : writing s bytes -> exists ok s', write s v = Some (ok, s') /\ writing s' (bytes ++ if ok then [v] else [])
  /\ (untroubled s' -> untroubled s /\ ok = true).
Proof using.
  intros [Hc (l & En & Ebs & Hl) Hb Hs]. unfold write. rewrite Hc, En. cbn [negb mbind option_bind]. destruct (is_closed l) eqn:Hcl.
  { exists false, s. split; [done|]. rewrite app_nil_r. split; [by constructor; [|exists l|..]|]. intros (l' & El' & Hcl' & _). exfalso. congruence. }
  destruct (BUF_SIZE <=? _write_buf_size s) eqn:E; bool_prop.
  - cbn [node_write logged_node]. destruct (node_write (inner l) (buffered s)) as [[st k] n'] eqn:Ew. set (l' := mkLogged n' (calls l ++ [(buffered s, st)])).
    assert (Forall (fun c => zlen c.1 = BUF_SIZE) (calls l')) as Hl'.
    { apply Forall_app. split; [done|]. constructor; [|constructor]. apply full_buffer; [done|lia]. }
    assert (delivered (calls l') = delivered (calls l) ++ match st with OKAY => buffered s | _ => [] end) as Ed by apply delivered_snoc.
    assert (st = OKAY \/ st <> OKAY) as [->|Hst] by (destruct st; first [by left|right; discriminate]).
    + destruct (stream_put_result (with_write (Some l') (cleared s) 0 s) l' (cleared s) 0 v bytes Hc) as (b' & Eb & Hw); [unfold BUF_SIZE; lia|by apply cleared_len|by rewrite Ed, Ebs, app_nil_r|done|].
      cbn [_write_buf _write_buf_size with_write]. rewrite Eb. cbn [mbind option_bind]. eexists true, _. split; [done|]. split; [exact Hw|].
      intros (l2 & [= <-] & _ & Hok). apply Forall_app in Hok as [Hok _]. split; [|done]. by exists l.
    + exists false, (with_write (Some l') (_write_buf s) (_write_buf_size s) s). split; [by destruct st|]. rewrite app_nil_r. split.
      * constructor; cbn [_can_write with_write _write_buf _write_buf_size _node]; [done| |done|done]. exists l'. split; [done|]. split; [|done].
        rewrite Ed. by destruct st; rewrite ?app_nil_r.
      * intros (l2 & [= <-] & _ & Hok). by apply Forall_app in Hok as [_ [Hok _]%Forall_cons].
  - destruct (stream_put_result s l (_write_buf s) (_write_buf_size s) v bytes Hc) as (b' & Eb & Hw); [unfold BUF_SIZE in *; lia|done|done|done|].
    rewrite Eb. cbn [mbind option_bind]. eexists true, _. split; [done|]. split; [exact Hw|]. intros (l2 & [= <-] & Hcl' & Hok). split; [|done]. by exists l.
Qed.

Lemma write_each_result vs : forall s bytes, writing s bytes -> exists oks s', write_each s vs = Some (oks, s') /\ writing s' (bytes ++ accepted oks vs)
  /\ length oks = length vs /\ (untroubled s' -> untroubled s /\ accepted oks vs = vs).
Proof using.
  induction vs as [|v vs IH]; intros s bytes Hw; cbn [write_each]; [exists [], s; rewrite app_nil_r; split_and!; done|].
  destruct (stream_write_result s bytes v Hw) as (ok & s1 & -> & Hw1 & Hu1). cbn [mbind option_bind].
  destruct (IH s1 _ Hw1) as (oks & s2 & -> & Hw2 & Hlen & Hu2). cbn [mbind option_bind]. exists (ok :: oks), s2. split; [done|]. cbn [accepted length].
  rewrite app_assoc. split; [done|]. split; [by rewrite Hlen|]. intros [Hu ->]%Hu2. destruct (Hu1 Hu) as [? ->]. done.
Qed.

(** C34: A stream over a file that is not opened for reading loses, repeats and reorders nothing, whatever the node
    below answers to its calls. After any number of bytes was offered one by one, the bytes of the calls the node
    answered with OKAY, in order and in pieces of a full buffer, followed by the bytes in the buffer are exactly the
    bytes whose write was answered with true, and those are all of them if the node is open and has answered every
    call with OKAY. Closing then makes one more call with the bytes of the buffer and closes the node; if the
    node has been closed before, nothing happens. *)
Theorem stream_delivers_bytes n vs : is_file n = true -> get_io_mode n <> READ ->
  exists oks s l, write_each (new_stream (Some (mkLogged n []))) vs = Some (oks, s) /\ length oks = length vs /\ _node s = Some l
    /\ delivered (calls l) ++ buffered s = accepted oks vs /\ Forall (fun c => zlen c.1 = BUF_SIZE) (calls l)
    /\ (is_closed l = false -> Forall (fun c => c.2 = OKAY) (calls l) -> accepted oks vs = vs)
    /\ exists s', close s = Some s' /\
        if is_closed l then s' = s
        else let '(st, _, n') := node_write (inner l) (buffered s) in _node s' = Some (mkLogged (node_close n') (calls l ++ [(buffered s, st)])) /\ buffered s' = [].
Proof using.
  intros Hf Hm. assert (writing (new_stream (Some (mkLogged n []))) []) as Hw.
  { unfold new_stream. cbn [is_file get_io_mode logged_node inner]. rewrite Hf. constructor; [by destruct (get_io_mode n)| |done|done]. by exists (mkLogged n []). }
  destruct (write_each_result vs _ _ Hw) as (oks & s & Es & [Hc (l & En & Ed & Hl) Hb Hs] & Hlen & Hu). exists oks, s, l.
  split; [done|]. split; [done|]. split; [done|]. split; [done|]. split; [done|]. split; [intros Hcl Hok; apply Hu; by exists l|].
  unfold close, flush. rewrite En. cbn [mbind option_bind]. destruct (is_closed l); [by exists s|]. cbn [node_write logged_node].
  destruct (node_write (inner l) (buffered s)) as [[st k] n']. eexists. split; [done|]. done.
Qed.

End props.

Section reading.
Context {N : Type} `{StreamNode N}.

(** Nothing is ever read: an empty buffer is taken for the end of the file. *)
Lemma read_nothing (s : FileStream N) : _read_buf_size s = 0 -> (_can_read s = true -> is_Some (_node s)) -> read s = Some (-1, s).
Proof using.
  intros E Hn. unfold read. destruct (_can_read s); [|done]. cbn [negb]. destruct (Hn eq_refl) as [n ->]. cbn [mbind option_bind]. destruct (is_closed n); [done|].
  rewrite E. done.
Qed.

(** A new stream reads nothing, whatever its file holds. *)
Lemma new_stream_reads_nothing (n : option N) : read (new_stream n) = Some (-1, new_stream n).
Proof using.
  apply read_nothing; unfold new_stream; destruct n as [n|]; [by destruct (is_file n)|done|intros _|done]. destruct (is_file n); eauto.
Qed.
End reading.
End StreamProps.

(** ** A file in memory

    Its device fails at the first call. *)
Module StreamExample.
Import Node FileStream StreamProps.

Record MemFile := mkMem { mode : IOMode; closed : bool; ready : bool; bytes : list Z }.

#[export] Instance mem_node : StreamNode MemFile := {
  is_file _ := true;
  get_io_mode := mode;
  is_closed := closed;
  node_read n size := (OKAY, take (Z.to_nat size) (bytes n), n);
  node_write n b := if ready n then (OKAY, zlen b, mkMem (mode n) (closed n) true (bytes n ++ b)) else (DEV_ERROR, 0, mkMem (mode n) (closed n) true (bytes n));
  node_close n := mkMem (mode n) true (ready n) (bytes n) }.

(** 514 bytes: the 513th finds the buffer full and is refused, the 514th is accepted after the buffer was taken. *)
Definition offered : list Z := replicate 512 7 ++ [8; 9].

Lemma stream_delivers_bytes_witness : exists oks s l, write_each (new_stream (Some (mkLogged (mkMem APPEND false false [1; 2]) []))) offered = Some (oks, s)
  /\ _node s = Some l /\ delivered (calls l) ++ buffered s = accepted oks offered /\ accepted oks offered = replicate 512 7 ++ [9]
  /\ exists s' l', close s = Some s' /\ _node s' = Some l' /\ bytes (inner l') = [1; 2] ++ replicate 512 7 ++ [9] /\ closed (inner l') = true.
Proof.
  destruct (stream_delivers_bytes (mkMem APPEND false false [1; 2]) offered) as (oks & s & l & E & _ & En & Ed & _ & _ & s' & Ec & Hc); [reflexivity|discriminate|].
  exists oks, s, l. split; [exact E|]. vm_compute in E. injection E as <- <-. injection En as <-. split; [reflexivity|]. split; [exact Ed|]. split; [vm_compute; reflexivity|].
  exists s'. vm_compute in Hc. destruct Hc as [Hn _]. eexists. split; [exact Ec|]. split; [exact Hn|]. split; [vm_compute; reflexivity|reflexivity].
Defined.

(** An answer that says fewer bytes were taken is not looked at. *)
Record Short := mkShort { taken : list Z }.

#[export] Instance short_node : StreamNode Short := {
  is_file _ := true;
  get_io_mode _ := APPEND;
  is_closed _ := false;
  node_read n size := (OKAY, [], n);
  node_write n b := (OKAY, 1, mkShort (taken n ++ take 1 b));
  node_close n := n }.

Example short_write_loses_bytes : (fun r => (r.1, taken <$> _node r.2)) <$> ('(oks, s) ← write_each (new_stream (Some (mkShort []))) [1; 2; 3]; s ← close s; Some (oks, s))
  = Some ([true; true; true], Some [1]).
Proof. vm_compute. reflexivity. Qed.
End StreamExample.
