(* ===== verification/SystemCalls.v ===== *)
(** * System calls: the kernel guardian and the memory bundle

    [Guard] models [SystemCall/KernelGuardian.cpp], which checks and copies the buffers an application passes
    to the kernel; [MemoryBundle] models the system calls of [SystemCall/MemoryBundle.cpp], by which an
    application maps and unmaps pages of its address space.  Bytes that are not mapped cannot be read or
    written. *)

From S2P Require Import Prelude Kre Memory Paging PagingProps Vmm VmmProps CLib.
Import Pg Addr Table PgBits Hier.

(** ** The kernel guardian *)
Module Guard.

Definition STRING_SIZE_LIMIT : Z := 128.

Section guard.
Context (kernel_memory_start : Z).

Definition verify_user_buffer (user_buf user_buf_size : Z) : bool :=
  negb (user_buf =? 0) && (u64 (user_buf + user_buf_size) <? kernel_memory_start).

(** The check of the copying functions. *)
Definition intersects_kernel (user_buf user_buf_size : Z) : bool :=
  (kernel_memory_start <=? user_buf) || (kernel_memory_start <=? u64 (user_buf + user_buf_size)).

Definition copy_byte_buffer_user_to_kernel (m : mem) (user_buf user_buf_size kernel_buf : Z) : option (bool * mem) :=
  if (user_buf =? 0) || (kernel_buf =? 0) then Some (false, m)
  else if intersects_kernel user_buf user_buf_size then Some (false, m)
  else m' ← Crl.memcpy m kernel_buf user_buf (Z.to_nat user_buf_size); Some (true, m').

Definition copy_byte_buffer_kernel_to_user (m : mem) (kernel_buf user_buf user_buf_size : Z) : option (bool * mem) :=
  if (user_buf =? 0) || (kernel_buf =? 0) then Some (false, m)
  else if intersects_kernel user_buf user_buf_size then Some (false, m)
  else m' ← Crl.memcpy m user_buf kernel_buf (Z.to_nat user_buf_size); Some (true, m').

(** The loop of [copy_string_user_to_kernel] from [c_pos] on; [size] never passes STRING_SIZE_LIMIT. *)
Fixpoint string_loop (fuel : nat) (m : mem) (c_pos size max_size : Z) : option Z :=
  match fuel with
  | O => None
  | S fuel' =>
      c ← m !! c_pos;
      if negb (c =? 0) && (size <? STRING_SIZE_LIMIT) then
        let size := size + 1 in
        if (0 <=? max_size) && (max_size <=? size) then Some size
        else string_loop fuel' m (c_pos + 1) size max_size
      else Some size
  end.

(** [max_size] is an [int]; it is sign-extended when it is added to the address. *)
Definition copy_string_user_to_kernel (m : mem) (user_str max_size kernel_str : Z) : option (bool * mem) :=
  if (user_str =? 0) || (kernel_str =? 0) then Some (false, m)
  else if intersects_kernel user_str max_size then Some (false, m)
  else
    size ← string_loop 129 m user_str 0 max_size;
    if STRING_SIZE_LIMIT <=? size then Some (false, m)
    else if (0 <=? max_size) && (max_size <? size) then Some (false, m)
    else
      m ← Crl.memcpy m kernel_str user_str (Z.to_nat (size + 1));
      m ← Crl.store m (kernel_str + size) 0;
      Some (true, m).
End guard.
End Guard.
Import Guard.

(** ** The memory bundle *)
Module MemoryBundle.

(** Ember::Status *)
Definition ST_OKAY : Z := 0.
Definition ST_BAD_ARG : Z := -1.
Definition ST_FAULT : Z := -2.

(** Ember::StatusCode is an [int]: a 64-bit value loses its upper half. *)
Definition to_status_code (x : Z) : Z := (x + 2 ^ 31) mod 2 ^ 32 - 2 ^ 31.

(** Of the active application only the heap. *)
Record App := mkApp { heap_start : Z; heap_limit : Z }.

Section bundle.
(** PHYSICAL_ADDRESS_WIDTH *)
Context (width : Z) {A : Type} `{FrameAllocator A}.
(** The address of the loaded base page table and the start of kernel memory. *)
Context (cr3 kernel_memory_start : Z).

Definition memory_get_page_size : Z := to_status_code get_page_size.

(** The search for a heap gap: the state is [gap_start] and [consecutive_free]. *)
Fixpoint gap_loop (fuel : nat) (m : gmap Z Z) (heap_limit num_pages c_addr gap_start consecutive_free : Z) : option Z :=
  match fuel with
  | O => None
  | S fuel' =>
      if c_addr <? heap_limit then
        pta ← find_page width m (interp_as_base_page_table cr3) c_addr;
        if decide (status pta = PAGE_TABLE_ENTRY_MISSING) then
          let gap_start := if consecutive_free =? 0 then c_addr else gap_start in
          let consecutive_free := u64 (consecutive_free + 1) in
          if consecutive_free =? num_pages then Some gap_start
          else gap_loop fuel' m heap_limit num_pages (u64 (c_addr + get_page_size)) gap_start consecutive_free
        else gap_loop fuel' m heap_limit num_pages (u64 (c_addr + get_page_size)) 0 0
      else Some gap_start
  end.

Definition heap_pages (app : App) : nat := S (S (Z.to_nat ((heap_limit app - heap_start app) / get_page_size))).

(** Where the kernel maps the pages when the application does not ask for an address. *)
Definition select_address (m : gmap Z Z) (app : App) (num_pages : Z) : option Z :=
  gap_start ← gap_loop (heap_pages app) m (heap_limit app) num_pages (heap_start app) 0 0;
  Some (if gap_start =? 0 then heap_limit app else gap_start).

(** The address rounded up to a page boundary. *)
Definition page_aligned (v_addr : Z) : option Z :=
  al ← memory_is_aligned v_addr get_page_size;
  if al : bool then Some v_addr else memory_align v_addr get_page_size true.

(** memset of [n] pages with zero: the processor finds the page frames through the loaded page tables. *)
Fixpoint zero_pages (n : nat) (m : gmap Z Z) (v_addr : Z) : option (gmap Z Z) :=
  match n with
  | O => Some m
  | S n' =>
      pta ← access_page_hierarchy width m (interp_as_base_page_table cr3) v_addr;
      if decide (status pta = OKAY) then
        m ← zero_page m (physical_address pta);
        zero_pages n' m (u64 (v_addr + get_page_size))
      else None
  end.

(** The loop that removes the write flag from the pages up to [end_]; [false] when a page has none. *)
Fixpoint protect_loop (fuel : nat) (s : machine A) (c_addr end_ : Z) : option (bool * machine A) :=
  match fuel with
  | O => None
  | S fuel' =>
      if c_addr <? end_ then
        '(pta, s) ← modify_page_flags width s (interp_as_base_page_table cr3) c_addr 2 false;
        if decide (status pta <> OKAY) then Some (false, s)
        else protect_loop fuel' s (u64 (c_addr + get_page_size)) end_
      else Some (true, s)
  end.

(** What [memory_allocate_page] does once the address is chosen. *)
Definition map_pages (s : machine A) (app : App) (kv_addr num_pages page_protection : Z)
    : option (Z * machine A * App) :=
  if 1 + 2 <? page_protection then Some (ST_BAD_ARG, s, app)
  else
    '(ok, s) ← Vmm.allocate_pages width cr3 s (interp_as_base_page_table cr3) kv_addr (Z.lor 1 (Z.lor 4 2))
                 (Z.to_nat num_pages);
    if negb ok then Some (ST_FAULT, s, app)
    else
      let size := u64 (num_pages * get_page_size) in
      m ← zero_pages (Z.to_nat (size / get_page_size)) (words s) kv_addr;
      let s := mkMachine A m (pmm s) in
      let end_ := u64 (kv_addr + size) in
      '(ok, s) ← (if Bits.bit_check page_protection 1 then Some (true, s)
                  else protect_loop (S (S (Z.to_nat (size / get_page_size)))) s kv_addr end_);
      if negb ok then Some (ST_FAULT, s, app)
      else Some (to_status_code kv_addr, s, mkApp (heap_start app) (Math.max end_ (heap_limit app))).

Definition memory_allocate_page (s : machine A) (app : App) (v_addr num_pages page_protection : Z)
    : option (Z * machine A * App) :=
  if v_addr =? 0 then
    kv_addr ← select_address (words s) app num_pages;
    map_pages s app kv_addr num_pages page_protection
  else
    kv_addr ← page_aligned v_addr;
    if negb (verify_user_buffer kernel_memory_start kv_addr (u64 (num_pages * get_page_size)))
    then Some (ST_BAD_ARG, s, app)
    else map_pages s app kv_addr num_pages page_protection.

Definition memory_free_page (s : machine A) (app : App) (v_addr num_pages : Z) : option (Z * machine A * App) :=
  kv_addr ← page_aligned v_addr;
  let size := u64 (num_pages * get_page_size) in
  if negb (verify_user_buffer kernel_memory_start kv_addr size) then Some (ST_BAD_ARG, s, app)
  else
    '(ok, s) ← Vmm.free_pages width cr3 s (interp_as_base_page_table cr3) kv_addr (Z.to_nat num_pages);
    if negb ok then Some (ST_FAULT, s, app)
    else
      let mem_region_end := u64 (kv_addr + size) in
      Some (ST_OKAY, s, if mem_region_end =? heap_limit app then mkApp (heap_start app) kv_addr else app).
End bundle.
End MemoryBundle.

(** ** Properties of the guardian *)
Module GuardProps.
Import Crl.

(** a buffer that does not wrap around the address space passes the check exactly if it is not null and
    ends before kernel memory. *)
Theorem verify_user_buffer_exact start addr size : 0 <= addr -> 0 <= size -> addr + size < 2 ^ 64 ->
  verify_user_buffer start addr size = true <-> addr <> 0 /\ addr + size < start.
Proof.
  intros Ha Hs Hw. unfold verify_user_buffer. rewrite wrap_small by (split; lia).
  rewrite andb_true_iff, negb_true_iff, Z.eqb_neq, Z.ltb_lt. done.
Qed.

Lemma verify_user_buffer_exact_witness :
  verify_user_buffer HHDM_BEGIN 0x400000 4096 = true <-> 0x400000 <> 0 /\ 0x400000 + 4096 < HHDM_BEGIN.
Proof. apply (verify_user_buffer_exact HHDM_BEGIN 0x400000 4096); done. Defined.

(** every kernel address passes the check with a suitable size: the sum of address and size wraps around
    to 0, which is below kernel memory. *)
Theorem kernel_buffer_verified start addr : 0 < start -> start <= addr < 2 ^ 64 ->
  verify_user_buffer start addr (2 ^ 64 - addr) = true.
Proof.
  intros Hs Ha. unfold verify_user_buffer. replace (addr + (2 ^ 64 - addr)) with (2 ^ 64) by lia.
  change (u64 (2 ^ 64)) with 0. rewrite andb_true_iff, negb_true_iff, Z.eqb_neq, Z.ltb_lt. lia.
Qed.

Lemma kernel_buffer_verified_witness : verify_user_buffer HHDM_BEGIN 0xFFFFFFFFFFFFF000 (2 ^ 64 - 0xFFFFFFFFFFFFF000) = true.
Proof. apply (kernel_buffer_verified HHDM_BEGIN 0xFFFFFFFFFFFFF000); by_compute. Defined.

(** copying a user buffer that ends before kernel memory delivers exactly its bytes; a buffer that begins in
    or runs into kernel memory is refused without a change. *)
Theorem user_buffer_copied start m user size kernel :
  0 < user -> 0 < kernel -> 0 <= size -> user + size < 2 ^ 64 ->
  mapped m kernel size -> mapped m user size -> user + size <= kernel \/ kernel + size <= user ->
  exists ok m', copy_byte_buffer_user_to_kernel start m user size kernel = Some (ok, m')
    /\ if user + size <? start then ok = true /\ copied m m' kernel user size else ok = false /\ m' = m.
Proof.
  intros Hu Hk Hs Hw Hmk Hmu Hd. unfold copy_byte_buffer_user_to_kernel, intersects_kernel.
  destruct (user =? 0) eqn:E1; [bool_prop; lia|]. destruct (kernel =? 0) eqn:E2; [bool_prop; lia|].
  cbn [orb]. rewrite wrap_small by (split; lia).
  destruct (user + size <? start) eqn:E; bool_prop.
  - destruct (start <=? user) eqn:E3; [bool_prop; lia|]. destruct (start <=? user + size) eqn:E4; [bool_prop; lia|].
    cbn [orb]. destruct (memcpy_spec (Z.to_nat size) m kernel user) as (m' & Hc & Hm');
      rewrite ?Z2Nat.id by lia; [done|done|lia|].
    rewrite Hc. cbn [mbind option_bind]. rewrite Z2Nat.id in Hm' by lia. by exists true, m'.
  - destruct (start <=? user + size) eqn:E4; [|bool_prop; lia]. rewrite orb_true_r. by exists false, m.
Qed.

(** A string within the given size is counted to its end, or up to the limit for strings. *)
Lemma string_loop_spec m max_size s : forall fuel p k, cstr_at m p s -> 0 <= k <= STRING_SIZE_LIMIT ->
  STRING_SIZE_LIMIT - k < Z.of_nat fuel -> max_size < 0 \/ k + zlen s <= max_size ->
  string_loop fuel m p k max_size = Some (Z.min STRING_SIZE_LIMIT (k + zlen s)).
Proof.
  change STRING_SIZE_LIMIT with 128.
  induction s as [|c s IH]; intros fuel p k [Hb Hnz] Hk Hf Hmax; (destruct fuel as [|fuel]; [lia|]);
    cbn [string_loop]; cbn [app bytes_at] in Hb; destruct Hb as [Hp Hb]; rewrite Hp; cbn [mbind option_bind].
  - change (zlen (@nil Z)) with 0. change (0 =? 0) with true. cbn [negb andb]. f_equal. lia.
  - inversion Hnz; subst. rewrite zlen_cons in *. pose proof (zlen_nonneg s).
    destruct (c =? 0) eqn:E; bool_prop; [done|]. change STRING_SIZE_LIMIT with 128.
    destruct (k <? 128) eqn:E2; bool_prop; cbn [negb andb]; [|f_equal; lia].
    destruct ((0 <=? max_size) && (max_size <=? k + 1)) eqn:E3.
    + apply andb_true_iff in E3 as [E4 E5]. bool_prop. f_equal. lia.
    + rewrite (IH fuel (p + 1) (k + 1)); [f_equal; lia|by split|lia|lia|]. lia.
Qed.

Lemma terminated_mapped m p s : cstr_at m p s -> mapped m p (zlen s + 1).
Proof.
  intros [Hb _] q Hq. pose proof (zlen_nonneg s).
  destruct (lookup_lt_is_Some_2 (s ++ [0]) (Z.to_nat (q - p))) as [b Hi]; [rewrite length_app; unfold zlen in *; cbn; lia|].
  exists b. rewrite <- (bytes_at_lookup _ _ _ _ _ Hb Hi). f_equal. lia.
Qed.


(** *** A small memory: the string "abc" at 16, a buffer at 64. *)
Definition mem0 : mem := list_to_map (zip (seqZ 16 4) [97; 98; 99; 0] ++ zip (seqZ 64 8) (replicate 8 0)).

Lemma mem0_mapped p n : Forall (fun q => is_Some (mem0 !! q)) (seqZ p n) -> mapped mem0 p n.
Proof. intros Hf q Hq. rewrite Forall_forall in Hf. apply Hf, elem_of_seqZ. lia. Qed.

Lemma user_buffer_copied_witness : exists m',
  copy_byte_buffer_user_to_kernel 32 mem0 16 4 64 = Some (true, m') /\ m' !! 65 = Some 98.
Proof.
  destruct (user_buffer_copied 32 mem0 16 4 64) as (ok & m' & Hrun & Hres); [done|done|done|done| | |left; done|].
  - apply mem0_mapped, (bool_decide_unpack _). vm_compute. exact I.
  - apply mem0_mapped, (bool_decide_unpack _). vm_compute. exact I.
  - change (16 + 4 <? 32) with true in Hres. destruct Hres as [-> Hc]. exists m'. split; [exact Hrun|].
    rewrite Hc. vm_compute. reflexivity.
Defined.


(** A string that is longer than the given size is not refused: it is cut. *)
Lemma long_string_cut : (fun r => (r.1, (fun q => r.2 !! q) <$> [64; 65; 66])) <$> copy_string_user_to_kernel 32 mem0 16 2 64
  = Some (true, [Some 97; Some 98; Some 0]).
Proof. vm_compute. reflexivity. Qed.

(** A string that begins before kernel memory is copied even where it runs into kernel memory: only the first
    address is checked when no size is given. *)
Lemma string_leaks_kernel : option_map fst (copy_string_user_to_kernel 17 mem0 16 (-1) 64) = Some true.
Proof. vm_compute. reflexivity. Qed.
End GuardProps.

(** ** Properties of the memory bundle *)
Module BundleProps.
Import MemoryBundle.

Section bundle.
Context (width : Z) (Hwidth : 12 <= width <= 47) (cr3 : Z).
Context {m : gmap Z Z} {T : gmap Z (nat * Z)} (Hh : hier width m cr3 T).

Lemma find_page_status v : exists r, find_page width m (interp_as_base_page_table cr3) v = Some r
  /\ (status r = PAGE_TABLE_ENTRY_MISSING <-> translate width m cr3 (page v) = None).
Proof using Hwidth Hh.
  destruct (access_spec width Hwidth _ _ _ v Hh) as (r & k & w & Hr & _ & F & ->).
  exists r. split; [exact Hr|]. rewrite (found_result _ _ _ _ _ _ _ _ _ F). cbn [status].
  destruct (present w); split; done.
Qed.

(** [n] pages from [g] on are not mapped, as far as they lie in the heap. *)
Definition heap_free (limit g n : Z) : Prop :=
  forall i, 0 <= i < n -> g + i * 4096 < limit -> translate width m cr3 (page (g + i * 4096)) = None.

Lemma gap_loop_spec first limit num_pages : 0 < first -> limit < 2 ^ 63 -> 0 < num_pages ->
  forall fuel c g cf, first <= c < limit + 4096 -> limit + 4096 <= c + 4096 * Z.of_nat fuel -> 0 <= cf < num_pages ->
  (cf = 0 -> g = 0) -> (0 < cf -> first <= g < limit /\ c = g + cf * 4096) -> heap_free limit g cf ->
  exists r, gap_loop width cr3 fuel m limit num_pages c g cf = Some r
    /\ (r = 0 \/ first <= r < limit /\ heap_free limit r num_pages).
Proof using Hwidth Hh.
  intros Hfirst Hlim Hnum. induction fuel as [|fuel IH]; intros c g cf Hc Hfuel Hcf Hz Hg Hfree; [lia|].
  cbn [gap_loop]. change get_page_size with 4096. destruct (c <? limit) eqn:E; bool_prop.
  2: { exists g. split; [done|]. destruct (decide (cf = 0)); [left; auto|]. right.
       destruct (Hg ltac:(lia)) as [Hg1 Hg2]. split; [done|]. intros i Hi Hl. apply Hfree; lia. }
  rewrite (wrap_small 64 (c + 4096)) by (unfold in_width; lia).
  destruct (find_page_status c) as (r & Hr & Hst). rewrite Hr. cbn [mbind option_bind].
  case_decide as Hd.
  2: { apply IH; try lia. intros i Hi. lia. }
  apply Hst in Hd. rewrite (wrap_small 64 (cf + 1)) by (unfold in_width; destruct (decide (cf = 0)); [lia|destruct (Hg ltac:(lia)); lia]).
  set (g' := if cf =? 0 then c else g).
  assert (first <= g' < limit /\ c + 4096 = g' + (cf + 1) * 4096) as Hg'.
  { unfold g'. destruct (cf =? 0) eqn:E2; bool_prop; [lia|]. destruct (Hg ltac:(lia)). lia. }
  assert (heap_free limit g' (cf + 1)) as Hfree'.
  { intros i Hi Hl. destruct (decide (i = cf)) as [->|].
    - replace (g' + cf * 4096) with c by lia. done.
    - unfold g' in *. destruct (cf =? 0) eqn:E2; bool_prop; [lia|]. apply Hfree; lia. }
  destruct (cf + 1 =? num_pages) eqn:E3; bool_prop.
  - exists g'. split; [done|]. right. split; [tauto|]. by rewrite <- E3.
  - apply IH; [lia|lia|lia|lia|intros _; exact Hg'|exact Hfree'].
Qed.

(** when an application does not ask for an address, the kernel always selects one, in the heap or at its
    end, and no page of the heap behind that address is mapped as far as the requested pages reach. *)
Theorem selected_address_is_free app num_pages :
  0 < heap_start app <= heap_limit app -> heap_limit app < 2 ^ 63 -> 0 < num_pages ->
  exists v, select_address width cr3 m app num_pages = Some v /\ heap_start app <= v <= heap_limit app
    /\ forall i, 0 <= i < num_pages -> v + i * 4096 < heap_limit app ->
         translate width m cr3 (page (v + i * 4096)) = None.
Proof using Hwidth Hh.
  intros Hs Hl Hn. unfold select_address.
  destruct (gap_loop_spec (heap_start app) (heap_limit app) num_pages ltac:(lia) Hl Hn (heap_pages app) (heap_start app) 0 0)
    as (r & Hr & Hres); [lia| |lia|done|lia|intros i; lia|].
  { unfold heap_pages. change get_page_size with 4096.
    pose proof (Z.div_mod (heap_limit app - heap_start app) 4096 ltac:(done)).
    pose proof (Z.mod_pos_bound (heap_limit app - heap_start app) 4096 ltac:(done)).
    pose proof (Z.div_pos (heap_limit app - heap_start app) 4096 ltac:(lia) ltac:(done)). lia. }
  rewrite Hr. cbn [mbind option_bind]. eexists. split; [reflexivity|].
  destruct (r =? 0) eqn:E; bool_prop.
  - split; [lia|]. intros i Hi Hlt. lia.
  - destruct Hres as [?|[Hr1 Hr2]]; [done|]. split; [lia|exact Hr2].
Qed.
End bundle.

(** A mapped address is answered as an [int]: from 2 GiB on the answer is not the address, and below 4 GiB it is an
    error code. *)
Theorem high_address_truncated v : 2 ^ 31 <= v < 2 ^ 32 -> to_status_code v < 0.
Proof.
  intros Hv. unfold to_status_code. rewrite <- (Z.mod_unique (v + 2 ^ 31) (2 ^ 32) 1 (v - 2 ^ 31)); lia.
Qed.

Lemma high_address_truncated_witness : to_status_code 0x80000000 < 0.
Proof. apply (high_address_truncated 0x80000000). by_compute. Defined.
End BundleProps.

(** *** Examples *)
Module BundleExample.
Import MemoryBundle BundleProps PagingExample PmmFrames VmmExample.

(** In [machine1] the page at 0x400000, the start of a heap of four pages, is mapped. *)
Lemma selected_address_is_free_witness : exists v,
  select_address 36 base0 (words machine1) (mkApp 0x400000 0x404000) 2 = Some v /\ 0x400000 <= v <= 0x404000.
Proof.
  destruct (selected_address_is_free 36 ltac:(lia) base0 hier1 (mkApp 0x400000 0x404000) 2) as (v & Hv & Hr & _);
    [by_compute..|].
  exists v. split; [exact Hv|exact Hr].
Defined.

(** The system call that frees pages unmaps a kernel page: at the page at the top of the address space the sum of
    address and size wraps around to 0. *)
Definition kernel_page : Z := 0xFFFFFFFFFFFFF000.

Lemma application_unmaps_kernel :
  translate 36 (words (one_page 511 511 511 511)) base0 (page kernel_page) = Some 0x6007
  /\ option_map (fun r => (fst (fst r), translate 36 (words (snd (fst r))) base0 (page kernel_page)))
       (memory_free_page 36 base0 HHDM_BEGIN (one_page 511 511 511 511) (mkApp 0x400000 0x404000) kernel_page 1)
     = Some (ST_OKAY, None).
Proof. split; vm_compute; reflexivity. Qed.
End BundleExample.
