(* ===== verification/AcpiUtil.v ===== *)
(** * ACPICA utilities: 64-bit arithmetic and number conversion

    Models [utilities/utmath.c] (the native variant [acrune.h] selects),
    [uthex.c], [utstrsuppt.c], [utstrtoul64.c], [utascii.c], parts of [utmisc.c] and [utprint.c], and the
    conversions of [executer/exutils.c].  A zero-terminated C string is the list of its
    bytes without the terminator; reading at its end gives [0].  [char] is signed, as on x86-64. *)

From S2P Require Import Prelude.

(** The exception codes the modelled functions return. *)
Inductive ACPI_STATUS :=
  | AE_OK | AE_ERROR | AE_NO_MEMORY | AE_NOT_FOUND | AE_ALREADY_EXISTS | AE_ALREADY_ACQUIRED
  | AE_NOT_ACQUIRED | AE_ACQUIRE_DEADLOCK | AE_BAD_PARAMETER | AE_BAD_PATHNAME | AE_BAD_CHARACTER
  | AE_NOT_EXIST | AE_TYPE | AE_NULL_ENTRY | AE_BUFFER_OVERFLOW | AE_LIMIT | AE_TIME | AE_SUPPORT
  | AE_OWNER_ID_LIMIT | AE_BAD_OCTAL_CONSTANT | AE_BAD_DECIMAL_CONSTANT | AE_BAD_HEX_CONSTANT
  | AE_NUMERIC_OVERFLOW | AE_OCTAL_OVERFLOW | AE_DECIMAL_OVERFLOW | AE_HEX_OVERFLOW
  | AE_AML_DIVIDE_BY_ZERO | AE_AML_MUTEX_ORDER | AE_AML_MUTEX_NOT_ACQUIRED | AE_AML_NOT_OWNER
  | AE_AML_INTERNAL | AE_AML_OPERAND_TYPE | AE_AML_BUFFER_LIMIT | AE_AML_BAD_RESOURCE_LENGTH
  | AE_AML_INVALID_RESOURCE_TYPE | AE_AML_NO_RESOURCE_END_TAG | AE_AML_ILLEGAL_ADDRESS
  | AE_AML_ALIGNMENT | AE_AML_REGION_LIMIT | AE_CTRL_TERMINATE | AE_CTRL_DEPTH | AE_BAD_ADDRESS
  | AE_RELEASE_DEADLOCK | AE_NO_NAMESPACE | AE_BAD_SIGNATURE | AE_BAD_CHECKSUM | AE_STACK_UNDERFLOW | AE_STACK_OVERFLOW.

#[export] Instance ACPI_STATUS_eq_dec : EqDecision ACPI_STATUS.
Proof. solve_decision. Defined.

(** ** Characters *)

Definition schar (b : Z) : Z := if b <? 128 then b else b - 256.

(** The character at the start of a string, [0] at its end. *)
Definition hd0 (s : list Z) : Z := match s with [] => 0 | c :: _ => c end.

Definition isdigit (c : Z) : bool := (48 <=? c) && (c <=? 57).

Definition isspace (c : Z) : bool :=
  (c =? 32) || (c =? 9) || (c =? 13) || (c =? 10) || (c =? 11) || (c =? 12).

Definition isxdigit (c : Z) : bool :=
  ((48 <=? c) && (c <=? 57)) || ((65 <=? c) && (c <=? 70)) || ((97 <=? c) && (c <=? 102)).

Definition isprint (c : Z) : bool := (32 <=? c) && (c <=? 127).

(** [tolower] and [toupper] of one character. *)
Definition tolower (c : Z) : Z := if (65 <=? c) && (c <=? 90) then c + 32 else c.

Definition toupper (c : Z) : Z := if (97 <=? c) && (c <=? 122) then c - 32 else c.

Definition ACPI_IS_OCTAL_DIGIT (c : Z) : bool := (48 <=? c) && (c <=? 55).

Definition ACPI_UINT64_MAX : Z := 2 ^ 64 - 1.

Definition ACPI_UINT32_MAX : Z := 2 ^ 32 - 1.

(** ** 64-bit arithmetic (utmath.c) *)
Module Math64.
Definition AcpiUtShortMultiply (Multiplicand Multiplier : Z) : ACPI_STATUS * Z :=
  (AE_OK, u64 (Multiplicand * Multiplier)).

(** Shifting by 64 or more is undefined. *)
Definition AcpiUtShortShiftLeft (Operand Count : Z) : option (ACPI_STATUS * Z) :=
  if Count <? 64 then Some (AE_OK, u64 (Z.shiftl Operand Count)) else None.

Definition AcpiUtShortShiftRight (Operand Count : Z) : option (ACPI_STATUS * Z) :=
  if Count <? 64 then Some (AE_OK, Z.shiftr Operand Count) else None.

(** The quotient and the remainder, which are not written on an error. *)
Definition AcpiUtShortDivide (InDividend Divisor : Z) : ACPI_STATUS * option (Z * Z) :=
  if Divisor =? 0 then (AE_AML_DIVIDE_BY_ZERO, None)
  else (AE_OK, Some (InDividend / Divisor, u32 (InDividend mod Divisor))).

Definition AcpiUtDivide (InDividend InDivisor : Z) : ACPI_STATUS * option (Z * Z) :=
  if InDivisor =? 0 then (AE_AML_DIVIDE_BY_ZERO, None)
  else (AE_OK, Some (InDividend / InDivisor, InDividend mod InDivisor)).

Definition AcpiUtDwordByteSwap (Value : Z) : Z :=
  Z.lor (Z.land (Z.shiftr Value 24) 255)
    (Z.lor (Z.shiftl (Z.land (Z.shiftr Value 16) 255) 8)
      (Z.lor (Z.shiftl (Z.land (Z.shiftr Value 8) 255) 16) (Z.shiftl (Z.land Value 255) 24))).
End Math64.
Export Math64.

(** ** Hexadecimal digits (uthex.c) *)
Module Hex.
Definition AcpiGbl_HexToAscii : list Z := [48; 49; 50; 51; 52; 53; 54; 55; 56; 57; 65; 66; 67; 68; 69; 70].

Definition AcpiUtHexToAsciiChar (Integer Position : Z) : option Z :=
  '(_, Index) ← AcpiUtShortShiftRight Integer Position;
  aget AcpiGbl_HexToAscii (Z.land Index 15).

Definition AcpiUtAsciiCharToHex (HexChar : Z) : Z :=
  if HexChar <=? 57 then u8 (HexChar - 48)
  else if HexChar <=? 70 then u8 (HexChar - 55) else u8 (HexChar - 87).

(** The status and the byte, which is not written on an error. *)
Definition AcpiUtAsciiToHexByte (c0 c1 : Z) : ACPI_STATUS * option Z :=
  if negb (isxdigit (schar c0)) || negb (isxdigit (schar c1)) then (AE_BAD_HEX_CONSTANT, None)
  else (AE_OK, Some (u8 (Z.lor (AcpiUtAsciiCharToHex (schar c1))
                           (Z.shiftl (AcpiUtAsciiCharToHex (schar c0)) 4)))).

Lemma hex_digit_roundtrip d : 0 <= d < 16 ->
  exists c, AcpiUtHexToAsciiChar d 0 = Some c /\ AcpiUtAsciiCharToHex c = d /\ isxdigit c = true.
Proof.
  intros Hd. assert (d ∈ seqZ 0 16) as Hin by (apply elem_of_seqZ; lia).
  repeat (apply elem_of_cons in Hin as [->|Hin]; [eexists; split; [reflexivity|done]|]).
  by apply not_elem_of_nil in Hin.
Qed.

Lemma xdigit_value c : isxdigit c = true -> 0 <= AcpiUtAsciiCharToHex c < 16.
Proof.
  intros Hc. unfold isxdigit in Hc. unfold AcpiUtAsciiCharToHex.
  destruct (c <=? 57) eqn:E1; [|destruct (c <=? 70) eqn:E2]; bool_prop;
    rewrite wrap_small; rewrite ?orb_true_iff, ?andb_true_iff, ?Z.leb_le in Hc; word_lia.
Qed.

Lemma xdigit_schar c : 0 <= c < 256 -> isxdigit (schar c) = isxdigit c.
Proof.
  intros Hc. unfold schar. destruct (c <? 128) eqn:E; [done|]. bool_prop. unfold isxdigit.
  repeat match goal with |- context [?a <=? ?b] => destruct (Z.leb_spec a b); cbn end; lia || done.
Qed.
End Hex.
Export Hex.

(** ** Strings to integers (utstrsuppt.c, utstrtoul64.c) *)
Module Strtoul.
Section width.
  (** [AcpiGbl_IntegerBitWidth] *)
  Context (AcpiGbl_IntegerBitWidth : Z).

Definition AcpiUtStrtoulMultiply64 (Multiplicand Base : Z) : ACPI_STATUS * Z :=
  if (Multiplicand =? 0) || (Base =? 0) then (AE_OK, 0)
  else
    match AcpiUtShortDivide ACPI_UINT64_MAX Base with
    | (_, None) => (AE_ERROR, 0)   (* not reached: Base is not zero *)
    | (_, Some (Quotient, _)) =>
        if Quotient <? Multiplicand then (AE_NUMERIC_OVERFLOW, 0)
        else
          let Product := u64 (Multiplicand * Base) in
          if (AcpiGbl_IntegerBitWidth =? 32) && (ACPI_UINT32_MAX <? Product)
          then (AE_NUMERIC_OVERFLOW, 0) else (AE_OK, Product)
    end.

(** The sum is [None] when it is not written. *)
Definition AcpiUtStrtoulAdd64 (Addend1 Digit : Z) : ACPI_STATUS * option Z :=
  if (0 <? Addend1) && (ACPI_UINT64_MAX - Addend1 <? Digit) then (AE_NUMERIC_OVERFLOW, None)
  else
    let Sum := u64 (Addend1 + Digit) in
    if (AcpiGbl_IntegerBitWidth =? 32) && (ACPI_UINT32_MAX <? Sum)
    then (AE_NUMERIC_OVERFLOW, None) else (AE_OK, Some Sum).

Definition AcpiUtInsertDigit (AccumulatedValue Base AsciiDigit : Z) : ACPI_STATUS * Z :=
  match AcpiUtStrtoulMultiply64 AccumulatedValue Base with
  | (AE_OK, Product) =>
      let '(Status, Sum) := AcpiUtStrtoulAdd64 Product (AcpiUtAsciiCharToHex AsciiDigit) in
      (Status, default AccumulatedValue Sum)
  | (Status, _) => (Status, AccumulatedValue)
  end.

(** The loop the three conversions share: which characters are digits, the base
    and the code for an overflow differ. *)
Fixpoint convert_loop (is_digit : Z -> bool) (Base : Z) (overflow : ACPI_STATUS)
    (String : list Z) (AccumulatedValue : Z) : ACPI_STATUS * Z :=
  match String with
  | [] => (AE_OK, AccumulatedValue)
  | c :: String' =>
      if negb (is_digit (schar c)) then (AE_OK, AccumulatedValue)
      else
        match AcpiUtInsertDigit AccumulatedValue Base (schar c) with
        | (AE_OK, acc) => convert_loop is_digit Base overflow String' acc
        | (_, acc) => (overflow, acc)
        end
  end.

Definition AcpiUtConvertOctalString (String : list Z) : ACPI_STATUS * Z :=
  convert_loop ACPI_IS_OCTAL_DIGIT 8 AE_OCTAL_OVERFLOW String 0.

Definition AcpiUtConvertDecimalString (String : list Z) : ACPI_STATUS * Z :=
  convert_loop isdigit 10 AE_DECIMAL_OVERFLOW String 0.

Definition AcpiUtConvertHexString (String : list Z) : ACPI_STATUS * Z :=
  convert_loop isxdigit 16 AE_HEX_OVERFLOW String 0.
End width.

(** The functions below move the string pointer: they return the character they
    stop at and the rest of the string. *)
Fixpoint AcpiUtRemoveLeadingZeros (String : list Z) : Z * list Z :=
  match String with
  | c :: String' => if schar c =? 48 then AcpiUtRemoveLeadingZeros String' else (schar c, String)
  | [] => (0, [])
  end.

Fixpoint AcpiUtRemoveWhitespace (String : list Z) : Z * list Z :=
  match String with
  | c :: String' => if isspace (u8 c) then AcpiUtRemoveWhitespace String' else (schar c, String)
  | [] => (0, [])
  end.

Definition AcpiUtRemoveHexPrefix (String : list Z) : list Z :=
  match String with
  | c :: String' =>
      if (schar c =? 48) && (tolower (schar (hd0 String')) =? 120) then tail String' else String
  | [] => []
  end.

Definition AcpiUtDetectHexPrefix (String : list Z) : bool * list Z :=
  let String' := AcpiUtRemoveHexPrefix String in
  (negb (length String' =? length String)%nat, String').

Definition AcpiUtDetectOctalPrefix (String : list Z) : bool * list Z :=
  match String with
  | c :: String' => if schar c =? 48 then (true, String') else (false, String)
  | [] => (false, [])
  end.

(** Always a 64-bit conversion: the global width is set to 64 and restored. *)
Definition AcpiUtStrtoul64 (String : list Z) : ACPI_STATUS * Z :=
  if hd0 String =? 0 then (AE_OK, 0) else
  let '(c, String) := AcpiUtRemoveWhitespace String in
  if c =? 0 then (AE_OK, 0) else
  let '(Base, String) :=
    match AcpiUtDetectHexPrefix String with
    | (true, s) => (16, s)
    | (false, s) => match AcpiUtDetectOctalPrefix s with (true, s) => (8, s) | (false, s) => (10, s) end
    end in
  let '(c, String) := AcpiUtRemoveLeadingZeros String in
  if c =? 0 then (AE_OK, 0) else
  if Base =? 8 then AcpiUtConvertOctalString 64 String
  else if Base =? 10 then AcpiUtConvertDecimalString 64 String
  else AcpiUtConvertHexString 64 String.

Definition AcpiUtImplicitStrtoul64 (width : Z) (String : list Z) : Z :=
  let '(c, String) := AcpiUtRemoveWhitespace String in
  if c =? 0 then 0 else
  let String := AcpiUtRemoveHexPrefix String in
  let '(c, String) := AcpiUtRemoveLeadingZeros String in
  if c =? 0 then 0 else snd (AcpiUtConvertHexString width String).

Definition AcpiUtExplicitStrtoul64 (width : Z) (String : list Z) : Z :=
  let '(c, String) := AcpiUtRemoveWhitespace String in
  if c =? 0 then 0 else
  let '(hex, String) := AcpiUtDetectHexPrefix String in
  let '(c, String) := AcpiUtRemoveLeadingZeros String in
  if c =? 0 then 0 else
  if hex : bool then snd (AcpiUtConvertHexString width String)
  else snd (AcpiUtConvertDecimalString width String).

(** *** Converting digits *)

(** The value a digit string denotes, continuing from [acc]. *)
Definition digits_from (Base acc : Z) (ds : list Z) : Z :=
  foldl (fun a c => a * Base + AcpiUtAsciiCharToHex (schar c)) acc ds.

Definition int_width (w : Z) : Prop := w = 32 \/ w = 64.

Lemma multiply_spec w a b :
  int_width w -> in_width w a -> 0 < b < 256 ->
  AcpiUtStrtoulMultiply64 w a b
  = if a * b <? 2 ^ w then (AE_OK, a * b) else (AE_NUMERIC_OVERFLOW, 0).
Proof.
  intros Hw Ha Hb. unfold AcpiUtStrtoulMultiply64.
  destruct (a =? 0) eqn:Ea; bool_prop.
  { subst. cbn [orb]. rewrite Z.mul_0_l. destruct Hw as [->| ->]; done. }
  destruct (b =? 0) eqn:Eb; bool_prop; [lia|]. cbn [orb].
  unfold AcpiUtShortDivide. destruct (b =? 0) eqn:Eb'; bool_prop; [lia|].
  assert (in_width 64 a) as Ha64 by (destruct Hw as [->| ->]; word_lia).
  assert (ACPI_UINT64_MAX / b < a <-> 2 ^ 64 <= a * b) as Hdiv.
  { unfold ACPI_UINT64_MAX. split; intros H.
    - destruct (Z.lt_ge_cases (a * b) (2 ^ 64)) as [Hlt|]; [|lia]. exfalso.
      assert (a <= (2 ^ 64 - 1) / b) by (apply Z.div_le_lower_bound; lia). lia.
    - apply Z.div_lt_upper_bound; lia. }
  destruct (_ / b <? a) eqn:E1; bool_prop.
  - apply Hdiv in E1. destruct (a * b <? 2 ^ w) eqn:E2; bool_prop; [|done].
    destruct Hw as [->| ->]; word_lia.
  - assert (a * b < 2 ^ 64) as Hlt.
    { destruct (Z.lt_ge_cases (a * b) (2 ^ 64)); [done|]. apply Hdiv in H. lia. }
    assert (0 <= a * b) by (apply Z.mul_nonneg_nonneg; unfold in_width in *; lia).
    rewrite wrap_small by (unfold in_width; lia). unfold ACPI_UINT32_MAX.
    destruct Hw as [->| ->]; cbn [Z.eqb Pos.eqb andb].
    + destruct (2 ^ 32 - 1 <? a * b) eqn:E2, (a * b <? 2 ^ 32) eqn:E3; bool_prop; done || word_lia.
    + destruct (a * b <? 2 ^ 64) eqn:E3; bool_prop; [done|lia].
Qed.

Lemma add_spec w a d :
  int_width w -> in_width w a -> 0 <= d < 256 ->
  AcpiUtStrtoulAdd64 w a d
  = if a + d <? 2 ^ w then (AE_OK, Some (a + d)) else (AE_NUMERIC_OVERFLOW, None).
Proof.
  intros Hw Ha Hd. unfold AcpiUtStrtoulAdd64, ACPI_UINT64_MAX, ACPI_UINT32_MAX.
  assert (in_width 64 a) as Ha64 by (destruct Hw as [->| ->]; word_lia).
  destruct (_ && _)%bool eqn:E1; bool_prop.
  - destruct (a + d <? 2 ^ w) eqn:E2; bool_prop; [|done]. destruct Hw as [->| ->]; word_lia.
  - assert (a + d < 2 ^ 64) by (apply andb_false_iff in E1 as [E1|E1]; bool_prop; word_lia).
    rewrite wrap_small by word_lia. destruct Hw as [->| ->]; cbn [Z.eqb Pos.eqb andb].
    + destruct (2 ^ 32 - 1 <? a + d) eqn:E2, (a + d <? 2 ^ 32) eqn:E3; bool_prop; done || word_lia.
    + destruct (a + d <? 2 ^ 64) eqn:E3; bool_prop; [done|lia].
Qed.

Lemma insert_digit_spec w a b c :
  int_width w -> in_width w a -> 0 < b < 256 -> 0 <= AcpiUtAsciiCharToHex c < b ->
  AcpiUtInsertDigit w a b c
  = if a * b + AcpiUtAsciiCharToHex c <? 2 ^ w then (AE_OK, a * b + AcpiUtAsciiCharToHex c)
    else (AE_NUMERIC_OVERFLOW, a).
Proof.
  intros Hw Ha Hb Hc. unfold AcpiUtInsertDigit. rewrite multiply_spec by done.
  assert (0 <= a * b) by (apply Z.mul_nonneg_nonneg; unfold in_width in *; lia).
  destruct (a * b <? 2 ^ w) eqn:E; bool_prop.
  - rewrite add_spec by (done || unfold in_width; lia). by destruct (_ <? _).
  - destruct (_ <? _) eqn:E2; bool_prop; [lia|done].
Qed.

(** The conversion stops at the first character that is no digit, or before the digit that
    would leave the integer width. *)
Lemma convert_loop_spec w is_digit b ov s : forall a,
  int_width w -> in_width w a -> 0 < b < 256 ->
  (forall c, is_digit c = true -> 0 <= AcpiUtAsciiCharToHex c < b) ->
  exists k r, s = k ++ r /\ Forall (fun c => is_digit (schar c) = true) k
    /\ in_width w (digits_from b a k)
    /\ ((convert_loop w is_digit b ov s a = (AE_OK, digits_from b a k)
         /\ forall c r', r = c :: r' -> is_digit (schar c) = false)
        \/ (convert_loop w is_digit b ov s a = (ov, digits_from b a k)
            /\ exists c r', r = c :: r' /\ is_digit (schar c) = true
               /\ 2 ^ w <= digits_from b a (k ++ [c]))).
Proof.
  induction s as [|c s IH]; intros a Hw Ha Hb Hd.
  - exists [], []. split; [done|]. split; [done|]. split; [done|]. left. done.
  - cbn [convert_loop]. destruct (is_digit (schar c)) eqn:Ec; cbn [negb].
    + rewrite insert_digit_spec by auto. pose proof (Hd _ Ec) as Hc.
      assert (0 <= a * b) by (apply Z.mul_nonneg_nonneg; unfold in_width in *; lia).
      destruct (_ <? _) eqn:E; bool_prop.
      * destruct (IH (a * b + AcpiUtAsciiCharToHex (schar c)) Hw) as (k & r & -> & Hk & Hv & Hres);
          [unfold in_width; lia|done|done|].
        exists (c :: k), r. split; [done|]. split; [by constructor|]. split; [done|]. exact Hres.
      * exists [], (c :: s). split; [done|]. split; [done|]. split; [done|]. right.
        split; [done|]. exists c, s. done.
    + exists [], (c :: s). split; [done|]. split; [done|]. split; [done|]. left.
      split; [done|]. intros c' r' [= <- _]. done.
Qed.
End Strtoul.
Export Strtoul.

(** ** Integers to strings (exutils.c, utprint.c, utascii.c) *)
Module Tostr.
(** The loop of [AcpiExDigitsNeeded]; with a base below two it never ends. *)
Fixpoint digits_loop (fuel : nat) (CurrentValue Base NumDigits : Z) : option Z :=
  match fuel with
  | O => None
  | S fuel' =>
      if CurrentValue =? 0 then Some NumDigits
      else
        let CurrentValue :=
          match AcpiUtShortDivide CurrentValue Base with
          | (_, Some (q, _)) => q
          | (_, None) => CurrentValue
          end in
        digits_loop fuel' CurrentValue Base (u32 (NumDigits + 1))
  end.

Definition AcpiExDigitsNeeded (Value Base : Z) : option Z :=
  if Value =? 0 then Some 1 else digits_loop 65 Value Base 0.

(** The loop of [AcpiExIntegerToString], from digit [n] down to the first. *)
Fixpoint write_digits (n : nat) (OutString : list Z) (Value : Z) : option (list Z) :=
  match n with
  | O => Some OutString
  | S n' =>
      match AcpiUtShortDivide Value 10 with
      | (_, Some (q, Remainder)) =>
          OutString ← aset OutString (Z.of_nat n') (48 + Remainder);
          write_digits n' OutString q
      | (_, None) => None
      end
  end.

Definition AcpiExIntegerToString (OutString : list Z) (Value : Z) : option (list Z) :=
  DigitsNeeded ← AcpiExDigitsNeeded Value 10;
  OutString ← aset OutString DigitsNeeded 0;
  write_digits (Z.to_nat DigitsNeeded) OutString Value.

(** The eight bytes written. *)
Definition AcpiExEisaIdToString (CompressedId : Z) : option (list Z) :=
  let SwappedId := AcpiUtDwordByteSwap (u32 CompressedId) in
  d3 ← AcpiUtHexToAsciiChar SwappedId 12;
  d4 ← AcpiUtHexToAsciiChar SwappedId 8;
  d5 ← AcpiUtHexToAsciiChar SwappedId 4;
  d6 ← AcpiUtHexToAsciiChar SwappedId 0;
  Some [64 + Z.land (Z.shiftr SwappedId 26) 31; 64 + Z.land (Z.shiftr SwappedId 21) 31;
        64 + Z.land (Z.shiftr SwappedId 16) 31; d3; d4; d5; d6; 0].

Definition AcpiExPciClsToString (c0 c1 c2 : Z) : option (list Z) :=
  a ← AcpiUtHexToAsciiChar c0 4; b ← AcpiUtHexToAsciiChar c0 0;
  c ← AcpiUtHexToAsciiChar c1 4; d ← AcpiUtHexToAsciiChar c1 0;
  e ← AcpiUtHexToAsciiChar c2 4; f ← AcpiUtHexToAsciiChar c2 0;
  Some [a; b; c; d; e; f; 0].

(** [None] is an object that is no integer: a null pointer, a node or another type. *)
Definition AcpiExTruncateFor32bitTable (AcpiGbl_IntegerByteWidth : Z) (Value : option Z) : bool * option Z :=
  match Value with
  | Some v =>
      if (AcpiGbl_IntegerByteWidth =? 4) && (ACPI_UINT32_MAX <? v)
      then (true, Some (Z.land v ACPI_UINT32_MAX)) else (false, Some v)
  | None => (false, None)
  end.

(** [AcpiGbl_IntegerBitWidth], [AcpiGbl_IntegerNybbleWidth], [AcpiGbl_IntegerByteWidth] *)
Definition AcpiUtSetIntegerWidth (Revision : Z) : Z * Z * Z :=
  if Revision <? 2 then (32, 8, 4) else (64, 16, 8).

Definition AcpiIsValidSpaceId (SpaceId : Z) : bool :=
  negb ((12 <=? SpaceId) && (SpaceId <? 128) && negb (SpaceId =? 126) && negb (SpaceId =? 127)).

(** *** utascii.c *)
Definition AcpiUtValidNameChar (Character Position : Z) : bool :=
  ((65 <=? Character) && (Character <=? 90)) || ((48 <=? Character) && (Character <=? 57))
  || (Character =? 95) || ((Character =? 33) && (Position =? 3)).

Definition AcpiUtValidNameseg (Name : list Z) : option bool :=
  c0 ← aget Name 0;
  if negb (AcpiUtValidNameChar (schar c0) 0) then Some false else
  c1 ← aget Name 1;
  if negb (AcpiUtValidNameChar (schar c1) 1) then Some false else
  c2 ← aget Name 2;
  if negb (AcpiUtValidNameChar (schar c2) 2) then Some false else
  c3 ← aget Name 3;
  Some (AcpiUtValidNameChar (schar c3) 3).

(** The loop stops at a terminator, leaving the rest of the repaired name alone. *)
Fixpoint repair_loop (n : nat) (i : Z) (Name RepairedName : list Z) : option (list Z) :=
  match n with
  | O => Some RepairedName
  | S n' =>
      c ← aget Name i;
      r ← aset RepairedName i c;
      if c =? 0 then Some r
      else
        r ← (if negb (isprint c) then aset r i 32 else Some r);
        repair_loop n' (i + 1) Name r
  end.

Definition AcpiUtCheckAndRepairAscii (Name RepairedName : list Z) (Count : Z) : option (list Z) :=
  repair_loop (Z.to_nat Count) 0 Name RepairedName.

(** *** utprint.c *)
Definition AcpiGbl_LowerHexDigits : list Z := [48; 49; 50; 51; 52; 53; 54; 55; 56; 57; 97; 98; 99; 100; 101; 102].

Definition AcpiGbl_UpperHexDigits : list Z := [48; 49; 50; 51; 52; 53; 54; 55; 56; 57; 65; 66; 67; 68; 69; 70].

(** The digits written, least significant first. *)
Fixpoint put_loop (fuel : nat) (Digits : list Z) (Number Base : Z) : option (list Z) :=
  match fuel with
  | O => None
  | S fuel' =>
      if Number =? 0 then Some []
      else
        match AcpiUtDivide Number Base with
        | (_, Some (q, DigitIndex)) =>
            d ← aget Digits DigitIndex;
            rest ← put_loop fuel' Digits q Base;
            Some (d :: rest)
        | (_, None) => None
        end
  end.

Definition AcpiUtPutNumber (Number Base : Z) (Upper : bool) : option (list Z) :=
  let Digits := if Upper then AcpiGbl_UpperHexDigits else AcpiGbl_LowerHexDigits in
  if Number =? 0 then Some [48] else put_loop 65 Digits Number Base.

(** Stops at the first character that is no digit; the number and the rest. *)
Fixpoint scan_loop (String : list Z) (Number : Z) : Z * list Z :=
  match String with
  | [] => (Number, [])
  | c :: String' =>
      if isdigit (schar c) then
        let '(_, Number) := AcpiUtShortMultiply Number 10 in
        scan_loop String' (u64 (Number + (schar c - 48)))
      else (Number, String)
  end.

Definition AcpiUtScanNumber (String : list Z) : Z * list Z := scan_loop String 0.

(** The digits go through a buffer of 20 bytes; what is written before the terminator. *)
Definition AcpiUtPrintNumber (Number : Z) : option (list Z) :=
  ascii ← AcpiUtPutNumber Number 10 false;
  if zlen ascii <=? 20 then Some (rev ascii) else None.

(** *** Decimal digits *)

(** The [n] low decimal digits of [v] as characters, most significant first. *)
Fixpoint dec (n : nat) (v : Z) : list Z :=
  match n with O => [] | S n' => dec n' (v / 10) ++ [48 + v mod 10] end.

Lemma dec_length n v : length (dec n v) = n.
Proof. revert v. induction n as [|n IH]; intros v; cbn; [done|]. rewrite length_app, IH. cbn. lia. Qed.

Lemma digit_range v : 48 <= 48 + v mod 10 <= 57.
Proof. pose proof (Z.mod_pos_bound v 10). lia. Qed.

Lemma dec_digits n v : Forall (fun c => 48 <= c <= 57) (dec n v).
Proof.
  revert v. induction n as [|n IH]; intros v; cbn; [constructor|].
  apply Forall_app. split; [done|]. constructor; [apply digit_range|constructor].
Qed.

Lemma digit_schar c : 48 <= c <= 57 -> schar c = c /\ AcpiUtAsciiCharToHex c = c - 48 /\ isdigit c = true.
Proof.
  intros Hc. split; [|split].
  - unfold schar. by rewrite (proj2 (Z.ltb_lt c 128)) by lia.
  - unfold AcpiUtAsciiCharToHex. rewrite (proj2 (Z.leb_le c 57)) by lia. apply wrap_small. word_lia.
  - unfold isdigit. rewrite !(proj2 (Z.leb_le _ _)) by lia. done.
Qed.

Lemma div_pow10 v n : 0 <= n -> 10 ^ n <= v / 10 < 10 ^ (n + 1) <-> 10 ^ (n + 1) <= v < 10 ^ (n + 2).
Proof.
  intros Hn. replace (n + 2) with (n + 1 + 1) by lia. rewrite !(Z.pow_add_r 10 _ 1) by lia.
  change (10 ^ 1) with 10. pose proof (Z.div_mod v 10 ltac:(lia)).
  pose proof (Z.mod_pos_bound v 10 ltac:(lia)). lia.
Qed.

Lemma small_div v (n : nat) : 0 <= v < 10 ^ Z.of_nat (S n) -> 0 <= v / 10 < 10 ^ Z.of_nat n.
Proof.
  intros Hv. rewrite Nat2Z.inj_succ, Z.pow_succ_r in Hv by lia.
  split; [apply Z.div_pos; lia|]. apply Z.div_lt_upper_bound; lia.
Qed.

Lemma digits_from_snoc b a l c :
  digits_from b a (l ++ [c]) = digits_from b a l * b + AcpiUtAsciiCharToHex (schar c).
Proof. unfold digits_from. by rewrite foldl_app. Qed.

Lemma dec_value n : forall v, 0 <= v < 10 ^ Z.of_nat n -> digits_from 10 0 (dec n v) = v.
Proof.
  induction n as [|n IH]; intros v Hv; cbn [dec].
  - change (10 ^ Z.of_nat 0) with 1 in Hv. cbn. lia.
  - rewrite digits_from_snoc, IH by (by apply small_div).
    destruct (digit_schar (48 + v mod 10) (digit_range v)) as (-> & -> & _).
    pose proof (Z.div_mod v 10 ltac:(lia)). lia.
Qed.

(** A number with exactly [n + 1] digits does not start with a zero. *)
Lemma dec_head n : forall v, 10 ^ Z.of_nat n <= v < 10 ^ Z.of_nat (S n) ->
  exists c rest, dec (S n) v = c :: rest /\ 49 <= c <= 57.
Proof.
  induction n as [|n IH]; intros v Hv.
  - change (10 ^ Z.of_nat 0) with 1 in Hv. change (10 ^ Z.of_nat 1) with 10 in Hv.
    exists (48 + v mod 10), []. split; [done|]. rewrite Z.mod_small by lia. lia.
  - destruct (IH (v / 10)) as (c & rest & Hd & Hc).
    { rewrite !Nat2Z.inj_succ in *. unfold Z.succ in *. apply div_pow10; [lia|].
      by replace (Z.of_nat n + 2) with (Z.of_nat n + 1 + 1) by lia. }
    exists c, (rest ++ [48 + v mod 10]). split; [|done].
    change (dec (S (S n)) v) with (dec (S n) (v / 10) ++ [48 + v mod 10]). by rewrite Hd.
Qed.

(** How many digits a number has. *)
Lemma digits_exist v : 0 < v < 2 ^ 64 ->
  exists n : nat, (n < 20)%nat /\ 10 ^ Z.of_nat n <= v < 10 ^ Z.of_nat (S n).
Proof.
  intros Hv.
  assert (forall k : nat, v < 10 ^ Z.of_nat k ->
    exists n : nat, (n < k)%nat /\ 10 ^ Z.of_nat n <= v < 10 ^ Z.of_nat (S n)) as H.
  { induction k as [|k IH]; intros Hk.
    - change (10 ^ Z.of_nat 0) with 1 in Hk. lia.
    - destruct (Z.lt_ge_cases v (10 ^ Z.of_nat k)) as [Hlt|Hge].
      + destruct (IH Hlt) as (n & ? & ?). exists n. split; [lia|done].
      + exists k. split; [lia|done]. }
  apply (H 20%nat). apply (Z.lt_trans _ (2 ^ 64)); [lia|done].
Qed.

Lemma digits_loop_spec n : forall v fuel k,
  10 ^ Z.of_nat n <= v < 10 ^ Z.of_nat (S n) -> (S n < fuel)%nat -> 0 <= k -> k + Z.of_nat (S n) < 2 ^ 32 ->
  digits_loop fuel v 10 k = Some (k + Z.of_nat (S n)).
Proof.
  induction n as [|n IH]; intros v fuel k Hv Hf Hk Hb.
  - destruct fuel as [|[|fuel]]; [lia..|]. cbn [digits_loop]. unfold AcpiUtShortDivide. cbn [Z.eqb].
    change (10 ^ Z.of_nat 0) with 1 in Hv. change (10 ^ Z.of_nat 1) with 10 in Hv.
    destruct (v =? 0) eqn:E; bool_prop; [lia|]. rewrite Z.div_small by lia. cbn [Z.eqb].
    rewrite wrap_small by word_lia. f_equal.
  - destruct fuel as [|fuel]; [lia|]. cbn [digits_loop]. unfold AcpiUtShortDivide. cbn [Z.eqb].
    assert (0 < v) by (pose proof (Z.pow_pos_nonneg 10 (Z.of_nat (S n))); lia).
    destruct (v =? 0) eqn:E; bool_prop; [lia|]. rewrite wrap_small by (split; [lia|lia]).
    rewrite IH; [f_equal; lia| |lia..].
    rewrite !Nat2Z.inj_succ in *. unfold Z.succ in *. apply div_pow10; [lia|].
    by replace (Z.of_nat n + 2) with (Z.of_nat n + 1 + 1) by lia.
Qed.

Lemma write_digits_spec n : forall out v, (n <= length out)%nat -> 0 <= v ->
  write_digits n out v = Some (dec n v ++ drop n out).
Proof.
  induction n as [|n IH]; intros out v Hl Hv; [done|].
  cbn [write_digits]. unfold AcpiUtShortDivide. cbn [Z.eqb].
  pose proof (Z.mod_pos_bound v 10 ltac:(lia)). rewrite (wrap_small 32 (v mod 10)) by word_lia.
  unfold aset. rewrite decide_True by lia. cbn.
  rewrite Nat2Z.id, IH; [|rewrite length_insert; lia|apply Z.div_pos; lia].
  f_equal. rewrite <- app_assoc. f_equal.
  rewrite insert_take_drop by lia. rewrite drop_app_length'; [done|]. rewrite length_take. lia.
Qed.

(** The string a buffer holds: its bytes before the first terminator. *)
Fixpoint c_string (buf : list Z) : list Z :=
  match buf with [] => [] | c :: buf' => if c =? 0 then [] else c :: c_string buf' end.

Lemma c_string_app s rest : Forall (fun c => c <> 0) s -> c_string (s ++ 0 :: rest) = s.
Proof.
  induction 1 as [|c s Hc Hs IH]; [done|]. cbn. destruct (c =? 0) eqn:E; bool_prop; [done|]. by rewrite IH.
Qed.

Lemma integer_to_string_zero buf : (2 <= length buf)%nat ->
  exists buf', AcpiExIntegerToString buf 0 = Some buf' /\ c_string buf' = [48].
Proof.
  intros Hl. destruct buf as [|b0 [|b1 buf]]; cbn in Hl; [lia..|].
  unfold AcpiExIntegerToString, AcpiExDigitsNeeded, aset at 1. cbn [Z.eqb mbind option_bind].
  rewrite decide_True by (cbn; lia). cbn [mbind option_bind].
  change (Z.to_nat 1) with 1%nat. rewrite write_digits_spec by (cbn; lia).
  eexists. split; reflexivity.
Qed.

Lemma integer_to_string_digits buf v (n : nat) :
  (21 <= length buf)%nat -> (n < 20)%nat -> 10 ^ Z.of_nat n <= v < 10 ^ Z.of_nat (S n) ->
  exists buf', AcpiExIntegerToString buf v = Some buf' /\ c_string buf' = dec (S n) v.
Proof.
  intros Hl Hn Hv. assert (0 < v) by (pose proof (Z.pow_pos_nonneg 10 (Z.of_nat n)); lia).
  unfold AcpiExIntegerToString, AcpiExDigitsNeeded.
  destruct (v =? 0) eqn:E; bool_prop; [lia|].
  rewrite (digits_loop_spec n) by (done || lia). cbn [mbind option_bind].
  rewrite Z.add_0_l. unfold aset at 1. rewrite decide_True by lia. cbn [mbind option_bind].
  rewrite !Nat2Z.id, write_digits_spec by (rewrite ?length_insert; lia).
  eexists. split; [done|].
  rewrite (drop_S _ 0) by (apply list_lookup_insert_eq; lia).
  apply c_string_app. eapply Forall_impl; [apply dec_digits|]. cbn. lia.
Qed.

(** *** Reading a decimal number back *)

Lemma scan_loop_digits l : forall acc, Forall (fun c => 48 <= c <= 57) l ->
  0 <= acc -> 0 <= digits_from 10 acc l < 2 ^ 64 -> scan_loop l acc = (digits_from 10 acc l, []).
Proof.
  induction l as [|c l IH]; intros acc Hl Ha Hv; [done|].
  apply Forall_cons in Hl as [Hc Hl]. destruct (digit_schar c Hc) as (E1 & E2 & E3).
  cbn [scan_loop]. rewrite E1, E3. cbn in Hv |- *. rewrite E1, E2 in Hv |- *.
  assert (acc * 10 + (c - 48) <= digits_from 10 (acc * 10 + (c - 48)) l) as Hmono.
  { clear - Hl Hc Ha. assert (0 <= acc * 10 + (c - 48)) as H by lia. revert H.
    generalize (acc * 10 + (c - 48)). induction l as [|d l IH]; intros a H; [cbn; lia|].
    apply Forall_cons in Hl as [Hd Hl]. destruct (digit_schar d Hd) as (F1 & F2 & _).
    cbn. rewrite F1, F2. specialize (IH Hl (a * 10 + (d - 48)) ltac:(lia)). unfold digits_from in *. lia. }
  rewrite (wrap_small 64 (acc * 10)) by (unfold in_width; unfold digits_from in *; lia).
  rewrite wrap_small by (unfold in_width; unfold digits_from in *; lia).
  apply IH; [done|lia|done].
Qed.

Lemma put_loop_spec n : forall v fuel,
  10 ^ Z.of_nat n <= v < 10 ^ Z.of_nat (S n) -> (S n < fuel)%nat ->
  put_loop fuel AcpiGbl_LowerHexDigits v 10 = Some (rev (dec (S n) v)).
Proof.
  assert (forall v, 0 <= v -> aget AcpiGbl_LowerHexDigits (v mod 10) = Some (48 + v mod 10)) as Hget.
  { intros v Hv. pose proof (Z.mod_pos_bound v 10 ltac:(lia)).
    assert (v mod 10 ∈ seqZ 0 10) as Hin by (apply elem_of_seqZ; lia).
    repeat (apply elem_of_cons in Hin as [->|Hin]; [reflexivity|]). by apply not_elem_of_nil in Hin. }
  induction n as [|n IH]; intros v fuel Hv Hf.
  - destruct fuel as [|[|fuel]]; [lia..|]. cbn [put_loop]. unfold AcpiUtDivide. cbn [Z.eqb].
    change (10 ^ Z.of_nat 0) with 1 in Hv. change (10 ^ Z.of_nat 1) with 10 in Hv.
    destruct (v =? 0) eqn:E; bool_prop; [lia|]. rewrite (Hget v) by lia. cbn [mbind option_bind].
    by rewrite Z.div_small by lia.
  - destruct fuel as [|fuel]; [lia|]. cbn [put_loop]. unfold AcpiUtDivide. cbn [Z.eqb].
    assert (0 < v) by (pose proof (Z.pow_pos_nonneg 10 (Z.of_nat (S n))); lia).
    destruct (v =? 0) eqn:E; bool_prop; [lia|]. rewrite (Hget v) by lia. cbn [mbind option_bind].
    rewrite IH; [|  |lia].
    + cbn [mbind option_bind].
      change (dec (S (S n)) v) with (dec (S n) (v / 10) ++ [48 + v mod 10]). by rewrite rev_unit.
    + rewrite !Nat2Z.inj_succ in *. unfold Z.succ in *. apply div_pow10; [lia|].
      by replace (Z.of_nat n + 2) with (Z.of_nat n + 1 + 1) by lia.
Qed.

(** A decimal string without leading zeros converts to its value. *)
Lemma explicit_decimal w (n : nat) v :
  int_width w -> 10 ^ Z.of_nat n <= v < 10 ^ Z.of_nat (S n) -> v < 2 ^ w ->
  AcpiUtExplicitStrtoul64 w (dec (S n) v) = v.
Proof.
  intros Hw Hv Hfit. assert (0 < v) by (pose proof (Z.pow_pos_nonneg 10 (Z.of_nat n)); lia).
  pose proof (dec_value (S n) v ltac:(lia)) as Hval. pose proof (dec_digits (S n) v) as Hdig.
  destruct (dec_head n v Hv) as (c & rest & E & Hc). rewrite E in *.
  unfold AcpiUtExplicitStrtoul64.
  destruct (digit_schar c ltac:(lia)) as (Es & _ & _).
  assert (AcpiUtRemoveWhitespace (c :: rest) = (c, c :: rest)) as ->.
  { cbn [AcpiUtRemoveWhitespace]. rewrite wrap_small by word_lia. unfold isspace.
    rewrite !(proj2 (Z.eqb_neq _ _)) by lia. cbn. by rewrite Es. }
  rewrite (proj2 (Z.eqb_neq c 0)) by lia. unfold AcpiUtDetectHexPrefix, AcpiUtRemoveHexPrefix.
  rewrite Es. rewrite (proj2 (Z.eqb_neq c 48)) by lia. cbn [andb]. rewrite Nat.eqb_refl. cbn [negb].
  assert (AcpiUtRemoveLeadingZeros (c :: rest) = (c, c :: rest)) as ->.
  { cbn [AcpiUtRemoveLeadingZeros]. rewrite Es. by rewrite (proj2 (Z.eqb_neq c 48)) by lia. }
  rewrite (proj2 (Z.eqb_neq c 0)) by lia.
  unfold AcpiUtConvertDecimalString.
  destruct (convert_loop_spec w isdigit 10 AE_DECIMAL_OVERFLOW (c :: rest) 0 Hw)
    as (k & r & Ek & Hk & Hfk & Hres).
  { destruct Hw as [->| ->]; split; done. } { done. }
  { intros d Hd. unfold isdigit in Hd. bool_prop. destruct (digit_schar d ltac:(lia)) as (_ & -> & _). lia. }
  assert (Forall (fun c => isdigit (schar c) = true) (c :: rest)) as Hall.
  { eapply Forall_impl; [exact Hdig|]. intros d Hd. destruct (digit_schar d Hd) as (-> & _ & ->). done. }
  destruct Hres as [[-> Hstop]|[_ (d & r' & -> & Hd & Hov)]].
  - destruct r as [|d r].
    + rewrite app_nil_r in Ek. by rewrite <- Ek.
    + specialize (Hstop d r eq_refl). rewrite Ek in Hall. apply Forall_app in Hall as [_ Hall].
      apply Forall_cons in Hall as [Hall _]. congruence.
  - exfalso. assert (digits_from 10 0 (k ++ [d]) <= v) as Hle; [|lia].
    rewrite <- Hval, Ek. rewrite Ek in Hdig.
    replace (k ++ d :: r') with ((k ++ [d]) ++ r') in * by (by rewrite <- app_assoc).
    unfold digits_from at 2. rewrite foldl_app. fold (digits_from 10 0 (k ++ [d])).
    apply Forall_app in Hdig as [Hkd Hr'].
    assert (0 <= digits_from 10 0 (k ++ [d])) as H0.
    { clear - Hkd. induction (k ++ [d]) as [|e l IH] using rev_ind; [done|].
      apply Forall_app in Hkd as [Hl He]. apply Forall_cons in He as [He _].
      rewrite digits_from_snoc. destruct (digit_schar e He) as (-> & -> & _). specialize (IH Hl). lia. }
    revert H0. generalize (digits_from 10 0 (k ++ [d])). clear - Hr'.
    induction r' as [|e l IH]; intros a Ha; [cbn; lia|].
    apply Forall_cons in Hr' as [He Hl]. cbn. destruct (digit_schar e He) as (-> & -> & _).
    specialize (IH Hl (a * 10 + (e - 48)) ltac:(lia)). lia.
Qed.

(** ** Properties *)

(** the implicit conversion never fails: it reads the longest prefix of hexadecimal digits
    whose value fits the integer width, and stops at the first other character or, reporting
    an overflow, before the first digit that would not fit. *)
Theorem hex_conversion_longest_prefix w s :
  int_width w ->
  exists k r, s = k ++ r /\ Forall (fun c => isxdigit (schar c) = true) k
    /\ in_width w (digits_from 16 0 k)
    /\ ((AcpiUtConvertHexString w s = (AE_OK, digits_from 16 0 k)
         /\ forall c r', r = c :: r' -> isxdigit (schar c) = false)
        \/ (AcpiUtConvertHexString w s = (AE_HEX_OVERFLOW, digits_from 16 0 k)
            /\ exists c r', r = c :: r' /\ isxdigit (schar c) = true
               /\ 2 ^ w <= digits_from 16 0 (k ++ [c]))).
Proof.
  intros Hw. apply convert_loop_spec; [done| |done|apply xdigit_value].
  destruct Hw as [->| ->]; split; done.
Qed.

(** every 64-bit integer survives printing and reading: the decimal string
    [AcpiExIntegerToString] writes into a buffer of at least 21 bytes is terminated, and the
    explicit conversion reads the same integer from it. *)
Theorem integer_to_string_roundtrip buf v :
  (21 <= length buf)%nat -> in_width 64 v ->
  exists buf', AcpiExIntegerToString buf v = Some buf'
    /\ AcpiUtExplicitStrtoul64 64 (c_string buf') = v.
Proof.
  intros Hl Hv. destruct (decide (v = 0)) as [->|Hne].
  - destruct (integer_to_string_zero buf) as (buf' & H1 & H2); [lia|].
    exists buf'. split; [done|]. rewrite H2. reflexivity.
  - destruct (digits_exist v) as (n & Hn & Hd); [unfold in_width in *; lia|].
    destruct (integer_to_string_digits buf v n Hl Hn Hd) as (buf' & H1 & H2).
    exists buf'. split; [done|]. rewrite H2. apply explicit_decimal; [by right|done|apply Hv].
Qed.

(** every 64-bit integer survives the formatter: [AcpiUtPrintNumber] stays within its
    20-byte buffer, and [AcpiUtScanNumber] reads the number back and consumes it all. *)
Theorem scan_print_roundtrip v :
  in_width 64 v -> exists s, AcpiUtPrintNumber v = Some s /\ AcpiUtScanNumber s = (v, []).
Proof.
  intros Hv. unfold AcpiUtPrintNumber, AcpiUtPutNumber. destruct (v =? 0) eqn:E; bool_prop.
  - subst. exists [48]. done.
  - destruct (digits_exist v) as (n & Hn & Hd); [unfold in_width in *; lia|].
    rewrite (put_loop_spec n) by (done || lia). cbn [mbind option_bind].
    assert (zlen (rev (dec (S n) v)) = Z.of_nat (S n)) as -> by (unfold zlen; by rewrite length_rev, dec_length).
    rewrite (proj2 (Z.leb_le _ _)) by lia. rewrite rev_involutive.
    eexists. split; [done|]. unfold AcpiUtScanNumber.
    pose proof (dec_value (S n) v ltac:(lia)) as Hval.
    rewrite scan_loop_digits; rewrite ?Hval; [done|apply dec_digits|done|exact Hv].
Qed.

Lemma hex_conversion_longest_prefix_witness :
  int_width 32 /\ AcpiUtConvertHexString 32 [49; 50; 51; 52; 53; 54; 55; 56; 57] = (AE_HEX_OVERFLOW, 305419896)
  /\ exists k r, [49; 50; 51; 52; 53; 54; 55; 56; 57] = k ++ r /\ in_width 32 (digits_from 16 0 k).
Proof.
  split; [by left|]. split; [vm_compute; reflexivity|].
  destruct (hex_conversion_longest_prefix 32 [49; 50; 51; 52; 53; 54; 55; 56; 57] ltac:(by left))
    as (k & r & H1 & _ & H2 & _).
  exists k, r. split; [exact H1|exact H2].
Defined.

Lemma integer_to_string_roundtrip_witness :
  exists buf', AcpiExIntegerToString (replicate 21 255) 18446744073709551615 = Some buf'
    /\ AcpiUtExplicitStrtoul64 64 (c_string buf') = 18446744073709551615.
Proof. apply (integer_to_string_roundtrip (replicate 21 255)); [cbn; lia|split; done]. Defined.

Lemma scan_print_roundtrip_witness :
  exists s, AcpiUtPrintNumber 42 = Some s /\ AcpiUtScanNumber s = (42, []).
Proof. apply (scan_print_roundtrip 42). split; done. Defined.
End Tostr.
