(* ===== verification/AcpiNames.v ===== *)
(** * ACPI names: internal (AML) and external (ASL) name strings

    Models [namespace/nsutils.c] (conversions), [utilities/utstring.c] (repair) and the in-place
    normalisation of [namespace/nsnames.c], on top of the kernel's C library.  A string is the list of
    its bytes from the pointer on, a buffer the list of its bytes; an access outside has no result. *)

From S2P Require Import Prelude Kre CLib AcpiUtil.

Definition ACPI_NAMESEG_SIZE : nat := 4.

Definition AML_ROOT_PREFIX : Z := 92.

Definition AML_PARENT_PREFIX : Z := 94.

Definition AML_DUAL_NAME_PREFIX : Z := 46.

Definition AML_MULTI_NAME_PREFIX : Z := 47.

Definition ACPI_IS_ROOT_PREFIX (c : Z) : bool := c =? 92.

Definition ACPI_IS_PARENT_PREFIX (c : Z) : bool := c =? 94.

Definition ACPI_IS_PATH_SEPARATOR (c : Z) : bool := c =? 46.

(** ** Repair of a name segment (utstring.c) *)
Module Repair.
Import AcpiUtil.Tostr.

Definition ACPI_ROOT_PATHNAME : list Z := [92; 95; 95; 95].

Definition repair_char (c i : Z) : Z := if AcpiUtValidNameChar (schar c) i then c else 95.

(** The segment at [at_] of the buffer is repaired in place. *)
Definition AcpiUtRepairName (buf : list Z) (at_ : Z) : option (list Z) :=
  c0 ← aget buf at_; c1 ← aget buf (at_ + 1); c2 ← aget buf (at_ + 2); c3 ← aget buf (at_ + 3);
  if decide ([c0; c1; c2; c3] = ACPI_ROOT_PATHNAME) then Some buf
  else
    buf ← aset buf at_ (repair_char c0 0);
    buf ← aset buf (at_ + 1) (repair_char c1 1);
    buf ← aset buf (at_ + 2) (repair_char c2 2);
    aset buf (at_ + 3) (repair_char c3 3).
End Repair.

(** ** Conversion (nsutils.c) *)
Module NsUtils.
Import Repair.

(** [ACPI_NAMESTRING_INFO]; [NextExternalChar] is the string from that pointer on. *)
Record ACPI_NAMESTRING_INFO := mkInfo {
  NextExternalChar : list Z;
  Length : Z;
  NumSegments : Z;
  NumCarats : Z;
  FullyQualified : bool;
}.

(** The two loops over prefix characters; [None] when the string ends without a terminator. *)
Fixpoint skip_prefix (is_prefix : Z -> bool) (s : list Z) (n : Z) : option (Z * list Z) :=
  match s with
  | [] => None
  | c :: s' => if is_prefix c then skip_prefix is_prefix s' (n + 1) else Some (n, s)
  end.

Fixpoint count_separators (s : list Z) (n : Z) : option Z :=
  match s with
  | [] => None
  | c :: s' => if c =? 0 then Some n else count_separators s' (if ACPI_IS_PATH_SEPARATOR c then n + 1 else n)
  end.

Definition AcpiNsGetInternalNameLength (ExternalName : list Z) : option ACPI_NAMESTRING_INFO :=
  c ← head ExternalName;
  '(fq, carats, s) ←
    (if ACPI_IS_ROOT_PREFIX c then
       '(_, s) ← skip_prefix ACPI_IS_ROOT_PREFIX (tail ExternalName) 0; Some (true, 0, s)
     else '(n, s) ← skip_prefix ACPI_IS_PARENT_PREFIX ExternalName 0; Some (false, n, s));
  c ← head s;
  segs ← (if negb (c =? 0) then count_separators s 1 else Some 0);
  Some (mkInfo s (u32 (4 * segs + 4 + carats)) segs carats fq).

(** The loop over the four characters of a segment, from [Result] on; the rest of the external name
    and the buffer. *)
Fixpoint build_chars (n : nat) (Result : Z) (ext buf : list Z) : option (list Z * list Z) :=
  match n with
  | O => Some (ext, buf)
  | S n' =>
      c ← head ext;
      if ACPI_IS_PATH_SEPARATOR c || (c =? 0) then
        buf ← aset buf Result 95; build_chars n' (Result + 1) ext buf
      else buf ← aset buf Result (toupper c); build_chars n' (Result + 1) (tail ext) buf
  end.

(** The loop over the segments. *)
Fixpoint build_segments (n : nat) (Result : Z) (ext buf : list Z) : option (ACPI_STATUS * Z * list Z) :=
  match n with
  | O => Some (AE_OK, Result, buf)
  | S n' =>
      '(ext, buf) ← build_chars ACPI_NAMESEG_SIZE Result ext buf;
      c ← head ext;
      if negb (ACPI_IS_PATH_SEPARATOR c) && negb (c =? 0) then Some (AE_BAD_PATHNAME, Result, buf)
      else build_segments n' (Result + 4) (tail ext) buf
  end.

Fixpoint write_carats (n : nat) (i : Z) (buf : list Z) : option (list Z) :=
  match n with O => Some buf | S n' => buf ← aset buf i AML_PARENT_PREFIX; write_carats n' (i + 1) buf end.

(** The name prefixes written at [i]: where the segments start, and the buffer. *)
Definition write_prefix (i NumSegments : Z) (buf : list Z) : option (Z * list Z) :=
  if NumSegments <=? 1 then Some (i, buf)
  else if NumSegments =? 2 then buf ← aset buf i AML_DUAL_NAME_PREFIX; Some (i + 1, buf)
  else
    buf ← aset buf i AML_MULTI_NAME_PREFIX;
    buf ← aset buf (i + 1) (u8 NumSegments);
    Some (i + 2, buf).

Definition AcpiNsBuildInternalName (Info : ACPI_NAMESTRING_INFO) (InternalName : list Z)
    : option (ACPI_STATUS * list Z) :=
  '(i, buf) ←
    (if FullyQualified Info then buf ← aset InternalName 0 AML_ROOT_PREFIX; Some (1, buf)
     else buf ← write_carats (Z.to_nat (NumCarats Info)) 0 InternalName; Some (NumCarats Info, buf));
  '(Result, buf) ← write_prefix i (NumSegments Info) buf;
  '(Status, Result, buf) ← build_segments (Z.to_nat (NumSegments Info)) Result (NextExternalChar Info) buf;
  if decide (Status <> AE_OK) then Some (Status, buf)
  else buf ← aset buf Result 0; Some (AE_OK, buf).

(** The converted name is a fresh zeroed buffer; memory is assumed to suffice. *)
Definition AcpiNsInternalizeName (ExternalName : list Z) : option (ACPI_STATUS * option (list Z)) :=
  c ← head ExternalName;
  if c =? 0 then Some (AE_BAD_PARAMETER, None)
  else
    Info ← AcpiNsGetInternalNameLength ExternalName;
    '(Status, buf) ← AcpiNsBuildInternalName Info (replicate (Z.to_nat (Length Info)) 0);
    Some (Status, if decide (Status = AE_OK) then Some buf else None).

(** The loop over the carats of an internal name: the prefix length. *)
Fixpoint carat_prefix (fuel : nat) (i InternalNameLength : Z) (name : list Z) : option Z :=
  match fuel with
  | O => None
  | S fuel' =>
      if i <? InternalNameLength then
        c ← aget name i;
        if ACPI_IS_PARENT_PREFIX c then carat_prefix fuel' (i + 1) InternalNameLength name else Some i
      else Some i
  end.

(** [NamesIndex] and [NumSegments] of an internal name with this prefix. *)
Definition name_kind (PrefixLength InternalNameLength : Z) (name : list Z) : option (Z * Z) :=
  if PrefixLength <? InternalNameLength then
    c ← aget name PrefixLength;
    if c =? AML_MULTI_NAME_PREFIX then n ← aget name (PrefixLength + 1); Some (PrefixLength + 2, n)
    else if c =? AML_DUAL_NAME_PREFIX then Some (PrefixLength + 1, 2)
    else if c =? 0 then Some (0, 0)
    else Some (PrefixLength, 1)
  else Some (0, 0).

(** Copies of [n] bytes, one by one. *)
Fixpoint copy_bytes (n : nat) (src dst : Z) (name buf : list Z) : option (list Z) :=
  match n with
  | O => Some buf
  | S n' => c ← aget name src; buf ← aset buf dst c; copy_bytes n' (src + 1) (dst + 1) name buf
  end.

Fixpoint external_segments (n : nat) (first : bool) (NamesIndex j : Z) (name buf : list Z) : option (list Z) :=
  match n with
  | O => Some buf
  | S n' =>
      '(j, buf) ← (if first then Some (j, buf) else buf ← aset buf j 46; Some (j + 1, buf));
      buf ← copy_bytes ACPI_NAMESEG_SIZE NamesIndex j name buf;
      buf ← AcpiUtRepairName buf j;
      external_segments n' false (NamesIndex + 4) (j + 4) name buf
  end.

Definition AcpiNsExternalizeName (InternalNameLength : Z) (InternalName : list Z)
    : option (ACPI_STATUS * option (list Z)) :=
  if InternalNameLength =? 0 then Some (AE_BAD_PARAMETER, None)
  else
    c ← aget InternalName 0;
    PrefixLength ←
      (if c =? AML_ROOT_PREFIX then Some 1
       else if c =? AML_PARENT_PREFIX then carat_prefix (S (length InternalName)) 0 InternalNameLength InternalName
       else Some 0);
    '(NamesIndex, NumSegments) ← name_kind PrefixLength InternalNameLength InternalName;
    let RequiredLength := u32 (PrefixLength + 4 * NumSegments + (if 0 <? NumSegments then NumSegments - 1 else 0) + 1) in
    if InternalNameLength <? RequiredLength then Some (AE_BAD_PATHNAME, None)
    else
      buf ← copy_bytes (Z.to_nat PrefixLength) 0 0 InternalName (replicate (Z.to_nat RequiredLength) 0);
      buf ← external_segments (Z.to_nat NumSegments) true NamesIndex PrefixLength InternalName buf;
      Some (AE_OK, Some buf).
End NsUtils.

(** ** Paths and their two forms *)
Module Names.
Import Repair NsUtils.

Record path := mkPath {
  p_root : bool;                   (* starts at the root *)
  p_carats : nat;                  (* levels up *)
  p_segs : list (list Z);
}.

Definition name_char (c : Z) : Prop := 65 <= c <= 90 \/ 48 <= c <= 57 \/ c = 95.

Definition seg_ok (s : list Z) : Prop := (1 <= length s <= 4)%nat /\ Forall name_char s.

Record path_ok (p : path) : Prop := {
  ok_root : p_root p = true -> p_carats p = 0%nat;
  ok_some : p_root p = true \/ p_carats p <> 0%nat \/ p_segs p <> [];
  ok_segs : Forall seg_ok (p_segs p);
  ok_count : (length (p_segs p) <= 255)%nat;
  ok_carats : Z.of_nat (p_carats p) < 2 ^ 16;
}.

(** A short segment is padded with underscores. *)
Definition pad (s : list Z) : list Z := s ++ replicate (4 - length s) 95.

Definition padded (p : path) : path := mkPath (p_root p) (p_carats p) (pad <$> p_segs p).

Fixpoint join (segs : list (list Z)) : list Z :=
  match segs with [] => [] | [s] => s | s :: segs' => s ++ 46 :: join segs' end.

Definition prefix_of (p : path) : list Z := if p_root p then [92] else replicate (p_carats p) 94.

(** The external form: a backslash or carats, and the segments with dots between them. *)
Definition external (p : path) : list Z := prefix_of p ++ join (p_segs p) ++ [0].

Definition count_prefix (n : nat) : list Z :=
  if (n <=? 1)%nat then [] else if (n =? 2)%nat then [46] else [47; Z.of_nat n].

(** The internal form: the prefix, the number of segments and the segments, four characters each. *)
Definition internal (p : path) : list Z :=
  prefix_of p ++ count_prefix (length (p_segs p)) ++ concat (pad <$> p_segs p) ++ [0].

(** *** Buffers that are filled from the left *)

Lemma aset_fill w k c i : i = zlen w -> aset (w ++ replicate (S k) 0) i c = Some ((w ++ [c]) ++ replicate k 0).
Proof. intros ->. cbn. rewrite (Sort.aset_mid w 0 c) by done. by rewrite <- app_assoc. Qed.

Lemma aset_same (l : list Z) i c : aget l i = Some c -> aset l i c = Some l.
Proof.
  unfold aget, aset. case_decide; [|done]. intros Hi. pose proof (lookup_lt_Some _ _ _ Hi).
  rewrite decide_True by lia. by rewrite list_insert_id.
Qed.

Lemma name_char_plain c : name_char c ->
  toupper c = c /\ ACPI_IS_PATH_SEPARATOR c = false /\ (c =? 0) = false /\ c <> 92 /\ c <> 94 /\ c <> 46 /\ c <> 47.
Proof.
  intros Hc. unfold toupper, ACPI_IS_PATH_SEPARATOR.
  rewrite (proj2 (Z.leb_gt 97 c)) || idtac; destruct Hc as [Hc|[Hc|Hc]];
    (repeat split; try lia; destruct (97 <=? c) eqn:?; bool_prop; cbn; lia).
Qed.

Lemma pad_length s : seg_ok s -> length (pad s) = 4%nat.
Proof. intros [Hl _]. unfold pad. rewrite length_app, length_replicate. lia. Qed.

Lemma pad_chars s : seg_ok s -> Forall name_char (pad s).
Proof.
  intros [_ Hs]. apply Forall_app. split; [done|]. apply Forall_replicate. by right; right.
Qed.

Lemma pad_ok s : seg_ok s -> seg_ok (pad s).
Proof. intros Hs. split; [rewrite pad_length by done; lia|by apply pad_chars]. Qed.

Lemma pad_pad s : seg_ok s -> pad (pad s) = pad s.
Proof. intros Hs. unfold pad at 1. rewrite pad_length by done. cbn. by rewrite app_nil_r. Qed.

(** *** Writing the internal name *)

Lemma build_chars_spec n : forall s d rest w k,
  (length s <= n <= k)%nat -> Forall name_char s -> d = 46 \/ d = 0 ->
  build_chars n (zlen w) (s ++ d :: rest) (w ++ replicate k 0)
  = Some (d :: rest, (w ++ s ++ replicate (n - length s) 95) ++ replicate (k - n) 0).
Proof.
  induction n as [|n IH]; intros s d rest w k Hl Hs Hd.
  - destruct s; [|cbn in Hl; lia]. cbn. by rewrite app_nil_r, Nat.sub_0_r.
  - destruct k as [|k]; [lia|]. destruct s as [|c s]; cbn [build_chars app head mbind option_bind tail].
    + assert ((ACPI_IS_PATH_SEPARATOR d || (d =? 0))%bool = true) as -> by (destruct Hd as [->| ->]; done).
      rewrite aset_fill by done. cbn [mbind option_bind].
      assert (zlen w + 1 = zlen (w ++ [95])) as -> by (rewrite zlen_app; done).
      specialize (IH [] d rest (w ++ [95]) k). cbn [app length] in IH. rewrite IH by (done || (cbn; lia)).
      cbn [length Nat.sub replicate]. rewrite Nat.sub_0_r, <- !app_assoc. done.
    + apply Forall_cons in Hs as [Hc Hs]. pose proof (name_char_plain c Hc) as (Hu & Hsep & Hz & _).
      rewrite Hsep, Hz. cbn [orb]. rewrite aset_fill, Hu by done. cbn [mbind option_bind].
      assert (zlen w + 1 = zlen (w ++ [c])) as -> by (rewrite zlen_app; done).
      cbn [length] in *. rewrite IH by (done || lia). cbn [Nat.sub].
      rewrite <- !app_assoc. cbn [app]. by rewrite <- !app_assoc.
Qed.

Lemma join_split s segs : exists d rest, join (s :: segs) ++ [0] = s ++ d :: rest /\ (d = 46 \/ d = 0)
  /\ (segs <> [] -> rest = join segs ++ [0]).
Proof.
  destruct segs as [|s' segs].
  - exists 0, []. split; [done|]. split; [by right|done].
  - exists 46, (join (s' :: segs) ++ [0]). split; [|split; [by left|done]].
    cbn [join]. by rewrite <- app_assoc.
Qed.

Lemma build_segments_spec segs : forall w k, Forall seg_ok segs -> (4 * length segs <= k)%nat ->
  build_segments (length segs) (zlen w) (join segs ++ [0]) (w ++ replicate k 0)
  = Some (AE_OK, zlen w + 4 * zlen segs, (w ++ concat (pad <$> segs)) ++ replicate (k - 4 * length segs) 0).
Proof.
  induction segs as [|s segs IH]; intros w k Hok Hk.
  - cbn. by rewrite Z.add_0_r, app_nil_r, Nat.sub_0_r.
  - apply Forall_cons in Hok as [Hs Hok]. destruct (join_split s segs) as (d & rest & -> & Hd & Hrest).
    cbn [length build_segments]. destruct Hs as [Hl Hch]. cbn [length] in Hk.
    rewrite build_chars_spec by (done || (unfold ACPI_NAMESEG_SIZE; lia)). cbn [mbind option_bind head tail].
    assert ((negb (ACPI_IS_PATH_SEPARATOR d) && negb (d =? 0))%bool = false) as -> by (destruct Hd as [->| ->]; done).
    unfold ACPI_NAMESEG_SIZE. fold (pad s). assert (zlen (w ++ pad s) = zlen w + 4) as Hz.
    { rewrite zlen_app. unfold zlen at 2. rewrite pad_length by done. done. }
    rewrite <- Hz. rewrite zlen_cons. destruct segs as [|s' segs].
    + cbn [build_segments length]. cbn [fmap list_fmap concat]. rewrite app_nil_r.
      change (zlen (@nil (list Z))) with 0. by rewrite Hz.
    + rewrite Hrest by done. cbn [length] in *. rewrite IH by (done || lia).
      rewrite Hz. cbn [fmap list_fmap concat]. rewrite <- !app_assoc. do 2 f_equal; [f_equal; lia|].
      by replace (k - 4 - 4 * S (length segs))%nat with (k - 4 * S (S (length segs)))%nat by lia.
Qed.

Lemma write_carats_spec n : forall w k, (n <= k)%nat ->
  write_carats n (zlen w) (w ++ replicate k 0) = Some ((w ++ replicate n 94) ++ replicate (k - n) 0).
Proof.
  induction n as [|n IH]; intros w k Hk; [cbn; by rewrite app_nil_r, Nat.sub_0_r|].
  destruct k as [|k]; [lia|]. cbn [write_carats]. rewrite aset_fill by done. cbn [mbind option_bind].
  assert (zlen w + 1 = zlen (w ++ [94])) as Hz by (rewrite zlen_app; done). unfold AML_PARENT_PREFIX.
  rewrite Hz, IH by lia. cbn [replicate]. by rewrite <- !app_assoc.
Qed.

Lemma write_prefix_spec n w k : (n <= 255)%nat -> (length (count_prefix n) <= k)%nat ->
  write_prefix (zlen w) (Z.of_nat n) (w ++ replicate k 0)
  = Some (zlen (w ++ count_prefix n), (w ++ count_prefix n) ++ replicate (k - length (count_prefix n)) 0).
Proof.
  intros Hn Hk. unfold write_prefix, count_prefix in *.
  destruct (n <=? 1)%nat eqn:E1; [apply Nat.leb_le in E1|apply Nat.leb_gt in E1].
  - rewrite (proj2 (Z.leb_le _ _)) by lia. cbn. by rewrite app_nil_r, Nat.sub_0_r.
  - rewrite (proj2 (Z.leb_gt _ _)) by lia. destruct (n =? 2)%nat eqn:E2; [apply Nat.eqb_eq in E2|apply Nat.eqb_neq in E2].
    + subst n. change (Z.of_nat 2 =? 2) with true. destruct k as [|k]; [cbn in Hk; lia|]. rewrite aset_fill by done. cbn.
      rewrite zlen_app, Nat.sub_0_r. done.
    + rewrite (proj2 (Z.eqb_neq _ _)) by lia. cbn in Hk. destruct k as [|[|k]]; [lia..|].
      rewrite aset_fill by done. cbn [mbind option_bind].
      rewrite aset_fill by (rewrite zlen_app; done). cbn [mbind option_bind].
      unfold AML_MULTI_NAME_PREFIX. rewrite (wrap_small 8) by (split; lia).
      rewrite <- !app_assoc. cbn [app length Nat.sub]. rewrite zlen_app, Nat.sub_0_r. done.
Qed.

(** *** Reading the external name *)

Lemma skip_carats n : forall t m c, head t = Some c -> c <> 94 ->
  skip_prefix ACPI_IS_PARENT_PREFIX (replicate n 94 ++ t) m = Some (m + Z.of_nat n, t).
Proof.
  induction n as [|n IH]; intros t m c Ht Hc.
  - destruct t as [|d t]; [done|]. cbn in Ht. simplify_eq. cbn [replicate app skip_prefix].
    unfold ACPI_IS_PARENT_PREFIX. rewrite (proj2 (Z.eqb_neq _ _) Hc). by rewrite Z.add_0_r.
  - cbn [replicate app skip_prefix]. change (ACPI_IS_PARENT_PREFIX 94) with true. cbn [negb].
    rewrite (IH t _ c) by done. do 2 f_equal. lia.
Qed.

Lemma count_segment s : forall d rest m, Forall name_char s ->
  count_separators (s ++ d :: rest) m = count_separators (d :: rest) m.
Proof.
  induction s as [|c s IH]; intros d rest m Hs; [done|]. apply Forall_cons in Hs as [Hc Hs].
  destruct (name_char_plain c Hc) as (_ & Hsep & Hz & _). cbn [app count_separators]. rewrite Hz, Hsep. by apply IH.
Qed.

Lemma count_join segs : forall m, Forall seg_ok segs -> segs <> [] ->
  count_separators (join segs ++ [0]) m = Some (m + zlen segs - 1).
Proof.
  induction segs as [|s segs IH]; intros m Hok Hne; [done|]. apply Forall_cons in Hok as [[_ Hs] Hok].
  destruct segs as [|s' segs].
  - cbn [join]. rewrite count_segment by done. cbn. f_equal. unfold zlen. cbn. lia.
  - change (join (s :: s' :: segs)) with (s ++ 46 :: join (s' :: segs)). rewrite <- app_assoc. cbn [app].
    rewrite count_segment by done. cbn [count_separators]. change (46 =? 0) with false.
    change (ACPI_IS_PATH_SEPARATOR 46) with true. cbn [negb]. rewrite IH by done. f_equal. rewrite !zlen_cons. lia.
Qed.

(** What follows the prefix starts with a name character or is the terminator. *)
Lemma join_head segs : Forall seg_ok segs ->
  exists c, head (join segs ++ [0]) = Some c /\ c <> 92 /\ c <> 94 /\ (c = 0 <-> segs = []).
Proof.
  intros Hok. destruct segs as [|s segs]; [by exists 0|]. apply Forall_cons in Hok as [[Hl Hs] _].
  destruct s as [|c s]; [cbn in Hl; lia|]. apply Forall_cons in Hs as [Hc _].
  destruct (join_split (c :: s) segs) as (d & rest & E & _). rewrite E. exists c.
  destruct (name_char_plain c Hc) as (_ & _ & Hz & H92 & H94 & _). bool_prop.
  split; [done|]. split; [done|]. split; [done|]. split; [done|]. done.
Qed.

Lemma length_spec p : path_ok p ->
  AcpiNsGetInternalNameLength (external p)
  = Some (mkInfo (join (p_segs p) ++ [0]) (4 * zlen (p_segs p) + 4 + Z.of_nat (p_carats p)) (zlen (p_segs p))
            (Z.of_nat (p_carats p)) (p_root p)).
Proof.
  intros Hok. destruct (join_head _ (ok_segs _ Hok)) as (c & Hc & H92 & H94 & Hc0).
  pose proof (ok_count _ Hok). pose proof (ok_carats _ Hok). pose proof (zlen_nonneg (p_segs p)).
  assert (zlen (p_segs p) <= 255) by (unfold zlen; lia).
  assert (u32 (4 * zlen (p_segs p) + 4 + Z.of_nat (p_carats p)) = 4 * zlen (p_segs p) + 4 + Z.of_nat (p_carats p)) as Eu.
  { apply wrap_small. split; lia. }
  assert ((if negb (c =? 0) then count_separators (join (p_segs p) ++ [0]) 1 else Some 0) = Some (zlen (p_segs p))) as Es.
  { destruct (c =? 0) eqn:E; bool_prop; cbn [negb].
    - by rewrite (proj1 Hc0 E).
    - rewrite count_join; [f_equal; lia|apply (ok_segs _ Hok)|]. intros Hn. by apply E, Hc0. }
  unfold AcpiNsGetInternalNameLength, external, prefix_of. destruct (p_root p) eqn:Er.
  - rewrite (ok_root _ Hok Er) in *. cbn [app head mbind option_bind]. change (ACPI_IS_ROOT_PREFIX 92) with true.
    cbn [tail]. assert (skip_prefix ACPI_IS_ROOT_PREFIX (join (p_segs p) ++ [0]) 0 = Some (0, join (p_segs p) ++ [0])) as ->.
    { destruct (join (p_segs p) ++ [0]) as [|d t]; [done|]. cbn in Hc. simplify_eq. cbn [skip_prefix].
      unfold ACPI_IS_ROOT_PREFIX. by rewrite (proj2 (Z.eqb_neq _ _) H92). }
    cbn [mbind option_bind]. rewrite Hc. cbn [mbind option_bind]. rewrite Es. cbn [mbind option_bind].
    change (Z.of_nat 0) with 0 in *. by rewrite Eu.
  - assert (exists d, head (replicate (p_carats p) 94 ++ join (p_segs p) ++ [0]) = Some d /\ d <> 92) as (d & Hd & Hd92).
    { destruct (p_carats p); [by exists c|]. by exists 94. }
    rewrite Hd. cbn [mbind option_bind]. unfold ACPI_IS_ROOT_PREFIX. rewrite (proj2 (Z.eqb_neq _ _) Hd92).
    rewrite (skip_carats _ _ _ c) by done. cbn [mbind option_bind]. rewrite Hc. cbn [mbind option_bind].
    rewrite Es. cbn [mbind option_bind]. by rewrite Z.add_0_l, Eu.
Qed.

(** *** From the external to the internal form *)

Lemma concat_pad_length segs : Forall seg_ok segs -> zlen (concat (pad <$> segs)) = 4 * zlen segs.
Proof.
  induction 1 as [|s segs Hs _ IH]; [done|]. cbn [fmap list_fmap concat]. rewrite zlen_app, zlen_cons, IH.
  unfold zlen at 1. rewrite pad_length by done. lia.
Qed.

Lemma build_spec p len k : path_ok p ->
  zlen (internal p) <= Z.of_nat k ->
  AcpiNsBuildInternalName (mkInfo (join (p_segs p) ++ [0]) len (zlen (p_segs p))
    (Z.of_nat (p_carats p)) (p_root p)) (replicate k 0)
  = Some (AE_OK, internal p ++ replicate (k - length (internal p)) 0).
Proof.
  intros Hok Hk. unfold AcpiNsBuildInternalName. cbn [FullyQualified NumCarats NumSegments NextExternalChar].
  pose proof (ok_segs _ Hok) as Hsegs. pose proof (concat_pad_length _ Hsegs) as Hcl.
  unfold internal in *. set (pre := prefix_of p) in *. set (n := length (p_segs p)) in *.
  rewrite !zlen_app in Hk. rewrite Hcl in Hk. change (zlen [0]) with 1 in Hk.
  assert (zlen (p_segs p) = Z.of_nat n) as Hn by done. unfold zlen at 1 2 in Hk.
  assert ((if p_root p then buf ← aset (replicate k 0) 0 AML_ROOT_PREFIX; Some (1, buf)
           else buf ← write_carats (Z.to_nat (Z.of_nat (p_carats p))) 0 (replicate k 0); Some (Z.of_nat (p_carats p), buf))
          = Some (zlen pre, pre ++ replicate (k - length pre) 0)) as ->.
  { unfold pre, prefix_of in *. destruct (p_root p).
    - destruct k as [|k]; [cbn in Hk; lia|]. change (replicate (S k) 0) with ([] ++ replicate (S k) 0) at 1.
      rewrite aset_fill by done. cbn. by rewrite Nat.sub_0_r.
    - rewrite length_replicate in Hk. rewrite Nat2Z.id, (write_carats_spec _ [] k) by lia. cbn. unfold zlen.
      by rewrite length_replicate. }
  cbn [mbind option_bind]. rewrite Hn, write_prefix_spec by (apply Hok || lia). cbn [mbind option_bind].
  rewrite Nat2Z.id. unfold n at 1. rewrite build_segments_spec by (done || (fold n; lia)). cbn [mbind option_bind].
  rewrite decide_False by tauto. fold n.
  set (j := (k - length pre - length (count_prefix n) - 4 * n)%nat).
  assert (exists j', j = S j') as (j' & Ej) by (exists (pred j); unfold j; lia). rewrite Ej.
  rewrite aset_fill.
  - cbn [mbind option_bind]. rewrite <- !app_assoc. do 5 f_equal. cbn [app]. f_equal. f_equal.
    rewrite !length_app. cbn [length]. unfold zlen in Hcl. unfold j in Ej. lia.
  - rewrite !zlen_app, Hcl. lia.
Qed.

Lemma internalize_spec p : path_ok p ->
  exists k, AcpiNsInternalizeName (external p) = Some (AE_OK, Some (internal p ++ replicate k 0)).
Proof.
  intros Hok. destruct (join_head _ (ok_segs _ Hok)) as (c & Hc & H92 & H94 & Hc0).
  assert (exists d, head (external p) = Some d /\ d <> 0) as (d & Hd & Hd0).
  { unfold external, prefix_of. destruct (p_root p) eqn:Er; [by exists 92|].
    destruct (p_carats p) eqn:En; [|by exists 94]. exists c. split; [done|]. rewrite Hc0.
    destruct (ok_some _ Hok) as [|[|]]; congruence. }
  unfold AcpiNsInternalizeName. rewrite Hd. cbn [mbind option_bind]. rewrite (proj2 (Z.eqb_neq _ _) Hd0).
  rewrite length_spec by done. cbn [mbind option_bind Length].
  pose proof (zlen_nonneg (p_segs p)). set (N := 4 * zlen (p_segs p) + 4 + Z.of_nat (p_carats p)).
  assert (Z.of_nat (Z.to_nat N) = N) as EN by lia. rewrite build_spec; [|done|].
  - cbn [mbind option_bind]. rewrite decide_True by done. eauto.
  - rewrite EN. unfold internal. rewrite !zlen_app, (concat_pad_length _ (ok_segs _ Hok)). change (zlen [0]) with 1.
    unfold prefix_of, N. pose proof (ok_root _ Hok).
    assert (zlen (if p_root p then [92] else replicate (p_carats p) 94) <= Z.max 1 (Z.of_nat (p_carats p))) as Hpre.
    { unfold zlen. destruct (p_root p); [cbn [length]; lia|]. rewrite length_replicate. lia. }
    assert (zlen (count_prefix (length (p_segs p))) <= 2) as Hcnt.
    { unfold count_prefix. destruct (_ <=? _)%nat; [done|]. by destruct (_ =? _)%nat. }
    lia.
Qed.

(** *** From the internal to the external form *)

Lemma copy_bytes_spec b : forall a c w k,
  (length b <= k)%nat ->
  copy_bytes (length b) (zlen a) (zlen w) (a ++ b ++ c) (w ++ replicate k 0)
  = Some ((w ++ b) ++ replicate (k - length b) 0).
Proof.
  induction b as [|x b IH]; intros a c w k Hk; [cbn; by rewrite app_nil_r, Nat.sub_0_r|].
  cbn [length] in *. destruct k as [|k]; [lia|]. cbn [copy_bytes app]. rewrite Sort.aget_mid by done. cbn [mbind option_bind].
  rewrite aset_fill by done. cbn [mbind option_bind].
  assert (zlen a + 1 = zlen (a ++ [x])) as -> by (rewrite zlen_app; done).
  assert (zlen w + 1 = zlen (w ++ [x])) as -> by (rewrite zlen_app; done).
  specialize (IH (a ++ [x]) c (w ++ [x]) k ltac:(lia)). rewrite <- !app_assoc in IH. cbn [app] in IH.
  rewrite <- !app_assoc. cbn [app]. by rewrite IH.
Qed.

Lemma repair_valid c i : name_char c -> repair_char c i = c.
Proof.
  intros Hc. unfold repair_char, Tostr.AcpiUtValidNameChar, schar.
  rewrite (proj2 (Z.ltb_lt c 128)) by (destruct Hc as [|[|]]; lia).
  destruct Hc as [Hc|[Hc| ->]]; [|destruct (65 <=? c) eqn:?; [bool_prop; lia|]|done].
  - rewrite (proj2 (Z.leb_le 65 c)), (proj2 (Z.leb_le c 90)) by lia. done.
  - cbn. rewrite (proj2 (Z.leb_le 48 c)), (proj2 (Z.leb_le c 57)) by lia. done.
Qed.

Lemma repair_good w s t : length s = 4%nat -> Forall name_char s ->
  AcpiUtRepairName (w ++ s ++ t) (zlen w) = Some (w ++ s ++ t).
Proof.
  intros Hl Hs. destruct s as [|a [|b [|c [|d [|]]]]]; try done.
  apply Forall_cons in Hs as [Ha Hs]. apply Forall_cons in Hs as [Hb Hs]. apply Forall_cons in Hs as [Hc Hs].
  apply Forall_cons in Hs as [Hd _]. cbn [app].
  assert (aget (w ++ a :: b :: c :: d :: t) (zlen w) = Some a) as Ea by (by apply Sort.aget_mid).
  assert (aget (w ++ a :: b :: c :: d :: t) (zlen w + 1) = Some b) as Eb.
  { rewrite (cons_middle a), app_assoc. apply Sort.aget_mid. by rewrite zlen_app. }
  assert (aget (w ++ a :: b :: c :: d :: t) (zlen w + 2) = Some c) as Ec.
  { change (a :: b :: c :: d :: t) with ([a; b] ++ c :: d :: t). rewrite app_assoc. apply Sort.aget_mid. by rewrite zlen_app. }
  assert (aget (w ++ a :: b :: c :: d :: t) (zlen w + 3) = Some d) as Ed.
  { change (a :: b :: c :: d :: t) with ([a; b; c] ++ d :: t). rewrite app_assoc. apply Sort.aget_mid. by rewrite zlen_app. }
  unfold AcpiUtRepairName. rewrite Ea. cbn [mbind option_bind]. rewrite Eb. cbn [mbind option_bind].
  rewrite Ec. cbn [mbind option_bind]. rewrite Ed. cbn [mbind option_bind].
  destruct (decide _); [done|]. rewrite !repair_valid by done.
  rewrite (aset_same _ _ _ Ea). cbn [mbind option_bind]. rewrite (aset_same _ _ _ Eb). cbn [mbind option_bind].
  rewrite (aset_same _ _ _ Ec). cbn [mbind option_bind]. by rewrite (aset_same _ _ _ Ed).
Qed.

Definition dotted (segs : list (list Z)) : list Z := concat ((fun s => 46 :: pad s) <$> segs).

Lemma join_dotted s segs : join (pad <$> s :: segs) = pad s ++ dotted segs.
Proof.
  revert s. induction segs as [|s' segs IH]; intros s; [cbn; by rewrite app_nil_r|].
  change (join (pad <$> s :: s' :: segs)) with (pad s ++ 46 :: join (pad <$> s' :: segs)). by rewrite IH.
Qed.

Lemma dotted_length segs : Forall seg_ok segs -> length (dotted segs) = (5 * length segs)%nat.
Proof.
  induction 1 as [|s segs Hs _ IH]; [done|]. unfold dotted in *. cbn [fmap list_fmap concat length].
  rewrite length_app, IH. cbn [length]. rewrite pad_length by done. lia.
Qed.

Lemma external_step s a b w k : seg_ok s -> (4 <= k)%nat ->
  (buf ← copy_bytes ACPI_NAMESEG_SIZE (zlen a) (zlen w) (a ++ pad s ++ b) (w ++ replicate k 0);
   AcpiUtRepairName buf (zlen w)) = Some ((w ++ pad s) ++ replicate (k - 4) 0).
Proof.
  intros Hs Hk. unfold ACPI_NAMESEG_SIZE. rewrite <- (pad_length s Hs). rewrite copy_bytes_spec by (rewrite pad_length; done).
  cbn [mbind option_bind]. rewrite <- app_assoc, repair_good; [done|by apply pad_length|by apply pad_chars].
Qed.

Lemma external_rest segs : forall a b w k, Forall seg_ok segs -> (5 * length segs <= k)%nat ->
  external_segments (length segs) false (zlen a) (zlen w) (a ++ concat (pad <$> segs) ++ b) (w ++ replicate k 0)
  = Some ((w ++ dotted segs) ++ replicate (k - 5 * length segs) 0).
Proof.
  induction segs as [|s segs IH]; intros a b w k Hok Hk; [cbn; by rewrite app_nil_r, Nat.sub_0_r|].
  apply Forall_cons in Hok as [Hs Hok]. cbn [length] in *. destruct k as [|k]; [lia|].
  cbn [external_segments]. rewrite aset_fill by done. cbn [mbind option_bind].
  assert (zlen w + 1 = zlen (w ++ [46])) as -> by (rewrite zlen_app; done).
  cbn [fmap list_fmap concat]. rewrite <- app_assoc.
  pose proof (external_step s a (concat (pad <$> segs) ++ b) (w ++ [46]) k Hs ltac:(lia)) as E.
  apply bind_Some in E as (buf & E1 & E2). rewrite E1. cbn [mbind option_bind]. rewrite E2. cbn [mbind option_bind].
  assert (zlen a + 4 = zlen (a ++ pad s)) as ->.
  { rewrite zlen_app. unfold zlen at 3. by rewrite pad_length. }
  assert (zlen (w ++ [46]) + 4 = zlen ((w ++ [46]) ++ pad s)) as ->.
  { rewrite (zlen_app (w ++ [46])). unfold zlen at 3. by rewrite pad_length. }
  rewrite (app_assoc a). rewrite IH by (done || lia). unfold dotted. cbn [fmap list_fmap concat].
  rewrite <- !app_assoc. cbn [app].
  by replace (S k - 5 * S (length segs))%nat with (k - 4 - 5 * length segs)%nat by lia.
Qed.

Lemma external_all segs a b w k : Forall seg_ok segs -> (length (join (pad <$> segs)) <= k)%nat ->
  external_segments (length segs) true (zlen a) (zlen w) (a ++ concat (pad <$> segs) ++ b) (w ++ replicate k 0)
  = Some ((w ++ join (pad <$> segs)) ++ replicate (k - length (join (pad <$> segs))) 0).
Proof.
  intros Hok Hk. destruct segs as [|s segs]; [cbn; by rewrite app_nil_r, Nat.sub_0_r|].
  apply Forall_cons in Hok as [Hs Hok]. rewrite join_dotted in *. rewrite length_app, pad_length, dotted_length in * by done.
  cbn [length external_segments mbind option_bind]. cbn [fmap list_fmap concat]. rewrite <- app_assoc.
  pose proof (external_step s a (concat (pad <$> segs) ++ b) w k Hs ltac:(lia)) as E.
  apply bind_Some in E as (buf & E1 & E2). rewrite E1. cbn [mbind option_bind]. rewrite E2. cbn [mbind option_bind].
  assert (zlen a + 4 = zlen (a ++ pad s)) as ->.
  { rewrite zlen_app. unfold zlen at 3. by rewrite pad_length. }
  assert (zlen w + 4 = zlen (w ++ pad s)) as ->.
  { rewrite zlen_app. unfold zlen at 3. by rewrite pad_length. }
  rewrite (app_assoc a). rewrite external_rest by (done || lia).
  rewrite <- !app_assoc. by replace (k - (4 + 5 * length segs))%nat with (k - 4 - 5 * length segs)%nat by lia.
Qed.

Lemma carat_prefix_spec n : forall w fuel c t len, c <> 94 -> (n < fuel)%nat -> zlen w + Z.of_nat n < len ->
  carat_prefix fuel (zlen w) len (w ++ replicate n 94 ++ c :: t) = Some (zlen w + Z.of_nat n).
Proof.
  induction n as [|n IH]; intros w fuel c t len Hc Hf Hl; (destruct fuel as [|fuel]; [lia|]);
    cbn [carat_prefix replicate app]; rewrite (proj2 (Z.ltb_lt _ _)) by lia;
    rewrite Sort.aget_mid by done; cbn [mbind option_bind]; unfold ACPI_IS_PARENT_PREFIX.
  - rewrite (proj2 (Z.eqb_neq _ _) Hc). f_equal. lia.
  - change (94 =? 94) with true. cbn [negb].
    specialize (IH (w ++ [94]) fuel c t len Hc ltac:(lia)).
    rewrite zlen_app, <- app_assoc in IH. cbn [app] in IH. change (zlen [94]) with 1 in IH.
    rewrite IH by lia. f_equal. lia.
Qed.

(** What follows the prefix of an internal name decides how many segments there are. *)
Lemma kind_spec pre segs rest len : Forall seg_ok segs -> (length segs <= 255)%nat -> zlen pre < len ->
  exists c t i, count_prefix (length segs) ++ concat (pad <$> segs) ++ [0] ++ rest = c :: t /\ c <> 92 /\ c <> 94
    /\ name_kind (zlen pre) len (pre ++ c :: t) = Some (i, zlen segs)
    /\ (segs <> [] -> i = zlen (pre ++ count_prefix (length segs))).
Proof.
  intros Hok Hn Hl. unfold name_kind. rewrite (proj2 (Z.ltb_lt _ _) Hl).
  destruct segs as [|s [|s' [|s'' segs]]].
  - exists 0, rest, 0. cbn [length count_prefix]. split; [done|]. split; [done|]. split; [done|].
    rewrite (Sort.aget_mid pre _ _ (zlen pre)) by done. split; [done|]. intros Hnil. by destruct Hnil.
  - apply Forall_cons in Hok as [Hs _]. pose proof (pad_chars s Hs) as Hp. pose proof (pad_length s Hs) as Hpl.
    destruct (pad s) as [|c t] eqn:E; [done|]. apply Forall_cons in Hp as [Hc _].
    destruct (name_char_plain c Hc) as (_ & _ & Hz & H92 & H94 & H46 & H47).
    exists c, (t ++ [0] ++ rest), (zlen pre). cbn [fmap list_fmap concat]. rewrite E. cbn [length count_prefix].
    change (count_prefix 1) with (@nil Z). split; [cbn; by rewrite app_nil_r|].
    split; [done|]. split; [done|]. rewrite (Sort.aget_mid pre _ _ (zlen pre)) by done. cbn [mbind option_bind].
    unfold AML_MULTI_NAME_PREFIX, AML_DUAL_NAME_PREFIX.
    rewrite (proj2 (Z.eqb_neq _ _) H47), (proj2 (Z.eqb_neq _ _) H46), Hz. split; [done|]. by rewrite app_nil_r.
  - exists 46, (concat (pad <$> [s; s']) ++ [0] ++ rest), (zlen pre + 1). split; [done|]. split; [done|]. split; [done|].
    rewrite (Sort.aget_mid pre _ _ (zlen pre)) by done. split; [done|]. intros _. by rewrite zlen_app.
  - set (n := length (s :: s' :: s'' :: segs)) in *. assert (3 <= n)%nat as Hn3 by (unfold n; cbn; lia).
    assert (count_prefix n = [47; Z.of_nat n]) as Ec.
    { unfold count_prefix. rewrite (proj2 (Nat.leb_gt _ _)) by lia. by rewrite (proj2 (Nat.eqb_neq _ _)) by lia. }
    rewrite Ec. exists 47, (Z.of_nat n :: concat (pad <$> s :: s' :: s'' :: segs) ++ [0] ++ rest), (zlen pre + 2).
    split; [done|]. split; [done|]. split; [done|]. rewrite (Sort.aget_mid pre _ _ (zlen pre)) by done. cbn [mbind option_bind].
    change (47 =? AML_MULTI_NAME_PREFIX) with true. cbn [negb].
    rewrite cons_middle, app_assoc. rewrite Sort.aget_mid by (rewrite zlen_app; done). cbn [mbind option_bind].
    split; [done|]. intros _. by rewrite zlen_app.
Qed.

Lemma external_length p : path_ok p ->
  zlen (external (padded p))
  = zlen (prefix_of p) + 4 * zlen (p_segs p) + (if 0 <? zlen (p_segs p) then zlen (p_segs p) - 1 else 0) + 1.
Proof.
  intros Hok. unfold external. cbn [padded p_segs]. change (prefix_of (padded p)) with (prefix_of p).
  rewrite !zlen_app. change (zlen [0]) with 1. assert (Forall seg_ok (p_segs p)) as Hs by apply Hok.
  destruct (p_segs p) as [|s segs].
  { change (zlen (@nil (list Z))) with 0. change (zlen (join (pad <$> []))) with 0. change (0 <? 0) with false. lia. }
  apply Forall_cons in Hs as [Hs Hss]. rewrite join_dotted, zlen_app. unfold zlen at 2 3. rewrite pad_length, dotted_length by done.
  rewrite zlen_cons. pose proof (zlen_nonneg segs). rewrite (proj2 (Z.ltb_lt _ _)) by lia. unfold zlen. lia.
Qed.

Lemma prefix_spec p c t rest len : path_ok p -> c <> 92 -> c <> 94 -> rest = c :: t ->
  zlen (prefix_of p) < len ->
  (c0 ← aget (prefix_of p ++ rest) 0;
   if c0 =? AML_ROOT_PREFIX then Some 1
   else if c0 =? AML_PARENT_PREFIX
   then carat_prefix (S (length (prefix_of p ++ rest))) 0 len (prefix_of p ++ rest)
   else Some 0) = Some (zlen (prefix_of p)).
Proof.
  intros Hok H92 H94 -> Hl. unfold prefix_of in *. destruct (p_root p); [done|].
  destruct (p_carats p) as [|n] eqn:En.
  - cbn [replicate app]. change (aget (c :: t) 0) with (Some c). cbn [mbind option_bind].
    unfold AML_ROOT_PREFIX, AML_PARENT_PREFIX. by rewrite (proj2 (Z.eqb_neq _ _) H92), (proj2 (Z.eqb_neq _ _) H94).
  - cbn [replicate app]. change (aget (94 :: replicate n 94 ++ c :: t) 0) with (Some 94). cbn [mbind option_bind].
    change (94 =? AML_ROOT_PREFIX) with false. change (94 =? AML_PARENT_PREFIX) with true. cbn [negb].
    pose proof (carat_prefix_spec (S n) [] (S (length (replicate (S n) 94 ++ c :: t))) c t len H94) as E.
    cbn [replicate app] in E. change (zlen (@nil Z)) with 0 in E. rewrite E.
    + f_equal. unfold zlen. cbn [length]. rewrite length_replicate. lia.
    + cbn [length]. rewrite length_app, length_replicate. lia.
    + unfold zlen in Hl. rewrite length_replicate in Hl. cbn [length]. lia.
Qed.

Lemma externalize_spec p rest : path_ok p ->
  AcpiNsExternalizeName ACPI_UINT32_MAX (internal p ++ rest) = Some (AE_OK, Some (external (padded p))).
Proof.
  intros Hok. pose proof (ok_segs _ Hok) as Hsegs. pose proof (ok_count _ Hok) as Hcount.
  pose proof (ok_carats _ Hok). unfold AcpiNsExternalizeName. change (ACPI_UINT32_MAX =? 0) with false. cbn [negb].
  assert (zlen (prefix_of p) < 2 ^ 16 + 2) as Hpre.
  { unfold prefix_of, zlen. destruct (p_root p); [done|]. rewrite length_replicate. lia. }
  destruct (kind_spec (prefix_of p) (p_segs p) rest ACPI_UINT32_MAX Hsegs Hcount) as (c & t & i & Et & H92 & H94 & Ek & Ei).
  { change ACPI_UINT32_MAX with (2 ^ 32 - 1). lia. }
  assert (internal p ++ rest = prefix_of p ++ c :: t) as En.
  { unfold internal. rewrite <- Et, <- !app_assoc. done. }
  rewrite En. pose proof (prefix_spec p c t (c :: t) ACPI_UINT32_MAX Hok H92 H94 eq_refl) as Ep.
  change ACPI_UINT32_MAX with (2 ^ 32 - 1) in Ep at 1. specialize (Ep ltac:(lia)).
  apply bind_Some in Ep as (c0 & E0 & Ep). rewrite E0. cbn [mbind option_bind]. rewrite Ep. cbn [mbind option_bind].
  rewrite Ek. cbn [mbind option_bind].
  pose proof (external_length p Hok) as Hlen. set (R := zlen (prefix_of p) + 4 * zlen (p_segs p)
    + (if 0 <? zlen (p_segs p) then zlen (p_segs p) - 1 else 0) + 1) in *.
  assert (0 <= zlen (p_segs p) <= 255) as Hzn by (unfold zlen; lia).
  assert (0 < R < 2 ^ 17) as HR.
  { unfold R. pose proof (zlen_nonneg (prefix_of p)). destruct (0 <? _) eqn:E0'; bool_prop; lia. }
  rewrite (wrap_small 32 R) by (split; lia). change ACPI_UINT32_MAX with (2 ^ 32 - 1).
  rewrite (proj2 (Z.ltb_ge _ _)) by lia.
  assert (Z.to_nat R = length (external (padded p))) as ER by (rewrite <- Hlen; unfold zlen; lia).
  assert (Z.to_nat (zlen (prefix_of p)) = length (prefix_of p)) as -> by (unfold zlen; lia).
  pose proof (copy_bytes_spec (prefix_of p) [] (c :: t) [] (Z.to_nat R)) as Ecopy. cbn [app] in Ecopy.
  change (zlen (@nil Z)) with 0 in Ecopy.
  unfold external in ER. change (prefix_of (padded p)) with (prefix_of p) in ER. cbn [padded p_segs] in ER.
  rewrite !length_app in ER. cbn [length] in ER.
  rewrite Ecopy by lia. cbn [mbind option_bind].
  assert (Z.to_nat (zlen (p_segs p)) = length (p_segs p)) as -> by (unfold zlen; lia).
  assert (Z.to_nat R - length (prefix_of p) = length (join (pad <$> p_segs p)) + 1)%nat as -> by lia.
  destruct (decide (p_segs p = [])) as [Enil|Hne].
  - rewrite Enil. cbn [length external_segments fmap list_fmap join mbind option_bind]. do 3 f_equal.
    unfold external. cbn [padded p_segs]. by rewrite Enil.
  - rewrite (Ei Hne). pose proof (external_all (p_segs p) (prefix_of p ++ count_prefix (length (p_segs p))) ([0] ++ rest)
      (prefix_of p) (length (join (pad <$> p_segs p)) + 1) Hsegs ltac:(lia)) as E.
    rewrite <- (app_assoc (prefix_of p)) in E. rewrite Et in E. rewrite E. cbn [mbind option_bind].
    do 3 f_equal. rewrite Nat.add_comm, Nat.add_sub. unfold external. cbn [padded p_segs replicate].
    by rewrite <- app_assoc.
Qed.

(** every well-formed path (up to 255 segments of one to four characters, from the root or up to
    2^16 levels up) is converted to its internal form without leaving the allocated buffer, and converted
    back to the same path with its segments padded to four characters. *)
Theorem name_roundtrip p : path_ok p ->
  exists name, AcpiNsInternalizeName (external p) = Some (AE_OK, Some name)
    /\ AcpiNsExternalizeName ACPI_UINT32_MAX name = Some (AE_OK, Some (external (padded p))).
Proof.
  intros Hok. destruct (internalize_spec p Hok) as (k & E). exists (internal p ++ replicate k 0).
  split; [done|]. by apply externalize_spec.
Qed.

(** The path \_SB.PCI0.AB *)
Definition demo_path : path := mkPath true 0 [[95; 83; 66]; [80; 67; 73; 48]; [65; 66]].

Lemma demo_path_ok : path_ok demo_path.
Proof.
  split; cbn; [done|by left| |lia|done].
  repeat (constructor; [split; [cbn; lia|repeat (constructor; [unfold name_char; lia|]); constructor]|]). constructor.
Qed.

Lemma name_roundtrip_witness :
  AcpiNsInternalizeName (external demo_path)
  = Some (AE_OK, Some [92; 47; 3; 95; 83; 66; 95; 80; 67; 73; 48; 65; 66; 95; 95; 0])
  /\ exists name, AcpiNsInternalizeName (external demo_path) = Some (AE_OK, Some name)
    /\ AcpiNsExternalizeName ACPI_UINT32_MAX name
       = Some (AE_OK, Some [92; 95; 83; 66; 95; 46; 80; 67; 73; 48; 46; 65; 66; 95; 95; 0]).
Proof.
  split; [vm_compute; reflexivity|].
  destruct (name_roundtrip demo_path demo_path_ok) as (name & E1 & E2). exists name. split; [exact E1|exact E2].
Defined.

(** A longer internal name passed with its own length is refused: the space for the dots is compared
    with the length of the internal form, which has none. *)
Lemma externalize_own_length :
  AcpiNsInternalizeName [92; 65; 46; 66; 46; 67; 46; 68; 0]
  = Some (AE_OK, Some [92; 47; 4; 65; 95; 95; 95; 66; 95; 95; 95; 67; 95; 95; 95; 68; 95; 95; 95; 0])
  /\ AcpiNsExternalizeName 20 [92; 47; 4; 65; 95; 95; 95; 66; 95; 95; 95; 67; 95; 95; 95; 68; 95; 95; 95; 0]
  = Some (AE_BAD_PATHNAME, None).
Proof. split; vm_compute; reflexivity. Qed.
End Names.

(** ** Normalisation in place (nsnames.c) *)
Module Normalize.
Import Names.

(** The loop over one segment: up to four characters, the output and the rest. *)
Fixpoint normal_seg (n : nat) (first : bool) (s : list Z) : list Z * list Z :=
  match n, s with
  | S n', c :: s' =>
      let '(out, rest) := normal_seg n' false s' in
      ((if first || negb (c =? 95) then c :: out else out), rest)
  | _, _ => ([], s)
  end.

(** The loop over the path. *)
Fixpoint normal_path (fuel : nat) (s : list Z) : option (list Z) :=
  match fuel with
  | O => None
  | S fuel' =>
      match s with
      | [] => Some []
      | _ =>
          let '(out, rest) := normal_seg ACPI_NAMESEG_SIZE true s in
          '(dot, rest) ← Some (match rest with 46 :: rest' => ([46], rest') | _ => ([], rest) end);
          tl ← normal_path fuel' rest; Some (out ++ dot ++ tl)
      end
  end.

Fixpoint carats (s : list Z) : list Z * list Z :=
  match s with
  | 94 :: s' => let '(out, rest) := carats s' in (94 :: out, rest)
  | _ => ([], s)
  end.

(** The new path for the characters [s] of the original one. *)
Definition normalized (s : list Z) : option (list Z) :=
  let '(root, s) := match s with 92 :: s' => ([92], s') | _ => ([], s) end in
  let '(up, s) := carats s in
  p ← normal_path (S (length s)) s; Some (root ++ up ++ p).

(** The string at [p] in memory. *)
Fixpoint read_string (fuel : nat) (m : CLib.mem) (p : Z) : option (list Z) :=
  match fuel with
  | O => None
  | S fuel' => c ← m !! p; if c =? 0 then Some [] else s ← read_string fuel' m (p + 1); Some (c :: s)
  end.

(** Fresh memory at [p], zeroed, holding [l] and a terminator. *)
Definition with_buffer (m : CLib.mem) (p : Z) (l : list Z) (size : nat) : CLib.mem :=
  foldr (fun i m => <[p + Z.of_nat i := default 0 (l !! i)]> m) m (seq 0 size).

(** [NewPathBuffer] is the address of the temporary buffer. *)
Definition AcpiNsNormalizePathname (m : CLib.mem) (OriginalPath NewPathBuffer : Z) : option CLib.mem :=
  s ← read_string (CLib.Str.fuel_of m) m OriginalPath;
  new ← normalized s;
  CLib.Str.strcpy (with_buffer m NewPathBuffer new (S (length s))) OriginalPath NewPathBuffer.

(** *** What the loops do to a padded path *)

(** A segment without the underscores behind its first character. *)
Definition squeeze (s : list Z) : list Z :=
  match s with [] => [] | c :: s' => c :: filter (fun c => c <> 95) s' end.

Lemma normal_seg_spec n : forall first s t, length s = n ->
  normal_seg n first (s ++ t) = ((if first then squeeze s else filter (fun c => c <> 95) s), t).
Proof.
  induction n as [|n IH]; intros first [|c s] t Hl; try done; cbn in Hl; [by destruct first|].
  cbn [app normal_seg]. rewrite IH by lia. rewrite filter_cons.
  destruct (Z.eqb_spec c 95) as [->|Hne], first; try done; by rewrite decide_True.
Qed.

Lemma normal_path_spec segs : Forall seg_ok segs -> forall fuel, (length (join (pad <$> segs)) < fuel)%nat ->
  normal_path fuel (join (pad <$> segs)) = Some (join (squeeze <$> (pad <$> segs))).
Proof.
  induction 1 as [|s segs Hs Hsegs IH]; intros [|fuel] Hf; try lia; [done|].
  destruct (pad s) as [|c ps] eqn:Ep; [pose proof (pad_length s Hs) as Hz; by rewrite Ep in Hz|].
  assert (length (c :: ps) = 4%nat) as H4 by (rewrite <- Ep; by apply pad_length).
  destruct segs as [|s' segs]; cbn [fmap list_fmap join] in Hf |- *.
  - rewrite Ep. cbn [normal_path]. rewrite <- (app_nil_r (c :: ps)). rewrite normal_seg_spec by done.
    cbn [mbind option_bind]. destruct fuel; [rewrite Ep in Hf; cbn in Hf, H4; lia|]. cbn. by rewrite !app_nil_r.
  - rewrite Ep. cbn [normal_path app]. change (c :: ps ++ 46 :: ?x) with ((c :: ps) ++ 46 :: x).
    rewrite normal_seg_spec by done. cbn [mbind option_bind].
    change (pad s' :: (pad <$> segs)) with (pad <$> s' :: segs).
    rewrite IH.
    + cbn [mbind option_bind]. done.
    + cbn [fmap list_fmap join]. rewrite Ep, length_app in Hf. cbn in Hf, H4. lia.
Qed.

Lemma carats_spec n : forall s, head s <> Some 94 -> carats (replicate n 94 ++ s) = (replicate n 94, s).
Proof.
  induction n as [|n IH]; intros s Hs.
  - destruct s as [|c s]; [done|]. cbn [replicate app].
    destruct (decide (c = 94)) as [->|]; [done|]. cbn [carats].
    by repeat (match goal with |- context [match ?x with _ => _ end] => destruct x end; try done).
  - cbn [replicate app carats]. by rewrite IH.
Qed.

Lemma join_first segs : Forall seg_ok segs -> segs <> [] ->
  exists c t, join (pad <$> segs) = c :: t /\ name_char c.
Proof.
  intros Hall Hne. destruct segs as [|s segs]; [done|].
  apply Forall_cons in Hall as [Hs _]. pose proof (pad_chars s Hs) as Hc. pose proof (pad_length s Hs) as Hl.
  destruct (pad s) as [|c t] eqn:E; [done|]. apply Forall_cons in Hc as [Hc _].
  destruct segs; cbn [fmap list_fmap join]; rewrite E; [by exists c, t|]. cbn [app]. by eexists _, _.
Qed.

(** The optional backslash at the front. *)
Lemma no_root (l : list Z) : head l <> Some 92 ->
  (match l with 92 :: s' => ([92], s') | _ => ([], l) end) = ([] : list Z, l).
Proof.
  destruct l as [|c l]; [done|]. intros Hl. destruct (decide (c = 92)) as [->|]; [done|].
  by repeat (match goal with |- context [match ?x with _ => _ end] => destruct x end; try done).
Qed.

Lemma join_head_plain segs : Forall seg_ok segs ->
  head (join (pad <$> segs)) <> Some 92 /\ head (join (pad <$> segs)) <> Some 94.
Proof.
  intros Hsegs. destruct segs as [|s segs]; [done|].
  destruct (join_first (s :: segs)) as (c & t' & E & Hc); [done|done|].
  apply name_char_plain in Hc as (_ & _ & _ & ? & ? & _). rewrite E. cbn. split; congruence.
Qed.

Lemma normalized_spec p : path_ok p ->
  normalized (prefix_of p ++ join (pad <$> p_segs p))
  = Some (prefix_of p ++ join (squeeze <$> (pad <$> p_segs p))).
Proof.
  intros [_ _ Hsegs _ _]. destruct p as [root up segs]. cbn [p_segs] in *. unfold prefix_of. cbn [p_root p_carats p_segs].
  destruct (join_head_plain segs Hsegs) as [H92 H94]. pose proof (normal_path_spec segs Hsegs) as Hp.
  remember (join (pad <$> segs)) as l eqn:El. clear El. unfold normalized. destruct root.
  - cbn [app]. rewrite (carats_spec 0 l H94 : carats l = _). rewrite Hp by lia. done.
  - rewrite no_root by (destruct up; [done|]; cbn; congruence).
    rewrite carats_spec by done. rewrite Hp by lia. done.
Qed.

(** Underscores inside a segment are dropped as well: \A_B_.C___ becomes \AB.C. *)
Lemma normalize_inner_underscore :
  normalized [92; 65; 95; 66; 95; 46; 67; 95; 95; 95] = Some [92; 65; 66; 46; 67].
Proof. vm_compute. reflexivity. Qed.

Lemma squeeze_length s : (length (squeeze s) <= length s)%nat.
Proof. destruct s as [|c s]; [done|]. cbn. pose proof (length_filter (fun c => c <> 95) s). lia. Qed.

Lemma join_length f segs : (forall s, (length (f s) <= length s)%nat) ->
  (length (join (f <$> segs)) <= length (join segs))%nat.
Proof.
  intros Hf. induction segs as [|s segs IH]; [done|]. pose proof (Hf s).
  destruct segs as [|s' segs]; [done|]. cbn [fmap list_fmap join] in *. rewrite !length_app. cbn [length]. lia.
Qed.

(** *** The path in memory *)

Lemma with_buffer_lookup m p l n q :
  with_buffer m p l n !! q
  = if decide (p <= q < p + Z.of_nat n) then Some (default 0 (l !! Z.to_nat (q - p))) else m !! q.
Proof.
  enough (forall n k, foldr (fun i m => <[p + Z.of_nat i := default 0 (l !! i)]> m) m (seq k n) !! q
    = if decide (p + Z.of_nat k <= q < p + Z.of_nat (k + n)) then Some (default 0 (l !! Z.to_nat (q - p))) else m !! q)
    as H by (unfold with_buffer; rewrite H; f_equal; cbn; by rewrite Z.add_0_r).
  clear n. intros n. induction n as [|n IH]; intros k; cbn.
  - by rewrite decide_False by lia.
  - destruct (decide (q = p + Z.of_nat k)) as [->|Hne].
    + rewrite lookup_insert_eq, decide_True by lia. do 3 f_equal. lia.
    + rewrite lookup_insert_ne, IH by done. destruct (decide (p + Z.of_nat k <= q < p + Z.of_nat (k + S n))).
      * by rewrite decide_True by lia.
      * by rewrite decide_False by lia.
Qed.

Lemma read_string_spec m s : forall fuel p, cstr_at m p s -> (length s < fuel)%nat ->
  read_string fuel m p = Some s.
Proof.
  induction s as [|c s IH]; intros fuel p [Hm Hs] Hf; (destruct fuel as [|fuel]; [cbn in Hf; lia|]);
    cbn in Hm, Hf; destruct Hm as [Hp Hm]; cbn [read_string]; rewrite Hp; cbn [mbind option_bind]; [done|].
  apply Forall_cons in Hs as [Hc Hs]. rewrite (proj2 (Z.eqb_neq c 0) Hc).
  rewrite IH; [done|by split|lia].
Qed.

Lemma with_buffer_cstr m p l n : Forall (fun c => c <> 0) l -> (length l < n)%nat ->
  cstr_at (with_buffer m p l n) p l.
Proof.
  intros Hl Hn. split; [|done]. apply bytes_at_intro. intros i b Hi. pose proof (lookup_lt_Some _ _ _ Hi) as Hlt.
  rewrite length_app in Hlt. cbn in Hlt. rewrite with_buffer_lookup, decide_True by lia.
  replace (Z.to_nat (p + Z.of_nat i - p)) with i by lia. f_equal.
  destruct (decide (i < length l)%nat) as [Hi'|Hi'].
  - rewrite lookup_app_l in Hi by done. by rewrite Hi.
  - rewrite lookup_app_r in Hi by lia. rewrite lookup_ge_None_2 by lia.
    replace (i - length l)%nat with 0%nat in Hi by lia. cbn in *. congruence.
Qed.

Lemma join_chars segs : Forall (Forall name_char) segs -> Forall (fun c => c <> 0) (join segs).
Proof.
  assert (forall s, Forall name_char s -> Forall (fun c => c <> 0) s) as Hs.
  { intros s Hs. apply (Forall_impl _ _ _ Hs). intros c Hc. unfold name_char in Hc. lia. }
  induction 1 as [|s segs H Hsegs IH]; [constructor|].
  destruct segs as [|s' segs]; [by apply Hs|]. change (join (s :: s' :: segs)) with (s ++ 46 :: join (s' :: segs)).
  apply Forall_app. split; [by apply Hs|]. by constructor.
Qed.

Lemma squeezed_chars p : path_ok p -> Forall (fun c => c <> 0) (prefix_of p ++ join (squeeze <$> (pad <$> p_segs p))).
Proof.
  intros [_ _ Hsegs _ _]. apply Forall_app. split.
  - unfold prefix_of. destruct (p_root p); [by repeat constructor|]. by apply Forall_replicate.
  - apply join_chars. rewrite !Forall_fmap. apply (Forall_impl _ _ _ Hsegs). intros s Hs. cbn.
    pose proof (pad_chars s Hs) as Hc. destruct (pad s) as [|c ps]; [done|]. apply Forall_cons in Hc as [Hc Hps].
    constructor; [done|]. apply Forall_forall. intros d Hd. apply list_elem_of_filter in Hd as [_ Hd].
    by eapply Forall_forall in Hps.
Qed.

(** normalising a padded path in place writes the path without the underscores behind the first
    character of each segment over its front; the terminator is not copied, so the rest of the old path
    stays behind it, and the path reads as normalised only if nothing was dropped. *)
Theorem normalize_keeps_tail m p addr buffer : path_ok p ->
  cstr_at m addr (prefix_of p ++ join (pad <$> p_segs p)) ->
  addr + zlen (prefix_of p ++ join (pad <$> p_segs p)) < buffer
    \/ buffer + zlen (prefix_of p ++ join (pad <$> p_segs p)) < addr ->
  exists m', AcpiNsNormalizePathname m addr buffer = Some m'
    /\ bytes_at m' addr ((prefix_of p ++ join (squeeze <$> (pad <$> p_segs p)))
        ++ drop (length (prefix_of p ++ join (squeeze <$> (pad <$> p_segs p))))
             ((prefix_of p ++ join (pad <$> p_segs p)) ++ [0])).
Proof.
  intros Hok Hm Hdisj. pose proof (normalized_spec p Hok) as En. pose proof (squeezed_chars p Hok) as Hc.
  assert (length (prefix_of p ++ join (squeeze <$> (pad <$> p_segs p)))
    <= length (prefix_of p ++ join (pad <$> p_segs p)))%nat as Hle.
  { rewrite !length_app. pose proof (join_length squeeze (pad <$> p_segs p) squeeze_length). lia. }
  set (old := prefix_of p ++ join (pad <$> p_segs p)) in *.
  set (new := prefix_of p ++ join (squeeze <$> (pad <$> p_segs p))) in *.
  unfold AcpiNsNormalizePathname, CLib.Str.strcpy.
  rewrite (read_string_spec m old).
  2: done.
  2: { destruct Hm as [Hm _]. apply CLib.Str.bytes_at_size in Hm. rewrite length_app in Hm. cbn in Hm.
       unfold CLib.Str.fuel_of. lia. }
  cbn [mbind option_bind]. rewrite En. cbn [mbind option_bind]. pose proof (proj2 Hm) as Hchars.
  set (m1 := with_buffer m buffer new (S (length old))).
  assert (cstr_at m1 buffer new) as Hnew by (apply with_buffer_cstr; [done|lia]).
  rewrite (CLib.Str.strlen_enough _ _ _ Hnew). cbn [mbind option_bind].
  assert (bytes_at m1 addr (old ++ [0])) as Hold.
  { eapply bytes_at_frame; [|apply Hm]. intros q Hq. unfold m1. rewrite with_buffer_lookup.
    rewrite zlen_app in Hq. change (zlen [0]) with 1 in Hq. rewrite decide_False; [done|]. unfold zlen in *. lia. }
  assert (length new <= length (old ++ [0%Z]))%nat as Hlen by (rewrite length_app; lia).
  rewrite <- (take_drop (length new) (old ++ [0])) in Hold. apply bytes_at_app in Hold as [Hfront Hback].
  destruct (CLib.Crl.memcpy_spec (length new) m1 addr buffer) as (m' & E & Hcp).
  - intros q Hq. apply (CLib.Str.cstr_mapped m1 addr old); [|unfold zlen; lia]. split; [|exact Hchars].
    rewrite <- (take_drop (length new) (old ++ [0])). by apply bytes_at_app.
  - by apply CLib.Str.cstr_mapped.
  - unfold zlen in *. lia.
  - exists m'. split; [done|]. apply bytes_at_app. split.
    + eapply CLib.Crl.copied_bytes; [done|]. destruct Hnew as [Hnew _]. by apply bytes_at_app in Hnew as [Hnew _].
    + unfold zlen in Hback. rewrite length_take_le in Hback by done. fold (zlen new) in Hback.
      eapply bytes_at_frame; [|exact Hback]. intros q Hq. rewrite Hcp.
      rewrite decide_False; [done|]. unfold zlen in *. lia.
Qed.

(** \A___.B___ at 100, and the 11 bytes at 200 for the temporary copy *)
Definition ab_path : path := mkPath true 0 [[65]; [66]].

Definition ab_mem : CLib.mem :=
  list_to_map [(100, 92); (101, 65); (102, 95); (103, 95); (104, 95); (105, 46); (106, 66); (107, 95);
    (108, 95); (109, 95); (110, 0)].

Lemma ab_path_ok : path_ok ab_path.
Proof.
  split; cbn; [done|by left| |lia|done].
  repeat (constructor; [split; [cbn; lia|repeat (constructor; [unfold name_char; lia|]); constructor]|]). constructor.
Qed.

Lemma normalize_keeps_tail_witness :
  exists m', AcpiNsNormalizePathname ab_mem 100 200 = Some m'
    /\ bytes_at m' 100 [92; 65; 46; 66; 95; 46; 66; 95; 95; 95; 0].
Proof.
  destruct (normalize_keeps_tail ab_mem ab_path 100 200 ab_path_ok) as (m' & E & Hb).
  - split; [repeat split; vm_compute; reflexivity|repeat constructor; lia].
  - left. unfold zlen. cbn. lia.
  - exists m'. split; [exact E|exact Hb].
Defined.
End Normalize.
