(* ===== verification/Locks.v ===== *)
(** * Blocking locks: the mutex and the semaphore

    [Mutex] models [CPU/Threading/Mutex.cpp] as an interleaving of threads: one step of a
    thread is one atomic access to the mutex (the compare-exchange, the critical section of the
    wait queue's spin lock, the read or write of the owner, a scheduler call).  [Semaphore] models
    [CPU/Threading/Semaphore.cpp], whose spin lock makes each round of an operation one step.
    Threads are named by their handle, which is what the code compares. *)

From stdpp Require Import functions.
From S2P Require Import Prelude Scheduler.

(** ** The scheduler as the locks see it

    Of a thread only its state matters here: RUNNING stands for a thread that is on the processor or
    waiting for it; a BLOCKED thread makes no step. *)
Module Blocking.
Abbreviation tstates := (tptr -> ThreadState).

Definition mark_as_block_pending (s : tstates) (t : tptr) : tstates := <[t := BLOCK_PENDING]> s.

Definition block (s : tstates) (t : tptr) : tstates :=
  if decide (s t <> BLOCK_PENDING) then s else <[t := BLOCKED]> s.

Definition unblock (s : tstates) (t : option tptr) : tstates :=
  match t with
  | None => s
  | Some t => if decide (s t <> BLOCKED /\ s t <> BLOCK_PENDING) then s else <[t := RUNNING]> s
  end.
End Blocking.

Module Mutex.
Import Blocking.

Record Mutex := mkMutex {
  lock_ : Z;                       (* _lock *)
  owner : option tptr;             (* _owner *)
  wait_queue : list tptr;          (* _wait_queue *)
}.

(** Where a thread is in the mutex's code. *)
Inductive pc :=
  | Idle
  | Lock_cas                       (* lock: before the compare-exchange *)
  | Lock_enqueue                   (* lock: the compare-exchange failed *)
  | Lock_block                     (* lock: queued, before block() *)
  | Lock_check                     (* lock: after block() *)
  | Lock_own                       (* lock, try_lock: the compare-exchange succeeded *)
  | Try_cas                        (* try_lock: before the compare-exchange *)
  | Held                           (* returned with the mutex *)
  | Unlock_check                   (* unlock: before the test for an owner *)
  | Unlock_compare                 (* unlock: before the owner is read again and compared *)
  | Unlock_pop                     (* unlock: before the wait queue's critical section *)
  | Unlock_store (w : option tptr) (* unlock: before the test of the new owner *)
  | Unlock_wake (w : option tptr)  (* unlock: before unblock *).

#[export] Instance pc_eq_dec : EqDecision pc.
Proof. solve_decision. Defined.

Record sys := mkSys { mx : Mutex; tst : tstates; pcs : tptr -> pc }.

(** The step of thread [t] from place [p]; [None] when it is not inside an operation, or (in
    [Lock_check] and [Unlock_compare]) when the code would read the handle of a null owner. *)
Definition step_from (s : sys) (t : tptr) (p : pc) : option sys :=
  let m := mx s in
  let goto p m' st' := Some (mkSys m' st' (<[t := p]> (pcs s))) in
  match p with
  | Idle | Held => None
  | Lock_cas =>
      if lock_ m =? 0 then goto Lock_own (mkMutex 1 (owner m) (wait_queue m)) (tst s)
      else goto Lock_enqueue m (tst s)
  | Lock_enqueue =>
      goto Lock_block (mkMutex (lock_ m) (owner m) (wait_queue m ++ [t])) (mark_as_block_pending (tst s) t)
  | Lock_block => goto Lock_check m (block (tst s) t)
  | Lock_check =>
      match owner m with
      | None => None
      | Some o => goto (if decide (o = t) then Held else Lock_cas) m (tst s)
      end
  | Lock_own => goto Held (mkMutex (lock_ m) (Some t) (wait_queue m)) (tst s)
  | Try_cas =>
      if lock_ m =? 0 then goto Lock_own (mkMutex 1 (owner m) (wait_queue m)) (tst s)
      else goto Idle m (tst s)
  | Unlock_check => goto (match owner m with None => Idle | Some _ => Unlock_compare end) m (tst s)
  | Unlock_compare =>
      match owner m with
      | None => None
      | Some o => goto (if decide (o = t) then Unlock_pop else Idle) m (tst s)
      end
  | Unlock_pop =>
      match wait_queue m with
      | w :: q => goto (Unlock_store (Some w)) (mkMutex (lock_ m) (Some w) q) (tst s)
      | [] => goto (Unlock_store None) (mkMutex (lock_ m) None []) (tst s)
      end
  | Unlock_store w =>
      goto (Unlock_wake w)
        (match owner m with None => mkMutex 0 None (wait_queue m) | Some _ => m end) (tst s)
  | Unlock_wake w => goto Idle m (unblock (tst s) w)
  end.

(** The next step of thread [t]; a blocked thread has none. *)
Definition thread_step (s : sys) (t : tptr) : option sys :=
  if decide (tst s t = BLOCKED) then None else step_from s t (pcs s t).

(** A thread calls an operation: an idle thread may lock, try to lock or unlock; the thread that
    has the mutex may unlock it. *)
Definition call (s : sys) (t : tptr) (p : pc) : sys := mkSys (mx s) (tst s) (<[t := p]> (pcs s)).

Inductive step (s : sys) : sys -> Prop :=
  | step_thread t s' : thread_step s t = Some s' -> step s s'
  | step_lock t : pcs s t = Idle -> step s (call s t Lock_cas)
  | step_try_lock t : pcs s t = Idle -> step s (call s t Try_cas)
  | step_unlock t : pcs s t = Idle \/ pcs s t = Held -> step s (call s t Unlock_check).

Definition initial : sys := mkSys (mkMutex 0 None []) (fun _ => RUNNING) (fun _ => Idle).

Inductive reachable : sys -> Prop :=
  | reach_initial : reachable initial
  | reach_step s s' : reachable s -> step s s' -> reachable s'.

(** ** The invariant

    Two ghost values describe a reachable state: [h] is the thread that has the right to the mutex
    (the owner, a thread between the compare-exchange and its registration as owner, or one between
    giving up ownership and clearing [_lock]); [k] is the pair of a thread in [unlock] and the thread
    it took from the queue and has not woken yet. *)

(** The state a thread sleeps in, or is about to sleep in. *)
Definition asleep (p : pc) (st : ThreadState) : Prop :=
  (p = Lock_block /\ st = BLOCK_PENDING) \/ (p = Lock_check /\ st = BLOCKED).

Definition thread_ok (m : Mutex) (h : option tptr) (k : option (tptr * tptr)) (t : tptr)
    (p : pc) (st : ThreadState) : Prop :=
  match p with
  | Idle | Lock_cas | Try_cas | Lock_enqueue | Unlock_wake None => st = RUNNING /\ h <> Some t
  | Unlock_check | Unlock_compare => st = RUNNING /\ (h = Some t -> owner m = Some t)
  | Lock_own | Unlock_store None => st = RUNNING /\ h = Some t /\ owner m = None
  | Held | Unlock_pop => st = RUNNING /\ h = Some t /\ owner m = Some t
  | Lock_block | Lock_check =>
      (st = RUNNING /\ h = Some t /\ owner m = Some t /\ (forall u, k <> Some (u, t)))
      \/ (asleep p st /\ t ∈ wait_queue m /\ h <> Some t)
      \/ (asleep p st /\ h = Some t /\ owner m = Some t /\ exists u, k = Some (u, t))
  | Unlock_store (Some w) | Unlock_wake (Some w) => st = RUNNING /\ h <> Some t /\ k = Some (t, w)
  end.

Definition waker_pc (p : pc) (w : tptr) : Prop := p = Unlock_store (Some w) \/ p = Unlock_wake (Some w).

Record inv_with (h : option tptr) (k : option (tptr * tptr)) (s : sys) : Prop := {
  inv_threads : forall t, thread_ok (mx s) h k t (pcs s t) (tst s t);
  inv_lock : lock_ (mx s) = match h with None => 0 | Some _ => 1 end;
  inv_owner : forall o, owner (mx s) = Some o -> h = Some o;
  inv_nodup : NoDup (wait_queue (mx s));
  inv_queue : forall t, t ∈ wait_queue (mx s) -> asleep (pcs s t) (tst s t) /\ h <> Some t;
  inv_waker : forall u w, k = Some (u, w) ->
    waker_pc (pcs s u) w /\ asleep (pcs s w) (tst s w) /\ owner (mx s) = Some w;
}.

Definition inv (s : sys) : Prop := exists h k, inv_with h k s.

(** What a step of another thread may change without a thread noticing. *)
Lemma thread_ok_frame m h k m' h' k' t p st :
  thread_ok m h k t p st ->
  (h' = Some t <-> h = Some t) -> (h = Some t -> owner m' = owner m) ->
  (forall u, k' = Some (u, t) <-> k = Some (u, t)) -> (forall w, k = Some (t, w) -> k' = Some (t, w)) ->
  (t ∈ wait_queue m -> t ∈ wait_queue m') ->
  thread_ok m' h' k' t p st.
Proof.
  intros Ht Hh Ho Hk Hw Hq. destruct p as [| | | | | | | | | | |[w|]|[w|]]; cbn in *.
  all: try (destruct Ht as [-> Ht]; split; [done|]; rewrite Hh; clear Hq; naive_solver).
  all: try (destruct Ht as (-> & H1 & H2); rewrite Hh, Ho by done; done).
  all: try (destruct Ht as (-> & H1 & H2); rewrite Hh; auto).
  - destruct Ht as [(? & H1 & ? & H3)|[(? & ? & ?)|(? & H1 & ? & u & ?)]].
    + left. rewrite Hh, Ho by done. split; [done|]. split; [done|]. split; [done|]. intros u. by rewrite Hk.
    + right; left. rewrite Hh. auto.
    + right; right. rewrite Hh, Ho by done. split; [done|]. split; [done|]. split; [done|]. exists u. by apply Hk.
  - destruct Ht as [(? & H1 & ? & H3)|[(? & ? & ?)|(? & H1 & ? & u & ?)]].
    + left. rewrite Hh, Ho by done. split; [done|]. split; [done|]. split; [done|]. intros u. by rewrite Hk.
    + right; left. rewrite Hh. auto.
    + right; right. rewrite Hh, Ho by done. split; [done|]. split; [done|]. split; [done|]. exists u. by apply Hk.
  - destruct Ht as [-> Ht]. split; [done|]. intros E. apply Hh in E. rewrite Ho by done. auto.
  - destruct Ht as [-> Ht]. split; [done|]. intros E. apply Hh in E. rewrite Ho by done. auto.
Qed.

Lemma asleep_not_running p : ~ asleep p RUNNING.
Proof. intros [[_ H]|[_ H]]; done. Qed.

(** Thread [t] moves to [p']; the others keep their place and state. *)
Lemma inv_move h k s m' h' k' st' t p' :
  inv_with h k s ->
  (forall x, x <> t -> st' x = tst s x) ->
  thread_ok m' h' k' t p' (st' t) ->
  (forall x, x <> t -> thread_ok m' h' k' x (pcs s x) (tst s x)) ->
  lock_ m' = (match h' with None => 0 | Some _ => 1 end) ->
  (forall o, owner m' = Some o -> h' = Some o) ->
  NoDup (wait_queue m') ->
  (forall x, x ∈ wait_queue m' -> asleep (<[t := p']> (pcs s) x) (st' x) /\ h' <> Some x) ->
  (forall u w, k' = Some (u, w) ->
     waker_pc (<[t := p']> (pcs s) u) w /\ asleep (<[t := p']> (pcs s) w) (st' w) /\ owner m' = Some w) ->
  inv (mkSys m' st' (<[t := p']> (pcs s))).
Proof.
  intros Hi Hst Ht Hx Hl Ho Hn Hq Hk. exists h', k'. split; cbn; try done.
  intros x. destruct (decide (x = t)) as [->|Hne].
  - by rewrite fn_lookup_insert.
  - rewrite fn_lookup_insert_ne by done. rewrite Hst by done. auto.
Qed.

(** A move between two places that are no places to sleep, without a change to the mutex. *)
Lemma inv_move_pc h k s t p' :
  inv_with h k s -> tst s t = RUNNING -> (forall w, ~ waker_pc (pcs s t) w) ->
  thread_ok (mx s) h k t p' RUNNING ->
  inv (mkSys (mx s) (tst s) (<[t := p']> (pcs s))).
Proof.
  intros Hi Hrun Hnw Hp.
  assert (forall x, asleep (pcs s x) (tst s x) -> asleep (<[t := p']> (pcs s) x) (tst s x)) as Hsl.
  { intros x Hx. destruct (decide (x = t)) as [->|Hne].
    - rewrite Hrun in Hx. by apply asleep_not_running in Hx.
    - by rewrite fn_lookup_insert_ne by done. }
  apply (inv_move h k s (mx s) h k (tst s)); try done.
  - by rewrite Hrun.
  - intros x _. apply (inv_threads _ _ _ Hi).
  - apply Hi.
  - apply Hi.
  - apply Hi.
  - intros x Hx. destruct (inv_queue _ _ _ Hi x Hx). auto.
  - intros u w Hk. destruct (inv_waker _ _ _ Hi u w Hk) as (Hu & Hw & Ho).
    split; [|split; [|done]]; [|by apply Hsl].
    destruct (decide (u = t)) as [->|Hne]; [|by rewrite fn_lookup_insert_ne by done].
    by apply Hnw in Hu.
Qed.

Lemma call_inv s t p :
  inv s -> (pcs s t = Idle /\ (p = Lock_cas \/ p = Try_cas \/ p = Unlock_check))
           \/ (pcs s t = Held /\ p = Unlock_check) ->
  inv (call s t p).
Proof.
  intros (h & k & Hi) Hp. pose proof (inv_threads _ _ _ Hi t) as Ht.
  apply (inv_move_pc h k); [done| | |].
  - destruct Hp as [[E _]|[E _]]; rewrite E in Ht; apply Ht.
  - intros w [Hw|Hw]; destruct Hp as [[E _]|[E _]]; congruence.
  - destruct Hp as [[E Hp]|[E ->]]; rewrite E in Ht; cbn in *.
    + destruct Ht as [_ Ht]. destruct Hp as [->|[->| ->]]; cbn; by split.
    + destruct Ht as (_ & H1 & H2). by split.
Qed.

Lemma not_owner_no_waker h k s t : inv_with h k s -> owner (mx s) = None \/ 
  (owner (mx s) = Some t /\ tst s t = RUNNING) -> k = None.
Proof.
  intros Hi Ho. destruct k as [[u w]|]; [|done].
  destruct (inv_waker _ _ _ Hi u w eq_refl) as (_ & Hw & E).
  destruct Ho as [Ho|[Ho Hr]]; [congruence|]. assert (w = t) as -> by congruence.
  rewrite Hr in Hw. by apply asleep_not_running in Hw.
Qed.

(** The compare-exchange succeeds. *)
Lemma claim_inv h k s t :
  inv_with h k s -> tst s t = RUNNING -> (forall w, ~ waker_pc (pcs s t) w) -> lock_ (mx s) = 0 ->
  inv (mkSys (mkMutex 1 (owner (mx s)) (wait_queue (mx s))) (tst s) (<[t := Lock_own]> (pcs s))).
Proof.
  intros Hi Hrun Hnw Hl. pose proof (inv_lock _ _ _ Hi) as Hl'. destruct h as [o|]; [congruence|].
  assert (owner (mx s) = None) as Ho.
  { destruct (owner (mx s)) as [o|] eqn:E; [|done]. by apply (inv_owner _ _ _ Hi) in E. }
  assert (k = None) as -> by (apply (not_owner_no_waker _ _ _ t Hi); auto).
  apply (inv_move None None s _ (Some t) None (tst s)); cbn [lock_ owner wait_queue]; try done.
  - intros x Hx. eapply thread_ok_frame; [apply (inv_threads _ _ _ Hi)|..]; cbn; naive_solver.
  - rewrite Ho. done.
  - apply Hi.
  - intros x Hx. destruct (inv_queue _ _ _ Hi x Hx) as [Hs _].
    assert (x <> t) by (intros ->; rewrite Hrun in Hs; by apply asleep_not_running in Hs).
    rewrite fn_lookup_insert_ne by done. split; [done|]. congruence.
Qed.

Lemma enqueue_inv h k s t :
  inv_with h k s -> pcs s t = Lock_enqueue ->
  inv (mkSys (mkMutex (lock_ (mx s)) (owner (mx s)) (wait_queue (mx s) ++ [t]))
         (mark_as_block_pending (tst s) t) (<[t := Lock_block]> (pcs s))).
Proof.
  intros Hi Hp. pose proof (inv_threads _ _ _ Hi t) as Ht. rewrite Hp in Ht. destruct Ht as [Hrun Hh].
  assert (forall x, asleep (pcs s x) (tst s x) -> t <> x) as Hne.
  { intros x Hx <-. rewrite Hrun in Hx. by apply asleep_not_running in Hx. }
  unfold mark_as_block_pending.
  apply (inv_move h k s _ h k); cbn [lock_ owner wait_queue]; try apply Hi.
  - intros x Hx. by rewrite fn_lookup_insert_ne.
  - rewrite fn_lookup_insert. right; left. split; [by left|]. split; [set_solver|done].
  - intros x Hx. eapply thread_ok_frame; [apply (inv_threads _ _ _ Hi)|..]; cbn; try done. set_solver.
  - apply NoDup_app. split; [apply Hi|]. split; [|apply NoDup_singleton].
    intros x Hx ->%list_elem_of_singleton. destruct (inv_queue _ _ _ Hi t Hx) as [Hs _]. by apply Hne in Hs.
  - intros x [Hx| ->%list_elem_of_singleton]%elem_of_app.
    + destruct (inv_queue _ _ _ Hi x Hx) as [Hs Hx']. rewrite !fn_lookup_insert_ne by auto. done.
    + rewrite !fn_lookup_insert. split; [by left|done].
  - intros u w Hk. destruct (inv_waker _ _ _ Hi u w Hk) as (Hu & Hw & Ho).
    rewrite (fn_lookup_insert_ne _ t w), (fn_lookup_insert_ne (tst s)) by auto.
    split; [|done]. rewrite fn_lookup_insert_ne; [done|]. intros <-. rewrite Hp in Hu. by destruct Hu.
Qed.

Lemma mutex_block_inv h k s t :
  inv_with h k s -> pcs s t = Lock_block ->
  inv (mkSys (mx s) (block (tst s) t) (<[t := Lock_check]> (pcs s))).
Proof.
  intros Hi Hp. pose proof (inv_threads _ _ _ Hi t) as Ht. rewrite Hp in Ht. cbn in Ht.
  destruct Ht as [(Hr & Hh & Ho & Hk)|Hs].
  - unfold block. rewrite decide_True by (rewrite Hr; done). apply (inv_move_pc h k); [done|done| |].
    + intros w [H|H]; congruence.
    + left. done.
  - assert (tst s t = BLOCK_PENDING) as Hb by (destruct Hs as [(Hs & _)|(Hs & _)]; destruct Hs as [[_ ?]|[? _]]; congruence).
    unfold block. rewrite decide_False by (rewrite Hb; auto).
    assert (forall x, asleep (pcs s x) (tst s x) ->
      asleep (<[t := Lock_check]> (pcs s) x) (<[t := BLOCKED]> (tst s) x)) as Hsl.
    { intros x Hx. destruct (decide (x = t)) as [->|]; [rewrite !fn_lookup_insert; by right|].
      by rewrite !fn_lookup_insert_ne by done. }
    apply (inv_move h k s _ h k); cbn [lock_ owner wait_queue]; try apply Hi.
    + intros x Hx. by rewrite fn_lookup_insert_ne.
    + rewrite fn_lookup_insert. right. destruct Hs as [(_ & H)|(_ & H)]; [left|right]; (split; [by right|done]).
    + intros x Hx. apply (inv_threads _ _ _ Hi).
    + intros x Hx. destruct (inv_queue _ _ _ Hi x Hx). auto.
    + intros u w Hk. destruct (inv_waker _ _ _ Hi u w Hk) as (Hu & Hw & Ho).
      split; [|auto]. rewrite fn_lookup_insert_ne; [done|]. intros <-. rewrite Hp in Hu. by destruct Hu.
Qed.

Lemma own_inv h k s t :
  inv_with h k s -> pcs s t = Lock_own ->
  inv (mkSys (mkMutex (lock_ (mx s)) (Some t) (wait_queue (mx s))) (tst s) (<[t := Held]> (pcs s))).
Proof.
  intros Hi Hp. pose proof (inv_threads _ _ _ Hi t) as Ht. rewrite Hp in Ht. destruct Ht as (Hrun & Hh & Ho).
  assert (k = None) as -> by (apply (not_owner_no_waker _ _ _ t Hi); auto).
  apply (inv_move h None s _ h None (tst s)); cbn [lock_ owner wait_queue]; try done; try apply Hi.
  - intros x Hx. eapply thread_ok_frame; [apply (inv_threads _ _ _ Hi)|..]; cbn; try done. congruence.
  - congruence.
  - intros x Hx. destruct (inv_queue _ _ _ Hi x Hx) as [Hs ?].
    assert (t <> x) by (intros ->; rewrite Hrun in Hs; by apply asleep_not_running in Hs).
    by rewrite fn_lookup_insert_ne.
Qed.

Lemma pop_inv h k s t w q :
  inv_with h k s -> pcs s t = Unlock_pop -> wait_queue (mx s) = w :: q ->
  inv (mkSys (mkMutex (lock_ (mx s)) (Some w) q) (tst s) (<[t := Unlock_store (Some w)]> (pcs s))).
Proof.
  intros Hi Hp Hq. pose proof (inv_threads _ _ _ Hi t) as Ht. rewrite Hp in Ht. destruct Ht as (Hrun & Hh & Ho).
  assert (k = None) as -> by (apply (not_owner_no_waker _ _ _ t Hi); auto).
  destruct (inv_queue _ _ _ Hi w) as [Hw Hhw]; [rewrite Hq; left|].
  pose proof (inv_nodup _ _ _ Hi) as Hnd. rewrite Hq in Hnd. apply NoDup_cons in Hnd as [Hwq Hnd].
  assert (t <> w) as Htw by (intros ->; congruence).
  apply (inv_move h None s _ (Some w) (Some (t, w)) (tst s)); cbn [lock_ owner wait_queue]; try done.
  - cbn. split; [done|]. split; [congruence|done].
  - intros x Hx. destruct (decide (x = w)) as [->|Hxw].
    + pose proof (inv_threads _ _ _ Hi w) as Hok. destruct Hw as [[E1 E2]|[E1 E2]]; rewrite E1, E2 in *; cbn;
        right; right; (split; [by (left + right)|]); eauto.
    + eapply thread_ok_frame; [apply (inv_threads _ _ _ Hi)|..]; cbn; try done.
      * split; congruence. * congruence. * intros u. split; congruence.
      * rewrite Hq, elem_of_cons. by intros [->|].
  - rewrite (inv_lock _ _ _ Hi), Hh. done.
  - intros x Hx. destruct (inv_queue _ _ _ Hi x) as [Hs Hhx]; [rewrite Hq; by right|].
    rewrite fn_lookup_insert_ne by congruence. split; [done|]. intros [= ->]. done.
  - intros u w' [= <- <-]. rewrite fn_lookup_insert, fn_lookup_insert_ne by done. split; [by left|done].
Qed.

Lemma pop_empty_inv h k s t :
  inv_with h k s -> pcs s t = Unlock_pop -> wait_queue (mx s) = [] ->
  inv (mkSys (mkMutex (lock_ (mx s)) None []) (tst s) (<[t := Unlock_store None]> (pcs s))).
Proof.
  intros Hi Hp Hq. pose proof (inv_threads _ _ _ Hi t) as Ht. rewrite Hp in Ht. destruct Ht as (Hrun & Hh & Ho).
  assert (k = None) as -> by (apply (not_owner_no_waker _ _ _ t Hi); auto).
  apply (inv_move h None s _ h None (tst s)); cbn [lock_ owner wait_queue]; try done.
  - intros x Hx. eapply thread_ok_frame; [apply (inv_threads _ _ _ Hi)|..]; cbn; try done.
    + congruence. + rewrite Hq. by intros ?%not_elem_of_nil.
  - apply Hi.
  - constructor.
  - intros x Hx. by apply not_elem_of_nil in Hx.
Qed.

Lemma store_inv h k s t w :
  inv_with h k s -> pcs s t = Unlock_store w ->
  inv (mkSys (match owner (mx s) with None => mkMutex 0 None (wait_queue (mx s)) | Some _ => mx s end)
         (tst s) (<[t := Unlock_wake w]> (pcs s))).
Proof.
  intros Hi Hp. pose proof (inv_threads _ _ _ Hi t) as Ht. rewrite Hp in Ht. destruct w as [w|].
  - destruct Ht as (Hrun & Hh & Hk). destruct (inv_waker _ _ _ Hi t w Hk) as (_ & Hw & Ho). rewrite Ho.
    assert (forall x, asleep (pcs s x) (tst s x) -> t <> x) as Hne.
    { intros x Hx <-. rewrite Hrun in Hx. by apply asleep_not_running in Hx. }
    apply (inv_move h k s _ h k (tst s)); try done; try apply Hi.
    + intros x _. apply (inv_threads _ _ _ Hi).
    + intros x Hx. destruct (inv_queue _ _ _ Hi x Hx). rewrite fn_lookup_insert_ne by auto. done.
    + intros u w' E. rewrite Hk in E. injection E as <- <-.
      rewrite fn_lookup_insert, fn_lookup_insert_ne by auto. split; [by right|done].
  - destruct Ht as (Hrun & Hh & Ho). rewrite Ho.
    assert (k = None) as -> by (apply (not_owner_no_waker _ _ _ t Hi); auto).
    apply (inv_move h None s _ None None (tst s)); cbn [lock_ owner wait_queue]; try done.
    + intros x Hx. eapply thread_ok_frame; [apply (inv_threads _ _ _ Hi)|..]; cbn; try done.
      split; congruence.
    + apply Hi.
    + intros x Hx. destruct (inv_queue _ _ _ Hi x Hx) as [Hs _].
      assert (t <> x) by (intros ->; rewrite Hrun in Hs; by apply asleep_not_running in Hs).
      by rewrite fn_lookup_insert_ne.
Qed.

Lemma wake_inv h k s t w :
  inv_with h k s -> pcs s t = Unlock_wake (Some w) ->
  inv (mkSys (mx s) (unblock (tst s) (Some w)) (<[t := Idle]> (pcs s))).
Proof.
  intros Hi Hp. pose proof (inv_threads _ _ _ Hi t) as Ht. rewrite Hp in Ht. destruct Ht as (Hrun & Hh & Hk).
  destruct (inv_waker _ _ _ Hi t w Hk) as (_ & Hw & Ho).
  assert (t <> w) as Htw by (intros ->; rewrite Hrun in Hw; by apply asleep_not_running in Hw).
  assert (~ (tst s w <> BLOCKED /\ tst s w <> BLOCK_PENDING)) as Hb.
  { intros [? ?]. destruct Hw as [[_ ?]|[_ ?]]; done. }
  unfold unblock. rewrite decide_False by done.
  assert (h = Some w) as Hhw by (by apply (inv_owner _ _ _ Hi)).
  exists h, None. split; cbn [mx tst pcs]; try apply Hi; try done.
  - intros x. destruct (decide (x = t)) as [->|Hxt]; [|destruct (decide (x = w)) as [->|Hxw]].
    + rewrite fn_lookup_insert, fn_lookup_insert_ne by done. by split.
    + rewrite fn_lookup_insert_ne, fn_lookup_insert by done.
      destruct Hw as [[E _]|[E _]]; rewrite E; cbn; by left.
    + rewrite !fn_lookup_insert_ne by done.
      eapply thread_ok_frame; [apply (inv_threads _ _ _ Hi)|..]; cbn; try done.
      * intros u. split; congruence. * congruence.
  - intros x Hx. destruct (inv_queue _ _ _ Hi x Hx) as [Hs Hhx].
    assert (t <> x) by (intros ->; rewrite Hrun in Hs; by apply asleep_not_running in Hs).
    assert (w <> x) by congruence. by rewrite !fn_lookup_insert_ne.
Qed.

Lemma thread_step_inv s t s' : inv s -> thread_step s t = Some s' -> inv s'.
Proof.
  intros (h & k & Hi). unfold thread_step, step_from. case_decide as Hbl; [done|].
  pose proof (inv_threads _ _ _ Hi t) as Ht.
  assert (forall p', (forall w, ~ waker_pc (pcs s t) w) -> tst s t = RUNNING ->
    thread_ok (mx s) h k t p' RUNNING -> inv (mkSys (mx s) (tst s) (<[t := p']> (pcs s)))) as Hmove.
  { intros p' ??. by apply (inv_move_pc h k). }
  unfold waker_pc in Hmove.
  destruct (pcs s t) as [| | | | | | | | | | |w|[w|]] eqn:Hp; cbn in Ht; intros Hs; try done.
  - destruct Ht as [Hr Hh]. destruct (lock_ (mx s) =? 0) eqn:El; bool_prop; simplify_eq.
    + apply (claim_inv h k); try done. rewrite Hp. by intros w [?|?].
    + apply Hmove; [by intros w [?|?]|done|by split].
  - simplify_eq. by apply (enqueue_inv h k).
  - simplify_eq. by apply (mutex_block_inv h k).
  - destruct Ht as [(Hr & Hh & Ho & Hk)|Hs'].
    + rewrite Ho in Hs. rewrite decide_True in Hs by done. simplify_eq.
      by apply Hmove; [intros w [?|?]|..].
    + exfalso. apply Hbl. destruct Hs' as [[[[? ?]|[_ ?]] _]|[[[? ?]|[_ ?]] _]]; congruence.
  - simplify_eq. by apply (own_inv h k).
  - destruct Ht as [Hr Hh]. destruct (lock_ (mx s) =? 0) eqn:El; bool_prop; simplify_eq.
    + apply (claim_inv h k); try done. rewrite Hp. by intros w [?|?].
    + apply Hmove; [by intros w [?|?]|done|by split].
  - destruct Ht as [Hr Hh]. simplify_eq. apply Hmove; [by intros w [?|?]|done|].
    destruct (owner (mx s)) as [o|] eqn:Ho; cbn; rewrite ?Ho; (split; [done|]); [done|]. intros E. by apply Hh in E.
  - destruct Ht as [Hr Hh]. destruct (owner (mx s)) as [o|] eqn:Ho; simplify_eq.
    apply Hmove; [by intros w [?|?]|done|].
    pose proof (inv_owner _ _ _ Hi o Ho) as Ho'. case_decide as Eo; subst; cbn; [done|].
    split; [done|]. congruence.
  - destruct (wait_queue (mx s)) as [|w q] eqn:Hq; simplify_eq.
    + by apply (pop_empty_inv h k).
    + by apply (pop_inv h k).
  - simplify_eq. by apply (store_inv h k).
  - simplify_eq. by apply (wake_inv h k).
  - simplify_eq. cbn [unblock]. destruct Ht. by apply Hmove; [intros w [?|?]|..].
Qed.

Lemma mutex_step_inv s s' : inv s -> step s s' -> inv s'.
Proof.
  intros Hi Hs. inversion Hs as [t ? Ht|t Ht|t Ht|t Ht]; subst.
  - by eapply thread_step_inv.
  - apply call_inv; [done|]. left. auto.
  - apply call_inv; [done|]. left. auto.
  - apply call_inv; [done|]. destruct Ht; [left|right]; auto.
Qed.

Lemma initial_inv : inv initial.
Proof. exists None, None. split; cbn; try done. constructor. intros t H. by apply not_elem_of_nil in H. Qed.

Lemma mutex_reachable_inv s : reachable s -> inv s.
Proof. induction 1; [apply initial_inv|]. by eapply mutex_step_inv. Qed.

(** ** Executable runs *)

Inductive event := Go (t : tptr) | Call (t : tptr) (p : pc).

Definition may_call (s : sys) (t : tptr) (p : pc) : bool :=
  bool_decide ((pcs s t = Idle /\ (p = Lock_cas \/ p = Try_cas \/ p = Unlock_check))
               \/ (pcs s t = Held /\ p = Unlock_check)).

Definition run_event (s : sys) (e : event) : option sys :=
  match e with
  | Go t => thread_step s t
  | Call t p => if may_call s t p then Some (call s t p) else None
  end.

Fixpoint run (es : list event) (s : sys) : option sys :=
  match es with [] => Some s | e :: es' => s' ← run_event s e; run es' s' end.

Lemma mutex_run_reachable es : forall s s', reachable s -> run es s = Some s' -> reachable s'.
Proof.
  induction es as [|e es IH]; intros s s' Hs Hr; cbn in Hr; [by simplify_eq|].
  destruct (run_event s e) as [s1|] eqn:He; cbn in Hr; [|done].
  apply (IH s1); [|done]. apply (reach_step s); [done|]. destruct e as [t|t p]; cbn in He.
  - by apply (step_thread s t).
  - unfold may_call in He. case_bool_decide as Hc; [|done]. simplify_eq.
    destruct Hc as [[Hp [->|[->| ->]]]|[Hp ->]]; constructor; auto.
Qed.

(** ** Uninterrupted operations, as functions of the mutex *)

(** [lock] without another thread interfering; [None]: the caller blocks. *)
Definition lock_now (m : Mutex) (t : tptr) : option Mutex :=
  if lock_ m =? 0 then Some (mkMutex 1 (Some t) (wait_queue m)) else None.

Definition try_lock_now (m : Mutex) (t : tptr) : bool * Mutex :=
  if lock_ m =? 0 then (true, mkMutex 1 (Some t) (wait_queue m)) else (false, m).

Definition unlock_now (m : Mutex) (st : tstates) (t : tptr) : Mutex * tstates :=
  match owner m with
  | None => (m, st)
  | Some o =>
      if decide (o = t) then
        match wait_queue m with
        | w :: q => (mkMutex (lock_ m) (Some w) q, unblock st (Some w))
        | [] => (mkMutex 0 None [], st)
        end
      else (m, st)
  end.

(** [remove_thread(handle)] called by thread [t]; [None]: a null owner is dereferenced. *)
Definition remove_thread (m : Mutex) (st : tstates) (t handle : tptr) : option (bool * Mutex * tstates) :=
  if lock_ m =? 0 then Some (false, m, st)
  else
    match owner m with
    | None => None
    | Some o =>
        if decide (o = handle) then
          let '(m', st') := unlock_now m (block st o) t in Some (true, m', st')
        else if decide (handle ∈ wait_queue m) then
          Some (true, mkMutex (lock_ m) (owner m) (MultiLevelQueue.remove_first handle (wait_queue m)), st)
        else Some (false, m, st)
    end.

Lemma go_running s t p : tst s t = RUNNING -> pcs s t = p -> run_event s (Go t) = step_from s t p.
Proof. intros Hr <-. cbn. unfold thread_step. by rewrite Hr. Qed.

Lemma call_allowed s t p :
  (pcs s t = Idle /\ (p = Lock_cas \/ p = Try_cas \/ p = Unlock_check)) \/ (pcs s t = Held /\ p = Unlock_check) ->
  run_event s (Call t p) = Some (call s t p).
Proof. intros H. cbn. unfold may_call. by rewrite bool_decide_true. Qed.

Lemma run_cons e es s : run (e :: es) s = s' ← run_event s e; run es s'.
Proof. done. Qed.

Ltac go := rewrite run_cons; erewrite go_running; [|done|cbn [pcs call]; apply fn_lookup_insert];
  cbn [step_from mx tst pcs call lock_ owner wait_queue].

(** The functions are what the steps of one thread amount to when no other thread interferes. *)
Lemma lock_now_steps s t :
  pcs s t = Idle -> tst s t = RUNNING -> lock_ (mx s) = 0 ->
  exists s', run [Call t Lock_cas; Go t; Go t] s = Some s'
    /\ lock_now (mx s) t = Some (mx s') /\ pcs s' t = Held /\ tst s' = tst s.
Proof.
  intros Hp Hr Hl. rewrite run_cons, call_allowed by auto. cbn [mbind option_bind].
  go. rewrite Hl. cbn [Z.eqb mbind option_bind]. go.
  eexists. split; [done|]. unfold lock_now. rewrite Hl. split; [done|].
  cbn [pcs tst]. split; [by rewrite fn_lookup_insert|done].
Qed.

Lemma unlock_now_steps s t :
  pcs s t = Held -> tst s t = RUNNING -> owner (mx s) = Some t ->
  exists s', run [Call t Unlock_check; Go t; Go t; Go t; Go t; Go t] s = Some s'
    /\ unlock_now (mx s) (tst s) t = (mx s', tst s') /\ pcs s' t = Idle.
Proof.
  intros Hp Hr Ho. rewrite run_cons, call_allowed by auto. cbn [mbind option_bind].
  go. rewrite Ho. cbn [mbind option_bind]. go. rewrite Ho, decide_True by done. cbn [mbind option_bind]. go.
  unfold unlock_now. rewrite Ho, decide_True by done.
  destruct (wait_queue (mx s)) as [|w q]; cbn [mbind option_bind]; go; cbn [mbind option_bind]; go;
    (eexists; split; [done|]; cbn [mx tst pcs unblock]; split; [done|]; by rewrite fn_lookup_insert).
Qed.

Definition after (es : list event) : sys := default initial (run es initial).

Lemma after_reachable es : bool_decide (is_Some (run es initial)) = true -> reachable (after es).
Proof.
  intros [s Hs]%bool_decide_eq_true. unfold after. rewrite Hs.
  by apply (mutex_run_reachable es initial); [constructor|].
Qed.

(** The threads a run mentions; the others stay idle. *)
Definition event_thread (e : event) : tptr := match e with Go t => t | Call t _ => t end.

Lemma thread_step_pcs s t s' u : thread_step s t = Some s' -> u <> t -> pcs s' u = pcs s u.
Proof.
  unfold thread_step, step_from. case_decide; [done|]. intros Hs Hne.
  destruct (pcs s t); repeat case_match; simplify_eq; cbn [pcs]; by rewrite ?fn_lookup_insert_ne by done.
Qed.

Lemma pcs_after_out es u : u ∉ event_thread <$> es -> pcs (after es) u = Idle.
Proof.
  enough (forall s, u ∉ event_thread <$> es -> forall s', run es s = Some s' -> pcs s' u = pcs s u) as H.
  { intros Hu. unfold after. destruct (run es initial) as [s'|] eqn:E; [|done]. by apply (H initial). }
  induction es as [|e es IH]; intros s Hu s' Hr; cbn in Hr; [by simplify_eq|].
  rewrite fmap_cons, not_elem_of_cons in Hu. destruct Hu as [Hne Hu].
  destruct (run_event s e) as [s1|] eqn:He; cbn in Hr; [|done].
  rewrite (IH s1 Hu s' Hr). destruct e as [t|t p]; cbn in He, Hne.
  - by eapply thread_step_pcs.
  - destruct (may_call s t p); simplify_eq. cbn. by rewrite fn_lookup_insert_ne.
Qed.

(** ** Properties *)

(** C5: mutual exclusion under every interleaving of [lock], [try_lock] and [unlock]: two threads
    that have returned from taking the mutex are the same thread, and it is the owner. *)
Theorem mutex_mutual_exclusion s t u :
  reachable s -> pcs s t = Held -> pcs s u = Held ->
  t = u /\ owner (mx s) = Some t /\ lock_ (mx s) = 1.
Proof.
  intros (h & k & Hi)%mutex_reachable_inv Ht Hu.
  pose proof (inv_threads _ _ _ Hi t) as Hat. pose proof (inv_threads _ _ _ Hi u) as Hau.
  rewrite Ht in Hat. rewrite Hu in Hau. destruct Hat as (_ & Hh & Ho). destruct Hau as (_ & Hh' & _).
  split; [congruence|]. split; [done|]. by rewrite (inv_lock _ _ _ Hi), Hh.
Qed.

(** a thread that wakes up inside [lock] never meets a null owner: it owns the mutex
    already (the fast handoff of [unlock]) and its next step returns with it. *)
Theorem mutex_handoff s t :
  reachable s -> pcs s t = Lock_check -> tst s t <> BLOCKED ->
  exists s', thread_step s t = Some s' /\ pcs s' t = Held /\ mx s' = mx s /\ owner (mx s) = Some t.
Proof.
  intros (h & k & Hi)%mutex_reachable_inv Hp Hb. pose proof (inv_threads _ _ _ Hi t) as Ht.
  rewrite Hp in Ht. cbn in Ht. destruct Ht as [(_ & _ & Ho & _)|Hs].
  - unfold thread_step, step_from. rewrite decide_False, Hp, Ho, decide_True by done.
    eexists. split; [done|]. cbn. by rewrite fn_lookup_insert.
  - exfalso. destruct Hs as [[[[? ?]|[_ ?]] _]|[[[? ?]|[_ ?]] _]]; congruence.
Qed.

(** a thread asleep in [lock] is remembered: it is in the wait queue, or some thread inside
    [unlock] has taken it from there, made it the owner and is about to wake it. *)
Theorem mutex_sleeper_remembered s t :
  reachable s -> tst s t = BLOCKED ->
  t ∈ wait_queue (mx s)
  \/ (owner (mx s) = Some t /\ exists u, pcs s u = Unlock_store (Some t) \/ pcs s u = Unlock_wake (Some t)).
Proof.
  intros (h & k & Hi)%mutex_reachable_inv Hb. pose proof (inv_threads _ _ _ Hi t) as Ht. rewrite Hb in Ht.
  destruct (pcs s t) as [| | | | | | | | | | |[w|]|[w|]]; cbn in Ht; try by destruct Ht.
  - destruct Ht as [(? & _)|[(_ & Hq & _)|(_ & _ & Ho & u & Hk)]]; [done|by left|].
    right. split; [done|]. exists u. by apply (inv_waker _ _ _ Hi).
  - destruct Ht as [(? & _)|[(_ & Hq & _)|(_ & _ & Ho & u & Hk)]]; [done|by left|].
    right. split; [done|]. exists u. by apply (inv_waker _ _ _ Hi).
Qed.

(** Thread 1 loses the compare-exchange against thread 0, which then unlocks before thread 1 has
    entered the wait queue. *)
Definition lost_wakeup_run : list event :=
  [Call 0%nat Lock_cas; Go 0%nat; Go 0%nat; Call 1%nat Lock_cas; Go 1%nat;
   Call 0%nat Unlock_check; Go 0%nat; Go 0%nat; Go 0%nat; Go 0%nat; Go 0%nat; Go 1%nat; Go 1%nat].

(** Thread 1, which does not own the mutex, sees an owner; thread 0 unlocks before thread 1 reads the owner again. *)
Definition stale_owner_run : list event :=
  [Call 0%nat Lock_cas; Go 0%nat; Go 0%nat; Call 1%nat Unlock_check; Go 1%nat;
   Call 0%nat Unlock_check; Go 0%nat; Go 0%nat; Go 0%nat].

(** A thread that unlocks a mutex it does not own can read the handle of a null owner. *)
Lemma unlock_reads_null_owner : exists s, reachable s /\ pcs s 1%nat = Unlock_compare /\ owner (mx s) = None /\ thread_step s 1%nat = None.
Proof.
  exists (after stale_owner_run). split; [by apply after_reachable|]. split; [vm_compute; reflexivity|].
  split; vm_compute; reflexivity.
Qed.

(** a wake-up can be lost: a state is reachable in which the mutex is free, no thread is
    inside one of its operations, and yet a thread that called [lock] is blocked in the wait queue. *)
Theorem mutex_lost_wakeup :
  exists s, reachable s /\ lock_ (mx s) = 0 /\ owner (mx s) = None /\ wait_queue (mx s) = [1%nat]
    /\ tst s 1%nat = BLOCKED /\ (forall t, t <> 1%nat -> pcs s t = Idle).
Proof.
  exists (after lost_wakeup_run). split; [by apply after_reachable|].
  split; [vm_compute; reflexivity|]. split; [vm_compute; reflexivity|]. split; [vm_compute; reflexivity|].
  split; [vm_compute; reflexivity|]. intros t Ht.
  destruct (decide (t = 0%nat)) as [->|Hne]; [vm_compute; reflexivity|]. apply pcs_after_out.
  cbn. rewrite !not_elem_of_cons. repeat (split; [done|]). apply not_elem_of_nil.
Qed.

(** removing the owner from another thread does not release the mutex: [remove_thread] calls
    [unlock], which refuses every caller but the owner, and still answers true. *)
Theorem remove_owner_keeps_mutex m st t o :
  lock_ m = 1 -> owner m = Some o -> o <> t ->
  remove_thread m st t o = Some (true, m, block st o).
Proof.
  intros Hl Ho Hne. unfold remove_thread. rewrite Hl, Ho. cbn. rewrite decide_True by done.
  unfold unlock_now. by rewrite Ho, decide_False by done.
Qed.

Definition held_run : list event := [Call 0%nat Lock_cas; Go 0%nat; Go 0%nat].

Definition handoff_run : list event :=
  held_run ++ [Call 1%nat Lock_cas; Go 1%nat; Go 1%nat; Go 1%nat;
               Call 0%nat Unlock_check; Go 0%nat; Go 0%nat; Go 0%nat; Go 0%nat].

Lemma mutex_mutual_exclusion_witness :
  pcs (after held_run) 0%nat = Held /\ owner (mx (after held_run)) = Some 0%nat.
Proof.
  split; [vm_compute; reflexivity|].
  apply (mutex_mutual_exclusion (after held_run) 0%nat 0%nat); [by apply after_reachable|vm_compute; reflexivity..].
Defined.

Lemma mutex_handoff_witness :
  exists s', thread_step (after (handoff_run ++ [Go 0%nat])) 1%nat = Some s' /\ pcs s' 1%nat = Held.
Proof.
  destruct (mutex_handoff (after (handoff_run ++ [Go 0%nat])) 1%nat) as (s' & H1 & H2 & _).
  - by apply after_reachable.
  - vm_compute. reflexivity.
  - vm_compute. discriminate.
  - exists s'. split; [exact H1|exact H2].
Defined.

Lemma mutex_sleeper_remembered_witness :
  tst (after handoff_run) 1%nat = BLOCKED /\ wait_queue (mx (after handoff_run)) = []
  /\ (1%nat ∈ wait_queue (mx (after handoff_run)) \/ owner (mx (after handoff_run)) = Some 1%nat).
Proof.
  split; [vm_compute; reflexivity|]. split; [vm_compute; reflexivity|].
  destruct (mutex_sleeper_remembered (after handoff_run) 1%nat) as [H|[H _]].
  - by apply after_reachable.
  - vm_compute. reflexivity.
  - left. exact H.
  - right. exact H.
Defined.

Lemma remove_owner_keeps_mutex_witness :
  remove_thread (mkMutex 1 (Some 1%nat) [2%nat]) (fun _ => RUNNING) 0%nat 1%nat
  = Some (true, mkMutex 1 (Some 1%nat) [2%nat], block (fun _ => RUNNING) 1%nat).
Proof. apply (remove_owner_keeps_mutex (mkMutex 1 (Some 1%nat) [2%nat])); [reflexivity..|discriminate]. Defined.
End Mutex.

(** ** The counting semaphore

    Every round of an operation runs under the semaphore's own spin lock, so it is one step; [block]
    runs outside it. *)
Module Semaphore.
Import Blocking.

Record Semaphore := mkSem {
  units : Z;                       (* _units *)
  unit_max : Z;                    (* _unit_max *)
  wait_queue : list tptr;
}.

Inductive pc := Idle | Lock_try (* at the loop's test *) | Lock_block (* queued, before block() *).

#[export] Instance pc_eq_dec : EqDecision pc.
Proof. solve_decision. Defined.

Record sys := mkSys { sem : Semaphore; tst : tstates; pcs : tptr -> pc }.

(** One round of [lock]: [true] when a unit was taken. *)
Definition lock_round (m : Semaphore) (st : tstates) (t : tptr) : bool * Semaphore * tstates :=
  if units m <=? 0
  then (false, mkSem (units m) (unit_max m) (wait_queue m ++ [t]), mark_as_block_pending st t)
  else (true, mkSem (units m - 1) (unit_max m) (wait_queue m), st).

Definition try_lock (m : Semaphore) : bool * Semaphore :=
  if units m <=? 0 then (false, m) else (true, mkSem (units m - 1) (unit_max m) (wait_queue m)).

Definition unlock (m : Semaphore) (st : tstates) : Semaphore * tstates :=
  if unit_max m <=? units m then (m, st)
  else
    match wait_queue m with
    | w :: q => (mkSem (units m + 1) (unit_max m) q, unblock st (Some w))
    | [] => (mkSem (units m + 1) (unit_max m) [], st)
    end.

Inductive step (s : sys) : sys -> Prop :=
  | step_call t : pcs s t = Idle -> step s (mkSys (sem s) (tst s) (<[t := Lock_try]> (pcs s)))
  | step_round t ok m st :
      pcs s t = Lock_try -> tst s t <> BLOCKED -> lock_round (sem s) (tst s) t = (ok, m, st) ->
      step s (mkSys m st (<[t := if ok then Idle else Lock_block]> (pcs s)))
  | step_block t :
      pcs s t = Lock_block -> tst s t <> BLOCKED ->
      step s (mkSys (sem s) (block (tst s) t) (<[t := Lock_try]> (pcs s)))
  | step_try_lock t : pcs s t = Idle -> step s (mkSys (try_lock (sem s)).2 (tst s) (pcs s))
  | step_unlock t :
      pcs s t = Idle ->
      step s (mkSys (unlock (sem s) (tst s)).1 (unlock (sem s) (tst s)).2 (pcs s)).

Definition initial (counter_start counter_max : Z) : sys :=
  mkSys (mkSem counter_start counter_max []) (fun _ => RUNNING) (fun _ => Idle).

Inductive reachable (counter_start counter_max : Z) : sys -> Prop :=
  | reach_initial : reachable counter_start counter_max (initial counter_start counter_max)
  | reach_step s s' : reachable counter_start counter_max s -> step s s' -> reachable counter_start counter_max s'.

Definition asleep (p : pc) (st : ThreadState) : Prop :=
  (p = Lock_block /\ st = BLOCK_PENDING) \/ (p = Lock_try /\ st = BLOCKED).

(** Awake inside [lock]: its next rounds will look at the units again. *)
Definition retrying (s : sys) (t : tptr) : Prop := pcs s t <> Idle /\ tst s t = RUNNING.

Record inv (hi : Z) (s : sys) : Prop := {
  inv_units : 0 <= units (sem s) <= hi;
  inv_max : unit_max (sem s) <= hi;
  inv_queue : forall t, t ∈ wait_queue (sem s) -> asleep (pcs s t) (tst s t);
  inv_nodup : NoDup (wait_queue (sem s));
  inv_thread : forall t, (tst s t = RUNNING) \/ (asleep (pcs s t) (tst s t) /\ t ∈ wait_queue (sem s));
  inv_retry : wait_queue (sem s) = [] \/
    exists R, NoDup R /\ Forall (retrying s) R /\ units (sem s) <= zlen R;
}.

Lemma asleep_running p : ~ asleep p RUNNING.
Proof. intros [[_ H]|[_ H]]; done. Qed.

Lemma sleeper_waits hi s t p : inv hi s -> pcs s t = p -> tst s t <> BLOCKED ->
  p <> Lock_block -> tst s t = RUNNING.
Proof.
  intros Hi <- Hb Hp. destruct (inv_thread _ _ Hi t) as [|[[[? ?]|[? ?]] _]]; congruence.
Qed.

(** Retrying threads stay retrying when a thread that is not one of them moves. *)
Lemma retry_move s m st t p R :
  Forall (retrying s) R -> t ∉ R -> (forall x, x <> t -> st x = tst s x) ->
  Forall (retrying (mkSys m st (<[t := p]> (pcs s)))) R.
Proof.
  rewrite !Forall_forall. intros HR Ht Hst x Hx. assert (x <> t) by congruence.
  unfold retrying. cbn. rewrite fn_lookup_insert_ne, Hst by done. by apply HR.
Qed.

Lemma retry_remove (R : list tptr) t : NoDup R ->
  exists R', NoDup R' /\ t ∉ R' /\ (forall x, x ∈ R' -> x ∈ R) /\ zlen R - 1 <= zlen R'.
Proof.
  intros HR. destruct (decide (t ∈ R)) as [Hin|Hin].
  - apply list_elem_of_split in Hin as (l1 & l2 & ->). exists (l1 ++ l2).
    apply NoDup_app in HR as (H1 & H2 & H3). apply NoDup_cons in H3 as [H3 H4].
    split; [|split; [|split]].
    + apply NoDup_app. split; [done|]. split; [|done]. intros x Hx. specialize (H2 x Hx). set_solver.
    + specialize (fun H => H2 t H). set_solver.
    + set_solver.
    + rewrite !zlen_app, zlen_cons. lia.
  - exists R. split; [done|]. split; [done|]. split; [done|]. lia.
Qed.

Lemma round_take_inv hi s t :
  inv hi s -> pcs s t = Lock_try -> tst s t = RUNNING -> 0 < units (sem s) ->
  inv hi (mkSys (mkSem (units (sem s) - 1) (unit_max (sem s)) (wait_queue (sem s))) (tst s)
            (<[t := Idle]> (pcs s))).
Proof.
  intros Hi Hp Hr Hu.
  assert (forall x, asleep (pcs s x) (tst s x) -> asleep (<[t := Idle]> (pcs s) x) (tst s x)) as Hsl.
  { intros x Hx. rewrite fn_lookup_insert_ne; [done|]. intros <-. rewrite Hr in Hx. by apply asleep_running in Hx. }
  destruct Hi. split; cbn; try done.
  - lia.
  - auto.
  - intros x. destruct (inv_thread0 x) as [|[? ?]]; auto.
  - destruct inv_retry0 as [|(R & HR & HRr & Hlen)]; [by left|right].
    destruct (retry_remove R t HR) as (R' & HR' & Ht & Hsub & Hl). exists R'.
    split; [done|]. split; [|lia]. apply retry_move; [|done..].
    rewrite Forall_forall in *. eauto.
Qed.

Lemma round_wait_inv hi s t :
  inv hi s -> pcs s t = Lock_try -> tst s t = RUNNING -> units (sem s) <= 0 ->
  inv hi (mkSys (mkSem (units (sem s)) (unit_max (sem s)) (wait_queue (sem s) ++ [t]))
            (mark_as_block_pending (tst s) t) (<[t := Lock_block]> (pcs s))).
Proof.
  intros Hi Hp Hr Hu.
  assert (forall x, asleep (pcs s x) (tst s x) -> t <> x) as Hne.
  { intros x Hx <-. rewrite Hr in Hx. by apply asleep_running in Hx. }
  unfold mark_as_block_pending. destruct Hi. split; cbn [sem tst pcs units unit_max wait_queue]; try done.
  - intros x [Hx| ->%list_elem_of_singleton]%elem_of_app.
    + specialize (inv_queue0 x Hx). rewrite !fn_lookup_insert_ne by auto. done.
    + rewrite !fn_lookup_insert. by left.
  - apply NoDup_app. split; [done|]. split; [|apply NoDup_singleton].
    intros x Hx ->%list_elem_of_singleton. by apply inv_queue0, Hne in Hx.
  - intros x. destruct (decide (x = t)) as [->|Hx].
    + right. rewrite !fn_lookup_insert. split; [by left|set_solver].
    + rewrite !fn_lookup_insert_ne by done. destruct (inv_thread0 x) as [|[? ?]]; [by left|right].
      split; [done|set_solver].
  - right. exists []. split; [constructor|]. split; [constructor|]. rewrite zlen_nil. lia.
Qed.

Lemma sem_block_inv hi s t :
  inv hi s -> pcs s t = Lock_block -> inv hi (mkSys (sem s) (block (tst s) t) (<[t := Lock_try]> (pcs s))).
Proof.
  intros Hi Hp. destruct Hi. unfold block. case_decide as Hb.
  - assert (tst s t = RUNNING) as Hr.
    { destruct (inv_thread0 t) as [|[[[? ?]|[? ?]] _]]; congruence. }
    split; cbn; try done.
    + intros x Hx. specialize (inv_queue0 x Hx). rewrite fn_lookup_insert_ne; [done|].
      intros <-. rewrite Hr in inv_queue0. by apply asleep_running in inv_queue0.
    + intros x. destruct (inv_thread0 x) as [|[Hx ?]]; [by left|right]. split; [|done].
      rewrite fn_lookup_insert_ne; [done|]. intros <-. rewrite Hr in Hx. by apply asleep_running in Hx.
    + destruct inv_retry0 as [|(R & HR & HRr & Hlen)]; [by left|right]. exists R. split; [done|]. split; [|done].
      rewrite Forall_forall in *. intros x Hx. destruct (HRr x Hx) as [H1 H2]. split; [|done]. cbn.
      destruct (decide (x = t)) as [->|]; [by rewrite fn_lookup_insert|by rewrite fn_lookup_insert_ne].
  - assert (tst s t = BLOCK_PENDING) as Hbp by (destruct (decide (tst s t = BLOCK_PENDING)); tauto).
    split; cbn [sem tst pcs]; try done.
    + intros x Hx. specialize (inv_queue0 x Hx). destruct (decide (x = t)) as [->|].
      * rewrite !fn_lookup_insert. by right. * by rewrite !fn_lookup_insert_ne.
    + intros x. destruct (decide (x = t)) as [->|]; [|by rewrite !fn_lookup_insert_ne].
      right. rewrite !fn_lookup_insert. split; [by right|].
      destruct (inv_thread0 t) as [|[_ ?]]; [congruence|done].
    + destruct inv_retry0 as [|(R & HR & HRr & Hlen)]; [by left|right]. exists R. split; [done|]. split; [|done].
      apply retry_move; [done| |].
      * rewrite Forall_forall in HRr. intros Hin. destruct (HRr t Hin). congruence.
      * intros x Hx. by rewrite fn_lookup_insert_ne.
Qed.

Lemma unlock_inv hi s :
  inv hi s -> inv hi (mkSys (unlock (sem s) (tst s)).1 (unlock (sem s) (tst s)).2 (pcs s)).
Proof.
  intros Hi. unfold unlock. destruct (unit_max (sem s) <=? units (sem s)) eqn:E; bool_prop; cbn [fst snd].
  { destruct s. exact Hi. }
  destruct Hi. destruct (wait_queue (sem s)) as [|w q] eqn:Hq; cbn [fst snd].
  - split; cbn [sem tst pcs units unit_max wait_queue]; try done; [lia|by left].
  - assert (asleep (pcs s w) (tst s w)) as Hw by (apply inv_queue0; left).
    apply NoDup_cons in inv_nodup0 as [Hwq Hnd].
    assert (~ (tst s w <> BLOCKED /\ tst s w <> BLOCK_PENDING)) as Hb.
    { intros [? ?]. destruct Hw as [[_ ?]|[_ ?]]; done. }
    unfold unblock. rewrite decide_False by done.
    split; cbn [sem tst pcs units unit_max wait_queue]; try done.
    + lia.
    + intros x Hx. assert (w <> x) by congruence. rewrite fn_lookup_insert_ne by done.
      apply inv_queue0. by right.
    + intros x. destruct (decide (x = w)) as [->|Hx]; [left; by rewrite fn_lookup_insert|].
      rewrite fn_lookup_insert_ne by done. destruct (inv_thread0 x) as [|[? [?|?]%elem_of_cons]]; [by left|done|by right].
    + right. destruct inv_retry0 as [|(R & HR & HRr & Hlen)]; [done|]. exists (w :: R).
      rewrite Forall_forall in HRr.
      split; [constructor; [|done]|split].
      * intros Hin. destruct (HRr w Hin) as [_ Hr]. destruct Hw as [[_ ?]|[_ ?]]; congruence.
      * rewrite Forall_forall. intros x [->|Hx]%elem_of_cons; (split; cbn [tst pcs]).
        -- destruct Hw as [[-> _]|[-> _]]; done.
        -- by rewrite fn_lookup_insert.
        -- by apply HRr.
        -- destruct (decide (x = w)) as [->|]; [by rewrite fn_lookup_insert|].
           rewrite fn_lookup_insert_ne by done. by apply HRr.
      * rewrite zlen_cons. lia.
Qed.

Lemma sem_step_inv hi s s' : inv hi s -> step s s' -> inv hi s'.
Proof.
  intros Hi Hs. destruct Hs as [t Hp|t ok m st Hp Hb Hr|t Hp Hb|t Hp|t Hp].
  - pose proof (sleeper_waits _ _ _ _ Hi Hp) as Hr.
    assert (tst s t = RUNNING) as Hrun.
    { destruct (inv_thread _ _ Hi t) as [|[[[? ?]|[? ?]] _]]; congruence. }
    destruct Hi. split; cbn; try done.
    + intros x Hx. specialize (inv_queue0 x Hx). rewrite fn_lookup_insert_ne; [done|].
      intros <-. rewrite Hrun in inv_queue0. by apply asleep_running in inv_queue0.
    + intros x. destruct (inv_thread0 x) as [|[Hx ?]]; [by left|right]. split; [|done].
      rewrite fn_lookup_insert_ne; [done|]. intros <-. rewrite Hrun in Hx. by apply asleep_running in Hx.
    + destruct inv_retry0 as [|(R & HR & HRr & Hlen)]; [by left|right]. exists R. split; [done|]. split; [|done].
      apply retry_move; [done| |done]. rewrite Forall_forall in HRr. intros Hin. destruct (HRr t Hin). congruence.
  - assert (tst s t = RUNNING) as Hrun by (by apply (sleeper_waits hi s t Lock_try)).
    unfold lock_round in Hr. destruct (units (sem s) <=? 0) eqn:E; bool_prop; simplify_eq.
    + by apply round_wait_inv. + by apply round_take_inv.
  - by apply sem_block_inv.
  - unfold try_lock. destruct (units (sem s) <=? 0) eqn:E; bool_prop; cbn [snd]; [by destruct s|].
    destruct Hi. split; cbn; try done; [lia|].
    destruct inv_retry0 as [|(R & HR & HRr & Hlen)]; [by left|right]. exists R. split; [done|]. split; [done|lia].
  - by apply unlock_inv.
Qed.

Lemma sem_reachable_inv a b s : 0 <= a <= b -> reachable a b s -> inv b s.
Proof.
  intros Hab. induction 1 as [|s s' _ IH Hs]; [|by eapply sem_step_inv].
  split; cbn; try done; [|constructor|by left|by left].
  intros t Ht. by apply not_elem_of_nil in Ht.
Qed.

(** C37: whatever threads lock, try to lock and unlock the semaphore, its units stay between zero and
    the maximum, and no wake-up is lost: when no thread is awake inside [lock], either nobody sleeps in the
    wait queue or there is no unit to take. *)
Theorem semaphore_no_lost_wakeup a b s :
  0 <= a <= b -> reachable a b s ->
  0 <= units (sem s) <= b
  /\ ((forall t, pcs s t <> Idle -> tst s t <> RUNNING) -> wait_queue (sem s) = [] \/ units (sem s) = 0).
Proof.
  intros Hab Hr. pose proof (sem_reachable_inv a b s Hab Hr) as Hi. split; [apply Hi|].
  intros Hrest. destruct (inv_retry _ _ Hi) as [|(R & _ & HR & Hlen)]; [by left|right].
  destruct R as [|t R]; [rewrite zlen_nil in Hlen; pose proof (inv_units _ _ Hi); lia|].
  apply Forall_cons in HR as [[H1 H2] _]. exfalso. by apply (Hrest t).
Qed.

(** The steps as functions, to write runs down. *)
Definition called t s := mkSys (sem s) (tst s) (<[t := Lock_try]> (pcs s)).
Definition rounded t s :=
  let '(ok, m, st) := lock_round (sem s) (tst s) t in mkSys m st (<[t := if ok then Idle else Lock_block]> (pcs s)).
Definition slept t s := mkSys (sem s) (block (tst s) t) (<[t := Lock_try]> (pcs s)).
Definition unlocked s := mkSys (unlock (sem s) (tst s)).1 (unlock (sem s) (tst s)).2 (pcs s).

Lemma step_rounded t s : pcs s t = Lock_try -> tst s t <> BLOCKED -> step s (rounded t s).
Proof. intros Hp Hb. unfold rounded. destruct (lock_round _ _ _) as [[ok m] st] eqn:E. by eapply step_round. Qed.

(** Thread 1 holds the only unit and thread 2 sleeps for it; then thread 1 unlocks and thread 2 takes the unit. *)
Definition one_waits : sys := slept 2%nat (rounded 2%nat (called 2%nat (rounded 1%nat (called 1%nat (initial 1 1))))).
Definition woken : sys := unlocked one_waits.
Definition taken_over : sys := rounded 2%nat woken.

Lemma one_waits_idle t : t <> 2%nat -> pcs one_waits t = Idle.
Proof.
  intros Ht. change (pcs one_waits) with (<[2%nat := Lock_try]> (<[2%nat := Lock_block]> (<[2%nat := Lock_try]>
    (<[1%nat := Idle]> (<[1%nat := Lock_try]> (fun _ : tptr => Idle)))))).
  rewrite !(fn_lookup_insert_ne _ 2%nat) by done. destruct (decide (t = 1%nat)) as [->|H1]; [by rewrite fn_lookup_insert|].
  by rewrite !(fn_lookup_insert_ne _ 1%nat).
Qed.

Lemma one_waits_reachable : reachable 1 1 one_waits.
Proof.
  unfold one_waits. eapply reach_step; [|by apply (step_block _ 2%nat)]. eapply reach_step; [|by apply step_rounded].
  eapply reach_step; [|by apply (step_call _ 2%nat)]. eapply reach_step; [|by apply step_rounded].
  eapply reach_step; [|by apply (step_call _ 1%nat)]. apply reach_initial.
Qed.

Lemma taken_over_reachable : reachable 1 1 woken /\ reachable 1 1 taken_over.
Proof.
  assert (reachable 1 1 woken) as Hw by (eapply reach_step; [apply one_waits_reachable|by apply (step_unlock _ 1%nat)]).
  split; [done|]. eapply reach_step; [exact Hw|by apply step_rounded].
Qed.

Lemma semaphore_no_lost_wakeup_witness :
  (wait_queue (sem one_waits) = [2%nat] /\ tst one_waits 2%nat = BLOCKED /\ units (sem one_waits) = 0)
  /\ (wait_queue (sem woken) = [] /\ tst woken 2%nat = RUNNING /\ 0 <= units (sem woken) <= 1)
  /\ (pcs taken_over 2%nat = Idle /\ 0 <= units (sem taken_over) <= 1).
Proof.
  split.
  - destruct (semaphore_no_lost_wakeup 1 1 one_waits) as [_ H]; [lia|apply one_waits_reachable|].
    split; [reflexivity|]. split; [reflexivity|]. destruct H as [H|H]; [|discriminate H|exact H].
    intros t Ht Hr. destruct (decide (t = 2%nat)) as [->|H2]; [discriminate Hr|]. by apply Ht, one_waits_idle.
  - destruct taken_over_reachable as [H1 H2]. split.
    + split; [reflexivity|]. split; [reflexivity|]. exact (proj1 (semaphore_no_lost_wakeup 1 1 woken ltac:(lia) H1)).
    + split; [reflexivity|]. exact (proj1 (semaphore_no_lost_wakeup 1 1 taken_over ltac:(lia) H2)).
Defined.
End Semaphore.
