(* ===== verification/AcpiSync.v ===== *)
(** * ACPICA synchronisation: the OS services layer, the reader/writer lock, the global mutexes
    and owner identifiers

    [OsLayer] is what ACPICA expects of an OS mutex, as a class; [Osl] models the layer runeOS
    provides ([osl-to-rune-bridge.cpp]) on top of its kernel mutex and semaphore; [RwLock] models
    [utilities/utlock.c] over any layer, [UtMutex] [utilities/utmutex.c] and [OwnerId]
    [utilities/utownerid.c].  Every call of an operation is uninterrupted; [None] as the result of an
    acquisition of an OS mutex means that the calling thread blocks, and a call of the reader/writer lock
    that blocks leaves the lock as it is at that point. *)

From stdpp Require Import functions.
From S2P Require Import Prelude Scheduler Locks AcpiUtil.

Definition ACPI_WAIT_FOREVER : Z := 65535.

Definition ACPI_DO_NOT_WAIT : Z := 0.

(** ** The interface *)

Class OsMutexOps (M : Type) := {
  AcpiOsAcquireMutex : M -> tptr -> Z -> option (ACPI_STATUS * M);
  AcpiOsReleaseMutex : M -> tptr -> M;
}.

(** ** runeOS's implementation *)
Module Osl.
Import Locks.Blocking.

Definition ACPI_NO_TIMEOUT : Z := 65535.

(** A kernel mutex, its entry in [m_mutex_recursion_depth] and the threads' states. *)
Record OsMutex := mkOsMutex {
  mutex : Mutex.Mutex;
  depth : Z;
  tst : tptr -> ThreadState;
}.

Definition fresh : OsMutex := mkOsMutex (Mutex.mkMutex 0 None []) 0 (fun _ => RUNNING).

(** The loop that tries until the timer passes [end_]; [clock] are the timer's readings. *)
Fixpoint timed_loop (end_ : Z) (clock : list Z) (m : Mutex.Mutex) (t : tptr)
    : option (bool * Mutex.Mutex * list Z) :=
  match clock with
  | [] => None
  | now :: clock =>
      if now <? end_ then
        let '(locked, m') := Mutex.try_lock_now m t in
        if locked : bool then Some (true, m', clock) else timed_loop end_ clock m' t
      else Some (false, m, clock)
  end.

Definition acpi_to_rune_mutex_acquire (clock : list Z) (m : OsMutex) (t : tptr) (timeout_ms : Z)
    : option (ACPI_STATUS * OsMutex) :=
  if decide (Mutex.owner (mutex m) = Some t) then Some (AE_OK, mkOsMutex (mutex m) (depth m + 1) (tst m))
  else if timeout_ms =? ACPI_NO_TIMEOUT then
    m' ← Mutex.lock_now (mutex m) t; Some (AE_OK, mkOsMutex m' 1 (tst m))
  else
    match clock with
    | [] => None
    | start :: clock =>
        let end_ := u64 (start + u32 (1000000 * timeout_ms)) in
        '(locked, m', clock) ← timed_loop end_ clock (mutex m) t;
        now ← head clock;
        Some (if end_ <=? now then AE_TIME else AE_OK,
              mkOsMutex m' (if locked : bool then 1 else depth m) (tst m))
    end.

Definition acpi_to_rune_mutex_release (m : OsMutex) (t : tptr) : OsMutex :=
  if depth m =? 0 then m
  else
    let depth' := depth m - 1 in
    if depth' =? 0 then
      let '(m', st') := Mutex.unlock_now (mutex m) (tst m) t in mkOsMutex m' depth' st'
    else mkOsMutex (mutex m) depth' (tst m).

(** An [int] made from an unsigned 32-bit value. *)
Definition to_int (z : Z) : Z := if z <? 2 ^ 31 then z else z - 2 ^ 32.

(** The two values the kernel semaphore is created with. *)
Definition acpi_to_rune_semaphore_create (max_units initial_units : Z) : ACPI_STATUS * option Semaphore.Semaphore :=
  if max_units <? initial_units then (AE_BAD_PARAMETER, None)
  else (AE_OK, Some (Semaphore.mkSem (to_int initial_units) (to_int max_units) [])).

(** [acpi_to_rune_semaphore_signal]: the loop over the units. *)
Fixpoint acpi_to_rune_semaphore_signal (units : nat) (s : Semaphore.Semaphore) (st : tptr -> ThreadState)
    : ACPI_STATUS * Semaphore.Semaphore * (tptr -> ThreadState) :=
  match units with
  | O => (AE_OK, s, st)
  | S units' =>
      if Semaphore.unit_max s <=? Semaphore.units s then (AE_LIMIT, s, st)
      else let '(s', st') := Semaphore.unlock s st in acpi_to_rune_semaphore_signal units' s' st'
  end.

(** [acpi_to_rune_semaphore_wait] with a zero timeout, from [c_units] on. *)
Fixpoint semaphore_poll (units : nat) (s : Semaphore.Semaphore) : ACPI_STATUS * Semaphore.Semaphore :=
  match units with
  | O => (AE_OK, s)
  | S units' =>
      let '(locked, s') := Semaphore.try_lock s in
      if locked : bool then semaphore_poll units' s' else (AE_TIME, s')
  end.

#[global] Instance osl_ops : OsMutexOps OsMutex := {
  AcpiOsAcquireMutex m t timeout := acpi_to_rune_mutex_acquire [] m t timeout;
  AcpiOsReleaseMutex := acpi_to_rune_mutex_release;
}.
End Osl.

(** ** The reader/writer lock (utlock.c) *)
Module RwLock.
Section rwlock.
Context {M : Type} `{OsMutexOps M}.

Record ACPI_RW_LOCK := mkRwLock {
  WriterMutex : M;
  ReaderMutex : M;
  NumReaders : Z;
}.

(** What becomes of a call: it returns, or the thread blocks and leaves the lock as it is at that point. *)
Inductive outcome := Returns (Status : ACPI_STATUS) (Lock : ACPI_RW_LOCK) | Blocks (Lock : ACPI_RW_LOCK).

(** Only the first reader takes the writer mutex; when it blocks there, it is counted and has the reader mutex. *)
Definition AcpiUtAcquireReadLock (Lock : ACPI_RW_LOCK) (t : tptr) : outcome :=
  match AcpiOsAcquireMutex (ReaderMutex Lock) t ACPI_WAIT_FOREVER with
  | None => Blocks Lock
  | Some (Status, rm) =>
      if decide (Status <> AE_OK) then Returns Status (mkRwLock (WriterMutex Lock) rm (NumReaders Lock)) else
      let n := u32 (NumReaders Lock + 1) in
      if n =? 1 then
        match AcpiOsAcquireMutex (WriterMutex Lock) t ACPI_WAIT_FOREVER with
        | None => Blocks (mkRwLock (WriterMutex Lock) rm n)
        | Some (Status, wm) => Returns Status (mkRwLock wm (AcpiOsReleaseMutex rm t) n)
        end
      else Returns Status (mkRwLock (WriterMutex Lock) (AcpiOsReleaseMutex rm t) n)
  end.

(** Only the last reader releases the writer mutex. *)
Definition AcpiUtReleaseReadLock (Lock : ACPI_RW_LOCK) (t : tptr) : outcome :=
  match AcpiOsAcquireMutex (ReaderMutex Lock) t ACPI_WAIT_FOREVER with
  | None => Blocks Lock
  | Some (Status, rm) =>
      if decide (Status <> AE_OK) then Returns Status (mkRwLock (WriterMutex Lock) rm (NumReaders Lock)) else
      let n := u32 (NumReaders Lock - 1) in
      let wm := if n =? 0 then AcpiOsReleaseMutex (WriterMutex Lock) t else WriterMutex Lock in
      Returns Status (mkRwLock wm (AcpiOsReleaseMutex rm t) n)
  end.

Definition AcpiUtAcquireWriteLock (Lock : ACPI_RW_LOCK) (t : tptr) : outcome :=
  match AcpiOsAcquireMutex (WriterMutex Lock) t ACPI_WAIT_FOREVER with
  | None => Blocks Lock
  | Some (Status, wm) => Returns Status (mkRwLock wm (ReaderMutex Lock) (NumReaders Lock))
  end.

Definition AcpiUtReleaseWriteLock (Lock : ACPI_RW_LOCK) (t : tptr) : ACPI_RW_LOCK :=
  mkRwLock (AcpiOsReleaseMutex (WriterMutex Lock) t) (ReaderMutex Lock) (NumReaders Lock).
End rwlock.
Arguments ACPI_RW_LOCK M : clear implicits.

(** *** Clients: who is inside the lock *)

Record client (M : Type) := mkClient {
  rw : ACPI_RW_LOCK M;
  readers : list tptr;
  writer : option tptr;
}.
Arguments mkClient {M}.
Arguments rw {M}.
Arguments readers {M}.
Arguments writer {M}.

Section clients.
Context {M : Type} `{OsMutexOps M}.

(** A thread that is not inside enters; a thread that is inside leaves. A call that blocks ends the run. *)
Inductive op := Read (t : tptr) | Unread (t : tptr) | Write (t : tptr) | Unwrite (t : tptr).

Definition returned (r : outcome) : option (ACPI_RW_LOCK M) :=
  match r with Returns AE_OK l => Some l | _ => None end.

Definition client_op (c : client M) (o : op) : option (client M) :=
  match o with
  | Read t =>
      if decide (t ∉ readers c /\ writer c <> Some t) then
        l ← returned (AcpiUtAcquireReadLock (rw c) t); Some (mkClient l (t :: readers c) (writer c))
      else None
  | Unread t =>
      if decide (t ∈ readers c) then
        l ← returned (AcpiUtReleaseReadLock (rw c) t);
        Some (mkClient l (MultiLevelQueue.remove_first t (readers c)) (writer c))
      else None
  | Write t =>
      if decide (t ∉ readers c /\ writer c <> Some t) then
        l ← returned (AcpiUtAcquireWriteLock (rw c) t); Some (mkClient l (readers c) (Some t))
      else None
  | Unwrite t =>
      if decide (writer c = Some t) then Some (mkClient (AcpiUtReleaseWriteLock (rw c) t) (readers c) None) else None
  end.

Fixpoint run (os : list op) (c : client M) : option (client M) :=
  match os with [] => Some c | o :: os' => c' ← client_op c o; run os' c' end.
End clients.

(** The lock over runeOS's OS layer, nobody inside. *)
Definition idle_rune : client Osl.OsMutex := mkClient (mkRwLock Osl.fresh Osl.fresh 0) [] None.

(** ** Properties *)

(** A reader that comes while a writer is inside blocks with the reader mutex taken and is counted. *)
Lemma reader_blocks_counted : exists c l, run [Write 1%nat] idle_rune = Some c
  /\ AcpiUtAcquireReadLock (rw c) 2%nat = Blocks l /\ NumReaders l = 1
  /\ Mutex.owner (Osl.mutex (ReaderMutex l)) = Some 2%nat.
Proof.
  destruct (run [Write 1%nat] idle_rune) as [c|] eqn:E; [|vm_compute in E; discriminate E].
  exists c. vm_compute in E. injection E as <-. eexists. split; [done|]. split; [reflexivity|]. done.
Qed.

(** On runeOS's OS layer the reader/writer lock does not keep readers and a writer apart: the mutex is
    recursive for its owner, so the first reader, after it has left, gets the write lock while a
    second reader is still inside. *)
Lemma rwlock_broken_on_rune :
  exists c, run [Read 1%nat; Read 2%nat; Unread 1%nat; Write 1%nat] idle_rune = Some c
    /\ readers c = [2%nat] /\ writer c = Some 1%nat.
Proof.
  destruct (run [Read 1%nat; Read 2%nat; Unread 1%nat; Write 1%nat] idle_rune) as [c|] eqn:E;
    [|vm_compute in E; discriminate E].
  exists c. vm_compute in E. injection E as <-. done.
Qed.

(** On runeOS's OS layer the reader/writer lock is lost when the readers leave in the order they
    came: the kernel mutex refuses to be unlocked by the last reader, and from then on every other
    thread that wants to write blocks although nobody is inside. *)
Lemma rwlock_leaks_on_rune :
  exists c, run [Read 1%nat; Read 2%nat; Unread 1%nat; Unread 2%nat] idle_rune = Some c
    /\ readers c = [] /\ writer c = None
    /\ forall t, t <> 1%nat -> AcpiUtAcquireWriteLock (rw c) t = Blocks (rw c).
Proof.
  destruct (run [Read 1%nat; Read 2%nat; Unread 1%nat; Unread 2%nat] idle_rune) as [c|] eqn:E;
    [|vm_compute in E; discriminate E].
  exists c. split; [done|]. vm_compute in E. injection E as <-. split; [done|]. split; [done|].
  intros t Ht. unfold AcpiUtAcquireWriteLock. cbn. unfold Osl.acpi_to_rune_mutex_acquire. cbn. by rewrite decide_False by congruence.
Qed.
End RwLock.

Module OslProps.
Import Osl.

(** a kernel mutex released through the OS layer by a thread that does not own it stays locked: the
    recursion depth drops to zero but the kernel refuses the unlock, after which the owner's own
    release does nothing. *)
Theorem foreign_release_leaks m o t :
  Mutex.owner (mutex m) = Some o -> depth m = 1 -> t <> o ->
  let m1 := acpi_to_rune_mutex_release m t in
  mutex m1 = mutex m /\ depth m1 = 0 /\ acpi_to_rune_mutex_release m1 o = m1.
Proof.
  intros Ho Hd Hne.
  assert (acpi_to_rune_mutex_release m t = mkOsMutex (mutex m) 0 (tst m)) as E.
  { unfold acpi_to_rune_mutex_release. rewrite Hd. cbn. unfold Mutex.unlock_now.
    by rewrite Ho, decide_False by congruence. }
  cbn zeta. rewrite E. done.
Qed.

(** asking for a mutex without waiting (a timeout of zero) always reports a timeout, also when the
    mutex is free: the deadline is the current time, so no attempt is made. *)
Theorem acquire_no_wait_always_times_out m t start now1 now2 rest :
  Mutex.owner (mutex m) <> Some t -> 0 <= start < 2 ^ 64 -> start <= now1 -> start <= now2 ->
  acpi_to_rune_mutex_acquire (start :: now1 :: now2 :: rest) m t ACPI_DO_NOT_WAIT = Some (AE_TIME, m).
Proof.
  intros Ho Hs H1 H2. unfold acpi_to_rune_mutex_acquire. rewrite decide_False by done.
  change (ACPI_DO_NOT_WAIT =? ACPI_NO_TIMEOUT) with false. cbn [timed_loop].
  change (u32 (1000000 * ACPI_DO_NOT_WAIT)) with 0. rewrite Z.add_0_r, wrap_small by done.
  rewrite (proj2 (Z.ltb_ge now1 start)) by done. cbn. rewrite (proj2 (Z.leb_le start now2)) by done.
  by destruct m.
Qed.

(** a semaphore created without a unit limit can never be signalled: the limit of 2^32 - 1
    becomes -1 as an [int], so the semaphore counts as full from the start. *)
Theorem unlimited_semaphore_never_signals initial_units s units st :
  0 <= initial_units < 2 ^ 31 ->
  acpi_to_rune_semaphore_create (2 ^ 32 - 1) initial_units = (AE_OK, Some s) ->
  acpi_to_rune_semaphore_signal (S units) s st = (AE_LIMIT, s, st).
Proof.
  intros Hi. unfold acpi_to_rune_semaphore_create.
  destruct (_ <? _) eqn:E; bool_prop; [done|]. intros [= <-].
  cbn [acpi_to_rune_semaphore_signal Semaphore.units Semaphore.unit_max].
  change (to_int (2 ^ 32 - 1)) with (-1).
  assert (to_int initial_units = initial_units) as -> by (unfold to_int; by rewrite (proj2 (Z.ltb_lt _ _)) by lia).
  by rewrite (proj2 (Z.leb_le _ _)) by lia.
Qed.

Definition held_by_1 : OsMutex := mkOsMutex (Mutex.mkMutex 1 (Some 1%nat) []) 1 (fun _ => RUNNING).

Lemma foreign_release_leaks_witness :
  Mutex.lock_ (mutex (acpi_to_rune_mutex_release held_by_1 2%nat)) = 1
  /\ depth (acpi_to_rune_mutex_release held_by_1 2%nat) = 0.
Proof.
  destruct (foreign_release_leaks held_by_1 1%nat 2%nat eq_refl eq_refl ltac:(done)) as (H1 & H2 & _).
  split; [by rewrite H1|exact H2].
Defined.

Lemma acquire_no_wait_always_times_out_witness :
  acpi_to_rune_mutex_acquire [5; 6; 7] fresh 1%nat ACPI_DO_NOT_WAIT = Some (AE_TIME, fresh).
Proof. apply (acquire_no_wait_always_times_out fresh 1%nat 5 6 7 []); cbn; done || lia. Defined.

Lemma unlimited_semaphore_never_signals_witness :
  exists s, acpi_to_rune_semaphore_create (2 ^ 32 - 1) 0 = (AE_OK, Some s)
    /\ acpi_to_rune_semaphore_signal 1 s (fun _ => RUNNING) = (AE_LIMIT, s, fun _ => RUNNING).
Proof.
  eexists. split; [reflexivity|].
  apply (unlimited_semaphore_never_signals 0 _ 0); [lia|reflexivity].
Defined.
End OslProps.

(** ** The global mutexes (utmutex.c) *)
Module UtMutex.
Section utmutex.
Context {M : Type} `{OsMutexOps M} (fresh_mutex : M).

Definition ACPI_MAX_MUTEX : Z := 5.

Definition ACPI_NUM_MUTEX : Z := 6.

(** One entry of [AcpiGbl_MutexInfo]; [ThreadId] is [None] for [ACPI_MUTEX_NOT_ACQUIRED]. *)
Record ACPI_MUTEX_INFO := mkInfo {
  Mutex : option M;
  UseCount : Z;
  ThreadId : option tptr;
}.

Definition AcpiUtCreateMutex (info : list ACPI_MUTEX_INFO) (MutexId : Z)
    : option (ACPI_STATUS * list ACPI_MUTEX_INFO) :=
  e ← aget info MutexId;
  match Mutex e with
  | Some _ => Some (AE_OK, info)
  | None => info' ← aset info MutexId (mkInfo (Some fresh_mutex) 0 None); Some (AE_OK, info')
  end.

Definition AcpiUtDeleteMutex (info : list ACPI_MUTEX_INFO) (MutexId : Z) : option (list ACPI_MUTEX_INFO) :=
  e ← aget info MutexId; aset info MutexId (mkInfo None (UseCount e) None).

(** The loop over the predefined mutexes of [AcpiUtMutexInitialize]. *)
Definition create_mutexes (info : list ACPI_MUTEX_INFO) : option (list ACPI_MUTEX_INFO) :=
  forM (Z.to_nat ACPI_NUM_MUTEX) 0 (fun i l => snd <$> AcpiUtCreateMutex l i) info.

(** The ordering check of the debug configuration ([ACPI_MUTEX_DEBUG]): the first mutex from
    [MutexId] on that the thread owns. *)
Fixpoint check_order (t : tptr) (MutexId i : Z) (l : list ACPI_MUTEX_INFO) : option ACPI_STATUS :=
  match l with
  | [] => None
  | e :: l' =>
      if decide (ThreadId e = Some t)
      then Some (if i =? MutexId then AE_ALREADY_ACQUIRED else AE_ACQUIRE_DEADLOCK)
      else check_order t MutexId (i + 1) l'
  end.

(** [None]: the calling thread blocks (or the entry or its mutex does not exist). *)
Definition AcpiUtAcquireMutex (debug : bool) (info : list ACPI_MUTEX_INFO) (MutexId : Z) (t : tptr)
    : option (ACPI_STATUS * list ACPI_MUTEX_INFO) :=
  if ACPI_MAX_MUTEX <? MutexId then Some (AE_BAD_PARAMETER, info) else
  match (if debug then check_order t MutexId MutexId (drop (Z.to_nat MutexId) info) else None) with
  | Some Status => Some (Status, info)
  | None =>
      e ← aget info MutexId;
      m ← Mutex e;
      '(Status, m') ← AcpiOsAcquireMutex m t ACPI_WAIT_FOREVER;
      info' ← aset info MutexId
        (if decide (Status = AE_OK) then mkInfo (Some m') (u32 (UseCount e + 1)) (Some t)
         else mkInfo (Some m') (UseCount e) (ThreadId e));
      Some (Status, info')
  end.

(** The debug check of a release: a mutex above this one is still owned. *)
Fixpoint check_release (t : tptr) (MutexId i : Z) (l : list ACPI_MUTEX_INFO) : bool :=
  match l with
  | [] => false
  | e :: l' =>
      (bool_decide (ThreadId e = Some t) && negb (i =? MutexId)) || check_release t MutexId (i + 1) l'
  end.

Definition AcpiUtReleaseMutex (debug : bool) (info : list ACPI_MUTEX_INFO) (MutexId : Z) (t : tptr)
    : option (ACPI_STATUS * list ACPI_MUTEX_INFO) :=
  if ACPI_MAX_MUTEX <? MutexId then Some (AE_BAD_PARAMETER, info) else
  e ← aget info MutexId;
  match ThreadId e with
  | None => Some (AE_NOT_ACQUIRED, info)
  | Some _ =>
      if debug && check_release t MutexId MutexId (drop (Z.to_nat MutexId) info)
      then Some (AE_RELEASE_DEADLOCK, info)
      else
        m ← Mutex e;
        info' ← aset info MutexId (mkInfo (Some (AcpiOsReleaseMutex m t)) (UseCount e) None);
        Some (AE_OK, info')
  end.

(** Thread [t] owns mutex [i]. *)
Definition owns (info : list ACPI_MUTEX_INFO) (t : tptr) (i : Z) : Prop :=
  exists e, aget info i = Some e /\ ThreadId e = Some t.

Lemma check_order_None t id l : forall i,
  check_order t id i l = None -> forall j e, l !! j = Some e -> ThreadId e <> Some t.
Proof using Type.
  induction l as [|x l IH]; intros i Hc j e Hj; [done|]. cbn in Hc. case_decide; [done|].
  destruct j as [|j]; cbn in Hj; [by simplify_eq|]. by eapply IH.
Qed.

(** A thread the debug build lets through to the OS mutex owns only lower mutexes. *)
Lemma passed_owns_lower info id t j :
  0 <= id -> owns info t j ->
  check_order t id id (drop (Z.to_nat id) info) = None -> j < id.
Proof using Type.
  intros Hid (e & He & Ht) Hc. destruct (Z.lt_ge_cases j id) as [|Hge]; [done|]. exfalso.
  unfold aget in He. case_decide; [|done].
  apply (check_order_None t id _ _ Hc (Z.to_nat j - Z.to_nat id)%nat e); [|done].
  rewrite lookup_drop. by replace (Z.to_nat id + (Z.to_nat j - Z.to_nat id))%nat with (Z.to_nat j) by lia.
Qed.

(** A thread waits for mutex [i]: its acquisition passed the checks and has not returned. *)
Definition waits (info : list ACPI_MUTEX_INFO) (t : tptr) (i : Z) : Prop :=
  0 <= i <= ACPI_MAX_MUTEX /\ AcpiUtAcquireMutex true info i t = None.

Lemma waits_owns_lower info t i j : waits info t i -> owns info t j -> j < i.
Proof using Type.
  intros [Hi Hw] Ho. unfold AcpiUtAcquireMutex in Hw. destruct (_ <? _) eqn:E; bool_prop; [lia|].
  destruct (check_order _ _ _ _) eqn:Ec; [done|]. eapply passed_owns_lower; [|done..]. lia.
Qed.

(** with the ordering checks of the debug configuration the global mutexes cannot deadlock: there
    is no cycle of threads each of which waits for a mutex that the next one owns. *)
Theorem no_mutex_cycle info :
  ~ (exists (n : nat) (f : nat -> tptr * Z), (0 < n)%nat /\ f n = f 0%nat
      /\ forall k, waits info (f k).1 (f k).2 /\ owns info (f (S k)).1 (f k).2).
Proof using Type.
  intros (n & f & Hn & Hcycle & Hf).
  assert (forall k, (f k).2 < (f (S k)).2) as Hlt.
  { intros k. destruct (Hf k) as [_ Ho]. destruct (Hf (S k)) as [Hw _]. by eapply waits_owns_lower. }
  assert (forall k, (0 < k)%nat -> (f 0%nat).2 < (f k).2) as Hinc.
  { induction k as [|k IH]; [lia|]. intros _. specialize (Hlt k).
    destruct (decide (k = 0%nat)) as [->|]; [done|]. specialize (IH ltac:(lia)). lia. }
  specialize (Hinc n Hn). rewrite Hcycle in Hinc. lia.
Qed.

(** A global mutex that was free is owned by the caller after an acquisition and free again after the
    release, and meanwhile the thread that holds it is recorded. *)
Lemma acquire_release info id t info' e m m' :
  0 <= id <= ACPI_MAX_MUTEX -> aget info id = Some e -> Mutex e = Some m ->
  AcpiOsAcquireMutex m t ACPI_WAIT_FOREVER = Some (AE_OK, m') ->
  AcpiUtAcquireMutex false info id t = Some (AE_OK, info') ->
  owns info' t id
  /\ exists info'', AcpiUtReleaseMutex false info' id t = Some (AE_OK, info'')
     /\ aget info'' id = Some (mkInfo (Some (AcpiOsReleaseMutex m' t)) (u32 (UseCount e + 1)) None).
Proof using Type.
  intros Hid He Hm Ha Hacq. unfold AcpiUtAcquireMutex in Hacq.
  destruct (_ <? _) eqn:E; bool_prop; [lia|]. rewrite He in Hacq. cbn in Hacq. rewrite Hm in Hacq. cbn in Hacq.
  rewrite Ha in Hacq. cbn in Hacq. apply bind_Some in Hacq as (l & Hl & Hacq). simplify_eq.
  pose proof (aget_aset_eq _ _ _ _ Hl) as Hg. split; [eexists; split; [exact Hg|done]|].
  unfold AcpiUtReleaseMutex. destruct (_ <? _) eqn:E2; bool_prop; [lia|]. rewrite Hg. cbn.
  destruct (aset_in info' id (mkInfo (Some (AcpiOsReleaseMutex m' t)) (u32 (UseCount e + 1)) None)) as [l2 Hl2].
  { by eapply aget_Some. }
  rewrite Hl2. cbn. eexists. split; [done|]. by eapply aget_aset_eq.
Qed.
End utmutex.
End UtMutex.

(** ** Owner identifiers (utownerid.c) *)
Module OwnerId.
Definition ACPI_NUM_OWNERID_MASKS : Z := 128.

(** [AcpiGbl_OwnerIdMask], [AcpiGbl_LastOwnerIdIndex] and [AcpiGbl_NextOwnerIdOffset]. *)
Record globals := mkGlobals {
  OwnerIdMask : list Z;
  LastOwnerIdIndex : Z;
  NextOwnerIdOffset : Z;
}.

(** [AcpiUtInitGlobals]: the last bit of the last mask is never free. *)
Definition init_globals : globals := mkGlobals (replicate 127 0 ++ [2 ^ 31]) 0 0.

(** The inner loop over the bits [k .. 31] of one mask: the first free one. *)
Fixpoint scan_bits (n : nat) (mask k : Z) : option Z :=
  match n with
  | O => None
  | S n' =>
      if mask =? ACPI_UINT32_MAX then None
      else if Z.land mask (u32 (Z.shiftl 1 k)) =? 0 then Some k
      else scan_bits n' mask (k + 1)
  end.

(** The outer loop, [n] more iterations, at mask [j]; [None] for an access outside the masks.  A
    found identifier is returned with the new state. *)
Fixpoint scan_masks (n : nat) (g : globals) (j : Z) : option (option Z * globals) :=
  match n with
  | O => Some (None, g)
  | S n' =>
      let j := if ACPI_NUM_OWNERID_MASKS <=? j then 0 else j in
      mask ← aget (OwnerIdMask g) j;
      match scan_bits (Z.to_nat (32 - NextOwnerIdOffset g)) mask (NextOwnerIdOffset g) with
      | Some k =>
          masks ← aset (OwnerIdMask g) j (Z.lor mask (u32 (Z.shiftl 1 k)));
          Some (Some (u16 (k + 1 + u32 (Z.shiftl j 5))), mkGlobals masks (u8 j) (u8 (k + 1)))
      | None => scan_masks n' (mkGlobals (OwnerIdMask g) (LastOwnerIdIndex g) 0) (j + 1)
      end
  end.

(** The mutex around the masks is taken and released on every path. *)
Definition AcpiUtAllocateOwnerId (g : globals) (OwnerId : Z) : option (ACPI_STATUS * Z * globals) :=
  if negb (OwnerId =? 0) then Some (AE_ALREADY_EXISTS, OwnerId, g)
  else
    '(found, g') ← scan_masks (Z.to_nat (ACPI_NUM_OWNERID_MASKS + 1)) g (LastOwnerIdIndex g);
    match found with
    | Some id => Some (AE_OK, id, g')
    | None => Some (AE_OWNER_ID_LIMIT, OwnerId, g')
    end.

(** Returns the state and the cleared identifier. *)
Definition AcpiUtReleaseOwnerId (g : globals) (OwnerId : Z) : option (globals * Z) :=
  if OwnerId =? 0 then Some (g, 0)
  else
    let OwnerId := OwnerId - 1 in
    let Index := u32 (Z.shiftr OwnerId 5) in
    let Bit := u32 (Z.shiftl 1 (Z.land OwnerId 31)) in
    mask ← aget (OwnerIdMask g) Index;
    if negb (Z.land mask Bit =? 0) then
      masks ← aset (OwnerIdMask g) Index (Z.lxor mask Bit);
      Some (mkGlobals masks (LastOwnerIdIndex g) (NextOwnerIdOffset g), 0)
    else Some (g, 0).

(** *** Invariant: 128 masks of 32 bits, identifier [id] is in use when bit [id - 1] is set *)

Record wf (g : globals) : Prop := {
  wf_len : zlen (OwnerIdMask g) = ACPI_NUM_OWNERID_MASKS;
  wf_masks : forall j mask, aget (OwnerIdMask g) j = Some mask -> in_width 32 mask;
  wf_last : 0 <= LastOwnerIdIndex g < ACPI_NUM_OWNERID_MASKS;
  wf_next : 0 <= NextOwnerIdOffset g <= 32;
  wf_top : exists mask, aget (OwnerIdMask g) 127 = Some mask /\ Z.testbit mask 31 = true;
}.

Definition in_use (g : globals) (id : Z) : bool :=
  match aget (OwnerIdMask g) ((id - 1) / 32) with
  | Some mask => Z.testbit mask ((id - 1) mod 32)
  | None => false
  end.

Lemma bit_pow k : 0 <= k < 32 -> u32 (Z.shiftl 1 k) = 2 ^ k.
Proof.
  intros Hk. rewrite Z.shiftl_1_l, wrap_small; [done|]. split; [lia|]. apply Z.pow_lt_mono_r; lia.
Qed.

Lemma land_bit mask k : 0 <= k -> (Z.land mask (2 ^ k) =? 0) = negb (Z.testbit mask k).
Proof.
  intros Hk. destruct (Z.testbit mask k) eqn:E; cbn.
  - apply Z.eqb_neq. intros H0. apply (f_equal (fun z => Z.testbit z k)) in H0.
    rewrite Z.land_spec, E, Z.pow2_bits_true, Z.bits_0 in H0 by done. done.
  - apply Z.eqb_eq, Z.bits_inj'. intros i Hi. rewrite Z.land_spec, Z.bits_0, pow2_testbit by done.
    case_bool_decide; [subst; by rewrite E|by rewrite andb_false_r].
Qed.

Lemma scan_bits_Some n mask k r : 0 <= k -> k + Z.of_nat n <= 32 -> scan_bits n mask k = Some r ->
  k <= r < k + Z.of_nat n /\ Z.testbit mask r = false.
Proof.
  revert k. induction n as [|n IH]; intros k Hk Hn Hs; cbn [scan_bits] in Hs; [done|].
  destruct (mask =? _); [done|]. rewrite bit_pow, land_bit in Hs by lia.
  destruct (Z.testbit mask k) eqn:E; cbn in Hs.
  - apply IH in Hs; [|lia..]. destruct Hs. split; [lia|done].
  - simplify_eq. split; [lia|done].
Qed.

Lemma scan_bits_None n mask k i : 0 <= k -> k + Z.of_nat n <= 32 -> in_width 32 mask ->
  scan_bits n mask k = None -> k <= i < k + Z.of_nat n -> Z.testbit mask i = true.
Proof.
  revert k. induction n as [|n IH]; intros k Hk Hn Hw Hs Hi; cbn [scan_bits] in Hs; [lia|].
  destruct (mask =? _) eqn:E; bool_prop.
  - subst. change ACPI_UINT32_MAX with (Z.ones 32). apply Z.ones_spec_low. lia.
  - rewrite bit_pow, land_bit in Hs by lia. destruct (Z.testbit mask k) eqn:Eb; cbn in Hs; [|done].
    destruct (decide (i = k)) as [->|]; [done|]. apply (IH (k + 1)); done || lia.
Qed.

(** The state a successful scan leaves. *)
Definition took (g g' : globals) (id j k : Z) : Prop :=
  0 <= j < ACPI_NUM_OWNERID_MASKS /\ 0 <= k < 32 /\ id = k + 1 + 32 * j
  /\ exists mask, aget (OwnerIdMask g) j = Some mask /\ Z.testbit mask k = false
     /\ aset (OwnerIdMask g) j (Z.lor mask (2 ^ k)) = Some (OwnerIdMask g')
     /\ LastOwnerIdIndex g' = j /\ NextOwnerIdOffset g' = k + 1.

Lemma wf_reset g : wf g -> wf (mkGlobals (OwnerIdMask g) (LastOwnerIdIndex g) 0).
Proof. intros []. split; cbn; done || lia. Qed.

Lemma scan_masks_spec n : forall g j, wf g -> 0 <= j <= ACPI_NUM_OWNERID_MASKS ->
  exists r g', scan_masks n g j = Some (r, g') /\
    match r with
    | Some id => exists j' k, took g g' id j' k
    | None => OwnerIdMask g' = OwnerIdMask g /\ wf g'
    end.
Proof.
  induction n as [|n IH]; intros g j Hwf Hj; cbn [scan_masks]; [by exists None, g|].
  set (j1 := if ACPI_NUM_OWNERID_MASKS <=? j then 0 else j).
  assert (0 <= j1 < ACPI_NUM_OWNERID_MASKS) as Hj1.
  { subst j1. destruct (_ <=? _) eqn:E; bool_prop; [done|lia]. }
  destruct (aget_in (OwnerIdMask g) j1) as [mask Hm]; [by rewrite (wf_len g Hwf)|]. rewrite Hm. cbn [mbind option_bind].
  pose proof (wf_next g Hwf) as Hnx.
  destruct (scan_bits _ mask (NextOwnerIdOffset g)) as [k|] eqn:Es.
  - apply scan_bits_Some in Es as [Hk Hbit]; [|lia..].
    rewrite bit_pow by lia. destruct (aset_in (OwnerIdMask g) j1 (Z.lor mask (2 ^ k))) as [l Hl]; [by rewrite (wf_len g Hwf)|].
    rewrite Hl. cbn [mbind option_bind]. eexists _, _. split; [done|]. exists j1, k.
    change ACPI_NUM_OWNERID_MASKS with 128 in *.
    assert (u32 (Z.shiftl j1 5) = 32 * j1) as ->.
    { rewrite Z.shiftl_mul_pow2, wrap_small by (lia || word_lia). lia. }
    split; [done|]. split; [lia|]. split; [by rewrite wrap_small by word_lia|].
    exists mask. cbn. split; [done|]. split; [done|]. split; [done|]. rewrite !wrap_small by word_lia. done.
  - destruct (IH (mkGlobals (OwnerIdMask g) (LastOwnerIdIndex g) 0) (j1 + 1)) as (r & g' & Hs & Hr);
      [by apply wf_reset|lia|].
    exists r, g'. split; [done|]. by destruct r.
Qed.

(** A scan from offset zero that finds nothing has seen [n] full masks. *)
Lemma scan_masks_full n : forall g j g' i, wf g -> NextOwnerIdOffset g = 0 -> 0 <= j <= ACPI_NUM_OWNERID_MASKS ->
  scan_masks n g j = Some (None, g') -> 0 <= i < Z.of_nat n ->
  exists mask, aget (OwnerIdMask g) ((j + i) mod ACPI_NUM_OWNERID_MASKS) = Some mask
    /\ forall b, 0 <= b < 32 -> Z.testbit mask b = true.
Proof.
  change ACPI_NUM_OWNERID_MASKS with 128.
  induction n as [|n IH]; intros g j g' i Hwf Hz Hj Hs Hi; [lia|]. cbn [scan_masks] in Hs.
  change ACPI_NUM_OWNERID_MASKS with 128 in Hs.
  set (j1 := if 128 <=? j then 0 else j) in Hs.
  assert (0 <= j1 < 128 /\ j mod 128 = j1) as [Hj1 Hmod].
  { subst j1. destruct (_ <=? _) eqn:E; bool_prop; [|rewrite Z.mod_small; lia].
    assert (j = 128) as -> by lia. done. }
  destruct (aget (OwnerIdMask g) j1) as [mask|] eqn:Hm; [|done]. cbn [mbind option_bind] in Hs.
  rewrite Hz in Hs. destruct (scan_bits _ mask 0) as [k|] eqn:Es.
  { by destruct (aset _ _ _). }
  destruct (decide (i = 0)) as [->|Hne].
  - exists mask. rewrite Z.add_0_r, Hmod. split; [done|]. intros b Hb.
    eapply scan_bits_None; [| | |exact Es|]; try lia. by eapply wf_masks.
  - destruct (IH (mkGlobals (OwnerIdMask g) (LastOwnerIdIndex g) 0) (j1 + 1) g' (i - 1)) as (mask' & Hm' & Hb);
      [by apply wf_reset|done|lia|done|lia|].
    exists mask'. split; [|done]. cbn in Hm'. rewrite <- Hm'. f_equal.
    replace (j1 + 1 + (i - 1)) with (j1 + i) by lia. rewrite <- Hmod. by rewrite Zplus_mod_idemp_l.
Qed.

Lemma took_in_use g g' id j k x : took g g' id j k -> 1 <= x ->
  in_use g' x = (bool_decide (x = id) || in_use g x)%bool.
Proof.
  intros (Hj & Hk & -> & mask & Hm & Hbit & Hset & _) Hx. unfold in_use.
  destruct (decide ((x - 1) / 32 = j)) as [Eq|Hne].
  - rewrite Eq, (aget_aset_eq _ _ _ _ Hset), Hm. rewrite Z.lor_spec, pow2_testbit
      by (lia || apply Z.mod_pos_bound; lia).
    rewrite orb_comm. f_equal. apply bool_decide_ext. pose proof (Z.div_mod (x - 1) 32). lia.
  - rewrite (aget_aset_ne _ _ _ _ _ (not_eq_sym Hne) Hset). rewrite bool_decide_false; [done|].
    intros ->. apply Hne. symmetry. apply (Z.div_unique_pos _ _ _ k); lia.
Qed.

Lemma took_wf g g' id j k : wf g -> took g g' id j k -> wf g'.
Proof.
  intros [] (Hj & Hk & -> & mask & Hm & Hbit & Hset & Hl & Hn). split.
  - by rewrite (aset_len _ _ _ _ Hset).
  - intros i m Hi. destruct (decide (i = j)) as [->|Hne].
    + rewrite (aget_aset_eq _ _ _ _ Hset) in Hi. simplify_eq. apply lor_width; [lia|by eapply wf_masks0|].
      split; [lia|]. apply Z.pow_lt_mono_r; lia.
    + rewrite (aget_aset_ne _ _ _ _ _ (not_eq_sym Hne) Hset) in Hi. by eapply wf_masks0.
  - by rewrite Hl.
  - rewrite Hn. lia.
  - destruct wf_top0 as (top & Ht & Hb). destruct (decide (127 = j)) as [<-|Hne].
    + rewrite (aget_aset_eq _ _ _ _ Hset). eexists. split; [done|]. rewrite Ht in Hm. simplify_eq.
      by rewrite Z.lor_spec, Hb.
    + rewrite (aget_aset_ne _ _ _ _ _ (not_eq_sym Hne) Hset). eauto.
Qed.

Lemma took_range g g' id j k : wf g -> took g g' id j k -> 1 <= id <= 4095 /\ in_use g id = false.
Proof.
  intros Hwf (Hj & Hk & -> & mask & Hm & Hbit & _). change ACPI_NUM_OWNERID_MASKS with 128 in Hj.
  destruct (wf_top g Hwf) as (top & Ht & Htb). split.
  - assert (~ (j = 127 /\ k = 31)) by (intros [-> ->]; congruence). lia.
  - unfold in_use. replace ((k + 1 + 32 * j - 1) / 32) with j by (apply (Z.div_unique_pos _ _ _ k); lia).
    rewrite Hm. replace ((k + 1 + 32 * j - 1) mod 32) with k; [done|].
    apply (Z.mod_unique_pos _ _ j); lia.
Qed.

(** an owner identifier that is handed out lies in 1 .. 4095, was not in use and is in use
    afterwards, and no other identifier changes; the limit error is reported only when all 4095
    identifiers are in use.  No access leaves the mask array. *)
Theorem allocate_owner_id_fresh g :
  wf g ->
  (exists id g', AcpiUtAllocateOwnerId g 0 = Some (AE_OK, id, g') /\ wf g'
     /\ 1 <= id <= 4095 /\ in_use g id = false
     /\ forall x, 1 <= x -> in_use g' x = (bool_decide (x = id) || in_use g x)%bool)
  \/ (exists g', AcpiUtAllocateOwnerId g 0 = Some (AE_OWNER_ID_LIMIT, 0, g') /\ wf g'
     /\ OwnerIdMask g' = OwnerIdMask g /\ forall x, 1 <= x <= 4095 -> in_use g x = true).
Proof.
  intros Hwf. pose proof (wf_last g Hwf) as Hl. unfold AcpiUtAllocateOwnerId. cbn [Z.eqb negb].
  destruct (scan_masks_spec (Z.to_nat (ACPI_NUM_OWNERID_MASKS + 1)) g (LastOwnerIdIndex g) Hwf)
    as (r & g' & Hs & Hr); [lia|].
  rewrite Hs. cbn [mbind option_bind]. destruct r as [id|].
  - left. destruct Hr as (j & k & Ht). exists id, g'. split; [done|].
    split; [by eapply took_wf|]. destruct (took_range _ _ _ _ _ Hwf Ht). split; [done|]. split; [done|].
    intros x Hx. by eapply took_in_use.
  - right. destruct Hr as [Hm Hwf']. exists g'. split; [done|]. split; [done|]. split; [done|].
    intros x Hx.
    assert (exists n, Z.to_nat (ACPI_NUM_OWNERID_MASKS + 1) = S n /\ n = 128%nat) as (n & Hn & En) by (by exists 128%nat).
    rewrite Hn in Hs. cbn [scan_masks] in Hs.
    change ACPI_NUM_OWNERID_MASKS with 128 in *. rewrite (proj2 (Z.leb_gt _ _)) in Hs by lia.
    destruct (aget _ _) as [mask|]; [|done]. cbn [mbind option_bind] in Hs.
    destruct (scan_bits _ _ _); [by destruct (aset _ _ _)|].
    set (q := (x - 1) / 32). assert (0 <= q < 128) as Hq.
    { subst q. split; [apply Z.div_pos; lia|apply Z.div_lt_upper_bound; lia]. }
    destruct (scan_masks_full n _ (LastOwnerIdIndex g + 1) g' ((q - LastOwnerIdIndex g - 1) mod 128) (wf_reset g Hwf) eq_refl) as (m & Hg & Hb).
    { change ACPI_NUM_OWNERID_MASKS with 128. lia. } { exact Hs. } { subst n. pose proof (Z.mod_pos_bound (q - LastOwnerIdIndex g - 1) 128 eq_refl) as Hb. exact Hb. }
    unfold in_use. fold q. change ACPI_NUM_OWNERID_MASKS with 128 in Hg. cbn in Hg.
    rewrite Zplus_mod_idemp_r in Hg.
    replace (LastOwnerIdIndex g + 1 + (q - LastOwnerIdIndex g - 1)) with q in Hg by lia.
    rewrite Z.mod_small in Hg by done. rewrite Hg. apply Hb, Z.mod_pos_bound. lia.
Qed.

(** releasing the identifier that was just allocated restores which identifiers are in use, clears the
    caller's variable, and keeps the masks well formed. *)
Theorem owner_id_roundtrip g id g' :
  wf g -> AcpiUtAllocateOwnerId g 0 = Some (AE_OK, id, g') ->
  exists g'', AcpiUtReleaseOwnerId g' id = Some (g'', 0)
    /\ forall x, 1 <= x -> in_use g'' x = in_use g x.
Proof.
  intros Hwf. unfold AcpiUtAllocateOwnerId. cbn [Z.eqb negb].
  destruct (scan_masks_spec (Z.to_nat (ACPI_NUM_OWNERID_MASKS + 1)) g (LastOwnerIdIndex g) Hwf)
    as (r & g1 & Hs & Hr); [pose proof (wf_last g Hwf); lia|].
  rewrite Hs. cbn [mbind option_bind]. destruct r as [id1|]; [|done]. intros [= <- <-].
  destruct Hr as (j & k & Ht). pose proof (took_range _ _ _ _ _ Hwf Ht) as [Hid Hfree].
  pose proof (fun x => took_in_use _ _ _ _ _ x Ht) as Huse.
  pose proof Ht as (Hj & Hk & Eid & mask & Hm & Hbit & Hset & _). change ACPI_NUM_OWNERID_MASKS with 128 in Hj.
  unfold AcpiUtReleaseOwnerId. rewrite (proj2 (Z.eqb_neq _ _)) by lia.
  assert (u32 (Z.shiftr (id1 - 1) 5) = j) as ->.
  { rewrite Z.shiftr_div_pow2 by lia. change (2 ^ 5) with 32.
    replace ((id1 - 1) / 32) with j by (apply (Z.div_unique_pos _ _ _ k); lia). rewrite wrap_small; word_lia. }
  assert (Z.land (id1 - 1) 31 = k) as ->.
  { change 31 with (Z.ones 5). rewrite Z.land_ones by lia. symmetry. apply (Z.mod_unique_pos _ _ j); lia. }
  rewrite (aget_aset_eq _ _ _ _ Hset). cbn [mbind option_bind]. rewrite bit_pow, land_bit by lia.
  rewrite Z.lor_spec, Z.pow2_bits_true by lia. rewrite orb_true_r. cbn [negb].
  destruct (aset_in (OwnerIdMask g1) j (Z.lxor (Z.lor mask (2 ^ k)) (2 ^ k))) as [l Hl].
  { rewrite (aset_len _ _ _ _ Hset), (wf_len g Hwf). done. }
  rewrite Hl. cbn [mbind option_bind]. eexists. split; [done|]. intros x Hx.
  unfold in_use. cbn [OwnerIdMask]. destruct (decide ((x - 1) / 32 = j)) as [Eq|Hne].
  - rewrite Eq, (aget_aset_eq _ _ _ _ Hl), Hm. pose proof (Z.mod_pos_bound (x - 1) 32 ltac:(lia)).
    rewrite Z.lxor_spec, Z.lor_spec, pow2_testbit by lia. case_bool_decide as Ek.
    + rewrite <- Ek, Hbit. done.
    + by rewrite orb_false_r, xorb_false_r.
  - by rewrite (aget_aset_ne _ _ _ _ _ (not_eq_sym Hne) Hl), (aget_aset_ne _ _ _ _ _ (not_eq_sym Hne) Hset).
Qed.

Lemma init_globals_wf : wf init_globals.
Proof.
  assert (forall j mask, aget (OwnerIdMask init_globals) j = Some mask -> mask = 0 \/ mask = 2 ^ 31) as Hv.
  { intros j mask Hj. unfold aget in Hj. case_decide; [|done]. cbn [OwnerIdMask init_globals] in Hj.
    apply lookup_app_Some in Hj as [Hj|[_ Hj]].
    - left. by apply lookup_replicate in Hj as [-> _].
    - destruct (_ - _)%nat as [|n]; cbn in Hj; [simplify_eq; by right|done]. }
  split.
  - done.
  - intros j mask [->| ->]%Hv; split; done.
  - done.
  - done.
  - exists (2 ^ 31). split; [reflexivity|reflexivity].
Qed.

Lemma allocate_owner_id_fresh_witness :
  wf init_globals /\ exists g', AcpiUtAllocateOwnerId init_globals 0 = Some (AE_OK, 1, g') /\ in_use g' 1 = true.
Proof.
  split; [exact init_globals_wf|].
  destruct (allocate_owner_id_fresh init_globals init_globals_wf) as [(id & g' & H & _ & _ & _ & Hu)|(g' & H & _)].
  - pose proof H as H'. vm_compute in H'. injection H' as <- _. exists g'. split; [exact H|]. rewrite Hu by lia. reflexivity.
  - vm_compute in H. discriminate H.
Defined.

Lemma owner_id_roundtrip_witness :
  exists g' g'', AcpiUtAllocateOwnerId init_globals 0 = Some (AE_OK, 1, g')
    /\ AcpiUtReleaseOwnerId g' 1 = Some (g'', 0) /\ in_use g'' 1 = false.
Proof.
  destruct (AcpiUtAllocateOwnerId init_globals 0) as [[[[] id] g']|] eqn:E; try (vm_compute in E; discriminate E).
  assert (id = 1) as -> by (vm_compute in E; by injection E).
  destruct (owner_id_roundtrip init_globals 1 g' init_globals_wf E) as (g'' & H1 & H2).
  exists g', g''. split; [reflexivity|]. split; [exact H1|]. rewrite H2 by lia. reflexivity.
Defined.
End OwnerId.
