(* ===== verification/AcpiNamespace.v ===== *)
(** * The ACPI namespace

    Models the tree of named objects of [Device/ACPI/ACPICA/namespace]: [nsalloc.c] (creation, linking
    and deletion of nodes), [nsobject.c] (detaching objects), [nssearch.c] (lookup of one segment),
    [nswalk.c] (the walk with callbacks) and the path of a node from [nsnames.c].

    Nodes live in a finite map from addresses; NULL is 0 and an access to an address that is not mapped
    has no result.  A child list is the [Child] pointer of the parent and the [Peer] pointers behind it,
    so a scope is a binary tree on the heap; [forest] is its abstract form. *)

From S2P Require Import Prelude Kre CLib AcpiUtil AcpiNames Scheduler Locks AcpiSync.

(** ** Data *)
Module Ns.
(** ACPI_NAMESPACE_NODE; [Name] is the segment as a little-endian 32-bit integer. *)
Record ACPI_NAMESPACE_NODE := mkNode {
  Object : Z;
  nType : Z;
  Flags : Z;
  Name : Z;
  Parent : Z;
  Child : Z;
  Peer : Z;
  OwnerId : Z;
}.

(** The header of an operand object (or of the node an alias refers to), as far as the namespace
    reads it: whether the descriptor is an operand, its type, [NextObject], and whether a data object
    has a handler. *)
Record ACPI_OPERAND_OBJECT := mkObj {
  is_operand : bool;
  oType : Z;
  NextObject : Z;
  has_Handler : bool;
}.

(** Calls into other components, in order; they do not change what the namespace reads. *)
Inductive ns_call :=
  | Free_AmlStart (o : Z)                       (* ACPI_FREE (ObjDesc->Method.AmlStart) *)
  | RemoveAddressRange (o node : Z)             (* AcpiUtRemoveAddressRange *)
  | RemoveReference (o : Z)                     (* AcpiUtRemoveReference *)
  | DataHandler (node o : Z)                    (* ObjDesc->Data.Handler *)
  | ReleaseNode (node : Z).                     (* AcpiOsReleaseObject (AcpiGbl_NamespaceCache, Node) *)

Abbreviation node_map := (gmap Z ACPI_NAMESPACE_NODE).

Record state := mkState {
  nodes : node_map;
  objs : gmap Z ACPI_OPERAND_OBJECT;
  calls : list ns_call;
}.

Definition ACPI_TYPE_ANY : Z := 0.
Definition ACPI_TYPE_METHOD : Z := 8.
Definition ACPI_TYPE_REGION : Z := 10.
Definition ACPI_TYPE_LOCAL_METHOD_ALIAS : Z := 22.
Definition ACPI_TYPE_LOCAL_DATA : Z := 29.
Definition ACPI_TYPE_LOCAL_MAX : Z := 29.
Definition ANOBJ_TEMPORARY : Z := 2.
Definition ANOBJ_ALLOCATED_BUFFER : Z := 64.
Definition ACPI_NS_SEARCH_PARENT : Z := 1.
Definition ACPI_NS_ERROR_IF_FOUND : Z := 8.
Definition ACPI_NS_TEMPORARY : Z := 64.
Definition ACPI_NS_OVERRIDE_IF_FOUND : Z := 128.
Definition ACPI_NS_WALK_UNLOCK : Z := 1.
Definition ACPI_NS_WALK_TEMP_NODES : Z := 2.
Definition ACPI_NS_LOCAL : Z := 2.
Definition ACPI_METHOD_MODIFIED_NAMESPACE : Z := 32.

Definition flag (flags bit : Z) : bool := negb (Z.land flags bit =? 0).

Inductive ACPI_INTERPRETER_MODE := ACPI_IMODE_LOAD_PASS1 | ACPI_IMODE_LOAD_PASS2 | ACPI_IMODE_EXECUTE.

#[export] Instance mode_eq_dec : EqDecision ACPI_INTERPRETER_MODE.
Proof. solve_decision. Defined.

(** AcpiGbl_NsProperties *)
Definition AcpiGbl_NsProperties : list Z :=
  [0; 0; 0; 0; 0; 0; 1; 0; 1; 0; 0; 1; 1; 1; 0; 0; 0; 0; 0; 0; 0; 0; 0; 0; 0; 3; 3; 1; 0; 0; 0].

Definition AcpiUtValidObjectType (Type_ : Z) : bool := negb (ACPI_TYPE_LOCAL_MAX <? Type_).

Definition AcpiNsLocal (Type_ : Z) : option Z :=
  if negb (AcpiUtValidObjectType Type_) then Some 0
  else p ← aget AcpiGbl_NsProperties Type_; Some (Z.land p ACPI_NS_LOCAL).

(** What the walk state contributes: the owner, and the executing method with its [InfoFlags]. *)
Record ACPI_WALK_STATE := mkWalk {
  wOwnerId : Z;
  MethodDesc : option Z;
  MethodNode : Z;
}.

(** *** Updates of one field of a node *)
Definition set_Object (o : Z) (n : ACPI_NAMESPACE_NODE) : ACPI_NAMESPACE_NODE :=
  mkNode o (nType n) (Flags n) (Name n) (Parent n) (Child n) (Peer n) (OwnerId n).

Definition set_Type (t : Z) (n : ACPI_NAMESPACE_NODE) : ACPI_NAMESPACE_NODE :=
  mkNode (Object n) t (Flags n) (Name n) (Parent n) (Child n) (Peer n) (OwnerId n).

Definition set_Flags (f : Z) (n : ACPI_NAMESPACE_NODE) : ACPI_NAMESPACE_NODE :=
  mkNode (Object n) (nType n) f (Name n) (Parent n) (Child n) (Peer n) (OwnerId n).

Definition set_Parent (p : Z) (n : ACPI_NAMESPACE_NODE) : ACPI_NAMESPACE_NODE :=
  mkNode (Object n) (nType n) (Flags n) (Name n) p (Child n) (Peer n) (OwnerId n).

Definition set_Child (c : Z) (n : ACPI_NAMESPACE_NODE) : ACPI_NAMESPACE_NODE :=
  mkNode (Object n) (nType n) (Flags n) (Name n) (Parent n) c (Peer n) (OwnerId n).

Definition set_Peer (p : Z) (n : ACPI_NAMESPACE_NODE) : ACPI_NAMESPACE_NODE :=
  mkNode (Object n) (nType n) (Flags n) (Name n) (Parent n) (Child n) p (OwnerId n).

Definition set_OwnerId (w : Z) (n : ACPI_NAMESPACE_NODE) : ACPI_NAMESPACE_NODE :=
  mkNode (Object n) (nType n) (Flags n) (Name n) (Parent n) (Child n) (Peer n) w.

(** Writing to a node that does not exist is a fault. *)
Definition upd (st : state) (a : Z) (f : ACPI_NAMESPACE_NODE -> ACPI_NAMESPACE_NODE) : option state :=
  n ← nodes st !! a; Some (mkState (<[a := f n]> (nodes st)) (objs st) (calls st)).

Definition call (st : state) (c : ns_call) : state := mkState (nodes st) (objs st) (calls st ++ [c]).

(** Enough for a pass over the nodes that visits no node twice. *)
Definition fuel_of {A} (m : gmap Z A) : nat := S (size m).
End Ns.
Import Ns.

(** ** Nodes (nsalloc.c, nsobject.c) *)
Module Alloc.
Section alloc.
(** AcpiGbl_RootNode *)
Context (AcpiGbl_RootNode : Z).

(** [mem] is the object [AcpiOsAcquireObject] returns, cleared; [None] when the cache is exhausted. *)
Definition AcpiNsCreateNode (st : state) (Name : Z) (mem : option Z) : option Z * state :=
  match mem with
  | None => (None, st)
  | Some a => (Some a, mkState (<[a := mkNode 0 0 0 Name 0 0 0 0]> (nodes st)) (objs st) (calls st))
  end.

(** The node's object pointer after its object [ob] is detached. *)
Definition remaining_object (st : state) (ob : ACPI_OPERAND_OBJECT) : option Z :=
  if is_operand ob then
    if NextObject ob =? 0 then Some 0
    else next ← objs st !! NextObject ob;
         Some (if oType next =? ACPI_TYPE_LOCAL_DATA then NextObject ob else NextObject next)
  else Some 0.

(** Detaching unlinks the object from the data objects the node keeps. *)
Definition unlink_data (st : state) (o : Z) (ob : ACPI_OPERAND_OBJECT) : option (gmap Z ACPI_OPERAND_OBJECT) :=
  if is_operand ob && negb (NextObject ob =? 0) then
    next ← objs st !! NextObject ob;
    Some (if oType next =? ACPI_TYPE_LOCAL_DATA
          then <[o := mkObj (is_operand ob) (oType ob) 0 (has_Handler ob)]> (objs st) else objs st)
  else Some (objs st).

Definition AcpiNsDetachObject (st : state) (Node : Z) : option state :=
  n ← nodes st !! Node;
  if Object n =? 0 then Some st
  else
    ob ← objs st !! Object n;
    if oType ob =? ACPI_TYPE_LOCAL_DATA then Some st
    else
      let st := if flag (Flags n) ANOBJ_ALLOCATED_BUFFER && (oType ob =? ACPI_TYPE_METHOD)
                then call st (Free_AmlStart (Object n)) else st in
      let st := if oType ob =? ACPI_TYPE_REGION then call st (RemoveAddressRange (Object n) Node) else st in
      rest ← remaining_object st ob;
      objs' ← unlink_data st (Object n) ob;
      st ← upd (mkState (nodes st) objs' (calls st)) Node (fun n => set_Type ACPI_TYPE_ANY (set_Object rest n));
      Some (call st (RemoveReference (Object n))).

(** The loop over the attached data objects. *)
Fixpoint delete_data (fuel : nat) (st : state) (Node ObjDesc : Z) : option state :=
  match fuel with
  | O => None
  | S fuel' =>
      if ObjDesc =? 0 then Some st
      else
        ob ← objs st !! ObjDesc;
        if negb (oType ob =? ACPI_TYPE_LOCAL_DATA) then Some st
        else
          let st := if has_Handler ob then call st (DataHandler Node ObjDesc) else st in
          delete_data fuel' (call st (RemoveReference ObjDesc)) Node (NextObject ob)
  end.

Definition AcpiNsDeleteNode (st : state) (Node : Z) : option state :=
  if Node =? 0 then Some st
  else
    st ← AcpiNsDetachObject st Node;
    n ← nodes st !! Node;
    st ← delete_data (fuel_of (objs st)) st Node (Object n);
    if Node =? AcpiGbl_RootNode then Some st
    else Some (call (mkState (delete Node (nodes st)) (objs st) (calls st)) (ReleaseNode Node)).

(** The search for the previous peer. *)
Fixpoint find_prev (fuel : nat) (st : state) (Node PrevNode NextNode : Z) : option Z :=
  match fuel with
  | O => None
  | S fuel' =>
      if NextNode =? Node then Some PrevNode
      else n ← nodes st !! NextNode; find_prev fuel' st Node NextNode (Peer n)
  end.

Definition AcpiNsRemoveNode (st : state) (Node : Z) : option state :=
  n ← nodes st !! Node;
  p ← nodes st !! Parent n;
  PrevNode ← find_prev (fuel_of (nodes st)) st Node 0 (Child p);
  st ← (if negb (PrevNode =? 0) then upd st PrevNode (set_Peer (Peer n))
        else upd st (Parent n) (set_Child (Peer n)));
  AcpiNsDeleteNode st Node.

(** The end of a peer list. *)
Fixpoint last_peer (fuel : nat) (st : state) (ChildNode : Z) : option Z :=
  match fuel with
  | O => None
  | S fuel' => n ← nodes st !! ChildNode; if Peer n =? 0 then Some ChildNode else last_peer fuel' st (Peer n)
  end.

(** The walk state after a node was created below [ParentNode]. *)
Definition mark_method (WalkState : option ACPI_WALK_STATE) (ParentNode : Z) : option ACPI_WALK_STATE :=
  w ← WalkState;
  Some (match MethodDesc w with
        | Some InfoFlags =>
            if negb (ParentNode =? MethodNode w)
            then mkWalk (wOwnerId w) (Some (Z.lor InfoFlags ACPI_METHOD_MODIFIED_NAMESPACE)) (MethodNode w)
            else w
        | None => w
        end).

Definition AcpiNsInstallNode (WalkState : option ACPI_WALK_STATE) (st : state) (ParentNode Node Type_ : Z)
    : option (option ACPI_WALK_STATE * state) :=
  let Owner := match WalkState with Some w => wOwnerId w | None => 0 end in
  st ← upd st Node (fun n => set_Parent ParentNode (set_Peer 0 n));
  p ← nodes st !! ParentNode;
  st ← (if Child p =? 0 then upd st ParentNode (set_Child Node)
        else last ← last_peer (fuel_of (nodes st)) st (Child p); upd st last (set_Peer Node));
  st ← upd st Node (fun n => set_Type (u8 Type_) (set_OwnerId Owner n));
  Some (mark_method WalkState ParentNode, st).

(** The loop over the children to delete. *)
Fixpoint delete_peers (fuel : nat) (st : state) (NextNode : Z) : option state :=
  match fuel with
  | O => None
  | S fuel' =>
      if NextNode =? 0 then Some st
      else n ← nodes st !! NextNode; st ← AcpiNsDeleteNode st NextNode; delete_peers fuel' st (Peer n)
  end.

Definition AcpiNsDeleteChildren (st : state) (ParentNode : Z) : option state :=
  if ParentNode =? 0 then Some st
  else
    p ← nodes st !! ParentNode;
    st ← delete_peers (fuel_of (nodes st)) st (Child p);
    upd st ParentNode (set_Child 0).

Definition AcpiNsGetNextNode (st : state) (ParentNode ChildNode : Z) : option Z :=
  if ChildNode =? 0 then p ← nodes st !! ParentNode; Some (Child p)
  else n ← nodes st !! ChildNode; Some (Peer n).
End alloc.
End Alloc.

(** ** The namespace mutex

    The operations on [ACPI_MTX_NAMESPACE] as their clients use them; [None] when the thread blocks. *)
Class NamespaceLock (L : Type) := {
  AcquireNamespace : L -> option (ACPI_STATUS * L);
  ReleaseNamespace : L -> option (ACPI_STATUS * L);
}.

(** The lock is one component of what a client works on. *)
#[export] Instance lock_of_pair {L C} `{NamespaceLock L} : NamespaceLock (L * C) := {
  AcquireNamespace x := '(s, l) ← AcquireNamespace (fst x); Some (s, (l, snd x));
  ReleaseNamespace x := '(s, l) ← ReleaseNamespace (fst x); Some (s, (l, snd x));
}.

Definition ACPI_MTX_NAMESPACE : Z := 1.

(** The global mutexes (utmutex.c), for one thread, implement the interface. *)
Definition namespace_mutex {M} `{OsMutexOps M} (debug : bool) (t : tptr)
    : NamespaceLock (list (UtMutex.ACPI_MUTEX_INFO (M := M))) := {|
  AcquireNamespace info := UtMutex.AcpiUtAcquireMutex debug info ACPI_MTX_NAMESPACE t;
  ReleaseNamespace info := UtMutex.AcpiUtReleaseMutex debug info ACPI_MTX_NAMESPACE t;
|}.

(** ** Deletion of subtrees and of the nodes of an owner (nsalloc.c) *)
Module Delete.
Import Alloc.
Section delete.
Context {L : Type} `{NamespaceLock L} (AcpiGbl_RootNode : Z).

(** The loop of [AcpiNsDeleteNamespaceSubtree]. *)
Fixpoint subtree_loop (fuel : nat) (st : state) (ParentNode ChildNode Level : Z) : option state :=
  match fuel with
  | O => None
  | S fuel' =>
      if Level <=? 0 then Some st
      else
        ChildNode ← AcpiNsGetNextNode st ParentNode ChildNode;
        if negb (ChildNode =? 0) then
          st ← AcpiNsDetachObject st ChildNode;
          n ← nodes st !! ChildNode;
          if negb (Child n =? 0) then subtree_loop fuel' st ChildNode 0 (Level + 1)
          else subtree_loop fuel' st ParentNode ChildNode Level
        else
          st ← AcpiNsDeleteChildren AcpiGbl_RootNode st ParentNode;
          p ← nodes st !! ParentNode;
          subtree_loop fuel' st (Parent p) ParentNode (Level - 1)
  end.

(** Every node below the start is passed on the way down and, if it has children, on the way up. *)
Definition AcpiNsDeleteNamespaceSubtree (l : L) (st : state) (ParentNode : Z) : option (L * state) :=
  if ParentNode =? 0 then Some (l, st)
  else
    '(Status, l) ← AcquireNamespace l;
    if decide (Status <> AE_OK) then Some (l, st)
    else
      st ← subtree_loop (2 * fuel_of (nodes st)) st ParentNode 0 1;
      '(_, l) ← ReleaseNamespace l; Some (l, st).

(** The loop of [AcpiNsDeleteNamespaceByOwner]. *)
Fixpoint owner_loop (fuel : nat) (st : state) (Owner DeletionNode ParentNode ChildNode Level : Z) : option state :=
  match fuel with
  | O => None
  | S fuel' =>
      if Level <=? 0 then Some st
      else
        ChildNode ← AcpiNsGetNextNode st ParentNode ChildNode;
        st ← (if negb (DeletionNode =? 0) then
                st ← AcpiNsDeleteChildren AcpiGbl_RootNode st DeletionNode;
                AcpiNsRemoveNode AcpiGbl_RootNode st DeletionNode
              else Some st);
        if negb (ChildNode =? 0) then
          n ← nodes st !! ChildNode;
          st ← (if OwnerId n =? Owner then AcpiNsDetachObject st ChildNode else Some st);
          if negb (Child n =? 0) then owner_loop fuel' st Owner 0 ChildNode 0 (Level + 1)
          else owner_loop fuel' st Owner (if OwnerId n =? Owner then ChildNode else 0) ParentNode ChildNode Level
        else
          p ← nodes st !! ParentNode;
          owner_loop fuel' st Owner
            (if negb (Level - 1 =? 0) && (OwnerId p =? Owner) then ParentNode else 0)
            (Parent p) ParentNode (Level - 1)
  end.

Definition AcpiNsDeleteNamespaceByOwner (l : L) (st : state) (Owner : Z) : option (L * state) :=
  if Owner =? 0 then Some (l, st)
  else
    '(Status, l) ← AcquireNamespace l;
    if decide (Status <> AE_OK) then Some (l, st)
    else
      st ← owner_loop (2 * fuel_of (nodes st)) st Owner 0 AcpiGbl_RootNode 0 1;
      '(_, l) ← ReleaseNamespace l; Some (l, st).
End delete.
End Delete.

(** ** Lookup of one segment (nssearch.c) *)
Module Search.
Import Alloc Repair.
Section search.
Context (AcpiGbl_RootNode : Z) (AcpiGbl_RuntimeNamespaceOverride : bool).

(** The loop over the children. *)
Fixpoint search_peers (fuel : nat) (st : state) (TargetName Node : Z) : option (ACPI_STATUS * Z) :=
  match fuel with
  | O => None
  | S fuel' =>
      if Node =? 0 then Some (AE_NOT_FOUND, 0)
      else
        n ← nodes st !! Node;
        if Name n =? TargetName
        then Some (AE_OK, if nType n =? ACPI_TYPE_LOCAL_METHOD_ALIAS then Object n else Node)
        else search_peers fuel' st TargetName (Peer n)
  end.

(** The status and [*ReturnNode], which stays NULL when nothing is found. *)
Definition AcpiNsSearchOneScope (st : state) (TargetName ParentNode : Z) : option (ACPI_STATUS * Z) :=
  p ← nodes st !! ParentNode;
  search_peers (fuel_of (nodes st)) st TargetName (Child p).

(** The loop over the enclosing scopes. *)
Fixpoint search_parents (fuel : nat) (st : state) (TargetName ParentNode : Z) : option (ACPI_STATUS * Z) :=
  match fuel with
  | O => None
  | S fuel' =>
      if ParentNode =? 0 then Some (AE_NOT_FOUND, 0)
      else
        '(Status, r) ← AcpiNsSearchOneScope st TargetName ParentNode;
        if decide (Status = AE_OK) then Some (Status, r)
        else p ← nodes st !! ParentNode; search_parents fuel' st TargetName (Parent p)
  end.

Definition AcpiNsSearchParentTree (st : state) (TargetName Node Type_ : Z) : option (ACPI_STATUS * Z) :=
  n ← nodes st !! Node;
  if Parent n =? 0 then Some (AE_NOT_FOUND, 0)
  else
    local ← AcpiNsLocal Type_;
    if negb (local =? 0) then Some (AE_NOT_FOUND, 0)
    else search_parents (fuel_of (nodes st)) st TargetName (Parent n).

(** A segment as its four bytes. *)
Definition name_bytes (n : Z) : list Z :=
  [u8 n; u8 (Z.shiftr n 8); u8 (Z.shiftr n 16); u8 (Z.shiftr n 24)].

Definition bytes_name (l : list Z) : Z := foldr (fun b n => b + 256 * n) 0 l.

(** The status, [*ReturnNode] and the walk state; [mem] is what the node cache returns. *)
Definition AcpiNsSearchAndEnter (WalkState : option ACPI_WALK_STATE) (st : state) (TargetName Node : Z)
    (InterpreterMode : ACPI_INTERPRETER_MODE) (Type_ Flags_ : Z) (mem : option Z)
    : option (ACPI_STATUS * Z * option ACPI_WALK_STATE * state) :=
  if (Node =? 0) || (TargetName =? 0) then Some (AE_BAD_PARAMETER, 0, WalkState, st) else
  bytes ← AcpiUtRepairName (name_bytes TargetName) 0;
  let TargetName := bytes_name bytes in
  '(Status, r) ← AcpiNsSearchOneScope st TargetName Node;
  if decide (Status = AE_OK) then
    if flag Flags_ ACPI_NS_OVERRIDE_IF_FOUND then
      st ← AcpiNsDeleteChildren AcpiGbl_RootNode st r;
      if AcpiGbl_RuntimeNamespaceOverride then
        n ← nodes st !! r;
        w ← WalkState;
        st ← upd (call st (RemoveReference (Object n))) r (fun n => set_OwnerId (wOwnerId w) (set_Object 0 n));
        Some (AE_OK, r, WalkState, st)
      else st ← AcpiNsRemoveNode AcpiGbl_RootNode st r; Some (AE_OK, 0, WalkState, st)
    else if flag Flags_ ACPI_NS_ERROR_IF_FOUND then Some (AE_ALREADY_EXISTS, r, WalkState, st)
    else Some (AE_OK, r, WalkState, st)
  else
    found ← (if bool_decide (InterpreterMode <> ACPI_IMODE_LOAD_PASS1) && flag Flags_ ACPI_NS_SEARCH_PARENT
             then AcpiNsSearchParentTree st TargetName Node Type_ else Some (AE_NOT_FOUND, 0));
    if decide (fst found = AE_OK) then Some (AE_OK, snd found, WalkState, st)
    else if decide (InterpreterMode = ACPI_IMODE_EXECUTE) then Some (AE_NOT_FOUND, 0, WalkState, st)
    else
      match AcpiNsCreateNode st TargetName mem with
      | (None, st) => Some (AE_NO_MEMORY, 0, WalkState, st)
      | (Some NewNode, st) =>
          st ← (if flag Flags_ ACPI_NS_TEMPORARY
                then upd st NewNode (fun n => set_Flags (Z.lor (Flags n) ANOBJ_TEMPORARY) n) else Some st);
          '(WalkState, st) ← AcpiNsInstallNode WalkState st Node NewNode Type_;
          Some (AE_OK, NewNode, WalkState, st)
      end.
End search.
End Search.

(** ** The walk (nswalk.c) *)
Module Walk.
Import Alloc.

(** The loop over the peers of [AcpiNsGetNextNodeTyped]. *)
Fixpoint next_of_type (fuel : nat) (st : state) (Type_ NextNode : Z) : option Z :=
  match fuel with
  | O => None
  | S fuel' =>
      if NextNode =? 0 then Some 0
      else n ← nodes st !! NextNode;
           if nType n =? Type_ then Some NextNode else next_of_type fuel' st Type_ (Peer n)
  end.

Definition AcpiNsGetNextNodeTyped (st : state) (Type_ ParentNode ChildNode : Z) : option Z :=
  NextNode ← AcpiNsGetNextNode st ParentNode ChildNode;
  if Type_ =? ACPI_TYPE_ANY then Some NextNode else next_of_type (fuel_of (nodes st)) st Type_ NextNode.

Section walk.
(** [X] is what the callbacks work on, the namespace mutex included; the callbacks do not change the
    nodes.  A callback takes the node and the level. *)
Context {X : Type} `{NamespaceLock X}.
Context (Type_ MaxDepth Flags_ : Z).

Abbreviation callback := (option (Z -> Z -> X -> ACPI_STATUS * X)).

Context (DescendingCallback AscendingCallback : callback).

(** What a step of the walk leads to: on with a status, or the end of the walk. *)
Inductive outcome :=
  | Continue (Status : ACPI_STATUS) (x : X)
  | Return (Status : ACPI_STATUS) (x : X).

(** The callback at a matching node, with the mutex released around it if asked for. *)
Definition invoke (visited : bool) (ChildNode Level : Z) (x : X) : option outcome :=
  '(MutexStatus, x) ← (if flag Flags_ ACPI_NS_WALK_UNLOCK then ReleaseNamespace x else Some (AE_OK, x));
  if decide (MutexStatus <> AE_OK) then Some (Return MutexStatus x)
  else
    let '(Status, x) :=
      match (if visited then AscendingCallback else DescendingCallback) with
      | Some f => f ChildNode Level x
      | None => (AE_OK, x)
      end in
    '(MutexStatus, x) ← (if flag Flags_ ACPI_NS_WALK_UNLOCK then AcquireNamespace x else Some (AE_OK, x));
    if decide (MutexStatus <> AE_OK) then Some (Return MutexStatus x)
    else Some (match Status with
               | AE_OK | AE_CTRL_DEPTH => Continue Status x
               | AE_CTRL_TERMINATE => Return AE_OK x
               | _ => Return Status x
               end).

(** One visit of a node. *)
Definition visit (n : ACPI_NAMESPACE_NODE) (visited : bool) (ChildNode Level : Z) (x : X) : option outcome :=
  if flag (Flags n) ANOBJ_TEMPORARY && negb (flag Flags_ ACPI_NS_WALK_TEMP_NODES)
  then Some (Continue AE_CTRL_DEPTH x)
  else if (if Type_ =? ACPI_TYPE_ANY then ACPI_TYPE_ANY else nType n) =? Type_
       then invoke visited ChildNode Level x
       else Some (Continue AE_OK x).

Fixpoint walk_loop (fuel : nat) (st : state) (ParentNode ChildNode Level : Z) (visited : bool) (x : X)
    : option (ACPI_STATUS * X) :=
  match fuel with
  | O => None
  | S fuel' =>
      if (Level <=? 0) || (ChildNode =? 0) then Some (AE_OK, x)
      else
        n ← nodes st !! ChildNode;
        o ← visit n visited ChildNode Level x;
        match o with
        | Return Status x => Some (Status, x)
        | Continue Status x =>
            if negb visited && (Level <? MaxDepth) && bool_decide (Status <> AE_CTRL_DEPTH) && negb (Child n =? 0)
            then c ← AcpiNsGetNextNode st ChildNode 0; walk_loop fuel' st ChildNode c (Level + 1) false x
            else if negb visited then walk_loop fuel' st ParentNode ChildNode Level true x
            else
              next ← AcpiNsGetNextNode st ParentNode ChildNode;
              if negb (next =? 0) then walk_loop fuel' st ParentNode next Level false x
              else p ← nodes st !! ParentNode; walk_loop fuel' st (Parent p) ParentNode (Level - 1) true x
        end
  end.

(** [StartNode] is the root for ACPI_ROOT_OBJECT; every node is visited twice. *)
Definition AcpiNsWalkNamespace (st : state) (StartNode : Z) (x : X) : option (ACPI_STATUS * X) :=
  if StartNode =? 0 then Some (AE_NO_NAMESPACE, x)
  else
    c ← AcpiNsGetNextNode st StartNode 0;
    walk_loop (2 * fuel_of (nodes st)) st StartNode c 1 false x.
End walk.
End Walk.

(** ** The path of a node (nsnames.c) *)
Module Path.
Import Search.
Section path.
Context (AcpiGbl_RootNode : Z).

(** ACPI_PATH_PUT8: the byte is stored if it fits, and counted in any case. *)
Definition ACPI_PATH_PUT8 (buf : list Z) (PathSize Byte Length : Z) : option (list Z * Z) :=
  buf ← (if Length <? PathSize then aset buf Length Byte else Some buf);
  Some (buf, u32 (Length + 1)).

(** The four characters of a segment, last first; trailing underscores are skipped while [NoTrailing]. *)
Fixpoint put_chars (rev_name : list Z) (buf : list Z) (PathSize Length : Z) (DoNoTrailing : bool)
    : option (list Z * Z) :=
  match rev_name with
  | [] => Some (buf, Length)
  | c :: rest =>
      let DoNoTrailing := DoNoTrailing && (c =? 95) in
      '(buf, Length) ← (if DoNoTrailing then Some (buf, Length) else ACPI_PATH_PUT8 buf PathSize c Length);
      put_chars rest buf PathSize Length DoNoTrailing
  end.

(** The loop over the node and its parents. *)
Fixpoint put_path (fuel : nat) (st : state) (Node NextNode : Z) (buf : list Z) (PathSize Length : Z)
    (NoTrailing : bool) : option (list Z * Z) :=
  match fuel with
  | O => None
  | S fuel' =>
      if (NextNode =? 0) || (NextNode =? AcpiGbl_RootNode) then Some (buf, Length)
      else
        '(buf, Length) ← (if negb (NextNode =? Node) then ACPI_PATH_PUT8 buf PathSize AML_DUAL_NAME_PREFIX Length
                          else Some (buf, Length));
        n ← nodes st !! NextNode;
        '(buf, Length) ← put_chars (rev (name_bytes (Name n))) buf PathSize Length NoTrailing;
        put_path fuel' st Node (Parent n) buf PathSize Length NoTrailing
  end.

(** The reversal in place between the cursors. *)
Fixpoint reverse_path (fuel : nat) (buf : list Z) (Left Right : Z) : option (list Z) :=
  match fuel with
  | O => None
  | S fuel' =>
      if Left <? Right then
        c ← aget buf Left; d ← aget buf Right;
        buf ← aset buf Left d; buf ← aset buf Right c;
        reverse_path fuel' buf (Left + 1) (Right - 1)
      else Some buf
  end.

(** The contents of [FullPath] and the returned length; [FullPath] is [None] for NULL. *)
Definition AcpiNsBuildNormalizedPath (st : state) (Node : Z) (FullPath : option (list Z)) (PathSize : Z)
    (NoTrailing : bool) : option (list Z * Z) :=
  let PathSize := match FullPath with None => 0 | Some _ => PathSize end in
  let buf := default [] FullPath in
  if Node =? 0 then ACPI_PATH_PUT8 buf PathSize 0 0
  else
    '(buf, Length) ← put_path (fuel_of (nodes st)) st Node Node buf PathSize 0 NoTrailing;
    '(buf, Length) ← ACPI_PATH_PUT8 buf PathSize AML_ROOT_PREFIX Length;
    buf ← (if Length <=? PathSize then reverse_path (S (length buf)) buf 0 (Length - 1) else Some buf);
    ACPI_PATH_PUT8 buf PathSize 0 Length.

Definition AcpiNsGetNormalizedPathname (st : state) (Node : Z) (NoTrailing : bool) : option (option (list Z)) :=
  '(_, Size) ← AcpiNsBuildNormalizedPath st Node None 0 NoTrailing;
  if Size =? 0 then Some None
  else
    '(buf, _) ← AcpiNsBuildNormalizedPath st Node (Some (replicate (Z.to_nat Size) 0)) Size NoTrailing;
    Some (Some buf).

Definition AcpiNsGetExternalPathname (st : state) (Node : Z) : option (option (list Z)) :=
  AcpiNsGetNormalizedPathname st Node false.

Definition AcpiNsGetPathnameLength (st : state) (Node : Z) : option Z :=
  '(_, Size) ← AcpiNsBuildNormalizedPath st Node None 0 false; Some Size.
End path.
End Path.

(** ** Scopes as forests

    The children of a node with their own children: a node, the forest below it and the peers behind it. *)
Inductive forest :=
  | Nil
  | Cons (a : Z) (children peers : forest).

Module Forest.

Definition first (f : forest) : Z := match f with Nil => 0 | Cons a _ _ => a end.

Fixpoint addrs (f : forest) : list Z :=
  match f with Nil => [] | Cons a c r => a :: addrs c ++ addrs r end.

(** The nodes of the topmost level. *)
Fixpoint tops (f : forest) : list Z := match f with Nil => [] | Cons a _ r => a :: tops r end.

(** The nodes [h] holds below [p] are those of the forest, linked as it says. *)
Fixpoint forest_at (h : node_map) (p : Z) (f : forest) : Prop :=
  match f with
  | Nil => True
  | Cons a c r =>
      a <> 0 /\ (exists n, h !! a = Some n /\ Parent n = p /\ Child n = first c /\ Peer n = first r)
      /\ forest_at h a c /\ forest_at h p r
  end.

(** The whole scope of [p]. *)
Record scope_at (h : node_map) (p : Z) (f : forest) : Prop := {
  scope_start : p <> 0;
  scope_parent : exists n, h !! p = Some n /\ Child n = first f;
  scope_forest : forest_at h p f;
  scope_nodup : NoDup (p :: addrs f);
}.

Lemma first_nonzero h p f : forest_at h p f -> (first f =? 0) = match f with Nil => true | _ => false end.
Proof. destruct f; [done|]. cbn. intros [Ha _]. by apply Z.eqb_neq. Qed.

Lemma forest_nodes h p f : forest_at h p f -> forall a, a ∈ addrs f -> is_Some (h !! a).
Proof.
  revert p. induction f as [|a c IHc r IHr]; intros p Hf b Hb; [by apply not_elem_of_nil in Hb|].
  destruct Hf as (_ & (n & Hn & _) & Hc & Hr). apply elem_of_cons in Hb as [->|Hb]; [by eexists|].
  apply elem_of_app in Hb as [Hb|Hb]; [by eapply IHc|by eapply IHr].
Qed.

(** The forest has at most as many nodes as the heap. *)
Lemma forest_size h p f : forest_at h p f -> NoDup (addrs f) -> (length (addrs f) <= size h)%nat.
Proof.
  intros Hf Hnd. assert (list_to_set (addrs f) ⊆ (dom h : gset Z)) as Hsub.
  { intros a Ha. apply elem_of_list_to_set in Ha. apply elem_of_dom. by eapply forest_nodes. }
  apply subseteq_size in Hsub. by rewrite size_list_to_set, size_dom in Hsub.
Qed.

Lemma forest_frame h h' p f : (forall a, a ∈ addrs f -> h' !! a = h !! a) -> forest_at h p f -> forest_at h' p f.
Proof.
  revert p. induction f as [|a c IHc r IHr]; intros p Heq Hf; [done|].
  destruct Hf as (Ha & (n & Hn & Hrest) & Hc & Hr). split; [done|]. split; [exists n; split; [|done]|].
  - rewrite Heq; [done|left].
  - split; [apply IHc|apply IHr]; try done; intros b Hb; apply Heq; right; apply elem_of_app; auto.
Qed.

(** Only the links of the nodes matter. *)
Definition links (n : ACPI_NAMESPACE_NODE) : Z * Z * Z := (Parent n, Child n, Peer n).

Lemma forest_links h h' p f : (forall a, a ∈ addrs f -> links <$> h' !! a = links <$> h !! a) ->
  forest_at h p f -> forest_at h' p f.
Proof.
  revert p. induction f as [|a c IHc r IHr]; intros p Heq Hf; [done|].
  destruct Hf as (Ha & (n & Hn & Hrest) & Hc & Hr). split; [done|]. split.
  - specialize (Heq a ltac:(left)). rewrite Hn in Heq. destruct (h' !! a) as [n'|]; [|done].
    injection Heq as E1 E2 E3. exists n'. rewrite E1, E2, E3. done.
  - split; [apply IHc|apply IHr]; try done; intros b Hb; apply Heq; right; apply elem_of_app; auto.
Qed.

Lemma scope_links h h' p f : (forall a, links <$> h' !! a = links <$> h !! a) -> scope_at h p f -> scope_at h' p f.
Proof.
  intros Heq [H0 (n & Hn & Hc) Hf Hnd]. split; try done.
  - specialize (Heq p). rewrite Hn in Heq. destruct (h' !! p) as [n'|]; [|done]. injection Heq as E1 E2 E3.
    exists n'. by rewrite E2.
  - eapply forest_links; [|exact Hf]. intros b _. apply Heq.
Qed.

(** A concrete forest on a concrete heap. *)
Ltac by_forest :=
  repeat match goal with
  | |- forest_at _ _ Nil => exact I
  | |- forest_at _ _ (Cons _ _ _) => split; [done|split; [eexists; split; [reflexivity|done]|split]]
  | |- forest_at _ _ ?f => unfold f
  end.

Lemma tops_addrs f a : a ∈ tops f -> a ∈ addrs f.
Proof.
  induction f as [|b c _ r IH]; [done|]. cbn. intros Ha. apply elem_of_cons in Ha as [->|Ha]; [left|].
  right. apply elem_of_app. auto.
Qed.
End Forest.
Import Forest.

(** ** The walk is the recursive traversal *)
Module WalkProps.
Import Alloc Walk.
Section props.
Context {X : Type} `{NamespaceLock X} (Type_ MaxDepth Flags_ : Z).
Context (down up : option (Z -> Z -> X -> ACPI_STATUS * X)).

Abbreviation visit_ := (visit Type_ Flags_ down up).

(** A node is visited, then the nodes below it if the depth and the callback allow it, then the node
    again, then its peers. *)
Fixpoint traverse (h : node_map) (f : forest) (Level : Z) (x : X) : option outcome :=
  match f with
  | Nil => Some (Continue AE_OK x)
  | Cons a c r =>
      n ← h !! a;
      o ← visit_ n false a Level x;
      match o with
      | Return _ _ => Some o
      | Continue Status x =>
          o ← (if (Level <? MaxDepth) && bool_decide (Status <> AE_CTRL_DEPTH)
               then traverse h c (Level + 1) x else Some (Continue AE_OK x));
          match o with
          | Return _ _ => Some o
          | Continue _ x =>
              o ← visit_ n true a Level x;
              match o with Return _ _ => Some o | Continue _ x => traverse h r Level x end
          end
      end
  end.

Definition finish (o : outcome) : ACPI_STATUS * X := match o with Return s x => (s, x) | Continue _ x => (AE_OK, x) end.

(** The loop at the revisit of [a]. *)
Lemma loop_revisit k st p a level x n :
  a <> 0 -> 0 < level -> nodes st !! a = Some n ->
  walk_loop Type_ MaxDepth Flags_ down up (S k) st p a level true x
  = o ← visit_ n true a level x;
    match o with
    | Return s x => Some (s, x)
    | Continue _ x =>
        if negb (Peer n =? 0) then walk_loop Type_ MaxDepth Flags_ down up k st p (Peer n) level false x
        else m ← nodes st !! p; walk_loop Type_ MaxDepth Flags_ down up k st (Parent m) p (level - 1) true x
    end.
Proof.
  intros Ha Hl Hn. cbn [walk_loop]. rewrite (proj2 (Z.leb_gt level 0) Hl), (proj2 (Z.eqb_neq a 0) Ha). cbn [orb].
  rewrite Hn. cbn [mbind option_bind]. destruct (visit_ n true a level x) as [[s y|s y]|]; try done.
  cbn [mbind option_bind negb andb]. unfold AcpiNsGetNextNode. rewrite (proj2 (Z.eqb_neq a 0) Ha), Hn. done.
Qed.

Lemma loop_forest f : forall k st p level x, f <> Nil -> forest_at (nodes st) p f -> is_Some (nodes st !! p) -> 0 < level ->
  exists k', (k <= k')%nat /\
  walk_loop Type_ MaxDepth Flags_ down up (k + 2 * length (addrs f)) st p (first f) level false x
  = o ← traverse (nodes st) f level x;
    match o with
    | Return s x => Some (s, x)
    | Continue _ x =>
        m ← nodes st !! p; walk_loop Type_ MaxDepth Flags_ down up k' st (Parent m) p (level - 1) true x
    end.
Proof.
  induction f as [|a c IHc r IHr]; intros k st p level x Hne Hf Hp Hl; [done|].
  destruct Hf as (Ha & (n & Hn & Hpar & Hch & Hpe) & Hc & Hr). cbn [first addrs length].
  rewrite length_app.
  (* the revisit of [a], with [j] iterations left behind it *)
  assert (forall j x, (k + 2 * length (addrs r) <= j)%nat -> exists k', (k <= k')%nat /\
    walk_loop Type_ MaxDepth Flags_ down up (S j) st p a level true x
    = o ← visit_ n true a level x;
      o ← match o with Return _ _ => Some o | Continue _ x => traverse (nodes st) r level x end;
      match o with
      | Return s x => Some (s, x)
      | Continue _ x =>
          m ← nodes st !! p; walk_loop Type_ MaxDepth Flags_ down up k' st (Parent m) p (level - 1) true x
      end) as Hup.
  { intros j y Hj. rewrite (loop_revisit _ _ _ _ _ _ n) by done. rewrite Hpe, (first_nonzero _ _ _ Hr).
    destruct r as [|b c' r'].
    - exists j. split; [cbn in Hj; lia|]. by destruct (visit_ n true a level y) as [[s z|s z]|].
    - destruct (visit_ n true a level y) as [[s z|s z]|]; [|exists k; by split|exists k; by split].
      cbn [mbind option_bind negb].
      replace j with ((j - 2 * length (addrs (Cons b c' r'))) + 2 * length (addrs (Cons b c' r')))%nat by lia.
      destruct (IHr (j - 2 * length (addrs (Cons b c' r')))%nat st p level z) as (k' & Hk & ->); try done.
      exists k'. split; [lia|done]. }
  replace (k + 2 * S (length (addrs c) + length (addrs r)))%nat
    with (S (S (k + 2 * length (addrs r) + 2 * length (addrs c)))) by lia.
  set (j := (k + 2 * length (addrs r) + 2 * length (addrs c))%nat).
  remember (S j) as j1 eqn:Ej. cbn [walk_loop traverse].
  rewrite (proj2 (Z.leb_gt level 0) Hl), (proj2 (Z.eqb_neq a 0) Ha). cbn [orb].
  rewrite Hn. cbn [mbind option_bind]. destruct (visit_ n false a level x) as [[s y|s y]|]; cbn [mbind option_bind];
    [|exists k; by split|exists k; by split].
  cbn [negb andb]. rewrite Hch, (first_nonzero _ _ _ Hc).
  destruct ((level <? MaxDepth) && bool_decide (s <> AE_CTRL_DEPTH)) eqn:Eg.
  - destruct c as [|b c' r'].
    + cbn [negb andb traverse mbind option_bind]. subst j1. destruct (Hup j y) as (k' & Hk & ->); [lia|].
      exists k'. split; [done|]. by destruct (visit_ n true a level y) as [[s' z|s' z]|].
    + cbn [negb andb]. unfold AcpiNsGetNextNode at 1. cbn [Z.eqb]. rewrite Hn. cbn [mbind option_bind]. rewrite Hch.
      subst j1 j. remember (Cons b c' r') as c eqn:Ec.
      destruct (IHc (S (k + 2 * length (addrs r))) st a (level + 1) y) as (k1 & Hk1 & E1); [by subst|done|by eexists|lia|].
      replace (S (k + 2 * length (addrs r) + 2 * length (addrs c)))
        with (S (k + 2 * length (addrs r)) + 2 * length (addrs c))%nat by lia.
      rewrite E1. destruct (traverse (nodes st) c (level + 1) y) as [[s' z|s' z]|]; cbn [mbind option_bind];
        [|exists k; by split|exists k; by split].
      rewrite Hn. cbn [mbind option_bind]. rewrite Hpar. replace (level + 1 - 1) with level by lia.
      destruct k1 as [|k1]; [lia|]. destruct (Hup k1 z) as (k' & Hk & ->); [lia|].
      exists k'. split; [done|]. by destruct (visit_ n true a level z) as [[s'' w|s'' w]|].
  - cbn [negb andb mbind option_bind]. subst j1. destruct (Hup j y) as (k' & Hk & ->); [lia|].
    exists k'. split; [done|]. by destruct (visit_ n true a level y) as [[s' z|s' z]|].
Qed.

(** C27: the walk over a well-formed scope ends, and it is the recursive traversal: each node is visited
    before and after the nodes below it, down to [MaxDepth], until a callback ends the walk. *)
Theorem walk_is_traversal st StartNode f x : scope_at (nodes st) StartNode f ->
  AcpiNsWalkNamespace Type_ MaxDepth Flags_ down up st StartNode x = finish <$> traverse (nodes st) f 1 x.
Proof.
  intros [H0 (np & Hp & Hc) Hf Hnd]. apply NoDup_cons in Hnd as [_ Hnd].
  pose proof (forest_size _ _ _ Hf Hnd) as Hsz. unfold AcpiNsWalkNamespace, AcpiNsGetNextNode.
  rewrite (proj2 (Z.eqb_neq StartNode 0) H0). cbn [Z.eqb]. rewrite Hp. cbn [mbind option_bind]. rewrite Hc.
  destruct f as [|a c r]; [cbn; done|].
  set (j := (2 * fuel_of (nodes st))%nat).
  replace j with ((j - 2 * length (addrs (Cons a c r))) + 2 * length (addrs (Cons a c r)))%nat
    by (unfold j, fuel_of; lia).
  destruct (loop_forest (Cons a c r) (j - 2 * length (addrs (Cons a c r))) st StartNode 1 x) as (k' & Hk & ->);
    [done|done|by eexists|lia|].
  destruct (traverse (nodes st) (Cons a c r) 1 x) as [[s y|s y]|]; try done.
  cbn [mbind option_bind]. rewrite Hp. cbn [mbind option_bind].
  destruct k' as [|k']; [unfold j, fuel_of in Hk; lia|]. done.
Qed.
End props.

(** *** A namespace with the nodes 2 (a device with the temporary node 4 and the method 5) and 3 below
    the root 1 *)
Definition demo_nodes : node_map :=
  list_to_map [
    (1, mkNode 0 6 0 1 0 2 0 0); (2, mkNode 0 6 0 2 1 4 3 1); (3, mkNode 0 8 0 3 1 0 0 1);
    (4, mkNode 0 8 ANOBJ_TEMPORARY 4 2 0 5 2); (5, mkNode 0 8 0 5 2 0 0 2)].

Definition demo_state : state := mkState demo_nodes ∅ [].

Definition demo_forest : forest := Cons 2 (Cons 4 Nil (Cons 5 Nil Nil)) (Cons 3 Nil Nil).

Lemma demo_scope : scope_at demo_nodes 1 demo_forest.
Proof.
  split; [done|by eexists|by_forest|].
  apply (bool_decide_unpack _). vm_compute. exact I.
Qed.

(** The mutex table with every mutex created and the namespace mutex held by thread 1. *)
Definition demo_info : list (UtMutex.ACPI_MUTEX_INFO (M := Osl.OsMutex)) :=
  match UtMutex.AcpiUtAcquireMutex false
    (replicate 6 (UtMutex.mkInfo (Some Osl.fresh) 0 None)) ACPI_MTX_NAMESPACE 1%nat with
  | Some (_, info) => info
  | None => []
  end.

(** Callbacks that log the node and the level. *)
Definition log_visit (a level : Z) (x : list (UtMutex.ACPI_MUTEX_INFO (M := Osl.OsMutex)) * list (Z * Z)) :=
  (AE_OK, (fst x, snd x ++ [(a, level)])).

(** The methods, with the mutex released around each callback. *)
Lemma walk_is_traversal_witness :
  (snd ∘ snd) <$> AcpiNsWalkNamespace (H := lock_of_pair (H := namespace_mutex false 1%nat))
    8 10 ACPI_NS_WALK_UNLOCK (Some log_visit) (Some log_visit) demo_state 1 (demo_info, [])
  = Some [(5, 2); (5, 2); (3, 1); (3, 1)].
Proof.
  rewrite (walk_is_traversal (H := lock_of_pair (H := namespace_mutex false 1%nat)) _ _ _ _ _
    demo_state 1 demo_forest _ demo_scope).
  vm_compute. reflexivity.
Defined.
End WalkProps.

(** ** Lookup *)
Module SearchProps.
Import Alloc Repair Search.

(** The first node of the level with this name. *)
Fixpoint find_name (h : node_map) (f : forest) (TargetName : Z) : option Z :=
  match f with
  | Nil => None
  | Cons a _ r =>
      match h !! a with
      | Some n => if Name n =? TargetName then Some a else find_name h r TargetName
      | None => None
      end
  end.

(** An alias of a method stands for the node it refers to. *)
Definition resolve (h : node_map) (a : Z) : Z :=
  match h !! a with Some n => if nType n =? ACPI_TYPE_LOCAL_METHOD_ALIAS then Object n else a | None => a end.

Definition found_in (h : node_map) (f : forest) (TargetName : Z) : option Z := resolve h <$> find_name h f TargetName.

Definition answer (r : option Z) : ACPI_STATUS * Z := match r with Some a => (AE_OK, a) | None => (AE_NOT_FOUND, 0) end.

Lemma search_peers_spec st p t f : forest_at (nodes st) p f -> forall fuel, (length (addrs f) < fuel)%nat ->
  search_peers fuel st t (first f) = Some (answer (found_in (nodes st) f t)).
Proof.
  intros Hf. induction f as [|a c _ r IHr]; intros [|fuel] Hl; cbn [addrs length] in Hl; try lia; [done|].
  destruct Hf as (Ha & (n & Hn & _ & _ & Hpe) & _ & Hr). cbn [first search_peers].
  rewrite (proj2 (Z.eqb_neq a 0) Ha), Hn. cbn [mbind option_bind]. unfold found_in. cbn [find_name].
  rewrite Hn. destruct (Name n =? t); cbn [fmap option_map option_fmap answer].
  - unfold resolve. by rewrite Hn.
  - rewrite Hpe. apply IHr; [done|]. rewrite length_app in Hl. lia.
Qed.

Lemma search_one_scope_spec st p t f : scope_at (nodes st) p f ->
  AcpiNsSearchOneScope st t p = Some (answer (found_in (nodes st) f t)).
Proof.
  intros [_ (np & Hp & Hc) Hf Hnd]. unfold AcpiNsSearchOneScope. rewrite Hp. cbn [mbind option_bind]. rewrite Hc.
  apply NoDup_cons in Hnd as [_ Hnd]. apply (search_peers_spec _ p); [done|].
  pose proof (forest_size _ _ _ Hf Hnd). unfold fuel_of. lia.
Qed.

(** The scopes that enclose [p], from [p] to the root. *)
Fixpoint enclosing (h : node_map) (p : Z) (l : list (Z * forest)) : Prop :=
  match l with
  | [] => p = 0
  | (q, f) :: l' => p = q /\ scope_at h p f /\ exists n, h !! p = Some n /\ enclosing h (Parent n) l'
  end.

(** The nearest scope that has the name. *)
Fixpoint nearest (h : node_map) (l : list (Z * forest)) (t : Z) : option Z :=
  match l with
  | [] => None
  | (_, f) :: l' => match found_in h f t with Some a => Some a | None => nearest h l' t end
  end.

Lemma search_parents_spec st t l : forall p fuel, enclosing (nodes st) p l -> (length l < fuel)%nat ->
  search_parents fuel st t p = Some (answer (nearest (nodes st) l t)).
Proof.
  induction l as [|[q f] l IH]; intros p [|fuel] He Hl; cbn [length] in Hl; try lia.
  - cbn in He. by subst.
  - destruct He as (<- & Hs & n & Hn & He). cbn [search_parents nearest].
    rewrite (proj2 (Z.eqb_neq p 0)) by apply Hs. rewrite (search_one_scope_spec _ _ _ f) by done.
    cbn [mbind option_bind]. destruct (found_in (nodes st) f t); cbn [answer]; [done|].
    rewrite decide_False, Hn by done. apply IH; [done|lia].
Qed.

(** Enclosing scopes are distinct nodes, so there are at most as many as nodes. *)
Lemma enclosing_size h l : forall p, enclosing h p l -> NoDup (fst <$> l) -> (length l <= size h)%nat.
Proof.
  intros p He Hnd. assert (list_to_set (fst <$> l) ⊆ (dom h : gset Z)) as Hsub.
  { clear Hnd. intros a Ha. apply elem_of_list_to_set in Ha. apply elem_of_dom. revert p He.
    induction l as [|[q f] l IH]; intros p He; [by apply not_elem_of_nil in Ha|].
    destruct He as (<- & _ & n & Hn & He). cbn in Ha. apply elem_of_cons in Ha as [->|Ha]; [by eexists|].
    by eapply IH. }
  apply subseteq_size in Hsub. rewrite size_list_to_set, size_dom in Hsub by done. by rewrite length_fmap in Hsub.
Qed.

(** A segment that needs no repair. *)
Definition valid_name (t : Z) : Prop := in_width 32 t /\ t <> 0 /\ AcpiUtRepairName (name_bytes t) 0 = Some (name_bytes t).

Lemma name_bytes_id t : in_width 32 t -> bytes_name (name_bytes t) = t.
Proof.
  intros Ht. unfold bytes_name, name_bytes, wrap. cbn [foldr]. rewrite !Z.shiftr_div_pow2 by lia.
  unfold in_width in Ht.
  pose proof (Z.div_mod t (2 ^ 8) ltac:(done)). pose proof (Z.div_mod (t / 2 ^ 8) (2 ^ 8) ltac:(done)).
  pose proof (Z.div_mod (t / 2 ^ 16) (2 ^ 8) ltac:(done)).
  assert (t / 2 ^ 16 = t / 2 ^ 8 / 2 ^ 8) as E1 by (rewrite Z.div_div by lia; done).
  assert (t / 2 ^ 24 = t / 2 ^ 16 / 2 ^ 8) as E2 by (rewrite Z.div_div by lia; done).
  assert (0 <= t / 2 ^ 24 < 2 ^ 8) as Hr by (split; [apply Z.div_pos; lia|apply Z.div_lt_upper_bound; lia]).
  rewrite (Z.mod_small (t / 2 ^ 24)) by done. lia.
Qed.

Section search_and_enter.
Context (root : Z) (override : bool).

Lemma AcpiNsLocal_total Type_ : 0 <= Type_ -> exists local, AcpiNsLocal Type_ = Some local.
Proof.
  intros H0. unfold AcpiNsLocal, AcpiUtValidObjectType. destruct (ACPI_TYPE_LOCAL_MAX <? Type_) eqn:E; [by eexists|].
  bool_prop. unfold ACPI_TYPE_LOCAL_MAX in E. cbn [negb].
  destruct (aget_in AcpiGbl_NsProperties Type_) as [x ->]; [change (zlen AcpiGbl_NsProperties) with 31; lia|by eexists].
Qed.

Lemma search_parent_tree_spec st p q f l t Type_ local : enclosing (nodes st) p ((q, f) :: l) -> (length l <= size (nodes st))%nat ->
  AcpiNsLocal Type_ = Some local ->
  AcpiNsSearchParentTree st t p Type_ = Some (answer (nearest (nodes st) (if local =? 0 then l else []) t)).
Proof using Type.
  intros (<- & Hs & n & Hn & He) Hl El. unfold AcpiNsSearchParentTree. rewrite Hn. cbn [mbind option_bind].
  destruct (Z.eqb_spec (Parent n) 0) as [Ep|Ep].
  - rewrite Ep in He. destruct l as [|[q f'] l]; [by destruct (local =? 0)|]. destruct He as (_ & [H0 _ _ _] & _). done.
  - rewrite El. cbn [mbind option_bind]. destruct (local =? 0); cbn [negb]; [|done].
    apply search_parents_spec; [done|unfold fuel_of; lia].
Qed.

(** in execute mode a name is found in the nearest enclosing scope that has it, or in its own scope
    only if the type is local; nothing is added. *)
Theorem execute_finds_nearest ws st t p l Type_ Flags_ mem :
  valid_name t -> enclosing (nodes st) p l -> NoDup (fst <$> l) -> l <> [] -> 0 <= Type_ ->
  flag Flags_ ACPI_NS_SEARCH_PARENT = true -> flag Flags_ ACPI_NS_OVERRIDE_IF_FOUND = false ->
  flag Flags_ ACPI_NS_ERROR_IF_FOUND = false ->
  exists local, AcpiNsLocal Type_ = Some local
    /\ let '(Status, r) := answer (nearest (nodes st) (if local =? 0 then l else take 1 l) t) in
       AcpiNsSearchAndEnter root override ws st t p ACPI_IMODE_EXECUTE Type_ Flags_ mem = Some (Status, r, ws, st).
Proof using Type.
  intros (Hw & Ht & Hrep) He Hnd Hne HT Hf1 Hf2 Hf3. destruct (AcpiNsLocal_total Type_ HT) as [local El].
  exists local. split; [done|]. pose proof (enclosing_size _ _ _ He Hnd) as Hsz.
  destruct l as [|[q f] l]; [done|]. pose proof He as (<- & Hs & n & Hn & He').
  unfold AcpiNsSearchAndEnter. rewrite (proj2 (Z.eqb_neq p 0)) by apply Hs. rewrite (proj2 (Z.eqb_neq t 0) Ht).
  cbn [orb]. rewrite Hrep. cbn [mbind option_bind]. rewrite name_bytes_id by done.
  rewrite (search_one_scope_spec _ _ _ f) by done. cbn [mbind option_bind].
  assert (nearest (nodes st) (if local =? 0 then (p, f) :: l else take 1 ((p, f) :: l)) t
    = match found_in (nodes st) f t with
      | Some a => Some a
      | None => nearest (nodes st) (if local =? 0 then l else []) t end) as -> by (by destruct (local =? 0)).
  destruct (found_in (nodes st) f t) as [a|]; cbn [answer].
  - by rewrite decide_True, Hf2, Hf3 by done.
  - rewrite decide_False by done. rewrite bool_decide_true, Hf1 by done. cbn [andb].
    cbn [length] in Hsz. rewrite (search_parent_tree_spec st p p f l t Type_ local He ltac:(lia) El).
    cbn [mbind option_bind]. destruct (nearest _ _ t); cbn [answer fst snd].
    + by rewrite decide_True.
    + by rewrite decide_False, decide_True by done.
Qed.
End search_and_enter.

(** *** Entering a name *)

Fixpoint snoc (f : forest) (a : Z) : forest :=
  match f with Nil => Cons a Nil Nil | Cons b c r => Cons b c (snoc r a) end.

Fixpoint last_top (b : Z) (r : forest) : Z := match r with Nil => b | Cons b' _ r' => last_top b' r' end.

Lemma last_peer_spec st p r : forall b c fuel, forest_at (nodes st) p (Cons b c r) -> (length (addrs r) < fuel)%nat ->
  last_peer fuel st b = Some (last_top b r).
Proof.
  induction r as [|b' c' _ r IH]; intros b c [|fuel] Hf Hl; try lia;
    destruct Hf as (Hb & (n & Hn & _ & _ & Hpe) & _ & Hr); cbn [last_peer last_top]; rewrite Hn; cbn [mbind option_bind];
    rewrite Hpe, (first_nonzero _ _ _ Hr); [done|].
  apply (IH _ c'); [done|]. cbn in Hl. rewrite length_app in Hl. lia.
Qed.

Lemma last_top_in b r : last_top b r ∈ b :: addrs r.
Proof.
  revert b. induction r as [|b' c' _ r IH]; intros b; [left|]. cbn [last_top addrs].
  specialize (IH b'). apply elem_of_cons in IH as [->|IH]; [by right; left|].
  right. right. apply elem_of_app. by right.
Qed.

Lemma snoc_addrs f a q : q ∈ addrs (snoc f a) <-> q = a \/ q ∈ addrs f.
Proof.
  induction f as [|b c _ r IH]; cbn; [set_solver|]. rewrite !elem_of_cons, !elem_of_app, IH. tauto.
Qed.

Lemma snoc_nodup f a : NoDup (addrs f) -> a ∉ addrs f -> NoDup (addrs (snoc f a)).
Proof.
  induction f as [|b c _ r IH]; cbn; intros Hnd Ha; [apply NoDup_singleton|].
  apply NoDup_cons in Hnd as [Hb Hnd]. apply NoDup_app in Hnd as (Hc & Hcr & Hr).
  rewrite not_elem_of_cons, not_elem_of_app in Ha. destruct Ha as (Hab & Hac & Har).
  rewrite not_elem_of_app in Hb. destruct Hb as [Hbc Hbr].
  apply NoDup_cons. split; [rewrite not_elem_of_app, snoc_addrs; intuition congruence|].
  apply NoDup_app. split; [done|]. split; [|by apply IH]. intros q Hq. rewrite snoc_addrs.
  intros [->|Hq']; [done|]. by eapply Hcr.
Qed.

(** Linking [a] behind the last peer. *)
Lemma forest_snoc h p f : forall b c r a n l m, f = Cons b c r -> forest_at h p f -> NoDup (addrs f) ->
  h !! a = Some n -> a <> 0 -> a ∉ addrs f -> Parent n = p -> Child n = 0 -> Peer n = 0 ->
  l = last_top b r -> h !! l = Some m -> forest_at (<[l := set_Peer a m]> h) p (snoc f a).
Proof.
  induction f as [|b0 c0 _ r0 IH]; intros b c r a n l m Ef Hf Hnd Hn Ha Hni Hp Hc Hpe El Hm; [done|].
  injection Ef as -> -> ->. destruct Hf as (Hb & (nb & Hnb & Hbp & Hbc & Hbe) & Hfc & Hfr). cbn [addrs] in Hnd, Hni.
  apply NoDup_cons in Hnd as [Hbni Hnd]. apply NoDup_app in Hnd as (Hndc & Hcr & Hndr).
  rewrite not_elem_of_cons, not_elem_of_app in Hni. destruct Hni as (Hab & Hac & Har).
  rewrite not_elem_of_app in Hbni. destruct Hbni as [Hbc' Hbr].
  assert (l ∈ b :: addrs r) as Hl by (subst l; apply last_top_in).
  assert (l ∉ addrs c) as Hlc.
  { apply elem_of_cons in Hl as [->|Hl]; [done|]. intros Hlc. by eapply Hcr. }
  assert (forest_at (<[l := set_Peer a m]> h) b c) as Hfc'.
  { eapply forest_frame; [|done]. intros q Hq. rewrite lookup_insert_ne; [done|]. by intros ->. }
  cbn [snoc forest_at]. destruct r as [|b' c' r'].
  - cbn in El. subst l. assert (m = nb) as -> by congruence. split; [done|]. split; [|split; [done|]].
    + exists (set_Peer a nb). rewrite lookup_insert_eq. done.
    + cbn. split; [done|]. split; [|done]. exists n. rewrite lookup_insert_ne by done. done.
  - split; [done|]. cbn [last_top] in El. split; [|split; [done|by eapply IH]].
    exists nb. rewrite lookup_insert_ne; [done|].
    intros Eb. pose proof (last_top_in b' r') as Hin. rewrite <- El, Eb in Hin. cbn [addrs] in Hbr.
    rewrite not_elem_of_cons, not_elem_of_app in Hbr. apply elem_of_cons in Hin. naive_solver.
Qed.

(** A node without its links. *)
Definition unlinked (n : ACPI_NAMESPACE_NODE) : ACPI_NAMESPACE_NODE := set_Peer 0 (set_Child 0 n).

Definition owner_of (ws : option ACPI_WALK_STATE) : Z := match ws with Some w => wOwnerId w | None => 0 end.

Lemma upd_spec st a n g : nodes st !! a = Some n ->
  upd st a g = Some (mkState (<[a := g n]> (nodes st)) (objs st) (calls st)).
Proof. intros Hn. unfold upd. by rewrite Hn. Qed.

(** Linking a node that is ready: into an empty scope or behind the last peer. *)
Definition link_child (st : state) (ParentNode Node ChildOfParent : Z) : option state :=
  if ChildOfParent =? 0 then upd st ParentNode (set_Child Node)
  else last ← last_peer (fuel_of (nodes st)) st ChildOfParent; upd st last (set_Peer Node).

Lemma link_child_spec st p f a n np : scope_at (nodes st) p f -> nodes st !! p = Some np ->
  nodes st !! a = Some n -> a <> 0 -> a ∉ p :: addrs f -> links n = (p, 0, 0) ->
  exists st', link_child st p a (Child np) = Some st'
    /\ scope_at (nodes st') p (snoc f a)
    /\ nodes st' !! a = Some n
    /\ (forall q, unlinked <$> nodes st' !! q = unlinked <$> nodes st !! q)
    /\ (forall q, q ∉ p :: addrs f -> nodes st' !! q = nodes st !! q).
Proof.
  intros [H0 (np' & Hp' & Hch) Hf Hnd] Hp Hn Ha Hni [= Hpa Hca Hpea]. simplify_eq.
  pose proof Hni as Hni'. apply not_elem_of_cons in Hni' as [Hap Hni'].
  pose proof Hnd as Hnd'. apply NoDup_cons in Hnd' as [Hpni Hndf].
  assert (NoDup (Parent n :: addrs (snoc f a))) as Hnds.
  { apply NoDup_cons. split; [rewrite snoc_addrs; intuition congruence|by apply snoc_nodup]. }
  assert (forall m l, nodes st !! l = Some m -> forall g, unlinked (g m) = unlinked m ->
    forall q, unlinked <$> <[l := g m]> (nodes st) !! q = unlinked <$> nodes st !! q) as Hun.
  { intros m l Hm g Hg q. destruct (decide (q = l)) as [->|]; [rewrite lookup_insert_eq, Hm; cbn; by f_equal|].
    by rewrite lookup_insert_ne. }
  unfold link_child. rewrite Hch, (first_nonzero _ _ _ Hf). destruct f as [|b c r].
  - rewrite (upd_spec _ _ _ _ Hp'). eexists. split; [done|]. cbn [nodes]. split; [|split; [|split]].
    + split; [done|exists (set_Child a np'); by rewrite lookup_insert_eq| |done].
      cbn. split; [done|]. split; [|done]. exists n. by rewrite lookup_insert_ne.
    + by rewrite lookup_insert_ne.
    + by apply Hun.
    + intros q Hq. rewrite lookup_insert_ne; [done|]. intros <-. by apply Hq; left.
  - rewrite (last_peer_spec _ (Parent n) r b c).
    2: done.
    2: { pose proof (forest_size _ _ _ Hf Hndf) as Hsz. cbn in Hsz. rewrite length_app in Hsz. unfold fuel_of. lia. }
    cbn [mbind option_bind]. set (l := last_top b r).
    assert (l ∈ addrs (Cons b c r)) as Hl.
    { pose proof (last_top_in b r) as Hl. cbn. apply elem_of_cons in Hl as [Hl|Hl]; [unfold l; rewrite Hl; left|]. right. apply elem_of_app. by right. }
    destruct (forest_nodes _ _ _ Hf l Hl) as [m Hm]. rewrite (upd_spec _ _ _ _ Hm). eexists. split; [done|].
    cbn [nodes]. split; [|split; [|split]].
    + split; [done| |by eapply forest_snoc|done].
      exists np'. rewrite lookup_insert_ne; [done|]. intros E; apply Hpni; by rewrite <- E.
    + rewrite lookup_insert_ne; [done|]. by intros <-.
    + by apply Hun.
    + intros q Hq. rewrite lookup_insert_ne; [done|]. intros <-. apply Hq. by right.
Qed.

Lemma install_spec ws st p f a n Type_ : scope_at (nodes st) p f ->
  nodes st !! a = Some n -> a <> 0 -> a ∉ p :: addrs f -> Child n = 0 ->
  exists st', AcpiNsInstallNode ws st p a Type_ = Some (mark_method ws p, st')
    /\ scope_at (nodes st') p (snoc f a)
    /\ nodes st' !! a = Some (mkNode (Object n) (u8 Type_) (Flags n) (Name n) p 0 0 (owner_of ws))
    /\ (forall q, q <> a -> unlinked <$> nodes st' !! q = unlinked <$> nodes st !! q)
    /\ (forall q, q ∉ p :: a :: addrs f -> nodes st' !! q = nodes st !! q).
Proof.
  intros Hs Hn Ha Hni Hcn. pose proof (scope_parent _ _ _ Hs) as (np & Hp & Hch).
  pose proof Hni as Hni'. apply not_elem_of_cons in Hni' as [Hap Hni'].
  unfold AcpiNsInstallNode. rewrite (upd_spec _ _ _ _ Hn). cbn [mbind option_bind nodes].
  rewrite lookup_insert_ne, Hp by done. cbn [mbind option_bind].
  set (st1 := mkState (<[a := set_Parent p (set_Peer 0 n)]> (nodes st)) (objs st) (calls st)).
  assert (scope_at (nodes st1) p f) as Hs1.
  { destruct Hs as [H0 Hp0 Hf Hnd]. split; [done| | |done].
    - exists np. unfold st1. cbn. by rewrite lookup_insert_ne.
    - eapply forest_frame; [|done]. intros q Hq. unfold st1. cbn. rewrite lookup_insert_ne; [done|]. by intros <-. }
  destruct (link_child_spec st1 p f a (set_Parent p (set_Peer 0 n)) np) as (st2 & E2 & Hs2 & Ha2 & Hu2 & Hf2); try done.
  { cbn. by rewrite lookup_insert_ne. }
  { cbn. by rewrite lookup_insert_eq. }
  { unfold links. cbn. by rewrite Hcn. }
  unfold link_child in E2. change (<[a:=_]> (nodes st)) with (nodes st1). rewrite E2. cbn [mbind option_bind].
  rewrite (upd_spec _ _ _ _ Ha2). cbn [mbind option_bind]. eexists. split; [done|]. cbn [nodes].
  split; [|split; [|split]].
  - eapply scope_links; [|done]. intros q. destruct (decide (q = a)) as [->|]; [|by rewrite lookup_insert_ne].
    by rewrite lookup_insert_eq, Ha2.
  - rewrite lookup_insert_eq. unfold set_Type, set_OwnerId; cbn. by rewrite Hcn.
  - intros q Hq. rewrite lookup_insert_ne, Hu2 by done. unfold st1. cbn. by rewrite lookup_insert_ne.
  - intros q Hq. rewrite !not_elem_of_cons in Hq. destruct Hq as (Hqp & Hqa & Hqf).
    rewrite lookup_insert_ne, Hf2 by (done || by apply not_elem_of_cons). unfold st1. cbn. by rewrite lookup_insert_ne.
Qed.

Lemma find_name_agree h h' f t : (forall q, q ∈ addrs f -> unlinked <$> h' !! q = unlinked <$> h !! q) ->
  found_in h' f t = found_in h f t.
Proof.
  unfold found_in. induction f as [|a c _ r IH]; intros Heq; [done|]. cbn [find_name].
  pose proof (Heq a ltac:(left)) as Ha.
  assert ((resolve h' <$> find_name h' r t) = (resolve h <$> find_name h r t)) as Hr.
  { apply IH. intros q Hq. apply Heq. right. apply elem_of_app. by right. }
  destruct (h' !! a) as [n'|] eqn:E', (h !! a) as [n|] eqn:E; try done.
  injection Ha as E1 E2 E3 E4 E5 E6. rewrite E4. destruct (Name n =? t); [|done].
  cbn. unfold resolve. rewrite E', E, E1, E2. done.
Qed.

Lemma find_name_snoc h f a n t : (forall q, q ∈ addrs f -> is_Some (h !! q)) -> h !! a = Some n ->
  find_name h (snoc f a) t
  = match find_name h f t with Some b => Some b | None => if Name n =? t then Some a else None end.
Proof.
  intros Hf Hn. induction f as [|b c _ r IH]; cbn [snoc find_name].
  - by rewrite Hn.
  - destruct (Hf b ltac:(left)) as [m ->]. destruct (Name m =? t); [done|].
    apply IH. intros q Hq. apply Hf. right. apply elem_of_app. by right.
Qed.

Section enter.
Context (root : Z) (override : bool).

(** The flags of a new node. *)
Definition new_flags (Flags_ : Z) : Z := if flag Flags_ ACPI_NS_TEMPORARY then ANOBJ_TEMPORARY else 0.

(** C39: in the first load pass a name that its scope does not have becomes the last child of the scope;
    the search then finds it there, every other name is found as before, and of the other nodes only
    links change. *)
Theorem enter_then_found ws st p f t Type_ Flags_ a : valid_name t -> scope_at (nodes st) p f ->
  find_name (nodes st) f t = None -> a <> 0 -> nodes st !! a = None ->
  u8 Type_ <> ACPI_TYPE_LOCAL_METHOD_ALIAS ->
  exists st',
    AcpiNsSearchAndEnter root override ws st t p ACPI_IMODE_LOAD_PASS1 Type_ Flags_ (Some a)
    = Some (AE_OK, a, mark_method ws p, st')
    /\ scope_at (nodes st') p (snoc f a)
    /\ nodes st' !! a = Some (mkNode 0 (u8 Type_) (new_flags Flags_) t p 0 0 (owner_of ws))
    /\ (forall q, q <> a -> unlinked <$> nodes st' !! q = unlinked <$> nodes st !! q)
    /\ AcpiNsSearchOneScope st' t p = Some (AE_OK, a)
    /\ (forall u, u <> t -> AcpiNsSearchOneScope st' u p = AcpiNsSearchOneScope st u p).
Proof.
  intros (Hw & Ht & Hrep) Hs Hnone Ha Hfresh Hty.
  assert (a ∉ p :: addrs f) as Hni.
  { rewrite not_elem_of_cons. destruct Hs as [_ (np & Hp & _) Hf _]. split; [intros ->; by rewrite Hp in Hfresh|].
    intros Hin. destruct (forest_nodes _ _ _ Hf a Hin) as [? E]. by rewrite E in Hfresh. }
  unfold AcpiNsSearchAndEnter. rewrite (proj2 (Z.eqb_neq p 0)) by apply Hs. rewrite (proj2 (Z.eqb_neq t 0) Ht).
  cbn [orb]. rewrite Hrep. cbn [mbind option_bind]. rewrite name_bytes_id by done.
  rewrite (search_one_scope_spec _ _ _ f) by done. cbn [mbind option_bind].
  assert (found_in (nodes st) f t = None) as -> by (unfold found_in; by rewrite Hnone). cbn [answer].
  rewrite decide_False by done. change (bool_decide (ACPI_IMODE_LOAD_PASS1 <> ACPI_IMODE_LOAD_PASS1)) with false.
  cbn [andb mbind option_bind fst snd AcpiNsCreateNode]. rewrite decide_False by done.
  rewrite decide_False by done.
  set (st0 := mkState (<[a := mkNode 0 0 0 t 0 0 0 0]> (nodes st)) (objs st) (calls st)).
  set (n1 := mkNode 0 0 (new_flags Flags_) t 0 0 0 0).
  assert ((if flag Flags_ ACPI_NS_TEMPORARY
     then upd st0 a (fun n => set_Flags (Z.lor (Flags n) ANOBJ_TEMPORARY) n) else Some st0)
    = Some (mkState (<[a := n1]> (nodes st)) (objs st) (calls st))) as ->.
  { unfold n1, new_flags. destruct (flag Flags_ ACPI_NS_TEMPORARY); [|done].
    rewrite (upd_spec _ _ (mkNode 0 0 0 t 0 0 0 0)) by apply lookup_insert_eq. cbn [nodes st0].
    by rewrite insert_insert_eq. }
  cbn [mbind option_bind].
  set (st1 := mkState (<[a := n1]> (nodes st)) (objs st) (calls st)).
  assert (forall q, q <> a -> nodes st1 !! q = nodes st !! q) as Hst1
    by (intros q Hq; unfold st1; cbn; by rewrite lookup_insert_ne).
  assert (scope_at (nodes st1) p f) as Hs1.
  { destruct Hs as [H0 (np & Hp & Hc) Hf Hnd]. apply not_elem_of_cons in Hni as [Hni1 Hni2]. split; [done| | |done].
    - exists np. by rewrite Hst1.
    - eapply forest_frame; [|done]. intros q Hq. apply Hst1. by intros ->. }
  destruct (install_spec ws st1 p f a n1 Type_) as (st' & E & Hs' & Hn' & Hu & Hfr); [done|apply lookup_insert_eq|done..|].
  rewrite E. cbn [mbind option_bind]. exists st'. split; [done|]. split; [done|]. split; [done|].
  assert (forall q, q <> a -> unlinked <$> nodes st' !! q = unlinked <$> nodes st !! q) as Hu'.
  { intros q Hq. by rewrite Hu, Hst1. }
  split; [done|].
  assert (forall u, found_in (nodes st') (snoc f a) u
    = match found_in (nodes st) f u with Some b => Some b | None => if t =? u then Some a else None end) as Hfound.
  { intros u. unfold found_in at 1. rewrite (find_name_snoc _ f a _ _) with (2 := Hn').
    2: { intros q Hq. apply (forest_nodes _ p (snoc f a)); [apply Hs'|]. apply snoc_addrs. by right. }
    change (Name (mkNode (Object n1) (u8 Type_) (Flags n1) (Name n1) p 0 0 (owner_of ws))) with t.
    rewrite <- (find_name_agree (nodes st) (nodes st')).
    2: { intros q Hq. apply Hu'. intros ->. apply Hni. by right. }
    unfold found_in. destruct (find_name (nodes st') f u); [done|]. destruct (t =? u); [|done].
    cbn. unfold resolve. rewrite Hn'. cbn [nType]. by rewrite (proj2 (Z.eqb_neq _ _) Hty). }
  split.
  - rewrite (search_one_scope_spec _ _ _ (snoc f a)) by done. rewrite Hfound, Z.eqb_refl.
    unfold found_in. by rewrite Hnone.
  - intros u Hu0. rewrite (search_one_scope_spec st' _ _ (snoc f a)), (search_one_scope_spec st _ _ f) by done.
    rewrite Hfound, (proj2 (Z.eqb_neq t u)) by done. by destruct (found_in (nodes st) f u).
Qed.
End enter.

(** *** Entering AB__ (42 41 5F 5F) into the demo namespace, and finding _SB_ from the node 2 *)
Definition seg_AB : Z := 1600078401.

Lemma seg_AB_valid : valid_name seg_AB.
Proof. split; [split; vm_compute; congruence|]. split; [done|vm_compute; reflexivity]. Qed.

Definition demo_walk : option ACPI_WALK_STATE := Some (mkWalk 3 (Some 0) 5).

Lemma enter_then_found_witness :
  exists st', AcpiNsSearchAndEnter 1 true demo_walk WalkProps.demo_state seg_AB 2 ACPI_IMODE_LOAD_PASS1 6 0 (Some 9)
      = Some (AE_OK, 9, Some (mkWalk 3 (Some 32) 5), st')
    /\ scope_at (nodes st') 2 (Cons 4 Nil (Cons 5 Nil (Cons 9 Nil Nil)))
    /\ AcpiNsSearchOneScope st' seg_AB 2 = Some (AE_OK, 9).
Proof.
  destruct (enter_then_found 1 true demo_walk WalkProps.demo_state 2 (Cons 4 Nil (Cons 5 Nil Nil)) seg_AB 6 0 9
    seg_AB_valid) as (st' & E & Hs & _ & _ & Hf & _).
  - split; [done|by eexists|by_forest|apply (bool_decide_unpack _); vm_compute; exact I].
  - reflexivity.
  - done.
  - reflexivity.
  - done.
  - exists st'. split; [exact E|]. split; [exact Hs|exact Hf].
Defined.

(** The name 3 of the root, looked up from the node 2. *)
Definition named_nodes : node_map := <[3 := mkNode 0 8 0 seg_AB 1 0 0 1]> WalkProps.demo_nodes.

Lemma execute_finds_nearest_witness :
  AcpiNsSearchAndEnter 1 true None (mkState named_nodes ∅ []) seg_AB 2 ACPI_IMODE_EXECUTE 0 ACPI_NS_SEARCH_PARENT None
  = Some (AE_OK, 3, None, mkState named_nodes ∅ []).
Proof.
  destruct (execute_finds_nearest 1 true None (mkState named_nodes ∅ []) seg_AB 2
    [(2, Cons 4 Nil (Cons 5 Nil Nil)); (1, WalkProps.demo_forest)] 0 ACPI_NS_SEARCH_PARENT None seg_AB_valid)
    as (local & El & E).
  - split; [done|]. split; [split; [done|by eexists|by_forest|apply (bool_decide_unpack _); vm_compute; exact I]|].
    eexists. split; [reflexivity|]. split; [done|].
    split; [split; [done|by eexists|by_forest|apply (bool_decide_unpack _); vm_compute; exact I]|].
    eexists. split; [reflexivity|done].
  - apply (bool_decide_unpack _). vm_compute. exact I.
  - done.
  - done.
  - reflexivity.
  - reflexivity.
  - reflexivity.
  - cbn in El. injection El as <-. exact E.
Defined.
End SearchProps.
