(* ===== verification/AcpiNamespaceDelete.v ===== *)
(** * Deletion in the ACPI namespace

    Proofs about [nsalloc.c]: deleting the nodes below a node frees exactly those nodes.  The objects
    attached to nodes are chains of operand objects that end in NULL. *)

From S2P Require Import Prelude AcpiUtil Locks AcpiSync AcpiNamespace.
Import Ns Alloc Delete Forest.

(** ** Chains of objects *)
Module Chain.

Fixpoint chain (os : gmap Z ACPI_OPERAND_OBJECT) (o : Z) (l : list Z) : Prop :=
  match l with
  | [] => o = 0
  | x :: l' => o = x /\ x <> 0 /\ exists ob, os !! x = Some ob /\ chain os (NextObject ob) l'
  end.

Lemma chain_fun os l : forall o l', chain os o l -> chain os o l' -> l = l'.
Proof.
  induction l as [|x l IH]; intros o [|y l']; cbn; try done.
  - intros -> (<- & ? & _). done.
  - intros (-> & Hx & _) ->. done.
  - intros (-> & _ & ob & Hob & Hl) (<- & _ & ob' & Hob' & Hl'). simplify_eq. f_equal. by eapply IH.
Qed.

(** The rest of a chain from one of its objects. *)
Lemma chain_suffix os l : forall o x, chain os o l -> x ∈ l -> exists l', chain os x l' /\ (length l' <= length l)%nat.
Proof.
  induction l as [|y l IH]; intros o x Hc Hx; [by apply not_elem_of_nil in Hx|].
  apply elem_of_cons in Hx as [->|Hx].
  - exists (y :: l). destruct Hc as (-> & Hc). split; [by split|done].
  - destruct Hc as (_ & _ & ob & _ & Hl). destruct (IH _ x Hl Hx) as (l' & Hl' & Hle). exists l'. split; [done|cbn; lia].
Qed.

Lemma chain_nodup os l : forall o, chain os o l -> NoDup l.
Proof.
  induction l as [|x l IH]; intros o Hc; [apply NoDup_nil_2|]. pose proof Hc as (-> & _ & ob & Hob & Hl).
  apply NoDup_cons. split; [|by eapply IH]. intros Hx.
  destruct (chain_suffix _ _ _ _ Hl Hx) as (l' & Hl' & Hle).
  rewrite (chain_fun _ _ _ _ Hl' Hc) in Hle. cbn in Hle. lia.
Qed.

Lemma ochain_size os l o : chain os o l -> (length l <= size os)%nat.
Proof.
  intros Hc. pose proof (chain_nodup _ _ _ Hc) as Hnd.
  assert (list_to_set l ⊆ (dom os : gset Z)) as Hsub.
  { intros x Hx. apply elem_of_list_to_set in Hx. apply elem_of_dom. clear Hnd. revert o Hc.
    induction l as [|y l IH]; intros o Hc; [by apply not_elem_of_nil in Hx|].
    destruct Hc as (_ & _ & ob & Hob & Hl). apply elem_of_cons in Hx as [->|Hx]; [by eexists|by eapply IH]. }
  apply subseteq_size in Hsub. by rewrite size_list_to_set, size_dom in Hsub.
Qed.

(** The object pointer of every node ends in NULL. *)
Definition ends (os : gmap Z ACPI_OPERAND_OBJECT) (o : Z) : Prop := exists l, chain os o l.

Lemma ends_null os : ends os 0.
Proof. by exists []. Qed.

Lemma ends_next os x ob : ends os x -> os !! x = Some ob -> x <> 0 -> ends os (NextObject ob).
Proof. intros [[|y l] Hc] Hob Hx; [done|]. destruct Hc as (-> & _ & ob' & Hob' & Hl). simplify_eq. by exists l. Qed.

Lemma ends_lookup os x : ends os x -> x <> 0 -> exists ob, os !! x = Some ob.
Proof. intros [[|y l] Hc] Hx; [done|]. destruct Hc as (-> & _ & ob' & Hob' & Hl). by eexists. Qed.

(** Cutting a chain at an object leaves chains. *)
Lemma ends_cut os x ob o : NextObject ob = 0 -> ends os o -> ends (<[x := ob]> os) o.
Proof.
  intros Hob [l Hc]. revert o Hc. induction l as [|y l IH]; intros o Hc; [cbn in Hc; subst; apply ends_null|].
  destruct Hc as (-> & Hy & ob' & Hob' & Hl). destruct (decide (y = x)) as [->|Hne].
  - exists [x]. split; [done|]. split; [done|]. exists ob. by rewrite lookup_insert_eq.
  - destruct (IH _ Hl) as [l' Hl']. exists (y :: l'). split; [done|]. split; [done|]. exists ob'.
    by rewrite lookup_insert_ne.
Qed.

Definition objects_ok (st : state) : Prop := forall a n, nodes st !! a = Some n -> ends (objs st) (Object n).
End Chain.
Import Chain.

(** ** Single nodes *)
Module Single.

(** [st'] differs from [st] in the object and the type of [a] only. *)
Record detached (st st' : state) (a : Z) : Prop := {
  det_node : exists n o t, nodes st !! a = Some n /\ nodes st' = <[a := set_Type t (set_Object o n)]> (nodes st);
  det_objs : objects_ok st -> objects_ok st';
}.

Lemma call_nodes st c : nodes (call st c) = nodes st.
Proof. done. Qed.

Lemma detach_spec st a : objects_ok st -> is_Some (nodes st !! a) ->
  exists st', AcpiNsDetachObject st a = Some st' /\ detached st st' a.
Proof.
  intros Hok [n Hn]. unfold AcpiNsDetachObject. rewrite Hn. cbn [mbind option_bind].
  assert (detached st st a) as Hrefl.
  { split; [|done]. exists n, (Object n), (nType n). split; [done|]. destruct n; cbn. by rewrite insert_id. }
  destruct (Z.eqb_spec (Object n) 0) as [H0|H0]; [by exists st|].
  pose proof (Hok a n Hn) as He. destruct (ends_lookup _ _ He H0) as [ob Hob]. rewrite Hob. cbn [mbind option_bind].
  destruct (oType ob =? ACPI_TYPE_LOCAL_DATA); [by exists st|].
  set (st1 := if flag (Flags n) _ && _ then _ else st).
  set (st2 := if oType ob =? ACPI_TYPE_REGION then _ else st1).
  assert (nodes st2 = nodes st /\ objs st2 = objs st) as [En Eo].
  { unfold st2, st1. by destruct (oType ob =? ACPI_TYPE_REGION), (flag _ _ && _). }
  assert (exists rest, remaining_object st2 ob = Some rest /\ ends (objs st) rest) as (rest & -> & Hrest).
  { unfold remaining_object. destruct (is_operand ob); [|by exists 0; split; [|apply ends_null]].
    destruct (Z.eqb_spec (NextObject ob) 0) as [Hz|Hz]; [by exists 0; split; [|apply ends_null]|].
    pose proof (ends_next _ _ _ He Hob H0) as Hnx. destruct (ends_lookup _ _ Hnx Hz) as [nx Hnxo].
    rewrite Eo, Hnxo. cbn [mbind option_bind]. eexists. split; [done|].
    destruct (oType nx =? ACPI_TYPE_LOCAL_DATA); [done|by eapply ends_next]. }
  assert (exists os', unlink_data st2 (Object n) ob = Some os' /\ forall o, ends (objs st) o -> ends os' o)
    as (os' & -> & Hos').
  { unfold unlink_data. rewrite Eo. destruct (is_operand ob && negb (NextObject ob =? 0)) eqn:E; [|by eexists].
    apply andb_true_iff in E as [_ E]. apply negb_true_iff, Z.eqb_neq in E.
    pose proof (ends_next _ _ _ He Hob H0) as Hnx. destruct (ends_lookup _ _ Hnx E) as [nx ->].
    cbn [mbind option_bind]. eexists. split; [done|]. destruct (oType nx =? ACPI_TYPE_LOCAL_DATA); [|done].
    intros o Ho. by apply ends_cut. }
  cbn [mbind option_bind]. unfold upd. cbn [nodes]. rewrite En, Hn. cbn [mbind option_bind]. eexists. split; [done|].
  split; [by exists n, rest, ACPI_TYPE_ANY|]. intros _ b m. cbn [nodes objs call].
  destruct (decide (b = a)) as [->|Hne].
  - rewrite lookup_insert_eq. intros [= <-]. cbn. by apply Hos'.
  - rewrite lookup_insert_ne by done. intros Hm. by eapply Hos', Hok.
Qed.

Lemma detached_other st st' a b : detached st st' a -> b <> a -> nodes st' !! b = nodes st !! b.
Proof. intros [(n & o & t & _ & ->) _] Hne. by rewrite lookup_insert_ne. Qed.

Lemma detached_links st st' a b : detached st st' a -> links <$> nodes st' !! b = links <$> nodes st !! b.
Proof.
  intros Hd. destruct (decide (b = a)) as [->|Hne]; [|by rewrite (detached_other st st' a)].
  destruct Hd as [(n & o & t & -> & ->) _]. by rewrite lookup_insert_eq.
Qed.

Lemma delete_data_spec a l : forall st o fuel, chain (objs st) o l -> (length l < fuel)%nat ->
  exists st', delete_data fuel st a o = Some st' /\ nodes st' = nodes st /\ objs st' = objs st.
Proof.
  induction l as [|x l IH]; intros st o [|fuel] Hc Hf; cbn [length] in Hf; try lia; cbn [delete_data].
  - cbn in Hc. subst. by exists st.
  - destruct Hc as (-> & Hx & ob & Hob & Hl). rewrite (proj2 (Z.eqb_neq x 0) Hx), Hob. cbn [mbind option_bind].
    destruct (negb (oType ob =? ACPI_TYPE_LOCAL_DATA)); [by exists st|].
    destruct (IH (call (if has_Handler ob then call st (DataHandler a x) else st) (RemoveReference x))
      (NextObject ob) fuel) as (st' & E & En & Eo); [by destruct (has_Handler ob)|lia|].
    exists st'. split; [done|]. rewrite En, Eo. by destruct (has_Handler ob).
Qed.

Section delete_node.
Context (root : Z).

Lemma delete_node_spec st a : objects_ok st -> is_Some (nodes st !! a) -> a <> 0 -> a <> root ->
  exists st', AcpiNsDeleteNode root st a = Some st' /\ nodes st' = delete a (nodes st) /\ objects_ok st'.
Proof.
  intros Hok Hn Ha Hr. unfold AcpiNsDeleteNode. rewrite (proj2 (Z.eqb_neq a 0) Ha).
  destruct (detach_spec st a Hok Hn) as (st1 & -> & [(n & o & t & Hn' & E1) Hok1]). cbn [mbind option_bind].
  specialize (Hok1 Hok). rewrite E1, lookup_insert_eq. cbn [mbind option_bind].
  destruct (Hok1 a _ ltac:(rewrite E1; apply lookup_insert_eq)) as [l Hl].
  destruct (delete_data_spec a l st1 _ (fuel_of (objs st1)) Hl) as (st2 & -> & E2 & Eo).
  { pose proof (ochain_size _ _ _ Hl). unfold fuel_of. lia. }
  cbn [mbind option_bind]. rewrite (proj2 (Z.eqb_neq a root) Hr). eexists. split; [done|]. cbn [nodes call].
  split; [rewrite E2, E1; by rewrite delete_insert_eq|].
  intros b m. cbn [nodes objs call]. rewrite Eo, E2. intros Hb. apply lookup_delete_Some in Hb as [_ Hb].
  by eapply Hok1.
Qed.

Lemma delete_peers_spec g : forall st p fuel, objects_ok st -> forest_at (nodes st) p g -> NoDup (addrs g) ->
  root ∉ addrs g -> (length (addrs g) < fuel)%nat ->
  exists st', delete_peers root fuel st (first g) = Some st' /\ objects_ok st'
    /\ (forall q, nodes st' !! q = if decide (q ∈ tops g) then None else nodes st !! q).
Proof.
  induction g as [|a c _ r IH]; intros st p [|fuel] Hok Hf Hnd Hr Hl; cbn [addrs length] in Hl; try lia.
  - exists st. split; [done|]. split; [done|]. intros q. by rewrite decide_False by apply not_elem_of_nil.
  - destruct Hf as (Ha & (n & Hn & _ & _ & Hpe) & Hc & Hfr). cbn [first delete_peers].
    rewrite (proj2 (Z.eqb_neq a 0) Ha), Hn. cbn [mbind option_bind].
    cbn [addrs] in Hnd, Hr. rewrite not_elem_of_cons, not_elem_of_app in Hr. destruct Hr as (Hra & _ & Hrr).
    apply NoDup_cons in Hnd as [Hani Hnd]. apply NoDup_app in Hnd as (_ & _ & Hndr).
    rewrite not_elem_of_app in Hani. destruct Hani as [_ Hani].
    destruct (delete_node_spec st a) as (st1 & -> & E1 & Hok1); [done|by eexists|done|done|].
    cbn [mbind option_bind]. rewrite Hpe.
    destruct (IH st1 p fuel) as (st' & -> & Hok' & Hq); [done| |done|done|rewrite length_app in Hl; lia|].
    { eapply forest_frame; [|done]. intros q Hq. rewrite E1, lookup_delete_ne; [done|]. by intros ->. }
    exists st'. split; [done|]. split; [done|]. intros q. rewrite Hq, E1. cbn [tops].
    destruct (decide (q = a)) as [->|Hne].
    + rewrite (decide_True (P := a ∈ a :: _)) by left. case_decide; [done|apply lookup_delete_eq].
    + rewrite lookup_delete_ne by done.
      destruct (decide (q ∈ tops r)); [by rewrite decide_True by (by right)|].
      rewrite decide_False; [done|]. by rewrite not_elem_of_cons.
Qed.
End delete_node.
End Single.
Import Single.

(** ** Subtrees *)
Module Subtree.
Section subtree.
Context {L : Type} `{NamespaceLock L} (root : Z).

Lemma delete_children_spec st p g : objects_ok st -> scope_at (nodes st) p g -> root ∉ addrs g ->
  exists st', AcpiNsDeleteChildren root st p = Some st' /\ objects_ok st'
    /\ (forall q, nodes st' !! q = if decide (q ∈ tops g) then None
                                   else if decide (q = p) then set_Child 0 <$> nodes st !! q else nodes st !! q).
Proof using Type.
  intros Hok [H0 (np & Hp & Hc) Hf Hnd] Hr. unfold AcpiNsDeleteChildren. rewrite (proj2 (Z.eqb_neq p 0) H0), Hp.
  cbn [mbind option_bind]. rewrite Hc. apply NoDup_cons in Hnd as [Hpni Hnd].
  destruct (delete_peers_spec root g st p (fuel_of (nodes st))) as (st1 & -> & Hok1 & Hq); try done.
  { pose proof (forest_size _ _ _ Hf Hnd). unfold fuel_of. lia. }
  cbn [mbind option_bind]. assert (p ∉ tops g) as Hpt by (intros Ht; by apply Hpni, tops_addrs).
  assert (nodes st1 !! p = Some np) as Hp1 by (by rewrite Hq, decide_False).
  unfold upd. rewrite Hp1. cbn [mbind option_bind]. eexists. split; [done|]. cbn [nodes]. split.
  - intros b m. cbn [nodes objs]. destruct (decide (b = p)) as [->|Hne].
    + rewrite lookup_insert_eq. intros [= <-]. exact (Hok1 p np Hp1).
    + rewrite lookup_insert_ne by done. apply Hok1.
  - intros q. destruct (decide (q = p)) as [->|Hne].
    + rewrite lookup_insert_eq, (decide_False (P := p ∈ tops g)) by done. by rewrite Hp.
    + rewrite lookup_insert_ne by done. apply Hq.
Qed.

(** The forest with its topmost level only. *)
Fixpoint strip (f : forest) : forest := match f with Nil => Nil | Cons a _ r => Cons a Nil (strip r) end.

Lemma strip_first f : first (strip f) = first f.
Proof using Type. by destruct f. Qed.

Lemma strip_addrs f : addrs (strip f) = tops f.
Proof using Type. induction f as [|a c _ r IH]; [done|]. cbn. by rewrite IH. Qed.

Lemma strip_tops f : tops (strip f) = tops f.
Proof using Type. induction f as [|a c _ r IH]; [done|]. cbn. by rewrite IH. Qed.

Lemma tops_nodup f : NoDup (addrs f) -> NoDup (tops f).
Proof using Type.
  induction f as [|a c _ r IH]; cbn; [done|]. intros Hnd. apply NoDup_cons in Hnd as [Ha Hnd].
  apply NoDup_app in Hnd as (_ & _ & Hr). apply NoDup_cons. split; [|by apply IH].
  intros Ht. apply Ha, elem_of_app. right. by apply tops_addrs.
Qed.

(** Everything below the topmost level of [f] is gone. *)
Record cut (st st' : state) (p : Z) (f : forest) : Prop := {
  cut_other : forall q, q ∉ addrs f -> nodes st' !! q = nodes st !! q;
  cut_top : forest_at (nodes st') p (strip f);
  cut_deep : forall q, q ∈ addrs f -> q ∉ tops f -> nodes st' !! q = None;
  cut_objs : objects_ok st';
}.

Abbreviation loop := (subtree_loop root).

Lemma next_spec st p a n : a <> 0 -> nodes st !! a = Some n -> AcpiNsGetNextNode st p a = Some (Peer n).
Proof using Type. intros Ha Hn. unfold AcpiNsGetNextNode. by rewrite (proj2 (Z.eqb_neq a 0) Ha), Hn. Qed.

Lemma first_spec st p n : nodes st !! p = Some n -> AcpiNsGetNextNode st p 0 = Some (Child n).
Proof using Type. intros Hn. unfold AcpiNsGetNextNode. cbn. by rewrite Hn. Qed.

(** The iteration that finds no more children. *)
Lemma loop_up k st p last level g n : 0 < level -> AcpiNsGetNextNode st p last = Some 0 -> objects_ok st ->
  scope_at (nodes st) p g -> root ∉ addrs g -> nodes st !! p = Some n ->
  exists st', loop (S k) st p last level = loop k st' (Parent n) p (level - 1) /\ objects_ok st'
    /\ (forall q, nodes st' !! q = if decide (q ∈ tops g) then None
                                   else if decide (q = p) then set_Child 0 <$> nodes st !! q else nodes st !! q).
Proof using Type.
  intros Hl Hnext Hok Hs Hr Hn. destruct (delete_children_spec st p g Hok Hs Hr) as (st' & E & Hok' & Hq).
  exists st'. split; [|done]. cbn [subtree_loop]. rewrite (proj2 (Z.leb_gt level 0) Hl), Hnext.
  cbn [mbind option_bind Z.eqb negb]. rewrite E. cbn [mbind option_bind]. rewrite Hq.
  destruct Hs as [_ _ _ Hnd]. apply NoDup_cons in Hnd as [Hpni _].
  rewrite decide_False by (intros Ht; by apply Hpni, tops_addrs). by rewrite decide_True, Hn.
Qed.

(** The iteration that finds the child [a]. *)
Lemma loop_child k st p prev level a n : 0 < level -> AcpiNsGetNextNode st p prev = Some a -> a <> 0 ->
  objects_ok st -> nodes st !! a = Some n ->
  exists st', loop (S k) st p prev level
      = (if Child n =? 0 then loop k st' p a level else loop k st' a 0 (level + 1))
    /\ detached st st' a.
Proof using Type.
  intros Hl Hnext Ha Hok Hn. destruct (detach_spec st a Hok ltac:(by eexists)) as (st' & E & Hd).
  exists st'. split; [|done]. cbn [subtree_loop]. rewrite (proj2 (Z.leb_gt level 0) Hl), Hnext.
  cbn [mbind option_bind]. rewrite (proj2 (Z.eqb_neq a 0) Ha). cbn [negb]. rewrite E. cbn [mbind option_bind].
  pose proof (detached_links _ _ _ a Hd) as Hlk. rewrite Hn in Hlk. destruct (nodes st' !! a) as [n'|]; [|done].
  injection Hlk as _ Hc _. cbn [mbind option_bind]. rewrite Hc. by destruct (Child n =? 0).
Qed.

Lemma loop_down f : forall st p prev level k, objects_ok st -> forest_at (nodes st) p f -> NoDup (p :: addrs f) ->
  root ∉ addrs f -> 0 < level -> AcpiNsGetNextNode st p prev = Some (first f) ->
  exists st' last k', (k <= k')%nat
    /\ loop (k + 2 * length (addrs f)) st p prev level = loop k' st' p last level
    /\ AcpiNsGetNextNode st' p last = Some 0 /\ cut st st' p f.
Proof using Type.
  induction f as [|a c IHc r IHr]; intros st p prev level k Hok Hf Hnd Hr Hl Hnext.
  { exists st, prev, k. split; [done|]. split; [by rewrite Nat.add_0_r|]. split; [done|]. by split. }
  destruct Hf as (Ha & (n & Hn & Hpar & Hch & Hpe) & Hc & Hfr). cbn [addrs first length] in *.
  apply NoDup_cons in Hnd as [Hpni Hnd]. apply NoDup_cons in Hnd as [Hani Hnd].
  rewrite not_elem_of_cons, not_elem_of_app in Hpni. destruct Hpni as (Hpa & Hpc & Hpr).
  rewrite not_elem_of_cons, not_elem_of_app in Hr. destruct Hr as (Hra & Hrc & Hrr).
  rewrite not_elem_of_app in Hani. destruct Hani as [Hac Har].
  apply NoDup_app in Hnd as (Hndc & Hcr & Hndr). rewrite length_app.
  (* the peers behind [a], once the nodes below it are gone *)
  assert (forall st1 m n1, objects_ok st1 -> (k + 2 * length (addrs r) <= m)%nat ->
    nodes st1 !! a = Some n1 -> links n1 = (p, 0, first r) ->
    (forall q, q ∉ a :: addrs c -> nodes st1 !! q = nodes st !! q) ->
    (forall q, q ∈ addrs c -> nodes st1 !! q = None) ->
    exists st' last k', (k <= k')%nat /\ loop m st1 p a level = loop k' st' p last level
      /\ AcpiNsGetNextNode st' p last = Some 0 /\ cut st st' p (Cons a c r)) as Hrest.
  { intros st1 m n1 Hok1 Hm Hn1 [= L1 L2 L3] Hq1 Hdel.
    assert (forest_at (nodes st1) p r) as Hfr1.
    { eapply forest_frame; [|done]. intros q Hq. apply Hq1. rewrite not_elem_of_cons. split; [by intros ->|].
      intros Hqc. by eapply Hcr. }
    destruct (IHr st1 p a level (m - 2 * length (addrs r))%nat) as (st' & last & k' & Hk & E & Hlast & [C1 C2 C3 C4]);
      try done.
    { by apply NoDup_cons. }
    { rewrite (next_spec _ _ _ n1) by done. by rewrite L3. }
    exists st', last, k'. split; [lia|].
    replace (m - 2 * length (addrs r) + 2 * length (addrs r))%nat with m in E by lia. split; [done|]. split; [done|].
    assert (nodes st' !! a = Some n1) as Hn' by (by rewrite C1).
    split; try done.
    - intros q Hq. cbn [addrs] in Hq. rewrite not_elem_of_cons, not_elem_of_app in Hq. destruct Hq as (Hqa & Hqc & Hqr).
      rewrite C1 by done. apply Hq1. by rewrite not_elem_of_cons.
    - cbn [strip forest_at]. split; [done|]. split; [exists n1; by rewrite strip_first|]. by split.
    - intros q Hq Hqt. cbn [addrs tops] in Hq, Hqt. rewrite not_elem_of_cons in Hqt. destruct Hqt as [Hqa Hqt].
      apply elem_of_cons in Hq as [->|Hq]; [done|]. apply elem_of_app in Hq as [Hq|Hq]; [|by apply C3].
      rewrite C1 by (intros Hqr; by eapply Hcr). by apply Hdel. }
  replace (k + 2 * S (length (addrs c) + length (addrs r)))%nat
    with (S (S (k + 2 * length (addrs r)) + 2 * length (addrs c))) by lia.
  destruct (loop_child (S (k + 2 * length (addrs r)) + 2 * length (addrs c)) st p prev level a n)
    as (st1 & -> & Hd); try done.
  pose proof (det_objs _ _ _ Hd Hok) as Hok1. pose proof (detached_links _ _ _ a Hd) as Hlk. rewrite Hn in Hlk.
  destruct (nodes st1 !! a) as [n1|] eqn:Hn1; [|done]. injection Hlk as L1 L2 L3.
  assert (forall q, q <> a -> nodes st1 !! q = nodes st !! q) as Hq1 by (intros q Hq; by apply (detached_other _ _ a)).
  rewrite Hch, (first_nonzero _ _ _ Hc). destruct c as [|b c' r'].
  - apply (Hrest st1 _ n1); try done; [cbn; lia|unfold links; cbn [first] in Hch; congruence| |].
    + intros q Hq. apply Hq1. by apply not_elem_of_cons in Hq as [Hq _].
    + intros q Hq. by apply not_elem_of_nil in Hq.
  - remember (Cons b c' r') as c eqn:Ec. clear Ec b c' r'.
    assert (forest_at (nodes st1) a c) as Hc1.
    { eapply forest_frame; [|done]. intros q Hq. apply Hq1. by intros ->. }
    destruct (IHc st1 a 0 (level + 1) (S (k + 2 * length (addrs r)))) as (st2 & last & k' & Hk & -> & Hlast & [C1 C2 C3 C4]);
      try done; [by apply NoDup_cons|lia|rewrite (first_spec _ _ n1) by done; congruence|].
    destruct k' as [|k']; [lia|].
    assert (nodes st2 !! a = Some n1) as Hn2 by (by rewrite C1).
    destruct (loop_up k' st2 a last (level + 1) (strip c) n1) as (st3 & -> & Hok3 & Hq3); try done; [lia| |by rewrite strip_addrs; intros Ht; apply Hrc, tops_addrs|].
    { split; [done|exists n1; split; [done|rewrite strip_first; congruence]|done|].
      rewrite strip_addrs. apply NoDup_cons. split; [intros Ht; by apply Hac, tops_addrs|by apply tops_nodup]. }
    rewrite strip_tops in Hq3. replace (level + 1 - 1) with level by lia. rewrite L1, Hpar.
    apply (Hrest st3 _ (set_Child 0 n1)); try done; [lia| |unfold links; cbn; congruence| |].
    + rewrite Hq3, decide_False by (intros Ht; by apply Hac, tops_addrs). by rewrite decide_True, Hn2.
    + intros q Hq. rewrite not_elem_of_cons in Hq. destruct Hq as [Hqa Hqc].
      rewrite Hq3, decide_False by (intros Ht; by apply Hqc, tops_addrs).
      by rewrite decide_False, C1, Hq1.
    + intros q Hq. rewrite Hq3. destruct (decide (q ∈ tops c)); [done|].
      rewrite decide_False by (by intros ->). by apply C3.
Qed.

(** C31: deleting a subtree ends and removes exactly the nodes below the start: each of them is freed, the
    start stays without children, and no other node changes. *)
Theorem subtree_deletes_exactly l l1 l2 s st p f :
  AcquireNamespace l = Some (AE_OK, l1) -> ReleaseNamespace l1 = Some (s, l2) ->
  objects_ok st -> scope_at (nodes st) p f -> root ∉ addrs f ->
  exists st', AcpiNsDeleteNamespaceSubtree root l st p = Some (l2, st') /\ objects_ok st'
    /\ (forall q, nodes st' !! q = if decide (q ∈ addrs f) then None
                                   else if decide (q = p) then set_Child 0 <$> nodes st !! q else nodes st !! q).
Proof.
  intros Hl1 Hl2 Hok Hs Hr. pose proof Hs as [H0 (np & Hp & Hc) Hf Hnd].
  unfold AcpiNsDeleteNamespaceSubtree. rewrite (proj2 (Z.eqb_neq p 0) H0), Hl1. cbn [mbind option_bind].
  rewrite decide_False by (intros Hx; by apply Hx).
  pose proof Hnd as Hnd'. apply NoDup_cons in Hnd' as [Hpni Hndf]. pose proof (forest_size _ _ _ Hf Hndf) as Hsz.
  set (j := (2 * fuel_of (nodes st))%nat).
  replace j with ((j - 2 * length (addrs f)) + 2 * length (addrs f))%nat by (unfold j, fuel_of; lia).
  destruct (loop_down f st p 0 1 (j - 2 * length (addrs f))) as (st1 & last & k & Hk & -> & Hlast & [C1 C2 C3 C4]);
    try done; [rewrite (first_spec _ _ np) by done; by rewrite Hc|].
  assert (nodes st1 !! p = Some np) as Hp1 by (by rewrite C1).
  assert (p ∉ tops f) as Hpt by (intros Ht; by apply Hpni, tops_addrs).
  destruct k as [|[|k]]; [unfold j, fuel_of in Hk; lia..|].
  destruct (loop_up (S k) st1 p last 1 (strip f) np) as (st2 & -> & Hok2 & Hq2); try done.
  { split; [done|exists np; by rewrite strip_first|done|].
    rewrite strip_addrs. apply NoDup_cons. split; [done|by apply tops_nodup]. }
  { rewrite strip_addrs. intros Ht. by apply Hr, tops_addrs. }
  cbn [subtree_loop Z.sub Z.add Z.opp Z.pos_sub Z.leb Z.compare mbind option_bind]. rewrite Hl2. cbn [mbind option_bind].
  exists st2. split; [done|]. split; [done|]. intros q. rewrite Hq2, strip_tops.
  destruct (decide (q ∈ tops f)) as [Ht|Ht]; [by rewrite decide_True by (by apply tops_addrs)|].
  destruct (decide (q ∈ addrs f)) as [Hin|Hin].
  - rewrite decide_False by (by intros ->). by apply C3.
  - by rewrite C1.
Qed.
End subtree.

(** *** The demo namespace with every mutex free *)
Definition free_info : list (UtMutex.ACPI_MUTEX_INFO (M := Osl.OsMutex)) :=
  replicate 6 (UtMutex.mkInfo (Some Osl.fresh) 0 None).

Definition released_info : list (UtMutex.ACPI_MUTEX_INFO (M := Osl.OsMutex)) :=
  match UtMutex.AcpiUtReleaseMutex false WalkProps.demo_info ACPI_MTX_NAMESPACE 1%nat with
  | Some (_, info) => info
  | None => []
  end.

Lemma subtree_deletes_exactly_witness :
  exists st', AcpiNsDeleteNamespaceSubtree (H := namespace_mutex false 1%nat) 1 free_info WalkProps.demo_state 2
      = Some (released_info, st')
    /\ nodes st' !! 4 = None /\ nodes st' !! 5 = None /\ Child <$> nodes st' !! 2 = Some 0
    /\ nodes st' !! 3 = nodes WalkProps.demo_state !! 3.
Proof.
  destruct (subtree_deletes_exactly (H := namespace_mutex false 1%nat) 1 free_info WalkProps.demo_info released_info
    AE_OK WalkProps.demo_state 2 (Cons 4 Nil (Cons 5 Nil Nil))) as (st' & E & _ & Hq).
  - reflexivity.
  - reflexivity.
  - intros a n Hn. assert (Object n = 0) as ->; [|apply ends_null].
    apply elem_of_list_to_map_2 in Hn. repeat (apply elem_of_cons in Hn as [[= _ ->]|Hn]; [done|]).
    by apply not_elem_of_nil in Hn.
  - split; [done|by eexists|by_forest|apply (bool_decide_unpack _); vm_compute; exact I].
  - apply (bool_decide_unpack _). vm_compute. exact I.
  - exists st'. split; [exact E|]. rewrite !Hq. repeat split.
Defined.

(** Deleting the nodes of an owner leaves the grandchildren of a deleted node that belong to another
    owner behind, with a parent that was freed. *)
Definition owned_nodes : node_map :=
  list_to_map [
    (1, mkNode 0 6 0 1 0 2 0 0); (2, mkNode 0 6 0 2 1 4 0 7); (4, mkNode 0 6 0 4 2 6 0 0); (6, mkNode 0 8 0 6 4 0 0 0)].

Lemma owner_deletion_leaks_grandchild :
  exists info st', AcpiNsDeleteNamespaceByOwner (H := namespace_mutex false 1%nat) 1 free_info
      (mkState owned_nodes ∅ []) 7 = Some (info, st')
    /\ nodes st' !! 2 = None /\ nodes st' !! 4 = None /\ nodes st' !! 6 = Some (mkNode 0 8 0 6 4 0 0 0).
Proof. eexists _, _. split; [vm_compute; reflexivity|]. repeat split. Qed.
End Subtree.
