(* ===== verification/AcpiNamespacePath.v ===== *)
(** * Paths of namespace nodes

    Proofs about [AcpiNsBuildNormalizedPath] and its callers (nsnames.c): the path that is written
    backwards, reversed in place and terminated is the path of the node, in a buffer of any size. *)

From S2P Require Import Prelude AcpiUtil AcpiNames AcpiNamespace.
Import Ns Search Path.

(** ** Filling a buffer that may be too small *)
Module Fill.

(** The bytes [w] were put into [buf] from the front, those that fit. *)
Definition holds (buf w : list Z) : Prop := take (length w) buf = take (length buf) w.

Lemma holds_nil buf : holds buf [].
Proof. unfold holds. by rewrite take_nil. Qed.

(** A prefix that was written completely. *)
Lemma holds_fits buf w : holds buf w -> (length w <= length buf)%nat -> buf = w ++ drop (length w) buf.
Proof.
  unfold holds. intros Hh Hl. rewrite (take_ge w) in Hh by done. rewrite <- (take_drop (length w) buf) at 1.
  by rewrite Hh.
Qed.

Lemma holds_app buf w t : buf = w ++ t -> holds buf w.
Proof. intros ->. unfold holds. rewrite take_app_length, take_ge; [done|]. rewrite length_app. lia. Qed.

Lemma put_spec buf w c : holds buf w -> zlen w + 1 < 2 ^ 32 ->
  exists buf', ACPI_PATH_PUT8 buf (zlen buf) c (zlen w) = Some (buf', zlen (w ++ [c]))
    /\ length buf' = length buf /\ holds buf' (w ++ [c]).
Proof.
  intros Hh Hw. unfold ACPI_PATH_PUT8. rewrite zlen_app. change (zlen [c]) with 1.
  rewrite wrap_small by (unfold in_width; pose proof (zlen_nonneg w); lia).
  destruct (Z.ltb_spec (zlen w) (zlen buf)) as [Hlt|Hge].
  - assert (length w < length buf)%nat as Hl by (unfold zlen in Hlt; lia).
    unfold aset. rewrite decide_True by (unfold zlen in *; lia). cbn [mbind option_bind].
    eexists. split; [done|]. rewrite length_insert. split; [done|].
    replace (Z.to_nat (zlen w)) with (length w) by (unfold zlen; lia).
    rewrite (holds_fits buf w Hh) at 1 by lia. apply holds_app with (t := drop (S (length w)) buf).
    rewrite insert_app_r_alt, Nat.sub_diag by lia.
    rewrite (drop_S buf (buf !!! length w) (length w)) by (apply list_lookup_lookup_total_lt; lia).
    cbn. by rewrite <- app_assoc.
  - cbn [mbind option_bind]. exists buf. split; [done|]. split; [done|]. unfold holds in *.
    rewrite length_app. cbn [length]. rewrite take_ge by (unfold zlen in *; lia).
    rewrite take_app_le by (unfold zlen in *; lia). rewrite <- Hh. by rewrite take_ge by (unfold zlen in *; lia).
Qed.

Lemma reverse_spec n : forall a m b fuel, (length m <= n)%nat -> (n < fuel)%nat ->
  reverse_path fuel (a ++ m ++ b) (zlen a) (zlen a + zlen m - 1) = Some (a ++ rev m ++ b).
Proof.
  induction n as [n IH] using lt_wf_ind. intros a m b [|fuel] Hm Hf; [lia|]. cbn [reverse_path].
  destruct m as [|c m].
  { rewrite (proj2 (Z.ltb_ge _ _)); [done|]. change (zlen (@nil Z)) with 0. lia. }
  destruct m as [|d m _] using rev_ind.
  { rewrite (proj2 (Z.ltb_ge _ _)); [done|]. change (zlen [c]) with 1. lia. }
  rewrite (proj2 (Z.ltb_lt _ _)) by (rewrite zlen_cons, zlen_app; change (zlen [d]) with 1; pose proof (zlen_nonneg m); lia).
  replace (zlen a + zlen (c :: m ++ [d]) - 1) with (zlen (a ++ c :: m))
    by (unfold zlen; cbn [length]; rewrite !length_app; cbn [length]; rewrite ?length_app; cbn [length]; lia).
  replace (a ++ (c :: m ++ [d]) ++ b) with (a ++ c :: m ++ d :: b) by (cbn; by rewrite <- app_assoc).
  assert (forall (l r : list Z) x, aget (l ++ x :: r) (zlen l) = Some x) as Hget.
  { intros l r x. unfold aget, zlen. rewrite decide_True by lia. rewrite Nat2Z.id. by apply list_lookup_middle. }
  assert (forall (l r : list Z) x y, aset (l ++ x :: r) (zlen l) y = Some (l ++ y :: r)) as Hset.
  { intros l r x y. unfold aset, zlen. rewrite length_app. cbn [length]. rewrite decide_True by lia.
    rewrite Nat2Z.id. by rewrite insert_app_r_alt, Nat.sub_diag by lia. }
  rewrite Hget. cbn [mbind option_bind].
  replace (a ++ c :: m ++ d :: b) with ((a ++ c :: m) ++ d :: b) by (by rewrite <- app_assoc).
  rewrite Hget. cbn [mbind option_bind]. rewrite <- app_assoc. cbn [app]. rewrite Hset. cbn [mbind option_bind].
  replace (a ++ d :: m ++ d :: b) with ((a ++ d :: m) ++ d :: b) by (by rewrite <- app_assoc).
  replace (zlen (a ++ c :: m)) with (zlen (a ++ d :: m)) by (rewrite !zlen_app, !zlen_cons; lia).
  rewrite Hset. cbn [mbind option_bind].
  replace ((a ++ d :: m) ++ c :: b) with ((a ++ [d]) ++ m ++ (c :: b)) by (by rewrite <- !app_assoc).
  replace (zlen a + 1) with (zlen (a ++ [d])) by (by rewrite zlen_app).
  replace (zlen (a ++ d :: m) - 1) with (zlen (a ++ [d]) + zlen m - 1)
    by (unfold zlen; rewrite !length_app; cbn [length]; lia).
  cbn [length] in Hm. rewrite length_app in Hm. cbn [length] in Hm.
  rewrite (IH (length m)) by lia. cbn [rev]. rewrite rev_app_distr. cbn. by rewrite <- !app_assoc.
Qed.
End Fill.
Import Fill.

(** ** The text of a path *)
Module PathText.

(** A segment, without its trailing underscores if asked for; [put_chars] takes it from the end. *)
Fixpoint drop_trailing (rev_name : list Z) : list Z :=
  match rev_name with [] => [] | c :: l => if c =? 95 then drop_trailing l else rev_name end.

Definition rev_seg (NoTrailing : bool) (name : Z) : list Z :=
  let l := rev (name_bytes name) in if NoTrailing then drop_trailing l else l.

(** The segments from the node up, backwards, with dots between them. *)
Fixpoint rev_segs (NoTrailing : bool) (names : list Z) : list Z :=
  match names with
  | [] => []
  | [n] => rev_seg NoTrailing n
  | n :: names' => rev_seg NoTrailing n ++ 46 :: rev_segs NoTrailing names'
  end.

(** The path: a backslash and the segments from the root down. *)
Definition path_text (NoTrailing : bool) (names : list Z) : list Z := 92 :: rev (rev_segs NoTrailing names).

(** The nodes from [a] up to the root, with their names. *)
Fixpoint path_to (root : Z) (h : node_map) (a : Z) (l : list (Z * Z)) : Prop :=
  match l with
  | [] => a = 0 \/ a = root
  | (b, name) :: l' => a = b /\ a <> 0 /\ a <> root /\ exists n, h !! a = Some n /\ Name n = name /\ path_to root h (Parent n) l'
  end.

Lemma path_size root h l : forall a, path_to root h a l -> NoDup (fst <$> l) -> (length l <= size h)%nat.
Proof.
  intros a Hp Hnd. assert (list_to_set (fst <$> l) ⊆ (dom h : gset Z)) as Hsub.
  { clear Hnd. intros x Hx. apply elem_of_list_to_set in Hx. apply elem_of_dom. revert a Hp.
    induction l as [|[b name] l IH]; intros a Hp; [by apply not_elem_of_nil in Hx|].
    destruct Hp as (<- & _ & _ & n & Hn & _ & Hp). cbn in Hx. apply elem_of_cons in Hx as [->|Hx]; [by eexists|].
    by eapply IH. }
  apply subseteq_size in Hsub. rewrite size_list_to_set, size_dom in Hsub by done. by rewrite length_fmap in Hsub.
Qed.

Lemma put_chars_spec l : forall buf w nt, holds buf w -> zlen w + zlen l < 2 ^ 32 ->
  exists buf', put_chars l buf (zlen buf) (zlen w) nt
      = Some (buf', zlen (w ++ (if nt then drop_trailing l else l)))
    /\ length buf' = length buf /\ holds buf' (w ++ (if nt then drop_trailing l else l)).
Proof.
  induction l as [|c l IH]; intros buf w nt Hh Hw.
  - exists buf. cbn [put_chars drop_trailing]. destruct nt; rewrite app_nil_r; done.
  - rewrite zlen_cons in Hw. pose proof (zlen_nonneg l). cbn [put_chars]. destruct (nt && (c =? 95)) eqn:E.
    + apply andb_true_iff in E as [-> E]. cbn [mbind option_bind drop_trailing]. rewrite E.
      apply (IH buf w true); [done|lia].
    + destruct (put_spec buf w c) as (buf1 & -> & Hl1 & Hh1); [done|lia|]. cbn [mbind option_bind].
      replace (zlen buf) with (zlen buf1) by (unfold zlen; lia).
      destruct (IH buf1 (w ++ [c]) false) as (buf' & E' & Hl' & Hh'); [done|rewrite zlen_app; change (zlen [c]) with 1; lia|].
      exists buf'. rewrite E'. rewrite <- app_assoc in *. cbn [app] in *.
      assert ((if nt then drop_trailing (c :: l) else c :: l) = c :: l) as ->.
      { destruct nt; [|done]. cbn in E. cbn [drop_trailing]. by rewrite E. }
      split; [done|]. split; [congruence|done].
Qed.

(** Every segment takes at most five bytes with its dot. *)
Lemma drop_trailing_length l : (length (drop_trailing l) <= length l)%nat.
Proof. induction l as [|c l IH]; [done|]. cbn. destruct (c =? 95); cbn; lia. Qed.

Lemma rev_seg_length nt n : (length (rev_seg nt n) <= 4)%nat.
Proof. unfold rev_seg. destruct nt; [etrans; [apply drop_trailing_length|]|]; by rewrite length_rev. Qed.

(** What follows the segments that were written: a dot in front of each further one. *)
Definition more (nt : bool) (names : list Z) : list Z := concat ((fun n => 46 :: rev_seg nt n) <$> names).

Lemma rev_segs_more nt n names : rev_segs nt (n :: names) = rev_seg nt n ++ more nt names.
Proof.
  revert n. induction names as [|m names IH]; intros n; [cbn; by rewrite app_nil_r|].
  change (rev_segs nt (n :: m :: names)) with (rev_seg nt n ++ 46 :: rev_segs nt (m :: names)).
  rewrite IH. done.
Qed.

Section put_path.
Context (root : Z) (st : state).

Lemma put_more l : forall a start fuel buf w nt, path_to root (nodes st) a l -> start ∉ fst <$> l ->
  holds buf w -> zlen w + 5 * zlen l < 2 ^ 32 -> (length l < fuel)%nat ->
  exists buf', put_path root fuel st start a buf (zlen buf) (zlen w) nt
      = Some (buf', zlen (w ++ more nt (snd <$> l)))
    /\ length buf' = length buf /\ holds buf' (w ++ more nt (snd <$> l)).
Proof using Type.
  induction l as [|[b name] l IH]; intros a start [|fuel] buf w nt Hp Hs Hh Hw Hf; cbn [length] in Hf; try lia;
    cbn [put_path].
  - exists buf. cbn [fmap list_fmap more concat]. unfold more. cbn. rewrite app_nil_r.
    destruct Hp as [->| ->]; [done|]. by rewrite Z.eqb_refl, orb_true_r.
  - destruct Hp as (<- & Ha & Har & n & Hn & Hname & Hp). rewrite zlen_cons in Hw. pose proof (zlen_nonneg l).
    rewrite (proj2 (Z.eqb_neq a 0) Ha), (proj2 (Z.eqb_neq a root) Har). cbn [orb].
    cbn [fmap list_fmap fst] in Hs. apply not_elem_of_cons in Hs as [Hsa Hs].
    rewrite (proj2 (Z.eqb_neq a start)) by congruence. cbn [negb].
    destruct (put_spec buf w AML_DUAL_NAME_PREFIX) as (buf1 & -> & Hl1 & Hh1); [done|lia|]. cbn [mbind option_bind].
    rewrite Hn. cbn [mbind option_bind]. replace (zlen buf) with (zlen buf1) by (unfold zlen; lia).
    destruct (put_chars_spec (rev (name_bytes (Name n))) buf1 (w ++ [AML_DUAL_NAME_PREFIX]) nt) as (buf2 & -> & Hl2 & Hh2);
      [done|rewrite zlen_app; change (zlen [AML_DUAL_NAME_PREFIX]) with 1; change (zlen (rev _)) with 4; lia|].
    cbn [mbind option_bind]. replace (zlen buf1) with (zlen buf2) by (unfold zlen; lia).
    change (if nt then _ else _) with (rev_seg nt (Name n)) in *. rewrite Hname in *.
    destruct (IH (Parent n) start fuel buf2 ((w ++ [AML_DUAL_NAME_PREFIX]) ++ rev_seg nt name) nt) as (buf' & -> & Hl' & Hh');
      try done; [|lia|].
    { rewrite !zlen_app. change (zlen [AML_DUAL_NAME_PREFIX]) with 1.
      pose proof (rev_seg_length nt name). unfold zlen in *. lia. }
    exists buf'. unfold more in *. cbn [fmap list_fmap concat snd]. rewrite <- !app_assoc in *. cbn [app] in *.
    split; [done|]. split; [congruence|done].
Qed.

Lemma put_path_spec l a fuel buf nt : path_to root (nodes st) a l -> NoDup (fst <$> l) -> 5 * zlen l < 2 ^ 32 ->
  (length l < fuel)%nat ->
  exists buf', put_path root fuel st a a buf (zlen buf) 0 nt = Some (buf', zlen (rev_segs nt (snd <$> l)))
    /\ length buf' = length buf /\ holds buf' (rev_segs nt (snd <$> l)).
Proof using Type.
  intros Hp Hnd Hl Hf. destruct fuel as [|fuel]; [lia|]. cbn [put_path]. destruct l as [|[b name] l].
  - exists buf. destruct Hp as [->| ->]; [|rewrite Z.eqb_refl, orb_true_r]; by split; [|split; [|apply holds_nil]].
  - destruct Hp as (<- & Ha & Har & n & Hn & Hname & Hp). rewrite zlen_cons in Hl. cbn [length] in Hf.
    apply NoDup_cons in Hnd as [Hni Hnd].
    rewrite (proj2 (Z.eqb_neq a 0) Ha), (proj2 (Z.eqb_neq a root) Har), Z.eqb_refl. cbn [orb negb mbind option_bind].
    rewrite Hn. cbn [mbind option_bind].
    destruct (put_chars_spec (rev (name_bytes (Name n))) buf [] nt) as (buf2 & E & Hl2 & Hh2); [apply holds_nil|done|].
    change (zlen (@nil Z)) with 0 in E. rewrite E. cbn [mbind option_bind app] in *. clear E.
    change (if nt then _ else _) with (rev_seg nt (Name n)) in *. rewrite Hname in *.
    replace (zlen buf) with (zlen buf2) by (unfold zlen; lia).
    destruct (put_more l (Parent n) a fuel buf2 (rev_seg nt name) nt) as (buf' & -> & Hl' & Hh'); try done; [|lia|].
    { pose proof (rev_seg_length nt name). unfold zlen in *. lia. }
    exists buf'. cbn [fmap list_fmap snd]. rewrite rev_segs_more. split; [done|]. split; [congruence|done].
Qed.
End put_path.
End PathText.
Import PathText.

(** ** The path of a node *)
Module NodePath.
Section node_path.
Context (root : Z) (st : state).

(** The path is short enough for its length to be a UINT32. *)
Definition short (l : list (Z * Z)) : Prop := 5 * zlen l + 2 < 2 ^ 32.

Lemma rev_segs_length nt names : (length (rev_segs nt names) <= 5 * length names)%nat.
Proof using Type.
  destruct names as [|n names]; [done|]. rewrite rev_segs_more, length_app. pose proof (rev_seg_length nt n).
  enough (length (more nt names) <= 5 * length names)%nat by (cbn [length]; lia).
  clear. induction names as [|m names IH]; [done|]. unfold more in *. cbn [fmap list_fmap concat].
  rewrite length_app. cbn [length]. pose proof (rev_seg_length nt m). lia.
Qed.

Lemma build_path_spec buf a l nt : a <> 0 -> path_to root (nodes st) a l -> NoDup (fst <$> l) -> short l ->
  let text := path_text nt (snd <$> l) in
  exists buf', AcpiNsBuildNormalizedPath root st a (Some buf) (zlen buf) nt = Some (buf', zlen text + 1)
    /\ length buf' = length buf
    /\ (zlen text <= zlen buf -> holds buf' (text ++ [0])).
Proof using Type.
  intros Ha Hp Hnd Hs. unfold short in Hs. pose proof (zlen_nonneg l) as Hl0. cbv zeta.
  pose proof (rev_segs_length nt (snd <$> l)) as Hrl. rewrite length_fmap in Hrl.
  unfold AcpiNsBuildNormalizedPath. change (default [] (Some buf)) with buf.
  rewrite (proj2 (Z.eqb_neq a 0) Ha). cbn [mbind option_bind].
  destruct (put_path_spec root st l a (fuel_of (nodes st)) buf nt) as (buf1 & -> & Hl1 & Hh1); [done|done|lia| |].
  { pose proof (path_size _ _ _ _ Hp Hnd). unfold fuel_of. lia. }
  cbn [mbind option_bind]. set (w := rev_segs nt (snd <$> l)) in *.
  replace (zlen buf) with (zlen buf1) by (unfold zlen; lia).
  destruct (put_spec buf1 w AML_ROOT_PREFIX) as (buf2 & -> & Hl2 & Hh2); [done|unfold zlen in *; lia|].
  cbn [mbind option_bind]. replace (zlen buf1) with (zlen buf2) by (unfold zlen; lia).
  assert (path_text nt (snd <$> l) = rev (w ++ [AML_ROOT_PREFIX])) as Et
    by (unfold path_text; by rewrite rev_app_distr).
  assert (zlen (path_text nt (snd <$> l)) = zlen (w ++ [AML_ROOT_PREFIX])) as Elen
    by (rewrite Et; unfold zlen; by rewrite length_rev).
  assert (zlen (w ++ [AML_ROOT_PREFIX]) + 1 < 2 ^ 32) as Hwl.
  { unfold zlen in *. rewrite length_app. cbn [length]. lia. }
  destruct (Z.leb_spec (zlen (w ++ [AML_ROOT_PREFIX])) (zlen buf2)) as [Hfit|Hfit].
  - pose proof (holds_fits _ _ Hh2 ltac:(unfold zlen in Hfit; lia)) as Hb.
    assert (reverse_path (S (length buf2)) buf2 0 (zlen (w ++ [AML_ROOT_PREFIX]) - 1)
      = Some (rev (w ++ [AML_ROOT_PREFIX]) ++ drop (length (w ++ [AML_ROOT_PREFIX])) buf2)) as ->.
    { rewrite Hb at 2.
      apply (Fill.reverse_spec (length (w ++ [AML_ROOT_PREFIX])) [] (w ++ [AML_ROOT_PREFIX])); [done|].
      unfold zlen in Hfit. lia. }
    cbn [mbind option_bind].
    rewrite <- Et, <- Elen. set (buf3 := path_text nt (snd <$> l) ++ drop (length (w ++ [AML_ROOT_PREFIX])) buf2).
    assert (length buf3 = length buf2) as Hl3.
    { unfold buf3. rewrite length_app, length_drop. unfold zlen in *. lia. }
    replace (zlen buf2) with (zlen buf3) by (unfold zlen; lia).
    destruct (put_spec buf3 (path_text nt (snd <$> l)) 0) as (buf' & -> & Hl' & Hh'); [by eapply holds_app|by rewrite Elen|].
    exists buf'. rewrite zlen_app. split; [done|]. split; [congruence|done].
  - cbn [mbind option_bind].
    destruct (put_spec buf2 (w ++ [AML_ROOT_PREFIX]) 0) as (buf' & -> & Hl' & Hh'); [done|done|].
    exists buf'. rewrite zlen_app. rewrite Elen. split; [done|]. split; [congruence|].
    intros Hle. unfold zlen in *. lia.
Qed.

(** the path of a node is the names from the root down, with a backslash in front and dots between
    them: the buffer of the computed size holds it with its terminator, and a buffer of any other size
    is never written outside and reports the size that is needed. *)
Theorem normalized_pathname a l nt : a <> 0 -> path_to root (nodes st) a l -> NoDup (fst <$> l) -> short l ->
  AcpiNsGetNormalizedPathname root st a nt = Some (Some (path_text nt (snd <$> l) ++ [0]))
  /\ forall buf, exists buf', AcpiNsBuildNormalizedPath root st a (Some buf) (zlen buf) nt
      = Some (buf', zlen (path_text nt (snd <$> l)) + 1) /\ length buf' = length buf.
Proof.
  intros Ha Hp Hnd Hs. split.
  - unfold AcpiNsGetNormalizedPathname.
    destruct (build_path_spec [] a l nt) as (buf0 & E0 & _); try done.
    change (AcpiNsBuildNormalizedPath root st a None 0 nt)
      with (AcpiNsBuildNormalizedPath root st a (Some []) (zlen (@nil Z)) nt).
    rewrite E0. cbn [mbind option_bind]. set (text := path_text nt (snd <$> l)) in *.
    pose proof (zlen_nonneg text). rewrite (proj2 (Z.eqb_neq _ 0)) by lia.
    set (buf := replicate (Z.to_nat (zlen text + 1)) 0).
    assert (length buf = S (length text)) as Hlb by (unfold buf; rewrite length_replicate; unfold zlen; lia).
    replace (zlen text + 1) with (zlen buf) by (unfold zlen; lia).
    destruct (build_path_spec buf a l nt) as (buf' & -> & Hl & Hh); try done. cbn [mbind option_bind].
    specialize (Hh ltac:(fold text; unfold zlen; lia)). fold text in Hh. do 2 f_equal.
    rewrite (holds_fits _ _ Hh) by (rewrite length_app; cbn [length]; lia).
    rewrite drop_ge; [by rewrite app_nil_r|]. rewrite length_app. cbn [length]. lia.
  - intros buf. destruct (build_path_spec buf a l nt) as (buf' & E & Hl & _); try done. by exists buf'.
Qed.
End node_path.

(** \_SB_.AB__ in a namespace with the root 1. *)
Definition path_nodes : node_map :=
  list_to_map [(1, mkNode 0 6 0 0 0 2 0 0); (2, mkNode 0 6 0 1598182239 1 3 0 1); (3, mkNode 0 8 0 1600078401 2 0 0 1)].

Lemma normalized_pathname_witness :
  AcpiNsGetNormalizedPathname 1 (mkState path_nodes ∅ []) 3 true = Some (Some [92; 95; 83; 66; 46; 65; 66; 0])
  /\ exists buf', AcpiNsBuildNormalizedPath 1 (mkState path_nodes ∅ []) 3 (Some [0; 0; 0]) 3 true = Some (buf', 8).
Proof.
  destruct (normalized_pathname 1 (mkState path_nodes ∅ []) 3 [(3, 1600078401); (2, 1598182239)] true) as [H1 H2].
  - done.
  - split; [done|]. split; [done|]. split; [done|]. eexists. split; [reflexivity|]. split; [done|].
    split; [done|]. split; [done|]. split; [done|]. eexists. split; [reflexivity|]. split; [done|]. by right.
  - apply (bool_decide_unpack _). vm_compute. exact I.
  - vm_compute. done.
  - split; [exact H1|]. destruct (H2 [0; 0; 0]) as (buf' & E & _). exists buf'. exact E.
Defined.
End NodePath.
