(* ===== verification/Elf.v ===== *)
(** * App/ELFLoader.cpp, ELF.h: loading an executable

    The loader reads the file through the node of VfsStream.v with [seek], and maps and writes the memory of the
    application through the class [UserMemory], what it uses of the virtual memory manager, of paging and of the
    processor's stores.  A structure that is read from the file is the bytes of the file, as the processor keeps
    numbers: the lowest byte first. *)

From S2P Require Import Prelude Kre Memory Paging FatVolume FatFile VfsStream.
Import Addr Node FileStream.

(** ** What the loader needs of the file and of the memory *)

Class SeekNode (N : Type) := node_seek : N -> SeekMode -> Z -> NodeIOStatus * Z * N.

(** The loaded address space ([Memory::get_base_page_table_address]), runs of pages of it, flags that are added to
    the flags of a page, new address spaces, and a store of bytes: [None] is a page fault in the kernel. *)
Class UserMemory (M : Type) := {
  um_loaded : M -> Z;
  um_user_space_end : M -> Z;
  um_allocate : M -> Z -> Z -> Z -> option (bool * M);
  um_free : M -> Z -> Z -> option (bool * M);
  um_modify_flags : M -> Z -> Z -> option M;
  um_new_space : M -> option (option Z * M);
  um_load_space : M -> Z -> option M;
  um_load_base : M -> Z -> M;
  um_store : M -> Z -> list Z -> option M }.

Module Elf.

(** ** ELF.h *)

Record ELFIdentification := mkIdent { mag_0 : Z; mag_1 : Z; mag_2 : Z; mag_3 : Z; clazz : Z; data : Z }.

Record ELF64Header := mkHeader {
  identification : ELFIdentification; h_type : Z; machine : Z; version : Z; entry : Z; ph_offset : Z; sh_offset : Z; h_flags : Z;
  elf_header_size : Z; ph_entry_size : Z; ph_count : Z; sh_entry_size : Z; sh_count : Z; sh_string_table_index : Z }.

Record ELF64ProgramHeader := mkPH {
  p_type : Z; p_flags : Z; offset : Z; virtual_address : Z; physical_address : Z; file_size : Z; memory_size : Z; align : Z }.

Record ELF64File := mkFile {
  header : ELF64Header; program_headers : list ELF64ProgramHeader; vendor : list Z; major : Z; minor : Z; patch : Z }.

Definition ELF32 : Z := 1.
Definition EXEC : Z := 2.
Definition LOAD : Z := 1.
Definition NOTE : Z := 4.
Definition WRITE_PERMISSION : Z := 2.
Definition LITTLE_ENDIAN : Z := 1.

Definition IDENT_SIZE : Z := 16.
Definition HEADER_SIZE : Z := 64.
Definition PH_SIZE : Z := 56.

(** The member of [n] bytes at [off]. *)
Fixpoint number (bs : list Z) : Z := match bs with [] => 0 | b :: bs => b + 256 * number bs end.
Definition field (bs : list Z) (off n : nat) : Z := number (take n (drop off bs)).

Definition as_ident (bs : list Z) : ELFIdentification :=
  mkIdent (field bs 0 1) (field bs 1 1) (field bs 2 1) (field bs 3 1) (field bs 4 1) (field bs 5 1).

(** The identification of this header is not read: it keeps its initial zeros. *)
Definition as_header (bs : list Z) : ELF64Header :=
  mkHeader (mkIdent 0 0 0 0 0 0) (field bs 0 2) (field bs 2 2) (field bs 4 4) (field bs 8 8) (field bs 16 8) (field bs 24 8) (field bs 32 4)
    (field bs 36 2) (field bs 38 2) (field bs 40 2) (field bs 42 2) (field bs 44 2) (field bs 46 2).

Definition as_program_header (bs : list Z) : ELF64ProgramHeader :=
  mkPH (field bs 0 4) (field bs 4 4) (field bs 8 8) (field bs 16 8) (field bs 24 8) (field bs 32 8) (field bs 40 8) (field bs 48 8).

(** The bytes of a number in memory. *)
Fixpoint bytes_of (n : nat) (x : Z) : list Z := match n with O => [] | S n => x mod 256 :: bytes_of n (x / 256) end.

Definition program_header_bytes (p : ELF64ProgramHeader) : list Z :=
  bytes_of 4 (p_type p) ++ bytes_of 4 (p_flags p) ++ bytes_of 8 (offset p) ++ bytes_of 8 (virtual_address p) ++ bytes_of 8 (physical_address p)
    ++ bytes_of 8 (file_size p) ++ bytes_of 8 (memory_size p) ++ bytes_of 8 (align p).

(** [LittleEndian::to_U32] and [BigEndian::to_U32]; [None] reads behind the buffer. *)
Definition to_U32 (order : Z) (bs : list Z) (at_ : Z) : option Z :=
  a ← aget bs at_; b ← aget bs (at_ + 1); c ← aget bs (at_ + 2); d ← aget bs (at_ + 3);
  Some (if order =? LITTLE_ENDIAN then Z.lor (Z.lor (Z.lor (Z.shiftl d 24) (Z.shiftl c 16)) (Z.shiftl b 8)) a
        else Z.lor (Z.lor (Z.lor (Z.shiftl a 24) (Z.shiftl b 16)) (Z.shiftl c 8)) d).

Inductive LoadStatus := NONE | LOADED | RUNNING | IO_ERROR | BAD_HEADER | BAD_SEGMENT | MEMORY_ERROR | LOAD_ERROR | BAD_VENDOR_INFO | BAD_STDIO.

#[export] Instance LoadStatus_dec : EqDecision LoadStatus.
Proof. solve_decision. Defined.
End Elf.

Module Loader.
Import Elf.

Definition BUF_SIZE : Z := 8192.
Definition PAGE_SIZE : Z := 4096.

(** [PageFlag] *)
Definition PRESENT : Z := 1.
Definition WRITE_ALLOWED : Z := 2.
Definition USER_MODE_ACCESS : Z := 4.

(** The conversion of an [U64] to an [int]. *)
Definition to_int (x : Z) : Z := if u32 x <? 2 ^ 31 then u32 x else u32 x - 2 ^ 32.

Section loader.
Context {N : Type} `{StreamNode N, SeekNode N}.

Record ELFLoader := mkLoader { _buf_pos : Z; _buf_limit : Z; _file_buf : list Z; _elf_file : N }.

Implicit Types (l : ELFLoader).

Definition with_pos pos l : ELFLoader := mkLoader pos (_buf_limit l) (_file_buf l) (_elf_file l).

(** ** The file, through a buffer *)

Definition get_next_buffer l : bool * ELFLoader :=
  let '(status, bytes, n) := node_read (_elf_file l) BUF_SIZE in
  let buf := bytes ++ drop (length bytes) (_file_buf l) in
  match status with
  | OKAY => if 0 <? zlen bytes then (true, mkLoader 0 (u16 (zlen bytes)) buf n) else (false, mkLoader (_buf_pos l) (_buf_limit l) buf n)
  | _ => (false, mkLoader (_buf_pos l) (_buf_limit l) buf n)
  end.

Fixpoint read_loop (fuel : nat) (buf_size : Z) (buf : list Z) l : option (list Z * ELFLoader) :=
  match fuel with
  | O => None
  | S fuel =>
      let b_pos := zlen buf in
      if buf_size <=? b_pos then Some (buf, l) else
      let '(good, l) := if _buf_limit l <=? _buf_pos l then get_next_buffer l else (true, l) in
      if negb good then Some (buf, l) else
      let b_to_copy := Math.min (u16 (buf_size - b_pos)) (u16 (_buf_limit l - _buf_pos l)) in
      if BUF_SIZE <? _buf_pos l + b_to_copy then None else
      let chunk := take (Z.to_nat b_to_copy) (drop (Z.to_nat (_buf_pos l)) (_file_buf l)) in
      read_loop fuel buf_size (buf ++ chunk) (with_pos (u16 (_buf_pos l + b_to_copy)) l)
  end.

(** The bytes that were read: their number is what the method returns. *)
Definition read_bytes (buf_size : Z) l : option (list Z * ELFLoader) :=
  let '(good, l) := if _buf_limit l =? 0 then get_next_buffer l else (true, l) in
  if good : bool then read_loop (S (Z.to_nat buf_size)) buf_size [] l else Some ([], l).

Definition seek (byte_count : Z) l : bool * ELFLoader :=
  let '(status, _, n) := node_seek (_elf_file l) BEGIN (to_int byte_count) in
  let l := mkLoader (_buf_pos l) (_buf_limit l) (_file_buf l) n in
  match status with OKAY => get_next_buffer l | _ => (false, l) end.

(** ** The headers *)

(** The string that starts a buffer; [None] when it does not end there. *)
Fixpoint c_string (bs : list Z) : option (list Z) :=
  match bs with [] => None | b :: bs => if b =? 0 then Some [] else s ← c_string bs; Some (b :: s) end.

Definition NOTE_HEADER_SIZE : Z := 12.

(** Vendor, major, minor and patch. *)
Definition parse_vendor_information (note_ph : ELF64ProgramHeader) (byte_order : Z) l
    : option ((LoadStatus + (list Z * Z * Z * Z)) * ELFLoader) :=
  let '(good, l) := seek (offset note_ph) l in
  if negb good then Some (inl BAD_VENDOR_INFO, l) else
  '(bytes, l) ← read_bytes NOTE_HEADER_SIZE l;
  if zlen bytes =? 0 then Some (inl BAD_VENDOR_INFO, l) else
  let note_header := bytes ++ drop (length bytes) (replicate 12 0) in
  type ← to_U32 byte_order note_header 8;
  if negb (type =? 1) then Some (inl BAD_VENDOR_INFO, l) else
  name_size ← to_U32 byte_order note_header 0;
  desc_size ← to_U32 byte_order note_header 4;
  a ← memory_align name_size 4 true;
  b ← memory_align desc_size 4 true;
  '(buffer, l) ← read_bytes (u16 (a + b)) l;
  if zlen buffer =? 0 then Some (inl BAD_VENDOR_INFO, l) else
  vendor ← c_string buffer;
  major ← to_U32 byte_order buffer name_size;
  minor ← to_U32 byte_order buffer (name_size + 2);
  patch ← to_U32 byte_order buffer (name_size + 4);
  Some (inr (vendor, u16 major, u16 minor, u16 patch), l).

(** A program header is read over an object of [PH_SIZE] zeros; more bytes go over its end. *)
Definition read_program_header (ph_entry_size : Z) l : option (option ELF64ProgramHeader * ELFLoader) :=
  '(bytes, l) ← read_bytes ph_entry_size l;
  if PH_SIZE <? zlen bytes then None else
  if zlen bytes <? ph_entry_size then Some (None, l) else
  Some (Some (as_program_header (bytes ++ drop (length bytes) (replicate 56 0))), l).

(** The end of user space that the virtual memory manager answers. *)
Definition in_kernel (userspace_end : Z) (ph : ELF64ProgramHeader) : bool :=
  (userspace_end <? u64 (virtual_address ph + memory_size ph)) || (userspace_end <? virtual_address ph).

(** The loop over the program headers: [note_ph] is the last note that was seen. *)
Fixpoint program_header_loop (n : nat) (userspace_end ph_entry_size : Z) (program_headers : list ELF64ProgramHeader) (note_ph : option ELF64ProgramHeader) l
    : option (option (list ELF64ProgramHeader * option ELF64ProgramHeader) * ELFLoader) :=
  match n with
  | O => Some (Some (program_headers, note_ph), l)
  | S n =>
      '(ph, l) ← read_program_header ph_entry_size l;
      match ph with
      | None => Some (None, l)
      | Some ph =>
          if in_kernel userspace_end ph then Some (None, l) else
          program_header_loop n userspace_end ph_entry_size (program_headers ++ [ph]) (if p_type ph =? NOTE then Some ph else note_ph) l
      end
  end.

Definition UNKNOWN : list Z := [85; 110; 107; 110; 111; 119; 110].

Definition load_elf_file (userspace_end : Z) l : option ((LoadStatus + ELF64File) * ELFLoader) :=
  '(bytes, l) ← read_bytes IDENT_SIZE l;
  if zlen bytes <? IDENT_SIZE then Some (inl BAD_HEADER, l) else
  let elf_ident := as_ident bytes in
  if negb ((mag_0 elf_ident =? 0x7F) && (mag_1 elf_ident =? 69) && (mag_2 elf_ident =? 76) && (mag_3 elf_ident =? 70)) then Some (inl BAD_HEADER, l) else
  if clazz elf_ident =? 0 then Some (inl BAD_HEADER, l) else
  if clazz elf_ident =? ELF32 then Some (inl BAD_HEADER, l) else
  '(bytes, l) ← read_bytes (HEADER_SIZE - IDENT_SIZE) l;
  if zlen bytes <? HEADER_SIZE - IDENT_SIZE then Some (inl BAD_HEADER, l) else
  let h := as_header bytes in
  if negb (h_type h =? EXEC) then Some (inl BAD_HEADER, l) else
  if userspace_end <? entry h then Some (inl BAD_HEADER, l) else
  let '(good, l) := seek (ph_offset h) l in
  if negb good then Some (inl BAD_SEGMENT, l) else
  '(phs, l) ← program_header_loop (Z.to_nat (ph_count h)) userspace_end (ph_entry_size h) [] None l;
  match phs with
  | None => Some (inl BAD_SEGMENT, l)
  | Some ([], _) => Some (inl BAD_SEGMENT, l)
  | Some (phs, None) => Some (inr (mkFile h phs UNKNOWN 0 0 0), l)
  | Some (phs, Some note_ph) =>
      '(r, l) ← parse_vendor_information note_ph (data (identification h)) l;
      match r with
      | inl status => Some (inl status, l)
      | inr (vendor, major, minor, patch) => Some (inr (mkFile h phs vendor major minor patch), l)
      end
  end.

(** ** The segments *)

Context {M : Type} `{UserMemory M}.

Definition v_start_of (ph : ELF64ProgramHeader) : option Z := memory_align (virtual_address ph) PAGE_SIZE false.
Definition v_end_of (ph : ELF64ProgramHeader) : option Z := memory_align (u64 (virtual_address ph + memory_size ph)) PAGE_SIZE true.

(** The segments before the one that failed are given back. *)
Fixpoint free_segments (m : M) (phs : list ELF64ProgramHeader) : option M :=
  match phs with
  | [] => Some m
  | ph :: phs =>
      if negb (p_type ph =? LOAD) then free_segments m phs else
      v_start_old ← v_start_of ph;
      num_pages_old ← Math.div_round_up 64 (memory_size ph) PAGE_SIZE;
      '(_, m) ← um_free m v_start_old num_pages_old;
      free_segments m phs
  end.

Fixpoint allocate_loop (m : M) (before phs : list ELF64ProgramHeader) (heap_start : Z) : option (bool * Z * M) :=
  match phs with
  | [] => Some (true, heap_start, m)
  | ph :: phs =>
      if negb (p_type ph =? LOAD) then allocate_loop m (before ++ [ph]) phs heap_start else
      v_start ← v_start_of ph;
      v_end ← v_end_of ph;
      num_pages ← cdiv (u64 (v_end - v_start)) PAGE_SIZE;
      let heap_start := Math.max v_end heap_start in
      '(ok, m) ← um_allocate m v_start (Z.lor (Z.lor PRESENT WRITE_ALLOWED) USER_MODE_ACCESS) num_pages;
      if ok : bool then allocate_loop m (before ++ [ph]) phs heap_start else
      m ← free_segments m before;
      Some (false, heap_start, m)
  end.

Definition allocate_segments (m : M) (phs : list ELF64ProgramHeader) (heap_start : Z) : option (bool * Z * M) := allocate_loop m [] phs heap_start.

(** [while (to_copy > 0)]: a file that ends too early is read for ever. *)
Fixpoint copy_loop (fuel : nat) (m : M) (ph_dest to_copy ph_dest_offset : Z) l : option (Z * M * ELFLoader) :=
  match fuel with
  | O => None
  | S fuel =>
      if to_copy <=? 0 then Some (ph_dest_offset, m, l) else
      '(b, l) ← read_bytes BUF_SIZE l;
      let max_copy := Math.min (zlen b) to_copy in
      m ← um_store m (u64 (ph_dest + ph_dest_offset)) (take (Z.to_nat max_copy) b);
      copy_loop fuel m ph_dest (u64 (to_copy - max_copy)) (u64 (ph_dest_offset + max_copy)) l
  end.

Fixpoint flags_loop (fuel : nat) (m : M) (v v_end flags : Z) : option M :=
  match fuel with
  | O => None
  | S fuel => if v <? v_end then m ← um_modify_flags m v flags; flags_loop fuel m (u64 (v + PAGE_SIZE)) v_end flags else Some m
  end.

Definition segment_flags (ph : ELF64ProgramHeader) : Z :=
  let flags := Z.lor PRESENT USER_MODE_ACCESS in
  if negb (Z.land (p_flags ph) WRITE_PERMISSION =? 0) then Z.lor flags WRITE_ALLOWED else flags.

Definition load_segment (m : M) (ph : ELF64ProgramHeader) l : option (bool * M * ELFLoader) :=
  let '(good, l) := seek (offset ph) l in
  if negb good then Some (false, m, l) else
  '(ph_dest_offset, m, l) ← copy_loop (S (Z.to_nat (file_size ph))) m (virtual_address ph) (file_size ph) 0 l;
  m ← (if file_size ph <? memory_size ph
       then um_store m (u64 (virtual_address ph + ph_dest_offset)) (replicate (Z.to_nat (memory_size ph - file_size ph)) 0) else Some m);
  v_start ← v_start_of ph;
  v_end ← v_end_of ph;
  m ← flags_loop (S (Z.to_nat ((v_end - v_start) / PAGE_SIZE + 1))) m v_start v_end (segment_flags ph);
  Some (true, m, l).

Fixpoint load_segments (m : M) (phs : list ELF64ProgramHeader) l : option (bool * M * ELFLoader) :=
  match phs with
  | [] => Some (true, m, l)
  | ph :: phs =>
      if negb (p_type ph =? LOAD) then load_segments m phs l else
      '(ok, m, l) ← load_segment m ph l;
      if ok : bool then load_segments m phs l else Some (false, m, l)
  end.

(** ** The bootstrap area

    The arguments are C strings in the memory of the kernel, given without their terminators. *)

Definition START_INFO_SIZE : Z := 72.
Definition POINTER_SIZE : Z := 8.
Definition STACK_SIZE : Z := 16 * 1024.

Definition cla_size (args : list (list Z)) : Z := foldr (fun a n => zlen a + 1 + n) 0 args.

(** Each string and the pointer to it. *)
Fixpoint argument_loop (m : M) (argv_area cla_area : Z) (args : list (list Z)) (i argv_strings_offset : Z) : option (Z * M) :=
  match args with
  | [] => Some (i, m)
  | s :: args =>
      m ← um_store m (cla_area + argv_strings_offset) (s ++ [0]);
      m ← um_store m (argv_area + i * POINTER_SIZE) (bytes_of 8 (cla_area + argv_strings_offset));
      argument_loop m argv_area cla_area args (i + 1) (argv_strings_offset + zlen s + 1)
  end.

Fixpoint program_header_area_loop (m : M) (ph_area : Z) (phs : list ELF64ProgramHeader) (ph_area_offset : Z) : option M :=
  match phs with
  | [] => Some m
  | ph :: phs =>
      m ← um_store m (ph_area + ph_area_offset) (program_header_bytes ph);
      program_header_area_loop m ph_area phs (ph_area_offset + PH_SIZE)
  end.

(** The members of [StartInfo] with their offsets, in the order they are set. *)
Definition start_info_members (info argc argv_area ph_area ph_count main : Z) : list (Z * list Z) :=
  [(0, bytes_of 4 argc); (8, bytes_of 8 argv_area); (16, bytes_of 8 1); (24, bytes_of 8 0); (32, bytes_of 8 ph_area);
   (40, bytes_of 8 PH_SIZE); (48, bytes_of 8 ph_count); (56, bytes_of 8 main); (64, bytes_of 8 (info + 16))].

Fixpoint store_members (m : M) (info : Z) (members : list (Z * list Z)) : option M :=
  match members with [] => Some m | (off, bs) :: members => m ← um_store m (info + off) bs; store_members m info members end.

Definition setup_bootstrap_area (m : M) (elf_file : ELF64File) (args : list (list Z)) (stack_size : Z) : option (option Z * M) :=
  let ph_area_size := zlen (program_headers elf_file) * PH_SIZE in
  let argv_size := (zlen args + 1) * POINTER_SIZE in
  bootstrap_area_size ← memory_align (START_INFO_SIZE + argv_size + cla_size args + ph_area_size) PAGE_SIZE true;
  let stack_and_bootstrap_area_size := stack_size + bootstrap_area_size in
  let stack_and_bootstrap_area_begin := to_canonical_form (u64 (um_user_space_end m - stack_and_bootstrap_area_size)) in
  pages ← cdiv stack_and_bootstrap_area_size PAGE_SIZE;
  '(ok, m) ← um_allocate m stack_and_bootstrap_area_begin (Z.lor (Z.lor PRESENT WRITE_ALLOWED) USER_MODE_ACCESS) pages;
  if negb (ok : bool) then Some (None, m) else
  let bootstrap_area_begin := stack_and_bootstrap_area_begin + stack_size in
  let argv_area := bootstrap_area_begin + START_INFO_SIZE in
  let cla_area := argv_area + argv_size in
  '(argc, m) ← argument_loop m argv_area cla_area args 0 0;
  m ← um_store m (argv_area + argc * POINTER_SIZE) (bytes_of 8 0);
  let ph_area := cla_area + cla_size args in
  m ← program_header_area_loop m ph_area (program_headers elf_file) 0;
  m ← store_members m bootstrap_area_begin (start_info_members bootstrap_area_begin argc argv_area ph_area (zlen (program_headers elf_file)) (entry (header elf_file)));
  Some (Some bootstrap_area_begin, m).

(** ** Loading *)

(** What is filled in for the caller: the entry of the application, the stack and the start information. *)
Record Loaded := mkLoaded {
  elf : ELF64File; base_page_table_address : Z; heap_start : Z; heap_limit : Z; stack_bottom : Z; stack_top : Z; l_stack_size : Z; start_info_addr : Z }.

(** [CPU::setup_empty_stack]: a null frame. *)
Definition setup_empty_stack (m : M) (stack_top : Z) : option (Z * M) := m ← um_store m (stack_top - 8) (bytes_of 8 0); Some (stack_top - 8, m).

(** The address space that is loaded into. *)
Definition enter_space (keep_vas : bool) (m : M) : option (option Z * M) :=
  if keep_vas then Some (Some (um_loaded m), m) else
  '(base, m) ← um_new_space m;
  match base with Some base => m ← um_load_space m base; Some (Some base, m) | None => Some (None, m) end.

(** [opened] is the node that [VFSModule::open] answers.  On a failure the loaded address space is left as it is. *)
Definition load (m : M) (opened : option N) (args : list (list Z)) (keep_vas : bool) : option ((LoadStatus + Loaded) * M * option N) :=
  match opened with
  | None => Some (inl IO_ERROR, m, None)
  | Some n =>
      '(r, l) ← load_elf_file (um_user_space_end m) (mkLoader 0 0 (replicate 8192 0) n);
      match r with
      | inl status => Some (inl status, m, Some (_elf_file l))
      | inr elf =>
          let curr_app_vas := um_loaded m in
          '(base, m) ← enter_space keep_vas m;
          match base with
          | None => Some (inl MEMORY_ERROR, m, Some (_elf_file l))
          | Some base_pt_addr =>
              '(ok, heap_start, m) ← allocate_segments m (program_headers elf) 0;
              if negb (ok : bool) then Some (inl MEMORY_ERROR, m, Some (_elf_file l)) else
              '(ok, m, l) ← load_segments m (program_headers elf) l;
              if negb (ok : bool) then Some (inl LOAD_ERROR, m, Some (_elf_file l)) else
              '(info, m) ← setup_bootstrap_area m elf args STACK_SIZE;
              match info with
              | None => Some (inl MEMORY_ERROR, m, Some (_elf_file l))
              | Some info =>
                  '(top, m) ← setup_empty_stack m info;
                  let m := if keep_vas then m else um_load_base m curr_app_vas in
                  Some (inr (mkLoaded elf base_pt_addr heap_start heap_start (info - STACK_SIZE) top STACK_SIZE info), m, Some (node_close (_elf_file l)))
              end
          end
      end
  end.
End loader.
Arguments ELFLoader : clear implicits.
End Loader.
