(* ===== verification/ElfProps.v ===== *)
(** * The ELF loader: what it reads, what it refuses, and the image it builds *)

From S2P Require Import Prelude Kre Memory Paging FatVolume FatFile VfsStream Elf.
Import Addr Node FileStream Elf Loader.
#[local] Set Default Proof Using "Type*".

(** ** The file *)
Module Reader.

(** A node open for reading over [content], with its position. *)
Class FileLaws (N : Type) `{StreamNode N, SeekNode N} (content : list Z) (at_ : N -> Z -> Prop) := {
  fl_range n pos : at_ n pos -> 0 <= pos <= zlen content;
  fl_read n pos size : at_ n pos -> 0 < size -> exists st n', node_read n size = (st, take (Z.to_nat size) (drop (Z.to_nat pos) content), n')
    /\ at_ n' (Z.min (pos + size) (zlen content)) /\ (pos < zlen content -> st = OKAY);
  fl_seek n pos k : at_ n pos -> exists st c n', node_seek n BEGIN k = (st, c, n') /\ (st = OKAY -> at_ n' k) /\ (0 <= k < zlen content -> st = OKAY) }.

Section reader.
Context {N : Type} `{StreamNode N, SeekNode N} (content : list Z) (at_ : N -> Z -> Prop) `{!FileLaws N content at_}.
Implicit Types (l : ELFLoader N).

Definition rest (pos : Z) : list Z := drop (Z.to_nat pos) content.

(** The buffered bytes that were not read yet, and then those of the node, are the file from [pos] on. *)
Record reading l (pos : Z) : Prop := {
  rd_pos : 0 <= pos <= zlen content;
  rd_buf : zlen (_file_buf l) = BUF_SIZE;
  rd_lim : 0 <= _buf_pos l <= _buf_limit l /\ _buf_limit l <= BUF_SIZE;
  rd_rest : exists q, at_ (_elf_file l) q /\ q = pos + (_buf_limit l - _buf_pos l)
    /\ take (Z.to_nat (_buf_limit l - _buf_pos l)) (drop (Z.to_nat (_buf_pos l)) (_file_buf l)) = take (Z.to_nat (_buf_limit l - _buf_pos l)) (rest pos) }.

Lemma rest_len pos : 0 <= pos <= zlen content -> zlen (rest pos) = zlen content - pos.
Proof using. unfold rest, zlen. rewrite length_drop. lia. Qed.

(** With an empty buffer the next part of the file is read. *)
Lemma next_result l pos : at_ (_elf_file l) pos -> zlen (_file_buf l) = BUF_SIZE -> 0 <= _buf_pos l <= _buf_limit l -> _buf_limit l <= BUF_SIZE ->
  exists l', get_next_buffer l = (bool_decide (pos < zlen content), l') /\ (_buf_limit l = _buf_pos l \/ pos < zlen content -> reading l' pos) /\ (pos < zlen content -> _buf_pos l' < _buf_limit l').
Proof.
  intros Ha Hb Hl Hl2. pose proof (fl_range _ _ Ha) as Hr. unfold get_next_buffer.
  destruct (fl_read _ _ BUF_SIZE Ha) as (st & n' & -> & Ha' & Hok); [done|]. set (bs := take (Z.to_nat BUF_SIZE) _).
  assert (zlen bs = Z.min BUF_SIZE (zlen content - pos)) as Hlen by (unfold bs, zlen; rewrite length_take, length_drop; unfold zlen in Hr; lia).
  assert (zlen (bs ++ drop (length bs) (_file_buf l)) = BUF_SIZE) as Hbuf by (unfold zlen in *; rewrite length_app, length_drop; lia).
  assert (_buf_limit l = _buf_pos l \/ pos < zlen content -> ~ pos < zlen content -> reading (mkLoader (_buf_pos l) (_buf_limit l) (bs ++ drop (length bs) (_file_buf l)) n') pos) as Hno.
  { intros [E|?] ?; [|done]. constructor; cbn; [done|done|done|]. exists pos. rewrite E, Z.sub_diag, Z.add_0_r.
    replace (Z.min (pos + BUF_SIZE) (zlen content)) with pos in Ha' by (unfold BUF_SIZE; lia). done. }
  case_bool_decide as Hp.
  - rewrite Hok by done. rewrite (proj2 (Z.ltb_lt 0 (zlen bs))) by (unfold BUF_SIZE in *; lia).
    rewrite (wrap_small 16) by (unfold BUF_SIZE in *; word_lia). eexists. split; [done|]. split; [intros _|cbn; unfold BUF_SIZE in *; lia].
    constructor; cbn [_buf_pos _buf_limit _file_buf _elf_file]; [done|done|unfold BUF_SIZE in *; lia|].
    exists (Z.min (pos + BUF_SIZE) (zlen content)). split; [done|]. rewrite Z.sub_0_r. split; [rewrite Hlen; lia|].
    replace (Z.to_nat (zlen bs)) with (length bs) by (unfold zlen; lia). rewrite drop_0, take_app_length. symmetry. unfold bs at 1. rewrite length_take.
    unfold bs, rest. destruct (Nat.le_gt_cases (Z.to_nat BUF_SIZE) (length (drop (Z.to_nat pos) content))).
    + by rewrite Nat.min_l by lia.
    + rewrite Nat.min_r by lia. by rewrite !take_ge by lia.
  - assert (zlen bs = 0) as Hz by lia. eexists. split; [|split; [intros Ho; exact (Hno Ho Hp)|lia]].
    destruct st; rewrite ?Hz; done.
Qed.

(** A chunk of the buffer is the next part of the file. *)
Lemma chunk_result l pos n : reading l pos -> 0 <= n <= _buf_limit l - _buf_pos l ->
  take (Z.to_nat n) (drop (Z.to_nat (_buf_pos l)) (_file_buf l)) = take (Z.to_nat n) (rest pos) /\ reading (with_pos (u16 (_buf_pos l + n)) l) (pos + n) /\ zlen (take (Z.to_nat n) (rest pos)) = n.
Proof.
  intros [Hp Hb Hl (q & Ha & Hq & E)] Hn. pose proof (fl_range _ _ Ha) as Hr. pose proof (rest_len pos Hp) as Hlen.
  assert (forall k, 0 <= k <= _buf_limit l - _buf_pos l -> take (Z.to_nat k) (drop (Z.to_nat (_buf_pos l)) (_file_buf l)) = take (Z.to_nat k) (rest pos)) as Et.
  { intros k Hk. apply (f_equal (take (Z.to_nat k))) in E. rewrite !take_take in E. by rewrite Nat.min_l in E by lia. }
  split; [by apply Et|]. split; [|unfold zlen in *; rewrite length_take; lia]. rewrite (wrap_small 16) by (unfold BUF_SIZE in *; word_lia).
  constructor; cbn [_buf_pos _buf_limit _file_buf _elf_file with_pos]; [lia|done|lia|]. exists q. split; [done|]. split; [lia|].
  apply (f_equal (drop (Z.to_nat n))) in E. rewrite !skipn_firstn_comm, !drop_drop in E. unfold rest in *. rewrite drop_drop in E.
  replace (Z.to_nat (_buf_limit l - _buf_pos l) - Z.to_nat n)%nat with (Z.to_nat (_buf_limit l - (_buf_pos l + n))) in E by lia.
  replace (Z.to_nat (_buf_pos l + n)) with (Z.to_nat (_buf_pos l) + Z.to_nat n)%nat by lia. replace (Z.to_nat (pos + n)) with (Z.to_nat pos + Z.to_nat n)%nat by lia. done.
Qed.

(** At the end of the buffer the next one is read. *)
Lemma refill_result l pos : reading l pos ->
  exists good l', (if _buf_limit l <=? _buf_pos l then get_next_buffer l else (true, l)) = (good, l') /\ reading l' pos /\ (if good : bool then _buf_pos l' < _buf_limit l' else pos = zlen content).
Proof.
  intros Hrd. destruct (Z.leb_spec (_buf_limit l) (_buf_pos l)) as [E|E]; [|by exists true, l].
  destruct Hrd as [Hp Hb Hl (q & Ha & Hq & _)]. assert (q = pos) as -> by lia.
  destruct (next_result l pos Ha Hb) as (l' & -> & Hrd' & Hlt); [lia..|]. exists (bool_decide (pos < zlen content)), l'. split; [done|]. split; [apply Hrd'; lia|].
  case_bool_decide; [by apply Hlt|lia].
Qed.

Lemma buffered_loop_result fuel : forall n buf l pos, reading l pos -> zlen buf <= n < 2 ^ 16 -> (Z.to_nat (n - zlen buf) < fuel)%nat ->
  exists l', read_loop fuel n buf l = Some (buf ++ take (Z.to_nat (n - zlen buf)) (rest pos), l') /\ reading l' (Z.min (pos + (n - zlen buf)) (zlen content)).
Proof.
  induction fuel as [|fuel IH]; intros n buf l pos Hrd Hn Hf; [lia|]. cbn [read_loop]. pose proof (rd_pos _ _ Hrd) as Hpos. pose proof (zlen_nonneg buf) as Hbuf.
  destruct (Z.leb_spec n (zlen buf)) as [E|E].
  { exists l. replace (n - zlen buf) with 0 by lia. cbn. rewrite app_nil_r, Z.add_0_r, Z.min_l by lia. done. }
  destruct (refill_result l pos Hrd) as (good & l1 & -> & Hrd1 & Hg). destruct good; cbn [negb].
  - pose proof (rd_lim _ _ Hrd1) as [Hl1 Hl2]. rewrite !(wrap_small 16) by (unfold BUF_SIZE in *; word_lia). set (k := Math.min _ _).
    assert (0 < k <= n - zlen buf /\ k <= _buf_limit l1 - _buf_pos l1) as [Hk Hk2] by (unfold k; rewrite Math.min_spec; lia).
    rewrite (proj2 (Z.ltb_ge BUF_SIZE (_buf_pos l1 + k))) by lia. destruct (chunk_result l1 pos k Hrd1) as (Ec & Hrd2 & Hlen); [lia|]. rewrite Ec.
    pose proof (rd_pos _ _ Hrd2) as Hp2.
    destruct (IH n (buf ++ take (Z.to_nat k) (rest pos)) _ (pos + k) Hrd2) as (l2 & E2 & Hrd3); [rewrite zlen_app; lia|rewrite zlen_app; lia|].
    exists l2. rewrite E2, zlen_app, Hlen. split.
    + do 2 f_equal. rewrite <- app_assoc. f_equal. unfold rest. replace (Z.to_nat (pos + k)) with (Z.to_nat pos + Z.to_nat k)%nat by lia. rewrite <- drop_drop.
      replace (Z.to_nat (n - zlen buf)) with (Z.to_nat k + Z.to_nat (n - (zlen buf + k)))%nat by lia. by rewrite take_take_drop.
    + replace (pos + (n - zlen buf)) with (pos + k + (n - (zlen buf + k))) by lia. by rewrite zlen_app, Hlen in Hrd3.
  - exists l1. subst pos. rewrite Z.min_r by lia. split; [|done]. do 2 f_equal. unfold rest, zlen. rewrite Nat2Z.id, drop_all. by rewrite take_nil, app_nil_r.
Qed.

(** The reader delivers the next [n] bytes of the file, fewer only at its end. *)
Lemma read_bytes_result n l pos : reading l pos -> 0 <= n < 2 ^ 16 ->
  exists l', read_bytes n l = Some (take (Z.to_nat n) (rest pos), l') /\ reading l' (Z.min (pos + n) (zlen content)).
Proof.
  intros Hrd Hn. unfold read_bytes. pose proof (rd_pos _ _ Hrd) as Hpos.
  assert (exists good l1, (if _buf_limit l =? 0 then get_next_buffer l else (true, l)) = (good, l1) /\ reading l1 pos /\ (good = false -> pos = zlen content)) as (good & l1 & -> & Hrd1 & Hg).
  { destruct (Z.eqb_spec (_buf_limit l) 0) as [E|E]; [|exists true, l; done].
    destruct (refill_result l pos Hrd) as (good & l1 & E1 & Hrd1 & Hg). pose proof (rd_lim _ _ Hrd). rewrite (proj2 (Z.leb_le _ _)) in E1 by lia. exists good, l1. by destruct good. }
  destruct good.
  - destruct (buffered_loop_result (S (Z.to_nat n)) n [] l1 pos Hrd1) as (l2 & E & Hrd2); [rewrite zlen_nil; lia|rewrite zlen_nil; lia|]. rewrite zlen_nil, Z.sub_0_r in *. exists l2. by rewrite E.
  - rewrite (Hg eq_refl) in *. exists l1. rewrite Z.min_r by lia. split; [|done]. do 2 f_equal. unfold rest, zlen. by rewrite Nat2Z.id, drop_all, take_nil.
Qed.

Lemma to_int_small k : 0 <= k < 2 ^ 31 -> to_int k = k.
Proof using. intros Hk. unfold to_int. rewrite (wrap_small 32) by word_lia. by rewrite (proj2 (Z.ltb_lt _ _)) by lia. Qed.

(** A seek that succeeds leaves the reader at a position of the file; within the file it succeeds. *)
Lemma seek_result l pos k : reading l pos -> exists good l', seek k l = (good, l')
  /\ (good = true -> reading l' (to_int k)) /\ (0 <= to_int k < zlen content -> good = true).
Proof.
  intros [Hp Hb Hl (q & Ha & Hq & _)]. unfold seek. destruct (fl_seek _ _ (to_int k) Ha) as (st & c & n' & -> & Hat & Hok).
  destruct st; [|eexists false, _; split; [done|]; split; [done|]; intros Hk; by specialize (Hok Hk)..].
  specialize (Hat eq_refl). destruct (next_result (mkLoader (_buf_pos l) (_buf_limit l) (_file_buf l) n') (to_int k) Hat Hb) as (l2 & -> & Hrd & _); [cbn; lia..|].
  exists (bool_decide (to_int k < zlen content)), l2. split; [done|]. case_bool_decide; split; intros; [by apply Hrd; right|done|done|lia].
Qed.
End reader.
End Reader.

(** ** The headers *)
Module Headers.
Import Reader.

Lemma number_bytes n : forall x, 0 <= x < 256 ^ Z.of_nat n -> number (bytes_of n x) = x.
Proof.
  induction n as [|n IH]; intros x Hx; [cbn in *; lia|]. cbn [bytes_of number]. rewrite Nat2Z.inj_succ, Z.pow_succ_r in Hx by lia. rewrite IH.
  - pose proof (Z.div_mod x 256). lia.
  - split; [apply Z.div_pos; lia|apply Z.div_lt_upper_bound; lia].
Qed.

Lemma bytes_len n : forall x, length (bytes_of n x) = n.
Proof. induction n; intros; cbn; auto. Qed.

(** The identification behind the magic: [ident] is the class and the 11 bytes after it. *)
Definition header_bytes (h : ELF64Header) : list Z :=
  bytes_of 2 (h_type h) ++ bytes_of 2 (machine h) ++ bytes_of 4 (version h) ++ bytes_of 8 (entry h) ++ bytes_of 8 (ph_offset h) ++ bytes_of 8 (sh_offset h)
    ++ bytes_of 4 (h_flags h) ++ bytes_of 2 (elf_header_size h) ++ bytes_of 2 (ph_entry_size h) ++ bytes_of 2 (ph_count h) ++ bytes_of 2 (sh_entry_size h)
    ++ bytes_of 2 (sh_count h) ++ bytes_of 2 (sh_string_table_index h).

Record header_fields (h : ELF64Header) : Prop := {
  hf_16 : Forall (in_width 16) [h_type h; machine h; elf_header_size h; ph_entry_size h; ph_count h; sh_entry_size h; sh_count h; sh_string_table_index h];
  hf_32 : Forall (in_width 32) [version h; h_flags h];
  hf_64 : Forall (in_width 64) [entry h; ph_offset h; sh_offset h];
  hf_ident : identification h = mkIdent 0 0 0 0 0 0 }.

Record program_header_fields (p : ELF64ProgramHeader) : Prop := {
  pf_32 : Forall (in_width 32) [p_type p; p_flags p];
  pf_64 : Forall (in_width 64) [offset p; virtual_address p; physical_address p; file_size p; memory_size p; align p] }.

Ltac split_widths H := unfold in_width in H; repeat match type of H with Forall _ (_ :: _) => apply Forall_cons in H; destruct H as [? H] end.

Lemma as_header_bytes h : header_fields h -> as_header (header_bytes h) = h.
Proof.
  intros [H1 H2 H3 H4]. split_widths H1. split_widths H2. split_widths H3. destruct h; cbn in *. subst. unfold as_header. f_equal.
  all: match goal with |- field _ _ ?n = ?x => change (number (bytes_of n x) = x) end; apply number_bytes; word_lia.
Qed.

Lemma as_program_header_bytes p : program_header_fields p -> as_program_header (program_header_bytes p) = p.
Proof.
  intros [H1 H2]. split_widths H1. split_widths H2. destruct p; cbn in *. unfold as_program_header. f_equal.
  all: match goal with |- field _ _ ?n = ?x => change (number (bytes_of n x) = x) end; apply number_bytes; word_lia.
Qed.

Lemma header_len h : length (header_bytes h) = 48%nat.
Proof. reflexivity. Qed.

Lemma program_header_len p : length (program_header_bytes p) = 56%nat.
Proof. reflexivity. Qed.

Lemma table_cons p phs : mjoin (program_header_bytes <$> (p :: phs)) = program_header_bytes p ++ mjoin (program_header_bytes <$> phs).
Proof. done. Qed.

Lemma table_len phs : length (mjoin (program_header_bytes <$> phs)) = (56 * length phs)%nat.
Proof. induction phs as [|p phs IH]; [done|]. rewrite table_cons, length_app, program_header_len, IH. cbn [length]. lia. Qed.

(** The magic and the identification. *)
Definition ident_bytes (ident : list Z) : list Z := [0x7F; 69; 76; 70] ++ ident.

Lemma as_ident_bytes c ident : as_ident (ident_bytes (c :: ident)) = mkIdent 0x7F 69 76 70 c (field ident 0 1).
Proof. unfold as_ident. f_equal. change (c + 256 * 0 = c). lia. Qed.

(** A file that starts with the identification and a header of an executable, and holds the table of its program
    headers. *)
Record executable (content : list Z) (uend : Z) (ident : list Z) (h : ELF64Header) (phs : list ELF64ProgramHeader) : Prop := {
  ex_start : take 64 content = ident_bytes ident ++ header_bytes h;
  ex_ident : length ident = 12%nat /\ head ident <> Some 0 /\ head ident <> Some ELF32;
  ex_header : header_fields h;
  ex_type : h_type h = EXEC;
  ex_entry : entry h <= uend;
  ex_table : take (56 * length phs) (drop (Z.to_nat (ph_offset h)) content) = mjoin (program_header_bytes <$> phs);
  ex_count : ph_entry_size h = PH_SIZE /\ ph_count h = zlen phs /\ phs <> [];
  ex_phs : Forall (fun p => program_header_fields p /\ p_type p <> NOTE /\ in_kernel uend p = false) phs;
  ex_size : zlen content < 2 ^ 31 }.

Section headers.
Context {N : Type} `{StreamNode N, SeekNode N} (content : list Z) (at_ : N -> Z -> Prop) `{!FileLaws N content at_}.
Implicit Types (l : ELFLoader N).

Lemma rest_take pos n (a b : list Z) : rest content pos = a ++ b -> n = zlen a -> 0 <= pos -> take (Z.to_nat n) (rest content pos) = a /\ rest content (pos + n) = b.
Proof using.
  intros E -> Hp. unfold rest in *. replace (Z.to_nat (zlen a)) with (length a) by (unfold zlen; lia).
  replace (Z.to_nat (pos + zlen a)) with (Z.to_nat pos + length a)%nat by (unfold zlen; lia). rewrite <- drop_drop, E. by rewrite take_app_length, drop_app_length.
Qed.

(** A part of the file that is there is read, and the reader is behind it. *)
Lemma read_part l pos n (a b : list Z) : reading content at_ l pos -> rest content pos = a ++ b -> n = zlen a -> n < 2 ^ 16 ->
  exists l', read_bytes n l = Some (a, l') /\ reading content at_ l' (pos + n) /\ rest content (pos + n) = b.
Proof.
  intros Hrd E Hn Hw. pose proof (rd_pos _ _ _ _ Hrd) as Hp. pose proof (zlen_nonneg a) as Ha. destruct (read_bytes_result content at_ n l pos Hrd) as (l' & -> & Hrd'); [lia|].
  destruct (rest_take pos n a b E Hn) as [-> Er]; [lia|]. exists l'. split; [done|]. split; [|done].
  pose proof (rest_len content pos Hp) as Hl. rewrite E, zlen_app in Hl. pose proof (zlen_nonneg b). by rewrite Z.min_l in Hrd' by lia.
Qed.

Lemma read_header_result l pos p r : reading content at_ l pos -> rest content pos = program_header_bytes p ++ r -> program_header_fields p ->
  exists l', read_program_header PH_SIZE l = Some (Some p, l') /\ reading content at_ l' (pos + PH_SIZE) /\ rest content (pos + PH_SIZE) = r.
Proof.
  intros Hrd E Hp. unfold read_program_header. destruct (read_part l pos PH_SIZE _ _ Hrd E) as (l' & -> & Hrd' & Er); [done|done|]. cbn [mbind option_bind].
  change (zlen (program_header_bytes p)) with 56. cbn [Z.ltb]. exists l'. split; [|done]. change (56 <? 56) with false. cbn iota.
  change (length (program_header_bytes p)) with 56%nat. cbn [drop replicate]. rewrite app_nil_r. by rewrite as_program_header_bytes.
Qed.

Lemma loop_result uend phs : forall l pos r acc note, reading content at_ l pos -> rest content pos = mjoin (program_header_bytes <$> phs) ++ r ->
  Forall (fun p => program_header_fields p /\ p_type p <> NOTE /\ in_kernel uend p = false) phs ->
  exists l', program_header_loop (length phs) uend PH_SIZE acc note l = Some (Some (acc ++ phs, note), l') /\ exists pos', reading content at_ l' pos'.
Proof.
  induction phs as [|p phs IH]; intros l pos r acc note Hrd E Hall; cbn [program_header_loop length].
  { exists l. rewrite app_nil_r. eauto. }
  apply Forall_cons in Hall as [(Hp & Ht & Hk) Hall]. rewrite table_cons, <- app_assoc in E.
  destruct (read_header_result l pos p _ Hrd E Hp) as (l1 & -> & Hrd1 & Er). cbn [mbind option_bind]. rewrite Hk. rewrite (proj2 (Z.eqb_neq _ _)) by done.
  destruct (IH l1 _ r (acc ++ [p]) note Hrd1 Er Hall) as (l2 & -> & Hrd2). exists l2. by rewrite <- app_assoc.
Qed.

(** An executable is read as it was written. *)
Lemma load_elf_file_result uend ident h phs l : executable content uend ident h phs -> reading content at_ l 0 ->
  exists l' pos, load_elf_file uend l = Some (inr (mkFile h phs UNKNOWN 0 0 0), l') /\ reading content at_ l' pos.
Proof.
  intros [Es (Hi & Hi0 & Hi1) Hh Ht He Etab (Hes & Hc & Hne) Hall Hsz] Hrd. unfold load_elf_file.
  assert (rest content 0 = ident_bytes ident ++ header_bytes h ++ drop 64 content) as E0.
  { unfold rest. change (Z.to_nat 0) with 0%nat. rewrite drop_0, app_assoc, <- Es. by rewrite take_drop. }
  destruct (read_part l 0 IDENT_SIZE _ _ Hrd E0) as (l1 & -> & Hrd1 & E1); [unfold ident_bytes, zlen; rewrite length_app, Hi; done|done|]. cbn [mbind option_bind].
  assert (zlen (ident_bytes ident) = IDENT_SIZE) as -> by (unfold ident_bytes, zlen; rewrite length_app, Hi; done). change (IDENT_SIZE <? IDENT_SIZE) with false. cbn iota.
  destruct ident as [|cls ident]; [done|]. rewrite as_ident_bytes. cbn [mag_0 mag_1 mag_2 mag_3 clazz head] in *.
  change (negb ((0x7F =? 0x7F) && (69 =? 69) && (76 =? 76) && (70 =? 70))) with false. cbn iota. rewrite (proj2 (Z.eqb_neq cls 0)), (proj2 (Z.eqb_neq cls ELF32)) by congruence.
  destruct (read_part l1 _ (HEADER_SIZE - IDENT_SIZE) _ _ Hrd1 E1) as (l2 & -> & Hrd2 & _); [done|done|]. cbn [mbind option_bind].
  change (zlen (header_bytes h) <? HEADER_SIZE - IDENT_SIZE) with false. cbn iota. rewrite as_header_bytes, Ht by done. change (negb (EXEC =? EXEC)) with false. cbn iota.
  rewrite (proj2 (Z.ltb_ge uend (entry h))) by done.
  assert (0 <= ph_offset h < zlen content) as Ho.
  { destruct Hh as [_ _ H3 _]. split_widths H3. split; [lia|]. destruct (Z.lt_ge_cases (ph_offset h) (zlen content)); [done|].
    rewrite drop_ge in Etab by (unfold zlen in *; lia). rewrite take_nil in Etab. apply (f_equal length) in Etab. rewrite table_len in Etab. destruct phs; [done|cbn in Etab; lia]. }
  destruct (seek_result content at_ l2 _ (ph_offset h) Hrd2) as (good & l3 & -> & Hrd3 & Hg). rewrite (to_int_small (ph_offset h)) in * by lia. rewrite (Hg Ho) in *. cbn [negb].
  rewrite Hes, Hc. unfold zlen at 1. rewrite Nat2Z.id.
  destruct (loop_result uend phs l3 _ (drop (56 * length phs) (drop (Z.to_nat (ph_offset h)) content)) [] None (Hrd3 eq_refl)) as (l4 & -> & pos & Hrd4); [|done|].
  { unfold rest. rewrite <- Etab. by rewrite take_drop. }
  cbn [mbind option_bind app]. exists l4, pos. by destruct phs.
Qed.

Lemma fresh_reading n : at_ n 0 -> reading content at_ (mkLoader 0 0 (replicate 8192 0) n) 0.
Proof. intros Ha. pose proof (fl_range _ _ Ha). constructor; cbn [_buf_pos _buf_limit _file_buf _elf_file]; [done|unfold zlen; by rewrite length_replicate|unfold BUF_SIZE; lia|]. by exists 0. Qed.
End headers.
End Headers.

(** ** The memory of the application *)
Module UserSpace.

(** The user half of an address space. *)
Definition USER_LIMIT : Z := 0x0000800000000000.

Section views.
Context {M : Type} `{UserMemory M} (ok : M -> Prop) (space : M -> Z -> Prop) (byte_at flags_at : M -> Z -> Z -> option Z).

(** Between two states only addresses of the loaded address space in [P] changed. *)
Record same_but (m m' : M) (P : Z -> Prop) : Prop := {
  sb_ok : ok m';
  sb_loaded : um_loaded m' = um_loaded m;
  sb_spaces : forall b, space m b -> space m' b;
  sb_view : forall b x, space m b -> 0 <= x < USER_LIMIT -> b <> um_loaded m \/ ~ P x -> byte_at m' b x = byte_at m b x /\ flags_at m' b x = flags_at m b x }.

(** The same for a change of the loaded address space. *)
Record switched (m m' : M) (b : Z) : Prop := {
  sw_ok : ok m';
  sw_loaded : um_loaded m' = b;
  sw_spaces : forall b, space m b -> space m' b;
  sw_view : forall b x, space m b -> 0 <= x < USER_LIMIT -> byte_at m' b x = byte_at m b x /\ flags_at m' b x = flags_at m b x }.
End views.

(** What the loader relies on: [ok] is the invariant of the memory, [space] tells the address spaces. *)
Class MemoryLaws (M : Type) `{UserMemory M} (ok : M -> Prop) (space : M -> Z -> Prop) (byte_at flags_at : M -> Z -> Z -> option Z) := {
  ml_end m : um_user_space_end m = to_canonical_form USER_LIMIT;
  ml_space m : ok m -> space m (um_loaded m);
  ml_allocate m v fl n : ok m -> v mod 4096 = 0 -> 0 <= v -> 0 <= n -> v + n * 4096 <= USER_LIMIT -> 0 <= fl < 4096 -> Z.testbit fl 0 = true ->
    exists r m', um_allocate m v fl n = Some (r, m') /\ same_but ok space byte_at flags_at m m' (fun x => v <= x < v + n * 4096)
      /\ (r = true -> forall x, v <= x < v + n * 4096 -> flags_at m' (um_loaded m) x = Some fl);
  ml_free m v n : ok m -> v mod 4096 = 0 -> 0 <= v -> 0 <= n -> v + n * 4096 <= USER_LIMIT ->
    exists r m', um_free m v n = Some (r, m') /\ same_but ok space byte_at flags_at m m' (fun x => v <= x < v + n * 4096);
  ml_flags m v f fl : ok m -> v mod 4096 = 0 -> 0 <= v < USER_LIMIT -> flags_at m (um_loaded m) v = Some f -> 0 <= fl < 4096 ->
    exists m', um_modify_flags m v fl = Some m' /\ same_but ok space byte_at flags_at m m' (fun x => v <= x < v + 4096)
      /\ forall x, v <= x < v + 4096 -> flags_at m' (um_loaded m) x = Some (Z.lor f fl) /\ byte_at m' (um_loaded m) x = byte_at m (um_loaded m) x;
  ml_store m a bs : ok m -> 0 <= a -> a + zlen bs <= USER_LIMIT -> (forall x, a <= x < a + zlen bs -> exists f, flags_at m (um_loaded m) x = Some f /\ Z.testbit f 1 = true) ->
    exists m', um_store m a bs = Some m' /\ same_but ok space byte_at flags_at m m' (fun x => a <= x < a + zlen bs)
      /\ (forall x, a <= x < a + zlen bs -> flags_at m' (um_loaded m) x = flags_at m (um_loaded m) x)
      /\ forall i c, bs !! i = Some c -> byte_at m' (um_loaded m) (a + Z.of_nat i) = Some c;
  ml_new m : ok m -> exists r m', um_new_space m = Some (r, m') /\ switched ok space byte_at flags_at m m' (um_loaded m)
      /\ forall b, r = Some b -> space m' b /\ ~ space m b /\ forall x, 0 <= x < USER_LIMIT -> flags_at m' b x = None;
  ml_load_space m b : ok m -> space m b -> exists m', um_load_space m b = Some m' /\ switched ok space byte_at flags_at m m' b;
  ml_load_base m b : ok m -> space m b -> switched ok space byte_at flags_at m (um_load_base m b) b }.

Section memory.
Context {M : Type} `{UserMemory M} (ok : M -> Prop) (space : M -> Z -> Prop) (byte_at flags_at : M -> Z -> Z -> option Z) `{!MemoryLaws M ok space byte_at flags_at}.

Abbreviation same_but := (same_but ok space byte_at flags_at).

(** The bytes [bs] are in memory from [a] on. *)
Definition has (m : M) (b a : Z) (bs : list Z) : Prop := forall i c, bs !! i = Some c -> byte_at m b (a + Z.of_nat i) = Some c.

(** Only bytes in [P] changed. *)
Definition writes (m m' : M) (P : Z -> Prop) : Prop := same_but m m' P /\ forall x, 0 <= x < USER_LIMIT -> flags_at m' (um_loaded m) x = flags_at m (um_loaded m) x.

Definition writable (m : M) (a n : Z) : Prop := forall x, a <= x < a + n -> exists f, flags_at m (um_loaded m) x = Some f /\ Z.testbit f 1 = true.

Lemma same_refl m P : ok m -> same_but m m P.
Proof using. by constructor. Qed.

Lemma same_mono m m' (P Q : Z -> Prop) : (forall x, P x -> Q x) -> same_but m m' P -> same_but m m' Q.
Proof using. intros HPQ [Ho Hl Hs Hv]. constructor; [done..|]. intros b x Hb Hx Hor. apply Hv; [done|done|]. destruct Hor; [by left|right; auto]. Qed.

Lemma same_trans m m1 m2 P : same_but m m1 P -> same_but m1 m2 P -> same_but m m2 P.
Proof using.
  intros [Ho1 Hl1 Hs1 Hv1] [Ho2 Hl2 Hs2 Hv2]. constructor; [done|congruence|auto|]. intros b x Hb Hx Hor.
  destruct (Hv1 b x Hb Hx Hor) as [<- <-]. apply Hv2; [auto|done|by rewrite Hl1].
Qed.

Lemma writes_refl m P : ok m -> writes m m P.
Proof using. intros. split; [by apply same_refl|done]. Qed.

Lemma writes_mono m m' (P Q : Z -> Prop) : (forall x, P x -> Q x) -> writes m m' P -> writes m m' Q.
Proof using. intros HPQ [Hs Hf]. split; [by eapply same_mono|done]. Qed.

Lemma writes_trans m m1 m2 P : writes m m1 P -> writes m1 m2 P -> writes m m2 P.
Proof using. intros [Hs1 Hf1] [Hs2 Hf2]. split; [by eapply same_trans|]. intros x Hx. rewrite <- Hf1 by done. rewrite <- (sb_loaded _ _ _ _ _ _ _ Hs1). by apply Hf2. Qed.

Lemma writable_writes m m' P a n : writes m m' P -> 0 <= a -> a + n <= USER_LIMIT -> writable m a n -> writable m' a n.
Proof using. intros [Hs Hf] Ha Hn Hw x Hx. rewrite (sb_loaded _ _ _ _ _ _ _ Hs), Hf by lia. by apply Hw. Qed.

Lemma writable_sub m a n a' n' : writable m a n -> a <= a' -> a' + n' <= a + n -> writable m a' n'.
Proof using. intros Hw Ha Hn x Hx. apply Hw. lia. Qed.

Lemma has_nil m b a : has m b a [].
Proof using. done. Qed.

Lemma has_app m b a l1 l2 : has m b a (l1 ++ l2) <-> has m b a l1 /\ has m b (a + zlen l1) l2.
Proof using.
  unfold has. split.
  - intros Hh. split; intros i c Hi; [apply Hh; by apply lookup_app_l_Some|]. replace (a + zlen l1 + Z.of_nat i) with (a + Z.of_nat (length l1 + i)) by (unfold zlen; lia).
    apply Hh. rewrite lookup_app_r by lia. by replace (length l1 + i - length l1)%nat with i by lia.
  - intros [H1 H2] i c [Hi|[Hl Hi]]%lookup_app_Some; [by apply H1|]. replace (a + Z.of_nat i) with (a + zlen l1 + Z.of_nat (i - length l1)) by (unfold zlen; lia). by apply H2.
Qed.

(** Bytes outside of what changes stay. *)
Lemma has_same m m' P b a bs : same_but m m' P -> space m b -> 0 <= a -> a + zlen bs <= USER_LIMIT -> (b <> um_loaded m \/ forall x, a <= x < a + zlen bs -> ~ P x) ->
  has m b a bs -> has m' b a bs.
Proof using.
  intros Hs Hb Ha Hl Hor Hh i c Hi. pose proof (lookup_lt_Some _ _ _ Hi). assert (a <= a + Z.of_nat i < a + zlen bs) as Hx by (unfold zlen in *; lia).
  destruct (sb_view _ _ _ _ _ _ _ Hs b (a + Z.of_nat i) Hb) as [-> _]; [lia|destruct Hor; [by left|right; auto]|by apply Hh].
Qed.

Lemma has_switched m m' b' b a bs : switched ok space byte_at flags_at m m' b' -> space m b -> 0 <= a -> a + zlen bs <= USER_LIMIT -> has m b a bs -> has m' b a bs.
Proof using.
  intros Hs Hb Ha Hl Hh i c Hi. pose proof (lookup_lt_Some _ _ _ Hi). destruct (sw_view _ _ _ _ _ _ _ Hs b (a + Z.of_nat i) Hb) as [-> _]; [unfold zlen in *; lia|by apply Hh].
Qed.

Lemma um_store_result m a bs : ok m -> 0 <= a -> a + zlen bs <= USER_LIMIT -> writable m a (zlen bs) ->
  exists m', um_store m a bs = Some m' /\ writes m m' (fun x => a <= x < a + zlen bs) /\ has m' (um_loaded m) a bs.
Proof.
  intros Hm Ha Hl Hw. destruct (ml_store m a bs Hm Ha Hl Hw) as (m' & E & Hs & Hf & Hh). exists m'. split; [done|]. split; [|done]. split; [done|]. intros x Hx.
  destruct (decide (a <= x < a + zlen bs)); [by apply Hf|]. apply (sb_view _ _ _ _ _ _ _ Hs); [by apply ml_space|done|by right].
Qed.

(** *** Runs of stores *)

Fixpoint store_list (m : M) (stores : list (Z * list Z)) : option M :=
  match stores with [] => Some m | (a, bs) :: stores => m ← um_store m a bs; store_list m stores end.

Definition within (lo hi : Z) (s : Z * list Z) : Prop := lo <= s.1 /\ s.1 + zlen s.2 <= hi.
Definition apart (s t : Z * list Z) : Prop := s.1 + zlen s.2 <= t.1 \/ t.1 + zlen t.2 <= s.1.

Lemma store_list_app s1 : forall m s2, store_list m (s1 ++ s2) = (m ← store_list m s1; store_list m s2).
Proof using. induction s1 as [|[a bs] s1 IH]; intros m s2; [done|]. cbn [store_list app]. destruct (um_store m a bs); [|done]. cbn. apply IH. Qed.

(** Stores apart from some bytes keep them. *)
Lemma stores_keep lo hi stores : forall m a bs, ok m -> Forall (within lo hi) stores -> Forall (apart (a, bs)) stores -> writable m lo (hi - lo) ->
  0 <= lo <= a -> a + zlen bs <= hi <= USER_LIMIT -> has m (um_loaded m) a bs -> forall m', store_list m stores = Some m' -> has m' (um_loaded m) a bs.
Proof.
  induction stores as [|[a2 bs2] ss IH]; intros m a bs Hm Hall Hap Hw Ha1 Ha2 Hh mz; cbn [store_list]; [by intros [= <-]|].
  apply Forall_cons in Hall as [[Hb1 Hb2] Hall]. apply Forall_cons in Hap as [Hap1 Hap]. cbn in Hb1, Hb2. unfold apart in Hap1. cbn in Hap1. pose proof (zlen_nonneg bs2). pose proof (zlen_nonneg bs).
  destruct (um_store_result m a2 bs2) as (m1 & -> & Hw1 & _); [done|lia|lia|by eapply writable_sub; [done|lia|lia]|]. cbn [mbind option_bind]. intros E.
  pose proof (sb_loaded _ _ _ _ _ _ _ (proj1 Hw1)) as Hl. rewrite <- Hl. apply IH; [exact (sb_ok _ _ _ _ _ _ _ (proj1 Hw1))|done|done|by eapply writable_writes; [done|lia|lia|done]|done|done| |done].
  rewrite Hl. apply (has_same m m1 _ _ _ _ (proj1 Hw1)); [by apply ml_space|lia|lia| |done]. right. intros x Hx ?. lia.
Qed.

(** Stores that do not overlap are all in memory afterwards. *)
Lemma store_list_result lo hi stores : forall m, ok m -> 0 <= lo -> hi <= USER_LIMIT -> writable m lo (hi - lo) -> Forall (within lo hi) stores -> ForallOrdPairs apart stores ->
  exists m', store_list m stores = Some m' /\ writes m m' (fun x => lo <= x < hi) /\ forall a bs, (a, bs) ∈ stores -> has m' (um_loaded m) a bs.
Proof.
  induction stores as [|[a bs] stores IH]; intros m Hm Hlo Hhi Hw Hall Hap; cbn [store_list].
  { exists m. split; [done|]. split; [by apply writes_refl|]. by intros a bs Hin%not_elem_of_nil. }
  apply Forall_cons in Hall as [[Ha1 Ha2] Hall]. cbn in Ha1, Ha2. inversion Hap as [|? ? Hap1 Hap2]; subst. pose proof (zlen_nonneg bs) as Hnn.
  destruct (um_store_result m a bs) as (m1 & -> & Hw1 & Hh1); [done|lia|lia|by eapply writable_sub; [done|lia|lia]|]. cbn [mbind option_bind].
  pose proof (sb_ok _ _ _ _ _ _ _ (proj1 Hw1)) as Hm1. pose proof (sb_loaded _ _ _ _ _ _ _ (proj1 Hw1)) as Hl1.
  destruct (IH m1 Hm1 Hlo Hhi) as (m2 & E2 & Hw2 & Hh2); [by eapply writable_writes; [done|lia|lia|done]|done|done|].
  exists m2. split; [done|]. assert (writes m m1 (fun x => lo <= x < hi)) as Hw1' by (eapply writes_mono; [|done]; cbn; lia).
  split; [by eapply writes_trans|]. intros a' bs' [E|Hin]%elem_of_cons; [|rewrite <- Hl1; by apply Hh2]. injection E as -> ->. rewrite <- Hl1 in *. clear IH.
  by eapply (stores_keep lo hi stores m1); [|done|done|eapply writable_writes; [done|lia|lia|done]|lia|lia|done|done].
Qed.
End memory.
End UserSpace.

(** ** The segments *)
Module Segments.
Import Reader Headers UserSpace.

Definition seg_start (p : ELF64ProgramHeader) : Z := virtual_address p / 4096 * 4096.
(** The page behind the last byte is mapped, too, when the segment ends with a page. *)
Definition seg_end (p : ELF64ProgramHeader) : Z := ((virtual_address p + memory_size p) / 4096 + 1) * 4096.

(** A segment of the user half, with its part of the file. *)
Record fits (content : list Z) (top : Z) (p : ELF64ProgramHeader) : Prop := {
  ft_va : 0 <= virtual_address p;
  ft_file : 0 <= file_size p <= memory_size p;
  ft_top : virtual_address p + memory_size p <= top;
  ft_offset : 0 <= offset p < zlen content;
  ft_content : offset p + file_size p <= zlen content }.

Definition loads (phs : list ELF64ProgramHeader) : list ELF64ProgramHeader := filter (fun p => p_type p = LOAD) phs.

Definition covers (phs : list ELF64ProgramHeader) (x : Z) : Prop := exists p, p ∈ loads phs /\ seg_start p <= x < seg_end p.

(** The bytes of a segment: those of the file, then zeros. *)
Definition segment_bytes (content : list Z) (p : ELF64ProgramHeader) : list Z :=
  take (Z.to_nat (file_size p)) (rest content (offset p)) ++ replicate (Z.to_nat (memory_size p - file_size p)) 0.

Definition bytes_apart (p q : ELF64ProgramHeader) : Prop :=
  virtual_address p + memory_size p <= virtual_address q \/ virtual_address q + memory_size q <= virtual_address p.

Lemma loads_cons p phs : loads (p :: phs) = if decide (p_type p = LOAD) then p :: loads phs else loads phs.
Proof. unfold loads. rewrite filter_cons. done. Qed.

Lemma covers_cons p phs x : p_type p = LOAD -> covers (p :: phs) x <-> seg_start p <= x < seg_end p \/ covers phs x.
Proof.
  intros E. unfold covers. rewrite loads_cons, decide_True by done. split.
  - intros (q & [->|Hq]%elem_of_cons & Hx); [by left|right; eauto].
  - intros [Hx|(q & Hq & Hx)]; [exists p|exists q]; (split; [rewrite elem_of_cons; auto|done]).
Qed.

Lemma covers_skip p phs x : p_type p <> LOAD -> covers (p :: phs) x <-> covers phs x.
Proof. intros E. unfold covers. by rewrite loads_cons, decide_False by done. Qed.

Lemma align_down v : 0 <= v < 2 ^ 62 -> memory_align v PAGE_SIZE false = Some (v / 4096 * 4096).
Proof.
  intros Hv. unfold memory_align, cdiv. destruct (decide (PAGE_SIZE = 0)); [done|]. cbn [mbind option_bind]. change PAGE_SIZE with 4096. rewrite wrap_small; [done|].
  pose proof (Z.div_mod v 4096). pose proof (Z.mod_pos_bound v 4096). word_lia.
Qed.

Lemma align_up v : 0 <= v < 2 ^ 62 -> memory_align v PAGE_SIZE true = Some ((v / 4096 + 1) * 4096).
Proof.
  intros Hv. unfold memory_align, cdiv. destruct (decide (PAGE_SIZE = 0)); [done|]. cbn [mbind option_bind]. change PAGE_SIZE with 4096.
  pose proof (Z.div_mod v 4096). pose proof (Z.mod_pos_bound v 4096). rewrite (wrap_small 64 (v / 4096 + 1)) by word_lia. rewrite wrap_small by word_lia. done.
Qed.

Section segments.
Context {N : Type} `{StreamNode N, SeekNode N} (content : list Z) (at_ : N -> Z -> Prop) `{!FileLaws N content at_}.
Context {M : Type} `{UserMemory M} (ok : M -> Prop) (space : M -> Z -> Prop) (byte_at flags_at : M -> Z -> Z -> option Z) `{!MemoryLaws M ok space byte_at flags_at}.
Context (top : Z) (Htop : top + 4096 <= USER_LIMIT).
Context (Hsize : zlen content < 2 ^ 31).

Abbreviation same_but := (same_but ok space byte_at flags_at).
Abbreviation writes := (writes ok space byte_at flags_at).
Abbreviation has := (has byte_at).
Abbreviation fits := (fits content top).

Lemma fits_range p : fits p -> seg_start p mod 4096 = 0 /\ 0 <= seg_start p <= virtual_address p /\ virtual_address p + memory_size p < seg_end p /\ seg_end p <= USER_LIMIT
  /\ (seg_end p - seg_start p) mod 4096 = 0.
Proof using Htop.
  intros [Hv Hf Ht _ _]. unfold seg_start, seg_end, USER_LIMIT in *. repeat split; [by apply Z.mod_mul|Z.to_euclidean_division_equations; lia..].
Qed.

Lemma v_start_result p : fits p -> v_start_of p = Some (seg_start p).
Proof using Htop. intros [Hv Hf Ht _ _]. unfold USER_LIMIT in *. apply align_down. word_lia. Qed.

Lemma v_end_result p : fits p -> v_end_of p = Some (seg_end p).
Proof using Htop. intros [Hv Hf Ht _ _]. unfold USER_LIMIT in *. unfold v_end_of. rewrite wrap_small by word_lia. apply align_up. word_lia. Qed.

Lemma pages_result p : fits p -> exists n, cdiv (u64 (seg_end p - seg_start p)) PAGE_SIZE = Some n /\ 0 <= n /\ seg_start p + n * 4096 = seg_end p.
Proof using Htop.
  intros Hp. destruct (fits_range p Hp) as (Hr1 & Hr2 & Hr3 & Hr4 & Hr5). unfold USER_LIMIT in *. pose proof Hp as [Hv Hf _ _ _]. rewrite wrap_small by word_lia.
  unfold cdiv. destruct (decide (PAGE_SIZE = 0)); [done|]. change PAGE_SIZE with 4096. eexists. split; [done|]. Z.to_euclidean_division_equations. lia.
Qed.

Lemma segments_freed phs : forall m, ok m -> Forall fits (loads phs) -> exists m', free_segments m phs = Some m' /\ same_but m m' (covers phs).
Proof using Htop MemoryLaws0.
  induction phs as [|p phs IH]; intros m Hm Hall; cbn [free_segments]; [exists m; split; [done|by apply same_refl]|].
  destruct (Z.eqb_spec (p_type p) LOAD) as [E|E]; cbn [negb]; rewrite loads_cons in Hall.
  - rewrite decide_True in Hall by done. apply Forall_cons in Hall as [Hp Hall]. rewrite (v_start_result p Hp). cbn [mbind option_bind].
    destruct (fits_range p Hp) as (Hr1 & Hr2 & Hr3 & Hr4 & _). pose proof Hp as [Hv Hf _ _ _]. unfold USER_LIMIT in *. unfold Math.div_round_up.
    destruct (decide (PAGE_SIZE = 0)); [done|]. change PAGE_SIZE with 4096. rewrite wrap_small by word_lia. cbn [mbind option_bind].
    set (k := (memory_size p + 4096 - 1) / 4096). assert (0 <= k /\ seg_start p + k * 4096 <= seg_end p) as [Hn1 Hn2] by (unfold k, seg_start, seg_end; Z.to_euclidean_division_equations; lia).
    destruct (ml_free m (seg_start p) k Hm) as (r & m1 & -> & Hs1); [done|lia|done|unfold USER_LIMIT; lia|]. cbn [mbind option_bind].
    destruct (IH m1 (sb_ok _ _ _ _ _ _ _ Hs1) Hall) as (m2 & -> & Hs2). exists m2. split; [done|]. eapply same_trans; (eapply same_mono; [|done]); cbn; intros x Hx; apply covers_cons; [done|left; lia|done|by right].
  - rewrite decide_False in Hall by done. destruct (IH m Hm Hall) as (m2 & -> & Hs2). exists m2. split; [done|]. eapply same_mono; [|done]. intros x Hx. by apply covers_skip.
Qed.

Definition heap_of (phs : list ELF64ProgramHeader) (h : Z) : Z := foldl (fun h p => Z.max (seg_end p) h) h (loads phs).

Lemma segments_mapped phs : forall m before h, ok m -> Forall fits (loads before) -> Forall fits (loads phs) ->
  exists r h' m', allocate_loop m before phs h = Some (r, h', m') /\ same_but m m' (fun x => covers before x \/ covers phs x)
    /\ (r = true -> h' = heap_of phs h /\ forall x, 0 <= x < USER_LIMIT -> flags_at m (um_loaded m) x = Some 7 \/ covers phs x -> flags_at m' (um_loaded m) x = Some 7).
Proof using Htop MemoryLaws0.
  induction phs as [|p phs IH]; intros m before h Hm Hbef Hall; cbn [allocate_loop].
  { exists true, h, m. split; [done|]. split; [by apply same_refl|]. intros _. split; [done|]. intros x Hx [?|(q & Hq & _)]; [done|]. by apply not_elem_of_nil in Hq. }
  unfold heap_of. rewrite loads_cons in *. assert (forall x, covers (before ++ [p]) x <-> covers before x \/ covers [p] x) as Hsnoc.
  { intros x. unfold covers, loads. setoid_rewrite filter_app. setoid_rewrite elem_of_app. split; [intros (q & [Hq|Hq] & Hx); [left|right]; by exists q|intros [(q & Hq & Hx)|(q & Hq & Hx)]; exists q; auto]. }
  destruct (Z.eqb_spec (p_type p) LOAD) as [E|E]; cbn [negb].
  - rewrite decide_True in Hall |- * by done. apply Forall_cons in Hall as [Hp Hall]. rewrite (v_start_result p Hp), (v_end_result p Hp). cbn [mbind option_bind].
    destruct (pages_result p Hp) as (n & -> & Hn & Hend). cbn [mbind option_bind]. destruct (fits_range p Hp) as (Hr1 & Hr2 & Hr3 & Hr4 & _). change (Z.lor _ _) with 7.
    destruct (ml_allocate m (seg_start p) 7 n Hm) as (r & m1 & -> & Hs1 & Hf1); [done|lia|done|lia|lia|done|]. cbn [mbind option_bind]. rewrite Hend in *.
    assert (same_but m m1 (fun x => covers before x \/ covers (p :: phs) x)) as Hs1' by (eapply same_mono; [|done]; cbn; intros x Hx; right; apply covers_cons; [done|by left]).
    destruct r.
    + destruct (IH m1 (before ++ [p]) (Math.max (seg_end p) h) (sb_ok _ _ _ _ _ _ _ Hs1)) as (r2 & h2 & m2 & -> & Hs2 & Hres); [|done|].
      { unfold loads. rewrite filter_app. apply Forall_app. split; [done|]. rewrite filter_cons, decide_True by done. by constructor. }
      exists r2, h2, m2. split; [done|]. split.
      { eapply same_trans; [done|]. eapply same_mono; [|done]. cbn. intros x. rewrite Hsnoc. rewrite !covers_cons by done. intros [[?|[?|(q & Hq & _)]]|?]; auto. by apply not_elem_of_nil in Hq. }
      intros ->. destruct (Hres eq_refl) as [-> Hf2]. unfold heap_of. rewrite Math.max_spec. split; [done|]. rewrite (sb_loaded _ _ _ _ _ _ _ Hs1) in Hf2. intros x Hx Hor. apply Hf2; [done|].
      rewrite covers_cons in Hor by done. destruct (decide (seg_start p <= x < seg_end p)) as [Hin|Hout]; [left; by apply Hf1|].
      destruct Hor as [Hor|[?|?]]; [left|done|by right]. destruct (sb_view _ _ _ _ _ _ _ Hs1 (um_loaded m) x) as [_ ->]; [by apply ml_space|done|by right|done].
    + destruct (segments_freed before m1 (sb_ok _ _ _ _ _ _ _ Hs1) Hbef) as (m2 & -> & Hs2). cbn [mbind option_bind]. exists false, (Math.max (seg_end p) h), m2. split; [done|]. split; [|done].
      eapply same_trans; [done|]. eapply same_mono; [|done]. by left.
  - rewrite decide_False in Hall |- * by done. destruct (IH m (before ++ [p]) h Hm) as (r2 & h2 & m2 & -> & Hs2 & Hres); [|done|].
    { unfold loads. rewrite filter_app, filter_cons, decide_False by done. rewrite filter_nil, app_nil_r. done. }
    exists r2, h2, m2. split; [done|]. split.
    { eapply same_mono; [|done]. cbn. intros x. rewrite Hsnoc, !covers_skip by done. intros [[?|(q & Hq & _)]|?]; auto. by apply not_elem_of_nil in Hq. }
    intros ->. destruct (Hres eq_refl) as [-> Hf2]. split; [done|]. intros x Hx Hor. apply Hf2; [done|]. by rewrite covers_skip in Hor.
Qed.
Lemma copy_result fuel : forall m dest k off l pos, ok m -> reading content at_ l pos -> 0 <= k -> pos + k <= zlen content -> (Z.to_nat k < fuel)%nat ->
  0 <= dest -> 0 <= off -> dest + off + k <= USER_LIMIT -> writable flags_at m (dest + off) k ->
  exists m' l' pos', copy_loop fuel m dest k off l = Some (off + k, m', l') /\ reading content at_ l' pos' /\ writes m m' (fun x => dest + off <= x < dest + off + k)
    /\ has m' (um_loaded m) (dest + off) (take (Z.to_nat k) (rest content pos)).
Proof using MemoryLaws0 FileLaws0 Hsize.
  induction fuel as [|fuel IH]; intros m dest k off l pos Hm Hrd Hk Hle Hf Hd Ho Hlim Hw; [lia|]. cbn [copy_loop]. pose proof (rd_pos _ _ _ _ Hrd) as Hpos.
  destruct (Z.leb_spec k 0) as [E|E].
  { assert (k = 0) as -> by lia. exists m, l, pos. rewrite Z.add_0_r. split; [done|]. split; [done|]. split; [by apply writes_refl|by apply has_nil]. }
  destruct (read_bytes_result content at_ BUF_SIZE l pos Hrd) as (l1 & -> & Hrd1); [unfold BUF_SIZE; lia|]. cbn [mbind option_bind]. set (b := take (Z.to_nat BUF_SIZE) (rest content pos)).
  pose proof (rest_len content pos Hpos) as Hrl. assert (zlen b = Z.min BUF_SIZE (zlen content - pos)) as Hb by (unfold b, zlen, BUF_SIZE in *; rewrite length_take; lia).
  rewrite Math.min_spec. set (j := Z.min (zlen b) k). assert (0 < j <= k /\ j <= BUF_SIZE) as [Hj Hj2] by (unfold j, BUF_SIZE in *; lia).
  assert (take (Z.to_nat j) b = take (Z.to_nat j) (rest content pos)) as -> by (unfold b; rewrite take_take; f_equal; unfold BUF_SIZE in *; lia). 
  assert (zlen (take (Z.to_nat j) (rest content pos)) = j) as Hjl by (unfold zlen in *; rewrite length_take; lia). unfold USER_LIMIT in *. rewrite !wrap_small by word_lia.
  destruct (um_store_result ok space byte_at flags_at m (dest + off) (take (Z.to_nat j) (rest content pos))) as (m1 & -> & Hw1 & Hh1); [done|lia|unfold USER_LIMIT; lia|by eapply writable_sub; [done|lia|lia]|].
  cbn [mbind option_bind]. rewrite Hjl in Hw1. pose proof (sb_ok _ _ _ _ _ _ _ (proj1 Hw1)) as Hm1. pose proof (sb_loaded _ _ _ _ _ _ _ (proj1 Hw1)) as Hl1.
  destruct (decide (k = j)) as [<-|Hne].
  - rewrite Z.sub_diag. destruct fuel as [|fuel]; [lia|]. cbn [copy_loop]. change (0 <=? 0) with true. cbn iota. exists m1, l1. eexists. split; [done|]. done.
  - assert (j = BUF_SIZE) as Hjb by (unfold j in *; lia). replace (Z.min (pos + BUF_SIZE) (zlen content)) with (pos + j) in Hrd1 by lia.
    destruct (IH m1 dest (k - j) (off + j) l1 (pos + j) Hm1 Hrd1) as (m2 & l2 & pos2 & E2 & Hrd2 & Hw2 & Hh2); [lia..|unfold USER_LIMIT; lia| |].
    { eapply writable_writes; [done|lia|unfold USER_LIMIT; lia|]. eapply writable_sub; [done|lia|lia]. }
    exists m2, l2, pos2. replace (off + k) with (off + j + (k - j)) by lia. split; [done|]. split; [done|].
    split; [eapply writes_trans; (eapply writes_mono; [|done]); cbn; lia|].
    replace (Z.to_nat k) with (Z.to_nat j + Z.to_nat (k - j))%nat by lia. rewrite <- take_take_drop. rewrite <- Hl1. apply has_app. rewrite Hjl. split.
    + eapply has_same; [exact (proj1 Hw2)|rewrite Hl1; by apply (sb_spaces _ _ _ _ _ _ _ (proj1 Hw1)), (ml_space m)|lia|rewrite Hjl; unfold USER_LIMIT; lia|right; rewrite Hjl; cbn; lia|by rewrite Hl1].
    + replace (dest + off + j) with (dest + (off + j)) by lia. unfold rest in *. replace (Z.to_nat (pos + j)) with (Z.to_nat pos + Z.to_nat j)%nat in Hh2 by lia. by rewrite drop_drop.
Qed.

(** The flags of a page that is mapped with all of them do not change: they are only added. *)
Lemma flags_result fuel : forall m v v_end fl, ok m -> v mod 4096 = 0 -> v_end mod 4096 = 0 -> 0 <= v <= v_end -> v_end <= USER_LIMIT -> (Z.to_nat ((v_end - v) / 4096) < fuel)%nat ->
  0 <= fl < 8 -> (forall x, v <= x < v_end -> flags_at m (um_loaded m) x = Some 7) -> exists m', flags_loop fuel m v v_end fl = Some m' /\ writes m m' (fun _ => False).
Proof using MemoryLaws0.
  induction fuel as [|fuel IH]; intros m v v_end fl Hm Hv Hve Hr Hl Hf Hfl H7; [lia|]. cbn [flags_loop].
  destruct (Z.ltb_spec v v_end) as [E|E]; [|exists m; split; [done|by apply writes_refl]].
  assert (v + 4096 <= v_end) as Hnext by (Z.to_euclidean_division_equations; lia). destruct (ml_flags m v 7 fl Hm) as (m1 & -> & Hs1 & Hf1); [done|lia|apply H7; lia|lia|]. cbn [mbind option_bind].
  assert (Z.lor 7 fl = 7) as E7 by (assert (fl = 0 \/ fl = 1 \/ fl = 2 \/ fl = 3 \/ fl = 4 \/ fl = 5 \/ fl = 6 \/ fl = 7) as Hc by lia; by repeat destruct Hc as [->|Hc]; subst).
  rewrite E7 in Hf1. pose proof (sb_loaded _ _ _ _ _ _ _ Hs1) as Hl1.
  assert (writes m m1 (fun _ => False)) as Hw1.
  { split; [constructor; [exact (sb_ok _ _ _ _ _ _ _ Hs1)|done|exact (sb_spaces _ _ _ _ _ _ _ Hs1)|]|].
    - intros b x Hb Hx _. destruct (decide (v <= x < v + 4096 /\ b = um_loaded m)) as [[Hin ->]|Hout].
      + destruct (Hf1 x Hin) as [-> ->]. by rewrite H7 by lia.
      + apply (sb_view _ _ _ _ _ _ _ Hs1); [done|done|]. destruct (decide (b = um_loaded m)); [right; tauto|by left].
    - intros x Hx. destruct (decide (v <= x < v + 4096)) as [Hin|Hout]; [destruct (Hf1 x Hin) as [-> _]; by rewrite H7 by lia|].
      apply (sb_view _ _ _ _ _ _ _ Hs1); [by apply ml_space|done|by right]. }
  unfold USER_LIMIT in *. rewrite wrap_small by (change PAGE_SIZE with 4096; word_lia). change PAGE_SIZE with 4096.
  destruct (IH m1 (v + 4096) v_end fl (sb_ok _ _ _ _ _ _ _ Hs1)) as (m2 & -> & Hw2); [Z.to_euclidean_division_equations; lia|done|lia|unfold USER_LIMIT; lia|Z.to_euclidean_division_equations; lia|done| |].
  { intros x Hx. rewrite Hl1, (proj2 Hw1) by (unfold USER_LIMIT; lia). apply H7. lia. }
  exists m2. split; [done|]. by eapply writes_trans.
Qed.

Lemma segment_len p : fits p -> zlen (segment_bytes content p) = memory_size p.
Proof using. intros [Hv Hf Ht Ho Hc]. unfold segment_bytes, rest, zlen in *. rewrite length_app, length_take, length_drop, length_replicate. lia. Qed.

Lemma segment_result m p l pos : ok m -> reading content at_ l pos -> fits p -> (forall x, seg_start p <= x < seg_end p -> flags_at m (um_loaded m) x = Some 7) ->
  exists m' l' pos', load_segment m p l = Some (true, m', l') /\ reading content at_ l' pos' /\ writes m m' (fun x => virtual_address p <= x < virtual_address p + memory_size p)
    /\ has m' (um_loaded m) (virtual_address p) (segment_bytes content p).
Proof using Htop MemoryLaws0 FileLaws0 Hsize.
  intros Hm Hrd Hp H7. destruct (fits_range p Hp) as (Hr1 & Hr2 & Hr3 & Hr4 & Hr5). pose proof Hp as [Hv Hf Ht Ho Hc]. unfold load_segment.
  destruct (seek_result content at_ l pos (offset p) Hrd) as (good & l1 & -> & Hrd1 & Hg). rewrite (to_int_small (offset p)) in * by lia. rewrite (Hg Ho) in *. cbn [negb]. specialize (Hrd1 eq_refl).
  assert (writable flags_at m (virtual_address p) (memory_size p)) as Hw by (intros x Hx; exists 7; split; [apply H7; lia|done]).
  destruct (copy_result (S (Z.to_nat (file_size p))) m (virtual_address p) (file_size p) 0 l1 (offset p)) as (m1 & l2 & pos2 & -> & Hrd2 & Hw1 & Hh1); [done|done|lia..| |].
  { eapply writable_sub; [done|lia|lia]. }
  cbn [mbind option_bind]. rewrite !Z.add_0_r, Z.add_0_l in *. pose proof (sb_ok _ _ _ _ _ _ _ (proj1 Hw1)) as Hm1. pose proof (sb_loaded _ _ _ _ _ _ _ (proj1 Hw1)) as Hl1.
  set (P := fun x => virtual_address p <= x < virtual_address p + memory_size p). set (zeros := replicate (Z.to_nat (memory_size p - file_size p)) 0).
  assert (zlen zeros = memory_size p - file_size p) as Hz by (unfold zeros, zlen; rewrite length_replicate; lia).
  assert (zlen (take (Z.to_nat (file_size p)) (rest content (offset p))) = file_size p) as Hfl by (unfold zlen, rest in *; rewrite length_take, length_drop; lia).
  assert (writes m m1 P) as Hw1' by (eapply writes_mono; [|done]; unfold P; cbn; lia).
  assert (exists m2, (if file_size p <? memory_size p then um_store m1 (u64 (virtual_address p + file_size p)) zeros else Some m1) = Some m2
    /\ writes m m2 P /\ has m2 (um_loaded m) (virtual_address p) (segment_bytes content p)) as (m2 & -> & Hw2 & Hh2).
  { unfold segment_bytes. fold zeros. destruct (Z.ltb_spec (file_size p) (memory_size p)) as [E|E].
    - unfold USER_LIMIT in *. rewrite wrap_small by word_lia. destruct (um_store_result ok space byte_at flags_at m1 (virtual_address p + file_size p) zeros Hm1) as (m2 & -> & Hw2 & Hh2); [lia|unfold USER_LIMIT; lia| |].
      { eapply writable_writes; [exact Hw1|lia|unfold USER_LIMIT; lia|]. eapply writable_sub; [done|lia|lia]. }
      exists m2. split; [done|]. split; [eapply writes_trans; [done|]; eapply writes_mono; [|done]; unfold P; cbn; lia|]. apply has_app. rewrite Hfl. rewrite Hl1 in *. split; [|done].
      eapply has_same; [exact (proj1 Hw2)|by apply (sb_spaces _ _ _ _ _ _ _ (proj1 Hw1)), (ml_space m)|lia|rewrite Hfl; unfold USER_LIMIT; lia|right; rewrite Hfl; lia|done].
    - exists m1. split; [done|]. split; [done|]. apply has_app. rewrite Hfl. split; [done|]. unfold zeros. replace (Z.to_nat (memory_size p - file_size p)) with 0%nat by lia. by apply has_nil. }
  cbn [mbind option_bind]. rewrite (v_start_result p Hp), (v_end_result p Hp). cbn [mbind option_bind]. pose proof (sb_loaded _ _ _ _ _ _ _ (proj1 Hw2)) as Hl2.
  destruct (flags_result (S (Z.to_nat ((seg_end p - seg_start p) / PAGE_SIZE + 1))) m2 (seg_start p) (seg_end p) (segment_flags p)) as (m3 & -> & Hw3);
    [exact (sb_ok _ _ _ _ _ _ _ (proj1 Hw2))|done|by unfold seg_end; apply Z.mod_mul|lia|done|change PAGE_SIZE with 4096; Z.to_euclidean_division_equations; lia| | |].
  { unfold segment_flags. by destruct (negb _). }
  { intros x Hx. rewrite Hl2, (proj2 Hw2) by lia. by apply H7. }
  exists m3, l2, pos2. split; [done|]. split; [done|]. split; [eapply writes_trans; [done|]; by eapply writes_mono; [|done]|].
  rewrite <- Hl2. eapply has_same; [exact (proj1 Hw3)|rewrite Hl2; by apply (sb_spaces _ _ _ _ _ _ _ (proj1 Hw2)), (ml_space m)|lia|rewrite segment_len by done; lia|right; tauto|by rewrite Hl2].
Qed.

Lemma load_result phs : forall m l pos, ok m -> reading content at_ l pos -> Forall fits (loads phs) -> ForallOrdPairs bytes_apart (loads phs) ->
  (forall x, covers phs x -> flags_at m (um_loaded m) x = Some 7) ->
  exists m' l' pos', load_segments m phs l = Some (true, m', l') /\ reading content at_ l' pos' /\ writes m m' (covers phs)
    /\ (forall a bs, has m (um_loaded m) a bs -> 0 <= a -> a + zlen bs <= USER_LIMIT -> Forall (fun p => a + zlen bs <= virtual_address p \/ virtual_address p + memory_size p <= a) (loads phs) -> has m' (um_loaded m) a bs)
    /\ Forall (fun p => has m' (um_loaded m) (virtual_address p) (segment_bytes content p)) (loads phs).
Proof using Htop MemoryLaws0 FileLaws0 Hsize.
  induction phs as [|p phs IH]; intros m l pos Hm Hrd Hall Hap H7; cbn [load_segments].
  { exists m, l, pos. split; [done|]. split; [done|]. split; [by apply writes_refl|]. done. }
  rewrite loads_cons in *. destruct (Z.eqb_spec (p_type p) LOAD) as [E|E]; cbn [negb].
  - rewrite decide_True in Hall, Hap |- * by done. apply Forall_cons in Hall as [Hp Hall]. inversion Hap as [|? ? Hap1 Hap2]; subst. destruct (fits_range p Hp) as (Hr1 & Hr2 & Hr3 & Hr4 & Hr5).
    destruct (segment_result m p l pos Hm Hrd Hp) as (m1 & l1 & pos1 & -> & Hrd1 & Hw1 & Hh1); [intros x Hx; apply H7, covers_cons; [done|by left]|]. cbn [mbind option_bind].
    pose proof (sb_ok _ _ _ _ _ _ _ (proj1 Hw1)) as Hm1. pose proof (sb_loaded _ _ _ _ _ _ _ (proj1 Hw1)) as Hl1. pose proof (ft_va _ _ _ Hp) as Hva. pose proof (ft_file _ _ _ Hp) as Hfile.
    assert (forall x, covers phs x -> 0 <= x < USER_LIMIT) as Hcu by (intros x (q & Hq & Hx); rewrite Forall_forall in Hall; destruct (fits_range q (Hall q Hq)); lia).
    destruct (IH m1 l1 pos1 Hm1 Hrd1 Hall Hap2) as (m2 & l2 & pos2 & -> & Hrd2 & Hw2 & Hk2 & Hh2).
    { intros x Hx. rewrite Hl1, (proj2 Hw1) by auto. apply H7, covers_cons; [done|by right]. }
    exists m2, l2, pos2. split; [done|]. split; [done|]. rewrite Hl1 in *. split; [|split].
    + eapply writes_trans; (eapply writes_mono; [|done]); cbn; intros x Hx; apply covers_cons; [done|left; lia|done|by right].
    + intros a bs Ha H0a Hlim Hall2. apply Forall_cons in Hall2 as [Hx Hall2]. apply Hk2; [|done|done|done].
      eapply has_same; [exact (proj1 Hw1)|by apply ml_space|done|done|right; cbn; lia|done].
    + constructor; [|done]. apply Hk2; [done|lia|rewrite segment_len by done; lia|]. rewrite segment_len by done. eapply Forall_impl; [exact Hap1|]. unfold bytes_apart. cbn. intros q Hq. lia.
  - rewrite decide_False in Hall, Hap |- * by done. destruct (IH m l pos Hm Hrd Hall Hap) as (m2 & l2 & pos2 & E2 & Hrd2 & Hw2 & Hk2 & Hh2); [intros x Hx; apply H7; by apply covers_skip|].
    exists m2, l2, pos2. split; [done|]. split; [done|]. split; [|done]. eapply writes_mono; [|done]. intros x Hx. by apply covers_skip.
Qed.
End segments.
End Segments.

(** ** The bootstrap area *)
Module Bootstrap.
Import Reader Headers UserSpace Segments.

Definition area_content (args : list (list Z)) (phs : list ELF64ProgramHeader) : Z :=
  START_INFO_SIZE + (zlen args + 1) * POINTER_SIZE + cla_size args + zlen phs * PH_SIZE.

Definition area_size (args : list (list Z)) (phs : list ELF64ProgramHeader) : Z := (area_content args phs / 4096 + 1) * 4096.

(** Where the stack begins: the stack and the bootstrap area end with the user half. *)
Definition area_begin (args : list (list Z)) (phs : list ELF64ProgramHeader) : Z := USER_LIMIT - (STACK_SIZE + area_size args phs).

Fixpoint argument_stores (argv_area cla_area : Z) (args : list (list Z)) (i off : Z) : list (Z * list Z) :=
  match args with
  | [] => []
  | s :: args => (cla_area + off, s ++ [0]) :: (argv_area + i * POINTER_SIZE, bytes_of 8 (cla_area + off)) :: argument_stores argv_area cla_area args (i + 1) (off + zlen s + 1)
  end.

Fixpoint header_stores (ph_area : Z) (phs : list ELF64ProgramHeader) (off : Z) : list (Z * list Z) :=
  match phs with [] => [] | p :: phs => (ph_area + off, program_header_bytes p) :: header_stores ph_area phs (off + PH_SIZE) end.

Definition member_stores (info : Z) (members : list (Z * list Z)) : list (Z * list Z) := (fun m => (info + m.1, m.2)) <$> members.

(** What the application finds: the number of its arguments, the pointers to them with a null pointer behind them,
    the strings, the program headers and its entry. *)
Record started {M} (byte_at : M -> Z -> Z -> option Z) (m : M) (b info : Z) (file : ELF64File) (args : list (list Z)) : Prop := {
  st_room : 0 <= info /\ info + START_INFO_SIZE <= USER_LIMIT;
  st_argc : has byte_at m b info (bytes_of 4 (zlen args));
  st_argv : exists argv, (info <= argv /\ argv + 8 * zlen args + 8 <= USER_LIMIT) /\ has byte_at m b (info + 8) (bytes_of 8 argv) /\ has byte_at m b (argv + 8 * zlen args) (bytes_of 8 0)
    /\ forall k s, args !! k = Some s -> exists p, (info <= p /\ p + zlen s + 1 <= USER_LIMIT) /\ has byte_at m b (argv + 8 * Z.of_nat k) (bytes_of 8 p) /\ has byte_at m b p (s ++ [0]);
  st_headers : exists phs, (info <= phs /\ phs + 56 * zlen (program_headers file) <= USER_LIMIT) /\ has byte_at m b (info + 32) (bytes_of 8 phs) /\ has byte_at m b (info + 48) (bytes_of 8 (zlen (program_headers file)))
    /\ forall k p, program_headers file !! k = Some p -> has byte_at m b (phs + 56 * Z.of_nat k) (program_header_bytes p);
  st_main : has byte_at m b (info + 56) (bytes_of 8 (entry (header file))) }.

Lemma cla_nonneg args : 0 <= cla_size args.
Proof. induction args as [|s args IH]; cbn; [lia|]. pose proof (zlen_nonneg s). unfold cla_size in IH. lia. Qed.

Lemma zlen_snoc (s : list Z) c : zlen (s ++ [c]) = zlen s + 1.
Proof. rewrite zlen_app. done. Qed.

Lemma cla_cons s args : cla_size (s :: args) = zlen s + 1 + cla_size args.
Proof. done. Qed.

Lemma pairs_app {A} (R : A -> A -> Prop) l1 l2 : ForallOrdPairs R l1 -> ForallOrdPairs R l2 -> (forall x y, x ∈ l1 -> y ∈ l2 -> R x y) -> ForallOrdPairs R (l1 ++ l2).
Proof.
  induction 1 as [|x l1 H1 H2 IH]; intros Hl2 Hx; [done|]. cbn. constructor.
  - apply Forall_app. split; [done|]. apply Forall_forall. intros y Hy. apply Hx; [by left|done].
  - apply IH; [done|]. intros. apply Hx; [by right|done].
Qed.

(** The arguments: the pointers in one part, the strings in another. *)
Lemma argument_stores_in argv cla args : forall i off s, s ∈ argument_stores argv cla args i off ->
  within (argv + i * 8) (argv + (i + zlen args) * 8) s \/ within (cla + off) (cla + off + cla_size args) s.
Proof.
  induction args as [|a args IH]; intros i off s Hs; cbn [argument_stores] in Hs; [by apply not_elem_of_nil in Hs|]. rewrite zlen_cons, cla_cons. pose proof (cla_nonneg args). pose proof (zlen_nonneg a). pose proof (zlen_nonneg args).
  apply elem_of_cons in Hs as [->|[->|Hs]%elem_of_cons]; [right; split; cbn [fst snd]; rewrite ?zlen_snoc; lia|left; split; cbn [fst snd]; unfold POINTER_SIZE; change (zlen (bytes_of 8 _)) with 8; lia|].
  destruct (IH _ _ _ Hs) as [[? ?]|[? ?]]; [left|right]; split; lia.
Qed.

Lemma argument_stores_apart argv cla args : forall i off, argv + (i + zlen args) * 8 <= cla + off -> ForallOrdPairs apart (argument_stores argv cla args i off).
Proof.
  induction args as [|a args IH]; intros i off Hl; cbn [argument_stores]; [constructor|]. rewrite zlen_cons in Hl. pose proof (zlen_nonneg a). pose proof (zlen_nonneg args).
  assert (forall t, t ∈ argument_stores argv cla args (i + 1) (off + zlen a + 1) -> apart (cla + off, a ++ [0]) t /\ apart (argv + i * POINTER_SIZE, bytes_of 8 (cla + off)) t) as Hap.
  { intros t Ht. unfold apart, POINTER_SIZE. cbn [fst snd]. rewrite zlen_snoc. change (zlen (bytes_of 8 _)) with 8. destruct (argument_stores_in _ _ _ _ _ _ Ht) as [[? ?]|[? ?]]; split; lia. }
  constructor; [constructor; [right; cbn [fst snd]; unfold POINTER_SIZE; change (zlen (bytes_of 8 _)) with 8; lia|apply Forall_forall; intros t Ht; by apply Hap]|].
  constructor; [apply Forall_forall; intros t Ht; by apply Hap|]. apply IH. lia.
Qed.

Lemma argument_stores_elem argv cla args : forall i off k s, args !! k = Some s -> exists p, cla + off <= p /\ p + zlen s + 1 <= cla + off + cla_size args
  /\ (argv + (i + Z.of_nat k) * 8, bytes_of 8 p) ∈ argument_stores argv cla args i off /\ (p, s ++ [0]) ∈ argument_stores argv cla args i off.
Proof.
  induction args as [|a args IH]; intros i off k s Hk; [done|]. cbn [argument_stores]. rewrite cla_cons. pose proof (cla_nonneg args). pose proof (zlen_nonneg a). destruct k as [|k]; cbn in Hk.
  - injection Hk as ->. exists (cla + off). split; [lia|]. split; [lia|]. rewrite Z.add_0_r. split; [right; left|left].
  - destruct (IH (i + 1) (off + zlen a + 1) k s Hk) as (p & Hp1 & Hp2 & Hin1 & Hin2). exists p. split; [lia|]. split; [lia|]. replace (i + Z.of_nat (S k)) with (i + 1 + Z.of_nat k) by lia. split; by do 2 right.
Qed.

Lemma header_stores_in area phs : forall off s, s ∈ header_stores area phs off -> within (area + off) (area + off + 56 * zlen phs) s.
Proof.
  induction phs as [|p phs IH]; intros off s Hs; cbn [header_stores] in Hs; [by apply not_elem_of_nil in Hs|]. rewrite zlen_cons. pose proof (zlen_nonneg phs).
  apply elem_of_cons in Hs as [->|Hs]; [split; cbn [fst snd]; change (zlen (program_header_bytes p)) with 56; lia|]. destruct (IH _ _ Hs). unfold PH_SIZE in *. split; lia.
Qed.

Lemma header_stores_apart area phs : forall off, ForallOrdPairs apart (header_stores area phs off).
Proof.
  induction phs as [|p phs IH]; intros off; cbn [header_stores]; [constructor|]. constructor; [|apply IH]. apply Forall_forall. intros t Ht. destruct (header_stores_in _ _ _ _ Ht).
  left. cbn [fst snd]. change (zlen (program_header_bytes p)) with 56. unfold PH_SIZE in *. lia.
Qed.

Lemma header_stores_elem area phs : forall off k p, phs !! k = Some p -> (area + off + 56 * Z.of_nat k, program_header_bytes p) ∈ header_stores area phs off.
Proof.
  induction phs as [|q phs IH]; intros off k p Hk; [done|]. cbn [header_stores]. destruct k as [|k]; cbn in Hk.
  - injection Hk as ->. replace (area + off + 56 * Z.of_nat 0) with (area + off) by lia. left.
  - right. replace (area + off + 56 * Z.of_nat (S k)) with (area + (off + PH_SIZE) + 56 * Z.of_nat k) by (unfold PH_SIZE; lia). by apply IH.
Qed.

Lemma canonical_below t : 0 < t <= USER_LIMIT -> to_canonical_form (u64 (to_canonical_form USER_LIMIT - t)) = USER_LIMIT - t.
Proof.
  intros Ht. change (to_canonical_form USER_LIMIT) with 0xFFFF800000000000. unfold USER_LIMIT in *. rewrite wrap_small by word_lia. unfold to_canonical_form, Pg.MASK_ADDRESS. change (Pg.VIRTUAL_ADDR_SIZE - 1) with 47.
  set (y := 0x800000000000 - t). replace (0xFFFF800000000000 - t) with (0xFFFF * 2 ^ 48 + y) by (unfold y; lia).
  rewrite Z.shiftr_div_pow2 by lia. replace ((0xFFFF * 2 ^ 48 + y) / 2 ^ 47) with 0x1FFFE by (apply (Z.div_unique _ _ _ y); unfold y; lia).
  change (Z.land 0x1FFFE 1 =? 1) with false. cbn iota.
  match goal with |- Z.land _ ?m = _ => change m with (Z.ones 48) end. rewrite Z.land_ones by lia. rewrite Z.add_comm, Z_mod_plus_full. apply Z.mod_small. unfold y. lia.
Qed.

Section bootstrap.
Context {M : Type} `{UserMemory M} (ok : M -> Prop) (space : M -> Z -> Prop) (byte_at flags_at : M -> Z -> Z -> option Z) `{!MemoryLaws M ok space byte_at flags_at}.

Abbreviation same_but := (same_but ok space byte_at flags_at).
Abbreviation writes := (writes ok space byte_at flags_at).

Lemma argument_loop_stores args : forall m argv cla i off, argument_loop m argv cla args i off = (m ← store_list m (argument_stores argv cla args i off); Some (i + zlen args, m)).
Proof using.
  induction args as [|a args IH]; intros m argv cla i off; cbn [argument_loop argument_stores store_list]; [cbn; by rewrite zlen_nil, Z.add_0_r|]. rewrite zlen_cons.
  destruct (um_store m _ _) as [m1|]; [|done]. cbn [mbind option_bind]. destruct (um_store m1 _ _) as [m2|]; [|done]. cbn [mbind option_bind]. rewrite IH. by replace (i + 1 + zlen args) with (i + (1 + zlen args)) by lia.
Qed.

Lemma header_loop_stores phs : forall m area off, program_header_area_loop m area phs off = store_list m (header_stores area phs off).
Proof using. induction phs as [|p phs IH]; intros m area off; cbn [program_header_area_loop header_stores store_list]; [done|]. destruct (um_store m _ _) as [m1|]; [|done]. cbn [mbind option_bind]. apply IH. Qed.

Lemma members_stores members : forall m info, store_members m info members = store_list m (member_stores info members).
Proof using. induction members as [|[o bs] ms IH]; intros m info; cbn [store_members]; [done|]. cbn [member_stores fmap list_fmap store_list fst snd]. destruct (um_store m _ _) as [m1|]; [|done]. cbn [mbind option_bind]. apply IH. Qed.

(** All the stores of the bootstrap area, with its layout. *)
Definition area_stores (info : Z) (file : ELF64File) (args : list (list Z)) : list (Z * list Z) :=
  let argv := info + 72 in let cla := argv + (zlen args + 1) * 8 in let pha := cla + cla_size args in
  argument_stores argv cla args 0 0 ++ (argv + zlen args * 8, bytes_of 8 0) :: header_stores pha (program_headers file) 0
    ++ member_stores info (start_info_members info (zlen args) argv pha (zlen (program_headers file)) (entry (header file))).

Lemma area_stores_result info file args lo hi : lo <= info -> info + area_content args (program_headers file) <= hi ->
  Forall (within lo hi) (area_stores info file args) /\ ForallOrdPairs apart (area_stores info file args).
Proof using.
  intros Hlo Hhi. unfold area_stores. set (argv := info + 72). set (cla := argv + (zlen args + 1) * 8). set (pha := cla + cla_size args). pose proof (zlen_nonneg args) as Hn. pose proof (cla_nonneg args) as Hc. pose proof (zlen_nonneg (program_headers file)) as Hp.
  unfold area_content, START_INFO_SIZE, POINTER_SIZE, PH_SIZE in Hhi.
  assert (forall s, s ∈ argument_stores argv cla args 0 0 -> within argv (argv + zlen args * 8) s \/ within cla pha s) as H1.
  { intros s Hs. destruct (argument_stores_in _ _ _ _ _ _ Hs) as [[? ?]|[? ?]]; [left|right]; unfold within, pha; lia. }
  assert (forall s, s ∈ header_stores pha (program_headers file) 0 -> within pha (pha + 56 * zlen (program_headers file)) s) as H3.
  { intros s Hs. destruct (header_stores_in _ _ _ _ Hs). unfold within. lia. }
  set (ms := member_stores _ _). assert (forall s, s ∈ ms -> within info argv s) as H4.
  { apply Forall_forall. unfold ms, member_stores, start_info_members. cbn [fmap list_fmap fst snd]. unfold within, argv.
    repeat (apply Forall_cons; split; [cbn [fst snd]; match goal with |- context [zlen (bytes_of ?n ?x)] => change (zlen (bytes_of n x)) with (Z.of_nat n) end; lia|]). by apply Forall_nil. }
  assert (ForallOrdPairs apart ms) as H5.
  { unfold ms, member_stores, start_info_members. cbn [fmap list_fmap fst snd].
    repeat match goal with
      | |- ForallOrdPairs _ _ => constructor
      | |- Forall _ (_ :: _) => apply Forall_cons; split
      | |- Forall _ [] => by apply Forall_nil
      | |- apart (_, bytes_of ?n ?x) _ => left; cbn [fst snd]; change (zlen (bytes_of n x)) with (Z.of_nat n); lia
      end. }
  split.
  - apply Forall_forall. intros s Hs. apply elem_of_app in Hs as [Hs|[->|[Hs|Hs]%elem_of_app]%elem_of_cons].
    + destruct (H1 s Hs) as [[? ?]|[? ?]]; unfold within, pha, cla, argv in *; lia.
    + split; cbn [fst snd]; [|change (zlen (bytes_of 8 0)) with 8]; unfold cla, argv in *; lia.
    + destruct (H3 s Hs). unfold within, pha, cla, argv in *. lia.
    + destruct (H4 s Hs). unfold within, pha, cla, argv in *. lia.
  - apply pairs_app; [apply argument_stores_apart; unfold cla; lia| |].
    + constructor; [|apply pairs_app; [apply header_stores_apart|done|]].
      * apply Forall_forall. intros t [Ht|Ht]%elem_of_app; [destruct (H3 t Ht); left|destruct (H4 t Ht); right]; cbn [fst snd]; try (change (zlen (bytes_of 8 0)) with 8); unfold pha, cla, argv in *; lia.
      * intros s t Hs Ht. destruct (H3 s Hs), (H4 t Ht). right. unfold pha, cla, argv in *. lia.
    + intros s t Hs Ht. destruct (H1 s Hs) as [[? ?]|[? ?]]; apply elem_of_cons in Ht as [->|[Ht|Ht]%elem_of_app];
        [|destruct (H3 t Ht)|destruct (H4 t Ht)| |destruct (H3 t Ht)|destruct (H4 t Ht)]; unfold apart; cbn [fst snd]; try (change (zlen (bytes_of 8 0)) with 8); unfold pha, cla, argv in *; lia.
Qed.

Lemma area_positive args phs : area_content args phs < area_size args phs /\ area_size args phs mod 4096 = 0 /\ 0 < area_content args phs.
Proof using.
  pose proof (cla_nonneg args). pose proof (zlen_nonneg args). pose proof (zlen_nonneg phs). unfold area_size. split; [Z.to_euclidean_division_equations; lia|]. split; [by apply Z.mod_mul|].
  unfold area_content, START_INFO_SIZE, POINTER_SIZE, PH_SIZE. lia.
Qed.

(** The stack and the bootstrap area: everything the application finds is there, or nothing was mapped. *)
Lemma setup_result m file args : ok m -> 0 <= area_begin args (program_headers file) ->
  exists r m', setup_bootstrap_area m file args STACK_SIZE = Some (r, m') /\ same_but m m' (fun x => area_begin args (program_headers file) <= x)
    /\ match r with
       | Some info => info = area_begin args (program_headers file) + STACK_SIZE /\ started byte_at m' (um_loaded m) info file args
           /\ forall x, area_begin args (program_headers file) <= x < USER_LIMIT -> flags_at m' (um_loaded m) x = Some 7
       | None => True
       end.
Proof using MemoryLaws0.
  intros Hm Hroom. set (phs := program_headers file) in *. destruct (area_positive args phs) as (Hc & Hal & Hpos). unfold setup_bootstrap_area. fold phs. change (START_INFO_SIZE + (zlen args + 1) * POINTER_SIZE + cla_size args + zlen phs * PH_SIZE) with (area_content args phs).
  unfold area_begin, STACK_SIZE in *. rewrite align_up by (unfold USER_LIMIT in *; word_lia). fold (area_size args phs). cbn [mbind option_bind].
  rewrite ml_end, canonical_below by lia. set (begin := USER_LIMIT - (16 * 1024 + area_size args phs)) in *. unfold cdiv. destruct (decide (PAGE_SIZE = 0)); [done|]. cbn [mbind option_bind]. change PAGE_SIZE with 4096.
  change (Z.lor _ _) with 7. set (k := (16 * 1024 + area_size args phs) / 4096). assert (begin + k * 4096 = USER_LIMIT) as Hn by (unfold begin, k, USER_LIMIT; Z.to_euclidean_division_equations; lia).
  destruct (ml_allocate m begin 7 k Hm) as (r & m1 & -> & Hs1 & Hf1); [unfold begin, USER_LIMIT; Z.to_euclidean_division_equations; lia|lia|unfold k; Z.to_euclidean_division_equations; lia|lia|lia|done|].
  cbn [mbind option_bind]. rewrite Hn in *. assert (same_but m m1 (fun x => begin <= x)) as Hs1' by (eapply same_mono; [|done]; cbn; lia).
  destruct r; cbn [negb]; [|exists None, m1; done]. specialize (Hf1 eq_refl). pose proof (sb_loaded _ _ _ _ _ _ _ Hs1) as Hl1. pose proof (sb_ok _ _ _ _ _ _ _ Hs1) as Hm1.
  set (info := begin + 16 * 1024). change START_INFO_SIZE with 72. change POINTER_SIZE with 8. rewrite argument_loop_stores.
  assert (writable flags_at m1 info (USER_LIMIT - info)) as Hw by (intros x Hx; exists 7; rewrite Hl1; split; [apply Hf1; unfold info in Hx; lia|done]).
  assert (info + area_content args phs <= USER_LIMIT) as Hfit by (unfold info, begin; lia).
  destruct (area_stores_result info file args info USER_LIMIT (Z.le_refl _) Hfit) as [Hin Hap]. assert (0 <= info) as Hinfo by (unfold info; lia).
  destruct (store_list_result ok space byte_at flags_at info USER_LIMIT (area_stores info file args) m1 Hm1 Hinfo) as (m2 & E & Hw2 & Hh); [lia|done|done|done|].
  exists (Some info), m2. split; [|split; [|split; [done|split]]].
  - revert E. unfold area_stores. fold phs. rewrite store_list_app. destruct (store_list m1 _) as [m3|]; [|done]. cbn [mbind option_bind store_list]. rewrite Z.add_0_l.
    destruct (um_store m3 _ _) as [m4|]; [|done]. cbn [mbind option_bind]. rewrite store_list_app, header_loop_stores. destruct (store_list m4 _) as [m5|]; [|done]. cbn [mbind option_bind]. rewrite members_stores. by intros ->.
  - eapply same_trans; [done|]. eapply same_mono; [|exact (proj1 Hw2)]. unfold info. cbn. lia.
  - rewrite Hl1 in Hh. unfold area_stores, start_info_members in Hh. fold phs in Hh. set (argv := info + 72) in *. set (cla := argv + (zlen args + 1) * 8) in *. set (pha := cla + cla_size args) in *. pose proof (cla_nonneg args) as Hcn. pose proof (zlen_nonneg args) as Han. pose proof (zlen_nonneg phs) as Hpn.
    assert (forall a bs, (a, bs) ∈ member_stores info (start_info_members info (zlen args) argv pha (zlen phs) (entry (header file))) -> has byte_at m2 (um_loaded m) a bs) as Hmem by (intros a bs Ha; apply Hh; apply elem_of_app; right; right; apply elem_of_app; by right).
    assert (info + area_content args phs = pha + 56 * zlen phs) as Hareas by (unfold area_content, START_INFO_SIZE, POINTER_SIZE, PH_SIZE, pha, cla, argv; lia).
    constructor.
    + unfold START_INFO_SIZE, pha, cla, argv in *. lia.
    + rewrite <- (Z.add_0_r info). apply Hmem. left.
    + exists argv. split; [unfold pha, cla, argv in *; lia|]. split; [apply Hmem; right; left|]. split; [apply Hh; rewrite (Z.mul_comm 8); apply elem_of_app; right; left|]. intros i s Hk.
      destruct (argument_stores_elem argv cla args 0 0 i s Hk) as (p & Hp1 & Hp2 & Hi1 & Hi2). exists p. split.
      { unfold pha, cla, argv in *. lia. }
      rewrite (Z.mul_comm 8). split; apply Hh, elem_of_app; left; [by rewrite Z.add_0_l in Hi1|done].
    + exists pha. split; [fold phs; unfold pha, cla, argv in *; lia|]. split; [apply Hmem; do 4 right; left|]. split; [apply Hmem; do 6 right; left|]. intros i p Hk. apply Hh, elem_of_app. right. right. apply elem_of_app. left.
      pose proof (header_stores_elem pha phs 0 i p Hk) as Hi. by rewrite Z.add_0_r in Hi.
    + apply Hmem. do 7 right. left.
  - intros x Hx. rewrite <- Hl1, (proj2 Hw2) by lia. rewrite Hl1. by apply Hf1.
Qed.
End bootstrap.
End Bootstrap.

(** ** Loading *)
Module Loading.
Import Reader Headers UserSpace Segments Bootstrap.

(** What the theorem asks of an executable besides its headers. *)
Record loadable (content : list Z) (phs : list ELF64ProgramHeader) (args : list (list Z)) : Prop := {
  ld_fits : Forall (fits content (area_begin args phs)) (loads phs);
  ld_apart : ForallOrdPairs bytes_apart (loads phs);
  ld_room : 0 <= area_begin args phs }.

Section loading.
Context {N : Type} `{StreamNode N, SeekNode N} (content : list Z) (at_ : N -> Z -> Prop) `{!FileLaws N content at_}.
Context {M : Type} `{UserMemory M} (ok : M -> Prop) (space : M -> Z -> Prop) (byte_at flags_at : M -> Z -> Z -> option Z) `{!MemoryLaws M ok space byte_at flags_at}.

Abbreviation same_but := (same_but ok space byte_at flags_at).
Abbreviation writes := (writes ok space byte_at flags_at).
Abbreviation switched := (switched ok space byte_at flags_at).

Lemma started_keep m m' b info file args : (forall a bs, info <= a -> a + zlen bs <= USER_LIMIT -> has byte_at m b a bs -> has byte_at m' b a bs) ->
  started byte_at m b info file args -> started byte_at m' b info file args.
Proof using.
  intros Hk [Hr Hc (argv & Ha & Hb & Hn & Hs) (phs & Hp & Hq & Hl & Hph) Hm]. unfold START_INFO_SIZE in *. pose proof (zlen_nonneg args). pose proof (zlen_nonneg (program_headers file)).
  assert (forall k x, zlen (bytes_of k x) = Z.of_nat k) as Hbl by (intros; unfold zlen; by rewrite bytes_len). constructor.
  - done.
  - apply Hk; [lia|rewrite Hbl; lia|done].
  - exists argv. split; [done|]. split; [apply Hk; [lia|rewrite Hbl; lia|done]|]. split; [apply Hk; [lia|rewrite Hbl; lia|done]|]. intros k s Hks. destruct (Hs k s Hks) as (p & Hpr & H1' & H2'). exists p. pose proof (lookup_lt_Some _ _ _ Hks).
    split; [done|]. split; apply Hk; [lia|rewrite Hbl; unfold zlen in *; lia|done|lia|rewrite zlen_snoc; lia|done].
  - exists phs. split; [done|]. split; [apply Hk; [lia|rewrite Hbl; lia|done]|]. split; [apply Hk; [lia|rewrite Hbl; lia|done]|]. intros k p Hkp. pose proof (lookup_lt_Some _ _ _ Hkp).
    apply Hk; [lia|change (zlen (program_header_bytes p)) with 56; unfold zlen in *; lia|by apply Hph].
  - apply Hk; [lia|rewrite Hbl; lia|done].
Qed.

Lemma space_entered keep m : ok m -> exists r m', enter_space keep m = Some (r, m')
  /\ forall b, r = Some b -> switched m m' b /\ space m' b /\ (if keep : bool then b = um_loaded m else ~ space m b).
Proof.
  intros Hm. unfold enter_space. destruct keep.
  { exists (Some (um_loaded m)), m. split; [done|]. intros b [= <-]. split; [by constructor|]. split; [by apply ml_space|done]. }
  destruct (ml_new m Hm) as (r & m1 & -> & Hs1 & Hr). cbn [mbind option_bind]. destruct r as [b|]; [|exists None, m1; done]. destruct (Hr b eq_refl) as (Hb1 & Hb2 & _).
  destruct (ml_load_space m1 b (sw_ok _ _ _ _ _ _ _ Hs1) Hb1) as (m2 & -> & Hs2). cbn [mbind option_bind]. exists (Some b), m2. split; [done|]. intros ? [= <-]. split; [|split; [by apply (sw_spaces _ _ _ _ _ _ _ Hs2)|done]].
  constructor; [exact (sw_ok _ _ _ _ _ _ _ Hs2)|exact (sw_loaded _ _ _ _ _ _ _ Hs2)|intros; apply (sw_spaces _ _ _ _ _ _ _ Hs2); by apply (sw_spaces _ _ _ _ _ _ _ Hs1)|].
  intros c x Hc Hx. destruct (sw_view _ _ _ _ _ _ _ Hs1 c x Hc Hx) as [<- <-]. apply (sw_view _ _ _ _ _ _ _ Hs2); [by apply (sw_spaces _ _ _ _ _ _ _ Hs1)|done].
Qed.

(** The image of an executable in the address space [b]. *)
Record image (m : M) (b : Z) (h : ELF64Header) (phs : list ELF64ProgramHeader) (args : list (list Z)) (out : Loaded) : Prop := {
  im_elf : elf out = mkFile h phs UNKNOWN 0 0 0;
  im_segments : Forall (fun p => has byte_at m b (virtual_address p) (segment_bytes content p)) (loads phs);
  im_started : started byte_at m b (start_info_addr out) (elf out) args;
  im_stack : stack_bottom out = area_begin args phs /\ start_info_addr out = stack_bottom out + STACK_SIZE /\ stack_top out = start_info_addr out - 8
    /\ has byte_at m b (stack_top out) (bytes_of 8 0) /\ forall x, stack_bottom out <= x < USER_LIMIT -> flags_at m b x = Some 7;
  im_heap : heap_start out = heap_of phs 0 /\ heap_limit out = heap_of phs 0 }.

(** The segments and the bootstrap area, in the loaded address space. *)
Lemma build_result m h phs args l pos : ok m -> reading content at_ l pos -> zlen content < 2 ^ 31 -> loadable content phs args ->
  exists r h1 m1, allocate_segments m phs 0 = Some (r, h1, m1) /\ (r = true -> h1 = heap_of phs 0 /\
  exists m2 l2, load_segments m1 phs l = Some (true, m2, l2) /\
  exists r3 m3, setup_bootstrap_area m2 (mkFile h phs UNKNOWN 0 0 0) args STACK_SIZE = Some (r3, m3) /\ (forall info, r3 = Some info ->
  exists m4, setup_empty_stack m3 info = Some (info - 8, m4) /\ same_but m m4 (fun x => covers phs x \/ area_begin args phs <= x)
    /\ forall c l', image m4 (um_loaded m) h phs args (mkLoaded (mkFile h phs UNKNOWN 0 0 0) c h1 h1 (info - STACK_SIZE) (info - 8) l' info))).
Proof.
  intros Hm Hrd Hsize [Hfits Hapart Hroom]. destruct (area_positive args phs) as (Hac & _ & Hapos).
  assert (area_begin args phs + 4096 <= USER_LIMIT) as Htop by (unfold area_begin, STACK_SIZE; lia).
  destruct (segments_mapped content ok space byte_at flags_at (area_begin args phs) Htop phs m [] 0 Hm) as (r & h1 & m1 & E1 & Hs1 & Hr1); [constructor|done|]. exists r, h1, m1. split; [done|]. intros ->.
  destruct (Hr1 eq_refl) as [-> Hf1]. split; [done|]. pose proof (sb_loaded _ _ _ _ _ _ _ Hs1) as Hl1. assert (forall x, ~ covers [] x) as Hnil by (by intros x (q & Hq%not_elem_of_nil & _)).
  assert (forall x, covers phs x -> 0 <= x < USER_LIMIT) as Hcu by (intros x (q & Hq & Hx); rewrite Forall_forall in Hfits; destruct (fits_range content _ Htop q (Hfits q Hq)); lia).
  destruct (load_result content at_ ok space byte_at flags_at (area_begin args phs) Htop Hsize phs m1 l pos (sb_ok _ _ _ _ _ _ _ Hs1) Hrd Hfits Hapart) as (m2 & l2 & pos2 & E2 & Hrd2 & Hw2 & _ & Hseg).
  { intros x Hx. rewrite Hl1. apply Hf1; [auto|by right]. }
  exists m2, l2. split; [done|]. pose proof (sb_loaded _ _ _ _ _ _ _ (proj1 Hw2)) as Hl2. pose proof (sb_ok _ _ _ _ _ _ _ (proj1 Hw2)) as Hm2.
  destruct (setup_result ok space byte_at flags_at m2 (mkFile h phs UNKNOWN 0 0 0) args Hm2 Hroom) as (r3 & m3 & E3 & Hs3 & Hr3). exists r3, m3. split; [done|]. intros info ->. destruct Hr3 as (Hinfo & Hst & Hf3). cbn [program_headers] in *.
  pose proof (sb_loaded _ _ _ _ _ _ _ Hs3) as Hl3. pose proof (sb_ok _ _ _ _ _ _ _ Hs3) as Hm3. unfold STACK_SIZE in *. pose proof (st_room _ _ _ _ _ _ Hst) as Hir. unfold START_INFO_SIZE in Hir.
  destruct (um_store_result ok space byte_at flags_at m3 (info - 8) (bytes_of 8 0) Hm3) as (m4 & E4 & Hw4 & Hh4); [lia|change (zlen (bytes_of 8 0)) with 8; lia| |].
  { intros x Hx. change (zlen (bytes_of 8 0)) with 8 in Hx. exists 7. split; [rewrite Hl3; apply Hf3; lia|done]. }
  change (zlen (bytes_of 8 0)) with 8 in Hw4. exists m4. split; [unfold setup_empty_stack; by rewrite E4|]. pose proof (ml_space m Hm) as Hsp.
  assert (space m2 (um_loaded m)) as Hsp2 by (apply (sb_spaces _ _ _ _ _ _ _ (proj1 Hw2)); by apply (sb_spaces _ _ _ _ _ _ _ Hs1)). assert (space m3 (um_loaded m)) as Hsp3 by by apply (sb_spaces _ _ _ _ _ _ _ Hs3). split.
  { eapply same_trans; [eapply same_mono; [|exact Hs1]; cbn; intros x [?%Hnil|?]; [done|by left]|]. eapply same_trans; [eapply same_mono; [|exact (proj1 Hw2)]; cbn; auto|]. eapply same_trans; [eapply same_mono; [|exact Hs3]; cbn; auto|]. eapply same_mono; [|exact (proj1 Hw4)]. cbn. intros x Hx. right. lia. }
  rewrite Hl3, Hl2, Hl1 in *. intros c l'. constructor; cbn [elf start_info_addr stack_bottom stack_top heap_start heap_limit]; [done| | | |done].
  - eapply Forall_impl; [apply Forall_and; split; [exact Hseg|exact Hfits]|]. cbn. intros p [Hh Hp]. pose proof (segment_len content (area_begin args phs) p Hp) as Hlen. destruct Hp as [Hva Hfi Htp _ _].
    eapply has_same; [exact (proj1 Hw4)|done|lia|rewrite Hlen; lia|right; rewrite Hlen; lia|]. eapply has_same; [exact Hs3|done|lia|rewrite Hlen; lia|right; rewrite Hlen; lia|done].
  - eapply started_keep; [|exact Hst]. intros a bs Ha Hb Hh. eapply has_same; [exact (proj1 Hw4)|done|lia|done|right; lia|done].
  - unfold STACK_SIZE. split; [lia|]. split; [lia|]. split; [done|]. split; [done|]. intros x Hx. pose proof (proj2 Hw4 x) as Hf4. rewrite Hl3 in Hf4. rewrite Hf4 by lia. apply Hf3. lia.
Qed.

Lemma image_keep m m' b h phs args out : switched m m' (um_loaded m') -> space m b -> loadable content phs args -> image m b h phs args out -> image m' b h phs args out.
Proof using.
  intros Hs Hb [Hfits _ Hroom] [He Hseg Hst (Hsb & Hsi & Hstp & Hz & Hf) Hh]. destruct (area_positive args phs) as (Hac & _ & Hapos). pose proof (st_room _ _ _ _ _ _ Hst) as Hir. unfold START_INFO_SIZE, STACK_SIZE in *.
  constructor; [done| | |split; [done|]; split; [done|]; split; [done|]; split|done].
  - eapply Forall_impl; [apply Forall_and; split; [exact Hseg|exact Hfits]|]. cbn. intros p [Hh' Hp]. pose proof (segment_len content (area_begin args phs) p Hp) as Hlen. destruct Hp as [Hva Hfi Htp _ _].
    eapply has_switched; [exact Hs|done|lia|rewrite Hlen; unfold area_begin, STACK_SIZE in *; lia|done].
  - eapply started_keep; [|exact Hst]. intros a bs Ha Hb' Hh'. eapply has_switched; [exact Hs|done|lia|done|done].
  - eapply has_switched; [exact Hs|done|lia|change (zlen (bytes_of 8 0)) with 8; lia|done].
  - intros x Hx. destruct (sw_view _ _ _ _ _ _ _ Hs b x Hb) as [_ ->]; [lia|by apply Hf].
Qed.

Lemma switched_refl m b : ok m -> um_loaded m = b -> switched m m b.
Proof using. by constructor. Qed.

(** C11: Loading a well formed executable builds its image: each segment has the bytes of the file and then zeros,
    the application finds its arguments, program headers and entry at its start information, the stack
    is mapped below it, the heap starts behind the segments, the caller's address space is loaded again and
    nothing else has changed; only missing memory stops it. *)
Theorem load_builds_image m n ident h phs args keep :
  ok m -> at_ n 0 -> executable content (um_user_space_end m) ident h phs -> loadable content phs args ->
  exists r m' n', load m (Some n) args keep = Some (r, m', Some n') /\
    match r with
    | inr out => exists b, base_page_table_address out = b /\ image m' b h phs args out
        /\ um_loaded m' = um_loaded m /\ (if keep : bool then b = um_loaded m else ~ space m b)
        /\ forall c x, space m c -> 0 <= x < USER_LIMIT -> c <> b \/ ~ covers phs x /\ x < area_begin args phs -> byte_at m' c x = byte_at m c x /\ flags_at m' c x = flags_at m c x
    | inl status => status = MEMORY_ERROR
    end.
Proof.
  intros Hm Ha Hex Hld. unfold load. destruct (load_elf_file_result content at_ _ ident h phs _ Hex (fresh_reading content at_ n Ha)) as (l & pos & -> & Hrd). cbn [mbind option_bind].
  destruct (space_entered keep m Hm) as (b & m1 & -> & Hb). cbn [mbind option_bind]. destruct b as [b|]; [|by eexists _, _, _].
  destruct (Hb b eq_refl) as (Hs1 & Hsp & Hkeep). clear Hb. pose proof (sw_loaded _ _ _ _ _ _ _ Hs1) as Hl1. pose proof (ml_space m Hm) as Hsm. cbn [program_headers].
  destruct (build_result m1 h phs args l pos (sw_ok _ _ _ _ _ _ _ Hs1) Hrd (ex_size _ _ _ _ _ Hex) Hld) as (r & h1 & m2 & -> & Hr). cbn [mbind option_bind]. destruct r; cbn [negb]; [|by eexists _, _, _].
  destruct (Hr eq_refl) as (-> & m3 & l3 & -> & r3 & m4 & E4 & Hinfo). cbn [mbind option_bind negb]. rewrite E4. cbn [mbind option_bind]. destruct r3 as [info|]; [|by eexists _, _, _].
  destruct (Hinfo info eq_refl) as (m5 & -> & Hs5 & Him). cbn [mbind option_bind]. pose proof (sb_loaded _ _ _ _ _ _ _ Hs5) as Hl5. rewrite Hl1 in *. eexists _, _, _. split; [done|]. exists b. split; [done|].
  assert (switched m5 (if keep then m5 else um_load_base m5 (um_loaded m)) (um_loaded m)) as Hs6.
  { destruct keep; [apply switched_refl; [exact (sb_ok _ _ _ _ _ _ _ Hs5)|congruence]|]. apply ml_load_base; [exact (sb_ok _ _ _ _ _ _ _ Hs5)|]. apply (sb_spaces _ _ _ _ _ _ _ Hs5). by apply (sw_spaces _ _ _ _ _ _ _ Hs1). }
  pose proof (sw_loaded _ _ _ _ _ _ _ Hs6) as Hl6. set (m6 := if keep then m5 else _) in *. split; [|split; [done|split; [done|]]].
  - eapply (image_keep m5); [by rewrite Hl6|by apply (sb_spaces _ _ _ _ _ _ _ Hs5)|done|apply Him].
  - intros c x Hc Hx Hor. destruct (sw_view _ _ _ _ _ _ _ Hs1 c x Hc Hx) as [<- <-]. pose proof (sw_spaces _ _ _ _ _ _ _ Hs1 c Hc) as Hc1.
    destruct (sb_view _ _ _ _ _ _ _ Hs5 c x Hc1 Hx) as [<- <-]; [rewrite Hl1; destruct Hor as [?|[? ?]]; [by left|right; intros [?|?]; [done|lia]]|].
    apply (sw_view _ _ _ _ _ _ _ Hs6); [by apply (sb_spaces _ _ _ _ _ _ _ Hs5)|done].
Qed.
End loading.
End Loading.

(** ** Files that nobody checked *)
Module Untrusted.
Import Reader Headers UserSpace.

(** The header at 16, and the [k]th entry of the table it names, filled up with zeros. *)
Definition header_of (content : list Z) : ELF64Header := as_header (take 48 (drop 16 content)).

Definition table_entry (content : list Z) (k : nat) : ELF64ProgramHeader :=
  let h := header_of content in let bytes := take (Z.to_nat (ph_entry_size h)) (rest content (to_int (ph_offset h) + Z.of_nat k * ph_entry_size h)) in
  as_program_header (bytes ++ drop (length bytes) (replicate 56 0)).

(** A segment starts below the limit and, with the 64-bit sum of address and size, ends below it. *)
Definition below_limit (uend : Z) (p : ELF64ProgramHeader) : Prop :=
  virtual_address p <= uend /\ (virtual_address p + memory_size p) mod 2 ^ 64 <= uend.

Lemma not_in_kernel uend p : in_kernel uend p = false -> below_limit uend p.
Proof. unfold in_kernel, below_limit, u64, wrap. intros [E1%Z.ltb_ge E2%Z.ltb_ge]%orb_false_iff. by split. Qed.

(** What a file that is accepted has: the magic, the type, its entry below the limit, and a table whose entries are
    there and below the limit. *)
Record checked (content : list Z) (uend : Z) (f : ELF64File) : Prop := {
  ck_magic : take 4 content = [0x7F; 69; 76; 70];
  ck_header : header f = header_of content;
  ck_type : h_type (header f) = EXEC;
  ck_entry : entry (header f) <= uend;
  ck_count : zlen (program_headers f) = ph_count (header f) /\ program_headers f <> [];
  ck_table : forall k p, program_headers f !! k = Some p -> p = table_entry content k;
  ck_limit : Forall (below_limit uend) (program_headers f) }.

Section untrusted.
Context {N : Type} `{StreamNode N, SeekNode N} (content : list Z) (at_ : N -> Z -> Prop) `{!FileLaws N content at_}.
Context (Hbytes : Forall (in_width 8) content).
Implicit Types (l : ELFLoader N).

Lemma field_range bs off n : Forall (in_width 8) bs -> 0 <= field bs off n < 256 ^ Z.of_nat n.
Proof using.
  intros Hb. unfold field. assert (Forall (in_width 8) (take n (drop off bs))) as Ht by by apply Forall_take, Forall_drop. assert (length (take n (drop off bs)) <= n)%nat as Hl by (rewrite length_take; lia).
  revert Ht Hl. generalize (take n (drop off bs)). clear. intros bs. revert n. induction bs as [|b bs IH]; intros n Ht Hl; [cbn; pose proof (Z.pow_pos_nonneg 256 (Z.of_nat n)); lia|].
  apply Forall_cons in Ht as [Hb Ht]. destruct n as [|n]; [cbn in Hl; lia|]. cbn [number length] in *. specialize (IH n Ht ltac:(lia)). rewrite Nat2Z.inj_succ, Z.pow_succ_r by lia. unfold in_width in Hb. change (2 ^ 8) with 256 in Hb. lia.
Qed.

Lemma header_range : 0 <= ph_offset (header_of content) < 2 ^ 64 /\ 0 <= ph_entry_size (header_of content) < 2 ^ 16 /\ 0 <= ph_count (header_of content) < 2 ^ 16.
Proof using Hbytes.
  assert (Forall (in_width 8) (take 48 (drop 16 content))) as Hb by by apply Forall_take, Forall_drop. unfold header_of, as_header. cbn [ph_offset ph_entry_size ph_count].
  pose proof (field_range _ 16 8 Hb). pose proof (field_range _ 38 2 Hb). pose proof (field_range _ 40 2 Hb). word_lia.
Qed.

(** A read at any place: the bytes that are there. *)
Lemma read_at l pos n : reading content at_ l pos -> 0 <= n < 2 ^ 16 ->
  exists l', read_bytes n l = Some (take (Z.to_nat n) (rest content pos), l') /\ reading content at_ l' (Z.min (pos + n) (zlen content))
    /\ (n <= zlen (take (Z.to_nat n) (rest content pos)) -> pos + n <= zlen content).
Proof.
  intros Hrd Hn. destruct (read_bytes_result content at_ n l pos Hrd Hn) as (l' & E & Hrd'). exists l'. split; [done|]. split; [done|]. intros Hle.
  pose proof (rest_len content pos (rd_pos _ _ _ _ Hrd)). unfold zlen in *. rewrite length_take in Hle. lia.
Qed.

Lemma table_loop_result uend esz off n : 0 <= esz <= PH_SIZE -> forall l k acc note, let entry_at k := as_program_header (take (Z.to_nat esz) (rest content (off + Z.of_nat k * esz)) ++ drop (length (take (Z.to_nat esz) (rest content (off + Z.of_nat k * esz)))) (replicate 56 0)) in
  reading content at_ l (off + Z.of_nat k * esz) -> (forall nt, note = Some nt -> exists j, (j < k + n)%nat /\ nt = entry_at j /\ p_type nt = NOTE) ->
  (forall i p, acc !! i = Some p -> p = entry_at i) -> length acc = k -> Forall (fun p => in_kernel uend p = false) acc ->
  exists r l', program_header_loop n uend esz acc note l = Some (r, l') /\
    match r with
    | Some (phs, nt) => (exists pos, reading content at_ l' pos) /\ length phs = (k + n)%nat /\ (forall i p, phs !! i = Some p -> p = entry_at i) /\ Forall (fun p => in_kernel uend p = false) phs
        /\ (forall p, nt = Some p -> exists j, (j < k + n)%nat /\ p = entry_at j /\ p_type p = NOTE)
    | None => True
    end.
Proof.
  intros Hesz. induction n as [|n IH]; intros l k acc note entry_at Hrd Hnote Hacc Hlen Hlim; cbn [program_header_loop].
  { eexists _, l. split; [done|]. split; [by exists (off + Z.of_nat k * esz)|]. by rewrite Nat.add_0_r in *. }
  unfold read_program_header, PH_SIZE in *. destruct (read_at l _ esz Hrd) as (l1 & -> & Hrd1 & Hle); [word_lia|]. cbn [mbind option_bind].
  set (bs := take (Z.to_nat esz) (rest content (off + Z.of_nat k * esz))) in *. assert (zlen bs <= esz) as Hbs by (unfold bs, zlen; rewrite length_take; lia).
  rewrite (proj2 (Z.ltb_ge 56 (zlen bs))) by lia. destruct (Z.ltb_spec (zlen bs) esz) as [E|E]; cbn [mbind option_bind]; [by exists None, l1|].
  change (as_program_header (bs ++ drop (length bs) (replicate 56 0))) with (entry_at k). destruct (in_kernel uend (entry_at k)) eqn:Ek; [by exists None, l1|].
  rewrite Z.min_l in Hrd1 by (by apply Hle). replace (off + Z.of_nat k * esz + esz) with (off + Z.of_nat (S k) * esz) in Hrd1 by lia.
  destruct (IH l1 (S k) (acc ++ [entry_at k]) (if p_type (entry_at k) =? NOTE then Some (entry_at k) else note) Hrd1) as (r & l2 & E2 & Hr).
  - destruct (Z.eqb_spec (p_type (entry_at k)) NOTE) as [Ent|Ent].
    + intros nt [= <-]. exists k. split; [lia|done].
    + intros nt Hnt. destruct (Hnote nt Hnt) as (j & Hj & Hj2). exists j. split; [lia|done].
  - intros i p [Hi|[Hi1 Hi2]]%lookup_app_Some; [by apply Hacc|]. destruct (i - length acc)%nat as [|?] eqn:Ei; [|done]. injection Hi2 as <-. by replace i with k by lia.
  - rewrite length_app, Hlen. cbn. lia.
  - apply Forall_app. split; [done|]. by repeat constructor.
  - exists r, l2. split; [done|]. replace (k + S n)%nat with (S k + n)%nat by lia. done.
Qed.

Lemma magic_result : IDENT_SIZE <= zlen (take 16 content) -> let i := as_ident (take 16 content) in
  (mag_0 i =? 0x7F) && (mag_1 i =? 69) && (mag_2 i =? 76) && (mag_3 i =? 70) = true -> take 4 content = [0x7F; 69; 76; 70].
Proof using.
  clear Hbytes FileLaws0 at_. intros Hl i Hm. unfold i, as_ident in Hm. cbn [mag_0 mag_1 mag_2 mag_3] in Hm. destruct content as [|a [|b [|c [|d r]]]]; try (unfold IDENT_SIZE, zlen in Hl; cbn in Hl; lia).
  rewrite !andb_true_iff, !Z.eqb_eq in Hm. change ((((a + 256 * 0 = 0x7F) /\ (b + 256 * 0 = 69)) /\ (c + 256 * 0 = 76)) /\ (d + 256 * 0 = 70)) in Hm. cbn. destruct Hm as [[[? ?] ?] ?]. repeat f_equal; lia.
Qed.

Lemma vendor_status ph order l s l' : parse_vendor_information ph order l = Some (inl s, l') -> s = BAD_VENDOR_INFO.
Proof using.
  unfold parse_vendor_information. destruct (seek _ _) as [good l1]. destruct good; cbn [negb]; [|by intros [= <- <-]].
  intros E. repeat (apply bind_Some in E as (? & _ & E) || (destruct x; []) || (case_match; try by injection E as <- <-)); done.
Qed.

(** Table entries larger than a program header are not read. *)
Lemma large_entries uend esz l pos n acc note : PH_SIZE < esz < 2 ^ 16 -> (0 < n)%nat -> reading content at_ l pos ->
  program_header_loop n uend esz acc note l = None \/ exists l', program_header_loop n uend esz acc note l = Some (None, l').
Proof.
  intros Hesz Hn Hrd. destruct n as [|n]; [lia|]. cbn [program_header_loop]. unfold read_program_header. unfold PH_SIZE in *. destruct (read_at l pos esz Hrd) as (l1 & -> & _); [lia|]. cbn [mbind option_bind].
  destruct (56 <? _) eqn:E; [by left|]. apply Z.ltb_ge in E. rewrite (proj2 (Z.ltb_lt _ esz)) by lia. right. by exists l1.
Qed.

(** C19: Whatever bytes a file holds, reading its headers ends with an error or with headers that were checked: the
    magic and the type are right, the entry and the start of every segment are at most the limit of user space,
    and so is its end, the sum of address and size in 64 bits (which may have wrapped around).  The only files whose
    reading is undefined are those whose table entries are larger than a program header, which overrun it, and
    those with a note. *)
Theorem any_file_is_checked uend n : at_ n 0 ->
  match load_elf_file uend (mkLoader 0 0 (replicate 8192 0) n) with
  | Some (inr f, _) => checked content uend f
  | Some (inl s, _) => s = BAD_HEADER \/ s = BAD_SEGMENT \/ s = BAD_VENDOR_INFO
  | None => PH_SIZE < ph_entry_size (header_of content) \/ exists k, (k < Z.to_nat (ph_count (header_of content)))%nat /\ p_type (table_entry content k) = NOTE
  end.
Proof.
  intros Ha. pose proof (fresh_reading content at_ n Ha) as Hrd. unfold load_elf_file. destruct (read_at _ _ IDENT_SIZE Hrd) as (l1 & -> & Hrd1 & Hle1); [unfold IDENT_SIZE; lia|]. cbn [mbind option_bind].
  change (rest content 0) with content in *. change (Z.to_nat IDENT_SIZE) with 16%nat in *. destruct (Z.ltb_spec (zlen (take 16 content)) IDENT_SIZE) as [?|E16]; [by left|].
  specialize (Hle1 E16). rewrite Z.min_l in Hrd1 by done. change (0 + IDENT_SIZE) with 16 in *.
  destruct (negb _) eqn:Em; [by left|]. destruct (_ =? 0); [by left|]. destruct (_ =? ELF32); [by left|]. apply negb_false_iff in Em.
  destruct (read_at l1 16 (HEADER_SIZE - IDENT_SIZE) Hrd1) as (l2 & -> & Hrd2 & Hle2); [unfold HEADER_SIZE, IDENT_SIZE; lia|]. cbn [mbind option_bind]. change (Z.to_nat (HEADER_SIZE - IDENT_SIZE)) with 48%nat in *.
  change (rest content 16) with (drop 16 content) in *. fold (header_of content).
  destruct (Z.ltb_spec (zlen (take 48 (drop 16 content))) (HEADER_SIZE - IDENT_SIZE)) as [?|E48]; [by left|]. specialize (Hle2 E48). rewrite Z.min_l in Hrd2 by done.
  destruct (Z.eqb_spec (h_type (header_of content)) EXEC) as [Et|Et]; cbn [negb]; [|by left]. destruct (Z.ltb_spec uend (entry (header_of content))) as [?|Een]; [by left|].
  destruct header_range as (Hoff & Hesz & Hcnt). destruct (seek_result content at_ l2 _ (ph_offset (header_of content)) Hrd2) as (good & l3 & -> & Hrd3 & _). destruct good; cbn [negb]; [|by right; left].
  specialize (Hrd3 eq_refl). destruct (Z.lt_ge_cases PH_SIZE (ph_entry_size (header_of content))) as [Hbig|Hfit].
  { destruct (Z.to_nat (ph_count (header_of content))) as [|c] eqn:Ec; [cbn; by right; left|].
    destruct (large_entries uend (ph_entry_size (header_of content)) l3 (to_int (ph_offset (header_of content))) (S c) [] None) as [->|[l' ->]]; [lia|lia|exact Hrd3|left; exact Hbig|by right; left]. }
  destruct (table_loop_result uend _ (to_int (ph_offset (header_of content))) (Z.to_nat (ph_count (header_of content))) (conj (proj1 Hesz) Hfit) l3 0 [] None) as (r & l4 & -> & Hr);
    [by rewrite Z.mul_0_l, Z.add_0_r|done|done|done|by constructor|]. cbn [mbind option_bind]. destruct r as [[phs nt]|]; [|by right; left]. destruct Hr as ([pos4 Hrd4] & Hlen & Htab & Hlim & Hnote). rewrite Nat.add_0_l in *.
  destruct phs as [|p phs]; [by right; left|].
  assert (forall v ma mi pa, checked content uend (mkFile (header_of content) (p :: phs) v ma mi pa)) as Hck.
  { intros v ma mi pa. constructor; cbn [header program_headers]; [|done|done|done| |exact Htab|exact (Forall_impl _ _ _ Hlim (not_in_kernel uend))].
    - by apply magic_result.
    - split; [unfold zlen; rewrite Hlen; lia|done]. }
  destruct nt as [nt|]; [|apply Hck]. destruct (Hnote nt eq_refl) as (j & Hj & -> & Hty). destruct (parse_vendor_information _ _ _) as [[r l5]|] eqn:Ev; cbn [mbind option_bind]; [|right; by exists j].
  destruct r as [s|[[[v ma] mi] pa]]; [|apply Hck]. by apply vendor_status in Ev as ->; auto.
Qed.
End untrusted.
End Untrusted.
