(* ===== verification/ElfExample.v ===== *)
(** * The ELF loader on a concrete file and memory, and what it does not check *)

From S2P Require Import Prelude Kre Memory Paging FatVolume FatFile VfsStream Elf ElfProps.
Import Addr Node FileStream Elf Loader Reader Headers UserSpace Segments Bootstrap Loading Untrusted.
#[local] Set Default Proof Using "Type*".

(** ** A file in memory *)
Module SeekFile.

Record SeekFile := mkSeek { sf_bytes : list Z; sf_pos : Z; sf_closed : bool }.

#[export] Instance seek_stream : StreamNode SeekFile := {
  is_file _ := true;
  get_io_mode _ := READ;
  is_closed := sf_closed;
  node_read f n := (OKAY, take (Z.to_nat n) (drop (Z.to_nat (sf_pos f)) (sf_bytes f)), mkSeek (sf_bytes f) (Z.min (sf_pos f + n) (zlen (sf_bytes f))) (sf_closed f));
  node_write f _ := (NOT_ALLOWED, 0, f);
  node_close f := mkSeek (sf_bytes f) (sf_pos f) true }.

#[export] Instance seek_node : SeekNode SeekFile := fun f mode k =>
  match mode with BEGIN => if (0 <=? k) && (k <? zlen (sf_bytes f)) then (OKAY, k, mkSeek (sf_bytes f) k (sf_closed f)) else (BAD_ARGS, 0, f) | _ => (NOT_SUPPORTED, 0, f) end.

Definition at_pos (content : list Z) (f : SeekFile) (pos : Z) : Prop := sf_bytes f = content /\ sf_pos f = pos /\ 0 <= pos <= zlen content.

#[export] Instance seek_laws content : FileLaws SeekFile content (at_pos content).
Proof.
  split.
  - by intros f pos (_ & _ & ?).
  - intros f pos size (Hb & Hp & Hr) Hs. cbn. rewrite Hb, Hp. eexists _, _. split; [done|]. split; [|done]. unfold at_pos. cbn. split_and!; [done|done|lia|lia].
  - intros f pos k (Hb & Hp & Hr). unfold node_seek, seek_node. rewrite Hb. destruct ((0 <=? k) && (k <? zlen content)) eqn:E; eexists _, _, _; (split; [done|]).
    + apply andb_true_iff in E. split; [intros _; unfold at_pos; cbn; split_and!; [done|done|bool_prop; lia..]|done].
    + split; [done|]. intros Hk. apply andb_false_iff in E. bool_prop. lia.
Qed.
End SeekFile.

(** ** A paged memory

    Pages with their flags and bytes for each address space, and the number of pages that are free. *)
Module PagedMemory.

Record Mem := mkMem { cur : Z; next_space : Z; free_count : Z; pages : gmap (Z * Z) Z; contents : gmap (Z * Z) Z }.

Fixpoint set_pages (n : nat) (b p : Z) (f : option Z) (t : gmap (Z * Z) Z) : gmap (Z * Z) Z :=
  match n with O => t | S n => set_pages n b (p + 1) f (partial_alter (fun _ => f) (b, p) t) end.

Fixpoint set_bytes (b a : Z) (bs : list Z) (t : gmap (Z * Z) Z) : gmap (Z * Z) Z :=
  match bs with [] => t | c :: bs => set_bytes b (a + 1) bs (<[(b, a) := c]> t) end.

Definition page_flags (m : Mem) (b x : Z) : option Z := pages m !! (b, x / 4096).
Definition page_byte (m : Mem) (b x : Z) : option Z := match page_flags m b x with Some _ => Some (default 0 (contents m !! (b, x))) | None => None end.

Fixpoint any_mapped (n : nat) (b p : Z) (t : gmap (Z * Z) Z) : bool := match n with O => false | S n => bool_decide (is_Some (t !! (b, p))) || any_mapped n b (p + 1) t end.

Definition writable_byte (m : Mem) (x : Z) : bool := match page_flags m (cur m) x with Some f => Z.testbit f 1 | None => false end.

Fixpoint all_writable (n : nat) (m : Mem) (a : Z) : bool := match n with O => true | S n => writable_byte m a && all_writable n m (a + 1) end.

#[export] Instance paged_memory : UserMemory Mem := {
  um_loaded := cur;
  um_user_space_end _ := to_canonical_form USER_LIMIT;
  um_allocate m v f n :=
    if (free_count m <? n) || any_mapped (Z.to_nat n) (cur m) (v / 4096) (pages m) then Some (false, m) else
    Some (true, mkMem (cur m) (next_space m) (free_count m - n) (set_pages (Z.to_nat n) (cur m) (v / 4096) (Some f) (pages m)) (contents m));
  um_free m v n := Some (true, mkMem (cur m) (next_space m) (free_count m + n) (set_pages (Z.to_nat n) (cur m) (v / 4096) None (pages m)) (contents m));
  um_modify_flags m v f :=
    match page_flags m (cur m) v with
    | Some g => Some (mkMem (cur m) (next_space m) (free_count m) (set_pages 1 (cur m) (v / 4096) (Some (Z.lor g f)) (pages m)) (contents m))
    | None => Some m
    end;
  um_new_space m := Some (Some (next_space m), mkMem (cur m) (next_space m + 1) (free_count m) (pages m) (contents m));
  um_load_space m b := Some (mkMem b (next_space m) (free_count m) (pages m) (contents m));
  um_load_base m b := mkMem b (next_space m) (free_count m) (pages m) (contents m);
  um_store m a bs := if all_writable (length bs) m a then Some (mkMem (cur m) (next_space m) (free_count m) (pages m) (set_bytes (cur m) a bs (contents m))) else None }.

Definition mem_ok (m : Mem) : Prop := cur m < next_space m /\ forall b p, next_space m <= b -> pages m !! (b, p) = None.
Definition mem_space (m : Mem) (b : Z) : Prop := b < next_space m.

Lemma set_pages_result n : forall b p f t c q, set_pages n b p f t !! (c, q) = if decide (c = b /\ p <= q < p + Z.of_nat n) then f else t !! (c, q).
Proof.
  induction n as [|n IH]; intros b p f t c q; cbn [set_pages]; [by rewrite decide_False by lia|]. rewrite IH.
  destruct (decide (c = b /\ q = p)) as [[-> ->]|Hne].
  - rewrite decide_False, decide_True by lia. by rewrite lookup_partial_alter_eq.
  - rewrite lookup_partial_alter_ne by (intros [= <- <-]; by apply Hne). destruct (decide (c = b /\ p + 1 <= q < p + 1 + Z.of_nat n)); [rewrite decide_True by lia|rewrite decide_False by lia]; done.
Qed.

Lemma set_bytes_other bs : forall b a t c x, ~ (c = b /\ a <= x < a + zlen bs) -> set_bytes b a bs t !! (c, x) = t !! (c, x).
Proof.
  induction bs as [|v bs IH]; intros b a t c x Hn; cbn [set_bytes]; [done|]. rewrite zlen_cons in Hn. pose proof (zlen_nonneg bs). rewrite IH by lia. apply lookup_insert_ne. intros [= <- <-]. lia.
Qed.

Lemma set_bytes_at bs : forall b a t i c, bs !! i = Some c -> set_bytes b a bs t !! (b, a + Z.of_nat i) = Some c.
Proof.
  induction bs as [|v bs IH]; intros b a t i c Hi; [done|]. cbn [set_bytes]. destruct i as [|i]; cbn in Hi.
  - injection Hi as ->. rewrite set_bytes_other by lia. rewrite Z.add_0_r. by apply lookup_insert_eq.
  - replace (a + Z.of_nat (S i)) with (a + 1 + Z.of_nat i) by lia. by apply IH.
Qed.

Lemma all_writable_result n m : forall a, (forall x, a <= x < a + Z.of_nat n -> writable_byte m x = true) -> all_writable n m a = true.
Proof. induction n as [|n IH]; intros a Hw; cbn [all_writable]; [done|]. rewrite Hw by lia. apply IH. intros x Hx. apply Hw. lia. Qed.

(** A change of the pages of the loaded address space. *)
Lemma pages_change m n v f k (P : Z -> Prop) : mem_ok m -> (forall x, ~ P x -> ~ v / 4096 <= x / 4096 < v / 4096 + Z.of_nat n) ->
  same_but mem_ok mem_space page_byte page_flags m (mkMem (cur m) (next_space m) k (set_pages n (cur m) (v / 4096) f (pages m)) (contents m)) P.
Proof.
  intros [Hc Hp] HP. constructor; [split; [done|]|done|done|].
  - intros b p Hb. cbn in *. rewrite set_pages_result, decide_False by lia. by apply Hp.
  - intros b x _ _ Hor. assert (page_flags (mkMem (cur m) (next_space m) k (set_pages n (cur m) (v / 4096) f (pages m)) (contents m)) b x = page_flags m b x) as E.
    { unfold page_flags. cbn [pages]. rewrite set_pages_result, decide_False; [done|]. intros [-> Hx]. destruct Hor as [?|Hn]; [done|]. by apply (HP x Hn). }
    unfold page_byte. by rewrite E.
Qed.

#[export] Instance paged_laws : MemoryLaws Mem mem_ok mem_space page_byte page_flags.
Proof.
  split.
  - done.
  - by intros m [? _].
  - intros m v f n Hm Hv H0 Hn Hl Hf Hb. cbn. destruct (_ || _); [exists false, m; split; [done|]; split; [by apply same_refl|done]|]. eexists true, _. split; [done|]. split.
    + apply pages_change; [done|]. intros x Hx ?. apply Hx. Z.to_euclidean_division_equations. lia.
    + intros _ x Hx. unfold page_flags. cbn [pages]. rewrite set_pages_result, decide_True; [done|]. split; [done|]. Z.to_euclidean_division_equations. lia.
  - intros m v n Hm Hv H0 Hn Hl. cbn. eexists _, _. split; [done|]. apply pages_change; [done|]. intros x Hx ?. apply Hx. Z.to_euclidean_division_equations. lia.
  - intros m v g f Hm Hv Hr Hg Hf. cbn. cbn in Hg. rewrite Hg. eexists. split; [done|]. split.
    + apply (pages_change m 1); [done|]. intros x Hx ?. apply Hx. Z.to_euclidean_division_equations. lia.
    + intros x Hx. assert (x / 4096 = v / 4096) as E by (Z.to_euclidean_division_equations; lia). unfold page_byte, page_flags in *. cbn [pages contents]. rewrite E, lookup_partial_alter_eq, Hg. done.
  - intros m a bs Hm Ha Hl Hw. cbn. rewrite all_writable_result.
    2:{ intros x Hx. unfold writable_byte. destruct (Hw x) as (f & Hf & Hb); [unfold zlen; lia|]. cbn in Hf. by rewrite Hf. }
    eexists. split; [done|]. split; [|split; [done|]].
    + constructor; [done..|]. intros b x _ _ Hor. unfold page_byte, page_flags. cbn [pages contents]. rewrite set_bytes_other; [done|]. intros [-> Hx]. destruct Hor; tauto.
    + intros i c Hi. destruct (Hw (a + Z.of_nat i)) as (f & Hf & _); [apply lookup_lt_Some in Hi; unfold zlen; lia|]. cbn in Hf. unfold page_byte, page_flags in *. cbn [pages contents cur]. rewrite Hf. by rewrite (set_bytes_at _ _ _ _ _ _ Hi).
  - intros m Hm. pose proof Hm as [Hc Hp]. cbn. eexists _, _. split; [done|]. split.
    + constructor; [split; cbn; [lia|]|done|cbn; unfold mem_space; cbn; lia|done]. intros b p Hb. apply Hp. lia.
    + intros b [= <-]. unfold mem_space. cbn. split; [lia|]. split; [lia|]. intros x Hx. by apply Hp.
  - intros m b [Hc Hp] Hb. cbn. eexists. split; [done|]. by constructor.
  - intros m b [Hc Hp] Hb. by constructor.
Qed.
End PagedMemory.

(** ** A small executable *)
Module ElfExamples.
Import SeekFile PagedMemory.

Definition an_ident : list Z := [2; 1; 1; 0; 0; 0; 0; 0; 0; 0; 0; 0].
Definition a_header : ELF64Header := mkHeader (mkIdent 0 0 0 0 0 0) EXEC 62 1 0x400002 64 0 0 64 56 2 64 0 0.
Definition a_text : ELF64ProgramHeader := mkPH LOAD 5 176 0x400000 0 4 8 4096.
Definition a_data : ELF64ProgramHeader := mkPH LOAD 6 180 0x403000 0 2 2 4096.
Definition a_file : list Z := ident_bytes an_ident ++ header_bytes a_header ++ program_header_bytes a_text ++ program_header_bytes a_data ++ [11; 12; 13; 14; 21; 22].
Definition a_node : SeekFile := mkSeek a_file 0 false.
Definition a_memory : Mem := mkMem 0 1 100 ∅ ∅.
Definition some_arguments : list (list Z) := [[97]; [98; 99]].

Lemma a_file_is_executable : executable a_file (to_canonical_form USER_LIMIT) an_ident a_header [a_text; a_data].
Proof.
  split; [reflexivity|by split_and!|..|split_and!; [reflexivity|reflexivity|discriminate]| |vm_compute; reflexivity].
  - split; [| | |reflexivity]; repeat constructor; vm_compute; discriminate.
  - reflexivity.
  - vm_compute. discriminate.
  - vm_compute. reflexivity.
  - repeat constructor; try (vm_compute; discriminate); reflexivity.
Qed.

Lemma a_file_bytes : Forall (in_width 8) a_file.
Proof. let v := eval vm_compute in a_file in change a_file with v. repeat (apply Forall_cons_2; [split; [discriminate|reflexivity]|]). apply Forall_nil_2. Qed.

Lemma a_file_is_loadable : loadable a_file [a_text; a_data] some_arguments.
Proof.
  assert (loads [a_text; a_data] = [a_text; a_data]) as E by reflexivity. split; rewrite ?E; [| |vm_compute; discriminate].
  - repeat constructor; vm_compute; congruence.
  - repeat constructor; vm_compute; congruence.
Qed.

Lemma load_builds_image_witness : exists r m' n', load a_memory (Some a_node) some_arguments false = Some (r, m', Some n') /\
  match r with
  | inr out => exists b, base_page_table_address out = b /\ image a_file page_byte page_flags m' b a_header [a_text; a_data] some_arguments out
      /\ um_loaded m' = um_loaded a_memory /\ ~ mem_space a_memory b
      /\ forall c x, mem_space a_memory c -> 0 <= x < USER_LIMIT -> c <> b \/ ~ covers [a_text; a_data] x /\ x < area_begin some_arguments [a_text; a_data] ->
           page_byte m' c x = page_byte a_memory c x /\ page_flags m' c x = page_flags a_memory c x
  | inl status => status = MEMORY_ERROR
  end.
Proof.
  apply (load_builds_image a_file (at_pos a_file) mem_ok mem_space page_byte page_flags a_memory a_node an_ident a_header [a_text; a_data] some_arguments false);
    [split; [reflexivity|intros; apply lookup_empty]|split; [reflexivity|split; [reflexivity|split; vm_compute; discriminate]]|exact a_file_is_executable|exact a_file_is_loadable].
Defined.

(** It is loaded, and these are its first bytes, its heap and its flags. *)
Example loaded_image :
  match load a_memory (Some a_node) some_arguments false with
  | Some (inr out, m', _) => Some (heap_start out, (fun i => page_byte m' 1 (0x400000 + i)) <$> [0; 3; 4; 7], page_flags m' 1 0x400000, um_loaded m')
  | _ => None
  end = Some (0x404000, [Some 11; Some 14; Some 0; Some 0], Some 7, 0).
Proof. vm_compute. reflexivity. Qed.

Lemma any_file_is_checked_witness :
  match load_elf_file (to_canonical_form USER_LIMIT) (mkLoader 0 0 (replicate 8192 0) a_node) with
  | Some (inr f, _) => checked a_file (to_canonical_form USER_LIMIT) f
  | Some (inl s, _) => s = BAD_HEADER \/ s = BAD_SEGMENT \/ s = BAD_VENDOR_INFO
  | None => PH_SIZE < ph_entry_size (header_of a_file) \/ exists k, (k < Z.to_nat (ph_count (header_of a_file)))%nat /\ p_type (table_entry a_file k) = NOTE
  end.
Proof.
  apply (any_file_is_checked a_file (at_pos a_file)); [exact a_file_bytes|split; [reflexivity|split; [reflexivity|split; vm_compute; discriminate]]].
Defined.

(** ** What is not checked *)

(** A size that wraps around passes the test against the limit, no page is mapped for it, and as many bytes are
    cleared. *)
Example size_wraps : let p := mkPH LOAD 6 176 0x1000 0 0 (2 ^ 64 - 0x800) 0 in
  in_kernel (to_canonical_form USER_LIMIT) p = false /\ v_start_of p = v_end_of p.
Proof. split; vm_compute; reflexivity. Qed.

(** The limit is the canonical form of the end of user space: addresses of the hole in front of it pass. *)
Example hole_passes : in_kernel (to_canonical_form USER_LIMIT) (mkPH LOAD 6 176 0x900000000000 0 0 4096 0) = false.
Proof. vm_compute. reflexivity. Qed.

(** The flags of a segment are added to those it was mapped with, so it stays writable. *)
Lemma text_stays_writable p : Z.lor 7 (segment_flags p) = 7.
Proof. unfold segment_flags. by destruct (negb _). Qed.

(** A segment that ends with a page takes the page behind it, where the next segment starts. *)
Example adjacent_segments_overlap : v_end_of (mkPH LOAD 5 0 0x1000 0 0x1000 0x1000 0) = Some 0x3000 /\ v_start_of (mkPH LOAD 6 0 0x2000 0 0x1000 0x1000 0) = Some 0x2000.
Proof. split; vm_compute; reflexivity. Qed.

(** Table entries of 57 bytes overrun the program header. *)
Example large_entry_overruns : read_program_header 57 (mkLoader 0 0 (replicate 8192 0) a_node) = None.
Proof. vm_compute. reflexivity. Qed.

(** When the segments cannot be mapped, the new address space stays loaded. *)
Example failure_keeps_new_space :
  match load (mkMem 0 1 0 ∅ ∅) (Some a_node) some_arguments false with Some (inl s, m', _) => Some (s, um_loaded m') | _ => None end = Some (MEMORY_ERROR, 1).
Proof. vm_compute. reflexivity. Qed.

Section faults.
Context {N : Type} `{StreamNode N, SeekNode N} (content : list Z) (at_ : N -> Z -> Prop) `{!FileLaws N content at_}.

Lemma read_end n l : reading content at_ l (zlen content) -> 0 <= n < 2 ^ 16 -> exists l', read_bytes n l = Some ([], l') /\ reading content at_ l' (zlen content).
Proof.
  intros Hrd Hn. destruct (read_bytes_result content at_ n l _ Hrd Hn) as (l' & E & Hrd'). exists l'. rewrite Z.min_r in Hrd' by lia. split; [|done]. rewrite E. do 2 f_equal.
  unfold rest, zlen. by rewrite Nat2Z.id, drop_all, take_nil.
Qed.

(** A file that ends inside of a segment is read for ever. *)
Lemma truncated_segment_hangs (m : Mem) dest k off fuel : forall l, reading content at_ l (zlen content) -> 0 < k < 2 ^ 63 -> copy_loop fuel m dest k off l = None.
Proof.
  intros l Hrd Hk. revert m l off Hrd. induction fuel as [|fuel IH]; intros m l off Hrd; [done|]. cbn [copy_loop]. rewrite (proj2 (Z.leb_gt k 0)) by lia.
  destruct (read_end BUF_SIZE l Hrd) as (l1 & -> & Hrd1); [unfold BUF_SIZE; lia|]. cbn [mbind option_bind]. rewrite zlen_nil, Math.min_spec, Z.min_l, take_nil by lia. cbn [um_store paged_memory length all_writable].
  rewrite Z.sub_0_r, wrap_small by word_lia. by apply IH.
Qed.

(** The byte order of the file is not read, so the type of a little endian note is taken for a big endian number:
    the note is refused. *)
Lemma note_refused l pos p a b c d e f g i r : reading content at_ l pos -> 0 <= to_int (offset p) < zlen content -> rest content (to_int (offset p)) = [a; b; c; d; e; f; g; i; 1; 0; 0; 0] ++ r ->
  exists l', parse_vendor_information p 0 l = Some (inl BAD_VENDOR_INFO, l').
Proof.
  intros Hrd Ho E. unfold parse_vendor_information. destruct (seek_result content at_ l pos (offset p) Hrd) as (good & l1 & -> & Hrd1 & Hg). rewrite (Hg Ho) in *. cbn [negb].
  destruct (read_part content at_ l1 _ NOTE_HEADER_SIZE _ _ (Hrd1 eq_refl) E) as (l2 & -> & _); [done|done|]. cbn [mbind option_bind]. by exists l2.
Qed.
End faults.
End ElfExamples.
