(* ===== verification/Shell.v ===== *)
(** * The Crucible shell: App/Crucible

    The lexer and the parser of the command line, the evaluation of the syntax tree, the line editor and the
    command history.  A [std::string] is the list of its characters, a [char] is a number from 0 to 255: its
    sign is never looked at where it matters.  Starting a program and the built-in commands are system
    calls; what the shell hands to them is recorded. *)

From S2P Require Import Prelude.

(** ** Lexer.h, Lexer.cpp *)
Module Lexer.

Inductive TokenType := NONE | END | UNEXPECTED_TOKEN | PATH | IDENTIFIER | ESCAPE_CODE | DOLLAR | DASH | ASSIGNMENT | QUOTE | REDIRECT.

#[export] Instance TokenType_dec : EqDecision TokenType.
Proof. solve_decision. Defined.

Record Token := mkToken { type : TokenType; text : list Z; position : Z }.

Record Lexer := mkLexer { _input : list Z; _cursor : nat; _token_buffer : list Token }.

Implicit Types (l : Lexer) (c : Z) (b : list Z).

Definition BUF_SIZE : nat := 64.
Definition NON_PRINTABLE_ASCII_LIMIT : Z := 32.

Definition SPACE : Z := 32.
Definition DOLLAR_ : Z := 36.
Definition QUOTE_ : Z := 39.
Definition DASH_ : Z := 45.
Definition EQUALS : Z := 61.
Definition GREATER : Z := 62.
Definition BACKSLASH : Z := 92.
Definition UNDERSCORE : Z := 95.

Definition is_digit c : bool := (48 <=? c) && (c <=? 57).
Definition is_lower_case c : bool := (97 <=? c) && (c <=? 122).
Definition is_upper_case c : bool := (65 <=? c) && (c <=? 90).
Definition is_esc_ch c : bool := (c =? BACKSLASH) || (c =? QUOTE_) || (c =? DOLLAR_) || (c =? EQUALS) || (c =? GREATER).
Definition is_reserved c : bool := (c =? DOLLAR_) || (c =? EQUALS) || (c =? QUOTE_) || (c =? GREATER) || (c =? BACKSLASH).
Definition is_path_element c : bool := (NON_PRINTABLE_ASCII_LIMIT <? c) && negb (is_reserved c).
Definition is_identifier c : bool := (c =? UNDERSCORE) || (c =? DASH_) || is_lower_case c || is_upper_case c || is_digit c.

Definition has_more l : bool := (_cursor l <? length (_input l))%nat.
Definition peek l : Z := default 0 (_input l !! _cursor l).
Definition advance l : Z * Lexer := if has_more l then (peek l, mkLexer (_input l) (S (_cursor l)) (_token_buffer l)) else (0, l).

Definition push_back l (t : Token) : Lexer := mkLexer (_input l) (_cursor l) (_token_buffer l ++ [t]).

(** [_cursor - n], a [size_t]. *)
Definition before l (n : Z) : Z := u64 (Z.of_nat (_cursor l) - n).

Definition parse_escape_code l : Lexer :=
  let '(escaped, l) := advance l in
  let is_good := is_esc_ch escaped in
  push_back l (mkToken (if is_good then ESCAPE_CODE else UNEXPECTED_TOKEN) [BACKSLASH; escaped] (if is_good then before l 2 else before l 1)).

(** [b[b_pos++] = c]: the array has 64 characters, nothing tests for its end here. *)
Definition store b c : option (list Z) := if (length b <? BUF_SIZE)%nat then Some (b ++ [c]) else None.

(** [while (p(peek())) b[b_pos++] = advance();] *)
Fixpoint take_chars (fuel : nat) (p : Z -> bool) l b : option (Lexer * list Z) :=
  match fuel with
  | O => None
  | S fuel => if p (peek l) then let '(c, l) := advance l in b ← store b c; take_chars fuel p l b else Some (l, b)
  end.

(** The characters that end a word. *)
Definition ends_word c : bool :=
  (c =? 0) || (c =? QUOTE_) || (c =? BACKSLASH) || (c =? EQUALS) || (c =? DOLLAR_) || (c =? GREATER).

Inductive Word := Ended (l : Lexer) (b : list Z) (is_path : bool) | Unexpected (l : Lexer).

(** The outer loop of [parse_identifier_or_path_element]; nothing bounds the number of its turns. *)
Fixpoint word_loop (fuel : nat) (include_ws is_path : bool) l b : option Word :=
  match fuel with
  | O => None
  | S fuel =>
      if has_more l && negb (peek l =? SPACE) && (length b <? BUF_SIZE)%nat then
        '(l, b) ← take_chars (S (length (_input l))) (if is_path then is_path_element else is_identifier) l b;
        let peek_a_boo := peek l in
        if ends_word peek_a_boo then Some (Ended l b is_path) else
        if peek_a_boo =? SPACE then
          '(l, b) ← (if include_ws then take_chars (S (length (_input l))) (fun c => c =? SPACE) l b else Some (l, b));
          word_loop fuel include_ws is_path l b
        else if negb (is_identifier peek_a_boo) then word_loop fuel include_ws true l b
        else Some (Unexpected (push_back l (mkToken UNEXPECTED_TOKEN [peek l] (before l 0))))
      else Some (Ended l b is_path)
  end.

Definition word_fuel l : nat := 2 * length (_input l) + 2.

Definition parse_identifier_or_path_element l (include_ws : bool) : option Lexer :=
  let start := before l 1 in
  first ← _input l !! (_cursor l - 1)%nat;
  w ← word_loop (word_fuel l) include_ws false l [first];
  match w with
  | Ended l b is_path => Some (push_back l (mkToken (if (is_path : bool) then PATH else IDENTIFIER) b start))
  | Unexpected l => Some l
  end.

(** A step of the loop of [parse_string], behind the character [c]. *)
Definition string_item c l : option Lexer :=
  if c =? DOLLAR_ then
    let l := push_back l (mkToken DOLLAR [c] (before l 1)) in
    let '(_, l) := advance l in parse_identifier_or_path_element l false
  else if c =? BACKSLASH then Some (parse_escape_code l)
  else parse_identifier_or_path_element l true.

Fixpoint string_loop (fuel : nat) l : option Lexer :=
  match fuel with
  | O => None
  | S fuel =>
      if has_more l && negb (peek l =? QUOTE_) then let '(c, l) := advance l in l ← string_item c l; string_loop fuel l
      else Some l
  end.

Definition parse_string l : option Lexer :=
  l ← string_loop (S (length (_input l))) l;
  if has_more l then let '(c, l) := advance l in Some (push_back l (mkToken QUOTE [c] (before l 1))) else Some l.

Fixpoint skip_white_space (fuel : nat) l : Lexer :=
  match fuel with O => l | S fuel => if peek l =? SPACE then skip_white_space fuel (advance l).2 else l end.

Definition scan_token l : option Lexer :=
  let l := skip_white_space (length (_input l)) l in
  let '(c, l) := advance l in
  if c =? 0 then Some (push_back l (mkToken END [] (before l 0))) else
  if c =? DOLLAR_ then Some (push_back l (mkToken DOLLAR [c] (before l 1))) else
  if c =? EQUALS then Some (push_back l (mkToken ASSIGNMENT [c] (before l 1))) else
  if c =? DASH_ then Some (push_back l (mkToken DASH [c] (before l 1))) else
  if c =? GREATER then Some (push_back l (mkToken REDIRECT [c] (before l 1))) else
  if c =? QUOTE_ then parse_string (push_back l (mkToken QUOTE [c] (before l 1))) else
  if c =? BACKSLASH then Some (parse_escape_code l) else
  parse_identifier_or_path_element l false.

Definition new_lexer (input : list Z) : Lexer := mkLexer input 0 [].

Definition is_empty {A} (l : list A) : bool := match l with [] => true | _ => false end.

Definition end_token l : Token := mkToken END [] (zlen (_input l)).

(** The token and the lexer afterwards. *)
Definition next_token l : option (Token * Lexer) :=
  if negb (has_more l) && is_empty (_token_buffer l) then Some (end_token l, l) else
  l ← (if is_empty (_token_buffer l) then scan_token l else Some l);
  match _token_buffer l with t :: ts => Some (t, mkLexer (_input l) (_cursor l) ts) | [] => None end.

Definition peek_token l : option (Token * Lexer) :=
  if negb (has_more l) && is_empty (_token_buffer l) then Some (end_token l, l) else
  l ← (if is_empty (_token_buffer l) then scan_token l else Some l);
  match _token_buffer l with t :: _ => Some (t, l) | [] => None end.
End Lexer.

(** ** AST.h, AST.cpp *)
Module Ast.

Inductive ASTNode :=
  | CommandSequence (command : ASTNode) (arguments_or_flags : list ASTNode) (redirect_file : list Z)
  | EnvVarDecl (env_var : ASTNode) (value : list ASTNode)
  | EnvVar (env_var : ASTNode)
  | ShellString (content : list ASTNode)
  | IdentifierOrPath (value : list Z).

Fixpoint get_text (n : ASTNode) : list Z :=
  match n with
  | CommandSequence cmd args _ => foldl (fun cs arg => cs ++ [32] ++ arg) (get_text cmd) (map get_text args)
  | EnvVarDecl v value => get_text v ++ [61] ++ mjoin (map get_text value)
  | EnvVar v => get_text v
  | ShellString content => mjoin (map get_text content)
  | IdentifierOrPath value => value
  end.

(** The part of [Environment] that evaluation uses, the messages on [std::cerr] by their kind, and the command
    lines handed to a built-in command or a program: name, arguments, redirection. *)
Inductive Message := VariableNotFound (name : list Z) | TooManyArguments.

Record Env := mkEnv { env_var_table : gmap (list Z) (list Z); messages : list Message; launched : list (list Z * list (list Z) * list Z) }.

Definition ARGV_LIMIT : Z := 2048.

Definition report (m : Message) (e : Env) : Env := mkEnv (env_var_table e) (messages e ++ [m]) (launched e).
Definition set_var (k v : list Z) (e : Env) : Env := mkEnv (<[k := v]> (env_var_table e)) (messages e) (launched e).
Definition launch (c : list Z * list (list Z) * list Z) (e : Env) : Env := mkEnv (env_var_table e) (messages e) (launched e ++ [c]).

(** An argument reaches the program as a C string. *)
Fixpoint c_string (l : list Z) : list Z := match l with [] => [] | c :: l => if c =? 0 then [] else c :: c_string l end.

(** The values of the nodes that are parts of others: they read the variables and report.  No part is a command
    sequence or a declaration. *)
Fixpoint evaluate_part (e : Env) (n : ASTNode) : list Z * Env :=
  match n with
  | IdentifierOrPath value => (value, e)
  | EnvVar v =>
      match env_var_table e !! get_text v with Some x => (x, e) | None => ([], report (VariableNotFound (get_text v)) e) end
  | ShellString content =>
      foldl (fun '(value, e) f => let '(v, e) := f e in (value ++ v, e)) ([], e) (map (fun n e => evaluate_part e n) content)
  | _ => ([], e)
  end.

Fixpoint evaluate_all (e : Env) (ns : list ASTNode) : list (list Z) * Env :=
  match ns with [] => ([], e) | n :: ns => let '(v, e) := evaluate_part e n in let '(vs, e) := evaluate_all e ns in (v :: vs, e) end.

(** The loop over the arguments: the copy into the buffer of [ARGV_LIMIT] characters comes before the test.
    The result is the arguments, or nothing when the command was given up. *)
Fixpoint pack_arguments (e : Env) (args : list ASTNode) (pos : Z) (argv : list (list Z)) : option (option (list (list Z)) * Env) :=
  match args with
  | [] => Some (Some argv, e)
  | aof :: args =>
      let '(aof_str, e) := evaluate_part e aof in
      let pos := pos + zlen aof_str + 1 in
      if ARGV_LIMIT <? pos then None else
      if ARGV_LIMIT <=? pos then Some (None, report TooManyArguments e)
      else pack_arguments e args pos (argv ++ [c_string aof_str])
  end.

Definition evaluate (e : Env) (n : ASTNode) : option Env :=
  match n with
  | CommandSequence cmd args redirect =>
      let '(cmd, e) := evaluate_part e cmd in
      '(argv, e) ← pack_arguments e args 0 [];
      Some (match argv with Some argv => launch (cmd, argv, redirect) e | None => e end)
  | EnvVarDecl v value =>
      let '(vals, e) := evaluate_all e value in
      Some (set_var (get_text v) (mjoin ((fun x => 32 :: x) <$> vals)) e)
  | n => Some (evaluate_part e n).2
  end.
End Ast.

(** ** Parser.h, Parser.cpp *)
Module Parser.
Import Lexer Ast.

Inductive ParsedInput := Good (ast_node : ASTNode) | Error (actual : Token) (expected : TokenType).

(** A parser method: its result and the lexer afterwards. *)
Definition Parse (A : Type) : Type := Lexer -> option (A * Lexer).

Definition ret {A} (a : A) : Parse A := fun l => Some (a, l).
Definition bind {A B} (m : Parse A) (f : A -> Parse B) : Parse B := fun l => '(a, l) ← m l; f a l.

Declare Scope parse_scope.
Delimit Scope parse_scope with parse.
Notation "x <- m ;; k" := (bind m (fun x => k)) (at level 100, m at next level, right associativity) : parse_scope.
#[local] Open Scope parse_scope.

(** [if (x.has_error) return x;] *)
Definition ok (r : ParsedInput) (k : ASTNode -> Parse ParsedInput) : Parse ParsedInput :=
  match r with Good n => k n | Error a e => ret (Error a e) end.

(** The next token has to be of this type. *)
Definition expect (t : TokenType) (node : Token -> ASTNode) : Parse ParsedInput :=
  token <- next_token;; ret (if decide (type token = t) then Good (node token) else Error token t).

Definition parse_path : Parse ParsedInput := expect PATH (fun token => IdentifierOrPath (text token)).
Definition parse_identifier : Parse ParsedInput := expect IDENTIFIER (fun token => IdentifierOrPath (text token)).
Definition parse_escape_code : Parse ParsedInput := expect ESCAPE_CODE (fun token => IdentifierOrPath [default 0 (text token !! 1%nat)]).

Definition parse_env_var : Parse ParsedInput :=
  token <- next_token;;
  if decide (type token = DOLLAR) then env_var <- parse_identifier;; ok env_var (fun n => ret (Good (EnvVar n)))
  else ret (Error token DOLLAR).

(** The loop of [parse_string] over the content; a missing closing quote is not noticed. *)
Fixpoint string_content (fuel : nat) (content : list ASTNode) : Parse ParsedInput :=
  match fuel with
  | O => fun _ => None
  | S fuel =>
      t <- peek_token;;
      let more (p : Parse ParsedInput) := r <- p;; ok r (fun n => string_content fuel (content ++ [n])) in
      match type t with
      | QUOTE | END => _ <- next_token;; ret (Good (ShellString content))
      | IDENTIFIER => more parse_identifier
      | ESCAPE_CODE => more parse_escape_code
      | DOLLAR => more parse_env_var
      | PATH => more parse_path
      | _ => ret (Error t IDENTIFIER)
      end
  end.

Definition parse_string (fuel : nat) : Parse ParsedInput :=
  opening_quote <- next_token;;
  if decide (type opening_quote = QUOTE) then string_content fuel [] else ret (Error opening_quote QUOTE).

Definition parse_flag : Parse ParsedInput :=
  dash <- next_token;;
  dash_or_identifier <- next_token;;
  if decide (type dash = DASH) then
    match type dash_or_identifier with
    | IDENTIFIER => ret (Good (IdentifierOrPath ([DASH_] ++ text dash_or_identifier)))
    | DASH =>
        identifier <- next_token;;
        if decide (type identifier = IDENTIFIER) then ret (Good (IdentifierOrPath ([DASH_; DASH_] ++ text identifier)))
        else ret (Error identifier IDENTIFIER)
    | _ => ret (Error dash_or_identifier IDENTIFIER)
    end
  else ret (Error dash DASH).

Definition parse_argument (fuel : nat) : Parse ParsedInput :=
  t <- peek_token;;
  match type t with
  | IDENTIFIER => parse_identifier
  | PATH => parse_path
  | DOLLAR => parse_env_var
  | QUOTE => parse_string fuel
  | DASH => parse_flag
  | _ => ret (Error t IDENTIFIER)
  end.

(** The loop over the arguments, and the redirection behind them. *)
Fixpoint arguments (fuel : nat) (command : ASTNode) (args : list ASTNode) : Parse ParsedInput :=
  match fuel with
  | O => fun _ => None
  | S fuel' =>
      peek_a_boo <- peek_token;;
      match type peek_a_boo with
      | END => ret (Good (CommandSequence command args []))
      | REDIRECT =>
          _ <- next_token;;
          redirect_token <- next_token;;
          match type redirect_token with
          | PATH | IDENTIFIER => ret (Good (CommandSequence command args (text redirect_token)))
          | _ => ret (Error redirect_token PATH)
          end
      | _ => arg <- parse_argument fuel;; ok arg (fun n => arguments fuel' command (args ++ [n]))
      end
  end.

Definition parse_command_sequence (fuel : nat) : Parse ParsedInput :=
  t <- peek_token;;
  path_or_identifier <- (if decide (type t = PATH) then parse_path else parse_identifier);;
  ok path_or_identifier (fun command => arguments fuel command []).

Fixpoint decl_value (fuel : nat) (env_var : ASTNode) (value : list ASTNode) : Parse ParsedInput :=
  match fuel with
  | O => fun _ => None
  | S fuel' =>
      t <- peek_token;;
      let more (p : Parse ParsedInput) := r <- p;; ok r (fun n => decl_value fuel' env_var (value ++ [n])) in
      match type t with
      | END => if is_empty value then t <- peek_token;; ret (Error t IDENTIFIER) else ret (Good (EnvVarDecl env_var value))
      | IDENTIFIER => more parse_identifier
      | ESCAPE_CODE => more parse_escape_code
      | DOLLAR => more parse_env_var
      | PATH => more parse_path
      | QUOTE => more (parse_string fuel)
      | _ => ret (Error t IDENTIFIER)
      end
  end.

Definition parse_env_var_declaration (fuel : nat) : Parse ParsedInput :=
  env_var <- parse_env_var;;
  ok env_var (fun env_var =>
    token <- next_token;;
    if decide (type token = ASSIGNMENT) then decl_value fuel env_var [] else ret (Error token ASSIGNMENT)).

Definition parse_input (fuel : nat) : Parse ParsedInput :=
  t <- peek_token;;
  match type t with
  | PATH | IDENTIFIER => parse_command_sequence fuel
  | DOLLAR => parse_env_var_declaration fuel
  | _ => t <- peek_token;; ret (Error t IDENTIFIER)
  end.

(** A loop of the parser takes a token on each turn; there are at most two tokens for a character. *)
Definition parse_shell_input (input : list Z) : option ParsedInput :=
  '(r, _) ← parse_input (2 * length input + 2) (new_lexer input); Some r.

(** ** Interpreter.cpp: [exec] *)
Definition exec (e : Env) (input : list Z) : option (Env * option (Token * TokenType)) :=
  r ← parse_shell_input input;
  match r with Good n => e ← evaluate e n; Some (e, None) | Error actual expected => Some (e, Some (actual, expected)) end.
End Parser.

(** ** Environment.cpp, Action.cpp: the input line and the command history

    What is written to the terminal is a list of commands: characters, the escape codes of the editor, and the
    new line behind an executed command. *)
Module LineEditor.

Inductive Out := Chars (s : list Z) | EraseToEnd | CursorLeft (n : Z) | CursorRight (n : Z) | BackSpace | NewLine.

Record Environment := mkEnvironment {
  command_history : list (list Z);
  command_history_cursor : nat;
  input_buffer_backup : list Z;
  input_buffer : list Z;
  input_buffer_size : Z;
  input_buffer_cursor : Z;
  ac_used : bool;
  out : list Out }.

Implicit Types (e : Environment) (b : list Z).

Definition INPUT_BUFFER_LIMIT : Z := 128.

Definition new_environment : Environment := mkEnvironment [] 0 [] (replicate 128 0) 0 0 false [].

Definition with_input b (size cursor : Z) e : Environment :=
  mkEnvironment (command_history e) (command_history_cursor e) (input_buffer_backup e) b size cursor false (out e).
Definition write (o : list Out) e : Environment :=
  mkEnvironment (command_history e) (command_history_cursor e) (input_buffer_backup e) (input_buffer e) (input_buffer_size e) (input_buffer_cursor e) (ac_used e) (out e ++ o).
Definition with_history h (c : nat) backup e : Environment :=
  mkEnvironment h c backup (input_buffer e) (input_buffer_size e) (input_buffer_cursor e) (ac_used e) (out e).

(** [memmove] inside the buffer. *)
Definition move_chars b (dst src n : Z) : option (list Z) :=
  if (0 <=? n) && (0 <=? dst) && (0 <=? src) && (dst + n <=? zlen b) && (src + n <=? zlen b)
  then Some (take (Z.to_nat dst) b ++ take (Z.to_nat n) (drop (Z.to_nat src) b) ++ drop (Z.to_nat (dst + n)) b) else None.

(** [std::cout << &input_buffer[i]]: the characters in front of the terminator. *)
Fixpoint until_zero (l : list Z) : option (list Z) :=
  match l with [] => None | c :: l => if c =? 0 then Some [] else s ← until_zero l; Some (c :: s) end.

Definition printed b (i : Z) : option (list Z) := if i <? 0 then None else until_zero (drop (Z.to_nat i) b).

Definition input_append (ch : Z) e : option Environment :=
  let size := input_buffer_size e in let cursor := input_buffer_cursor e in
  if INPUT_BUFFER_LIMIT <=? size then Some e else
  let ch_move_count := u64 (size - cursor) in
  b ← move_chars (input_buffer e) (cursor + 1) cursor ch_move_count;
  b ← aset b cursor ch;
  let size := u8 (size + 1) in
  s ← printed b cursor;
  let middle := 0 <? ch_move_count in
  Some (write ((if middle then [EraseToEnd] else []) ++ [Chars s] ++ (if middle then [CursorLeft (u64 (size - (cursor + 1)))] else []))
    (with_input b size (cursor + 1) e)).

Definition input_delete (forward : bool) e : option Environment :=
  let size := input_buffer_size e in let cursor := input_buffer_cursor e in
  if ((cursor =? 0) && negb forward) || ((size <=? cursor) && forward) then Some e else
  if forward then
    let ch_move_count := u64 (size - (cursor + 1)) in
    b ← move_chars (input_buffer e) cursor (cursor + 1) ch_move_count;
    let size := u8 (size - 1) in
    b ← aset b size 0;
    s ← printed b cursor;
    Some (write ([EraseToEnd; Chars s] ++ (if 1 <=? ch_move_count then [CursorLeft (u64 (size - cursor))] else [])) (with_input b size cursor e))
  else
    let ch_move_count := u64 (size - cursor) in
    b ← move_chars (input_buffer e) (cursor - 1) cursor ch_move_count;
    let size := u8 (size - 1) in
    b ← aset b size 0;
    let cursor := cursor - 1 in
    s ← printed b cursor;
    Some (write ([BackSpace; EraseToEnd; Chars s] ++ (if 0 <? ch_move_count then [CursorLeft (u64 (size - cursor))] else [])) (with_input b size cursor e)).

Definition input_delete_all (erase_on_display : bool) e : Environment :=
  if input_buffer_size e =? 0 then e else
  let b := replicate (Z.to_nat (input_buffer_size e)) 0 ++ drop (Z.to_nat (input_buffer_size e)) (input_buffer e) in
  let o := if erase_on_display then (if 0 <? input_buffer_cursor e then [CursorLeft (input_buffer_cursor e); EraseToEnd] else [EraseToEnd]) else [] in
  write o (with_input b 0 0 e).

Fixpoint append_all (str : list Z) e : option Environment :=
  match str with [] => Some e | ch :: str => e ← input_append ch e; append_all str e end.

Definition input_set (str : list Z) e : option Environment := append_all str (input_delete_all true e).

(** [std::string(input_buffer.data(), input_buffer_size)] *)
Definition input e : list Z := take (Z.to_nat (input_buffer_size e)) (input_buffer e).

Definition command_history_scroll_up e : option Environment :=
  let h := command_history e in
  let backup := if (command_history_cursor e =? length h)%nat then input e else input_buffer_backup e in
  let c := if (0 <? command_history_cursor e)%nat then (command_history_cursor e - 1)%nat else command_history_cursor e in
  let e := with_history h c backup e in
  match h !! c with Some str => input_set str e | None => Some e end.

Definition command_history_scroll_down e : option Environment :=
  let h := command_history e in
  if (command_history_cursor e <? length h)%nat then
    let c := S (command_history_cursor e) in
    let e := with_history h c (input_buffer_backup e) e in
    match h !! c with Some str => input_set str e | None => input_set (input_buffer_backup e) e end
  else Some e.

Definition cursor_move_left e : Environment :=
  if 0 <? input_buffer_cursor e then write [CursorLeft 1] (with_input (input_buffer e) (input_buffer_size e) (input_buffer_cursor e - 1) e) else e.

Definition cursor_move_right e : Environment :=
  if input_buffer_cursor e <? input_buffer_size e then write [CursorRight 1] (with_input (input_buffer e) (input_buffer_size e) (input_buffer_cursor e + 1) e) else e.

Definition delete_forward e : option Environment := input_delete true e.

(** The key "enter" in the loop of [Interpreter::run]: the command that is executed. *)
Definition enter e : option (list Z) * Environment :=
  let e := write [NewLine] e in
  if 0 <? input_buffer_size e then
    let cmd := input e in
    let h := command_history e ++ [cmd] in
    (Some cmd, input_delete_all false (with_history h (length h) (input_buffer_backup e) e))
  else (None, e).
End LineEditor.
