(* ===== verification/ShellProps.v ===== *)
(** * Properties of the Crucible shell: the lexer, the parser and the line editor *)

From S2P Require Import Prelude Shell.

(** ** The lexer on the rest of its input *)
Module LexProps.
Import Lexer.

Implicit Types (l : Lexer) (c : Z) (b w r : list Z).

Definition rest l : list Z := drop (_cursor l) (_input l).

Definition moved l (n : nat) : Lexer := mkLexer (_input l) (_cursor l + n) (_token_buffer l).

(** Not a control character. *)
Definition printable (l : list Z) : Prop := Forall (fun c => 32 <= c) l.

Lemma rest_moved l n : rest (moved l n) = drop n (rest l).
Proof. unfold rest, moved. cbn. by rewrite drop_drop. Qed.

Lemma moved_moved l n m : moved (moved l n) m = moved l (n + m).
Proof. unfold moved. cbn. f_equal. lia. Qed.

Lemma moved_0 l : moved l 0 = l.
Proof. unfold moved. destruct l. cbn. f_equal. lia. Qed.

Lemma peek_rest l : peek l = default 0 (head (rest l)).
Proof. unfold peek, rest. rewrite <- (Nat.add_0_r (_cursor l)) at 1. rewrite <- lookup_drop. by destruct (drop _ _). Qed.

Lemma has_more_rest l : has_more l = negb (is_empty (rest l)).
Proof.
  unfold has_more, rest. destruct (_ <? _)%nat eqn:E; [apply Nat.ltb_lt in E|apply Nat.ltb_ge in E].
  - destruct (drop _ _) eqn:Ed; [|done]. apply (f_equal length) in Ed. rewrite length_drop in Ed. cbn in Ed. lia.
  - by rewrite drop_ge.
Qed.

Lemma advance_rest l c r : rest l = c :: r -> advance l = (c, moved l 1).
Proof. intros E. unfold advance. rewrite has_more_rest, peek_rest, E. cbn. unfold moved. do 2 f_equal. lia. Qed.

Lemma rest_cons l c r : rest l = c :: r -> rest (moved l 1) = r.
Proof. intros E. by rewrite rest_moved, E. Qed.

Lemma rest_length l : (length (rest l) = length (_input l) - _cursor l)%nat.
Proof. apply length_drop. Qed.

(** The character in front of the cursor. *)
Lemma before_cursor l c r n : rest l = c :: r -> _input (moved l (S n)) !! (_cursor (moved l (S n)) - S n)%nat = Some c.
Proof. intros E. cbn. replace (_cursor l + S n - S n)%nat with (_cursor l + 0)%nat by lia. rewrite <- lookup_drop. change (drop _ _) with (rest l). by rewrite E. Qed.

Lemma take_chars_result p w : forall fuel l b r, rest l = w ++ r -> Forall (fun c => p c = true) w -> p (default 0 (head r)) = false ->
  (length b + length w <= BUF_SIZE)%nat -> (length w < fuel)%nat -> take_chars fuel p l b = Some (moved l (length w), b ++ w).
Proof.
  induction w as [|c w IH]; intros fuel l b r E Hw Hr Hb Hf; (destruct fuel as [|fuel]; [cbn in Hf; lia|]); cbn [take_chars]; rewrite peek_rest, E.
  - cbn [app]. by rewrite Hr, moved_0, app_nil_r.
  - cbn [app head default from_option id]. inversion Hw as [|? ? Hc Hw']; subst. rewrite Hc, (advance_rest l c (w ++ r) E). unfold store. cbn [length] in Hb, Hf.
    rewrite (proj2 (Nat.ltb_lt _ _)) by lia. cbn [mbind option_bind].
    rewrite (IH fuel (moved l 1) (b ++ [c]) r); [|by apply rest_cons with c|done|done|rewrite length_app; cbn; lia|lia].
    by rewrite moved_moved, <- app_assoc.
Qed.

(** ** Words *)

(** What ends a word: the end of the input, a space or a reserved character. *)
Definition stops r : Prop := match r with [] => True | c :: _ => c = SPACE \/ is_reserved c = true end.

Lemma path_element_spec c : is_path_element c = true <-> 32 < c /\ is_reserved c = false.
Proof. unfold is_path_element, NON_PRINTABLE_ASCII_LIMIT. rewrite andb_true_iff, negb_true_iff, Z.ltb_lt. done. Qed.

Lemma ends_word_spec c : ends_word c = (c =? 0) || is_reserved c.
Proof. unfold ends_word, is_reserved. destruct (c =? 0), (c =? QUOTE_), (c =? BACKSLASH), (c =? EQUALS), (c =? DOLLAR_), (c =? GREATER); done. Qed.

Lemma identifier_path c : is_identifier c = true -> is_path_element c = true.
Proof.
  unfold is_identifier, is_lower_case, is_upper_case, is_digit, UNDERSCORE, DASH_. intros Hc.
  apply path_element_spec. unfold is_reserved, DOLLAR_, EQUALS, QUOTE_, GREATER, BACKSLASH.
  rewrite !orb_false_iff, !Z.eqb_neq. rewrite !orb_true_iff, !andb_true_iff, !Z.eqb_eq, !Z.leb_le in Hc. lia.
Qed.

Lemma stops_path r : stops r -> is_path_element (default 0 (head r)) = false.
Proof.
  destruct r as [|c r]; [done|]. intros [->|Hc]; [done|]. cbn. apply not_true_is_false. intros [_ H]%path_element_spec. congruence.
Qed.

Lemma stops_identifier r : stops r -> is_identifier (default 0 (head r)) = false.
Proof. intros Hr. apply not_true_is_false. intros H%identifier_path. by rewrite stops_path in H. Qed.

(** After the characters of a word the loop ends. *)
Lemma word_stop fuel ip l b r : rest l = r -> stops r -> (length b <= BUF_SIZE)%nat -> word_loop (S (S fuel)) false ip l b = Some (Ended l b ip).
Proof.
  intros E Hr Hb. cbn [word_loop]. rewrite has_more_rest, peek_rest, E. destruct r as [|c r]; [done|]. cbn [is_empty negb andb head default from_option id].
  destruct (c =? SPACE) eqn:Ec; [done|]. destruct (length b <? BUF_SIZE)%nat; [|done]. cbn [andb negb]. bool_prop. destruct Hr as [->|Hr]; [done|].
  rewrite (take_chars_result _ [] _ l b (c :: r) E); [|done|destruct ip; [apply (stops_path (c :: r))|apply (stops_identifier (c :: r))]; by right|cbn; lia|cbn; lia].
  cbn [mbind option_bind length]. rewrite moved_0, app_nil_r, peek_rest, E. cbn [head default from_option id]. by rewrite ends_word_spec, Hr, orb_true_r.
Qed.

(** A run of characters that the current mode takes, with the end of the word behind it. *)
Lemma word_run fuel ip w l b r : rest l = w ++ r -> Forall (fun c => (if (ip : bool) then is_path_element else is_identifier) c = true) w -> stops r ->
  (length b + length w <= BUF_SIZE)%nat -> word_loop (S (S (S fuel))) false ip l b = Some (Ended (moved l (length w)) (b ++ w) ip).
Proof.
  intros E Hw Hr Hb. destruct w as [|c w]; [cbn [length]; rewrite moved_0, app_nil_r; apply word_stop with r; [done|done|cbn in Hb; lia]|].
  assert (is_path_element c = true) as Hc by (inversion Hw; subst; destruct ip; [done|by apply identifier_path]).
  apply path_element_spec in Hc as Hc'. set (n := S (S fuel)). cbn [word_loop]. rewrite has_more_rest, peek_rest, E. cbn [app is_empty negb andb head default from_option id].
  rewrite (proj2 (Z.eqb_neq c SPACE)) by (unfold SPACE; lia). cbn [length] in Hb. rewrite (proj2 (Nat.ltb_lt _ _)) by lia. cbn [negb andb].
  rewrite (take_chars_result _ (c :: w) _ l b r E Hw); [|destruct ip; [by apply stops_path|by apply stops_identifier]|cbn; lia|].
  2: { apply (f_equal length) in E. rewrite rest_length, length_app in E. lia. }
  cbn [mbind option_bind]. rewrite peek_rest, rest_moved, E, drop_app_length.
  destruct r as [|d r]; [done|]. cbn [head default from_option id]. rewrite ends_word_spec. destruct Hr as [->|Hr]; [|by rewrite Hr, orb_true_r].
  change (word_loop n false ip (moved l (length (c :: w))) (b ++ c :: w) = Some (Ended (moved l (length (c :: w))) (b ++ c :: w) ip)).
  subst n. apply word_stop with (SPACE :: r); [by rewrite rest_moved, E, drop_app_length|by left|rewrite length_app; cbn [length]; lia].
Qed.

(** The mode a word ends in: a path as soon as a character is not one of an identifier. *)
Definition pathlike w : bool := existsb (fun c => negb (is_identifier c)) w.

Lemma split_run (p : Z -> bool) w : exists w1 w2, w = w1 ++ w2 /\ Forall (fun c => p c = true) w1 /\ match w2 with [] => True | c :: _ => p c = false end.
Proof.
  induction w as [|c w (w1 & w2 & -> & H1 & H2)]; [by exists [], []|]. destruct (p c) eqn:E; [exists (c :: w1), w2; split_and!; [done|by constructor|done]|].
  exists [], (c :: w1 ++ w2). by split_and!.
Qed.

Lemma pathlike_app w1 w2 : pathlike (w1 ++ w2) = pathlike w1 || pathlike w2.
Proof. apply existsb_app. Qed.

Lemma pathlike_identifiers w : Forall (fun c => is_identifier c = true) w -> pathlike w = false.
Proof. induction 1 as [|c w Hc Hw IH]; [done|]. cbn. by rewrite Hc. Qed.

Lemma word_result fuel w l b r : rest l = w ++ r -> Forall (fun c => is_path_element c = true) w -> stops r -> (length b + length w <= BUF_SIZE)%nat ->
  word_loop (S (S (S (S fuel)))) false false l b = Some (Ended (moved l (length w)) (b ++ w) (pathlike w)).
Proof.
  intros E Hw Hr Hb. destruct (split_run is_identifier w) as (w1 & w2 & -> & H1 & H2). destruct w2 as [|c w2].
  { rewrite app_nil_r in *. rewrite pathlike_identifiers by done. by apply word_run with r. }
  apply Forall_app in Hw as [_ Hw2]. assert (is_path_element c = true) as Hc by by inversion Hw2. apply path_element_spec in Hc as [Hc Hc'].
  rewrite pathlike_app, (pathlike_identifiers w1) by done. cbn [pathlike existsb orb]. rewrite H2. cbn [negb orb].
  rewrite length_app in *. cbn [length] in *. rewrite <- app_assoc in E.
  set (n := S (S (S fuel))). cbn [word_loop]. rewrite has_more_rest, peek_rest, E.
  assert (exists d u, w1 ++ (c :: w2) ++ r = d :: u /\ 32 < d) as (d & u & Ed & Hd).
  { destruct w1 as [|d w1]; [by eexists c, _|]. eexists d, _. split; [done|]. apply Forall_cons in H1 as [H1 _]. apply identifier_path, path_element_spec in H1 as [H1 _]. exact H1. }
  rewrite Ed. cbn [is_empty negb andb head default from_option id]. rewrite (proj2 (Z.eqb_neq d SPACE)) by (unfold SPACE; lia).
  rewrite (proj2 (Nat.ltb_lt _ _)) by lia. cbn [negb andb].
  rewrite (take_chars_result _ w1 _ l b ((c :: w2) ++ r) E H1); [|done|lia|apply (f_equal length) in E; rewrite rest_length, !length_app in E; lia].
  cbn [mbind option_bind]. rewrite peek_rest, rest_moved, E, drop_app_length. cbn [app head default from_option id].
  rewrite ends_word_spec, Hc'. rewrite !(proj2 (Z.eqb_neq c _)) by (unfold SPACE; lia). cbn [orb]. rewrite H2. cbn [negb].
  subst n. rewrite (word_run fuel true (c :: w2) (moved l (length w1)) (b ++ w1) r); [|by rewrite rest_moved, E, drop_app_length|done|done|rewrite length_app; cbn [length]; lia].
  cbn [length]. by rewrite moved_moved, <- app_assoc.
Qed.
(** ** Quoted text *)

(** Characters that need no escape code in a string. *)
Definition plain c : Prop := 32 <= c /\ is_reserved c = false.

(** What ends the plain part of a string. *)
Definition stops_text r : Prop := match r with [] => True | c :: _ => is_reserved c = true end.

Lemma plain_path c : plain c -> c <> SPACE -> is_path_element c = true.
Proof. intros [Hc Hr] Hne. apply path_element_spec. unfold SPACE in *. split; [lia|done]. Qed.

Lemma plain_ends c : plain c -> ends_word c = false.
Proof. intros [Hc Hr]. rewrite ends_word_spec, Hr, (proj2 (Z.eqb_neq c 0)) by lia. done. Qed.

Lemma stops_text_stops r : stops_text r -> stops r.
Proof. destruct r; [done|]. by right. Qed.

(** In a string a word takes some of the plain characters and no others. *)
Lemma text_word fuel : forall u ip l b r, rest l = u ++ r -> Forall plain u -> stops_text r -> (length b + length u <= BUF_SIZE)%nat ->
  (2 * length u + (if (ip : bool) then 1 else 2) <= fuel)%nat ->
  exists k ip', (k <= length u)%nat /\ word_loop fuel true ip l b = Some (Ended (moved l k) (b ++ take k u) ip').
Proof.
  induction fuel as [|fuel IH]; intros u ip l b r E Hu Hr Hb Hf; [destruct ip; lia|]. cbn [word_loop]. rewrite has_more_rest, peek_rest, E.
  destruct (negb (is_empty (u ++ r)) && negb (default 0 (head (u ++ r)) =? SPACE) && (length b <? BUF_SIZE)%nat) eqn:Ec; cycle 1.
  { exists 0%nat, ip. split; [lia|]. by rewrite moved_0, take_0, app_nil_r. }
  clear Ec. set (p := if ip then is_path_element else is_identifier). destruct (split_run p u) as (w1 & u1 & -> & H1 & Hn).
  assert (p (default 0 (head (u1 ++ r))) = false) as Hp.
  { destruct u1 as [|d u1]; [|exact Hn]. subst p. destruct ip; [by apply stops_path, stops_text_stops|by apply stops_identifier, stops_text_stops]. }
  rewrite length_app in *. rewrite <- app_assoc in E.
  rewrite (take_chars_result p w1 _ l b (u1 ++ r) E H1 Hp); [|lia|apply (f_equal length) in E; rewrite rest_length, !length_app in E; lia].
  cbn [mbind option_bind]. rewrite peek_rest, rest_moved, E, drop_app_length. apply Forall_app in Hu as [_ Hu].
  destruct u1 as [|d u1].
  - assert (ends_word (default 0 (head ([] ++ r))) = true) as -> by (destruct r as [|c r]; [done|]; cbn; by rewrite ends_word_spec, (Hr : is_reserved c = true), orb_true_r).
    exists (length w1), ip. split; [lia|]. by rewrite app_nil_r, firstn_all.
  - cbn [app head default from_option id]. inversion Hu as [|? ? Hd Hu1]; subst. rewrite plain_ends by done. destruct (d =? SPACE) eqn:Ed.
    + apply Z.eqb_eq in Ed as ->. destruct (split_run (fun c => c =? SPACE) (SPACE :: u1)) as (sp & u2 & Es & Hs & Hn2). rewrite Es in *.
      assert (0 < length sp)%nat as Hsp by (destruct sp; [|cbn; lia]; cbn in Es; subst u2; by cbn in Hn2).
      assert (((fun c => c =? SPACE) (default 0 (head (u2 ++ r)))) = false) as Hq.
      { destruct u2 as [|c u2]; [|exact Hn2]. destruct r as [|c r]; [done|]. cbn. apply Z.eqb_neq. intros ->. discriminate (Hr : is_reserved SPACE = true). }
      rewrite length_app in *. rewrite (take_chars_result _ sp _ (moved l (length w1)) (b ++ w1) (u2 ++ r)); [|by rewrite rest_moved, E, drop_app_length, <- app_assoc|done|done|rewrite length_app; lia|].
      2: { apply (f_equal length) in E. cbn [moved _input]. rewrite rest_length, !length_app in E. lia. }
      cbn [mbind option_bind]. rewrite moved_moved. apply Forall_app in Hu as [_ Hu2].
      destruct (IH u2 ip (moved l (length w1 + length sp)) ((b ++ w1) ++ sp) r) as (k & ip' & Hk & ->); [|done|done|rewrite !length_app; lia|destruct ip; lia|].
      { rewrite rest_moved, E, <- !app_assoc, (app_assoc w1 sp), <- length_app. apply drop_app_length. }
      exists (length w1 + length sp + k)%nat, ip'. split; [lia|]. rewrite moved_moved. do 2 f_equal.
      rewrite (app_assoc w1 sp), (take_app_add' (w1 ++ sp)) by (by rewrite length_app). by rewrite !app_assoc.
    + assert (d <> SPACE) as Hne by (by bool_prop). pose proof (plain_path d Hd Hne) as Hpe. subst p. destruct ip; [cbn in Hn; congruence|]. cbn in Hn. rewrite Hn. cbn [negb].
      destruct (IH (d :: u1) true (moved l (length w1)) (b ++ w1) r) as (k & ip' & Hk & ->); [by rewrite rest_moved, E, drop_app_length|done|done|rewrite length_app; lia|lia|].
      exists (length w1 + k)%nat, ip'. split; [lia|]. rewrite moved_moved. do 2 f_equal. rewrite take_app_add. by rewrite app_assoc.
Qed.
(** A word, with its first character already taken. *)
Lemma lex_word l c w r : rest l = c :: w ++ r -> Forall (fun c => is_path_element c = true) w -> stops r -> (1 + length w <= BUF_SIZE)%nat ->
  exists pos, parse_identifier_or_path_element (moved l 1) false
    = Some (push_back (moved l (1 + length w)) (mkToken (if pathlike w then PATH else IDENTIFIER) (c :: w) pos)).
Proof.
  intros E Hw Hr Hb. unfold parse_identifier_or_path_element. rewrite (before_cursor l c _ 0 E). cbn [mbind option_bind].
  assert (exists f, word_fuel (moved l 1) = S (S (S (S f)))) as [f ->].
  { exists (2 * length (_input l) - 2)%nat. unfold word_fuel, moved. cbn [_input]. apply (f_equal length) in E. rewrite rest_length in E. cbn [length] in E. lia. }
  rewrite (word_result f w (moved l 1) [c] r); [|by apply rest_cons with c|done|done|done]. cbn [mbind option_bind app]. rewrite moved_moved. by eexists.
Qed.

Lemma lex_text l c u r : rest l = c :: u ++ r -> Forall plain u -> stops_text r -> (1 + length u <= BUF_SIZE)%nat ->
  exists k t, (k <= length u)%nat /\ parse_identifier_or_path_element (moved l 1) true = Some (push_back (moved l (1 + k)) t)
    /\ (type t = IDENTIFIER \/ type t = PATH) /\ text t = c :: take k u.
Proof.
  intros E Hu Hr Hb. unfold parse_identifier_or_path_element. rewrite (before_cursor l c _ 0 E). cbn [mbind option_bind].
  destruct (text_word (word_fuel (moved l 1)) u false (moved l 1) [c] r) as (k & ip & Hk & ->); [by apply rest_cons with c|done|done|done| |].
  { unfold word_fuel. cbn [moved _input]. apply (f_equal length) in E. rewrite rest_length in E. cbn [length] in E. rewrite length_app in E. lia. }
  cbn [mbind option_bind app]. rewrite moved_moved. eexists k, _. split; [done|]. split; [done|]. split; [|done]. cbn [type]. destruct ip; auto.
Qed.

Definition escape_char c : list Z := if is_reserved c then [BACKSLASH; c] else [c].

(** A text as it is written between quotes. *)
Definition escape (s : list Z) : list Z := mjoin (escape_char <$> s).

(** The character or the text a token of a string stands for. *)
Definition value (t : Token) : list Z := if decide (type t = ESCAPE_CODE) then [default 0 (text t !! 1%nat)] else text t.

Definition text_token (t : Token) : Prop := type t = IDENTIFIER \/ type t = PATH \/ type t = ESCAPE_CODE.

Definition text_tokens (ts : list Token) (s : list Z) : Prop := Forall text_token ts /\ mjoin (value <$> ts) = s /\ (length ts <= length s)%nat.

Lemma escape_cons c s : escape (c :: s) = escape_char c ++ escape s.
Proof. done. Qed.

Lemma escape_plain u s : Forall plain u -> escape (u ++ s) = u ++ escape s.
Proof. induction 1 as [|c u [_ Hc] Hu IH]; [done|]. cbn [app]. rewrite escape_cons, IH. unfold escape_char. by rewrite Hc. Qed.

Lemma escape_length s : (length s <= length (escape s))%nat.
Proof. induction s as [|c s IH]; [done|]. rewrite escape_cons, length_app. unfold escape_char. destruct (is_reserved c); cbn [length]; lia. Qed.

Lemma text_tokens_cons t ts s1 s2 : text_token t -> value t = s1 -> (0 < length s1)%nat -> text_tokens ts s2 -> text_tokens (t :: ts) (s1 ++ s2).
Proof. intros Ht Hv Hl (H1 & H2 & H3). split; [by constructor|]. split; [change (value t ++ mjoin (value <$> ts) = s1 ++ s2); by rewrite Hv, H2|]. rewrite length_app. cbn [length]. lia. Qed.

Lemma esc_reserved c : is_esc_ch c = is_reserved c.
Proof. unfold is_esc_ch, is_reserved. destruct (c =? BACKSLASH), (c =? QUOTE_), (c =? DOLLAR_), (c =? EQUALS), (c =? GREATER); done. Qed.

(** The plain characters at the front of a text. *)
Lemma plain_prefix s r : printable s -> exists u s', s = u ++ s' /\ Forall plain u /\ stops_text (escape s' ++ QUOTE_ :: r).
Proof.
  intros Hs. destruct (split_run (fun c => negb (is_reserved c)) s) as (u & s' & -> & Hu & Hn). exists u, s'. split; [done|].
  apply Forall_app in Hs as [Hs Hs']. split.
  - apply Forall_forall. intros c Hc. split; [by apply (proj1 (Forall_forall _ _) Hs)|]. apply negb_true_iff. exact (proj1 (Forall_forall _ _) Hu c Hc).
  - destruct s' as [|d s']; [done|]. apply negb_false_iff in Hn. rewrite escape_cons. unfold escape_char. by rewrite Hn.
Qed.

Lemma string_loop_result n : forall s fuel l r, (length s <= n)%nat -> rest l = escape s ++ QUOTE_ :: r -> printable s -> (length s <= BUF_SIZE)%nat -> (n < fuel)%nat ->
  exists l' ts, string_loop fuel l = Some l' /\ rest l' = QUOTE_ :: r /\ _input l' = _input l /\ _token_buffer l' = _token_buffer l ++ ts /\ text_tokens ts s.
Proof.
  induction n as [|n IH]; intros s fuel l r Hn E Hs Hb Hf; (destruct fuel as [|fuel]; [lia|]); cbn [string_loop]; rewrite has_more_rest, peek_rest, E.
  { destruct s; [|cbn in Hn; lia]. exists l, []. rewrite app_nil_r. by split_and!. }
  destruct s as [|c s]; [exists l, []; rewrite app_nil_r; by split_and!|]. cbn [length] in Hn, Hb. inversion Hs as [|? ? Hc Hs']; subst.
  destruct (is_reserved c) eqn:Ec.
  - assert (escape (c :: s) ++ QUOTE_ :: r = BACKSLASH :: c :: escape s ++ QUOTE_ :: r) as Ee by (rewrite escape_cons; unfold escape_char; by rewrite Ec). rewrite Ee in *.
    cbn [is_empty negb andb head default from_option id]. rewrite (advance_rest l _ _ E). change (BACKSLASH =? QUOTE_) with false. cbn [negb].
    unfold string_item. change (BACKSLASH =? DOLLAR_) with false. change (BACKSLASH =? BACKSLASH) with true. cbn [mbind option_bind]. unfold parse_escape_code.
    rewrite (advance_rest (moved l 1) c (escape s ++ QUOTE_ :: r)) by (by apply rest_cons with BACKSLASH). rewrite esc_reserved, Ec, moved_moved. cbn [Nat.add].
    destruct (IH s fuel (push_back (moved l 2) (mkToken ESCAPE_CODE [BACKSLASH; c] (before (moved l 2) 2))) r) as (l' & ts & -> & Er & Ei & Eb & Ht); [lia| |done|lia|lia|].
    { change (rest (moved l 2) = escape s ++ QUOTE_ :: r). by rewrite rest_moved, E. }
    eexists l', _. split; [done|]. split; [done|]. split; [done|]. cbn [push_back _token_buffer moved] in Eb. rewrite <- app_assoc in Eb. split; [exact Eb|].
    apply (text_tokens_cons _ _ [c] s); [by right; right|done|cbn; lia|done].
  - assert (escape (c :: s) = c :: escape s) as Ee by (rewrite escape_cons; unfold escape_char; by rewrite Ec). rewrite Ee in *. cbn [app] in *.
    cbn [is_empty negb andb head default from_option id]. assert (c <> QUOTE_ /\ c <> DOLLAR_ /\ c <> BACKSLASH) as (H1 & H2 & H3) by (split_and!; intros ->; discriminate Ec).
    rewrite (proj2 (Z.eqb_neq _ _) H1). cbn [negb]. rewrite (advance_rest l c _ E). unfold string_item. rewrite (proj2 (Z.eqb_neq _ _) H2), (proj2 (Z.eqb_neq _ _) H3).
    destruct (plain_prefix s r Hs') as (u & s2 & -> & Hu & Hst). rewrite escape_plain in E by done. rewrite length_app in *. rewrite <- app_assoc in E.
    destruct (lex_text l c u _ E Hu Hst) as (k & t & Hk & -> & Htt & Htx); [lia|]. cbn [mbind option_bind].
    assert (drop k u ++ s2 = drop k (u ++ s2)) as Ed by (by rewrite drop_app_le).
    destruct (IH (drop k u ++ s2) fuel (push_back (moved l (1 + k)) t) r) as (l' & ts & -> & Er & Ei & Eb & Ht); [rewrite length_app, length_drop; lia| | |rewrite length_app, length_drop; lia|lia|].
    { change (rest (moved l (1 + k)) = escape (drop k u ++ s2) ++ QUOTE_ :: r). rewrite rest_moved, E, escape_plain by (by apply Forall_drop). cbn [Nat.add drop].
      rewrite drop_app_le by done. by rewrite app_assoc. }
    { rewrite Ed. by apply Forall_drop. }
    eexists l', _. split; [done|]. split; [done|]. split; [done|]. cbn [push_back _token_buffer moved] in Eb. rewrite <- app_assoc in Eb. split; [exact Eb|].
    replace (c :: u ++ s2) with ((c :: take k u) ++ drop k u ++ s2) by (cbn [app]; by rewrite app_assoc, take_drop).
    apply text_tokens_cons; [destruct Htt; [by left|by right; left]| |cbn; lia|done]. unfold value. rewrite decide_False by (destruct Htt as [->| ->]; done). done.
Qed.
End LexProps.

(** ** From text to syntax trees *)
Module ParseProps.
Import Lexer Ast Parser LexProps.

Implicit Types (l : Lexer) (c : Z) (r w sp : list Z) (t : Token).

(** Nothing is buffered and this is the rest of the input. *)
Definition at_ l r : Prop := rest l = r /\ _token_buffer l = [].

Definition after l (ts : list Token) : Lexer := mkLexer (_input l) (_cursor l) ts.

(** The next token, and the lexer behind it; looking at it first makes no difference. *)
Definition lexes l t l2 : Prop :=
  next_token l = Some (t, l2) /\ exists l1, peek_token l = Some (t, l1) /\ peek_token l1 = Some (t, l1) /\ next_token l1 = Some (t, l2).

Lemma buffer_next l t ts : _token_buffer l = t :: ts -> next_token l = Some (t, after l ts) /\ peek_token l = Some (t, l).
Proof. intros E. unfold next_token, peek_token. rewrite E. cbn [is_empty]. rewrite andb_false_r. cbn [mbind option_bind]. by rewrite E. Qed.

Lemma lexes_buffer l t ts : _token_buffer l = t :: ts -> lexes l t (after l ts).
Proof. intros E. destruct (buffer_next l t ts E) as [Hn Hp]. split; [done|]. by exists l. Qed.

Lemma lexes_scan l m t ts : _token_buffer l = [] -> rest l <> [] -> scan_token l = Some m -> _token_buffer m = t :: ts -> lexes l t (after m ts).
Proof.
  intros Eb Er Es Em. unfold lexes, next_token, peek_token. rewrite Eb, has_more_rest. destruct (rest l) eqn:E; [done|]. cbn [is_empty negb andb].
  rewrite Es. cbn [mbind option_bind]. rewrite Em. split; [done|]. exists m. split; [done|]. rewrite Em. cbn [is_empty]. rewrite andb_false_r. cbn [mbind option_bind]. by rewrite Em.
Qed.

(** What the first look leaves is as good as the start. *)
Lemma lexes_peek l t l2 : lexes l t l2 -> exists l1, peek_token l = Some (t, l1) /\ peek_token l1 = Some (t, l1) /\ lexes l1 t l2.
Proof. intros [_ (l1 & H1 & H2 & H3)]. exists l1. split; [done|]. split; [done|]. split; [done|]. by exists l1. Qed.

(** At most one space in front of a token. *)
Definition gap sp : Prop := sp = [] \/ sp = [SPACE].

Lemma skip_gap l sp c r : gap sp -> rest l = sp ++ c :: r -> c <> SPACE ->
  skip_white_space (length (_input l)) l = moved l (length sp) /\ rest (moved l (length sp)) = c :: r.
Proof.
  intros Hsp E Hc. split; [|by rewrite rest_moved, E, drop_app_length]. pose proof (f_equal length E) as El. rewrite rest_length, length_app in El. cbn [length] in El.
  destruct Hsp as [->| ->]; cbn [length app] in *; destruct (length (_input l)) as [|n]; try lia; cbn [skip_white_space]; rewrite peek_rest, E; cbn [head default from_option id].
  - by rewrite (proj2 (Z.eqb_neq _ _) Hc), moved_0.
  - change (SPACE =? SPACE) with true. cbn [mbind option_bind]. rewrite (advance_rest l SPACE _ E). cbn [snd].
    destruct n as [|n]; [done|]. cbn [skip_white_space]. rewrite peek_rest, (rest_cons l SPACE (c :: r) E). cbn [head default from_option id].
    by rewrite (proj2 (Z.eqb_neq _ _) Hc).
Qed.

(** The first character of a token decides. *)
Definition scan_char c l : option Lexer :=
  if c =? 0 then Some (push_back l (mkToken END [] (before l 0))) else
  if c =? DOLLAR_ then Some (push_back l (mkToken DOLLAR [c] (before l 1))) else
  if c =? EQUALS then Some (push_back l (mkToken ASSIGNMENT [c] (before l 1))) else
  if c =? DASH_ then Some (push_back l (mkToken DASH [c] (before l 1))) else
  if c =? GREATER then Some (push_back l (mkToken REDIRECT [c] (before l 1))) else
  if c =? QUOTE_ then Lexer.parse_string (push_back l (mkToken QUOTE [c] (before l 1))) else
  if c =? BACKSLASH then Some (Lexer.parse_escape_code l) else
  parse_identifier_or_path_element l false.

Lemma scan_at l sp c r : gap sp -> at_ l (sp ++ c :: r) -> c <> SPACE ->
  exists m, rest m = c :: r /\ _token_buffer m = [] /\ _input m = _input l /\ scan_token l = scan_char c (moved m 1).
Proof.
  intros Hsp [E Eb] Hc. destruct (skip_gap l sp c r Hsp E Hc) as [Es Er]. exists (moved l (length sp)). split; [done|]. split; [done|]. split; [done|].
  unfold scan_token. by rewrite Es, (advance_rest _ c r Er).
Qed.

Lemma at_nonempty l sp c r : at_ l (sp ++ c :: r) -> _token_buffer l = [] /\ rest l <> [].
Proof. intros [E Eb]. split; [done|]. rewrite E. by destruct sp. Qed.

Definition single c : option TokenType :=
  if c =? DOLLAR_ then Some DOLLAR else if c =? EQUALS then Some ASSIGNMENT else if c =? DASH_ then Some DASH else if c =? GREATER then Some REDIRECT else None.

Lemma lexes_single l sp c r ty : gap sp -> at_ l (sp ++ c :: r) -> single c = Some ty ->
  exists t l2, lexes l t l2 /\ at_ l2 r /\ type t = ty /\ _input l2 = _input l.
Proof.
  intros Hsp Hat Hty. assert (c <> SPACE /\ c <> 0) as [Hc Hc0] by (split; intros ->; discriminate Hty).
  destruct (scan_at l sp c r Hsp Hat Hc) as (m & Er & Eb & Ei & Es). destruct (at_nonempty _ _ _ _ Hat) as [Hb Hne].
  assert (exists t, scan_token l = Some (push_back (moved m 1) t) /\ type t = ty) as (t & Et & Ht).
  { rewrite Es. unfold scan_char. rewrite (proj2 (Z.eqb_neq _ _) Hc0). unfold single in Hty.
    destruct (c =? DOLLAR_); [injection Hty as <-; by eexists|]. destruct (c =? EQUALS); [injection Hty as <-; by eexists|].
    destruct (c =? DASH_); [injection Hty as <-; by eexists|]. destruct (c =? GREATER); [injection Hty as <-; by eexists|done]. }
  exists t. eexists. split; [apply (lexes_scan l _ t [] Hb Hne Et); cbn; by rewrite Eb|]. split; [|split; [done|exact Ei]].
  split; [|done]. change (rest (moved m 1) = r). by apply rest_cons with c.
Qed.

(** A word that may stand alone. *)
Definition word_ok w : Prop := Forall (fun c => is_path_element c = true) w /\ head w <> Some DASH_ /\ w <> [] /\ (length w <= BUF_SIZE)%nat.

Lemma lexes_word l sp w r : gap sp -> at_ l (sp ++ w ++ r) -> word_ok w -> stops r ->
  exists t l2, lexes l t l2 /\ at_ l2 r /\ type t = (if pathlike (tail w) then PATH else IDENTIFIER) /\ text t = w /\ _input l2 = _input l.
Proof.
  intros Hsp Hat (Hw & Hd & Hne & Hlen) Hr. destruct w as [|c w]; [done|]. cbn [app] in Hat. apply Forall_cons in Hw as [Hc Hw]. apply path_element_spec in Hc as [Hc Hres].
  destruct (scan_at l sp c (w ++ r) Hsp Hat) as (m & Er & Eb & Ei & Es); [unfold SPACE; lia|]. destruct (at_nonempty _ _ _ _ Hat) as [Hb Hn].
  destruct (lex_word m c w r Er Hw Hr Hlen) as (pos & Ew).
  assert (scan_token l = Some (push_back (moved m (1 + length w)) (mkToken (if pathlike w then PATH else IDENTIFIER) (c :: w) pos))) as Et.
  { rewrite Es, <- Ew. unfold scan_char. unfold is_reserved in Hres. rewrite !orb_false_iff in Hres. destruct Hres as ((((E1 & E2) & E3) & E4) & E5).
    rewrite E1, E2, E3, E4, E5, (proj2 (Z.eqb_neq c 0)) by lia. rewrite (proj2 (Z.eqb_neq c DASH_)) by (intros ->; by apply Hd). done. }
  eexists _, _. split; [apply (lexes_scan l _ _ [] Hb Hn Et); cbn; by rewrite Eb|]. split; [|split; [done|split; [done|exact Ei]]].
  split; [|done]. change (rest (moved m (1 + length w)) = r). rewrite rest_moved, Er. cbn [Nat.add drop]. apply drop_app_length.
Qed.

(** A quoted text: all its tokens are buffered at once. *)
Lemma scan_text l sp s r : gap sp -> at_ l (sp ++ QUOTE_ :: escape s ++ QUOTE_ :: r) -> printable s -> (length s <= BUF_SIZE)%nat ->
  exists q1 q2 ts m, scan_token l = Some m /\ _token_buffer m = q1 :: ts ++ [q2] /\ rest m = r /\ _input m = _input l
    /\ type q1 = QUOTE /\ type q2 = QUOTE /\ text_tokens ts s.
Proof.
  intros Hsp Hat Hs Hlen. destruct (scan_at l sp QUOTE_ _ Hsp Hat) as (m & Er & Eb & Ei & Es); [done|].
  set (q1 := mkToken QUOTE [QUOTE_] (before (moved m 1) 1)). set (m1 := push_back (moved m 1) q1).
  assert (scan_token l = Lexer.parse_string m1) as Es' by (by rewrite Es). unfold Lexer.parse_string in Es'.
  assert (rest m1 = escape s ++ QUOTE_ :: r) as Er1 by (change (rest (moved m 1) = escape s ++ QUOTE_ :: r); by apply rest_cons with QUOTE_).
  destruct (string_loop_result (length s) s (S (length (_input m1))) m1 r) as (m2 & ts & E2 & Er2 & Ei2 & Eb2 & Ht); [lia|done|done|done| |].
  { apply (f_equal length) in Er1. rewrite rest_length, length_app in Er1. pose proof (escape_length s). lia. }
  rewrite E2 in Es'. cbn [mbind option_bind] in Es'. rewrite has_more_rest, Er2, (advance_rest m2 QUOTE_ r Er2) in Es'. cbn [is_empty negb] in Es'.
  set (q2 := mkToken QUOTE [QUOTE_] (before (moved m2 1) 1)). exists q1, q2, ts, (push_back (moved m2 1) q2). split; [exact Es'|]. split_and!; try done.
  - cbn [push_back _token_buffer moved]. rewrite Eb2. cbn [m1 push_back _token_buffer moved]. by rewrite Eb.
  - change (rest (moved m2 1) = r). by apply rest_cons with QUOTE_.
  - change (_input m2 = _input l). by rewrite Ei2.
Qed.

(** ** The parser on tokens *)
Lemma expect_lexes l t l2 ty node : lexes l t l2 -> type t = ty -> expect ty node l = Some (Good (node t), l2).
Proof. intros [E _] Ht. unfold expect, bind. rewrite E. cbn [mbind option_bind]. by rewrite decide_True. Qed.

Definition node_of t : ASTNode := IdentifierOrPath (value t).

Lemma string_content_result ts : forall fuel content l q, _token_buffer l = ts ++ [q] -> type q = QUOTE -> Forall text_token ts -> (length ts < fuel)%nat ->
  string_content fuel content l = Some (Good (ShellString (content ++ (node_of <$> ts))), after l []).
Proof.
  induction ts as [|t ts IH]; intros fuel content l q E Hq Ht Hf; (destruct fuel as [|fuel]; [cbn in Hf; lia|]); cbn [string_content app] in *; unfold bind at 1.
  - destruct (buffer_next l q [] E) as [En Ep]. rewrite Ep. cbn [mbind option_bind]. rewrite Hq. unfold bind, ret. rewrite En. cbn [mbind option_bind fmap list_fmap].
    by rewrite app_nil_r.
  - inversion Ht as [|? ? Ht1 Ht2]; subst. destruct (buffer_next l t (ts ++ [q]) E) as [En Ep]. rewrite Ep. cbn [mbind option_bind length] in *.
    pose proof (lexes_buffer l t _ E) as Hl. specialize (IH fuel (content ++ [node_of t]) (after l (ts ++ [q])) q eq_refl Hq Ht2 ltac:(lia)).
    rewrite <- app_assoc in IH. change (after (after l (ts ++ [q])) []) with (after l []) in IH. cbn [fmap list_fmap]. cbn [app] in IH. rewrite <- IH.
    destruct Ht1 as [Ht1|[Ht1|Ht1]]; rewrite Ht1; unfold bind, parse_identifier, parse_path, parse_escape_code; rewrite (expect_lexes _ _ _ _ _ Hl Ht1);
      cbn [mbind option_bind ok]; unfold node_of, value; by rewrite Ht1.
Qed.
End ParseProps.

(** ** Command lines *)
Module CommandLine.
Import Lexer Ast Parser LexProps ParseProps.

(** An argument as a user means it: a bare word, the value of a variable, a flag, or any text. *)
Inductive Arg := AWord (w : list Z) | AVar (v : list Z) | AFlag (long : bool) (w : list Z) | AText (s : list Z).

Definition ident_ok (w : list Z) : Prop := Forall (fun c => is_identifier c = true) w /\ head w <> Some DASH_ /\ w <> [] /\ (length w <= BUF_SIZE)%nat.

Definition arg_ok (a : Arg) : Prop :=
  match a with
  | AWord w => word_ok w
  | AVar v => ident_ok v
  | AFlag _ w => ident_ok w
  | AText s => printable s /\ (length s <= BUF_SIZE)%nat
  end.

Definition print_arg (a : Arg) : list Z :=
  match a with
  | AWord w => w
  | AVar v => DOLLAR_ :: v
  | AFlag long w => (if long then [DASH_; DASH_] else [DASH_]) ++ w
  | AText s => QUOTE_ :: escape s ++ [QUOTE_]
  end.

(** What the argument is for the program. *)
Definition meaning (e : Env) (a : Arg) : list Z * Env :=
  match a with
  | AVar v => match env_var_table e !! v with Some x => (x, e) | None => ([], report (VariableNotFound v) e) end
  | AWord w | AText w => (w, e)
  | AFlag long w => ((if long then [DASH_; DASH_] else [DASH_]) ++ w, e)
  end.

Definition print_args (args : list Arg) : list Z := mjoin ((fun a => SPACE :: print_arg a) <$> args).

Definition print_redirect (f : list Z) : list Z := match f with [] => [] | _ => [SPACE; GREATER; SPACE] ++ f end.

Definition print_line (cmd : list Z) (args : list Arg) (redirect : list Z) : list Z := cmd ++ print_args args ++ print_redirect redirect.

Definition boundary (r : list Z) : Prop := r = [] \/ head r = Some SPACE.

Lemma boundary_stops r : boundary r -> stops r.
Proof. intros [->|Hr]; [done|]. destruct r as [|c r]; [done|]. injection Hr as ->. by left. Qed.

Lemma boundary_args args f : boundary (print_args args ++ print_redirect f).
Proof. destruct args as [|a args]; [destruct f; [by left|by right]|by right]. Qed.

Lemma ident_word w : ident_ok w -> word_ok w /\ pathlike (tail w) = false.
Proof.
  intros (Hw & Hd & Hne & Hl). split; [split_and!; try done; eapply Forall_impl; [exact Hw|]; apply identifier_path|].
  apply pathlike_identifiers. destruct w; [done|]. by inversion Hw.
Qed.

Definition parses (fuel : nat) (l : Lexer) (a : Arg) (r : list Z) : Prop :=
  exists t l1 n l', peek_token l = Some (t, l1) /\ type t <> END /\ type t <> REDIRECT /\ parse_argument fuel l1 = Some (Good n, l')
    /\ at_ l' r /\ _input l' = _input l /\ forall e, evaluate_part e n = meaning e a.

Lemma parses_word fuel l w r : word_ok w -> boundary r -> at_ l (SPACE :: w ++ r) -> parses fuel l (AWord w) r.
Proof.
  intros Hw Hr Hat. destruct (lexes_word l [SPACE] w r ltac:(by right) Hat Hw (boundary_stops r Hr)) as (t & l2 & Hl & Hat2 & Ht & Hx & Hi).
  destruct (lexes_peek l t l2 Hl) as (l1 & Hp & Hp1 & Hl1). exists t, l1, (IdentifierOrPath w), l2.
  assert (type t = PATH \/ type t = IDENTIFIER) as Hty by (destruct (pathlike (tail w)); auto).
  split_and!; try done; [destruct Hty as [E|E]; rewrite E; done..|].
  unfold parse_argument, bind. rewrite Hp1. cbn [mbind option_bind]. rewrite <- Hx.
  destruct Hty as [E|E]; rewrite E; [exact (expect_lexes l1 t l2 PATH _ Hl1 E)|exact (expect_lexes l1 t l2 IDENTIFIER _ Hl1 E)].
Qed.

(** An identifier that follows a dollar or a dash at once. *)
Lemma next_identifier l w r : ident_ok w -> boundary r -> at_ l (w ++ r) ->
  exists t l2, lexes l t l2 /\ type t = IDENTIFIER /\ text t = w /\ at_ l2 r /\ _input l2 = _input l.
Proof.
  intros Hw Hr Hat. destruct (ident_word w Hw) as [Hwo Hpl].
  destruct (lexes_word l [] w r ltac:(by left) Hat Hwo (boundary_stops r Hr)) as (t & l2 & Hl & Hat2 & Ht & Hx & Hi). rewrite Hpl in Ht. exists t, l2. by split_and!.
Qed.

Lemma parses_var fuel l v r : ident_ok v -> boundary r -> at_ l (SPACE :: DOLLAR_ :: v ++ r) -> parses fuel l (AVar v) r.
Proof.
  intros Hv Hr Hat. destruct (lexes_single l [SPACE] DOLLAR_ (v ++ r) DOLLAR ltac:(by right) Hat eq_refl) as (t & l2 & Hl & Hat2 & Ht & Hi).
  destruct (next_identifier l2 v r Hv Hr Hat2) as (t2 & l3 & Hl2 & Ht2 & Hx & Hat3 & Hi2).
  destruct (lexes_peek l t l2 Hl) as (l1 & Hp & Hp1 & Hl1). exists t, l1, (EnvVar (IdentifierOrPath v)), l3.
  split_and!; try done; [by rewrite Ht|by rewrite Ht| |by rewrite Hi2].
  unfold parse_argument, parse_env_var, bind. rewrite Hp1. cbn [mbind option_bind]. rewrite Ht, (proj1 Hl1). cbn [mbind option_bind]. rewrite decide_True by done.
  unfold parse_identifier. rewrite (expect_lexes _ _ _ _ _ Hl2 Ht2). cbn [mbind option_bind ok]. by rewrite Hx.
Qed.

Lemma parses_flag fuel l long w r : ident_ok w -> boundary r -> at_ l (SPACE :: print_arg (AFlag long w) ++ r) -> parses fuel l (AFlag long w) r.
Proof.
  intros Hw Hr Hat. cbn [print_arg] in Hat.
  assert (exists t l2, lexes l t l2 /\ at_ l2 ((if long then [DASH_] else []) ++ w ++ r) /\ type t = DASH /\ _input l2 = _input l) as (t & l2 & Hl & Hat2 & Ht & Hi).
  { destruct long; exact (lexes_single l [SPACE] DASH_ _ DASH ltac:(by right) Hat eq_refl). }
  destruct (lexes_peek l t l2 Hl) as (l1 & Hp & Hp1 & Hl1).
  assert (exists n l3, parse_flag l1 = Some (Good n, l3) /\ n = IdentifierOrPath ((if long then [DASH_; DASH_] else [DASH_]) ++ w) /\ at_ l3 r /\ _input l3 = _input l)
    as (n & l3 & Hn & -> & Hat3 & Hi3).
  { unfold parse_flag, bind. rewrite (proj1 Hl1). cbn [mbind option_bind]. destruct long.
    - destruct (lexes_single l2 [] DASH_ _ DASH ltac:(by left) Hat2 eq_refl) as (t2 & l3 & Hl2 & Hat3 & Ht2 & Hi2).
      destruct (next_identifier l3 w r Hw Hr Hat3) as (t3 & l4 & Hl3 & Ht3 & Hx & Hat4 & Hi3). rewrite (proj1 Hl2). cbn [mbind option_bind].
      rewrite decide_True, Ht2, (proj1 Hl3) by done. cbn [mbind option_bind]. rewrite decide_True, Hx by done. eexists _, _. split; [done|]. split_and!; [done|done|congruence].
    - destruct (next_identifier l2 w r Hw Hr Hat2) as (t3 & l4 & Hl3 & Ht3 & Hx & Hat4 & Hi3). rewrite (proj1 Hl3). cbn [mbind option_bind].
      rewrite decide_True, Ht3, Hx by done. eexists _, _. split; [done|]. split_and!; [done|done|congruence]. }
  exists t, l1, (IdentifierOrPath ((if long then [DASH_; DASH_] else [DASH_]) ++ w)), l3. split; [done|]. split; [by rewrite Ht|]. split; [by rewrite Ht|]. split; [|by split; [|split]].
  unfold parse_argument, bind. rewrite Hp1. cbn [mbind option_bind]. rewrite Ht. exact Hn.
Qed.

(** The value of a string is the text its tokens stand for. *)
Lemma fold_values (ts : list Token) e : forall acc,
  foldl (fun '(value, e) f => let '(v, e) := f e in (value ++ v, e)) (acc, e) (map (fun n e => evaluate_part e n) (node_of <$> ts)) = (acc ++ mjoin (value <$> ts), e).
Proof.
  induction ts as [|t ts IH]; intros acc; [cbn; by rewrite app_nil_r|]. etransitivity; [exact (IH (acc ++ value t))|].
  change (mjoin (value <$> t :: ts)) with (value t ++ mjoin (value <$> ts)). by rewrite app_assoc.
Qed.

Lemma evaluate_text ts s e : mjoin (value <$> ts) = s -> evaluate_part e (ShellString (node_of <$> ts)) = (s, e).
Proof. intros <-. exact (fold_values ts e []). Qed.

Lemma parses_text fuel l s r : printable s -> (length s <= BUF_SIZE)%nat -> at_ l (SPACE :: print_arg (AText s) ++ r) -> (length s < fuel)%nat -> parses fuel l (AText s) r.
Proof.
  intros Hs Hlen Hat Hf. cbn [print_arg app] in Hat. rewrite <- app_assoc in Hat. cbn [app] in Hat.
  destruct (scan_text l [SPACE] s r ltac:(by right) Hat Hs Hlen) as (q1 & q2 & ts & m & Em & Eb & Er & Ei & H1 & H2 & Ht & Hv & Hl).
  destruct (at_nonempty l [SPACE] _ _ Hat) as [Hb Hn]. pose proof (lexes_scan l m q1 _ Hb Hn Em Eb) as Hlx.
  destruct (lexes_peek _ _ _ Hlx) as (l1 & Hp & Hp1 & Hl1). exists q1, l1, (ShellString (node_of <$> ts)), (after m []).
  split; [done|]. split; [by rewrite H1|]. split; [by rewrite H1|]. split; [|split; [|split; [|by intros e; apply evaluate_text]]].
  - unfold parse_argument, parse_string, bind. rewrite Hp1. cbn [mbind option_bind]. rewrite H1, (proj1 Hl1). cbn [mbind option_bind]. rewrite decide_True by done.
    apply (string_content_result ts fuel [] (after m (ts ++ [q2])) q2); [done|done|done|lia].
  - split; [exact Er|done].
  - exact Ei.
Qed.

Lemma parses_arg fuel l a r : arg_ok a -> boundary r -> at_ l (SPACE :: print_arg a ++ r) -> (length (print_arg a) < fuel)%nat -> parses fuel l a r.
Proof.
  intros Ha Hr Hat Hf. destruct a as [w|v|long w|s]; [by apply parses_word|by apply parses_var|by apply parses_flag|].
  destruct Ha as [Hs Hl]. cbn [print_arg length] in Hf. rewrite length_app in Hf. pose proof (escape_length s). apply parses_text; [done|done|done|lia].
Qed.
Fixpoint meanings (e : Env) (args : list Arg) : list (list Z) * Env :=
  match args with [] => ([], e) | a :: args => let '(v, e) := meaning e a in let '(vs, e) := meanings e args in (v :: vs, e) end.

Definition redirect_ok (f : list Z) : Prop := f = [] \/ word_ok f.

(** The end of the line: nothing, or the redirection. *)
Lemma line_end fuel l cmd acc f : redirect_ok f -> at_ l (print_redirect f) ->
  exists l', arguments (S fuel) cmd acc l = Some (Good (CommandSequence cmd acc f), l').
Proof.
  intros Hf Hat. cbn [arguments]. unfold bind at 1. destruct Hf as [->|Hf].
  - destruct Hat as [Er Eb]. unfold peek_token. rewrite has_more_rest, Er, Eb. cbn. by eexists.
  - assert (at_ l ([SPACE] ++ GREATER :: SPACE :: f)) as Hat' by (destruct Hf as (_ & _ & Hne & _); by destruct f). clear Hat.
    destruct (lexes_single l [SPACE] GREATER (SPACE :: f) REDIRECT ltac:(by right) Hat' eq_refl) as (t & l2 & Hl & Hat2 & Ht & _).
    assert (at_ l2 ([SPACE] ++ f ++ [])) as Hat2' by (by rewrite app_nil_r).
    destruct (lexes_word l2 [SPACE] f [] ltac:(by right) Hat2' Hf I) as (t2 & l3 & Hl2 & _ & Ht2 & Hx & _).
    destruct (lexes_peek _ _ _ Hl) as (l1 & Hp & _ & Hl1). rewrite Hp. cbn [mbind option_bind]. rewrite Ht. unfold bind. rewrite (proj1 Hl1). cbn [mbind option_bind].
    rewrite (proj1 Hl2). cbn [mbind option_bind]. rewrite Ht2, Hx. exists l3. by destruct (pathlike (tail f)).
Qed.

Lemma arguments_result args : forall fuel l cmd acc f, Forall arg_ok args -> redirect_ok f -> at_ l (print_args args ++ print_redirect f) ->
  (length (print_args args) < fuel)%nat ->
  exists ns l', arguments fuel cmd acc l = Some (Good (CommandSequence cmd (acc ++ ns) f), l') /\ forall e, evaluate_all e ns = meanings e args.
Proof.
  induction args as [|a args IH]; intros fuel l cmd acc f Hargs Hf Hat Hfuel; (destruct fuel as [|fuel]; [cbn in Hfuel; lia|]).
  - destruct (line_end fuel l cmd acc f Hf Hat) as (l' & E). exists [], l'. rewrite app_nil_r. by split.
  - inversion Hargs as [|? ? Ha Hargs']; subst. change (print_args (a :: args)) with ((SPACE :: print_arg a) ++ print_args args) in *.
    rewrite <- app_assoc in Hat. rewrite length_app in Hfuel. cbn [length] in Hfuel.
    destruct (parses_arg (S fuel) l a _ Ha (boundary_args args f) Hat) as (t & l1 & n & l2 & Hp & H1 & H2 & Hn & Hat2 & Hi & Hv); [lia|].
    destruct (IH fuel l2 cmd (acc ++ [n]) f Hargs' Hf Hat2) as (ns & l' & E & Hns); [lia|]. exists (n :: ns), l'. split.
    + assert (bind (parse_argument (S fuel)) (fun arg => ok arg (fun n => arguments fuel cmd (acc ++ [n]))) l1
        = Some (Good (CommandSequence cmd (acc ++ n :: ns) f), l')) as Ec.
      { unfold bind. rewrite Hn. cbn [mbind option_bind ok]. by rewrite E, <- app_assoc. }
      cbn [arguments]. unfold bind at 1. rewrite Hp. cbn [mbind option_bind]. destruct (type t); first [done|exact Ec].
    + intros e. cbn [evaluate_all meanings]. rewrite Hv. destruct (meaning e a) as [v e']. by rewrite Hns.
Qed.

Lemma parse_line_result cmd args f : word_ok cmd -> Forall arg_ok args -> redirect_ok f ->
  exists ns, parse_shell_input (print_line cmd args f) = Some (Good (CommandSequence (IdentifierOrPath cmd) ns f)) /\ forall e, evaluate_all e ns = meanings e args.
Proof.
  intros Hc Hargs Hf. set (line := print_line cmd args f). set (l := new_lexer line). set (fuel := (2 * length line + 2)%nat).
  assert (at_ l ([] ++ cmd ++ print_args args ++ print_redirect f)) as Hat by done.
  destruct (lexes_word l [] cmd _ ltac:(by left) Hat Hc (boundary_stops _ (boundary_args args f))) as (t & l2 & Hl & Hat2 & Ht & Hx & _).
  destruct (lexes_peek _ _ _ Hl) as (l1 & Hp & Hp1 & Hl1).
  destruct (arguments_result args fuel l2 (IdentifierOrPath cmd) [] f Hargs Hf Hat2) as (ns & l' & E & Hns).
  { subst fuel line. unfold print_line. rewrite !length_app. lia. }
  exists ns. split; [|done]. unfold parse_shell_input. fold l fuel. unfold parse_input, bind. rewrite Hp. cbn [mbind option_bind].
  assert (parse_command_sequence fuel l1 = Some (Good (CommandSequence (IdentifierOrPath cmd) ns f), l')) as Ecs.
  { unfold parse_command_sequence, bind. rewrite Hp1. cbn [mbind option_bind]. destruct (pathlike (tail cmd)).
    - rewrite decide_True by done. unfold parse_path. rewrite (expect_lexes _ _ _ _ _ Hl1 Ht). cbn [mbind option_bind ok]. by rewrite Hx.
    - rewrite decide_False by (by rewrite Ht). unfold parse_identifier. rewrite (expect_lexes _ _ _ _ _ Hl1 Ht). cbn [mbind option_bind ok]. by rewrite Hx. }
  rewrite Ht. destruct (pathlike (tail cmd)); cbn [mbind option_bind]; by rewrite Ecs.
Qed.

(** The room the arguments take in the buffer. *)
Definition room (vs : list (list Z)) : Z := foldr (fun v n => zlen v + 1 + n) 0 vs.

Lemma room_nonneg vs : 0 <= room vs.
Proof. induction vs as [|v vs IH]; [done|]. cbn [room foldr]. fold (room vs). pose proof (zlen_nonneg v). lia. Qed.

Lemma pack_result ns : forall e pos argv, pos + room (evaluate_all e ns).1 < ARGV_LIMIT ->
  pack_arguments e ns pos argv = Some (Some (argv ++ (c_string <$> (evaluate_all e ns).1)), (evaluate_all e ns).2).
Proof.
  induction ns as [|n ns IH]; intros e pos argv Hr; [cbn; by rewrite app_nil_r|]. cbn [pack_arguments evaluate_all] in *.
  destruct (evaluate_part e n) as [v e1]. specialize (IH e1 (pos + zlen v + 1) (argv ++ [c_string v])). destruct (evaluate_all e1 ns) as [vs e2].
  cbn [fst snd] in *. cbn [room foldr] in Hr. fold (room vs) in Hr. pose proof (room_nonneg vs).
  rewrite (proj2 (Z.ltb_ge _ _)), (proj2 (Z.leb_gt _ _)) by lia. rewrite IH by lia. by rewrite <- app_assoc.
Qed.

(** C21: A command with words, flags, variables and quoted texts is handed over exactly: the command line that
    writes them out, with every reserved character of a text escaped, is parsed, and the command gets the words,
    the values of the variables and the texts themselves, in order, and its redirection. *)
Theorem command_line_roundtrip e cmd args f vs e' : word_ok cmd -> Forall arg_ok args -> redirect_ok f -> meanings e args = (vs, e') -> room vs < ARGV_LIMIT ->
  exec e (print_line cmd args f) = Some (launch (cmd, c_string <$> vs, f) e', None).
Proof.
  intros Hc Hargs Hf Hm Hr. destruct (parse_line_result cmd args f Hc Hargs Hf) as (ns & E & Hns). unfold exec. rewrite E. cbn [mbind option_bind evaluate evaluate_part].
  pose proof (pack_result ns e 0 []) as Hp. rewrite Hns, Hm in Hp. rewrite Hp by (cbn [fst]; lia). done.
Qed.
End CommandLine.

(** ** The parser returns *)
Module Termination.
Import Lexer Ast Parser LexProps ParseProps.

Definition lexer_ok (l : Lexer) : Prop := printable (rest l) /\ (length (_input l) <= BUF_SIZE)%nat.

(** Characters count twice: a dollar at the end of the input gives two tokens. *)
Definition measure (l : Lexer) : nat := 2 * length (rest l) + length (_token_buffer l).

Lemma ok_moved l n : lexer_ok l -> lexer_ok (moved l n).
Proof. intros [Hp Hl]. split; [rewrite rest_moved; by apply Forall_drop|done]. Qed.

Lemma ok_push l t : lexer_ok l -> lexer_ok (push_back l t).
Proof. done. Qed.

Lemma measure_push l n t : measure (push_back (moved l n) t) = (2 * (length (rest l) - n) + length (_token_buffer l) + 1)%nat.
Proof. unfold measure. change (rest (push_back (moved l n) t)) with (rest (moved l n)). rewrite rest_moved, length_drop. cbn. rewrite length_app. cbn. lia. Qed.

Lemma rest_input l : (length (rest l) <= length (_input l))%nat.
Proof. rewrite rest_length. lia. Qed.

(** A word always ends. *)
Lemma word_total l ws c r : lexer_ok l -> rest l = c :: r ->
  exists k t, (k <= length r)%nat /\ parse_identifier_or_path_element (moved l 1) ws = Some (push_back (moved l (1 + k)) t).
Proof.
  intros [Hp Hl] E. pose proof (rest_input l) as Hri. rewrite E in Hri, Hp. cbn [length] in Hri. apply Forall_cons in Hp as [_ Hp]. destruct ws.
  - destruct (split_run (fun c => negb (is_reserved c)) r) as (u & v & -> & Hu & Hv). rewrite length_app in *.
    destruct (lex_text l c u v E) as (k & t & Hk & -> & _); [| |lia|exists k, t; split; [lia|done]].
    + apply Forall_forall. intros d Hd. split; [apply (proj1 (Forall_forall _ _) Hp); apply elem_of_app; by left|]. apply negb_true_iff. exact (proj1 (Forall_forall _ _) Hu d Hd).
    + destruct v; [done|]. by apply negb_false_iff.
  - destruct (split_run is_path_element r) as (w & v & -> & Hw & Hv). rewrite length_app in *.
    destruct (lex_word l c w v E Hw) as [pos ->]; [|lia|eexists (length w), _; split; [lia|done]].
    destruct v as [|d v]; [done|]. apply Forall_app in Hp as [_ [Hd _]%Forall_cons]. unfold stops. destruct (decide (d = SPACE)) as [->|Hne]; [by left|right].
    apply not_false_iff_true. intros Hr. rewrite (proj2 (path_element_spec d)) in Hv; [done|]. unfold SPACE in Hne. split; [lia|done].
Qed.

(** What a step of the loop of a string does to the measure. *)
Definition advances (l l1 : Lexer) : Prop :=
  lexer_ok l1 /\ (length (rest l1) < length (rest l))%nat /\ (measure l1 <= measure l)%nat /\ (length (_token_buffer l) <= length (_token_buffer l1))%nat.

Lemma advances_push l n t : lexer_ok l -> (0 < n)%nat -> (0 < length (rest l))%nat -> advances l (push_back (moved l n) t).
Proof.
  intros Hok Hn Hl. split; [by apply ok_push, ok_moved|]. rewrite measure_push. change (rest (push_back (moved l n) t)) with (rest (moved l n)).
  rewrite rest_moved, length_drop. unfold measure. cbn. rewrite length_app. cbn. lia.
Qed.

Lemma advances_push2 l n m t1 t2 : lexer_ok l -> (0 < n)%nat -> (0 < length (rest l))%nat -> advances l (push_back (moved (push_back (moved l n) t1) m) t2).
Proof.
  intros Hok Hn Hl. split; [by apply ok_push, (ok_moved (push_back (moved l n) t1)), ok_push, ok_moved|]. rewrite measure_push.
  change (rest (push_back (moved (push_back (moved l n) t1) m) t2)) with (rest (moved (moved l n) m)). change (rest (push_back (moved l n) t1)) with (rest (moved l n)).
  rewrite !rest_moved, !length_drop. unfold measure. cbn. rewrite !length_app. cbn. lia.
Qed.

Lemma escape_total l c r : lexer_ok l -> rest l = c :: r -> exists n t, (0 < n)%nat /\ Lexer.parse_escape_code (moved l 1) = push_back (moved l n) t.
Proof.
  intros Hok E. unfold Lexer.parse_escape_code. destruct r as [|d r].
  - exists 1%nat. unfold advance. rewrite has_more_rest, (rest_cons l c [] E). cbn [is_empty negb]. eexists. split; [lia|]. done.
  - exists 2%nat. rewrite (advance_rest (moved l 1) d r) by (by apply rest_cons with c). rewrite moved_moved. cbn [Nat.add]. eexists. split; [lia|]. done.
Qed.

Lemma string_item_total l c r : lexer_ok l -> rest l = c :: r -> exists l1, string_item c (moved l 1) = Some l1 /\ advances l l1.
Proof.
  intros Hok E. pose proof (f_equal length E) as El. cbn [length] in El. unfold string_item. destruct (c =? DOLLAR_); [|destruct (c =? BACKSLASH)].
  - set (t0 := mkToken DOLLAR [c] _). set (l0 := push_back (moved l 1) t0).
    assert (rest l0 = r) as E0 by (change (rest (moved l 1) = r); by apply rest_cons with c). assert (lexer_ok l0) as Hok0 by (by apply ok_push, ok_moved).
    destruct r as [|d r].
    + assert (advance l0 = (0, moved (push_back l t0) 1)) as -> by (unfold advance; by rewrite has_more_rest, E0).
      destruct (word_total (push_back l t0) false c [] (ok_push l t0 Hok) E) as (k & t & Hk & ->). eexists. split; [done|].
      replace (moved (push_back l t0) (1 + k)) with (moved (push_back (moved l 1) t0) k) by (unfold moved, push_back; cbn; f_equal; lia). apply advances_push2; [done|lia|lia].
    + rewrite (advance_rest l0 d r E0). destruct (word_total l0 false d r Hok0 E0) as (k & t & Hk & ->). eexists. split; [done|]. apply advances_push2; [done|lia|lia].
  - destruct (escape_total l c r Hok E) as (n & t & Hn & ->). eexists. split; [done|]. apply advances_push; [done|lia|lia].
  - destruct (word_total l true c r Hok E) as (k & t & Hk & ->). eexists. split; [done|]. apply advances_push; [done|lia|lia].
Qed.

Lemma string_loop_total fuel : forall l, lexer_ok l -> (length (rest l) < fuel)%nat ->
  exists l', string_loop fuel l = Some l' /\ lexer_ok l' /\ (measure l' <= measure l)%nat /\ (length (_token_buffer l) <= length (_token_buffer l'))%nat.
Proof.
  induction fuel as [|fuel IH]; intros l Hok Hf; [lia|]. cbn [string_loop]. rewrite has_more_rest, peek_rest. destruct (rest l) as [|c r] eqn:E; [by exists l|].
  cbn [is_empty negb andb head default from_option id]. destruct (c =? QUOTE_); [by exists l|]. cbn [negb]. rewrite (advance_rest l c r E).
  destruct (string_item_total l c r Hok E) as (l1 & -> & Hok1 & Hr1 & Hm1 & Hb1). rewrite E in Hr1. cbn [mbind option_bind length] in *.
  destruct (IH l1 Hok1 ltac:(lia)) as (l' & -> & Hok' & Hm' & Hb'). exists l'. split; [done|]. split; [done|]. lia.
Qed.

Lemma skip_total n : forall l, exists k, skip_white_space n l = moved l k /\ (peek (moved l k) = SPACE -> n = k).
Proof.
  induction n as [|n IH]; intros l; cbn [skip_white_space]; [exists 0%nat; by rewrite moved_0|]. destruct (peek l =? SPACE) eqn:Ep; cycle 1.
  { exists 0%nat. rewrite moved_0. split; [done|]. intros E. apply Z.eqb_neq in Ep. done. }
  apply Z.eqb_eq in Ep. destruct (rest l) as [|c r] eqn:E; [rewrite peek_rest, E in Ep; done|]. rewrite (advance_rest l c r E). cbn [snd].
  destruct (IH (moved l 1)) as (k & -> & Hk). exists (S k). rewrite moved_moved. split; [done|]. intros Ep'. f_equal. apply Hk. by rewrite moved_moved.
Qed.

Lemma scan_char_total l c r : lexer_ok l -> rest l = c :: r -> exists l1, scan_char c (moved l 1) = Some l1 /\ advances l l1 /\ _token_buffer l1 <> [].
Proof.
  intros Hok E. assert (0 < length (rest l))%nat as Hpos by (rewrite E; cbn; lia).
  assert (forall n t, (0 < n)%nat -> exists l1, Some (push_back (moved l n) t) = Some l1 /\ advances l l1 /\ _token_buffer l1 <> []) as Hone.
  { intros n t Hn. eexists. split; [done|]. split; [by apply advances_push|]. cbn. by destruct (_token_buffer l). }
  unfold scan_char. destruct (c =? 0); [apply (Hone 1%nat); lia|]. destruct (c =? DOLLAR_); [apply (Hone 1%nat); lia|]. destruct (c =? EQUALS); [apply (Hone 1%nat); lia|].
  destruct (c =? DASH_); [apply (Hone 1%nat); lia|]. destruct (c =? GREATER); [apply (Hone 1%nat); lia|]. destruct (c =? QUOTE_); [|destruct (c =? BACKSLASH)].
  - set (t0 := mkToken _ _ _). set (l0 := push_back (moved l 1) t0). assert (advances l l0) as (Hok0 & Hr0 & Hm0 & Hb0) by (apply advances_push; [done|lia|done]).
    assert (0 < length (_token_buffer l0))%nat as Hb by (cbn; rewrite length_app; cbn; lia).
    unfold Lexer.parse_string. destruct (string_loop_total (S (length (_input l0))) l0 Hok0) as (l1 & -> & Hok1 & Hm1 & Hb1); [pose proof (rest_input l0); lia|]. cbn [mbind option_bind].
    assert (length (rest l1) <= length (rest l0))%nat as Hr1 by (unfold measure in Hm1; lia).
    rewrite has_more_rest. destruct (rest l1) as [|d v] eqn:E1; cbn [is_empty negb].
    + exists l1. split; [done|]. split; [|intros E0; rewrite E0 in Hb1; cbn [length] in Hb1; lia]. split; [done|]. rewrite E1. cbn [length] in *. lia.
    + rewrite (advance_rest l1 d v E1). eexists. split; [done|]. assert (advances l1 (push_back (moved l1 1) (mkToken QUOTE [d] (before (moved l1 1) 1)))) as (H1 & H2 & H3 & H4)
        by (apply advances_push; [done|lia|rewrite E1; cbn; lia]). rewrite E1 in H2.
      split; [split; [done|lia]|]. cbn. by destruct (_token_buffer l1).
  - destruct (escape_total l c r Hok E) as (n & t & Hn & ->). by apply Hone.
  - destruct (word_total l false c r Hok E) as (k & t & Hk & ->). apply Hone. lia.
Qed.

Lemma scan_total l : lexer_ok l -> rest l <> [] -> _token_buffer l = [] ->
  exists l', scan_token l = Some l' /\ lexer_ok l' /\ (measure l' <= measure l)%nat /\ _token_buffer l' <> [].
Proof.
  intros Hok Hne Eb. destruct (skip_total (length (_input l)) l) as (k & Es & Hk). set (l0 := moved l k) in *.
  assert (lexer_ok l0) as Hok0 by by apply ok_moved. assert (length (rest l0) = length (rest l) - k)%nat as Hl0 by (subst l0; by rewrite rest_moved, length_drop).
  assert (0 < length (rest l))%nat as Hpos by (destruct (rest l); [done|cbn; lia]). assert (measure l = 2 * length (rest l))%nat as Hm by (unfold measure; rewrite Eb; cbn; lia).
  assert (scan_token l = (let '(c, l) := advance l0 in scan_char c l)) as -> by (unfold scan_token; by rewrite Es).
  destruct (rest l0) as [|c r] eqn:E.
  - unfold advance. rewrite has_more_rest, E. cbn [is_empty negb]. eexists. split; [done|]. split; [by apply ok_push|]. split; [|cbn; by rewrite Eb].
    rewrite Hm. unfold measure. change (rest (push_back l0 _)) with (rest l0). rewrite E. cbn. rewrite Eb. cbn. lia.
  - rewrite (advance_rest l0 c r E). destruct (scan_char_total l0 c r Hok0 E) as (l1 & -> & (H1 & H2 & H3 & H4) & Hb). exists l1. split; [done|]. split; [done|]. split; [|done].
    etransitivity; [exact H3|]. rewrite Hm. unfold measure. rewrite E, Hl0. change (_token_buffer l0) with (_token_buffer l). rewrite Eb. cbn [length]. lia.
Qed.
(** ** Tokens are taken *)

(** The first token is known, and taking it makes progress unless it is the end. *)
Definition looks (l : Lexer) (t : Token) : Prop :=
  lexer_ok l /\ peek_token l = Some (t, l) /\ exists l2, next_token l = Some (t, l2) /\ lexer_ok l2 /\ (measure l2 <= measure l)%nat /\ (type t <> END -> (measure l2 < measure l)%nat).

Lemma looks_buffer l t ts : lexer_ok l -> _token_buffer l = t :: ts -> looks l t.
Proof.
  intros Hok E. destruct (buffer_next l t ts E) as [Hn Hp]. split; [done|]. split; [done|]. exists (after l ts). split; [done|]. split; [done|].
  unfold measure. change (rest (after l ts)) with (rest l). rewrite E. cbn. lia.
Qed.

Lemma peek_total l : lexer_ok l -> exists t l1, peek_token l = Some (t, l1) /\ looks l1 t /\ (measure l1 <= measure l)%nat /\ (next_token l1 = next_token l).
Proof.
  intros Hok. destruct (_token_buffer l) as [|t ts] eqn:Eb; cycle 1.
  { destruct (buffer_next l t ts Eb) as [Hn Hp]. exists t, l. split; [done|]. split; [by apply (looks_buffer l t ts)|done]. }
  destruct (rest l) as [|c r] eqn:E.
  - assert (forall A (x y : A), (if negb (has_more l) && is_empty (_token_buffer l) then x else y) = x) as Hif by (intros; by rewrite has_more_rest, E, Eb).
    exists (end_token l), l. unfold peek_token. rewrite Hif. split; [done|]. split; [|done]. split; [done|]. unfold peek_token, next_token. rewrite !Hif. split; [done|].
    exists l. by split_and!.
  - destruct (scan_total l Hok ltac:(by rewrite E) Eb) as (l1 & Es & Hok1 & Hm1 & Hb1). destruct (_token_buffer l1) as [|t ts] eqn:E1; [done|].
    destruct (buffer_next l1 t ts E1) as [Hn Hp]. exists t, l1. unfold peek_token, next_token at 2. rewrite Eb, has_more_rest, E. cbn [is_empty negb andb]. rewrite Es. cbn [mbind option_bind]. rewrite E1.
    split; [done|]. split; [by apply (looks_buffer l1 t ts)|]. split; [done|exact Hn].
Qed.

(** A method that returns with no more to read than before; with less, when it does not fail and the first token
    is not the end. *)
Definition returns (n : nat) (P : Parse ParsedInput) : Prop :=
  forall l t, looks l t -> (measure l <= n)%nat ->
  exists r l', P l = Some (r, l') /\ lexer_ok l' /\ (measure l' <= measure l)%nat /\ (type t <> END -> (exists a x, r = Error a x) \/ (measure l' < measure l)%nat).

(** Total, whatever was looked at. *)
Definition total (n : nat) (P : Parse ParsedInput) : Prop :=
  forall l, lexer_ok l -> (measure l <= n)%nat -> exists r l', P l = Some (r, l') /\ lexer_ok l' /\ (measure l' <= measure l)%nat.

Lemma next_total l : lexer_ok l -> exists t l2, next_token l = Some (t, l2) /\ lexer_ok l2 /\ (measure l2 <= measure l)%nat.
Proof.
  intros Hok. destruct (peek_total l Hok) as (t & l1 & _ & (_ & _ & l2 & Hn & Hok2 & Hm2 & _) & Hm1 & Hn1). exists t, l2. rewrite <- Hn1. split; [done|]. split; [done|lia].
Qed.

(** A method that first takes a token and goes on with a total one. *)
Lemma returns_next n f : (forall t, total n (f t)) -> returns n (bind next_token f).
Proof.
  intros Hf l t (Hok & _ & l2 & Hn & Hok2 & Hm2 & Hlt) Hm. unfold bind. rewrite Hn. cbn [mbind option_bind].
  destruct (Hf t l2 Hok2 ltac:(lia)) as (r & l' & -> & Hok' & Hm'). exists r, l'. split; [done|]. split; [done|]. split; [lia|]. intros Ht. specialize (Hlt Ht). right. lia.
Qed.

Lemma total_next n f : (forall t, total n (f t)) -> total n (bind next_token f).
Proof.
  intros Hf l Hok Hm. unfold bind. destruct (next_total l Hok) as (t & l2 & -> & Hok2 & Hm2). cbn [mbind option_bind].
  destruct (Hf t l2 Hok2 ltac:(lia)) as (r & l' & -> & Hok' & Hm'). exists r, l'. split; [done|]. split; [done|lia].
Qed.

Lemma total_ret n r : total n (ret r).
Proof. intros l Hok Hm. by exists r, l. Qed.

(** A total method and a rest that is total after success. *)
Lemma total_ok n P k : total n P -> (forall a, total n (k a)) -> total n (r <- P;; ok r k)%parse.
Proof.
  intros HP Hk l Hok Hm. unfold bind. destruct (HP l Hok Hm) as (r & l1 & -> & Hok1 & Hm1). cbn [mbind option_bind]. destruct r as [a|a x]; [|by exists (Error a x), l1].
  cbn [ok]. destruct (Hk a l1 Hok1 ltac:(lia)) as (r & l' & -> & Hok' & Hm'). exists r, l'. split; [done|]. split; [done|lia].
Qed.

Lemma total_if {A : Prop} `{Decision A} n P Q : total n P -> total n Q -> total n (if decide A then P else Q).
Proof. by case_decide. Qed.

Lemma returns_expect n ty node : returns n (expect ty node).
Proof. apply returns_next. intros t. apply total_ret. Qed.

Lemma total_expect n ty node : total n (expect ty node).
Proof. apply total_next. intros t. apply total_ret. Qed.

Lemma returns_env_var n : returns n parse_env_var.
Proof. apply returns_next. intros t. apply total_if; [|apply total_ret]. apply total_ok; [apply total_expect|]. intros a. apply total_ret. Qed.

Lemma total_env_var n : total n parse_env_var.
Proof. apply total_next. intros t. apply total_if; [|apply total_ret]. apply total_ok; [apply total_expect|]. intros a. apply total_ret. Qed.

(** One turn of a loop: the method takes a token or fails, and the loop goes on with less. *)
Lemma turn n m P k : returns (S n) P -> (m <= S n)%nat -> (forall a, total n (k a)) -> forall l t, looks l t -> type t <> END -> (measure l <= m)%nat ->
  exists r l', (r <- P;; ok r k)%parse l = Some (r, l') /\ lexer_ok l' /\ (measure l' <= measure l)%nat.
Proof.
  intros HP Hmn Hk l t Hl Ht Hm. destruct (HP l t Hl ltac:(lia)) as (r & l1 & E & Hok1 & Hm1 & Hlt). unfold bind. rewrite E. cbn [mbind option_bind].
  destruct (Hlt Ht) as [(a & x & ->)|Hlt']; [by exists (Error a x), l1|]. destruct r as [a|a x]; [|by exists (Error a x), l1]. cbn [ok].
  destruct (Hk a l1 Hok1 ltac:(lia)) as (r & l' & -> & Hok' & Hm'). exists r, l'. split; [done|]. split; [done|lia].
Qed.

Lemma content_total n : forall fuel content, (n < fuel)%nat -> total n (string_content fuel content).
Proof.
  induction n as [|n IH]; intros fuel content Hf l Hok Hm; (destruct fuel as [|fuel]; [lia|]); cbn [string_content]; unfold bind at 1;
    destruct (peek_total l Hok) as (t & l1 & -> & Hl1 & Hm1 & _); cbn [mbind option_bind].
  - destruct (decide (type t = END)) as [Ht|Ht].
    + rewrite Ht. destruct (total_next 0 (fun _ => ret (Good (ShellString content))) (fun _ => total_ret _ _) l1 (proj1 Hl1) ltac:(lia)) as (r & l' & E & Hok' & Hm').
      exists r, l'. split; [done|]. split; [done|lia].
    + destruct Hl1 as (_ & _ & l2 & _ & _ & _ & Hlt). specialize (Hlt Ht). lia.
  - assert (forall P, returns (S n) P -> type t <> END -> exists r l', (r <- P;; ok r (fun a => string_content fuel (content ++ [a])))%parse l1 = Some (r, l') /\ lexer_ok l' /\ (measure l' <= measure l)%nat) as Hturn.
    { intros P HP Ht. destruct (turn n (S n) P _ HP ltac:(lia) (fun a => IH fuel (content ++ [a]) ltac:(lia)) l1 t Hl1 Ht ltac:(lia)) as (r & l' & E & Hok' & Hm'). exists r, l'. split; [done|]. split; [done|lia]. }
    assert (exists r l', bind next_token (fun _ => ret (Good (ShellString content))) l1 = Some (r, l') /\ lexer_ok l' /\ (measure l' <= measure l)%nat) as Hend.
    { destruct (total_next (S n) (fun _ => ret (Good (ShellString content))) (fun _ => total_ret _ _) l1 (proj1 Hl1) ltac:(lia)) as (r & l' & E & Hok' & Hm'). exists r, l'. split; [done|]. split; [done|lia]. }
    assert (exists r l', ret (Error t IDENTIFIER) l1 = Some (r, l') /\ lexer_ok l' /\ (measure l' <= measure l)%nat) as Herr by (exists (Error t IDENTIFIER), l1; split; [done|]; split; [apply Hl1|done]).
    destruct (type t) eqn:Et; try exact Hend; try exact Herr; apply Hturn; try done; try apply returns_expect. apply returns_env_var.
Qed.

Lemma returns_string n fuel : (n < fuel)%nat -> returns n (Parser.parse_string fuel).
Proof. intros Hf. apply returns_next. intros t. apply total_if; [|apply total_ret]. by apply content_total. Qed.

Lemma returns_flag n : returns n parse_flag.
Proof.
  apply returns_next. intros t. apply total_next. intros t2. apply total_if; [|apply total_ret].
  destruct (type t2); try apply total_ret. apply total_next. intros t3. apply total_if; apply total_ret.
Qed.
(** A method that looks at the first token and goes on. *)
Lemma returns_peek n f : (forall t, returns n (f t)) -> returns n (bind peek_token f).
Proof.
  intros Hf l t Hl Hm. unfold bind. rewrite (proj1 (proj2 Hl)). cbn [mbind option_bind]. by apply (Hf t).
Qed.

Lemma returns_error n t x : returns n (ret (Error t x)).
Proof. intros l t0 Hl Hm. exists (Error t x), l. split; [done|]. split; [apply Hl|]. split; [done|]. intros _. left. eauto. Qed.

Lemma returns_argument n fuel : (n < fuel)%nat -> returns n (parse_argument fuel).
Proof.
  intros Hf. apply returns_peek. intros t. destruct (type t); try apply returns_error; [apply returns_expect|apply returns_expect|apply returns_env_var|apply returns_flag|by apply returns_string].
Qed.

(** The results of a loop at the end of its input. *)
Lemma total_from l l1 (P : Parse ParsedInput) : (measure l1 <= measure l)%nat ->
  (exists r l', P l1 = Some (r, l') /\ lexer_ok l' /\ (measure l' <= measure l1)%nat) -> exists r l', P l1 = Some (r, l') /\ lexer_ok l' /\ (measure l' <= measure l)%nat.
Proof. intros Hm (r & l' & E & Hok & Hm'). exists r, l'. split; [done|]. split; [done|lia]. Qed.

Lemma arguments_total n : forall fuel cmd args, (n < fuel)%nat -> total n (arguments fuel cmd args).
Proof.
  induction n as [|n IH]; intros fuel cmd args Hf l Hok Hm; (destruct fuel as [|fuel]; [lia|]); cbn [arguments]; unfold bind at 1;
    destruct (peek_total l Hok) as (t & l1 & -> & Hl1 & Hm1 & _); cbn [mbind option_bind]; apply total_from; try done.
  - destruct (decide (type t = END)) as [Ht|Ht]; [rewrite Ht; apply (total_ret 0); [apply Hl1|lia]|]. destruct Hl1 as (_ & _ & l2 & _ & _ & _ & Hlt). specialize (Hlt Ht). lia.
  - assert (total (S n) (bind next_token (fun _ => bind next_token (fun redirect_token =>
      match type redirect_token with PATH | IDENTIFIER => ret (Good (CommandSequence cmd args (text redirect_token))) | _ => ret (Error redirect_token PATH) end)))) as Hr.
    { apply total_next. intros _. apply total_next. intros t2. destruct (type t2); apply total_ret. }
    pose proof (turn n (S n) _ _ (returns_argument (S n) (S fuel) Hf) ltac:(lia) (fun a => IH fuel cmd (args ++ [a]) ltac:(lia)) l1 t Hl1) as Hturn.
    destruct (type t); first [apply (total_ret (S n)); [apply Hl1|lia]|apply Hr; [apply Hl1|lia]|apply Hturn; [done|lia]].
Qed.

Lemma value_total n : forall fuel v acc, (n < fuel)%nat -> total n (decl_value fuel v acc).
Proof.
  induction n as [|n IH]; intros fuel v acc Hf l Hok Hm; (destruct fuel as [|fuel]; [lia|]); cbn [decl_value]; unfold bind at 1;
    destruct (peek_total l Hok) as (t & l1 & -> & Hl1 & Hm1 & _); cbn [mbind option_bind]; apply total_from; try done.
  - assert (exists r l', (if is_empty acc then bind peek_token (fun t => ret (Error t IDENTIFIER)) else ret (Good (EnvVarDecl v acc))) l1 = Some (r, l') /\ lexer_ok l' /\ (measure l' <= measure l1)%nat) as Hend.
    { destruct (is_empty acc); [|apply (total_ret 0); [apply Hl1|lia]]. unfold bind. rewrite (proj1 (proj2 Hl1)). by eexists _, l1; split; [|split; [apply Hl1|]]. }
    destruct (decide (type t = END)) as [Ht|Ht]; [rewrite Ht; exact Hend|]. destruct Hl1 as (_ & _ & l2 & _ & _ & _ & Hlt). specialize (Hlt Ht). lia.
  - assert (exists r l', (if is_empty acc then bind peek_token (fun t => ret (Error t IDENTIFIER)) else ret (Good (EnvVarDecl v acc))) l1 = Some (r, l') /\ lexer_ok l' /\ (measure l' <= measure l1)%nat) as Hend.
    { destruct (is_empty acc); [|apply (total_ret (S n)); [apply Hl1|lia]]. unfold bind. rewrite (proj1 (proj2 Hl1)). by eexists _, l1; split; [|split; [apply Hl1|]]. }
    assert (forall P, returns (S n) P -> type t <> END -> exists r l', (r <- P;; ok r (fun a => decl_value fuel v (acc ++ [a])))%parse l1 = Some (r, l') /\ lexer_ok l' /\ (measure l' <= measure l1)%nat) as Hturn.
    { intros P HP Ht. exact (turn n (S n) P _ HP ltac:(lia) (fun a => IH fuel v (acc ++ [a]) ltac:(lia)) l1 t Hl1 Ht ltac:(lia)). }
    destruct (type t); try exact Hend; try (apply (total_ret (S n)); [apply Hl1|lia]); apply Hturn; try done; try apply returns_expect;
      first [apply returns_env_var|by apply returns_string].
Qed.

Lemma total_peek n f : (forall t, total n (f t)) -> total n (bind peek_token f).
Proof.
  intros Hf l Hok Hm. unfold bind. destruct (peek_total l Hok) as (t & l1 & -> & Hl1 & Hm1 & _). cbn [mbind option_bind]. apply total_from; [done|]. apply Hf; [apply Hl1|lia].
Qed.

Lemma input_total n fuel : (n < fuel)%nat -> total n (parse_input fuel).
Proof.
  intros Hf. apply total_peek. intros t. assert (total n (parse_command_sequence fuel)) as Hc.
  { apply total_peek. intros t2. apply total_ok; [apply total_if; apply total_expect|]. intros a. by apply arguments_total. }
  assert (total n (bind peek_token (fun t => ret (Error t IDENTIFIER)))) as He by (apply total_peek; intros; apply total_ret).
  destruct (type t); try exact Hc; try exact He. apply total_ok; [apply total_env_var|]. intros v. apply total_next. intros t2. apply total_if; [|apply total_ret]. by apply value_total.
Qed.

(** C23: The parser returns on every line of at most 64 characters that are not control characters: with a syntax
    tree or with an error, every loop of the lexer and of the parser ends, and no word runs over its
    buffer. *)
Theorem parser_returns line : Forall (fun c => 32 <= c) line -> (length line <= BUF_SIZE)%nat -> exists r, parse_shell_input line = Some r.
Proof.
  intros Hp Hl. destruct (input_total (2 * length line) (2 * length line + 2) ltac:(lia) (new_lexer line)) as (r & l' & E & _).
  - split; [done|done].
  - unfold measure. change (rest (new_lexer line)) with line. cbn. lia.
  - exists r. unfold parse_shell_input. by rewrite E.
Qed.
End Termination.

(** ** The line editor

    The line is the characters left of the cursor and those from it on. *)
Module EditorProps.
Import LineEditor.

Record View := mkView { left : list Z; right : list Z; v_history : list (list Z); v_cursor : nat; v_backup : list Z }.

Definition line (v : View) : list Z := left v ++ right v.

(** A line that fits in front of the terminator. *)
Definition line_ok (s : list Z) : Prop := Forall (fun c => c <> 0) s /\ zlen s < INPUT_BUFFER_LIMIT.

Inductive Key := KChar (ch : Z) | KDelete (forward : bool) | KLeft | KRight | KUp | KDown | KEnter.

Definition with_line (l r : list Z) (v : View) : View := mkView l r (v_history v) (v_cursor v) (v_backup v).

(** A key on the abstract line; the 128th character has no room for the terminator. *)
Definition press (k : Key) (v : View) : option (View * option (list Z)) :=
  match k with
  | KChar ch => if zlen (line v) + 1 <? INPUT_BUFFER_LIMIT then Some (with_line (left v ++ [ch]) (right v) v, None) else None
  | KDelete true => Some (with_line (left v) (tail (right v)) v, None)
  | KDelete false => Some (with_line (removelast (left v)) (right v) v, None)
  | KLeft => Some (match last (left v) with Some c => with_line (removelast (left v)) (c :: right v) v | None => v end, None)
  | KRight => Some (match right v with c :: r => with_line (left v ++ [c]) r v | [] => v end, None)
  | KUp =>
      let backup := if (v_cursor v =? length (v_history v))%nat then line v else v_backup v in
      let c := (v_cursor v - 1)%nat in
      Some (match v_history v !! c with
            | Some s => mkView s [] (v_history v) c backup
            | None => mkView (left v) (right v) (v_history v) c backup
            end, None)
  | KDown =>
      Some (if (v_cursor v <? length (v_history v))%nat then
              mkView (default (v_backup v) (v_history v !! S (v_cursor v))) [] (v_history v) (S (v_cursor v)) (v_backup v)
            else v, None)
  | KEnter =>
      match line v with
      | [] => Some (v, None)
      | s => Some (mkView [] [] (v_history v ++ [s]) (S (length (v_history v))) (v_backup v), Some s)
      end
  end.

Definition press_impl (k : Key) (e : Environment) : option (Environment * option (list Z)) :=
  match k with
  | KChar ch => e ← input_append ch e; Some (e, None)
  | KDelete forward => e ← input_delete forward e; Some (e, None)
  | KLeft => Some (cursor_move_left e, None)
  | KRight => Some (cursor_move_right e, None)
  | KUp => e ← command_history_scroll_up e; Some (e, None)
  | KDown => e ← command_history_scroll_down e; Some (e, None)
  | KEnter => let '(cmd, e) := enter e in Some (e, cmd)
  end.

(** A line of a terminal and its cursor. *)
Definition Screen : Type := list Z * nat.

Definition show (s : Screen) (o : Out) : Screen :=
  let '(l, pos) := s in
  match o with
  | Chars cs => (take pos l ++ cs ++ drop (pos + length cs) l, (pos + length cs)%nat)
  | EraseToEnd => (take pos l, pos)
  | CursorLeft n => (l, (pos - Z.to_nat n)%nat)
  | CursorRight n => (l, (pos + Z.to_nat n)%nat)
  | BackSpace => (l, (pos - 1)%nat)
  | NewLine => ([], 0%nat)
  end.

Definition shown (o : list Out) : Screen := foldl show ([], 0%nat) o.

(** The environment holds the line, the terminator and zeros behind it, and the terminal shows it. *)
Record views (e : Environment) (v : View) : Prop := {
  vw_buffer : input_buffer e = line v ++ replicate (128 - length (line v)) 0;
  vw_size : input_buffer_size e = zlen (line v);
  vw_cursor : input_buffer_cursor e = zlen (left v);
  vw_line : line_ok (line v);
  vw_history : command_history e = v_history v;
  vw_hcursor : command_history_cursor e = v_cursor v;
  vw_backup : input_buffer_backup e = v_backup v;
  vw_entries : Forall line_ok (v_history v) /\ line_ok (v_backup v);
  vw_pos : (v_cursor v <= length (v_history v))%nat;
  vw_shown : shown (out e) = (line v, length (left v)) }.

Lemma views_new : views new_environment (mkView [] [] [] 0 []).
Proof. by constructor. Qed.

Lemma shown_app o1 o2 : shown (o1 ++ o2) = foldl show (shown o1) o2.
Proof. apply foldl_app. Qed.

(** The zeros behind a line. *)
Definition padded (s : list Z) : list Z := s ++ replicate (128 - length s) 0.

Lemma padded_length s : zlen s < 128 -> zlen (padded s) = 128.
Proof. unfold padded, zlen. rewrite length_app, length_replicate. lia. Qed.

Lemma until_zero_padded s n : Forall (fun c => c <> 0) s -> (0 < n)%nat -> until_zero (s ++ replicate n 0) = Some s.
Proof.
  intros Hs Hn. induction Hs as [|c s Hc Hs IH]; cbn [app until_zero]; [by destruct n; [lia|]|]. rewrite (proj2 (Z.eqb_neq _ _) Hc), IH. done.
Qed.

Lemma printed_padded l r : Forall (fun c => c <> 0) (l ++ r) -> zlen (l ++ r) < 128 -> printed (padded (l ++ r)) (zlen l) = Some r.
Proof.
  intros [_ Hr]%Forall_app Hz. unfold printed, padded. rewrite (proj2 (Z.ltb_ge _ _)) by apply zlen_nonneg. unfold zlen at 1. rewrite Nat2Z.id, <- app_assoc, drop_app_length.
  apply until_zero_padded; [done|]. unfold zlen in Hz. lia.
Qed.
(** ** The buffer *)
Lemma insert_result l r ch : zlen (l ++ r) < 128 ->
  exists b, move_chars (padded (l ++ r)) (zlen l + 1) (zlen l) (zlen r) = Some b /\ aset b (zlen l) ch = Some (padded (l ++ ch :: r)).
Proof.
  intros Hz. pose proof (padded_length (l ++ r) Hz) as Hp. pose proof (zlen_nonneg l). pose proof (zlen_nonneg r). rewrite zlen_app in Hz. unfold move_chars.
  rewrite Hp. rewrite !(proj2 (Z.leb_le _ _)) by lia. cbn [andb]. eexists. split; [done|].
  set (n := (128 - length (l ++ r))%nat). assert (exists x y, r ++ replicate n 0 = x :: y) as (x & y & Exy).
  { destruct r as [|x r]; [|by eexists x, _]. assert (0 < n)%nat as Hn by (subst n; unfold zlen in Hz; rewrite length_app; cbn in *; lia).
    destruct n as [|n']; [lia|]. by eexists 0, _. }
  assert (take (Z.to_nat (zlen l + 1)) (padded (l ++ r)) ++ take (Z.to_nat (zlen r)) (drop (Z.to_nat (zlen l)) (padded (l ++ r))) ++ drop (Z.to_nat (zlen l + 1 + zlen r)) (padded (l ++ r))
    = l ++ x :: r ++ replicate (n - 1) 0) as ->.
  { unfold padded. fold n. rewrite <- app_assoc. unfold zlen. replace (Z.to_nat (Z.of_nat (length l) + 1)) with (length l + 1)%nat by lia.
    rewrite !Nat2Z.id. rewrite take_app_add, Exy. cbn [take]. rewrite drop_app_length, <- Exy, take_app_length.
    replace (Z.to_nat (Z.of_nat (length l) + 1 + Z.of_nat (length r))) with (length l + (length r + 1))%nat by lia. rewrite !drop_app_add. rewrite drop_replicate, <- app_assoc. done. }
  unfold aset, zlen. rewrite decide_True by (rewrite length_app; cbn [length]; lia). rewrite Nat2Z.id, insert_app_r_alt, Nat.sub_diag by lia. cbn [insert list_insert].
  unfold padded. rewrite <- app_assoc. cbn [app]. f_equal. f_equal. f_equal. f_equal. f_equal. subst n. rewrite !length_app. cbn [length]. lia.
Qed.

Lemma remove_char l c r : zlen (l ++ c :: r) < 128 ->
  exists b, move_chars (padded (l ++ c :: r)) (zlen l) (zlen l + 1) (zlen r) = Some b /\ aset b (zlen l + zlen r) 0 = Some (padded (l ++ r)).
Proof.
  intros Hz. pose proof (padded_length _ Hz) as Hp. pose proof (zlen_nonneg l). pose proof (zlen_nonneg r). rewrite zlen_app, zlen_cons in Hz. unfold move_chars.
  rewrite Hp. rewrite !(proj2 (Z.leb_le _ _)) by lia. cbn [andb]. eexists. split; [done|]. set (n := (128 - length (l ++ c :: r))%nat).
  assert (exists y x, c :: r = y ++ [x]) as (y & x & Ey) by (eexists _, _; by apply (app_removelast_last 0)).
  assert (length y = length r) as Hy by (apply (f_equal length) in Ey; rewrite length_app in Ey; cbn in Ey; lia).
  assert (take (Z.to_nat (zlen l)) (padded (l ++ c :: r)) ++ take (Z.to_nat (zlen r)) (drop (Z.to_nat (zlen l + 1)) (padded (l ++ c :: r))) ++ drop (Z.to_nat (zlen l + zlen r)) (padded (l ++ c :: r))
    = (l ++ r) ++ x :: replicate n 0) as ->.
  { unfold padded. fold n. rewrite <- !app_assoc. unfold zlen. rewrite !Nat2Z.id, take_app_length.
    replace (Z.to_nat (Z.of_nat (length l) + 1)) with (length l + 1)%nat by lia. rewrite drop_app_add. cbn [app drop]. rewrite drop_0.
    rewrite take_app_length.
    replace (Z.to_nat (Z.of_nat (length l) + Z.of_nat (length r))) with (length l + length r)%nat by lia. rewrite drop_app_add.
    change (c :: r ++ replicate n 0) with ((c :: r) ++ replicate n 0). rewrite Ey, <- Hy, <- app_assoc, drop_app_length. done. }
  unfold aset. replace (zlen l + zlen r) with (zlen (l ++ r)) by apply zlen_app. unfold zlen. rewrite decide_True by (rewrite (length_app (l ++ r)); cbn [length]; lia).
  rewrite Nat2Z.id, insert_app_r_alt, Nat.sub_diag by lia. cbn [insert list_insert]. unfold padded. f_equal. f_equal.
  change (0 :: replicate n 0) with (replicate (S n) 0). f_equal. subst n. unfold zlen in Hz. rewrite !length_app. cbn [length]. lia.
Qed.

(** ** The screen *)
Lemma show_redraw x l s : take (length l) x = l -> foldl show (x, length l) [EraseToEnd; Chars s] = (l ++ s, length (l ++ s)).
Proof.
  intros E. cbn [foldl show]. rewrite E, firstn_all, (drop_ge l) by lia. by rewrite app_nil_r, length_app.
Qed.

Lemma show_left x n p : foldl show (x, p) [CursorLeft n] = (x, (p - Z.to_nat n)%nat).
Proof. done. Qed.

(** Erase, redraw what is right of the cursor, and go back. *)
Lemma show_rest x l s : take (length l) x = l -> foldl show (x, length l) ([EraseToEnd; Chars s] ++ (if 0 <? zlen s then [CursorLeft (zlen s)] else [])) = (l ++ s, length l).
Proof.
  intros E. rewrite foldl_app, show_redraw by done. rewrite length_app. destruct (0 <? zlen s) eqn:Ez.
  - rewrite show_left. unfold zlen. rewrite Nat2Z.id. f_equal. lia.
  - apply Z.ltb_ge in Ez. unfold zlen in Ez. destruct s; [|cbn in Ez; lia]. cbn. f_equal. lia.
Qed.
(** ** Keys *)
Lemma views_bounds e v : views e v -> zlen (left v) + zlen (right v) = input_buffer_size e /\ 0 <= zlen (left v) /\ 0 <= zlen (right v) /\ input_buffer_size e < 128.
Proof.
  intros V. pose proof (vw_line _ _ V) as [_ Hl]. rewrite (vw_size _ _ V). unfold line in *. rewrite zlen_app in *. unfold INPUT_BUFFER_LIMIT in Hl.
  pose proof (zlen_nonneg (left v)). pose proof (zlen_nonneg (right v)). lia.
Qed.

(** A new line in the buffer, shown on the screen. *)
Lemma views_change e v l r o : views e v -> line_ok (l ++ r) -> foldl show (line v, length (left v)) o = (l ++ r, length l) ->
  views (write o (with_input (padded (l ++ r)) (zlen (l ++ r)) (zlen l) e)) (with_line l r v).
Proof.
  intros V Hok Ho. destruct V. constructor; try done. cbn. by rewrite shown_app, vw_shown0.
Qed.

Lemma typed_char_result e v ch : views e v -> ch <> 0 -> zlen (line v) + 1 < INPUT_BUFFER_LIMIT ->
  exists e', input_append ch e = Some e' /\ views e' (with_line (left v ++ [ch]) (right v) v).
Proof.
  intros V Hch Hlt. destruct (views_bounds e v V) as (Hs & H1 & H2 & H3). pose proof (vw_line _ _ V) as [Hz _]. pose proof (vw_buffer _ _ V) as Eb. pose proof (vw_size _ _ V) as Es.
  unfold INPUT_BUFFER_LIMIT in *. unfold input_append. rewrite (vw_cursor _ _ V), <- Hs. change (line v ++ _) with (padded (line v)) in Eb. unfold line in *. rewrite zlen_app in *.
  rewrite (proj2 (Z.leb_gt _ _)) by (unfold INPUT_BUFFER_LIMIT; lia). replace (zlen (left v) + zlen (right v) - zlen (left v)) with (zlen (right v)) by lia.
  rewrite (wrap_small 64) by (unfold in_width; word_lia). rewrite Eb.
  destruct (insert_result (left v) (right v) ch ltac:(rewrite zlen_app; lia)) as (b & -> & Ea). cbn [mbind option_bind]. rewrite Ea. cbn [mbind option_bind].
  assert (Forall (fun c => c <> 0) (left v ++ ch :: right v)) as Hz' by (apply Forall_app in Hz as [Hz1 Hz2]; apply Forall_app; split; [done|by constructor]).
  rewrite printed_padded by (done || rewrite zlen_app, zlen_cons; lia). cbn [mbind option_bind]. eexists. split; [done|].
  rewrite (wrap_small 8) by (unfold in_width; word_lia). replace (zlen (left v) + zlen (right v) + 1 - (zlen (left v) + 1)) with (zlen (right v)) by lia.
  rewrite (wrap_small 64) by (unfold in_width; word_lia).
  replace (left v ++ ch :: right v) with ((left v ++ [ch]) ++ right v) in * by (by rewrite <- app_assoc).
  replace (zlen (left v) + zlen (right v) + 1) with (zlen ((left v ++ [ch]) ++ right v)) by (rewrite !zlen_app; change (zlen [ch]) with 1; lia).
  replace (zlen (left v) + 1) with (zlen (left v ++ [ch])) by (rewrite zlen_app; done). apply views_change; [done| |].
  - split; [done|]. rewrite !zlen_app. change (zlen [ch]) with 1. unfold INPUT_BUFFER_LIMIT. lia.
  - assert (take (length (left v)) (line v) = left v) as Et by (unfold line; apply take_app_length). rewrite foldl_app.
    destruct (0 <? zlen (right v)) eqn:Er.
    + change (foldl show (line v, length (left v)) [EraseToEnd]) with (foldl show (take (length (left v)) (line v), length (left v)) []). rewrite Et. cbn [foldl].
      rewrite foldl_app. cbn [foldl show]. rewrite firstn_all, drop_ge by (cbn; lia). rewrite app_nil_r, <- app_assoc. f_equal. rewrite !length_app. unfold zlen. cbn [length]. lia.
    + apply Z.ltb_ge in Er. assert (right v = []) as Hr by (unfold zlen in *; destruct (right v); [done|cbn in *; lia]). unfold line. rewrite Hr, !app_nil_r. cbn [foldl app show].
      rewrite firstn_all, drop_ge by lia. by rewrite length_app.
Qed.

Lemma until_zero_none s : Forall (fun c => c <> 0) s -> until_zero s = None.
Proof. induction 1 as [|c s Hc Hs IH]; [done|]. cbn. by rewrite (proj2 (Z.eqb_neq _ _) Hc), IH. Qed.

(** The 128th character: the text printed has no end. *)
Lemma append_overrun e v ch : views e v -> ch <> 0 -> INPUT_BUFFER_LIMIT <= zlen (line v) + 1 -> input_append ch e = None.
Proof.
  intros V Hch Hge. destruct (views_bounds e v V) as (Hs & H1 & H2 & H3). pose proof (vw_line _ _ V) as [Hz Hlt]. pose proof (vw_buffer _ _ V) as Eb.
  unfold INPUT_BUFFER_LIMIT in *. unfold input_append. rewrite (vw_cursor _ _ V), <- Hs. change (line v ++ _) with (padded (line v)) in Eb. unfold line in *. rewrite zlen_app in *.
  rewrite (proj2 (Z.leb_gt _ _)) by (unfold INPUT_BUFFER_LIMIT; lia). replace (zlen (left v) + zlen (right v) - zlen (left v)) with (zlen (right v)) by lia.
  rewrite (wrap_small 64) by (unfold in_width; word_lia). rewrite Eb.
  destruct (insert_result (left v) (right v) ch ltac:(rewrite zlen_app; lia)) as (b & -> & Ea). cbn [mbind option_bind]. rewrite Ea. cbn [mbind option_bind].
  assert (printed (padded (left v ++ ch :: right v)) (zlen (left v)) = None) as ->; [|done].
  unfold printed, padded. rewrite (proj2 (Z.ltb_ge (zlen (left v)) 0)) by lia. unfold zlen. rewrite Nat2Z.id, <- app_assoc, drop_app_length.
  replace (128 - length (left v ++ ch :: right v))%nat with 0%nat by (unfold zlen in *; rewrite length_app; cbn [length]; lia). cbn [replicate]. rewrite app_nil_r.
  apply Forall_app in Hz as [_ Hz]. apply until_zero_none. by constructor.
Qed.

Lemma delete_forward_result e v : views e v -> exists e', input_delete true e = Some e' /\ views e' (with_line (left v) (tail (right v)) v).
Proof.
  intros V. destruct (views_bounds e v V) as (Hs & H1 & H2 & H3). pose proof (vw_line _ _ V) as [Hz _]. pose proof (vw_buffer _ _ V) as Eb. change (line v ++ _) with (padded (line v)) in Eb.
  unfold input_delete. rewrite (vw_cursor _ _ V), <- Hs. cbn [negb]. rewrite andb_false_r, andb_true_r. cbn [orb]. unfold line in *.
  destruct (right v) as [|c r] eqn:Er.
  { rewrite (proj2 (Z.leb_le _ _)) by (rewrite zlen_nil; lia). exists e. split; [done|]. unfold with_line. cbn [tail]. rewrite <- Er. by destruct v. }
  rewrite zlen_cons in *. pose proof (zlen_nonneg r). rewrite (proj2 (Z.leb_gt _ _)) by lia.
  replace (zlen (left v) + (1 + zlen r) - (zlen (left v) + 1)) with (zlen r) by lia. rewrite (wrap_small 64) by (unfold in_width; word_lia). rewrite Eb.
  destruct (remove_char (left v) c r ltac:(rewrite zlen_app, zlen_cons; lia)) as (b & -> & Ea). cbn [mbind option_bind].
  rewrite (wrap_small 8) by (unfold in_width; word_lia). replace (zlen (left v) + (1 + zlen r) - 1) with (zlen (left v) + zlen r) by lia. rewrite Ea. cbn [mbind option_bind].
  assert (Forall (fun c => c <> 0) (left v ++ r)) as Hz' by (apply Forall_app in Hz as [Hz1 Hz2]; apply Forall_app; split; [done|by inversion Hz2]).
  rewrite printed_padded by (done || rewrite zlen_app; lia). cbn [mbind option_bind tail]. eexists. split; [done|].
  replace (zlen (left v) + zlen r - zlen (left v)) with (zlen r) by lia. rewrite (wrap_small 64) by (unfold in_width; word_lia). rewrite <- zlen_app.
  apply views_change; [done|split; [done|rewrite zlen_app; unfold INPUT_BUFFER_LIMIT; lia]|].
  replace (1 <=? zlen r) with (0 <? zlen r) by (destruct (0 <? zlen r) eqn:E; bool_prop; symmetry; [apply Z.leb_le|apply Z.leb_gt]; lia).
  apply (show_rest (line v) (left v) r). unfold line. apply take_app_length.
Qed.

Lemma delete_back_result e v : views e v -> exists e', input_delete false e = Some e' /\ views e' (with_line (removelast (left v)) (right v) v).
Proof.
  intros V. destruct (views_bounds e v V) as (Hs & H1 & H2 & H3). pose proof (vw_line _ _ V) as [Hz _]. pose proof (vw_buffer _ _ V) as Eb. change (line v ++ _) with (padded (line v)) in Eb.
  unfold input_delete. rewrite (vw_cursor _ _ V), <- Hs. cbn [negb]. rewrite andb_false_r, andb_true_r, orb_false_r. unfold line in *.
  destruct (left v) as [|c l _] eqn:El using rev_ind.
  { exists e. split; [done|]. unfold with_line. cbn [removelast]. rewrite <- El. by destruct v. }
  rewrite removelast_last, zlen_app in *. change (zlen [c]) with 1 in *. pose proof (zlen_nonneg l). rewrite (proj2 (Z.eqb_neq _ _)) by lia.
  replace (zlen l + 1 + zlen (right v) - (zlen l + 1)) with (zlen (right v)) by lia. rewrite (wrap_small 64) by (unfold in_width; word_lia). rewrite Eb.
  replace (zlen l + 1 - 1) with (zlen l) by lia. rewrite <- app_assoc in *. cbn [app] in *.
  destruct (remove_char l c (right v) ltac:(rewrite zlen_app, zlen_cons; lia)) as (b & -> & Ea). cbn [mbind option_bind].
  rewrite (wrap_small 8) by (unfold in_width; word_lia). replace (zlen l + 1 + zlen (right v) - 1) with (zlen l + zlen (right v)) by lia. rewrite Ea. cbn [mbind option_bind].
  assert (Forall (fun c => c <> 0) (l ++ right v)) as Hz' by (apply Forall_app in Hz as [Hz1 Hz2]; apply Forall_app; split; [done|by inversion Hz2]).
  rewrite printed_padded by (done || rewrite zlen_app; lia). cbn [mbind option_bind]. eexists. split; [done|].
  replace (zlen l + zlen (right v) - zlen l) with (zlen (right v)) by lia. rewrite (wrap_small 64) by (unfold in_width; word_lia). rewrite <- zlen_app.
  apply views_change; [done|split; [done|rewrite zlen_app; unfold INPUT_BUFFER_LIMIT; lia]|]. rewrite El, length_app. cbn [length].
  etransitivity; [|exact (show_rest (line v) l (right v) ltac:(unfold line; rewrite El, <- app_assoc; apply take_app_length))]. cbn [app foldl show].
  replace (length l + 1 - 1)%nat with (length l) by lia. done.
Qed.
Lemma line_nil : line_ok [].
Proof. split; [constructor|done]. Qed.

(** The buffer is zeroed and nothing is left of the line. *)
Lemma views_empty e v erase : views e v -> exists o, input_delete_all erase e = write o (with_input (padded []) 0 0 e) /\ (erase = true -> foldl show (line v, length (left v)) o = ([], 0%nat)) /\ (erase = false -> o = [])
  \/ input_delete_all erase e = e /\ left v = [] /\ right v = [].
Proof.
  intros V. destruct (views_bounds e v V) as (Hs & H1 & H2 & H3). pose proof (vw_buffer _ _ V) as Eb. unfold input_delete_all.
  destruct (input_buffer_size e =? 0) eqn:E0; bool_prop.
  { exists []. right. split; [done|]. unfold zlen in *. destruct (left v), (right v); cbn in *; [done|lia..]. }
  eexists. left. split; [|split].
  - f_equal. rewrite Eb, (vw_size _ _ V). unfold zlen. rewrite Nat2Z.id, drop_app_length, <- replicate_add. f_equal. unfold padded. cbn [length app].
    rewrite (vw_size _ _ V) in H3. unfold zlen in H3. f_equal. lia.
  - intros ->. rewrite (vw_cursor _ _ V). destruct (0 <? zlen (left v)) eqn:El; cbn [foldl show].
    + unfold zlen. rewrite Nat2Z.id, Nat.sub_diag. done.
    + apply Z.ltb_ge in El. unfold zlen in El. destruct (left v); [done|cbn in El; lia].
  - by intros ->.
Qed.

Lemma delete_all_result e v : views e v -> views (input_delete_all true e) (with_line [] [] v).
Proof.
  intros V. destruct (views_empty e v true V) as [o [(-> & Ho & _)|(-> & El & Er)]].
  - apply (views_change e v [] [] o V line_nil). by apply Ho.
  - unfold with_line. rewrite <- El at 1. rewrite <- Er. by destruct v.
Qed.

Lemma append_all_result str : forall e v, views e v -> right v = [] -> line_ok (left v ++ str) ->
  exists e', append_all str e = Some e' /\ views e' (with_line (left v ++ str) [] v).
Proof.
  induction str as [|ch str IH]; intros e v V Er [Hz Hl]; cbn [append_all].
  { exists e. split; [done|]. rewrite app_nil_r. unfold with_line. rewrite <- Er. by destruct v. }
  pose proof Hz as [_ [Hch Hz']%Forall_cons]%Forall_app. rewrite zlen_app, zlen_cons in Hl. pose proof (zlen_nonneg str).
  destruct (typed_char_result e v ch V Hch) as (e1 & -> & V1); [unfold line; rewrite Er, app_nil_r; lia|]. cbn [mbind option_bind].
  destruct (IH e1 _ V1) as (e2 & E2 & V2); [exact Er|split; cbn [left with_line]; rewrite <- app_assoc; [done|cbn [app]; rewrite zlen_app, zlen_cons; lia]|].
  exists e2. split; [done|]. cbn [left with_line] in V2. by rewrite <- app_assoc in V2.
Qed.

Lemma set_result e v str : views e v -> line_ok str -> exists e', input_set str e = Some e' /\ views e' (with_line str [] v).
Proof. intros V Hs. unfold input_set. exact (append_all_result str _ _ (delete_all_result e v V) eq_refl Hs). Qed.

Lemma input_line e v : views e v -> input e = line v.
Proof. intros V. unfold input. rewrite (vw_buffer _ _ V), (vw_size _ _ V). unfold zlen. rewrite Nat2Z.id. apply take_app_length. Qed.

Lemma views_history e v h c backup : views e v -> Forall line_ok h -> line_ok backup -> (c <= length h)%nat ->
  views (with_history h c backup e) (mkView (left v) (right v) h c backup).
Proof. intros V Hh Hb Hc. destruct V. by constructor. Qed.

Lemma up_result e v : views e v -> exists e' v', command_history_scroll_up e = Some e' /\ press KUp v = Some (v', None) /\ views e' v'.
Proof.
  intros V. pose proof (vw_entries _ _ V) as [Hh Hb]. pose proof (vw_pos _ _ V) as Hp. unfold command_history_scroll_up. rewrite (vw_history _ _ V), (vw_hcursor _ _ V), (vw_backup _ _ V), (input_line e v V).
  set (backup := if (v_cursor v =? length (v_history v))%nat then line v else v_backup v). assert (line_ok backup) as Hb' by (subst backup; destruct (_ =? _)%nat; [apply (vw_line _ _ V)|done]).
  assert ((if (0 <? v_cursor v)%nat then v_cursor v - 1 else v_cursor v)%nat = (v_cursor v - 1)%nat) as -> by (destruct (0 <? v_cursor v)%nat eqn:E; [done|]; apply Nat.ltb_ge in E; lia).
  pose proof (views_history e v _ (v_cursor v - 1) backup V Hh Hb' ltac:(lia)) as V1. cbn [press]. fold backup.
  destruct (v_history v !! (v_cursor v - 1)%nat) as [str|] eqn:Es; [|by eexists _, _].
  destruct (set_result _ _ str V1) as (e' & -> & V2); [exact (Forall_lookup_1 _ _ _ _ Hh Es)|]. by eexists _, _.
Qed.

Lemma down_result e v : views e v -> exists e' v', command_history_scroll_down e = Some e' /\ press KDown v = Some (v', None) /\ views e' v'.
Proof.
  intros V. pose proof (vw_entries _ _ V) as [Hh Hb]. unfold command_history_scroll_down. rewrite (vw_history _ _ V), (vw_hcursor _ _ V), (vw_backup _ _ V). cbn [press].
  destruct (v_cursor v <? length (v_history v))%nat eqn:E; [apply Nat.ltb_lt in E|by eexists _, _].
  pose proof (views_history e v _ (S (v_cursor v)) (v_backup v) V Hh Hb ltac:(lia)) as V1. cbn [command_history with_history input_buffer_backup].
  destruct (v_history v !! S (v_cursor v)) as [str|] eqn:Es.
  - destruct (set_result _ _ str V1) as (e' & -> & V2); [exact (Forall_lookup_1 _ _ _ _ Hh Es)|]. by eexists _, _.
  - destruct (set_result _ _ (v_backup v) V1 Hb) as (e' & E' & V2). eexists e', _. split; [exact E'|]. by split.
Qed.

Lemma left_result e v : views e v -> exists v', press KLeft v = Some (v', None) /\ views (cursor_move_left e) v'.
Proof.
  intros V. eexists. split; [done|]. unfold cursor_move_left. rewrite (vw_cursor _ _ V), (vw_buffer _ _ V), (vw_size _ _ V). change (line v ++ _) with (padded (line v)).
  destruct (left v) as [|c l _] eqn:El using rev_ind; [done|]. rewrite last_snoc, removelast_last, zlen_app. change (zlen [c]) with 1. pose proof (zlen_nonneg l).
  rewrite (proj2 (Z.ltb_lt _ _)) by lia. replace (zlen l + 1 - 1) with (zlen l) by lia. assert (line v = l ++ c :: right v) as Elv by (unfold line; by rewrite El, <- app_assoc).
  pose proof (vw_line _ _ V) as Hok. rewrite Elv in Hok |- *. apply views_change; [done|done|]. rewrite Elv, El, length_app. cbn. f_equal. lia.
Qed.

Lemma right_result e v : views e v -> exists v', press KRight v = Some (v', None) /\ views (cursor_move_right e) v'.
Proof.
  intros V. destruct (views_bounds e v V) as (Hs & H1 & H2 & H3). eexists. split; [done|]. unfold cursor_move_right. rewrite (vw_cursor _ _ V), <- Hs, (vw_buffer _ _ V). change (line v ++ _) with (padded (line v)).
  destruct (right v) as [|c r] eqn:Er; [rewrite (proj2 (Z.ltb_ge _ _)) by (rewrite zlen_nil; lia); done|]. rewrite zlen_cons. pose proof (zlen_nonneg r).
  rewrite (proj2 (Z.ltb_lt _ _)) by lia. assert (line v = (left v ++ [c]) ++ r) as Elv by (unfold line; by rewrite Er, <- app_assoc).
  pose proof (vw_line _ _ V) as Hok. rewrite Elv in Hok |- *. replace (zlen (left v) + (1 + zlen r)) with (zlen ((left v ++ [c]) ++ r)) by (rewrite !zlen_app; change (zlen [c]) with 1; lia).
  replace (zlen (left v) + 1) with (zlen (left v ++ [c])) by (rewrite zlen_app; done). apply views_change; [done|done|]. rewrite Elv, length_app. done.
Qed.

Lemma enter_result e v : views e v -> exists v' cmd e', enter e = (cmd, e') /\ press KEnter v = Some (v', cmd) /\ views e' v'.
Proof.
  intros V. destruct (views_bounds e v V) as (Hs & H1 & H2 & H3). unfold enter, press. cbn [input_buffer_size write].
  assert (line v = [] <-> input_buffer_size e = 0) as Hl by (rewrite (vw_size _ _ V); unfold zlen; split; [by intros ->|destruct (line v); [done|cbn; lia]]).
  destruct (line v) as [|c r] eqn:El.
  - rewrite (proj1 Hl eq_refl). change (0 <? 0) with false. eexists v, None, _. split; [done|]. split; [done|].
    assert (left v = [] /\ right v = []) as [E1 E2] by (unfold line in El; by apply app_eq_nil in El). destruct V. constructor; try done. cbn. rewrite shown_app. cbn.
    rewrite El, E1. destruct (shown (out e)). done.
  - rewrite (proj2 (Z.ltb_lt _ _)) by (destruct (decide (input_buffer_size e = 0)) as [E|E]; [by apply Hl in E|lia]).
    change (input (write [NewLine] e)) with (input e). cbn [command_history write input_buffer_backup]. rewrite (input_line e v V), (vw_history _ _ V), (vw_backup _ _ V), <- El.
    pose proof (vw_entries _ _ V) as [Hh Hb]. pose proof (vw_line _ _ V) as Hok. eexists _, _, _. split; [done|]. split; [rewrite El; done|].
    set (e1 := with_history _ _ _ _). assert (input_delete_all false e1 = with_input (padded []) 0 0 e1) as Ed.
    { destruct (views_empty e v false V) as [o [(E & _ & Ho)|(_ & E1 & E2)]]; [|unfold line in El; by rewrite E1, E2 in El]. rewrite (Ho eq_refl) in E.
      unfold input_delete_all in E |- *. subst e1. cbn [input_buffer_size input_buffer with_history write] in *.
      destruct (input_buffer_size e =? 0) eqn:E0; [apply Z.eqb_eq in E0; by apply Hl in E0|].
      pose proof (f_equal input_buffer E) as Ebuf. cbn [input_buffer write with_input] in Ebuf. rewrite Ebuf. unfold write, with_input. cbn. by rewrite app_nil_r. }
    rewrite Ed. subst e1. rewrite El in *. constructor; try done; cbn.
    + by rewrite length_app, Nat.add_1_r.
    + split; [apply Forall_app; split; [done|by constructor]|done].
    + rewrite length_app. cbn. lia.
    + rewrite shown_app. by destruct (shown (out e)).
Qed.
Definition key_ok (k : Key) : Prop := match k with KChar ch => ch <> 0 | _ => True end.

Lemma press_result e v k : views e v -> key_ok k ->
  match press k v with
  | Some (v', r) => exists e', press_impl k e = Some (e', r) /\ views e' v'
  | None => press_impl k e = None
  end.
Proof.
  intros V Hk. destruct k as [ch|[]| | | | |].
  - cbn [press press_impl key_ok] in *. destruct (zlen (line v) + 1 <? INPUT_BUFFER_LIMIT) eqn:E; [apply Z.ltb_lt in E|apply Z.ltb_ge in E].
    + destruct (typed_char_result e v ch V Hk E) as (e' & -> & V'). by exists e'.
    + by rewrite (append_overrun e v ch V Hk E).
  - cbn [press press_impl]. destruct (delete_forward_result e v V) as (e' & -> & V'). by exists e'.
  - cbn [press press_impl]. destruct (delete_back_result e v V) as (e' & -> & V'). by exists e'.
  - destruct (left_result e v V) as (v' & -> & V'). by eexists.
  - destruct (right_result e v V) as (v' & -> & V'). by eexists.
  - destruct (up_result e v V) as (e' & v' & E & -> & V'). exists e'. cbn [press_impl]. by rewrite E.
  - destruct (down_result e v V) as (e' & v' & E & -> & V'). exists e'. cbn [press_impl]. by rewrite E.
  - destruct (enter_result e v V) as (v' & cmd & e' & E & -> & V'). exists e'. cbn [press_impl]. by rewrite E.
Qed.

Fixpoint type_keys {A : Type} (step : Key -> A -> option (A * option (list Z))) (a : A) (ks : list Key) : option (A * list (option (list Z))) :=
  match ks with [] => Some (a, []) | k :: ks => '(a, r) ← step k a; '(a, rs) ← type_keys step a ks; Some (a, r :: rs) end.

Lemma keys_result ks : forall e v, views e v -> Forall key_ok ks ->
  match type_keys press v ks with
  | Some (v', rs) => exists e', type_keys press_impl e ks = Some (e', rs) /\ views e' v'
  | None => type_keys press_impl e ks = None
  end.
Proof.
  induction ks as [|k ks IH]; intros e v V Hks; cbn [type_keys]; [by exists e|]. inversion Hks as [|? ? Hk Hks']; subst.
  pose proof (press_result e v k V Hk) as Hp. destruct (press k v) as [[v1 r]|]; cbn [mbind option_bind]; [|by rewrite Hp]. destruct Hp as (e1 & -> & V1). cbn [mbind option_bind].
  specialize (IH e1 v1 V1 Hks'). destruct (type_keys press v1 ks) as [[v2 rs]|]; cbn [mbind option_bind]; [|by rewrite IH]. destruct IH as (e2 & -> & V2). by exists e2.
Qed.

(** C22: Whatever keys are typed, the input line, the executed commands and the history are those of a line with a
    cursor between two lists of characters, and the terminal shows exactly this line with its cursor there;
    the 128th character of a line is the only key that is not defined, since it leaves no terminator. *)
Theorem line_editor_refines_line ks : Forall key_ok ks ->
  match type_keys press (mkView [] [] [] 0 []) ks with
  | Some (v, rs) => exists e, type_keys press_impl new_environment ks = Some (e, rs) /\ input e = line v /\ input_buffer_cursor e = zlen (left v)
      /\ shown (out e) = (line v, length (left v)) /\ command_history e = v_history v
  | None => type_keys press_impl new_environment ks = None
  end.
Proof.
  intros Hks. pose proof (keys_result ks _ _ views_new Hks) as Hr. destruct (type_keys press _ ks) as [[v rs]|]; [|done].
  destruct Hr as (e & E & V). exists e. split; [done|]. split; [by apply input_line|]. destruct V. by split_and!.
Qed.
End EditorProps.

(** ** Examples *)
Module ShellExamples.
Import Lexer Ast Parser LexProps CommandLine Termination EditorProps LineEditor.

Definition no_env : Env := mkEnv {[ [120] := [49; 50] ]} [] [].

(** [ls -l --all $x 'it\'s a \$ b' > out], with [$x] being 12. *)
Definition ls : list Z := [108; 115].
Definition some_args : list Arg := [AFlag false [108]; AFlag true [97; 108; 108]; AVar [120]; AText [105; 116; 39; 115; 32; 97; 32; 36; 32; 98]].

Lemma command_line_roundtrip_witness :
  exec no_env [108; 115; 32; 45; 108; 32; 45; 45; 97; 108; 108; 32; 36; 120; 32; 39; 105; 116; 92; 39; 115; 32; 97; 32; 92; 36; 32; 98; 39; 32; 62; 32; 111; 117; 116]
  = Some (launch (ls, [[45; 108]; [45; 45; 97; 108; 108]; [49; 50]; [105; 116; 39; 115; 32; 97; 32; 36; 32; 98]], [111; 117; 116]) no_env, None).
Proof.
  apply (command_line_roundtrip no_env ls some_args [111; 117; 116] [[45; 108]; [45; 45; 97; 108; 108]; [49; 50]; [105; 116; 39; 115; 32; 97; 32; 36; 32; 98]] no_env).
  - split; [repeat constructor|]. split; [discriminate|]. split; [discriminate|apply Nat.leb_le; reflexivity].
  - repeat first [apply List.Forall_nil|apply List.Forall_cons]; cbn [arg_ok].
    + split; [repeat constructor|]. split; [discriminate|]. split; [discriminate|apply Nat.leb_le; reflexivity].
    + split; [repeat constructor|]. split; [discriminate|]. split; [discriminate|apply Nat.leb_le; reflexivity].
    + split; [repeat constructor|]. split; [discriminate|]. split; [discriminate|apply Nat.leb_le; reflexivity].
    + split; [repeat constructor; discriminate|apply Nat.leb_le; reflexivity].
  - right. split; [repeat constructor|]. split; [discriminate|]. split; [discriminate|apply Nat.leb_le; reflexivity].
  - vm_compute. reflexivity.
  - reflexivity.
Defined.

(** [a '$] ends in a string that is not closed. *)
Lemma parser_returns_witness : exists r, parse_shell_input [97; 32; 39; 36] = Some r.
Proof. apply (parser_returns [97; 32; 39; 36]); [repeat constructor; discriminate|apply Nat.leb_le; reflexivity]. Defined.

(** "ac", back to the middle, a "b" and the delete key, executed and fetched again. *)
Definition keys : list Key := [KChar 97; KChar 99; KLeft; KChar 98; KDelete true; KEnter; KChar 120; KUp; KDelete false].

Lemma line_editor_refines_line_witness : exists e, type_keys press_impl new_environment keys = Some (e, [None; None; None; None; None; Some [97; 98]; None; None; None])
  /\ input e = [97] /\ input_buffer_cursor e = 1 /\ shown (out e) = ([97], 1%nat) /\ command_history e = [[97; 98]].
Proof. apply (line_editor_refines_line keys). repeat first [apply List.Forall_nil|apply List.Forall_cons]; cbn; try exact I; discriminate. Defined.

(** A word of 65 letters overruns the buffer of the lexer; the input line takes 127 characters. *)
Example long_word_overruns : parse_shell_input (replicate 64 97) <> None /\ parse_shell_input (replicate 65 97) = None.
Proof. split; [vm_compute; discriminate|vm_compute; reflexivity]. Qed.

(** In front of a control character the lexer neither takes it nor stops. *)
Lemma control_character_hangs fuel ip l b : rest l = [9] -> (length b < BUF_SIZE)%nat -> word_loop fuel false ip l b = None.
Proof.
  intros E Hb. revert ip. induction fuel as [|fuel IH]; intros ip; [done|]. cbn [word_loop]. rewrite has_more_rest, peek_rest, E, (proj2 (Nat.ltb_lt _ _) Hb). cbn [is_empty negb andb head default from_option id].
  change (9 =? SPACE) with false. cbn [negb andb]. rewrite (take_chars_result _ [] _ l b [9] E); [|done|by destruct ip|cbn; lia|cbn; lia]. cbn [mbind option_bind length].
  rewrite moved_0, app_nil_r, peek_rest, E. apply IH.
Qed.

(** [$y=5] sets the variable to a space and 5. *)
Example declared_value_has_a_space : (fun x => env_var_table x.1 !! [121]) <$> exec no_env [36; 121; 61; 53] = Some (Some [32; 53]).
Proof. vm_compute. reflexivity. Qed.

(** A string without its closing quote, and what follows a redirection, go unnoticed. *)
Example unnoticed : (fun x => launched x.1) <$> exec no_env [97; 32; 39; 98] = Some [([97], [[98]], [])]
  /\ (fun x => launched x.1) <$> exec no_env [97; 32; 62; 32; 98; 32; 99; 32; 61] = Some [([97], [], [98])].
Proof. split; vm_compute; reflexivity. Qed.

(** A dollar in front of the closing quote takes the quote for the name of the variable. *)
Example dollar_eats_quote : (fun x => (launched x.1, messages x.1)) <$> exec no_env [97; 32; 39; 36; 39] = Some ([([97], [[]], [])], [VariableNotFound [39]]).
Proof. vm_compute. reflexivity. Qed.

(** The doc declares a variable by its name alone. *)
Example declaration_needs_dollar : match exec no_env [121; 61; 53] with Some (_, Some r) => Some (type r.1, r.2) | _ => None end = Some (ASSIGNMENT, IDENTIFIER).
Proof. vm_compute. reflexivity. Qed.
End ShellExamples.
